(* ===== verification/_CoqProject ===== *)
-Q . S2P
Prelude.v
JsCollections.v
EngineTypes.v
EngineGraph.v
EngineScc.v
EngineLoops.v
EngineSettlement.v
EnginePlan.v
EngineStore.v
EngineProgram.v
EngineBatch.v
EngineHandlers.v
EngineWorld.v
EngineOnce.v
EngineRun.v
EngineInputs.v
EngineSafety.v
EnginePlanEnds.v
EngineDuties.v
EngineAct.v
EngineLive.v
EngineQueue.v
EngineEvents.v
EngineViews.v
Workflow.v
PartialGraph.v
PartialFilter.v
PartialSubgraph.v
PartialStart.v
PartialStack.v
PartialTotal.v
PartialTrigger.v
SchedTypes.v
SchedStore.v
SchedTable.v
SchedExecutor.v
SchedWorld.v
SchedOnce.v
SchedInv.v
SchedSafety.v
SchedReaper.v
SchedRecurrence.v
SchedPlan.v
SchedPlanning.v
SchedCoalesce.v
SchedJobs.v
SchedMaterialize.v
SchedPasses.v
SchedRetention.v
SchedProvision.v
SchedProvisioned.v
SchedReconcile.v
TaskBroker.v
TaskBrokerRun.v
TaskBrokerInv.v
TaskBrokerSteps.v
TaskBrokerReach.v
TaskBrokerSafety.v
ExecTypes.v
ExecAdd.v
ExecNode.v
ExecOutput.v
ExecFrame.v
ExecLoop.v
ExecSteps.v
ExecTotal.v
ExecRun.v
ExecData.v
ExecResults.v
ExecCases.v
HistoryConnections.v
HistoryDiff.v
HistoryMerge.v
HistoryRules.v
HistoryCompaction.v
HistoryResults.v
Concurrency.v
ActiveExecutions.v
ActiveCapacity.v
WaitTracker.v
