(* ===== verification/Prelude.v ===== *)
(** * n8n: its execution engines and the services around them, verified

    Seven parts of the program are modelled, each of its own core logic: the two execution
    engines, partial execution, the scheduler, the task broker, the compaction of the
    workflow history, and the limit on how many executions run at once.

    ** Engine v2 ([packages/@n8n/engine])

    The engine runs a workflow as a graph of steps.  A start request creates an execution
    row and publishes a message; handlers take messages off two queues, plan the steps a
    settled step decides, run steps through the host, and finish the execution when it owes
    nothing more.  Messages may come any number of times, several workers run at once, and
    a worker may crash; the database's compare-and-set updates are what keeps it right.

    - [EngineTypes]: values, statuses, step keys, errors ([common], [execution.types.ts]).
    - [EngineGraph], [EngineScc], [EngineLoops]: the graph, its queries, Tarjan's algorithm,
      the loops, and which graphs are accepted ([graph/]).
    - [EngineSettlement]: the planner, pure ([iteration-mapping.ts], [loop-ledger.ts],
      [settlement.ts], [completion.ts]); [EnginePlan]: its ledger, the invariant planning
      keeps, and why the completion count cannot pass early.
    - [EngineStore]: the two tables and the two stores over them ([database/]).
    - [EngineProgram]: a handler as a program over its calls; [EngineBatch]: a pass of a
      batch node; [EngineHandlers]: every handler and worker, whole ([execution/]).
    - [EngineWorld]: any interleaving of the handlers, with redelivery, failing calls and
      crashes, as a step relation, and the invariant of the tables; [EngineOnce]: what
      happens at most once; [EngineRun]: one deterministic schedule as an interpreter, to
      evaluate whole executions; [EngineInputs]: inputs are always found; [EngineSafety]:
      the guarantees of every reachable world.
    - [EnginePlanEnds]: planning does not get stuck; [EngineDuties], [EngineAct]: what a
      handler will do whatever runs in between; [EngineLive]: the runtime that loses
      nothing, and that it leaves no execution behind.
    - [EngineQueue], [EngineEvents], [EngineViews]: the in-memory work queue, the batching
      event publisher, the read path.

    ** Partial execution ([packages/core/.../partial-execution-utils])

    Running part of a workflow from the editor: remove disabled nodes, find the subgraph
    between trigger and destination, decide where to start, which old data to keep, and
    rebuild the execution stack ([runPartialWorkflow2] up to the run itself).

    - [PartialGraph]: [DirectedGraph] and its traversals.
    - [PartialFilter], [PartialSubgraph], [PartialStart], [PartialStack]: the steps, one
      file per step or two, each with what it computes as a theorem over paths.
    - [PartialTotal]: the steps composed; nothing they assert fails.  [PartialTrigger]: the
      graph of a workflow, tools as destinations, where to start; and the whole.

    ** Execution engine v1 ([packages/core/.../workflow-execute.ts])

    [WorkflowExecute] runs a workflow as a loop over a stack of entries: it pops one, runs
    the node, records the run and queues the nodes connected to its outputs; a node with
    several inputs waits until each has data, or until nothing else is left to run.

    - [Workflow]: the [Workflow] class as the engine uses it: nodes,
      connections by source and by destination, the nodes connected to a node
      ([packages/workflow]).
    - [ExecTypes]: items, run data, entries, and the state of an execution.  Nodes are
      objects in a heap, since the engine disables and redirects them in place.
    - [ExecAdd]: [addNodeToBeExecuted].  [ExecNode]: lineage, retries, pinned data,
      [runNode].  [ExecOutput]: the nodes an agent asks for ([requests-response.ts]),
      tries, paired items, the error output, what an error leads to.
      [ExecLoop]: the loop, the children of a node, the release of waiting nodes.
      [ExecRun]: [run], [processRunExecutionData], the end of an execution.
    - [ExecFrame], [ExecSteps], [ExecTotal], [ExecData]: what each operation leaves as it is,
      how the loop moves, where entries come from, why it ends, and that
      queued data is recorded data.  [ExecCases]: executions, evaluated.
    - [ExecResults]: the properties.

    What a node's code does is an oracle ([Host]) of the moment it is called at and of all
    it is given; the moment also decides whether a cancellation arrived while the engine
    waited, and the clock.  What a node returns is taken as fresh: aliasing is modelled for
    node objects and for pinned items, the objects the engine itself writes on.

    ** The durable scheduler ([packages/@n8n/scheduler], its repositories and its host)

    Jobs say when something should run; a materializer turns the due ones into tasks, rows
    of a queue; the executor of every instance claims due tasks, runs each on a timer and
    records the outcome; a reaper recovers what a lost instance held.  Provisioning,
    reconciliation and retention create, retire and prune rows.  The instances share only
    the database: statements are guarded by status, owner and lease epoch.

    - [SchedTypes]: vocabulary, rows, errors, and programs over calls, shared with nothing of
      the engine's.  [SchedStore]: every statement over tasks; [SchedTable]: the well-formed
      table and how a row may change.
    - [SchedExecutor]: executor and reaper as programs ([executor/], [reaper/]);
      [SchedWorld]: any number of instances, their passes, timers, stops and crashes,
      interleaved call by call, each call possibly lost; [SchedOnce], [SchedInv]: what a
      running program may still do, as a weakest precondition over permits, and the
      invariant that ties permits to rows; [SchedSafety]: one deterministic schedule, and
      the guarantees of every reachable world; [SchedReaper]: what a sweep does to each row.
    - [SchedRecurrence]: schedules, their next runs and their generators ([recurrence/]);
      [SchedPlan]: plans, misfire policies, owner groups ([materializer/]); [SchedPlanning],
      [SchedCoalesce]: what they compute.
    - [SchedJobs]: every statement over jobs, and schedules as columns; [SchedMaterialize]:
      a pass with its transaction; [SchedPasses]: what passes leave in the tables.
    - [SchedRetention], [SchedProvision] (with [SchedProvisioned]),
      [SchedReconcile]: the three other passes ([retention/], [provisioning/],
      [durable-job-provisioner.ts], [reconciliation/]).

    ** The task broker ([packages/cli/src/task-runners/task-broker])

    Requesters ask for tasks, runners offer to run them; the broker matches offers with
    requests, waits for the runner's and the requester's acceptance, watches timeouts and
    relays messages.

    - [TaskBroker]: its state and every piece of code that runs without yielding;
      [TaskBrokerRun]: an acceptance as a suspended computation, and the events that start,
      resume or interrupt it.
    - [TaskBrokerInv], [TaskBrokerSteps], [TaskBrokerReach]: the invariant, kept by every
      event, so true after any history.  [TaskBrokerSafety]: what follows from it.

    ** The workflow history ([packages/workflow], its repository and its compaction)

    Every save of a workflow is a version.  Compaction removes versions that a later one
    makes redundant: a rule decides for two neighbours whether the earlier may go.

    - [HistoryConnections]: [compareConnections] ([connections-diff.ts]).  [HistoryDiff]:
      the diff of nodes, change sets, additive changes ([workflow-diff.ts]).
    - [HistoryRules]: the rules and [groupWorkflows].  [HistoryCompaction]: [pruneHistory]
      over the table of versions ([workflow-history.repository.ts]) and the two passes of
      [workflow-history-compaction.service.ts], with what other sessions write between the
      statements of a pass.
    - [HistoryMerge]: what one version keeps of another, and what an additive merge keeps;
      [HistoryResults]: the properties of the passes.

    ** Concurrency of executions ([packages/cli/src/concurrency])

    An execution that finds no capacity waits in a queue until another ends.

    - [Concurrency]: the queue, the service in front of it, and the limits it finds; and any
      sequence of arrivals, ends and cancellations.
    - [ActiveExecutions]: the runs of one process and the capacity they reserve, with [add]
      cut at its awaits; [ActiveCapacity]: where the capacity is, whatever happens.
    - [WaitTracker]: the timers of executions that wait, and how a parent is resumed when the
      execution it waits for is done.

    ** What the theorems show

    - Safety of the running engine: no execution ends before its steps, no step runs or is
      announced twice, outcomes and history are never rewritten, every step was planned on
      settled inputs and finds them.
    - Liveness of the engine: where calls are answered, messages delivered and no worker
      dies, no state is stuck: something can go on until every execution has ended.
    - The planner: what is decided, on which rows, that it is final, and the count of owed
      steps; validation as an equivalence with the rules a graph must keep; the components
      of Tarjan's algorithm as mutual reachability; a loop's passes as slices of its list.
    - The stores' methods against the constraints of the tables; the queue's and the
      publisher's order and drain; pages that together list every execution once.
    - Partial execution: each step's result characterised by paths of the graph, and that
      the whole preparation succeeds just when a node that can start leads to the destination.
    - Safety of the running scheduler: on Postgres, whose ids are never given again, a
      handler runs at most once for a claim, and for one occurrence at most [maxAttempts]
      times, and finished rows never change; on either database every row is well typed.
    - Planning against stepping: a plan consumes the fires of the schedule in order, and of
      those records or counts each; what passes record, beside any other statements on tasks
      and jobs that leave the job's schedule alone, is a fire of the schedule, each once; the
      pass in one transaction refines the statements of the world above.
    - Provisioning leaves exactly the desired jobs; schedule identity and owner keys are
      injective; retention deletes only what is past its window and drains it; nothing is
      deleted by reconciliation before its grace.
    - The v1 engine: an acyclic workflow is processed to its end; where no node asks for
      others, what a node is given is what the run it names put out; a success left nothing
      on the stack when its status was taken; only what leads to the destination starts; a
      cancelled execution finishes the entry under way and takes no other; tries are bounded
      where [maxTries] is a whole number; a failed node can be restarted; no item is lost
      between outputs; children run from the top left.
    - The task broker: a request is answered once and never forgotten while its timer runs,
      a task ends once, offers are matched as the specification matches them.
    - The workflow history: compaction removes no version that was named, described or
      published when it was read, and keeps for each one removed a later version of the same
      author that holds what is compared of it; an additive merge is decided exactly, where
      no object turned into an array; trimming leaves versions their distance; the diff of
      connections is exact.
    - Concurrency: no capacity is idle while somebody waits, executions start in order, no
      more run than the capacity but for cancellations, and who waits starts; every place
      is with the queue, a call of [add] or a run whose promise has not settled.
    - Behaviours of the code that differ from its intent, as lemmas about concrete inputs:
      events stranded by the publisher, disabled cycles, components missed, inputs shifted,
      handlers run again after they reported, ids given again on SQLite, late runs
      uncounted, retries taken for fires, tries that never end, versions deleted that were
      named meanwhile,
      waiting data overwritten, waiting nodes never released, tries beyond the maximum,
      executions started by a cancellation, runs that never settle, timers never set again.

    ** Conventions and bounds

    Code that throws returns [result]; calls are the constructors of [op] (engine) and
    [sop] (scheduler).  JavaScript's [Map] and [Set] keep insertion order
    ([JsCollections]); where only lookups matter a [gmap] is used.  Integers are [Z]
    (iterations, input indices, instants in milliseconds) or [nat] (array lengths); the
    program's integers are JavaScript numbers far below 2^53, so none wraps.
    Recursion on graphs has fuel, one unit per node, connection or queue entry; a lemma next
    to each definition shows that the fuel it gives itself suffices
    ([descend_loop_total], [tarjan_run_total], [followNode_ok], [findSubgraph_spec],
    [findStartNodes_ok], [group_loop_ok], [depthFirstSearchRecursive_ok]).  The scheduler's
    loops are bounded by the code's own limits (fires per job, batches, pages, candidates).
    The v1 loop may run for ever (workflows have cycles): its fuel is one unit per
    iteration, and for an acyclic workflow [acyclic_execution_ends] computes enough of it
    from the stack; the release of waiting nodes has fuel that [releaseWaitingNodes] computes
    itself.  [maxTries] is a JavaScript number, here a rational [Q]: the repetition of a
    node's call has the fuel [host_fuel] and answers [Spins] ([LoopSpins] of the
    loop) when it is used up, which four units exclude where [maxTries] is whole
    ([tries_are_bounded]), and which is how [fractional_tries_do_not_end] shows that others
    do not end.  Generated ids are those of the database in use ([Dialect], [next_id]): a
    sequence on Postgres, one more than the largest on SQLite.
    The deterministic runners take fuel as an argument: they are only used on concrete runs.

    ** What is not modelled

    The database is what its statements mean, statements and transactions taking effect at
    once, without [created_at] and [updated_at] in the engine's stores (the read path has
    them); wall-clock times are arguments.  HTTP, zod parsing, authentication, logging,
    tracing, metrics and configuration are left out, as are the timer loops that drive the
    scheduler's passes. Of the v1 engine, telemetry tags, the bookkeeping of credentials,
    close functions, the conversion of binary data, static data and error reporting are left
    out; of the [Workflow] class, renaming and static data; of the task runner, the runner's
    own process; of the history, deletion by age and the waits between batches, and the
    foreign keys that make a deletion fail are among the failures of the database; the
    numbers that a Postgres sequence skips when an insert conflicts are not skipped here; of
    concurrency, telemetry; of active executions, the loop that waits for them at shutdown.
    What a node's code does, the host's executor, the admittance gate, task handlers, owner
    resolvers, [cron-parser] and [luxon] (with the laws [CronLaws] states of a parser), the
    stack of an error and the database's rejections are parameters.

    This file: results, monadic notation, and the lemmas on lists the components share. *)

From stdpp Require Import base gmap strings pretty list fin_maps relations.
From Stdlib Require Import ZArith Lia.

(** ** Results: a value, or the error a [throw] carries *)

Inductive result (E A : Type) : Type :=
  | Ok (a : A)
  | Err (e : E).
Arguments Ok {_ _} _.
Arguments Err {_ _} _.

#[export] Instance result_ret {E} : MRet (result E) := fun _ a => Ok a.
#[export] Instance result_bind {E} : MBind (result E) := fun _ _ f m =>
  match m with Ok a => f a | Err e => Err e end.
#[export] Instance result_fmap {E} : FMap (result E) := fun _ _ f m =>
  match m with Ok a => Ok (f a) | Err e => Err e end.

Definition is_ok {E A} (r : result E A) : bool :=
  match r with Ok _ => true | Err _ => false end.

(** [require b e]: [if (!b) throw e]. *)
Definition require {E} (b : bool) (e : E) : result E unit :=
  if b then Ok tt else Err e.

(** A [for ... of] loop whose body may throw and changes nothing else. *)
Fixpoint for_each {E A} (f : A -> result E unit) (l : list A) : result E unit :=
  match l with
  | [] => Ok tt
  | x :: l' => match f x with Ok _ => for_each f l' | Err e => Err e end
  end.

(** A loop that threads a state and may stop with [None]. *)
Fixpoint foldM {S A} (f : S -> A -> option S) (s : S) (l : list A) : option S :=
  match l with
  | [] => Some s
  | x :: l' => match f s x with Some s' => foldM f s' l' | None => None end
  end.

Lemma require_ok {E} (b : bool) (e : E) : require b e = Ok tt <-> b = true.
Proof. destruct b; simpl; split; done. Qed.

Lemma for_each_ok {E A} (f : A -> result E unit) (l : list A) :
  for_each f l = Ok tt <-> forall x, x ∈ l -> f x = Ok tt.
Proof.
  induction l as [|x l IH]; simpl.
  - split; [intros _ x Hx; inversion Hx | done].
  - destruct (f x) as [[]|e] eqn:Hf.
    + rewrite IH. split.
      * intros H y Hy. apply elem_of_cons in Hy as [->|Hy]; auto.
      * intros H y Hy. apply H. by right.
    + split; [done|]. intros H. specialize (H x ltac:(by left)). congruence.
Qed.

Lemma bind_ok {E A B} (m : result E A) (f : A -> result E B) (b : B) :
  (m ≫= f) = Ok b <-> exists a, m = Ok a /\ f a = Ok b.
Proof. destruct m as [a|e]; simpl; split; [eauto|naive_solver|done|naive_solver]. Qed.

Lemma bind_unit_ok {E B} (m : result E unit) (k : result E B) (b : B) :
  (m ≫= fun _ => k) = Ok b <-> m = Ok tt /\ k = Ok b.
Proof. destruct m as [[]|e]; simpl; naive_solver. Qed.

Lemma foldM_app {S A} (f : S -> A -> option S) (s : S) (l1 l2 : list A) :
  foldM f s (l1 ++ l2) = foldM f s l1 ≫= fun s' => foldM f s' l2.
Proof.
  revert s. induction l1 as [|x l1 IH]; intros s; simpl; [done|].
  destruct (f s x); simpl; [apply IH|done].
Qed.

(** Induction on a path of at least one step, growing it at its end. *)
Lemma tc_ind_right {A} (R : relation A) (x : A) (P : A -> Prop) :
  (forall y, R x y -> P y) ->
  (forall y z, tc R x y -> R y z -> P y -> P z) ->
  forall y, tc R x y -> P y.
Proof.
  intros H1 H2 y Hxy. revert H1 H2.
  induction Hxy as [x y Hxy|x y z Hxy Hyz IH]; intros H1 H2; [by apply H1|].
  apply IH.
  - intros w Hw. apply (H2 y); [by apply tc_once|done|by apply H1].
  - intros v w Hv. apply H2. by eapply tc_l.
Qed.

(** A name between double quotes. *)
Definition quoted (s : string) : string :=
  let q := String (Ascii.ascii_of_nat 34) EmptyString in String.append q (String.append s q).

(** A part of a list without duplicates has none. *)
Lemma submseteq_NoDup {A} (l k : list A) : l ⊆+ k -> NoDup k -> NoDup l.
Proof.
  intros Hlk Hk. apply submseteq_Permutation in Hlk as [k' Hp]. rewrite Hp in Hk.
  by apply NoDup_app in Hk as (? & _ & _).
Qed.

Lemma submseteq_fmap {A B} (f : A -> B) (l k : list A) : l ⊆+ k -> f <$> l ⊆+ f <$> k.
Proof.
  intros Hlk. apply submseteq_Permutation in Hlk as [k' ->]. rewrite fmap_app. by apply submseteq_inserts_r.
Qed.

(** A relation without cycles on the nodes of a list is well founded. *)
Lemma acyclic_wf (nodes : list string) (R : relation string) :
  (forall x y, R x y -> x ∈ nodes /\ y ∈ nodes) -> (forall x, ~ tc R x x) -> well_founded R.
Proof.
  intros Hin Hac.
  assert (Hgen : forall n p x, length p + n = length nodes -> NoDup (x :: p) -> (forall y, y ∈ p -> tc R x y) ->
    x :: p ⊆ nodes -> Acc R x).
  { induction n as [|n IH]; intros p x Hn Hnd Hp Hsub.
    - apply NoDup_submseteq in Hsub; [|done]. apply submseteq_length in Hsub. simpl in Hsub. lia.
    - constructor. intros m Hm. destruct (Hin _ _ Hm) as [Hmn _].
      assert (Htc : forall y, y ∈ x :: p -> tc R m y).
      { intros y [->|Hy]%elem_of_cons; [by apply tc_once|]. eapply tc_l; eauto. }
      apply (IH (x :: p)); [simpl; lia| |done|set_solver].
      apply NoDup_cons. split; [|done]. intros Hmp. by apply (Hac m), Htc. }
  intros x. constructor. intros m Hm. destruct (Hin _ _ Hm) as [Hmn _].
  apply (Hgen (length nodes) [] m); [done|apply NoDup_singleton|set_solver|set_solver].
Qed.

Lemma tc_last {A} (R : relation A) (x y : A) : tc R x y -> exists z, rtc R x z /\ R z y.
Proof.
  induction 1 as [x y H|x y z H _ (w & Hw & Hz)]; [by exists x|]. exists w. split; [by eapply rtc_l|done].
Qed.

(** One of two things of every member: the first of all, or the second of some. *)
Lemma list_either {A} (P Q : A -> Prop) (l : list A) :
  (forall x, x ∈ l -> P x \/ Q x) -> (forall x, x ∈ l -> P x) \/ exists x, x ∈ l /\ Q x.
Proof.
  induction l as [|y l IH]; intros H; [left; set_solver|].
  destruct (H y ltac:(by left)) as [Hy|Hy]; [|right; exists y; split; [by left|done]].
  destruct IH as [Hall|(x & Hx & Hq)]; [intros x Hx; apply H; by right| |right; exists x; split; [by right|done]].
  left. intros x [->|Hx]%elem_of_cons; auto.
Qed.
