(* ===== verification/JsCollections.v ===== *)
(** * JavaScript's insertion-ordered collections

    The language's [Map] and [Set] iterate in insertion order, and both the engine and
    the partial-execution code depend on it (which error is thrown first, which group is
    built first).  A [Map] is modelled as an association list in insertion order: [set]
    replaces the value of a key in place and appends a new key at the end, [delete]
    removes it.  A [Set] (and an array grown by [if (!a.includes(x)) a.push(x)]) is a list
    grown by [set_add].  [at_index] is array indexing with an integer: out of range, in
    particular at a negative index, it reads [undefined]. *)

From stdpp Require Import base gmap strings list fin_maps.
From Stdlib Require Import ZArith Lia.

Section jsmap.
Context {K V : Type} `{EqDecision K}.
Implicit Types (m : list (K * V)) (k : K) (v : V).

Fixpoint map_get (k : K) (m : list (K * V)) : option V :=
  match m with
  | [] => None
  | (k', v) :: m' => if decide (k' = k) then Some v else map_get k m'
  end.

Fixpoint map_set (k : K) (v : V) (m : list (K * V)) : list (K * V) :=
  match m with
  | [] => [(k, v)]
  | (k', v') :: m' => if decide (k' = k) then (k, v) :: m' else (k', v') :: map_set k v m'
  end.

Definition map_delete (k : K) (m : list (K * V)) : list (K * V) :=
  filter (fun p => p.1 <> k) m.

Definition map_has (k : K) (m : list (K * V)) : bool := bool_decide (is_Some (map_get k m)).

Lemma map_get_set k k' v m :
  map_get k' (map_set k v m) = if decide (k = k') then Some v else map_get k' m.
Proof.
  induction m as [|[k0 v0] m IH]; simpl; [done|].
  repeat (case_decide; simplify_eq; simpl); rewrite ?IH; repeat case_decide; congruence.
Qed.

Lemma map_get_set_eq k v m : map_get k (map_set k v m) = Some v.
Proof. rewrite map_get_set. by rewrite decide_True. Qed.

Lemma map_get_set_ne k k' v m : k <> k' -> map_get k' (map_set k v m) = map_get k' m.
Proof. intros. rewrite map_get_set. by rewrite decide_False. Qed.

Lemma map_get_delete k k' m :
  map_get k' (map_delete k m) = if decide (k = k') then None else map_get k' m.
Proof.
  unfold map_delete. induction m as [|[k0 v0] m IH]; simpl; [by case_decide|].
  rewrite filter_cons. repeat (case_decide; simplify_eq; simpl in *); rewrite ?IH;
    repeat case_decide; try congruence; naive_solver.
Qed.

Lemma map_get_Some_elem_of k v m : map_get k m = Some v -> (k, v) ∈ m.
Proof.
  induction m as [|[k0 v0] m IH]; simpl; [done|].
  case_decide; intros; simplify_eq; [by left|right; auto].
Qed.

Lemma map_get_None k m : map_get k m = None <-> k ∉ m.*1.
Proof.
  induction m as [|[k0 v0] m IH]; simpl; [set_solver|].
  rewrite not_elem_of_cons. case_decide; [naive_solver|]. rewrite IH. naive_solver.
Qed.

Lemma elem_of_map_get k v m : NoDup m.*1 -> (k, v) ∈ m -> map_get k m = Some v.
Proof.
  induction m as [|[k0 v0] m IH]; simpl; [set_solver|].
  rewrite NoDup_cons, elem_of_cons. intros [Hni Hnd] [?|Hin]; simplify_eq.
  - by rewrite decide_True.
  - rewrite decide_False; [auto|]. intros ->. apply Hni.
    apply list_elem_of_fmap. by exists (k, v).
Qed.

Lemma map_set_keys k v m :
  (map_set k v m).*1 = if decide (k ∈ m.*1) then m.*1 else m.*1 ++ [k].
Proof.
  induction m as [|[k0 v0] m IH]; [done|]. simpl map_set.
  destruct (decide (k0 = k)) as [->|Hne].
  - rewrite !fmap_cons. simpl. rewrite decide_True by set_solver. done.
  - rewrite !fmap_cons, IH. simpl. repeat case_decide; set_solver.
Qed.

Lemma map_set_NoDup k v m : NoDup m.*1 -> NoDup (map_set k v m).*1.
Proof.
  intros Hnd. rewrite map_set_keys. case_decide as Hin; [done|].
  apply NoDup_app. split_and!; [done|set_solver|apply NoDup_singleton].
Qed.

Lemma elem_of_map_set k v m p :
  NoDup m.*1 -> p ∈ map_set k v m <-> p = (k, v) \/ p.1 <> k /\ p ∈ m.
Proof.
  intros Hnd. destruct p as [k' v']. simpl. split.
  - intros Hin%elem_of_map_get; [|by apply map_set_NoDup].
    rewrite map_get_set in Hin. case_decide; simplify_eq; [by left|right].
    split; [done|]. by apply map_get_Some_elem_of.
  - intros Hor. apply map_get_Some_elem_of. rewrite map_get_set.
    destruct Hor as [?|[? Hin]]; simplify_eq; [by rewrite decide_True|].
    rewrite decide_False by done. by apply elem_of_map_get.
Qed.

Lemma elem_of_map_delete k m p : p ∈ map_delete k m <-> p.1 <> k /\ p ∈ m.
Proof. unfold map_delete. by rewrite list_elem_of_filter. Qed.

Lemma map_delete_NoDup k m : NoDup m.*1 -> NoDup (map_delete k m).*1.
Proof.
  unfold map_delete. induction m as [|[k0 v0] m IH]; simpl; [done|].
  rewrite NoDup_cons, filter_cons. intros [Hni Hnd].
  case_decide; simpl; [|auto]. apply NoDup_cons. split; [|auto].
  intros [[k1 v1] [Heq Hin]]%list_elem_of_fmap. apply list_elem_of_filter in Hin as [_ Hin].
  simpl in *. subst. apply Hni, list_elem_of_fmap. by exists (k1, v1).
Qed.
End jsmap.

Section jsset.
Context {A : Type} `{EqDecision A}.
Implicit Types (s l : list A) (x : A).

(** [Set.prototype.add], and [if (!a.includes(x)) a.push(x)]. *)
Definition set_add (s : list A) (x : A) : list A := if decide (x ∈ s) then s else s ++ [x].

(** [new Set(l)]: the distinct elements of [l] in order of first occurrence. *)
Definition set_of_list (l : list A) : list A := foldl set_add [] l.

Lemma elem_of_set_add x y s : y ∈ set_add s x <-> y = x \/ y ∈ s.
Proof. unfold set_add. case_decide; [naive_solver|]. rewrite elem_of_app. set_solver. Qed.

Lemma set_add_NoDup x s : NoDup s -> NoDup (set_add s x).
Proof.
  intros Hs. unfold set_add. case_decide; [done|].
  apply NoDup_app. split_and!; [done|set_solver|apply NoDup_singleton].
Qed.

Lemma elem_of_foldl_set_add y s l : y ∈ foldl set_add s l <-> y ∈ s \/ y ∈ l.
Proof.
  revert s. induction l as [|x l IH]; intros s; simpl; [set_solver|].
  rewrite IH, elem_of_set_add, elem_of_cons. naive_solver.
Qed.

Lemma foldl_set_add_NoDup s l : NoDup s -> NoDup (foldl set_add s l).
Proof. revert s. induction l as [|x l IH]; intros s Hs; simpl; [done|]. by apply IH, set_add_NoDup. Qed.

Lemma elem_of_set_of_list y l : y ∈ set_of_list l <-> y ∈ l.
Proof. unfold set_of_list. rewrite elem_of_foldl_set_add. set_solver. Qed.

Lemma set_of_list_NoDup l : NoDup (set_of_list l).
Proof. apply foldl_set_add_NoDup, NoDup_nil_2. Qed.
End jsset.

(** Array indexing with an integer. *)
Definition at_index {A} (l : list A) (i : Z) : option A :=
  if decide (0 <= i)%Z then l !! Z.to_nat i else None.

(** Array.prototype.some / every / find / filter with a boolean callback. *)
Definition arr_some {A} (f : A -> bool) (l : list A) : bool := existsb f l.
Definition arr_filter {A} (f : A -> bool) (l : list A) : list A := List.filter f l.

Fixpoint arr_find {A} (f : A -> bool) (l : list A) : option A :=
  match l with [] => None | x :: l' => if f x then Some x else arr_find f l' end.

(** The position [find] stops at, which identifies the object it returns. *)
Fixpoint arr_findIndex {A} (f : A -> bool) (l : list A) : option nat :=
  match l with
  | [] => None
  | x :: l' => if f x then Some 0 else S <$> arr_findIndex f l'
  end.

Lemma elem_of_arr_filter {A} (f : A -> bool) (l : list A) (x : A) :
  x ∈ arr_filter f l <-> f x = true /\ x ∈ l.
Proof. unfold arr_filter. rewrite !list_elem_of_In, List.filter_In. naive_solver. Qed.

Lemma arr_filter_map_NoDup {A B} (f : A -> B) (g : A -> bool) (l : list A) :
  NoDup (map f l) -> NoDup (map f (arr_filter g l)).
Proof.
  unfold arr_filter. induction l as [|x l IH]; simpl; [done|]. intros [Hx Hnd]%NoDup_cons.
  destruct (g x); simpl; [|by apply IH]. apply NoDup_cons. split; [|by apply IH].
  intros (y & Hy & Hl)%list_elem_of_fmap. apply Hx, list_elem_of_fmap. exists y. split; [done|].
  by apply elem_of_arr_filter in Hl as [_ ?].
Qed.

Lemma arr_some_true {A} (f : A -> bool) (l : list A) :
  arr_some f l = true <-> exists x, x ∈ l /\ f x = true.
Proof. unfold arr_some. rewrite existsb_exists. setoid_rewrite list_elem_of_In. done. Qed.

Lemma arr_find_Some {A} (f : A -> bool) (l : list A) (x : A) :
  arr_find f l = Some x -> x ∈ l /\ f x = true.
Proof.
  induction l as [|y l IH]; simpl; [done|]. destruct (f y) eqn:Hy.
  - intros [= ->]. split; [by left|done].
  - intros [Hin Hf]%IH. split; [by right|done].
Qed.

Lemma arr_find_None {A} (f : A -> bool) (l : list A) :
  arr_find f l = None <-> forall x, x ∈ l -> f x = false.
Proof.
  induction l as [|y l IH]; simpl; [set_solver|]. destruct (f y) eqn:Hy.
  - split; [done|]. intros H. specialize (H y ltac:(by left)). congruence.
  - rewrite IH. split; intros H z; rewrite ?elem_of_cons; [naive_solver|].
    intros Hz. apply H. by right.
Qed.

Lemma arr_find_findIndex {A} (f : A -> bool) (l : list A) :
  arr_find f l = arr_findIndex f l ≫= fun i => l !! i.
Proof.
  induction l as [|y l IH]; simpl; [done|]. destruct (f y); [done|].
  rewrite IH. by destruct (arr_findIndex f l).
Qed.

#[export] Hint Rewrite @elem_of_set_add @elem_of_set_of_list @elem_of_arr_filter : js.
#[export] Hint Resolve set_of_list_NoDup set_add_NoDup : js.
