(* ===== verification/EngineTypes.v ===== *)
(** * Engine v2: values, identifiers and errors

    [packages/@n8n/engine/src/common] and [execution/execution.types.ts]: the JSON values
    a step's slots carry, the statuses of steps and executions, the step key
    [(nodeId, iteration)] with its string form, and the engine's error classes.  An error
    carries the message the code builds, so two different throws are two different
    values of the model.

    Numbers: the engine's iterations and slot indices are modelled as [Z].  A JSON number
    that is not an integer is [JFloat], kept by its printed form, because the only thing
    the engine ever asks of a JSON number is whether it is a whole batch size. *)

From stdpp Require Import base gmap strings pretty list fin_maps.
From Stdlib Require Import Ascii ZArith Lia.
From S2P Require Import Prelude.
From S2P Require Import JsCollections.

(** [JsonValue]. *)
Inductive JsonValue :=
  | JNull
  | JBool (b : bool)
  | JNum (z : Z)
  | JFloat (repr : string)
  | JStr (s : string)
  | JArr (items : list JsonValue)
  | JObj (fields : list (string * JsonValue)).

(** [typeof v]. *)
Definition js_typeof (v : JsonValue) : string :=
  match v with
  | JNull => "object"
  | JBool _ => "boolean"
  | JNum _ | JFloat _ => "number"
  | JStr _ => "string"
  | JArr _ => "object"
  | JObj _ => "object"
  end.

(** The engine's error classes, plus what a step executor of the host may throw: an
    [Error] object or any other value (kept by its [String(...)] form). *)
Inductive EngineError :=
  | GraphValidationError (message : string)
  | UnimplementedError (message : string)
  | UnexpectedError (message : string)
  | StepNotFoundError (stepId : string)
  | ExecutionNotFoundError (executionId : string)
  | AdmittanceRejectedError (reason : string)
  | HostError (name message : string) (stack : option string)
  | HostValue (text : string).

Notation result := (Prelude.result EngineError).

(** ** Statuses *)

Inductive ExecutionStatus := ex_queued | ex_running | ex_completed | ex_failed | ex_cancelled.
Inductive ExecutionMode := production | manual.

Inductive StepStatus := queued | running | completed | failed | skipped | cancelled.

#[export] Instance ExecutionStatus_eq_dec : EqDecision ExecutionStatus.
Proof. solve_decision. Defined.
#[export] Instance StepStatus_eq_dec : EqDecision StepStatus.
Proof. solve_decision. Defined.

Definition SETTLED_STEP_STATUSES : list StepStatus := [completed; failed; skipped; cancelled].

Definition isSettledStatus (status : StepStatus) : bool :=
  bool_decide (status ∈ SETTLED_STEP_STATUSES).

Definition status_name (s : StepStatus) : string :=
  match s with
  | queued => "queued" | running => "running" | completed => "completed"
  | failed => "failed" | skipped => "skipped" | cancelled => "cancelled"
  end.

Record CallerContext := {
  userId : option string;
  projectId : option string;
  hostMode : string;
}.

(** Slots of one side of a connection; [JNull] marks a slot without data. *)
Notation StepSlots := (list JsonValue).

Definition DEFAULT_TRIGGER_OUTPUTS : StepSlots := [].

Record StepError := {
  err_name : string;
  err_message : string;
  err_stack : option string;
}.

(** ** Step keys *)

Record StepKey := mkKey { nodeId : string; iteration : Z }.

#[export] Instance StepKey_eq_dec : EqDecision StepKey.
Proof. solve_decision. Defined.

(** A step key in the string form that keys instance-keyed lookups:
    [`${nodeId}@${iteration}`]. *)
Definition stepKeyId (k : StepKey) : string :=
  nodeId k +:+ "@" +:+ pretty (iteration k).

(** [outputs?.[i] ?? null]. *)
Definition slot_value (outputs : option StepSlots) (i : Z) : JsonValue :=
  match outputs with
  | Some l => default JNull (at_index l i)
  | None => JNull
  end.

(** ** Facts *)

Lemma isSettledStatus_spec (s : StepStatus) :
  isSettledStatus s = true <-> s <> queued /\ s <> running.
Proof. destruct s; vm_compute; naive_solver. Qed.

(** A decimal numeral holds no separator, so the last separator of a key's string form
    tells its two parts apart. *)
Definition is_sep (c : ascii) : bool := Ascii.eqb c "@" || Ascii.eqb c "#".

Fixpoint no_sep (s : string) : bool :=
  match s with
  | EmptyString => true
  | String c s' => negb (is_sep c) && no_sep s'
  end.

Lemma no_sep_app (s t : string) : no_sep (s +:+ t) = no_sep s && no_sep t.
Proof. induction s as [|c s IH]; simpl; [done|]. by rewrite IH, andb_assoc. Qed.

Lemma no_sep_pretty_N_go (x : N) (s : string) : no_sep s = true -> no_sep (pretty_N_go x s) = true.
Proof.
  revert s. induction (N.lt_wf_0 x) as [x _ IH]. intros s Hs.
  destruct (decide (0 < x)%N) as [Hlt|Hle].
  - rewrite pretty_N_go_step by done. apply IH; [apply N.div_lt; lia|].
    unfold pretty_N_char. simpl. rewrite Hs, andb_true_r.
    by repeat case_match.
  - assert (x = 0%N) as -> by lia. by rewrite pretty_N_go_0.
Qed.

Lemma no_sep_pretty_Z (z : Z) : no_sep (pretty z) = true.
Proof.
  assert (Hpos : forall p : positive, no_sep (pretty p) = true).
  { intros p. change (pretty p) with (pretty (N.pos p)). unfold pretty, pretty_N.
    case_decide; [done|]. by apply no_sep_pretty_N_go. }
  destruct z as [|p|p]; [done|apply Hpos|]. exact (Hpos p).
Qed.

Lemma no_sep_app_sep (c : ascii) (a b : string) :
  is_sep c = true -> no_sep (a +:+ String c b) = false.
Proof. intros Hc. rewrite no_sep_app. simpl. by rewrite Hc, andb_false_r. Qed.

Lemma app_sep_inj (c : ascii) (a1 a2 b1 b2 : string) :
  is_sep c = true -> no_sep b1 = true -> no_sep b2 = true ->
  a1 +:+ String c b1 = a2 +:+ String c b2 -> a1 = a2 /\ b1 = b2.
Proof.
  intros Hc H1 H2. revert a2. induction a1 as [|d a1 IH]; intros [|d2 a2] Heq.
  - injection Heq as Heq. done.
  - injection Heq as _ Heq. pose proof (no_sep_app_sep c a2 b2 Hc). congruence.
  - injection Heq as _ Heq. pose proof (no_sep_app_sep c a1 b1 Hc). congruence.
  - simpl in Heq. injection Heq as -> Heq. destruct (IH a2) as [-> ->]; done.
Qed.

(** [`${s}@${i}`] and [`${s}#${i}`] determine [s] and [i]. *)
Lemma numbered_inj (c : ascii) (s1 s2 : string) (i1 i2 : Z) :
  is_sep c = true -> s1 +:+ String c (pretty i1) = s2 +:+ String c (pretty i2) -> s1 = s2 /\ i1 = i2.
Proof.
  intros Hc Heq. apply app_sep_inj in Heq as [-> Heq]; [|done|apply no_sep_pretty_Z..].
  by apply (inj pretty) in Heq as ->.
Qed.

#[export] Instance stepKeyId_inj : Inj (=) (=) stepKeyId.
Proof.
  intros [n1 i1] [n2 i2] Heq. 
  apply (numbered_inj "@") in Heq as [Hn Hi]; [|done]. simpl in Hn, Hi. by subst.
Qed.

(** [stepKeyId] never confuses two step keys, whatever characters node ids hold: the
    maps keyed by it have one entry per step. *)
Lemma stepKeyId_injective (k1 k2 : StepKey) : stepKeyId k1 = stepKeyId k2 <-> k1 = k2.
Proof. split; [apply stepKeyId_inj|by intros ->]. Qed.
