(* ===== verification/EngineGraph.v ===== *)
(** * Engine v2: the execution graph and its queries

    [packages/@n8n/engine/src/graph/workflow-graph.ts] (the graph captured at start) and
    [workflow-graph-queries.ts] (trigger, direct successors and predecessors, transitive
    successors).  The breadth-first search of [getDescendantNodeIds] is a loop over a
    growing array; here it has fuel, one unit per visited array entry, and
    [descend_loop_total] shows that the fuel the definition gives it always suffices. *)

From stdpp Require Import base gmap strings pretty list fin_maps relations.
From Stdlib Require Import ZArith Lia.
From S2P Require Import Prelude.
From S2P Require Import JsCollections.
From S2P Require Import EngineTypes.

(** ** The graph *)

Inductive StepType := trigger | v1_node | wait | subworkflow | batch.

#[export] Instance StepType_eq_dec : EqDecision StepType.
Proof. solve_decision. Defined.

Definition step_type_name (t : StepType) : string :=
  match t with
  | trigger => "trigger" | v1_node => "v1-node" | wait => "wait"
  | subworkflow => "subworkflow" | batch => "batch"
  end.

Record BatchStepConfig := { batchSize : Z }.

(** The type guard [isBatchStepConfig], with the narrowed value it licenses:
    [Some] exactly when the guard answers [true]. A missing config is [None]. *)
Definition isBatchStepConfig (config : option JsonValue) : option BatchStepConfig :=
  match config with
  | Some (JObj fields) =>
      match map_get "batchSize" fields with
      | Some (JNum n) => if (1 <=? n)%Z then Some {| batchSize := n |} else None
      | _ => None
      end
  | _ => None
  end.

Record GraphNode := {
  gn_id : string;
  gn_name : string;
  gn_type : StepType;
  gn_config : option JsonValue;
}.

Record GraphEdge := mkEdge {
  from : string;
  to : string;
  outputIndex : Z;
  inputIndex : Z;
  isBackEdge : option bool;
}.

#[export] Instance GraphEdge_eq_dec : EqDecision GraphEdge.
Proof. solve_decision. Defined.

Record WorkflowGraph := { nodes : list GraphNode; edges : list GraphEdge }.

(** [edge.isBackEdge] read as a condition. *)
Definition is_back (e : GraphEdge) : bool := default false (isBackEdge e).

(** ** Queries *)

Definition findTriggerNode (graph : WorkflowGraph) : option GraphNode :=
  arr_find (fun node => bool_decide (gn_type node = trigger)) (nodes graph).

Definition getSuccessorNodeIds (graph : WorkflowGraph) (nodeId : string) : list string :=
  foldl (fun successors edge =>
    if bool_decide (from edge = nodeId) && bool_decide (to edge ∉ successors)
    then successors ++ [to edge] else successors) [] (edges graph).

Definition getPredecessorNodeIds (graph : WorkflowGraph) (nodeId : string) : list string :=
  foldl (fun predecessors edge =>
    if bool_decide (to edge = nodeId) && bool_decide (from edge ∉ predecessors)
    then predecessors ++ [from edge] else predecessors) [] (edges graph).

(** One pass of the inner loop: append the successors not visited yet. *)
Definition descend_visit (acc : list string * gset string) (successor : string)
  : list string * gset string :=
  let '(descendants, visited) := acc in
  if bool_decide (successor ∈ visited) then acc
  else (descendants ++ [successor], {[successor]} ∪ visited).

(** The outer loop, from index [i] on. *)
Fixpoint descend_loop (fuel : nat) (graph : WorkflowGraph)
    (descendants : list string) (visited : gset string) (i : nat) : option (list string) :=
  match fuel with
  | O => None
  | S fuel =>
      match descendants !! i with
      | None => Some descendants
      | Some d =>
          let '(descendants, visited) :=
            foldl descend_visit (descendants, visited) (getSuccessorNodeIds graph d) in
          descend_loop fuel graph descendants visited (S i)
      end
  end.

Definition getDescendantNodeIds (graph : WorkflowGraph) (nodeId : string) : list string :=
  let descendants := getSuccessorNodeIds graph nodeId in
  let visited := list_to_set descendants in
  default [] (descend_loop (S (length (edges graph))) graph descendants visited 0).

(** ** Specification: the edge relation and reachability *)

Definition edge_rel (es : list GraphEdge) (x y : string) : Prop :=
  exists e, e ∈ es /\ from e = x /\ to e = y.

(** [y] is reached from [x] along at least one edge. *)
Definition reaches (es : list GraphEdge) : string -> string -> Prop := tc (edge_rel es).

Lemma foldl_collect_elem_of {B} `{EqDecision B} (sel : GraphEdge -> bool) (f : GraphEdge -> B)
    (acc : list B) (es : list GraphEdge) (y : B) :
  y ∈ foldl (fun l e => if sel e && bool_decide (f e ∉ l) then l ++ [f e] else l) acc es <->
  y ∈ acc \/ exists e, e ∈ es /\ sel e = true /\ f e = y.
Proof.
  revert acc. induction es as [|e es IH]; intros acc; simpl; [set_solver|].
  rewrite IH. clear IH. setoid_rewrite elem_of_cons.
  destruct (sel e) eqn:Hs; simpl; [case_bool_decide as Hd|];
    rewrite ?elem_of_app, ?list_elem_of_singleton; split;
    try (intros [?|(e0 & [->|?] & ? & <-)]; (done || congruence || by eauto 8));
    naive_solver.
Qed.

Lemma foldl_collect_NoDup {B} `{EqDecision B} (sel : GraphEdge -> bool) (f : GraphEdge -> B)
    (acc : list B) (es : list GraphEdge) :
  NoDup acc ->
  NoDup (foldl (fun l e => if sel e && bool_decide (f e ∉ l) then l ++ [f e] else l) acc es).
Proof.
  revert acc. induction es as [|e es IH]; intros acc Hnd; simpl; [done|].
  apply IH. destruct (sel e); simpl; [case_bool_decide as Hd|]; [|done|done].
  apply NoDup_app. split_and!; [done|set_solver|apply NoDup_singleton].
Qed.

Lemma elem_of_getSuccessorNodeIds (graph : WorkflowGraph) (x y : string) :
  y ∈ getSuccessorNodeIds graph x <-> edge_rel (edges graph) x y.
Proof.
  unfold getSuccessorNodeIds, edge_rel.
  rewrite (foldl_collect_elem_of (fun e => bool_decide (from e = x)) to).
  setoid_rewrite bool_decide_eq_true. set_solver.
Qed.

Lemma getSuccessorNodeIds_NoDup (graph : WorkflowGraph) (x : string) :
  NoDup (getSuccessorNodeIds graph x).
Proof.
  apply (foldl_collect_NoDup (fun e => bool_decide (from e = x)) to), NoDup_nil_2.
Qed.

Lemma elem_of_getPredecessorNodeIds (graph : WorkflowGraph) (x y : string) :
  x ∈ getPredecessorNodeIds graph y <-> edge_rel (edges graph) x y.
Proof.
  unfold getPredecessorNodeIds, edge_rel.
  rewrite (foldl_collect_elem_of (fun e => bool_decide (to e = y)) from).
  setoid_rewrite bool_decide_eq_true. set_solver.
Qed.

(** ** The search visits exactly what is reachable *)

(** What the loop keeps true of its queue: [visited] mirrors it, it has no duplicates,
    every entry is reachable from the start, and the entries before the index have all
    their successors in it. *)
Record descend_inv (graph : WorkflowGraph) (start : string)
    (ds : list string) (vis : gset string) (i : nat) : Prop := {
  di_visited : forall x, x ∈ vis <-> x ∈ ds;
  di_nodup : NoDup ds;
  di_sound : forall x, x ∈ ds -> reaches (edges graph) start x;
  di_start : forall x, edge_rel (edges graph) start x -> x ∈ ds;
  di_closed : forall j x y, j < i -> ds !! j = Some x -> edge_rel (edges graph) x y -> y ∈ ds;
}.

Lemma descend_visit_fold (ss : list string) (ds : list string) (vis : gset string) :
  (forall x, x ∈ vis <-> x ∈ ds) -> NoDup ds ->
  exists ds' vis',
    foldl descend_visit (ds, vis) ss = (ds ++ ds', vis') /\
    (forall x, x ∈ vis' <-> x ∈ ds ++ ds') /\ NoDup (ds ++ ds') /\
    (forall x, x ∈ ss -> x ∈ ds ++ ds') /\ (forall x, x ∈ ds' -> x ∈ ss).
Proof.
  revert ds vis. induction ss as [|s ss IH]; intros ds vis Hvis Hnd; simpl.
  { exists [], vis. rewrite app_nil_r. split_and!; try done; set_solver. }
  case_bool_decide as Hin.
  - destruct (IH ds vis Hvis Hnd) as (ds' & vis' & -> & H1 & H2 & H3 & H4).
    exists ds', vis'. split_and!; try done; set_solver.
  - assert (s ∉ ds) as Hs by (by rewrite <-Hvis).
    destruct (IH (ds ++ [s]) ({[s]} ∪ vis)) as (ds' & vis' & -> & H1 & H2 & H3 & H4).
    { intros x. rewrite elem_of_union, elem_of_singleton, elem_of_app, list_elem_of_singleton, Hvis.
      naive_solver. }
    { apply NoDup_app. split_and!; [done|set_solver|apply NoDup_singleton]. }
    exists (s :: ds'), vis'. rewrite <-app_assoc in *. simpl in *.
    split_and!; try done; set_solver.
Qed.

Lemma descend_inv_step (graph : WorkflowGraph) (start : string) ds vis i d :
  descend_inv graph start ds vis i -> ds !! i = Some d ->
  exists ds' vis',
    foldl descend_visit (ds, vis) (getSuccessorNodeIds graph d) = (ds', vis') /\
    descend_inv graph start ds' vis' (S i).
Proof.
  intros [Hvis Hnd Hsound Hstart Hclosed] Hi.
  destruct (descend_visit_fold (getSuccessorNodeIds graph d) ds vis)
    as (ds' & vis' & -> & H1 & H2 & H3 & H4); [done..|].
  exists (ds ++ ds'), vis'. split; [done|]. split; [done|done| | |].
  - intros x [Hx|Hx]%elem_of_app; [auto|].
    apply H4, elem_of_getSuccessorNodeIds in Hx.
    eapply tc_r; [|done]. apply Hsound. by eapply list_elem_of_lookup_2.
  - intros x Hx. apply elem_of_app. left. auto.
  - intros j x y Hj Hx Hxy.
    assert (j < length ds) as Hlt by (apply lookup_lt_Some in Hi; lia).
    rewrite lookup_app_l in Hx by done.
    destruct (decide (j = i)) as [->|Hne].
    + apply H3, elem_of_getSuccessorNodeIds. congruence.
    + apply elem_of_app. left. eapply (Hclosed j); [lia|done|done].
Qed.

Lemma reaches_last (es : list GraphEdge) (x y : string) :
  reaches es x y -> exists z, edge_rel es z y.
Proof. intros H. induction H as [? ? H|? ? ? _ _ IH]; eauto. Qed.

Lemma reaches_first (es : list GraphEdge) (x y : string) :
  reaches es x y <-> exists z, edge_rel es x z /\ rtc (edge_rel es) z y.
Proof.
  split.
  - intros H. destruct H as [y Hxy|x y z Hxy Hyz]; [eauto using rtc_refl|eauto using tc_rtc].
  - intros (z & Hxz & Hzy). apply (tc_rtc_r _ z); [by apply tc_once|done].
Qed.

(** A queue without duplicates whose entries are edge targets is no longer than the
    edge list. *)
Lemma descend_bound (graph : WorkflowGraph) (start : string) ds vis i :
  descend_inv graph start ds vis i -> length ds <= length (edges graph).
Proof.
  intros [_ Hnd Hsound _ _].
  rewrite <-(length_fmap to (edges graph)).
  apply submseteq_length, NoDup_submseteq; [done|].
  intros x Hx%Hsound. apply list_elem_of_fmap.
  apply reaches_last in Hx as (y & e & He & _ & <-). eauto.
Qed.

Lemma descend_loop_spec (graph : WorkflowGraph) (start : string) fuel ds vis i :
  descend_inv graph start ds vis i -> i <= length ds ->
  length (edges graph) < fuel + i ->
  exists res vis', descend_loop fuel graph ds vis i = Some res /\
    descend_inv graph start res vis' (length res).
Proof.
  revert ds vis i. induction fuel as [|fuel IH]; intros ds vis i Hinv Hi Hfuel; simpl.
  { pose proof (descend_bound _ _ _ _ _ Hinv). lia. }
  destruct (ds !! i) as [d|] eqn:Hd.
  - destruct (descend_inv_step _ _ _ _ _ _ Hinv Hd) as (ds' & vis' & Hf & Hinv').
    rewrite Hf. apply IH; [done| |lia].
    destruct Hinv as [? Hnd ? ? ?].
    destruct (descend_visit_fold (getSuccessorNodeIds graph d) ds vis) as (ds2 & vis2 & Hf2 & _);
      [done..|].
    rewrite Hf in Hf2. simplify_eq. rewrite length_app.
    apply lookup_lt_Some in Hd. lia.
  - exists ds, vis. split; [done|]. apply lookup_ge_None in Hd.
    assert (i = length ds) as -> by lia. done.
Qed.

Lemma descend_init (graph : WorkflowGraph) (start : string) :
  descend_inv graph start (getSuccessorNodeIds graph start)
    (list_to_set (getSuccessorNodeIds graph start)) 0.
Proof.
  split.
  - intros x. apply elem_of_list_to_set.
  - apply getSuccessorNodeIds_NoDup.
  - intros x Hx%elem_of_getSuccessorNodeIds. by apply tc_once.
  - intros x Hx. by apply elem_of_getSuccessorNodeIds.
  - intros j x y Hj. lia.
Qed.

Lemma descend_loop_total (graph : WorkflowGraph) (start : string) :
  exists res vis,
    descend_loop (S (length (edges graph))) graph (getSuccessorNodeIds graph start)
      (list_to_set (getSuccessorNodeIds graph start)) 0 = Some res /\
    getDescendantNodeIds graph start = res /\
    descend_inv graph start res vis (length res).
Proof.
  destruct (descend_loop_spec graph start (S (length (edges graph))) _ _ 0
    (descend_init graph start)) as (res & vis & Hres & Hinv); [lia|lia|].
  exists res, vis. split; [done|]. split; [|done].
  unfold getDescendantNodeIds. by rewrite Hres.
Qed.

Lemma elem_of_getDescendantNodeIds (graph : WorkflowGraph) (x y : string) :
  y ∈ getDescendantNodeIds graph x <-> reaches (edges graph) x y.
Proof.
  destruct (descend_loop_total graph x) as (res & vis & _ & -> & Hinv).
  destruct Hinv as [_ _ Hsound Hstart Hclosed]. split; [apply Hsound|].
  revert y. apply (tc_ind_right _ _ (fun y => y ∈ res)); [apply Hstart|].
  intros y z _ Hyz [j Hj]%list_elem_of_lookup.
  eapply Hclosed; [|exact Hj|exact Hyz]. by eapply lookup_lt_Some.
Qed.

Lemma getDescendantNodeIds_NoDup (graph : WorkflowGraph) (x : string) :
  NoDup (getDescendantNodeIds graph x).
Proof. destruct (descend_loop_total graph x) as (res & vis & _ & -> & Hinv). apply Hinv. Qed.

(** [getDescendantNodeIds] lists, each once, exactly the node ids reached from a node
    along at least one edge; so a node on a cycle is its own descendant. *)
Lemma getDescendantNodeIds_reaches (graph : WorkflowGraph) (x : string) :
  NoDup (getDescendantNodeIds graph x) /\
  forall y, y ∈ getDescendantNodeIds graph x <-> reaches (edges graph) x y.
Proof. split; [apply getDescendantNodeIds_NoDup|]. intros y. apply elem_of_getDescendantNodeIds. Qed.
