(* ===== verification/EngineScc.v ===== *)
(** * Engine v2: strongly connected components

    [computeSccMembership] of [packages/@n8n/engine/src/graph/loops.ts], Tarjan's
    algorithm, with its proof.  The closure's mutable variables are the fields of
    [TarjanState]; the JavaScript array [stack] is a list whose head is the array's last
    element.  [connect] recurses on the graph, so it has fuel, one unit per vertex, and
    [computeSccMembership_total] shows that the fuel always suffices.  A read of a
    missing lowlink, which would compute with [NaN], is [None] here, and never happens.

    The main result, [computeSccMembership_spec]: every node is mapped to the list, without
    duplicates, of the vertices it reaches and that reach it. *)

From stdpp Require Import base gmap strings pretty list fin_maps relations.
From Stdlib Require Import ZArith Lia.
From S2P Require Import Prelude.
From S2P Require Import JsCollections.
From S2P Require Import EngineTypes.
From S2P Require Import EngineGraph.

(** ** The algorithm *)

Record TarjanState := mkTarjan {
  indexById : gmap string nat;
  lowlinkById : gmap string nat;
  tstack : list string;
  onStack : gset string;
  membership : list (string * list string);
  nextIndex : nat;
}.

Definition tarjan_init : TarjanState :=
  {| indexById := ∅; lowlinkById := ∅; tstack := []; onStack := ∅; membership := []; nextIndex := 0 |}.

Definition outgoing_map (edges : list GraphEdge) : gmap string (list GraphEdge) :=
  foldl (fun outgoing edge =>
    match outgoing !! from edge with
    | Some l => <[from edge := l ++ [edge]]> outgoing
    | None => <[from edge := [edge]]> outgoing
    end) ∅ edges.

(** The first five statements of [connect]. *)
Definition tarjan_enter (nodeId : string) (st : TarjanState) : TarjanState :=
  {| indexById := <[nodeId := nextIndex st]> (indexById st);
     lowlinkById := <[nodeId := nextIndex st]> (lowlinkById st);
     tstack := nodeId :: tstack st;
     onStack := {[nodeId]} ∪ onStack st;
     membership := membership st;
     nextIndex := S (nextIndex st) |}.

(** [lowlinkById.set(nodeId, Math.min(lowlinkById.get(nodeId)!, v!))]. *)
Definition lower (nodeId : string) (v : option nat) (st : TarjanState) : option TarjanState :=
  match lowlinkById st !! nodeId, v with
  | Some l, Some v => Some
      {| indexById := indexById st;
         lowlinkById := <[nodeId := Nat.min l v]> (lowlinkById st);
         tstack := tstack st; onStack := onStack st;
         membership := membership st; nextIndex := nextIndex st |}
  | _, _ => None
  end.

(** The [do ... while] loop: pops up to and including [nodeId]. *)
Fixpoint pop_until (nodeId : string) (stack : list string) : option (list string * list string) :=
  match stack with
  | [] => None
  | member :: stack =>
      if decide (member = nodeId) then Some ([member], stack)
      else '(members, rest) ← pop_until nodeId stack; Some (member :: members, rest)
  end.

(** The end of [connect]: a root pops its component. *)
Definition tarjan_close (nodeId : string) (st : TarjanState) : option TarjanState :=
  if decide (lowlinkById st !! nodeId = indexById st !! nodeId) then
    '(members, rest) ← pop_until nodeId (tstack st);
    Some {| indexById := indexById st; lowlinkById := lowlinkById st;
            tstack := rest;
            onStack := onStack st ∖ list_to_set members;
            membership := foldl (fun m id => map_set id members m) (membership st) members;
            nextIndex := nextIndex st |}
  else Some st.

Fixpoint connect (fuel : nat) (outgoing : gmap string (list GraphEdge)) (nodeId : string)
    (st : TarjanState) : option TarjanState :=
  match fuel with
  | O => None
  | S fuel =>
      st ← foldM (fun st edge =>
             match indexById st !! to edge with
             | None =>
                 st ← connect fuel outgoing (to edge) st;
                 lower nodeId (lowlinkById st !! to edge) st
             | Some i =>
                 if decide (to edge ∈ onStack st) then lower nodeId (Some i) st
                 else Some st
             end)
             (tarjan_enter nodeId st) (default [] (outgoing !! nodeId));
      tarjan_close nodeId st
  end.

Definition tarjan_run (fuel : nat) (graph : WorkflowGraph) (edges : list GraphEdge)
    : option TarjanState :=
  foldM (fun st node =>
    match indexById st !! gn_id node with
    | None => connect fuel (outgoing_map edges) (gn_id node) st
    | Some _ => Some st
    end) tarjan_init (nodes graph).

(** Every vertex the recursion can meet: a node, or the target of an edge. *)
Definition tarjan_vertices (graph : WorkflowGraph) (edges : list GraphEdge) : list string :=
  map gn_id (nodes graph) ++ map to edges.

Definition computeSccMembership (graph : WorkflowGraph) (edges : list GraphEdge)
    : list (string * list string) :=
  match tarjan_run (S (length (tarjan_vertices graph edges))) graph edges with
  | Some st => membership st
  | None => []
  end.

(** ** Auxiliary facts *)

Lemma outgoing_map_spec (es : list GraphEdge) (x : string) :
  default [] (outgoing_map es !! x) = arr_filter (fun e => bool_decide (from e = x)) es.
Proof.
  unfold outgoing_map, arr_filter.
  assert (forall m : gmap string (list GraphEdge), default [] (foldl (fun outgoing edge =>
    match outgoing !! from edge with
    | Some l => <[from edge := l ++ [edge]]> outgoing
    | None => <[from edge := [edge]]> outgoing
    end) m es !! x) =
    default [] (m !! x) ++ List.filter (fun e => bool_decide (from e = x)) es) as Hgen.
  { induction es as [|e es IH]; intros m; simpl; [by rewrite app_nil_r|].
    rewrite IH. case_bool_decide as He; subst; destruct (m !! from e) eqn:Hm;
      rewrite ?lookup_insert_eq, ?lookup_insert_ne by done; rewrite ?Hm; simpl;
      by rewrite <-?app_assoc. }
  rewrite Hgen. by rewrite lookup_empty.
Qed.

Lemma pop_until_spec (x : string) (seg rest : list string) :
  x ∉ seg -> pop_until x (seg ++ x :: rest) = Some (seg ++ [x], rest).
Proof.
  induction seg as [|y seg IH]; simpl; intros Hx.
  - by rewrite decide_True.
  - rewrite decide_False by set_solver. rewrite IH by set_solver. done.
Qed.

Lemma map_get_foldl_set (ms ks : list string) (m : list (string * list string)) (x : string) :
  map_get x (foldl (fun m id => map_set id ms m) m ks) =
  if decide (x ∈ ks) then Some ms else map_get x m.
Proof.
  revert m. induction ks as [|k ks IH]; intros m; simpl; [done|].
  rewrite IH, map_get_set. repeat case_decide; set_solver.
Qed.

(** A path that leaves a set has an edge that leaves it. *)
Lemma rtc_crossing {A} (R : relation A) (P : A -> Prop) `{!forall x, Decision (P x)} (x y : A) :
  rtc R x y -> P x -> ~ P y -> exists a b, rtc R x a /\ P a /\ R a b /\ ~ P b /\ rtc R b y.
Proof.
  induction 1 as [x|x z y Hxz Hzy IH]; intros Hx Hy; [done|].
  destruct (decide (P z)) as [Hz|Hz].
  - destruct (IH Hz Hy) as (a & b & ? & ? & ? & ? & ?).
    exists a, b. split_and!; try done. by eapply rtc_l.
  - exists x, z. split_and!; try done.
Qed.

(** ** The invariant *)

Section tarjan.
Context (es : list GraphEdge).

Notation E := (edge_rel es).

Definition indexed (st : TarjanState) (x : string) : Prop := is_Some (indexById st !! x).
Definition assigned (st : TarjanState) (x : string) : Prop := is_Some (map_get x (membership st)).

Definition mutual (x y : string) : Prop := rtc E x y /\ rtc E y x.

(** [grays] is the call stack: the vertices whose [connect] has not returned. *)
Record Inv (st : TarjanState) (grays : list string) : Prop := {
  inv_onStack : forall x, x ∈ onStack st <-> x ∈ tstack st;
  inv_nodup : NoDup (tstack st);
  inv_indexed : forall x, indexed st x <-> x ∈ tstack st \/ assigned st x;
  inv_disjoint : forall x, x ∈ tstack st -> ~ assigned st x;
  inv_fresh : forall x i, indexById st !! x = Some i -> i < nextIndex st;
  inv_black : forall x y, indexed st x -> x ∉ grays -> E x y -> indexed st y;
  inv_closed : forall x y, assigned st x -> E x y -> assigned st y;
  inv_grays : forall g, g ∈ grays -> g ∈ tstack st;
  inv_from_gray : forall g x i j, g ∈ grays -> x ∈ tstack st ->
    indexById st !! g = Some i -> indexById st !! x = Some j -> i <= j -> rtc E g x;
  inv_to_gray : forall x j, x ∈ tstack st -> indexById st !! x = Some j ->
    exists g i, g ∈ grays /\ indexById st !! g = Some i /\ i <= j /\ rtc E x g;
  inv_scc : forall x ms, map_get x (membership st) = Some ms ->
    NoDup ms /\ forall y, y ∈ ms <-> mutual x y;
  inv_inj : forall x y i, indexById st !! x = Some i -> indexById st !! y = Some i -> x = y;
  inv_keys : NoDup (membership st).*1;
}.

(** What a call leaves alone: indices, the lowlinks of the vertices already indexed,
    finished components; new indices are new. *)
Record Ext (st st' : TarjanState) : Prop := {
  ext_index : forall x i, indexById st !! x = Some i -> indexById st' !! x = Some i;
  ext_low : forall x, indexed st x -> lowlinkById st' !! x = lowlinkById st !! x;
  ext_new : forall x i, indexById st !! x = None -> indexById st' !! x = Some i -> nextIndex st <= i;
  ext_next : nextIndex st <= nextIndex st';
  ext_mem : forall x ms, map_get x (membership st) = Some ms -> map_get x (membership st') = Some ms;
}.

Lemma Ext_refl (st : TarjanState) : Ext st st.
Proof. split; try done. intros; congruence. Qed.

Lemma Ext_trans (a b c : TarjanState) : Ext a b -> Ext b c -> Ext a c.
Proof.
  intros [i1 l1 n1 x1 m1] [i2 l2 n2 x2 m2]. split; eauto.
  - intros x [i Hx]. rewrite l2; [apply l1; by exists i|exists i; auto].
  - intros x i Ha Hc. destruct (indexById b !! x) as [j|] eqn:Hb.
    + specialize (n1 _ _ Ha Hb). specialize (i2 _ _ Hb). simplify_eq. done.
    + specialize (n2 _ _ Hb Hc). lia.
  - lia.
Qed.

Lemma closed_rtc st grays x y :
  Inv st grays -> assigned st x -> rtc E x y -> assigned st y.
Proof. intros HI Hx Hxy. induction Hxy; eauto using inv_closed. Qed.

Lemma ext_indexed st st' x : Ext st st' -> indexed st x -> indexed st' x.
Proof. intros HE [i Hi]. exists i. by apply HE. Qed.

(** ** Entering a vertex *)

Lemma enter_inv st grays v :
  Inv st grays -> ~ indexed st v -> (forall g, g ∈ grays -> rtc E g v) ->
  Inv (tarjan_enter v st) (v :: grays).
Proof.
  intros HI Hv Hg.
  assert (Hvnone : indexById st !! v = None) by (by apply eq_None_not_Some).
  assert (Hvs : v ∉ tstack st) by (intros ?; apply Hv, (inv_indexed _ _ HI); auto).
  assert (Hidx : forall x i, indexById (tarjan_enter v st) !! x = Some i <->
    (x = v /\ i = nextIndex st) \/ (x <> v /\ indexById st !! x = Some i)).
  { intros x i. simpl. destruct (decide (x = v)) as [->|].
    - rewrite lookup_insert_eq. naive_solver.
    - rewrite lookup_insert_ne by done. naive_solver. }
  assert (Hixd : forall x, indexed (tarjan_enter v st) x <-> x = v \/ indexed st x).
  { intros x. unfold indexed, is_Some. setoid_rewrite Hidx.
    destruct (decide (x = v)); naive_solver. }
  destruct HI as [h1 h2 h3 h4 h5 h6 h7 h8 h9 h10 h11 h12 h13].
  split; simpl.
  - intros x. rewrite elem_of_union, elem_of_singleton, h1, elem_of_cons. done.
  - by apply NoDup_cons.
  - intros x. rewrite Hixd, h3, elem_of_cons. unfold assigned. simpl. naive_solver.
  - intros x. rewrite elem_of_cons. intros [->|Hx]; [|by apply h4].
    intros Ha. apply Hv, h3. by right.
  - intros x i Hx. apply Hidx in Hx as [[_ ->]|[_ Hx%h5]]; lia.
  - intros x y [->|Hx]%Hixd Hxg Hxy; [set_solver|]. apply Hixd. right.
    apply (h6 x); [done|set_solver|done].
  - done.
  - intros g. rewrite !elem_of_cons. naive_solver.
  - intros g x i j Hgg Hxs Hgi Hxj Hij.
    apply Hidx in Hgi as [[-> ->]|[Hgv Hgi]]; apply Hidx in Hxj as [[-> ->]|[Hxv Hxj]].
    + done.
    + apply h5 in Hxj. lia.
    + apply Hg. set_solver.
    + apply (h9 g x i j); [set_solver|set_solver|done..].
  - intros x j Hxs Hxj. apply Hidx in Hxj as [[-> ->]|[Hxv Hxj]].
    + exists v, (nextIndex st). split_and!; [set_solver| |done|done]. apply Hidx. by left.
    + destruct (h10 x j) as (g & i & ? & Hgi & ? & ?); [set_solver|done|].
      exists g, i. split_and!; [set_solver| |done|done]. apply Hidx. right.
      split; [|done]. intros ->. congruence.
  - done.
  - intros x y i [[-> ->]|[? Hx]]%Hidx [[-> Hi]|[? Hy]]%Hidx; [done| | |eauto].
    + apply h5 in Hy. lia.
    + subst. apply h5 in Hx. lia.
  - done.
Qed.

Lemma enter_ext st v :
  indexById st !! v = None -> Ext st (tarjan_enter v st).
Proof.
  intros Hv. split; simpl.
  - intros x i Hx. rewrite lookup_insert_ne by congruence. done.
  - intros x [i Hx]. rewrite lookup_insert_ne by congruence. done.
  - intros x i Hx. destruct (decide (v = x)) as [->|].
    + rewrite lookup_insert_eq. intros [= ->]. lia.
    + rewrite lookup_insert_ne by done. congruence.
  - lia.
  - done.
Qed.

(** [lower] touches nothing but one lowlink. *)
Lemma lower_inv st grays v n st' :
  Inv st grays -> lower v n st = Some st' -> Inv st' grays.
Proof.
  intros HI. unfold lower. repeat case_match; intros; simplify_eq.
  destruct HI. split; done.
Qed.

Lemma init_inv : Inv tarjan_init [].
Proof.
  split; unfold indexed, assigned; simpl; intros;
    repeat match goal with H : is_Some _ |- _ => destruct H end;
    try (by simplify_map_eq); try set_solver.
  - apply NoDup_nil_2.
  - rewrite lookup_empty. split; [intros []%is_Some_None|set_solver].
  - apply NoDup_nil_2.
Qed.

(** ** The loop over a vertex's edges *)

Context (U : list string).
Hypothesis U_targets : forall x y, E x y -> y ∈ U.

Definition unindexed (st : TarjanState) : nat :=
  length (filter (fun x => indexById st !! x = None) U).

Lemma unindexed_lt (a b : TarjanState) (v : string) :
  Ext a b -> v ∈ U -> indexById a !! v = None -> indexed b v -> unindexed b < unindexed a.
Proof.
  intros HE Hv Ha Hb. unfold unindexed.
  assert (Hle : forall l, length (filter (fun x => indexById b !! x = None) l) <=
                          length (filter (fun x => indexById a !! x = None) l)).
  { induction l as [|x l IH]; [done|]. rewrite !filter_cons.
    case_decide as H1; case_decide as H2; simpl; try lia.
    destruct (indexById a !! x) as [i|] eqn:Hx; [|done].
    apply (ext_index _ _ HE) in Hx. congruence. }
  apply list_elem_of_split in Hv as (l1 & l2 & ->).
  rewrite !filter_app, !length_app, !filter_cons.
  destruct Hb as [i Hb].
  rewrite (decide_False (P := indexById b !! v = None)) by congruence.
  rewrite (decide_True (P := indexById a !! v = None)) by done. simpl.
  pose proof (Hle l1). pose proof (Hle l2). lia.
Qed.

(** The state between two iterations of the loop of [connect v], entered from [st0]. *)
Record Loop (st0 : TarjanState) (grays : list string) (v : string) (st : TarjanState)
    (done : list string) (seg : list string) (n : nat) : Prop := {
  lp_inv : Inv st (v :: grays);
  lp_ext : Ext st0 st;
  lp_stack : tstack st = seg ++ v :: tstack st0;
  lp_index : indexById st !! v = Some (nextIndex st0);
  lp_low : lowlinkById st !! v = Some n;
  lp_le : n <= nextIndex st0;
  lp_reach : exists y, y ∈ tstack st /\ indexById st !! y = Some n /\ rtc E v y;
  lp_bound : forall x y i, x ∈ seg -> y ∈ tstack st0 -> E x y ->
    indexById st0 !! y = Some i -> n <= i;
  lp_own : forall y i, y ∈ done -> y ∈ tstack st0 -> indexById st0 !! y = Some i -> n <= i;
  lp_done : forall y, y ∈ done -> indexed st y;
}.

(** What [connect v] guarantees when it returns. *)
Record Post (st : TarjanState) (grays : list string) (v : string) (st' : TarjanState)
    (seg : list string) (n : nat) : Prop := {
  po_inv : Inv st' grays;
  po_ext : Ext st st';
  po_indexed : indexed st' v;
  po_stack : tstack st' = seg ++ tstack st;
  po_low : lowlinkById st' !! v = Some n;
  po_bound : forall x y i, x ∈ seg -> y ∈ tstack st -> E x y ->
    indexById st !! y = Some i -> n <= i;
  po_reach : nextIndex st <= n \/
    exists y, y ∈ tstack st /\ indexById st !! y = Some n /\ rtc E v y;
}.

Definition connects (fuel : nat) : Prop :=
  forall st grays v, Inv st grays -> indexById st !! v = None ->
    (forall g, g ∈ grays -> rtc E g v) -> v ∈ U -> unindexed st < fuel ->
    exists st' seg n, connect fuel (outgoing_map es) v st = Some st' /\
      Post st grays v st' seg n.

Lemma lower_some v m st n :
  lowlinkById st !! v = Some n ->
  exists st', lower v (Some m) st = Some st' /\
    indexById st' = indexById st /\ tstack st' = tstack st /\
    membership st' = membership st /\ nextIndex st' = nextIndex st /\
    lowlinkById st' = <[v := Nat.min n m]> (lowlinkById st).
Proof. intros Hn. unfold lower. rewrite Hn. eexists. by split_and!. Qed.

Lemma lower_ext st0 st v m st' :
  Ext st0 st -> indexById st0 !! v = None -> lower v m st = Some st' -> Ext st0 st'.
Proof.
  intros [] Hv. unfold lower. repeat case_match; intros; simplify_eq.
  split; simpl; try done.
  intros x [i Hx]. rewrite lookup_insert_ne by congruence. apply ext_low0. by exists i.
Qed.

Lemma loop_enter st0 grays v :
  Inv st0 grays -> indexById st0 !! v = None -> (forall g, g ∈ grays -> rtc E g v) ->
  Loop st0 grays v (tarjan_enter v st0) [] [] (nextIndex st0).
Proof.
  intros HI Hv Hg. split; simpl.
  - apply enter_inv; [done| |done]. intros [i Hi]. congruence.
  - by apply enter_ext.
  - done.
  - by rewrite lookup_insert_eq.
  - by rewrite lookup_insert_eq.
  - done.
  - exists v. split_and!; [set_solver|by rewrite lookup_insert_eq|done].
  - set_solver.
  - set_solver.
  - set_solver.
Qed.

(** An unvisited target: the recursive call, then the lowlink update. *)
Lemma loop_recurse fuel st0 grays v st done seg n w :
  connects fuel -> Inv st0 grays -> indexById st0 !! v = None -> v ∈ U ->
  Loop st0 grays v st done seg n -> unindexed st < fuel -> E v w ->
  indexById st !! w = None ->
  exists st1 st2 seg' n', connect fuel (outgoing_map es) w st = Some st1 /\
    lower v (lowlinkById st1 !! w) st1 = Some st2 /\
    Loop st0 grays v st2 (w :: done) seg' n'.
Proof.
  intros IH HI0 Hv0 HvU HL Hfuel Hvw Hw.
  destruct HL as [Hinv Hext Hst Hiv Hlow Hle (y & Hy & Hyi & Hvy) Hbound Hown Hdone].
  destruct (IH st (v :: grays) w) as (st1 & seg1 & m & Hc & HP); [done|done| |by eapply U_targets|done|].
  { intros g Hg. apply rtc_r with v; [|done].
    apply elem_of_cons in Hg as [->|Hg]; [done|].
    pose proof (inv_grays _ _ HI0 g Hg) as Hgs.
    assert (indexed st0 g) as [i Hi] by (apply (inv_indexed _ _ HI0); auto).
    eapply (inv_from_gray _ _ Hinv g v i); [set_solver| | |done|].
    - rewrite Hst. set_solver.
    - by apply Hext.
    - apply (inv_fresh _ _ HI0) in Hi. lia. }
  destruct HP as [Pinv Pext Pix Pst Plow Pbound Preach].
  assert (Hlow1 : lowlinkById st1 !! v = Some n).
  { rewrite (ext_low _ _ Pext); [done|]. by eexists. }
  destruct (lower_some v m st1 n Hlow1) as (st2 & Hlw & e1 & e2 & e3 & e4 & e5).
  exists st1, st2, (seg1 ++ seg), (Nat.min n m).
  rewrite Plow. split; [done|]. split; [done|]. split.
  - by eapply lower_inv.
  - eapply lower_ext; [by eapply Ext_trans|done|done].
  - by rewrite e2, Pst, Hst, <-app_assoc.
  - rewrite e1. by apply Pext.
  - by rewrite e5, lookup_insert_eq.
  - lia.
  - rewrite e1, e2, Pst. destruct (decide (n <= m)) as [Hnm|Hnm].
    + rewrite Nat.min_l by done. exists y. split_and!; [set_solver|by apply Pext|done].
    + rewrite Nat.min_r by lia. destruct Preach as [Hm|(z & Hz & Hzi & Hwz)].
      { pose proof (ext_next _ _ Hext). lia. }
      exists z. split_and!; [set_solver|by apply Pext|]. by eapply rtc_l.
  - intros x z i [Hx|Hx]%elem_of_app Hz Hxz Hzi.
    + apply Nat.le_trans with m; [lia|]. eapply (Pbound x z); [done| |done|].
      * rewrite Hst. set_solver.
      * by apply Hext.
    + apply Nat.le_trans with n; [lia|]. by eapply Hbound.
  - intros z i [->|Hz]%elem_of_cons Hzs Hzi.
    + apply (ext_index _ _ Hext) in Hzi. congruence.
    + apply Nat.le_trans with n; [lia|]. by eapply Hown.
  - intros z [->|Hz]%elem_of_cons; unfold indexed; rewrite e1; [done|].
    apply (ext_indexed _ _ _ Pext). auto.
Qed.

(** A visited target on the stack, or one whose component is finished. *)
Lemma loop_visited st0 grays v st done seg n w i :
  Inv st0 grays -> indexById st0 !! v = None ->
  Loop st0 grays v st done seg n -> E v w -> indexById st !! w = Some i ->
  exists st2 n', (if decide (w ∈ onStack st) then lower v (Some i) st else Some st) = Some st2 /\
    Loop st0 grays v st2 (w :: done) seg n'.
Proof.
  intros HI0 Hv0 HL Hvw Hw.
  pose proof HL as HL'.
  destruct HL as [Hinv Hext Hst Hiv Hlow Hle (y & Hy & Hyi & Hvy) Hbound Hown Hdone].
  case_decide as Hws.
  - apply (inv_onStack _ _ Hinv) in Hws.
    destruct (lower_some v i st n Hlow) as (st2 & Hlw & e1 & e2 & e3 & e4 & e5).
    exists st2, (Nat.min n i). split; [done|]. split.
    + by eapply lower_inv.
    + by eapply lower_ext.
    + by rewrite e2.
    + by rewrite e1.
    + by rewrite e5, lookup_insert_eq.
    + lia.
    + rewrite e1, e2. destruct (decide (n <= i)).
      * rewrite Nat.min_l by done. eauto.
      * rewrite Nat.min_r by lia. exists w. split_and!; [done|done|by apply rtc_once].
    + intros x z k ????. apply Nat.le_trans with n; [lia|]. by eapply Hbound.
    + intros z k [->|Hz]%elem_of_cons Hzs Hzk.
      * apply (ext_index _ _ Hext) in Hzk. simplify_eq. lia.
      * apply Nat.le_trans with n; [lia|]. by eapply Hown.
    + intros z [->|Hz]%elem_of_cons; unfold indexed; rewrite e1; [by eexists|by apply Hdone].
  - exists st, n. split; [done|]. destruct HL'. split; try done.
    + intros z k [->|Hz]%elem_of_cons Hzs Hzk; [|by eapply Hown].
      exfalso. apply Hws, (inv_onStack _ _ Hinv). rewrite Hst. set_solver.
    + intros z [->|Hz]%elem_of_cons; [by eexists|by apply Hdone].
Qed.

(** ** Returning from a vertex *)

Section close.
Context (st0 st : TarjanState) (grays : list string) (v : string).
Context (done seg : list string) (n : nat).
Hypothesis HI0 : Inv st0 grays.
Hypothesis Hv0 : indexById st0 !! v = None.
Hypothesis HL : Loop st0 grays v st done seg n.
Hypothesis Hdone : forall y, E v y -> y ∈ done.

Local Lemma close_stack x : x ∈ tstack st <-> x ∈ seg ++ [v] \/ x ∈ tstack st0.
Proof. rewrite (lp_stack _ _ _ _ _ _ _ HL), !elem_of_app, elem_of_cons. set_solver. Qed.

Local Lemma close_nodup : v ∉ seg /\ NoDup (seg ++ [v]) /\
  forall x, x ∈ seg ++ [v] -> x ∉ tstack st0.
Proof.
  pose proof (inv_nodup _ _ (lp_inv _ _ _ _ _ _ _ HL)) as Hnd.
  rewrite (lp_stack _ _ _ _ _ _ _ HL) in Hnd.
  apply NoDup_app in Hnd as (Hs & Hd & [Hv Ht]%NoDup_cons).
  assert (v ∉ seg) by (intros Hin; apply (Hd v Hin); set_solver).
  split_and!; [done| |].
  - apply NoDup_app. split_and!; [done|set_solver|apply NoDup_singleton].
  - intros x [Hx|Hx]%elem_of_app; [|set_solver]. intros ?. apply (Hd x Hx). set_solver.
Qed.

(** An edge out of the part of the stack above [st0] stays there, goes to a finished
    component, or goes to an older vertex that bounds the lowlink. *)
Local Lemma close_edge x y : x ∈ seg ++ [v] -> E x y ->
  y ∈ seg ++ [v] \/ assigned st y \/
  exists i, y ∈ tstack st0 /\ indexById st0 !! y = Some i /\ i < nextIndex st0 /\ n <= i.
Proof.
  intros Hx Hxy. destruct HL as [Hinv Hext Hst Hiv Hlow Hle Hreach Hbound Hown Hdn].
  assert (Hy : indexed st y).
  { apply elem_of_app in Hx as [Hx|Hx]; [|set_solver].
    apply (inv_black _ _ Hinv x); [|intros Hg|done].
    - apply (inv_indexed _ _ Hinv). rewrite close_stack. set_solver.
    - destruct close_nodup as (Hv & _ & Hd).
      apply elem_of_cons in Hg as [->|Hg]; [done|].
      apply (Hd x); [set_solver|]. by apply (inv_grays _ _ HI0). }
  apply (inv_indexed _ _ Hinv) in Hy as [Hy|Hy]; [|by auto].
  apply close_stack in Hy as [Hy|Hy]; [by auto|]. right; right.
  assert (indexed st0 y) as [i Hi] by (apply (inv_indexed _ _ HI0); auto).
  exists i. split_and!; [done|done|by apply (inv_fresh _ _ HI0) in Hi|].
  apply elem_of_app in Hx as [Hx|Hx]; [by eapply Hbound|].
  apply list_elem_of_singleton in Hx as ->. eapply Hown; eauto.
Qed.

Local Lemma close_fresh x i : x ∈ seg ++ [v] -> indexById st !! x = Some i -> nextIndex st0 <= i.
Proof.
  intros Hx Hi. destruct HL as [Hinv Hext Hst Hiv Hlow Hle Hreach Hbound Hown Hdn].
  apply (ext_new _ _ Hext x); [|done]. apply eq_None_not_Some. intros Hix.
  apply (inv_indexed _ _ HI0) in Hix as [Hs|[ms Ha]].
  - destruct close_nodup as (_ & _ & Hd). by apply (Hd x).
  - apply (inv_disjoint _ _ Hinv x); [apply close_stack; auto|].
    exists ms. by apply Hext.
Qed.

(** The invariant at the caller, given the components it now has. *)
Local Lemma close_inv_gray :
  n <> nextIndex st0 -> Inv st grays.
Proof.
  intros Hn. pose proof HL as [Hinv Hext Hst Hiv Hlow Hle Hreach Hbound Hown Hdn].
  pose proof Hinv as [h1 h2 h3 h4 h5 h6 h7 h8 h9 h10 h11 h12 h13].
  split; try done.
  - intros x y Hx Hxg Hxy. destruct (decide (x = v)) as [->|Hne]; [eauto|].
    apply (h6 x); [done|set_solver|done].
  - intros g Hg. apply h8. set_solver.
  - intros g x i j Hg. apply h9. set_solver.
  - intros x j Hx Hj. destruct (h10 x j Hx Hj) as (g & i & Hg & Hgi & Hij & Hxg).
    apply elem_of_cons in Hg as [->|Hg]; [|eauto 10].
    destruct Hreach as (y & Hy & Hyi & Hvy). apply close_stack in Hy as [Hy|Hy].
    { pose proof (close_fresh y n Hy Hyi). lia. }
    assert (indexed st0 y) as [k Hk] by (apply (inv_indexed _ _ HI0); auto).
    destruct (inv_to_gray _ _ HI0 y k Hy Hk) as (g & i' & Hg & Hgi' & Hik & Hyg).
    pose proof (ext_index _ _ Hext _ _ Hk). simplify_eq.
    exists g, i'. split_and!; [done|by apply Hext|lia|].
    etrans; [exact Hxg|]. by etrans.
Qed.

Section root.
Hypothesis Hroot : n = nextIndex st0.

Local Lemma root_edge x y : x ∈ seg ++ [v] -> E x y -> y ∈ seg ++ [v] \/ assigned st y.
Proof.
  intros Hx Hxy. destruct (close_edge x y Hx Hxy) as [?|[?|(i & _ & _ & ? & ?)]]; auto; lia.
Qed.

(** A path out of the component ends in finished components. *)
Local Lemma root_escape x y : x ∈ seg ++ [v] -> rtc E x y -> y ∉ seg ++ [v] -> assigned st y.
Proof.
  intros Hx Hxy Hy.
  destruct (rtc_crossing E (fun z => z ∈ seg ++ [v]) x y) as (a & b & _ & Ha & Hab & Hb & Hby);
    [done..|].
  destruct (root_edge a b Ha Hab) as [?|Hbs]; [done|].
  eapply closed_rtc; [apply HL|exact Hbs|done].
Qed.

Local Lemma root_scc x y : x ∈ seg ++ [v] -> y ∈ seg ++ [v] <-> mutual x y.
Proof.
  pose proof HL as [Hinv Hext Hst Hiv Hlow Hle Hreach Hbound Hown Hdn].
  assert (Hv : v ∈ seg ++ [v]) by set_solver.
  assert (Hall : forall z, z ∈ seg ++ [v] -> mutual v z).
  { intros z Hz. assert (Hzs : z ∈ tstack st) by (apply close_stack; auto).
    assert (indexed st z) as [j Hj] by (apply (inv_indexed _ _ Hinv); auto).
    split.
    - apply (inv_from_gray _ _ Hinv v z (nextIndex st0) j); [set_solver|done|done|done|].
      by apply close_fresh in Hj.
    - destruct (inv_to_gray _ _ Hinv z j Hzs Hj) as (g & i & Hg & _ & _ & Hzg).
      apply elem_of_cons in Hg as [->|Hg]; [done|].
      apply (inv_grays _ _ HI0) in Hg. exfalso.
      apply (inv_disjoint _ _ Hinv g); [apply close_stack; auto|].
      apply (root_escape z); [done|done|]. intros Hgc.
      destruct close_nodup as (_ & _ & Hd). by apply (Hd g). }
  intros Hx. split.
  - intros Hy. destruct (Hall x Hx), (Hall y Hy). split; by etrans.
  - intros [Hxy Hyx]. destruct (decide (y ∈ seg ++ [v])) as [|Hy]; [done|]. exfalso.
    apply (inv_disjoint _ _ Hinv x); [apply close_stack; auto|].
    eapply closed_rtc; [done| |exact Hyx]. by apply (root_escape x).
Qed.

Local Lemma root_assigned (x : string) :
  is_Some (map_get x (foldl (fun m id => map_set id (seg ++ [v]) m) (membership st) (seg ++ [v]))) <->
  x ∈ seg ++ [v] \/ assigned st x.
Proof. rewrite map_get_foldl_set. unfold assigned. case_decide; naive_solver. Qed.

Local Lemma root_inv st' :
  indexById st' = indexById st -> tstack st' = tstack st0 ->
  onStack st' = onStack st ∖ list_to_set (seg ++ [v]) ->
  membership st' = foldl (fun m id => map_set id (seg ++ [v]) m) (membership st) (seg ++ [v]) ->
  nextIndex st' = nextIndex st -> Inv st' grays.
Proof.
  intros e1 e2 e3 e4 e5.
  pose proof HL as [Hinv Hext Hst Hiv Hlow Hle Hreach Hbound Hown Hdn].
  destruct close_nodup as (Hv & Hnd & Hd).
  assert (Has : forall x, assigned st' x <-> x ∈ seg ++ [v] \/ assigned st x).
  { intros x. unfold assigned at 1. rewrite e4. by apply root_assigned. }
  assert (Hix : forall x, indexed st' x <-> indexed st x) by (unfold indexed; by rewrite e1).
  assert (Hold : forall x i, x ∈ tstack st0 -> indexById st !! x = Some i ->
            indexById st0 !! x = Some i).
  { intros x i Hx Hi. assert (indexed st0 x) as [j Hj] by (apply (inv_indexed _ _ HI0); auto).
    pose proof (ext_index _ _ Hext _ _ Hj). congruence. }
  split.
  - intros x. rewrite e2, e3, elem_of_difference, elem_of_list_to_set,
      (inv_onStack _ _ Hinv), close_stack. specialize (Hd x). naive_solver.
  - rewrite e2. by apply HI0.
  - intros x. rewrite Hix, (inv_indexed _ _ Hinv), e2, Has, close_stack. naive_solver.
  - intros x. rewrite e2, Has. intros Hx [Hc|Ha]; [by apply (Hd x)|].
    apply (inv_disjoint _ _ Hinv x); [apply close_stack; auto|done].
  - intros x i. rewrite e1, e5. apply Hinv.
  - intros x y. rewrite !Hix. intros Hx Hxg Hxy. destruct (decide (x = v)) as [->|Hne]; [eauto|].
    apply (inv_black _ _ Hinv x); [done|set_solver|done].
  - intros x y. rewrite !Has. intros [Hx|Hx] Hxy; [by apply (root_edge x)|].
    right. by apply (inv_closed _ _ Hinv x).
  - intros g Hg. rewrite e2. by apply (inv_grays _ _ HI0).
  - intros g x i j Hg. rewrite e1, e2. intros Hx Hgi Hxj.
    apply (inv_from_gray _ _ HI0); [done|done| |by apply Hold].
    apply Hold; [by apply (inv_grays _ _ HI0)|done].
  - intros x j. rewrite e1, e2. intros Hx Hj.
    destruct (inv_to_gray _ _ HI0 x j Hx (Hold _ _ Hx Hj)) as (g & i & Hg & Hgi & ? & ?).
    exists g, i. split_and!; [done|by apply Hext|done|done].
  - intros x ms. rewrite e4, map_get_foldl_set. case_decide as Hc.
    + intros [= <-]. split; [done|]. intros y. by apply root_scc.
    + apply Hinv.
  - intros x y i. rewrite e1. apply Hinv.
  - rewrite e4. clear -Hinv. pose proof (inv_keys _ _ Hinv) as Hk.
    generalize (seg ++ [v]) at 1. intros ms. revert Hk. generalize (membership st).
    induction (seg ++ [v]) as [|k ks IH]; intros m Hm; simpl; [done|].
    by apply IH, map_set_NoDup.
Qed.
End root.

Lemma close_spec :
  exists st' seg' n', tarjan_close v st = Some st' /\ Post st0 grays v st' seg' n'.
Proof.
  pose proof HL as [Hinv Hext Hst Hiv Hlow Hle Hreach Hbound Hown Hdn].
  assert (Hvx : indexed st v) by by eexists.
  destruct close_nodup as (Hv & Hnd & Hd).
  unfold tarjan_close. rewrite Hlow, Hiv. case_decide as Heq.
  - injection Heq as Heq. rewrite Hst, pop_until_spec by done. simpl.
    eexists _, [], n. split; [done|].
    set (st' := mkTarjan _ _ _ _ _ _).
    assert (HI' : Inv st' grays) by (by apply root_inv).
    split; try done.
    + destruct Hext. split; simpl; try done.
      intros x ms Hx. rewrite map_get_foldl_set. case_decide as Hc; [|auto].
      exfalso. apply (inv_disjoint _ _ Hinv x); [by apply close_stack; auto|].
      exists ms. auto.
    + set_solver.
    + left. lia.
  - assert (n <> nextIndex st0) as Hne by congruence.
    exists st, (seg ++ [v]), n. split; [done|]. split; try done.
    + by apply close_inv_gray.
    + by rewrite Hst, <-app_assoc.
    + intros x y i Hx Hy Hxy Hi.
      destruct (close_edge x y Hx Hxy) as [Hc|[Ha|(j & _ & Hj & _ & ?)]].
      * by apply Hd in Hc.
      * exfalso. apply (inv_disjoint _ _ Hinv y); [apply close_stack; auto|done].
      * simplify_eq. done.
    + right. destruct Hreach as (y & Hy & Hyi & Hvy).
      apply close_stack in Hy as [Hy|Hy].
      { pose proof (close_fresh y n Hy Hyi). lia. }
      exists y. split_and!; [done| |done].
      assert (indexed st0 y) as [j Hj] by (apply (inv_indexed _ _ HI0); auto).
      pose proof (ext_index _ _ Hext _ _ Hj). congruence.
Qed.
End close.

(** ** The recursion *)

Definition connect_visit (fuel : nat) (v : string) (st : TarjanState) (edge : GraphEdge)
    : option TarjanState :=
  match indexById st !! to edge with
  | None =>
      st ← connect fuel (outgoing_map es) (to edge) st;
      lower v (lowlinkById st !! to edge) st
  | Some i =>
      if decide (to edge ∈ onStack st) then lower v (Some i) st else Some st
  end.

Lemma loop_fold fuel st0 grays v (l : list GraphEdge) st done seg n :
  connects fuel -> Inv st0 grays -> indexById st0 !! v = None -> v ∈ U ->
  unindexed st0 < S fuel -> (forall e, e ∈ l -> E v (to e)) ->
  Loop st0 grays v st done seg n ->
  exists st' done' seg' n', foldM (connect_visit fuel v) st l = Some st' /\
    Loop st0 grays v st' done' seg' n' /\
    (forall y, y ∈ done \/ y ∈ map to l -> y ∈ done').
Proof.
  intros IH HI0 Hv0 HvU Hfuel. revert st done seg n.
  induction l as [|e l IHl]; intros st done seg n Hl HL; simpl.
  { exists st, done, seg, n. split_and!; [done|done|]. set_solver. }
  assert (Hu : unindexed st < fuel).
  { pose proof (unindexed_lt st0 st v (lp_ext _ _ _ _ _ _ _ HL) HvU Hv0
      (ex_intro _ _ (lp_index _ _ _ _ _ _ _ HL))). lia. }
  assert (Hve : E v (to e)) by (apply Hl; set_solver).
  assert (exists st1 seg1 n1, connect_visit fuel v st e = Some st1 /\
            Loop st0 grays v st1 (to e :: done) seg1 n1) as (st1 & seg1 & n1 & Hf & HL1).
  { unfold connect_visit. destruct (indexById st !! to e) as [i|] eqn:Hi.
    - edestruct loop_visited as (st1 & n1 & ? & ?); eauto.
    - edestruct loop_recurse as (st1 & st2 & seg1 & n1 & Hc & Hlw & ?);
        [eauto..|]. rewrite Hc. simpl. eauto. }
  rewrite Hf. destruct (IHl st1 (to e :: done) seg1 n1) as (st' & d' & s' & n' & ? & ? & Hd);
    [set_solver|done|].
  exists st', d', s', n'. split_and!; [done|done|]. intros y Hy. apply Hd. set_solver.
Qed.

Lemma connect_total (fuel : nat) : connects fuel.
Proof.
  induction fuel as [|fuel IH]; intros st0 grays v HI0 Hv0 Hg HvU Hfuel; [lia|].
  change (connect (S fuel) (outgoing_map es) v st0) with
    (st ← foldM (connect_visit fuel v) (tarjan_enter v st0) (default [] (outgoing_map es !! v));
     tarjan_close v st).
  rewrite outgoing_map_spec.
  destruct (loop_fold fuel st0 grays v (arr_filter (fun e => bool_decide (from e = v)) es)
    (tarjan_enter v st0) [] [] (nextIndex st0) IH HI0 Hv0 HvU Hfuel) as (st & d & seg & n & Hf & HL & Hd).
  - intros e [He Hin]%elem_of_arr_filter. apply bool_decide_eq_true in He. by exists e.
  - by apply loop_enter.
  - rewrite Hf. simpl. eapply close_spec; [done|done|exact HL|].
    intros y (e & He & Hfe & Hte). apply Hd. right.
    apply list_elem_of_fmap. exists e. split; [done|].
    apply elem_of_arr_filter. split; [by apply bool_decide_eq_true|done].
Qed.

(** ** The outer loop *)

Definition run_visit (fuel : nat) (st : TarjanState) (node : GraphNode) : option TarjanState :=
  match indexById st !! gn_id node with
  | None => connect fuel (outgoing_map es) (gn_id node) st
  | Some _ => Some st
  end.

Lemma run_fold (l : list GraphNode) (st : TarjanState) :
  (forall node, node ∈ l -> gn_id node ∈ U) -> Inv st [] ->
  exists st', foldM (run_visit (S (length U))) st l = Some st' /\ Inv st' [] /\
    (forall x, indexed st x \/ x ∈ map gn_id l -> indexed st' x).
Proof.
  revert st. induction l as [|node l IH]; intros st Hl HI; simpl.
  { exists st. split_and!; [done|done|]. set_solver. }
  assert (exists st1, run_visit (S (length U)) st node = Some st1 /\ Inv st1 [] /\
            (forall x, indexed st x \/ x = gn_id node -> indexed st1 x))
    as (st1 & Hf & HI1 & Hx1).
  { unfold run_visit. destruct (indexById st !! gn_id node) as [i|] eqn:Hi.
    - exists st. split_and!; [done|done|]. intros x [?| ->]; [done|by eexists].
    - destruct (connect_total (S (length U)) st [] (gn_id node)) as (st1 & seg & n & Hc & HP).
      + done.
      + done.
      + intros g Hg. set_solver.
      + set_solver.
      + unfold unindexed.
        pose proof (length_filter (fun x => indexById st !! x = None) U). lia.
      + exists st1. destruct HP. split_and!; [done|done|].
        intros x [?| ->]; [by eapply ext_indexed|done]. }
  rewrite Hf. destruct (IH st1) as (st' & ? & ? & Hx); [set_solver|done|].
  exists st'. split_and!; [done|done|]. intros x Hor. apply Hx.
  destruct Hor as [?|[->|?]%elem_of_cons]; auto.
Qed.

End tarjan.

(** ** The component map *)

Section membership_spec.
Context (graph : WorkflowGraph) (es : list GraphEdge).

Lemma tarjan_run_total :
  exists st, tarjan_run (S (length (tarjan_vertices graph es))) graph es = Some st /\
    Inv es st [] /\ forall node, node ∈ nodes graph -> indexed st (gn_id node).
Proof.
  destruct (run_fold es (tarjan_vertices graph es)) with (l := nodes graph) (st := tarjan_init)
    as (st & Hf & HI & Hx).
  - intros x y (e & He & _ & <-). unfold tarjan_vertices. apply elem_of_app. right.
    apply list_elem_of_fmap. eauto.
  - intros node Hn. unfold tarjan_vertices. apply elem_of_app. left.
    apply list_elem_of_fmap. eauto.
  - apply (init_inv es).
  - exists st. split_and!; [done|done|]. intros node Hn. apply Hx. right.
    apply list_elem_of_fmap. eauto.
Qed.

(** Every node has a component, and it is the set of vertices mutually reachable with
    the node, without duplicates. *)
Lemma computeSccMembership_spec (x : string) :
  x ∈ map gn_id (nodes graph) ->
  exists ms, map_get x (computeSccMembership graph es) = Some ms /\ NoDup ms /\
    forall y, y ∈ ms <-> mutual es x y.
Proof.
  intros (node & -> & Hn)%list_elem_of_fmap.
  destruct tarjan_run_total as (st & Hr & HI & Hx).
  unfold computeSccMembership. rewrite Hr.
  destruct (Hx node Hn) as [i Hi].
  assert (assigned st (gn_id node)) as [ms Hms].
  { assert (Hix : indexed st (gn_id node)) by by eexists.
    apply (inv_indexed _ _ _ HI) in Hix as [Hs|]; [|done].
    destruct (inv_to_gray _ _ _ HI _ _ Hs Hi) as (g & ? & Hg & _). set_solver. }
  exists ms. split; [done|]. by apply (inv_scc _ _ _ HI).
Qed.

(** Whatever the map holds is a component. *)
Lemma computeSccMembership_sound (x : string) (ms : list string) :
  map_get x (computeSccMembership graph es) = Some ms ->
  NoDup ms /\ forall y, y ∈ ms <-> mutual es x y.
Proof.
  destruct tarjan_run_total as (st & Hr & HI & _).
  unfold computeSccMembership. rewrite Hr. apply (inv_scc _ _ _ HI).
Qed.

Lemma computeSccMembership_keys : NoDup (computeSccMembership graph es).*1.
Proof.
  destruct tarjan_run_total as (st & Hr & HI & _).
  unfold computeSccMembership. rewrite Hr. apply (inv_keys _ _ _ HI).
Qed.

(** A component read off the values of the map is the component of its first member. *)
Lemma computeSccMembership_values (ms : list string) :
  ms ∈ (computeSccMembership graph es).*2 ->
  NoDup ms /\ exists x, map_get x (computeSccMembership graph es) = Some ms /\
    forall y, y ∈ ms <-> mutual es x y.
Proof.
  intros ([x ms'] & -> & Hin)%list_elem_of_fmap. simpl.
  apply elem_of_map_get in Hin; [|apply computeSccMembership_keys].
  destruct (computeSccMembership_sound _ _ Hin). eauto.
Qed.
End membership_spec.

Lemma mutual_refl (es : list GraphEdge) (x : string) : mutual es x x.
Proof. by split. Qed.

Lemma mutual_sym (es : list GraphEdge) (x y : string) : mutual es x y -> mutual es y x.
Proof. by intros []. Qed.

Lemma mutual_trans (es : list GraphEdge) (x y z : string) :
  mutual es x y -> mutual es y z -> mutual es x z.
Proof. intros [] []. split; by etrans. Qed.

(** Tarjan's algorithm as the engine writes it terminates, gives every node of the
    graph a component, and whatever component it gives a node is, without duplicates, the
    set of vertices that reach it and that it reaches. *)
Lemma computeSccMembership_correct (graph : WorkflowGraph) (es : list GraphEdge) :
  (exists st, tarjan_run (S (length (tarjan_vertices graph es))) graph es = Some st) /\
  (forall node, node ∈ nodes graph -> is_Some (map_get (gn_id node) (computeSccMembership graph es))) /\
  (forall x ms, map_get x (computeSccMembership graph es) = Some ms -> NoDup ms /\ forall y, y ∈ ms <-> mutual es x y).
Proof.
  split_and!.
  - destruct (tarjan_run_total graph es) as (st & Hr & _). eauto.
  - intros node Hn. destruct (computeSccMembership_spec graph es (gn_id node)) as (ms & Hms & _); [|eauto].
    apply list_elem_of_fmap. eauto.
  - apply computeSccMembership_sound.
Qed.
