(* ===== verification/EngineLoops.v ===== *)
(** * Engine v2: loops, and which graphs are executable

    [packages/@n8n/engine/src/graph/loops.ts] ([deriveLoops], [isCyclic], [validateLoops])
    and [validate-executable-graph.ts].  A check is a computation in [result]: it returns
    [Ok tt] or the first error the code throws, with the message the code builds.  The
    theorems say what a graph that passes looks like: [validateLoops_spec] is an
    equivalence with the five structural rules stated over reachability instead of over
    Tarjan's components. *)

From stdpp Require Import base gmap strings pretty list fin_maps relations.
From Stdlib Require Import Ascii ZArith Lia.
From S2P Require Import Prelude.
From S2P Require Import JsCollections.
From S2P Require Import EngineTypes.
From S2P Require Import EngineGraph.
From S2P Require Import EngineScc.
Local Open Scope string_scope.

(** ** Loops *)

Record WorkflowLoop := {
  batchNodeId : string;
  memberIds : list string;
  backEdges : list GraphEdge;
  entryEdges : list GraphEdge;
  exitEdges : list GraphEdge;
}.

Definition in_loop (loop : WorkflowLoop) (id : string) : bool := bool_decide (id ∈ memberIds loop).

(** The loop of one back-edge target. *)
Definition derive_loop (graph : WorkflowGraph) (sccByNode : list (string * list string))
    (batchNodeId : string) : WorkflowLoop :=
  let memberIds := default [batchNodeId] (map_get batchNodeId sccByNode) in
  {| batchNodeId := batchNodeId;
     memberIds := memberIds;
     backEdges := arr_filter (fun e => is_back e && bool_decide (to e = batchNodeId)) (edges graph);
     entryEdges := arr_filter (fun e =>
       negb (is_back e) && bool_decide (to e = batchNodeId) &&
       negb (bool_decide (from e ∈ memberIds))) (edges graph);
     exitEdges := arr_filter (fun e =>
       negb (is_back e) && bool_decide (from e ∈ memberIds) &&
       negb (bool_decide (to e ∈ memberIds))) (edges graph) |}.

Definition deriveLoops (graph : WorkflowGraph) : list WorkflowLoop :=
  let backEdgeTargets := set_of_list (map to (arr_filter is_back (edges graph))) in
  match backEdgeTargets with
  | [] => []
  | _ =>
      let sccByNode := computeSccMembership graph (edges graph) in
      map (derive_loop graph sccByNode) backEdgeTargets
  end.

Definition isCyclic (members : list string) (edges : list GraphEdge) : bool :=
  if (1 <? length members)%nat then true
  else match members with
       | only :: _ => arr_some (fun edge => bool_decide (from edge = only) && bool_decide (to edge = only)) edges
       | [] => false
       end.

(** ** [validateLoops] *)

Definition node_names (graph : WorkflowGraph) : list (string * string) :=
  foldl (fun m node => map_set (gn_id node) (gn_name node) m) [] (nodes graph).

Definition node_name (graph : WorkflowGraph) (id : string) : string :=
  default id (map_get id (node_names graph)).

(** [`${name(edge.from)} -> ${name(edge.to)}`] *)
Definition edge_name (graph : WorkflowGraph) (edge : GraphEdge) : string :=
  node_name graph (from edge) +:+ " -> " +:+ node_name graph (to edge).

Fixpoint check_node_ids (seen : list string) (ns : list GraphNode) : result unit :=
  match ns with
  | [] => Ok tt
  | node :: ns =>
      if decide (gn_id node ∈ seen)
      then Err (GraphValidationError ("Two nodes share the id " +:+ gn_id node))
      else check_node_ids (set_add seen (gn_id node)) ns
  end.

Definition check_endpoints (graph : WorkflowGraph) : result unit :=
  for_each (fun edge =>
    for_each (fun endpoint =>
      require (map_has endpoint (node_names graph))
        (GraphValidationError ("Edge " +:+ edge_name graph edge +:+ " references " +:+
          endpoint +:+ ", which is not a node in the graph"))) [from edge; to edge])
    (edges graph).

Definition forward_edges (graph : WorkflowGraph) : list GraphEdge :=
  arr_filter (fun edge => negb (is_back edge)) (edges graph).

(** Rule 1: with the back-edges removed, no component is cyclic. *)
Definition check_forward_acyclic (graph : WorkflowGraph) : result unit :=
  let forwardEdges := forward_edges graph in
  for_each (fun members =>
    require (negb (isCyclic members forwardEdges))
      (GraphValidationError ("Nodes " +:+ String.concat ", " (map (node_name graph) members) +:+
        " form a cycle with no back-edge to close it, so none of them can ever become runnable")))
    (set_of_list (computeSccMembership graph forwardEdges).*2).

Definition node_ids_of_type (graph : WorkflowGraph) (t : StepType) : list string :=
  set_of_list (map gn_id (arr_filter (fun node => bool_decide (gn_type node = t)) (nodes graph))).

(** Rule 3, the "none" case. *)
Definition check_batch_nodes (graph : WorkflowGraph) (loops : list WorkflowLoop) : result unit :=
  for_each (fun batchNodeId' =>
    require (arr_some (fun loop => bool_decide (batchNodeId loop = batchNodeId')) loops)
      (GraphValidationError ("Batch node " +:+ node_name graph batchNodeId' +:+
        " has no back-edge returning to it, so its loop could never advance")))
    (node_ids_of_type graph batch).

(** Rules 2 to 5 for one loop, in the order the code checks them. *)
Definition check_loop_head (graph : WorkflowGraph) (loop : WorkflowLoop) : result unit :=
  let name := node_name graph in
  let head := batchNodeId loop in
  require (bool_decide (head ∈ node_ids_of_type graph batch))
    (GraphValidationError ("Node " +:+ name head +:+
      " has a back-edge returning to it but is not a batch node")) ≫= fun _ =>
  let batchNode := arr_find (fun node => bool_decide (gn_id node = head)) (nodes graph) in
  require (bool_decide (is_Some (isBatchStepConfig (batchNode ≫= gn_config))))
    (GraphValidationError ("Batch node " +:+ name head +:+
      " has no batch size, and it must be a whole number of at least 1")) ≫= fun _ =>
  for_each (fun memberId =>
    require (negb (bool_decide (memberId ∈ node_ids_of_type graph trigger)))
      (GraphValidationError ("Trigger " +:+ name memberId +:+ " is inside the loop of " +:+
        name head +:+ ", so that loop could never start"))) (memberIds loop) ≫= fun _ =>
  for_each (fun memberId =>
    require (negb (negb (bool_decide (memberId = head)) &&
                   bool_decide (memberId ∈ node_ids_of_type graph batch)))
      (UnimplementedError ("Batch node " +:+ name memberId +:+ " sits inside the loop of " +:+
        name head +:+ "; nested loops are not supported yet"))) (memberIds loop).

Definition check_loop_returns (graph : WorkflowGraph) (loop : WorkflowLoop) : result unit :=
  let name := node_name graph in
  let head := batchNodeId loop in
  for_each (fun edge =>
    require (bool_decide (inputIndex edge = 0%Z))
      (GraphValidationError ("Back-edge " +:+ edge_name graph edge +:+ " feeds input slot " +:+
        pretty (inputIndex edge) +:+ "; returns feed the batch node's slot 0")) ≫= fun _ =>
    require (in_loop loop (from edge))
      (GraphValidationError ("Back-edge " +:+ edge_name graph edge +:+ " returns from outside the loop")))
    (backEdges loop) ≫= fun _ =>
  require (negb (1 <? length (backEdges loop))%nat)
    (UnimplementedError ("Batch node " +:+ name head +:+ " has " +:+ pretty (length (backEdges loop)) +:+
      " back-edges; multiple returns converge on one input slot, which is not supported yet")).

Definition check_loop_slots (graph : WorkflowGraph) (loop : WorkflowLoop) : result unit :=
  let name := node_name graph in
  let head := batchNodeId loop in
  for_each (fun edge =>
    require (negb (bool_decide (to edge = head) && negb (is_back edge) &&
                   negb (bool_decide (inputIndex edge = 0%Z))))
      (GraphValidationError ("Edge " +:+ edge_name graph edge +:+ " feeds input slot " +:+
        pretty (inputIndex edge) +:+ " of a batch node, which has only slot 0")) ≫= fun _ =>
    require (negb (bool_decide (from edge = head) && negb (bool_decide (outputIndex edge = 0%Z)) &&
                   negb (bool_decide (outputIndex edge = 1%Z))))
      (GraphValidationError ("Edge " +:+ edge_name graph edge +:+ " leaves output slot " +:+
        pretty (outputIndex edge) +:+ " of a batch node, which has only done (0) and loop (1)")))
    (edges graph) ≫= fun _ =>
  require (negb (1 <? length (entryEdges loop))%nat)
    (UnimplementedError ("Batch node " +:+ name head +:+ " has " +:+ pretty (length (entryEdges loop)) +:+
      " entry edges; converging entries on its input slot is not supported yet")).

Definition check_loop_boundary (graph : WorkflowGraph) (loop : WorkflowLoop) : result unit :=
  let name := node_name graph in
  let head := batchNodeId loop in
  for_each (fun edge =>
    require (bool_decide (from edge = head))
      (UnimplementedError ("Edge " +:+ edge_name graph edge +:+ " leaves the loop of " +:+ name head +:+
        " mid-body; dangling body branches are not supported yet")) ≫= fun _ =>
    require (bool_decide (outputIndex edge = 0%Z))
      (GraphValidationError ("Edge " +:+ edge_name graph edge +:+
        " leaves the loop from the loop slot; only the done slot (0) exits")))
    (exitEdges loop) ≫= fun _ =>
  for_each (fun edge =>
    require (negb (bool_decide (from edge = head) && bool_decide (outputIndex edge = 0%Z) &&
                   in_loop loop (to edge)))
      (GraphValidationError ("Done slot of " +:+ name head +:+ " feeds " +:+ name (to edge) +:+
        ", a member of its own loop; a node cannot run both per iteration and after the loop")) ≫= fun _ =>
    require (negb (negb (is_back edge) && in_loop loop (to edge) &&
                   negb (bool_decide (to edge = head)) && negb (in_loop loop (from edge))))
      (GraphValidationError ("Edge " +:+ edge_name graph edge +:+ " enters the loop of " +:+ name head +:+
        " mid-body; the batch node is the only way in")))
    (edges graph).

Definition validate_loop (graph : WorkflowGraph) (loop : WorkflowLoop) : result unit :=
  check_loop_head graph loop ≫= fun _ =>
  check_loop_returns graph loop ≫= fun _ =>
  check_loop_slots graph loop ≫= fun _ =>
  check_loop_boundary graph loop.

Definition validateLoops (graph : WorkflowGraph) : result unit :=
  check_node_ids [] (nodes graph) ≫= fun _ =>
  check_endpoints graph ≫= fun _ =>
  check_forward_acyclic graph ≫= fun _ =>
  let loops := deriveLoops graph in
  check_batch_nodes graph loops ≫= fun _ =>
  for_each (validate_loop graph) loops.

(** ** [validateExecutableGraph] *)

Definition MAX_SLOT_INDEX : Z := 100.

(** [Number.isInteger] of a slot index: every index of the model is an integer. *)
Definition Number_isInteger (index : Z) : bool := true.

Definition check_slots (edge : GraphEdge) : result unit :=
  for_each (fun index =>
    require (negb (negb (Number_isInteger index) || (index <? 0)%Z))
      (GraphValidationError ("Edge " +:+ from edge +:+ " -> " +:+ to edge +:+ " has slot index " +:+
        pretty index +:+ "; slot indices are non-negative integers")) ≫= fun _ =>
    require (negb (MAX_SLOT_INDEX <? index)%Z)
      (GraphValidationError ("Edge " +:+ from edge +:+ " -> " +:+ to edge +:+ " has slot index " +:+
        pretty index +:+ "; slot indices above " +:+ pretty MAX_SLOT_INDEX +:+
        " are not supported yet"))) [outputIndex edge; inputIndex edge].

(** [`${edge.to}#${edge.inputIndex}`] *)
Definition input_slot (edge : GraphEdge) : string := to edge +:+ "#" +:+ pretty (inputIndex edge).

Fixpoint check_convergence (seenInputSlots : list string) (es : list GraphEdge) : result unit :=
  match es with
  | [] => Ok tt
  | edge :: es =>
      if is_back edge then check_convergence seenInputSlots es
      else if decide (input_slot edge ∈ seenInputSlots)
      then Err (UnimplementedError ("Node " +:+ to edge +:+ " has more than one edge into input slot " +:+
             pretty (inputIndex edge) +:+ "; converging branches on one slot is not supported yet"))
      else check_convergence (set_add seenInputSlots (input_slot edge)) es
  end.

Definition validateExecutableGraph (graph : WorkflowGraph) : result unit :=
  let triggers := arr_filter (fun node => bool_decide (gn_type node = trigger)) (nodes graph) in
  match triggers with
  | [] => Err (GraphValidationError "Graph has no trigger node to start from")
  | _ :: _ :: _ => Err (GraphValidationError "Graph must have exactly one trigger node")
  | [trigger_node] =>
      validateLoops graph ≫= fun _ =>
      let reachable := set_of_list (gn_id trigger_node :: getDescendantNodeIds graph (gn_id trigger_node)) in
      for_each (fun edge =>
        require (negb (bool_decide (to edge ∈ reachable) && negb (bool_decide (from edge ∈ reachable))))
          (GraphValidationError ("Edge " +:+ from edge +:+ " -> " +:+ to edge +:+
            " feeds a node the trigger reaches from one it cannot reach, so " +:+ to edge +:+
            " would wait on " +:+ from edge +:+ " forever"))) (edges graph) ≫= fun _ =>
      for_each check_slots (edges graph) ≫= fun _ =>
      check_convergence [] (edges graph)
  end.

(** ** What a valid graph looks like *)

Definition node_ids (graph : WorkflowGraph) : list string := map gn_id (nodes graph).

Definition has_type (graph : WorkflowGraph) (t : StepType) (id : string) : Prop :=
  exists node, node ∈ nodes graph /\ gn_id node = id /\ gn_type node = t.

(** No path of forward edges returns to where it started. *)
Definition forward_acyclic (graph : WorkflowGraph) : Prop :=
  forall x, ~ reaches (forward_edges graph) x x.

Definition back_edge (graph : WorkflowGraph) (e : GraphEdge) : Prop :=
  e ∈ edges graph /\ is_back e = true.
Definition forward_edge (graph : WorkflowGraph) (e : GraphEdge) : Prop :=
  e ∈ edges graph /\ is_back e = false.

(** [b] heads a loop: a marked back-edge returns to it. *)
Definition heads_loop (graph : WorkflowGraph) (b : string) : Prop :=
  exists e, back_edge graph e /\ to e = b.

(** [x] is on a cycle through [b], or is [b]. *)
Definition member (graph : WorkflowGraph) (b x : string) : Prop := mutual (edges graph) b x.

(** The rules for the loop headed by [b]. *)
Record ValidLoop (graph : WorkflowGraph) (b : string) : Prop := {
  vl_head : has_type graph batch b;
  vl_config : exists node, arr_find (fun node => bool_decide (gn_id node = b)) (nodes graph) = Some node /\
    is_Some (isBatchStepConfig (gn_config node));
  vl_no_trigger : forall x, member graph b x -> ~ has_type graph trigger x;
  vl_no_nesting : forall x, member graph b x -> x <> b -> ~ has_type graph batch x;
  vl_return : forall e, back_edge graph e -> to e = b -> inputIndex e = 0%Z /\ member graph b (from e);
  vl_one_return : length (arr_filter (fun e => is_back e && bool_decide (to e = b)) (edges graph)) <= 1;
  vl_in_slot : forall e, forward_edge graph e -> to e = b -> inputIndex e = 0%Z;
  vl_out_slot : forall e, e ∈ edges graph -> from e = b -> outputIndex e = 0%Z \/ outputIndex e = 1%Z;
  vl_one_entry : forall loop, loop ∈ deriveLoops graph -> batchNodeId loop = b -> length (entryEdges loop) <= 1;
  vl_exit : forall e, forward_edge graph e -> member graph b (from e) -> ~ member graph b (to e) ->
    from e = b /\ outputIndex e = 0%Z;
  vl_done : forall e, e ∈ edges graph -> from e = b -> outputIndex e = 0%Z -> ~ member graph b (to e);
  vl_entrance : forall e, forward_edge graph e -> member graph b (to e) -> to e <> b ->
    member graph b (from e);
}.

Record ValidLoops (graph : WorkflowGraph) : Prop := {
  vg_ids : NoDup (node_ids graph);
  vg_endpoints : forall e, e ∈ edges graph -> from e ∈ node_ids graph /\ to e ∈ node_ids graph;
  vg_acyclic : forward_acyclic graph;
  vg_batch : forall b, has_type graph batch b -> heads_loop graph b;
  vg_loop : forall b, heads_loop graph b -> ValidLoop graph b;
}.

(** ** Lemmas *)

Lemma elem_of_node_ids_of_type (graph : WorkflowGraph) (t : StepType) (x : string) :
  x ∈ node_ids_of_type graph t <-> has_type graph t x.
Proof.
  unfold node_ids_of_type, has_type. rewrite elem_of_set_of_list, list_elem_of_fmap.
  setoid_rewrite elem_of_arr_filter. setoid_rewrite bool_decide_eq_true. naive_solver.
Qed.

Lemma node_names_keys (graph : WorkflowGraph) (x : string) :
  map_has x (node_names graph) = true <-> x ∈ node_ids graph.
Proof.
  unfold node_names, node_ids, map_has. rewrite bool_decide_eq_true.
  assert (forall (m : list (string * string)),
    is_Some (map_get x (foldl (fun m node => map_set (gn_id node) (gn_name node) m) m (nodes graph))) <->
    is_Some (map_get x m) \/ x ∈ map gn_id (nodes graph)) as Hgen.
  { induction (nodes graph) as [|node ns IH]; intros m; simpl; [set_solver|].
    rewrite IH, map_get_set, elem_of_cons. case_decide; naive_solver. }
  rewrite Hgen. simpl. split; [intros [[]%is_Some_None|]|]; auto.
Qed.

Lemma check_node_ids_ok (seen : list string) (ns : list GraphNode) :
  check_node_ids seen ns = Ok tt <->
  NoDup (map gn_id ns) /\ forall x, x ∈ map gn_id ns -> x ∉ seen.
Proof.
  revert seen. induction ns as [|node ns IH]; intros seen; simpl.
  { split; [|done]. intros _. split; [apply NoDup_nil_2|set_solver]. }
  case_decide as Hin.
  - split; [done|]. intros [_ H]. exfalso. apply (H (gn_id node)); [set_solver|done].
  - rewrite IH, NoDup_cons. setoid_rewrite elem_of_set_add. set_solver.
Qed.

Lemma elem_of_forward_edges (graph : WorkflowGraph) (e : GraphEdge) :
  e ∈ forward_edges graph <-> forward_edge graph e.
Proof. unfold forward_edges, forward_edge. rewrite elem_of_arr_filter, negb_true_iff. naive_solver. Qed.

(** Two distinct members of a component, or one with a loop on itself. *)
Lemma isCyclic_spec (es : list GraphEdge) (x : string) (ms : list string) :
  NoDup ms -> (forall y, y ∈ ms <-> mutual es x y) ->
  isCyclic ms es = true <-> reaches es x x.
Proof.
  intros Hnd Hms.
  assert (Hx : x ∈ ms) by (apply Hms, mutual_refl).
  assert (Hcyc : forall y, y ∈ ms -> y <> x -> reaches es x x).
  { intros y [Hxy Hyx]%Hms Hne. destruct Hxy as [|x z y Hxz Hzy]; [done|].
    apply reaches_first. exists z. split; [done|by etrans]. }
  unfold isCyclic. destruct ms as [|a [|b ms]]; simpl.
  - by apply elem_of_nil in Hx.
  - apply list_elem_of_singleton in Hx as ->. rewrite arr_some_true. split.
    + intros (e & He & [Hf Ht]%andb_true_iff). apply bool_decide_eq_true in Hf, Ht.
      apply tc_once. by exists e.
    + intros Hr. unfold reaches in Hr.
      apply reaches_first in Hr as (z & Haz & Hza).
      assert (z = a) as ->.
      { apply list_elem_of_singleton. apply Hms. split; [by apply rtc_once|done]. }
      destruct Haz as (e & He & Hf & Ht). exists e. split; [done|].
      by rewrite Hf, Ht, bool_decide_true.
  - split; [intros _|done].
    apply NoDup_cons in Hnd as [Ha Hnd]. destruct (decide (a = x)) as [->|Hne].
    + apply (Hcyc b); [set_solver|]. intros ->. set_solver.
    + apply (Hcyc a); [set_solver|done].
Qed.

Lemma check_forward_acyclic_ok (graph : WorkflowGraph) :
  (forall e, e ∈ edges graph -> from e ∈ node_ids graph /\ to e ∈ node_ids graph) ->
  check_forward_acyclic graph = Ok tt <-> forward_acyclic graph.
Proof.
  intros Hends. unfold check_forward_acyclic, forward_acyclic. rewrite for_each_ok.
  setoid_rewrite elem_of_set_of_list. setoid_rewrite require_ok. setoid_rewrite negb_true_iff.
  split.
  - intros H x Hx.
    assert (Hxn : x ∈ node_ids graph).
    { destruct (reaches_last _ _ _ Hx) as (z & e & He & _ & <-).
      apply elem_of_forward_edges in He as [He _]. by apply Hends. }
    destruct (computeSccMembership_spec graph (forward_edges graph) x Hxn) as (ms & Hget & Hnd & Hms).
    assert (isCyclic ms (forward_edges graph) = false) as Hf.
    { apply H. apply list_elem_of_fmap. exists (x, ms). split; [done|]. by apply map_get_Some_elem_of. }
    pose proof (proj2 (isCyclic_spec _ _ _ Hnd Hms) Hx). congruence.
  - intros H ms Hin.
    destruct (computeSccMembership_values _ _ _ Hin) as (Hnd & x & _ & Hms).
    destruct (isCyclic ms (forward_edges graph)) eqn:Hc; [|done].
    exfalso. apply (H x). by apply (isCyclic_spec _ _ _ Hnd Hms).
Qed.

(** ** The derived loops *)

Definition loop_of (graph : WorkflowGraph) (b : string) : WorkflowLoop :=
  derive_loop graph (computeSccMembership graph (edges graph)) b.

Lemma deriveLoops_map (graph : WorkflowGraph) :
  deriveLoops graph = map (loop_of graph) (set_of_list (map to (arr_filter is_back (edges graph)))).
Proof. unfold deriveLoops. by destruct (set_of_list _). Qed.

Lemma elem_of_deriveLoops (graph : WorkflowGraph) (loop : WorkflowLoop) :
  loop ∈ deriveLoops graph <-> heads_loop graph (batchNodeId loop) /\ loop = loop_of graph (batchNodeId loop).
Proof.
  rewrite deriveLoops_map, list_elem_of_fmap. unfold heads_loop, back_edge.
  setoid_rewrite elem_of_set_of_list. setoid_rewrite list_elem_of_fmap.
  setoid_rewrite elem_of_arr_filter. split.
  - intros (b & -> & e & -> & ? & ?). simpl. eauto.
  - intros [(e & [? ?] & He) ->]. exists (to e). rewrite He. split; [done|]. exists e. by rewrite He.
Qed.

Lemma deriveLoops_heads_NoDup (graph : WorkflowGraph) : NoDup (map batchNodeId (deriveLoops graph)).
Proof.
  rewrite deriveLoops_map. rewrite map_map.
  rewrite (map_ext _ (fun x => x)), map_id by done. apply set_of_list_NoDup.
Qed.

Lemma loop_of_members (graph : WorkflowGraph) (b : string) :
  b ∈ node_ids graph ->
  NoDup (memberIds (loop_of graph b)) /\
  forall x, x ∈ memberIds (loop_of graph b) <-> member graph b x.
Proof.
  intros Hb. unfold loop_of, derive_loop, member. simpl.
  destruct (computeSccMembership_spec graph (edges graph) b Hb) as (ms & Hget & Hms).
  rewrite Hget. done.
Qed.

Lemma in_loop_of (graph : WorkflowGraph) (b x : string) :
  b ∈ node_ids graph -> in_loop (loop_of graph b) x = true <-> member graph b x.
Proof.
  intros Hb. unfold in_loop. rewrite bool_decide_eq_true. by apply loop_of_members.
Qed.

(** ** The checks of one loop, one by one *)

Section one_loop.
Context (graph : WorkflowGraph) (b : string).
Hypothesis Hb : b ∈ node_ids graph.

Local Notation L := (loop_of graph b).

Lemma check_loop_head_ok :
  check_loop_head graph L = Ok tt <->
  has_type graph batch b /\
  (exists node, arr_find (fun node => bool_decide (gn_id node = b)) (nodes graph) = Some node /\
    is_Some (isBatchStepConfig (gn_config node))) /\
  (forall x, member graph b x -> ~ has_type graph trigger x) /\
  (forall x, member graph b x -> x <> b -> ~ has_type graph batch x).
Proof.
  unfold check_loop_head. rewrite !bind_unit_ok, !require_ok, !bool_decide_eq_true, !for_each_ok.
  setoid_rewrite require_ok. setoid_rewrite (proj2 (loop_of_members graph b Hb)).
  change (batchNodeId L) with b.
  rewrite elem_of_node_ids_of_type.
  setoid_rewrite negb_true_iff. setoid_rewrite andb_false_iff.
  setoid_rewrite negb_false_iff. setoid_rewrite bool_decide_eq_false.
  setoid_rewrite bool_decide_eq_true. setoid_rewrite elem_of_node_ids_of_type.
  assert (is_Some (isBatchStepConfig (arr_find (λ node, bool_decide (gn_id node = b)) (nodes graph) ≫= gn_config)) <->
    exists node, arr_find (λ node, bool_decide (gn_id node = b)) (nodes graph) = Some node /\
      is_Some (isBatchStepConfig (gn_config node))) as Hcfg.
  { destruct (arr_find _ _) as [node|]; simpl; [naive_solver|].
    split; [intros []%is_Some_None|naive_solver]. }
  rewrite Hcfg.
  assert ((forall x, member graph b x -> x = b \/ ~ has_type graph batch x) <->
          (forall x, member graph b x -> x <> b -> ~ has_type graph batch x)) as Hn.
  { split; [naive_solver|]. intros H x Hx. destruct (decide (x = b)); auto. }
  rewrite Hn. done.
Qed.

Lemma check_loop_returns_ok :
  check_loop_returns graph L = Ok tt <->
  (forall e, back_edge graph e -> to e = b -> inputIndex e = 0%Z /\ member graph b (from e)) /\
  length (arr_filter (fun e => is_back e && bool_decide (to e = b)) (edges graph)) <= 1.
Proof.
  unfold check_loop_returns. rewrite bind_unit_ok, for_each_ok, require_ok.
  setoid_rewrite bind_unit_ok. setoid_rewrite require_ok. setoid_rewrite bool_decide_eq_true.
  setoid_rewrite (proj2 (loop_of_members graph b Hb)). rewrite negb_true_iff, Nat.ltb_ge.
  unfold loop_of, derive_loop, back_edge. simpl. setoid_rewrite elem_of_arr_filter.
  setoid_rewrite andb_true_iff. setoid_rewrite bool_decide_eq_true. naive_solver.
Qed.

Lemma check_loop_slots_ok :
  check_loop_slots graph L = Ok tt <->
  (forall e, forward_edge graph e -> to e = b -> inputIndex e = 0%Z) /\
  (forall e, e ∈ edges graph -> from e = b -> outputIndex e = 0%Z \/ outputIndex e = 1%Z) /\
  length (entryEdges L) <= 1.
Proof.
  unfold check_loop_slots. rewrite bind_unit_ok, for_each_ok, require_ok.
  setoid_rewrite bind_unit_ok. setoid_rewrite require_ok.
  rewrite negb_true_iff, Nat.ltb_ge. change (batchNodeId L) with b.
  setoid_rewrite negb_true_iff. setoid_rewrite andb_false_iff. setoid_rewrite andb_false_iff.
  setoid_rewrite negb_false_iff. setoid_rewrite bool_decide_eq_false. setoid_rewrite bool_decide_eq_true.
  unfold forward_edge. split.
  - intros [H ?]. split_and!; [| |done].
    + intros e [He Hf] Ht. destruct (H e He) as [[[?|?]|?] _]; congruence.
    + intros e He Hf. destruct (H e He) as [_ [[?|?]|?]]; [congruence|auto..].
  - intros (H1 & H2 & ?). split; [|done]. intros e He. split.
    + destruct (decide (to e = b)) as [Ht|]; [|auto].
      destruct (is_back e) eqn:Hbk; [auto|]. right. by apply H1.
    + destruct (decide (from e = b)) as [Hf|]; [|auto]. destruct (H2 e He Hf); auto.
Qed.

Lemma check_loop_boundary_ok :
  check_loop_boundary graph L = Ok tt <->
  (forall e, forward_edge graph e -> member graph b (from e) -> ~ member graph b (to e) ->
    from e = b /\ outputIndex e = 0%Z) /\
  (forall e, e ∈ edges graph -> from e = b -> outputIndex e = 0%Z -> ~ member graph b (to e)) /\
  (forall e, forward_edge graph e -> member graph b (to e) -> to e <> b -> member graph b (from e)).
Proof.
  unfold check_loop_boundary. rewrite bind_unit_ok, !for_each_ok.
  setoid_rewrite bind_unit_ok. setoid_rewrite require_ok.
  change (batchNodeId L) with b.
  assert (Hno : forall x, in_loop L x = false <-> ~ member graph b x).
  { intros x. rewrite <-(in_loop_of graph b x Hb). by rewrite not_true_iff_false. }
  setoid_rewrite negb_true_iff. setoid_rewrite andb_false_iff. setoid_rewrite andb_false_iff.
  setoid_rewrite andb_false_iff.
  setoid_rewrite negb_false_iff. setoid_rewrite bool_decide_eq_false. setoid_rewrite bool_decide_eq_true.
  assert (Hex : forall e, e ∈ exitEdges L <->
    forward_edge graph e /\ member graph b (from e) /\ ~ member graph b (to e)).
  { intros e. unfold forward_edge. rewrite <-!(proj2 (loop_of_members graph b Hb)).
    unfold loop_of, derive_loop. simpl. rewrite elem_of_arr_filter, !andb_true_iff, !negb_true_iff.
    rewrite bool_decide_eq_true, bool_decide_eq_false. tauto. }
  setoid_rewrite Hex. setoid_rewrite (proj2 (loop_of_members graph b Hb)).
  unfold forward_edge. split.
  - intros [H1 H2]. split_and!.
    + intros e [He Hf] Hm Hn. apply H1. auto.
    + intros e He Hf Ho Hm. destruct (H2 e He) as [[[?|?]|?] _]; congruence || done.
    + intros e [He Hf] Hm Hn. destruct (H2 e He) as [_ [[[?|?]|?]|?]]; congruence || done.
  - intros (H1 & H2 & H3). split.
    + intros e ([He Hf] & Hm & Hn). by apply H1.
    + intros e He. split.
      * destruct (decide (from e = b)) as [Hf|]; [|auto].
        destruct (decide (outputIndex e = 0%Z)) as [Ho|]; [|auto]. right. by apply H2.
      * destruct (is_back e) eqn:Hbk; [auto|].
        destruct (decide (to e = b)) as [|Ht]; [auto|].
        destruct (in_loop L (to e)) eqn:Hin.
        -- right. apply (in_loop_of graph b _ Hb) in Hin. by apply H3.
        -- apply Hno in Hin. auto.
Qed.

Lemma validate_loop_ok :
  heads_loop graph b -> validate_loop graph L = Ok tt <-> ValidLoop graph b.
Proof.
  intros Hh. unfold validate_loop.
  rewrite !bind_unit_ok, check_loop_head_ok, check_loop_returns_ok, check_loop_slots_ok,
    check_loop_boundary_ok.
  assert (Hentry : length (entryEdges L) <= 1 <->
    forall loop, loop ∈ deriveLoops graph -> batchNodeId loop = b -> length (entryEdges loop) <= 1).
  { split.
    - intros H loop [_ ->]%elem_of_deriveLoops <-. done.
    - intros H. apply H; [|done]. by apply elem_of_deriveLoops. }
  rewrite Hentry. split.
  - intros ((?&?&?&?)&(?&?)&(?&?&?)&(?&?&?)). by split.
  - intros []. by split_and!.
Qed.
End one_loop.

Lemma validateLoops_ok (graph : WorkflowGraph) :
  validateLoops graph = Ok tt <-> ValidLoops graph.
Proof.
  unfold validateLoops. rewrite !bind_unit_ok, check_node_ids_ok.
  assert (Hends : check_endpoints graph = Ok tt <->
    forall e, e ∈ edges graph -> from e ∈ node_ids graph /\ to e ∈ node_ids graph).
  { unfold check_endpoints. rewrite for_each_ok. setoid_rewrite for_each_ok.
    setoid_rewrite require_ok. setoid_rewrite node_names_keys.
    split; intros H e He; specialize (H e He); [split; apply H; set_solver|].
    intros x. rewrite !elem_of_cons. intros [->|[->|?%elem_of_nil]]; naive_solver. }
  assert (Hbatch : check_batch_nodes graph (deriveLoops graph) = Ok tt <->
    forall b, has_type graph batch b -> heads_loop graph b).
  { unfold check_batch_nodes. rewrite for_each_ok. setoid_rewrite require_ok.
    setoid_rewrite elem_of_node_ids_of_type. setoid_rewrite arr_some_true.
    setoid_rewrite bool_decide_eq_true. split; intros H b Hb.
    - destruct (H b Hb) as (loop & [Hh _]%elem_of_deriveLoops & <-). done.
    - exists (loop_of graph b). split; [|done]. apply elem_of_deriveLoops. simpl. auto. }
  rewrite Hends, Hbatch, for_each_ok. split.
  - intros ([Hnd _] & He & Ha & Hbt & Hl).
    split; [done|done|by apply check_forward_acyclic_ok|done|].
    intros b Hh. apply validate_loop_ok; [|done|].
    + destruct Hh as (e & [Hin _] & <-). by apply He.
    + apply Hl, elem_of_deriveLoops. done.
  - intros [Hnd He Ha Hbt Hl]. split_and!; try done.
    + set_solver.
    + by apply check_forward_acyclic_ok.
    + intros loop [Hh Heq]%elem_of_deriveLoops. rewrite Heq.
      apply validate_loop_ok; [|done|by apply Hl].
      destruct Hh as (e & [Hin _] & <-). by apply He.
Qed.

(** ** Executable graphs *)

(** The trigger, or what it leads to. *)
Definition reachable (graph : WorkflowGraph) (trigger_id x : string) : Prop :=
  x = trigger_id \/ reaches (edges graph) trigger_id x.

Record ValidGraph (graph : WorkflowGraph) (trigger_id : string) : Prop := {
  ve_trigger : exists node, gn_id node = trigger_id /\
    arr_filter (fun node => bool_decide (gn_type node = trigger)) (nodes graph) = [node];
  ve_loops : ValidLoops graph;
  ve_reachable : forall e, e ∈ edges graph -> reachable graph trigger_id (to e) ->
    reachable graph trigger_id (from e);
  ve_slots : forall e, e ∈ edges graph ->
    (0 <= outputIndex e <= MAX_SLOT_INDEX)%Z /\ (0 <= inputIndex e <= MAX_SLOT_INDEX)%Z;
  ve_converge : NoDup (map (fun e => (to e, inputIndex e)) (forward_edges graph));
}.

Lemma input_slot_inj (e1 e2 : GraphEdge) :
  input_slot e1 = input_slot e2 <-> (to e1, inputIndex e1) = (to e2, inputIndex e2).
Proof.
  unfold input_slot. split.
  - intros Heq. apply (numbered_inj "#"%char) in Heq as [-> ->]; done.
  - intros [= -> ->]. done.
Qed.

Lemma check_convergence_ok (seen : list string) (es : list GraphEdge) :
  check_convergence seen es = Ok tt <->
  NoDup (map input_slot (arr_filter (fun e => negb (is_back e)) es)) /\
  forall s, s ∈ map input_slot (arr_filter (fun e => negb (is_back e)) es) -> s ∉ seen.
Proof.
  revert seen. induction es as [|e es IH]; intros seen; simpl.
  { split; [|done]. intros _. split; [apply NoDup_nil_2|set_solver]. }
  destruct (is_back e); simpl; [by apply IH|]. case_decide as Hin.
  - split; [done|]. intros [_ H]. exfalso. apply (H (input_slot e)); [set_solver|done].
  - rewrite IH, NoDup_cons. setoid_rewrite elem_of_set_add. setoid_rewrite elem_of_cons. set_solver.
Qed.

Lemma check_slots_ok (e : GraphEdge) :
  check_slots e = Ok tt <->
  (0 <= outputIndex e <= MAX_SLOT_INDEX)%Z /\ (0 <= inputIndex e <= MAX_SLOT_INDEX)%Z.
Proof.
  unfold check_slots. rewrite for_each_ok. setoid_rewrite bind_unit_ok. setoid_rewrite require_ok.
  setoid_rewrite elem_of_cons. setoid_rewrite list_elem_of_singleton.
  setoid_rewrite negb_true_iff. setoid_rewrite orb_false_iff. setoid_rewrite Z.ltb_ge. split.
  - intros H. pose proof (H _ (or_introl eq_refl)). pose proof (H _ (or_intror eq_refl)). lia.
  - intros H x [->| ->]; (split; [split; [done|]|]; lia).
Qed.

Lemma validateExecutableGraph_ok (graph : WorkflowGraph) :
  validateExecutableGraph graph = Ok tt <-> exists trigger_id, ValidGraph graph trigger_id.
Proof.
  unfold validateExecutableGraph.
  destruct (arr_filter _ (nodes graph)) as [|node [|node2 ns]] eqn:Htr.
  - split; [done|]. intros (t & [(node & _ & Heq) _ _ _ _]). congruence.
  - rewrite !bind_unit_ok, validateLoops_ok, !for_each_ok, check_convergence_ok.
    setoid_rewrite check_slots_ok. setoid_rewrite require_ok.
    assert (Hreach : forall x, bool_decide (x ∈ set_of_list (gn_id node :: getDescendantNodeIds graph (gn_id node)))
              = true <-> reachable graph (gn_id node) x).
    { intros x. rewrite bool_decide_eq_true, elem_of_set_of_list, elem_of_cons,
        elem_of_getDescendantNodeIds. done. }
    assert (Hconv : NoDup (map input_slot (forward_edges graph)) <->
                    NoDup (map (fun e => (to e, inputIndex e)) (forward_edges graph))).
    { generalize (forward_edges graph). induction l as [|e l IH]; simpl; [split; intros; apply NoDup_nil_2|].
      rewrite !NoDup_cons, IH, !list_elem_of_fmap. setoid_rewrite input_slot_inj. done. }
    fold (forward_edges graph). rewrite Hconv. split.
    + intros (Hl & Hr & Hs & Hc & _). exists (gn_id node). split; try done.
      * eauto.
      * intros e He Ht. specialize (Hr e He). apply negb_true_iff, andb_false_iff in Hr as [Hr|Hr].
        -- apply Hreach in Ht. congruence.
        -- apply negb_false_iff in Hr. by apply Hreach.
    + intros (t & [(node' & <- & Heq) Hl Hr Hs Hc]). rewrite Htr in Heq. simplify_eq.
      split_and!; try done; [|set_solver].
      intros e He. apply negb_true_iff, andb_false_iff.
      destruct (bool_decide (to e ∈ _)) eqn:Ht; [right|by left].
      apply negb_false_iff, Hreach, Hr; [done|]. by apply Hreach.
  - split; [done|]. intros (t & [(node' & _ & Heq) _ _ _ _]). congruence.
Qed.

(** [validateExecutableGraph] accepts exactly the graphs the engine can run: one
    trigger, well-formed loops (each headed by one configured batch node, entered and left
    only there, not nested, with one return and at most one entry), no other cycle, edges
    into reachable nodes from reachable nodes only, slots in range, and at most one forward
    edge into an input slot. *)
Lemma validateExecutableGraph_accepts (graph : WorkflowGraph) :
  validateExecutableGraph graph = Ok tt <-> exists trigger_id, ValidGraph graph trigger_id.
Proof. apply validateExecutableGraph_ok. Qed.

(** [validateLoops] accepts exactly the graphs whose node ids are unique, whose edges
    join nodes, whose forward edges have no cycle, whose batch nodes all head loops and
    whose loops all keep the rules of [ValidLoop]. *)
Lemma validateLoops_accepts (graph : WorkflowGraph) :
  validateLoops graph = Ok tt <-> ValidLoops graph.
Proof. apply validateLoops_ok. Qed.
