(* ===== verification/EngineSettlement.v ===== *)
(** * Engine v2: which steps a settlement decides

    The planning core of the engine, all pure: [execution/iteration-mapping.ts] (which
    rows an edge connects), [loop-ledger.ts] (when a loop has ended), [settlement.ts]
    (the fate of a settled step's successors, and the rows that decision reads) and
    [completion.ts] (how many settled steps a finished execution owes).

    [Record<StepKeyId, StepSummary>] is a [gmap] keyed by [stepKeyId];
    [Map<string, number>] of terminal iterations is a [gmap].  A loop object is compared
    by reference in [classifyEdge], so it is identified by its position in [loops]. *)

From stdpp Require Import base gmap strings pretty list fin_maps relations.
From Stdlib Require Import ZArith Lia.
From S2P Require Import Prelude.
From S2P Require Import JsCollections.
From S2P Require Import EngineTypes.
From S2P Require Import EngineGraph.
From S2P Require Import EngineScc.
From S2P Require Import EngineLoops.

(** ** Iteration mapping *)

Inductive EdgeClass := plain | entry | intra | back | exit.

#[export] Instance EdgeClass_eq_dec : EqDecision EdgeClass.
Proof. solve_decision. Defined.

Inductive SourceRow := Row (key : StepKey) | RowNone | RowPending.

Definition classifyEdge (edge : GraphEdge) (loops : list WorkflowLoop) : EdgeClass :=
  if is_back edge then back
  else
    let sourceLoop := arr_findIndex (fun loop => in_loop loop (from edge)) loops in
    let targetLoop := arr_findIndex (fun loop => in_loop loop (to edge)) loops in
    if bool_decide (is_Some sourceLoop) && bool_decide (sourceLoop = targetLoop) then intra
    else if bool_decide (is_Some sourceLoop) then exit
    else if bool_decide (is_Some targetLoop) then entry
    else plain.

Definition targetKey (edge : GraphEdge) (edgeClass : EdgeClass) (source : StepKey) : StepKey :=
  match edgeClass with
  | back => mkKey (to edge) (iteration source + 1)
  | exit | entry => mkKey (to edge) 0
  | _ => mkKey (to edge) (iteration source)
  end.

Definition sourceRow (edge : GraphEdge) (edgeClass : EdgeClass) (target : StepKey)
    (terminalIteration : option Z) : SourceRow :=
  let row := fun iteration => Row (mkKey (from edge) iteration) in
  match edgeClass with
  | back => if decide (iteration target = 0%Z) then RowNone else row (iteration target - 1)%Z
  | entry => if decide (0 < iteration target)%Z then RowNone else row 0%Z
  | exit =>
      if decide (0 < iteration target)%Z then RowNone
      else match terminalIteration with
           | None => RowPending
           | Some t => row t
           end
  | _ => row (iteration target)
  end.

(** ** The loop ledger *)

(** The planning view of a step row. *)
Record StepSummary := mkSummary {
  ss_id : string;
  ss_nodeId : string;
  ss_iteration : Z;
  ss_status : StepStatus;
  filledOutputSlots : list bool;
}.

Notation Summaries := (gmap string StepSummary).
Notation Terminals := (gmap string Z).

Definition DONE_SLOT : Z := 0.
Definition LOOP_SLOT : Z := 1.

Definition endsLoop (status : StepStatus) (loopSlotFilled : bool) : bool :=
  isSettledStatus status && negb loopSlotFilled.

(** [Boolean(filledOutputSlots[i])]: a slot past the produced list reads as unfilled. *)
Definition slot_filled (step : StepSummary) (i : Z) : bool :=
  default false (at_index (filledOutputSlots step) i).

Definition isTerminalStep (step : StepSummary) : bool :=
  endsLoop (ss_status step) (slot_filled step LOOP_SLOT).

Definition exitSourcesInto (graph : WorkflowGraph) (loops : list WorkflowLoop)
    (targetNodeIds : list string) : list string :=
  match loops with
  | [] => []
  | _ =>
      let targets := set_of_list targetNodeIds in
      foldl (fun sources edge =>
        if bool_decide (to edge ∈ targets) && bool_decide (classifyEdge edge loops = exit)
        then set_add sources (from edge) else sources) [] (edges graph)
  end.

(** ** Settlement *)

Inductive Fate := fate_queued | fate_skipped | undecidable | outside.

#[export] Instance Fate_eq_dec : EqDecision Fate.
Proof. solve_decision. Defined.

(** A slot beyond the produced list reads undefined: dead, like null. *)
Definition isLive (source : StepSummary) (edge : GraphEdge) : bool :=
  bool_decide (ss_status source = completed) && slot_filled source (outputIndex edge).

Definition loop_of_member (loops : list WorkflowLoop) (id : string) : option WorkflowLoop :=
  arr_find (fun l => in_loop l id) loops.

Definition isPastLoopEnd (loops : list WorkflowLoop) (candidate : StepKey) (steps : Summaries) : bool :=
  match loop_of_member loops (nodeId candidate) with
  | None => false
  | Some loop =>
      if decide (nodeId candidate = batchNodeId loop) then false
      else match steps !! stepKeyId (mkKey (batchNodeId loop) (iteration candidate)) with
           | None => false
           | Some batchStep => isTerminalStep batchStep
           end
  end.

Definition incoming (graph : WorkflowGraph) (id : string) : list GraphEdge :=
  arr_filter (fun edge => bool_decide (to edge = id)) (edges graph).
Definition outgoing (graph : WorkflowGraph) (id : string) : list GraphEdge :=
  arr_filter (fun edge => bool_decide (from edge = id)) (edges graph).

(** The loop over the candidate's incoming edges, with its two running variables. *)
Fixpoint fate_loop (loops : list WorkflowLoop) (candidate : StepKey) (steps : Summaries)
    (terminalIterations : Terminals) (incomingEdges : list GraphEdge)
    (applicable : nat) (live : bool) : Fate :=
  match incomingEdges with
  | [] => if decide (applicable = 0) then outside else if live then fate_queued else fate_skipped
  | edge :: incomingEdges =>
      match sourceRow edge (classifyEdge edge loops) candidate (terminalIterations !! from edge) with
      | RowNone => fate_loop loops candidate steps terminalIterations incomingEdges applicable live
      | RowPending => undecidable
      | Row key =>
          match steps !! stepKeyId key with
          | None => undecidable
          | Some sourceStep =>
              if isSettledStatus (ss_status sourceStep)
              then fate_loop loops candidate steps terminalIterations incomingEdges
                     (S applicable) (live || isLive sourceStep edge)
              else undecidable
          end
      end
  end.

Definition decideNodeFate (graph : WorkflowGraph) (loops : list WorkflowLoop) (candidate : StepKey)
    (steps : Summaries) (terminalIterations : Terminals) : Fate :=
  if isPastLoopEnd loops candidate steps then outside
  else fate_loop loops candidate steps terminalIterations (incoming graph (nodeId candidate)) 0 false.

(** Which side of its loop a batch step decides. *)
Definition batchStepDecides (edgeClass : EdgeClass) (batchStep : StepSummary) : bool :=
  if isTerminalStep batchStep then bool_decide (edgeClass = exit)
  else negb (bool_decide (edgeClass = exit)).

Record SuccessorDecisions := { toQueue : list StepKey; toSkip : list StepKey }.

(** One iteration of the loop over the settled step's outgoing edges; the state is the
    decisions so far and the set [decided]. *)
Definition decide_edge (graph : WorkflowGraph) (loops : list WorkflowLoop) (settled : StepKey)
    (steps : Summaries) (terminalIterations : Terminals) (batchStep : option StepSummary)
    (acc : SuccessorDecisions * list string) (edge : GraphEdge) : SuccessorDecisions * list string :=
  let '(decisions, decided) := acc in
  let edgeClass := classifyEdge edge loops in
  if match batchStep with Some b => negb (batchStepDecides edgeClass b) | None => false end then acc
  else
    let target := targetKey edge edgeClass settled in
    let targetId := stepKeyId target in
    if bool_decide (is_Some (steps !! targetId)) || bool_decide (targetId ∈ decided) then acc
    else
      let decided := set_add decided targetId in
      match decideNodeFate graph loops target steps terminalIterations with
      | fate_queued => ({| toQueue := toQueue decisions ++ [target]; toSkip := toSkip decisions |}, decided)
      | fate_skipped => ({| toQueue := toQueue decisions; toSkip := toSkip decisions ++ [target] |}, decided)
      | _ => (decisions, decided)
      end.

Definition decideSuccessors (graph : WorkflowGraph) (loops : list WorkflowLoop) (settled : StepKey)
    (steps : Summaries) (terminalIterations : Terminals) : SuccessorDecisions :=
  let batchStep :=
    if arr_some (fun loop => bool_decide (batchNodeId loop = nodeId settled)) loops
    then steps !! stepKeyId settled else None in
  (foldl (decide_edge graph loops settled steps terminalIterations batchStep)
     ({| toQueue := []; toSkip := [] |}, []) (outgoing graph (nodeId settled))).1.

(** [keys.set(stepKeyId(key), key)]. *)
Definition add_key (keys : list (string * StepKey)) (key : StepKey) : list (string * StepKey) :=
  map_set (stepKeyId key) key keys.

(** What one outgoing edge contributes. *)
Definition keys_of_edge (graph : WorkflowGraph) (loops : list WorkflowLoop) (settled : StepKey)
    (terminalIterations : Terminals) (keys : list (string * StepKey)) (edge : GraphEdge)
    : list (string * StepKey) :=
  let target := targetKey edge (classifyEdge edge loops) settled in
  let keys := add_key keys target in
  let keys := foldl (fun keys inEdge =>
    match sourceRow inEdge (classifyEdge inEdge loops) target (terminalIterations !! from inEdge) with
    | Row key => add_key keys key
    | _ => keys
    end) keys (incoming graph (nodeId target)) in
  match loop_of_member loops (nodeId target) with
  | Some loop => add_key keys (mkKey (batchNodeId loop) (iteration target))
  | None => keys
  end.

Definition decisionKeys (graph : WorkflowGraph) (loops : list WorkflowLoop) (settled : StepKey)
    (terminalIterations : Terminals) : list StepKey :=
  (foldl (keys_of_edge graph loops settled terminalIterations) [(stepKeyId settled, settled)]
     (outgoing graph (nodeId settled))).*2.

(** ** Completion *)

(** The loop over the reachable loops: the count and the set [members], or [None] for the
    early [return undefined]. *)
Fixpoint expected_of_loops (loops : list WorkflowLoop) (terminalIterations : Terminals)
    (expected : Z) (members : list string) : option (Z * list string) :=
  match loops with
  | [] => Some (expected, members)
  | loop :: loops =>
      match terminalIterations !! batchNodeId loop with
      | None => None
      | Some terminal =>
          expected_of_loops loops terminalIterations
            (expected + (terminal + 1 + terminal * (Z.of_nat (length (memberIds loop)) - 1)))%Z
            (foldl set_add members (memberIds loop))
      end
  end.

Definition countExpectedSettledSteps (loops : list WorkflowLoop) (reachable : list string)
    (terminalIterations : Terminals) : option Z :=
  '(expected, members) ← expected_of_loops
     (arr_filter (fun l => bool_decide (batchNodeId l ∈ reachable)) loops) terminalIterations 0 [];
  Some (foldl (fun expected nodeId =>
    if decide (nodeId ∈ members) then expected else (expected + 1)%Z) expected reachable).

(** ** Iteration mapping: the two directions agree *)

(** Which source rows an edge of a class has at all. *)
Definition admissible (edgeClass : EdgeClass) (source : StepKey) (terminalIteration : option Z) : Prop :=
  match edgeClass with
  | entry => iteration source = 0%Z
  | exit => terminalIteration = Some (iteration source)
  | _ => True
  end.

Lemma sourceRow_iff (edge : GraphEdge) (edgeClass : EdgeClass) (source target : StepKey) (t : option Z) :
  (0 <= iteration source)%Z -> (0 <= iteration target)%Z -> nodeId target = to edge ->
  sourceRow edge edgeClass target t = Row source <->
  nodeId source = from edge /\ targetKey edge edgeClass source = target /\ admissible edgeClass source t.
Proof.
  destruct source as [n i], target as [m j]; simpl. intros Hi Hj ->.
  destruct edgeClass; simpl; repeat case_decide; simpl; try (destruct t; simpl);
    (split; [intros ?; simplify_eq; split_and!; try done; f_equal; lia
            |intros (-> & ? & ?); simplify_eq; try done; try (do 2 f_equal; lia); try lia]).
Qed.

(** ** Fates depend on settled rows only *)

Definition settled_rows (steps : Summaries) : Summaries :=
  filter (fun p => isSettledStatus (ss_status p.2) = true) steps.

Lemma settled_rows_lookup (steps : Summaries) (k : string) :
  settled_rows steps !! k =
    match steps !! k with
    | Some s => if isSettledStatus (ss_status s) then Some s else None
    | None => None
    end.
Proof.
  unfold settled_rows. rewrite map_lookup_filter.
  destruct (steps !! k) as [s|]; simpl; [|done].
  destruct (isSettledStatus (ss_status s)) eqn:Hs; case_guard; simpl in *; congruence.
Qed.

Lemma isTerminalStep_settled (s : StepSummary) :
  isTerminalStep s = true -> isSettledStatus (ss_status s) = true.
Proof. unfold isTerminalStep, endsLoop. by intros [? _]%andb_true_iff. Qed.

Lemma isPastLoopEnd_settled (loops : list WorkflowLoop) (c : StepKey) (steps : Summaries) :
  isPastLoopEnd loops c (settled_rows steps) = isPastLoopEnd loops c steps.
Proof.
  unfold isPastLoopEnd. repeat case_match; try done;
    match goal with H : settled_rows _ !! _ = _ |- _ => rewrite settled_rows_lookup in H end;
    repeat case_match; simplify_eq; try done.
  match goal with |- _ = isTerminalStep ?s => destruct (isTerminalStep s) eqn:Ht; [|done] end.
  apply isTerminalStep_settled in Ht. congruence.
Qed.

Lemma fate_loop_settled (loops : list WorkflowLoop) (c : StepKey) (steps : Summaries) (T : Terminals)
    (es : list GraphEdge) (n : nat) (live : bool) :
  fate_loop loops c (settled_rows steps) T es n live = fate_loop loops c steps T es n live.
Proof.
  revert n live. induction es as [|e es IH]; intros n live; simpl; [done|].
  destruct (sourceRow _ _ _ _) as [k| |]; [|apply IH|done].
  rewrite settled_rows_lookup. destruct (steps !! stepKeyId k) as [s|]; [|done].
  destruct (isSettledStatus (ss_status s)) eqn:Hs; [|done]. rewrite Hs. apply IH.
Qed.

Lemma decideNodeFate_settled (graph : WorkflowGraph) (loops : list WorkflowLoop) (c : StepKey)
    (steps : Summaries) (T : Terminals) :
  decideNodeFate graph loops c (settled_rows steps) T = decideNodeFate graph loops c steps T.
Proof. unfold decideNodeFate. by rewrite isPastLoopEnd_settled, fate_loop_settled. Qed.

(** ** Fates are final *)

(** [later]: rows only appear, and a settled row does not change. *)
Definition later (s1 s2 : Summaries) : Prop :=
  forall k r, s1 !! k = Some r -> isSettledStatus (ss_status r) = true -> s2 !! k = Some r.

Definition terminals_later (t1 t2 : Terminals) : Prop := t1 ⊆ t2.

Definition decided_fate (f : Fate) : Prop := f = fate_queued \/ f = fate_skipped.

Lemma fate_loop_later loops c s1 s2 T1 T2 es n live :
  later s1 s2 -> T1 ⊆ T2 ->
  fate_loop loops c s1 T1 es n live <> undecidable ->
  fate_loop loops c s2 T2 es n live = fate_loop loops c s1 T1 es n live.
Proof.
  intros Hs HT. revert n live. induction es as [|e es IH]; intros n live; simpl; [done|].
  assert (HR : sourceRow e (classifyEdge e loops) c (T1 !! from e) <> RowPending ->
    sourceRow e (classifyEdge e loops) c (T2 !! from e) =
    sourceRow e (classifyEdge e loops) c (T1 !! from e)).
  { destruct (T1 !! from e) as [t|] eqn:Ht.
    - by rewrite (lookup_weaken _ _ _ _ Ht HT).
    - destruct (classifyEdge e loops); simpl; try done. by case_decide. }
  destruct (sourceRow e _ c (T1 !! from e)) as [k| |] eqn:Hr.
  - rewrite HR by done. destruct (s1 !! stepKeyId k) as [r|] eqn:Hk; [|done].
    destruct (isSettledStatus (ss_status r)) eqn:Hst; [|done].
    rewrite (Hs _ _ Hk Hst), Hst. apply IH.
  - rewrite HR by done. apply IH.
  - done.
Qed.

(** The batch row that says whether the candidate's loop has ended is settled, or the
    candidate is not in a loop's body: what every planner of a body step has. *)
Definition end_known (loops : list WorkflowLoop) (c : StepKey) (steps : Summaries) : Prop :=
  forall loop, loop_of_member loops (nodeId c) = Some loop -> nodeId c <> batchNodeId loop ->
  exists r, steps !! stepKeyId (mkKey (batchNodeId loop) (iteration c)) = Some r /\
    isSettledStatus (ss_status r) = true.

Lemma isPastLoopEnd_later loops c s1 s2 :
  later s1 s2 -> end_known loops c s1 -> isPastLoopEnd loops c s2 = isPastLoopEnd loops c s1.
Proof.
  intros Hs Hk. unfold isPastLoopEnd.
  destruct (loop_of_member loops (nodeId c)) as [loop|] eqn:Hl; [|done].
  case_decide as Hne; [done|].
  destruct (Hk loop Hl Hne) as (r & Hr & Hst). by rewrite Hr, (Hs _ _ Hr Hst).
Qed.

Lemma decideNodeFate_final graph loops c s1 s2 T1 T2 :
  later s1 s2 -> T1 ⊆ T2 -> end_known loops c s1 ->
  decideNodeFate graph loops c s1 T1 <> undecidable ->
  decideNodeFate graph loops c s2 T2 = decideNodeFate graph loops c s1 T1.
Proof.
  intros Hs HT Hk. unfold decideNodeFate. rewrite (isPastLoopEnd_later _ _ _ _ Hs Hk).
  destruct (isPastLoopEnd loops c s1); [done|]. by apply fate_loop_later.
Qed.

(** ** [decisionKeys] names every row the decision reads *)

Definition restrict_to (keys : list StepKey) (steps : Summaries) : Summaries :=
  filter (fun p => p.1 ∈ map stepKeyId keys) steps.

Lemma restrict_to_lookup keys steps k :
  k ∈ map stepKeyId keys -> restrict_to keys steps !! k = steps !! k.
Proof.
  intros Hk. unfold restrict_to. rewrite map_lookup_filter.
  destruct (steps !! k) as [s|]; simpl; [|done]. by case_guard.
Qed.

(** A key map in which every key is the string form of its value. *)
Definition keyed (m : list (string * StepKey)) : Prop := forall p, p ∈ m -> p.1 = stepKeyId p.2.

Lemma add_key_spec (m : list (string * StepKey)) (k : StepKey) :
  NoDup m.*1 -> keyed m -> NoDup (add_key m k).*1 /\ keyed (add_key m k) /\
  forall x, x ∈ (add_key m k).*2 <-> x = k \/ x ∈ m.*2.
Proof.
  intros Hnd Hk. unfold add_key. split_and!.
  - by apply map_set_NoDup.
  - intros p Hp. apply elem_of_map_set in Hp as [->|[_ Hp]]; [done|by apply Hk|done].
  - intros x. rewrite !list_elem_of_fmap. setoid_rewrite (elem_of_map_set _ _ _ _ Hnd). split.
    + intros (p & -> & [->|[_ Hp]]); [by left|right; eauto].
    + intros [->|(p & -> & Hp)]; [exists (stepKeyId k, k); auto|].
      destruct (decide (p.1 = stepKeyId k)) as [He|He]; [|eauto].
      exists (stepKeyId k, k). split; [|auto]. simpl. rewrite (Hk p Hp) in He.
      by apply (inj stepKeyId).
Qed.

Definition source_keys loops target (T : Terminals) (es : list GraphEdge) : list StepKey :=
  omap (fun e => match sourceRow e (classifyEdge e loops) target (T !! from e) with
                 | Row key => Some key | _ => None end) es.

Lemma add_sources_spec loops target (T : Terminals) (es : list GraphEdge) (m : list (string * StepKey)) :
  NoDup m.*1 -> keyed m ->
  let m' := foldl (fun keys e =>
    match sourceRow e (classifyEdge e loops) target (T !! from e) with
    | Row key => add_key keys key | _ => keys end) m es in
  NoDup m'.*1 /\ keyed m' /\
  forall x, x ∈ m'.*2 <-> x ∈ m.*2 \/ x ∈ source_keys loops target T es.
Proof.
  revert m. induction es as [|e es IH]; intros m Hnd Hk; simpl.
  { split_and!; [done|done|]. set_solver. }
  destruct (sourceRow e _ target _) as [k| |].
  - destruct (add_key_spec m k Hnd Hk) as (Hnd' & Hk' & Hx).
    destruct (IH _ Hnd' Hk') as (? & ? & Hy). split_and!; [done|done|].
    intros x. rewrite Hy, Hx, elem_of_cons. tauto.
  - by apply IH.
  - by apply IH.
Qed.

(** The keys one outgoing edge of the settled step contributes. *)
Definition edge_keys graph loops settled (T : Terminals) (e : GraphEdge) : list StepKey :=
  let target := targetKey e (classifyEdge e loops) settled in
  target :: source_keys loops target T (incoming graph (nodeId target)) ++
  match loop_of_member loops (nodeId target) with
  | Some loop => [mkKey (batchNodeId loop) (iteration target)]
  | None => []
  end.

Lemma keys_of_edge_spec graph loops settled (T : Terminals) (e : GraphEdge) m :
  NoDup m.*1 -> keyed m ->
  let m' := keys_of_edge graph loops settled T m e in
  NoDup m'.*1 /\ keyed m' /\ forall x, x ∈ m'.*2 <-> x ∈ m.*2 \/ x ∈ edge_keys graph loops settled T e.
Proof.
  intros Hnd Hk. unfold keys_of_edge, edge_keys.
  set (target := targetKey e (classifyEdge e loops) settled).
  destruct (add_key_spec m target Hnd Hk) as (Hnd1 & Hk1 & Hx1).
  destruct (add_sources_spec loops target T (incoming graph (nodeId target)) _ Hnd1 Hk1)
    as (Hnd2 & Hk2 & Hx2).
  destruct (loop_of_member loops (nodeId target)) as [loop|].
  - destruct (add_key_spec _ (mkKey (batchNodeId loop) (iteration target)) Hnd2 Hk2) as (? & ? & Hx3).
    split_and!; [done|done|]. intros x.
    rewrite Hx3, Hx2, Hx1, elem_of_cons, elem_of_app, list_elem_of_singleton. tauto.
  - split_and!; [done|done|]. intros x.
    rewrite Hx2, Hx1, app_nil_r, elem_of_cons. tauto.
Qed.

Lemma elem_of_decisionKeys graph loops settled (T : Terminals) (x : StepKey) :
  x ∈ decisionKeys graph loops settled T <->
  x = settled \/ exists e, e ∈ outgoing graph (nodeId settled) /\ x ∈ edge_keys graph loops settled T e.
Proof.
  unfold decisionKeys.
  assert (Hgen : forall es m, NoDup m.*1 -> keyed m ->
    x ∈ (foldl (keys_of_edge graph loops settled T) m es).*2 <->
    x ∈ m.*2 \/ exists e, e ∈ es /\ x ∈ edge_keys graph loops settled T e).
  { induction es as [|e es IH]; intros m Hnd Hk; simpl; [set_solver|].
    destruct (keys_of_edge_spec graph loops settled T e m Hnd Hk) as (Hnd' & Hk' & Hx).
    rewrite (IH _ Hnd' Hk'), Hx. setoid_rewrite elem_of_cons. naive_solver. }
  rewrite Hgen; simpl.
  - rewrite list_elem_of_singleton. done.
  - apply NoDup_singleton.
  - intros p ->%list_elem_of_singleton. done.
Qed.

Lemma fate_loop_ext loops c s1 s2 (T : Terminals) es n live :
  (forall k, k ∈ source_keys loops c T es -> s1 !! stepKeyId k = s2 !! stepKeyId k) ->
  fate_loop loops c s1 T es n live = fate_loop loops c s2 T es n live.
Proof.
  unfold source_keys. revert n live. induction es as [|e es IH]; intros n live Hs; simpl in *; [done|].
  destruct (sourceRow e _ c _) as [k| |]; [|by apply IH|done].
  rewrite Hs by set_solver. repeat case_match; try done. apply IH. set_solver.
Qed.

Lemma decideNodeFate_ext graph loops c s1 s2 (T : Terminals) :
  (forall k, k ∈ source_keys loops c T (incoming graph (nodeId c)) -> s1 !! stepKeyId k = s2 !! stepKeyId k) ->
  (forall loop, loop_of_member loops (nodeId c) = Some loop ->
    s1 !! stepKeyId (mkKey (batchNodeId loop) (iteration c)) =
    s2 !! stepKeyId (mkKey (batchNodeId loop) (iteration c))) ->
  decideNodeFate graph loops c s1 T = decideNodeFate graph loops c s2 T.
Proof.
  intros Hs Hl. unfold decideNodeFate, isPastLoopEnd.
  rewrite (fate_loop_ext loops c s1 s2) by done.
  destruct (loop_of_member loops (nodeId c)) as [loop|] eqn:Hm; [|done].
  by rewrite (Hl loop).
Qed.

Lemma decideSuccessors_restrict graph loops settled steps (T : Terminals) :
  decideSuccessors graph loops settled (restrict_to (decisionKeys graph loops settled T) steps) T =
  decideSuccessors graph loops settled steps T.
Proof.
  set (R := restrict_to _ steps).
  assert (HR : forall k, k ∈ decisionKeys graph loops settled T -> R !! stepKeyId k = steps !! stepKeyId k).
  { intros k Hk. apply restrict_to_lookup, list_elem_of_fmap. eauto. }
  unfold decideSuccessors. f_equal.
  rewrite (HR settled) by (apply elem_of_decisionKeys; auto).
  set (bs := if arr_some _ loops then _ else _). clearbody bs.
  assert (Hgen : forall es acc, (forall e, e ∈ es -> e ∈ outgoing graph (nodeId settled)) ->
    foldl (decide_edge graph loops settled R T bs) acc es =
    foldl (decide_edge graph loops settled steps T bs) acc es).
  { induction es as [|e es IH]; intros acc Hes; simpl; [done|].
    assert (He : forall k, k ∈ edge_keys graph loops settled T e -> R !! stepKeyId k = steps !! stepKeyId k).
    { intros k Hk. apply HR, elem_of_decisionKeys. right. exists e. split; [apply Hes|done]. set_solver. }
    assert (decide_edge graph loops settled R T bs acc e =
            decide_edge graph loops settled steps T bs acc e) as ->; [|apply IH; set_solver].
    destruct acc as [d dd]. unfold decide_edge.
    rewrite (He (targetKey e (classifyEdge e loops) settled)) by (unfold edge_keys; set_solver).
    rewrite (decideNodeFate_ext graph loops _ R steps); [done| |].
    - intros k Hk. apply He. unfold edge_keys. set_solver.
    - intros loop Hl. apply He. unfold edge_keys. rewrite Hl. set_solver. }
  apply Hgen. done.
Qed.

(** ** What [decideSuccessors] returns *)

Section decide_spec.
Context (graph : WorkflowGraph) (loops : list WorkflowLoop) (settled : StepKey).
Context (steps : Summaries) (T : Terminals).

Definition batch_row : option StepSummary :=
  if arr_some (fun loop => bool_decide (batchNodeId loop = nodeId settled)) loops
  then steps !! stepKeyId settled else None.

(** The edge is on the side of the loop the settled step decides. *)
Definition on_side (e : GraphEdge) : Prop :=
  forall b, batch_row = Some b -> batchStepDecides (classifyEdge e loops) b = true.

Definition target_of (e : GraphEdge) : StepKey := targetKey e (classifyEdge e loops) settled.

(** [k] is a successor step to decide now: an edge on that side leads to it and it has
    no row yet. *)
Definition candidate (es : list GraphEdge) (k : StepKey) : Prop :=
  exists e, e ∈ es /\ on_side e /\ target_of e = k /\ steps !! stepKeyId k = None.

Local Notation fate k := (decideNodeFate graph loops k steps T).
Local Notation step := (decide_edge graph loops settled steps T batch_row).

Record DecideInv (es : list GraphEdge) (acc : SuccessorDecisions * list string) : Prop := {
  dv_decided : forall s, s ∈ acc.2 <-> exists k, candidate es k /\ s = stepKeyId k;
  dv_queue : forall k, k ∈ toQueue acc.1 <-> candidate es k /\ fate k = fate_queued;
  dv_skip : forall k, k ∈ toSkip acc.1 <-> candidate es k /\ fate k = fate_skipped;
  dv_queue_nodup : NoDup (toQueue acc.1);
  dv_skip_nodup : NoDup (toSkip acc.1);
}.

Lemma candidate_snoc es e k :
  candidate (es ++ [e]) k <->
  candidate es k \/ on_side e /\ target_of e = k /\ steps !! stepKeyId k = None.
Proof.
  unfold candidate. split.
  - intros (e' & [He|He]%elem_of_app & Hon & Ht & Hn).
    + left. by exists e'.
    + apply list_elem_of_singleton in He as ->. by right.
  - intros [(e' & He & H)|H]; [exists e'|exists e]; (split; [set_solver|done]).
Qed.

Lemma candidate_weaken es e k : candidate es k -> candidate (es ++ [e]) k.
Proof. rewrite candidate_snoc. auto. Qed.

(** An edge that adds no candidate changes nothing. *)
Lemma DecideInv_same es e acc :
  DecideInv es acc -> (forall k, candidate (es ++ [e]) k -> candidate es k) ->
  DecideInv (es ++ [e]) acc.
Proof.
  intros [H1 H2 H3 H4 H5] Hn.
  assert (Hc : forall k, candidate (es ++ [e]) k <-> candidate es k)
    by (split; [apply Hn|apply candidate_weaken]).
  split; try done; intros; setoid_rewrite Hc; auto.
Qed.

Lemma DecideInv_step es e acc : DecideInv es acc -> DecideInv (es ++ [e]) (step acc e).
Proof.
  intros HI. destruct acc as [d dd]. unfold decide_edge. fold (target_of e).
  destruct (match batch_row with Some b => negb _ | None => false end) eqn:Hside.
  { apply DecideInv_same; [done|]. intros k [?|(Hs & _)]%candidate_snoc; [done|]. exfalso.
    destruct batch_row as [b|] eqn:Hb; [|done].
    apply negb_true_iff in Hside. specialize (Hs b Hb). congruence. }
  assert (Hon : on_side e).
  { intros b Hb. rewrite Hb in Hside. by apply negb_false_iff in Hside. }
  destruct (bool_decide (is_Some _)) eqn:Hex; simpl.
  { apply DecideInv_same; [done|]. apply bool_decide_eq_true in Hex as [r Hr].
    intros k [?|(_ & <- & Hn)]%candidate_snoc; [done|]. congruence. }
  apply bool_decide_eq_false, eq_None_not_Some in Hex.
  case_bool_decide as Hdd.
  { apply DecideInv_same; [done|]. intros k [?|(_ & <- & _)]%candidate_snoc; [done|].
    apply (dv_decided _ _ HI) in Hdd as (k & Hk & Heq). apply (inj stepKeyId) in Heq as ->. done. }
  assert (Hnew : ~ candidate es (target_of e)).
  { intros Hc. apply Hdd, (dv_decided _ _ HI). eauto. }
  assert (Hc : forall k, candidate (es ++ [e]) k <-> candidate es k \/ k = target_of e).
  { intros k. rewrite candidate_snoc. naive_solver. }
  destruct HI as [H1 H2 H3 H4 H5]. simpl in *.
  assert (H1' : forall s, s ∈ set_add dd (stepKeyId (target_of e)) <->
    exists k, candidate (es ++ [e]) k /\ s = stepKeyId k).
  { intros s. rewrite elem_of_set_add, H1. setoid_rewrite Hc. naive_solver. }
  destruct (decideNodeFate graph loops (target_of e) steps T) eqn:Hf.
  all: split; simpl; try done.
  all: try (intros k; rewrite ?elem_of_app, ?list_elem_of_singleton, ?H2, ?H3, Hc;
            split; [naive_solver|intros [[?| ->] ?]; (congruence || naive_solver)]).
  all: apply NoDup_app; split_and!; [done| |apply NoDup_singleton].
  all: intros k [Hk _]%H2 || intros k [Hk _]%H3.
  all: intros ->%list_elem_of_singleton; done.
Qed.

Lemma decideSuccessors_inv :
  exists dd, DecideInv (outgoing graph (nodeId settled)) (decideSuccessors graph loops settled steps T, dd).
Proof.
  unfold decideSuccessors. fold batch_row.
  assert (Hgen : forall es pre acc, DecideInv pre acc -> DecideInv (pre ++ es) (foldl step acc es)).
  { induction es as [|e es IH]; intros pre acc HI; simpl; [by rewrite app_nil_r|].
    specialize (IH (pre ++ [e]) (step acc e) (DecideInv_step _ _ _ HI)).
    by rewrite <-app_assoc in IH. }
  assert (H0 : DecideInv [] ({| toQueue := []; toSkip := [] |}, [])).
  { split; simpl; unfold candidate; try (apply NoDup_nil_2); intros; set_solver. }
  specialize (Hgen (outgoing graph (nodeId settled)) [] _ H0). simpl in Hgen.
  destruct (foldl _ _ _) as [d dd]. by exists dd.
Qed.
End decide_spec.

(** ** Completion: the count is the number of steps owed *)

(** Loops as a valid graph has them: each is a set of members with its batch node, and no
    two share a member. *)
Record LoopsOk (loops : list WorkflowLoop) : Prop := {
  lo_heads : NoDup (map batchNodeId loops);
  lo_members : forall l, l ∈ loops -> NoDup (memberIds l) /\ batchNodeId l ∈ memberIds l;
  lo_disjoint : forall l1 l2 x, l1 ∈ loops -> l2 ∈ loops -> x ∈ memberIds l1 -> x ∈ memberIds l2 -> l1 = l2;
}.

Lemma ValidLoops_LoopsOk (graph : WorkflowGraph) : ValidLoops graph -> LoopsOk (deriveLoops graph).
Proof.
  intros HV.
  assert (Hb : forall l, l ∈ deriveLoops graph -> l = loop_of graph (batchNodeId l) /\
    heads_loop graph (batchNodeId l) /\ batchNodeId l ∈ node_ids graph).
  { intros l [Hh Heq]%elem_of_deriveLoops. split_and!; [done|done|].
    destruct Hh as (e & [He _] & <-). by apply (vg_endpoints _ HV). }
  split.
  - apply deriveLoops_heads_NoDup.
  - intros l Hl. destruct (Hb l Hl) as (Heq & _ & Hn). rewrite Heq.
    destruct (loop_of_members graph _ Hn) as [Hnd Hm]. split; [done|]. apply Hm, mutual_refl.
  - intros l1 l2 x Hl1 Hl2 Hx1 Hx2.
    destruct (Hb l1 Hl1) as (Heq1 & Hh1 & Hn1), (Hb l2 Hl2) as (Heq2 & Hh2 & Hn2).
    rewrite Heq1 in Hx1. rewrite Heq2 in Hx2.
    apply (loop_of_members graph _ Hn1) in Hx1. apply (loop_of_members graph _ Hn2) in Hx2.
    assert (batchNodeId l1 = batchNodeId l2) as He; [|congruence].
    destruct (decide (batchNodeId l2 = batchNodeId l1)) as [|Hne]; [done|]. exfalso.
    apply (vl_no_nesting _ _ (vg_loop _ HV _ Hh1) (batchNodeId l2)); [|done|].
    + eapply mutual_trans; [exact Hx1|by apply mutual_sym].
    + apply (vl_head _ _ (vg_loop _ HV _ Hh2)).
Qed.

(** The steps a finished execution owes: one per reachable node outside the reachable
    loops; in a loop that ended at iteration [t], the batch node's steps [0..t] and each
    other member's steps [0..t-1]. *)
Definition owes (loops : list WorkflowLoop) (reachable : list string) (T : Terminals) (k : StepKey) : Prop :=
  (iteration k = 0%Z /\ nodeId k ∈ reachable /\
     forall l, l ∈ loops -> batchNodeId l ∈ reachable -> nodeId k ∉ memberIds l) \/
  exists l t, l ∈ loops /\ batchNodeId l ∈ reachable /\ T !! batchNodeId l = Some t /\
    nodeId k ∈ memberIds l /\ (0 <= iteration k)%Z /\
    (if decide (nodeId k = batchNodeId l) then iteration k <= t else iteration k < t)%Z.

Definition loop_keys (T : Terminals) (l : WorkflowLoop) : list StepKey :=
  let t := default 0%Z (T !! batchNodeId l) in
  map (mkKey (batchNodeId l)) (seqZ 0 (t + 1)) ++
  concat (map (fun m => map (mkKey m) (seqZ 0 t))
    (filter (fun m => m <> batchNodeId l) (memberIds l))).

Lemma length_concat_const {A B} (f : A -> list B) (n : nat) (l : list A) :
  (forall x, x ∈ l -> length (f x) = n) -> length (concat (map f l)) = length l * n.
Proof.
  induction l as [|x l IH]; simpl; [done|]. intros H.
  rewrite length_app, H, IH by set_solver. lia.
Qed.

Lemma length_filter_ne (x : string) (l : list string) :
  NoDup l -> x ∈ l -> length (filter (fun y => y <> x) l) = length l - 1.
Proof.
  intros Hnd Hx. apply list_elem_of_split in Hx as (l1 & l2 & ->).
  apply NoDup_app in Hnd as (_ & Hd & [Hx2 _]%NoDup_cons).
  assert (Hid : forall l : list string, x ∉ l -> filter (fun y => y <> x) l = l).
  { intros l. induction l as [|y l IH]; [done|]. intros Hy. rewrite filter_cons.
    rewrite decide_True by set_solver. f_equal. apply IH. set_solver. }
  rewrite filter_app, filter_cons, decide_False by (intros H; by apply H).
  rewrite (Hid l1), (Hid l2) by first [done|intros H; apply (Hd x); [done|set_solver]].
  rewrite !length_app. simpl. lia.
Qed.

Lemma loop_keys_length (T : Terminals) (l : WorkflowLoop) (t : Z) :
  NoDup (memberIds l) -> batchNodeId l ∈ memberIds l -> T !! batchNodeId l = Some t -> (0 <= t)%Z ->
  Z.of_nat (length (loop_keys T l)) = (t + 1 + t * (Z.of_nat (length (memberIds l)) - 1))%Z.
Proof.
  intros Hnd Hin HT Ht. unfold loop_keys. rewrite HT. simpl.
  rewrite length_app, length_map, length_seqZ.
  rewrite (length_concat_const _ (Z.to_nat t)).
  2:{ intros x _. by rewrite length_map, length_seqZ. }
  rewrite length_filter_ne by done.
  assert (length (memberIds l) <> 0) by (destruct (memberIds l); [set_solver|done]). nia.
Qed.

Lemma elem_of_loop_keys (T : Terminals) (l : WorkflowLoop) (t : Z) (k : StepKey) :
  batchNodeId l ∈ memberIds l -> T !! batchNodeId l = Some t -> (0 <= t)%Z ->
  k ∈ loop_keys T l <-> nodeId k ∈ memberIds l /\ (0 <= iteration k)%Z /\
    (if decide (nodeId k = batchNodeId l) then iteration k <= t else iteration k < t)%Z.
Proof.
  intros Hin HT Ht. unfold loop_keys. rewrite HT. simpl.
  rewrite elem_of_app, list_elem_of_fmap, list_elem_of_In, in_concat.
  setoid_rewrite in_map_iff. setoid_rewrite <-list_elem_of_In.
  setoid_rewrite list_elem_of_filter. setoid_rewrite elem_of_seqZ.
  destruct k as [n i]; simpl. split.
  - intros [(i' & [= -> ->] & ?)|(ks & (m & <- & [Hm ?]) & (i' & [= -> ->] & Hi)%list_elem_of_fmap)].
    + rewrite decide_True by done. split_and!; [done|lia|lia].
    + apply elem_of_seqZ in Hi. rewrite decide_False by done. split_and!; [done|lia|lia].
  - intros (Hn & Hi & Hlt). case_decide as Heq.
    + left. exists i. subst. split; [done|lia].
    + right. exists (map (mkKey n) (seqZ 0 t)). split; [eauto|].
      apply list_elem_of_fmap. exists i. split; [done|]. apply elem_of_seqZ. lia.
Qed.

#[export] Instance mkKey_inj_r (n : string) : Inj (=) (=) (mkKey n).
Proof. by intros ?? [=]. Qed.

#[export] Instance mkKey_inj_l (i : Z) : Inj (=) (=) (fun n => mkKey n i).
Proof. by intros ?? [=]. Qed.

Lemma mkKey_map_NoDup (n : string) (l : list Z) : NoDup l -> NoDup (map (mkKey n) l).
Proof. apply (NoDup_fmap_2 (mkKey n)). Qed.

Lemma loop_keys_NoDup (T : Terminals) (l : WorkflowLoop) :
  NoDup (memberIds l) -> NoDup (loop_keys T l).
Proof.
  intros Hnd. unfold loop_keys. apply NoDup_app. split_and!.
  - apply mkKey_map_NoDup, NoDup_seqZ.
  - intros k (i & -> & _)%list_elem_of_fmap Hk.
    apply list_elem_of_In, in_concat in Hk as (ks & (m & <- & Hm)%in_map_iff & Hk).
    apply list_elem_of_In, list_elem_of_filter in Hm as [Hm _].
    apply in_map_iff in Hk as (? & [= Heq _] & _). congruence.
  - assert (Hnd' : NoDup (filter (fun m => m <> batchNodeId l) (memberIds l))) by by apply NoDup_filter.
    induction Hnd' as [|m ms Hm Hms IH]; simpl; [apply NoDup_nil_2|].
    apply NoDup_app. split_and!; [apply mkKey_map_NoDup, NoDup_seqZ| |done].
    intros k (i & -> & _)%list_elem_of_fmap Hk.
    apply list_elem_of_In, in_concat in Hk as (ks & (m' & <- & Hm')%in_map_iff & Hk).
    apply in_map_iff in Hk as (? & [= Heq _] & _). subst. by apply Hm, list_elem_of_In.
Qed.

Lemma expected_of_loops_spec (T : Terminals) (loops : list WorkflowLoop) (e0 : Z) (m0 : list string) :
  (forall l, l ∈ loops -> NoDup (memberIds l) /\ batchNodeId l ∈ memberIds l) ->
  (forall n t, T !! n = Some t -> (0 <= t)%Z) ->
  match expected_of_loops loops T e0 m0 with
  | Some (e, m) =>
      (forall l, l ∈ loops -> is_Some (T !! batchNodeId l)) /\
      e = (e0 + Z.of_nat (length (concat (map (loop_keys T) loops))))%Z /\
      forall x, x ∈ m <-> x ∈ m0 \/ exists l, l ∈ loops /\ x ∈ memberIds l
  | None => exists l, l ∈ loops /\ T !! batchNodeId l = None
  end.
Proof.
  intros Hok HT. revert e0 m0. induction loops as [|l loops IH]; intros e0 m0; simpl.
  { split_and!; [set_solver|lia|set_solver]. }
  destruct (T !! batchNodeId l) as [t|] eqn:Ht; [|exists l; set_solver].
  destruct (Hok l ltac:(set_solver)) as [Hnd Hin].
  specialize (IH ltac:(set_solver)
    (e0 + (t + 1 + t * (Z.of_nat (length (memberIds l)) - 1)))%Z (foldl set_add m0 (memberIds l))).
  destruct (expected_of_loops _ _ _ _) as [[e m]|].
  - destruct IH as (H1 & -> & H3). split_and!.
    + intros l' [->|Hl']%elem_of_cons; [by eexists|by apply H1].
    + rewrite length_app, Nat2Z.inj_add, (loop_keys_length _ _ t) by eauto. lia.
    + intros x. rewrite H3, elem_of_foldl_set_add. setoid_rewrite elem_of_cons. split.
      * intros [[?|?]|(l' & ? & ?)]; eauto.
      * intros [?|(l' & [->|?] & ?)]; eauto.
  - destruct IH as (l' & ? & ?). exists l'. set_solver.
Qed.

Lemma foldl_count_outside (ms reachable : list string) (e : Z) :
  foldl (fun expected n => if decide (n ∈ ms) then expected else (expected + 1)%Z) e reachable =
  (e + Z.of_nat (length (filter (fun n => n ∉ ms) reachable)))%Z.
Proof.
  revert e. induction reachable as [|n ns IH]; intros e; simpl; [lia|].
  rewrite IH, filter_cons. repeat case_decide; simpl; try done; lia.
Qed.

(** The keys owed, listed. *)
Definition owed_keys (loops : list WorkflowLoop) (reachable : list string) (T : Terminals) : list StepKey :=
  let ended := arr_filter (fun l => bool_decide (batchNodeId l ∈ reachable)) loops in
  concat (map (loop_keys T) ended) ++
  map (fun n => mkKey n 0) (filter (fun n => n ∉ concat (map memberIds ended)) reachable).

Lemma elem_of_concat_map {A B} (f : A -> list B) (l : list A) (y : B) :
  y ∈ concat (map f l) <-> exists x, x ∈ l /\ y ∈ f x.
Proof.
  rewrite list_elem_of_In, in_concat. setoid_rewrite in_map_iff. setoid_rewrite <-list_elem_of_In.
  split; [intros (ks & (x & <- & ?) & ?)|intros (x & ? & ?)]; eauto.
Qed.

Section completion.
Context (loops : list WorkflowLoop) (reachable : list string) (T : Terminals).
Context (Hok : LoopsOk loops) (HT : forall n t, T !! n = Some t -> (0 <= t)%Z).

Lemma loop_keys_concat_NoDup (ls : list WorkflowLoop) :
  (forall l, l ∈ ls -> l ∈ loops /\ is_Some (T !! batchNodeId l)) -> NoDup (map batchNodeId ls) ->
  NoDup (concat (map (loop_keys T) ls)).
Proof.
  induction ls as [|l ls IH]; simpl; intros Hls Hnd; [apply NoDup_nil_2|].
  apply NoDup_cons in Hnd as [Hl Hnd].
  destruct (Hls l ltac:(set_solver)) as [Hin [t Ht]].
  apply NoDup_app. split_and!.
  - apply loop_keys_NoDup, (lo_members _ Hok l Hin).
  - intros k Hk (l' & Hl' & Hk')%elem_of_concat_map.
    destruct (Hls l' ltac:(set_solver)) as [Hin' [t' Ht']].
    apply (elem_of_loop_keys T l t) in Hk as [Hm _]; [|apply (lo_members _ Hok l Hin)|done|by eapply HT].
    apply (elem_of_loop_keys T l' t') in Hk' as [Hm' _]; [|apply (lo_members _ Hok l' Hin')|done|by eapply HT].
    pose proof (lo_disjoint _ Hok l l' _ Hin Hin' Hm Hm') as <-. apply Hl, list_elem_of_fmap. eauto.
  - apply IH; [|done]. intros; apply Hls; set_solver.
Qed.

Lemma owed_keys_spec :
  NoDup reachable ->
  (forall l, l ∈ loops -> batchNodeId l ∈ reachable -> is_Some (T !! batchNodeId l)) ->
  NoDup (owed_keys loops reachable T) /\
  forall k, k ∈ owed_keys loops reachable T <-> owes loops reachable T k.
Proof.
  intros Hnd HTs. unfold owed_keys. set (ended := arr_filter _ loops).
  assert (He : forall l, l ∈ ended <-> l ∈ loops /\ batchNodeId l ∈ reachable).
  { intros l. unfold ended. rewrite elem_of_arr_filter, bool_decide_eq_true. tauto. }
  split.
  - apply NoDup_app. split_and!.
    + apply loop_keys_concat_NoDup.
      * intros l [? ?]%He. eauto.
      * apply arr_filter_map_NoDup, (lo_heads _ Hok).
    + intros k (l & [Hl Hr]%He & Hk)%elem_of_concat_map (n & -> & [Hn _]%list_elem_of_filter)%list_elem_of_fmap.
      destruct (HTs l Hl Hr) as [t Ht].
      apply (elem_of_loop_keys T l t) in Hk as [Hm _]; [|apply (lo_members _ Hok l Hl)|done|by eapply HT].
      apply Hn, elem_of_concat_map. exists l. split; [by apply He|done].
    + apply (NoDup_fmap_2 (fun n => mkKey n 0)), NoDup_filter, Hnd.
  - intros k. rewrite elem_of_app, elem_of_concat_map, list_elem_of_fmap. unfold owes. split.
    + intros [(l & [Hl Hr]%He & Hk)|(n & -> & [Hn Hr]%list_elem_of_filter)].
      * right. destruct (HTs l Hl Hr) as [t Ht]. exists l, t.
        apply (elem_of_loop_keys T l t) in Hk; [tauto|apply (lo_members _ Hok l Hl)|done|by eapply HT].
      * left. simpl. split_and!; [done|done|]. intros l Hl Hlr Hm. apply Hn, elem_of_concat_map.
        exists l. split; [by apply He|done].
    + intros [(Hi & Hr & Hm)|(l & t & Hl & Hr & Ht & Hk)].
      * right. exists (nodeId k). split; [destruct k; simpl in *; congruence|].
        apply list_elem_of_filter. split; [|done].
        intros (l & [Hl Hlr]%He & Hml)%elem_of_concat_map. by eapply Hm.
      * left. exists l. split; [by apply He|].
        apply (elem_of_loop_keys T l t); [apply (lo_members _ Hok l Hl)|done|by eapply HT|done].
Qed.

Lemma countExpectedSettledSteps_spec :
  NoDup reachable ->
  match countExpectedSettledSteps loops reachable T with
  | Some n => NoDup (owed_keys loops reachable T) /\
      (forall k, k ∈ owed_keys loops reachable T <-> owes loops reachable T k) /\
      n = Z.of_nat (length (owed_keys loops reachable T))
  | None => exists l, l ∈ loops /\ batchNodeId l ∈ reachable /\ T !! batchNodeId l = None
  end.
Proof.
  intros Hnd. unfold countExpectedSettledSteps.
  set (ended := arr_filter _ loops).
  assert (He : forall l, l ∈ ended <-> l ∈ loops /\ batchNodeId l ∈ reachable).
  { intros l. unfold ended. rewrite elem_of_arr_filter, bool_decide_eq_true. tauto. }
  pose proof (expected_of_loops_spec T ended 0 []) as Hexp.
  destruct (expected_of_loops ended T 0 []) as [[e m]|]; simpl.
  - destruct Hexp as (H1 & -> & H3); [intros l [Hl _]%He; by apply (lo_members _ Hok)|done|].
    destruct owed_keys_spec as [Hn Hk]; [done| |].
    { intros l Hl Hr. apply H1. by apply He. }
    split_and!; [done|done|]. rewrite foldl_count_outside.
    unfold owed_keys. fold ended. rewrite length_app, length_map, Nat2Z.inj_add. f_equal. f_equal.
    clear - H3. f_equal. apply list_filter_iff. intros n. rewrite H3, elem_of_concat_map. set_solver.
  - destruct Hexp as (l & [Hl Hr]%He & Hn); [intros l [Hl _]%He; by apply (lo_members _ Hok)|done|].
    eauto.
Qed.
End completion.

(** A count is given only once every reachable loop has a terminal pass. *)
Lemma countExpectedSettledSteps_ended (loops : list WorkflowLoop) (reachable : list string) (T : Terminals) (n : Z) :
  countExpectedSettledSteps loops reachable T = Some n ->
  forall l, l ∈ loops -> batchNodeId l ∈ reachable -> is_Some (T !! batchNodeId l).
Proof.
  unfold countExpectedSettledSteps. intros Hc l Hl Hr.
  assert (He : l ∈ arr_filter (fun l => bool_decide (batchNodeId l ∈ reachable)) loops).
  { apply elem_of_arr_filter. by rewrite bool_decide_eq_true. }
  assert (Hgen : forall ls e m r, expected_of_loops ls T e m = Some r -> forall l, l ∈ ls -> is_Some (T !! batchNodeId l)).
  { clear. induction ls as [|l0 ls IH]; intros e m r; simpl; [set_solver|].
    destruct (T !! batchNodeId l0) eqn:Ht; [|done]. intros H l [->|Hl]%elem_of_cons; [eauto|by eapply IH]. }
  destruct (expected_of_loops _ _ _ _) eqn:Hexp; [|done]. by eapply Hgen.
Qed.

(** ** What a fate says *)

(** The settled row an incoming edge reads for [c]. *)
Definition reads_row loops (c : StepKey) (steps : Summaries) (T : Terminals) (e : GraphEdge) (s : StepSummary) : Prop :=
  exists key, sourceRow e (classifyEdge e loops) c (T !! from e) = Row key /\
    steps !! stepKeyId key = Some s /\ isSettledStatus (ss_status s) = true.

Lemma reads_row_inj loops c steps (T : Terminals) e s1 s2 :
  reads_row loops c steps T e s1 -> reads_row loops c steps T e s2 -> s1 = s2.
Proof. intros (k1 & H1 & Hs1 & _) (k2 & H2 & Hs2 & _). congruence. Qed.

(** An edge that reads no row at this iteration. *)
Definition reads_none loops (c : StepKey) (T : Terminals) (e : GraphEdge) : Prop :=
  sourceRow e (classifyEdge e loops) c (T !! from e) = RowNone.

Lemma fate_loop_spec loops c steps (T : Terminals) es n live f :
  fate_loop loops c steps T es n live = f -> f = fate_queued \/ f = fate_skipped ->
  (forall e, e ∈ es -> reads_none loops c T e \/ exists s, reads_row loops c steps T e s) /\
  (f = fate_queued <-> live = true \/ exists e s, e ∈ es /\ reads_row loops c steps T e s /\ isLive s e = true) /\
  (n = 0 -> exists e s, e ∈ es /\ reads_row loops c steps T e s).
Proof.
  revert n live. induction es as [|e es IH]; intros n live; simpl.
  - case_decide as Hn; [intros <- [|]; done|]. intros <- _. split_and!; [set_solver| |done].
    destruct live; split; try done; auto. intros [?|(e & s & He & _)]; [done|set_solver].
  - destruct (sourceRow e (classifyEdge e loops) c (T !! from e)) as [key| |] eqn:Hr; [| |intros <- [|]; done].
    + destruct (steps !! stepKeyId key) as [s|] eqn:Hs; [|intros <- [|]; done].
      destruct (isSettledStatus (ss_status s)) eqn:Hst; [|intros <- [|]; done].
      intros Hf Hq. destruct (IH _ _ Hf Hq) as (H1 & H2 & _).
      assert (Hrow : reads_row loops c steps T e s) by (exists key; auto). split_and!.
      * intros e' [->|He']%elem_of_cons; [eauto|by apply H1].
      * rewrite H2, orb_true_iff. split.
        -- intros [[?|?]|(e' & s' & ? & ? & ?)]; [by left|right; exists e, s; set_solver|right; exists e', s'; set_solver].
        -- intros [?|(e' & s' & [->|He']%elem_of_cons & Hr' & Hl)]; [auto| |right; eauto].
           left. right. by rewrite (reads_row_inj _ _ _ _ _ _ _ Hrow Hr').
      * intros _. exists e, s. set_solver.
    + intros Hf Hq. destruct (IH _ _ Hf Hq) as (H1 & H2 & H3). split_and!.
      * intros e' [->|He']%elem_of_cons; [by left|by apply H1].
      * rewrite H2. split.
        -- intros [?|(e' & s' & ? & ?)]; [by left|right; exists e', s'; set_solver].
        -- intros [?|(e' & s' & [->|He']%elem_of_cons & Hr' & Hl)]; [auto| |right; eauto].
           destruct Hr' as (key & Hkey & _). congruence.
      * intros Hn. destruct (H3 Hn) as (e' & s' & ? & ?). exists e', s'. set_solver.
Qed.

(** A queued step has a live input; a skipped one has inputs and none is live; either way
    every input that applies has settled. *)
Lemma decideNodeFate_spec graph loops c steps (T : Terminals) f :
  decideNodeFate graph loops c steps T = f -> f = fate_queued \/ f = fate_skipped ->
  (forall e, e ∈ incoming graph (nodeId c) -> reads_none loops c T e \/ exists s, reads_row loops c steps T e s) /\
  (f = fate_queued <-> exists e s, e ∈ incoming graph (nodeId c) /\ reads_row loops c steps T e s /\ isLive s e = true) /\
  exists e s, e ∈ incoming graph (nodeId c) /\ reads_row loops c steps T e s.
Proof.
  unfold decideNodeFate. destruct (isPastLoopEnd loops c steps); [intros <- [|]; done|].
  intros Hf Hq. destruct (fate_loop_spec _ _ _ _ _ _ _ _ Hf Hq) as (H1 & H2 & H3). split_and!; [done| |by apply H3].
  rewrite H2. split; [intros [?|?]; done|auto].
Qed.

(** Every incoming edge reads nothing at this iteration or a settled row. *)
Definition inputs_settled graph loops (c : StepKey) (steps : Summaries) (T : Terminals) : Prop :=
  forall e, e ∈ incoming graph (nodeId c) -> reads_none loops c T e \/ exists s, reads_row loops c steps T e s.

(** Some incoming edge reads a settled row. *)
Definition has_input graph loops (c : StepKey) (steps : Summaries) (T : Terminals) : Prop :=
  exists e s, e ∈ incoming graph (nodeId c) /\ reads_row loops c steps T e s.

(** Some incoming edge reads a completed row that filled the edge's output slot. *)
Definition live_input graph loops (c : StepKey) (steps : Summaries) (T : Terminals) : Prop :=
  exists e s, e ∈ incoming graph (nodeId c) /\ reads_row loops c steps T e s /\ isLive s e = true.

Lemma fate_loop_total loops c steps (T : Terminals) es n live :
  (forall e, e ∈ es -> reads_none loops c T e \/ exists s, reads_row loops c steps T e s) ->
  n <> 0 \/ (exists e s, e ∈ es /\ reads_row loops c steps T e s) ->
  fate_loop loops c steps T es n live = fate_queued \/ fate_loop loops c steps T es n live = fate_skipped.
Proof.
  revert n live. induction es as [|e es IH]; intros n live Hes Hn; simpl.
  - destruct Hn as [Hn|(e & s & He & _)]; [|set_solver]. rewrite decide_False by done. destruct live; auto.
  - destruct (Hes e ltac:(by left)) as [Hnone|(s & key & Hk & Hs & Hst)].
    + unfold reads_none in Hnone. rewrite Hnone. apply IH; [intros; apply Hes; by right|].
      destruct Hn as [?|(e' & s & [->|He]%elem_of_cons & Hr)]; [by left| |right; eauto].
      destruct Hr as (key & Hkey & _). congruence.
    + rewrite Hk, Hs, Hst. apply IH; [intros; apply Hes; by right|by left].
Qed.

(** The rules of the decision, in full. *)
Lemma decideNodeFate_queued graph loops c steps (T : Terminals) :
  decideNodeFate graph loops c steps T = fate_queued <->
  isPastLoopEnd loops c steps = false /\ inputs_settled graph loops c steps T /\ live_input graph loops c steps T.
Proof.
  split.
  - intros Hf. destruct (decideNodeFate_spec _ _ _ _ _ _ Hf (or_introl eq_refl)) as (H1 & H2 & _).
    split_and!; [|done|by apply H2]. unfold decideNodeFate in Hf. by destruct (isPastLoopEnd _ _ _).
  - intros (Hp & Hi & Hl). assert (Hin : has_input graph loops c steps T) by (destruct Hl as (e & s & ? & ? & _); by exists e, s).
    destruct (fate_loop_total loops c steps T (incoming graph (nodeId c)) 0 false Hi (or_intror Hin)) as [Hf|Hf];
      unfold decideNodeFate; rewrite Hp; [done|].
    destruct (decideNodeFate_spec graph loops c steps T fate_skipped) as (_ & [_ H2] & _); auto.
    { unfold decideNodeFate. by rewrite Hp. }
    by specialize (H2 Hl).
Qed.

Lemma decideNodeFate_skipped graph loops c steps (T : Terminals) :
  decideNodeFate graph loops c steps T = fate_skipped <->
  isPastLoopEnd loops c steps = false /\ inputs_settled graph loops c steps T /\ has_input graph loops c steps T /\
  ~ live_input graph loops c steps T.
Proof.
  split.
  - intros Hf. destruct (decideNodeFate_spec _ _ _ _ _ _ Hf (or_intror eq_refl)) as (H1 & H2 & H3).
    split_and!; [|done|done|by intros ?%H2]. unfold decideNodeFate in Hf. by destruct (isPastLoopEnd _ _ _).
  - intros (Hp & Hi & Hin & Hl).
    destruct (fate_loop_total loops c steps T (incoming graph (nodeId c)) 0 false Hi (or_intror Hin)) as [Hf|Hf];
      [|unfold decideNodeFate; by rewrite Hp].
    exfalso. apply Hl. assert (Hq : decideNodeFate graph loops c steps T = fate_queued) by (unfold decideNodeFate; by rewrite Hp).
    by apply decideNodeFate_queued in Hq as (_ & _ & ?).
Qed.

(** ** Properties *)

(** A fate once decided is final: computed again from any later state of the rows and
    the terminal passes, by any planner, it is the same. *)
Lemma fates_are_final graph loops (c : StepKey) (s1 s2 : Summaries) (T1 T2 : Terminals) :
  later s1 s2 -> T1 ⊆ T2 -> end_known loops c s1 ->
  decideNodeFate graph loops c s1 T1 <> undecidable ->
  decideNodeFate graph loops c s2 T2 = decideNodeFate graph loops c s1 T1.
Proof. apply decideNodeFate_final. Qed.

Lemma fates_are_final_witness :
  let g := {| nodes := []; edges := [mkEdge "a" "b" 0 0 None] |}%string in
  let done := {["a@0"%string := mkSummary "1" "a" 0 completed [true]]} : Summaries in
  let more := <["b@0"%string := mkSummary "2" "b" 0 queued []]> done : Summaries in
  decideNodeFate g [] (mkKey "b" 0) more ∅ = decideNodeFate g [] (mkKey "b" 0) done ∅ /\
  decideNodeFate g [] (mkKey "b" 0) done ∅ = fate_queued.
Proof.
  cbv zeta. split; [|vm_compute; reflexivity]. apply fates_are_final.
  - intros k r Hk _. apply lookup_singleton_Some in Hk as [<- <-]. vm_compute. reflexivity.
  - done.
  - intros l Hl. discriminate Hl.
  - vm_compute. discriminate.
Defined.

(** The two directions of the iteration mapping agree: an edge reads, for a target
    step, exactly the source step whose settling plans that target along the edge. *)
Lemma sourceRow_inverts_targetKey (edge : GraphEdge) (edgeClass : EdgeClass) (source target : StepKey) (t : option Z) :
  (0 <= iteration source)%Z -> (0 <= iteration target)%Z -> nodeId target = to edge ->
  sourceRow edge edgeClass target t = Row source <->
  nodeId source = from edge /\ targetKey edge edgeClass source = target /\ admissible edgeClass source t.
Proof. apply sourceRow_iff. Qed.

Lemma sourceRow_inverts_targetKey_witness :
  let e := mkEdge "body" "loop" 0 0 (Some true) in
  sourceRow e back (mkKey "loop" 3) None = Row (mkKey "body" 2) /\
  (sourceRow e back (mkKey "loop" 3) None = Row (mkKey "body" 2) <->
   "body"%string = from e /\ targetKey e back (mkKey "body" 2) = mkKey "loop" 3 /\ True).
Proof.
  split; [reflexivity|]. apply (sourceRow_inverts_targetKey _ back (mkKey "body" 2) (mkKey "loop" 3) None);
    [simpl; lia|simpl; lia|reflexivity].
Defined.

(** What the planner decides at a settlement.  A step is decided when an edge on the
    side of its loop the settled step decides leads to it and it has no row yet.  It is
    queued exactly when its loop is not past its end, every incoming edge reads nothing at
    this iteration or a settled row, and some edge reads a completed row that filled the
    edge's output slot; it is skipped when the same holds but no such edge is live, though
    some edge reads a row.  Each list has no duplicate. *)
Lemma decideSuccessors_decides graph loops (settled : StepKey) (steps : Summaries) (T : Terminals) :
  let d := decideSuccessors graph loops settled steps T in
  let now := candidate loops settled steps (outgoing graph (nodeId settled)) in
  (forall k, k ∈ toQueue d <-> now k /\ isPastLoopEnd loops k steps = false /\
     inputs_settled graph loops k steps T /\ live_input graph loops k steps T) /\
  (forall k, k ∈ toSkip d <-> now k /\ isPastLoopEnd loops k steps = false /\
     inputs_settled graph loops k steps T /\ has_input graph loops k steps T /\ ~ live_input graph loops k steps T) /\
  NoDup (toQueue d) /\ NoDup (toSkip d).
Proof.
  cbv zeta. destruct (decideSuccessors_inv graph loops settled steps T) as (dd & [_ H2 H3 ? ?]). split_and!; [| |done|done].
  - intros k. by rewrite (H2 k), decideNodeFate_queued.
  - intros k. by rewrite (H3 k), decideNodeFate_skipped.
Qed.

(** [decisionKeys] names every row the decision depends on: from those rows alone the
    planner decides as it would from all rows of the execution. *)
Lemma decisionKeys_suffice graph loops (settled : StepKey) (steps : Summaries) (T : Terminals) :
  decideSuccessors graph loops settled (restrict_to (decisionKeys graph loops settled T) steps) T =
  decideSuccessors graph loops settled steps T.
Proof. apply decideSuccessors_restrict. Qed.

(** [countExpectedSettledSteps] counts the steps owed: none is named while some
    reachable loop has no terminal pass, and otherwise the number is that of the distinct
    steps owed (one per reachable node outside the loops; for a loop ended at pass [t], the
    batch node's [0..t] and each other member's [0..t-1]). *)
Lemma countExpectedSettledSteps_counts loops reachable (T : Terminals) :
  LoopsOk loops -> (forall n t, T !! n = Some t -> (0 <= t)%Z) -> NoDup reachable ->
  match countExpectedSettledSteps loops reachable T with
  | Some n => exists owed, NoDup owed /\ (forall k, k ∈ owed <-> owes loops reachable T k) /\ n = Z.of_nat (length owed)
  | None => exists l, l ∈ loops /\ batchNodeId l ∈ reachable /\ T !! batchNodeId l = None
  end.
Proof.
  intros HL HT Hnd. pose proof (countExpectedSettledSteps_spec loops reachable T HL HT Hnd) as H.
  destruct (countExpectedSettledSteps loops reachable T); [|done]. eauto.
Qed.

Lemma countExpectedSettledSteps_counts_witness :
  let l := {| batchNodeId := "loop"; memberIds := ["loop"; "body"]; backEdges := []; entryEdges := []; exitEdges := [] |}%string in
  let reachable := ["trigger"; "loop"; "body"; "end"]%string in
  countExpectedSettledSteps [l] reachable {["loop"%string := 2%Z]} = Some 7%Z /\
  exists owed, NoDup owed /\ (forall k, k ∈ owed <-> owes [l] reachable {["loop"%string := 2%Z]} k) /\
    7%Z = Z.of_nat (length owed).
Proof.
  cbv zeta. split; [vm_compute; reflexivity|].
  assert (HL : LoopsOk [{| batchNodeId := "loop"; memberIds := ["loop"; "body"]; backEdges := []; entryEdges := [];
    exitEdges := [] |}%string]).
  { split.
    - apply NoDup_singleton.
    - intros l ->%list_elem_of_singleton. split; [|by left]. apply (bool_decide_unpack _). vm_compute. exact I.
    - intros l1 l2 x ->%list_elem_of_singleton ->%list_elem_of_singleton _ _. reflexivity. }
  refine (countExpectedSettledSteps_counts _ ["trigger"; "loop"; "body"; "end"]%string {["loop"%string := 2%Z]} HL _ _).
  - intros n t [<- <-]%lookup_singleton_Some. lia.
  - apply (bool_decide_unpack _). vm_compute. exact I.
Defined.
