(* ===== verification/EnginePlan.v ===== *)
(** * Engine v2: why the planner is right

    The planning functions of [EngineSettlement] put together, for a graph that
    [validateExecutableGraph] accepts.  [Ledger] is what holds of the rows of an execution
    at every moment: rows exist only for reachable nodes, a node outside the loops has
    the one iteration 0, a row in a loop's body exists only for a pass whose batch step
    filled its loop slot, and a batch node's pass [i + 1] only once pass [i] did.
    Planning a settled step's successors keeps it, and it bounds the rows of an execution
    by the steps it owes, so the count in [finishExecutionIfDone] cannot pass early. *)

From stdpp Require Import base gmap strings pretty list fin_maps relations.
From Stdlib Require Import ZArith Lia.
From S2P Require Import Prelude.
From S2P Require Import JsCollections.
From S2P Require Import EngineTypes.
From S2P Require Import EngineGraph.
From S2P Require Import EngineScc.
From S2P Require Import EngineLoops.
From S2P Require Import EngineSettlement.

(** ** The shape of an edge of a valid graph *)

Section graph.
Context (graph : WorkflowGraph) (t : string) (HG : ValidGraph graph t).
Local Notation L := (deriveLoops graph).

Let HV : ValidLoops graph := ve_loops _ _ HG.
Let HL : LoopsOk L := ValidLoops_LoopsOk _ HV.

Lemma loop_facts (l : WorkflowLoop) : l ∈ L ->
  heads_loop graph (batchNodeId l) /\ (forall x, x ∈ memberIds l <-> member graph (batchNodeId l) x).
Proof.
  intros [Hh Heq]%elem_of_deriveLoops. split; [done|]. rewrite Heq.
  apply loop_of_members. destruct Hh as (e & [He _] & <-). by apply (vg_endpoints _ HV).
Qed.

Lemma loop_of_member_iff (x : string) (l : WorkflowLoop) :
  loop_of_member L x = Some l <-> l ∈ L /\ x ∈ memberIds l.
Proof.
  unfold loop_of_member. split.
  - intros [Hl Hin]%arr_find_Some. unfold in_loop in Hin. by apply bool_decide_eq_true in Hin.
  - intros [Hl Hx]. destruct (arr_find _ L) as [l'|] eqn:Hf.
    + apply arr_find_Some in Hf as [Hl' Hin].
      unfold in_loop in Hin. apply bool_decide_eq_true in Hin. f_equal.
      by apply (lo_disjoint _ HL l' l x).
    + rewrite arr_find_None in Hf. specialize (Hf l Hl). unfold in_loop in Hf.
      by apply bool_decide_eq_false in Hf.
Qed.

Lemma loop_of_member_None (x : string) :
  loop_of_member L x = None <-> forall l, l ∈ L -> x ∉ memberIds l.
Proof.
  unfold loop_of_member. rewrite arr_find_None. unfold in_loop. by setoid_rewrite bool_decide_eq_false.
Qed.

(** A member is reached from the batch node along forward edges. *)
Lemma member_forward (b m : string) :
  heads_loop graph b -> member graph b m -> m = b \/ reaches (forward_edges graph) b m.
Proof.
  intros Hb [Hbm Hmb]. revert m Hbm Hmb.
  apply (rtc_ind_r (fun m => rtc (edge_rel (edges graph)) m b -> m = b \/ reaches (forward_edges graph) b m));
    [by left|].
  intros x m Hbx Hxm IH Hmb.
  destruct Hxm as (e & He & <- & <-).
  assert (Hxb : rtc (edge_rel (edges graph)) (from e) b).
  { eapply rtc_l; [|exact Hmb]. by exists e. }
  assert (Hmem : member graph b (to e)).
  { split; [|done]. eapply rtc_r; [done|]. by exists e. }
  destruct (decide (to e = b)) as [|Hne]; [by left|right].
  destruct (is_back e) eqn:Hback.
  { (* a back-edge returns to a batch node, and the loop has no other *)
    exfalso. apply (vl_no_nesting _ _ (vg_loop _ HV _ Hb) (to e) Hmem Hne).
    apply (vl_head _ _ (vg_loop _ HV (to e) ltac:(by exists e))). }
  assert (Hedge : edge_rel (forward_edges graph) (from e) (to e)).
  { exists e. split; [|done]. by apply elem_of_forward_edges. }
  destruct (IH Hxb) as [Heq|Hr].
  - apply tc_once. by rewrite <-Heq.
  - by eapply tc_r.
Qed.

(** What an edge of each class connects. *)
Inductive EdgeShape (e : GraphEdge) : EdgeClass -> Prop :=
  | shape_back l : l ∈ L -> from e ∈ memberIds l -> to e = batchNodeId l -> EdgeShape e back
  | shape_intra l : l ∈ L -> from e ∈ memberIds l -> to e ∈ memberIds l -> to e <> batchNodeId l ->
      EdgeShape e intra
  | shape_exit l : l ∈ L -> from e = batchNodeId l -> to e ∉ memberIds l ->
      (forall l', l' ∈ L -> to e ∈ memberIds l' -> to e = batchNodeId l') -> EdgeShape e exit
  | shape_entry l : l ∈ L -> (forall l', l' ∈ L -> from e ∉ memberIds l') -> to e = batchNodeId l ->
      EdgeShape e entry
  | shape_plain : (forall l, l ∈ L -> from e ∉ memberIds l) -> (forall l, l ∈ L -> to e ∉ memberIds l) ->
      EdgeShape e plain.

Lemma findIndex_loop (x : string) :
  match loop_of_member L x with
  | Some l => exists i, arr_findIndex (fun loop => in_loop loop x) L = Some i /\ L !! i = Some l
  | None => arr_findIndex (fun loop => in_loop loop x) L = None
  end.
Proof.
  unfold loop_of_member. destruct (arr_find _ L) as [l|] eqn:Hf.
  - pose proof Hf as Hi. rewrite arr_find_findIndex in Hi.
    destruct (arr_findIndex _ L) as [i|]; simpl in Hi; [eauto|done].
  - rewrite arr_find_None in Hf. revert Hf. clear. generalize L. intros ls.
    induction ls as [|l ls IH]; simpl; [done|]. intros H.
    rewrite (H l) by set_solver. rewrite IH; [done|]. intros; apply H; set_solver.
Qed.

Lemma classifyEdge_shape (e : GraphEdge) : e ∈ edges graph -> EdgeShape e (classifyEdge e L).
Proof.
  intros He. unfold classifyEdge. destruct (is_back e) eqn:Hback.
  { assert (Hh : heads_loop graph (to e)) by (by exists e).
    set (l := loop_of graph (to e)).
    assert (Hl : l ∈ L) by (apply elem_of_deriveLoops; simpl; auto).
    apply (shape_back e l Hl); [|done].
    apply (loop_facts l Hl). simpl. apply (vl_return _ _ (vg_loop _ HV _ Hh) e); [by split|done]. }
  assert (Hfwd : forward_edge graph e) by done.
  assert (Hent : forall l, l ∈ L -> to e ∈ memberIds l -> from e ∉ memberIds l -> to e = batchNodeId l).
  { intros l Hl Ht Hf. destruct (loop_facts l Hl) as [Hh Hm].
    destruct (decide (to e = batchNodeId l)) as [|Hne]; [done|]. destruct Hf. apply Hm.
    apply (vl_entrance _ _ (vg_loop _ HV _ Hh) e Hfwd); [by apply Hm|done]. }
  pose proof (findIndex_loop (from e)) as Hs. pose proof (findIndex_loop (to e)) as Ht.
  destruct (loop_of_member L (from e)) as [ls|] eqn:Els;
    [apply loop_of_member_iff in Els as [Hls Hfs]; destruct Hs as (i & -> & Hi)
    |rewrite loop_of_member_None in Els; rewrite Hs]; simpl;
  (destruct (loop_of_member L (to e)) as [lt|] eqn:Elt;
    [apply loop_of_member_iff in Elt as [Hlt Hft]; destruct Ht as (j & -> & Hj)
    |rewrite loop_of_member_None in Elt; rewrite Ht]); simpl.
  - case_bool_decide as Hij; simpl.
    + assert (lt = ls) as -> by congruence. apply (shape_intra e ls); try done. intros Heq.
      destruct (loop_facts ls Hls) as [Hh Hm].
      assert (Hedge : edge_rel (forward_edges graph) (from e) (batchNodeId ls)).
      { exists e. split; [by apply elem_of_forward_edges|by rewrite Heq]. }
      apply (vg_acyclic _ HV (batchNodeId ls)).
      destruct (member_forward _ _ Hh (proj1 (Hm _) Hfs)) as [Hf|Hr];
        [apply tc_once; by rewrite <-Hf at 1|by eapply tc_r].
    + assert (Hnt : to e ∉ memberIds ls).
      { intros Hin. apply Hij. f_equal. pose proof (lo_disjoint _ HL ls lt _ Hls Hlt Hin Hft) as ->.
        eapply (NoDup_lookup (map batchNodeId L) i j); [apply (lo_heads _ HL)|..];
          rewrite list_lookup_fmap; [by rewrite Hi|by rewrite Hj]. }
      destruct (loop_facts ls Hls) as [Hh Hm].
      apply (shape_exit e ls); [done| |done|].
      * apply (vl_exit _ _ (vg_loop _ HV _ Hh) e Hfwd); [by apply Hm|by rewrite <-Hm].
      * intros l' Hl' Hin. pose proof (lo_disjoint _ HL l' lt _ Hl' Hlt Hin Hft) as ->.
        apply Hent; [done|done|]. intros Hf. apply Hnt.
        by pose proof (lo_disjoint _ HL ls lt _ Hls Hlt Hfs Hf) as ->.
  - destruct (loop_facts ls Hls) as [Hh Hm].
    apply (shape_exit e ls); [done| |by apply Elt|].
    + apply (vl_exit _ _ (vg_loop _ HV _ Hh) e Hfwd); [by apply Hm|]. rewrite <-Hm. by apply Elt.
    + intros l' Hl' Hin. by destruct (Elt l' Hl').
  - apply (shape_entry e lt); [done|done|]. apply Hent; [done|done|]. by apply Els.
  - by apply shape_plain.
Qed.

(** ** The ledger *)

(** Pass [i] of the loop ran and handed its body a slice: its batch step is settled and
    filled the loop slot. *)
Definition ongoing (S : Summaries) (l : WorkflowLoop) (i : Z) : Prop :=
  exists b, S !! stepKeyId (mkKey (batchNodeId l) i) = Some b /\
    isSettledStatus (ss_status b) = true /\ isTerminalStep b = false.

(** What a row's key says about the rows before it. *)
Record KeyOk (S : Summaries) (k : StepKey) : Prop := {
  ko_iteration : (0 <= iteration k)%Z;
  ko_reach : reachable graph t (nodeId k);
  ko_outside : (forall l, l ∈ L -> nodeId k ∉ memberIds l) -> iteration k = 0%Z;
  ko_body : forall l, l ∈ L -> nodeId k ∈ memberIds l -> nodeId k <> batchNodeId l -> ongoing S l (iteration k);
  ko_next : forall l, l ∈ L -> nodeId k = batchNodeId l -> (0 < iteration k)%Z -> ongoing S l (iteration k - 1);
}.

Definition Ledger (S : Summaries) : Prop := forall k s, S !! stepKeyId k = Some s -> KeyOk S k.

Lemma batch_member (l : WorkflowLoop) : l ∈ L -> batchNodeId l ∈ memberIds l.
Proof. intros Hl. apply (lo_members _ HL l Hl). Qed.

Lemma batch_of (l l' : WorkflowLoop) : l ∈ L -> l' ∈ L -> batchNodeId l ∈ memberIds l' -> l' = l.
Proof. intros Hl Hl' Hb. eapply (lo_disjoint _ HL); eauto using batch_member. Qed.

Lemma ongoing_later (S1 S2 : Summaries) (l : WorkflowLoop) (i : Z) :
  later S1 S2 -> ongoing S1 l i -> ongoing S2 l i.
Proof. intros Hs (b & Hb & Hst & Ht). exists b. eauto. Qed.

Lemma KeyOk_later (S1 S2 : Summaries) (k : StepKey) : later S1 S2 -> KeyOk S1 k -> KeyOk S2 k.
Proof. intros Hs []. split; eauto using ongoing_later. Qed.

Lemma reachable_edge (e : GraphEdge) : e ∈ edges graph -> reachable graph t (from e) -> reachable graph t (to e).
Proof.
  intros He [Hf|Hf]; right.
  - apply tc_once. rewrite <-Hf. by exists e.
  - eapply tc_r; [done|]. by exists e.
Qed.

Lemma KeyOk_zero (S : Summaries) (k : StepKey) :
  iteration k = 0%Z -> reachable graph t (nodeId k) ->
  (forall l, l ∈ L -> nodeId k ∈ memberIds l -> nodeId k = batchNodeId l) -> KeyOk S k.
Proof.
  intros Hi Hr Hb. split; rewrite ?Hi; try done.
  intros l Hl Hm Hne. by destruct Hne; apply Hb.
Qed.

Lemma trigger_KeyOk (S : Summaries) : KeyOk S (mkKey t 0).
Proof.
  apply KeyOk_zero; simpl; [done|by left|]. intros l Hl Hm.
  destruct (loop_facts l Hl) as [Hh Hmem]. exfalso.
  apply (vl_no_trigger _ _ (vg_loop _ HV _ Hh) t); [by apply Hmem|].
  destruct (ve_trigger _ _ HG) as (node & Hid & Hf). exists node.
  assert (Hin : node ∈ arr_filter (fun node => bool_decide (gn_type node = trigger)) (nodes graph))
    by (rewrite Hf; set_solver).
  apply elem_of_arr_filter in Hin as [Ht Hn]. by apply bool_decide_eq_true in Ht.
Qed.

(** A settled step of a running pass vouches for the pass. *)
Lemma source_ongoing (S : Summaries) (src : StepKey) (s : StepSummary) (l : WorkflowLoop) :
  Ledger S -> S !! stepKeyId src = Some s -> isSettledStatus (ss_status s) = true ->
  l ∈ L -> nodeId src ∈ memberIds l -> (nodeId src = batchNodeId l -> isTerminalStep s = false) ->
  ongoing S l (iteration src).
Proof.
  intros HS Hs Hst Hl Hm Hside. destruct (decide (nodeId src = batchNodeId l)) as [Heq|Hne].
  - exists s. rewrite <-Heq. destruct src. eauto.
  - by apply (ko_body _ _ (HS _ _ Hs)).
Qed.

(** Planning along an edge of a settled step keeps the ledger. *)
Lemma targetKey_KeyOk (S : Summaries) (src : StepKey) (s : StepSummary) (e : GraphEdge) :
  Ledger S -> S !! stepKeyId src = Some s -> isSettledStatus (ss_status s) = true ->
  e ∈ edges graph -> from e = nodeId src ->
  (forall l, l ∈ L -> batchNodeId l = nodeId src -> batchStepDecides (classifyEdge e L) s = true) ->
  KeyOk S (targetKey e (classifyEdge e L) src).
Proof.
  intros HS Hs Hst He Hf Hside. pose proof (HS _ _ Hs) as Hsrc.
  assert (Hreach : reachable graph t (to e)).
  { apply reachable_edge; [done|]. rewrite Hf. apply (ko_reach _ _ Hsrc). }
  assert (Hgo : forall l, l ∈ L -> nodeId src ∈ memberIds l -> classifyEdge e L <> exit -> ongoing S l (iteration src)).
  { intros l Hl Hm Hne. apply (source_ongoing S src s); try done. intros Hb.
    specialize (Hside l Hl (eq_sym Hb)). unfold batchStepDecides in Hside.
    destruct (isTerminalStep s); [|done]. by apply bool_decide_eq_true in Hside. }
  pose proof (ko_iteration _ _ Hsrc) as Hit.
  destruct (classifyEdge_shape e He) as [l Hl Hfm Ht|l Hl Hfm Htm Hne|l Hl Hfb Htm Hb|l Hl Hfm Ht|Hfm Htm];
    simpl; rewrite ?Hf in *.
  - split; simpl; [lia|done| | |].
    + intros Hout. destruct (Hout l Hl). rewrite Ht. by apply batch_member.
    + intros l' Hl' Hm Hne. rewrite Ht in Hm, Hne. by rewrite (batch_of l l') in Hne.
    + intros l' Hl' Heq _. rewrite Z.add_simpl_r. assert (l' = l) as ->.
      { apply batch_of; [done|done|]. rewrite <-Ht, Heq. by apply batch_member. }
      by apply Hgo.
  - split; simpl; [done|done| | |].
    + intros Hout. by destruct (Hout l Hl).
    + intros l' Hl' Hm _. rewrite (lo_disjoint _ HL l' l _ Hl' Hl Hm Htm). by apply Hgo.
    + intros l' Hl' Heq _. exfalso. apply Hne. rewrite Heq in Htm |- *. by rewrite <-(batch_of l' l Hl' Hl Htm).
  - by apply KeyOk_zero.
  - apply KeyOk_zero; [done|done|]. simpl. intros l' Hl' Hm. rewrite Ht in Hm |- *.
    by rewrite (batch_of l l').
  - apply KeyOk_zero; simpl; [|done|].
    + apply (ko_outside _ _ Hsrc). intros l Hl. by apply Hfm.
    + intros l Hl Hm. by destruct (Htm l Hl).
Qed.

(** The end of its loop is known where a body step is planned. *)
Lemma KeyOk_end_known (S : Summaries) (k : StepKey) : KeyOk S k -> end_known L k S.
Proof.
  intros Hk l [Hl Hm]%loop_of_member_iff Hne.
  destruct (ko_body _ _ Hk l Hl Hm Hne) as (b & Hb & Hst & _). eauto.
Qed.

Lemma KeyOk_not_past_end (S : Summaries) (k : StepKey) : KeyOk S k -> isPastLoopEnd L k S = false.
Proof.
  intros Hk. unfold isPastLoopEnd. destruct (loop_of_member L (nodeId k)) as [l|] eqn:Hl; [|done].
  apply loop_of_member_iff in Hl as [Hl Hm]. case_decide as Hne; [done|].
  destruct (ko_body _ _ Hk l Hl Hm Hne) as (b & -> & _ & Ht). done.
Qed.

(** ** The rows of an execution are among the steps it owes *)

(** [T] names the pass that ended each reachable loop. *)
Definition ended (S : Summaries) (T : Terminals) : Prop :=
  forall l, l ∈ L -> reachable graph t (batchNodeId l) ->
  exists i b, T !! batchNodeId l = Some i /\ S !! stepKeyId (mkKey (batchNodeId l) i) = Some b /\
    isTerminalStep b = true.

Lemma ongoing_before_end (S : Summaries) (l : WorkflowLoop) (i end_ : Z) (b : StepSummary) :
  Ledger S -> l ∈ L -> S !! stepKeyId (mkKey (batchNodeId l) end_) = Some b -> isTerminalStep b = true ->
  ongoing S l i -> (i < end_)%Z.
Proof.
  intros HS Hl Hb Ht Hgo. destruct (decide (i < end_)%Z) as [|Hge]; [done|]. exfalso.
  assert (Hn : exists n : nat, i = (end_ + Z.of_nat n)%Z) by (exists (Z.to_nat (i - end_)); lia).
  destruct Hn as [n ->]. clear Hge. pose proof (HS _ _ Hb) as Hkb.
  pose proof (ko_iteration _ _ Hkb) as Hpos. simpl in Hpos.
  induction n as [|n IH]; destruct Hgo as (b' & Hb' & _ & Ht').
  - rewrite Z.add_0_r in Hb'. congruence.
  - apply IH. pose proof (ko_next _ _ (HS _ _ Hb') l Hl) as Hn. simpl in Hn.
    replace (end_ + Z.of_nat (Datatypes.S n) - 1)%Z with (end_ + Z.of_nat n)%Z in Hn by lia. apply Hn; [done|lia].
Qed.

Lemma key_owed (S : Summaries) (T : Terminals) (reach : list string) (k : StepKey) :
  Ledger S -> ended S T -> (forall x, x ∈ reach <-> reachable graph t x) -> KeyOk S k -> owes L reach T k.
Proof.
  intros HS HT Hreach Hok.
  destruct (loop_of_member L (nodeId k)) as [l|] eqn:Hl.
  - apply loop_of_member_iff in Hl as [Hl Hm]. right.
    assert (Hbr : reachable graph t (batchNodeId l)).
    { destruct (loop_facts l Hl) as [_ Hmem]. destruct (proj1 (Hmem _) Hm) as [_ Hb].
      pose proof (ko_reach _ _ Hok) as Hr. clear -Hb Hr.
      induction Hb as [x|x y z Hxy _ IH]; [done|]. apply IH. destruct Hxy as (e & He & <- & <-).
      destruct Hr as [Hr|Hr]; right; [apply tc_once|eapply tc_r; [exact Hr|]]; rewrite <-?Hr; by exists e. }
    destruct (HT l Hl Hbr) as (i & b & Hi & Hb & Hterm). exists l, i.
    split_and!; [done|by apply Hreach|done|done|apply (ko_iteration _ _ Hok)|].
    case_decide as Heq.
    + destruct (decide (iteration k <= i)%Z) as [|Hgt]; [done|]. exfalso.
      pose proof (ko_iteration _ _ (HS _ _ Hb)) as Hi0. simpl in Hi0.
      assert (Hgo : ongoing S l (iteration k - 1)) by (apply (ko_next _ _ Hok); [done|done|lia]).
      pose proof (ongoing_before_end S l _ i b HS Hl Hb Hterm Hgo). lia.
    + apply (ongoing_before_end S l _ i b HS Hl Hb Hterm). by apply (ko_body _ _ Hok).
  - rewrite loop_of_member_None in Hl. left. split_and!; [by apply (ko_outside _ _ Hok)| |by intros l Hin _; apply Hl].
    apply Hreach, (ko_reach _ _ Hok).
Qed.

Lemma row_owed (S : Summaries) (T : Terminals) (reach : list string) (k : StepKey) (s : StepSummary) :
  Ledger S -> ended S T -> (forall x, x ∈ reach <-> reachable graph t x) ->
  S !! stepKeyId k = Some s -> owes L reach T k.
Proof. intros HS HT Hreach Hk. apply (key_owed S T); [done..|]. by apply (HS _ s). Qed.

(** Settled rows, counted against the steps owed: none is missing. *)
Lemma count_complete (S : Summaries) (T : Terminals) (reach : list string) (settled : list StepKey) (n : Z) :
  Ledger S -> ended S T -> (forall m i, T !! m = Some i -> (0 <= i)%Z) ->
  NoDup reach -> (forall x, x ∈ reach <-> reachable graph t x) ->
  NoDup settled -> (forall k, k ∈ settled -> is_Some (S !! stepKeyId k)) ->
  countExpectedSettledSteps L reach T = Some n -> (n <= Z.of_nat (length settled))%Z ->
  forall k, owes L reach T k -> k ∈ settled.
Proof.
  intros HS HT Hpos Hnd Hreach Hns Hrows Hcount Hle k Hk.
  pose proof (countExpectedSettledSteps_spec L reach T HL Hpos Hnd) as Hspec. rewrite Hcount in Hspec.
  destruct Hspec as (Hno & Howed & ->).
  assert (Hsub : settled ⊆ owed_keys L reach T).
  { intros k' Hk'. apply Howed. destruct (Hrows k' Hk') as [s Hs]. by eapply row_owed. }
  assert (Hperm : settled ≡ₚ owed_keys L reach T).
  { apply submseteq_length_Permutation; [|lia]. by apply NoDup_submseteq. }
  rewrite Hperm. by apply Howed.
Qed.
End graph.
