(* ===== verification/EngineStore.v ===== *)
(** * Engine v2: the two tables and the stores over them

    [database/typeorm-execution-store.ts], [database/typeorm-step-store.ts] and their two
    entities.  A table is a [gmap] keyed by the primary key; each store method is the
    effect of its statement, or of its transaction, on the tables.  The transactions take
    a lock on the execution row that serializes them with [failStep], so one transaction
    is one atomic step.

    What the tables enforce is part of the model: the primary keys, the unique key
    [(execution_id, node_id, iteration)] that [orIgnore] relies on, and the foreign key to
    the execution.  The ids [generateId] draws (uuidv7) and the finish time are arguments.
    The error the database raises when it rejects a statement is the parameter
    [queryFailed].  The [created_at] and [updated_at] columns are not modelled. *)

From stdpp Require Import base gmap strings pretty list fin_maps.
From Stdlib Require Import Ascii ZArith Lia.
From S2P Require Import Prelude.
From S2P Require Import JsCollections.
From S2P Require Import EngineTypes.
From S2P Require Import EngineGraph.
From S2P Require Import EngineLoops.
From S2P Require Import EngineSettlement.
Local Open Scope string_scope.

(** ** Rows *)

Record NewExecutionRecord := {
  ne_id : string;
  ne_workflowId : string;
  ne_status : ExecutionStatus;
  ne_mode : ExecutionMode;
  ne_graph : WorkflowGraph;
  ne_workflow : JsonValue;
  ne_triggerOutputs : option StepSlots;
  ne_callerContext : CallerContext;
}.

Record WorkflowExecution := {
  ex_record : NewExecutionRecord;
  ex_status : ExecutionStatus;
  finishedAt : option Z;
}.

(** What [loadExecution] returns: it names its columns, and [workflow] is not one. *)
Record ExecutionRecord := {
  er_id : string;
  er_workflowId : string;
  er_status : ExecutionStatus;
  er_mode : ExecutionMode;
  er_graph : WorkflowGraph;
  er_triggerOutputs : option StepSlots;
  er_callerContext : CallerContext;
}.

Record StepRecord := {
  sr_id : string;
  sr_executionId : string;
  sr_nodeId : string;
  sr_iteration : Z;
  sr_status : StepStatus;
  sr_outputs : option StepSlots;
  sr_error : option StepError;
}.

Record NewStepRecord := {
  ns_nodeId : string;
  ns_iteration : Z;
  ns_status : StepStatus;
  ns_outputs : option StepSlots;
}.

(** [{ id: string } & StepKey]. *)
Record CreatedStep := { cs_id : string; cs_key : StepKey }.

Record Db := {
  executions : gmap string WorkflowExecution;
  steps : gmap string StepRecord;
}.

Definition empty_db : Db := {| executions := ∅; steps := ∅ |}.

Definition sr_key (r : StepRecord) : StepKey := mkKey (sr_nodeId r) (sr_iteration r).

Definition set_executions (d : Db) (m : gmap string WorkflowExecution) : Db :=
  {| executions := m; steps := steps d |}.
Definition set_steps (d : Db) (m : gmap string StepRecord) : Db :=
  {| executions := executions d; steps := m |}.

(** ** [TypeOrmExecutionStore] *)

Section execution_store.
Context (queryFailed : EngineError).

(** [insert]: a second row with the same primary key is rejected. *)
Definition createExecution (d : Db) (record : NewExecutionRecord) : result unit * Db :=
  match executions d !! ne_id record with
  | Some _ => (Err queryFailed, d)
  | None =>
      (Ok tt, set_executions d
        (<[ne_id record := {| ex_record := record; ex_status := ne_status record; finishedAt := None |}]>
           (executions d)))
  end.
End execution_store.

Definition select_execution (id : string) (e : WorkflowExecution) : ExecutionRecord := {|
  er_id := id;
  er_workflowId := ne_workflowId (ex_record e);
  er_status := ex_status e;
  er_mode := ne_mode (ex_record e);
  er_graph := ne_graph (ex_record e);
  er_triggerOutputs := ne_triggerOutputs (ex_record e);
  er_callerContext := ne_callerContext (ex_record e);
|}.

Definition loadExecution (d : Db) (id : string) : result ExecutionRecord :=
  match executions d !! id with
  | Some e => Ok (select_execution id e)
  | None => Err (ExecutionNotFoundError id)
  end.

Definition transitionStatus (d : Db) (id : string) (from to : ExecutionStatus) : bool * Db :=
  match executions d !! id with
  | Some e =>
      if decide (ex_status e = from) then
        (true, set_executions d
          (<[id := {| ex_record := ex_record e; ex_status := to; finishedAt := finishedAt e |}]> (executions d)))
      else (false, d)
  | None => (false, d)
  end.

(** ['completed' | 'failed']. *)
Inductive FinishStatus := fin_completed | fin_failed.
Definition finish_status (s : FinishStatus) : ExecutionStatus :=
  match s with fin_completed => ex_completed | fin_failed => ex_failed end.

Definition finishExecution (d : Db) (id : string) (status : FinishStatus) (now : Z) : bool * Db :=
  match executions d !! id with
  | Some e =>
      if decide (ex_status e = ex_running) then
        (true, set_executions d
          (<[id := {| ex_record := ex_record e; ex_status := finish_status status;
                      finishedAt := Some now |}]> (executions d)))
      else (false, d)
  | None => (false, d)
  end.

(** ** [TypeOrmStepStore] *)

(** The rows of a table, in no particular order. *)
Definition table_rows (m : gmap string StepRecord) : list StepRecord := (map_to_list m).*2.

Definition CREATION_STATUSES : list StepStatus := [queued; completed; skipped].

Definition assertCreatableRecord (record : NewStepRecord) : result unit :=
  require (0 <=? ns_iteration record)%Z
    (UnexpectedError ("step for node " +:+ ns_nodeId record +:+ " is created with iteration " +:+
       pretty (ns_iteration record) +:+ "; iterations are non-negative integers")) ≫= fun _ =>
  require (bool_decide (ns_status record ∈ CREATION_STATUSES))
    (UnexpectedError ("step for node " +:+ ns_nodeId record +:+ " is created " +:+
       status_name (ns_status record) +:+ ", a status only reachable through its transition method")) ≫= fun _ =>
  require (negb (bool_decide (is_Some (ns_outputs record)) && negb (bool_decide (ns_status record = completed))))
    (UnexpectedError ("step for node " +:+ ns_nodeId record +:+ " is created " +:+
       status_name (ns_status record) +:+
       " with outputs, which only a step created completed may carry")) ≫= fun _ =>
  require (negb (bool_decide (ns_status record = completed) && negb (bool_decide (is_Some (ns_outputs record)))))
    (UnexpectedError ("step for node " +:+ ns_nodeId record +:+
       " is created completed without a slot list, which persists as NULL and reads as every slot dead (pass [] for a step that fired nothing)")).

Definition has_failed (m : gmap string StepRecord) (executionId : string) : bool :=
  arr_some (fun r => bool_decide (sr_executionId r = executionId) && bool_decide (sr_status r = failed))
    (table_rows m).

(** The row an insert of [record] would add. *)
Definition new_row (executionId : string) (record : NewStepRecord) (id : string) : StepRecord := {|
  sr_id := id;
  sr_executionId := executionId;
  sr_nodeId := ns_nodeId record;
  sr_iteration := ns_iteration record;
  sr_status := ns_status record;
  sr_outputs := ns_outputs record;
  sr_error := None;
|}.

(** A row the primary key or the unique key forbids. *)
Definition conflicts (m : gmap string StepRecord) (row : StepRecord) : bool :=
  bool_decide (is_Some (m !! sr_id row)) ||
  arr_some (fun r => bool_decide (sr_executionId r = sr_executionId row) && bool_decide (sr_key r = sr_key row))
    (table_rows m).

(** [INSERT ... ON CONFLICT DO NOTHING RETURNING id, node_id, iteration]. *)
Definition insert_row (acc : gmap string StepRecord * list CreatedStep) (row : StepRecord)
    : gmap string StepRecord * list CreatedStep :=
  let '(m, created) := acc in
  if conflicts m row then acc
  else (<[sr_id row := row]> m, (created ++ [{| cs_id := sr_id row; cs_key := sr_key row |}])%list).

Definition insert_rows (m : gmap string StepRecord) (rows : list StepRecord)
    : gmap string StepRecord * list CreatedStep :=
  foldl insert_row (m, []) rows.

Section create_steps.
Context (queryFailed : EngineError).

(** [ids] are the ids [generateId] draws, one per record. *)
Definition createSteps (d : Db) (executionId : string) (records : list NewStepRecord) (ids : list string)
    : result (list CreatedStep) * Db :=
  match records with
  | [] => (Ok [], d)
  | _ =>
      match for_each assertCreatableRecord records with
      | Err e => (Err e, d)
      | Ok _ =>
          let rows := zip_with (new_row executionId) records ids in
          if has_failed (steps d) executionId then (Ok [], d)
          else
            let '(m, created) := insert_rows (steps d) rows in
            (* the foreign key rejects the whole statement *)
            if bool_decide (is_Some (executions d !! executionId)) || bool_decide (created = [])
            then (Ok created, set_steps d m)
            else (Err queryFailed, d)
      end
  end.
End create_steps.

Definition loadStep (d : Db) (id : string) : result StepRecord :=
  match steps d !! id with
  | Some row => Ok row
  | None => Err (StepNotFoundError id)
  end.

Definition with_status (r : StepRecord) (status : StepStatus) (outputs : option StepSlots)
    (error : option StepError) : StepRecord := {|
  sr_id := sr_id r;
  sr_executionId := sr_executionId r;
  sr_nodeId := sr_nodeId r;
  sr_iteration := sr_iteration r;
  sr_status := status;
  sr_outputs := outputs;
  sr_error := error;
|}.

(** RETURNING covers the identity columns; [outputs] is written [null]. *)
Definition claimStep (d : Db) (id : string) : option StepRecord * Db :=
  match steps d !! id with
  | None => (None, d)
  | Some row =>
      match executions d !! sr_executionId row with
      | None => (None, d)
      | Some _ =>
          if decide (sr_status row = queued) then
            if has_failed (steps d) (sr_executionId row) then (None, d)
            else
              (Some (with_status row running None None),
               set_steps d (<[id := with_status row running (sr_outputs row) (sr_error row)]> (steps d)))
          else (None, d)
      end
  end.

(** [transition]: compare-and-set on [status]. *)
Definition transition (d : Db) (id : string) (from to : StepStatus) (outputs : option StepSlots) : bool * Db :=
  match steps d !! id with
  | Some row =>
      if decide (sr_status row = from) then
        (true, set_steps d (<[id := with_status row to
           (match outputs with Some o => Some o | None => sr_outputs row end) (sr_error row)]> (steps d)))
      else (false, d)
  | None => (false, d)
  end.

Definition completeStep (d : Db) (id : string) (outputs : StepSlots) : bool * Db :=
  transition d id running completed (Some outputs).

Definition failStep (d : Db) (id : string) (error : StepError) : bool * Db :=
  match steps d !! id with
  | Some row =>
      if decide (sr_status row = running) then
        (true, set_steps d (<[id := with_status row failed (sr_outputs row) (Some error)]> (steps d)))
      else (false, d)
  | None => (false, d)
  end.

Definition cancel_row (executionId : string) (r : StepRecord) : StepRecord :=
  if decide (sr_executionId r = executionId /\ sr_status r = queued)
  then with_status r cancelled (sr_outputs r) (sr_error r) else r.

Definition cancelQueuedSteps (d : Db) (executionId : string) : Db :=
  set_steps d (cancel_row executionId <$> steps d).

(** The rows a [WHERE] clause selects. *)
Definition select_steps (d : Db) (p : StepRecord -> bool) : list StepRecord :=
  arr_filter p (table_rows (steps d)).

Definition stepKeyFilter (executionId : string) (keys : list StepKey) (r : StepRecord) : bool :=
  bool_decide (sr_executionId r = executionId) && bool_decide (sr_key r ∈ keys).

(** [Object.fromEntries(rows.map((row) => [key(row), f(row)]))]. *)
Definition from_entries {A} (key : StepRecord -> string) (f : StepRecord -> A) (rows : list StepRecord)
    : gmap string A :=
  foldl (fun m r => <[key r := f r]> m) ∅ rows.

Definition loadStepsByKeys (d : Db) (executionId : string) (keys : list StepKey) : gmap string StepRecord :=
  match keys with
  | [] => ∅
  | _ => from_entries (fun r => stepKeyId (sr_key r)) id (select_steps d (stepKeyFilter executionId keys))
  end.

(** [FILLED_OUTPUT_SLOTS]: which slots hold anything but JSON null; none when the column
    is NULL. *)
Definition FILLED_OUTPUT_SLOTS (outputs : option StepSlots) : list bool :=
  match outputs with
  | Some slots => map (fun slot => match slot with JNull => false | _ => true end) slots
  | None => []
  end.

Definition summary_of (r : StepRecord) : StepSummary := {|
  ss_id := sr_id r;
  ss_nodeId := sr_nodeId r;
  ss_iteration := sr_iteration r;
  ss_status := sr_status r;
  filledOutputSlots := FILLED_OUTPUT_SLOTS (sr_outputs r);
|}.

Definition loadStepSummariesByKeys (d : Db) (executionId : string) (keys : list StepKey) : Summaries :=
  match keys with
  | [] => ∅
  | _ => from_entries (fun r => stepKeyId (sr_key r)) summary_of (select_steps d (stepKeyFilter executionId keys))
  end.

(** [DISTINCT ON (node_id) ... ORDER BY node_id, iteration DESC]: each node's row of the
    highest iteration. *)
Definition keep_latest (m : gmap string StepSummary) (r : StepRecord) : gmap string StepSummary :=
  match m !! sr_nodeId r with
  | Some s => if decide (ss_iteration s < sr_iteration r)%Z then <[sr_nodeId r := summary_of r]> m else m
  | None => <[sr_nodeId r := summary_of r]> m
  end.

Definition loadLatestStepSummaries (d : Db) (executionId : string) (nodeIds : list string)
    : gmap string StepSummary :=
  match nodeIds with
  | [] => ∅
  | _ => foldl keep_latest ∅
      (select_steps d (fun r => bool_decide (sr_executionId r = executionId) && bool_decide (sr_nodeId r ∈ nodeIds)))
  end.

Definition countSettledSteps (d : Db) (executionId : string) : Z :=
  Z.of_nat (length (select_steps d (fun r =>
    bool_decide (sr_executionId r = executionId) && isSettledStatus (sr_status r)))).

Definition hasFailedSteps (d : Db) (executionId : string) : bool := has_failed (steps d) executionId.

(** [validateStepContext]. *)
Definition validateStepContext (step : StepRecord) (execution : ExecutionRecord) : result GraphNode :=
  if decide (sr_executionId step = er_id execution) then
    match arr_find (fun candidate => bool_decide (gn_id candidate = sr_nodeId step)) (nodes (er_graph execution)) with
    | Some node => Ok node
    | None => Err (UnexpectedError ("step " +:+ sr_id step +:+ " references node " +:+ sr_nodeId step +:+
        ", which is absent from the execution graph"))
    end
  else Err (UnexpectedError ("step " +:+ sr_id step +:+ " belongs to execution " +:+ sr_executionId step +:+
        ", but the event claims " +:+ er_id execution)).

Local Close Scope string_scope.

(** ** What the tables guarantee *)

Record TableOk (d : Db) : Prop := {
  tk_exec : forall id e, executions d !! id = Some e -> ne_id (ex_record e) = id;
  tk_finished : forall id e, executions d !! id = Some e ->
    is_Some (finishedAt e) <-> ex_status e = ex_completed \/ ex_status e = ex_failed;
  tk_id : forall id r, steps d !! id = Some r -> sr_id r = id;
  tk_fk : forall id r, steps d !! id = Some r -> is_Some (executions d !! sr_executionId r);
  tk_unique : forall id1 id2 r1 r2, steps d !! id1 = Some r1 -> steps d !! id2 = Some r2 ->
    sr_executionId r1 = sr_executionId r2 -> sr_key r1 = sr_key r2 -> id1 = id2;
  tk_iteration : forall id r, steps d !! id = Some r -> (0 <= sr_iteration r)%Z;
  tk_outputs : forall id r, steps d !! id = Some r -> is_Some (sr_outputs r) <-> sr_status r = completed;
  tk_error : forall id r, steps d !! id = Some r -> is_Some (sr_error r) <-> sr_status r = failed;
}.

(** [r] is the row of step [k] of execution [e]. *)
Definition row_at (d : Db) (e : string) (k : StepKey) (r : StepRecord) : Prop :=
  steps d !! sr_id r = Some r /\ sr_executionId r = e /\ sr_key r = k.

(** The transitions of the step lifecycle, closed under composition. *)
Definition step_status_le (a b : StepStatus) : bool :=
  match a, b with
  | queued, (queued | running | completed | failed | cancelled) => true
  | running, (running | completed | failed) => true
  | a, b => bool_decide (a = b)
  end.

Definition ex_status_le (a b : ExecutionStatus) : bool :=
  match a, b with
  | ex_queued, (ex_queued | ex_running | ex_completed | ex_failed) => true
  | ex_running, (ex_running | ex_completed | ex_failed) => true
  | a, b => bool_decide (a = b)
  end.

Record row_le (r1 r2 : StepRecord) : Prop := {
  rl_id : sr_id r2 = sr_id r1;
  rl_exec : sr_executionId r2 = sr_executionId r1;
  rl_key : sr_key r2 = sr_key r1;
  rl_status : step_status_le (sr_status r1) (sr_status r2) = true;
  rl_settled : isSettledStatus (sr_status r1) = true -> r2 = r1;
}.

Record ex_le (e1 e2 : WorkflowExecution) : Prop := {
  el_record : ex_record e2 = ex_record e1;
  el_status : ex_status_le (ex_status e1) (ex_status e2) = true;
  el_finished : is_Some (finishedAt e1) -> finishedAt e2 = finishedAt e1;
}.

Definition failed_in (d : Db) (e : string) : Prop :=
  exists r, steps d !! sr_id r = Some r /\ sr_executionId r = e /\ sr_status r = failed.

(** [d2] is reachable from [d1]: no row is lost, a row only moves along its lifecycle and
    not at all once settled, and once a step has failed its execution gains no row and
    starts no step. *)
Record db_le (d1 d2 : Db) : Prop := {
  dl_exec : forall id e1, executions d1 !! id = Some e1 -> exists e2, executions d2 !! id = Some e2 /\ ex_le e1 e2;
  dl_steps : forall id r1, steps d1 !! id = Some r1 -> exists r2, steps d2 !! id = Some r2 /\ row_le r1 r2;
  dl_failed : forall e id r2, failed_in d1 e -> steps d2 !! id = Some r2 -> sr_executionId r2 = e ->
    exists r1, steps d1 !! id = Some r1 /\ (sr_status r2 = running -> sr_status r1 = running);
}.

Lemma elem_of_table_rows (m : gmap string StepRecord) (r : StepRecord) :
  r ∈ table_rows m <-> exists id, m !! id = Some r.
Proof.
  unfold table_rows. rewrite list_elem_of_fmap. split.
  - intros ([id r'] & -> & H%elem_of_map_to_list). eauto.
  - intros (id & H). exists (id, r). by rewrite elem_of_map_to_list.
Qed.

Lemma elem_of_select_steps (d : Db) (p : StepRecord -> bool) (r : StepRecord) :
  r ∈ select_steps d p <-> p r = true /\ exists id, steps d !! id = Some r.
Proof. unfold select_steps. rewrite elem_of_arr_filter, elem_of_table_rows. tauto. Qed.

Lemma has_failed_spec (d : Db) (e : string) :
  TableOk d -> has_failed (steps d) e = true <-> failed_in d e.
Proof.
  intros HT. unfold has_failed. rewrite arr_some_true. split.
  - intros (r & (id & Hr)%elem_of_table_rows & [He Hs]%andb_true_iff).
    apply bool_decide_eq_true in He, Hs. exists r. by rewrite (tk_id _ HT _ _ Hr).
  - intros (r & Hr & He & Hs). exists r. rewrite elem_of_table_rows, andb_true_iff, !bool_decide_eq_true.
    eauto.
Qed.

(** ** Reads *)

Lemma from_entries_lookup {A} (key : StepRecord -> string) (f : StepRecord -> A) (rows : list StepRecord)
    (s : string) (v : A) :
  (forall r1 r2, r1 ∈ rows -> r2 ∈ rows -> key r1 = key r2 -> r1 = r2) ->
  from_entries key f rows !! s = Some v <-> exists r, r ∈ rows /\ key r = s /\ f r = v.
Proof.
  unfold from_entries. intros Hinj.
  assert (Hgen : forall m : gmap string A, foldl (fun m r => <[key r := f r]> m) m rows !! s = Some v <->
    (exists r, r ∈ rows /\ key r = s /\ f r = v) \/ (m !! s = Some v /\ forall r, r ∈ rows -> key r <> s)).
  { revert Hinj. induction rows as [|r rows IH]; intros Hinj m; simpl.
    - split; [intros H; right; split; [done|set_solver]|intros [(r & ? & _)|[? _]]; [set_solver|done]].
    - rewrite IH by (intros; apply Hinj; set_solver). split.
      + intros [(r' & ? & ? & ?)|[Hm Hno]].
        { left. exists r'. set_solver. }
        destruct (decide (key r = s)) as [He|He].
        * subst s. rewrite lookup_insert_eq in Hm. simplify_eq. left. exists r. set_solver.
        * rewrite lookup_insert_ne in Hm by done. right. split; [done|].
          intros r' [->|?]%elem_of_cons; [done|by apply Hno].
      + intros [(r' & [->|Hr']%elem_of_cons & Hk & Hf)|[Hm Hno]].
        * destruct (decide (s ∈ map key rows)) as [Hin|Hni].
          { apply list_elem_of_fmap in Hin as (r' & -> & Hr'). left. exists r'.
            split_and!; [done|done|]. rewrite <-Hf. f_equal. apply Hinj; [set_solver..|done]. }
          right. split; [subst; by rewrite lookup_insert_eq|].
          intros r' Hr' He. apply Hni, list_elem_of_fmap. eauto.
        * left. eauto.
        * right. split; [|intros; apply Hno; set_solver].
          rewrite lookup_insert_ne; [done|]. apply Hno. set_solver. }
  rewrite Hgen, lookup_empty. split; [intros [?|[? _]]; done|auto].
Qed.

Section reads.
Context (d : Db) (HT : TableOk d).

Lemma row_at_inj (e : string) (k : StepKey) (r1 r2 : StepRecord) :
  row_at d e k r1 -> row_at d e k r2 -> r1 = r2.
Proof.
  intros (H1 & <- & <-) (H2 & He & Hk). pose proof (tk_unique _ HT _ _ _ _ H1 H2 (eq_sym He) (eq_sym Hk)).
  congruence.
Qed.

Lemma select_keys_inj (e : string) (keys : list StepKey) (r1 r2 : StepRecord) :
  r1 ∈ select_steps d (stepKeyFilter e keys) -> r2 ∈ select_steps d (stepKeyFilter e keys) ->
  stepKeyId (sr_key r1) = stepKeyId (sr_key r2) -> r1 = r2.
Proof.
  rewrite !elem_of_select_steps. unfold stepKeyFilter. rewrite !andb_true_iff, !bool_decide_eq_true.
  intros [[He1 _] [id1 H1]] [[He2 _] [id2 H2]] Hk%(inj stepKeyId).
  apply (row_at_inj e (sr_key r1)); unfold row_at;
    [by rewrite (tk_id _ HT _ _ H1)|by rewrite (tk_id _ HT _ _ H2)].
Qed.

Lemma from_keys_lookup {A} (f : StepRecord -> A) (e : string) (keys : list StepKey) (s : string) (v : A) :
  from_entries (fun r => stepKeyId (sr_key r)) f (select_steps d (stepKeyFilter e keys)) !! s = Some v <->
  exists k r, k ∈ keys /\ s = stepKeyId k /\ row_at d e k r /\ v = f r.
Proof.
  rewrite from_entries_lookup by apply select_keys_inj.
  setoid_rewrite elem_of_select_steps. unfold stepKeyFilter.
  setoid_rewrite andb_true_iff. setoid_rewrite bool_decide_eq_true. split.
  - intros (r & [[He Hk] [id Hr]] & Hs & Hv). exists (sr_key r), r. unfold row_at.
    by rewrite (tk_id _ HT _ _ Hr).
  - intros (k & r & Hk & -> & (Hr & He & <-) & ->). exists r. split_and!; eauto.
Qed.

Lemma loadStepsByKeys_lookup (e : string) (keys : list StepKey) (s : string) (v : StepRecord) :
  loadStepsByKeys d e keys !! s = Some v <-> exists k, k ∈ keys /\ s = stepKeyId k /\ row_at d e k v.
Proof.
  unfold loadStepsByKeys. destruct keys as [|k0 keys].
  { rewrite lookup_empty. split; [done|intros (k & Hk & _); set_solver]. }
  rewrite from_keys_lookup. split.
  - intros (k & r & ? & ? & ? & ->). eauto.
  - intros (k & ? & ? & ?). exists k, v. split_and!; eauto.
Qed.

(** Every row of an execution, as the planner sees it. *)
Definition all_summaries (e : string) : Summaries :=
  from_entries (fun r => stepKeyId (sr_key r)) summary_of
    (select_steps d (fun r => bool_decide (sr_executionId r = e))).

Lemma all_summaries_lookup (e : string) (k : StepKey) (v : StepSummary) :
  all_summaries e !! stepKeyId k = Some v <-> exists r, row_at d e k r /\ v = summary_of r.
Proof.
  unfold all_summaries. rewrite from_entries_lookup.
  - setoid_rewrite elem_of_select_steps. setoid_rewrite bool_decide_eq_true. split.
    + intros (r & [He [id Hr]] & Hk%(inj stepKeyId) & <-). exists r. unfold row_at.
      by rewrite (tk_id _ HT _ _ Hr).
    + intros (r & (Hr & He & Hk) & ->). exists r. rewrite Hk. split_and!; eauto.
  - intros r1 r2 [He1 [id1 H1]]%elem_of_select_steps [He2 [id2 H2]]%elem_of_select_steps Hk%(inj stepKeyId).
    apply bool_decide_eq_true in He1, He2.
    apply (row_at_inj e (sr_key r1)); unfold row_at;
      [by rewrite (tk_id _ HT _ _ H1)|by rewrite (tk_id _ HT _ _ H2)].
Qed.

Lemma all_summaries_key (e : string) (s : string) (v : StepSummary) :
  all_summaries e !! s = Some v -> exists k, s = stepKeyId k.
Proof.
  unfold all_summaries. intros H. apply from_entries_lookup in H as (r & _ & <- & _); [eauto|].
  intros r1 r2 [He1 [id1 H1]]%elem_of_select_steps [He2 [id2 H2]]%elem_of_select_steps Hk%(inj stepKeyId).
  apply bool_decide_eq_true in He1, He2.
  apply (row_at_inj e (sr_key r1)); unfold row_at;
    [by rewrite (tk_id _ HT _ _ H1)|by rewrite (tk_id _ HT _ _ H2)].
Qed.

(** The keyed read is the planner's view of the execution, restricted to the keys. *)
Lemma loadStepSummariesByKeys_restrict (e : string) (keys : list StepKey) :
  loadStepSummariesByKeys d e keys = restrict_to keys (all_summaries e).
Proof.
  apply map_eq. intros s. apply option_eq. intros v.
  unfold restrict_to. rewrite map_lookup_filter_Some. simpl.
  assert (Hl : loadStepSummariesByKeys d e keys !! s = Some v <->
    exists k r, k ∈ keys /\ s = stepKeyId k /\ row_at d e k r /\ v = summary_of r).
  { unfold loadStepSummariesByKeys. destruct keys as [|k0 keys]; [|apply from_keys_lookup].
    rewrite lookup_empty. split; [done|intros (k & r & Hk & _); set_solver]. }
  rewrite Hl. split.
  - intros (k & r & Hk & -> & Hr & ->). split; [apply all_summaries_lookup; eauto|].
    apply list_elem_of_fmap. eauto.
  - intros [Hv (k & -> & Hk)%list_elem_of_fmap].
    apply all_summaries_lookup in Hv as (r & Hr & ->). eauto 6.
Qed.
End reads.

Section latest.
Definition LatestInv (rows : list StepRecord) (m : gmap string StepSummary) : Prop :=
  (forall n s, m !! n = Some s -> exists r, r ∈ rows /\ sr_nodeId r = n /\ s = summary_of r /\
     forall r', r' ∈ rows -> sr_nodeId r' = n -> (sr_iteration r' <= sr_iteration r)%Z) /\
  (forall r, r ∈ rows -> is_Some (m !! sr_nodeId r)).

Lemma keep_latest_inv (rows : list StepRecord) (m : gmap string StepSummary) (r : StepRecord) :
  LatestInv rows m -> LatestInv (rows ++ [r]) (keep_latest m r).
Proof.
  intros [H1 H2]. unfold keep_latest.
  assert (Hnew : (forall r', r' ∈ rows -> sr_nodeId r' = sr_nodeId r -> (sr_iteration r' <= sr_iteration r)%Z) ->
    LatestInv (rows ++ [r]) (<[sr_nodeId r := summary_of r]> m)).
  { intros Hmax. split.
    - intros n s. destruct (decide (sr_nodeId r = n)) as [<-|Hne].
      + rewrite lookup_insert_eq. intros [= <-]. exists r. split_and!; [set_solver|done|done|].
        intros r' [Hr'|Hr']%elem_of_app Hn; [by apply Hmax|].
        apply list_elem_of_singleton in Hr' as ->. lia.
      + rewrite lookup_insert_ne by done. intros (r0 & ? & ? & ? & Hm)%H1. exists r0.
        split_and!; [set_solver|done|done|]. intros r' [Hr'|Hr']%elem_of_app Hn; [by apply Hm|].
        apply list_elem_of_singleton in Hr' as ->. done.
    - intros r' [Hr'|Hr'%list_elem_of_singleton]%elem_of_app.
      + destruct (decide (sr_nodeId r = sr_nodeId r')) as [<-|Hne];
          [rewrite lookup_insert_eq; eauto|rewrite lookup_insert_ne by done; by apply H2].
      + subst. rewrite lookup_insert_eq. eauto. }
  destruct (m !! sr_nodeId r) as [s|] eqn:Hm.
  - destruct (H1 _ _ Hm) as (r0 & Hr0 & Hn0 & -> & Hmax). simpl. case_decide as Hlt.
    + apply Hnew. intros r' Hr' Hn. specialize (Hmax r' Hr' Hn). lia.
    + split.
      * intros n s (r1 & ? & Hn1 & ? & Hm1)%H1. exists r1. split_and!; [set_solver|done|done|].
        intros r' [Hr'|Hr'%list_elem_of_singleton]%elem_of_app Hn; [by apply Hm1|]. subst r'.
        assert (sr_iteration r0 <= sr_iteration r1)%Z by (apply Hm1; [done|congruence]). lia.
      * intros r' [Hr'|Hr'%list_elem_of_singleton]%elem_of_app; [by apply H2|]. subst. eauto.
  - apply Hnew. intros r' Hr' Hn. destruct (H2 r' Hr') as [s Hs]. congruence.
Qed.

Context (d : Db) (HT : TableOk d).

Lemma loadLatestStepSummaries_spec (e : string) (ids : list string) :
  let m := loadLatestStepSummaries d e ids in
  (forall n s, m !! n = Some s -> n ∈ ids /\ exists r, row_at d e (mkKey n (ss_iteration s)) r /\ s = summary_of r /\
     forall k r', row_at d e k r' -> nodeId k = n -> (iteration k <= ss_iteration s)%Z) /\
  (forall k r, row_at d e k r -> nodeId k ∈ ids -> is_Some (m !! nodeId k)).
Proof.
  simpl. unfold loadLatestStepSummaries. destruct ids as [|n0 ids].
  { split; [intros n s; by rewrite lookup_empty|intros k r _ Hk; set_solver]. }
  set (p := fun r => _ && _).
  assert (Hgen : forall rows pre m, LatestInv pre m -> LatestInv (pre ++ rows) (foldl keep_latest m rows)).
  { induction rows as [|r rows IH]; intros pre m Hm; simpl; [by rewrite app_nil_r|].
    specialize (IH (pre ++ [r])%list _ (keep_latest_inv _ _ r Hm)). by rewrite <-app_assoc in IH. }
  destruct (Hgen (select_steps d p) [] ∅) as [H1 H2].
  { split; [intros ??; by rewrite lookup_empty|set_solver]. }
  simpl in *.
  assert (Hp : forall k r, row_at d e k r -> nodeId k ∈ n0 :: ids -> r ∈ select_steps d p).
  { intros k r (Hr & He & <-) Hk. apply elem_of_select_steps. split; [|eauto]. unfold p.
    by rewrite !bool_decide_eq_true_2. }
  split.
  - intros n s (r & [Hsel [id Hr]]%elem_of_select_steps & Hn & -> & Hmax)%H1.
    unfold p in Hsel. apply andb_true_iff in Hsel as [He Hin]. apply bool_decide_eq_true in He, Hin. subst n.
    split; [done|]. exists r. simpl. split_and!; [|done|].
    + unfold row_at. by rewrite (tk_id _ HT _ _ Hr).
    + intros k r' Hr' Hk. assert (Hr'' := Hr'). destruct Hr'' as (_ & _ & <-). simpl in *. apply Hmax; [|done].
      eapply Hp; [exact Hr'|]. simpl. by rewrite Hk.
  - intros k r Hr Hk. specialize (H2 r (Hp k r Hr Hk)). destruct Hr as (_ & _ & <-). done.
Qed.
End latest.

(** The keys of an execution's settled rows. *)
Definition settled_keys (d : Db) (e : string) : list StepKey :=
  map sr_key (select_steps d (fun r => bool_decide (sr_executionId r = e) && isSettledStatus (sr_status r))).

Lemma table_rows_NoDup (d : Db) : TableOk d -> NoDup (table_rows (steps d)).
Proof.
  intros HT. apply (NoDup_fmap_1 sr_id). unfold table_rows. rewrite <-list_fmap_compose.
  replace ((sr_id ∘ snd) <$> map_to_list (steps d)) with ((map_to_list (steps d)).*1);
    [apply NoDup_fst_map_to_list|].
  apply list_fmap_ext. intros i [id r] Hi. simpl. symmetry. apply (tk_id _ HT).
  by apply elem_of_map_to_list, list_elem_of_lookup_2 with i.
Qed.

Lemma settled_keys_spec (d : Db) (e : string) :
  TableOk d -> NoDup (settled_keys d e) /\
  (forall k, k ∈ settled_keys d e <-> exists r, row_at d e k r /\ isSettledStatus (sr_status r) = true) /\
  countSettledSteps d e = Z.of_nat (length (settled_keys d e)).
Proof.
  intros HT. unfold settled_keys, countSettledSteps. rewrite length_map. split_and!; [| |done].
  - apply NoDup_fmap_2_strong.
    + intros r1 r2 [Hp1 [id1 H1]]%elem_of_select_steps [Hp2 [id2 H2]]%elem_of_select_steps Hk.
      apply andb_true_iff in Hp1 as [He1 _], Hp2 as [He2 _]. apply bool_decide_eq_true in He1, He2.
      apply (row_at_inj d HT e (sr_key r1)); unfold row_at;
        [by rewrite (tk_id _ HT _ _ H1)|by rewrite (tk_id _ HT _ _ H2)].
    + unfold select_steps, arr_filter. apply NoDup_ListNoDup, List.NoDup_filter, NoDup_ListNoDup. by apply table_rows_NoDup.
  - intros k. rewrite list_elem_of_fmap. setoid_rewrite elem_of_select_steps.
    setoid_rewrite andb_true_iff. setoid_rewrite bool_decide_eq_true. split.
    + intros (r & -> & [He Hs] & id & Hr). exists r. unfold row_at. by rewrite (tk_id _ HT _ _ Hr).
    + intros (r & (Hr & He & <-) & Hs). exists r. eauto 6.
Qed.

(** ** Writes: every statement keeps the tables well formed and only moves rows forward *)

#[export] Instance row_le_refl : Reflexive row_le.
Proof. intros r. split; try done. by destruct (sr_status r). Qed.
#[export] Instance row_le_trans : Transitive row_le.
Proof.
  intros r1 r2 r3 [] []. split; try congruence.
  - by destruct (sr_status r1), (sr_status r2), (sr_status r3).
  - intros Hs. specialize (rl_settled0 Hs). subst. auto.
Qed.
#[export] Instance ex_le_refl : Reflexive ex_le.
Proof. intros e. split; try done. by destruct (ex_status e). Qed.
#[export] Instance ex_le_trans : Transitive ex_le.
Proof.
  intros e1 e2 e3 [] []. split; try congruence.
  - by destruct (ex_status e1), (ex_status e2), (ex_status e3).
  - intros Hf. specialize (el_finished0 Hf). rewrite <-el_finished0. apply el_finished1. by rewrite el_finished0.
Qed.

#[export] Instance db_le_refl : Reflexive db_le.
Proof. intros d. split; eauto using ex_le_refl, row_le_refl. Qed.

Lemma row_le_failed (r1 r2 : StepRecord) : row_le r1 r2 -> sr_status r1 = failed -> r2 = r1.
Proof. intros Hle Hs. apply (rl_settled _ _ Hle). by rewrite Hs. Qed.

Lemma failed_in_le (d1 d2 : Db) (e : string) : db_le d1 d2 -> failed_in d1 e -> failed_in d2 e.
Proof.
  intros Hle (r & Hr & He & Hs). destruct (dl_steps _ _ Hle _ _ Hr) as (r2 & Hr2 & Hrl).
  apply row_le_failed in Hrl as ->; [|done]. by exists r.
Qed.

#[export] Instance db_le_trans : Transitive db_le.
Proof.
  intros d1 d2 d3 H12 H23. split.
  - intros id e1 (e2 & He2 & Hl2)%(dl_exec _ _ H12).
    destruct (dl_exec _ _ H23 _ _ He2) as (e3 & He3 & Hl3). exists e3. split; [done|by etrans].
  - intros id r1 (r2 & Hr2 & Hl2)%(dl_steps _ _ H12).
    destruct (dl_steps _ _ H23 _ _ Hr2) as (r3 & Hr3 & Hl3). exists r3. split; [done|by etrans].
  - intros e id r3 Hf Hr3 He. assert (Hf2 := failed_in_le _ _ _ H12 Hf).
    destruct (dl_failed _ _ H23 _ _ _ Hf2 Hr3 He) as (r2 & Hr2 & Hrun2).
    destruct (dl_steps _ _ H23 _ _ Hr2) as (r3' & Hr3' & Hl). assert (r3' = r3) as -> by congruence.
    assert (He2 : sr_executionId r2 = e) by (rewrite <-(rl_exec _ _ Hl); done).
    destruct (dl_failed _ _ H12 _ _ _ Hf Hr2 He2) as (r1 & Hr1 & Hrun1). exists r1. split; auto.
Qed.

Lemma row_at_le (d1 d2 : Db) (e : string) (k : StepKey) (r : StepRecord) :
  db_le d1 d2 -> row_at d1 e k r -> exists r2, row_at d2 e k r2 /\ row_le r r2.
Proof.
  intros Hle (Hr & <- & <-). destruct (dl_steps _ _ Hle _ _ Hr) as (r2 & Hr2 & Hl).
  exists r2. split; [|done]. unfold row_at. by rewrite (rl_id _ _ Hl), (rl_exec _ _ Hl), (rl_key _ _ Hl).
Qed.

Lemma row_at_settled (d1 d2 : Db) (e : string) (k : StepKey) (r : StepRecord) :
  db_le d1 d2 -> row_at d1 e k r -> isSettledStatus (sr_status r) = true -> row_at d2 e k r.
Proof.
  intros Hle Hr Hs. destruct (row_at_le _ _ _ _ _ Hle Hr) as (r2 & Hr2 & Hl).
  by rewrite <-(rl_settled _ _ Hl Hs).
Qed.

(** Changing the status of one row. *)
Lemma update_row_ok (d : Db) (id : string) (r r' : StepRecord) :
  TableOk d -> steps d !! id = Some r -> row_le r r' ->
  (is_Some (sr_outputs r') <-> sr_status r' = completed) ->
  (is_Some (sr_error r') <-> sr_status r' = failed) ->
  (sr_status r' = running -> sr_status r = running \/ ~ failed_in d (sr_executionId r)) ->
  TableOk (set_steps d (<[id := r']> (steps d))) /\ db_le d (set_steps d (<[id := r']> (steps d))).
Proof.
  intros HT Hr Hl Ho Her Hrun.
  assert (Hk : sr_nodeId r' = sr_nodeId r /\ sr_iteration r' = sr_iteration r).
  { pose proof (rl_key _ _ Hl) as Hk. unfold sr_key in Hk. by simplify_eq. }
  assert (Hlook : forall id2 r2, <[id := r']> (steps d) !! id2 = Some r2 ->
    exists r1, steps d !! id2 = Some r1 /\ row_le r1 r2 /\ (id2 = id /\ r2 = r' \/ r2 = r1)).
  { intros id2 r2 [[<- <-]|[Hne H2]]%lookup_insert_Some; [exists r; auto|].
    exists r2. split_and!; [done|reflexivity|by right]. }
  split.
  - split; simpl.
    + apply (tk_exec _ HT).
    + apply (tk_finished _ HT).
    + intros id2 r2 (r1 & H1 & H12 & _)%Hlook. rewrite (rl_id _ _ H12). by apply (tk_id _ HT).
    + intros id2 r2 (r1 & H1 & H12 & _)%Hlook. rewrite (rl_exec _ _ H12). by eapply (tk_fk _ HT).
    + intros i1 i2 r1 r2 (r1' & H1 & Hl1 & _)%Hlook (r2' & H2 & Hl2 & _)%Hlook.
      rewrite (rl_exec _ _ Hl1), (rl_exec _ _ Hl2), (rl_key _ _ Hl1), (rl_key _ _ Hl2).
      by apply (tk_unique _ HT).
    + intros id2 r2 (r1 & H1 & H12 & _)%Hlook. pose proof (rl_key _ _ H12) as Hk2. unfold sr_key in Hk2.
      injection Hk2 as _ ->. by eapply (tk_iteration _ HT).
    + intros id2 r2 (r1 & H1 & _ & [[-> ->]| ->])%Hlook; [done|by eapply (tk_outputs _ HT)].
    + intros id2 r2 (r1 & H1 & _ & [[-> ->]| ->])%Hlook; [done|by eapply (tk_error _ HT)].
  - split; simpl.
    + eauto using ex_le_refl.
    + intros id2 r2 H2. destruct (decide (id = id2)) as [<-|Hne].
      * rewrite lookup_insert_eq. simplify_eq. eauto.
      * rewrite lookup_insert_ne by done. eauto using row_le_refl.
    + intros e id2 r2 Hf H2 He. destruct (Hlook _ _ H2) as (r1 & H1 & H12 & Hor).
      exists r1. split; [done|]. intros Hr2.
      destruct Hor as [[-> ->]| ->]; [|done]. simplify_eq. destruct (Hrun Hr2) as [?|Hnf]; [done|].
      destruct Hnf. by rewrite <-(rl_exec _ _ Hl).
Qed.

(** Changing the status of one execution. *)
Lemma update_exec_ok (d : Db) (id : string) (e e' : WorkflowExecution) :
  TableOk d -> executions d !! id = Some e -> ex_le e e' ->
  (is_Some (finishedAt e') <-> ex_status e' = ex_completed \/ ex_status e' = ex_failed) ->
  TableOk (set_executions d (<[id := e']> (executions d))) /\
  db_le d (set_executions d (<[id := e']> (executions d))).
Proof.
  intros HT He Hl Hfin. split.
  - split; simpl; try apply HT.
    + intros id2 e2 [[<- <-]|[Hne H2]]%lookup_insert_Some; [|by apply (tk_exec _ HT)].
      rewrite (el_record _ _ Hl). by apply (tk_exec _ HT).
    + intros id2 e2 [[<- <-]|[Hne H2]]%lookup_insert_Some; [done|by eapply (tk_finished _ HT)].
    + intros id2 r2 Hr2. destruct (decide (id = sr_executionId r2)) as [->|Hne];
        [rewrite lookup_insert_eq; eauto|rewrite lookup_insert_ne by done; by eapply (tk_fk _ HT)].
  - split; simpl; [|eauto using row_le_refl|eauto].
    intros id2 e2 H2. destruct (decide (id = id2)) as [<-|Hne];
      [rewrite lookup_insert_eq; simplify_eq; eauto|rewrite lookup_insert_ne by done; eauto using ex_le_refl].
Qed.

(** *** [createSteps] *)

Definition creatable (record : NewStepRecord) : Prop :=
  (0 <= ns_iteration record)%Z /\ ns_status record ∈ CREATION_STATUSES /\
  (is_Some (ns_outputs record) <-> ns_status record = completed).

Lemma assertCreatableRecord_ok (record : NewStepRecord) :
  assertCreatableRecord record = Ok tt <-> creatable record.
Proof.
  unfold assertCreatableRecord, creatable. rewrite !bind_unit_ok, !require_ok.
  rewrite Z.leb_le, bool_decide_eq_true, !negb_true_iff, !andb_false_iff, !negb_false_iff,
    !bool_decide_eq_true, !bool_decide_eq_false.
  assert (Hdec : is_Some (ns_outputs record) \/ ~ is_Some (ns_outputs record)) by
    (destruct (ns_outputs record); [left; eauto|right; by intros []]).
  assert (Hdec2 : ns_status record = completed \/ ns_status record <> completed) by
    (destruct (decide (ns_status record = completed)); auto).
  tauto.
Qed.

Lemma conflicts_spec (m : gmap string StepRecord) (row : StepRecord) :
  conflicts m row = false <-> m !! sr_id row = None /\
    forall id r, m !! id = Some r -> sr_executionId r = sr_executionId row -> sr_key r <> sr_key row.
Proof.
  unfold conflicts. rewrite orb_false_iff, bool_decide_eq_false, eq_None_not_Some.
  assert (Hs : arr_some (fun r => bool_decide (sr_executionId r = sr_executionId row) &&
     bool_decide (sr_key r = sr_key row)) (table_rows m) = false <->
     forall id r, m !! id = Some r -> sr_executionId r = sr_executionId row -> sr_key r <> sr_key row).
  { rewrite <-not_true_iff_false, arr_some_true. split.
    - intros Hn id r Hr He Hk. apply Hn. exists r. rewrite elem_of_table_rows, andb_true_iff, !bool_decide_eq_true.
      eauto.
    - intros Hn (r & (id & Hr)%elem_of_table_rows & [He Hk]%andb_true_iff).
      apply bool_decide_eq_true in He, Hk. by eapply Hn. }
  by rewrite Hs.
Qed.

(** The rows inserted so far, out of [rows], into the table [d]. *)
Record InsertInv (d : Db) (rows : list StepRecord) (acc : gmap string StepRecord * list CreatedStep) : Prop := {
  ii_unique : forall id1 id2 r1 r2, acc.1 !! id1 = Some r1 -> acc.1 !! id2 = Some r2 ->
    sr_executionId r1 = sr_executionId r2 -> sr_key r1 = sr_key r2 -> id1 = id2;
  ii_old : forall id r, steps d !! id = Some r -> acc.1 !! id = Some r;
  ii_new : forall id r, acc.1 !! id = Some r -> steps d !! id = Some r \/
    (r ∈ rows /\ id = sr_id r /\ steps d !! id = None /\ {| cs_id := id; cs_key := sr_key r |} ∈ acc.2);
  ii_created : forall c, c ∈ acc.2 -> steps d !! cs_id c = None /\
    exists r, r ∈ rows /\ acc.1 !! cs_id c = Some r /\ cs_key c = sr_key r /\ sr_id r = cs_id c;
  ii_created_nodup : NoDup (map cs_id acc.2);
}.

Lemma insert_rows_inv (d : Db) (rows : list StepRecord) :
  TableOk d -> InsertInv d rows (insert_rows (steps d) rows).
Proof.
  intros HT. unfold insert_rows.
  assert (Hgen : forall rows pre acc, InsertInv d pre acc -> InsertInv d (pre ++ rows) (foldl insert_row acc rows)).
  { clear rows. induction rows as [|row rows IH]; intros pre acc HI; simpl; [by rewrite app_nil_r|].
    cut (InsertInv d (pre ++ [row]) (insert_row acc row)).
    { intros HI'. specialize (IH (pre ++ [row]) _ HI'). by rewrite <-app_assoc in IH. }
    destruct acc as [m created]. destruct HI as [H1 H2 H3 H4 H5]. unfold insert_row. simpl in *.
    destruct (conflicts m row) eqn:Hc.
    - split; simpl; try done.
      + intros id r [?|(?&?&?&?)]%H3; [by left|right]. set_solver.
      + intros c (Hn & r & ? & ? & ? & ?)%H4. split; [done|]. exists r. set_solver.
    - apply conflicts_spec in Hc as [Hnone Hk]. split; simpl.
      + intros i1 i2 r1 r2 [[<- <-]|[Hn1 Hr1]]%lookup_insert_Some [[<- <-]|[Hn2 Hr2]]%lookup_insert_Some He Hk';
          [done| | |by eapply H1].
        * by destruct (Hk _ _ Hr2 (eq_sym He)).
        * by destruct (Hk _ _ Hr1 He).
      + intros id r Hr. rewrite lookup_insert_ne; [by apply H2|]. intros <-. apply H2 in Hr. congruence.
      + intros id r [[<- <-]|[Hn Hr]]%lookup_insert_Some.
        * right. split_and!; [set_solver|done| |set_solver].
          destruct (steps d !! sr_id row) eqn:Hd; [|done]. apply H2 in Hd. congruence.
        * destruct (H3 _ _ Hr) as [?|(?&?&?&?)]; [by left|right]. set_solver.
      + intros c [Hc|Hc%list_elem_of_singleton]%elem_of_app.
        * destruct (H4 c Hc) as (Hn & r & Hr & Hl & ? & ?). split; [done|]. exists r.
          rewrite lookup_insert_ne by congruence. set_solver.
        * subst c. simpl. split; [destruct (steps d !! sr_id row) eqn:Hd; [apply H2 in Hd; congruence|done]|].
          exists row. rewrite lookup_insert_eq. set_solver.
      + rewrite map_app. apply NoDup_app. split_and!; [done| |apply NoDup_singleton]. simpl.
        intros s (c & -> & Hc)%list_elem_of_fmap Hs%list_elem_of_singleton.
        destruct (H4 c Hc) as (_ & r & _ & Hl & _ & _). congruence. }
  apply (Hgen rows [] (steps d, [])). split; simpl; try done; try set_solver.
  - intros id1 id2 r1 r2 ? ? ? ?. by eapply (tk_unique _ HT).
  - apply NoDup_nil_2.
Qed.

(** What a [createSteps] that came back did. *)
Record Created (d : Db) (e : string) (records : list NewStepRecord) (r : result (list CreatedStep)) (d' : Db) : Prop := {
  cr_table : TableOk d';
  cr_le : db_le d d';
  cr_executions : executions d' = executions d;
  cr_rows : forall id row, steps d' !! id = Some row -> steps d !! id = Some row \/
    (steps d !! id = None /\ ~ failed_in d e /\
     exists rec, rec ∈ records /\ creatable rec /\ row = new_row e rec id);
  cr_created : forall created, r = Ok created -> NoDup (map cs_id created) /\
    forall c, c ∈ created -> steps d !! cs_id c = None /\
      exists rec, rec ∈ records /\ creatable rec /\ steps d' !! cs_id c = Some (new_row e rec (cs_id c)) /\
        cs_key c = mkKey (ns_nodeId rec) (ns_iteration rec);
  cr_new_announced : forall created id row, r = Ok created -> steps d' !! id = Some row -> steps d !! id = None ->
    {| cs_id := id; cs_key := sr_key row |} ∈ created;
  cr_err : forall err, r = Err err -> d' = d;
}.

Lemma Created_none (d : Db) e records r : TableOk d -> (forall created, r = Ok created -> created = []) ->
  Created d e records r d.
Proof.
  intros HT Hr. split; [done|reflexivity|done| | | |done].
  - auto.
  - intros created ->%Hr. split; [apply NoDup_nil_2|set_solver].
  - intros created id row _ H1 H2. congruence.
Qed.

Lemma createSteps_created (qf : EngineError) (d : Db) (e : string) (records : list NewStepRecord) (ids : list string) :
  TableOk d ->
  Created d e records (createSteps qf d e records ids).1 (createSteps qf d e records ids).2.
Proof.
  intros HT. unfold createSteps. destruct records as [|rec0 records']; [by apply Created_none; [|intros ? [=]]|].
  set (records := rec0 :: records').
  destruct (for_each assertCreatableRecord records) as [[]|err] eqn:Hass; [|by apply Created_none].
  assert (Hcr : forall rec, rec ∈ records -> creatable rec).
  { intros rec Hrec. apply assertCreatableRecord_ok. by apply (proj1 (for_each_ok _ _) Hass). }
  destruct (has_failed (steps d) e) eqn:Hf; [by apply Created_none; [|intros ? [=]]|].
  assert (Hnf : ~ failed_in d e).
  { intros Hn. apply (has_failed_spec _ _ HT) in Hn. congruence. }
  pose proof (insert_rows_inv d (zip_with (new_row e) records ids) HT) as [Hu Hold Hnew Hc Hnd].
  destruct (insert_rows _ _) as [m created] eqn:Hins. simpl in *.
  destruct (bool_decide (is_Some (executions d !! e)) || bool_decide (created = [])) eqn:Hfk;
    [|by apply Created_none]. simpl.
  assert (Hrow : forall r, r ∈ zip_with (new_row e) records ids -> exists rec id, rec ∈ records /\ r = new_row e rec id).
  { intros r (rec & id & -> & Hrec & _)%elem_of_zip_with. eauto. }
  assert (Hnew' : forall id row, m !! id = Some row -> steps d !! id = Some row \/
    (steps d !! id = None /\ {| cs_id := id; cs_key := sr_key row |} ∈ created /\
     exists rec, rec ∈ records /\ row = new_row e rec id)).
  { intros id row [?|(Hin & -> & Hn & Hcr')]%Hnew; [by left|right].
    destruct (Hrow _ Hin) as (rec & id & Hrec & ->). simpl in *. eauto 6. }
  assert (Hfk' : forall id row, m !! id = Some row -> steps d !! id = None -> is_Some (executions d !! e)).
  { intros id row Hr Hn. destruct (Hnew' _ _ Hr) as [?|(_ & Hin & _)]; [congruence|].
    apply orb_true_iff in Hfk as [H%bool_decide_eq_true|H%bool_decide_eq_true]; [done|set_solver]. }
  split; simpl.
  - split; simpl; try apply HT.
    + intros id r [Hr|(_ & _ & rec & _ & ->)]%Hnew'; [by apply (tk_id _ HT)|done].
    + intros id r Hr. destruct (Hnew' _ _ Hr) as [Hr'|(Hn & _ & rec & _ & ->)]; [by eapply (tk_fk _ HT)|].
      simpl. by eapply Hfk'.
    + done.
    + intros id r [Hr|(_ & _ & rec & Hrec & ->)]%Hnew'; [by eapply (tk_iteration _ HT)|].
      by apply (Hcr rec).
    + intros id r [Hr|(_ & _ & rec & Hrec & ->)]%Hnew'; [by eapply (tk_outputs _ HT)|].
      by apply (Hcr rec).
    + intros id r [Hr|(_ & _ & rec & Hrec & ->)]%Hnew'; [by eapply (tk_error _ HT)|].
      destruct (Hcr rec Hrec) as (_ & Hst & _). simpl. split; [by intros []|].
      intros Hs. rewrite Hs in Hst. set_solver.
  - split; simpl; [eauto using ex_le_refl|eauto using row_le_refl|].
    intros e' id r2 Hf' Hr2 He'. destruct (Hnew' _ _ Hr2) as [?|(_ & _ & rec & _ & ->)]; [eauto|].
    simpl in He'. by subst e'.
  - done.
  - intros id row [?|(? & _ & rec & ? & ->)]%Hnew'; [by left|right]. eauto 7.
  - intros ? [= <-]. split; [done|]. intros c (Hn & r & Hin & Hr & Hk & Hid)%Hc. split; [done|].
    destruct (Hrow _ Hin) as (rec & id & Hrec & ->). simpl in *. subst id. exists rec. eauto.
  - intros ? id row [= <-] Hr Hn. destruct (Hnew' _ _ Hr) as [?|(_ & ? & _)]; [congruence|done].
  - done.
Qed.

(** *** The other writes *)

Lemma createExecution_ok (qf : EngineError) (d : Db) (record : NewExecutionRecord) :
  TableOk d -> ne_status record = ex_queued ->
  TableOk (createExecution qf d record).2 /\ db_le d (createExecution qf d record).2.
Proof.
  intros HT Hq. unfold createExecution.
  destruct (executions d !! ne_id record) as [e|] eqn:He; simpl; [split; [done|reflexivity]|]. split.
  - split; simpl; try apply HT.
    + intros id e [[<- <-]|[_ H]]%lookup_insert_Some; [done|by apply (tk_exec _ HT)].
    + intros id e [[<- <-]|[_ H]]%lookup_insert_Some; [|by eapply (tk_finished _ HT)].
      simpl. rewrite Hq. split; [by intros []|by intros []].
    + intros id r Hr. apply lookup_insert_is_Some'. right. by eapply (tk_fk _ HT).
  - split; simpl; [|eauto using row_le_refl|eauto].
    intros id e1 H1. rewrite lookup_insert_ne by congruence. eauto using ex_le_refl.
Qed.

Lemma transitionStatus_ok (d : Db) (id : string) :
  TableOk d ->
  TableOk (transitionStatus d id ex_queued ex_running).2 /\ db_le d (transitionStatus d id ex_queued ex_running).2.
Proof.
  intros HT. unfold transitionStatus.
  destruct (executions d !! id) as [e|] eqn:He; simpl; [|split; [done|reflexivity]].
  case_decide as Hs; simpl; [|split; [done|reflexivity]].
  apply (update_exec_ok d id e); [done|done| |].
  - split; simpl; [done|by rewrite Hs|done].
  - simpl. rewrite (tk_finished _ HT _ _ He), Hs. naive_solver.
Qed.

Lemma finishExecution_ok (d : Db) (id : string) (status : FinishStatus) (now : Z) :
  TableOk d ->
  TableOk (finishExecution d id status now).2 /\ db_le d (finishExecution d id status now).2.
Proof.
  intros HT. unfold finishExecution.
  destruct (executions d !! id) as [e|] eqn:He; simpl; [|split; [done|reflexivity]].
  case_decide as Hs; simpl; [|split; [done|reflexivity]].
  apply (update_exec_ok d id e); [done|done| |].
  - split; simpl; [done|rewrite Hs; by destruct status|].
    rewrite (tk_finished _ HT _ _ He), Hs. by intros [|].
  - simpl. split; [by destruct status; auto|eauto].
Qed.

(** The outcome columns of a row that has not settled. *)
Lemma unsettled_no_outcome (d : Db) (id : string) (r : StepRecord) :
  TableOk d -> steps d !! id = Some r -> isSettledStatus (sr_status r) = false ->
  sr_outputs r = None /\ sr_error r = None.
Proof.
  intros HT Hr Hs. split.
  - apply eq_None_not_Some. rewrite (tk_outputs _ HT _ _ Hr). intros Hc. by rewrite Hc in Hs.
  - apply eq_None_not_Some. rewrite (tk_error _ HT _ _ Hr). intros Hc. by rewrite Hc in Hs.
Qed.

Lemma claimStep_ok (d : Db) (id : string) :
  TableOk d -> TableOk (claimStep d id).2 /\ db_le d (claimStep d id).2.
Proof.
  intros HT. unfold claimStep.
  destruct (steps d !! id) as [r|] eqn:Hr; simpl; [|split; [done|reflexivity]].
  destruct (executions d !! _) as [e|] eqn:He; simpl; [|split; [done|reflexivity]].
  case_decide as Hs; simpl; [|split; [done|reflexivity]].
  destruct (has_failed _ _) eqn:Hf; simpl; [split; [done|reflexivity]|].
  destruct (unsettled_no_outcome d id r HT Hr) as [Ho Her]; [by rewrite Hs|]. rewrite Ho, Her.
  apply (update_row_ok d id r); [done|done| | | |].
  - split; simpl; [done|done|done|by rewrite Hs|by rewrite Hs].
  - simpl. split; [by intros []|done].
  - simpl. split; [by intros []|done].
  - intros _. right. intros Hn. apply (has_failed_spec _ _ HT) in Hn. congruence.
Qed.

Lemma completeStep_ok (d : Db) (id : string) (outputs : StepSlots) :
  TableOk d -> TableOk (completeStep d id outputs).2 /\ db_le d (completeStep d id outputs).2.
Proof.
  intros HT. unfold completeStep, transition.
  destruct (steps d !! id) as [r|] eqn:Hr; simpl; [|split; [done|reflexivity]].
  case_decide as Hs; simpl; [|split; [done|reflexivity]].
  destruct (unsettled_no_outcome d id r HT Hr) as [_ Her]; [by rewrite Hs|]. rewrite Her.
  apply (update_row_ok d id r); [done|done| | | |done].
  - split; simpl; [done|done|done|by rewrite Hs|by rewrite Hs].
  - simpl. split; [done|eauto].
  - simpl. split; [by intros []|done].
Qed.

Lemma failStep_ok (d : Db) (id : string) (error : StepError) :
  TableOk d -> TableOk (failStep d id error).2 /\ db_le d (failStep d id error).2.
Proof.
  intros HT. unfold failStep.
  destruct (steps d !! id) as [r|] eqn:Hr; simpl; [|split; [done|reflexivity]].
  case_decide as Hs; simpl; [|split; [done|reflexivity]].
  destruct (unsettled_no_outcome d id r HT Hr) as [Ho _]; [by rewrite Hs|]. rewrite Ho.
  apply (update_row_ok d id r); [done|done| | | |done].
  - split; simpl; [done|done|done|by rewrite Hs|by rewrite Hs].
  - simpl. split; [by intros []|done].
  - simpl. split; [done|eauto].
Qed.

Lemma cancel_row_le (e : string) (r : StepRecord) : row_le r (cancel_row e r).
Proof.
  unfold cancel_row. case_decide as H; [|reflexivity]. destruct H as [He Hs].
  split; simpl; [done|done|done|by rewrite Hs|by rewrite Hs].
Qed.

Lemma cancelQueuedSteps_ok (d : Db) (e : string) :
  TableOk d -> TableOk (cancelQueuedSteps d e) /\ db_le d (cancelQueuedSteps d e).
Proof.
  intros HT. unfold cancelQueuedSteps.
  assert (Hl : forall id r, (cancel_row e <$> steps d) !! id = Some r -> exists r0, steps d !! id = Some r0 /\
    r = cancel_row e r0 /\ row_le r0 r).
  { intros id r. rewrite lookup_fmap, fmap_Some. intros (r0 & ? & ->). eauto using cancel_row_le. }
  split.
  - split; simpl; try apply HT.
    + intros id r (r0 & Hr & -> & Hle)%Hl. rewrite (rl_id _ _ Hle). by apply (tk_id _ HT).
    + intros id r (r0 & Hr & -> & Hle)%Hl. rewrite (rl_exec _ _ Hle). by eapply (tk_fk _ HT).
    + intros i1 i2 r1 r2 (q1 & H1 & _ & L1)%Hl (q2 & H2 & _ & L2)%Hl.
      rewrite (rl_exec _ _ L1), (rl_exec _ _ L2), (rl_key _ _ L1), (rl_key _ _ L2). by apply (tk_unique _ HT).
    + intros id r (r0 & Hr & -> & Hle)%Hl. pose proof (rl_key _ _ Hle) as Hk. injection Hk as _ ->.
      by eapply (tk_iteration _ HT).
    + intros id r (r0 & Hr & -> & _)%Hl. unfold cancel_row. case_decide as Hc; [|by eapply (tk_outputs _ HT)].
      simpl. destruct (unsettled_no_outcome d id r0 HT Hr) as [-> _]; [by destruct Hc as [_ ->]|].
      split; [by intros []|done].
    + intros id r (r0 & Hr & -> & _)%Hl. unfold cancel_row. case_decide as Hc; [|by eapply (tk_error _ HT)].
      simpl. destruct (unsettled_no_outcome d id r0 HT Hr) as [_ ->]; [by destruct Hc as [_ ->]|].
      split; [by intros []|done].
  - split; simpl; [eauto using ex_le_refl| |].
    + intros id r Hr. exists (cancel_row e r). rewrite lookup_fmap, Hr. eauto using cancel_row_le.
    + intros e' id r Hf (r0 & Hr & -> & _)%Hl He. exists r0. split; [done|].
      unfold cancel_row. by case_decide.
Qed.

(** ** Properties *)

(** [createSteps] keeps the tables well formed and inserts only what it was given: a
    row is new only if no step of the execution has failed, it is one of the records (so
    queued, skipped or completed, with outputs exactly when completed), the ids returned
    are distinct and are those of the new rows, every new row is returned, and a rejected
    call changes nothing. *)
Lemma createSteps_inserts (qf : EngineError) (d : Db) (e : string) (records : list NewStepRecord) (ids : list string) :
  TableOk d -> Created d e records (createSteps qf d e records ids).1 (createSteps qf d e records ids).2.
Proof. apply createSteps_created. Qed.

Lemma empty_TableOk : TableOk empty_db.
Proof. split; simpl; intros; by simplify_map_eq. Qed.

Lemma createSteps_inserts_witness :
  let record := {| ns_nodeId := "a"; ns_iteration := 0; ns_status := queued; ns_outputs := None |}%string in
  Created empty_db "exec" [record]
    (createSteps (HostValue "no such execution") empty_db "exec" [record] ["id1"]).1
    (createSteps (HostValue "no such execution") empty_db "exec" [record] ["id1"]).2.
Proof. apply createSteps_inserts. apply empty_TableOk. Defined.

(** [claimStep] hands out a step exactly when it is queued, its execution exists and
    no step of that execution has failed; then the row is running and nothing else
    changed.  Otherwise it answers null and changes nothing. *)
Lemma claimStep_claims (d : Db) (id : string) :
  TableOk d ->
  match (claimStep d id).1 with
  | Some step => exists row, steps d !! id = Some row /\ sr_status row = queued /\
      ~ failed_in d (sr_executionId row) /\ step = with_status row running None None /\
      claimStep d id = (Some step, set_steps d (<[id := step]> (steps d)))
  | None => (claimStep d id).2 = d /\
      forall row, steps d !! id = Some row -> sr_status row = queued -> failed_in d (sr_executionId row)
  end.
Proof.
  intros HT. unfold claimStep. destruct (steps d !! id) as [row|] eqn:Hr; [|split; [done|by intros]].
  destruct (tk_fk _ HT _ _ Hr) as [x Hx]. rewrite Hx. case_decide as Hs.
  - destruct (has_failed (steps d) (sr_executionId row)) eqn:Hf; simpl.
    + split; [done|]. intros ? [= <-] _. by apply (has_failed_spec _ _ HT).
    + exists row. split_and!; [done|done| |done|].
      * intros H%(has_failed_spec _ _ HT). congruence.
      * destruct (unsettled_no_outcome d id row HT Hr) as [-> ->]; [by rewrite Hs|done].
  - simpl. split; [done|]. by intros ? [= <-].
Qed.

(** An execution with one queued step. *)
Definition one_queued : Db :=
  let record := {| ne_id := "exec"; ne_workflowId := "wf"; ne_status := ex_queued; ne_mode := production;
    ne_graph := {| nodes := []; edges := [] |}; ne_workflow := JNull; ne_triggerOutputs := None;
    ne_callerContext := {| userId := None; projectId := None; hostMode := "manual" |} |}%string in
  (createSteps (HostValue EmptyString) (createExecution (HostValue EmptyString) empty_db record).2 "exec"
    [{| ns_nodeId := "a"; ns_iteration := 0; ns_status := queued; ns_outputs := None |}%string] ["id1"%string]).2.

Lemma one_queued_TableOk : TableOk one_queued.
Proof.
  unfold one_queued. eapply cr_table, createSteps_created. apply createExecution_ok; [apply empty_TableOk|done].
Qed.

Lemma claimStep_claims_witness :
  exists step, (claimStep one_queued "id1").1 = Some step /\ sr_status step = running /\
    exists row, steps one_queued !! "id1"%string = Some row /\ sr_status row = queued.
Proof.
  eexists. split; [vm_compute; reflexivity|]. split; [reflexivity|].
  pose proof (claimStep_claims one_queued "id1" one_queued_TableOk) as H.
  destruct ((claimStep one_queued "id1").1) eqn:Hc; [|vm_compute in Hc; discriminate].
  destruct H as (row & Hr & Hs & _). eauto.
Defined.

(** A planner that reads the summaries of [decisionKeys] decides as one that reads
    every row of the execution. *)
Lemma keyed_read_suffices (d : Db) (e : string) graph loops (settled : StepKey) (T : Terminals) :
  TableOk d ->
  decideSuccessors graph loops settled
    (loadStepSummariesByKeys d e (decisionKeys graph loops settled T)) T =
  decideSuccessors graph loops settled (all_summaries d e) T.
Proof.
  intros HT. rewrite (loadStepSummariesByKeys_restrict d HT). apply decideSuccessors_restrict.
Qed.

Lemma keyed_read_suffices_witness :
  decideSuccessors {| nodes := []; edges := [] |} [] (mkKey "a" 0)
    (loadStepSummariesByKeys empty_db "e" (decisionKeys {| nodes := []; edges := [] |} [] (mkKey "a" 0) ∅)) ∅ =
  decideSuccessors {| nodes := []; edges := [] |} [] (mkKey "a" 0) (all_summaries empty_db "e") ∅.
Proof. apply keyed_read_suffices. apply empty_TableOk. Defined.
