(* ===== verification/EngineProgram.v ===== *)
(** * Engine v2: handlers as programs

    A handler of the engine is an [async] function: it computes between its [await]s and
    reaches everything it does not own (the two stores, the queues, the lifecycle
    publisher, the response sender, the admittance gate, the host's step executor, the
    clock) through a call.  [prog A] is that shape: a result, a [throw], or a call with
    its continuation.  What a call does to the tables and what it may answer is given
    later, by a step relation in [EngineWorld] where programs interleave at their calls,
    and by a deterministic runner in [EngineRun].

    Between a call and the next nothing else runs, as in the source; the publisher and the
    response sender are called synchronously there, so giving each its own step only adds
    interleavings. *)

From stdpp Require Import base gmap strings pretty list fin_maps.
From Stdlib Require Import ZArith Lia.
From S2P Require Import Prelude.
From S2P Require Import JsCollections.
From S2P Require Import EngineTypes.
From S2P Require Import EngineGraph.
From S2P Require Import EngineLoops.
From S2P Require Import EngineSettlement.
From S2P Require Import EngineStore.

(** ** Messages, events and responses *)

(** [queue/work-queue.types.ts] *)
Inductive OrchestrationMessage :=
  | ExecutionEnqueuedEvent (executionId : string)
  | StepSettledEvent (executionId stepId : string).

Inductive StepMessage := StepReadyEvent (executionId stepId : string).

(** The identifiers every step event carries. *)
Record StepEventFields := {
  sf_executionId : string;
  sf_stepId : string;
  sf_nodeId : string;
  sf_nodeName : string;
  sf_iteration : Z;
  sf_at : Z;
}.

(** [lifecycle-events/lifecycle-event.schema.ts] *)
Inductive LifecycleEvent :=
  | ExecutionStarted (executionId workflowId : string) (mode : ExecutionMode) (hostMode : string) (at_ : Z)
  | ExecutionCompleted (executionId workflowId : string) (at_ : Z)
  | ExecutionFailed (executionId workflowId : string) (at_ : Z)
  | StepStarted (fields : StepEventFields)
  | StepCompleted (fields : StepEventFields) (outputs : StepSlots)
  | StepFailed (fields : StepEventFields).

Record LastStep := {
  ls_nodeId : string;
  ls_nodeName : string;
  ls_status : StepStatus;
  ls_outputs : option StepSlots;
  ls_error : option (string * string);
}.

(** [response-channel/execution-response.schema.ts] *)
Record EndedMessage := {
  em_executionId : string;
  em_workflowId : string;
  em_status : FinishStatus;
  em_lastStep : LastStep;
}.

(** [dependencies/external-dependencies.ts] *)
Record StepExecutionContext := {
  sc_executionId : string;
  sc_stepId : string;
  sc_workflowId : string;
  sc_mode : ExecutionMode;
  sc_iteration : Z;
  sc_callerContext : CallerContext;
}.

Record StepExecutionRequest := {
  rq_node : GraphNode;
  rq_inputs : StepSlots;
  rq_context : StepExecutionContext;
}.

(** [admittance/admittance.types.ts] *)
Inductive AdmittanceDecision := Accept | Reject (reason : string).

(** ** Programs *)

Inductive op : Type :=
  | CreateExecution (record : NewExecutionRecord)
  | LoadExecution (id : string)
  | TransitionStatus (id : string) (from to : ExecutionStatus)
  | FinishExecution (id : string) (status : FinishStatus)
  | CreateSteps (executionId : string) (records : list NewStepRecord)
  | LoadStep (id : string)
  | ClaimStep (id : string)
  | CompleteStep (id : string) (outputs : StepSlots)
  | FailStep (id : string) (error : StepError)
  | CancelQueuedSteps (executionId : string)
  | LoadStepsByKeys (executionId : string) (keys : list StepKey)
  | LoadStepSummariesByKeys (executionId : string) (keys : list StepKey)
  | LoadLatestStepSummaries (executionId : string) (nodeIds : list string)
  | CountSettledSteps (executionId : string)
  | HasFailedSteps (executionId : string)
  | PublishOrchestration (message : OrchestrationMessage)
  | PublishStep (message : StepMessage)
  | PublishEvent (event : LifecycleEvent)
  | SendResponse (response : EndedMessage)
  | EvaluateAdmittance (workflowId : string)
  | Execute (request : StepExecutionRequest)
  | Now
  | Race.

(** What a call answers. *)
Definition resp (o : op) : Type :=
  match o with
  | CreateExecution _ => unit
  | LoadExecution _ => ExecutionRecord
  | TransitionStatus _ _ _ => bool
  | FinishExecution _ _ => bool
  | CreateSteps _ _ => list CreatedStep
  | LoadStep _ => StepRecord
  | ClaimStep _ => option StepRecord
  | CompleteStep _ _ => bool
  | FailStep _ _ => bool
  | CancelQueuedSteps _ => unit
  | LoadStepsByKeys _ _ => gmap string StepRecord
  | LoadStepSummariesByKeys _ _ => Summaries
  | LoadLatestStepSummaries _ _ => gmap string StepSummary
  | CountSettledSteps _ => Z
  | HasFailedSteps _ => bool
  | PublishOrchestration _ | PublishStep _ | PublishEvent _ | SendResponse _ => unit
  | EvaluateAdmittance _ => AdmittanceDecision
  | Execute _ => StepSlots
  | Now => Z
  | Race => bool
  end.

Inductive prog (A : Type) : Type :=
  | Ret (a : A)
  | Throw (e : EngineError)
  | Call (o : op) (k : result (resp o) -> prog A).
Arguments Ret {_} _.
Arguments Throw {_} _.
Arguments Call {_} _ _.

Fixpoint prog_bind {A B} (p : prog A) (f : A -> prog B) : prog B :=
  match p with
  | Ret a => f a
  | Throw e => Throw e
  | Call o k => Call o (fun r => prog_bind (k r) f)
  end.

#[export] Instance prog_mret : MRet prog := @Ret.
#[export] Instance prog_mbind : MBind prog := fun _ _ f p => prog_bind p f.

Definition lift {A} (r : result A) : prog A :=
  match r with Ok a => Ret a | Err e => Throw e end.

(** [await f(...)]: a rejected call throws. *)
Definition call (o : op) : prog (resp o) := Call o lift.

(** [try { ... } catch (error) { ... }], as the outcome of the block. *)
Fixpoint attempt {A} (p : prog A) : prog (result A) :=
  match p with
  | Ret a => Ret (Ok a)
  | Throw e => Ret (Err e)
  | Call o k => Call o (fun r => attempt (k r))
  end.

(** [Promise.all([p, q])] of two reads: either may come first, and the first rejection is
    the outcome. *)
Definition promise_all {A B} (p : prog A) (q : prog B) : prog (A * B) :=
  b ← call Race;
  if (b : bool) then a ← p; b ← q; Ret (a, b) else b ← q; a ← p; Ret (a, b).

(** A [for ... of] loop over calls, with the loop's state. *)
Fixpoint prog_fold {S A} (f : S -> A -> prog S) (s : S) (l : list A) : prog S :=
  match l with
  | [] => Ret s
  | x :: l => s ← f s x; prog_fold f s l
  end.

(** ** The calls of a program *)

(** Every call the program can make satisfies [P]. *)
Fixpoint all_ops {A} (P : op -> Prop) (p : prog A) : Prop :=
  match p with
  | Ret _ | Throw _ => True
  | Call o k => P o /\ forall r, all_ops P (k r)
  end.

Section all_ops.
Context (P : op -> Prop).

Lemma all_ops_bind {A B} (p : prog A) (f : A -> prog B) :
  all_ops P p -> (forall a, all_ops P (f a)) -> all_ops P (p ≫= f).
Proof.
  change (p ≫= f) with (prog_bind p f).
  induction p as [a|err|o k IH]; simpl; intros H Hf; [auto|done|]. destruct H. auto.
Qed.

Lemma all_ops_attempt {A} (p : prog A) : all_ops P p -> all_ops P (attempt p).
Proof. induction p as [a|err|o k IH]; simpl; [done|done|]. intros [? ?]. auto. Qed.

Lemma all_ops_lift {A} (r : result A) : all_ops P (lift r).
Proof. by destruct r. Qed.

Lemma all_ops_call (o : op) : P o -> all_ops P (call o).
Proof. simpl. intros H. split; [done|]. intros. apply all_ops_lift. Qed.
End all_ops.

Lemma all_ops_mono {A} (P Q : op -> Prop) (p : prog A) :
  (forall o, P o -> Q o) -> all_ops P p -> all_ops Q p.
Proof. intros HPQ. induction p as [a|err|o k IH]; simpl; [done|done|]. intros [? ?]. auto. Qed.

(** Calls that read and change nothing. *)
Definition is_read (o : op) : bool :=
  match o with
  | LoadExecution _ | LoadStep _ | LoadStepsByKeys _ _ | LoadStepSummariesByKeys _ _
  | LoadLatestStepSummaries _ _ | CountSettledSteps _ | HasFailedSteps _ | EvaluateAdmittance _ | Now | Race => true
  | _ => false
  end.

Notation reads_only := (all_ops (fun o => is_read o = true)).

#[global] Arguments prog_bind : simpl never.
#[global] Arguments call : simpl never.
#[global] Arguments attempt : simpl never.
#[global] Arguments all_ops : simpl never.

(** Walks a program, call by call. *)
Ltac all_ops :=
  repeat first
    [ exact I
    | done
    | solve [eauto]
    | apply all_ops_lift
    | apply all_ops_attempt
    | apply all_ops_call; done
    | apply all_ops_bind; [|intros ?]
    | case_match ].
