(* ===== verification/EngineBatch.v ===== *)
(** * Engine v2: batch nodes

    [execution/batch-step.ts] (one pass of a batch node) and
    [execution/store-loop-reader.ts] (the two reads it makes), with
    [loadTerminalIterations] of [loop-ledger.ts].  The theorems at the end: a pass derives
    its slice from its own number, so over all passes the slices are the original list in
    order, the loop ends at the first pass past it, and that pass returns the arrivals of
    the passes before it in order. *)

From stdpp Require Import base gmap strings pretty list fin_maps.
From Stdlib Require Import ZArith Lia.
From S2P Require Import Prelude.
From S2P Require Import JsCollections.
From S2P Require Import EngineTypes.
From S2P Require Import EngineGraph.
From S2P Require Import EngineLoops.
From S2P Require Import EngineSettlement.
From S2P Require Import EngineStore.
From S2P Require Import EngineProgram.
Local Open Scope string_scope.

Definition loadTerminalIterations (executionId : string) (batchNodeIds : list string) : prog Terminals :=
  match batchNodeIds with
  | [] => Ret ∅
  | _ =>
      latest ← call (LoadLatestStepSummaries executionId batchNodeIds);
      Ret (omap (fun step => if isTerminalStep step then Some (ss_iteration step) else None)
            (latest : gmap string StepSummary))
  end.

Record LoopReader := {
  readOriginalItems : prog JsonValue;
  readArrivals : Z -> prog (list JsonValue);
}.

Definition slot (filled : Z) (value : list JsonValue) : StepSlots :=
  if decide (filled = DONE_SLOT) then [JArr value; JNull] else [JNull; JArr value].

Definition asList (value : JsonValue) (displayName : string) : result (list JsonValue) :=
  match value with
  | JNull => Ok []
  | JArr items => Ok items
  | _ => Err (UnexpectedError (displayName +:+ " holds " +:+ js_typeof value +:+
           ", and a batch node slices a list"))
  end.

(** [l.slice(from, to)] for [0 <= from <= to]. *)
Definition slice {A} (l : list A) (from to : Z) : list A :=
  take (Z.to_nat (to - from)) (drop (Z.to_nat from) l).

(** [arrivals.flatMap((arrival, index) => asList(...))], from [index]. *)
Fixpoint accumulate (arrivals : list JsonValue) (index : nat) : result (list JsonValue) :=
  match arrivals with
  | [] => Ok []
  | arrival :: arrivals =>
      l ← asList arrival ("arrival " +:+ pretty index +:+ " of the batch node");
      rest ← accumulate arrivals (S index);
      Ok (l ++ rest)%list
  end.

Definition runBatchStep (config : BatchStepConfig) (iteration : Z) (reader : LoopReader) : prog StepSlots :=
  items ← readOriginalItems reader;
  originalItems ← lift (asList items "the batch node input");
  let start := (iteration * batchSize config)%Z in
  let slice_ := slice originalItems start (start + batchSize config) in
  match slice_ with
  | _ :: _ => Ret (slot LOOP_SLOT slice_)
  | [] =>
      arrivals ← readArrivals reader iteration;
      accumulated ← lift (accumulate arrivals 0);
      match accumulated with
      | [] => Ret [JNull; JNull]
      | _ => Ret (slot DONE_SLOT accumulated)
      end
  end.

(** [Array.from({ length: iteration }, (_, index) => ({ nodeId, iteration: index }))]. *)
Definition arrival_keys (from : string) (iteration : Z) : list StepKey :=
  map (mkKey from) (seqZ 0 iteration).

(** [keys.map((key) => ...)]: the value each key's row delivers. *)
Fixpoint arrival_values (loop : WorkflowLoop) (backEdge : GraphEdge) (rows : gmap string StepRecord)
    (keys : list StepKey) : result (list JsonValue) :=
  match keys with
  | [] => Ok []
  | key :: keys =>
      match rows !! stepKeyId key with
      | None => Err (UnexpectedError ("batch node " +:+ batchNodeId loop +:+ " reads " +:+ from backEdge +:+
          " at iteration " +:+ pretty (iteration key) +:+ ", which has no step"))
      | Some step =>
          rest ← arrival_values loop backEdge rows keys;
          Ok (slot_value (sr_outputs step) (outputIndex backEdge) :: rest)
      end
  end.

Definition createStoreLoopReader (executionId : string) (loops : list WorkflowLoop) (loop : WorkflowLoop)
    (terminalIterations : Terminals) : result LoopReader :=
  if decide (1 < length (entryEdges loop) \/ 1 < length (backEdges loop)) then
    Err (UnexpectedError ("batch node " +:+ batchNodeId loop +:+ " has " +:+
      pretty (length (entryEdges loop)) +:+ " entry edges and " +:+ pretty (length (backEdges loop)) +:+
      " back-edges; validated loops have at most one of each"))
  else
    Ok {|
      readOriginalItems :=
        match head (entryEdges loop) with
        | None => Ret JNull
        | Some entryEdge =>
            match sourceRow entryEdge (classifyEdge entryEdge loops) (mkKey (batchNodeId loop) 0)
                    (terminalIterations !! from entryEdge) with
            | Row key =>
                steps ← call (LoadStepsByKeys executionId [key]);
                match (steps : gmap string StepRecord) !! stepKeyId key with
                | None => Throw (UnexpectedError ("batch node " +:+ batchNodeId loop +:+ " reads " +:+
                    from entryEdge +:+ " at iteration " +:+ pretty (iteration key) +:+ ", which has no step"))
                | Some step => Ret (slot_value (sr_outputs step) (outputIndex entryEdge))
                end
            | _ => Throw (UnexpectedError ("batch node " +:+ batchNodeId loop +:+ " reads " +:+
                from entryEdge +:+ ", which has no step to read"))
            end
        end;
      readArrivals := fun iteration =>
        match head (backEdges loop) with
        | None => Ret []
        | Some backEdge =>
            if decide (iteration = 0%Z) then Ret []
            else
              let keys := arrival_keys (from backEdge) iteration in
              steps ← call (LoadStepsByKeys executionId keys);
              lift (arrival_values loop backEdge (steps : gmap string StepRecord) keys)
        end;
    |}.
Local Close Scope string_scope.

(** ** The passes of a loop *)

(** The reference: a list cut into runs of [b]. *)
Fixpoint chunks {A} (fuel b : nat) (l : list A) : list (list A) :=
  match fuel, l with
  | S fuel, _ :: _ => take b l :: chunks fuel b (drop b l)
  | _, _ => []
  end.

Lemma chunks_concat {A} (fuel b : nat) (l : list A) :
  0 < b -> length l <= fuel -> concat (chunks fuel b l) = l.
Proof.
  intros Hb. revert l. induction fuel as [|fuel IH]; intros [|x l] Hl; simpl in *; try done; [lia|].
  rewrite IH; [|rewrite length_drop; simpl; lia]. by apply (take_drop b (x :: l)).
Qed.

Lemma chunks_drop {A} (fuel b : nat) (l : list A) (i : nat) :
  0 < b -> length l <= fuel ->
  chunks fuel b l !! i = if decide (i * b < length l) then Some (take b (drop (i * b) l)) else None.
Proof.
  intros Hb. revert l i. induction fuel as [|fuel IH]; intros [|x l] i Hl.
  1, 3: cbn [chunks]; by rewrite lookup_nil, decide_False by (simpl; lia).
  { simpl in Hl. lia. }
  destruct i as [|i].
  { rewrite decide_True by (simpl; lia). by rewrite drop_0. }
  cbn [chunks lookup list_lookup]. rewrite IH by (rewrite length_drop; simpl in *; lia).
  rewrite length_drop, drop_drop. replace (b + i * b) with (S i * b) by lia.
  repeat case_decide; try done; lia.
Qed.

Lemma chunks_nonempty {A} (fuel b : nat) (l c : list A) : 0 < b -> c ∈ chunks fuel b l -> c <> [].
Proof.
  intros Hb. revert l. induction fuel as [|fuel IH]; intros [|x l]; simpl; try set_solver.
  intros [->|Hc]%elem_of_cons; [|by eapply IH]. destruct b; [lia|done].
Qed.

Lemma slice_chunk {A} (l : list A) (i b : nat) :
  slice l (Z.of_nat i * Z.of_nat b) (Z.of_nat i * Z.of_nat b + Z.of_nat b) = take b (drop (i * b) l).
Proof. unfold slice. f_equal; [lia|]. f_equal. lia. Qed.

(** The reader over a list that came in and the arrivals so far. *)
Definition pure_reader (items : list JsonValue) (arrivals : list JsonValue) : LoopReader := {|
  readOriginalItems := Ret (JArr items);
  readArrivals := fun iteration => Ret (take (Z.to_nat iteration) arrivals);
|}.

(** The passes of a loop whose body answers [body] on the slice it is handed: the pass
    that ended the loop, and its outputs. *)
Fixpoint drive (config : BatchStepConfig) (items : list JsonValue) (body : list JsonValue -> list JsonValue)
    (fuel : nat) (pass : nat) (arrivals : list JsonValue) : option (nat * StepSlots) :=
  match fuel with
  | O => None
  | S fuel =>
      match runBatchStep config (Z.of_nat pass) (pure_reader items arrivals) with
      | Ret outputs =>
          match slot_value (Some outputs) LOOP_SLOT with
          | JArr handed => drive config items body fuel (S pass) (arrivals ++ [JArr (body handed)])
          | _ => Some (pass, outputs)
          end
      | _ => None
      end
  end.

Lemma accumulate_lists (ls : list (list JsonValue)) (i : nat) :
  accumulate (map JArr ls) i = Ok (concat ls).
Proof. revert i. induction ls as [|l ls IH]; intros i; simpl; [done|]. by rewrite IH. Qed.

Lemma runBatchStep_pass (b : nat) (items : list JsonValue) (arrivals : list (list JsonValue)) (pass : nat) :
  0 < b ->
  runBatchStep {| batchSize := Z.of_nat b |} (Z.of_nat pass) (pure_reader items (map JArr arrivals)) =
  match chunks (length items) b items !! pass with
  | Some c => Ret (slot LOOP_SLOT c)
  | None =>
      match concat (take pass arrivals) with
      | [] => Ret [JNull; JNull]
      | acc => Ret (slot DONE_SLOT acc)
      end
  end.
Proof.
  intros Hb. unfold runBatchStep, mbind, prog_mbind, prog_bind. simpl. rewrite slice_chunk, chunks_drop by lia.
  case_decide as Hlt.
  - destruct (take b (drop (pass * b) items)) eqn:Ht; [|done].
    apply (f_equal length) in Ht. rewrite length_take, length_drop in Ht. simpl in Ht. lia.
  - rewrite drop_ge by lia. rewrite take_nil. rewrite Nat2Z.id.
    change (take pass (map JArr arrivals)) with (take pass (JArr <$> arrivals)). rewrite <-fmap_take.
    change (JArr <$> take pass arrivals) with (map JArr (take pass arrivals)). rewrite accumulate_lists. simpl.
    by destruct (concat (take pass arrivals)).
Qed.

Lemma drive_from (b : nat) (items : list JsonValue) (body : list JsonValue -> list JsonValue) (n fuel pass : nat) :
  0 < b ->
  let cs := chunks (length items) b items in
  length cs = n + pass -> n < fuel ->
  drive {| batchSize := Z.of_nat b |} items body fuel pass (map JArr (map body (take pass cs))) =
  Some (length cs, match concat (map body cs) with
                   | [] => [JNull; JNull]
                   | acc => slot DONE_SLOT acc
                   end).
Proof.
  intros Hb cs. revert fuel pass. induction n as [|n IH]; intros fuel pass Hlen Hfuel.
  all: destruct fuel as [|fuel]; [lia|]; cbn [drive]; rewrite runBatchStep_pass by done; fold cs.
  - rewrite lookup_ge_None_2 by lia. rewrite (take_ge cs) by lia.
    rewrite take_ge by (rewrite length_map; lia). destruct (concat (map body cs)) eqn:Hc; simpl; (do 2 f_equal; lia).
  - destruct (lookup_lt_is_Some_2 cs pass ltac:(lia)) as [c Hc]. rewrite Hc. simpl.
    specialize (IH fuel (S pass) ltac:(lia) ltac:(lia)).
    rewrite (take_S_r _ _ _ Hc), !map_app in IH. exact IH.
Qed.

(** ** The reads of a batch node *)

Lemma reads_loadTerminalIterations (e : string) (ids : list string) : reads_only (loadTerminalIterations e ids).
Proof. unfold loadTerminalIterations. destruct ids; [done|]. apply all_ops_bind; [by apply all_ops_call|done]. Qed.

Lemma reads_createStoreLoopReader e loops loop (T : Terminals) reader :
  createStoreLoopReader e loops loop T = Ok reader ->
  reads_only (readOriginalItems reader) /\ forall i, reads_only (readArrivals reader i).
Proof.
  unfold createStoreLoopReader. case_decide; [done|]. intros [= <-].
  cbn [readOriginalItems readArrivals]. split; [|intros i].
  - destruct (head (entryEdges loop)); [|done]. destruct (sourceRow _ _ _ _); try done.
    apply all_ops_bind; [by apply all_ops_call|]. intros m. by destruct (_ !! _).
  - destruct (head (backEdges loop)); [|done]. case_decide; [done|].
    apply all_ops_bind; [by apply all_ops_call|]. intros m. apply all_ops_lift.
Qed.

Lemma reads_runBatchStep (config : BatchStepConfig) (i : Z) (reader : LoopReader) :
  reads_only (readOriginalItems reader) -> (forall i, reads_only (readArrivals reader i)) ->
  reads_only (runBatchStep config i reader).
Proof.
  intros Ho Ha. unfold runBatchStep. apply all_ops_bind; [done|intros items].
  apply all_ops_bind; [apply all_ops_lift|intros originals]. destruct (slice _ _ _); [|done].
  apply all_ops_bind; [done|intros arrivals]. apply all_ops_bind; [apply all_ops_lift|intros acc]. by destruct acc.
Qed.

(** ** Properties *)

(** A batch loop works through its list: with a body that answers a list, the passes
    hand out the list in consecutive slices of the batch size (the last may be shorter),
    the loop ends after exactly as many passes as there are slices, and the pass that
    ends it returns, on the done slot, the body's answers concatenated in order, or
    nothing on either slot when there are none. *)
Lemma batch_loop_maps_slices (b : nat) (items : list JsonValue) (body : list JsonValue -> list JsonValue) :
  0 < b ->
  let slices := chunks (length items) b items in
  concat slices = items /\
  drive {| batchSize := Z.of_nat b |} items body (S (length slices)) 0 [] =
  Some (length slices, match concat (map body slices) with
                       | [] => [JNull; JNull]
                       | acc => slot DONE_SLOT acc
                       end).
Proof.
  intros Hb slices. split; [by apply chunks_concat|].
  apply (drive_from b items body (length slices) _ 0); subst slices; lia.
Qed.

Lemma batch_loop_maps_slices_witness :
  drive {| batchSize := 2 |} [JNum 1; JNum 2; JNum 3] (fun l => [JArr l]) 3 0 [] =
  Some (2, [JArr [JArr [JNum 1; JNum 2]; JArr [JNum 3]]; JNull]).
Proof.
  apply (batch_loop_maps_slices 2 [JNum 1; JNum 2; JNum 3] (fun l => [JArr l])). lia.
Defined.
