(* ===== verification/EngineHandlers.v ===== *)
(** * Engine v2: the services and handlers

    [execution/start-execution.service.ts], [execution-start-handler.ts],
    [step-settled-handler.ts], [step-ready-handler.ts] and the two workers, each method as
    a program over the calls of [EngineProgram].  The constructor arguments are either
    calls (the stores, queues, publisher and sender) or the section's parameters: whether
    the host supplied a v1 executor, and the stack trace of an error the engine itself
    threw. *)

From stdpp Require Import base gmap strings pretty list fin_maps.
From Stdlib Require Import ZArith Lia.
From S2P Require Import Prelude.
From S2P Require Import JsCollections.
From S2P Require Import EngineTypes.
From S2P Require Import EngineGraph.
From S2P Require Import EngineLoops.
From S2P Require Import EngineSettlement.
From S2P Require Import EngineStore.
From S2P Require Import EngineProgram.
From S2P Require Import EngineBatch.
Local Open Scope string_scope.

(** ** [StartExecutionService] *)

Record StartExecutionRequest := {
  rs_workflowId : string;
  rs_graph : WorkflowGraph;
  rs_workflow : JsonValue;
  rs_triggerOutputs : option StepSlots;
  rs_mode : option ExecutionMode;
  rs_callerContext : CallerContext;
  rs_executionId : string;
}.

Definition start (request : StartExecutionRequest) : prog string :=
  lift (validateExecutableGraph (rs_graph request)) ;;
  decision ← call (EvaluateAdmittance (rs_workflowId request));
  match decision : AdmittanceDecision with
  | Reject reason => Throw (AdmittanceRejectedError reason)
  | Accept =>
      call (CreateExecution {|
        ne_id := rs_executionId request;
        ne_workflowId := rs_workflowId request;
        ne_status := ex_queued;
        ne_mode := default production (rs_mode request);
        ne_graph := rs_graph request;
        ne_workflow := rs_workflow request;
        ne_triggerOutputs := rs_triggerOutputs request;
        ne_callerContext := rs_callerContext request;
      |}) ;;
      call (PublishOrchestration (ExecutionEnqueuedEvent (rs_executionId request))) ;;
      Ret (rs_executionId request)
  end.

(** ** [ExecutionStartHandler] *)

Definition start_handle (executionId : string) : prog unit :=
  claimed ← call (TransitionStatus executionId ex_queued ex_running);
  if negb claimed then Ret tt
  else
    execution ← call (LoadExecution executionId);
    now ← call Now;
    call (PublishEvent (ExecutionStarted (er_id execution) (er_workflowId execution) (er_mode execution)
            (hostMode (er_callerContext execution)) now)) ;;
    match findTriggerNode (er_graph execution) with
    | None => Throw (UnexpectedError ("Execution " +:+ executionId +:+ " has no trigger node in its graph"))
    | Some triggerNode =>
        created ← call (CreateSteps executionId [{|
          ns_nodeId := gn_id triggerNode;
          ns_iteration := 0;
          ns_status := completed;
          ns_outputs := Some (default DEFAULT_TRIGGER_OUTPUTS (er_triggerOutputs execution));
        |}]);
        match head created with
        | None => Throw (UnexpectedError ("Trigger step for execution " +:+ executionId +:+
            " already existed despite the claim"))
        | Some triggerStep =>
            call (PublishOrchestration (StepSettledEvent executionId (cs_id triggerStep)))
        end
    end.

(** ** [StepSettledHandler] *)

Definition announceEnd (execution : ExecutionRecord) (step : StepRecord) (node : GraphNode)
    (status : FinishStatus) : prog unit :=
  if negb (isSettledStatus (sr_status step)) then
    Throw (UnexpectedError ("Step " +:+ sr_nodeId step +:+ " announced its end from status '" +:+
      status_name (sr_status step) +:+ "'"))
  else
    call (SendResponse {|
      em_executionId := er_id execution;
      em_workflowId := er_workflowId execution;
      em_status := status;
      em_lastStep := {|
        ls_nodeId := sr_nodeId step;
        ls_nodeName := gn_name node;
        ls_status := sr_status step;
        ls_outputs := sr_outputs step;
        ls_error := (fun e => (err_name e, err_message e)) <$> sr_error step;
      |};
    |}).

Definition failExecution (execution : ExecutionRecord) (step : StepRecord) (node : GraphNode) : prog unit :=
  finished ← call (FinishExecution (er_id execution) fin_failed);
  (if (finished : bool) then
     now ← call Now;
     call (PublishEvent (ExecutionFailed (er_id execution) (er_workflowId execution) now)) ;;
     announceEnd execution step node fin_failed
   else Ret tt) ;;
  call (CancelQueuedSteps (er_id execution)).

Definition queued_record (key : StepKey) : NewStepRecord :=
  {| ns_nodeId := nodeId key; ns_iteration := iteration key; ns_status := queued; ns_outputs := None |}.
Definition skipped_record (key : StepKey) : NewStepRecord :=
  {| ns_nodeId := nodeId key; ns_iteration := iteration key; ns_status := skipped; ns_outputs := None |}.

Definition announceCreatedSteps (executionId : string) (created : list CreatedStep)
    (queuedKeys : list string) : prog Z :=
  prog_fold (fun queued c =>
    if bool_decide (stepKeyId (cs_key c) ∈ queuedKeys) then
      call (PublishStep (StepReadyEvent executionId (cs_id c))) ;; Ret (queued + 1)%Z
    else
      call (PublishOrchestration (StepSettledEvent executionId (cs_id c))) ;; Ret queued) 0%Z created.

Definition planSuccessors (execution : ExecutionRecord) (step : StepRecord) : prog Z :=
  let graph := er_graph execution in
  let loops := deriveLoops graph in
  let candidates := getSuccessorNodeIds graph (sr_nodeId step) in
  terminalIterations ← loadTerminalIterations (er_id execution) (exitSourcesInto graph loops candidates);
  steps ← call (LoadStepSummariesByKeys (er_id execution)
                  (decisionKeys graph loops (sr_key step) terminalIterations));
  let decisions := decideSuccessors graph loops (sr_key step) steps terminalIterations in
  match toQueue decisions, toSkip decisions with
  | [], [] => Ret 0%Z
  | _, _ =>
      created ← call (CreateSteps (er_id execution)
        (map queued_record (toQueue decisions) ++ map skipped_record (toSkip decisions))%list);
      announceCreatedSteps (er_id execution) created (set_of_list (map stepKeyId (toQueue decisions)))
  end.

Definition reachableNodeIds (execution : ExecutionRecord) : result (list string) :=
  match findTriggerNode (er_graph execution) with
  | None => Err (UnexpectedError ("Execution " +:+ er_id execution +:+ " has no trigger node in its graph"))
  | Some triggerNode =>
      Ok (set_of_list (gn_id triggerNode :: getDescendantNodeIds (er_graph execution) (gn_id triggerNode)))
  end.

Definition finishExecutionIfDone (execution : ExecutionRecord) (step : StepRecord) (node : GraphNode) : prog unit :=
  reachable ← lift (reachableNodeIds execution);
  let loops := deriveLoops (er_graph execution) in
  terminalIterations ← loadTerminalIterations (er_id execution)
    (map batchNodeId (arr_filter (fun loop => bool_decide (batchNodeId loop ∈ reachable)) loops));
  match countExpectedSettledSteps loops reachable terminalIterations with
  | None => Ret tt
  | Some expected =>
      settled ← call (CountSettledSteps (er_id execution));
      if (settled <? expected)%Z then Ret tt
      else
        failed ← call (HasFailedSteps (er_id execution));
        let status := if (failed : bool) then fin_failed else fin_completed in
        finished ← call (FinishExecution (er_id execution) status);
        if (finished : bool) then
          now ← call Now;
          call (PublishEvent (if (failed : bool)
                  then ExecutionFailed (er_id execution) (er_workflowId execution) now
                  else ExecutionCompleted (er_id execution) (er_workflowId execution) now)) ;;
          announceEnd execution step node status
        else Ret tt
  end.

Definition settled_handle (executionId stepId : string) : prog unit :=
  '(step, execution) ← promise_all (call (LoadStep stepId)) (call (LoadExecution executionId));
  node ← lift (validateStepContext step execution);
  if decide (sr_status step = failed) then failExecution execution step node
  else if negb (bool_decide (er_status execution = ex_running)) then Ret tt
  else if bool_decide (sr_status step = completed) || bool_decide (sr_status step = skipped) then
    failed ← call (HasFailedSteps (er_id execution));
    if (failed : bool) then failExecution execution step node
    else
      queued ← planSuccessors execution step;
      if (0 <? queued)%Z then Ret tt else finishExecutionIfDone execution step node
  else finishExecutionIfDone execution step node.

(** ** [StepReadyHandler] *)

(** [reads]: the row each edge reads, one edge after the other. *)
Fixpoint input_reads (edges : list GraphEdge) (loops : list WorkflowLoop) (step : StepRecord)
    (terminalIterations : Terminals) : result (list (GraphEdge * StepKey)) :=
  match edges with
  | [] => Ok []
  | edge :: edges =>
      match sourceRow edge (classifyEdge edge loops) (sr_key step) (terminalIterations !! from edge) with
      | Row key => rest ← input_reads edges loops step terminalIterations; Ok ((edge, key) :: rest)
      | RowNone => input_reads edges loops step terminalIterations
      | RowPending => Err (UnexpectedError ("step " +:+ sr_id step +:+ " reads node " +:+ from edge +:+
          " across a loop that has not ended"))
      end
  end.

(** The check that no two reads fill one input slot. *)
Fixpoint check_slots_distinct (reads : list (GraphEdge * StepKey)) (step : StepRecord)
    (filledSlots : list Z) : result unit :=
  match reads with
  | [] => Ok tt
  | (edge, _) :: reads =>
      if decide (inputIndex edge ∈ filledSlots) then
        Err (UnexpectedError ("step " +:+ sr_id step +:+ " runs node " +:+ sr_nodeId step +:+
          ", which has more than one edge into input slot " +:+ pretty (inputIndex edge) +:+
          "; validated graphs have at most one edge per input slot"))
      else check_slots_distinct reads step (set_add filledSlots (inputIndex edge))
  end.

Definition resolveInputReads (incomingEdges : list GraphEdge) (loops : list WorkflowLoop) (step : StepRecord)
    (terminalIterations : Terminals) : result (list (GraphEdge * StepKey)) :=
  reads ← input_reads incomingEdges loops step terminalIterations;
  match reads with
  | [] => Err (UnexpectedError ("step " +:+ sr_id step +:+ " runs node " +:+ sr_nodeId step +:+
      ", which no edge reaches at iteration " +:+ pretty (sr_iteration step)))
  | _ => check_slots_distinct reads step [] ≫= fun _ => Ok reads
  end.

Definition readEdgeValue (edge : GraphEdge) (source : StepKey) (step : StepRecord)
    (rows : gmap string StepRecord) : result JsonValue :=
  let unsettled := Err (UnexpectedError ("step " +:+ sr_id step +:+ " reads node " +:+ from edge +:+
    ", whose step has not settled")) in
  match rows !! stepKeyId source with
  | None => unsettled
  | Some row =>
      if isSettledStatus (sr_status row) then
        if decide (sr_status row = completed) then Ok (slot_value (sr_outputs row) (outputIndex edge))
        else Ok JNull
      else unsettled
  end.

(** [Array.from({ length: Math.max(...) + 1 }, () => null)]. *)
Definition empty_inputs (reads : list (GraphEdge * StepKey)) : StepSlots :=
  match map (fun r => inputIndex r.1) reads with
  | [] => []
  | i :: rest => replicate (Z.to_nat (foldl Z.max i rest + 1)) JNull
  end.

(** [inputs[i] = v] within the array. *)
Definition set_slot (inputs : StepSlots) (i : Z) (v : JsonValue) : StepSlots :=
  if decide (0 <= i)%Z then <[Z.to_nat i := v]> inputs else inputs.

Fixpoint fill_inputs (inputs : StepSlots) (reads : list (GraphEdge * StepKey)) (step : StepRecord)
    (rows : gmap string StepRecord) : result StepSlots :=
  match reads with
  | [] => Ok inputs
  | (edge, key) :: reads =>
      v ← readEdgeValue edge key step rows;
      fill_inputs (set_slot inputs (inputIndex edge) v) reads step rows
  end.

(** [[...new Map(reads.map(({ key }) => [stepKeyId(key), key])).values()]]. *)
Definition distinct_keys (reads : list (GraphEdge * StepKey)) : list StepKey :=
  (foldl (fun m r => map_set (stepKeyId r.2) r.2 m) [] reads).*2.

Definition gatherInputs (execution : ExecutionRecord) (step : StepRecord) : prog StepSlots :=
  let graph := er_graph execution in
  match incoming graph (sr_nodeId step) with
  | [] => Throw (UnexpectedError ("step " +:+ sr_id step +:+ " runs node " +:+ sr_nodeId step +:+
      ", which has no predecessor in the execution graph"))
  | incomingEdges =>
      let loops := deriveLoops graph in
      terminalIterations ← loadTerminalIterations (er_id execution) (exitSourcesInto graph loops [sr_nodeId step]);
      reads ← lift (resolveInputReads incomingEdges loops step terminalIterations);
      rows ← call (LoadStepsByKeys (er_id execution) (distinct_keys reads));
      lift (fill_inputs (empty_inputs reads) reads step rows)
  end.

Definition runStep (step : StepRecord) (execution : ExecutionRecord) (node : GraphNode)
    (inputs : StepSlots) : prog StepSlots :=
  call (Execute {|
    rq_node := node;
    rq_inputs := inputs;
    rq_context := {|
      sc_executionId := er_id execution;
      sc_stepId := sr_id step;
      sc_workflowId := er_workflowId execution;
      sc_mode := er_mode execution;
      sc_iteration := sr_iteration step;
      sc_callerContext := er_callerContext execution;
    |};
  |}).

Definition runBatchNode (step : StepRecord) (execution : ExecutionRecord) (node : GraphNode) : prog StepSlots :=
  match isBatchStepConfig (gn_config node) with
  | None => Throw (UnexpectedError ("step " +:+ sr_id step +:+ " runs batch node " +:+ sr_nodeId step +:+
      ", whose config has no whole batch size of at least 1"))
  | Some config =>
      let loops := deriveLoops (er_graph execution) in
      match arr_find (fun l => bool_decide (batchNodeId l = sr_nodeId step)) loops with
      | None => Throw (UnexpectedError ("step " +:+ sr_id step +:+ " runs batch node " +:+ sr_nodeId step +:+
          ", which heads no loop in the execution graph"))
      | Some loop =>
          terminalIterations ← loadTerminalIterations (er_id execution)
            (exitSourcesInto (er_graph execution) loops [sr_nodeId step]);
          reader ← lift (createStoreLoopReader (er_id execution) loops loop terminalIterations);
          runBatchStep config (sr_iteration step) reader
      end
  end.

Definition stepEventFields (step : StepRecord) (node : GraphNode) : prog StepEventFields :=
  now ← call Now;
  Ret {| sf_executionId := sr_executionId step; sf_stepId := sr_id step; sf_nodeId := sr_nodeId step;
         sf_nodeName := gn_name node; sf_iteration := sr_iteration step; sf_at := now |}.

Section ready.
(** Whether the host supplied [dependencies.v1StepExecutor]; the stack of an engine error. *)
Context (v1StepExecutor : bool) (stack_of : EngineError -> option string).

Definition toStepError (error : EngineError) : StepError :=
  match error with
  | GraphValidationError m =>
      {| err_name := "GraphValidationError"; err_message := m; err_stack := stack_of error |}
  | UnimplementedError m => {| err_name := "UnimplementedError"; err_message := m; err_stack := stack_of error |}
  | UnexpectedError m => {| err_name := "UnexpectedError"; err_message := m; err_stack := stack_of error |}
  | StepNotFoundError id =>
      {| err_name := "StepNotFoundError"; err_message := "Step not found: " +:+ id; err_stack := stack_of error |}
  | ExecutionNotFoundError id =>
      {| err_name := "ExecutionNotFoundError"; err_message := "Execution not found: " +:+ id;
         err_stack := stack_of error |}
  | AdmittanceRejectedError reason =>
      {| err_name := "AdmittanceRejectedError"; err_message := "Execution admittance rejected: " +:+ reason;
         err_stack := stack_of error |}
  | HostError name message stack => {| err_name := name; err_message := message; err_stack := stack |}
  | HostValue text => {| err_name := "Error"; err_message := text; err_stack := None |}
  end.

(** [executorFor]: throws, or the host's executor. *)
Definition executorFor (step : StepRecord) (node : GraphNode) : result unit :=
  if decide (gn_type node = v1_node) then
    if v1StepExecutor then Ok tt
    else Err (UnimplementedError ("step " +:+ sr_id step +:+
      ": no executor configured for v1-node steps; the host must supply one in integrated mode"))
  else Err (UnimplementedError ("step " +:+ sr_id step +:+ ": no executor for step type " +:+
      step_type_name (gn_type node))).

Definition ready_handle (executionId stepId : string) : prog unit :=
  claimed ← call (ClaimStep stepId);
  match claimed : option StepRecord with
  | None => Ret tt
  | Some step =>
      execution ← call (LoadExecution executionId);
      node ← lift (validateStepContext step execution);
      (if decide (gn_type node = batch) then Ret tt else lift (executorFor step node)) ;;
      if negb (bool_decide (er_status execution = ex_running)) then Ret tt
      else
        fields ← stepEventFields step node;
        call (PublishEvent (StepStarted fields)) ;;
        inputs ← gatherInputs execution step;
        run ← attempt (if decide (gn_type node = batch) then runBatchNode step execution node
                       else runStep step execution node inputs);
        recorded ← match run with
                   | Ok outputs => call (CompleteStep stepId outputs)
                   | Err error => call (FailStep stepId (toStepError error))
                   end;
        if negb recorded then Ret tt
        else
          fields ← stepEventFields step node;
          call (PublishEvent (match run with
                              | Ok outputs => StepCompleted fields outputs
                              | Err _ => StepFailed fields
                              end)) ;;
          call (PublishOrchestration (StepSettledEvent executionId stepId))
  end.

(** The workers route each message to its handler. *)
Definition step_worker (message : StepMessage) : prog unit :=
  match message with StepReadyEvent executionId stepId => ready_handle executionId stepId end.
End ready.

Definition orchestration_worker (message : OrchestrationMessage) : prog unit :=
  match message with
  | ExecutionEnqueuedEvent executionId => start_handle executionId
  | StepSettledEvent executionId stepId => settled_handle executionId stepId
  end.
Local Close Scope string_scope.

(** ** The parts of the ready handler that only read *)

Lemma reads_gatherInputs (execution : ExecutionRecord) (step : StepRecord) : reads_only (gatherInputs execution step).
Proof.
  unfold gatherInputs. destruct (incoming _ _); [done|].
  apply all_ops_bind; [apply reads_loadTerminalIterations|intros T]. all_ops.
Qed.

Lemma reads_runBatchNode (step : StepRecord) (execution : ExecutionRecord) (node : GraphNode) :
  reads_only (runBatchNode step execution node).
Proof.
  unfold runBatchNode. destruct (isBatchStepConfig _) as [config|]; [|done]. destruct (arr_find _ _); [|done].
  apply all_ops_bind; [apply reads_loadTerminalIterations|intros T].
  destruct (createStoreLoopReader _ _ _ _) as [reader|err] eqn:Hr; [|done].
  apply reads_createStoreLoopReader in Hr as [Ho Ha]. by apply reads_runBatchStep.
Qed.

Lemma reads_stepEventFields (step : StepRecord) (node : GraphNode) : reads_only (stepEventFields step node).
Proof. unfold stepEventFields. all_ops. Qed.
