(* ===== verification/EngineWorld.v ===== *)
(** * Engine v2: the running engine

    Any number of handlers at work at once, on any number of workers, over one database.
    A world is the tables, the calls that took effect so far, and the programs still
    running.  A step starts a request, delivers a message that was published (any number
    of times, in any order), answers one call of one program, or drops a program (it
    finished, or its worker crashed).  A call may also fail, before or after taking
    effect.

    [Inv] is what holds of the tables in every reachable world: the tables are well
    formed, and of every execution the ledger of [EnginePlan] holds, every row's fate was
    decided on settled rows, and its recorded outcome is the true one.  A program is
    [safe] when every call it makes, whatever the other programs do in between, is one
    that keeps [Inv]. *)

From stdpp Require Import base gmap strings pretty list fin_maps relations.
From Stdlib Require Import ZArith Lia.
From S2P Require Import Prelude.
From S2P Require Import JsCollections.
From S2P Require Import EngineTypes.
From S2P Require Import EngineGraph.
From S2P Require Import EngineScc.
From S2P Require Import EngineLoops.
From S2P Require Import EngineSettlement.
From S2P Require Import EnginePlan.
From S2P Require Import EngineStore.
From S2P Require Import EngineProgram.
From S2P Require Import EngineBatch.
From S2P Require Import EngineHandlers.

(** ** What a call does to the tables and may answer *)

Definition op_db (o : op) : Db -> result (resp o) -> Db -> Prop :=
  match o as o return Db -> result (resp o) -> Db -> Prop with
  | CreateExecution record => fun d r d' => exists qf, (r, d') = createExecution qf d record
  | LoadExecution id => fun d r d' => r = loadExecution d id /\ d' = d
  | TransitionStatus id from to => fun d r d' =>
      r = Ok (transitionStatus d id from to).1 /\ d' = (transitionStatus d id from to).2
  | FinishExecution id status => fun d r d' => exists now,
      r = Ok (finishExecution d id status now).1 /\ d' = (finishExecution d id status now).2
  | CreateSteps e records => fun d r d' => exists qf ids,
      length ids = length records /\ (r, d') = createSteps qf d e records ids
  | LoadStep id => fun d r d' => r = loadStep d id /\ d' = d
  | ClaimStep id => fun d r d' => r = Ok (claimStep d id).1 /\ d' = (claimStep d id).2
  | CompleteStep id outputs => fun d r d' => r = Ok (completeStep d id outputs).1 /\ d' = (completeStep d id outputs).2
  | FailStep id error => fun d r d' => r = Ok (failStep d id error).1 /\ d' = (failStep d id error).2
  | CancelQueuedSteps e => fun d r d' => r = Ok tt /\ d' = cancelQueuedSteps d e
  | LoadStepsByKeys e keys => fun d r d' => r = Ok (loadStepsByKeys d e keys) /\ d' = d
  | LoadStepSummariesByKeys e keys => fun d r d' => r = Ok (loadStepSummariesByKeys d e keys) /\ d' = d
  | LoadLatestStepSummaries e ids => fun d r d' => r = Ok (loadLatestStepSummaries d e ids) /\ d' = d
  | CountSettledSteps e => fun d r d' => r = Ok (countSettledSteps d e) /\ d' = d
  | HasFailedSteps e => fun d r d' => r = Ok (hasFailedSteps d e) /\ d' = d
  | PublishOrchestration _ | PublishStep _ | PublishEvent _ | SendResponse _ => fun d r d' => r = Ok tt /\ d' = d
  | EvaluateAdmittance _ => fun d r d' => d' = d
  | Execute _ => fun d r d' => d' = d
  | Now => fun d r d' => (exists now, r = Ok now) /\ d' = d
  | Race => fun d r d' => (exists b, r = Ok b) /\ d' = d
  end.

(** A call that took effect may still fail to answer (a lost connection). *)
Definition effect (o : op) (d : Db) (r : result (resp o)) (d' : Db) : Prop :=
  op_db o d r d' \/ exists r' err, r = Err err /\ op_db o d r' d'.

(** ** Worlds *)

Record World := {
  w_db : Db;
  (* the calls that took effect, oldest first *)
  w_trace : list op;
  w_threads : list (prog unit);
}.

Section world.
Context (v1StepExecutor : bool) (stack_of : EngineError -> option string).

Inductive wstep : World -> World -> Prop :=
  | ws_request d tr ps request :
      wstep (Build_World d tr ps) (Build_World d tr (ps ++ [start request ;; Ret tt]))
  | ws_orchestration d tr ps message :
      PublishOrchestration message ∈ tr ->
      wstep (Build_World d tr ps) (Build_World d tr (ps ++ [orchestration_worker message]))
  | ws_step d tr ps message :
      PublishStep message ∈ tr ->
      wstep (Build_World d tr ps) (Build_World d tr (ps ++ [step_worker v1StepExecutor stack_of message]))
  | ws_call d tr ps1 ps2 o k r d' :
      effect o d r d' ->
      wstep (Build_World d tr (ps1 ++ Call o k :: ps2)) (Build_World d' (tr ++ [o]) (ps1 ++ k r :: ps2))
  | ws_call_fails d tr ps1 ps2 o k err :
      wstep (Build_World d tr (ps1 ++ Call o k :: ps2)) (Build_World d tr (ps1 ++ k (Err err) :: ps2))
  | ws_drop d tr ps1 ps2 p :
      wstep (Build_World d tr (ps1 ++ p :: ps2)) (Build_World d tr (ps1 ++ ps2)).

Definition initial : World := Build_World empty_db [] [].
Definition reachable_world (w : World) : Prop := rtc wstep initial w.
End world.

(** ** The invariant of the tables *)

Definition graph_of (x : WorkflowExecution) : WorkflowGraph := ne_graph (ex_record x).

(** The node ids [reachableNodeIds] returns. *)
Definition reach_list (g : WorkflowGraph) (t : string) : list string :=
  set_of_list (t :: getDescendantNodeIds g t).

(** Every entry of [T] names a terminal batch step. *)
Definition terminals_ok (S : Summaries) (T : Terminals) : Prop :=
  forall n i, T !! n = Some i -> exists b, S !! stepKeyId (mkKey n i) = Some b /\ isTerminalStep b = true.

(** The fate [status] records was decided on settled rows. *)
Definition planned (g : WorkflowGraph) (S : Summaries) (k : StepKey) (status : StepStatus) : Prop :=
  exists T, terminals_ok S T /\
    decideNodeFate g (deriveLoops g) k S T = if decide (status = skipped) then fate_skipped else fate_queued.

Definition justified (g : WorkflowGraph) (t : string) (S : Summaries) (k : StepKey) (status : StepStatus) : Prop :=
  (k = mkKey t 0 /\ status = completed) \/ planned g S k status.

(** Every step owed is there, and completed or was skipped. *)
Definition Finished (d : Db) (e : string) (g : WorkflowGraph) (t : string) : Prop :=
  exists T, ended g t (all_summaries d e) T /\
    forall k, owes (deriveLoops g) (reach_list g t) T k ->
    exists r, row_at d e k r /\ (sr_status r = completed \/ sr_status r = skipped).

Record ExecInv (d : Db) (e : string) (x : WorkflowExecution) (t : string) : Prop := {
  xi_valid : ValidGraph (graph_of x) t;
  xi_queued : ex_status x = ex_queued -> forall k r, ~ row_at d e k r;
  xi_ledger : Ledger (graph_of x) t (all_summaries d e);
  xi_fates : forall k r, row_at d e k r -> justified (graph_of x) t (all_summaries d e) k (sr_status r);
  xi_cancelled : forall k r, row_at d e k r -> sr_status r = cancelled -> failed_in d e;
  xi_failed : ex_status x = ex_failed -> failed_in d e;
  xi_completed : ex_status x = ex_completed -> Finished d e (graph_of x) t;
}.

Record Inv (d : Db) : Prop := {
  inv_table : TableOk d;
  inv_exec : forall e x, executions d !! e = Some x -> exists t, ExecInv d e x t;
}.

Lemma valid_trigger_unique (g : WorkflowGraph) (t1 t2 : string) : ValidGraph g t1 -> ValidGraph g t2 -> t1 = t2.
Proof.
  intros H1 H2. destruct (ve_trigger _ _ H1) as (n1 & <- & E1), (ve_trigger _ _ H2) as (n2 & <- & E2). congruence.
Qed.

Lemma valid_findTrigger (g : WorkflowGraph) (t : string) :
  ValidGraph g t -> exists node, findTriggerNode g = Some node /\ gn_id node = t.
Proof.
  intros HG. destruct (ve_trigger _ _ HG) as (n & <- & E). unfold findTriggerNode.
  destruct (arr_find _ (nodes g)) as [n'|] eqn:Hf.
  - exists n'. split; [done|]. apply arr_find_Some in Hf as [Hn Hp].
    assert (n' ∈ [n]) as ->%list_elem_of_singleton by (rewrite <-E; by apply elem_of_arr_filter). done.
  - rewrite arr_find_None in Hf. assert (Hn : n ∈ [n]) by set_solver. rewrite <-E in Hn.
    apply elem_of_arr_filter in Hn as [Hp Hn]. rewrite (Hf _ Hn) in Hp. done.
Qed.

Lemma inv_exec_at (d : Db) (e : string) (x : WorkflowExecution) (t : string) :
  Inv d -> executions d !! e = Some x -> ValidGraph (graph_of x) t -> ExecInv d e x t.
Proof.
  intros HI Hx Ht. destruct (inv_exec _ HI _ _ Hx) as (t' & Hxi).
  by rewrite (valid_trigger_unique _ _ _ Ht (xi_valid _ _ _ _ Hxi)).
Qed.

Lemma elem_of_reach_list (g : WorkflowGraph) (t x : string) : x ∈ reach_list g t <-> reachable g t x.
Proof. unfold reach_list. by rewrite elem_of_set_of_list, elem_of_cons, elem_of_getDescendantNodeIds. Qed.

(** ** Facts that stay true *)

Section later_facts.
Context (d1 d2 : Db) (HT1 : TableOk d1) (HT2 : TableOk d2) (Hle : db_le d1 d2).

Lemma all_summaries_later (e : string) : later (all_summaries d1 e) (all_summaries d2 e).
Proof.
  intros s r Hr Hst. destruct (all_summaries_key d1 HT1 e s r Hr) as [k ->].
  apply (all_summaries_lookup d1 HT1) in Hr as (row & Hrow & ->).
  apply (all_summaries_lookup d2 HT2). exists row. split; [|done]. by eapply row_at_settled.
Qed.

Lemma terminals_ok_later (e : string) (T : Terminals) :
  terminals_ok (all_summaries d1 e) T -> terminals_ok (all_summaries d2 e) T.
Proof.
  intros HT n i Hn. destruct (HT n i Hn) as (b & Hb & Ht). exists b. split; [|done].
  apply all_summaries_later; [done|]. by apply isTerminalStep_settled.
Qed.

Lemma ended_later (g : WorkflowGraph) (t e : string) (T : Terminals) :
  ended g t (all_summaries d1 e) T -> ended g t (all_summaries d2 e) T.
Proof.
  intros HT l Hl Hr. destruct (HT l Hl Hr) as (i & b & ? & Hb & Ht). exists i, b.
  split_and!; [done| |done]. apply all_summaries_later; [done|]. by apply isTerminalStep_settled.
Qed.

Lemma Finished_later (e : string) (g : WorkflowGraph) (t : string) : Finished d1 e g t -> Finished d2 e g t.
Proof.
  intros (T & HT & Hrows). exists T. split; [by apply ended_later|].
  intros k Hk. destruct (Hrows k Hk) as (r & Hr & Hs). exists r. split; [|done].
  eapply row_at_settled; [done|done|]. by destruct Hs as [-> | ->].
Qed.

Lemma planned_later (e : string) (g : WorkflowGraph) (t : string) (k : StepKey) (status : StepStatus) :
  ValidGraph g t -> KeyOk g t (all_summaries d1 e) k ->
  planned g (all_summaries d1 e) k status -> planned g (all_summaries d2 e) k status.
Proof.
  intros HG Hk (T & HT & Hf). exists T. split; [by apply terminals_ok_later|].
  rewrite <-Hf. apply decideNodeFate_final; [apply all_summaries_later|done|by eapply KeyOk_end_known|].
  rewrite Hf. by case_decide.
Qed.

Lemma justified_later (e : string) (g : WorkflowGraph) (t : string) (k : StepKey) (status : StepStatus) :
  ValidGraph g t -> KeyOk g t (all_summaries d1 e) k ->
  justified g t (all_summaries d1 e) k status -> justified g t (all_summaries d2 e) k status.
Proof. intros HG Hk [?|Hp]; [by left|right]. by eapply planned_later. Qed.
End later_facts.

(** A lifecycle move keeps what the fate says. *)
Lemma justified_status (g : WorkflowGraph) (t : string) (S : Summaries) (k : StepKey) (s1 s2 : StepStatus) :
  step_status_le s1 s2 = true -> justified g t S k s1 -> justified g t S k s2.
Proof.
  intros Hle [[-> ->]|(T & HT & Hf)].
  - left. split; [done|]. by destruct s2.
  - right. exists T. split; [done|]. rewrite Hf. by destruct s1, s2.
Qed.

(** ** The calls that keep the invariant *)

(** A record that may be inserted. *)
Definition NewOk (d : Db) (e : string) (rec : NewStepRecord) : Prop :=
  forall x t, executions d !! e = Some x -> ValidGraph (graph_of x) t ->
  let k := mkKey (ns_nodeId rec) (ns_iteration rec) in
  ex_status x <> ex_queued /\ KeyOk (graph_of x) t (all_summaries d e) k /\
  justified (graph_of x) t (all_summaries d e) k (ns_status rec).

Definition op_ok (o : op) (d : Db) : Prop :=
  match o with
  | CreateExecution record => ne_status record = ex_queued /\ exists t, ValidGraph (ne_graph record) t
  | TransitionStatus _ from to => from = ex_queued /\ to = ex_running
  | FinishExecution e fin_completed => forall x t, executions d !! e = Some x -> ValidGraph (graph_of x) t ->
      Finished d e (graph_of x) t
  | FinishExecution e fin_failed => failed_in d e
  | CancelQueuedSteps e => failed_in d e
  | CreateSteps e records => forall rec, rec ∈ records -> NewOk d e rec
  | _ => True
  end.

(** What every write of the engine does, seen from one execution. *)
Record Moved (d d' : Db) : Prop := {
  mv_inv : Inv d;
  mv_table : TableOk d';
  mv_le : db_le d d';
  mv_exec : forall e x', executions d' !! e = Some x' ->
    (exists x, executions d !! e = Some x /\ ex_record x' = ex_record x /\
       (ex_status x' = ex_queued -> ex_status x = ex_queued) /\
       (ex_status x' = ex_failed -> ex_status x = ex_failed \/ failed_in d' e) /\
       (ex_status x' = ex_completed -> ex_status x = ex_completed \/
          forall t, ValidGraph (graph_of x) t -> Finished d e (graph_of x) t)) \/
    (executions d !! e = None /\ ex_status x' = ex_queued /\ exists t, ValidGraph (graph_of x') t);
  mv_rows : forall e k r', row_at d' e k r' -> (exists r, row_at d e k r) \/
    exists x, executions d !! e = Some x /\ forall t, ValidGraph (graph_of x) t ->
      ex_status x <> ex_queued /\ KeyOk (graph_of x) t (all_summaries d e) k /\
      justified (graph_of x) t (all_summaries d e) k (sr_status r') /\ sr_status r' <> cancelled;
  mv_cancelled : forall e k r r', row_at d e k r -> row_at d' e k r' -> sr_status r' = cancelled ->
    sr_status r = cancelled \/ failed_in d e;
}.

Lemma row_at_unique_le (d d' : Db) (e : string) (k : StepKey) (r r' : StepRecord) :
  TableOk d' -> db_le d d' -> row_at d e k r -> row_at d' e k r' -> row_le r r'.
Proof.
  intros HT Hle Hr Hr'. destruct (row_at_le _ _ _ _ _ Hle Hr) as (r2 & Hr2 & Hl).
  by rewrite (row_at_inj d' HT e k r' r2).
Qed.

Lemma no_exec_no_rows (d : Db) (e : string) (k : StepKey) (r : StepRecord) :
  TableOk d -> executions d !! e = None -> ~ row_at d e k r.
Proof. intros HT Hn (Hr & He & _). destruct (tk_fk _ HT _ _ Hr) as [x Hx]. congruence. Qed.

Lemma moved_inv (d d' : Db) : Moved d d' -> Inv d'.
Proof.
  intros [HI HT' Hle Hexec Hrows Hcan]. pose proof (inv_table _ HI) as HT.
  assert (Hlater : forall e, later (all_summaries d e) (all_summaries d' e))
    by (intros; by apply all_summaries_later).
  split; [done|]. intros e x' Hx'.
  destruct (Hexec e x' Hx') as [(x & Hx & Hrec & Hq & Hf & Hc)|(Hnone & Hq & t & Ht)].
  - destruct (inv_exec _ HI e x Hx) as [t Hxi]. exists t.
    assert (Hg : graph_of x' = graph_of x) by (unfold graph_of; by rewrite Hrec).
    pose proof (xi_valid _ _ _ _ Hxi) as HG.
    assert (Hold : forall k r, row_at d e k r -> KeyOk (graph_of x) t (all_summaries d e) k).
    { intros k r Hr. eapply (xi_ledger _ _ _ _ Hxi). apply (all_summaries_lookup d HT). eauto. }
    split; rewrite ?Hg; [done| | | | | |].
    + intros Hq' k r' Hr'. specialize (Hq Hq'). destruct (Hrows e k r' Hr') as [(r & Hr)|(x2 & Hx2 & Hnew)]; [by apply (xi_queued _ _ _ _ Hxi Hq k r)|].
      assert (x2 = x) as -> by congruence. by destruct (Hnew t HG) as [Hn _].
    + intros k s Hs. apply (all_summaries_lookup d' HT') in Hs as (r' & Hr' & ->).
      eapply KeyOk_later; [apply Hlater|]. destruct (Hrows e k r' Hr') as [(r & Hr)|(x2 & Hx2 & Hnew)]; [by eapply Hold|].
      assert (x2 = x) as -> by congruence. by destruct (Hnew t HG) as (_ & ? & _).
    + intros k r' Hr'. destruct (Hrows e k r' Hr') as [(r & Hr)|(x2 & Hx2 & Hnew)].
      * eapply justified_status; [apply (rl_status _ _ (row_at_unique_le _ _ _ _ _ _ HT' Hle Hr Hr'))|].
        eapply justified_later; eauto. by apply (xi_fates _ _ _ _ Hxi).
      * assert (x2 = x) as -> by congruence. destruct (Hnew t HG) as (_ & ? & ? & _). by eapply justified_later.
    + intros k r' Hr' Hs. destruct (Hrows e k r' Hr') as [(r & Hr)|(x2 & Hx2 & Hnew)].
      * eapply failed_in_le; [done|]. destruct (Hcan e k r r' Hr Hr' Hs) as [Hs'|]; [|done].
        by eapply (xi_cancelled _ _ _ _ Hxi).
      * assert (x2 = x) as -> by congruence. by destruct (Hnew t HG) as (_ & _ & _ & ?).
    + intros [Hs|?]%Hf; [|done]. eapply failed_in_le; [done|]. by apply (xi_failed _ _ _ _ Hxi).
    + intros [Hs|Hfin]%Hc; (eapply Finished_later; [exact HT|exact HT'|exact Hle|]);
        [by apply (xi_completed _ _ _ _ Hxi)|by apply Hfin].
  - assert (Hnorow : forall k r, ~ row_at d' e k r).
    { intros k r Hr. destruct (Hrows e k r Hr) as [(r0 & Hr0)|(x2 & Hx2 & _)];
        [by eapply no_exec_no_rows|congruence]. }
    exists t. split; try done; try (intros; by edestruct Hnorow); try congruence.
    intros k s (r & Hr & _)%(all_summaries_lookup d' HT'). by edestruct Hnorow.
Qed.

(** A write that touches no execution and only moves rows along. *)
Lemma rows_moved (d d' : Db) :
  Inv d -> TableOk d' -> db_le d d' -> executions d' = executions d ->
  (forall id r', steps d' !! id = Some r' -> exists r, steps d !! id = Some r /\
     (sr_status r' = cancelled -> sr_status r = cancelled \/ failed_in d (sr_executionId r))) ->
  Inv d'.
Proof.
  intros HI HT' Hle Hex Hst. apply (moved_inv d). split; try done.
  - intros e x' Hx'. rewrite Hex in Hx'. left. exists x'. eauto 10.
  - intros e k r' (Hr' & <- & <-). left. destruct (Hst _ _ Hr') as (r & Hr & _). exists r.
    destruct (dl_steps _ _ Hle _ _ Hr) as (r2 & Hr2 & Hl). assert (r2 = r') as -> by congruence.
    unfold row_at. by rewrite <-(rl_id _ _ Hl), <-(rl_exec _ _ Hl), <-(rl_key _ _ Hl), (rl_id _ _ Hl),
      (tk_id _ (inv_table _ HI) _ _ Hr).
  - intros e k r r' Hr Hr' Hs. pose proof (row_at_unique_le _ _ _ _ _ _ HT' Hle Hr Hr') as Hl.
    destruct Hr' as (Hr' & _ & _). rewrite (rl_id _ _ Hl) in Hr'. destruct (Hst _ _ Hr') as (r0 & Hr0 & Hc).
    destruct Hr as (Hr & <- & _). assert (r0 = r) as -> by congruence. auto.
Qed.

Lemma exec_moved (d : Db) (e : string) (x x' : WorkflowExecution) :
  let d' := set_executions d (<[e := x']> (executions d)) in
  Inv d -> TableOk d' -> db_le d d' -> executions d !! e = Some x -> ex_record x' = ex_record x ->
  ex_status x' <> ex_queued ->
  (ex_status x' = ex_failed -> failed_in d e) ->
  (ex_status x' = ex_completed -> forall t, ValidGraph (graph_of x) t -> Finished d e (graph_of x) t) ->
  Inv d'.
Proof.
  intros d' HI HT' Hle Hx Hrec Hq Hf Hc. apply (moved_inv d). split; try done; subst d'; simpl.
  - intros e2 x2 [[<- <-]|[Hne Hx2]]%lookup_insert_Some; left.
    + exists x. split_and!; try done; [|auto].
      intros Hs. right. destruct (Hf Hs) as (r & Hr). by exists r.
    + exists x2. eauto 10.
  - intros e2 k r' Hr'. left. exists r'. exact Hr'.
  - intros e2 k r r' Hr Hr' Hs. left.
    assert (r = r') as -> by (eapply (row_at_inj d); [apply (inv_table _ HI)|exact Hr|exact Hr']). done.
Qed.

(** A write that fills in the status of one row. *)
Lemma row_written (d d' : Db) (id : string) (r' : StepRecord) :
  Inv d -> TableOk d' -> db_le d d' -> d' = set_steps d (<[id := r']> (steps d)) ->
  sr_status r' <> cancelled -> is_Some (steps d !! id) -> Inv d'.
Proof.
  intros HI HT' Hle -> Hs [r Hr]. apply (rows_moved d); try done. simpl.
  intros id2 r2 [[<- <-]|[Hne Hr2]]%lookup_insert_Some; [by exists r|]. exists r2. eauto.
Qed.

Lemma op_ok_inv (o : op) (d : Db) (r : result (resp o)) (d' : Db) :
  Inv d -> op_ok o d -> op_db o d r d' -> Inv d' /\ db_le d d'.
Proof.
  intros HI Hok Hop. pose proof (inv_table _ HI) as HT.
  assert (Hid : d' = d -> Inv d' /\ db_le d d') by (intros ->; done).
  destruct o; simpl in Hok, Hop; try (by apply Hid; destruct Hop); try (by apply Hid).
  - destruct Hop as (qf & Heq). destruct Hok as [Hq Hg].
    destruct (createExecution_ok qf d record HT Hq) as [HT' Hle].
    assert (Hd' : d' = (createExecution qf d record).2) by (by rewrite <-Heq). rewrite <-Hd' in HT', Hle.
    split; [|done]. unfold createExecution in Hd'.
    destruct (executions d !! ne_id record) eqn:He; simpl in Hd'; [by rewrite Hd'|].
    apply (moved_inv d). split; try done; rewrite Hd'; simpl.
    + intros e x [[<- <-]|[_ Hx]]%lookup_insert_Some; [right; auto|left]. exists x. eauto 10.
    + intros e k r' Hr'. left. by exists r'.
    + intros e k r1 r2 Hr1 Hr2 Hs. left.
      assert (r1 = r2) as -> by (eapply (row_at_inj d HT); [exact Hr1|exact Hr2]). done.
  - destruct Hok as [-> ->], Hop as [_ ->]. destruct (transitionStatus_ok d id HT) as [HT' Hle].
    split; [|done]. revert HT' Hle. unfold transitionStatus.
    destruct (executions d !! id) as [x|] eqn:Hx; [|done]. case_decide; [|done]. simpl. intros HT' Hle.
    by apply (exec_moved d id x).
  - destruct Hop as (now & _ & ->). destruct (finishExecution_ok d id status now HT) as [HT' Hle].
    split; [|done]. revert HT' Hle. unfold finishExecution.
    destruct (executions d !! id) as [x|] eqn:Hx; [|done]. case_decide; [|done]. simpl. intros HT' Hle.
    apply (exec_moved d id x); try done; simpl; try (by destruct status).
    intros Hs t Ht. destruct status; [|done]. by apply (Hok x t).
  - destruct Hop as (qf & ids & _ & Heq). pose proof (createSteps_created qf d executionId records ids HT) as Hcr.
    rewrite <-Heq in Hcr. simpl in Hcr. destruct Hcr as [HT' Hle Hex Hrows _ _ _]. split; [|done].
    apply (moved_inv d). split; try done.
    + intros e x Hx. rewrite Hex in Hx. left. exists x. eauto 10.
    + intros e k r' (Hr' & He & Hk). destruct (Hrows _ _ Hr') as [Hold|(Hn & _ & rec & Hrec & (_ & Hst & _) & Hnew)].
      * left. by exists r'.
      * right. pose proof He as He'. rewrite Hnew in He'. simpl in He'. subst e.
        destruct (tk_fk _ HT' _ _ Hr') as [x Hx]. rewrite Hex, <-He' in Hx. exists x.
        rewrite <-He'. split; [done|]. intros t Ht. destruct (Hok rec Hrec x t Hx Ht) as (Hq & Hkey & Hj).
        assert (Hs : sr_status r' = ns_status rec) by (by rewrite Hnew).
        assert (Hk' : k = mkKey (ns_nodeId rec) (ns_iteration rec)) by (by rewrite <-Hk, Hnew).
        rewrite Hk', Hs. split_and!; [done|done|done|]. intros Hc. rewrite Hc in Hst. set_solver.
    + intros e k r1 r2 Hr1 Hr2 Hs. left. pose proof (row_at_unique_le _ _ _ _ _ _ HT' Hle Hr1 Hr2) as Hl.
      destruct Hr1 as (Hr1 & _), Hr2 as (Hr2 & _). rewrite (rl_id _ _ Hl) in Hr2.
      destruct (Hrows _ _ Hr2) as [?|(? & _)]; congruence.
  - destruct Hop as [_ ->]. destruct (claimStep_ok d id HT) as [HT' Hle]. split; [|done].
    revert HT' Hle. unfold claimStep.
    destruct (steps d !! id) as [row|] eqn:Hr; [|done]. destruct (executions d !! _); [|done].
    case_decide; [|done]. destruct (has_failed _ _); [done|]. simpl. intros HT' Hle.
    by eapply row_written; eauto.
  - destruct Hop as [_ ->]. destruct (completeStep_ok d id outputs HT) as [HT' Hle]. split; [|done].
    revert HT' Hle. unfold completeStep, transition. case_match; [|done]. case_decide; [|done]. simpl.
    intros HT' Hle. by eapply row_written; eauto.
  - destruct Hop as [_ ->]. destruct (failStep_ok d id error HT) as [HT' Hle]. split; [|done].
    revert HT' Hle. unfold failStep. case_match; [|done]. case_decide; [|done]. simpl.
    intros HT' Hle. by eapply row_written; eauto.
  - destruct Hop as [_ ->]. destruct (cancelQueuedSteps_ok d executionId HT) as [HT' Hle]. split; [|done].
    apply (rows_moved d); try done. intros id r'. simpl. rewrite lookup_fmap, fmap_Some.
    intros (r0 & Hr0 & ->). exists r0. split; [done|]. unfold cancel_row. case_decide as Hc; [|by left].
    destruct Hc as [-> _]. by right.
Qed.

(** ** Safe programs *)

(** What a program may see after its call: the effect, with or without its answer, or a
    failure before it. *)
Definition answered (o : op) (d : Db) (r : result (resp o)) (d' : Db) : Prop :=
  effect o d r d' \/ (exists err, r = Err err /\ d' = d).

(** However the tables move under it, the program only makes calls that keep the
    invariant; [Q] holds of what it returns. *)
Fixpoint safe {A} (p : prog A) (d : Db) (Q : A -> Db -> Prop) : Prop :=
  match p with
  | Ret a => forall d1, db_le d d1 -> Inv d1 -> Q a d1
  | Throw _ => True
  | Call o k => forall d1, db_le d d1 -> Inv d1 -> op_ok o d1 /\
      forall r d2, answered o d1 r d2 -> Inv d2 -> db_le d1 d2 -> safe (k r) d2 Q
  end.

Section safe_rules.
Context {A B : Type}.
Implicit Types (p : prog A) (d : Db).

Lemma safe_intro p d (Q : A -> Db -> Prop) :
  (forall d1, db_le d d1 -> Inv d1 -> safe p d1 Q) -> safe p d Q.
Proof.
  destruct p as [a|err|o k]; simpl; intros H; [|done|].
  - intros d1 Hle HI. by apply (H d1 Hle HI).
  - intros d1 Hle HI. by apply (H d1 Hle HI).
Qed.

Lemma safe_mono p d d' (Q : A -> Db -> Prop) : db_le d d' -> safe p d Q -> safe p d' Q.
Proof.
  destruct p as [a|err|o k]; simpl; intros Hle H; [|done|].
  - intros d1 Hle1 HI. apply H; [by etrans|done].
  - intros d1 Hle1 HI. apply H; [by etrans|done].
Qed.

Lemma safe_conseq p d (Q R : A -> Db -> Prop) :
  safe p d Q -> (forall a d1, db_le d d1 -> Inv d1 -> Q a d1 -> R a d1) -> safe p d R.
Proof.
  revert d. induction p as [a|err|o k IH]; simpl; intros d H HQR; [|done|].
  - intros d1 Hle HI. apply HQR; auto.
  - intros d1 Hle HI. destruct (H d1 Hle HI) as [Hok Hk]. split; [done|].
    intros r d2 Ha HI2 Hle2. apply IH; [by apply Hk|]. intros a d3 Hle3. apply HQR. etrans; [exact Hle|]. by etrans.
Qed.

Lemma safe_bind p (f : A -> prog B) d (Q : A -> Db -> Prop) (R : B -> Db -> Prop) :
  safe p d Q -> (forall a d1, db_le d d1 -> Inv d1 -> Q a d1 -> safe (f a) d1 R) ->
  safe (p ≫= f) d R.
Proof.
  change (p ≫= f) with (prog_bind p f).
  revert d. induction p as [a|err|o k IH]; intros d H Hf; [|done|].
  - change (prog_bind (Ret a) f) with (f a). destruct (f a) as [b|err|o k] eqn:Hfa; simpl; [|done|].
    + intros d1 Hle HI. specialize (Hf a d1 Hle HI (H d1 Hle HI)). rewrite Hfa in Hf. by apply Hf.
    + intros d1 Hle HI. specialize (Hf a d1 Hle HI (H d1 Hle HI)). rewrite Hfa in Hf. by apply Hf.
  - intros d1 Hle HI. destruct (H d1 Hle HI) as [Hok Hk]. split; [done|].
    intros r d2 Ha HI2 Hle2. apply IH; [by apply Hk|]. intros a d3 Hle3. apply Hf. etrans; [exact Hle|]. by etrans.
Qed.

Lemma safe_lift (r : result A) d (Q : A -> Db -> Prop) :
  (forall a, r = Ok a -> forall d1, db_le d d1 -> Inv d1 -> Q a d1) -> safe (lift r) d Q.
Proof. destruct r; simpl; auto. Qed.

Lemma safe_call (o : op) d (Q : resp o -> Db -> Prop) :
  (forall d1, db_le d d1 -> Inv d1 -> op_ok o d1 /\
     forall a d2, op_db o d1 (Ok a) d2 -> Inv d2 -> db_le d1 d2 -> forall d3, db_le d2 d3 -> Inv d3 -> Q a d3) ->
  safe (call o) d Q.
Proof.
  intros H d1 Hle HI. destruct (H d1 Hle HI) as [Hok Hk]. split; [done|].
  intros [a|err] d2 Ha HI2 Hle2; simpl; [|done]. apply (Hk a d2); [|done|done].
  destruct Ha as [[Ha|(r' & err & [=] & _)]|(err & [=] & _)]. done.
Qed.
End safe_rules.

(** A call whose answer is all that matters, in front of the rest. *)
Lemma safe_step {B} (o : op) (f : resp o -> prog B) (d : Db) (R : B -> Db -> Prop) :
  (forall d1, db_le d d1 -> Inv d1 -> op_ok o d1 /\
     forall a d2, op_db o d1 (Ok a) d2 -> Inv d2 -> db_le d1 d2 -> safe (f a) d2 R) ->
  safe (call o ≫= f) d R.
Proof.
  intros H d1 Hle HI. destruct (H d1 Hle HI) as [Hok Hk]. split; [done|].
  intros [a|err] d2 Ha HI2 Hle2; simpl; [|done]. apply (Hk a d2); [|done|done].
  destruct Ha as [[Ha|(r' & err & [=] & _)]|(err & [=] & _)]. done.
Qed.

(** Programs whose calls keep the invariant whatever the tables hold. *)
Notation harmless := (all_ops (fun o => forall d, op_ok o d)).

Lemma harmless_safe {A} (p : prog A) (d : Db) : harmless p -> safe p d (fun _ _ => True).
Proof.
  revert d. induction p as [a|err|o k IH]; intros d H; [done|done|].
  intros d1 _ _. destruct H as [Hok Hk]. split; [done|]. intros r d2 _ _ _. apply IH, Hk.
Qed.

Lemma reads_harmless {A} (p : prog A) : reads_only p -> harmless p.
Proof. apply all_ops_mono. intros [] H d; simpl in H; try discriminate; exact I. Qed.

#[global] Arguments safe : simpl never.
#[local] Hint Resolve reads_gatherInputs reads_runBatchNode reads_stepEventFields reads_harmless : core.

Lemma harmless_ready (v1 : bool) (stack_of : EngineError -> option string) (e s : string) :
  harmless (ready_handle v1 stack_of e s).
Proof. unfold ready_handle, runStep. all_ops. Qed.

(** ** What a program knows from what it loaded *)

(** The record came from the row of its execution. *)
Definition seen_exec (d : Db) (execution : ExecutionRecord) : Prop :=
  exists x, executions d !! er_id execution = Some x /\ er_graph execution = graph_of x /\
    ex_status_le (er_status execution) (ex_status x) = true.

Lemma seen_exec_later (d1 d2 : Db) (execution : ExecutionRecord) :
  db_le d1 d2 -> seen_exec d1 execution -> seen_exec d2 execution.
Proof.
  intros Hle (x & Hx & Hg & Hs). destruct (dl_exec _ _ Hle _ _ Hx) as (x2 & Hx2 & Hl).
  exists x2. split_and!; [done|by unfold graph_of; rewrite (el_record _ _ Hl)|].
  pose proof (el_status _ _ Hl). by destruct (er_status execution), (ex_status x), (ex_status x2).
Qed.

Lemma loadExecution_seen (d : Db) (id : string) (execution : ExecutionRecord) :
  loadExecution d id = Ok execution -> seen_exec d execution /\ er_id execution = id.
Proof.
  unfold loadExecution. destruct (executions d !! id) as [x|] eqn:Hx; [|done]. intros [= <-].
  split; [|done]. exists x. split_and!; [done|done|]. simpl. by destruct (ex_status x).
Qed.

Lemma loadStep_row (d : Db) (id : string) (step : StepRecord) :
  TableOk d -> loadStep d id = Ok step -> row_at d (sr_executionId step) (sr_key step) step.
Proof.
  unfold loadStep. destruct (steps d !! id) as [r|] eqn:Hr; [|done]. intros HT [= <-].
  unfold row_at. by rewrite (tk_id _ HT _ _ Hr).
Qed.

Lemma failed_in_row (d : Db) (e : string) (k : StepKey) (r : StepRecord) :
  row_at d e k r -> sr_status r = failed -> failed_in d e.
Proof. intros (Hr & He & _) Hs. by exists r. Qed.

(** ** The programs, one by one *)

Lemma safe_start (request : StartExecutionRequest) (d : Db) : safe (start request ;; Ret tt) d (fun _ _ => True).
Proof.
  apply (safe_bind _ _ _ (fun _ _ => True)); [|by simpl].
  unfold start. apply (safe_bind _ _ _ (fun _ _ => validateExecutableGraph (rs_graph request) = Ok tt)).
  { apply safe_lift. intros [] H. auto. }
  intros _ d1 _ _ Hv. apply validateExecutableGraph_ok in Hv.
  apply safe_step. intros d2 _ _. split; [done|]. intros decision d3 _ _ _.
  destruct (decision : AdmittanceDecision) as [|reason]; [|done].
  apply safe_step. intros d4 _ _. split; [done|]. intros _ d5 _ _ _.
  apply harmless_safe. all_ops.
Qed.

Lemma safe_start_handle (e : string) (d : Db) : safe (start_handle e) d (fun _ _ => True).
Proof.
  unfold start_handle. apply safe_step. intros d1 _ _. split; [done|].
  intros claimed d2 [[= ->] ->] HI2 _. destruct (transitionStatus d1 e ex_queued ex_running).1 eqn:Hc; [|by simpl].
  cbn [negb].
  assert (Hrun : exists x, executions (transitionStatus d1 e ex_queued ex_running).2 !! e = Some x /\ ex_status x = ex_running).
  { revert Hc. unfold transitionStatus. destruct (executions d1 !! e); [|done]. case_decide; [|done].
    intros _. simpl. rewrite lookup_insert_eq. eauto. }
  apply safe_step. intros d3 Hle3 _. split; [done|]. intros execution d4 [Hload ->] HI4 _.
  symmetry in Hload. apply loadExecution_seen in Hload as [Hseen Hid].
  apply safe_step. intros d5 Hle5 _. split; [done|]. intros now d6 [_ ->] _ _.
  apply safe_step. intros d7 Hle7 _. split; [done|]. intros [] d8 [_ ->] _ _.
  destruct (findTriggerNode (er_graph execution)) as [node|] eqn:Hf; [|done].
  apply safe_step. intros d9 Hle9 HI9. split.
  - intros rec Hrec%list_elem_of_singleton x t Hx Ht.
    assert (Hle : db_le d3 d9) by (etrans; [exact Hle5|]; by etrans).
    assert (Hle' : db_le (transitionStatus d1 e ex_queued ex_running).2 d9) by by etrans.
    destruct Hrun as (x0 & Hx0 & Hs0). destruct (dl_exec _ _ Hle' _ _ Hx0) as (x9 & Hx9 & Hl9).
    assert (x9 = x) as -> by congruence.
    destruct (seen_exec_later _ _ _ Hle Hseen) as (x' & Hx' & Hg & _). rewrite Hid in Hx'.
    assert (x' = x) as -> by congruence.
    destruct (valid_findTrigger _ _ Ht) as (node' & Hf' & Hn). rewrite <-Hg, Hf in Hf'. injection Hf' as <-.
    subst rec. simpl. rewrite Hn. split_and!.
    + intros Hq. pose proof (el_status _ _ Hl9) as Hl. by rewrite Hs0, Hq in Hl.
    + by apply trigger_KeyOk.
    + by left.
  - intros created d10 _ _ _. destruct (head created); [|done]. by apply harmless_safe, all_ops_call.
Qed.

(** The terminal passes loaded are true of the tables. *)
Lemma safe_loadTerminalIterations (e : string) (ids : list string) (d : Db) :
  safe (loadTerminalIterations e ids) d (fun T d' => terminals_ok (all_summaries d' e) T).
Proof.
  unfold loadTerminalIterations. destruct ids as [|id ids].
  { intros d1 _ _ n i. by rewrite lookup_empty. }
  apply safe_step. intros d1 _ HI1. split; [done|]. intros latest d2 [[= ->] ->] HI2 _ d3 Hle3 HI3 n i.
  rewrite lookup_omap, bind_Some. intros (s & Hs & Hi). destruct (isTerminalStep s) eqn:Hterm; [|done].
  injection Hi as <-.
  destruct (loadLatestStepSummaries_spec d1 (inv_table _ HI2) e (id :: ids)) as [Hspec _].
  destruct (Hspec n s Hs) as (_ & r & Hr & Heq & _). exists s. split; [|done].
  apply (all_summaries_lookup d3 (inv_table _ HI3)). exists r. split; [|done].
  eapply row_at_settled; [done|done|].
  apply isTerminalStep_settled in Hterm. by rewrite Heq in Hterm.
Qed.

(** A planner's decisions are records that may be inserted. *)
Lemma decided_NewOk (d : Db) (execution : ExecutionRecord) (step : StepRecord) (T : Terminals) (k : StepKey)
    (rec : NewStepRecord) :
  Inv d -> seen_exec d execution -> er_status execution = ex_running ->
  row_at d (er_id execution) (sr_key step) step -> isSettledStatus (sr_status step) = true ->
  let g := er_graph execution in
  let S := all_summaries d (er_id execution) in
  terminals_ok S T ->
  candidate (deriveLoops g) (sr_key step) S (outgoing g (sr_nodeId step)) k ->
  mkKey (ns_nodeId rec) (ns_iteration rec) = k ->
  decideNodeFate g (deriveLoops g) k S T = (if decide (ns_status rec = skipped) then fate_skipped else fate_queued) ->
  NewOk d (er_id execution) rec.
Proof.
  intros HI Hseen Hrun Hrow Hst g S HT Hcand Hk Hf x t Hx HG k'.
  destruct Hseen as (x' & Hx' & Hg & Hle). assert (x' = x) as -> by congruence.
  pose proof (inv_exec_at _ _ _ _ HI Hx HG) as Hxi. subst k'. rewrite Hk, <-Hg in *. fold g in HG, Hxi |- *.
  assert (HS : S !! stepKeyId (sr_key step) = Some (summary_of step)).
  { apply (all_summaries_lookup d (inv_table _ HI)). eauto. }
  destruct Hcand as (e & He & Hside & <- & Hnone). unfold outgoing in He.
  apply elem_of_arr_filter in He as [Hfrom He]. apply bool_decide_eq_true in Hfrom.
  split_and!.
  - intros Hq. rewrite Hrun, Hq in Hle. done.
  - eapply targetKey_KeyOk; [exact HG| |exact HS|exact Hst|exact He|exact Hfrom|].
    + pose proof (xi_ledger _ _ _ _ Hxi) as Hl. by rewrite <-Hg in Hl.
    + intros l Hl Hb. apply Hside. unfold batch_row.
      destruct (arr_some _ _) eqn:Ha; [done|]. apply not_true_iff_false in Ha. destruct Ha.
      apply arr_some_true. exists l. split; [done|]. by apply bool_decide_eq_true.
  - right. exists T. split; [done|]. exact Hf.
Qed.

Lemma NewOk_later (d1 d2 : Db) (e : string) (rec : NewStepRecord) :
  Inv d1 -> Inv d2 -> db_le d1 d2 -> is_Some (executions d1 !! e) -> NewOk d1 e rec -> NewOk d2 e rec.
Proof.
  intros HI1 HI2 Hle [x1 Hx1] Hok x t Hx HG k.
  destruct (dl_exec _ _ Hle _ _ Hx1) as (x' & Hx' & Hl). assert (x' = x) as -> by congruence.
  assert (Hg : graph_of x = graph_of x1) by (unfold graph_of; by rewrite (el_record _ _ Hl)).
  rewrite Hg in *. destruct (Hok x1 t Hx1 HG) as (Hq & Hk & Hj). split_and!.
  - intros Hq2. pose proof (el_status _ _ Hl) as Hs. rewrite Hq2 in Hs. by destruct (ex_status x1).
  - eapply KeyOk_later; [|done]. apply all_summaries_later; [apply (inv_table _ HI1)|apply (inv_table _ HI2)|done].
  - eapply justified_later; [apply (inv_table _ HI1)|apply (inv_table _ HI2)|done|done|done|done].
Qed.

Lemma harmless_announceCreatedSteps (e : string) (created : list CreatedStep) (queuedKeys : list string) :
  harmless (announceCreatedSteps e created queuedKeys).
Proof.
  unfold announceCreatedSteps. generalize 0%Z. induction created as [|c created IH]; intros z; [done|].
  cbn [prog_fold]. apply all_ops_bind; [|intros; apply IH]. case_match; all_ops.
Qed.

Lemma safe_planSuccessors (execution : ExecutionRecord) (step : StepRecord) (d : Db) :
  seen_exec d execution -> er_status execution = ex_running ->
  row_at d (er_id execution) (sr_key step) step -> isSettledStatus (sr_status step) = true ->
  safe (planSuccessors execution step) d (fun _ _ => True).
Proof.
  intros Hseen Hrun Hrow Hst. unfold planSuccessors. cbv zeta.
  eapply safe_bind; [apply safe_loadTerminalIterations|]. intros T d1 Hle1 HI1 HT.
  apply safe_step. intros d2 Hle2 HI2. split; [done|]. intros S d3 [[= ->] ->] _ _.
  set (g := er_graph execution) in *. set (e := er_id execution) in *.
  rewrite (loadStepSummariesByKeys_restrict d2 (inv_table _ HI2)), decideSuccessors_restrict.
  destruct (decideSuccessors_inv g (deriveLoops g) (sr_key step) (all_summaries d2 e) T) as (dd & HD).
  set (decisions := decideSuccessors _ _ _ _ _) in *.
  assert (Hle02 : db_le d d2) by by etrans.
  assert (Hseen2 := seen_exec_later _ _ _ Hle02 Hseen).
  assert (Hrow2 := row_at_settled _ _ _ _ _ Hle02 Hrow Hst).
  assert (HT2 := terminals_ok_later _ _ (inv_table _ HI1) (inv_table _ HI2) Hle2 _ _ HT).
  assert (Hnew : forall rec, rec ∈ map queued_record (toQueue decisions) ++ map skipped_record (toSkip decisions) ->
    NewOk d2 e rec).
  { intros rec [Hrec|Hrec]%elem_of_app; apply list_elem_of_fmap in Hrec as (k & -> & Hk).
    - apply (dv_queue _ _ _ _ _ _ _ HD) in Hk as [Hc Hf].
      apply (decided_NewOk d2 execution step T k); try done. by destruct k.
    - apply (dv_skip _ _ _ _ _ _ _ HD) in Hk as [Hc Hf].
      apply (decided_NewOk d2 execution step T k); try done. by destruct k. }
  assert (Hex : is_Some (executions d2 !! e)) by (destruct Hseen2 as (x & Hx & _); eauto).
  assert (Hgo : forall records, (forall rec, rec ∈ records -> NewOk d2 e rec) ->
    safe (created ← call (CreateSteps e records);
          announceCreatedSteps e created (set_of_list (map stepKeyId (toQueue decisions)))) d2 (fun _ _ => True)).
  { intros records Hrecs. apply safe_step. intros d4 Hle4 HI4. split.
    - intros rec Hrec. apply (NewOk_later d2 d4); auto.
    - intros created d5 _ _ _. apply harmless_safe, harmless_announceCreatedSteps. }
  destruct (toQueue decisions) as [|k ks], (toSkip decisions) as [|k' ks']; try (by apply Hgo). by intros d4.
Qed.

Lemma safe_failExecution (execution : ExecutionRecord) (step : StepRecord) (node : GraphNode) (d : Db) :
  failed_in d (er_id execution) -> safe (failExecution execution step node) d (fun _ _ => True).
Proof.
  intros Hf. unfold failExecution. apply safe_step. intros d1 Hle1 _. split; [by eapply failed_in_le|].
  intros finished d2 _ HI2 Hle2.
  assert (Hf2 : failed_in d2 (er_id execution)) by (eapply failed_in_le; [|done]; by etrans).
  apply (safe_bind _ _ _ (fun _ _ => True)).
  - apply harmless_safe. unfold announceEnd. all_ops.
  - intros _ d3 Hle3 HI3 _. apply safe_call. intros d4 Hle4 _. split; [|done].
    eapply failed_in_le; [|exact Hf2]. by etrans.
Qed.

(** The count at one moment shows that everything owed is settled at that moment. *)
Lemma counted_complete (d : Db) (e : string) (x : WorkflowExecution) (t : string) (T : Terminals) (n : Z) :
  Inv d -> executions d !! e = Some x -> ExecInv d e x t -> terminals_ok (all_summaries d e) T ->
  countExpectedSettledSteps (deriveLoops (graph_of x)) (reach_list (graph_of x) t) T = Some n ->
  (n <= countSettledSteps d e)%Z ->
  ended (graph_of x) t (all_summaries d e) T /\
  forall k, owes (deriveLoops (graph_of x)) (reach_list (graph_of x) t) T k ->
  exists r, row_at d e k r /\ isSettledStatus (sr_status r) = true.
Proof.
  intros HI Hx Hxi HT Hcount Hle. pose proof (inv_table _ HI) as Htab.
  assert (Hend : ended (graph_of x) t (all_summaries d e) T).
  { intros l Hl Hr.
    destruct (countExpectedSettledSteps_ended _ _ _ _ Hcount l Hl) as [i Hi]; [by apply elem_of_reach_list|].
    destruct (HT _ _ Hi) as (b & Hb & Hterm). eauto. }
  split; [done|]. intros k Hk. destruct (settled_keys_spec d e Htab) as (Hnd & Hin & Hlen).
  apply Hin. rewrite Hlen in Hle.
  refine (count_complete _ _ (xi_valid _ _ _ _ Hxi) _ T _ _ n (xi_ledger _ _ _ _ Hxi) Hend _ _
    (elem_of_reach_list _ _) Hnd _ Hcount Hle k Hk).
  - intros m i Hi. destruct (HT m i Hi) as (b & (r & (Hr & _ & Hkey) & _)%(all_summaries_lookup d Htab) & _).
    pose proof (tk_iteration _ Htab _ _ Hr) as Hit. unfold sr_key in Hkey. simplify_eq. done.
  - unfold reach_list. apply set_of_list_NoDup.
  - intros k' (r & Hr & _)%Hin. exists (summary_of r). apply (all_summaries_lookup d Htab). eauto.
Qed.

Lemma safe_finishExecutionIfDone (execution : ExecutionRecord) (step : StepRecord) (node : GraphNode) (d : Db) :
  seen_exec d execution -> safe (finishExecutionIfDone execution step node) d (fun _ _ => True).
Proof.
  intros Hseen. unfold finishExecutionIfDone. cbv zeta.
  eapply safe_bind.
  { apply safe_lift. intros reach Hreach d1 _ _. exact Hreach. }
  intros reach d1 Hle1 HI1 Hreach. cbv beta in Hreach.
  eapply safe_bind; [apply safe_loadTerminalIterations|]. intros T d2 Hle2 HI2 HT.
  destruct (countExpectedSettledSteps _ _ _) as [n|] eqn:Hcount; [|by intros d3].
  apply safe_step. intros d3 Hle3 HI3. split; [done|]. intros settled d4 [[= ->] ->] _ _.
  destruct (_ <? n)%Z eqn:Hlt; [by intros d4|]. apply Z.ltb_ge in Hlt.
  assert (Hle03 : db_le d d3) by (etrans; [exact Hle1|]; by etrans).
  destruct (seen_exec_later _ _ _ Hle03 Hseen) as (x & Hx & Hg & _).
  destruct (inv_exec _ HI3 _ _ Hx) as [t Hxi]. pose proof (xi_valid _ _ _ _ Hxi) as HG.
  destruct (valid_findTrigger _ _ HG) as (tn & Hfind & Htn). unfold reachableNodeIds in Hreach.
  rewrite Hg, Hfind, Htn in Hreach. injection Hreach as <-. rewrite Hg in Hcount.
  assert (HT3 := terminals_ok_later _ _ (inv_table _ HI2) (inv_table _ HI3) Hle3 _ _ HT).
  destruct (counted_complete d3 _ x t T n HI3 Hx Hxi HT3 Hcount Hlt) as [Hend Hall].
  apply safe_step. intros d5 Hle5 HI5. split; [done|]. intros failed d6 [[= ->] ->] _ _.
  apply safe_step. intros d7 Hle7 HI7. split; [|intros; apply harmless_safe; unfold announceEnd; all_ops].
  unfold hasFailedSteps. destruct (has_failed _ _) eqn:Hf.
  { eapply failed_in_le; [exact Hle7|]. by apply (has_failed_spec _ _ (inv_table _ HI5)). }
  intros x7 t7 Hx7 HG7. assert (Hle37 : db_le d3 d7) by by etrans.
  destruct (dl_exec _ _ Hle37 _ _ Hx) as (x' & Hx' & Hl). assert (x' = x7) as -> by congruence.
  assert (Hgx : graph_of x7 = graph_of x) by (unfold graph_of; by rewrite (el_record _ _ Hl)).
  rewrite Hgx in HG7 |- *. rewrite (valid_trigger_unique _ _ _ HG7 HG).
  eapply Finished_later; [apply (inv_table _ HI5)|apply (inv_table _ HI7)|exact Hle7|].
  exists T. split; [eapply ended_later; [apply (inv_table _ HI3)|apply (inv_table _ HI5)|exact Hle5|exact Hend]|].
  intros k Hk. destruct (Hall k Hk) as (r & Hr & Hst). pose proof (row_at_settled _ _ _ _ _ Hle5 Hr Hst) as Hr5.
  exists r. split; [done|].
  assert (Hnf : ~ failed_in d5 (er_id execution)).
  { intros H. apply (has_failed_spec _ _ (inv_table _ HI5)) in H. congruence. }
  destruct (dl_exec _ _ Hle5 _ _ Hx) as (x5 & Hx5 & _). destruct (inv_exec _ HI5 _ _ Hx5) as [t5 Hxi5].
  destruct (sr_status r) eqn:Hs; auto; try done; exfalso; apply Hnf.
  - by eapply failed_in_row.
  - by eapply (xi_cancelled _ _ _ _ Hxi5).
Qed.

Lemma safe_settled_handle (e s : string) (d : Db) : safe (settled_handle e s) d (fun _ _ => True).
Proof.
  unfold settled_handle. eapply (safe_bind _ _ _ (fun '(step, execution) d' =>
    seen_exec d' execution /\ er_id execution = e /\
    (isSettledStatus (sr_status step) = true -> row_at d' (sr_executionId step) (sr_key step) step))).
  - unfold promise_all. apply safe_step. intros d1 _ _. split; [done|]. intros b d2 [_ ->] _ _.
    destruct (b : bool).
    + apply safe_step. intros d2 _ HI2. split; [done|]. intros step d3 [Hs ->] _ _.
      apply safe_step. intros d4 Hle4 HI4. split; [done|]. intros execution d5 [He ->] _ _.
      symmetry in Hs, He. apply loadStep_row in Hs; [|apply (inv_table _ HI2)].
      apply loadExecution_seen in He as [Hseen Hid]. intros d6 Hle6 _.
      split_and!; [by eapply seen_exec_later|done|]. intros Hst.
      eapply row_at_settled; [|exact Hs|done]. by etrans.
    + apply safe_step. intros d2 _ HI2. split; [done|]. intros execution d3 [He ->] _ _.
      apply safe_step. intros d4 Hle4 HI4. split; [done|]. intros step d5 [Hs ->] _ _.
      symmetry in Hs, He. apply loadStep_row in Hs; [|apply (inv_table _ HI4)].
      apply loadExecution_seen in He as [Hseen Hid]. intros d6 Hle6 _.
      split_and!; [|done|intros Hst; by eapply row_at_settled].
      eapply seen_exec_later; [|done]. by etrans.
  - intros [step execution] d1 Hle1 HI1 (Hseen & Hid & Hrow).
    destruct (validateStepContext step execution) as [node|err] eqn:Hv; [|by simpl].
    assert (Hctx : sr_executionId step = er_id execution).
    { unfold validateStepContext in Hv. by case_decide. }
    change (safe (if decide (sr_status step = failed) then failExecution execution step node
      else if negb (bool_decide (er_status execution = ex_running)) then Ret tt
      else if bool_decide (sr_status step = completed) || bool_decide (sr_status step = skipped) then
        failed ← call (HasFailedSteps (er_id execution));
        if (failed : bool) then failExecution execution step node
        else
          queued ← planSuccessors execution step;
          if (0 <? queued)%Z then Ret tt else finishExecutionIfDone execution step node
      else finishExecutionIfDone execution step node) d1 (fun _ _ => True)).
    case_decide as Hf.
    { apply safe_failExecution. eapply failed_in_row; [|exact Hf]. rewrite <-Hctx. apply Hrow. by rewrite Hf. }
    destruct (bool_decide (er_status execution = ex_running)) eqn:Hrun; [|by intros d2].
    apply bool_decide_eq_true in Hrun. cbn [negb].
    destruct (_ || _) eqn:Hcs; [|by apply safe_finishExecutionIfDone].
    assert (Hst : isSettledStatus (sr_status step) = true).
    { apply orb_true_iff in Hcs as [H%bool_decide_eq_true|H%bool_decide_eq_true]; by rewrite H. }
    specialize (Hrow Hst). rewrite Hctx in Hrow.
    apply safe_step. intros d2 Hle2 HI2. split; [done|]. intros failed d3 [[= ->] ->] _ _.
    assert (Hseen2 := seen_exec_later _ _ _ Hle2 Hseen). assert (Hrow2 := row_at_settled _ _ _ _ _ Hle2 Hrow Hst).
    unfold hasFailedSteps. destruct (has_failed _ _) eqn:Hfail.
    { apply safe_failExecution. by apply (has_failed_spec _ _ (inv_table _ HI2)). }
    eapply safe_bind; [by apply safe_planSuccessors|]. intros q d4 Hle4 _ _.
    case_match; [by intros d5|]. apply safe_finishExecutionIfDone. by eapply seen_exec_later.
Qed.

Lemma safe_orchestration (message : OrchestrationMessage) (d : Db) :
  safe (orchestration_worker message) d (fun _ _ => True).
Proof. destruct message; [apply safe_start_handle|apply safe_settled_handle]. Qed.

(** ** Every reachable world *)

Record WorldInv (w : World) : Prop := {
  wi_inv : Inv (w_db w);
  wi_threads : forall p, p ∈ w_threads w -> safe p (w_db w) (fun _ _ => True);
}.

Lemma Inv_empty : Inv empty_db.
Proof. split; [split|]; simpl; intros; by simplify_map_eq. Qed.

Section reachable_worlds.
Context (v1StepExecutor : bool) (stack_of : EngineError -> option string).
Local Notation wstep := (wstep v1StepExecutor stack_of).

Lemma wstep_inv (w w' : World) : WorldInv w -> wstep w w' -> WorldInv w' /\ db_le (w_db w) (w_db w').
Proof.
  intros [HI Hth] Hstep. destruct Hstep as [d tr ps request|d tr ps m Hm|d tr ps m Hm|d tr ps1 ps2 o k r d' He
    |d tr ps1 ps2 o k err|d tr ps1 ps2 p]; simpl in *.
  - split; [|reflexivity]. split; simpl; [done|].
    intros p [Hp|Hp%list_elem_of_singleton]%elem_of_app; [auto|subst; apply safe_start].
  - split; [|reflexivity]. split; simpl; [done|].
    intros p [Hp|Hp%list_elem_of_singleton]%elem_of_app; [auto|subst; apply safe_orchestration].
  - split; [|reflexivity]. split; simpl; [done|].
    intros p [Hp|Hp%list_elem_of_singleton]%elem_of_app; [auto|subst].
    apply harmless_safe. destruct m. apply harmless_ready.
  - destruct (Hth (Call o k) ltac:(set_solver) d ltac:(reflexivity) HI) as [Hok Hk].
    assert (Hdb : Inv d' /\ db_le d d').
    { destruct He as [He|(r' & err & _ & He)]; by eapply op_ok_inv. }
    destruct Hdb as [HI' Hle]. split; [|done]. split; simpl; [done|].
    intros p [Hp|[->|Hp]%elem_of_cons]%elem_of_app.
    + eapply safe_mono; [done|]. apply Hth. set_solver.
    + apply Hk; [by left|done|done].
    + eapply safe_mono; [done|]. apply Hth. set_solver.
  - split; [|reflexivity]. split; simpl; [done|].
    intros p [Hp|[->|Hp]%elem_of_cons]%elem_of_app; [apply Hth; set_solver| |apply Hth; set_solver].
    destruct (Hth (Call o k) ltac:(set_solver) d ltac:(reflexivity) HI) as [_ Hk].
    apply Hk; [right; eauto|done|reflexivity].
  - split; [|reflexivity]. split; simpl; [done|]. intros p' Hp'. apply Hth. set_solver.
Qed.

Lemma wsteps_inv (w w' : World) : WorldInv w -> rtc wstep w w' -> WorldInv w' /\ db_le (w_db w) (w_db w').
Proof.
  intros HI Hs. induction Hs as [w|w1 w2 w3 H12 _ IH]; [split; [done|reflexivity]|].
  destruct (wstep_inv _ _ HI H12) as [HI2 Hle]. destruct (IH HI2) as [HI3 Hle3]. split; [done|by etrans].
Qed.

Lemma reachable_inv (w : World) : reachable_world v1StepExecutor stack_of w -> WorldInv w.
Proof.
  intros Hw. apply (wsteps_inv initial); [|done]. split; [apply Inv_empty|]. simpl. set_solver.
Qed.
End reachable_worlds.
