(* ===== verification/EngineOnce.v ===== *)
(** * Engine v2: what happens at most once

    Messages may be delivered any number of times and handlers interleave, so the engine
    makes an outcome unique by a compare-and-set: only the caller whose write won acts on
    it.  A token counts that: a program gains one when its write wins, and must spend one
    to act.  If a write can win at most once, the act happens at most once. *)

From stdpp Require Import base gmap strings pretty list fin_maps relations.
From Stdlib Require Import ZArith Lia.
From S2P Require Import Prelude.
From S2P Require Import JsCollections.
From S2P Require Import EngineTypes.
From S2P Require Import EngineGraph.
From S2P Require Import EngineScc.
From S2P Require Import EngineLoops.
From S2P Require Import EngineSettlement.
From S2P Require Import EnginePlan.
From S2P Require Import EngineStore.
From S2P Require Import EngineProgram.
From S2P Require Import EngineBatch.
From S2P Require Import EngineHandlers.
From S2P Require Import EngineWorld.

(** What an answer says about the question. *)
Definition plausible (o : op) : result (resp o) -> Prop :=
  match o as o return result (resp o) -> Prop with
  | ClaimStep id => fun r => forall step, r = Ok (Some step) -> sr_id step = id
  | CreateSteps _ _ => fun r => forall created, r = Ok created -> NoDup (map cs_id created)
  | _ => fun _ => True
  end.

Lemma op_db_plausible (o : op) (d : Db) (r : result (resp o)) (d' : Db) :
  TableOk d -> op_db o d r d' -> plausible o r.
Proof.
  intros HT. destruct o; simpl; try done.
  - intros (qf & ids & _ & Heq) created ->. apply (f_equal fst) in Heq. simpl in Heq.
    by destruct (cr_created _ _ _ _ _ (createSteps_created qf d executionId records ids HT) created (eq_sym Heq)).
  - intros [-> ->] step. unfold claimStep. destruct (steps d !! id) as [row|] eqn:Hr; [|done].
    destruct (executions d !! _); [|done]. case_decide; [|done]. destruct (has_failed _ _); [done|].
    simpl. intros [= <-]. simpl. by apply (tk_id _ HT).
Qed.

(** An act that needs a token, and the answers that hand one out. *)
Record Token := {
  spend : op -> bool;
  gain : forall o, result (resp o) -> bool;
  (* once handed out, it shows in the tables *)
  granted : Db -> bool;
}.

Record TokenOk (k : Token) : Prop := {
  tok_err : forall o err, gain k o (Err err) = false;
  tok_gain : forall o d r d', TableOk d -> op_db o d r d' -> gain k o r = true ->
    granted k d = false /\ granted k d' = true;
  tok_stays : forall d d', TableOk d -> TableOk d' -> db_le d d' -> granted k d = true -> granted k d' = true;
  tok_reads : forall o, is_read o = true -> spend k o = false /\ forall r, gain k o r = false;
}.

Section token.
Context (tk : Token).

(** With [n] tokens in hand the program never lacks one, and [Q] holds of what it
    returns and what it has left. *)
Fixpoint within {A} (n : nat) (p : prog A) (Q : A -> nat -> Prop) : Prop :=
  match p with
  | Ret a => Q a n
  | Throw _ => True
  | Call o k =>
      if spend tk o then match n with O => False | S n => forall r, plausible o r -> within n (k r) Q end
      else forall r, plausible o r -> within (if gain tk o r then S n else n) (k r) Q
  end.

Lemma within_bind {A B} (n : nat) (p : prog A) (f : A -> prog B) (Q : A -> nat -> Prop) (R : B -> nat -> Prop) :
  within n p Q -> (forall a m, Q a m -> within m (f a) R) -> within n (p ≫= f) R.
Proof.
  intros Hp Hf. change (p ≫= f) with (prog_bind p f). revert n Hp.
  induction p as [a|err|o k IH]; intros n Hp; [by apply Hf|done|].
  simpl in Hp |- *. change (prog_bind (Call o k) f) with (Call o (fun r => prog_bind (k r) f)). simpl.
  destruct (spend tk o); [destruct n; [done|]|]; intros r Hr; by apply IH, Hp.
Qed.

Lemma within_conseq {A} (n : nat) (p : prog A) (Q R : A -> nat -> Prop) :
  within n p Q -> (forall a m, Q a m -> R a m) -> within n p R.
Proof.
  intros Hp HQR. revert n Hp. induction p as [a|err|o k IH]; simpl; intros n Hp; [auto|done|].
  destruct (spend tk o); [destruct n; [done|]|]; intros r Hr; by apply IH, Hp.
Qed.

Context (Hok : TokenOk tk).

(** A program that neither spends nor gains. *)
Definition idle (o : op) : Prop := spend tk o = false /\ forall r, gain tk o r = false.

Lemma within_idle {A} (n : nat) (p : prog A) : all_ops idle p -> within n p (fun _ m => m = n).
Proof.
  induction p as [a|err|o k IH]; intros H; [done|done|]. destruct H as [[Hs Hg] Hk]. simpl.
  rewrite Hs. intros r _. rewrite Hg. apply IH, Hk.
Qed.

Lemma within_reads {A} (n : nat) (p : prog A) : reads_only p -> within n p (fun _ m => m = n).
Proof. intros H. apply within_idle. revert H. apply all_ops_mono. apply (tok_reads _ Hok). Qed.

Lemma within_lift {A} (n : nat) (r : result A) : within n (lift r) (fun a m => m = n /\ r = Ok a).
Proof. by destruct r. Qed.

(** A call that spends nothing. *)
Lemma within_call {B} (n : nat) (o : op) (f : resp o -> prog B) (R : B -> nat -> Prop) :
  spend tk o = false ->
  (forall a, plausible o (Ok a) -> within (if gain tk o (Ok a) then S n else n) (f a) R) ->
  within n (call o ≫= f) R.
Proof. intros Hs Hf. simpl. rewrite Hs. intros [a|err] Hr; [by apply Hf|done]. Qed.

Lemma within_read_call {B} (n : nat) (o : op) (f : resp o -> prog B) (R : B -> nat -> Prop) :
  is_read o = true -> (forall a, plausible o (Ok a) -> within n (f a) R) -> within n (call o ≫= f) R.
Proof.
  intros Hr Hf. destruct (tok_reads _ Hok o Hr) as [Hs Hg]. apply within_call; [done|].
  intros a Ha. rewrite Hg. by apply Hf.
Qed.

(** An act: with a token in hand if it needs one. *)
Lemma within_act {B} (n : nat) (o : op) (f : resp o -> prog B) (R : B -> nat -> Prop) :
  (spend tk o = true -> n <> O) -> (forall r, gain tk o r = false) ->
  (forall a, within (if spend tk o then pred n else n) (f a) R) -> within n (call o ≫= f) R.
Proof.
  intros Hs Hg Hf. simpl. destruct (spend tk o).
  - destruct n as [|n]; [by destruct Hs|]. intros [a|err] _; [apply Hf|done].
  - intros [a|err] _; [rewrite Hg; apply Hf|done].
Qed.

Lemma within_read_bind {A B} (n : nat) (p : prog A) (f : A -> prog B) (R : B -> nat -> Prop) :
  reads_only p -> (forall a, within n (f a) R) -> within n (p ≫= f) R.
Proof. intros Hp Hf. eapply within_bind; [by apply within_reads|]. intros a m ->. apply Hf. Qed.

Lemma within_lift_bind {A B} (n : nat) (r : result A) (f : A -> prog B) (R : B -> nat -> Prop) :
  (forall a, r = Ok a -> within n (f a) R) -> within n (lift r ≫= f) R.
Proof. intros Hf. eapply within_bind; [apply within_lift|]. intros a m [-> Ha]. by apply Hf. Qed.

(** ** Tokens in a world *)

Definition holds (n : nat) (p : prog unit) : Prop := within n p (fun _ _ => True).

Definition spent (tr : list op) : nat := length (arr_filter (spend tk) tr).

Definition Tokens (w : World) : Prop :=
  exists ns, Forall2 holds ns (w_threads w) /\
    sum_list ns + spent (w_trace w) <= (if granted tk (w_db w) then 1 else 0).

Lemma spent_snoc (tr : list op) (o : op) : spent (tr ++ [o]) = spent tr + (if spend tk o then 1 else 0).
Proof.
  unfold spent, arr_filter. rewrite List.filter_app, length_app. simpl. by destruct (spend tk o).
Qed.

Context (v1StepExecutor : bool) (stack_of : EngineError -> option string).
Context (Hstart : forall request, holds 0 (start request ;; Ret tt)).
Context (Horch : forall message, holds 0 (orchestration_worker message)).
Context (Hready : forall message, holds 0 (step_worker v1StepExecutor stack_of message)).

Lemma Tokens_spawn (d : Db) (tr : list op) (ps : list (prog unit)) (p : prog unit) :
  Tokens (Build_World d tr ps) -> holds 0 p -> Tokens (Build_World d tr (ps ++ [p])).
Proof.
  intros (ns & Hns & Hsum) Hp. exists (ns ++ [0]). simpl in *. split.
  - by apply Forall2_app; [|constructor].
  - rewrite sum_list_with_app. simpl. lia.
Qed.

Lemma wstep_tokens (w w' : World) :
  TableOk (w_db w) -> TableOk (w_db w') -> db_le (w_db w) (w_db w') ->
  Tokens w -> wstep v1StepExecutor stack_of w w' -> Tokens w'.
Proof.
  intros HT HT' Hle HTok Hstep. destruct Hstep as [d tr ps request|d tr ps m Hm|d tr ps m Hm|d tr ps1 ps2 o k r d' He
    |d tr ps1 ps2 o k err|d tr ps1 ps2 p]; simpl in *; try (by apply Tokens_spawn).
  - destruct HTok as (ns & Hns & Hsum). simpl in *.
    apply Forall2_app_inv_r in Hns as (ns1 & ns2 & Hns1 & Hns2 & ->).
    apply Forall2_cons_inv_r in Hns2 as (n & ns3 & Hn & Hns3 & ->).
    rewrite sum_list_with_app in Hsum. simpl in Hsum. unfold holds in Hn. simpl in Hn.
    assert (Hpl : plausible o r).
    { destruct He as [He|(r' & err & -> & He)]; [exact (op_db_plausible o d r d' HT He)|]. by destruct o. }
    assert (Hmono : (if granted tk d then 1 else 0) <= (if granted tk d' then 1 else 0)).
    { destruct (granted tk d) eqn:Hg; [|lia]. by rewrite (tok_stays _ Hok d d'). }
    destruct (spend tk o) eqn:Hs.
    + destruct n as [|n]; [done|]. exists (ns1 ++ n :: ns3). simpl. split.
      * apply Forall2_app; [done|]. constructor; [by apply Hn|done].
      * rewrite sum_list_with_app, spent_snoc, Hs. simpl. lia.
    + exists (ns1 ++ (if gain tk o r then S n else n) :: ns3). simpl. split.
      * apply Forall2_app; [done|]. constructor; [by apply Hn|done].
      * rewrite sum_list_with_app, spent_snoc, Hs. simpl. destruct (gain tk o r) eqn:Hg; [|lia].
        destruct He as [He|(r' & err & -> & _)]; [|by rewrite (tok_err _ Hok) in Hg].
        destruct (tok_gain _ Hok o d r d' HT He Hg) as [Hg1 Hg2]. rewrite Hg1 in Hsum. rewrite Hg2. lia.
  - destruct HTok as (ns & Hns & Hsum). simpl in *.
    apply Forall2_app_inv_r in Hns as (ns1 & ns2 & Hns1 & Hns2 & ->).
    apply Forall2_cons_inv_r in Hns2 as (n & ns3 & Hn & Hns3 & ->).
    rewrite sum_list_with_app in Hsum. simpl in Hsum. unfold holds in Hn. simpl in Hn.
    assert (Hpl : plausible o (Err err)) by by destruct o.
    destruct (spend tk o) eqn:Hs.
    + destruct n as [|n]; [done|]. exists (ns1 ++ n :: ns3). simpl. split.
      * apply Forall2_app; [done|]. constructor; [by apply Hn|done].
      * rewrite sum_list_with_app. simpl. lia.
    + exists (ns1 ++ n :: ns3). simpl. split.
      * apply Forall2_app; [done|]. constructor; [|done].
        specialize (Hn (Err err) Hpl). by rewrite (tok_err _ Hok) in Hn.
      * rewrite sum_list_with_app. simpl. lia.
  - destruct HTok as (ns & Hns & Hsum). simpl in *.
    apply Forall2_app_inv_r in Hns as (ns1 & ns2 & Hns1 & Hns2 & ->).
    apply Forall2_cons_inv_r in Hns2 as (n & ns3 & Hn & Hns3 & ->).
    exists (ns1 ++ ns3). simpl. split; [by apply Forall2_app|].
    rewrite sum_list_with_app in Hsum |- *. simpl in Hsum. lia.
Qed.

Lemma reachable_tokens (w : World) :
  reachable_world v1StepExecutor stack_of w -> spent (w_trace w) <= (if granted tk (w_db w) then 1 else 0).
Proof.
  intros Hw. cut (Tokens w /\ WorldInv w).
  { intros [(ns & _ & Hsum) _]. lia. }
  unfold reachable_world in Hw. revert w Hw. apply rtc_ind_r.
  - split; [|apply (reachable_inv v1StepExecutor stack_of), rtc_refl]. exists []. split; [constructor|]. simpl.
    unfold spent. simpl. lia.
  - intros w w' _ Hstep [HTok HI]. destruct (wstep_inv _ _ w w' HI Hstep) as [HI' Hle]. split; [|done].
    eapply wstep_tokens; [apply (inv_table _ (wi_inv _ HI))|apply (inv_table _ (wi_inv _ HI'))|done|done|done].
Qed.
End token.

#[global] Arguments within : simpl never.

Lemma holds_idle (tk : Token) (n : nat) (p : prog unit) : all_ops (idle tk) p -> holds tk n p.
Proof. intros H. eapply within_conseq; [by apply within_idle|done]. Qed.

Lemma within_true_idle {A} (tk : Token) (n : nat) (p : prog A) : all_ops (idle tk) p -> within tk n p (fun _ _ => True).
Proof. intros H. eapply within_conseq; [by apply within_idle|done]. Qed.


Lemma reads_promise_all {A B} (p : prog A) (q : prog B) : reads_only p -> reads_only q -> reads_only (promise_all p q).
Proof. intros Hp Hq. unfold promise_all. all_ops. Qed.

(** Which calls the planner, and each whole handler, can make. *)
Definition planner_op (o : op) : bool :=
  match o with
  | LoadLatestStepSummaries _ _ | LoadStepSummariesByKeys _ _ | CreateSteps _ _ | PublishStep _
  | PublishOrchestration _ => true
  | _ => false
  end.

Definition request_op (o : op) : bool :=
  match o with EvaluateAdmittance _ | CreateExecution _ | PublishOrchestration _ => true | _ => false end.

Definition start_op (o : op) : bool :=
  match o with
  | TransitionStatus _ _ _ | LoadExecution _ | Now | PublishEvent (ExecutionStarted _ _ _ _ _) | CreateSteps _ _
  | PublishOrchestration _ => true
  | _ => false
  end.

Definition settled_op (o : op) : bool :=
  match o with
  | ClaimStep _ | CompleteStep _ _ | FailStep _ _ | Execute _ | TransitionStatus _ _ _ | CreateExecution _ => false
  | PublishEvent (ExecutionCompleted _ _ _ | ExecutionFailed _ _ _) => true
  | PublishEvent _ => false
  | _ => true
  end.

Definition ready_op (o : op) : bool :=
  match o with
  | ClaimStep _ | CompleteStep _ _ | FailStep _ _ | Execute _ | PublishOrchestration _ => true
  | PublishEvent (StepStarted _ | StepCompleted _ _ | StepFailed _) => true
  | o => is_read o
  end.

Notation ops_in f := (all_ops (fun o => f o = true)).

Lemma ops_announceCreatedSteps (e : string) (created : list CreatedStep) (queuedKeys : list string) :
  ops_in planner_op (announceCreatedSteps e created queuedKeys).
Proof.
  unfold announceCreatedSteps. generalize 0%Z. induction created as [|c created IH]; intros z; [done|].
  cbn [prog_fold]. apply all_ops_bind; [|intros; apply IH]. case_match; all_ops.
Qed.

Lemma ops_loadTerminalIterations (e : string) (ids : list string) : ops_in planner_op (loadTerminalIterations e ids).
Proof. unfold loadTerminalIterations. destruct ids; [done|]. apply all_ops_bind; [by apply all_ops_call|done]. Qed.

Lemma ops_planSuccessors (execution : ExecutionRecord) (step : StepRecord) :
  ops_in planner_op (planSuccessors execution step).
Proof.
  unfold planSuccessors. cbv zeta. apply all_ops_bind; [apply ops_loadTerminalIterations|]. intros T.
  apply all_ops_bind; [by apply all_ops_call|]. intros S.
  destruct (toQueue _), (toSkip _); try done.
  all: (apply all_ops_bind; [by apply all_ops_call|]; intros created; apply ops_announceCreatedSteps).
Qed.

Lemma ops_start (request : StartExecutionRequest) : ops_in request_op (start request ;; Ret tt).
Proof. apply all_ops_bind; [|done]. unfold start. all_ops. Qed.

Lemma ops_start_handle (e : string) : ops_in start_op (start_handle e).
Proof. unfold start_handle. all_ops. Qed.

Lemma ops_settled_handle (e s : string) : ops_in settled_op (settled_handle e s).
Proof.
  unfold settled_handle, promise_all. all_ops.
  all: try (eapply all_ops_mono; [|apply ops_planSuccessors]; by intros []).
  all: unfold failExecution, finishExecutionIfDone, announceEnd; cbv zeta; all_ops.
  all: try (eapply all_ops_mono; [|apply ops_loadTerminalIterations]; by intros []).
  all: eapply all_ops_mono; [|apply ops_announceCreatedSteps]; by intros [].
Qed.

Lemma ops_ready_handle (v1 : bool) (stack_of : EngineError -> option string) (e s : string) :
  ops_in ready_op (ready_handle v1 stack_of e s).
Proof.
  assert (Hr : forall A (p : prog A), reads_only p -> ops_in ready_op p).
  { intros A p. apply all_ops_mono. intros o Ho. destruct o; simpl in *; done. }
  unfold ready_handle, runStep. all_ops.
  all: try (apply Hr; auto using reads_gatherInputs, reads_runBatchNode, reads_stepEventFields).
Qed.

(** ** The end of an execution *)

(** The two announcements: the lifecycle event and the response to the caller. *)
Inductive EndAct := end_event | end_response.

Definition announces_end (act : EndAct) (e : string) (o : op) : bool :=
  match act, o with
  | end_response, SendResponse m => bool_decide (em_executionId m = e)
  | end_event, PublishEvent (ExecutionCompleted id _ _) => bool_decide (id = e)
  | end_event, PublishEvent (ExecutionFailed id _ _) => bool_decide (id = e)
  | _, _ => false
  end.

Definition finish_won (e : string) (o : op) : result (resp o) -> bool :=
  match o as o return result (resp o) -> bool with
  | FinishExecution id _ => fun r => match r with Ok b => bool_decide (id = e) && b | Err _ => false end
  | _ => fun _ => false
  end.

Definition is_finished (e : string) (d : Db) : bool :=
  match executions d !! e with
  | Some x => bool_decide (ex_status x = ex_completed) || bool_decide (ex_status x = ex_failed)
  | None => false
  end.

Definition end_token (act : EndAct) (e : string) : Token :=
  {| spend := announces_end act e; gain := finish_won e; granted := is_finished e |}.

Lemma end_token_ok (act : EndAct) (e : string) : TokenOk (end_token act e).
Proof.
  split; simpl.
  - by intros [].
  - intros [] d r d' HT Hop; simpl in *; try done. destruct Hop as (now & -> & ->).
    intros [->%bool_decide_eq_true Hb]%andb_true_iff. revert Hb. unfold finishExecution, is_finished.
    destruct (executions d !! e) as [x|] eqn:Hx; [|done]. case_decide as Hs; [|done]. simpl. intros _.
    rewrite Hs, lookup_insert_eq. simpl. by destruct status.
  - intros d d' _ _ Hle. unfold is_finished. destruct (executions d !! e) as [x|] eqn:Hx; [|done].
    destruct (dl_exec _ _ Hle _ _ Hx) as (x' & -> & Hl). pose proof (el_status _ _ Hl).
    by destruct (ex_status x), (ex_status x').
  - intros []; try done; by destruct act.
Qed.

Section end_once.
Context (act : EndAct) (e : string).
Local Notation tk := (end_token act e).

Lemma idle_end (o : op) :
  match o with SendResponse _ | PublishEvent (ExecutionCompleted _ _ _ | ExecutionFailed _ _ _)
    | FinishExecution _ _ => False | _ => True end -> idle tk o.
Proof. unfold idle, tk, announces_end. destruct o as [| | | | | | | | | | | | | | | | |[]| | | | |], act; simpl; done. Qed.

Lemma announce_within (execution : ExecutionRecord) (step : StepRecord) (node : GraphNode) (status : FinishStatus)
    (event : LifecycleEvent) (b : bool) :
  (forall act', announces_end act' e (PublishEvent event) = match act' with
     | end_event => bool_decide (er_id execution = e) | end_response => false end) ->
  within tk (if bool_decide (er_id execution = e) && b then 1 else 0)
    (if b then call (PublishEvent event) ;; announceEnd execution step node status else Ret tt) (fun _ _ => True).
Proof.
  intros Hev. destruct b; [|done]. rewrite andb_true_r.
  apply within_act; [|done|].
  - simpl. rewrite Hev. destruct act; [|done]. by intros ->.
  - intros _. cbn [spend tk]. simpl. rewrite Hev. unfold announceEnd.
    destruct (negb _); [done|]. unfold call. hnf. cbn [spend tk end_token announces_end em_executionId].
    destruct act; simpl.
    + by intros [].
    + destruct (bool_decide (er_id execution = e)); by intros [].
Qed.

Lemma fail_within (execution : ExecutionRecord) (step : StepRecord) (node : GraphNode) :
  within tk 0 (failExecution execution step node) (fun _ _ => True).
Proof.
  unfold failExecution. apply within_call; [by destruct act|]. intros finished _.
  cbn [gain end_token finish_won].
  eapply (within_bind _ _ _ _ (fun _ _ => True)); [|intros; by apply within_true_idle, all_ops_call, idle_end].
  destruct finished eqn:Hfin; [|done].
  apply (within_read_call _ (end_token_ok act e)); [done|]. intros now _.
  apply (announce_within execution step node fin_failed _ true). by intros [].
Qed.

Lemma finish_within (execution : ExecutionRecord) (step : StepRecord) (node : GraphNode) :
  within tk 0 (finishExecutionIfDone execution step node) (fun _ _ => True).
Proof.
  unfold finishExecutionIfDone. cbv zeta. apply within_lift_bind. intros reach _.
  apply (within_read_bind _ (end_token_ok act e)); [apply reads_loadTerminalIterations|]. intros T.
  destruct (countExpectedSettledSteps _ _ _); [|done].
  apply (within_read_call _ (end_token_ok act e)); [done|]. intros settled _. case_match; [done|].
  apply (within_read_call _ (end_token_ok act e)); [done|]. intros failed _.
  apply within_call; [by destruct act|]. intros finished _.
  cbn [gain end_token finish_won]. destruct finished eqn:Hfin; [|done].
  apply (within_read_call _ (end_token_ok act e)); [done|]. intros now _.
  apply (announce_within execution step node _ _ true). intros []; by destruct failed.
Qed.

Lemma idle_ops {A} (f : op -> bool) (p : prog A) :
  (forall o, f o = true -> idle tk o) -> ops_in f p -> all_ops (idle tk) p.
Proof. intros Hf. by apply all_ops_mono. Qed.

Lemma settled_within (id s : string) : holds tk 0 (settled_handle id s).
Proof.
  unfold holds, settled_handle.
  apply (within_read_bind _ (end_token_ok act e)); [apply reads_promise_all; by apply all_ops_call|].
  intros [step execution]. apply within_lift_bind. intros node _.
  case_decide; [apply fail_within|]. destruct (negb _); [done|]. destruct (_ || _); [|apply finish_within].
  apply (within_read_call _ (end_token_ok act e)); [done|]. intros failed _. destruct failed; [apply fail_within|].
  eapply within_bind; [apply within_idle; eapply idle_ops; [|apply ops_planSuccessors]; by intros [] ?; apply idle_end|]. intros q m ->. case_match; [done|apply finish_within].
Qed.


Lemma end_tokens (v1 : bool) (stack_of : EngineError -> option string) (w : World) :
  reachable_world v1 stack_of w -> spent tk (w_trace w) <= (if is_finished e (w_db w) then 1 else 0).
Proof.
  apply (reachable_tokens tk (end_token_ok act e)).
  - intros request. apply holds_idle. eapply idle_ops; [|apply ops_start]. by intros [] ?; apply idle_end.
  - intros [id|id s]; [|apply settled_within]. apply holds_idle. eapply idle_ops; [|apply ops_start_handle].
    intros [| | | | | | | | | | | | | | | | |[]| | | | |] ?; by apply idle_end.
  - intros [id s]. apply holds_idle. eapply idle_ops; [|apply ops_ready_handle].
    intros [| | | | | | | | | | | | | | | | |[]| | | | |] ?; by apply idle_end.
Qed.
End end_once.

(** ** The run of a step *)

(** Announcing the start, and handing the step to the host's executor. *)
Inductive RunAct := run_started | run_execute.

Definition runs_step (act : RunAct) (s : string) (o : op) : bool :=
  match act, o with
  | run_started, PublishEvent (StepStarted f) => bool_decide (sf_stepId f = s)
  | run_execute, Execute rq => bool_decide (sc_stepId (rq_context rq) = s)
  | _, _ => false
  end.

Definition claim_won (s : string) (o : op) : result (resp o) -> bool :=
  match o as o return result (resp o) -> bool with
  | ClaimStep id => fun r => match r with Ok (Some _) => bool_decide (id = s) | _ => false end
  | _ => fun _ => false
  end.

Definition left_queue (s : string) (d : Db) : bool :=
  match steps d !! s with Some r => negb (bool_decide (sr_status r = queued)) | None => false end.

Definition run_token (act : RunAct) (s : string) : Token :=
  {| spend := runs_step act s; gain := claim_won s; granted := left_queue s |}.

Lemma run_token_ok (act : RunAct) (s : string) : TokenOk (run_token act s).
Proof.
  split; simpl.
  - by intros [].
  - intros [] d r d' HT Hop; simpl in *; try done. destruct Hop as (-> & ->).
    unfold claimStep, left_queue. destruct (steps d !! id) as [row|] eqn:Hr; [|done].
    destruct (executions d !! _); [|done]. case_decide as Hs; [|done]. destruct (has_failed _ _); [done|].
    simpl. intros ->%bool_decide_eq_true. by rewrite Hr, Hs, lookup_insert_eq.
  - intros d d' _ _ Hle. unfold left_queue. destruct (steps d !! s) as [r|] eqn:Hr; [|done].
    destruct (dl_steps _ _ Hle _ _ Hr) as (r' & -> & Hl). pose proof (rl_status _ _ Hl).
    by destruct (sr_status r), (sr_status r').
  - intros []; try done; by destruct act.
Qed.

(** Recording and announcing the outcome. *)
Definition announces_outcome (s : string) (o : op) : bool :=
  match o with
  | PublishEvent (StepCompleted f _ | StepFailed f) => bool_decide (sf_stepId f = s)
  | _ => false
  end.

Definition outcome_won (s : string) (o : op) : result (resp o) -> bool :=
  match o as o return result (resp o) -> bool with
  | CompleteStep id _ => fun r => match r with Ok b => bool_decide (id = s) && b | Err _ => false end
  | FailStep id _ => fun r => match r with Ok b => bool_decide (id = s) && b | Err _ => false end
  | _ => fun _ => false
  end.

Definition is_settled (s : string) (d : Db) : bool :=
  match steps d !! s with Some r => isSettledStatus (sr_status r) | None => false end.

Definition outcome_token (s : string) : Token :=
  {| spend := announces_outcome s; gain := outcome_won s; granted := is_settled s |}.

Lemma outcome_token_ok (s : string) : TokenOk (outcome_token s).
Proof.
  split; simpl.
  - by intros [].
  - intros [] d r d' HT Hop; simpl in *; try done; destruct Hop as (-> & ->);
      intros [->%bool_decide_eq_true Hb]%andb_true_iff; revert Hb;
      unfold completeStep, transition, failStep, is_settled; (destruct (steps d !! s) as [row|] eqn:Hr; [|done]);
      (case_decide as Hs; [|done]); simpl; by rewrite Hs, lookup_insert_eq.
  - intros d d' _ _ Hle. unfold is_settled. destruct (steps d !! s) as [r|] eqn:Hr; [|done].
    destruct (dl_steps _ _ Hle _ _ Hr) as (r' & -> & Hl). intros Hst. by rewrite (rl_settled _ _ Hl Hst).
  - by intros [].
Qed.

Section step_once.
Context (v1 : bool) (stack_of : EngineError -> option string) (s : string).

(** What the fields of a step event name. *)
Lemma fields_within (tk : Token) (Hok : TokenOk tk) {B} (n : nat) (step : StepRecord) (node : GraphNode)
    (f : StepEventFields -> prog B) (R : B -> nat -> Prop) :
  (forall fields, sf_stepId fields = sr_id step -> within tk n (f fields) R) ->
  within tk n (stepEventFields step node ≫= f) R.
Proof.
  intros Hf. unfold stepEventFields.
  eapply (within_bind _ _ _ _ (fun fields m => sf_stepId fields = sr_id step /\ m = n)).
  - apply (within_read_call _ Hok); [done|]. by intros now _.
  - intros fields m [Hid ->]. by apply Hf.
Qed.

Section run.
Context (act : RunAct).
Local Notation tk := (run_token act s).
Let Hok : TokenOk tk := run_token_ok act s.

Lemma idle_run (o : op) :
  match o with ClaimStep _ | Execute _ | PublishEvent (StepStarted _) => False | _ => True end -> idle tk o.
Proof. unfold idle, tk, runs_step. destruct o as [| | | | | | | | | | | | | | | | |[]| | | | |], act; simpl; done. Qed.

Lemma outcome_tail_idle (step : StepRecord) (node : GraphNode) (e id : string) (run : result StepSlots) :
  all_ops (idle tk) (recorded ← match run with
               | Ok outputs => call (CompleteStep id outputs)
               | Err error => call (FailStep id (toStepError stack_of error))
               end;
    if negb recorded then Ret tt
    else
      fields ← stepEventFields step node;
      call (PublishEvent (match run with Ok outputs => StepCompleted fields outputs | Err _ => StepFailed fields end)) ;;
      call (PublishOrchestration (StepSettledEvent e id))).
Proof.
  apply all_ops_bind; [destruct run; apply all_ops_call; by apply idle_run|]. intros recorded.
  destruct (negb recorded); [done|]. apply all_ops_bind.
  { eapply all_ops_mono; [apply (tok_reads _ Hok)|apply reads_stepEventFields]. }
  intros fields. apply all_ops_bind; [apply all_ops_call; apply idle_run; by destruct run|].
  intros []. apply all_ops_call. by apply idle_run.
Qed.

Lemma ready_run_within (e id : string) : holds tk 0 (ready_handle v1 stack_of e id).
Proof.
  unfold holds, ready_handle. apply within_call; [by destruct act|]. intros [step|] Hpl; [|done].
  specialize (Hpl step eq_refl). cbn [gain run_token claim_won].
  set (n := if bool_decide (id = s) then 1 else 0).
  apply (within_read_call _ Hok); [done|]. intros execution _. apply within_lift_bind. intros node _.
  eapply (within_bind _ _ _ _ (fun _ m => m = n)).
  { case_decide; [done|]. eapply within_conseq; [apply within_lift|]. by intros [] m [-> _]. }
  intros [] m ->. destruct (negb (bool_decide (er_status execution = ex_running))); [done|].
  apply (fields_within _ Hok). intros fields Hf.
  apply within_act; [|done|].
  { destruct act; simpl; [|done]. rewrite Hf, Hpl. subst n. by intros ->. }
  intros []. apply (within_read_bind _ Hok); [apply reads_gatherInputs|]. intros inputs.
  eapply (within_bind _ _ _ _ (fun _ _ => True)); [|intros; apply within_true_idle, outcome_tail_idle].
  case_decide.
  { apply within_true_idle, all_ops_attempt. eapply all_ops_mono; [apply (tok_reads _ Hok)|apply reads_runBatchNode]. }
  unfold runStep, call. change (attempt (Call ?o lift)) with (Call o (fun r => attempt (lift r))).
  destruct act; simpl.
  - by intros [].
  - rewrite Hpl. subst n. unfold within. cbn [spend run_token runs_step rq_context sc_stepId].
    destruct (bool_decide (id = s)) eqn:Hid; by intros [].
Qed.

Lemma run_tokens (w : World) :
  reachable_world v1 stack_of w -> spent tk (w_trace w) <= (if left_queue s (w_db w) then 1 else 0).
Proof.
  apply (reachable_tokens tk Hok).
  - intros request. apply holds_idle. eapply all_ops_mono; [|apply ops_start]. by intros [] ?; apply idle_run.
  - intros [id|id sid]; apply holds_idle.
    + eapply all_ops_mono; [|apply ops_start_handle].
      intros [| | | | | | | | | | | | | | | | |[]| | | | |] ?; by apply idle_run.
    + eapply all_ops_mono; [|apply ops_settled_handle].
      intros [| | | | | | | | | | | | | | | | |[]| | | | |] ?; by apply idle_run.
  - intros [id sid]. apply ready_run_within.
Qed.
End run.

Local Notation tk := (outcome_token s).
Let Hok : TokenOk tk := outcome_token_ok s.

Lemma idle_outcome (o : op) :
  match o with CompleteStep _ _ | FailStep _ _ | PublishEvent (StepCompleted _ _ | StepFailed _) => False
  | _ => True end -> idle tk o.
Proof. unfold idle. destruct o as [| | | | | | | | | | | | | | | | |[]| | | | |]; simpl; done. Qed.

Lemma ready_outcome_within (e id : string) : holds tk 0 (ready_handle v1 stack_of e id).
Proof.
  unfold holds, ready_handle. apply within_call; [done|]. intros [step|] Hpl; [|done].
  specialize (Hpl step eq_refl). cbn [gain outcome_token outcome_won].
  apply (within_read_call _ Hok); [done|]. intros execution _. apply within_lift_bind. intros node _.
  eapply (within_bind _ _ _ _ (fun _ m => m = 0)).
  { case_decide; [done|]. eapply within_conseq; [apply within_lift|]. by intros [] m [-> _]. }
  intros [] m ->. destruct (negb (bool_decide (er_status execution = ex_running))); [done|].
  apply (fields_within _ Hok). intros fields0 _.
  apply within_call; [done|]. intros [] _. cbn [gain outcome_token outcome_won].
  apply (within_read_bind _ Hok); [apply reads_gatherInputs|]. intros inputs.
  eapply (within_bind _ _ _ _ (fun _ m => m = 0)).
  { apply within_idle, all_ops_attempt. case_decide.
    - eapply all_ops_mono; [apply (tok_reads _ Hok)|apply reads_runBatchNode].
    - unfold runStep. apply all_ops_call. by apply idle_outcome. }
  intros run m ->.
  eapply (within_bind _ _ _ _ (fun recorded m => m = if bool_decide (id = s) && recorded then 1 else 0)).
  { unfold call. destruct run; simpl; unfold within; simpl; by intros []. }
  intros recorded m ->. destruct recorded; [|done]. rewrite andb_true_r. cbn [negb].
  apply (fields_within _ Hok). intros fields Hf. apply within_act; [|done|].
  - destruct run; simpl; rewrite Hf, Hpl; by intros ->.
  - intros []. apply within_true_idle, all_ops_call. by apply idle_outcome.
Qed.

Lemma outcome_tokens (w : World) :
  reachable_world v1 stack_of w -> spent tk (w_trace w) <= (if is_settled s (w_db w) then 1 else 0).
Proof.
  apply (reachable_tokens tk Hok).
  - intros request. apply holds_idle. eapply all_ops_mono; [|apply ops_start]. by intros [] ?; apply idle_outcome.
  - intros [id|id sid]; apply holds_idle.
    + eapply all_ops_mono; [|apply ops_start_handle].
      intros [| | | | | | | | | | | | | | | | |[]| | | | |] ?; by apply idle_outcome.
    + eapply all_ops_mono; [|apply ops_settled_handle].
      intros [| | | | | | | | | | | | | | | | |[]| | | | |] ?; by apply idle_outcome.
  - intros [id sid]. apply ready_outcome_within.
Qed.
End step_once.
