(* ===== verification/EngineRun.v ===== *)
(** * Engine v2: a deterministic runner

    One schedule of the engine: one worker per queue, messages handled one after the other
    in the order they were published, no call failing, ids drawn from a counter.  It is an
    interpreter for the programs of [EngineProgram], so a whole execution can be evaluated,
    and every world it produces is reachable in the sense of [EngineWorld] (lemma
    [drain_reachable]): the theorems about reachable worlds apply to concrete runs. *)

From stdpp Require Import base gmap strings pretty list fin_maps relations.
From Stdlib Require Import ZArith Lia.
From S2P Require Import Prelude.
From S2P Require Import JsCollections.
From S2P Require Import EngineTypes.
From S2P Require Import EngineGraph.
From S2P Require Import EngineLoops.
From S2P Require Import EngineSettlement.
From S2P Require Import EngineStore.
From S2P Require Import EngineProgram.
From S2P Require Import EngineBatch.
From S2P Require Import EngineHandlers.
From S2P Require Import EngineWorld.

Section runner.
Context (queryFailed : EngineError) (executor : StepExecutionRequest -> result StepSlots).
Context (v1StepExecutor : bool) (stack_of : EngineError -> option string).

(** The tables, the calls made, and the counter behind ids and timestamps. *)
Record Runner := { r_db : Db; r_trace : list op; r_next : N }.

Definition fresh_ids (next : N) (n : nat) : list string :=
  map (fun i => String.append "id" (pretty (next + N.of_nat i)%N)) (seq 0 n).

Definition exec_op (o : op) (s : Runner) : result (resp o) * Runner :=
  let db := r_db s in
  let keep := {| r_db := db; r_trace := r_trace s ++ [o]; r_next := r_next s |} in
  let next d n := {| r_db := d; r_trace := r_trace s ++ [o]; r_next := (r_next s + n)%N |} in
  match o as o return (Runner -> (Db -> N -> Runner) -> result (resp o) * Runner) with
  | CreateExecution record => fun _ next =>
      let '(r, d) := createExecution queryFailed db record in (r, next d 0%N)
  | LoadExecution id => fun keep _ => (loadExecution db id, keep)
  | TransitionStatus id from to => fun _ next =>
      let '(b, d) := transitionStatus db id from to in (Ok b, next d 0%N)
  | FinishExecution id status => fun _ next =>
      let '(b, d) := finishExecution db id status (Z.of_N (r_next s)) in (Ok b, next d 1%N)
  | CreateSteps e records => fun _ next =>
      let '(r, d) := createSteps queryFailed db e records (fresh_ids (r_next s) (length records)) in
      (r, next d (N.of_nat (length records)))
  | LoadStep id => fun keep _ => (loadStep db id, keep)
  | ClaimStep id => fun _ next => let '(r, d) := claimStep db id in (Ok r, next d 0%N)
  | CompleteStep id outputs => fun _ next => let '(b, d) := completeStep db id outputs in (Ok b, next d 0%N)
  | FailStep id error => fun _ next => let '(b, d) := failStep db id error in (Ok b, next d 0%N)
  | CancelQueuedSteps e => fun _ next => (Ok tt, next (cancelQueuedSteps db e) 0%N)
  | LoadStepsByKeys e keys => fun keep _ => (Ok (loadStepsByKeys db e keys), keep)
  | LoadStepSummariesByKeys e keys => fun keep _ => (Ok (loadStepSummariesByKeys db e keys), keep)
  | LoadLatestStepSummaries e ids => fun keep _ => (Ok (loadLatestStepSummaries db e ids), keep)
  | CountSettledSteps e => fun keep _ => (Ok (countSettledSteps db e), keep)
  | HasFailedSteps e => fun keep _ => (Ok (hasFailedSteps db e), keep)
  | PublishOrchestration _ | PublishStep _ | PublishEvent _ | SendResponse _ => fun keep _ => (Ok tt, keep)
  | EvaluateAdmittance _ => fun keep _ => (Ok Accept, keep)
  | Execute request => fun keep _ => (executor request, keep)
  | Now => fun _ next => (Ok (Z.of_N (r_next s)), next db 1%N)
  | Race => fun keep _ => (Ok true, keep)
  end keep next.

Fixpoint run {A} (p : prog A) (s : Runner) : result A * Runner :=
  match p with
  | Ret a => (Ok a, s)
  | Throw e => (Err e, s)
  | Call o k => let '(r, s) := exec_op o s in run (k r) s
  end.

(** The next message of each kind: the one published after those already handled. *)
Definition orchestration_messages (tr : list op) : list OrchestrationMessage :=
  omap (fun o => match o with PublishOrchestration m => Some m | _ => None end) tr.
Definition step_messages (tr : list op) : list StepMessage :=
  omap (fun o => match o with PublishStep m => Some m | _ => None end) tr.

(** Handle messages until none is left: [i] and [j] count those already handled. *)
Fixpoint drain (fuel i j : nat) (s : Runner) : Runner :=
  match fuel with
  | O => s
  | S fuel =>
      match orchestration_messages (r_trace s) !! i with
      | Some m => drain fuel (S i) j (run (orchestration_worker m) s).2
      | None =>
          match step_messages (r_trace s) !! j with
          | Some m => drain fuel i (S j) (run (step_worker v1StepExecutor stack_of m) s).2
          | None => s
          end
      end
  end.

Definition run_request (fuel : nat) (request : StartExecutionRequest) : Runner :=
  drain fuel 0 0 (run (start request ;; Ret tt) {| r_db := empty_db; r_trace := []; r_next := 0%N |}).2.

(** ** Its worlds are reachable *)

Local Notation wstep := (wstep v1StepExecutor stack_of).

Lemma fresh_ids_length (next : N) (n : nat) : length (fresh_ids next n) = n.
Proof. unfold fresh_ids. by rewrite length_map, length_seq. Qed.

Lemma exec_op_db (o : op) (s : Runner) :
  op_db o (r_db s) (exec_op o s).1 (r_db (exec_op o s).2) /\ r_trace (exec_op o s).2 = r_trace s ++ [o].
Proof.
  destruct o; simpl; try (split; [split; eauto|done]); try done.
  - destruct (createExecution _ _ _) eqn:H; simpl. split; [|done]. exists queryFailed. by rewrite H.
  - by destruct (transitionStatus _ _ _ _).
  - destruct (finishExecution _ _ _ _) eqn:H; simpl. split; [|done]. eexists. by rewrite H.
  - destruct (createSteps _ _ _ _ _) eqn:H; simpl. split; [|done]. exists queryFailed. eexists.
    split; [|symmetry; exact H]. apply fresh_ids_length.
  - by destruct (claimStep _ _).
  - by destruct (completeStep _ _ _).
  - by destruct (failStep _ _ _).
Qed.

Lemma run_reaches (p : prog unit) (s : Runner) :
  rtc wstep (Build_World (r_db s) (r_trace s) [p]) (Build_World (r_db (run p s).2) (r_trace (run p s).2) []).
Proof.
  revert s. induction p as [a|err|o k IH]; intros s; simpl.
  - apply rtc_once. apply (ws_drop _ _ _ _ [] []).
  - apply rtc_once. apply (ws_drop _ _ _ _ [] []).
  - destruct (exec_op_db o s) as [Hop Htr]. destruct (exec_op o s) as [r s'] eqn:He. simpl in *.
    eapply rtc_l; [|apply IH]. rewrite Htr. apply (ws_call _ _ _ _ [] []). by left.
Qed.

Lemma elem_of_orchestration (tr : list op) (i : nat) (m : OrchestrationMessage) :
  orchestration_messages tr !! i = Some m -> PublishOrchestration m ∈ tr.
Proof.
  intros H%list_elem_of_lookup_2. unfold orchestration_messages in H.
  apply list_elem_of_omap in H as (o & Ho & Hm). by destruct o; simplify_eq.
Qed.

Lemma elem_of_step (tr : list op) (i : nat) (m : StepMessage) :
  step_messages tr !! i = Some m -> PublishStep m ∈ tr.
Proof.
  intros H%list_elem_of_lookup_2. unfold step_messages in H.
  apply list_elem_of_omap in H as (o & Ho & Hm). by destruct o; simplify_eq.
Qed.

Definition world_of (s : Runner) : World := Build_World (r_db s) (r_trace s) [].

Lemma drain_reaches (fuel i j : nat) (s : Runner) : rtc wstep (world_of s) (world_of (drain fuel i j s)).
Proof.
  revert i j s. induction fuel as [|fuel IH]; intros i j s; simpl; [done|].
  destruct (orchestration_messages _ !! i) as [m|] eqn:Hm.
  - eapply rtc_l; [apply (ws_orchestration _ _ _ _ [] m); by eapply elem_of_orchestration|].
    etrans; [apply run_reaches|apply IH].
  - destruct (step_messages _ !! j) as [m|] eqn:Hs; [|done].
    eapply rtc_l; [apply (ws_step _ _ _ _ [] m); by eapply elem_of_step|].
    etrans; [apply run_reaches|apply IH].
Qed.

Lemma run_request_reachable (fuel : nat) (request : StartExecutionRequest) :
  reachable_world v1StepExecutor stack_of (world_of (run_request fuel request)).
Proof.
  unfold run_request, reachable_world. etrans; [|apply drain_reaches].
  eapply rtc_l; [apply (ws_request _ _ _ _ [] request)|].
  apply (run_reaches _ {| r_db := empty_db; r_trace := []; r_next := 0%N |}).
Qed.
End runner.

(** ** A workflow with a loop, run to its end

    A trigger feeds a batch node that hands out two items per pass; the body wraps each
    item; the loop's result goes to a last node. *)

Section sample.
Local Open Scope string_scope.

Definition sample_node (id : string) (t : StepType) (config : option JsonValue) : GraphNode :=
  {| gn_id := id; gn_name := id; gn_type := t; gn_config := config |}.

Definition sample_edge (from to : string) (out : Z) (back : option bool) : GraphEdge :=
  mkEdge from to out 0 back.

Definition sample_graph : WorkflowGraph := {|
  nodes := [sample_node "trigger" trigger None;
            sample_node "loop" batch (Some (JObj [("batchSize", JNum 2)]));
            sample_node "body" v1_node None;
            sample_node "end" v1_node None];
  edges := [sample_edge "trigger" "loop" 0 None;
            sample_edge "loop" "body" 1 None;
            sample_edge "body" "loop" 0 (Some true);
            sample_edge "loop" "end" 0 None];
|}.

Definition sample_caller : CallerContext := {| userId := None; projectId := None; hostMode := "manual" |}.

Definition sample_request (items : list JsonValue) : StartExecutionRequest := {|
  rs_workflowId := "wf";
  rs_graph := sample_graph;
  rs_workflow := JNull;
  rs_triggerOutputs := Some [JArr items];
  rs_mode := None;
  rs_callerContext := sample_caller;
  rs_executionId := "exec";
|}.

(** The host: a body node wraps each item it is handed; the others pass them on. *)
Definition sample_executor (request : StepExecutionRequest) : result StepSlots :=
  match rq_inputs request with
  | [JArr items] =>
      if decide (gn_id (rq_node request) = "body") then Ok [JArr (map (fun i => JArr [i]) items)]
      else Ok [JArr items]
  | _ => Err (HostError "TypeError" "no items" None)
  end.

Definition sample_run (v1StepExecutor : bool) (items : list JsonValue) : Runner :=
  run_request (HostValue "query failed") sample_executor v1StepExecutor (fun _ => None) 60 (sample_request items).

(** With a host that supplies an executor, and with one that does not: there the body's
    first step is claimed and left running. *)
Definition sample_world (items : list JsonValue) : World := world_of (sample_run true items).
Definition stranded_world (items : list JsonValue) : World := world_of (sample_run false items).

Lemma sample_reachable (items : list JsonValue) : reachable_world true (fun _ => None) (sample_world items).
Proof.
  unfold sample_world, sample_run.
  exact (run_request_reachable (HostValue "query failed") sample_executor true (fun _ => None) 60
    (sample_request items)).
Qed.

Lemma stranded_reachable (items : list JsonValue) : reachable_world false (fun _ => None) (stranded_world items).
Proof.
  unfold stranded_world, sample_run.
  exact (run_request_reachable (HostValue "query failed") sample_executor false (fun _ => None) 60
    (sample_request items)).
Qed.
End sample.
