(* ===== verification/EngineInputs.v ===== *)
(** * Engine v2: a claimed step finds its inputs

    [gatherInputs] of the ready handler throws when the rows and the graph disagree: a
    source across a loop that has not ended, a source that has not settled, two edges into
    one input slot, no edge at all.  For an execution of a validated graph none of that can
    happen, whatever other handlers do meanwhile: theorem [gatherInputs_succeeds].  So the
    [TODO]s of the source about same-slot convergence ("we should have rejected this graph
    at validation time") hold. *)

From stdpp Require Import base gmap strings pretty list fin_maps relations.
From Stdlib Require Import ZArith Lia.
From S2P Require Import Prelude.
From S2P Require Import JsCollections.
From S2P Require Import EngineTypes.
From S2P Require Import EngineGraph.
From S2P Require Import EngineScc.
From S2P Require Import EngineLoops.
From S2P Require Import EngineSettlement.
From S2P Require Import EnginePlan.
From S2P Require Import EngineStore.
From S2P Require Import EngineProgram.
From S2P Require Import EngineBatch.
From S2P Require Import EngineHandlers.
From S2P Require Import EngineWorld.

(** The program returns, unless a call fails, whatever runs in between; [Q] holds of what
    it returns. *)
Fixpoint succeeds {A} (p : prog A) (d : Db) (Q : A -> Db -> Prop) : Prop :=
  match p with
  | Ret a => forall d1, db_le d d1 -> Inv d1 -> Q a d1
  | Throw _ => False
  | Call o k => forall d1, db_le d d1 -> Inv d1 ->
      forall a d2, op_db o d1 (Ok a) d2 -> Inv d2 -> db_le d1 d2 -> succeeds (k (Ok a)) d2 Q
  end.

Lemma succeeds_bind {A B} (p : prog A) (f : A -> prog B) (d : Db) (Q : A -> Db -> Prop) (R : B -> Db -> Prop) :
  Inv d -> succeeds p d Q -> (forall a d1, db_le d d1 -> Inv d1 -> Q a d1 -> succeeds (f a) d1 R) ->
  succeeds (p ≫= f) d R.
Proof.
  change (p ≫= f) with (prog_bind p f). revert d.
  induction p as [a|err|o k IH]; intros d HI Hp Hf; [|done|].
  - apply Hf; [done|done|]. by apply Hp.
  - intros d1 Hle1 HI1 a d2 Ha HI2 Hle2. apply IH; [done|by apply (Hp d1)|].
    intros b d3 Hle3. apply Hf. etrans; [exact Hle1|]. by etrans.
Qed.

Lemma succeeds_step {B} (o : op) (f : resp o -> prog B) (d : Db) (R : B -> Db -> Prop) :
  (forall d1, db_le d d1 -> Inv d1 -> forall a d2, op_db o d1 (Ok a) d2 -> Inv d2 -> db_le d1 d2 ->
     succeeds (f a) d2 R) -> succeeds (call o ≫= f) d R.
Proof. intros H. exact H. Qed.

Lemma succeeds_lift {A B} (r : result A) (a : A) (f : A -> prog B) (d : Db) (R : B -> Db -> Prop) :
  r = Ok a -> succeeds (f a) d R -> succeeds (lift r ≫= f) d R.
Proof. by intros ->. Qed.

#[global] Arguments succeeds : simpl never.

(** ** Which loops' ends a step reads *)

Lemma elem_of_exitSourcesInto (graph : WorkflowGraph) (loops : list WorkflowLoop) (targets : list string) (x : string) :
  x ∈ exitSourcesInto graph loops targets <->
  exists e, e ∈ edges graph /\ to e ∈ targets /\ classifyEdge e loops = exit /\ from e = x.
Proof.
  unfold exitSourcesInto. destruct loops as [|l loops].
  { split; [set_solver|]. intros (e & _ & _ & Hc & _). unfold classifyEdge in Hc. simpl in Hc. by case_match. }
  set (ls := l :: loops). clearbody ls. clear l loops.
  assert (Hgen : forall es acc, x ∈ foldl (fun sources edge =>
      if bool_decide (to edge ∈ set_of_list targets) && bool_decide (classifyEdge edge ls = exit)
      then set_add sources (from edge) else sources) acc es <->
    x ∈ acc \/ exists e, e ∈ es /\ to e ∈ targets /\ classifyEdge e ls = exit /\ from e = x).
  { induction es as [|e es IH]; intros acc; simpl; [set_solver|]. rewrite IH.
    destruct (bool_decide (to e ∈ set_of_list targets) && bool_decide (classifyEdge e ls = exit)) eqn:Hb.
    - apply andb_true_iff in Hb as [H1%bool_decide_eq_true H2%bool_decide_eq_true].
      rewrite elem_of_set_of_list in H1.
      rewrite elem_of_set_add. split.
      + intros [[->|?]|(e' & ? & ?)]; [right; exists e; split_and!; [by left|done|done|done]|by left|].
        right. exists e'. split; [by right|done].
      + intros [?|(e' & [->|He']%elem_of_cons & ? & ? & <-)]; [by left; right|by left; left|].
        right. exists e'. auto.
    - split.
      + intros [?|(e' & ? & ?)]; [by left|right; exists e'; split; [by right|done]].
      + intros [?|(e' & [->|He']%elem_of_cons & Ht & Hc & <-)]; [by left| |right; exists e'; auto].
        apply andb_false_iff in Hb as [Hb|Hb]; apply bool_decide_eq_false in Hb; [|done].
        destruct Hb. by apply elem_of_set_of_list. }
  rewrite Hgen. split; [intros [?|?]; [set_solver|done]|auto].
Qed.

Section exec.
Context (g : WorkflowGraph) (t : string) (HG : ValidGraph g t).
Local Notation L := (deriveLoops g).

(** A loop's terminal step is its latest. *)
Lemma terminal_is_latest (S : Summaries) (l : WorkflowLoop) (i j : Z) (b b' : StepSummary) :
  Ledger g t S -> l ∈ L ->
  S !! stepKeyId (mkKey (batchNodeId l) i) = Some b -> isTerminalStep b = true ->
  S !! stepKeyId (mkKey (batchNodeId l) j) = Some b' -> (j <= i)%Z.
Proof.
  intros HS Hl Hb Ht Hb'. destruct (decide (j <= i)%Z) as [|Hgt]; [done|]. exfalso.
  pose proof (ko_iteration _ _ _ _ (HS _ _ Hb)) as Hi. simpl in Hi.
  assert (Hgo : ongoing S l (j - 1)).
  { apply (ko_next _ _ _ _ (HS _ _ Hb') l Hl); [done|simpl; lia]. }
  pose proof (ongoing_before_end g t S l _ i b HS Hl Hb Ht Hgo). lia.
Qed.

(** The source row an edge names does not depend on the terminals beyond its own. *)
Lemma sourceRow_terminal (e : GraphEdge) (c : EdgeClass) (k : StepKey) (o1 o2 : option Z) :
  (c = exit -> forall i, o1 = Some i -> o2 = Some i) ->
  sourceRow e c k o1 <> RowPending -> sourceRow e c k o2 = sourceRow e c k o1.
Proof.
  intros H Hp. destruct c; try done. simpl in *. case_decide; [done|].
  destruct o1 as [i|]; [|done]. by rewrite (H eq_refl i eq_refl).
Qed.

(** ** No two reads share a slot *)

(** The edges into [k] that read a row, in order. *)
Definition reading (k : StepKey) (T : Terminals) (es : list GraphEdge) : list (GraphEdge * StepKey) :=
  omap (fun e => match sourceRow e (classifyEdge e L) k (T !! from e) with
                 | Row key => Some (e, key) | _ => None end) es.

Lemma elem_of_reading (k : StepKey) (T : Terminals) (es : list GraphEdge) (e : GraphEdge) (key : StepKey) :
  (e, key) ∈ reading k T es <-> e ∈ es /\ sourceRow e (classifyEdge e L) k (T !! from e) = Row key.
Proof.
  unfold reading. rewrite list_elem_of_omap. split.
  - intros (e' & He & Hr). destruct (sourceRow _ _ _ _) eqn:Hs; simplify_eq. done.
  - intros [He Hr]. exists e. by rewrite Hr.
Qed.

Lemma reading_sublist (k : StepKey) (T : Terminals) (es : list GraphEdge) (f : GraphEdge -> bool) :
  (forall e key, e ∈ es -> sourceRow e (classifyEdge e L) k (T !! from e) = Row key -> f e = true) ->
  (reading k T es).*1 `sublist_of` arr_filter f es.
Proof.
  unfold arr_filter. induction es as [|e es IH]; intros Hf; simpl; [done|].
  assert (IH' := IH ltac:(intros; eapply Hf; [set_solver|done])).
  destruct (sourceRow _ _ _ _) as [key| |] eqn:Hs.
  - rewrite (Hf e key ltac:(set_solver) Hs). simpl. by constructor.
  - destruct (f e); [by constructor|done].
  - destruct (f e); [by constructor|done].
Qed.

Lemma to_batch_class (e : GraphEdge) (l : WorkflowLoop) :
  e ∈ edges g -> l ∈ L -> to e = batchNodeId l ->
  classifyEdge e L = back \/ classifyEdge e L = entry \/ classifyEdge e L = exit.
Proof.
  intros He Hl Ht. pose proof (classifyEdge_shape g t HG e He) as Hs.
  inversion Hs as [l' Hl' _ _ Heq|l' Hl' _ Hm Hne Heq|l' _ _ _ _ Heq|l' _ _ _ Heq|_ Hout Heq]; auto.
  - exfalso. apply Hne. rewrite Ht in Hm |- *. by rewrite (batch_of g t HG l l').
  - exfalso. apply (Hout l Hl). rewrite Ht. by apply (batch_member g t HG).
Qed.

Lemma forward_incoming_slots (n : string) (es : list GraphEdge) :
  NoDup (map (fun e => (to e, inputIndex e)) (arr_filter (fun e => negb (is_back e)) es)) ->
  NoDup (map inputIndex (arr_filter (fun e => negb (is_back e)) (arr_filter (fun e => bool_decide (to e = n)) es))).
Proof.
  unfold arr_filter. induction es as [|e es IH]; simpl; [intros; apply NoDup_nil_2|].
  destruct (negb (is_back e)) eqn:Hb; simpl.
  - intros [He Hnd]%NoDup_cons. case_bool_decide as Hn; simpl; [|by apply IH].
    rewrite Hb. simpl. apply NoDup_cons. split; [|by apply IH].
    intros (e' & Hi & He')%list_elem_of_fmap. apply He, list_elem_of_fmap. exists e'.
    apply list_elem_of_In, List.filter_In in He' as [He' Hb']. apply List.filter_In in He' as [He' Hn'].
    apply bool_decide_eq_true in Hn'. split; [by rewrite Hn, Hn', Hi|].
    by apply list_elem_of_In, List.filter_In.
  - intros Hnd. case_bool_decide; simpl; [|by apply IH]. rewrite Hb. by apply IH.
Qed.

Lemma reading_slots (k : StepKey) (T : Terminals) :
  (0 <= iteration k)%Z ->
  NoDup (map (fun r => inputIndex r.1) (reading k T (incoming g (nodeId k)))).
Proof.
  intros Hpos. assert (Hmap : map (fun r : GraphEdge * StepKey => inputIndex r.1) (reading k T (incoming g (nodeId k))) =
    map inputIndex (reading k T (incoming g (nodeId k))).*1) by (by rewrite map_map).
  rewrite Hmap. clear Hmap.
  assert (Hin : forall e, e ∈ incoming g (nodeId k) -> e ∈ edges g /\ to e = nodeId k).
  { intros e He. apply elem_of_arr_filter in He as [Ht He]. by apply bool_decide_eq_true in Ht. }
  assert (Hheads : heads_loop g (nodeId k) -> nodeId k ∈ map batchNodeId L).
  { intros Hh. apply list_elem_of_fmap. exists (loop_of g (nodeId k)). split; [done|].
    by apply elem_of_deriveLoops. }
  destruct (decide (iteration k = 0%Z \/ nodeId k ∉ map batchNodeId L)) as [Hz|Hnz].
  - eapply sublist_NoDup; [apply (forward_incoming_slots (nodeId k)), (ve_converge _ _ HG)|].
    apply (fmap_sublist inputIndex), reading_sublist. intros e key He Hr.
    destruct (Hin e He) as [Hed Ht]. destruct (is_back e) eqn:Hb; [|done]. exfalso.
    destruct Hz as [Hz|Hz]; [|apply Hz, Hheads; by exists e].
    unfold classifyEdge in Hr. rewrite Hb in Hr. simpl in Hr. by rewrite decide_True in Hr.
  - assert (Hit : iteration k <> 0%Z) by tauto.
    assert (Hl : nodeId k ∈ map batchNodeId L) by (destruct (decide (nodeId k ∈ map batchNodeId L)); tauto).
    apply list_elem_of_fmap in Hl as (l & Hl & HlL).
    assert (Hsub : (reading k T (incoming g (nodeId k))).*1 `sublist_of` arr_filter is_back (incoming g (nodeId k))).
    { apply reading_sublist. intros e key He Hr. destruct (Hin e He) as [Hed Ht].
      destruct (is_back e) eqn:Hb; [done|]. exfalso.
      destruct (to_batch_class e l Hed HlL (eq_trans Ht Hl)) as [Hc|[Hc|Hc]].
      - unfold classifyEdge in Hc. rewrite Hb in Hc. by repeat case_match.
      - rewrite Hc in Hr. simpl in Hr. by rewrite decide_True in Hr by lia.
      - rewrite Hc in Hr. simpl in Hr. by rewrite decide_True in Hr by lia. }
    apply (fmap_sublist inputIndex) in Hsub. apply sublist_length in Hsub. rewrite !length_fmap in Hsub.
    destruct (loop_facts g t HG l HlL) as [Hh _].
    pose proof (vl_one_return _ _ (vg_loop _ (ve_loops _ _ HG) _ Hh)) as Hone.
    rewrite Hl in Hsub.
    assert (Hle : length (arr_filter is_back (incoming g (batchNodeId l))) <= 1).
    { etrans; [|exact Hone]. unfold incoming, arr_filter. clear. induction (edges g) as [|e es IH]; simpl; [done|].
      case_bool_decide; destruct (is_back e) eqn:Hb; simpl; rewrite ?Hb; simpl; lia. }
    destruct (map inputIndex _) as [|a [|b rest]] eqn:Hm; [apply NoDup_nil_2|apply NoDup_singleton|].
    exfalso. apply (f_equal length) in Hm. rewrite length_map, length_fmap in Hm. simpl in Hm.
    rewrite Hl in Hm. lia.
Qed.

(** ** The pieces of [gatherInputs] *)

Lemma input_reads_reading (step : StepRecord) (T : Terminals) (es : list GraphEdge) :
  (forall e, e ∈ es -> sourceRow e (classifyEdge e L) (sr_key step) (T !! from e) <> RowPending) ->
  input_reads es L step T = Ok (reading (sr_key step) T es).
Proof.
  induction es as [|e es IH]; intros Hp; simpl; [done|].
  assert (IH' := IH ltac:(intros; apply Hp; set_solver)). pose proof (Hp e ltac:(set_solver)) as He.
  unfold sr_key in *. destruct (sourceRow _ _ _ _) as [key| |]; [|done|done]. by rewrite IH'.
Qed.

End exec.

Section pieces.
Lemma check_slots_distinct_ok (reads : list (GraphEdge * StepKey)) (step : StepRecord) (filled : list Z) :
  NoDup (map (fun r => inputIndex r.1) reads) -> (forall r, r ∈ reads -> inputIndex r.1 ∉ filled) ->
  check_slots_distinct reads step filled = Ok tt.
Proof.
  revert filled. induction reads as [|[e key] reads IH]; intros filled; simpl; [done|].
  intros [Hi Hnd]%NoDup_cons Hf. rewrite decide_False by (apply (Hf (e, key)); set_solver).
  apply IH; [done|]. intros r Hr. rewrite elem_of_set_add. intros [Heq|Hin].
  - apply Hi, list_elem_of_fmap. eauto.
  - apply (Hf r); [set_solver|done].
Qed.

Lemma distinct_keys_complete (reads : list (GraphEdge * StepKey)) (r : GraphEdge * StepKey) :
  r ∈ reads -> r.2 ∈ distinct_keys reads.
Proof.
  unfold distinct_keys. change (fun m (r : GraphEdge * StepKey) => map_set (stepKeyId r.2) r.2 m)
    with (fun m (r : GraphEdge * StepKey) => add_key m r.2).
  assert (Hgen : forall rs m, NoDup m.*1 -> keyed m ->
    forall x, (x ∈ m.*2 \/ exists r : GraphEdge * StepKey, r ∈ rs /\ r.2 = x) ->
      x ∈ (foldl (fun m (r : GraphEdge * StepKey) => add_key m r.2) m rs).*2).
  { induction rs as [|r0 rs IH]; intros m Hnd Hk x; simpl.
    - intros [?|(r1 & Hr1 & _)]; [done|set_solver].
    - destruct (add_key_spec m r0.2 Hnd Hk) as (Hnd' & Hk' & Hx). intros Hin. apply IH; [done|done|].
      rewrite Hx. destruct Hin as [?|(r1 & [->|?]%elem_of_cons & ?)]; eauto. }
  intros Hr. apply Hgen; [apply NoDup_nil_2|intros p Hp; set_solver|]. right. eauto.
Qed.

Definition read_value (e : GraphEdge) (row : StepRecord) : JsonValue :=
  if decide (sr_status row = completed) then slot_value (sr_outputs row) (outputIndex e) else JNull.

Lemma fill_inputs_ok (reads : list (GraphEdge * StepKey)) (step : StepRecord) (rows : gmap string StepRecord)
    (inputs : StepSlots) :
  NoDup (map (fun r => inputIndex r.1) reads) ->
  (forall e key, (e, key) ∈ reads -> (0 <= inputIndex e < Z.of_nat (length inputs))%Z /\
     exists row, rows !! stepKeyId key = Some row /\ isSettledStatus (sr_status row) = true) ->
  exists filled, fill_inputs inputs reads step rows = Ok filled /\
    (forall e key row, (e, key) ∈ reads -> rows !! stepKeyId key = Some row ->
       filled !! Z.to_nat (inputIndex e) = Some (read_value e row)) /\
    (forall i, (forall e key, (e, key) ∈ reads -> Z.to_nat (inputIndex e) <> i) -> filled !! i = inputs !! i).
Proof.
  revert inputs. induction reads as [|[e key] reads IH]; intros inputs; simpl.
  { intros _ _. exists inputs. split_and!; [done|set_solver|done]. }
  intros [Hi Hnd]%NoDup_cons Hall. destruct (Hall e key ltac:(set_solver)) as (Hb & row & Hrow & Hst).
  unfold readEdgeValue. rewrite Hrow, Hst.
  assert (Hv : (if decide (sr_status row = completed) then Ok (slot_value (sr_outputs row) (outputIndex e)) else Ok JNull)
    = (Ok (read_value e row) : result JsonValue)) by (unfold read_value; by case_decide).
  rewrite Hv. simpl. unfold set_slot. rewrite decide_True by lia.
  assert (Hne : forall e' key', (e', key') ∈ reads -> Z.to_nat (inputIndex e') <> Z.to_nat (inputIndex e)).
  { intros e' key' Hin Heq. destruct (Hall e' key' ltac:(set_solver)) as [Hb' _].
    apply Hi, list_elem_of_fmap. exists (e', key'). split; [simpl; lia|done]. }
  destruct (IH (<[Z.to_nat (inputIndex e) := read_value e row]> inputs)) as (filled & Hfill & Hval & Hrest).
  - done.
  - intros e' key' Hin. rewrite length_insert. apply Hall. set_solver.
  - exists filled. split_and!; [done| |].
    + intros e' key' row' [[= -> ->]|Hin]%elem_of_cons Hr'; [|by eapply Hval].
      assert (row' = row) as -> by congruence. rewrite Hrest by apply Hne.
      apply list_lookup_insert_eq. lia.
    + intros i Hni. rewrite Hrest by (intros; eapply Hni; by right).
      apply list_lookup_insert_ne. eapply Hni. by left.
Qed.

Lemma foldl_max_le (l : list Z) (i : Z) : (i <= foldl Z.max i l)%Z /\ forall j, j ∈ l -> (j <= foldl Z.max i l)%Z.
Proof.
  revert i. induction l as [|x l IH]; intros i; simpl; [split; [lia|set_solver]|].
  destruct (IH (Z.max i x)) as [H1 H2]. split; [lia|]. intros j [->|Hj]%elem_of_cons; [lia|by apply H2].
Qed.

Lemma empty_inputs_length (reads : list (GraphEdge * StepKey)) (e : GraphEdge) (key : StepKey) :
  (e, key) ∈ reads -> (0 <= inputIndex e)%Z -> (inputIndex e < Z.of_nat (length (empty_inputs reads)))%Z.
Proof.
  intros Hin Hpos. unfold empty_inputs.
  assert (Hi : inputIndex e ∈ map (fun r : GraphEdge * StepKey => inputIndex r.1) reads).
  { apply list_elem_of_fmap. by exists (e, key). }
  destruct (map _ reads) as [|i l]; [set_solver|]. rewrite length_replicate.
  destruct (foldl_max_le l i) as [H1 H2]. apply elem_of_cons in Hi as [->|Hi]; [lia|]. specialize (H2 _ Hi). lia.
Qed.

End pieces.

Section loads.
Context (g : WorkflowGraph) (t : string) (HG : ValidGraph g t).
Local Notation L := (deriveLoops g).

(** The terminal passes loaded are all there are. *)
Lemma succeeds_loadTerminalIterations (e : string) (x : WorkflowExecution) (ids : list string) (d : Db) :
  Inv d -> executions d !! e = Some x -> graph_of x = g ->
  (forall n, n ∈ ids -> exists l, l ∈ L /\ batchNodeId l = n) ->
  succeeds (loadTerminalIterations e ids) d (fun T d' =>
    terminals_ok (all_summaries d' e) T /\
    forall n i b, n ∈ ids -> all_summaries d e !! stepKeyId (mkKey n i) = Some b -> isTerminalStep b = true ->
      T !! n = Some i).
Proof.
  intros HI Hx Hg Hids. unfold loadTerminalIterations. destruct ids as [|id ids].
  { intros d1 _ _. split; [intros n i; by rewrite lookup_empty|set_solver]. }
  apply succeeds_step. intros d1 Hle1 HI1 latest d2 [[= ->] ->] HI2 _ d3 Hle3 HI3.
  pose proof (inv_table _ HI2) as HT1.
  destruct (loadLatestStepSummaries_spec d1 HT1 e (id :: ids)) as [Hspec Hall]. split.
  - intros n i. rewrite lookup_omap, bind_Some. intros (s & Hs & Hi).
    destruct (isTerminalStep s) eqn:Hterm; [|done]. injection Hi as <-.
    destruct (Hspec n s Hs) as (_ & r & Hr & Heq & _). exists s. split; [|done].
    apply (all_summaries_lookup d3 (inv_table _ HI3)). exists r. split; [|done].
    eapply row_at_settled; [done|done|]. apply isTerminalStep_settled in Hterm. by rewrite Heq in Hterm.
  - intros n i b Hn Hb Hterm. rewrite lookup_omap.
    assert (Hb1 : all_summaries d1 e !! stepKeyId (mkKey n i) = Some b).
    { apply (all_summaries_later d d1 (inv_table _ HI) HT1 Hle1); [done|]. by apply isTerminalStep_settled. }
    pose proof Hb1 as Hb1'. apply (all_summaries_lookup d1 HT1) in Hb1' as (r & Hr & ->).
    destruct (Hall _ _ Hr Hn) as [s Hs]. simpl in Hs. rewrite Hs. simpl.
    destruct (Hspec n s Hs) as (_ & r' & Hr' & Heq & Hmax).
    destruct (dl_exec _ _ Hle1 _ _ Hx) as (x1 & Hx1 & Hl1).
    assert (HG1 : ValidGraph (graph_of x1) t) by (unfold graph_of in *; by rewrite (el_record _ _ Hl1), Hg).
    pose proof (xi_ledger _ _ _ _ (inv_exec_at _ _ _ _ HI2 Hx1 HG1)) as Hled.
    assert (Hgx : graph_of x1 = g) by (unfold graph_of in *; by rewrite (el_record _ _ Hl1)). rewrite Hgx in Hled.
    destruct (Hids n Hn) as (l & Hl & Hbl).
    assert (Hs1 : all_summaries d1 e !! stepKeyId (mkKey (batchNodeId l) (ss_iteration s)) = Some s).
    { apply (all_summaries_lookup d1 HT1). rewrite Hbl. eauto. }
    rewrite <-Hbl in Hb1.
    pose proof (terminal_is_latest g t _ l i _ _ s Hled Hl Hb1 Hterm Hs1) as Hle_.
    pose proof (Hmax _ _ Hr eq_refl) as Hge. simpl in Hge.
    assert (Heqi : ss_iteration s = i) by lia. rewrite Heqi in Hr' |- *.
    assert (r' = r) as -> by (eapply (row_at_inj d1 HT1); [exact Hr'|exact Hr]).
    rewrite <-Heq in Hterm. by rewrite Hterm.
Qed.
End loads.

(** ** The theorem *)

Definition gathered (g : WorkflowGraph) (e : string) (k : StepKey) (inputs : StepSlots) (d : Db) : Prop :=
  exists T, terminals_ok (all_summaries d e) T /\
    (exists edge key, (edge, key) ∈ reading g k T (incoming g (nodeId k))) /\
    forall edge, edge ∈ incoming g (nodeId k) -> reads_none (deriveLoops g) k T edge \/
    exists key row, sourceRow edge (classifyEdge edge (deriveLoops g)) k (T !! from edge) = Row key /\
      row_at d e key row /\ isSettledStatus (sr_status row) = true /\
      inputs !! Z.to_nat (inputIndex edge) = Some (read_value edge row).

Lemma gatherInputs_gathered (d : Db) (execution : ExecutionRecord) (step r : StepRecord) :
  Inv d -> seen_exec d execution -> row_at d (er_id execution) (sr_key step) r -> sr_status r = running ->
  succeeds (gatherInputs execution step) d (gathered (er_graph execution) (er_id execution) (sr_key step)).
Proof.
  intros HI (x & Hx & Hg & _) Hr Hrun. destruct (inv_exec _ HI _ _ Hx) as [t Hxi].
  pose proof (xi_valid _ _ _ _ Hxi) as HG. rewrite <-Hg in HG.
  set (g := er_graph execution) in *. set (e := er_id execution) in *. set (k := sr_key step) in *.
  destruct (xi_fates _ _ _ _ Hxi _ _ Hr) as [[_ Hc]|Hpl]; [congruence|]. rewrite <-Hg in Hpl.
  destruct Hpl as (T0 & HT0 & Hfate). rewrite Hrun in Hfate. simpl in Hfate.
  destruct (decideNodeFate_spec _ _ _ _ _ _ Hfate (or_introl eq_refl)) as (Hins & _ & Hsome).
  assert (Hk : KeyOk g t (all_summaries d e) k).
  { pose proof (xi_ledger _ _ _ _ Hxi) as Hled. rewrite <-Hg in Hled. eapply Hled.
    apply (all_summaries_lookup d (inv_table _ HI)). eauto. }
  unfold gatherInputs. fold g e.
  destruct Hsome as (e0 & s0 & He0 & Hr0). change (nodeId k) with (sr_nodeId step) in *.
  destruct (incoming g (sr_nodeId step)) as [|e1 es] eqn:Hinc; [set_solver|]. rewrite <-Hinc in *.
  eapply succeeds_bind; [done| |].
  { apply (succeeds_loadTerminalIterations g t HG e x); [done|done|by rewrite <-Hg|].
    intros n (edge & Hedge & _ & Hcl & <-)%elem_of_exitSourcesInto.
    pose proof (classifyEdge_shape g t HG edge Hedge) as Hs. rewrite Hcl in Hs.
    inversion Hs as [| |l Hl Hf _ _| |]. eauto. }
  intros T d1 Hle1 HI1 [HT Hcomplete]. cbv beta in Hcomplete.
  (* the reads are those the fate was decided on *)
  assert (Hsame : forall edge, edge ∈ incoming g (sr_nodeId step) ->
    sourceRow edge (classifyEdge edge (deriveLoops g)) k (T !! from edge) = sourceRow edge (classifyEdge edge (deriveLoops g)) k (T0 !! from edge)).
  { intros edge He. apply sourceRow_terminal.
    - intros Hcl i Hi. destruct (HT0 _ _ Hi) as (b & Hb & Hterm). apply (Hcomplete (from edge) i b); [|done|done].
      apply elem_of_exitSourcesInto. apply elem_of_arr_filter in He as [Ht He]. apply bool_decide_eq_true in Ht.
      exists edge. rewrite Ht. set_solver.
    - intros Hp. destruct (Hins edge He) as [Hn|(s & key & Hkey & _)]; unfold reads_none in *; congruence. }
  assert (Hread : input_reads (incoming g (sr_nodeId step)) (deriveLoops g) step T = Ok (reading g k T (incoming g (sr_nodeId step)))).
  { apply (input_reads_reading g t HG). intros edge He. fold k. rewrite Hsame by done.
    destruct (Hins edge He) as [Hn|(s & key & Hkey & _)]; [by rewrite Hn|]. by rewrite Hkey. }
  assert (Hnonempty : exists edge key, (edge, key) ∈ reading g k T (incoming g (sr_nodeId step))).
  { destruct Hr0 as (key0 & Hkey0 & _). exists e0, key0. apply elem_of_reading. split; [done|].
    by rewrite Hsame. }
  pose proof (reading_slots g t HG k T (ko_iteration _ _ _ _ Hk)) as Hnd. change (nodeId k) with (sr_nodeId step) in Hnd.
  apply (succeeds_lift _ (reading g k T (incoming g (sr_nodeId step)))).
  { unfold resolveInputReads. rewrite Hread. simpl. rewrite check_slots_distinct_ok by (done || set_solver). simpl.
    destruct (reading g k T _) as [|r0 rs] eqn:Hrs; [|reflexivity]. destruct Hnonempty as (? & ? & ?). set_solver. }
  set (reads := reading g k T (incoming g (sr_nodeId step))) in *.
  apply succeeds_step. intros d2 Hle2 HI2 rows d3 [[= ->] ->] HI3 _.
  assert (Hrows : forall edge key, (edge, key) ∈ reads ->
    exists row, loadStepsByKeys d2 e (distinct_keys reads) !! stepKeyId key = Some row /\ row_at d2 e key row /\
      isSettledStatus (sr_status row) = true).
  { intros edge key Hin. pose proof Hin as [He Hkey]%elem_of_reading. rewrite Hsame in Hkey by done.
    destruct (Hins edge He) as [Hn|(s & key' & Hkey' & Hs & Hst)]; unfold reads_none in *; [congruence|].
    assert (key' = key) as -> by congruence.
    apply (all_summaries_lookup d (inv_table _ HI)) in Hs as (row & Hrow & ->). simpl in Hst. exists row.
    assert (Hrow2 : row_at d2 e key row) by (eapply row_at_settled; [|exact Hrow|done]; by etrans).
    split_and!; [|done|done]. apply (loadStepsByKeys_lookup d2 (inv_table _ HI2)). exists key.
    split_and!; [|done|done]. by apply (distinct_keys_complete reads (edge, key)). }
  destruct (fill_inputs_ok reads step (loadStepsByKeys d2 e (distinct_keys reads)) (empty_inputs reads) Hnd)
    as (filled & Hfill & Hval & _).
  { intros edge key Hin. destruct (Hrows edge key Hin) as (row & Hl & _ & Hst). split; [|eauto].
    pose proof Hin as [He _]%elem_of_reading. apply elem_of_arr_filter in He as [_ He].
    destruct (ve_slots _ _ HG edge He) as [_ Hb]. split; [lia|]. eapply empty_inputs_length; [done|lia]. }
  rewrite Hfill. intros d4 Hle4 HI4. exists T. split_and!.
  - eapply (terminals_ok_later d1 d4); [apply (inv_table _ HI1)|apply (inv_table _ HI4)| |done]. by etrans.
  - done.
  - intros edge He.
    destruct (sourceRow edge (classifyEdge edge (deriveLoops g)) k (T !! from edge)) as [key| |] eqn:Hkey.
    + right. assert (Hin : (edge, key) ∈ reads) by (by apply elem_of_reading).
      destruct (Hrows edge key Hin) as (row & Hl & Hrow & Hst). exists key, row.
      split_and!; [done|by eapply row_at_settled|done|by eapply Hval].
    + by left.
    + exfalso. rewrite Hsame in Hkey by done.
      destruct (Hins edge He) as [Hn|(s & key' & Hkey' & _)]; unfold reads_none in *; congruence.
Qed.
