(* ===== verification/EngineSafety.v ===== *)
(** * Engine v2: what the running engine guarantees

    The properties of every reachable world, from the invariant of [EngineWorld], the
    tokens of [EngineOnce] and the inputs of [EngineInputs], each with a run of the sample
    workflow of [EngineRun] as its witness. *)

From stdpp Require Import base gmap strings pretty list fin_maps relations.
From Stdlib Require Import ZArith Lia.
From S2P Require Import Prelude.
From S2P Require Import JsCollections.
From S2P Require Import EngineTypes.
From S2P Require Import EngineGraph.
From S2P Require Import EngineScc.
From S2P Require Import EngineLoops.
From S2P Require Import EngineSettlement.
From S2P Require Import EnginePlan.
From S2P Require Import EngineStore.
From S2P Require Import EngineProgram.
From S2P Require Import EngineBatch.
From S2P Require Import EngineHandlers.
From S2P Require Import EngineWorld.
From S2P Require Import EngineOnce.
From S2P Require Import EngineRun.
From S2P Require Import EngineInputs.

(** A row of the tables, found by evaluation. *)
Definition find_row (d : Db) (e : string) (k : StepKey) : option StepRecord :=
  arr_find (fun r => bool_decide (sr_executionId r = e) && bool_decide (sr_key r = k)) (table_rows (steps d)).

Lemma find_row_at (d : Db) (e : string) (k : StepKey) (r : StepRecord) :
  TableOk d -> find_row d e k = Some r -> row_at d e k r.
Proof.
  intros HT [(id & Hr)%elem_of_table_rows Hp]%arr_find_Some. apply andb_true_iff in Hp as [He Hk].
  apply bool_decide_eq_true in He, Hk. unfold row_at. by rewrite (tk_id _ HT _ _ Hr).
Qed.

Definition three_items : list JsonValue := [JNum 1; JNum 2; JNum 3].

(** C1. An execution recorded as completed owes nothing: the steps its graph owes are
    exactly the rows it has (so none is missing and none is extra), and each completed or
    was skipped.  Whatever messages were redelivered, in whatever order handlers
    interleaved, and wherever workers crashed, [finishExecutionIfDone] never ends an
    execution early. *)
Theorem completed_execution_owes_nothing (v1 : bool) (stack_of : EngineError -> option string)
    (w : World) (e : string) (x : WorkflowExecution) :
  reachable_world v1 stack_of w -> executions (w_db w) !! e = Some x -> ex_status x = ex_completed ->
  exists t T, ValidGraph (graph_of x) t /\ ended (graph_of x) t (all_summaries (w_db w) e) T /\
    (forall k, owes (deriveLoops (graph_of x)) (reach_list (graph_of x) t) T k <-> exists r, row_at (w_db w) e k r) /\
    (forall k r, row_at (w_db w) e k r -> sr_status r = completed \/ sr_status r = skipped).
Proof.
  intros Hw Hx Hs. pose proof (wi_inv _ (reachable_inv _ _ _ Hw)) as HI. pose proof (inv_table _ HI) as HT.
  destruct (inv_exec _ HI _ _ Hx) as [t Hxi]. destruct (xi_completed _ _ _ _ Hxi Hs) as (T & Hend & Hall).
  pose proof (xi_valid _ _ _ _ Hxi) as HG. exists t, T.
  assert (Howed : forall k r, row_at (w_db w) e k r ->
    owes (deriveLoops (graph_of x)) (reach_list (graph_of x) t) T k).
  { intros k r Hr. eapply (row_owed _ t HG); [apply (xi_ledger _ _ _ _ Hxi)|exact Hend|apply elem_of_reach_list|].
    apply (all_summaries_lookup _ HT). eauto. }
  split_and!; [done|done| |].
  - intros k. split; [intros Hk; destruct (Hall k Hk) as (r & Hr & _); eauto|]. intros [r Hr]. by eapply Howed.
  - intros k r Hr. destruct (Hall k (Howed k r Hr)) as (r' & Hr' & Hst).
    by rewrite (row_at_inj _ HT _ _ _ _ Hr Hr').
Qed.

Lemma completed_execution_owes_nothing_witness :
  let d := w_db (sample_world three_items) in
  exists x t T, executions d !! "exec"%string = Some x /\
    ValidGraph (graph_of x) t /\ ended (graph_of x) t (all_summaries d "exec"%string) T /\
    (forall k, owes (deriveLoops (graph_of x)) (reach_list (graph_of x) t) T k <-> exists r, row_at d "exec"%string k r) /\
    (forall k r, row_at d "exec"%string k r -> sr_status r = completed \/ sr_status r = skipped).
Proof.
  cbv zeta. assert (Hx : exists x, executions (w_db (sample_world three_items)) !! "exec"%string = Some x /\
    ex_status x = ex_completed) by (eexists; split; [vm_compute; reflexivity|reflexivity]).
  destruct Hx as (x & Hx & Hs). exists x.
  destruct (completed_execution_owes_nothing _ _ _ _ _ (sample_reachable three_items) Hx Hs) as (t & T & H).
  exists t, T. split; [exact Hx|exact H].
Defined.

(** C18. An execution recorded as failed has a failed step, and a step is cancelled only in
    an execution that has one: the recorded outcome is never a guess. *)
Theorem failed_execution_has_failed_step (v1 : bool) (stack_of : EngineError -> option string)
    (w : World) (e : string) (x : WorkflowExecution) :
  reachable_world v1 stack_of w -> executions (w_db w) !! e = Some x ->
  (ex_status x = ex_failed -> failed_in (w_db w) e) /\
  (forall k r, row_at (w_db w) e k r -> sr_status r = cancelled -> failed_in (w_db w) e).
Proof.
  intros Hw Hx. destruct (inv_exec _ (wi_inv _ (reachable_inv _ _ _ Hw)) _ _ Hx) as [t Hxi].
  split; [apply (xi_failed _ _ _ _ Hxi)|apply (xi_cancelled _ _ _ _ Hxi)].
Qed.

(** A run whose batch node is handed a string: the pass fails, and so does the execution. *)
Definition failing_request : StartExecutionRequest := {|
  rs_workflowId := "wf"%string;
  rs_graph := sample_graph;
  rs_workflow := JNull;
  rs_triggerOutputs := Some [JStr "not a list"%string];
  rs_mode := None;
  rs_callerContext := sample_caller;
  rs_executionId := "exec"%string;
|}.

Definition failing_world : World :=
  world_of (run_request (HostValue "query failed"%string) sample_executor true (fun _ => None) 60 failing_request).

Lemma failing_reachable : reachable_world true (fun _ => None) failing_world.
Proof.
  unfold failing_world.
  exact (run_request_reachable (HostValue "query failed"%string) sample_executor true (fun _ => None) 60
    failing_request).
Qed.

Lemma failed_execution_has_failed_step_witness :
  exists x, executions (w_db failing_world) !! "exec"%string = Some x /\ ex_status x = ex_failed /\
    failed_in (w_db failing_world) "exec"%string.
Proof.
  assert (Hx : exists x, executions (w_db failing_world) !! "exec"%string = Some x /\ ex_status x = ex_failed)
    by (eexists; split; [vm_compute; reflexivity|reflexivity]).
  destruct Hx as (x & Hx & Hs). exists x. split; [exact Hx|]. split; [exact Hs|].
  apply (failed_execution_has_failed_step _ _ _ _ _ failing_reachable Hx). exact Hs.
Defined.

(** How many calls of a trace satisfy [p]. *)
Definition occurrences (p : op -> bool) (tr : list op) : nat := length (arr_filter p tr).

(** Whoever started an execution is told of its end at most once, and so is the host by
    the lifecycle event, and only once the execution is recorded as finished, however many
    workers raced to finish it. *)
Lemma end_announced_at_most_once (v1 : bool) (stack_of : EngineError -> option string) (w : World) (e : string)
    (act : EndAct) :
  reachable_world v1 stack_of w ->
  occurrences (announces_end act e) (w_trace w) <= (if is_finished e (w_db w) then 1 else 0).
Proof. intros Hw. apply (end_tokens act e v1 stack_of w Hw). Qed.

Lemma end_announced_at_most_once_witness :
  let w := sample_world three_items in
  occurrences (announces_end end_response "exec"%string) (w_trace w) = 1 /\
  occurrences (announces_end end_response "exec"%string) (w_trace w) <=
    (if is_finished "exec"%string (w_db w) then 1 else 0).
Proof.
  split; [vm_compute; reflexivity|].
  apply (end_announced_at_most_once _ _ _ "exec"%string end_response (sample_reachable three_items)).
Defined.

(** C3. A step is handed to the host's executor at most once, and announced as started at
    most once, and neither before it was claimed, however often its [step:ready] message
    is delivered. *)
Theorem step_runs_at_most_once (v1 : bool) (stack_of : EngineError -> option string) (w : World) (s : string)
    (act : RunAct) :
  reachable_world v1 stack_of w ->
  occurrences (runs_step act s) (w_trace w) <= (if left_queue s (w_db w) then 1 else 0).
Proof. intros Hw. apply (run_tokens v1 stack_of s act w Hw). Qed.

Lemma step_runs_at_most_once_witness :
  let w := sample_world three_items in
  exists r, find_row (w_db w) "exec"%string (mkKey "body"%string 1) = Some r /\
    occurrences (runs_step run_execute (sr_id r)) (w_trace w) = 1 /\
    occurrences (runs_step run_execute (sr_id r)) (w_trace w) <= (if left_queue (sr_id r) (w_db w) then 1 else 0).
Proof.
  eexists. split; [vm_compute; reflexivity|]. split; [vm_compute; reflexivity|].
  apply (step_runs_at_most_once _ _ _ _ run_execute (sample_reachable three_items)).
Defined.

(** C12. A step's outcome is announced at most once, and only once it is recorded. *)
Theorem outcome_announced_at_most_once (v1 : bool) (stack_of : EngineError -> option string) (w : World) (s : string) :
  reachable_world v1 stack_of w ->
  occurrences (announces_outcome s) (w_trace w) <= (if is_settled s (w_db w) then 1 else 0).
Proof. intros Hw. apply (outcome_tokens v1 stack_of s w Hw). Qed.

Lemma outcome_announced_at_most_once_witness :
  let w := sample_world three_items in
  exists r, find_row (w_db w) "exec"%string (mkKey "body"%string 1) = Some r /\
    occurrences (announces_outcome (sr_id r)) (w_trace w) = 1 /\
    occurrences (announces_outcome (sr_id r)) (w_trace w) <= (if is_settled (sr_id r) (w_db w) then 1 else 0).
Proof.
  eexists. split; [vm_compute; reflexivity|]. split; [vm_compute; reflexivity|].
  apply (outcome_announced_at_most_once _ _ _ _ (sample_reachable three_items)).
Defined.

(** C39. History only moves forward: from a reachable world on, no row of either table is
    lost or rebound, a step's status follows its lifecycle and a settled step never
    changes (status, outputs and error included), an execution's outcome and finish time
    never change, and once a step has failed its execution gains no step and starts none
    ([db_le]). *)
Theorem history_only_moves_forward (v1 : bool) (stack_of : EngineError -> option string) (w w' : World) :
  reachable_world v1 stack_of w -> rtc (wstep v1 stack_of) w w' -> db_le (w_db w) (w_db w').
Proof. intros Hw Hs. by apply (wsteps_inv v1 stack_of w w' (reachable_inv _ _ _ Hw)). Qed.

Lemma history_only_moves_forward_witness :
  db_le (w_db initial) (w_db (sample_world three_items)) /\
  find_row (w_db (sample_world three_items)) "exec"%string (mkKey "loop"%string 2) <> None.
Proof.
  split; [|vm_compute; discriminate].
  apply (history_only_moves_forward true (fun _ => None)); [apply rtc_refl|apply sample_reachable].
Defined.

(** C38. Every step was planned on settled inputs: the inputs of any step but the trigger
    that apply to its pass have all settled, and the step is skipped exactly when none of
    them delivers data. *)
Theorem steps_planned_on_settled_inputs (v1 : bool) (stack_of : EngineError -> option string) (w : World)
    (e : string) (x : WorkflowExecution) (t : string) (k : StepKey) (r : StepRecord) :
  reachable_world v1 stack_of w -> executions (w_db w) !! e = Some x -> ValidGraph (graph_of x) t ->
  row_at (w_db w) e k r -> ~ (k = mkKey t 0 /\ sr_status r = completed) ->
  exists T, let reads := reads_row (deriveLoops (graph_of x)) k (all_summaries (w_db w) e) T in
    terminals_ok (all_summaries (w_db w) e) T /\
    (forall edge, edge ∈ incoming (graph_of x) (nodeId k) ->
       reads_none (deriveLoops (graph_of x)) k T edge \/ exists s, reads edge s) /\
    (exists edge s, edge ∈ incoming (graph_of x) (nodeId k) /\ reads edge s) /\
    (sr_status r <> skipped <->
       exists edge s, edge ∈ incoming (graph_of x) (nodeId k) /\ reads edge s /\ isLive s edge = true).
Proof.
  intros Hw Hx HG Hr Hnt. pose proof (wi_inv _ (reachable_inv _ _ _ Hw)) as HI.
  pose proof (inv_exec_at _ _ _ _ HI Hx HG) as Hxi.
  destruct (xi_fates _ _ _ _ Hxi k r Hr) as [Ht|(T & HT & Hf)]; [by destruct Hnt|]. exists T. cbv zeta.
  destruct (decide (sr_status r = skipped)) as [Hs|Hs];
    destruct (decideNodeFate_spec _ _ _ _ _ _ Hf ltac:(auto)) as (H1 & H2 & H3);
    (split_and!; [done|done|done|]); rewrite <-H2; (split; [intros|intros [=]]); done.
Qed.

Lemma steps_planned_on_settled_inputs_witness :
  let d := w_db (sample_world three_items) in
  exists x r T, executions d !! "exec"%string = Some x /\ row_at d "exec"%string (mkKey "body"%string 1) r /\
    let reads := reads_row (deriveLoops (graph_of x)) (mkKey "body"%string 1) (all_summaries d "exec"%string) T in
    exists edge s, edge ∈ incoming (graph_of x) "body"%string /\ reads edge s /\ isLive s edge = true.
Proof.
  cbv zeta. set (w := sample_world three_items).
  assert (Hinv : Inv (w_db w)) by apply (wi_inv _ (reachable_inv _ _ _ (sample_reachable three_items))).
  assert (Hx : exists x, executions (w_db w) !! "exec"%string = Some x) by (eexists; vm_compute; reflexivity).
  assert (Hr : exists r, find_row (w_db w) "exec"%string (mkKey "body"%string 1) = Some r /\ sr_status r = completed)
    by (eexists; split; vm_compute; reflexivity).
  destruct Hx as (x & Hx), Hr as (r & Hr & Hs). apply (find_row_at _ _ _ _ (inv_table _ Hinv)) in Hr.
  destruct (inv_exec _ Hinv _ _ Hx) as (t & Hxi).
  destruct (steps_planned_on_settled_inputs _ _ w _ _ _ _ _ (sample_reachable three_items) Hx
    (xi_valid _ _ _ _ Hxi) Hr) as (T & _ & _ & _ & Hlive).
  - intros [[= _ H] _].
  - exists x, r, T. split; [exact Hx|]. split; [exact Hr|]. apply Hlive. rewrite Hs. discriminate.
Defined.

(** C35. A claimed step always finds its inputs: whatever other handlers do meanwhile,
    [gatherInputs] returns (it never meets an unsettled source, a loop still running or
    two edges into one slot), and each input slot holds what its source's output slot
    holds, or null when the source did not complete. *)
Theorem claimed_step_finds_its_inputs (v1 : bool) (stack_of : EngineError -> option string) (w : World)
    (execution : ExecutionRecord) (step r : StepRecord) :
  reachable_world v1 stack_of w -> seen_exec (w_db w) execution ->
  row_at (w_db w) (er_id execution) (sr_key step) r -> sr_status r = running ->
  succeeds (gatherInputs execution step) (w_db w)
    (gathered (er_graph execution) (er_id execution) (sr_key step)).
Proof.
  intros Hw Hseen Hr Hs. eapply gatherInputs_gathered; [|done|done|done].
  apply (wi_inv _ (reachable_inv _ _ _ Hw)).
Qed.

Lemma claimed_step_finds_its_inputs_witness :
  let d := w_db (stranded_world three_items) in
  exists execution r, loadExecution d "exec"%string = Ok execution /\
    row_at d "exec"%string (mkKey "body"%string 0) r /\ sr_status r = running /\
    succeeds (gatherInputs execution r) d (gathered (er_graph execution) "exec"%string (mkKey "body"%string 0)).
Proof.
  cbv zeta. set (w := stranded_world three_items).
  assert (Hinv : Inv (w_db w)) by apply (wi_inv _ (reachable_inv _ _ _ (stranded_reachable three_items))).
  assert (He : exists execution, loadExecution (w_db w) "exec"%string = Ok execution)
    by (eexists; vm_compute; reflexivity).
  assert (Hr : exists r, find_row (w_db w) "exec"%string (mkKey "body"%string 0) = Some r /\ sr_status r = running)
    by (eexists; split; vm_compute; reflexivity).
  destruct He as (execution & He), Hr as (r & Hr & Hs). apply (find_row_at _ _ _ _ (inv_table _ Hinv)) in Hr.
  exists execution, r. split; [exact He|]. split; [exact Hr|]. split; [exact Hs|].
  apply loadExecution_seen in He as [Hseen Hid].
  assert (Hk : sr_key r = mkKey "body"%string 0) by apply Hr.
  rewrite <-Hid, <-Hk. rewrite <-Hid, <-Hk in Hr.
  apply (claimed_step_finds_its_inputs _ _ w execution r r (stranded_reachable three_items) Hseen Hr Hs).
Defined.

(** The tables stay well formed: in every reachable world a row's id is its key, a step
    belongs to an execution that exists, there is at most one row per execution, node and
    iteration, iterations are never negative, a step has outputs exactly when completed
    and an error exactly when failed, and an execution has a finish time exactly when
    finished. *)
Lemma tables_stay_well_formed (v1 : bool) (stack_of : EngineError -> option string) (w : World) :
  reachable_world v1 stack_of w -> TableOk (w_db w).
Proof. intros Hw. apply (inv_table _ (wi_inv _ (reachable_inv _ _ _ Hw))). Qed.

Lemma tables_stay_well_formed_witness : TableOk (w_db (sample_world three_items)).
Proof. apply (tables_stay_well_formed _ _ _ (sample_reachable three_items)). Defined.

(** The rows of an execution keep its ledger: rows exist only for nodes the trigger
    reaches, a node outside the loops runs once, a step in a loop's body exists only for a
    pass whose batch step handed out a slice, and pass [i + 1] of a batch node only after
    pass [i] did ([Ledger]). *)
Lemma rows_keep_the_ledger (v1 : bool) (stack_of : EngineError -> option string) (w : World)
    (e : string) (x : WorkflowExecution) (t : string) :
  reachable_world v1 stack_of w -> executions (w_db w) !! e = Some x -> ValidGraph (graph_of x) t ->
  Ledger (graph_of x) t (all_summaries (w_db w) e).
Proof.
  intros Hw Hx HG.
  apply (xi_ledger _ _ _ _ (inv_exec_at _ _ _ _ (wi_inv _ (reachable_inv _ _ _ Hw)) Hx HG)).
Qed.

Lemma rows_keep_the_ledger_witness :
  let d := w_db (sample_world three_items) in
  exists x, executions d !! "exec"%string = Some x /\
    Ledger (graph_of x) "trigger"%string (all_summaries d "exec"%string).
Proof.
  cbv zeta. set (w := sample_world three_items).
  assert (Hx : exists x, executions (w_db w) !! "exec"%string = Some x /\ graph_of x = sample_graph)
    by (eexists; split; vm_compute; reflexivity).
  destruct Hx as (x & Hx & Hg). exists x. split; [exact Hx|].
  apply (rows_keep_the_ledger _ _ w _ _ _ (sample_reachable three_items) Hx). rewrite Hg.
  assert (Hv : exists t, ValidGraph sample_graph t) by (apply validateExecutableGraph_ok; vm_compute; reflexivity).
  destruct Hv as (t & Ht). destruct (valid_findTrigger _ _ Ht) as (node & Hf & <-).
  assert (Hn : findTriggerNode sample_graph = Some (sample_node "trigger"%string trigger None)) by (vm_compute; reflexivity).
  rewrite Hn in Hf. injection Hf as <-. exact Ht.
Defined.
