(* ===== verification/EnginePlanEnds.v ===== *)
(** * Engine v2: planning does not get stuck

    A step is ready when every edge into it reads nothing at its iteration or is decided by
    a settled row, and some edge is.  As long as an execution is not finished some step is
    ready or some row is not settled ([planned_out]): a graph that is accepted has no part
    that waits for ever, and a loop's passes lead on to the next until one ends it. *)

From stdpp Require Import base gmap strings pretty list fin_maps fin_sets relations.
From Stdlib Require Import ZArith Lia.
From S2P Require Import Prelude.
From S2P Require Import JsCollections.
From S2P Require Import EngineTypes.
From S2P Require Import EngineGraph.
From S2P Require Import EngineScc.
From S2P Require Import EngineLoops.
From S2P Require Import EngineSettlement.
From S2P Require Import EnginePlan.
From S2P Require Import EngineStore.
From S2P Require Import EngineWorld.
From S2P Require Import EngineInputs.

(** ** Forward edges are well founded *)

Section ends.
Context (g : WorkflowGraph) (t : string) (HG : ValidGraph g t).
Local Notation L := (deriveLoops g).

Let HV : ValidLoops g := ve_loops _ _ HG.
Let HL : LoopsOk L := ValidLoops_LoopsOk _ HV.

Lemma forward_wf : well_founded (edge_rel (forward_edges g)).
Proof.
  apply (acyclic_wf (node_ids g)).
  - intros x y (e & He & <- & <-). apply elem_of_forward_edges in He as [He _]. by apply (vg_endpoints _ HV).
  - apply (vg_acyclic _ HV).
Qed.

Lemma class_forward e : e ∈ edges g -> classifyEdge e L <> back -> edge_rel (forward_edges g) (from e) (to e).
Proof.
  intros He Hc. exists e. split; [|done]. apply elem_of_forward_edges. split; [done|].
  unfold classifyEdge in Hc. by destruct (is_back e).
Qed.

Lemma trigger_outside (l : WorkflowLoop) : l ∈ L -> t ∉ memberIds l.
Proof.
  intros Hl Hm. destruct (loop_facts g t HG l Hl) as [Hh Hmem].
  apply (vl_no_trigger _ _ (vg_loop _ HV _ Hh) t); [by apply Hmem|].
  destruct (ve_trigger _ _ HG) as (node & Hid & Hf). exists node.
  assert (Hin : node ∈ arr_filter (fun node => bool_decide (gn_type node = trigger)) (nodes g))
    by (rewrite Hf; set_solver).
  apply elem_of_arr_filter in Hin as [Ht Hn]. by apply bool_decide_eq_true in Ht.
Qed.

(** Whatever the trigger reaches it reaches along forward edges, so nothing leads back to it. *)
Lemma forward_reached x :
  rtc (edge_rel (edges g)) t x ->
  rtc (edge_rel (forward_edges g)) t x /\
  forall l, l ∈ L -> x ∈ memberIds l -> rtc (edge_rel (forward_edges g)) t (batchNodeId l).
Proof.
  revert x. apply (rtc_ind_r (fun x => rtc (edge_rel (forward_edges g)) t x /\ forall l, l ∈ L -> x ∈ memberIds l ->
    rtc (edge_rel (forward_edges g)) t (batchNodeId l))).
  { split; [done|]. intros l Hl Hm. by destruct (trigger_outside l Hl). }
  intros x y _ (e & He & <- & <-) [Hf Hb].
  assert (Hstep : classifyEdge e L <> back -> rtc (edge_rel (forward_edges g)) t (to e)).
  { intros Hc. eapply rtc_r; [exact Hf|]. by apply class_forward. }
  assert (Hbatch : forall l, l ∈ L -> to e = batchNodeId l -> rtc (edge_rel (forward_edges g)) t (to e) ->
    forall l', l' ∈ L -> to e ∈ memberIds l' -> rtc (edge_rel (forward_edges g)) t (batchNodeId l')).
  { intros l Hl Ht Hr l' Hl' Hm. rewrite Ht in Hm, Hr. by rewrite (batch_of g t HG l l'). }
  assert (Hsh := classifyEdge_shape g t HG e He).
  destruct (classifyEdge e L) eqn:Hc;
    inversion Hsh as [l Hl Hfm Ht|l Hl Hfm Ht Hn|l Hl Hfm Ht Hout|l Hl Hout Ht|Hout Ht].
  - split; [by apply Hstep|]. intros l Hl Hm. by destruct (Ht l Hl).
  - split; [by apply Hstep|]. by apply (Hbatch l Hl Ht), Hstep.
  - split; [by apply Hstep|]. intros l' Hl' Hm. rewrite (lo_disjoint _ HL l' l _ Hl' Hl Hm Ht). by apply Hb.
  - assert (rtc (edge_rel (forward_edges g)) t (to e)) by (rewrite Ht; by apply Hb). split; [done|by apply (Hbatch l)].
  - split; [by apply Hstep|]. intros l' Hl' Hm. rewrite <-(Hout l' Hl' Hm). by apply Hstep.
Qed.

Lemma no_edge_into_trigger e : e ∈ edges g -> to e <> t.
Proof.
  intros He Hto. assert (Hr : rtc (edge_rel (edges g)) t (from e)).
  { destruct (ve_reachable _ _ HG e He ltac:(by left)) as [<-|Hr]; [done|by apply tc_rtc]. }
  destruct (decide (classifyEdge e L = back)) as [Hc|Hc].
  - assert (Hsh := classifyEdge_shape g t HG e He). rewrite Hc in Hsh.
    inversion Hsh as [l Hl Hf Ht| | | |]. apply (trigger_outside l Hl). rewrite <-Hto, Ht.
    by apply (batch_member g t HG).
  - apply (vg_acyclic _ HV t). destruct (forward_reached _ Hr) as [Hf _].
    apply (class_forward e He) in Hc. rewrite Hto in Hc.
    apply rtc_tc in Hf as [Heq|Hf]; [by rewrite <-Heq in Hc; apply tc_once|]. by eapply tc_r.
Qed.

(** ** Steps that are ready *)

(** The settled row of [src] decides [k] along the edge. *)
Record decides (S : Summaries) (e : GraphEdge) (src k : StepKey) (r : StepSummary) : Prop := {
  de_edge : e ∈ edges g;
  de_row : S !! stepKeyId src = Some r;
  de_settled : isSettledStatus (ss_status r) = true;
  de_from : from e = nodeId src;
  de_target : targetKey e (classifyEdge e L) src = k;
  de_side : forall l, l ∈ L -> batchNodeId l = nodeId src -> batchStepDecides (classifyEdge e L) r = true;
}.

(** The edge reads no row at the iteration of [k]. *)
Definition reads_nothing (e : GraphEdge) (k : StepKey) : Prop :=
  match classifyEdge e L with
  | back => iteration k = 0%Z
  | entry | exit => (0 < iteration k)%Z
  | _ => False
  end.

Definition ready (S : Summaries) (k : StepKey) : Prop :=
  (forall e, e ∈ edges g -> to e = nodeId k -> reads_nothing e k \/ exists src r, decides S e src k r) /\
  exists e src r, decides S e src k r.

Lemma targetKey_node (e : GraphEdge) (c : EdgeClass) (src : StepKey) : nodeId (targetKey e c src) = to e.
Proof. by destruct c. Qed.

Lemma decides_to S e src k r : decides S e src k r -> to e = nodeId k.
Proof. intros [_ _ _ _ <- _]. by rewrite targetKey_node. Qed.

Lemma decides_KeyOk S e src k r : Ledger g t S -> decides S e src k r -> KeyOk g t S k.
Proof. intros HS [He Hr Hst Hf <- Hs]. by eapply targetKey_KeyOk. Qed.

Lemma decides_terminal S e src k r : decides S e src k r -> classifyEdge e L = exit -> isTerminalStep r = true.
Proof.
  intros [He Hr Hst Hf Ht Hs] Hc. pose proof (classifyEdge_shape g t HG e He) as Hsh. rewrite Hc in Hsh.
  inversion Hsh as [| |l Hl Hfb _ _| |]. specialize (Hs l Hl ltac:(congruence)). rewrite Hc in Hs.
  unfold batchStepDecides in Hs. by destruct (isTerminalStep r).
Qed.

(** Whoever decides a ready step with the terminal passes it needs finds its fate. *)
Lemma ready_decided S (T : Terminals) k :
  Ledger g t S -> ready S k ->
  (forall e i b, e ∈ edges g -> to e = nodeId k -> classifyEdge e L = exit ->
     S !! stepKeyId (mkKey (from e) i) = Some b -> isTerminalStep b = true -> T !! from e = Some i) ->
  decideNodeFate g L k S T = fate_queued \/ decideNodeFate g L k S T = fate_skipped.
Proof.
  intros HS [Hall (e0 & src0 & r0 & H0)] HT.
  pose proof (decides_KeyOk _ _ _ _ _ HS H0) as Hk. pose proof (ko_iteration _ _ _ _ Hk) as Hpos.
  assert (Hreads : forall e src r, decides S e src k r -> reads_row L k S T e r).
  { intros e src r Hd. pose proof Hd as [He Hr Hst Hf Ht Hs]. exists src. split_and!; [|done|done].
    pose proof (HS _ _ Hr) as Hsrc.
    apply sourceRow_iff; [apply (ko_iteration _ _ _ _ Hsrc)|done|by rewrite (decides_to _ _ _ _ _ Hd)|].
    split_and!; [done|done|]. destruct (classifyEdge e L) eqn:Hc; simpl; try done.
    - pose proof (classifyEdge_shape g t HG e He) as Hsh. rewrite Hc in Hsh.
      inversion Hsh as [| | |l Hl Hout _|]. apply (ko_outside _ _ _ _ Hsrc). rewrite <-Hf. apply Hout.
    - apply (HT e (iteration src) r); [done|by apply decides_to in Hd|done| |by eapply decides_terminal].
      rewrite Hf. by destruct src. }
  unfold decideNodeFate. rewrite (KeyOk_not_past_end g t HG) by done.
  apply fate_loop_total.
  - intros e [Ht He]%elem_of_arr_filter. apply bool_decide_eq_true in Ht.
    destruct (Hall e He Ht) as [Hn|(src & r & Hd)]; [left|right; exists r; eauto].
    unfold reads_none, reads_nothing in *. destruct (classifyEdge e L); simpl; try done.
    + by rewrite decide_True.
    + by rewrite decide_True.
    + by rewrite decide_True.
  - right. exists e0, r0. split; [|eauto]. apply elem_of_arr_filter. rewrite bool_decide_eq_true.
    split; [by eapply decides_to|apply H0].
Qed.

Lemma decides_candidate S e src k r :
  decides S e src k r -> S !! stepKeyId k = None -> candidate L src S (outgoing g (nodeId src)) k.
Proof.
  intros [He Hr Hst Hf Ht Hs] Hn. exists e. split_and!; [|intros b|done|done].
  - apply elem_of_arr_filter. by rewrite bool_decide_eq_true.
  - unfold batch_row. destruct (arr_some _ _) eqn:Ha; [|done]. intros Hb.
    apply arr_some_true in Ha as (l & Hl & Heq%bool_decide_eq_true). assert (b = r) as -> by congruence. by apply (Hs l).
Qed.

Lemma candidate_decides S src k r :
  S !! stepKeyId src = Some r -> isSettledStatus (ss_status r) = true ->
  candidate L src S (outgoing g (nodeId src)) k -> exists e, decides S e src k r.
Proof.
  intros Hr Hst (e & [Hf He]%elem_of_arr_filter & Hside & Ht & _). apply bool_decide_eq_true in Hf. exists e.
  split; try done. intros l Hl Heq. apply Hside. unfold batch_row.
  assert (arr_some (fun loop => bool_decide (batchNodeId loop = nodeId src)) L = true) as ->; [|done].
  apply arr_some_true. exists l. by rewrite bool_decide_eq_true.
Qed.

Lemma decides_later S1 S2 e src k r : later S1 S2 -> decides S1 e src k r -> decides S2 e src k r.
Proof. intros Hl []. split; auto. Qed.

Lemma ready_later S1 S2 k : later S1 S2 -> ready S1 k -> ready S2 k.
Proof.
  intros Hl [Hall (e0 & src0 & r0 & H0)]. split; [|by eauto using decides_later].
  intros e He Hto. destruct (Hall e He Hto) as [?|(src & r & H)]; [by left|right]. eauto using decides_later.
Qed.

(** ** A closed table is finished *)

Section closed.
Context (S : Summaries) (HS : Ledger g t S).
Context (Hsettled : forall s r, S !! s = Some r -> isSettledStatus (ss_status r) = true).
Context (Htrigger : is_Some (S !! stepKeyId (mkKey t 0))).
Context (Hclosed : forall k, ready S k -> is_Some (S !! stepKeyId k)).

Local Notation present k := (is_Some (S !! stepKeyId k)).

Definition loop_ends (l : WorkflowLoop) : Prop :=
  exists i b, S !! stepKeyId (mkKey (batchNodeId l) i) = Some b /\ isTerminalStep b = true.

Lemma decides_plain e src :
  e ∈ edges g -> from e = nodeId src -> present src -> (forall l, l ∈ L -> batchNodeId l <> nodeId src) ->
  exists r, decides S e src (targetKey e (classifyEdge e L) src) r.
Proof.
  intros He Hf [r Hr] Hb. exists r. split; try done; [by eapply Hsettled|].
  intros l Hl Heq. by destruct (Hb l Hl).
Qed.

Lemma decides_batch e src r :
  e ∈ edges g -> from e = nodeId src -> S !! stepKeyId src = Some r ->
  (isTerminalStep r = true <-> classifyEdge e L = exit) ->
  decides S e src (targetKey e (classifyEdge e L) src) r.
Proof.
  intros He Hf Hr Hc. split; try done; [by eapply Hsettled|]. intros l Hl Heq.
  unfold batchStepDecides. destruct (isTerminalStep r); [by apply bool_decide_eq_true, Hc|].
  apply negb_true_iff, bool_decide_eq_false. by intros ?%Hc.
Qed.

Lemma member_batch_ne (l : WorkflowLoop) x :
  l ∈ L -> x ∈ memberIds l -> x <> batchNodeId l -> forall l', l' ∈ L -> batchNodeId l' <> x.
Proof. intros Hl Hx Hne l' Hl' Heq. subst x. by rewrite (batch_of g t HG l' l) in Hne. Qed.

(** The body of a pass that goes on is there. *)
Lemma body_present (l : WorkflowLoop) (i : Z) (b : StepSummary) :
  l ∈ L -> S !! stepKeyId (mkKey (batchNodeId l) i) = Some b -> isTerminalStep b = false ->
  forall x, x ∈ memberIds l -> present (mkKey x i).
Proof.
  intros Hl Hb Hnt x. destruct (loop_facts g t HG l Hl) as [Hh Hm].
  induction (forward_wf x) as [x _ IH]. intros Hx.
  destruct (decide (x = batchNodeId l)) as [->|Hne]; [by exists b|].
  assert (Hin : forall e, e ∈ edges g -> to e = x -> exists src r, decides S e src (mkKey x i) r).
  { intros e He Hto. assert (Hsh := classifyEdge_shape g t HG e He).
    assert (Hto_l : to e ∈ memberIds l) by (by rewrite Hto).
    destruct (classifyEdge e L) eqn:Hc;
      inversion Hsh as [l' Hl' Hf Ht|l' Hl' Hf Ht Hn|l' Hl' Hf Ht Hout|l' Hl' Hout Ht|Hout Ht].
    - by destruct (Ht l Hl).
    - exfalso. apply Hne. rewrite Ht in Hto_l. rewrite <-Hto, Ht. by rewrite (batch_of g t HG l' l).
    - pose proof (lo_disjoint _ HL l' l _ Hl' Hl Ht Hto_l) as ->.
      destruct (decide (from e = batchNodeId l)) as [Hfb|Hfb].
      + exists (mkKey (batchNodeId l) i), b. pose proof (decides_batch e (mkKey (batchNodeId l) i) b He Hfb Hb) as Hd.
        rewrite Hc in Hd. simpl in Hd. rewrite Hto in Hd. apply Hd. by rewrite Hnt.
      + destruct (IH (from e)) as [r Hr]; [|done|].
        { exists e. split; [|done]. apply elem_of_forward_edges. split; [done|].
          unfold classifyEdge in Hc. by destruct (is_back e). }
        exists (mkKey (from e) i).
        destruct (decides_plain e (mkKey (from e) i) He eq_refl ltac:(by exists r)) as [r' Hd].
        { by eapply member_batch_ne. }
        exists r'. rewrite Hc in Hd. simpl in Hd. by rewrite Hto in Hd.
    - exfalso. apply Hne. rewrite Ht in Hto_l. rewrite <-Hto, Ht. by rewrite (batch_of g t HG l' l).
    - exfalso. apply Hne. rewrite <-Hto. by apply Hout. }
  apply Hclosed. split; [intros e He Hto; right; by apply Hin|].
  destruct (member_forward g t HG (batchNodeId l) x Hh (proj1 (Hm x) Hx)) as [|Hr]; [done|].
  apply tc_last in Hr as (y & _ & e & He & _ & Hto).
  apply elem_of_forward_edges in He as [He _]. destruct (Hin e He Hto) as (src & r & Hd). eauto.
Qed.

Lemma next_pass (l : WorkflowLoop) (i : Z) (b : StepSummary) :
  l ∈ L -> (0 <= i)%Z -> S !! stepKeyId (mkKey (batchNodeId l) i) = Some b -> isTerminalStep b = false ->
  present (mkKey (batchNodeId l) (i + 1)).
Proof.
  intros Hl Hi Hb Hnt. destruct (loop_facts g t HG l Hl) as [Hh Hm].
  assert (Hback : forall e, e ∈ edges g -> to e = batchNodeId l -> classifyEdge e L = back ->
    exists src r, decides S e src (mkKey (batchNodeId l) (i + 1)) r).
  { intros e He Hto Hc. assert (Hsh := classifyEdge_shape g t HG e He). rewrite Hc in Hsh.
    inversion Hsh as [l' Hl' Hf Ht| | | |].
    assert (l' = l) as ->.
    { symmetry. apply (batch_of g t HG); [done..|]. rewrite <-Ht, Hto. by apply (batch_member g t HG). }
    destruct (decide (from e = batchNodeId l)) as [Hfb|Hfb].
    - exists (mkKey (batchNodeId l) i), b. pose proof (decides_batch e (mkKey (batchNodeId l) i) b He Hfb Hb) as Hd.
      rewrite Hc in Hd. simpl in Hd. rewrite Hto in Hd. apply Hd. by rewrite Hnt.
    - exists (mkKey (from e) i).
      destruct (decides_plain e (mkKey (from e) i) He eq_refl) as [r Hd].
      { by eapply body_present. }
      { by eapply member_batch_ne. }
      exists r. rewrite Hc in Hd. simpl in Hd. by rewrite Hto in Hd. }
  apply Hclosed. split.
  - simpl. intros e He Hto. unfold reads_nothing. destruct (to_batch_class g t HG e l He Hl Hto) as [Hc|[Hc|Hc]].
    + right. by apply Hback.
    + left. rewrite Hc. simpl. lia.
    + left. rewrite Hc. simpl. lia.
  - destruct Hh as (e & [He Hbk] & Hto). destruct (Hback e He Hto) as (src & r & Hd); [|eauto].
    unfold classifyEdge. by rewrite Hbk.
Qed.

(** A loop that is reached is entered from outside, at its batch node. *)
Lemma loop_entered (l : WorkflowLoop) :
  l ∈ L -> reachable g t (batchNodeId l) ->
  exists e, e ∈ edges g /\ classifyEdge e L <> back /\ to e = batchNodeId l /\ reachable g t (from e).
Proof.
  intros Hl Hr. assert (Hrtc : rtc (edge_rel (edges g)) t (batchNodeId l)).
  { destruct Hr as [<-|Hr]; [done|by apply tc_rtc]. }
  clear Hr. pose proof (batch_member g t HG l Hl) as Hm. revert Hrtc Hm. generalize (batchNodeId l) at 1 2 as x.
  apply (rtc_ind_r (fun x => x ∈ memberIds l -> _)); [by intros ?%trigger_outside|].
  intros x y Hx (e & He & <- & <-) IH Hy.
  destruct (decide (from e ∈ memberIds l)) as [Hf|Hf]; [by apply IH|].
  assert (Hreach : reachable g t (from e)).
  { apply rtc_tc in Hx as [->|?]; [by left|by right]. }
  exists e. assert (Hsh := classifyEdge_shape g t HG e He).
  destruct (classifyEdge e L) eqn:Hc;
    inversion Hsh as [l' Hl' Hfm Ht|l' Hl' Hfm Ht Hn|l' Hl' Hfm Ht Hout|l' Hl' Hout Ht|Hout Ht].
  - by destruct (Ht l Hl).
  - rewrite Ht in Hy |- *. by rewrite (batch_of g t HG l' l).
  - by rewrite (lo_disjoint _ HL l' l _ Hl' Hl Ht Hy) in Hfm.
  - rewrite Ht in Hy. by rewrite (batch_of g t HG l' l) in Hf.
  - split_and!; [done|done|by apply Hout|done].
Qed.

(** A pass after the other, one ends the loop: there are only so many rows. *)
Lemma passes_end (l : WorkflowLoop) : l ∈ L -> present (mkKey (batchNodeId l) 0) -> loop_ends l.
Proof.
  intros Hl H0.
  assert (Hgo : forall n : nat, loop_ends l \/ forall i : nat, i <= n -> present (mkKey (batchNodeId l) (Z.of_nat i))).
  { induction n as [|n [He|Hp]]; [right; intros i Hi; by replace i with 0 by lia|by left|].
    destruct (Hp n (Nat.le_refl n)) as [b Hb]. destruct (isTerminalStep b) eqn:Ht; [left; by exists (Z.of_nat n), b|].
    right. intros i Hi. destruct (decide (i = Datatypes.S n)) as [->|]; [|apply Hp; lia].
    replace (Z.of_nat (Datatypes.S n)) with (Z.of_nat n + 1)%Z by lia. apply (next_pass l _ b); [done|lia|done|done]. }
  destruct (Hgo (size S)) as [|Hp]; [done|]. exfalso.
  set (keys := (fun i : nat => stepKeyId (mkKey (batchNodeId l) (Z.of_nat i))) <$> seq 0 (Datatypes.S (size S))).
  assert (Hnd : NoDup keys).
  { apply NoDup_fmap_2; [|apply NoDup_seq]. intros i j Hij. apply (inj stepKeyId) in Hij. injection Hij. lia. }
  assert (Hsub : list_to_set keys ⊆ dom S).
  { intros k (i & -> & Hi)%elem_of_list_to_set%list_elem_of_fmap. apply elem_of_seq in Hi.
    apply elem_of_dom, Hp. lia. }
  apply subseteq_size in Hsub. rewrite size_list_to_set, size_dom in Hsub by done.
  unfold keys in Hsub. rewrite length_fmap, length_seq in Hsub. lia.
Qed.

Lemma reached n :
  reachable g t n ->
  ((forall l, l ∈ L -> n ∉ memberIds l) -> present (mkKey n 0)) /\
  (forall l, l ∈ L -> n = batchNodeId l -> loop_ends l).
Proof.
  induction (forward_wf n) as [n _ IH]. intros Hn.
  assert (Hin : forall e, e ∈ edges g -> to e = n -> classifyEdge e L <> back -> classifyEdge e L <> intra ->
    exists src r, decides S e src (mkKey n 0) r).
  { intros e He Hto Hb Hi.
    assert (Hf : reachable g t (from e)) by (apply (ve_reachable _ _ HG e He); by rewrite Hto).
    destruct (IH (from e)) as [Hout Hends]; [rewrite <-Hto; by apply class_forward|done|].
    assert (Hplain : (forall l, l ∈ L -> from e ∉ memberIds l) ->
      targetKey e (classifyEdge e L) (mkKey (from e) 0) = mkKey n 0 -> exists src r, decides S e src (mkKey n 0) r).
    { intros Hfm Ht. destruct (decides_plain e (mkKey (from e) 0) He eq_refl (Hout Hfm)) as [r Hd].
      { intros l Hl Heq. simpl in Heq. apply (Hfm l Hl). rewrite <-Heq. by apply (batch_member g t HG). }
      exists (mkKey (from e) 0), r. by rewrite Ht in Hd. }
    assert (Hsh := classifyEdge_shape g t HG e He).
    destruct (classifyEdge e L) eqn:Hc; try done;
      inversion Hsh as [|?|l' Hl' Hfm Ht _|l' Hl' Hfm Ht|Hfm Ht].
    - apply Hplain; [done|]. simpl. by rewrite Hto.
    - apply Hplain; [done|]. simpl. by rewrite Hto.
    - destruct (Hends l' Hl' Hfm) as (i & b & Hrow & Hterm). exists (mkKey (from e) i), b.
      pose proof (decides_batch e (mkKey (from e) i) b He eq_refl) as Hd. rewrite Hc in Hd. simpl in Hd.
      rewrite Hto in Hd. apply Hd; [by rewrite Hfm|by rewrite Hterm]. }
  split.
  - intros Hm. destruct (decide (n = t)) as [->|Hne]; [done|].
    assert (Hin' : forall e, e ∈ edges g -> to e = n -> exists src r, decides S e src (mkKey n 0) r).
    { intros e He Hto. assert (Hsh := classifyEdge_shape g t HG e He). apply Hin; [done|done| |]; intros Hc; rewrite Hc in Hsh.
      - inversion Hsh as [l Hl _ Ht| | | |]. apply (Hm l Hl). rewrite <-Hto, Ht. by apply (batch_member g t HG).
      - inversion Hsh as [|l Hl _ Ht _| | |]. apply (Hm l Hl). by rewrite <-Hto. }
    apply Hclosed. split; [intros e He Hto; right; by apply Hin'|].
    destruct Hn as [|Hr]; [done|]. apply tc_last in Hr as (y & _ & e & He & _ & Hto).
    destruct (Hin' e He Hto) as (src & r & Hd). eauto.
  - intros l Hl Heq. apply passes_end; [done|]. subst n.
    assert (Hni : forall e, e ∈ edges g -> to e = batchNodeId l -> classifyEdge e L <> intra).
    { intros e He Hto Hc. destruct (to_batch_class g t HG e l He Hl Hto) as [H|[H|H]]; congruence. }
    apply Hclosed. split.
    + simpl. intros e He Hto. destruct (decide (classifyEdge e L = back)) as [Hc|Hc].
      * left. unfold reads_nothing. by rewrite Hc.
      * right. apply Hin; auto.
    + destruct (loop_entered l Hl Hn) as (e & He & Hc & Hto & _).
      destruct (Hin e He Hto Hc (Hni e He Hto)) as (src & r & Hd). eauto.
Qed.

(** The passes before the last went on. *)
Lemma pass_before (l : WorkflowLoop) (i j : Z) (b : StepSummary) :
  l ∈ L -> S !! stepKeyId (mkKey (batchNodeId l) i) = Some b -> (0 <= j < i)%Z -> ongoing S l j.
Proof.
  intros Hl Hb [Hj Hlt]. assert (exists n : nat, i = j + 1 + Z.of_nat n)%Z as [n ->] by (exists (Z.to_nat (i - j - 1)); lia).
  clear Hlt. revert b Hb. induction n as [|n IH]; intros b Hb.
  - pose proof (ko_next _ _ _ _ (HS _ _ Hb) l Hl eq_refl) as H. simpl in H.
    replace (j + 1 + Z.of_nat 0 - 1)%Z with j in H by lia. apply H. lia.
  - pose proof (ko_next _ _ _ _ (HS _ _ Hb) l Hl eq_refl) as H. simpl in H.
    destruct H as (b' & Hb' & _); [lia|]. apply (IH b'). rewrite <-Hb'. do 3 f_equal. lia.
Qed.

Lemma terminals_exist : exists T, terminals_ok S T /\ ended g t S T.
Proof.
  assert (Hgen : forall ls : list WorkflowLoop, (forall l, l ∈ ls -> l ∈ L) -> exists T, terminals_ok S T /\
    forall l, l ∈ ls -> reachable g t (batchNodeId l) -> is_Some (T !! batchNodeId l)).
  { induction ls as [|l ls IH]; intros Hls.
    - exists ∅. split; [intros n i; by rewrite lookup_empty|set_solver].
    - destruct IH as (T & HT & Hall); [set_solver|].
      destruct (decide (batchNodeId l ∈ reach_list g t)) as [Hr|Hr].
      + apply elem_of_reach_list in Hr.
        destruct (proj2 (reached _ Hr) l ltac:(set_solver) eq_refl) as (i & b & Hb & Hterm).
        exists (<[batchNodeId l := i]> T). split.
        * intros n j [[<- <-]|[_ Hj]]%lookup_insert_Some; [by exists b|by apply HT].
        * intros l' [->|Hl']%elem_of_cons Hr'; [by rewrite lookup_insert_eq; eexists|].
          apply lookup_insert_is_Some'. right. by apply Hall.
      + exists T. split; [done|]. intros l' [->|Hl']%elem_of_cons Hr'; [|by apply Hall].
        by destruct Hr; apply elem_of_reach_list. }
  destruct (Hgen L ltac:(done)) as (T & HT & Hall). exists T. split; [done|]. intros l Hl Hr.
  destruct (Hall l Hl Hr) as [i Hi]. destruct (HT _ _ Hi) as (b & Hb & Hterm). by exists i, b.
Qed.

(** Nothing is left to plan, and every row is settled: every step owed is there. *)
Lemma planned_out :
  exists T, ended g t S T /\ forall k, owes L (reach_list g t) T k -> present k.
Proof.
  destruct terminals_exist as (T & HT & Hend). exists T. split; [done|].
  intros [n i] [(Hi & Hr & Hout)|(l & z & Hl & Hr & Hz & Hm & Hpos & Hlt)]; simpl in *.
  - subst i. apply elem_of_reach_list in Hr. apply reached; [done|]. intros l Hl Hm.
    apply (Hout l Hl); [|done]. destruct (loop_facts g t HG l Hl) as [_ Hmem].
    destruct (proj1 (Hmem _) Hm) as [_ Hb]. apply elem_of_reach_list. clear -Hr Hb HG.
    induction Hb as [x|x y z Hxy _ IH]; [done|]. apply IH. destruct Hxy as (e & He & <- & <-).
    by apply (reachable_edge g t).
  - destruct (HT _ _ Hz) as (b & Hb & Hterm).
    assert (Hbody : forall j, (0 <= j < z)%Z -> forall x, x ∈ memberIds l -> present (mkKey x j)).
    { intros j Hj. destruct (pass_before l z j b Hl Hb Hj) as (b' & Hb' & _ & Hnt). by apply (body_present l j b'). }
    case_decide as Heq.
    + destruct (decide (i = z)) as [->|]; [subst n; by exists b|]. apply Hbody; [lia|done].
    + apply Hbody; [lia|done].
Qed.
End closed.
End ends.
