(* ===== verification/EngineDuties.v ===== *)
(** * Engine v2: what a handler will do

    When no call fails and nobody crashes, whoever takes a step on takes the next one too:
    who claims a step settles it, who settles it announces it, who handles the announcement
    plans what it made ready and ends an execution that owes nothing more.  [will] says that
    a program gets to it, whatever runs in between; [responsible] that every call of a
    program which leaves something to do is followed by the program doing it. *)

From stdpp Require Import base gmap strings pretty list fin_maps relations.
From Stdlib Require Import ZArith Lia.
From S2P Require Import Prelude.
From S2P Require Import JsCollections.
From S2P Require Import EngineTypes.
From S2P Require Import EngineGraph.
From S2P Require Import EngineScc.
From S2P Require Import EngineLoops.
From S2P Require Import EngineSettlement.
From S2P Require Import EnginePlan.
From S2P Require Import EngineStore.
From S2P Require Import EngineProgram.
From S2P Require Import EngineBatch.
From S2P Require Import EngineHandlers.
From S2P Require Import EngineWorld.
From S2P Require Import EngineInputs.
From S2P Require Import EnginePlanEnds.

(** Chains the moments of a run. *)
Ltac later :=
  solve [ eassumption | reflexivity
        | match goal with H : db_le ?d ?d1 |- db_le ?d _ => transitivity d1; [exact H|later] end ].

(** ** Calls that work *)

(** The call takes effect and is answered; the ids a step insert draws are new. *)
Definition op_works (o : op) : Db -> result (resp o) -> Db -> Prop :=
  match o as o return Db -> result (resp o) -> Db -> Prop with
  | CreateSteps e records => fun d r d' => exists qf ids,
      length ids = length records /\ NoDup ids /\ (forall id, id ∈ ids -> steps d !! id = None) /\
      (r, d') = createSteps qf d e records ids
  | o => op_db o
  end.

Lemma works_op_db o d r d' : op_works o d r d' -> op_db o d r d'.
Proof. destruct o; try done. intros (qf & ids & Hl & _ & _ & H). by exists qf, ids. Qed.

(** Every record has its row afterwards. *)
Lemma insert_rows_complete (rows : list StepRecord) (m0 : gmap string StepRecord) :
  NoDup (sr_id <$> rows) -> (forall r, r ∈ rows -> m0 !! sr_id r = None) ->
  forall r, r ∈ rows -> exists id r', (insert_rows m0 rows).1 !! id = Some r' /\
    sr_executionId r' = sr_executionId r /\ sr_key r' = sr_key r.
Proof.
  unfold insert_rows. generalize (@nil CreatedStep) as created. revert m0.
  induction rows as [|row rows IH]; intros m0 created Hnd Hnew r Hr; [set_solver|].
  cbn [fmap list_fmap] in Hnd. apply NoDup_cons in Hnd as [Hrow Hnd]. cbn [foldl].
  assert (Hkeep : forall m c rs id x, m !! id = Some x -> (foldl insert_row (m, c) rs).1 !! id = Some x).
  { intros m c rs. revert m c. induction rs as [|x rs IHr]; intros m c id y Hy; [done|]. cbn [foldl].
    unfold insert_row at 2. destruct (conflicts m x) eqn:Hc; [by apply IHr|]. apply IHr.
    apply conflicts_spec in Hc as [Hn _]. rewrite lookup_insert_ne; [done|]. intros Heq. congruence. }
  unfold insert_row at 2. destruct (conflicts m0 row) eqn:Hc.
  - apply elem_of_cons in Hr as [->|Hr]; [|apply IH; [done|intros; apply Hnew; by right|done]].
    destruct (decide (Exists (fun p => sr_executionId p.2 = sr_executionId row /\ sr_key p.2 = sr_key row) (map_to_list m0)))
      as [Hex|Hex].
    + apply Exists_exists in Hex as ([id r'] & Hin%elem_of_map_to_list & He & Hk). exists id, r'. split; [by apply Hkeep|done].
    + exfalso. assert (conflicts m0 row = false); [|congruence]. apply conflicts_spec. split; [apply Hnew; by left|].
      intros id r' Hr' He Hk. apply Hex, Exists_exists. exists (id, r'). split; [by apply elem_of_map_to_list|done].
  - apply elem_of_cons in Hr as [->|Hr].
    + exists (sr_id row), row. split; [|done]. apply Hkeep. by rewrite lookup_insert_eq.
    + apply IH; [done| |done]. intros r' Hr'. rewrite lookup_insert_ne; [apply Hnew; by right|].
      intros Heq. apply Hrow. rewrite Heq. by apply list_elem_of_fmap_2.
Qed.

Lemma create_works d e records r d' :
  Inv d -> Inv d' -> op_works (CreateSteps e records) d r d' -> is_Some (executions d !! e) ->
  (forall rec, rec ∈ records -> creatable rec) ->
  (exists created, r = Ok created) /\
  (failed_in d e \/ forall rec, rec ∈ records -> exists row, row_at d' e (mkKey (ns_nodeId rec) (ns_iteration rec)) row).
Proof.
  intros HI HI' (qf & ids & Hlen & Hnd & Hnew & Heq) Hx Hcr. revert Heq. unfold createSteps.
  destruct records as [|rec0 records']; [intros [= -> ->]; split; [by eexists|right; set_solver]|].
  set (records := rec0 :: records') in *.
  assert (for_each assertCreatableRecord records = Ok tt) as ->.
  { apply for_each_ok. intros rec Hrec. by apply assertCreatableRecord_ok, Hcr. }
  destruct (has_failed (steps d) e) eqn:Hf.
  { intros [= -> ->]. split; [by eexists|]. left. by apply (has_failed_spec _ _ (inv_table _ HI)). }
  assert (Hids : sr_id <$> zip_with (new_row e) records ids = ids).
  { clear -Hlen. revert ids Hlen. generalize records. intros l. induction l as [|x l IH]; intros [|i ids] Hlen; try done.
    simpl. f_equal. apply IH. simpl in Hlen. lia. }
  pose proof (insert_rows_complete (zip_with (new_row e) records ids) (steps d)) as Hall.
  destruct (insert_rows _ _) as [m created]. cbn [fst] in Hall. rewrite (bool_decide_true _ Hx). simpl.
  intros [= -> ->]. split; [by eexists|]. right. intros rec Hrec.
  apply list_elem_of_lookup in Hrec as [i Hi].
  destruct (ids !! i) as [id|] eqn:Hid; [|apply lookup_ge_None in Hid; apply lookup_lt_Some in Hi; lia].
  destruct (Hall ltac:(by rewrite Hids)) with (r := new_row e rec id) as (id' & row & Hrow & He & Hk).
  - intros r' Hr'. apply Hnew. rewrite <-Hids. by apply list_elem_of_fmap_2.
  - apply list_elem_of_lookup. exists i. by rewrite lookup_zip_with, Hi, Hid.
  - exists row. unfold row_at. pose proof (tk_id _ (inv_table _ HI') id' row Hrow) as Hrid. rewrite Hrid. by split_and!.
Qed.

(** ** What a program will do *)

(** The program makes a call of [G], or [M] comes true before it is through, whatever
    others do in between. *)
Fixpoint will {A} (M : Db -> Prop) (G : op -> Prop) (p : prog A) (d : Db) : Prop :=
  match p with
  | Ret _ | Throw _ => M d
  | Call o k => G o \/ forall d1, db_le d d1 -> Inv d1 ->
      forall r d2, op_works o d1 r d2 -> Inv d2 -> db_le d1 d2 -> M d2 \/ will M G (k r) d2
  end.

(** It gets through, unless [M] comes true. *)
Fixpoint passes {A} (M : Db -> Prop) (p : prog A) (d : Db) (Q : A -> Db -> Prop) : Prop :=
  match p with
  | Ret a => forall d1, db_le d d1 -> Inv d1 -> Q a d1
  | Throw _ => M d
  | Call o k => forall d1, db_le d d1 -> Inv d1 ->
      forall r d2, op_works o d1 r d2 -> Inv d2 -> db_le d1 d2 -> M d2 \/ passes M (k r) d2 Q
  end.

(** What stays true as the tables move on. *)
Definition stable (M : Db -> Prop) : Prop := forall d d', Inv d -> Inv d' -> db_le d d' -> M d -> M d'.

Section rules.
Context (M : Db -> Prop) (HM : stable M).

Lemma will_moot {A} G (p : prog A) d : Inv d -> M d -> will M G p d.
Proof.
  revert d. induction p as [a|err|o k IH]; intros d HI H; simpl; [done|done|]. right.
  intros d1 Hle HI1 r d2 _ HI2 Hle2. left. eapply (HM d1); [done..|]. by eapply (HM d).
Qed.

Lemma will_later {A} G (p : prog A) d d' : Inv d -> Inv d' -> db_le d d' -> will M G p d -> will M G p d'.
Proof.
  destruct p as [a|err|o k]; simpl; intros HI HI' Hle; [by eapply HM|by eapply HM|]. intros [?|H]; [by left|right].
  intros d1 Hle1 HI1. apply H; [by etrans|done].
Qed.

Lemma passes_conseq {A} (p : prog A) d (Q R : A -> Db -> Prop) :
  Inv d -> passes M p d Q -> (forall a d1, db_le d d1 -> Inv d1 -> Q a d1 -> R a d1) -> passes M p d R.
Proof.
  revert d. induction p as [a|err|o k IH]; intros d HI Hp HQ; simpl in *; [|done|].
  - intros d1 Hle HI1. apply HQ; auto.
  - intros d1 Hle HI1 r d2 Hr HI2 Hle2. destruct (Hp d1 Hle HI1 r d2 Hr HI2 Hle2) as [|H]; [by left|right].
    apply IH; [done|done|]. intros a d3 Hle3. apply HQ. etrans; [exact Hle|]. by etrans.
Qed.

Lemma passes_bind {A B} (p : prog A) (f : A -> prog B) d Q R :
  Inv d -> passes M p d Q -> (forall a d1, db_le d d1 -> Inv d1 -> Q a d1 -> passes M (f a) d1 R) -> passes M (p ≫= f) d R.
Proof.
  change (p ≫= f) with (prog_bind p f). revert d.
  induction p as [a|err|o k IH]; intros d HI Hp Hf.
  - change (prog_bind (Ret a) f) with (f a). apply Hf; [done|done|]. by apply Hp.
  - exact Hp.
  - intros d1 Hle HI1 r d2 Hr HI2 Hle2. destruct (Hp d1 Hle HI1 r d2 Hr HI2 Hle2) as [|H]; [by left|right].
    apply (IH r d2 HI2 H). intros a d3 Hle3. apply Hf. etrans; [exact Hle|]. by etrans.
Qed.

Lemma will_bind {A B} (p : prog A) (f : A -> prog B) G d Q :
  Inv d -> passes M p d Q -> (forall a d1, db_le d d1 -> Inv d1 -> Q a d1 -> will M G (f a) d1) -> will M G (p ≫= f) d.
Proof.
  change (p ≫= f) with (prog_bind p f). revert d.
  induction p as [a|err|o k IH]; intros d HI Hp Hf.
  - change (prog_bind (Ret a) f) with (f a). apply Hf; [done|done|]. by apply Hp.
  - exact Hp.
  - right. intros d1 Hle HI1 r d2 Hr HI2 Hle2. destruct (Hp d1 Hle HI1 r d2 Hr HI2 Hle2) as [|H]; [by left|right].
    apply (IH r d2 HI2 H). intros a d3 Hle3. apply Hf. etrans; [exact Hle|]. by etrans.
Qed.

(** What a part of a program will do the whole will. *)
Lemma will_left {A B} (p : prog A) (f : A -> prog B) G d : Inv d -> will M G p d -> will M G (p ≫= f) d.
Proof.
  change (p ≫= f) with (prog_bind p f). revert d.
  induction p as [a|err|o k IH]; intros d HI Hp; [by apply will_moot|exact Hp|].
  destruct Hp as [?|Hp]; [by left|right]. intros d1 Hle HI1 r d2 Hr HI2 Hle2.
  destruct (Hp d1 Hle HI1 r d2 Hr HI2 Hle2) as [|H]; [by left|right]. by apply IH.
Qed.

Lemma passes_call (o : op) d (Q : resp o -> Db -> Prop) :
  (forall d1, db_le d d1 -> Inv d1 -> forall r d2, op_works o d1 r d2 -> Inv d2 -> db_le d1 d2 ->
     M d2 \/ exists a, r = Ok a /\ forall d3, db_le d2 d3 -> Inv d3 -> Q a d3) ->
  passes M (call o) d Q.
Proof.
  intros H d1 Hle HI1 r d2 Hr HI2 Hle2. destruct (H d1 Hle HI1 r d2 Hr HI2 Hle2) as [|(a & -> & Ha)]; [by left|by right].
Qed.

Lemma passes_lift {A} (r : result A) a d (Q : A -> Db -> Prop) :
  r = Ok a -> (forall d1, db_le d d1 -> Inv d1 -> Q a d1) -> passes M (lift r) d Q.
Proof. by intros ->. Qed.

(** A block whose errors are caught gets through. *)
Lemma passes_attempt {A} (p : prog A) d : passes M (attempt p) d (fun _ _ => True).
Proof. revert d. induction p as [a|err|o k IH]; intros d; [done|done|]. intros d1 _ _ r d2 _ _ _. right. apply IH. Qed.

(** Calls that are answered whenever they work. *)
Definition answers (o : op) : Prop := forall d r d', op_db o d r d' -> exists a, r = Ok a.

Lemma succeeds_passes {A} (p : prog A) d Q : Inv d -> all_ops answers p -> succeeds p d Q -> passes M p d Q.
Proof.
  revert d. induction p as [a|err|o k IH]; intros d HI [Ho Hk] Hs || intros d HI Ho Hs; [exact Hs|done|].
  intros d1 Hle HI1 r d2 Hr HI2 Hle2. right. apply works_op_db in Hr. destruct (Ho d1 r d2 Hr) as [a ->].
  apply IH; [done|by apply Hk|]. by apply (Hs d1).
Qed.
End rules.

#[global] Arguments will : simpl never.
#[global] Arguments passes : simpl never.

Lemma will_step {A} (o : op) (f : resp o -> prog A) M G d :
  (forall d1, db_le d d1 -> Inv d1 -> forall r d2, op_works o d1 r d2 -> Inv d2 -> db_le d1 d2 ->
     M d2 \/ exists a, r = Ok a /\ will M G (f a) d2) ->
  will M G (call o ≫= f) d.
Proof.
  intros H. right. intros d1 Hle HI1 r d2 Hr HI2 Hle2.
  destruct (H d1 Hle HI1 r d2 Hr HI2 Hle2) as [|(a & -> & Ha)]; [by left|by right].
Qed.

Lemma will_now {A} (o : op) (f : resp o -> prog A) M (G : op -> Prop) d : G o -> will M G (call o ≫= f) d.
Proof. by left. Qed.

Lemma will_call (o : op) M (G : op -> Prop) d : G o -> will M G (call o) d.
Proof. by left. Qed.

(** ** Duties *)

Definition over (e : string) (d : Db) : Prop :=
  exists x, executions d !! e = Some x /\ ex_status x <> ex_queued /\ ex_status x <> ex_running.

Definition spoiled (e : string) (d : Db) : Prop := over e d \/ failed_in d e.

Definition claimed (e : string) (d : Db) : Prop := exists x, executions d !! e = Some x /\ ex_status x <> ex_queued.

Definition trigger_there (e : string) (d : Db) : Prop :=
  spoiled e d \/ exists x t r, executions d !! e = Some x /\ ValidGraph (graph_of x) t /\ row_at d e (mkKey t 0) r.

Definition step_taken (e id : string) (d : Db) : Prop :=
  spoiled e d \/ exists r, steps d !! id = Some r /\ sr_status r <> queued.

Definition step_done (e id : string) (d : Db) : Prop :=
  spoiled e d \/ exists r, steps d !! id = Some r /\ isSettledStatus (sr_status r) = true.

Definition step_there (e : string) (k : StepKey) (d : Db) : Prop := spoiled e d \/ exists r, row_at d e k r.

Definition never (_ : Db) : Prop := False.
Definition no_call (_ : op) : Prop := False.

Lemma over_stable e : stable (over e).
Proof.
  intros d d' _ _ Hle (x & Hx & Hq & Hr). destruct (dl_exec _ _ Hle _ _ Hx) as (x' & Hx' & Hl). exists x'. split; [done|].
  pose proof (el_status _ _ Hl). by destruct (ex_status x), (ex_status x').
Qed.

Lemma spoiled_stable e : stable (spoiled e).
Proof. intros d d' ? ? Hle [H|H]; [left; by apply (over_stable e d)|right; by eapply failed_in_le]. Qed.

Lemma claimed_stable e : stable (claimed e).
Proof.
  intros d d' _ _ Hle (x & Hx & Hs). destruct (dl_exec _ _ Hle _ _ Hx) as (x' & Hx' & Hl). exists x'. split; [done|].
  pose proof (el_status _ _ Hl). by destruct (ex_status x), (ex_status x').
Qed.

Lemma row_there_later d d' e k r : db_le d d' -> row_at d e k r -> exists r', row_at d' e k r'.
Proof. intros Hle Hr. destruct (row_at_le _ _ _ _ _ Hle Hr) as (r' & Hr' & _). by exists r'. Qed.

Lemma trigger_there_stable e : stable (trigger_there e).
Proof.
  intros d d' ? ? Hle [H|(x & t & r & Hx & Ht & Hr)]; [left; by apply (spoiled_stable e d)|right].
  destruct (dl_exec _ _ Hle _ _ Hx) as (x' & Hx' & Hl). destruct (row_there_later _ _ _ _ _ Hle Hr) as [r' Hr'].
  exists x', t, r'. unfold graph_of. by rewrite (el_record _ _ Hl).
Qed.

Lemma step_taken_stable e id : stable (step_taken e id).
Proof.
  intros d d' ? ? Hle [H|(r & Hr & Hs)]; [left; by apply (spoiled_stable e d)|right].
  destruct (dl_steps _ _ Hle _ _ Hr) as (r' & Hr' & Hl). exists r'. split; [done|].
  pose proof (rl_status _ _ Hl). by destruct (sr_status r), (sr_status r').
Qed.

Lemma step_done_stable e id : stable (step_done e id).
Proof.
  intros d d' ? ? Hle [H|(r & Hr & Hs)]; [left; by apply (spoiled_stable e d)|right].
  destruct (dl_steps _ _ Hle _ _ Hr) as (r' & Hr' & Hl). exists r'. split; [done|]. by rewrite (rl_settled _ _ Hl Hs).
Qed.

Lemma step_there_stable e k : stable (step_there e k).
Proof.
  intros d d' ? ? Hle [H|(r & Hr)]; [left; by apply (spoiled_stable e d)|right]. by eapply row_there_later.
Qed.

Lemma never_stable : stable never.
Proof. by intros d d'. Qed.

(** The nodes the engine can run. *)
Definition runnable (g : WorkflowGraph) : Prop :=
  forall node, node ∈ nodes g -> gn_type node = trigger \/ gn_type node = v1_node \/ gn_type node = batch.

Definition runnable_in (d : Db) (e : string) : Prop := forall x, executions d !! e = Some x -> runnable (graph_of x).

Lemma runnable_later d d' e : db_le d d' -> is_Some (executions d !! e) -> runnable_in d e -> runnable_in d' e.
Proof.
  intros Hle [x Hx] Hr x' Hx'. destruct (dl_exec _ _ Hle _ _ Hx) as (x2 & Hx2 & Hl). assert (x2 = x') as -> by congruence.
  unfold graph_of. rewrite (el_record _ _ Hl). by apply Hr.
Qed.

Lemma runnable_earlier d d' e : db_le d d' -> is_Some (executions d !! e) -> runnable_in d' e -> runnable_in d e.
Proof.
  intros Hle [x Hx] Hr x' Hx'. assert (x' = x) as -> by congruence. destruct (dl_exec _ _ Hle _ _ Hx) as (x2 & Hx2 & Hl).
  specialize (Hr x2 Hx2). unfold graph_of in *. by rewrite <-(el_record _ _ Hl).
Qed.

(** The program will publish the message. *)
Notation announces m p d := (will never (eq (PublishOrchestration m)) p d).
Notation hands_out m p d := (will never (eq (PublishStep m)) p d).

(** What is left to do after a call, by the one who made it. *)
Definition owes_after {A} (o : op) : result (resp o) -> Db -> prog A -> Prop :=
  match o as o return result (resp o) -> Db -> prog A -> Prop with
  | CreateExecution record => fun r d p => r = Ok tt -> announces (ExecutionEnqueuedEvent (ne_id record)) p d
  | TransitionStatus e _ _ => fun r d p => r = Ok true -> will (trigger_there e) no_call p d
  | CreateSteps e _ => fun r d p => forall created c row, r = Ok created -> c ∈ created -> steps d !! cs_id c = Some row ->
      if isSettledStatus (sr_status row) then announces (StepSettledEvent e (cs_id c)) p d
      else hands_out (StepReadyEvent e (cs_id c)) p d
  | ClaimStep id => fun r d p => forall row, r = Ok (Some row) -> runnable_in d (sr_executionId row) ->
      will (step_done (sr_executionId row) id) no_call p d
  | CompleteStep id _ | FailStep id _ => fun r d p => r = Ok true -> forall row, steps d !! id = Some row ->
      announces (StepSettledEvent (sr_executionId row) id) p d
  | _ => fun _ _ _ => True
  end.

(** A message for a step names the step's execution. *)
Definition names_execution (o : op) (d : Db) : Prop :=
  match o with
  | PublishStep (StepReadyEvent e id) => exists row, steps d !! id = Some row /\ sr_executionId row = e
  | _ => True
  end.

Fixpoint responsible {A} (p : prog A) (d : Db) : Prop :=
  match p with
  | Ret _ | Throw _ => True
  | Call o k => forall d1, db_le d d1 -> Inv d1 -> names_execution o d1 /\
      forall r d2, op_works o d1 r d2 -> Inv d2 -> db_le d1 d2 -> owes_after o r d2 (k r) /\ responsible (k r) d2
  end.

(** Calls that leave nothing to do. *)
Definition leaves_nothing (o : op) : bool :=
  match o with
  | CreateExecution _ | TransitionStatus _ _ _ | CreateSteps _ _ | ClaimStep _ | CompleteStep _ _ | FailStep _ _
  | PublishStep _ => false
  | _ => true
  end.

Section responsible_rules.
Context {A : Type}.
Implicit Types (p : prog A) (d : Db).

Lemma owes_err (o : op) err d p : owes_after o (Err err) d p.
Proof. by destruct o. Qed.

Lemma owes_nothing (o : op) r d p : leaves_nothing o = true -> owes_after o r d p.
Proof. by destruct o. Qed.

Lemma owes_left {B} (o : op) r d p (f : A -> prog B) : Inv d -> owes_after o r d p -> owes_after o r d (p ≫= f).
Proof.
  intros HI. destruct o; simpl; try done.
  - intros H Hr. apply will_left; [apply never_stable|done|by apply H].
  - intros H Hr. apply will_left; [apply trigger_there_stable|done|by apply H].
  - intros H created c row Hr Hc Hrow. specialize (H created c row Hr Hc Hrow).
    case_match; (apply will_left; [apply never_stable|done|done]).
  - intros H row Hr Hrun. apply will_left; [apply step_done_stable|done|by apply H].
  - intros H Hr row Hrow. apply will_left; [apply never_stable|done|by apply H].
  - intros H Hr row Hrow. apply will_left; [apply never_stable|done|by apply H].
Qed.

Lemma responsible_later p d d' : db_le d d' -> responsible p d -> responsible p d'.
Proof. destruct p; simpl; intros Hle H; [done|done|]. intros d1 Hle1. apply H. by etrans. Qed.

Lemma responsible_bind {B} p (f : A -> prog B) d :
  Inv d -> responsible p d -> (forall a d', db_le d d' -> Inv d' -> responsible (f a) d') -> responsible (p ≫= f) d.
Proof.
  change (p ≫= f) with (prog_bind p f). revert d. induction p as [a|err|o k IH]; intros d HI Hp Hf; [by apply Hf|done|].
  intros d1 Hle HI1. destruct (Hp d1 Hle HI1) as [Hn Hk]. split; [done|]. intros r d2 Hr HI2 Hle2.
  destruct (Hk r d2 Hr HI2 Hle2) as [Ho Hres]. split; [by apply owes_left|]. apply IH; [done|done|].
  intros a d' Hle'. apply Hf. etrans; [exact Hle|]. by etrans.
Qed.

Lemma quiet_responsible p d : all_ops (fun o => leaves_nothing o = true) p -> responsible p d.
Proof.
  revert d. induction p as [a|err|o k IH]; intros d H; [done|done|]. destruct H as [Ho Hk]. intros d1 _ _.
  split; [by destruct o|]. intros r d2 _ _ _. split; [by apply owes_nothing|]. by apply IH.
Qed.
End responsible_rules.

#[global] Arguments responsible : simpl never.

Lemma responsible_step {A} (o : op) (f : resp o -> prog A) d :
  (forall d1, db_le d d1 -> Inv d1 -> names_execution o d1 /\
     forall a d2, op_works o d1 (Ok a) d2 -> Inv d2 -> db_le d1 d2 -> owes_after o (Ok a) d2 (f a) /\ responsible (f a) d2) ->
  responsible (call o ≫= f) d.
Proof.
  intros H d1 Hle HI1. destruct (H d1 Hle HI1) as [Hn Hk]. split; [done|]. intros [a|err] d2 Hr HI2 Hle2.
  - by apply Hk.
  - split; [apply owes_err|done].
Qed.

Lemma reads_quiet {A} (p : prog A) : reads_only p -> all_ops (fun o => leaves_nothing o = true) p.
Proof. apply all_ops_mono. by intros []. Qed.
