(* ===== verification/EngineAct.v ===== *)
(** * Engine v2: every handler does what is left to do

    The programs of [EngineHandlers], one by one: what each will do for an execution that
    is neither over nor failed, and that each is responsible.  The start handler creates the
    trigger's step; the ready handler settles the step it claims; handling the settlement of
    a step gives every step it makes ready a row, ends an execution that owes nothing more,
    and ends one with a failed step. *)

From stdpp Require Import base gmap strings pretty list fin_maps relations.
From Stdlib Require Import ZArith Lia.
From S2P Require Import Prelude.
From S2P Require Import JsCollections.
From S2P Require Import EngineTypes.
From S2P Require Import EngineGraph.
From S2P Require Import EngineScc.
From S2P Require Import EngineLoops.
From S2P Require Import EngineSettlement.
From S2P Require Import EnginePlan.
From S2P Require Import EngineStore.
From S2P Require Import EngineProgram.
From S2P Require Import EngineBatch.
From S2P Require Import EngineHandlers.
From S2P Require Import EngineWorld.
From S2P Require Import EngineInputs.
From S2P Require Import EnginePlanEnds.
From S2P Require Import EngineDuties.

(** ** Calls, one by one *)

Lemma passes_answered (o : op) M d : answers o -> passes M (call o) d (fun _ _ => True).
Proof.
  intros Ho. apply passes_call. intros d1 _ _ r d2 Hr _ _. right. destruct (Ho _ _ _ (works_op_db _ _ _ _ Hr)) as [a ->].
  by exists a.
Qed.

Lemma answers_now : answers Now.
Proof. intros d r d' [[now ->] _]. by exists now. Qed.

Lemma answers_event event : answers (PublishEvent event).
Proof. intros d r d' [-> _]. by exists tt. Qed.

Lemma answers_orchestration m : answers (PublishOrchestration m).
Proof. intros d r d' [-> _]. by exists tt. Qed.

Lemma answers_step m : answers (PublishStep m).
Proof. intros d r d' [-> _]. by exists tt. Qed.

Lemma passes_fields M step node d : passes M (stepEventFields step node) d (fun _ _ => True).
Proof.
  unfold stepEventFields. intros d1 _ _ r d2 [[now ->] _] _ _. right. by intros d3.
Qed.

Lemma exec_row_claimed (d : Db) e k r : Inv d -> row_at d e k r -> claimed e d.
Proof.
  intros HI Hr. pose proof Hr as (Hid & He & _). destruct (tk_fk _ (inv_table _ HI) _ _ Hid) as [x Hx]. rewrite He in Hx.
  exists x. split; [done|]. intros Hq. destruct (inv_exec _ HI _ _ Hx) as [t Hxi]. by eapply (xi_queued _ _ _ _ Hxi).
Qed.

(** An execution that is claimed and not running is over. *)
Lemma claimed_not_running e x d :
  executions d !! e = Some x -> claimed e d -> ex_status x <> ex_running -> over e d.
Proof.
  intros Hx (x' & Hx' & Hq) Hr. assert (x' = x) as -> by congruence. by exists x.
Qed.

Lemma finish_over d e status r d' : claimed e d -> op_works (FinishExecution e status) d r d' -> over e d'.
Proof.
  intros (x & Hx & Hq) (now & _ & ->). unfold finishExecution. rewrite Hx. case_decide as Hr; simpl.
  - eexists. split; [apply lookup_insert_eq|]. by destruct status.
  - by apply (claimed_not_running e x); [|exists x|].
Qed.

Lemma step_settles d id r0 (o : op) r d' :
  steps d !! id = Some r0 -> sr_status r0 <> queued ->
  ((exists outputs, o = CompleteStep id outputs) \/ exists error, o = FailStep id error) ->
  op_db o d r d' -> exists r', steps d' !! id = Some r' /\ isSettledStatus (sr_status r') = true.
Proof.
  intros Hr Hq Ho Hop. assert (Hcase : sr_status r0 = running \/ isSettledStatus (sr_status r0) = true).
  { destruct (sr_status r0); auto; done. }
  destruct Ho as [[outputs ->]|[error ->]]; destruct Hop as [_ ->].
  - unfold completeStep, transition. rewrite Hr. case_decide; simpl; [rewrite lookup_insert_eq; eauto|].
    destruct Hcase; [done|]. eauto.
  - unfold failStep. rewrite Hr. case_decide; simpl; [rewrite lookup_insert_eq; eauto|]. destruct Hcase; [done|]. eauto.
Qed.

Lemma works_created d e records created d' :
  Inv d -> op_works (CreateSteps e records) d created d' -> Created d e records created d'.
Proof.
  intros HI (qf & ids & _ & _ & _ & Heq). pose proof (createSteps_created qf d e records ids (inv_table _ HI)) as H.
  by rewrite <-Heq in H.
Qed.

Lemma created_row d e records created d' c row :
  Created d e records (Ok created) d' -> c ∈ created -> steps d' !! cs_id c = Some row ->
  exists rec, rec ∈ records /\ row = new_row e rec (cs_id c) /\ cs_key c = mkKey (ns_nodeId rec) (ns_iteration rec).
Proof.
  intros H Hc Hrow. destruct (proj2 (cr_created _ _ _ _ _ H _ eq_refl) c Hc) as (_ & rec & Hrec & _ & Hrow' & Hkey).
  exists rec. split_and!; [done|congruence|done].
Qed.

(** ** Starting an execution *)

Lemma responsible_start request d : Inv d -> responsible (start request ;; Ret tt) d.
Proof.
  intros HI. apply responsible_bind; [done| |done]. unfold start.
  apply responsible_bind; [done|apply quiet_responsible, all_ops_lift|]. intros _ d1 _ _.
  apply responsible_step. intros d2 _ _. split; [done|]. intros decision d3 _ _ _. split; [done|].
  destruct (decision : AdmittanceDecision) as [|reason]; [|done].
  apply responsible_step. intros d4 _ _. split; [done|]. intros [] d5 _ _ _. split.
  - intros _. by apply will_now.
  - apply quiet_responsible. all_ops.
Qed.

Lemma start_claims e d : is_Some (executions d !! e) -> will (claimed e) no_call (start_handle e) d.
Proof.
  intros [x Hx]. unfold start_handle. apply will_step. intros d1 Hle HI1 r d2 [_ ->] HI2 Hle2. left.
  destruct (dl_exec _ _ Hle _ _ Hx) as (x1 & Hx1 & _). unfold transitionStatus. rewrite Hx1. case_decide as Hq; simpl.
  - eexists. split; [apply lookup_insert_eq|done].
  - by exists x1.
Qed.

(** The graph of a stored execution, and its trigger. *)
Lemma stored_trigger d e x : Inv d -> executions d !! e = Some x ->
  exists t node, ValidGraph (graph_of x) t /\ findTriggerNode (graph_of x) = Some node /\ gn_id node = t.
Proof.
  intros HI Hx. destruct (inv_exec _ HI _ _ Hx) as [t Hxi]. pose proof (xi_valid _ _ _ _ Hxi) as HG.
  destruct (valid_findTrigger _ _ HG) as (node & Hf & Hn). by exists t, node.
Qed.

(** What [start_handle] does once it claimed the execution. *)
Definition start_claimed (e : string) : prog unit :=
  execution ← call (LoadExecution e);
  now ← call Now;
  call (PublishEvent (ExecutionStarted (er_id execution) (er_workflowId execution) (er_mode execution)
          (hostMode (er_callerContext execution)) now)) ;;
  match findTriggerNode (er_graph execution) with
  | None => Throw (UnexpectedError ("Execution " +:+ e +:+ " has no trigger node in its graph"))
  | Some triggerNode =>
      created ← call (CreateSteps e [{|
        ns_nodeId := gn_id triggerNode;
        ns_iteration := 0;
        ns_status := completed;
        ns_outputs := Some (default DEFAULT_TRIGGER_OUTPUTS (er_triggerOutputs execution));
      |}]);
      match head created with
      | None => Throw (UnexpectedError ("Trigger step for execution " +:+ e +:+ " already existed despite the claim"))
      | Some triggerStep => call (PublishOrchestration (StepSettledEvent e (cs_id triggerStep)))
      end
  end.

Lemma start_handle_unfold e :
  start_handle e = (claimed ← call (TransitionStatus e ex_queued ex_running); if negb claimed then Ret tt else start_claimed e).
Proof. done. Qed.

Lemma start_creates d e x : Inv d -> executions d !! e = Some x -> will (trigger_there e) no_call (start_claimed e) d.
Proof.
  intros HI Hx. destruct (stored_trigger d e x HI Hx) as (t & node & HG & Hfind & Hnode).
  apply will_step. intros d3 Hle3 HI3 r d4 [-> ->] _ _. right.
  destruct (dl_exec _ _ Hle3 _ _ Hx) as (x3 & Hx3 & Hl3). unfold loadExecution. rewrite Hx3. eexists. split; [done|].
  apply (will_bind _ _ _ _ _ (fun _ _ => True)); [done|apply passes_answered, answers_now|]. intros now d5 Hle5 HI5 _.
  apply (will_bind _ _ _ _ _ (fun _ _ => True)); [done|apply passes_answered, answers_event|]. intros _ d6 Hle6 HI6 _.
  cbn [er_graph select_execution]. rewrite (el_record _ _ Hl3). fold (graph_of x). rewrite Hfind.
  apply will_step. intros d7 Hle7 HI7 r8 d8 Hw HI8 Hle8. left.
  assert (Hle : db_le d d7) by (etrans; [exact Hle3|]; etrans; [exact Hle5|]; etrans; [exact Hle6|exact Hle7]).
  destruct (dl_exec _ _ Hle _ _ Hx) as (x7 & Hx7 & Hl7).
  destruct (create_works _ _ _ _ _ HI7 HI8 Hw) as [_ [Hf|Hrows]].
  + by eexists.
  + intros rec ->%list_elem_of_singleton. split_and!; simpl; [lia|set_solver|]. split; [done|by eexists].
  + left. right. by eapply failed_in_le.
  + right. destruct (dl_exec _ _ Hle8 _ _ Hx7) as (x8 & Hx8 & Hl8).
    destruct (Hrows _ ltac:(by left)) as [row Hrow]. simpl in Hrow. exists x8, t, row.
    assert (graph_of x8 = graph_of x) as ->.
    { unfold graph_of. by rewrite (el_record _ _ Hl8), (el_record _ _ Hl7). }
    by rewrite Hnode in Hrow.
Qed.

Lemma responsible_start_claimed e d : responsible (start_claimed e) d.
Proof.
  apply responsible_step. intros d3 _ _. split; [done|]. intros execution d4 _ _ _. split; [done|].
  apply responsible_step. intros d5 _ _. split; [done|]. intros now d6 _ _ _. split; [done|].
  apply responsible_step. intros d7 _ _. split; [done|]. intros u8 d8 _ _ _. split; [done|].
  destruct (findTriggerNode (er_graph execution)) as [n|]; [|done].
  apply responsible_step. intros d9 _ HI9. split; [done|]. intros created d10 Hw HI10 _.
  apply works_created in Hw; [|done]. split.
  + intros created' c row [= <-] Hcin Hrow. destruct (created_row _ _ _ _ _ _ _ Hw Hcin Hrow) as (rec & Hrec & -> & Hkey).
    apply list_elem_of_singleton in Hrec as ->. cbn [sr_status new_row ns_status]. change (isSettledStatus completed) with true.
    destruct created as [|c0 rest]; [set_solver|]. cbn [hd_error head].
    destruct (proj2 (cr_created _ _ _ _ _ Hw _ eq_refl) c0 ltac:(by left)) as (_ & rec0 & Hrec0 & _ & Hrow0 & Hkey0).
    apply list_elem_of_singleton in Hrec0 as ->.
    assert (cs_id c0 = cs_id c) as <- by (by eapply (tk_unique _ (inv_table _ HI10))).
    by apply will_call.
  + destruct (head created); [|done]. apply quiet_responsible. by apply all_ops_call.
Qed.

Lemma responsible_start_handle e d : responsible (start_handle e) d.
Proof.
  rewrite start_handle_unfold. apply responsible_step. intros d1 _ _. split; [done|]. intros b d2 [[= ->] ->] HI2 _.
  set (dc := (transitionStatus d1 e ex_queued ex_running).2) in *.
  destruct ((transitionStatus d1 e ex_queued ex_running).1) eqn:Hc; [|by split]. cbn [negb].
  split; [intros _|apply responsible_start_claimed].
  assert (exists x, executions dc !! e = Some x) as [x Hx]; [|by apply (start_creates _ _ x)].
  revert Hc. unfold dc, transitionStatus. destruct (executions d1 !! e) as [x|]; [|done]. case_decide; [|done].
  intros _. simpl. rewrite lookup_insert_eq. by eexists.
Qed.

(** ** Running a step *)

Lemma will_lift {A B} (r : result A) (a : A) (f : A -> prog B) M G d :
  r = Ok a -> will M G (f a) d -> will M G (lift r ≫= f) d.
Proof. by intros ->. Qed.

Lemma later_graph d d' e x x' :
  db_le d d' -> executions d !! e = Some x -> executions d' !! e = Some x' -> graph_of x' = graph_of x.
Proof.
  intros Hle Hx Hx'. destruct (dl_exec _ _ Hle _ _ Hx) as (x2 & Hx2 & Hl). assert (x2 = x') as -> by congruence.
  unfold graph_of. by rewrite (el_record _ _ Hl).
Qed.

Lemma row_exec d e k r : Inv d -> row_at d e k r -> exists x t, executions d !! e = Some x /\ ExecInv d e x t.
Proof.
  intros HI (Hr & He & _). destruct (tk_fk _ (inv_table _ HI) _ _ Hr) as [x Hx]. rewrite He in Hx.
  destruct (inv_exec _ HI _ _ Hx) as [t Hxi]. by exists x, t.
Qed.

Lemma row_KeyOk d e k r x t : Inv d -> ExecInv d e x t -> row_at d e k r -> KeyOk (graph_of x) t (all_summaries d e) k.
Proof.
  intros HI Hxi Hr. eapply (xi_ledger _ _ _ _ Hxi). apply (all_summaries_lookup d (inv_table _ HI)). by exists r.
Qed.

Lemma reachable_node g t n : ValidGraph g t -> reachable g t n -> n ∈ node_ids g.
Proof.
  intros HG [->|Hr].
  - destruct (ve_trigger _ _ HG) as (node & <- & Hf). apply list_elem_of_fmap. exists node. split; [done|].
    assert (Hin : node ∈ [node]) by set_solver. rewrite <-Hf in Hin. by apply elem_of_arr_filter in Hin as [_ ?].
  - apply tc_last in Hr as (y & _ & e & He & _ & <-). by apply (vg_endpoints _ (ve_loops _ _ HG)).
Qed.

(** A stored step is one of its execution's graph. *)
Lemma context_valid d e k r execution step :
  Inv d -> row_at d e k r -> seen_exec d execution -> er_id execution = e ->
  sr_executionId step = e -> sr_nodeId step = nodeId k ->
  exists node, validateStepContext step execution = Ok node /\ node ∈ nodes (er_graph execution) /\ gn_id node = nodeId k.
Proof.
  intros HI Hr (x & Hx & Hg & _) He Hse Hsn. rewrite He in Hx.
  destruct (row_exec _ _ _ _ HI Hr) as (x' & t & Hx' & Hxi). assert (x' = x) as -> by congruence.
  pose proof (ko_reach _ _ _ _ (row_KeyOk _ _ _ _ _ _ HI Hxi Hr)) as Hreach.
  apply (reachable_node _ _ _ (xi_valid _ _ _ _ Hxi)) in Hreach. rewrite <-Hg in Hreach.
  unfold validateStepContext. rewrite decide_True by congruence.
  destruct (arr_find _ (nodes (er_graph execution))) as [node|] eqn:Hf.
  - apply arr_find_Some in Hf as [Hn Hid%bool_decide_eq_true]. exists node. by rewrite Hid, Hsn.
  - rewrite arr_find_None in Hf. apply list_elem_of_fmap in Hreach as (node & Hid & Hn).
    specialize (Hf node Hn). apply bool_decide_eq_false in Hf. congruence.
Qed.

(** A step that waits to run is not the trigger's. *)
Lemma waiting_node d e k r x node :
  Inv d -> row_at d e k r -> sr_status r = queued \/ sr_status r = running -> executions d !! e = Some x ->
  node ∈ nodes (graph_of x) -> gn_id node = nodeId k -> gn_type node <> trigger.
Proof.
  intros HI Hr Hs Hx Hn Hid Ht. destruct (row_exec _ _ _ _ HI Hr) as (x' & t & Hx' & Hxi).
  assert (x' = x) as -> by congruence. pose proof (xi_valid _ _ _ _ Hxi) as HG.
  destruct (xi_fates _ _ _ _ Hxi _ _ Hr) as [[_ Hc]|(T & _ & Hfate)]; [destruct Hs; congruence|].
  destruct (decideNodeFate_spec _ _ _ _ _ _ Hfate) as (_ & _ & edge & s & Hin & _); [case_decide; auto|].
  apply elem_of_arr_filter in Hin as [Hto Hin]. apply bool_decide_eq_true in Hto.
  apply (no_edge_into_trigger _ _ HG edge Hin). rewrite Hto, <-Hid.
  destruct (ve_trigger _ _ HG) as (tn & <- & Hf).
  assert (node ∈ [tn]) as ->%list_elem_of_singleton; [|done]. rewrite <-Hf. apply elem_of_arr_filter.
  by rewrite bool_decide_eq_true.
Qed.

Section ready.
Context (stack_of : EngineError -> option string).
Local Notation ready_handle := (ready_handle true stack_of).
Local Notation executorFor := (executorFor true).

(** The step has been claimed. *)
Definition begun (e id : string) (k : StepKey) (d : Db) : Prop :=
  exists r, row_at d e k r /\ sr_id r = id /\ sr_status r <> queued.

Lemma step_begun_later e id k d d' : db_le d d' -> begun e id k d -> begun e id k d'.
Proof.
  intros Hle (r & Hr & Hid & Hs). destruct (row_at_le _ _ _ _ _ Hle Hr) as (r' & Hr' & Hl). exists r'.
  pose proof (rl_status _ _ Hl). rewrite (rl_id _ _ Hl). split_and!; [done|done|by destruct (sr_status r), (sr_status r')].
Qed.

Lemma begun_done e id k r d : row_at d e k r -> sr_id r = id -> sr_status r <> queued -> sr_status r <> running ->
  step_done e id d.
Proof. intros (Hr & _) <- Hq Hn. right. exists r. split; [done|]. by destruct (sr_status r). Qed.

Lemma answers_gatherInputs execution step : all_ops answers (gatherInputs execution step).
Proof.
  assert (Hl : forall ids, answers (LoadLatestStepSummaries (er_id execution) ids)) by (intros ids d r d' [-> _]; eauto).
  assert (Hk : forall keys, answers (LoadStepsByKeys (er_id execution) keys)) by (intros keys d r d' [-> _]; eauto).
  unfold gatherInputs, loadTerminalIterations. all_ops; by apply all_ops_call.
Qed.

(** Who claimed a step settles it, unless the execution ends meanwhile. *)
Lemma claim_settles e id k run d (after : bool -> prog unit) :
  Inv d -> begun e id k d ->
  will (step_done e id) no_call
    (recorded ← match (run : result StepSlots) with
                | Ok outputs => call (CompleteStep id outputs)
                | Err error => call (FailStep id (toStepError stack_of error))
                end; after recorded) d.
Proof.
  intros HI Hb. destruct run; apply will_step; intros d1 Hle1 HI1 r d2 Hop _ _; left; right;
    destruct (step_begun_later _ _ _ _ _ Hle1 Hb) as (row & (Hrow & _) & <- & Hs); (eapply step_settles; [done|done| |exact Hop]); eauto.
Qed.

(** What [ready_handle] does with the step it claimed. *)
Definition run_claimed (e id : string) (step : StepRecord) : prog unit :=
  execution ← call (LoadExecution e);
  node ← lift (validateStepContext step execution);
  (if decide (gn_type node = batch) then Ret tt else lift (executorFor step node)) ;;
  if negb (bool_decide (er_status execution = ex_running)) then Ret tt
  else
    fields ← stepEventFields step node;
    call (PublishEvent (StepStarted fields)) ;;
    inputs ← gatherInputs execution step;
    run ← attempt (if decide (gn_type node = batch) then runBatchNode step execution node
                   else runStep step execution node inputs);
    recorded ← match run with
               | Ok outputs => call (CompleteStep id outputs)
               | Err error => call (FailStep id (toStepError stack_of error))
               end;
    if negb recorded then Ret tt
    else
      fields ← stepEventFields step node;
      call (PublishEvent (match run with
                          | Ok outputs => StepCompleted fields outputs
                          | Err _ => StepFailed fields
                          end)) ;;
      call (PublishOrchestration (StepSettledEvent e id)).

Lemma ready_handle_unfold e id : ready_handle e id =
  (claimed ← call (ClaimStep id);
   match (claimed : option StepRecord) with None => Ret tt | Some step => run_claimed e id step end).
Proof. done. Qed.

Lemma runs_to_end e id k step d x :
  Inv d -> begun e id k d -> executions d !! e = Some x -> runnable (graph_of x) ->
  sr_executionId step = e -> sr_key step = k -> will (step_done e id) no_call (run_claimed e id step) d.
Proof.
  intros HI Hb Hx Hrun He Hk. unfold run_claimed. apply will_step. intros d1 Hle1 HI1 res d2 [-> ->] _ _.
  destruct (step_begun_later _ _ _ _ _ Hle1 Hb) as (r1 & Hr1 & Hid1 & Hs1).
  destruct (decide (sr_status r1 = running)) as [Hrun1|Hnr].
  2: { left. by eapply begun_done. }
  destruct (dl_exec _ _ Hle1 _ _ Hx) as (x1 & Hx1 & _). pose proof (later_graph _ _ _ _ _ Hle1 Hx Hx1) as Hg.
  right. unfold loadExecution. rewrite Hx1. eexists. split; [done|].
  set (execution := select_execution e x1).
  assert (Hseen : seen_exec d1 execution) by (apply (loadExecution_seen d1 e); unfold loadExecution; by rewrite Hx1).
  destruct (context_valid d1 e k r1 execution step) as (node & Hv & Hn & Hnid); [done..|by subst k|].
  apply (will_lift _ node); [done|].
  assert (Hty : gn_type node = v1_node \/ gn_type node = batch).
  { rewrite <-Hg in Hrun. destruct (Hrun node Hn) as [Ht|?]; [|done].
    exfalso. by apply (waiting_node d1 e k r1 x1 node); auto. }
  assert ((if decide (gn_type node = batch) then Ret tt else lift (executorFor step node)) = Ret tt) as ->.
  { case_decide; [done|]. unfold executorFor. by rewrite decide_True by tauto. }
  match goal with |- will _ _ (Ret tt ;; ?p) _ => change (will (step_done e id) no_call p d1) end.
  destruct (bool_decide (er_status execution = ex_running)) eqn:Hst; cbn [negb].
  2: { apply bool_decide_eq_false in Hst. apply (will_moot _ (step_done_stable e id)); [done|]. left. left.
       eapply (claimed_not_running e x1); [done| |done]. by eapply exec_row_claimed. }
  apply (will_bind _ _ _ _ _ (fun _ _ => True)); [done|apply passes_fields|]. intros fields d3 Hle3 HI3 _.
  apply (will_bind _ _ _ _ _ (fun _ _ => True)); [done|apply passes_answered, answers_event|]. intros [] d4 Hle4 HI4 _.
  assert (Hle14 : db_le d1 d4) by by etrans.
  destruct (step_begun_later e id k d1 d4 Hle14) as (r4 & Hr4 & Hid4 & Hs4); [by exists r1|].
  destruct (decide (sr_status r4 = running)) as [Hrun4|Hnr4].
  2: { apply (will_moot _ (step_done_stable e id)); [done|]. by eapply begun_done. }
  apply (will_bind _ _ _ _ _ (fun _ _ => True)); [done| |].
  { eapply passes_conseq; [done| |done].
    apply succeeds_passes; [done|apply answers_gatherInputs|].
    eapply gatherInputs_gathered; [done|by eapply seen_exec_later|by rewrite Hk|done]. }
  intros inputs d5 Hle5 HI5 _.
  apply (will_bind _ _ _ _ _ (fun _ _ => True)); [done|apply passes_attempt|]. intros run d6 Hle6 HI6 _.
  apply (claim_settles e id k); [done|]. eapply step_begun_later; [|exact Hb].
  later.
Qed.

Definition named (e id : string) (d : Db) : Prop := exists r, steps d !! id = Some r /\ sr_executionId r = e.

Lemma named_later e id d d' : db_le d d' -> named e id d -> named e id d'.
Proof.
  intros Hle (r & Hr & He). destruct (dl_steps _ _ Hle _ _ Hr) as (r' & Hr' & Hl). exists r'.
  by rewrite (rl_exec _ _ Hl).
Qed.

Lemma ready_takes e id d : named e id d -> will (step_taken e id) no_call (ready_handle e id) d.
Proof.
  intros Hn. rewrite ready_handle_unfold. apply will_step. intros d1 Hle HI1 r d2 [_ ->] _ _. left.
  destruct (named_later _ _ _ _ Hle Hn) as (row & Hrow & He). pose proof (claimStep_claims d1 id (inv_table _ HI1)) as Hc.
  destruct (claimStep d1 id).1 as [step|].
  - destruct Hc as (row' & _ & _ & _ & Hs & ->). right. eexists. split; [apply lookup_insert_eq|]. by rewrite Hs.
  - destruct Hc as [-> Hc]. destruct (decide (sr_status row = queued)) as [Hq|Hq].
    + left. right. rewrite <-He. by apply Hc.
    + right. by exists row.
Qed.

Lemma announces_settled e id step node d (event : StepEventFields -> LifecycleEvent) :
  Inv d -> announces (StepSettledEvent e id)
    (fields ← stepEventFields step node;
     call (PublishEvent (event fields)) ;;
     call (PublishOrchestration (StepSettledEvent e id))) d.
Proof.
  intros HI. apply (will_bind _ _ _ _ _ (fun _ _ => True)); [done|apply passes_fields|]. intros fields d1 _ HI1 _.
  apply (will_bind _ _ _ _ _ (fun _ _ => True)); [done|apply passes_answered, answers_event|]. intros [] d2 _ HI2 _.
  by apply will_call.
Qed.

Lemma responsible_recorded e id step node d (event : StepEventFields -> LifecycleEvent)
    (p := fun recorded : bool =>
      if negb recorded then Ret tt
      else fields ← stepEventFields step node;
           call (PublishEvent (event fields)) ;;
           call (PublishOrchestration (StepSettledEvent e id))) :
  named e id d ->
  (forall outputs, responsible (recorded ← call (CompleteStep id outputs); p recorded) d) /\
  forall error, responsible (recorded ← call (FailStep id error); p recorded) d.
Proof.
  intros Hn.
  assert (Hq : forall b d', responsible (p b) d').
  { intros b d'. apply quiet_responsible. unfold p, stepEventFields. all_ops. }
  assert (Ho : forall d1 d2 row, db_le d d1 -> db_le d1 d2 -> Inv d2 -> steps d2 !! id = Some row ->
    announces (StepSettledEvent (sr_executionId row) id) (p true) d2).
  { intros d1 d2 row Hle1 Hle2 HI Hrow. destruct (named_later e id d d2 ltac:(later) Hn) as (r & Hr & He).
    assert (r = row) as -> by congruence. rewrite He. by apply announces_settled. }
  split; intros; apply responsible_step; intros d1 Hle1 _; (split; [done|]); intros b d2 _ HI2 Hle2; (split; [|apply Hq]);
    intros [= ->] row Hrow; by eapply Ho.
Qed.

Lemma responsible_run e id step d : Inv d -> named e id d -> responsible (run_claimed e id step) d.
Proof.
  intros HI Hn. unfold run_claimed.
  apply responsible_bind; [done|apply quiet_responsible; by apply all_ops_call|]. intros execution d1 Hle1 HI1.
  apply responsible_bind; [done|apply quiet_responsible, all_ops_lift|]. intros node d2 Hle2 HI2.
  apply responsible_bind; [done|apply quiet_responsible; all_ops|]. intros [] d3 Hle3 HI3.
  destruct (negb _); [done|].
  apply responsible_bind; [done|apply quiet_responsible, reads_quiet, reads_stepEventFields|]. intros fields d4 Hle4 HI4.
  apply responsible_bind; [done|apply quiet_responsible; by apply all_ops_call|]. intros [] d5 Hle5 HI5.
  apply responsible_bind; [done|apply quiet_responsible, reads_quiet, reads_gatherInputs|]. intros inputs d6 Hle6 HI6.
  apply responsible_bind; [done| |].
  { apply quiet_responsible, all_ops_attempt. case_decide; [apply reads_quiet, reads_runBatchNode|by apply all_ops_call]. }
  intros run d7 Hle7 HI7. assert (Hn7 : named e id d7).
  { eapply named_later; [|exact Hn]. later. }
  destruct run as [outputs|error].
  - apply (proj1 (responsible_recorded e id step node d7 (fun f => StepCompleted f outputs) Hn7)).
  - apply (proj2 (responsible_recorded e id step node d7 StepFailed Hn7)).
Qed.

Lemma responsible_ready_handle e id d : Inv d -> named e id d -> responsible (ready_handle e id) d.
Proof.
  intros HI Hn. rewrite ready_handle_unfold. apply responsible_step. intros d1 Hle1 HI1. split; [done|].
  intros claimed d2 [[= Hc] ->] HI2 Hle2. destruct (named_later _ _ _ _ Hle1 Hn) as (r0 & Hr0 & He0). split.
  - intros row Hcr Hrun. injection Hcr as ->. pose proof (claimStep_claims d1 id (inv_table _ HI1)) as Hcl. rewrite <-Hc in Hcl.
    destruct Hcl as (row0 & Hrow0 & _ & _ & -> & Heq). assert (r0 = row0) as -> by congruence. rewrite Heq in *. simpl in *.
    rewrite He0 in *. assert (Hid : sr_id row0 = id) by (by apply (tk_id _ (inv_table _ HI1))).
    destruct (tk_fk _ (inv_table _ HI1) _ _ Hr0) as [x Hx]. rewrite He0 in Hx.
    apply (runs_to_end e id (sr_key row0) _ _ x); [done| |exact Hx|by apply Hrun|done|done].
    exists (with_status row0 running None None). split_and!; [|exact Hid|done]. unfold row_at. simpl. rewrite Hid. by rewrite lookup_insert_eq.
  - destruct (claimed : option StepRecord) as [row|]; [|done]. apply responsible_run; [done|].
    eapply named_later; [|exact Hn]. by etrans.
Qed.
End ready.

(** ** What the settlement of a step leads to *)

Lemma will_mono {A} (M1 M2 : Db -> Prop) G (p : prog A) d :
  (forall d', M1 d' -> M2 d') -> will M1 G p d -> will M2 G p d.
Proof.
  intros HM. revert d. induction p as [a|err|o k IH]; intros d Hw; [by apply HM|by apply HM|].
  destruct Hw as [?|Hw]; [by left|right]. intros d1 Hle1 HI1 r d2 Hr HI2 Hle2.
  destruct (Hw d1 Hle1 HI1 r d2 Hr HI2 Hle2) as [?|H]; [left; by apply HM|right]. by apply IH.
Qed.

(** ** Announcing the rows created *)

Lemma announceCreatedSteps_announces e created queuedKeys c d :
  Inv d -> c ∈ created ->
  if bool_decide (stepKeyId (cs_key c) ∈ queuedKeys)
  then hands_out (StepReadyEvent e (cs_id c)) (announceCreatedSteps e created queuedKeys) d
  else announces (StepSettledEvent e (cs_id c)) (announceCreatedSteps e created queuedKeys) d.
Proof.
  unfold announceCreatedSteps. intros HI Hc. revert HI. generalize 0%Z. revert d.
  induction created as [|c0 created IH]; intros d z HI; [set_solver|]. cbn [prog_fold].
  apply elem_of_cons in Hc as [<-|Hc].
  - case_bool_decide; (apply will_left; [apply never_stable|done|]); by apply will_now.
  - specialize (IH Hc).
    assert (Hp : passes never (if bool_decide (stepKeyId (cs_key c0) ∈ queuedKeys)
      then call (PublishStep (StepReadyEvent e (cs_id c0))) ;; Ret (z + 1)%Z
      else call (PublishOrchestration (StepSettledEvent e (cs_id c0))) ;; Ret z) d (fun _ _ => True)).
    { destruct (bool_decide (stepKeyId (cs_key c0) ∈ queuedKeys)); (apply (passes_bind _ _ _ _ (fun _ _ => True)); [done|apply passes_answered|done]);
        [apply answers_step|apply answers_orchestration]. }
    destruct (bool_decide (stepKeyId (cs_key c) ∈ queuedKeys));
      (apply (will_bind _ _ _ _ _ (fun _ _ => True)); [done|exact Hp|]); intros z' d' _ HI' _; by apply IH.
Qed.

Lemma responsible_announceCreatedSteps e created queuedKeys d :
  Inv d -> (forall c, c ∈ created -> named e (cs_id c) d) -> responsible (announceCreatedSteps e created queuedKeys) d.
Proof.
  unfold announceCreatedSteps. generalize 0%Z. revert d.
  induction created as [|c0 created IH]; intros d z HI Hn; [done|]. cbn [prog_fold].
  apply responsible_bind; [done| |].
  - case_bool_decide; (apply responsible_step; intros d1 Hle1 _; split; [|done]); [|done].
    eapply named_later; [exact Hle1|]. apply Hn. by left.
  - intros z' d1 Hle1 HI1. apply IH; [done|]. intros c Hc. eapply named_later; [exact Hle1|]. apply Hn. by right.
Qed.

(** ** Planning *)

Lemma queued_record_creatable k : (0 <= iteration k)%Z -> creatable (queued_record k) /\ creatable (skipped_record k).
Proof. intros Hk. split; (split_and!; simpl; [done|set_solver|split; [by intros []|done]]). Qed.

Section planner.
Context (execution : ExecutionRecord) (step : StepRecord).
Let e := er_id execution.
Let g := er_graph execution.
Let k0 := sr_key step.

(** The settled row of a stored execution. *)
Record planning (d : Db) : Prop := {
  pl_inv : Inv d;
  pl_row : row_at d e k0 step;
  pl_settled : isSettledStatus (sr_status step) = true;
  pl_seen : seen_exec d execution;
}.

Lemma planning_later d d' : db_le d d' -> Inv d' -> planning d -> planning d'.
Proof. intros Hle HI' []. split; [done|by eapply row_at_settled|done|by eapply seen_exec_later]. Qed.

Lemma planning_graph d : planning d -> exists x t, executions d !! e = Some x /\ graph_of x = g /\ ExecInv d e x t /\ ValidGraph g t /\
  Ledger g t (all_summaries d e).
Proof.
  intros [HI Hr _ (x & Hx & Hg & _)]. destruct (row_exec _ _ _ _ HI Hr) as (x' & t & Hx' & Hxi).
  assert (x' = x) as -> by (unfold e in *; congruence). exists x, t. unfold g. rewrite Hg.
  split_and!; [done|done|done|apply Hxi|apply (xi_ledger _ _ _ _ Hxi)].
Qed.

Lemma planning_summary d : planning d -> all_summaries d e !! stepKeyId k0 = Some (summary_of step).
Proof. intros [HI Hr _ _]. apply (all_summaries_lookup d (inv_table _ HI)). by exists step. Qed.

(** What is decided on the rows of a moment. *)
Lemma decided_KeyOk d t T k :
  planning d -> ValidGraph g t -> Ledger g t (all_summaries d e) ->
  let decisions := decideSuccessors g (deriveLoops g) k0 (all_summaries d e) T in
  k ∈ toQueue decisions \/ k ∈ toSkip decisions ->
  KeyOk g t (all_summaries d e) k /\ all_summaries d e !! stepKeyId k = None.
Proof.
  intros Hp HG HL decisions Hk.
  destruct (decideSuccessors_inv g (deriveLoops g) k0 (all_summaries d e) T) as (dd & HD).
  assert (Hc : candidate (deriveLoops g) k0 (all_summaries d e) (outgoing g (nodeId k0)) k).
  { destruct Hk as [Hk|Hk]; [by apply (dv_queue _ _ _ _ _ _ _ HD) in Hk as [? _]|by apply (dv_skip _ _ _ _ _ _ _ HD) in Hk as [? _]]. }
  pose proof Hc as (_ & _ & _ & _ & Hn). split; [|done].
  destruct (candidate_decides g (all_summaries d e) k0 k (summary_of step)) as [edge Hd]; [|apply Hp|done|].
  { by apply planning_summary. }
  by eapply decides_KeyOk.
Qed.

(** The decisions of a plan made on the rows of [d], and the records it inserts. *)
Definition plan_at (d : Db) (T : Terminals) : SuccessorDecisions :=
  decideSuccessors g (deriveLoops g) k0 (all_summaries d e) T.

Definition plan_records (decisions : SuccessorDecisions) : list NewStepRecord :=
  (map queued_record (toQueue decisions) ++ map skipped_record (toSkip decisions))%list.

Definition plan_inserts (decisions : SuccessorDecisions) : prog Z :=
  created ← call (CreateSteps e (plan_records decisions));
  announceCreatedSteps e created (set_of_list (map stepKeyId (toQueue decisions))).

Lemma elem_of_plan_records decisions rec :
  rec ∈ plan_records decisions <->
  exists k, (rec = queued_record k /\ k ∈ toQueue decisions) \/ (rec = skipped_record k /\ k ∈ toSkip decisions).
Proof.
  unfold plan_records. rewrite elem_of_app, !list_elem_of_fmap. split.
  - intros [(k & -> & Hk)|(k & -> & Hk)]; exists k; auto.
  - intros (k & [[-> Hk]|[-> Hk]]); eauto.
Qed.

Lemma plan_creatable d T rec : planning d -> rec ∈ plan_records (plan_at d T) -> creatable rec.
Proof.
  intros Hp Hrec. destruct (planning_graph d Hp) as (x & t & _ & _ & _ & HG & HL).
  apply elem_of_plan_records in Hrec as (k & Hk).
  assert (Hko : KeyOk g t (all_summaries d e) k).
  { apply (decided_KeyOk d t T); [done..|]. destruct Hk as [[_ ?]|[_ ?]]; auto. }
  destruct (queued_record_creatable k (ko_iteration _ _ _ _ Hko)). by destruct Hk as [[-> _]|[-> _]].
Qed.

(** No step is both queued and skipped. *)
Lemma plan_disjoint d T k : k ∈ toQueue (plan_at d T) -> k ∈ toSkip (plan_at d T) -> False.
Proof.
  destruct (decideSuccessors_inv g (deriveLoops g) k0 (all_summaries d e) T) as (dd & HD).
  intros [_ Hq]%(dv_queue _ _ _ _ _ _ _ HD) [_ Hs]%(dv_skip _ _ _ _ _ _ _ HD). congruence.
Qed.

Lemma responsible_plan_inserts d T d1 : Inv d1 -> responsible (plan_inserts (plan_at d T)) d1.
Proof.
  intros HI1. apply responsible_step. intros d2 _ HI2. split; [done|]. intros created d3 Hw HI3 _.
  pose proof (works_created _ _ _ _ _ HI2 Hw) as Hcr. split.
  - intros created' c row [= <-] Hc Hrow. destruct (created_row _ _ _ _ _ _ _ Hcr Hc Hrow) as (rec & Hrec & -> & Hkey).
    pose proof (announceCreatedSteps_announces e created (set_of_list (map stepKeyId (toQueue (plan_at d T)))) c d3 HI3 Hc) as Ha.
    assert (Hq : stepKeyId (cs_key c) ∈ set_of_list (map stepKeyId (toQueue (plan_at d T))) <-> cs_key c ∈ toQueue (plan_at d T)).
    { rewrite elem_of_set_of_list, list_elem_of_fmap. split; [by intros (k & ->%stepKeyId_injective & ?)|eauto]. }
    apply elem_of_plan_records in Hrec as (k & [[-> Hk]|[-> Hk]]); simpl in Hkey; replace (mkKey (nodeId k) (iteration k)) with k in Hkey by (by destruct k);
      rewrite Hkey in *; simpl.
    + change (isSettledStatus queued) with false. by rewrite bool_decide_true in Ha by by apply Hq.
    + change (isSettledStatus skipped) with true. rewrite bool_decide_false in Ha; [done|].
      intros Hin%Hq. by eapply plan_disjoint.
  - apply responsible_announceCreatedSteps; [done|]. intros c Hc.
    destruct (proj2 (cr_created _ _ _ _ _ Hcr _ eq_refl) c Hc) as (_ & rec & _ & _ & Hrow & _). eexists. split; [exact Hrow|done].
Qed.

Lemma responsible_planSuccessors d : Inv d -> responsible (planSuccessors execution step) d.
Proof.
  intros HI. unfold planSuccessors. cbv zeta. fold g e k0.
  apply responsible_bind; [done|apply quiet_responsible, reads_quiet, reads_loadTerminalIterations|]. intros T d1 _ HI1.
  apply responsible_step. intros d2 _ _. split; [done|]. intros S d3 [[= ->] ->] HI3 _. split; [done|].
  rewrite (loadStepSummariesByKeys_restrict d2 (inv_table _ HI3)), decideSuccessors_restrict.
  fold (plan_at d2 T). pose proof (responsible_plan_inserts d2 T d2 HI3) as Hgo. unfold plan_inserts, plan_records in Hgo.
  by destruct (toQueue (plan_at d2 T)), (toSkip (plan_at d2 T)).
Qed.

(** The terminal passes a plan reads. *)
Lemma passes_plan_terminals M d :
  planning d ->
  passes M (loadTerminalIterations e (exitSourcesInto g (deriveLoops g) (getSuccessorNodeIds g (sr_nodeId step)))) d
    (fun T d' => terminals_ok (all_summaries d' e) T /\
       forall edge i b, edge ∈ edges g -> edge_rel (edges g) (sr_nodeId step) (to edge) -> classifyEdge edge (deriveLoops g) = exit ->
         all_summaries d e !! stepKeyId (mkKey (from edge) i) = Some b -> isTerminalStep b = true -> T !! from edge = Some i).
Proof.
  intros Hp. destruct (planning_graph d Hp) as (x & t & Hx & Hg & _ & HG & _). pose proof (pl_inv _ Hp) as HI.
  set (ids := exitSourcesInto _ _ _).
  eapply passes_conseq; [done| |].
  { apply succeeds_passes; [done| |].
    - unfold loadTerminalIterations. destruct ids; [done|]. apply all_ops_bind; [|done].
      apply all_ops_call. intros d0 r d' [-> _]. eauto.
    - apply (succeeds_loadTerminalIterations g t HG e x); [done|done|done|].
      intros n (edge & Hedge & _ & Hcl & <-)%elem_of_exitSourcesInto.
      pose proof (classifyEdge_shape g t HG edge Hedge) as Hs. rewrite Hcl in Hs. inversion Hs as [| |l Hl Hf _ _| |]. eauto. }
  intros T d1 _ _ [HT Hall]. split; [done|]. intros edge i b He Hsucc Hc Hb Hterm. apply (Hall _ _ b); [|done|done].
  apply elem_of_exitSourcesInto. exists edge. split_and!; [done|by apply elem_of_getSuccessorNodeIds|done|done].
Qed.

(** Planning gives a step that is ready its row. *)
Lemma plan_creates d k :
  planning d -> ready g (all_summaries d e) k -> (exists edge, decides g (all_summaries d e) edge k0 k (summary_of step)) ->
  will (step_there e k) no_call (planSuccessors execution step) d.
Proof.
  intros Hp Hready [edge0 H0]. destruct (planning_graph d Hp) as (x & t & Hx & Hg & Hxi & HG & HL).
  pose proof (pl_inv _ Hp) as HI. unfold planSuccessors. cbv zeta. fold g e k0.
  eapply will_bind; [done|by apply passes_plan_terminals|]. intros T d1 Hle1 HI1 [HT Hall].
  assert (Hfate : decideNodeFate g (deriveLoops g) k (all_summaries d e) T = fate_queued \/
    decideNodeFate g (deriveLoops g) k (all_summaries d e) T = fate_skipped).
  { apply (ready_decided g t HG); [done|done|]. intros edge i b He Hto Hc Hb Hterm. apply (Hall edge i b); try done.
    exists edge0. destruct H0 as [He0 _ _ Hf0 Ht0 _]. split_and!; [done|done|].
    by rewrite Hto, <-Ht0, targetKey_node. }
  pose proof (decides_KeyOk g t HG _ _ _ _ _ HL H0) as Hk.
  apply will_step. intros d2 Hle2 HI2 r d3 [-> ->] _ _.
  assert (Hle : db_le d d2) by later. pose proof (planning_later d d2 Hle HI2 Hp) as Hp2.
  pose proof (all_summaries_later d d2 (inv_table _ HI) (inv_table _ HI2) Hle e) as Hlater.
  assert (Hfate2 : decideNodeFate g (deriveLoops g) k (all_summaries d2 e) T = decideNodeFate g (deriveLoops g) k (all_summaries d e) T).
  { apply decideNodeFate_final; [done|done|by eapply KeyOk_end_known|]. by destruct Hfate as [-> | ->]. }
  destruct (all_summaries d2 e !! stepKeyId k) as [s|] eqn:Hs.
  { left. right. apply (all_summaries_lookup d2 (inv_table _ HI2)) in Hs as (row & Hrow & _). by exists row. }
  right. eexists. split; [done|]. rewrite (loadStepSummariesByKeys_restrict d2 (inv_table _ HI2)), decideSuccessors_restrict.
  fold (plan_at d2 T).
  assert (Hin : k ∈ toQueue (plan_at d2 T) \/ k ∈ toSkip (plan_at d2 T)).
  { destruct (decideSuccessors_inv g (deriveLoops g) k0 (all_summaries d2 e) T) as (dd & HD).
    assert (Hcand : candidate (deriveLoops g) k0 (all_summaries d2 e) (outgoing g (nodeId k0)) k).
    { eapply decides_candidate; [by eapply decides_later|done]. }
    rewrite <-Hfate2 in Hfate. destruct Hfate as [Hf|Hf]; [left; by apply (dv_queue _ _ _ _ _ _ _ HD)|right; by apply (dv_skip _ _ _ _ _ _ _ HD)]. }
  assert (Hgo : will (step_there e k) no_call (plan_inserts (plan_at d2 T)) d2).
  { apply will_step. intros d4 Hle4 HI4 r d5 Hw HI5 Hle5. left.
    destruct (create_works _ _ _ _ _ HI4 HI5 Hw) as [_ [Hf|Hrows]].
    - pose proof (planning_later d2 d4 Hle4 HI4 Hp2) as Hp4. destruct (planning_graph d4 Hp4) as (x4 & _ & Hx4 & _). by exists x4.
    - intros rec. by apply plan_creatable.
    - left. right. by eapply failed_in_le.
    - right. destruct Hin as [Hin|Hin].
      + destruct (Hrows (queued_record k)) as [row Hrow]; [apply elem_of_plan_records; eauto|]. exists row. by destruct k.
      + destruct (Hrows (skipped_record k)) as [row Hrow]; [apply elem_of_plan_records; eauto|]. exists row. by destruct k. }
  unfold plan_inserts, plan_records in Hgo.
  destruct (toQueue (plan_at d2 T)), (toSkip (plan_at d2 T)); try done. destruct Hin; set_solver.
Qed.

(** Planning leaves an execution that owes nothing more alone. *)
Lemma plan_finished d T x t :
  planning d -> executions d !! e = Some x -> ValidGraph (graph_of x) t -> Finished d e (graph_of x) t ->
  toQueue (plan_at d T) = [] /\ toSkip (plan_at d T) = [].
Proof.
  intros Hp Hx HG (T' & Hend & Hall). pose proof (pl_inv _ Hp) as HI.
  destruct (planning_graph d Hp) as (x' & t' & Hx' & Hg & Hxi & HG' & HL). assert (x' = x) as -> by congruence.
  rewrite Hg in *. assert (t' = t) as -> by (by eapply valid_trigger_unique).
  assert (Hno : forall k, k ∈ toQueue (plan_at d T) \/ k ∈ toSkip (plan_at d T) -> False).
  { intros k Hk. destruct (decided_KeyOk d t T k Hp HG HL Hk) as [Hko Hnone].
    destruct (Hall k) as (r & Hr & _).
    { apply (key_owed g t HG (all_summaries d e)); [done|done|apply elem_of_reach_list|done]. }
    assert (all_summaries d e !! stepKeyId k = Some (summary_of r)); [|congruence].
    apply (all_summaries_lookup d (inv_table _ HI)). eauto. }
  split; [destruct (toQueue (plan_at d T)) as [|k ks]|destruct (toSkip (plan_at d T)) as [|k ks]]; [done| |done|];
    exfalso; apply (Hno k); set_solver.
Qed.

Lemma passes_plan_finished M d x t :
  planning d -> executions d !! e = Some x -> ValidGraph (graph_of x) t -> Finished d e (graph_of x) t ->
  passes M (planSuccessors execution step) d (fun queued _ => queued = 0%Z).
Proof.
  intros Hp Hx HG Hfin. pose proof (pl_inv _ Hp) as HI. unfold planSuccessors. cbv zeta. fold g e k0.
  eapply passes_bind; [done|by apply passes_plan_terminals|]. intros T d1 Hle1 HI1 _.
  apply (passes_bind _ _ _ _ (fun S d' => exists d2, db_le d d2 /\ Inv d2 /\ S = loadStepSummariesByKeys d2 e (decisionKeys g (deriveLoops g) k0 T)));
    [done| |].
  { apply passes_call. intros d2 Hle2 HI2 r d3 [-> ->] _ _. right. eexists. split; [done|]. intros d4 _ _. exists d2.
    split_and!; [later|done|done]. }
  intros S d3 _ HI3 (d2 & Hle & HI2 & ->).
  rewrite (loadStepSummariesByKeys_restrict d2 (inv_table _ HI2)), decideSuccessors_restrict. fold (plan_at d2 T).
  pose proof (planning_later d d2 Hle HI2 Hp) as Hp2. destruct (dl_exec _ _ Hle _ _ Hx) as (x2 & Hx2 & _).
  pose proof (later_graph _ _ _ _ _ Hle Hx Hx2) as Hg.
  destruct (plan_finished d2 T x2 t) as [-> ->]; [done|done|by rewrite Hg| |done].
  rewrite Hg. eapply Finished_later; [apply (inv_table _ HI)|apply (inv_table _ HI2)|done|done].
Qed.
End planner.

(** ** Ending an execution *)

Lemma claimed_later e d d' : Inv d -> Inv d' -> db_le d d' -> claimed e d -> claimed e d'.
Proof. apply claimed_stable. Qed.

Lemma will_fail execution step node d :
  claimed (er_id execution) d -> Inv d -> will (over (er_id execution)) no_call (failExecution execution step node) d.
Proof.
  intros Hc HI. apply will_step. intros d1 Hle1 HI1 r d2 Hw HI2 _. left. eapply finish_over; [|exact Hw].
  by apply (claimed_later _ d).
Qed.

(** Everything owed is settled: the count says so. *)
Lemma finished_counted d e x t T :
  Inv d -> executions d !! e = Some x -> ValidGraph (graph_of x) t -> Finished d e (graph_of x) t ->
  terminals_ok (all_summaries d e) T ->
  (forall l i b, l ∈ deriveLoops (graph_of x) -> reachable (graph_of x) t (batchNodeId l) ->
     all_summaries d e !! stepKeyId (mkKey (batchNodeId l) i) = Some b -> isTerminalStep b = true -> T !! batchNodeId l = Some i) ->
  exists n, countExpectedSettledSteps (deriveLoops (graph_of x)) (reach_list (graph_of x) t) T = Some n /\
    (n <= countSettledSteps d e)%Z.
Proof.
  intros HI Hx HG (T' & Hend & Hall) HT Hcomplete. pose proof (inv_table _ HI) as Htab.
  pose proof (inv_exec_at _ _ _ _ HI Hx HG) as Hxi.
  assert (Hend' : ended (graph_of x) t (all_summaries d e) T).
  { intros l Hl Hr. destruct (Hend l Hl Hr) as (i & b & _ & Hb & Hterm). exists i, b. split_and!; [by eapply Hcomplete|done|done]. }
  assert (Hpos : forall m i, T !! m = Some i -> (0 <= i)%Z).
  { intros m i Hi. destruct (HT m i Hi) as (b & Hb & _). apply (ko_iteration _ _ _ _ (xi_ledger _ _ _ _ Hxi _ _ Hb)). }
  pose proof (countExpectedSettledSteps_counts (deriveLoops (graph_of x)) (reach_list (graph_of x) t) T
    (ValidLoops_LoopsOk _ (ve_loops _ _ HG)) Hpos (set_of_list_NoDup _)) as Hcount.
  destruct (countExpectedSettledSteps _ _ _) as [n|].
  - exists n. split; [done|]. destruct Hcount as (owed & Hnd & Howed & ->).
    destruct (settled_keys_spec d e Htab) as (Hnd' & Hin & ->). apply inj_le, submseteq_length, NoDup_submseteq; [done|].
    intros k Hk%Howed. apply Hin.
    assert (Hrow : exists T0, owes (deriveLoops (graph_of x)) (reach_list (graph_of x) t) T0 k /\ T0 = T').
    { exists T'. split; [|done]. destruct Hk as [Hk|(l & i & Hl & Hr & Hi & Hk)]; [by left|right].
      exists l, i. split_and!; [done|done| |by apply Hk..]. apply elem_of_reach_list in Hr.
      destruct (Hend l Hl Hr) as (j & b & Hj & Hb & Hterm). rewrite Hj. f_equal.
      pose proof (Hcomplete l j b Hl Hr Hb Hterm). congruence. }
    destruct Hrow as (_ & Hk' & ->). destruct (Hall k Hk') as (r & Hr & Hs). exists r. split; [done|]. by destruct Hs as [-> | ->].
  - exfalso. destruct Hcount as (l & Hl & Hr & Hn). apply elem_of_reach_list in Hr.
    destruct (Hend' l Hl Hr) as (i & b & Hi & _). congruence.
Qed.

(** The ends known at one moment are the ends later: a terminal pass stays the only one. *)
Lemma counted_later d d1 d2 e x t T :
  Inv d -> Inv d1 -> Inv d2 -> db_le d d1 -> db_le d1 d2 ->
  executions d !! e = Some x -> ValidGraph (graph_of x) t -> Finished d e (graph_of x) t ->
  terminals_ok (all_summaries d1 e) T ->
  (forall l i b, l ∈ deriveLoops (graph_of x) -> reachable (graph_of x) t (batchNodeId l) ->
     all_summaries d e !! stepKeyId (mkKey (batchNodeId l) i) = Some b -> isTerminalStep b = true -> T !! batchNodeId l = Some i) ->
  exists n, countExpectedSettledSteps (deriveLoops (graph_of x)) (reach_list (graph_of x) t) T = Some n /\
    (n <= countSettledSteps d2 e)%Z.
Proof.
  intros HI HI1 HI2 Hle1 Hle2 Hx HG Hfin HT Hall. assert (Hle : db_le d d2) by later.
  destruct (dl_exec _ _ Hle _ _ Hx) as (x2 & Hx2 & _). pose proof (later_graph _ _ _ _ _ Hle Hx Hx2) as Hg2.
  pose proof (all_summaries_later d d2 (inv_table _ HI) (inv_table _ HI2) Hle e) as Hlater.
  rewrite <-Hg2. assert (HG2 : ValidGraph (graph_of x2) t) by by rewrite Hg2.
  apply (finished_counted d2 e x2 t T HI2 Hx2 HG2).
  - rewrite Hg2. eapply (Finished_later d d2); [apply (inv_table _ HI)|apply (inv_table _ HI2)|done|done].
  - eapply (terminals_ok_later d1 d2); [apply (inv_table _ HI1)|apply (inv_table _ HI2)|done|done].
  - intros l i b Hl Hr Hb Hterm. destruct Hfin as (T' & Hend & _). rewrite Hg2 in Hl, Hr.
    destruct (Hend l Hl Hr) as (j & b' & _ & Hb' & Hterm'). rewrite (Hall l j b' Hl Hr Hb' Hterm'). f_equal.
    pose proof (xi_ledger _ _ _ _ (inv_exec_at _ _ _ _ HI2 Hx2 HG2)) as HL2.
    assert (Hb2 : all_summaries d2 e !! stepKeyId (mkKey (batchNodeId l) j) = Some b').
    { apply Hlater; [done|]. by apply isTerminalStep_settled. }
    rewrite <-Hg2 in Hl. pose proof (terminal_is_latest _ t _ l i j b b' HL2 Hl Hb Hterm Hb2).
    pose proof (terminal_is_latest _ t _ l j i b' b HL2 Hl Hb2 Hterm' Hb). lia.
Qed.

Lemma will_finish execution step node d x t :
  Inv d -> seen_exec d execution -> claimed (er_id execution) d ->
  executions d !! er_id execution = Some x -> ValidGraph (graph_of x) t -> Finished d (er_id execution) (graph_of x) t ->
  will (over (er_id execution)) no_call (finishExecutionIfDone execution step node) d.
Proof.
  intros HI Hseen Hcl Hx HG Hfin. set (e := er_id execution) in *.
  destruct Hseen as (x' & Hx' & Hg & _). fold e in Hx'. assert (x' = x) as -> by congruence.
  unfold finishExecutionIfDone. cbv zeta. fold e.
  destruct (valid_findTrigger _ _ HG) as (tn & Hfind & Htn).
  apply (will_lift _ (reach_list (graph_of x) t)); [unfold reachableNodeIds; by rewrite Hg, Hfind, Htn|].
  rewrite Hg. set (ids := map batchNodeId _).
  apply (will_bind _ _ _ _ _ (fun T d' => terminals_ok (all_summaries d' e) T /\
    forall n i b, n ∈ ids -> all_summaries d e !! stepKeyId (mkKey n i) = Some b -> isTerminalStep b = true -> T !! n = Some i)); [done| |].
  { apply succeeds_passes; [done| |].
    - unfold loadTerminalIterations. destruct ids; [done|]. apply all_ops_bind; [|done].
      apply all_ops_call. intros d0 r d' [-> _]. eauto.
    - apply (succeeds_loadTerminalIterations (graph_of x) t HG e x); [done|done|done|].
      intros n (l & -> & Hl)%list_elem_of_fmap. apply elem_of_arr_filter in Hl as [_ Hl]. by exists l. }
  intros T d1 Hle1 HI1 [HT Hall].
  assert (Hcount : forall d2, db_le d1 d2 -> Inv d2 -> exists n,
    countExpectedSettledSteps (deriveLoops (graph_of x)) (reach_list (graph_of x) t) T = Some n /\ (n <= countSettledSteps d2 e)%Z).
  { intros d2 Hle2 HI2. apply (counted_later d d1 d2 e x t T); try done. intros l i b Hl Hr. apply Hall.
    apply list_elem_of_fmap. exists l. split; [done|]. apply elem_of_arr_filter.
    rewrite bool_decide_eq_true. split; [by apply elem_of_reach_list|done]. }
  destruct (Hcount d1 ltac:(reflexivity) HI1) as (n & Hn & _). rewrite Hn in *.
  apply will_step. intros d2 Hle2 HI2 r d3 [-> ->] _ _. right. eexists. split; [done|].
  destruct (Hcount d2 Hle2 HI2) as (n' & [= <-] & Hle). rewrite (proj2 (Z.ltb_ge _ _)) by done.
  apply will_step. intros d4 Hle4 HI4 r d5 [-> ->] _ _. right. eexists. split; [done|].
  apply will_step. intros d6 Hle6 HI6 r d7 Hw HI7 _. left. eapply finish_over; [|exact Hw].
  eapply (claimed_later e d); [done|done| |done]. later.
Qed.

(** ** The handler *)

(** What [settled_handle] does with what it loaded. *)
Definition settled_loaded (step : StepRecord) (execution : ExecutionRecord) (node : GraphNode) : prog unit :=
  if decide (sr_status step = failed) then failExecution execution step node
  else if negb (bool_decide (er_status execution = ex_running)) then Ret tt
  else if bool_decide (sr_status step = completed) || bool_decide (sr_status step = skipped) then
    failed ← call (HasFailedSteps (er_id execution));
    if (failed : bool) then failExecution execution step node
    else
      queued ← planSuccessors execution step;
      if (0 <? queued)%Z then Ret tt else finishExecutionIfDone execution step node
  else finishExecutionIfDone execution step node.

Lemma settled_handle_unfold e s :
  settled_handle e s =
  ('(step, execution) ← promise_all (call (LoadStep s)) (call (LoadExecution e));
   node ← lift (validateStepContext step execution);
   settled_loaded step execution node).
Proof. done. Qed.

Section settled.
Context (e s : string) (r : StepRecord).

(** The step [s] of [e] settled as [r]. *)
Record settled_at (d : Db) : Prop := {
  sa_inv : Inv d;
  sa_row : steps d !! s = Some r;
  sa_exec : sr_executionId r = e;
  sa_settled : isSettledStatus (sr_status r) = true;
}.

Lemma settled_at_later d d' : db_le d d' -> Inv d' -> settled_at d -> settled_at d'.
Proof.
  intros Hle HI' [HI Hr He Hs]. split; [done| |done|done]. destruct (dl_steps _ _ Hle _ _ Hr) as (r' & Hr' & Hl).
  by rewrite Hr', (rl_settled _ _ Hl Hs).
Qed.

Lemma settled_at_row d : settled_at d -> row_at d e (sr_key r) r.
Proof. intros [HI Hr He _]. unfold row_at. by rewrite (tk_id _ (inv_table _ HI) _ _ Hr). Qed.

(** What was loaded of the execution. *)
Definition loaded (execution : ExecutionRecord) (d : Db) : Prop :=
  seen_exec d execution /\ er_id execution = e /\ (er_status execution = ex_running \/ over e d).

Lemma passes_load_step M d : settled_at d -> passes M (call (LoadStep s)) d (fun step _ => step = r).
Proof.
  intros Hs. apply passes_call. intros d1 Hle HI r0 d2 [-> ->] _ _. right. exists r.
  unfold loadStep. by rewrite (sa_row _ (settled_at_later _ _ Hle HI Hs)).
Qed.

Lemma passes_load_execution M d : settled_at d -> passes M (call (LoadExecution e)) d loaded.
Proof.
  intros Hs. apply passes_call. intros d1 Hle HI r0 d2 [-> ->] _ _. right.
  pose proof (settled_at_row _ (settled_at_later _ _ Hle HI Hs)) as Hrow. pose proof (exec_row_claimed _ _ _ _ HI Hrow) as Hcl.
  destruct (row_exec _ _ _ _ HI Hrow) as (x & t & Hx & _). exists (select_execution e x).
  assert (Hload : loadExecution d1 e = Ok (select_execution e x)) by (unfold loadExecution; by rewrite Hx).
  split; [done|]. intros d3 Hle3 HI3. destruct (loadExecution_seen _ _ _ Hload) as [Hseen Hid].
  split_and!; [by eapply seen_exec_later|done|]. destruct (decide (ex_status x = ex_running)) as [|Hn]; [by left|right].
  apply (over_stable e d1); [done|done|done|]. by eapply claimed_not_running.
Qed.

Lemma loaded_later execution d d' : Inv d -> Inv d' -> db_le d d' -> loaded execution d -> loaded execution d'.
Proof.
  intros HI HI' Hle (Hs & Hid & Ho). split_and!; [by eapply seen_exec_later|done|]. destruct Ho as [?|Ho]; [by left|right].
  by apply (over_stable e d).
Qed.

Lemma passes_loads M d : settled_at d ->
  passes M (promise_all (call (LoadStep s)) (call (LoadExecution e))) d (fun p d' => p.1 = r /\ loaded p.2 d').
Proof.
  intros Hs. pose proof (sa_inv _ Hs) as HI. unfold promise_all.
  apply (passes_bind _ _ _ _ (fun _ _ => True)); [done| |].
  { apply passes_answered. intros d0 r0 d' [[b ->] _]. by exists b. }
  intros b d1 Hle1 HI1 _. pose proof (settled_at_later _ _ Hle1 HI1 Hs) as Hs1. destruct (b : bool).
  - eapply passes_bind; [done|by apply passes_load_step|]. intros step d2 Hle2 HI2 ->.
    eapply passes_bind; [done|apply passes_load_execution; by apply (settled_at_later d1)|]. intros execution d3 _ HI3 Hl.
    intros d4 Hle4 HI4. split; [done|]. by apply (loaded_later _ d3).
  - eapply passes_bind; [done|by apply passes_load_execution|]. intros execution d2 Hle2 HI2 Hl.
    eapply passes_bind; [done|apply passes_load_step; by apply (settled_at_later d1)|]. intros step d3 Hle3 HI3 ->.
    intros d4 Hle4 HI4. split; [done|]. apply (loaded_later _ d2); [done|done|later|done].
Qed.

Lemma settled_loads M d :
  stable M -> (forall d', over e d' -> M d') -> settled_at d ->
  (forall d1 execution node, db_le d d1 -> settled_at d1 -> seen_exec d1 execution -> er_id execution = e ->
     er_status execution = ex_running -> will M no_call (settled_loaded r execution node) d1) ->
  will M no_call (settled_handle e s) d.
Proof.
  intros HM Hover Hs Hgo. pose proof (sa_inv _ Hs) as HI. rewrite settled_handle_unfold.
  eapply will_bind; [done|by apply passes_loads|]. intros [step execution] d1 Hle1 HI1 [Heq (Hseen & Hid & Hst)].
  simpl in Heq, Hseen, Hid, Hst. subst step. destruct Hst as [Hrun|Ho]; [|apply (will_moot _ HM); auto].
  pose proof (settled_at_later _ _ Hle1 HI1 Hs) as Hs1.
  destruct (context_valid d1 e (sr_key r) r execution r) as (node & Hv & _ & _); [done|by apply settled_at_row|done|done|apply Hs|done|].
  apply (will_lift _ node); [done|]. by apply Hgo.
Qed.

(** A failed step ends its execution. *)
Lemma settled_fails d : settled_at d -> sr_status r = failed -> will (over e) no_call (settled_handle e s) d.
Proof.
  intros Hs Hf. apply settled_loads; [apply over_stable|done|done|].
  intros d1 execution node Hle1 Hs1 Hseen Hid _. unfold settled_loaded. rewrite decide_True by done. rewrite <-Hid.
  apply will_fail; [rewrite Hid; eapply exec_row_claimed; [apply Hs1|by apply settled_at_row]|apply Hs1].
Qed.

(** A completed or skipped step's successors are planned, unless a step has failed. *)
Lemma settled_plans M d :
  stable M -> (forall d', over e d' -> M d') -> settled_at d ->
  sr_status r = completed \/ sr_status r = skipped ->
  (forall d1 execution node, db_le d d1 -> planning execution r d1 -> er_id execution = e -> er_status execution = ex_running ->
     claimed e d1 ->
     will M no_call (queued ← planSuccessors execution r;
                     if (0 <? queued)%Z then Ret tt else finishExecutionIfDone execution r node) d1) ->
  will M no_call (settled_handle e s) d.
Proof.
  intros HM Hover Hs Hst Hgo. apply settled_loads; [done|done|done|].
  intros d1 execution node Hle1 Hs1 Hseen Hid Hrun. unfold settled_loaded.
  rewrite decide_False by (by destruct Hst as [-> | ->]). rewrite Hrun. rewrite bool_decide_true by done. cbn [negb].
  assert (bool_decide (sr_status r = completed) || bool_decide (sr_status r = skipped) = true) as ->.
  { apply orb_true_iff. rewrite !bool_decide_eq_true. tauto. }
  apply will_step. intros d2 Hle2 HI2 r0 d3 [-> ->] _ _. right. eexists. split; [done|].
  pose proof (settled_at_later _ _ Hle2 HI2 Hs1) as Hs2. pose proof (settled_at_row _ Hs2) as Hrow.
  assert (Hcl : claimed e d2) by (by eapply exec_row_claimed).
  destruct (hasFailedSteps d2 (er_id execution)).
  - eapply will_mono; [exact Hover|]. rewrite <-Hid. apply will_fail; [by rewrite Hid|done].
  - apply Hgo; [later| |done|done|done].
    split; [done|by rewrite Hid|by destruct Hst as [-> | ->]|by eapply seen_exec_later].
Qed.

Lemma settled_creates d k g :
  settled_at d -> sr_status r = completed \/ sr_status r = skipped ->
  (forall x, executions d !! e = Some x -> graph_of x = g) ->
  ready g (all_summaries d e) k -> (exists edge, decides g (all_summaries d e) edge (sr_key r) k (summary_of r)) ->
  will (step_there e k) no_call (settled_handle e s) d.
Proof.
  intros Hs Hst Hg Hready [edge Hd]. apply settled_plans; [apply step_there_stable|by left; left|done|done|].
  intros d1 execution node Hle1 Hp Hid _ _. pose proof (pl_inv _ _ _ Hp) as HI1. pose proof (sa_inv _ Hs) as HI.
  apply will_left; [apply step_there_stable|done|].
  pose proof (all_summaries_later d d1 (inv_table _ HI) (inv_table _ HI1) Hle1 e) as Hlater.
  destruct (row_exec _ _ _ _ HI (settled_at_row _ Hs)) as (x & t & Hx & _).
  destruct (dl_exec _ _ Hle1 _ _ Hx) as (x1 & Hx1 & _). pose proof (later_graph _ _ _ _ _ Hle1 Hx Hx1) as Hgx.
  destruct (pl_seen _ _ _ Hp) as (x' & Hx' & Hgr & _). rewrite Hid in Hx'. assert (x' = x1) as -> by congruence.
  rewrite <-Hid. apply plan_creates; [done| |]; rewrite Hid, Hgr, Hgx, (Hg x Hx).
  - by eapply ready_later.
  - exists edge. by eapply decides_later.
Qed.

(** An execution that owes nothing more is ended by whichever settlement is handled next. *)
Lemma settled_finishes d x t :
  settled_at d -> sr_status r = completed \/ sr_status r = skipped ->
  executions d !! e = Some x -> ValidGraph (graph_of x) t -> Finished d e (graph_of x) t ->
  will (over e) no_call (settled_handle e s) d.
Proof.
  intros Hs Hst Hx HG Hfin. apply settled_plans; [apply over_stable|done|done|done|].
  intros d1 execution node Hle1 Hp Hid _ Hcl. pose proof (pl_inv _ _ _ Hp) as HI1. pose proof (sa_inv _ Hs) as HI.
  destruct (dl_exec _ _ Hle1 _ _ Hx) as (x1 & Hx1 & _). pose proof (later_graph _ _ _ _ _ Hle1 Hx Hx1) as Hgx.
  assert (Hfin' : forall d2, db_le d1 d2 -> Inv d2 -> Finished d2 e (graph_of x1) t).
  { intros d2 Hle2 HI2. rewrite Hgx. eapply (Finished_later d d2); [apply (inv_table _ HI)|apply (inv_table _ HI2)|later|done]. }
  assert (HG1 : ValidGraph (graph_of x1) t) by by rewrite Hgx.
  eapply will_bind; [done| |].
  { eapply (passes_plan_finished execution r); [done|by rewrite Hid|exact HG1|]. rewrite Hid. by apply Hfin'. }
  intros queued d2 Hle2 HI2 ->. change (0 <? 0)%Z with false. cbv iota.
  destruct (dl_exec _ _ Hle2 _ _ Hx1) as (x2 & Hx2 & _). pose proof (later_graph _ _ _ _ _ Hle2 Hx1 Hx2) as Hgx2.
  rewrite <-Hid. apply (will_finish execution r node d2 x2 t); rewrite ?Hid, ?Hgx2; try done.
  { by eapply seen_exec_later, Hp. }
  { by apply (claimed_later _ d1). } by apply Hfin'.
Qed.
End settled.

Lemma responsible_settled_handle e s d : Inv d -> responsible (settled_handle e s) d.
Proof.
  intros HI. rewrite settled_handle_unfold.
  apply responsible_bind; [done|apply quiet_responsible; unfold promise_all; all_ops|]. intros [step execution] d1 _ HI1.
  apply responsible_bind; [done|apply quiet_responsible, all_ops_lift|]. intros node d2 _ HI2.
  assert (Hf : forall d', responsible (failExecution execution step node) d').
  { intros d'. apply quiet_responsible. unfold failExecution, announceEnd. all_ops. }
  assert (Hfin : forall d', responsible (finishExecutionIfDone execution step node) d').
  { intros d'. apply quiet_responsible. unfold finishExecutionIfDone. cbv zeta.
    apply all_ops_bind; [apply all_ops_lift|]. intros reach.
    apply all_ops_bind; [apply reads_quiet, reads_loadTerminalIterations|]. intros T. unfold announceEnd. all_ops. }
  unfold settled_loaded. case_decide; [done|]. destruct (negb _); [done|]. destruct (_ || _); [|done].
  apply responsible_bind; [done|apply quiet_responsible; by apply all_ops_call|]. intros failed d3 _ HI3.
  destruct (failed : bool); [done|]. apply responsible_bind; [done|by apply responsible_planSuccessors|].
  intros queued d4 _ _. by destruct (0 <? queued)%Z.
Qed.
