(* ===== verification/EngineLive.v ===== *)
(** * Engine v2: no execution is left behind

    The runtime of [createEngineRuntime] when nothing is lost: every call is answered, no
    worker dies, and every message published is handed to a worker at least once.  In every
    state it can reach, either something is still to be done that can be done now (a message
    to deliver, a handler to go on), or every execution whose nodes the engine can run has
    completed or failed: theorem [never_stuck]. *)

From stdpp Require Import base gmap strings pretty list fin_maps fin_sets relations.
From Stdlib Require Import ZArith Lia.
From S2P Require Import Prelude.
From S2P Require Import JsCollections.
From S2P Require Import EngineTypes.
From S2P Require Import EngineGraph.
From S2P Require Import EngineScc.
From S2P Require Import EngineLoops.
From S2P Require Import EngineSettlement.
From S2P Require Import EnginePlan.
From S2P Require Import EngineStore.
From S2P Require Import EngineProgram.
From S2P Require Import EngineBatch.
From S2P Require Import EngineHandlers.
From S2P Require Import EngineWorld.
From S2P Require Import EngineRun.
From S2P Require Import EngineInputs.
From S2P Require Import EnginePlanEnds.
From S2P Require Import EngineDuties.
From S2P Require Import EngineAct.

(** ** What a call makes new *)

(** What the tables gained by a call, and what its handler, going on as [p], will do about
    it. *)
Inductive Gained {A} (d d' : Db) (p : prog A) : Prop :=
  | gained_nothing : d' = d -> Gained d d' p
  | gained_execution e x :
      executions d !! e = None -> d' = set_executions d (<[e := x]> (executions d)) -> ex_status x = ex_queued ->
      announces (ExecutionEnqueuedEvent e) p d' -> Gained d d' p
  | gained_status e x x' :
      executions d !! e = Some x -> d' = set_executions d (<[e := x']> (executions d)) -> ex_record x' = ex_record x ->
      (ex_status x = ex_queued -> will (trigger_there e) no_call p d') -> Gained d d' p
  | gained_rows :
      executions d' = executions d ->
      (forall id r', steps d' !! id = Some r' ->
         let e := sr_executionId r' in
         match steps d !! id with
         | None => if isSettledStatus (sr_status r') then announces (StepSettledEvent e id) p d'
                   else sr_status r' = queued /\ hands_out (StepReadyEvent e id) p d'
         | Some r => r' = r \/
             sr_status r = queued /\ sr_status r' = running /\ (runnable_in d' e -> will (step_done e id) no_call p d') \/
             isSettledStatus (sr_status r') = true /\ (announces (StepSettledEvent e id) p d' \/ failed_in d e)
         end) -> Gained d d' p.

Lemma gained_row {A} d id r r' (p : prog A) :
  let d' := set_steps d (<[id := r']> (steps d)) in let e := sr_executionId r' in
  steps d !! id = Some r ->
  sr_status r = queued /\ sr_status r' = running /\ (runnable_in d' e -> will (step_done e id) no_call p d') \/
  isSettledStatus (sr_status r') = true /\ (announces (StepSettledEvent e id) p d' \/ failed_in d e) ->
  Gained d d' p.
Proof.
  intros d' e Hr H. apply gained_rows; [done|]. intros id2 r2 Hr2. subst d'. simpl in Hr2.
  apply lookup_insert_Some in Hr2 as [[<- <-]|[_ Hr2]]; [rewrite Hr; by right|]. rewrite Hr2. by left.
Qed.

Lemma works_gained {A} (o : op) d r d' (p : prog A) :
  Inv d -> Inv d' -> op_works o d r d' -> op_ok o d -> owes_after o r d' p -> Gained d d' p.
Proof.
  intros HI HI' Hop Hok Howes.
  destruct o; simpl in Hop, Hok, Howes; try (by apply gained_nothing; destruct Hop); try (by apply gained_nothing).
  - destruct Hop as (qf & Heq). unfold createExecution in Heq.
    destruct (executions d !! ne_id record) eqn:He; injection Heq as -> ->; [by apply gained_nothing|].
    eapply gained_execution; [exact He|done|apply Hok|by apply Howes].
  - destruct Hok as [-> ->], Hop as [-> ->]. revert Howes. unfold transitionStatus.
    destruct (executions d !! id) as [x|] eqn:He; [|by intros; apply gained_nothing]. case_decide; [|by intros; apply gained_nothing].
    simpl. intros Howes. eapply gained_status; [exact He|done|done|]. intros _. by apply Howes.
  - destruct Hop as (now & _ & ->). unfold finishExecution. destruct (executions d !! id) as [x|] eqn:He; [|by apply gained_nothing].
    case_decide as Hrun; [|by apply gained_nothing]. simpl. eapply gained_status; [exact He|done|done|]. congruence.
  - apply works_created in Hop; [|done]. apply gained_rows; [apply Hop|]. intros id row Hrow.
    destruct (cr_rows _ _ _ _ _ Hop _ _ Hrow) as [Hold|(Hn & _ & rec & _ & Hcre & ->)]; [rewrite Hold; by left|]. rewrite Hn.
    destruct r as [created|err]; [|rewrite (cr_err _ _ _ _ _ Hop err eq_refl) in Hrow; congruence].
    pose proof (cr_new_announced _ _ _ _ _ Hop created _ _ eq_refl Hrow Hn) as Hc.
    pose proof (Howes created _ _ eq_refl Hc Hrow) as H. simpl in *.
    destruct (isSettledStatus (ns_status rec)) eqn:Hst; [done|]. split; [|done].
    destruct Hcre as (_ & Hin & _). destruct (ns_status rec); try done; set_solver.
  - destruct Hop as [Hr ->]. revert HI' Hr Howes. unfold claimStep.
    destruct (steps d !! id) as [row|] eqn:Hrow; [|by intros; apply gained_nothing].
    destruct (executions d !! _); [|by intros; apply gained_nothing]. case_decide; [|by intros; apply gained_nothing].
    destruct (has_failed _ _); [by intros; apply gained_nothing|]. simpl. intros HI' -> Howes.
    eapply gained_row; [exact Hrow|]. left. split_and!; [done|done|]. simpl. by apply (Howes _ eq_refl).
  - destruct Hop as [Hr ->]. revert Hr Howes. unfold completeStep, transition.
    destruct (steps d !! id) as [row|] eqn:Hrow; [|by intros; apply gained_nothing]. case_decide; [|by intros; apply gained_nothing].
    simpl. intros -> Howes. eapply gained_row; [exact Hrow|]. right. split; [done|]. left.
    apply (Howes eq_refl). apply lookup_insert_eq.
  - destruct Hop as [Hr ->]. revert Hr Howes. unfold failStep.
    destruct (steps d !! id) as [row|] eqn:Hrow; [|by intros; apply gained_nothing]. case_decide; [|by intros; apply gained_nothing].
    simpl. intros -> Howes. eapply gained_row; [exact Hrow|]. right. split; [done|]. left.
    apply (Howes eq_refl). apply lookup_insert_eq.
  - destruct Hop as [_ ->]. apply gained_rows; [done|]. intros id r'. simpl. rewrite lookup_fmap, fmap_Some.
    intros (r0 & Hr0 & ->). rewrite Hr0. unfold cancel_row. case_decide as Hc; [|by left]. right. right. split; [done|].
    right. simpl. by destruct Hc as [-> _].
Qed.

(** An execution whose steps all completed or were skipped has no failed one. *)
Lemma finished_no_failure d e x t :
  Inv d -> executions d !! e = Some x -> ValidGraph (graph_of x) t -> Finished d e (graph_of x) t -> ~ failed_in d e.
Proof.
  intros HI Hx HG (T & Hend & Hall) (r & Hr & He & Hf). pose proof (inv_exec_at _ _ _ _ HI Hx HG) as Hxi.
  assert (Hrow : row_at d e (sr_key r) r) by done.
  destruct (Hall (sr_key r)) as (r' & Hr' & Hs).
  - apply (key_owed _ t HG (all_summaries d e)); [apply Hxi|done|apply elem_of_reach_list|]. by eapply row_KeyOk.
  - rewrite (row_at_inj d (inv_table _ HI) _ _ _ _ Hr' Hrow) in Hs. rewrite Hf in Hs. by destruct Hs.
Qed.

(** ** The runtime *)

(** The tables, the calls made so far, the publications not delivered yet, and the
    handlers at work. *)
Record Runtime := {
  rt_db : Db;
  rt_trace : list op;
  rt_pending : list op;
  rt_threads : list (prog unit);
}.

Section runtime.
Context (stack_of : EngineError -> option string).

(** The handler a publication starts: each queue has its worker. *)
Definition worker_of (o : op) : option (prog unit) :=
  match o with
  | PublishOrchestration m => Some (orchestration_worker m)
  | PublishStep m => Some (step_worker true stack_of m)
  | _ => None
  end.

Definition publication (o : op) : list op := match worker_of o with Some _ => [o] | None => [] end.

Definition has_ended (p : prog unit) : bool := match p with Ret _ | Throw _ => true | Call _ _ => false end.

(** What the runtime does by itself. *)
Inductive advance : Runtime -> Runtime -> Prop :=
  | adv_deliver d tr o p pend1 pend2 ps :
      worker_of o = Some p ->
      advance (Build_Runtime d tr (pend1 ++ o :: pend2) ps) (Build_Runtime d tr (pend1 ++ pend2) (ps ++ [p]))
  | adv_call d tr pend ps1 ps2 o k r d' :
      op_works o d r d' ->
      advance (Build_Runtime d tr pend (ps1 ++ Call o k :: ps2))
              (Build_Runtime d' (tr ++ [o]) (pend ++ publication o) (ps1 ++ k r :: ps2))
  | adv_end d tr pend ps1 ps2 p :
      has_ended p = true -> advance (Build_Runtime d tr pend (ps1 ++ p :: ps2)) (Build_Runtime d tr pend (ps1 ++ ps2)).

(** A request arrives, or a message is delivered once more. *)
Inductive rstep : Runtime -> Runtime -> Prop :=
  | rs_advance w w' : advance w w' -> rstep w w'
  | rs_request d tr pend ps request :
      rstep (Build_Runtime d tr pend ps) (Build_Runtime d tr pend (ps ++ [start request ;; Ret tt]))
  | rs_again d tr pend ps o p :
      o ∈ tr -> worker_of o = Some p -> rstep (Build_Runtime d tr pend ps) (Build_Runtime d tr pend (ps ++ [p])).

Definition started : Runtime := Build_Runtime empty_db [] [] [].
Definition reachable_runtime (w : Runtime) : Prop := rtc rstep started w.

Definition world (w : Runtime) : World := Build_World (rt_db w) (rt_trace w) (rt_threads w).

(** ** What is being seen to *)

(** The publication is to be delivered, or some handler will make it. *)
Definition due (o : op) (w : Runtime) : Prop :=
  o ∈ rt_pending w \/ exists p, p ∈ rt_threads w /\ will never (eq o) p (rt_db w).

(** It has come about, or some handler will bring it about. *)
Definition doing (M : Db -> Prop) (w : Runtime) : Prop :=
  M (rt_db w) \/ exists p, p ∈ rt_threads w /\ will M no_call p (rt_db w).

Definition charged (o : op) (M : Db -> Prop) (w : Runtime) : Prop := due o w \/ doing M w.

Definition Settled (e s : string) : op := PublishOrchestration (StepSettledEvent e s).

Record Stepped (w w' : Runtime) : Prop := {
  st_inv : Inv (rt_db w);
  st_inv' : Inv (rt_db w');
  st_le : db_le (rt_db w) (rt_db w');
  st_doing : forall M, stable M -> doing M w -> doing M w';
  st_due : forall o p, worker_of o = Some p -> due o w -> due o w' \/ p ∈ rt_threads w';
  st_gained : rt_db w' = rt_db w \/ exists p, p ∈ rt_threads w' /\ Gained (rt_db w) (rt_db w') p;
}.

(** ** One step *)

(** What every handler at work is good for. *)
Record Watched (w : Runtime) : Prop := {
  wa_world : reachable_world true stack_of (world w);
  wa_responsible : forall p, p ∈ rt_threads w -> responsible p (rt_db w);
  wa_pending : forall o, o ∈ rt_pending w -> o ∈ rt_trace w;
  wa_publication : forall o, o ∈ rt_pending w -> is_Some (worker_of o);
  wa_named : forall e id, PublishStep (StepReadyEvent e id) ∈ rt_trace w -> named e id (rt_db w);
}.

Lemma watched_inv w : Watched w -> Inv (rt_db w).
Proof. intros Hw. apply (wi_inv _ (reachable_inv _ _ _ (wa_world _ Hw))). Qed.

Lemma worker_message o p d tr ps :
  o ∈ tr -> worker_of o = Some p -> wstep true stack_of (Build_World d tr ps) (Build_World d tr (ps ++ [p])).
Proof. intros Hin. destruct o; try done; intros [= <-]; by constructor. Qed.

Lemma worker_responsible w o p :
  Watched w -> o ∈ rt_trace w -> worker_of o = Some p -> responsible p (rt_db w).
Proof.
  intros Hw Hin. pose proof (watched_inv w Hw) as HI. destruct o; try done; intros [= <-].
  - destruct message; [apply responsible_start_handle|by apply responsible_settled_handle].
  - destruct message as [e id]. apply responsible_ready_handle; [done|]. by apply (wa_named _ Hw).
Qed.

(** A handler more changes nothing for the others. *)
Lemma doing_more M d tr tr' pend pend' ps p :
  doing M (Build_Runtime d tr pend ps) -> doing M (Build_Runtime d tr' pend' (ps ++ [p])).
Proof. intros [?|(q & Hq & H)]; [by left|right]. exists q. split; [set_solver|done]. Qed.

Lemma due_more o d tr tr' pend pend' ps p :
  (o ∈ pend -> o ∈ pend') -> due o (Build_Runtime d tr pend ps) -> due o (Build_Runtime d tr' pend' (ps ++ [p])).
Proof. intros Hp [H|(q & Hq & H)]; [left; by apply Hp|right]. exists q. split; [set_solver|done]. Qed.

Lemma ended_will {A} M G (p : prog A) d : match p with Ret _ | Throw _ => True | Call _ _ => False end -> will M G p d -> M d.
Proof. by destruct p. Qed.

(** A step of one handler, for what the handlers are to do. *)
Lemma called_doing M d d' tr tr' pend pend' ps1 ps2 o k r :
  Inv d -> Inv d' -> db_le d d' -> op_works o d r d' -> stable M ->
  doing M (Build_Runtime d tr pend (ps1 ++ Call o k :: ps2)) -> doing M (Build_Runtime d' tr' pend' (ps1 ++ k r :: ps2)).
Proof.
  intros HI HI' Hle Hop HM [H|(p & Hp & H)]; [left; by apply (HM d)|]. simpl in Hp, H.
  apply elem_of_app in Hp as [Hp|[->|Hp]%elem_of_cons].
  - right. exists p. split; [set_solver|]. by apply (will_later _ HM _ _ d).
  - destruct H as [[]|H]. destruct (H d ltac:(reflexivity) HI r d' Hop HI' Hle) as [?|H']; [by left|right].
    exists (k r). split; [set_solver|done].
  - right. exists p. split; [set_solver|]. by apply (will_later _ HM _ _ d).
Qed.

Lemma called_due m d d' tr tr' pend ps1 ps2 o k r :
  Inv d -> Inv d' -> db_le d d' -> op_works o d r d' -> is_Some (worker_of m) ->
  due m (Build_Runtime d tr pend (ps1 ++ Call o k :: ps2)) ->
  due m (Build_Runtime d' tr' (pend ++ publication o) (ps1 ++ k r :: ps2)).
Proof.
  intros HI HI' Hle Hop [pm Hm] [H|(p & Hp & H)]; [left; set_solver|]. simpl in Hp, H.
  apply elem_of_app in Hp as [Hp|[->|Hp]%elem_of_cons].
  - right. exists p. split; [set_solver|]. by apply (will_later _ never_stable _ _ d).
  - destruct H as [<-|H].
    + left. apply elem_of_app. right. unfold publication. rewrite Hm. by left.
    + destruct (H d ltac:(reflexivity) HI r d' Hop HI' Hle) as [[]|H']. right. exists (k r). split; [set_solver|done].
  - right. exists p. split; [set_solver|]. by apply (will_later _ never_stable _ _ d).
Qed.

Lemma watched_call d tr pend ps1 ps2 o k r d' :
  let w := Build_Runtime d tr pend (ps1 ++ Call o k :: ps2) in
  let w' := Build_Runtime d' (tr ++ [o]) (pend ++ publication o) (ps1 ++ k r :: ps2) in
  Watched w -> op_works o d r d' -> Watched w' /\ Stepped w w'.
Proof.
  intros w w' Hw Hop. pose proof (watched_inv _ Hw) as HI.
  assert (Hstep : wstep true stack_of (world w) (world w')) by (apply ws_call; left; by apply works_op_db).
  destruct (wstep_inv _ _ _ _ (reachable_inv _ _ _ (wa_world _ Hw)) Hstep) as [[HI' _] Hle]. simpl in HI', Hle.
  pose proof (wa_responsible _ Hw (Call o k) ltac:(set_solver)) as Hres. simpl in Hres.
  destruct (Hres d ltac:(reflexivity) HI) as [Hname Hk]. destruct (Hk r d' Hop HI' Hle) as [Howes Hres'].
  pose proof (wi_threads _ (reachable_inv _ _ _ (wa_world _ Hw)) (Call o k) ltac:(set_solver)) as Hsafe.
  destruct (Hsafe d ltac:(reflexivity) HI) as [Hok _].
  split.
  - split.
    + eapply rtc_r; [apply (wa_world _ Hw)|exact Hstep].
    + simpl. intros p [Hp|[->|Hp]%elem_of_cons]%elem_of_app; [|done|]; (eapply responsible_later; [exact Hle|]);
        apply (wa_responsible _ Hw); set_solver.
    + simpl. intros m [Hm|Hm]%elem_of_app; [pose proof (wa_pending _ Hw m Hm); set_solver|].
      unfold publication in Hm. destruct (worker_of o); set_solver.
    + simpl. intros m [Hm|Hm]%elem_of_app; [by apply (wa_publication _ Hw)|].
      unfold publication in Hm. destruct (worker_of o) eqn:Ho; [|set_solver].
      apply list_elem_of_singleton in Hm as ->. by rewrite Ho.
    + simpl. intros e id [Hin|Ho%list_elem_of_singleton]%elem_of_app; (eapply named_later; [exact Hle|]);
        [by apply (wa_named _ Hw)|]. by rewrite <-Ho in Hname.
  - split; try done.
    + intros M HM. by apply called_doing.
    + intros m p Hm Hdue. left. apply (called_due m d d' tr); [done..|by exists p|done].
    + right. exists (k r). split; [set_solver|]. by eapply works_gained.
Qed.

Lemma watched_deliver d tr pend pend' ps o p :
  let w := Build_Runtime d tr pend ps in let w' := Build_Runtime d tr pend' (ps ++ [p]) in
  Watched w -> o ∈ tr -> worker_of o = Some p -> (forall m, m ∈ pend' -> m ∈ pend) ->
  (forall m, m ∈ pend -> m ∈ pend' \/ m = o) -> Watched w' /\ Stepped w w'.
Proof.
  intros w w' Hw Hin Ho Hsub Hpend. pose proof (watched_inv _ Hw) as HI. split.
  - split.
    + eapply rtc_r; [apply (wa_world _ Hw)|]. by eapply worker_message.
    + simpl. intros q [Hq| ->%list_elem_of_singleton]%elem_of_app; [by apply (wa_responsible _ Hw)|].
      by apply (worker_responsible w o).
    + simpl. intros m Hm. apply (wa_pending _ Hw). by apply Hsub.
    + simpl. intros m Hm. apply (wa_publication _ Hw). by apply Hsub.
    + apply (wa_named _ Hw).
  - split; try done.
    + intros M _. apply doing_more.
    + intros m q Hm [Hm'|(q' & Hq' & H)].
      * destruct (Hpend m Hm') as [?| ->]; [left; by left|right]. assert (p = q) as -> by congruence. set_solver.
      * left. right. exists q'. split; [set_solver|done].
    + by left.
Qed.

Lemma watched_step w w' : Watched w -> rstep w w' -> Watched w' /\ Stepped w w'.
Proof.
  intros Hw Hstep. destruct Hstep as [w w' Hadv|d tr pend ps request|d tr pend ps o p Hin Ho].
  - destruct Hadv as [d tr o p pend1 pend2 ps Ho|d tr pend ps1 ps2 o k r d' Hop|d tr pend ps1 ps2 p Hend].
    + apply (watched_deliver _ _ _ _ _ o); [done| |done|set_solver|set_solver]. apply (wa_pending _ Hw). set_solver.
    + by apply watched_call.
    + pose proof (watched_inv _ Hw) as HI. split.
      * split.
        -- eapply rtc_r; [apply (wa_world _ Hw)|]. apply ws_drop.
        -- intros q Hq. apply (wa_responsible _ Hw). set_solver.
        -- apply (wa_pending _ Hw).
        -- apply (wa_publication _ Hw).
        -- apply (wa_named _ Hw).
      * split; try done; [| |by left].
        -- intros M _ [?|(q & Hq & H)]; [by left|]. simpl in Hq, H.
           apply elem_of_app in Hq as [Hq|[->|Hq]%elem_of_cons]; [right; exists q; set_solver| |right; exists q; set_solver].
           left. by destruct p.
        -- intros m q0 _ [?|(q & Hq & H)]; [by left; left|]. simpl in Hq, H. left. right.
           apply elem_of_app in Hq as [Hq|[->|Hq]%elem_of_cons]; [exists q; set_solver| |exists q; set_solver].
           by destruct p.
  - pose proof (watched_inv _ Hw) as HI. split.
    + split.
      * eapply rtc_r; [apply (wa_world _ Hw)|]. apply ws_request.
      * intros q [Hq| ->%list_elem_of_singleton]%elem_of_app; [by apply (wa_responsible _ Hw)|]. by apply responsible_start.
      * apply (wa_pending _ Hw).
      * apply (wa_publication _ Hw).
      * apply (wa_named _ Hw).
    + split; try done; [| |by left].
      * intros M _. apply doing_more.
      * intros m q _ H. left. eapply due_more; [|exact H]. auto.
  - apply (watched_deliver _ _ _ _ _ o); [done|done|done|done|auto].
Qed.

(** ** What is seen to, in every state *)

(** The settlement of a step, completed or skipped, is to be announced. *)
Definition announced (P : StepRecord -> Prop) (e : string) (w : Runtime) : Prop :=
  exists s r, settled_at e s r (rt_db w) /\ P r /\ due (Settled e s) w.

Definition done_with (r : StepRecord) : Prop := sr_status r = completed \/ sr_status r = skipped.

(** The row decides the step. *)
Definition decider (g : WorkflowGraph) (e : string) (k : StepKey) (d : Db) (r : StepRecord) : Prop :=
  done_with r /\ exists edge, decides g (all_summaries d e) edge (sr_key r) k (summary_of r).

Record SeenTo (w : Runtime) : Prop := {
  (* a stored execution is started *)
  se_start : forall e, is_Some (executions (rt_db w) !! e) ->
    charged (PublishOrchestration (ExecutionEnqueuedEvent e)) (claimed e) w;
  (* one that was claimed gets its trigger step *)
  se_trigger : forall e, claimed e (rt_db w) -> doing (trigger_there e) w;
  (* a step is taken on *)
  se_taken : forall id r, steps (rt_db w) !! id = Some r ->
    charged (PublishStep (StepReadyEvent (sr_executionId r) id)) (step_taken (sr_executionId r) id) w;
  (* one taken on is settled *)
  se_run : forall id r, steps (rt_db w) !! id = Some r -> sr_status r <> queued -> runnable_in (rt_db w) (sr_executionId r) ->
    doing (step_done (sr_executionId r) id) w;
  (* a step that is ready gets its row *)
  se_ready : forall e x k, executions (rt_db w) !! e = Some x -> ready (graph_of x) (all_summaries (rt_db w) e) k ->
    doing (step_there e k) w \/ announced (decider (graph_of x) e k (rt_db w)) e w;
  (* an execution that owes nothing more ends, and so does one with a failed step *)
  se_finish : forall e x t, executions (rt_db w) !! e = Some x -> ValidGraph (graph_of x) t -> Finished (rt_db w) e (graph_of x) t ->
    doing (over e) w \/ announced done_with e w;
  se_fail : forall e, failed_in (rt_db w) e -> doing (over e) w \/ announced (fun r => sr_status r = failed) e w;
  (* nothing cancels an execution *)
  se_cancelled : forall e x, executions (rt_db w) !! e = Some x -> ex_status x <> ex_cancelled;
}.

(** Charges are kept, or their message is delivered. *)
Lemma charged_kept w w' o p M :
  Stepped w w' -> stable M -> worker_of o = Some p -> will M no_call p (rt_db w') -> charged o M w -> charged o M w'.
Proof.
  intros Hs HM Ho Hp [H|H]; [|right; by apply (st_doing _ _ Hs)].
  destruct (st_due _ _ Hs o p Ho H) as [?|Hin]; [by left|]. right. right. by exists p.
Qed.

Lemma announced_kept w w' (P P' : StepRecord -> Prop) e M :
  Stepped w w' -> stable M ->
  (forall r, P r -> P' r) ->
  (forall s r, settled_at e s r (rt_db w') -> P' r -> will M no_call (settled_handle e s) (rt_db w')) ->
  doing M w \/ announced P e w -> doing M w' \/ announced P' e w'.
Proof.
  intros Hs HM HP Hw [H|(s & r & Hr & Hp & H)]; [left; by apply (st_doing _ _ Hs)|].
  pose proof (settled_at_later _ _ _ _ _ (st_le _ _ Hs) (st_inv' _ _ Hs) Hr) as Hr'.
  destruct (st_due _ _ Hs (Settled e s) _ eq_refl H) as [?|Hin]; [right; exists s, r; auto|].
  left. right. exists (settled_handle e s). split; [done|]. apply (Hw s r); auto.
Qed.

Lemma due_thread w o p : p ∈ rt_threads w -> will never (eq o) p (rt_db w) -> due o w.
Proof. intros Hp H. right. by exists p. Qed.

Lemma doing_thread w M p : p ∈ rt_threads w -> will M no_call p (rt_db w) -> doing M w.
Proof. intros Hp H. right. by exists p. Qed.

Section kept.
Context (w w' : Runtime) (Hw' : Watched w') (Hs : Stepped w w') (Hsee : SeenTo w).

Let HI : Inv (rt_db w) := st_inv _ _ Hs.
Let HI' : Inv (rt_db w') := st_inv' _ _ Hs.
Let Hle : db_le (rt_db w) (rt_db w') := st_le _ _ Hs.

Lemma start_kept e : is_Some (executions (rt_db w') !! e) ->
  charged (PublishOrchestration (ExecutionEnqueuedEvent e)) (claimed e) w'.
Proof.
  intros Hx. destruct (executions (rt_db w) !! e) as [x0|] eqn:Hx0.
  - eapply charged_kept; [done|apply claimed_stable|done|by apply start_claims|]. apply (se_start _ Hsee). by exists x0.
  - destruct Hx as [x Hx]. destruct (st_gained _ _ Hs) as [Heq|(p & Hp & Hg)]; [congruence|].
    destruct Hg as [Heq|e0 x1 _ Heq _ Ha|e0 x1 x2 Hx1 Heq _ _|Heq _]; [congruence| | |congruence].
    + rewrite Heq in Hx. simpl in Hx. apply lookup_insert_Some in Hx as [[<- _]|[_ ?]]; [|congruence].
      left. by apply (due_thread _ _ p).
    + rewrite Heq in Hx. simpl in Hx. apply lookup_insert_Some in Hx as [[<- _]|[_ ?]]; congruence.
Qed.

Lemma trigger_kept e : claimed e (rt_db w') -> doing (trigger_there e) w'.
Proof.
  intros (x & Hx & Hq). assert (Hold : claimed e (rt_db w) -> doing (trigger_there e) w').
  { intros Hc. apply (st_doing _ _ Hs); [apply trigger_there_stable|]. by apply (se_trigger _ Hsee). }
  destruct (st_gained _ _ Hs) as [Heq|(p & Hp & Hg)]; [apply Hold; exists x; by rewrite <-Heq|].
  destruct Hg as [Heq|e0 x1 _ Heq Hq1 _|e0 x1 x2 Hx1 Heq _ Hw|Heq _].
  - apply Hold. exists x. by rewrite <-Heq.
  - rewrite Heq in Hx. simpl in Hx. apply lookup_insert_Some in Hx as [[_ <-]|[_ Hx]]; [done|]. apply Hold. by exists x.
  - destruct (decide (e = e0)) as [->|Hne].
    + destruct (decide (ex_status x1 = ex_queued)) as [Hq1|Hq1]; [|apply Hold; by exists x1].
      apply (doing_thread _ _ p); [done|by apply Hw].
    + apply Hold. exists x. rewrite Heq in Hx. simpl in Hx. by rewrite lookup_insert_ne in Hx.
  - apply Hold. exists x. by rewrite <-Heq.
Qed.

(** A row is as it was, or what became of it is seen to. *)
Lemma row_gained id r' (e := sr_executionId r') : steps (rt_db w') !! id = Some r' ->
  match steps (rt_db w) !! id with
  | None => if isSettledStatus (sr_status r') then due (Settled e id) w'
            else sr_status r' = queued /\ due (PublishStep (StepReadyEvent e id)) w'
  | Some r => r' = r \/
      sr_status r = queued /\ sr_status r' = running /\ (runnable_in (rt_db w') e -> doing (step_done e id) w') \/
      isSettledStatus (sr_status r') = true /\ (due (Settled e id) w' \/ failed_in (rt_db w) e)
  end.
Proof.
  intros Hr'. assert (Hold : steps (rt_db w') = steps (rt_db w) -> steps (rt_db w) !! id = Some r') by (by intros <-).
  destruct (st_gained _ _ Hs) as [Heq|(p & Hp & Hg)]; [rewrite Hold; [by left|by rewrite Heq]|].
  destruct Hg as [Heq|e0 x1 _ Heq _ _|e0 x1 x2 _ Heq _ _|_ Hrows];
    try (rewrite Hold; [by left|by rewrite Heq]).
  specialize (Hrows id r' Hr'). cbv zeta in Hrows. fold e in Hrows. destruct (steps (rt_db w) !! id) as [r|].
  - destruct Hrows as [?|[(? & ? & H)|(? & [H|?])]]; [by left|right; left|right; right|right; right]; split_and!; try done.
    + intros Hr. by apply (doing_thread _ _ p), H.
    + left. by apply (due_thread _ _ p).
    + by right.
  - destruct (isSettledStatus _); [by apply (due_thread _ _ p)|]. destruct Hrows. split; [done|by apply (due_thread _ _ p)].
Qed.

Lemma named_row id r : steps (rt_db w') !! id = Some r -> named (sr_executionId r) id (rt_db w').
Proof. intros Hr. by exists r. Qed.

Lemma taken_kept id r' : steps (rt_db w') !! id = Some r' ->
  charged (PublishStep (StepReadyEvent (sr_executionId r') id)) (step_taken (sr_executionId r') id) w'.
Proof.
  intros Hr'. pose proof (row_gained id r' Hr') as Hg. destruct (steps (rt_db w) !! id) as [r|] eqn:Hr.
  - destruct (dl_steps _ _ Hle _ _ Hr) as (r2 & Hr2 & Hl). assert (r2 = r') as -> by congruence. rewrite (rl_exec _ _ Hl).
    eapply charged_kept; [done|apply step_taken_stable|done| |by apply (se_taken _ Hsee)].
    apply ready_takes. rewrite <-(rl_exec _ _ Hl). by apply named_row.
  - destruct (isSettledStatus (sr_status r')) eqn:Hst; [|left; apply Hg]. right. left. right. exists r'. split; [done|].
    intros Hq. by rewrite Hq in Hst.
Qed.

Lemma run_kept id r' : steps (rt_db w') !! id = Some r' -> sr_status r' <> queued -> runnable_in (rt_db w') (sr_executionId r') ->
  doing (step_done (sr_executionId r') id) w'.
Proof.
  intros Hr' Hq Hrun. pose proof (row_gained id r' Hr') as Hg.
  assert (Hset : isSettledStatus (sr_status r') = true -> doing (step_done (sr_executionId r') id) w').
  { intros Hst. left. right. by exists r'. }
  destruct (steps (rt_db w) !! id) as [r|] eqn:Hr.
  - destruct Hg as [->|[(_ & _ & H)|(H & _)]]; [|by apply H|by apply Hset].
    apply (st_doing _ _ Hs); [apply step_done_stable|]. apply (se_run _ Hsee); [done|done|].
    eapply runnable_earlier; [exact Hle| |done]. by apply (tk_fk _ (inv_table _ HI) id).
  - destruct (isSettledStatus (sr_status r')) eqn:Hst; [by apply Hset|]. by destruct Hg.
Qed.

Lemma cancelled_kept e x : executions (rt_db w') !! e = Some x -> ex_status x <> ex_cancelled.
Proof.
  intros Hx Hc. destruct (executions (rt_db w) !! e) as [x0|] eqn:Hx0.
  - destruct (dl_exec _ _ Hle _ _ Hx0) as (x2 & Hx2 & Hl). assert (x2 = x) as -> by congruence.
    pose proof (el_status _ _ Hl) as Hst. rewrite Hc in Hst. pose proof (se_cancelled _ Hsee _ _ Hx0).
    by destruct (ex_status x0).
  - destruct (st_gained _ _ Hs) as [Heq|(p & _ & Hg)]; [congruence|].
    destruct Hg as [Heq|e0 x1 _ Heq Hq _|e0 x1 x2 Hx1 Heq _ _|Heq _]; [congruence| | |congruence];
      rewrite Heq in Hx; simpl in Hx; apply lookup_insert_Some in Hx as [[<- <-]|[_ ?]]; congruence.
Qed.

(** A settled row: it was settled before, or its settlement is to be announced, or it was
    cancelled for a failure. *)
Lemma settled_gained id r' : steps (rt_db w') !! id = Some r' -> isSettledStatus (sr_status r') = true ->
  steps (rt_db w) !! id = Some r' \/ due (Settled (sr_executionId r') id) w' \/ failed_in (rt_db w) (sr_executionId r').
Proof.
  intros Hr' Hst. pose proof (row_gained id r' Hr') as Hg. destruct (steps (rt_db w) !! id) as [r|].
  - destruct Hg as [->|[(_ & Hrun & _)|(_ & ?)]]; [by left|by rewrite Hrun in Hst|by right].
  - rewrite Hst in Hg. by right; left.
Qed.

Lemma spoiled_there e k : failed_in (rt_db w) e -> doing (step_there e k) w'.
Proof. intros Hf. left. left. right. by eapply failed_in_le. Qed.

Lemma fail_kept e : failed_in (rt_db w') e -> doing (over e) w' \/ announced (fun r => sr_status r = failed) e w'.
Proof.
  intros (r' & Hr' & He & Hf).
  assert (Hold : failed_in (rt_db w) e -> doing (over e) w' \/ announced (fun r => sr_status r = failed) e w').
  { intros H. apply (announced_kept w w' (fun r => sr_status r = failed)); [done|apply over_stable|done| |by apply (se_fail _ Hsee)].
    intros s r Hr Hrf. by eapply settled_fails. }
  destruct (settled_gained _ _ Hr') as [Hr|[Hdue|H]]; [by rewrite Hf| | |apply Hold; by rewrite <-He].
  - apply Hold. by exists r'.
  - right. exists (sr_id r'), r'. rewrite He in Hdue. split_and!; [|done|done]. split; [done|done|done|by rewrite Hf].
Qed.

Section ready.
Context (e : string) (x' : WorkflowExecution) (k : StepKey) (Hx' : executions (rt_db w') !! e = Some x').
Local Notation g := (graph_of x').
Local Notation S := (all_summaries (rt_db w) e).
Local Notation S' := (all_summaries (rt_db w') e).

(** Seen to. *)
Let seen : Prop := doing (step_there e k) w' \/ announced (decider g e k (rt_db w')) e w'.

Lemma decided_gained edge src r : decides g S' edge src k r -> decides g S edge src k r \/ seen.
Proof.
  intros Hd. pose proof Hd as [Hedge Hrow Hst Hf Ht Hside].
  apply (all_summaries_lookup _ (inv_table _ HI')) in Hrow as (row & Hrow & ->). pose proof Hrow as (Hid & He & Hk).
  simpl in Hst. destruct (settled_gained _ _ Hid Hst) as [Hold|[Hdue|Hfail]].
  - left. split; try done. apply (all_summaries_lookup _ (inv_table _ HI)). exists row. done.
  - right. assert (Hspoiled : failed_in (rt_db w') e -> seen) by (intros H; left; left; left; by right).
    assert (Hdone : done_with row -> seen).
    { intros Hd'. right. exists (sr_id row), row. rewrite He in Hdue. split_and!; [|split; [done|]|done].
      - split; [done|done|done|by destruct Hd' as [-> | ->]].
      - exists edge. by rewrite Hk. }
    destruct (sr_status row) eqn:Hs0; try done; [by apply Hdone; left| |by apply Hdone; right|].
    + apply Hspoiled. by eapply failed_in_row.
    + apply Hspoiled. destruct (inv_exec _ HI' _ _ Hx') as [t Hxi]. by eapply (xi_cancelled _ _ _ _ Hxi).
  - right. left. apply spoiled_there. by rewrite <-He.
Qed.

Lemma ready_kept : ready g S' k -> seen.
Proof.
  intros [Hall (e0 & src0 & r0 & H0)].
  destruct (decided_gained _ _ _ H0) as [H0'|]; [|done].
  destruct (list_either (fun edge => to edge = nodeId k -> reads_nothing g edge k \/ exists src r, decides g S edge src k r)
    (fun _ => seen) (edges g)) as [Hold|(_ & _ & ?)]; [| |done].
  { intros edge He. destruct (decide (to edge = nodeId k)) as [Hto|Hto]; [|by left].
    destruct (Hall edge He Hto) as [Hn|(src & r & Hd)]; [left; by left|].
    destruct (decided_gained _ _ _ Hd) as [Hd'|]; [left; right; by exists src, r|by right]. }
  assert (Hx : exists x, executions (rt_db w) !! e = Some x).
  { destruct H0' as [_ Hrow _ _ _ _]. apply (all_summaries_lookup _ (inv_table _ HI)) in Hrow as (row & (Hid & He & _) & _).
    destruct (tk_fk _ (inv_table _ HI) _ _ Hid) as [x Hx]. rewrite He in Hx. by exists x. }
  destruct Hx as [x Hx]. pose proof (later_graph _ _ _ _ _ Hle Hx Hx') as Hg.
  assert (Hready : ready g S k) by (split; [by intros; apply Hold|by exists e0, src0, r0]).
  pose proof (all_summaries_later _ _ (inv_table _ HI) (inv_table _ HI') Hle e) as Hlater.
  apply (announced_kept w w' (decider g e k (rt_db w))); [done|apply step_there_stable| | |].
  - intros r [Hd (edge & Hde)]. split; [done|]. exists edge. by eapply decides_later.
  - intros s r Hr [Hd Hde]. apply (settled_creates e s r _ k g); [done|done|congruence| |done]. by eapply ready_later.
  - rewrite Hg in *. by apply (se_ready _ Hsee _ x).
Qed.
End ready.

Lemma trigger_owed g t T : ValidGraph g t -> owes (deriveLoops g) (reach_list g t) T (mkKey t 0).
Proof.
  intros HG. left. split_and!; [done|apply elem_of_reach_list; by left|]. intros l Hl _. by apply (trigger_outside g t HG).
Qed.

Lemma finish_kept e x' t : executions (rt_db w') !! e = Some x' -> ValidGraph (graph_of x') t ->
  Finished (rt_db w') e (graph_of x') t -> doing (over e) w' \/ announced done_with e w'.
Proof.
  intros Hx' HG Hfin. pose proof (finished_no_failure _ _ _ _ HI' Hx' HG Hfin) as Hnf.
  pose proof (inv_exec_at _ _ _ _ HI' Hx' HG) as Hxi. destruct Hfin as (T & Hend & Hall).
  destruct (list_either (fun p : string * StepRecord => sr_executionId p.2 = e -> isSettledStatus (sr_status p.2) = true ->
      steps (rt_db w) !! p.1 = Some p.2)
    (fun _ => doing (over e) w' \/ announced done_with e w') (map_to_list (steps (rt_db w')))) as [Hold|(_ & _ & ?)]; [| |done].
  { intros [id r'] Hr'%elem_of_map_to_list. simpl. destruct (decide (sr_executionId r' = e)) as [He|]; [|by left].
    destruct (isSettledStatus (sr_status r')) eqn:Hst; [|by left].
    destruct (settled_gained _ _ Hr' Hst) as [?|[Hdue|Hfail]]; [by left|right; right|].
    - assert (Hrow : row_at (rt_db w') e (sr_key r') r') by (unfold row_at; by rewrite (tk_id _ (inv_table _ HI') _ _ Hr')).
      exists id, r'. rewrite He in Hdue. split_and!; [done| |done].
      destruct (Hall (sr_key r')) as (r2 & Hr2 & Hs2).
      { apply (key_owed _ t HG (all_summaries (rt_db w') e)); [apply Hxi|done|apply elem_of_reach_list|]. by eapply row_KeyOk. }
      by rewrite (row_at_inj _ (inv_table _ HI') _ _ _ _ Hr2 Hrow) in Hs2.
    - exfalso. apply Hnf. rewrite <-He. by eapply failed_in_le. }
  assert (Hrow : forall k r, row_at (rt_db w') e k r -> isSettledStatus (sr_status r) = true -> row_at (rt_db w) e k r).
  { intros k r (Hid & He & Hk) Hst. split_and!; [|done|done]. apply (Hold (sr_id r, r)); [by apply elem_of_map_to_list|done|done]. }
  assert (Hx : exists x, executions (rt_db w) !! e = Some x).
  { destruct (Hall _ (trigger_owed _ t T HG)) as (r & Hr & Hst).
    destruct (Hrow _ _ Hr) as (Hid & He & _); [by destruct Hst as [-> | ->]|].
    destruct (tk_fk _ (inv_table _ HI) _ _ Hid) as [x Hx]. rewrite He in Hx. by exists x. }
  destruct Hx as [x Hx]. pose proof (later_graph _ _ _ _ _ Hle Hx Hx') as Hg.
  apply (announced_kept w w' done_with); [done|apply over_stable|done| |].
  - intros s r Hr Hd. apply (settled_finishes e s r _ x' t); [done|done|done|done|]. by exists T.
  - apply (se_finish _ Hsee e x t); [done|by rewrite <-Hg|]. rewrite <-Hg. exists T. split.
    + intros l Hl Hreach. destruct (Hend l Hl Hreach) as (i & b & Hi & Hb & Hterm). exists i, b. split_and!; [done| |done].
      apply (all_summaries_lookup _ (inv_table _ HI')) in Hb as (row & Hr & ->).
      apply (all_summaries_lookup _ (inv_table _ HI)). exists row. split; [|done]. apply Hrow; [done|].
      by apply isTerminalStep_settled in Hterm.
    + intros k Hk. destruct (Hall k Hk) as (r & Hr & Hst). exists r. split; [|done]. apply Hrow; [done|by destruct Hst as [-> | ->]].
Qed.

Lemma seen_kept : SeenTo w'.
Proof.
  split.
  - apply start_kept.
  - apply trigger_kept.
  - apply taken_kept.
  - apply run_kept.
  - intros e x k Hx. by apply ready_kept.
  - apply finish_kept.
  - apply fail_kept.
  - apply cancelled_kept.
Qed.
End kept.

(** ** In every state the runtime can reach *)

Lemma watched_started : Watched started.
Proof. split; simpl; [apply rtc_refl|set_solver..]. Qed.

Lemma seen_started : SeenTo started.
Proof.
  assert (Hno : forall e, executions (rt_db started) !! e = None) by done.
  assert (Hrow : forall id, steps (rt_db started) !! id = None) by done.
  split.
  - intros e [x Hx]. by rewrite Hno in Hx.
  - intros e (x & Hx & _). by rewrite Hno in Hx.
  - intros id r Hr. by rewrite Hrow in Hr.
  - intros id r Hr. by rewrite Hrow in Hr.
  - intros e x k Hx. by rewrite Hno in Hx.
  - intros e x t Hx. by rewrite Hno in Hx.
  - intros e (r & Hr & _). by rewrite Hrow in Hr.
  - intros e x Hx. by rewrite Hno in Hx.
Qed.

Lemma reachable_seen w : reachable_runtime w -> Watched w /\ SeenTo w.
Proof.
  unfold reachable_runtime. intros Hw. cut (forall w0, Watched w0 /\ SeenTo w0 -> rtc rstep w0 w -> Watched w /\ SeenTo w).
  { intros H. apply (H started); [|done]. split; [apply watched_started|apply seen_started]. }
  clear Hw. intros w0 H0 Hs. induction Hs as [w0|w0 w1 w2 Hstep _ IH]; [done|]. apply IH. destruct H0 as [Hwa Hse].
  destruct (watched_step _ _ Hwa Hstep) as [Hwa1 Hst]. split; [done|by eapply seen_kept].
Qed.

(** Nothing is pending and no handler is at work. *)
Definition quiet (w : Runtime) : Prop := rt_pending w = [] /\ rt_threads w = [].

Section quiet.
Context (w : Runtime) (Hw : Watched w) (Hsee : SeenTo w) (Hquiet : quiet w).

Lemma quiet_due o : ~ due o w.
Proof. destruct Hquiet as [Hp Ht]. intros [H|(p & H & _)]; rewrite ?Hp, ?Ht in H; set_solver. Qed.

Lemma quiet_doing M : doing M w -> M (rt_db w).
Proof. destruct Hquiet as [_ Ht]. intros [H|(p & H & _)]; [done|]. rewrite Ht in H. set_solver. Qed.

Lemma quiet_announced P e M : doing M w \/ announced P e w -> M (rt_db w).
Proof. intros [H|(s & r & _ & _ & H)]; [by apply quiet_doing|]. by apply quiet_due in H. Qed.

Lemma quiet_charged o M : charged o M w -> M (rt_db w).
Proof. intros [H|H]; [by apply quiet_due in H|by apply quiet_doing]. Qed.

Lemma quiet_settled e x id r : executions (rt_db w) !! e = Some x -> runnable (graph_of x) -> ~ spoiled e (rt_db w) ->
  steps (rt_db w) !! id = Some r -> sr_executionId r = e -> isSettledStatus (sr_status r) = true.
Proof.
  intros Hx Hrun Hns Hr <-.
  destruct (quiet_charged _ _ (se_taken _ Hsee id r Hr)) as [?|(r1 & Hr1 & Hq)]; [done|].
  assert (r1 = r) as -> by congruence.
  destruct (quiet_doing _ (se_run _ Hsee id r Hr Hq ltac:(intros x2 Hx2; by assert (x2 = x) as -> by congruence)))
    as [?|(r2 & Hr2 & Hst)]; [done|]. by assert (r2 = r) as -> by congruence.
Qed.

Lemma quiet_finished e x t r0 : executions (rt_db w) !! e = Some x -> runnable (graph_of x) -> ~ spoiled e (rt_db w) ->
  ValidGraph (graph_of x) t -> row_at (rt_db w) e (mkKey t 0) r0 -> Finished (rt_db w) e (graph_of x) t.
Proof.
  intros Hx Hrun Hns HG Hr0. pose proof (watched_inv _ Hw) as HI. pose proof (inv_table _ HI) as HT.
  pose proof (inv_exec_at _ _ _ _ HI Hx HG) as Hxi.
  assert (Hset : forall k r, row_at (rt_db w) e k r -> isSettledStatus (sr_status r) = true).
  { intros k r (Hid & He & _). by eapply quiet_settled. }
  destruct (planned_out (graph_of x) t HG (all_summaries (rt_db w) e)) as (T & Hend & Hall).
  - apply Hxi.
  - intros s r Hr. destruct (all_summaries_key _ HT _ _ _ Hr) as [k ->].
    apply (all_summaries_lookup _ HT) in Hr as (row & Hrow & ->). by apply (Hset k).
  - exists (summary_of r0). apply (all_summaries_lookup _ HT). by exists r0.
  - intros k Hk. destruct (quiet_announced _ _ _ (se_ready _ Hsee e x k Hx Hk)) as [?|[r Hr]]; [done|].
    exists (summary_of r). apply (all_summaries_lookup _ HT). by exists r.
  - exists T. split; [done|]. intros k Hk. destruct (Hall k Hk) as [s Hs].
    apply (all_summaries_lookup _ HT) in Hs as (r & Hr & _). exists r. split; [done|].
    pose proof (Hset k r Hr) as Hst. destruct (sr_status r) eqn:Hs; try done; auto; exfalso; apply Hns; right.
    + by eapply failed_in_row.
    + by eapply (xi_cancelled _ _ _ _ Hxi).
Qed.

(** An execution left running would be ready to go on. *)
Lemma quiet_over e x : executions (rt_db w) !! e = Some x -> runnable (graph_of x) -> over e (rt_db w).
Proof.
  intros Hx Hrun. pose proof (watched_inv _ Hw) as HI.
  assert (Hfail : failed_in (rt_db w) e -> over e (rt_db w)).
  { intros H. by apply (quiet_announced (fun r => sr_status r = failed) e), (se_fail _ Hsee). }
  assert (Hcl : claimed e (rt_db w)).
  { eapply quiet_charged, (se_start _ Hsee). by exists x. }
  destruct (decide (ex_status x = ex_running)) as [Hrunning|Hn]; [|by eapply claimed_not_running].
  destruct (has_failed (steps (rt_db w)) e) eqn:Hhf.
  { apply Hfail. by apply (has_failed_spec _ _ (inv_table _ HI)). }
  assert (Hns : ~ spoiled e (rt_db w)).
  { intros [(x' & Hx' & _ & Hnr)|Hf]; [by assert (x' = x) as -> by congruence|].
    apply (has_failed_spec _ _ (inv_table _ HI)) in Hf. congruence. }
  destruct (quiet_doing _ (se_trigger _ Hsee e Hcl)) as [?|(x' & t & r0 & Hx' & HG & Hr0)]; [done|].
  assert (x' = x) as -> by congruence.
  apply (quiet_announced done_with e), (se_finish _ Hsee e x t Hx HG). by apply (quiet_finished e x t r0).
Qed.
End quiet.

(** Every call can be answered. *)
Lemma works_answered o d : exists r d', op_works o d r d'.
Proof.
  destruct o; simpl; try (by do 2 eexists); try (by exists (Ok Accept), d); try (by exists (Ok []), d); try (by exists (Ok 0%Z), d; eauto);
    try (by exists (Ok true), d; eauto).
  - destruct (createExecution (HostValue "") d record) as [r d'] eqn:H. exists r, d', (HostValue ""). by rewrite H.
  - do 2 eexists. by exists 0%Z.
  - set (ids := fresh_list (C := gset string) (length records) (dom (steps d))).
    destruct (createSteps (HostValue "") d executionId records ids) as [r d'] eqn:H.
    exists r, d', (HostValue ""), ids. split_and!; [apply length_fresh_list|apply NoDup_fresh_list| |by rewrite H].
    intros id Hid. apply not_elem_of_dom. by apply (fresh_list_is_fresh _ _ _ Hid).
Qed.

Lemma quiet_or_advances w : Watched w -> quiet w \/ exists w', advance w w'.
Proof.
  intros Hw. destruct w as [d tr pend ps]. destruct ps as [|p ps].
  - destruct pend as [|o pend]; [by left|right]. destruct (wa_publication _ Hw o) as [p Hp]; [by left|].
    eexists. by apply (adv_deliver d tr o p [] pend []).
  - right. destruct p as [a|err|o k].
    + eexists. by apply (adv_end d tr pend [] ps).
    + eexists. by apply (adv_end d tr pend [] ps).
    + destruct (works_answered o d) as (r & d' & Hop). eexists. by apply (adv_call d tr pend [] ps o k r d').
Qed.

(** C2. No execution is left behind.  Take a runtime with a host executor in which every
    call is answered, every message is delivered at least once and no worker dies; requests
    arrive, messages are delivered in any order and again, and handlers interleave call by
    call.  In every state it can reach, either something still to be done can be done (a
    message to deliver, a handler to go on), or every stored execution of a graph of
    triggers, v1 nodes and batch nodes has completed or failed: no deadlock, no step
    forgotten, no end missed. *)
Theorem never_stuck w : reachable_runtime w ->
  (exists w', advance w w') \/
  forall e x, executions (rt_db w) !! e = Some x -> runnable (graph_of x) ->
    ex_status x = ex_completed \/ ex_status x = ex_failed.
Proof.
  intros [Hw Hsee]%reachable_seen. destruct (quiet_or_advances w Hw) as [Hq|Hadv]; [right|by left].
  intros e x Hx Hrun. destruct (quiet_over w Hw Hsee Hq e x Hx Hrun) as (x' & Hx' & Hnq & Hnr).
  assert (x' = x) as -> by congruence. pose proof (se_cancelled _ Hsee _ _ Hx). destruct (ex_status x); auto; done.
Qed.
End runtime.

(** ** A schedule of the runtime

    The handler that started first goes on until it ends; then the oldest publication is
    delivered.  Ids are drawn from the counter of [EngineRun]. *)

Section schedule.
Context (queryFailed : EngineError) (executor : StepExecutionRequest -> result StepSlots).
Context (stack_of : EngineError -> option string).

(** The ids the counter gives are new. *)
Definition ids_new (o : op) (s : Runner) : bool :=
  match o with
  | CreateSteps _ records =>
      let ids := fresh_ids (r_next s) (length records) in
      bool_decide (NoDup ids) && forallb (fun id => bool_decide (steps (r_db s) !! id = None)) ids
  | _ => true
  end.

Definition next_state (n : N) (w : Runtime) : option (Runtime * N) :=
  match rt_threads w with
  | Call o k :: ps =>
      let s := {| r_db := rt_db w; r_trace := rt_trace w; r_next := n |} in
      if ids_new o s then
        let '(r, s') := exec_op queryFailed executor o s in
        Some (Build_Runtime (r_db s') (r_trace s') (rt_pending w ++ publication stack_of o) (k r :: ps), r_next s')
      else None
  | _ :: ps => Some (Build_Runtime (rt_db w) (rt_trace w) (rt_pending w) ps, n)
  | [] =>
      match rt_pending w with
      | o :: pending => p ← worker_of stack_of o; Some (Build_Runtime (rt_db w) (rt_trace w) pending [p], n)
      | [] => None
      end
  end.

Fixpoint schedule (fuel : nat) (n : N) (w : Runtime) : Runtime :=
  match fuel with
  | O => w
  | S fuel => match next_state n w with Some (w', n') => schedule fuel n' w' | None => w end
  end.

Lemma exec_op_works o s : ids_new o s = true -> op_works o (r_db s) (exec_op queryFailed executor o s).1 (r_db (exec_op queryFailed executor o s).2).
Proof.
  intros Hnew. destruct (exec_op_db queryFailed executor o s) as [Hop _]. destruct o; try exact Hop.
  apply andb_true_iff in Hnew as [Hnd%bool_decide_eq_true Hfresh]. cbn [exec_op].
  destruct (createSteps _ _ _ _ _) as [r d'] eqn:Heq. exists queryFailed. eexists. split_and!; [apply fresh_ids_length|exact Hnd| |by symmetry].
  intros id Hid. eapply bool_decide_eq_true. exact (proj1 (List.forallb_forall _ _) Hfresh id (proj1 (list_elem_of_In _ _) Hid)).
Qed.

Lemma next_state_advances n w w' n' : next_state n w = Some (w', n') -> advance stack_of w w'.
Proof.
  destruct w as [d tr pend [|p ps]]; unfold next_state; simpl.
  - destruct pend as [|o pend]; [done|]. destruct (worker_of stack_of o) as [p|] eqn:Hp; [|done].
    intros [= <- <-]. by apply (adv_deliver stack_of d tr o p [] pend []).
  - destruct p as [a|err|o k]; [intros [= <- <-]; by apply (adv_end _ d tr pend [] ps)..|].
    destruct (ids_new _ _) eqn:Hnew; [|done]. pose proof (exec_op_works _ _ Hnew) as Hop.
    destruct (exec_op_db queryFailed executor o {| r_db := d; r_trace := tr; r_next := n |}) as [_ Htr].
    destruct (exec_op _ _ _ _) as [r s'] eqn:He. intros [= <- <-]. simpl in *. rewrite Htr.
    by apply (adv_call stack_of d tr pend [] ps o k r).
Qed.

Lemma schedule_reaches fuel n w : rtc (rstep stack_of) w (schedule fuel n w).
Proof.
  revert n w. induction fuel as [|fuel IH]; intros n w; simpl; [done|].
  destruct (next_state n w) as [[w' n']|] eqn:Hn; [|done].
  eapply rtc_l; [by eapply rs_advance, next_state_advances|apply IH].
Qed.
End schedule.

Definition sample_runtime : Runtime :=
  schedule (HostValue "query failed") sample_executor (fun _ => None) 600 0
    (Build_Runtime empty_db [] [] [start (sample_request [JNum 1; JNum 2; JNum 3]) ;; Ret tt]).

Lemma sample_runtime_reachable : reachable_runtime (fun _ => None) sample_runtime.
Proof.
  unfold reachable_runtime. eapply rtc_l; [apply rs_request|]. apply schedule_reaches.
Qed.

Lemma never_stuck_witness :
  (rt_pending sample_runtime = [] /\ rt_threads sample_runtime = [] /\
   option_map ex_status (executions (rt_db sample_runtime) !! "exec"%string) = Some ex_completed) /\
  ((exists w', advance (fun _ => None) sample_runtime w') \/
   forall e x, executions (rt_db sample_runtime) !! e = Some x -> runnable (graph_of x) ->
     ex_status x = ex_completed \/ ex_status x = ex_failed).
Proof.
  split; [split_and!; vm_compute; reflexivity|].
  apply (never_stuck (fun _ => None) sample_runtime). apply sample_runtime_reachable.
Defined.
