(* ===== verification/EngineQueue.v ===== *)
(** * Engine v2: the in-memory work queue

    [queue/in-memory-work-queue.ts].  A step of the queue is a call of [publish], [start]
    or [stop], or the settling of the handler's promise for the message in flight
    (whichever way: a rejection is logged).  [startDispatchLoop] and [dispatchPending] run
    synchronously up to the [await] of the handler, so each step is atomic.

    [inflight], [delivered] and [resolved] are history: what the handler was last handed,
    everything it was handed, and which [stop] calls have returned. *)

From Stdlib Require Import Lia.
From stdpp Require Import base option list.
From S2P Require Import Prelude.

Section queue.
(** Messages, the handlers consumers register, and the pending [stop] calls. *)
Context {M H W : Type}.

Record InMemoryWorkQueue := {
  pending : list M;
  handler : option H;
  dispatching : bool;
  idleWaiters : list W;
  inflight : option (H * M);
  delivered : list (H * M);
  resolved : list W;
}.

Definition empty_queue : InMemoryWorkQueue := {|
  pending := []; handler := None; dispatching := false; idleWaiters := [];
  inflight := None; delivered := []; resolved := [];
|}.

(** [dispatchPending], from the head of its loop to its next [await] or its end. *)
Definition dispatchPending (q : InMemoryWorkQueue) : InMemoryWorkQueue :=
  match handler q, pending q with
  | Some h, m :: rest => {|
      pending := rest; handler := handler q; dispatching := dispatching q; idleWaiters := idleWaiters q;
      inflight := Some (h, m); delivered := delivered q ++ [(h, m)]; resolved := resolved q |}
  | _, _ => {|
      pending := pending q; handler := handler q; dispatching := false; idleWaiters := [];
      inflight := None; delivered := delivered q; resolved := resolved q ++ idleWaiters q |}
  end.

Definition startDispatchLoop (q : InMemoryWorkQueue) : InMemoryWorkQueue :=
  if dispatching q || negb (bool_decide (is_Some (handler q))) || bool_decide (length (pending q) = 0) then q
  else dispatchPending {|
    pending := pending q; handler := handler q; dispatching := true; idleWaiters := idleWaiters q;
    inflight := inflight q; delivered := delivered q; resolved := resolved q |}.

Definition queue_publish (q : InMemoryWorkQueue) (message : M) : InMemoryWorkQueue :=
  startDispatchLoop {|
    pending := pending q ++ [message]; handler := handler q; dispatching := dispatching q;
    idleWaiters := idleWaiters q; inflight := inflight q; delivered := delivered q; resolved := resolved q |}.

Definition queue_start (q : InMemoryWorkQueue) (h : H) : InMemoryWorkQueue :=
  startDispatchLoop {|
    pending := pending q; handler := Some h; dispatching := dispatching q; idleWaiters := idleWaiters q;
    inflight := inflight q; delivered := delivered q; resolved := resolved q |}.

Definition queue_stop (q : InMemoryWorkQueue) (w : W) : InMemoryWorkQueue :=
  if dispatching q then {|
    pending := pending q; handler := None; dispatching := dispatching q; idleWaiters := idleWaiters q ++ [w];
    inflight := inflight q; delivered := delivered q; resolved := resolved q |}
  else {|
    pending := pending q; handler := None; dispatching := dispatching q; idleWaiters := idleWaiters q;
    inflight := inflight q; delivered := delivered q; resolved := resolved q ++ [w] |}.

(** The promise of the handler settles: the loop goes round. *)
Definition handler_settled (q : InMemoryWorkQueue) : InMemoryWorkQueue :=
  match inflight q with Some _ => dispatchPending q | None => q end.

Inductive QueueCall := Publish (m : M) | Start (h : H) | Stop (w : W) | HandlerSettled.

Definition queue_call (q : InMemoryWorkQueue) (c : QueueCall) : InMemoryWorkQueue :=
  match c with
  | Publish m => queue_publish q m
  | Start h => queue_start q h
  | Stop w => queue_stop q w
  | HandlerSettled => handler_settled q
  end.

Definition queue_run (cs : list QueueCall) : InMemoryWorkQueue := foldl queue_call empty_queue cs.

Definition published (cs : list QueueCall) : list M :=
  omap (fun c => match c with Publish m => Some m | _ => None end) cs.
Definition stops (cs : list QueueCall) : list W :=
  omap (fun c => match c with Stop w => Some w | _ => None end) cs.

Record QueueInv (cs : list QueueCall) (q : InMemoryWorkQueue) : Prop := {
  qi_order : map snd (delivered q) ++ pending q = published cs;
  qi_stops : resolved q ++ idleWaiters q = stops cs;
  qi_inflight : dispatching q = true <-> is_Some (inflight q);
  qi_idle : dispatching q = false -> idleWaiters q = [];
  qi_progress : is_Some (handler q) -> pending q <> [] -> dispatching q = true;
  qi_last : forall hm, inflight q = Some hm -> last (delivered q) = Some hm;
}.

(** The parts of the invariant a loop head keeps or sets up. *)
Lemma dispatchPending_inv (cs : list QueueCall) (q : InMemoryWorkQueue) :
  dispatching q = true -> map snd (delivered q) ++ pending q = published cs ->
  resolved q ++ idleWaiters q = stops cs -> QueueInv cs (dispatchPending q).
Proof.
  intros Hd Ho Hs. unfold dispatchPending.
  destruct (handler q) as [h|] eqn:Hh; [destruct (pending q) as [|m rest] eqn:Hp|]; split; simpl; try done.
  - by rewrite app_nil_r.
  - by rewrite map_app, <-app_assoc.
  - congruence.
  - intros hm [= <-]. by rewrite last_snoc.
  - by rewrite app_nil_r.
Qed.

Lemma startDispatchLoop_inv (cs : list QueueCall) (q : InMemoryWorkQueue) :
  map snd (delivered q) ++ pending q = published cs -> resolved q ++ idleWaiters q = stops cs ->
  (dispatching q = true <-> is_Some (inflight q)) -> (dispatching q = false -> idleWaiters q = []) ->
  (forall hm, inflight q = Some hm -> last (delivered q) = Some hm) ->
  QueueInv cs (startDispatchLoop q).
Proof.
  intros Ho Hs Hi Hw Hl. unfold startDispatchLoop.
  destruct (dispatching q) eqn:Hd; simpl; [split; by rewrite ?Hd|].
  case_bool_decide as Hh; simpl; [case_bool_decide as Hp; simpl|].
  - split; rewrite ?Hd; try done. intros _ Hne. by destruct (pending q).
  - by apply dispatchPending_inv.
  - split; rewrite ?Hd; try done.
Qed.

Lemma queue_run_inv (cs : list QueueCall) : QueueInv cs (queue_run cs).
Proof.
  unfold queue_run. induction cs as [|c cs IH] using rev_ind.
  { split; simpl; try done; split; first [done | by intros []]. }
  rewrite foldl_app. simpl. destruct IH as [Ho Hs Hi Hw Hp Hl].
  set (q := foldl queue_call empty_queue cs) in *.
  assert (Hpub : published (cs ++ [c]) = published cs ++ published [c]) by apply omap_app.
  assert (Hst : stops (cs ++ [c]) = stops cs ++ stops [c]) by apply omap_app.
  destruct c as [m|h|w|]; simpl in *; rewrite ?app_nil_r in *.
  - apply startDispatchLoop_inv; simpl; rewrite ?Hpub, ?Hst; try done. by rewrite app_assoc, Ho.
  - apply startDispatchLoop_inv; simpl; rewrite ?Hpub, ?Hst; try done.
  - unfold queue_stop. destruct (dispatching q) eqn:Hd; split; simpl; rewrite ?Hpub, ?Hst, ?Hd; try done;
      try (by intros []).
    + by rewrite app_assoc, Hs.
    + rewrite Hw in Hs |- * by done. by rewrite app_nil_r in *; rewrite Hs.
  - unfold handler_settled. destruct (inflight q) as [hm|] eqn:Hin.
    + apply dispatchPending_inv; rewrite ?Hpub, ?Hst; try done. apply Hi. eauto.
    + split; rewrite ?Hpub, ?Hst, ?Hin; try done.
Qed.

(** The queue loses, repeats and reorders nothing: whatever the sequence of calls,
    the messages handed to handlers followed by those pending are the messages
    published, in order; and while a handler is registered messages do not wait without
    one in flight. *)
Lemma queue_is_fifo (cs : list QueueCall) :
  map snd (delivered (queue_run cs)) ++ pending (queue_run cs) = published cs /\
  (is_Some (handler (queue_run cs)) -> pending (queue_run cs) <> [] -> is_Some (inflight (queue_run cs))).
Proof.
  destruct (queue_run_inv cs) as [Ho _ Hi _ Hp _]. split; [done|]. intros Hh Hne. by apply Hi, Hp.
Qed.

(** [stop] returns, and only once the queue is idle: the calls of [stop] return in
    order, one waits exactly while a message is in flight, and after a [stop] no message
    is handed out until the next [start]. *)
Lemma stop_waits_for_inflight (cs : list QueueCall) :
  resolved (queue_run cs) ++ idleWaiters (queue_run cs) = stops cs /\
  (inflight (queue_run cs) = None -> idleWaiters (queue_run cs) = []) /\
  (forall w c, (forall h, c <> Start h) ->
     delivered (queue_call (queue_stop (queue_run cs) w) c) = delivered (queue_run cs)).
Proof.
  destruct (queue_run_inv cs) as [_ Hs Hi Hw _ _]. set (q := queue_run cs) in *. split_and!; [done| |].
  - intros Hn. apply Hw. apply not_true_iff_false. rewrite Hi, Hn. by intros [].
  - intros w c Hc. unfold queue_stop. destruct (dispatching q) eqn:Hd; destruct c as [m|h|w'|]; simpl;
      try (by destruct (Hc h)); unfold queue_publish, queue_stop, handler_settled, startDispatchLoop,
      dispatchPending; simpl; rewrite ?Hd; simpl; try done; by destruct (inflight q).
Qed.
End queue.
