(* ===== verification/EngineEvents.v ===== *)
(** * Engine v2: the batching lifecycle-event publisher

    [lifecycle-events/batching-lifecycle-event-publisher.ts].  The publisher runs on one
    event loop: [publish], [stop] and the timer's callback run to completion, and the drain
    loop is suspended at its [await]s.  [draining] says where: after [Promise.resolve()]
    ([Yielded]), in the callback ([Sending]), or returned with the [finally] callback that
    clears [draining] still queued ([Ended]).

    [LoopResumes] is the promise the loop waits for settling: whichever way the callback
    settles, or its deadline passes, the loop goes on.  The timer is a macrotask, so it does
    not fire while a microtask ([Yielded] or [Ended]) is queued.  A call of [stop] waits for
    the loop it found, or for its deadline ([DrainOverdue]).

    [sent], [discarded], [reported] and [refused] are history: the batches handed to the
    callback, the events thrown away at abandonment, the drops logged, and the events
    refused for want of room. *)

From Stdlib Require Import Lia.
From stdpp Require Import base option list.
From S2P Require Import Prelude.

Definition MAX_LIFECYCLE_EVENTS_PER_BATCH : nat := 500.
Definition DEFAULT_MAX_PENDING_EVENTS : nat := 20 * MAX_LIFECYCLE_EVENTS_PER_BATCH.

(** Where the drain loop is suspended. *)
Inductive DrainLoop := Yielded | Sending | Ended.

#[export] Instance DrainLoop_eq_dec : EqDecision DrainLoop.
Proof. solve_decision. Defined.

Record BatchingLifecycleEventPublisher (E : Type) := {
  pending : list E;
  flushTimer : bool;
  draining : option DrainLoop;
  stopped : bool;
  abandoned : bool;
  dropped : nat;
  sent : list (list E);
  discarded : list E;
  refused : nat;
  reported : nat;
}.
Arguments pending {_} _. Arguments flushTimer {_} _. Arguments draining {_} _. Arguments stopped {_} _.
Arguments abandoned {_} _. Arguments dropped {_} _. Arguments sent {_} _. Arguments discarded {_} _.
Arguments refused {_} _. Arguments reported {_} _.

Section publisher.
Context {E : Type} (batchSize maxPending : nat).
Local Notation Publisher := (BatchingLifecycleEventPublisher E).

Definition new_publisher : Publisher := {|
  pending := []; flushTimer := false; draining := None; stopped := false; abandoned := false;
  dropped := 0; sent := []; discarded := []; refused := 0; reported := 0 |}.

Definition with_pending (p : Publisher) (l : list E) : Publisher := {|
  pending := l; flushTimer := flushTimer p; draining := draining p; stopped := stopped p;
  abandoned := abandoned p; dropped := dropped p; sent := sent p; discarded := discarded p;
  refused := refused p; reported := reported p |}.

Definition with_draining (p : Publisher) (d : option DrainLoop) : Publisher := {|
  pending := pending p; flushTimer := flushTimer p; draining := d; stopped := stopped p;
  abandoned := abandoned p; dropped := dropped p; sent := sent p; discarded := discarded p;
  refused := refused p; reported := reported p |}.

Definition with_timer (p : Publisher) (b : bool) : Publisher := {|
  pending := pending p; flushTimer := b; draining := draining p; stopped := stopped p;
  abandoned := abandoned p; dropped := dropped p; sent := sent p; discarded := discarded p;
  refused := refused p; reported := reported p |}.

Definition with_flags (p : Publisher) (s a : bool) : Publisher := {|
  pending := pending p; flushTimer := flushTimer p; draining := draining p; stopped := s;
  abandoned := a; dropped := dropped p; sent := sent p; discarded := discarded p;
  refused := refused p; reported := reported p |}.

Definition reportDropped (p : Publisher) : Publisher := {|
  pending := pending p; flushTimer := flushTimer p; draining := draining p; stopped := stopped p;
  abandoned := abandoned p; dropped := 0; sent := sent p; discarded := discarded p;
  refused := refused p; reported := reported p + dropped p |}.

Definition arm (p : Publisher) : Publisher := with_timer p true.
Definition disarm (p : Publisher) : Publisher := with_timer p false.

Definition startDraining (p : Publisher) : Publisher :=
  let p := disarm p in
  match draining p with Some _ => p | None => with_draining p (Some Yielded) end.

Definition publish (p : Publisher) (event : E) : Publisher :=
  if stopped p then p
  else if maxPending <=? length (pending p) then {|
    pending := pending p; flushTimer := flushTimer p; draining := draining p; stopped := stopped p;
    abandoned := abandoned p; dropped := Datatypes.S (dropped p); sent := sent p;
    discarded := discarded p; refused := Datatypes.S (refused p); reported := reported p |}
  else
    let p := with_pending p (pending p ++ [event]) in
    if batchSize <=? length (pending p) then startDraining p else arm p.

(** [drain] from the head of its loop to the next [await], or to its end. *)
Definition drain (p : Publisher) : Publisher :=
  if negb (bool_decide (length (pending p) = 0)) && negb (abandoned p) then
    let batch := take batchSize (pending p) in
    let p := reportDropped (with_pending p (drop batchSize (pending p))) in {|
      pending := pending p; flushTimer := flushTimer p; draining := Some Sending; stopped := stopped p;
      abandoned := abandoned p; dropped := dropped p; sent := sent p ++ [batch];
      discarded := discarded p; refused := refused p; reported := reported p |}
  else {|
    pending := []; flushTimer := flushTimer p; draining := Some Ended; stopped := stopped p;
    abandoned := abandoned p; dropped := dropped p; sent := sent p;
    discarded := discarded p ++ pending p; refused := refused p; reported := reported p |}.

(** The promise the loop awaits settles, or its [finally] callback runs. *)
Definition loop_resumes (p : Publisher) : Publisher :=
  match draining p with
  | Some Yielded | Some Sending => drain p
  | Some Ended => with_draining p None
  | None => p
  end.

Definition timer_fires (p : Publisher) : Publisher :=
  if flushTimer p && bool_decide (draining p = None \/ draining p = Some Sending)
  then startDraining (with_timer p false) else p.

(** [stop] up to its [await], and its two ways out. *)
Definition stop (p : Publisher) : Publisher := startDraining (with_flags p true (abandoned p)).
Definition drain_settled (p : Publisher) : Publisher :=
  if stopped p && bool_decide (draining p = None) then reportDropped p else p.
Definition drain_overdue (p : Publisher) : Publisher :=
  if stopped p then reportDropped (with_flags p true true) else p.

Inductive PublisherCall : Type :=
  | Publish (event : E)
  | Stop
  | LoopResumes
  | TimerFires
  | DrainSettled
  | DrainOverdue.

Definition publisher_call (p : Publisher) (c : PublisherCall) : Publisher :=
  match c with
  | Publish event => publish p event
  | Stop => stop p
  | LoopResumes => loop_resumes p
  | TimerFires => timer_fires p
  | DrainSettled => drain_settled p
  | DrainOverdue => drain_overdue p
  end.

Definition publisher_run (cs : list PublisherCall) : Publisher := foldl publisher_call new_publisher cs.

(** The events offered before the first [stop]. *)
Fixpoint offered (cs : list PublisherCall) : list E :=
  match cs with
  | [] => []
  | Publish event :: cs' => event :: offered cs'
  | Stop :: _ => []
  | _ :: cs' => offered cs'
  end.

(** The events the publisher took: each offered event that found room. *)
Definition accepted (p : Publisher) : list E := concat (sent p) ++ discarded p ++ pending p.

(** ** What every run keeps *)

Record PublisherInv (o : list E) (p : Publisher) : Prop := {
  pi_accepted : accepted p `sublist_of` o;
  pi_count : length (accepted p) + refused p = length o;
  pi_refused : dropped p + reported p = refused p;
  pi_batches : Forall (fun b => length b <= batchSize /\ (0 < batchSize -> b <> [])) (sent p);
  pi_pending : length (pending p) <= maxPending;
  pi_discarded : abandoned p = false -> discarded p = [];
  pi_abandoned : abandoned p = true -> stopped p = true;
}.

(** Events that wait have a drain coming, or fill a batch. *)
Definition Scheduled (p : Publisher) : Prop :=
  stopped p = false -> pending p <> [] ->
  draining p = Some Yielded \/ draining p = Some Sending \/ flushTimer p = true \/
  batchSize <= length (pending p).

Definition is_stop (c : PublisherCall) : bool := match c with Stop => true | _ => false end.

Lemma offered_snoc (cs : list PublisherCall) (c : PublisherCall) :
  offered (cs ++ [c]) =
  offered cs ++ (if existsb is_stop cs then [] else match c with Publish e => [e] | _ => [] end).
Proof. induction cs as [|[] cs IH]; simpl; rewrite ?IH; try done; by destruct c. Qed.

Lemma publisher_run_snoc (cs : list PublisherCall) (c : PublisherCall) :
  publisher_run (cs ++ [c]) = publisher_call (publisher_run cs) c.
Proof. unfold publisher_run. by rewrite foldl_app. Qed.

Lemma stopped_run (cs : list PublisherCall) : stopped (publisher_run cs) = existsb is_stop cs.
Proof.
  induction cs as [|c cs IH] using rev_ind; [done|].
  rewrite publisher_run_snoc, existsb_app, <-IH. simpl. rewrite orb_false_r.
  set (p := publisher_run cs). destruct c; simpl; rewrite ?orb_false_r, ?orb_true_r;
    unfold publish, stop, loop_resumes, timer_fires, drain_settled, drain_overdue, drain, startDraining;
    repeat case_match; simpl; congruence.
Qed.

Lemma startDraining_inv (o : list E) (p : Publisher) : PublisherInv o p -> PublisherInv o (startDraining p).
Proof. intros []. unfold startDraining. case_match; by split. Qed.

Lemma reportDropped_inv (o : list E) (p : Publisher) : PublisherInv o p -> PublisherInv o (reportDropped p).
Proof. intros []. split; simpl; try done. lia. Qed.

Lemma publish_inv (o : list E) (p : Publisher) (e : E) :
  stopped p = false -> PublisherInv o p -> PublisherInv (o ++ [e]) (publish p e).
Proof.
  intros Hs []. unfold publish. rewrite Hs. case_match eqn:Hc.
  - split; simpl; try done; try change (accepted _) with (accepted p);
      rewrite ?length_app; simpl; try lia.
    + by apply sublist_inserts_r.
    + intros Ha. apply pi_abandoned0 in Ha. congruence.
  - apply Nat.leb_gt in Hc.
    assert (H : PublisherInv (o ++ [e]) (with_pending p (pending p ++ [e]))).
    { assert (Ha : accepted (with_pending p (pending p ++ [e])) = accepted p ++ [e]).
      { unfold accepted. simpl. by rewrite <-!app_assoc. }
      split; rewrite ?Ha; simpl; try done.
      - by apply sublist_app.
      - rewrite !length_app. simpl. lia.
      - rewrite length_app. simpl. lia. }
    case_match; [by apply startDraining_inv|]. by destruct H.
Qed.

(** [drain] moves events along, it does not lose them. *)
Lemma drain_accepted (p : Publisher) :
  (abandoned p = false -> discarded p = []) -> accepted (drain p) = accepted p.
Proof.
  intros Hd. unfold accepted, drain. case_match eqn:Hc; simpl; [|by rewrite app_nil_r].
  apply andb_true_iff in Hc as [_ Ha]. apply negb_true_iff in Ha.
  rewrite concat_app, Hd by done. simpl. by rewrite app_nil_r, <-app_assoc, take_drop.
Qed.

Lemma drain_inv (o : list E) (p : Publisher) : PublisherInv o p -> PublisherInv o (drain p).
Proof.
  intros []. assert (Hacc := drain_accepted p pi_discarded0). revert Hacc. unfold drain. case_match eqn:Hc; intros Hacc.
  - apply andb_true_iff in Hc as [Hl Ha]. apply negb_true_iff in Ha. apply negb_true_iff, bool_decide_eq_false in Hl.
    split; rewrite ?Hacc; simpl; try done; try lia.
    + apply Forall_app. split; [done|]. constructor; [|done]. split; [rewrite length_take; lia|].
      intros Hb Hn. apply (f_equal length) in Hn. rewrite length_take in Hn. simpl in Hn. lia.
    + rewrite length_drop. lia.
  - split; rewrite ?Hacc; simpl; try done; try lia.
    intros Ha. rewrite Ha in Hc. rewrite pi_discarded0 by done. simpl in *.
    rewrite andb_true_r in Hc. apply negb_false_iff, bool_decide_eq_true in Hc. by apply nil_length_inv.
Qed.

Lemma publisher_call_inv (o : list E) (p : Publisher) (c : PublisherCall) :
  PublisherInv o p ->
  PublisherInv (o ++ (if stopped p then [] else match c with Publish e => [e] | _ => [] end))
               (publisher_call p c).
Proof.
  intros H. destruct c as [e| | | | |]; simpl.
  - destruct (stopped p) eqn:Hs; [|by apply publish_inv]. unfold publish. by rewrite Hs, app_nil_r.
  - destruct (stopped p) eqn:Hs; rewrite app_nil_r; apply startDraining_inv; destruct H; by split.
  - destruct (stopped p) eqn:Hs; rewrite app_nil_r; unfold loop_resumes;
      (case_match; [case_match; [by apply drain_inv..|destruct H; by split]|done]).
  - destruct (stopped p) eqn:Hs; rewrite app_nil_r; unfold timer_fires;
      (case_match; [|done]; apply startDraining_inv; destruct H; by split).
  - destruct (stopped p) eqn:Hs; rewrite app_nil_r; unfold drain_settled; rewrite Hs; simpl; [|done].
    case_bool_decide; [by apply reportDropped_inv|done].
  - destruct (stopped p) eqn:Hs; rewrite app_nil_r; unfold drain_overdue; rewrite Hs; [|done].
    apply reportDropped_inv. destruct H. split; simpl; try done.
Qed.

Lemma publisher_run_inv (cs : list PublisherCall) : PublisherInv (offered cs) (publisher_run cs).
Proof.
  induction cs as [|c cs IH] using rev_ind.
  - split; simpl; try done. lia.
  - rewrite publisher_run_snoc, offered_snoc, <-stopped_run. by apply publisher_call_inv.
Qed.

Lemma publisher_run_scheduled (cs : list PublisherCall) : Scheduled (publisher_run cs).
Proof.
  induction cs as [|c cs IH] using rev_ind; [by intros _ []|]. rewrite publisher_run_snoc.
  set (p := publisher_run cs) in *. clearbody p. unfold Scheduled in *.
  destruct c as [e| | | | |]; simpl; unfold publish, stop, loop_resumes, timer_fires, drain_settled, drain_overdue.
  - destruct (stopped p) eqn:Hs; [by rewrite Hs|]. case_match eqn:Hm; simpl; [by auto|].
    case_match eqn:Hb; simpl; [|by auto]. apply Nat.leb_le in Hb. intros _ _.
    unfold startDraining. case_match; simpl in *; auto.
  - unfold startDraining. case_match; simpl; done.
  - destruct (draining p) as [[]|] eqn:Hd; [| | |by rewrite Hd; auto].
    1, 2: unfold drain; case_match; simpl; by auto.
    simpl. intros Hs Hn. destruct (IH Hs Hn) as [?|[?|?]]; [done..|auto].
  - case_match eqn:Hc; [|done]. apply andb_true_iff in Hc as [_ Hc]. apply bool_decide_eq_true in Hc.
    unfold startDraining. simpl. destruct Hc as [Hd|Hd]; rewrite Hd; simpl; auto.
  - by case_match.
  - case_match eqn:Hs; [done|]. by rewrite Hs.
Qed.

(** ** The loop runs out *)

(** How often the loop still resumes: once per batch at most, to return, and to clear
    [draining]. *)
Definition resumptions (p : Publisher) : nat :=
  match draining p with
  | None => 0
  | Some Ended => 1
  | Some Yielded | Some Sending => length (pending p) + 2
  end.

(** Nothing is left to send and no loop runs. *)
Definition drained (p : Publisher) : Prop := pending p = [] /\ draining p = None.

Lemma loop_runs_out (n : nat) (p : Publisher) :
  0 < batchSize -> abandoned p = false -> discarded p = [] ->
  (draining p = None \/ draining p = Some Ended -> pending p = []) -> resumptions p <= n ->
  drained (Nat.iter n loop_resumes p) /\ concat (sent (Nat.iter n loop_resumes p)) = accepted p.
Proof.
  intros Hb. revert p. induction n as [|n IH]; intros p Ha Hd Hp Hn.
  - unfold resumptions in Hn. destruct (draining p) as [[]|] eqn:Hdr; try lia. simpl.
    unfold drained, accepted. rewrite Hd, Hp, app_nil_r by auto. auto.
  - rewrite Nat.iter_succ_r. unfold resumptions in Hn.
    destruct (decide (draining p = None \/ draining p = Some Ended)) as [He|Hrun].
    + assert (Hq : loop_resumes p = with_draining p None).
      { unfold loop_resumes. destruct He as [He|He]; rewrite He; [|done]. destruct p; simpl in *; by subst. }
      rewrite Hq. apply (IH (with_draining p None)); simpl; auto. unfold resumptions. simpl. lia.
    + assert (Hq : loop_resumes p = drain p).
      { unfold loop_resumes. destruct (draining p) as [[]|]; try done; destruct Hrun; auto. }
      assert (Hn' : length (pending p) + 1 <= n).
      { destruct (draining p) as [[]|]; try lia; destruct Hrun; auto. }
      rewrite Hq. assert (Hacc : accepted (drain p) = accepted p).
      { by apply drain_accepted. }
      rewrite <-Hacc. apply IH; unfold resumptions, drain; rewrite ?Ha, ?Hd;
        case_bool_decide as Hl; simpl; rewrite ?length_drop; try done; try lia.
      * by apply nil_length_inv in Hl as ->.
      * intros [?|?]; done.
Qed.

(** Whatever the order of [publish], [stop], timers and deadlines: the events handed
    to the callback, then those thrown away when shutdown gave up, then those waiting,
    are a subsequence of the events published before the first [stop], in their order
    and each once; the ones missing are counted, and every count is logged or still to
    be; a batch has at most [batchSize] events and is not empty; at most [maxPending]
    wait; and nothing is thrown away unless shutdown gave up. *)
Lemma batches_keep_the_order (cs : list PublisherCall) :
  let p := publisher_run cs in
  (concat (sent p) ++ discarded p ++ pending p) `sublist_of` offered cs /\
  length (concat (sent p) ++ discarded p ++ pending p) + dropped p + reported p = length (offered cs) /\
  Forall (fun b => length b <= batchSize /\ (0 < batchSize -> b <> [])) (sent p) /\
  length (pending p) <= maxPending /\ (abandoned p = false -> discarded p = []).
Proof.
  intros p. destruct (publisher_run_inv cs) as [Hacc Hcount Href Hb Hp Hd _]. fold p in Hacc, Hcount, Href, Hb, Hp, Hd.
  split_and!; try done. unfold accepted in Hcount. lia.
Qed.

(** Events do not wait without a drain to come: until [stop], while events wait the
    loop runs, or the timer is armed, or they fill a batch (and then the next [publish]
    starts the loop). *)
Lemma waiting_events_are_scheduled (cs : list PublisherCall) (e : E) :
  let p := publisher_run cs in
  stopped p = false -> pending p <> [] ->
  draining p = Some Yielded \/ draining p = Some Sending \/ flushTimer p = true \/
  (draining p = Some Ended /\ batchSize <= length (pending p)) \/
  (length (pending p) < maxPending -> draining (publish p e) = Some Yielded).
Proof.
  intros p Hs Hn. pose proof (publisher_run_scheduled cs) as Hsch. fold p in Hsch. clearbody p.
  destruct (Hsch Hs Hn) as [?|[?|[?|Hl]]]; auto.
  destruct (draining p) as [[]|] eqn:Hd; [by auto..|by auto 8|]. right. right. right. right. intros Hm.
  unfold publish. rewrite Hs, (proj2 (Nat.leb_gt _ _)) by done. simpl.
  rewrite length_app, (proj2 (Nat.leb_le _ _)) by lia. unfold startDraining. simpl. by rewrite Hd.
Qed.

(** [stop] delivers: unless it is called while the [finally] callback of a finished
    loop is still queued with events waiting, or an earlier one gave up, then however
    the callback settles the loop it starts or finds hands over every event accepted and
    ends, within one resumption per event waiting and two more. *)
Lemma stop_drains (cs : list PublisherCall) (n : nat) :
  let p := publisher_run cs in
  0 < batchSize -> abandoned p = false -> (draining p = Some Ended -> pending p = []) ->
  length (pending p) + 2 <= n ->
  drained (Nat.iter n loop_resumes (stop p)) /\
  concat (sent (Nat.iter n loop_resumes (stop p))) = accepted p.
Proof.
  intros p Hb Ha He Hn. destruct (publisher_run_inv cs) as [_ _ _ _ _ Hd _]. fold p in Hd.
  assert (Hacc : accepted (stop p) = accepted p).
  { unfold stop, startDraining. by case_match. }
  rewrite <-Hacc. apply loop_runs_out; [done|..]; unfold resumptions, stop, startDraining; simpl;
    destruct (draining p) as [[]|] eqn:Hdr; simpl; rewrite ?Hdr; try lia; auto; intros [?|?]; auto; done.
Qed.
End publisher.
Arguments PublisherCall _ : clear implicits.

Example waiting_events_are_scheduled_somewhere :
  let p := publisher_run (E := nat) 2 4 [Publish 0] in
  stopped p = false /\ pending p <> [] /\
  (draining p = Some Yielded \/ draining p = Some Sending \/ flushTimer p = true \/
   (draining p = Some Ended /\ 2 <= length (pending p)) \/
   (length (pending p) < 4 -> draining (publish 2 4 p 1) = Some Yielded)).
Proof.
  split; [reflexivity|]. split; [discriminate|].
  apply (waiting_events_are_scheduled 2 4 [Publish 0] 1); [reflexivity|discriminate].
Qed.

Lemma stop_drains_witness :
  let p := publisher_run (E := nat) 2 4 [Publish 0; Publish 1; LoopResumes; Publish 2] in
  pending p = [2] /\ drained (Nat.iter 3 (loop_resumes 2) (stop p)) /\
  concat (sent (Nat.iter 3 (loop_resumes 2) (stop p))) = [0; 1; 2].
Proof.
  split; [reflexivity|].
  apply (stop_drains 2 4 [Publish 0; Publish 1; LoopResumes; Publish 2] 3); try reflexivity; simpl; try lia.
  discriminate.
Defined.

(** The window [stop_drains] leaves out is real.  A full batch published after the
    drain loop returned and before its [finally] callback ran starts no loop and arms no
    timer: with the default limits it then waits, with a full batch pending and nothing
    scheduled; and a [stop] called in that window returns with the events still waiting
    and no loop running, so they are never handed over. *)
Lemma events_published_in_the_window_are_stranded :
  let burst := map Publish (seq 0 MAX_LIFECYCLE_EVENTS_PER_BATCH) in
  let before := burst ++ [LoopResumes; LoopResumes] ++ burst in
  let idle := publisher_run MAX_LIFECYCLE_EVENTS_PER_BATCH DEFAULT_MAX_PENDING_EVENTS (before ++ [LoopResumes]) in
  let ended := publisher_run MAX_LIFECYCLE_EVENTS_PER_BATCH DEFAULT_MAX_PENDING_EVENTS
                 (before ++ [Stop; LoopResumes; DrainSettled]) in
  (length (pending idle) = MAX_LIFECYCLE_EVENTS_PER_BATCH /\ stopped idle = false /\
   draining idle = None /\ flushTimer idle = false) /\
  (length (pending ended) = MAX_LIFECYCLE_EVENTS_PER_BATCH /\ stopped ended = true /\
   draining ended = None /\ abandoned ended = false /\ sent ended = [seq 0 MAX_LIFECYCLE_EVENTS_PER_BATCH]).
Proof. vm_compute. auto 10. Qed.
