(* ===== verification/EngineViews.v ===== *)
(** * Engine v2: the read path

    [database/typeorm-execution-view-store.ts], [execution/execution-query.service.ts] and
    the shapes of [execution/execution-view-store.ts]: listing executions one page at a
    time, and an execution with its steps.

    A query reads one snapshot of the tables, a list of rows in any order.  [ORDER BY] is a
    sort by the named columns and [LIMIT] a prefix.  Times are milliseconds (the columns
    have precision 3) and a request's time strings are already parsed; ids are canonical
    uuid texts, whose order as strings is the order of the [uuid] type.  The order the
    database gives [varchar] columns (its collation) is the parameter [collate_le]. *)

From stdpp Require Import base strings list sorting.
From Stdlib Require Import ZArith Lia.
From S2P Require Import Prelude.
From S2P Require Import EngineTypes.
From S2P Require Import EngineGraph.
From S2P Require Import EngineStore.

(** ** Listing *)

(** A row of [workflow_execution] with the two timestamps the execution path ignores. *)
Record ExecutionRow := {
  execution_row : WorkflowExecution;
  created_at : Z;
  updated_at : Z;
}.

Definition row_id (r : ExecutionRow) : string := ne_id (ex_record (execution_row r)).
Definition row_hostMode (r : ExecutionRow) : string := hostMode (ne_callerContext (ex_record (execution_row r))).

Record ExecutionListItemView := {
  li_id : string;
  li_workflowId : string;
  li_status : ExecutionStatus;
  li_mode : ExecutionMode;
  li_hostMode : string;
  li_createdAt : Z;
  li_updatedAt : Z;
  li_finishedAt : option Z;
}.

(** [before] of a query, and [nextCursor] of an answer. *)
Record Cursor := { c_createdAt : Z; c_id : string }.

(** [workflowIds]: [None] is ['all']. *)
Record ExecutionListQuery := {
  q_workflowIds : option (list string);
  q_status : option (list ExecutionStatus);
  q_hostMode : option string;
  q_createdAfter : option Z;
  q_createdBefore : option Z;
  q_before : option Cursor;
  q_limit : nat;
  q_includeTotal : bool;
  q_top : option ExecutionStatus;
}.

Definition with_before (q : ExecutionListQuery) (c : option Cursor) : ExecutionListQuery := {|
  q_workflowIds := q_workflowIds q; q_status := q_status q; q_hostMode := q_hostMode q;
  q_createdAfter := q_createdAfter q; q_createdBefore := q_createdBefore q; q_before := c;
  q_limit := q_limit q; q_includeTotal := q_includeTotal q; q_top := q_top q |}.

Definition with_limit (q : ExecutionListQuery) (n : nat) : ExecutionListQuery := {|
  q_workflowIds := q_workflowIds q; q_status := q_status q; q_hostMode := q_hostMode q;
  q_createdAfter := q_createdAfter q; q_createdBefore := q_createdBefore q; q_before := q_before q;
  q_limit := n; q_includeTotal := q_includeTotal q; q_top := q_top q |}.

Definition assertPageableOrder (q : ExecutionListQuery) : result unit :=
  match q_before q, q_top q with
  | Some _, Some _ => Err (UnexpectedError "An execution cursor cannot page a status-first sort")
  | _, _ => Ok tt
  end.

(** The conditions [buildListQuery] adds; an empty [hostMode] is falsy and adds none. *)
Definition buildListQuery (q : ExecutionListQuery) (r : ExecutionRow) : bool :=
  match q_workflowIds q with
  | Some ids => bool_decide (ne_workflowId (ex_record (execution_row r)) ∈ ids) | None => true end &&
  match q_status q with Some l => bool_decide (ex_status (execution_row r) ∈ l) | None => true end &&
  match q_hostMode q with
  | Some h => bool_decide (h = EmptyString) || bool_decide (row_hostMode r = h) | None => true end &&
  match q_createdAfter q with Some t => (t <=? created_at r)%Z | None => true end &&
  match q_createdBefore q with Some t => (created_at r <=? t)%Z | None => true end.

(** [(created_at, id) < (:createdAt, :id)]. *)
Definition before_cursor (c : Cursor) (r : ExecutionRow) : Prop :=
  (created_at r < c_createdAt c)%Z \/
  (created_at r = c_createdAt c /\ row_id r ≠ c_id c /\ String.le (row_id r) (c_id c)).

#[export] Instance before_cursor_dec c r : Decision (before_cursor c r).
Proof. unfold before_cursor. apply _. Defined.

Definition below (c : option Cursor) (r : ExecutionRow) : Prop :=
  match c with Some c => before_cursor c r | None => True end.

#[export] Instance below_dec c r : Decision (below c r).
Proof. destruct c; simpl; apply _. Defined.

(** [CASE WHEN execution.status = top THEN 0 ELSE 1 END], without [top] no column. *)
Definition top_rank (top : option ExecutionStatus) (r : ExecutionRow) : Z :=
  match top with
  | Some s => if bool_decide (ex_status (execution_row r) = s) then 0 else 1
  | None => 0
  end%Z.

(** The [ORDER BY] of the list: the rank, then [created_at DESC, id DESC]. *)
Definition list_order (top : option ExecutionStatus) (a b : ExecutionRow) : Prop :=
  (top_rank top a < top_rank top b)%Z \/
  (top_rank top a = top_rank top b /\
   ((created_at b < created_at a)%Z \/ (created_at a = created_at b /\ String.le (row_id b) (row_id a)))).

#[export] Instance list_order_dec top : RelDecision (list_order top).
Proof. unfold RelDecision, list_order. apply _. Defined.

Definition list_item (r : ExecutionRow) : ExecutionListItemView := {|
  li_id := row_id r; li_workflowId := ne_workflowId (ex_record (execution_row r));
  li_status := ex_status (execution_row r); li_mode := ne_mode (ex_record (execution_row r));
  li_hostMode := row_hostMode r; li_createdAt := created_at r; li_updatedAt := updated_at r;
  li_finishedAt := finishedAt (execution_row r) |}.

(** The rows a list query selects, in its order, before [LIMIT]. *)
Definition listed (q : ExecutionListQuery) (t : list ExecutionRow) : list ExecutionRow :=
  merge_sort (list_order (q_top q)) (filter (fun r => buildListQuery q r = true /\ below (q_before q) r) t).

Definition list_rows (q : ExecutionListQuery) (t : list ExecutionRow) : result (list ExecutionRow) :=
  assertPageableOrder q ≫= fun _ => Ok (take (q_limit q) (listed q t)).

Definition listExecutionViews (q : ExecutionListQuery) (t : list ExecutionRow) : result (list ExecutionListItemView) :=
  list_rows q t ≫= fun rows => Ok (map list_item rows).

Definition countExecutionViews (q : ExecutionListQuery) (t : list ExecutionRow) : nat :=
  length (filter (fun r => buildListQuery q r = true) t).

Record SearchResult := {
  items : list ExecutionListItemView;
  nextCursor : option Cursor;
  total : option nat;
}.

(** [searchExecutions]: the two queries may read different snapshots. *)
Definition searchExecutions (q : ExecutionListQuery) (t t_count : list ExecutionRow) : result SearchResult :=
  listExecutionViews (with_limit q (Datatypes.S (q_limit q))) t ≫= fun rows =>
  let page := take (q_limit q) rows in
  Ok {| items := page;
        nextCursor :=
          match last page with
          | Some l => if q_limit q <? length rows
                      then Some {| c_createdAt := li_createdAt l; c_id := li_id l |} else None
          | None => None
          end;
        total := if q_includeTotal q then Some (countExecutionViews q t_count) else None |}.

(** A reader that follows [nextCursor], each page read from a later snapshot: the pages,
    and whether the last one said there is no more. *)
Fixpoint walk (q : ExecutionListQuery) (snapshots : list (list ExecutionRow)) :
    list (list ExecutionListItemView) * bool :=
  match snapshots with
  | [] => ([], false)
  | t :: rest =>
      match searchExecutions q t t with
      | Err _ => ([], false)
      | Ok page =>
          match nextCursor page with
          | None => ([items page], true)
          | Some c => let '(pages, done) := walk (with_before q (Some c)) rest in (items page :: pages, done)
          end
      end
  end.

(** ** An execution with its steps *)

Record StepRow := {
  step_row : StepRecord;
  step_created_at : Z;
  step_updated_at : Z;
}.

Section step_views.
(** The order of a [varchar] column. *)
Context (collate_le : string -> string -> Prop) `{!RelDecision collate_le}.

(** [ORDER BY step.created_at ASC, step.node_id ASC, step.iteration ASC]. *)
Definition step_order (a b : StepRow) : Prop :=
  (step_created_at a < step_created_at b)%Z \/
  (step_created_at a = step_created_at b /\
   let na := sr_nodeId (step_row a) in let nb := sr_nodeId (step_row b) in
   ((collate_le na nb /\ ~ collate_le nb na) \/
    (collate_le na nb /\ collate_le nb na /\ (sr_iteration (step_row a) <= sr_iteration (step_row b))%Z))).

#[export] Instance step_order_dec : RelDecision step_order.
Proof. unfold RelDecision, step_order. simpl. apply _. Defined.

(** [selectExecution]. *)
Definition selectExecution (id : string) (t : list ExecutionRow) : option ExecutionRow :=
  head (filter (fun r => row_id r = id) t).

Definition loadExecutionView (id : string) (t : list ExecutionRow) : result ExecutionRow :=
  match selectExecution id t with Some r => Ok r | None => Err (ExecutionNotFoundError id) end.

(** The row and the aggregate over its steps, [[]] where the left join finds none. *)
Definition loadExecutionWithStepsView (id : string) (t : list ExecutionRow) (ts : list StepRow) :
    result (ExecutionRow * list StepRow) :=
  match selectExecution id t with
  | Some r => Ok (r, merge_sort step_order (filter (fun s => sr_executionId (step_row s) = row_id r) ts))
  | None => Err (ExecutionNotFoundError id)
  end.
End step_views.

(** ** The order of a list *)

(** One item sorts strictly before another: newer, or as old with the larger id. *)
Definition item_newer (a b : ExecutionListItemView) : Prop :=
  (li_createdAt b < li_createdAt a)%Z \/
  (li_createdAt a = li_createdAt b /\ li_id b ≠ li_id a /\ String.le (li_id b) (li_id a)).

Definition row_newer (a b : ExecutionRow) : Prop := item_newer (list_item a) (list_item b).

Definition cursor_at (i : ExecutionListItemView) : Cursor := {| c_createdAt := li_createdAt i; c_id := li_id i |}.

#[export] Instance list_order_total top : Total (list_order top).
Proof.
  intros a b. unfold list_order. destruct (decide (top_rank top a = top_rank top b)); [|lia].
  destruct (decide (created_at a = created_at b)); [|lia].
  destruct (String.le_total (row_id b) (row_id a)); [left|right]; right; split; auto.
Qed.

#[export] Instance list_order_trans top : Transitive (list_order top).
Proof.
  intros a b c [?|(? & [?|(? & ?)])] [?|(? & [?|(? & ?)])]; unfold list_order; try lia.
  right. split; [lia|]. right. split; [lia|]. by etrans.
Qed.

#[export] Instance item_newer_trans : Transitive item_newer.
Proof.
  intros a b c [?|(? & Hn & Hle)] [?|(? & Hn' & Hle')]; unfold item_newer; try lia.
  right. split; [lia|]. split; [|by etrans]. intros Heq. rewrite Heq in *. apply Hn'. by apply (anti_symm String.le).
Qed.

Lemma item_newer_irrefl (i : ExecutionListItemView) : ~ item_newer i i.
Proof. intros [?|(_ & ? & _)]; [lia|done]. Qed.

(** On rows with different ids the list's order is strict. *)
Lemma listed_newer (l : list ExecutionRow) :
  NoDup (map row_id l) -> StronglySorted (list_order None) l -> StronglySorted row_newer l.
Proof.
  induction l as [|a l IH]; simpl; [constructor|]. intros [Ha Hn]%NoDup_cons Hs.
  apply StronglySorted_cons in Hs as [Hf Hs]. constructor; [by apply IH|].
  apply Forall_forall. intros b Hb. rewrite Forall_forall in Hf. specialize (Hf b Hb).
  destruct Hf as [Hr|(_ & [?|(? & ?)])]; [simpl in Hr; lia|by left|]. right. split; [done|]. split; [|done].
  simpl. intros Heq. apply Ha. rewrite <-Heq. by apply list_elem_of_fmap_2.
Qed.

Lemma listed_elem (q : ExecutionListQuery) (t : list ExecutionRow) (r : ExecutionRow) :
  r ∈ listed q t <-> r ∈ t /\ buildListQuery q r = true /\ below (q_before q) r.
Proof. unfold listed. rewrite merge_sort_Permutation, list_elem_of_filter. tauto. Qed.

Lemma listed_sorted (q : ExecutionListQuery) (t : list ExecutionRow) :
  q_top q = None -> NoDup (map row_id t) -> StronglySorted row_newer (listed q t).
Proof.
  intros Hq Hn. apply listed_newer.
  - unfold listed. rewrite merge_sort_Permutation.
    eapply sublist_NoDup; [exact Hn|]. apply fmap_sublist, sublist_filter.
  - unfold listed. rewrite Hq. apply StronglySorted_merge_sort; apply _.
Qed.

(** ** One page *)

Lemma list_rows_ok (q : ExecutionListQuery) (t : list ExecutionRow) :
  q_top q = None -> list_rows q t = Ok (take (q_limit q) (listed q t)).
Proof. intros Hq. unfold list_rows, assertPageableOrder. rewrite Hq. by destruct (q_before q). Qed.

(** What [searchExecutions] answers without a status-first order. *)
Lemma search_page (q : ExecutionListQuery) (t t' : list ExecutionRow) :
  q_top q = None ->
  exists c, searchExecutions q t t' = Ok {|
    items := map list_item (take (q_limit q) (listed q t)); nextCursor := c;
    total := if q_includeTotal q then Some (countExecutionViews q t') else None |} /\
  match c with
  | None => q_limit q = 0 \/ length (listed q t) <= q_limit q
  | Some c => exists x front back,
      listed q t = front ++ x :: back /\ q_limit q = length front + 1 /\ c = cursor_at (list_item x)
  end.
Proof.
  intros Hq. unfold searchExecutions, listExecutionViews.
  rewrite (list_rows_ok (with_limit q _)) by done. simpl.
  change (listed (with_limit q _) t) with (listed q t). set (l := listed q t). set (n := q_limit q).
  rewrite <-fmap_take, take_take, Nat.min_l by lia. eexists. split; [reflexivity|].
  change (list_item <$> take n l) with (map list_item (take n l)).
  destruct (last (map list_item (take n l))) as [i|] eqn:Hl.
  - rewrite length_map, length_take. destruct (n <? _) eqn:Hc; [|apply Nat.ltb_ge in Hc; lia].
    apply Nat.ltb_lt in Hc. assert (Hlt : n < length l) by lia. clear Hc. apply last_Some in Hl as [m Hm].
    apply fmap_app_inv in Hm as (front & xs & -> & Hxs & Htake).
    destruct xs as [|x []]; simplify_eq/=. exists x, front, (drop n l). split_and!; [|  |done].
    + by rewrite cons_middle, app_assoc, <-Htake, take_drop.
    + apply (f_equal length) in Htake. rewrite length_take, length_app in Htake. simpl in Htake. lia.
  - apply last_None in Hl. apply (f_equal length) in Hl. rewrite length_map, length_take in Hl. simpl in Hl. lia.
Qed.

Lemma search_error (q : ExecutionListQuery) (t t' : list ExecutionRow) (c : Cursor) (s : ExecutionStatus) :
  q_before q = Some c -> q_top q = Some s ->
  searchExecutions q t t' = Err (UnexpectedError "An execution cursor cannot page a status-first sort").
Proof.
  intros Hc Hs. unfold searchExecutions, listExecutionViews, list_rows, assertPageableOrder. simpl.
  by rewrite Hc, Hs.
Qed.

(** ** The pages *)

(** Splitting a list at the row a cursor names: what comes before it is newer, what comes
    after it is below the cursor. *)
Lemma cursor_splits (q : ExecutionListQuery) (t : list ExecutionRow) (x : ExecutionRow) (front back : list ExecutionRow) :
  q_top q = None -> NoDup (map row_id t) -> listed q t = front ++ x :: back ->
  forall r, r ∈ listed q t -> r ∈ front ++ [x] \/ before_cursor (cursor_at (list_item x)) r.
Proof.
  intros Hq Hn Hl r Hr. pose proof (listed_sorted q t Hq Hn) as Hs. rewrite Hl in Hs, Hr.
  rewrite cons_middle, app_assoc in Hr. apply elem_of_app in Hr as [Hr|Hr]; [by left|right].
  apply StronglySorted_app_1_r in Hs. apply StronglySorted_cons in Hs as [Hf _].
  rewrite Forall_forall in Hf. destruct (Hf r Hr) as [?|(? & ? & ?)]; [by left|right; simpl in *; split_and!; congruence].
Qed.

(** What holds of the pages a reader collects. *)
Record Pages (q : ExecutionListQuery) (snapshots : list (list ExecutionRow))
    (pages : list (list ExecutionListItemView)) : Prop := {
  pg_sorted : StronglySorted item_newer (concat pages);
  pg_limit : Forall (fun p => length p <= q_limit q) pages;
  pg_complete : forall r, (forall t, t ∈ snapshots -> r ∈ t) -> buildListQuery q r = true ->
    below (q_before q) r -> list_item r ∈ concat pages;
  pg_sound : forall i, i ∈ concat pages -> exists t r, t ∈ snapshots /\ r ∈ t /\
    buildListQuery q r = true /\ below (q_before q) r /\ list_item r = i;
}.

Lemma before_cursor_newer (i : ExecutionListItemView) (r : ExecutionRow) :
  before_cursor (cursor_at i) r <-> item_newer i (list_item r).
Proof. unfold before_cursor, item_newer. simpl. intuition congruence. Qed.

Lemma listed_items_sorted (q : ExecutionListQuery) (t : list ExecutionRow) :
  q_top q = None -> NoDup (map row_id t) -> StronglySorted item_newer (map list_item (listed q t)).
Proof.
  intros Hq Ht. pose proof (listed_sorted q t Hq Ht) as Hs.
  induction Hs as [|x l Hs IHs Hf]; simpl; constructor; [done|]. by apply Forall_fmap.
Qed.

Lemma below_newer (c : Cursor) (x r : ExecutionRow) :
  before_cursor c x -> item_newer (list_item x) (list_item r) -> before_cursor c r.
Proof.
  set (i := {| li_id := c_id c; li_workflowId := EmptyString; li_status := ex_queued; li_mode := manual;
               li_hostMode := EmptyString; li_createdAt := c_createdAt c; li_updatedAt := 0; li_finishedAt := None |}).
  assert (Hc : c = cursor_at i) by by destruct c. rewrite Hc, !before_cursor_newer. intros. by etrans.
Qed.

Lemma walk_pages (snapshots : list (list ExecutionRow)) (q : ExecutionListQuery) (pages : list (list ExecutionListItemView)) :
  q_top q = None -> 0 < q_limit q -> (forall t, t ∈ snapshots -> NoDup (map row_id t)) ->
  walk q snapshots = (pages, true) -> Pages q snapshots pages.
Proof.
  revert q pages. induction snapshots as [|t rest IH]; intros q pages Hq Hlim Hnd; simpl; [done|].
  assert (Ht : NoDup (map row_id t)) by (apply Hnd; by left).
  pose proof (listed_items_sorted q t Hq Ht) as Hitems.
  destruct (search_page q t t Hq) as (c & -> & Hc). simpl. destruct c as [c|].
  - destruct Hc as (x & front & back & Hl & Hlen & ->).
    destruct (walk _ rest) as [pages' d] eqn:Hw. intros [= <- ->].
    assert (Htake : take (q_limit q) (listed q t) = front ++ [x]).
    { rewrite Hl, Hlen, cons_middle, app_assoc, take_app_length'; [done|]. by rewrite length_app. }
    destruct (IH (with_before q (Some (cursor_at (list_item x)))) pages') as [Hsort Hlim' Hcomp Hsound]; try done.
    { intros t' Ht'. apply Hnd. by right. }
    rewrite Htake. split; simpl.
    + apply StronglySorted_app_2; [| |done].
      * intros a b Ha Hb. apply Hsound in Hb as (_ & r & _ & _ & _ & Hb & <-). apply before_cursor_newer in Hb.
        rewrite Hl, cons_middle, app_assoc, map_app in Hitems. apply StronglySorted_app_1_l in Hitems.
        rewrite map_app in Hitems, Ha. simpl in *.
        apply elem_of_app in Ha as [Ha|Ha%list_elem_of_singleton]; [|by subst].
        etrans; [|exact Hb]. eapply (StronglySorted_app_1_elem_of _ _ _ _ _ Hitems Ha). by left.
      * rewrite Hl, cons_middle, app_assoc, map_app in Hitems. by apply StronglySorted_app_1_l in Hitems.
    + constructor; [|done]. rewrite length_map, length_app. simpl. lia.
    + intros r Hr Hb Hbel. apply elem_of_app. assert (Hrl : r ∈ listed q t).
      { apply listed_elem. split_and!; try done. apply Hr. by left. }
      destruct (cursor_splits q t x front back Hq Ht Hl r Hrl) as [Hin|Hcur].
      * left. by apply list_elem_of_fmap_2.
      * right. apply Hcomp; try done. intros t' Ht'. apply Hr. by right.
    + intros i [Hi|Hi]%elem_of_app.
      * apply list_elem_of_fmap in Hi as (r & -> & Hr). rewrite cons_middle, app_assoc in Hl.
        assert (Hrl : r ∈ listed q t) by (rewrite Hl; apply elem_of_app; by left).
        apply listed_elem in Hrl as (? & ? & ?). exists t, r. split_and!; try done. by left.
      * apply Hsound in Hi as (t' & r & Ht' & Hr & Hb & Hbel & <-). exists t', r. split_and!; try done.
        { by right. }
        simpl in Hbel. apply before_cursor_newer in Hbel. simpl in *.
        assert (Hx : x ∈ listed q t) by (rewrite Hl; apply elem_of_app; right; by left).
        apply listed_elem in Hx as (_ & _ & Hx). destruct (q_before q) as [c|]; [|done]. by eapply below_newer.
  - intros [= <-]. assert (Htake : take (q_limit q) (listed q t) = listed q t).
    { apply take_ge. lia. }
    rewrite Htake. split; simpl; rewrite ?app_nil_r; try done.
    + constructor; [|done]. rewrite length_map. lia.
    + intros r Hr Hb Hbel. apply list_elem_of_fmap_2, listed_elem. split_and!; try done. apply Hr. by left.
    + intros i Hi. apply list_elem_of_fmap in Hi as (r & -> & (? & ? & ?)%listed_elem).
      exists t, r. split_and!; try done. by left.
Qed.

Lemma strictly_sorted_NoDup {A} (R : relation A) `{!Transitive R} (l : list A) :
  (forall x, ~ R x x) -> StronglySorted R l -> NoDup l.
Proof.
  intros Hirr Hs. induction Hs as [|x l Hs IH Hf]; constructor; [|done].
  intros Hx. rewrite Forall_forall in Hf. by apply (Hirr x), Hf.
Qed.

(** Two strictly sorted lists with the same elements are the same list. *)
Lemma strictly_sorted_eq {A} (R : relation A) `{!Transitive R} (l k : list A) :
  (forall x, ~ R x x) -> StronglySorted R l -> StronglySorted R k -> (forall x, x ∈ l <-> x ∈ k) -> l = k.
Proof.
  intros Hirr Hl Hk Heq. apply (StronglySorted_unique_strong R); try done.
  - intros x y _ _ Hxy Hyx. destruct (Hirr x). by etrans.
  - apply NoDup_Permutation; [eapply (strictly_sorted_NoDup R); done..|done].
Qed.

Lemma walk_ends (n : nat) (q : ExecutionListQuery) (t : list ExecutionRow) :
  q_top q = None -> 0 < q_limit q -> NoDup (map row_id t) -> length (listed q t) <= n ->
  snd (walk q (replicate (Datatypes.S n) t)) = true.
Proof.
  revert q. induction n as [|n IH]; intros q Hq Hlim Ht Hn; rewrite replicate_S; simpl;
    destruct (search_page q t t Hq) as (c & -> & Hc); simpl; destruct c as [c|]; try done.
  - destruct Hc as (x & front & back & Hl & _). rewrite Hl, length_app in Hn. simpl in Hn. lia.
  - destruct Hc as (x & front & back & Hl & Hlen & ->).
    set (q' := with_before q (Some (cursor_at (list_item x)))).
    assert (Hle : length (listed q' t) <= n).
    { assert (Hsub : listed q' t ⊆+ back).
      { apply NoDup_submseteq.
        - eapply NoDup_fmap_1, (strictly_sorted_NoDup item_newer); [apply item_newer_irrefl|].
          by apply (listed_items_sorted q').
        - intros r (Hr & Hb & Hbel)%listed_elem. simpl in Hbel.
          assert (Hx : x ∈ listed q t) by (rewrite Hl; apply elem_of_app; right; by left).
          apply listed_elem in Hx as (_ & _ & Hx). apply before_cursor_newer in Hbel.
          assert (Hrl : r ∈ listed q t).
          { apply listed_elem. split_and!; try done. destruct (q_before q); [by eapply below_newer|done]. }
          pose proof (listed_sorted q t Hq Ht) as Hs. rewrite Hl in Hs, Hrl.
          rewrite cons_middle, app_assoc in Hs, Hrl. apply elem_of_app in Hrl as [Hrl|]; [|done]. exfalso.
          apply StronglySorted_app_1_l in Hs. apply elem_of_app in Hrl as [Hrl|Hrl%list_elem_of_singleton].
          + apply (item_newer_irrefl (list_item r)). etrans; [|exact Hbel].
            eapply (StronglySorted_app_1_elem_of _ _ _ _ _ Hs Hrl). by left.
          + subst r. by apply (item_newer_irrefl (list_item x)). }
      apply submseteq_length in Hsub. rewrite Hl, length_app in Hn. simpl in Hn. lia. }
    specialize (IH q' Hq Hlim Ht Hle). rewrite replicate_S in IH. simpl in IH. simpl.
    change (replicate n t) with (replicate n t) in *. destruct (walk q' (t :: replicate n t)) as [pages d] eqn:Hw.
    simpl in Hw. rewrite Hw in IH. rewrite Hw. done.
Qed.

(** ** Properties *)

(** Paging neither repeats nor skips: a reader who follows [nextCursor] to the end,
    each page read from whatever the tables hold by then, gets pages of at most [limit]
    items, strictly from newest to oldest across all of them (so no execution twice);
    every item is an execution that matches the query; and every execution that matches
    it throughout is reported. *)
Lemma paging_reports_each_execution_once (q : ExecutionListQuery) (snapshots : list (list ExecutionRow))
    (pages : list (list ExecutionListItemView)) :
  q_top q = None -> 0 < q_limit q -> (forall t, t ∈ snapshots -> NoDup (map row_id t)) ->
  walk q snapshots = (pages, true) ->
  StronglySorted item_newer (concat pages) /\ NoDup (concat pages) /\
  Forall (fun p => length p <= q_limit q) pages /\
  (forall i, i ∈ concat pages -> exists t r, t ∈ snapshots /\ r ∈ t /\ buildListQuery q r = true /\ list_item r = i) /\
  (forall r, (forall t, t ∈ snapshots -> r ∈ t) -> buildListQuery q r = true -> below (q_before q) r ->
     list_item r ∈ concat pages).
Proof.
  intros Hq Hlim Hnd Hw. destruct (walk_pages snapshots q pages Hq Hlim Hnd Hw) as [Hs Hl Hc Hd]. split_and!; try done.
  - eapply (strictly_sorted_NoDup item_newer); [apply item_newer_irrefl|done].
  - intros i Hi. destruct (Hd i Hi) as (t & r & ? & ? & ? & _ & ?). eauto 10.
Qed.

(** Paging ends, with exactly the list: over a table that does not change, following
    [nextCursor] comes to an end within one page per listed execution and one more, and
    the pages put together are the whole list of the query, in its order. *)
Lemma paging_ends_with_the_list (q : ExecutionListQuery) (t : list ExecutionRow) (n : nat) :
  q_top q = None -> 0 < q_limit q -> NoDup (map row_id t) -> length (listed q t) <= n ->
  snd (walk q (replicate (Datatypes.S n) t)) = true /\
  concat (fst (walk q (replicate (Datatypes.S n) t))) = map list_item (listed q t).
Proof.
  intros Hq Hlim Ht Hn. pose proof (walk_ends n q t Hq Hlim Ht Hn) as Hd. split; [done|].
  destruct (walk q _) as [pages d] eqn:Hw. simpl in Hd. subst d. simpl.
  assert (Hall : forall t', t' ∈ replicate (Datatypes.S n) t -> t' = t) by by intros t' [-> _]%elem_of_replicate.
  destruct (walk_pages _ q pages Hq Hlim (fun t' Ht' => eq_ind_r (fun x => NoDup (map row_id x)) Ht (Hall t' Ht')) Hw)
    as [Hs _ Hc Hd].
  apply (strictly_sorted_eq item_newer); [apply item_newer_irrefl|done|by apply listed_items_sorted|].
  intros i. split.
  - intros Hi. destruct (Hd i Hi) as (t' & r & Ht' & Hr & Hb & Hbel & <-). apply Hall in Ht' as ->.
    by apply list_elem_of_fmap_2, listed_elem.
  - intros (r & -> & (Hr & Hb & Hbel)%listed_elem)%list_elem_of_fmap. apply Hc; try done.
    by intros t' ->%Hall.
Qed.

Section step_view_order.
Context (collate_le : string -> string -> Prop) `{!RelDecision collate_le}.

#[export] Instance step_order_total `{!Total collate_le} : Total (step_order collate_le).
Proof.
  intros a b. unfold step_order. set (na := sr_nodeId (step_row a)). set (nb := sr_nodeId (step_row b)).
  destruct (decide (collate_le na nb)), (decide (collate_le nb na)); destruct (base.total collate_le na nb); try done;
    destruct (Z.lt_trichotomy (step_created_at a) (step_created_at b)) as [?|[?|?]]; try (by auto);
    destruct (Z.le_ge_cases (sr_iteration (step_row a)) (sr_iteration (step_row b))); simpl; auto 10.
Qed.

(** An execution is read with exactly its own steps, oldest first: the answer is the
    row with the id asked for, or the not-found error when there is none; the steps are
    those of the execution, each as often as the table holds it, sorted by the query's
    order, which never puts a newer step before an older one. *)
Lemma view_holds_the_executions_steps `{!Total collate_le} (id : string) (t : list ExecutionRow) (ts : list StepRow) :
  match loadExecutionWithStepsView collate_le id t ts with
  | Ok (r, ss) =>
      row_id r = id /\ r ∈ t /\ ss ≡ₚ filter (fun s => sr_executionId (step_row s) = id) ts /\
      Sorted (step_order collate_le) ss /\ Sorted (fun a b => (step_created_at a <= step_created_at b)%Z) ss
  | Err e => e = ExecutionNotFoundError id /\ (forall r, r ∈ t -> row_id r <> id)
  end.
Proof.
  unfold loadExecutionWithStepsView, selectExecution.
  destruct (head (filter _ t)) as [r|] eqn:Hh.
  - assert (Hr : r ∈ filter (fun r => row_id r = id) t).
    { destruct (filter _ t) as [|r' l]; simplify_eq/=. by left. }
    apply list_elem_of_filter in Hr as [<- Hr].
    assert (Hs : Sorted (step_order collate_le)
                   (merge_sort (step_order collate_le) (filter (fun s => sr_executionId (step_row s) = row_id r) ts)))
      by apply Sorted_merge_sort, _.
    split_and!; [done|done|apply merge_sort_Permutation|done|].
    induction Hs as [|x l Hs IH Hx]; constructor; [done|].
    destruct Hx as [|y l Hx]; constructor. destruct Hx as [?|[? _]]; lia.
  - split; [done|]. intros r Hr Hid. assert (Hin : r ∈ filter (fun r => row_id r = id) t).
    { by apply list_elem_of_filter. }
    destruct (filter _ t); [by apply not_elem_of_nil in Hin|done].
Qed.
End step_view_order.

(** ** Concrete tables *)

Definition sample_row (id : string) (status : ExecutionStatus) (created : Z) : ExecutionRow := {|
  execution_row := {|
    ex_record := {| ne_id := id; ne_workflowId := "wf"; ne_status := ex_queued; ne_mode := production;
      ne_graph := {| nodes := []; edges := [] |}; ne_workflow := JObj []; ne_triggerOutputs := None;
      ne_callerContext := {| userId := None; projectId := None; hostMode := "webhook" |} |};
    ex_status := status; finishedAt := None |};
  created_at := created; updated_at := created |}.

Definition sample_query : ExecutionListQuery := {|
  q_workflowIds := Some ["wf"]; q_status := None; q_hostMode := None; q_createdAfter := None;
  q_createdBefore := None; q_before := None; q_limit := 2; q_includeTotal := true; q_top := None |}.

Definition sample_table : list ExecutionRow :=
  [sample_row "a" ex_running 1; sample_row "b" ex_failed 2; sample_row "c" ex_running 2; sample_row "d" ex_queued 3].
(** A new execution lands on top, and one page's execution has ended meanwhile. *)
Definition sample_later : list ExecutionRow :=
  [sample_row "a" ex_running 1; sample_row "b" ex_failed 2; sample_row "c" ex_completed 2; sample_row "d" ex_queued 3;
   sample_row "e" ex_queued 4].

Lemma paging_reports_each_execution_once_witness :
  fst (walk sample_query [sample_table; sample_later]) =
    [[list_item (sample_row "d" ex_queued 3); list_item (sample_row "c" ex_running 2)];
     [list_item (sample_row "b" ex_failed 2); list_item (sample_row "a" ex_running 1)]] /\
  NoDup (concat (fst (walk sample_query [sample_table; sample_later]))) /\
  list_item (sample_row "a" ex_running 1) ∈ concat (fst (walk sample_query [sample_table; sample_later])).
Proof.
  split; [vm_compute; reflexivity|].
  assert (Hnd : forall t, t ∈ [sample_table; sample_later] -> NoDup (map row_id t)).
  { intros t Ht. apply elem_of_cons in Ht as [->|Ht]; [|apply list_elem_of_singleton in Ht as ->];
      (refine (bool_decide_unpack _ _); vm_compute; exact I). }
  destruct (paging_reports_each_execution_once sample_query [sample_table; sample_later]
              (fst (walk sample_query [sample_table; sample_later])) eq_refl ltac:(simpl; lia) Hnd
              ltac:(vm_compute; reflexivity)) as (_ & Hn & _ & _ & Hc).
  split; [exact Hn|]. apply Hc; [|reflexivity|exact I].
  intros t Ht. apply elem_of_cons in Ht as [->|Ht]; [|apply list_elem_of_singleton in Ht as ->]; left.
Defined.

Lemma paging_ends_with_the_list_witness :
  length (listed sample_query sample_table) = 4 /\
  snd (walk sample_query (replicate 5 sample_table)) = true /\
  concat (fst (walk sample_query (replicate 5 sample_table))) = map list_item (listed sample_query sample_table).
Proof.
  split; [vm_compute; reflexivity|].
  apply (paging_ends_with_the_list sample_query sample_table 4); [reflexivity|simpl; lia| |vm_compute; lia].
  refine (bool_decide_unpack _ _). vm_compute. exact I.
Defined.

Lemma view_holds_the_executions_steps_witness :
  loadExecutionWithStepsView String.le "z" sample_table [] = Err (ExecutionNotFoundError "z") /\
  (forall r, r ∈ sample_table -> row_id r <> "z").
Proof.
  split; [vm_compute; reflexivity|].
  exact (proj2 (view_holds_the_executions_steps String.le "z" sample_table [])).
Defined.
