(* ===== verification/Workflow.v ===== *)
(** * The workflow object: nodes, connections and their queries

    [packages/workflow/src/workflow.ts] and [common/]: what the v1 execution engine asks of
    a [Workflow]: its connections by source and, inverted, by destination; the nodes before
    and after a node; the highest nodes above an input.

    A JavaScript object used as a map is an association list in insertion order (a node
    whose name is an array index, which JavaScript lists first, is not modelled).  A node
    object is shared by everything that refers to it, so it is a reference into a heap. *)

From stdpp Require Import base gmap strings pretty list fin_maps relations.
From Stdlib Require Import ZArith QArith_base Lia.
From S2P Require Import Prelude.
From S2P Require Import JsCollections.
From S2P Require Import EngineTypes.

#[local] Close Scope Q_scope.

(** ** Data *)

(** [INode], without what only the node's own code reads. *)
Record INode := {
  nd_name : string;
  nd_type : string;
  nd_position : Z * Z;
  nd_disabled : option bool;
  nd_retryOnFail : bool;
  (* numbers, which need not be whole *)
  nd_maxTries : option Q;
  nd_waitBetweenTries : option Q;
  nd_alwaysOutputData : bool;
  nd_executeOnce : bool;
  nd_onError : option string;
  nd_continueOnFail : bool;
  nd_rewireOutputLogTo : option string;
}.

Record IConnection := { ic_node : string; ic_type : string; ic_index : nat }.

#[export] Instance IConnection_eq_dec : EqDecision IConnection.
Proof. solve_decision. Defined.

(** The connections of one type, by output (or input) index; an index may hold [null]. *)
Notation NodeInputConnections := (list (option (list IConnection))).
Notation INodeConnections := (list (string * NodeInputConnections)).
Notation IConnections := (list (string * INodeConnections)).

Definition Main : string := "main".

(** [arr[index] ?? []]. *)
Definition at_output (l : NodeInputConnections) (i : nat) : list IConnection := default [] (mjoin (l !! i)).

(** [connections[node]?.[type] ?? []]. *)
Definition of_type (cs : IConnections) (node type : string) : NodeInputConnections :=
  default [] (map_get node cs ≫= map_get type).

(** ** By destination *)

(** [m[k] = f(m[k])], [m[k]] being [d] where it is not there yet. *)
Definition map_update {V} (k : string) (d : V) (f : V -> V) (m : list (string * V)) : list (string * V) :=
  map_set k (f (default d (map_get k m))) m.

(** Pushing [[]] until there is an entry at [i]. *)
Definition pad (i : nat) (l : NodeInputConnections) : NodeInputConnections :=
  l ++ replicate (S i - length l) (Some []).

Definition push_at (i : nat) (c : IConnection) (l : NodeInputConnections) : NodeInputConnections :=
  alter (fmap (fun cs => cs ++ [c])) i (pad i l).

(** The body of the innermost loop of [mapConnectionsByDestination]. *)
Definition add_incoming (sourceNode type : string) (outputIndex : nat) (acc : IConnections) (info : IConnection) : IConnections :=
  map_update (ic_node info) []
    (map_update (ic_type info) []
       (push_at (ic_index info) {| ic_node := sourceNode; ic_type := type; ic_index := outputIndex |})) acc.

(** Every connection with where it starts, in the order of the loops. *)
Definition outgoing (connections : IConnections) : list (string * string * nat * IConnection) :=
  '(sourceNode, byType) ← connections; '(type, byIndex) ← byType;
  '(outputIndex, cs) ← imap pair byIndex; c ← default [] cs; [(sourceNode, type, outputIndex, c)].

Definition mapConnectionsByDestination (connections : IConnections) : IConnections :=
  foldl (fun acc '(sourceNode, type, outputIndex, c) => add_incoming sourceNode type outputIndex acc c) [] (outgoing connections).

(** ** The workflow *)

Record Workflow := {
  (* [nodes], each a reference *)
  wf_nodes : list (string * nat);
  connectionsBySourceNode : IConnections;
  connectionsByDestinationNode : IConnections;
  executionOrder : option string;
}.

(** [new Workflow], its nodes at the references of their positions. *)
Definition new_workflow (nodes : list INode) (connections : IConnections) (order : option string) : Workflow :=
  {| wf_nodes := foldl (fun m '(i, n) => map_set (nd_name n) i m) [] (imap pair nodes);
     connectionsBySourceNode := connections;
     connectionsByDestinationNode := mapConnectionsByDestination connections;
     executionOrder := order |}.

(** ** Connected nodes *)

Inductive ConnectionKind := OfType (type : string) | ALL | ALL_NON_MAIN.

Definition kind_types (kind : ConnectionKind) (byType : INodeConnections) : list string :=
  match kind with
  | OfType type => [type]
  | ALL => byType.*1
  | ALL_NON_MAIN => filter (fun t => t <> Main) byType.*1
  end.

(** The connections followed from a node, in order. *)
Definition followed (kind : ConnectionKind) (byType : INodeConnections) : list IConnection :=
  type ← kind_types kind byType; cs ← default [] (map_get type byType); default [] cs.

(** [splice(indexOf(x), 1)], and moving to the front. *)
Fixpoint remove_first (x : string) (l : list string) : list string :=
  match l with [] => [] | y :: l' => if decide (y = x) then l' else y :: remove_first x l' end.

Definition move_to_front (x : string) (l : list string) : list string := x :: remove_first x l.

Notation Memo := (list ((Z * string) * list string)).

Section Connected.
Context (connections : IConnections) (kind : ConnectionKind).

(** [collectConnectedNodes]; [currentPath] is as it was when a call returns.  [None]: out of
    fuel. *)
Fixpoint collectConnectedNodes (fuel : nat) (nodeName : string) (depth : Z) (currentPath : list string) (memo : Memo) :
    option (list string * Memo) :=
  match fuel with
  | O => None
  | S fuel =>
      if (depth =? 0)%Z then Some ([], memo)
      else
        match map_get nodeName connections with
        | None => Some ([], memo)
        | Some byType =>
            match map_get (depth, nodeName) memo with
            | Some cached => Some (cached, memo)
            | None =>
                let newDepth := (if depth =? -1 then depth else depth - 1)%Z in
                let path := nodeName :: currentPath in
                foldM (fun '(returnNodes, memo) connection =>
                         if bool_decide (ic_node connection ∈ path) then Some (returnNodes, memo)
                         else
                           let returnNodes := move_to_front (ic_node connection) returnNodes in
                           match collectConnectedNodes fuel (ic_node connection) newDepth path memo with
                           | Some (addNodes, memo) => Some (foldr move_to_front returnNodes addNodes, memo)
                           | None => None
                           end) ([], memo) (followed kind byType)
                ≫= fun '(returnNodes, memo) => Some (returnNodes, map_set (depth, nodeName) returnNodes memo)
            end
        end
  end.

(** A path of calls does not repeat a node that has connections. *)
Definition getConnectedNodes (nodeName : string) (depth : Z) : list string :=
  default [] (fst <$> collectConnectedNodes (S (S (length connections))) nodeName depth [] []).

End Connected.

Definition getChildNodes (w : Workflow) (nodeName : string) : list string :=
  getConnectedNodes (connectionsBySourceNode w) (OfType Main) nodeName (-1).

Definition getParentNodes (w : Workflow) (nodeName : string) : list string :=
  getConnectedNodes (connectionsByDestinationNode w) (OfType Main) nodeName (-1).

(** [getParentNodes(nodeName, 'ALL_NON_MAIN')]. *)
Definition getNonMainParentNodes (w : Workflow) (nodeName : string) : list string :=
  getConnectedNodes (connectionsByDestinationNode w) ALL_NON_MAIN nodeName (-1).

(** ** The highest nodes *)

Section Highest.
Context (w : Workflow) (heap : nat -> INode).

Definition getNode (nodeName : string) : option INode := heap <$> map_get nodeName (wf_nodes w).

Definition is_disabled (nodeName : string) : option bool := getNode nodeName ≫= nd_disabled.

(** [getHighestNode], [checkedNodes] shared by all its calls. *)
Fixpoint highest (fuel : nat) (nodeName : string) (nodeConnectionIndex : option nat) (checkedNodes : list string) :
    option (list string * list string) :=
  match fuel with
  | O => None
  | S fuel =>
      match getNode nodeName with
      | None => Some ([], checkedNodes)
      | Some node =>
          let currentHighest := if bool_decide (nd_disabled node = Some false) then [nodeName] else [] in
          match map_get nodeName (connectionsByDestinationNode w) ≫= map_get Main with
          | None => Some (currentHighest, checkedNodes)
          | Some inputs =>
              if bool_decide (nodeName ∈ checkedNodes) then Some (currentHighest, checkedNodes)
              else
                let above := '(i, cs) ← imap pair inputs;
                             if (match nodeConnectionIndex with Some j => bool_decide (j <> i) | None => false end) then []
                             else default [] cs in
                foldM (fun '(returnNodes, checked) connection =>
                         if bool_decide (ic_node connection ∈ checked) then Some (returnNodes, checked)
                         else
                           match getNode (ic_node connection) with
                           | None => Some (returnNodes, checked)
                           | Some parent =>
                               match highest fuel (ic_node connection) None checked with
                               | None => None
                               | Some (addNodes, checked) =>
                                   let addNodes := match addNodes with
                                                   | [] => if bool_decide (nd_disabled parent = Some true) then [] else [ic_node connection]
                                                   | _ => addNodes
                                                   end in
                                   Some (foldl set_add returnNodes addNodes, checked)
                               end
                           end) ([], checkedNodes ++ [nodeName]) above
          end
      end
  end.

Definition getHighestNode (nodeName : string) (nodeConnectionIndex : option nat) : list string :=
  default [] (fst <$> highest (S (S (length (connectionsByDestinationNode w)))) nodeName nodeConnectionIndex []).

End Highest.

(** ** The workflow object: its queries are what they say

    The connections by destination are the connections by source inverted, in order.  The
    connected nodes of a node are the nodes reachable from it but itself, each once,
    whatever the cycles, with the cache the code keeps. *)

(** ** By destination *)

Lemma map_get_update {V} (k k' : string) (d : V) (f : V -> V) m :
  map_get k' (map_update k d f m) = if decide (k = k') then Some (f (default d (map_get k m))) else map_get k' m.
Proof. unfold map_update. by rewrite map_get_set. Qed.

Lemma at_output_pad i j l : at_output (pad i l) j = at_output l j.
Proof.
  unfold at_output, pad. destruct (decide (j < length l)) as [Hj|Hj]; [by rewrite lookup_app_l|].
  rewrite lookup_app_r by lia. rewrite (lookup_ge_None_2 l) by lia.
  destruct (replicate _ _ !! _) as [x|] eqn:Hx; [|done]. by apply lookup_replicate in Hx as [-> _].
Qed.

Lemma length_pad i l : length (pad i l) = max (length l) (S i).
Proof. unfold pad. rewrite length_app, length_replicate. lia. Qed.

Definition no_hole (l : NodeInputConnections) : Prop := Forall (fun x => x <> None) l.

Lemma no_hole_pad i l : no_hole l -> no_hole (pad i l).
Proof. intros Hl. apply Forall_app. split; [done|]. by apply Forall_replicate. Qed.

Lemma at_output_push i c l j : no_hole l -> at_output (push_at i c l) j = at_output l j ++ (if decide (i = j) then [c] else []).
Proof.
  intros Hl. unfold push_at. rewrite <-(at_output_pad i j l). set (l' := pad i l).
  assert (Hlt : i < length l') by (unfold l'; rewrite length_pad; lia).
  assert (Hn : no_hole l') by (by apply no_hole_pad). clearbody l'. unfold at_output. case_decide as Hij.
  - subst j. rewrite list_lookup_alter_eq. apply lookup_lt_is_Some in Hlt as [x Hx]. rewrite Hx. simpl.
    destruct x as [cs|]; [done|]. exfalso. unfold no_hole in Hn. rewrite Forall_lookup in Hn. by apply (Hn i None).
  - rewrite list_lookup_alter_ne by done. by rewrite app_nil_r.
Qed.

Lemma length_push i c l : length (push_at i c l) = max (length l) (S i).
Proof. unfold push_at. by rewrite length_alter, length_pad. Qed.

Lemma no_hole_push i c l : no_hole l -> no_hole (push_at i c l).
Proof. intros Hl. apply Forall_alter; [by apply no_hole_pad|]. intros x _ Hx. by destruct x. Qed.

Lemma of_type_incoming s t o acc c m t' :
  of_type (add_incoming s t o acc c) m t' =
  if decide (ic_node c = m /\ ic_type c = t')
  then push_at (ic_index c) {| ic_node := s; ic_type := t; ic_index := o |} (of_type acc m t') else of_type acc m t'.
Proof.
  unfold of_type, add_incoming. rewrite map_get_update. destruct (decide (ic_node c = m)) as [<-|Hm].
  - simpl. rewrite map_get_update. destruct (decide (ic_type c = t')) as [<-|Ht].
    + rewrite decide_True by done. simpl. by destruct (map_get (ic_node c) acc).
    + rewrite decide_False by naive_solver. by destruct (map_get (ic_node c) acc).
  - rewrite decide_False by naive_solver. done.
Qed.

(** The incoming connections of [m], as the connections that lead to it. *)
Definition incoming_of (l : list (string * string * nat * IConnection)) (m t : string) (i : nat) : list IConnection :=
  (fun '(s, ty, o, _) => {| ic_node := s; ic_type := ty; ic_index := o |}) <$>
  filter (fun '(_, _, _, c) => c = {| ic_node := m; ic_type := t; ic_index := i |}) l.

(** What the loop has made of the connections it has seen. *)
Lemma add_incoming_all l m t :
  let acc := foldl (fun acc '(s, ty, o, c) => add_incoming s ty o acc c) [] l in
  no_hole (of_type acc m t) /\
  (forall i, at_output (of_type acc m t) i = incoming_of l m t i) /\
  (forall i, i < length (of_type acc m t) <-> exists j, i <= j /\ incoming_of l m t j <> []).
Proof.
  set (step := fun (acc : IConnections) '(s, ty, o, c) => add_incoming s ty o acc c).
  induction l as [|[[[s ty] o] c] l (IHn & IHa & IHl)] using rev_ind; simpl.
  - split; [by constructor|]. split; [done|]. intros i. split; [lia|]. intros (j & _ & Hj). by destruct Hj.
  - rewrite foldl_snoc. set (acc := foldl step [] l) in *. simpl. rewrite of_type_incoming.
    assert (Hin : forall i, incoming_of (l ++ [(s, ty, o, c)]) m t i = incoming_of l m t i ++
      (if decide (c = {| ic_node := m; ic_type := t; ic_index := i |}) then [{| ic_node := s; ic_type := ty; ic_index := o |}] else [])).
    { intros i. unfold incoming_of. rewrite filter_app, fmap_app. f_equal. rewrite filter_cons.
      repeat case_decide; simplify_eq/=; done. }
    destruct (decide (ic_node c = m /\ ic_type c = t)) as [[Hm Ht]|Hne].
    + split; [by apply no_hole_push|]. split.
      * intros i. rewrite at_output_push, IHa, Hin by done. f_equal. destruct c as [cn ct ci]. simpl in *. subst.
        destruct (decide (ci = i)) as [->|Hi]; [by rewrite decide_True|]. rewrite decide_False by congruence. done.
      * intros i. rewrite length_push. split.
        -- intros Hlt. destruct (decide (i < length (of_type acc m t))) as [H|H].
           ++ apply IHl in H as (j & Hj & Hne). exists j. split; [done|]. rewrite Hin. by destruct (incoming_of l m t j).
           ++ exists (ic_index c). split; [lia|]. rewrite Hin, decide_True by (destruct c; simpl in *; congruence).
              by destruct (incoming_of l m t (ic_index c)).
        -- intros (j & Hj & Hne). rewrite Hin in Hne. case_decide as Hc; [subst c; simpl; lia|]. rewrite app_nil_r in Hne.
           assert (i < length (of_type acc m t)); [|lia]. apply IHl. by exists j.
    + assert (Hin' : forall i, incoming_of (l ++ [(s, ty, o, c)]) m t i = incoming_of l m t i).
      { intros i. rewrite Hin, decide_False by (intros ->; simpl in *; naive_solver). by rewrite app_nil_r. }
      split; [done|]. setoid_rewrite Hin'. split; [done|done].
Qed.

(** C36. The connections by destination are exactly the connections by source, inverted: what
    arrives at input [i] of a node is listed under it, in the order of the sources and their
    outputs, each with its source and output, and nothing else; and the inputs listed reach
    just to the last one something arrives at. *)
Theorem mapConnectionsByDestination_inverts cs m t :
  (forall i, at_output (of_type (mapConnectionsByDestination cs) m t) i = incoming_of (outgoing cs) m t i) /\
  (forall i, i < length (of_type (mapConnectionsByDestination cs) m t) <-> exists j, i <= j /\ incoming_of (outgoing cs) m t j <> []).
Proof. split; apply (add_incoming_all (outgoing cs) m t). Qed.

(** ** Lists without repetitions *)

Lemma elem_of_remove_first x y l : NoDup l -> y ∈ remove_first x l <-> y ∈ l /\ y <> x.
Proof.
  induction 1 as [|z l Hz Hl IH]; simpl; [set_solver|]. case_decide as Hd; [subst; set_solver|].
  rewrite !elem_of_cons, IH. set_solver.
Qed.

Lemma remove_first_NoDup x l : NoDup l -> NoDup (remove_first x l).
Proof.
  induction 1 as [|z l Hz Hl IH]; simpl; [constructor|]. case_decide as Hd; [done|]. constructor; [|done].
  rewrite elem_of_remove_first by done. set_solver.
Qed.

Lemma move_to_front_NoDup x l : NoDup l -> NoDup (move_to_front x l).
Proof.
  intros Hl. constructor; [|by apply remove_first_NoDup]. rewrite elem_of_remove_first by done. naive_solver.
Qed.

Lemma elem_of_move_to_front x y l : NoDup l -> y ∈ move_to_front x l <-> y = x \/ y ∈ l.
Proof. intros Hl. unfold move_to_front. rewrite elem_of_cons, elem_of_remove_first by done. destruct (decide (y = x)); naive_solver. Qed.

Lemma moved_to_front l k : NoDup l -> NoDup (foldr move_to_front l k) /\ forall y, y ∈ foldr move_to_front l k <-> y ∈ k \/ y ∈ l.
Proof.
  intros Hl. induction k as [|x k [IH1 IH2]]; simpl; [split; [done|set_solver]|]. split; [by apply move_to_front_NoDup|].
  intros y. rewrite elem_of_move_to_front, IH2 by done. set_solver.
Qed.

(** ** Connected nodes *)

Section Reach.
Context (connections : IConnections) (kind : ConnectionKind).

(** One hop. *)
Definition hop (n m : string) : Prop :=
  exists byType c, map_get n connections = Some byType /\ c ∈ followed kind byType /\ ic_node c = m.

Definition known (memo : Memo) (n : string) : Prop := is_Some (map_get (-1, n)%Z memo).

Definition leaf (n : string) : Prop := map_get n connections = None.

(** What the cache holds while the nodes of [path] are being expanded. *)
Record memo_ok (path : list string) (memo : Memo) : Prop := {
  mo_apart : forall n, n ∈ path -> ~ known memo n;
  mo_nodup : forall n l, map_get (-1, n)%Z memo = Some l -> NoDup l;
  mo_sound : forall n l x, map_get (-1, n)%Z memo = Some l -> x ∈ l -> tc hop n x;
  mo_known : forall n l x, map_get (-1, n)%Z memo = Some l -> x ∈ l -> known memo x \/ leaf x;
  mo_self : forall n l, map_get (-1, n)%Z memo = Some l -> n ∉ l;
}.

(** What a call adds to it: what it newly expanded, and where that leads, is in its answer. *)
Record grown (n : string) (path l : list string) (memo memo' : Memo) : Prop := {
  gr_keep : forall m, known memo m -> known memo' m;
  gr_nodup : NoDup l;
  gr_sound : forall x, x ∈ l -> tc hop n x;
  gr_known : forall x, x ∈ l -> known memo' x \/ leaf x;
  gr_new : forall y, known memo' y -> ~ known memo y -> y = n \/ y ∈ l;
  gr_next : forall y x, known memo' y -> ~ known memo y -> hop y x -> x ∈ path \/ x = n \/ x ∈ l;
  gr_done : known memo' n \/ leaf n;
  gr_self : n ∉ l;
}.

Lemma collect_grows fuel n path memo :
  n ∉ path -> NoDup path -> (forall x, x ∈ path -> ~ leaf x) -> length connections + 2 <= fuel + length path -> memo_ok path memo ->
  exists l memo', collectConnectedNodes connections kind fuel n (-1) path memo = Some (l, memo') /\
    memo_ok path memo' /\ grown n path l memo memo'.
Proof.
  revert n path memo. induction fuel as [|fuel IH]; intros n path memo Hn Hnd Hpk Hfuel Hm.
  { exfalso. assert (length path <= length connections); [|lia]. rewrite <-(length_fmap fst connections). apply submseteq_length, NoDup_submseteq; [done|].
    intros x Hx. specialize (Hpk x Hx). unfold leaf in Hpk. destruct (decide (x ∈ connections.*1)); [done|].
    destruct Hpk. by apply map_get_None. }
  cbn [collectConnectedNodes Z.eqb]. destruct (map_get n connections) as [byType|] eqn:Hc.
  2: { exists [], memo. split; [done|]. split; [done|]. split; try done; try set_solver; try apply NoDup_nil_2; by right. }
  destruct (map_get ((-1)%Z, n) memo) as [cached|] eqn:Hk.
  { exists cached, memo. split; [done|]. split; [done|]. split; try done; try (by destruct Hm; eauto). left. by exists cached. }
  set (path' := n :: path). set (f := fun '(returnNodes, memo) (connection : IConnection) => _).
  assert (Hun : ~ known memo n) by (intros [x Hx]; congruence).
  assert (Hm' : memo_ok path' memo).
  { destruct Hm as [M1 M2 M3 M4 M5]. split; try done. intros x [-> | Hx]%elem_of_cons; [done|by apply M1]. }
  (* the loop *)
  set (inv := fun (done : list IConnection) (ret : list string) (mem : Memo) => memo_ok path' mem /\
    (forall m, known memo m -> known mem m) /\ NoDup ret /\ (forall x, x ∈ ret -> tc hop n x) /\
    (forall x, x ∈ ret -> known mem x \/ leaf x) /\ (forall y, known mem y -> ~ known memo y -> y ∈ ret) /\
    (forall y x, known mem y -> ~ known memo y -> hop y x -> x ∈ path' \/ x ∈ ret) /\
    (forall c, c ∈ done -> ic_node c ∈ path' \/ ic_node c ∈ ret)).
  assert (Hloop : forall todo dn ret mem, (forall c, c ∈ todo -> c ∈ followed kind byType) -> inv dn ret mem ->
    exists ret' mem', foldM f (ret, mem) todo = Some (ret', mem') /\ inv (dn ++ todo) ret' mem').
  { intros todo. induction todo as [|c todo IHt]; intros dn ret mem Hsub Hinv.
    { exists ret, mem. by rewrite app_nil_r. }
    simpl. assert (Hhop : hop n (ic_node c)) by (exists byType, c; split; [done|]; split; [apply Hsub; by left|done]).
    change (dn ++ c :: todo) with (dn ++ [c] ++ todo). rewrite app_assoc.
    destruct Hinv as (I1 & I2 & I3 & I4 & I5 & I6 & I7 & I8). destruct (bool_decide (ic_node c ∈ path')) eqn:Hp.
    { apply bool_decide_eq_true in Hp. apply IHt; [by intros c' Hc'; apply Hsub; right|]. split_and!; try done.
      intros c' [Hc'|Hc'%list_elem_of_singleton]%elem_of_app; [by apply I8|subst c'; by left]. }
    apply bool_decide_eq_false in Hp.
    destruct (IH (ic_node c) path' mem) as (l & mem' & -> & J1 & [J2 J3 J4 J5 J6 J7 J8 _]); try done.
    { by constructor. }
    { intros x [-> | Hx]%elem_of_cons; [unfold leaf; congruence|by apply Hpk]. }
    { simpl. lia. }
    destruct (moved_to_front (move_to_front (ic_node c) ret) l) as [K1 K2]; [by apply move_to_front_NoDup|].
    assert (K3 : forall y, y ∈ foldr move_to_front (move_to_front (ic_node c) ret) l <-> y ∈ l \/ y = ic_node c \/ y ∈ ret)
      by (intros y; rewrite K2, elem_of_move_to_front by done; done). clear K2.
    apply IHt; [by intros c' Hc'; apply Hsub; right|]. split_and!; try done.
    - intros m Hkm. by apply J2, I2.
    - intros x [Hx|[-> | Hx]]%K3; [|by apply tc_once|by apply I4]. eapply tc_l; [exact Hhop|by apply J4].
    - intros x [Hx|[-> | Hx]]%K3; [by apply J5|done|]. destruct (I5 x Hx); [left; by apply J2|by right].
    - intros y Hy Hny. apply K3. destruct (decide (is_Some (map_get ((-1)%Z, y) mem))) as [Hmem|Hmem]; [by right; right; apply I6|].
      destruct (J6 y Hy Hmem) as [?|?]; auto.
    - intros y x Hy Hny Hxy. destruct (decide (is_Some (map_get ((-1)%Z, y) mem))) as [Hmem|Hmem].
      + destruct (I7 y x Hmem Hny Hxy); [by left|right; apply K3; auto].
      + destruct (J7 y x Hy Hmem Hxy) as [?|[?|?]]; [by left|right; apply K3; auto..].
    - intros c' [Hc'|Hc'%list_elem_of_singleton]%elem_of_app; [|subst c'; right; apply K3; auto].
      destruct (I8 c' Hc'); [by left|right; apply K3; auto]. }
  destruct (Hloop (followed kind byType) [] [] memo) as (ret & mem & -> & I1 & I2 & I3 & I4 & I5 & I6 & I7 & I8); [done| |].
  { split_and!; [done|done|apply NoDup_nil_2|by intros x ?%elem_of_nil|by intros x ?%elem_of_nil|done|done|by intros c ?%elem_of_nil]. }
  simpl. exists ret, (map_set ((-1)%Z, n) ret mem). split; [done|].
  assert (Hself : n ∉ ret).
  { intros Hr. destruct (I5 n Hr) as [Hk'|Hl]; [|unfold leaf in Hl; congruence]. eapply (mo_apart _ _ I1); [by left|exact Hk']. }
  assert (Hkn : forall m, known (map_set ((-1)%Z, n) ret mem) m <-> m = n \/ known mem m).
  { intros m. unfold known. rewrite map_get_set. case_decide as Hd; [injection Hd as <-; naive_solver|].
    split; [by right|]. intros [-> | ?]; [done|done]. }
  split.
  - destruct I1 as [M1 M2 M3 M4 M5]. split.
    + intros m Hmp [-> | Hm0]%Hkn; [done|]. eapply M1; [by right|exact Hm0].
    + intros m l. rewrite map_get_set. case_decide; [intros [= <-]; done|apply M2].
    + intros m l x. rewrite map_get_set. case_decide as Hd; [injection Hd as <-; intros [= <-]; apply I4|apply M3].
    + intros m l x. rewrite map_get_set. case_decide as Hd.
      * intros [= <-] Hx. destruct (I5 x Hx); [left; apply Hkn; auto|by right].
      * intros Hl Hx. destruct (M4 m l x Hl Hx); [left; apply Hkn; auto|by right].
    + intros m l. rewrite map_get_set. case_decide as Hd; [injection Hd as <-; by intros [= <-]|apply M5].
  - split; try done.
    + intros m Hkm. apply Hkn. right. by apply I2.
    + intros x Hx. destruct (I5 x Hx); [left; apply Hkn; auto|by right].
    + intros y [-> | Hy]%Hkn Hny; [by left|right; by apply I6].
    + intros y x [-> | Hy]%Hkn Hny Hyx.
      * destruct Hyx as (bt & c & Hbt & Hcf & <-). rewrite Hc in Hbt. injection Hbt as <-. destruct (I8 c Hcf) as [[? | ?]%elem_of_cons|?]; auto.
      * destruct (I7 y x Hy Hny Hyx) as [[? | ?]%elem_of_cons|?]; auto.
    + left. apply Hkn. by left.
Qed.

(** The connected nodes of a node are the nodes reachable from it over connections of the
    kinds asked for, in at least one hop, but for the node itself; each is listed once, also
    where there are cycles and where an expansion is taken from the cache. *)
Lemma getConnectedNodes_reachable n :
  NoDup (getConnectedNodes connections kind n (-1)) /\
  forall m, m ∈ getConnectedNodes connections kind n (-1) <-> tc hop n m /\ m <> n.
Proof.
  unfold getConnectedNodes.
  destruct (collect_grows (S (S (length connections))) n [] []) as (l & memo & -> & _ & [G1 G2 G3 G4 G5 G6 G7 G8]);
    [apply not_elem_of_nil|apply NoDup_nil_2|by intros x ?%elem_of_nil|simpl; lia|split; done || (by intros ? ?%elem_of_nil)|].
  assert (H0 : forall m, ~ known [] m) by (intros m [x Hx]; done). simpl. split; [done|].
  assert (Hreach : forall m, tc hop n m -> m = n \/ m ∈ l).
  { apply (tc_ind_right hop n (fun m => m = n \/ m ∈ l)).
    - intros y Hy. destruct G7 as [Hk|Hl]; [|destruct Hy as (bt & c & Hbt & _); unfold leaf in Hl; congruence].
      destruct (G6 n y Hk (H0 n) Hy) as [?%not_elem_of_nil|?]; done.
    - intros y z _ Hyz Hy. assert (Hk : known memo y).
      { destruct Hy as [-> | Hy]; [|destruct (G4 y Hy) as [|Hl]]; [destruct G7 as [|Hl]|..]; try done;
          destruct Hyz as (bt & c & Hbt & _); unfold leaf in Hl; congruence. }
      destruct (G6 y z Hk (H0 y) Hyz) as [?%not_elem_of_nil|?]; done. }
  intros m. split.
  - intros Hm. split; [by apply G3|]. by intros ->.
  - intros [Hr Hne]. by destruct (Hreach m Hr).
Qed.

End Reach.

(** A hop to the nodes before one is a connection into it. *)
Lemma hop_by_destination cs t m s :
  hop (mapConnectionsByDestination cs) (OfType t) m s <->
  exists ty o c, (s, ty, o, c) ∈ outgoing cs /\ ic_node c = m /\ ic_type c = t.
Proof.
  destruct (add_incoming_all (outgoing cs) m t) as (_ & Hat & _). fold (mapConnectionsByDestination cs) in Hat.
  assert (Hin : forall i x, x ∈ at_output (of_type (mapConnectionsByDestination cs) m t) i <->
    exists ty o c, (ic_node x, ty, o, c) ∈ outgoing cs /\ c = {| ic_node := m; ic_type := t; ic_index := i |} /\
      x = {| ic_node := ic_node x; ic_type := ty; ic_index := o |}).
  { intros i x. rewrite Hat. unfold incoming_of. rewrite list_elem_of_fmap. split.
    - intros ([[[s' ty] o] c] & -> & [Hc Hx]%list_elem_of_filter). by exists ty, o, c.
    - intros (ty & o & c & Hx & Hc & Hx'). exists (ic_node x, ty, o, c). split; [done|]. by apply list_elem_of_filter. }
  split.
  - intros (byType & x & Hb & Hx & <-). unfold followed in Hx. simpl in Hx. rewrite app_nil_r in Hx.
    apply list_elem_of_bind in Hx as (xs & Hx & Hxs). apply list_elem_of_lookup in Hxs as [i Hi].
    destruct (proj1 (Hin i x)) as (ty & o & c & Ho & -> & _); [|by eexists ty, o, _].
    unfold of_type, at_output. rewrite Hb. simpl. by rewrite Hi.
  - intros (ty & o & c & Ho & <- & <-).
    assert (Hx : {| ic_node := s; ic_type := ty; ic_index := o |} ∈ at_output (of_type (mapConnectionsByDestination cs) (ic_node c) (ic_type c)) (ic_index c)).
    { apply Hin. exists ty, o, c. split_and!; [done|by destruct c|done]. }
    unfold of_type, at_output in Hx. unfold hop. destruct (map_get (ic_node c) _) as [byType|]; simpl in Hx; [|by apply elem_of_nil in Hx].
    exists byType, {| ic_node := s; ic_type := ty; ic_index := o |}. split_and!; [done| |done].
    unfold followed. simpl. rewrite app_nil_r. apply list_elem_of_bind.
    destruct (default [] (map_get (ic_type c) byType) !! ic_index c) as [xs|] eqn:Hi; simpl in Hx; [|by apply elem_of_nil in Hx].
    exists xs. split; [done|]. by apply list_elem_of_lookup_2 in Hi.
Qed.

(** ** The highest nodes *)

Section HighestTotal.
Context (w : Workflow) (heap : nat -> INode).

(** The nodes with inputs not checked yet. *)
Definition unchecked (checked : list string) : nat :=
  length (filter (fun k => k ∉ checked) (connectionsByDestinationNode w).*1).

Lemma unchecked_mono c c' : c ⊆ c' -> unchecked c' <= unchecked c.
Proof.
  intros Hc. unfold unchecked. apply submseteq_length. generalize (connectionsByDestinationNode w).*1. intros ks.
  induction ks as [|k ks IH]; [done|]. rewrite !filter_cons. repeat case_decide.
  - by apply submseteq_skip.
  - set_solver.
  - by apply submseteq_cons.
  - done.
Qed.

Lemma unchecked_lt k c : k ∈ (connectionsByDestinationNode w).*1 -> k ∉ c -> unchecked (c ++ [k]) < unchecked c.
Proof.
  intros Hk Hc. unfold unchecked. revert Hk. generalize (connectionsByDestinationNode w).*1. intros ks.
  assert (Hle : forall ks, length (filter (fun x => x ∉ c ++ [k]) ks) <= length (filter (fun x => x ∉ c) ks)).
  { intros l. induction l as [|x l IH]; [done|]. rewrite !filter_cons. repeat case_decide; simpl; try lia. set_solver. }
  induction ks as [|x ks IH]; [by intros ?%elem_of_nil|]. rewrite !filter_cons. specialize (Hle ks).
  intros [<-|Hk]%elem_of_cons; repeat case_decide; simpl; try lia; try (exfalso; set_solver); specialize (IH Hk); lia.
Qed.

Lemma highest_total fuel n idx checked : unchecked checked < fuel ->
  exists r checked', highest w heap fuel n idx checked = Some (r, checked') /\ checked ⊆ checked'.
Proof.
  revert n idx checked. induction fuel as [|fuel IH]; intros n idx checked Hf; [lia|]. cbn [highest].
  destruct (getNode w heap n) as [node|]; [|by eexists _, _].
  destruct (map_get n (connectionsByDestinationNode w)) as [byType|] eqn:Hn; simpl; [|by eexists _, _].
  destruct (map_get Main byType) as [inputs|]; [|by eexists _, _].
  case_bool_decide as Hc; [by eexists _, _|].
  assert (Hlt : unchecked (checked ++ [n]) < fuel).
  { assert (unchecked (checked ++ [n]) < unchecked checked); [|lia]. apply unchecked_lt; [|done].
    apply map_get_Some_elem_of in Hn. apply list_elem_of_fmap. by exists (n, byType). }
  set (above := mbind _ _). set (f := fun '(returnNodes, checked) (connection : IConnection) => _).
  assert (Hloop : forall l r c, checked ++ [n] ⊆ c -> exists r' c', foldM f (r, c) l = Some (r', c') /\ c ⊆ c').
  { intros l. induction l as [|x l IHl]; intros r c Hsub; [by exists r, c|]. simpl. case_bool_decide; [by apply IHl|].
    destruct (getNode w heap (ic_node x)) as [parent|]; [|by apply IHl].
    destruct (IH (ic_node x) None c) as (add & c' & -> & Hc').
    { pose proof (unchecked_mono _ _ Hsub). lia. }
    destruct (IHl (foldl set_add r match add with [] => if bool_decide (nd_disabled parent = Some true) then [] else [ic_node x]
      | _ => add end) c') as (r' & c'' & -> & Hc''); [set_solver|]. exists r', c''. split; [done|set_solver]. }
  destruct (Hloop above [] (checked ++ [n])) as (r & c & -> & Hsub); [done|]. exists r, c. split; [done|set_solver].
Qed.

(** The fuel of [getHighestNode] is enough. *)
Lemma getHighestNode_total n idx : exists r c, getHighestNode w heap n idx = r /\
  highest w heap (S (S (length (connectionsByDestinationNode w)))) n idx [] = Some (r, c).
Proof.
  unfold getHighestNode. destruct (highest_total (S (S (length (connectionsByDestinationNode w)))) n idx []) as (r & c & -> & _);
    [|by exists r, c].
  assert (unchecked [] <= length (connectionsByDestinationNode w)); [|lia]. unfold unchecked.
  rewrite <-(length_fmap fst (connectionsByDestinationNode w)). apply length_filter.
Qed.

End HighestTotal.
