(* ===== verification/PartialGraph.v ===== *)
(** * Partial execution: the directed graph

    [packages/core/src/execution-engine/partial-execution-utils/directed-graph.ts].  A
    [DirectedGraph] keeps its nodes in a [Map] by name and its connections in a [Map] by
    the string [makeKey] builds.

    [===] on nodes is equality: the nodes of a workflow have different names, so two
    node objects in play never have the same contents; the fields of [INode] the
    code never looks at are not modelled.  Equal connections have the same key, so the
    [Map] holds a connection once and [Set]s of connections are sets of values.  The
    recursive traversals carry fuel; [OutOfFuel] is the model's own error, and the
    theorems show which fuel excludes it. *)

From stdpp Require Import base gmap strings pretty list relations.
From Stdlib Require Import ZArith Lia.
From S2P Require Import Prelude.
From S2P Require Import JsCollections.

(** ** Depth-first traversal with a shared visited list

    The recursion scheme of [DirectedGraph]'s traversals ([getChildrenRecursive],
    [getParentConnectionsRecursive]): for each successor, skip it if it was visited, else
    mark it and recurse.  [foldE] is a [for] loop whose body may throw.  [dfs_spec] says
    what the traversal visits and how much fuel it needs; both clients reduce to it. *)

(** A [for ... of] loop that threads a state and may throw. *)
Fixpoint foldE {E S A} (f : S -> A -> result E S) (s : S) (l : list A) : result E S :=
  match l with
  | [] => Ok s
  | x :: l' => match f s x with Ok s' => foldE f s' l' | Err e => Err e end
  end.

Lemma foldE_app {E S A} (f : S -> A -> result E S) (s : S) (l1 l2 : list A) :
  foldE f s (l1 ++ l2) = foldE f s l1 ≫= fun s' => foldE f s' l2.
Proof.
  revert s. induction l1 as [|x l1 IH]; intros s; simpl; [done|]. destruct (f s x); simpl; [apply IH|done].
Qed.

Lemma foldE_map {E S A B} (g : A -> B) (f : S -> B -> result E S) (s : S) (l : list A) :
  foldE f s (map g l) = foldE (fun s x => f s (g x)) s l.
Proof. revert s. induction l as [|x l IH]; intros s; simpl; [done|]. by destruct (f s (g x)). Qed.

Lemma foldE_ext {E S A} (f g : S -> A -> result E S) (s : S) (l : list A) :
  (forall s x, x ∈ l -> f s x = g s x) -> foldE f s l = foldE g s l.
Proof.
  revert s. induction l as [|x l IH]; intros s H; simpl; [done|].
  rewrite H by (by left). destruct (g s x); [|done]. apply IH. intros s' y Hy. apply H. by right.
Qed.

(** An invariant of the loop, stated on the elements already seen. *)
Lemma foldE_inv {E S A} (f : S -> A -> result E S) (P : list A -> S -> Prop) (s : S) (l : list A) :
  P [] s -> (forall l1 x l2 s, l = l1 ++ x :: l2 -> P l1 s -> exists s', f s x = Ok s' /\ P (l1 ++ [x]) s') ->
  exists s', foldE f s l = Ok s' /\ P l s'.
Proof.
  intros H0 Hstep. cut (forall l2 l1 s, l = l1 ++ l2 -> P l1 s -> exists s', foldE f s l2 = Ok s' /\ P l s').
  { intros H. by apply (H l []). }
  induction l2 as [|x l2 IH]; intros l1 s1 Hl HP; simpl.
  - rewrite app_nil_r in Hl. subst. eauto.
  - destruct (Hstep l1 x l2 s1 Hl HP) as (s' & -> & HP'). apply (IH (l1 ++ [x])); [|done]. by rewrite <-app_assoc.
Qed.

Section dfs.
Context {E A : Type} `{EqDecision A} (out_of_fuel : E) (succ : A -> result E (list A)).

Fixpoint dfs (fuel : nat) (x : A) (visited : list A) : result E (list A) :=
  match fuel with
  | 0 => Err out_of_fuel
  | S fuel' =>
      succ x ≫= foldE (fun vis y => if decide (y ∈ vis) then Ok vis else dfs fuel' y (vis ++ [y])) visited
  end.

(** [x]'s successor [y]. *)
Definition succ_rel (x y : A) : Prop := exists l, succ x = Ok l /\ y ∈ l.

(** What a traversal from [x] adds to [vis]. *)
Record Visited (x : A) (vis vis' : list A) : Prop := {
  vi_sub : forall y, y ∈ vis -> y ∈ vis';
  vi_nodup : NoDup vis -> NoDup vis';
  vi_succ : forall y, succ_rel x y -> y ∈ vis';
  vi_closed : forall y z, y ∈ vis' -> y ∉ vis -> succ_rel y z -> z ∈ vis';
  vi_reach : forall y, y ∈ vis' -> y ∉ vis -> tc succ_rel x y;
}.

Context (U : list A).

Lemma dfs_spec (fuel : nat) (x : A) (vis : list A) :
  (forall y, y ∈ x :: U -> exists l, succ y = Ok l /\ forall z, z ∈ l -> z ∈ U) ->
  NoDup vis -> (forall y, y ∈ vis -> y ∈ U) -> length U < fuel + length vis ->
  exists vis', dfs fuel x vis = Ok vis' /\ Visited x vis vis' /\ NoDup vis' /\ (forall y, y ∈ vis' -> y ∈ U).
Proof.
  revert x vis. induction fuel as [|fuel IH]; intros x vis Hsucc Hnd Hsub Hf.
  { assert (length vis <= length U) by (by apply submseteq_length, NoDup_submseteq). simpl in Hf. lia. }
  destruct (Hsucc x ltac:(by left)) as (l & Hl & HlU). simpl. rewrite Hl. simpl.
  assert (Hl' : forall y, succ_rel x y <-> y ∈ l).
  { intros y. split; [|intros; by exists l]. intros (l' & Hl' & Hy). congruence. }
  edestruct (foldE_inv (fun vis y => if decide (y ∈ vis) then Ok vis else dfs fuel y (vis ++ [y]))
    (fun l1 vis1 => (forall y, y ∈ vis -> y ∈ vis1) /\ NoDup vis1 /\ (forall y, y ∈ vis1 -> y ∈ U) /\
       (forall y, y ∈ l1 -> y ∈ vis1) /\ (forall y z, y ∈ vis1 -> y ∉ vis -> succ_rel y z -> z ∈ vis1) /\
       (forall y, y ∈ vis1 -> y ∉ vis -> tc succ_rel x y)) vis l) as (vis' & Hrun & H1 & H2 & H3 & H4 & H5 & H6).
  - split_and!; try done. by intros y ?%not_elem_of_nil.
  - intros l1 y l2 vis1 Heq (I1 & I2 & I3 & I4 & I5 & I6).
    assert (Hyl : y ∈ l) by (rewrite Heq; apply elem_of_app; right; by left).
    case_decide as Hy.
    { exists vis1. split_and!; try done. intros z [Hz|Hz%list_elem_of_singleton]%elem_of_app; [by apply I4|by subst]. }
    assert (Hlen : length vis <= length vis1) by (by apply submseteq_length, NoDup_submseteq).
    destruct (IH y (vis1 ++ [y])) as (vis2 & Hd & Hv & Hn2 & Hu2).
    { intros z [->|Hz]%elem_of_cons; apply Hsucc; right; [by apply HlU|done]. }
    { apply NoDup_app. split_and!; [done| |apply NoDup_singleton]. by intros z Hz ->%list_elem_of_singleton. }
    { intros z [Hz|Hz%list_elem_of_singleton]%elem_of_app; [by apply I3|subst; by apply HlU]. }
    { rewrite length_app. simpl. lia. }
    destruct Hv as [V1 _ V3 V4 V5]. exists vis2. split_and!; try done.
    + intros z Hz. apply V1, elem_of_app. left. by apply I1.
    + intros z [Hz|Hz%list_elem_of_singleton]%elem_of_app; apply V1, elem_of_app; [left; by apply I4|right; subst; by left].
    + intros a b Ha Hna Hab. destruct (decide (a ∈ vis1 ++ [y])) as [Hin|Hnin]; [|by eapply V4].
      apply elem_of_app in Hin as [Hin|Hin%list_elem_of_singleton]; [|subst; by apply V3].
      apply V1, elem_of_app. left. by eapply I5.
    + intros a Ha Hna. destruct (decide (a ∈ vis1 ++ [y])) as [Hin|Hnin].
      * apply elem_of_app in Hin as [Hin|Hin%list_elem_of_singleton]; [by apply I6|]. subst. apply tc_once. by apply Hl'.
      * eapply tc_l; [|by apply V5]. by apply Hl'.
  - exists vis'. split_and!; try done. split; try done.
    intros y Hy%Hl'. by apply H4.
Qed.

(** From an empty visited list the traversal visits what can be reached by a step or more. *)
Lemma dfs_reaches (fuel : nat) (x : A) :
  (forall y, y ∈ x :: U -> exists l, succ y = Ok l /\ forall z, z ∈ l -> z ∈ U) -> length U < fuel ->
  exists vis, dfs fuel x [] = Ok vis /\ NoDup vis /\ forall y, y ∈ vis <-> tc succ_rel x y.
Proof.
  intros Hs Hf. destruct (dfs_spec fuel x []) as (vis & Hr & [_ _ V3 V4 V5] & Hn & _);
    [done|constructor|by intros y ?%not_elem_of_nil|simpl; lia|].
  exists vis. split_and!; [done|done|]. intros y. split; [intros Hy; apply V5; [done|apply not_elem_of_nil]|]. revert y.
  apply (tc_ind_right succ_rel x (fun y => y ∈ vis)); [exact V3|]. intros y' z _ Hyz Hy. eapply V4; [done|by apply not_elem_of_nil|done].
Qed.
End dfs.

Local Open Scope string_scope.

(** ** Data *)

Record INode := { name : string; type : string; disabled : bool }.

#[export] Instance INode_eq_dec : EqDecision INode.
Proof. solve_decision. Defined.

Notation NodeConnectionType := string (only parsing).
Definition Main : NodeConnectionType := "main".

Record GraphConnection := {
  from : INode;
  to : INode;
  ctype : NodeConnectionType;
  outputIndex : nat;
  inputIndex : Z;
}.

#[export] Instance GraphConnection_eq_dec : EqDecision GraphConnection.
Proof. solve_decision. Defined.

(** The assertions of [assert], the errors shown to users, a property read on [undefined],
    and the model's fuel. *)
Inductive PartialError :=
  | AssertionError (message : string)
  | UserError (message : string)
  | OperationalError (message : string)
  | TypeError
  | OutOfFuel.

Notation presult := (Prelude.result PartialError).

Record DirectedGraph := {
  nodes : list (string * INode);
  connections : list (string * GraphConnection);
}.

Definition empty_graph : DirectedGraph := {| nodes := []; connections := [] |}.

Definition makeKey (c : GraphConnection) : string :=
  name (from c) +:+ "-" +:+ ctype c +:+ "-" +:+ pretty (outputIndex c) +:+ "-" +:+
  pretty (inputIndex c) +:+ "-" +:+ name (to c).

(** ** Reading *)

Definition hasNode (g : DirectedGraph) (nodeName : string) : bool := map_has nodeName (nodes g).

(** [[...this.nodes.values()]]. *)
Definition node_values (g : DirectedGraph) : list INode := (nodes g).*2.
Definition connection_values (g : DirectedGraph) : list GraphConnection := (connections g).*2.

Definition getNodesByNames (g : DirectedGraph) (names : list string) : list INode :=
  set_of_list (omap (fun n => map_get n (nodes g)) names).

Definition getConnections (g : DirectedGraph) (filter_to : option INode) : list GraphConnection :=
  arr_filter (fun c => match filter_to with Some n => bool_decide (to c = n) | None => true end) (connection_values g).

(** [this.nodes.get(node.name) === node]. *)
Definition in_graph (g : DirectedGraph) (node : INode) : bool :=
  bool_decide (map_get (name node) (nodes g) = Some node).

Definition not_part_of (node : INode) : PartialError :=
  AssertionError ("Node " +:+ quoted (name node) +:+ " is not part of this graph.").

Definition getDirectChildConnections (g : DirectedGraph) (node : INode) : presult (list GraphConnection) :=
  if in_graph g node then Ok (arr_filter (fun c => bool_decide (from c = node)) (connection_values g))
  else Err (not_part_of node).

Definition getDirectParentConnections (g : DirectedGraph) (node : INode) : presult (list GraphConnection) :=
  if in_graph g node then Ok (arr_filter (fun c => bool_decide (to c = node)) (connection_values g))
  else Err (not_part_of node).

Definition getConnection (g : DirectedGraph) (f : INode) (o : nat) (t : NodeConnectionType) (i : Z) (n : INode) :
    option GraphConnection :=
  map_get (makeKey {| from := f; to := n; ctype := t; outputIndex := o; inputIndex := i |}) (connections g).

(** ** Editing *)

Definition addNode (g : DirectedGraph) (node : INode) : DirectedGraph :=
  {| nodes := map_set (name node) node (nodes g); connections := connections g |}.

Definition addNodes (g : DirectedGraph) (ns : list INode) : DirectedGraph := foldl addNode g ns.

Definition set_connection (g : DirectedGraph) (c : GraphConnection) : DirectedGraph :=
  {| nodes := nodes g; connections := map_set (makeKey c) c (connections g) |}.

Definition addConnection (g : DirectedGraph) (c : GraphConnection) : presult DirectedGraph :=
  require (in_graph g (from c)) (AssertionError ("Cannot add connection: source node " +:+
    quoted (name (from c)) +:+ " is not part of this graph.")) ≫= fun _ =>
  require (in_graph g (to c)) (AssertionError ("Cannot add connection: target node " +:+
    quoted (name (to c)) +:+ " is not part of this graph.")) ≫= fun _ =>
  Ok (set_connection g c).

Definition addConnections (g : DirectedGraph) (cs : list GraphConnection) : presult DirectedGraph :=
  foldE addConnection g cs.

(** The loop that deletes the connections of a node. *)
Definition delete_connections (g : DirectedGraph) (node : INode) : list (string * GraphConnection) :=
  filter (fun p => ~ (to p.2 = node \/ from p.2 = node)) (connections g).

(** The connections [removeNode] makes between the parents and the children of a node. *)
Definition new_connections (incoming outgoing : list GraphConnection) (skipConnectionFn : GraphConnection -> bool) :
    list GraphConnection :=
  flat_map (fun i => if skipConnectionFn i then []
    else flat_map (fun o => if skipConnectionFn o then []
      else [{| from := from i; to := to o; ctype := ctype i; outputIndex := outputIndex i;
               inputIndex := inputIndex o |}]) outgoing) incoming.

(** [removeNode(node)], and with [reconnectConnections]. *)
Definition removeNode (g : DirectedGraph) (node : INode) : DirectedGraph :=
  {| nodes := map_delete (name node) (nodes g); connections := delete_connections g node |}.

Definition removeNode_reconnect (g : DirectedGraph) (node : INode) (skipConnectionFn : GraphConnection -> bool) :
    presult (DirectedGraph * list GraphConnection) :=
  getDirectParentConnections g node ≫= fun incoming =>
  getDirectChildConnections g node ≫= fun outgoing =>
  let newConnections := new_connections incoming outgoing skipConnectionFn in
  let g := {| nodes := nodes g; connections := delete_connections g node |} in
  let g := foldl set_connection g newConnections in
  Ok ({| nodes := map_delete (name node) (nodes g); connections := connections g |}, newConnections).

Definition clone (g : DirectedGraph) : presult DirectedGraph :=
  addConnections (addNodes empty_graph (node_values g)) (getConnections g None).

(** ** Traversing *)

Fixpoint getChildrenRecursive (fuel : nat) (g : DirectedGraph) (node : INode) (children : list INode) :
    presult (list INode) :=
  match fuel with
  | 0 => Err OutOfFuel
  | Datatypes.S fuel' =>
      getDirectChildConnections g node ≫= fun directChildren =>
      foldE (fun children directChild =>
        if decide (to directChild ∈ children) then Ok children
        else getChildrenRecursive fuel' g (to directChild) (children ++ [to directChild])%list) children directChildren
  end.

(** Every call but the first marks a new node. *)
Definition getChildren (g : DirectedGraph) (node : INode) : presult (list INode) :=
  getChildrenRecursive (length (nodes g) + 1) g node [].

Fixpoint getParentConnectionsRecursive (fuel : nat) (g : DirectedGraph) (node : INode) (seen : list GraphConnection) :
    presult (list GraphConnection) :=
  match fuel with
  | 0 => Err OutOfFuel
  | Datatypes.S fuel' =>
      getDirectParentConnections g node ≫= fun parentConnections =>
      foldE (fun seen connection =>
        if decide (connection ∈ seen) then Ok seen
        else getParentConnectionsRecursive fuel' g (from connection) (seen ++ [connection])%list) seen parentConnections
  end.

Definition getParentConnections (g : DirectedGraph) (node : INode) : presult (list GraphConnection) :=
  getParentConnectionsRecursive (length (connections g) + 1) g node [].

(** The search stops at the first node [fn] accepts; [seen] is shared. *)
Fixpoint depthFirstSearchRecursive (fuel : nat) (g : DirectedGraph) (fn : INode -> bool) (node : INode)
    (seen : list INode) : presult (option INode * list INode) :=
  match fuel with
  | 0 => Err OutOfFuel
  | Datatypes.S fuel' =>
      if decide (node ∈ seen) then Ok (None, seen)
      else
        let seen := (seen ++ [node])%list in
        if fn node then Ok (Some node, seen)
        else
          getDirectChildConnections g node ≫= fun children =>
          foldE (fun acc childConnection =>
            match acc with
            | (Some found, seen) => Ok (Some found, seen)
            | (None, seen) => depthFirstSearchRecursive fuel' g fn (to childConnection) seen
            end) (None, seen) children
  end.

Definition depthFirstSearch (g : DirectedGraph) (node : INode) (fn : INode -> bool) : presult (option INode) :=
  depthFirstSearchRecursive (length (nodes g) + 2) g fn node [] ≫= fun r => Ok r.1.

(** ** Strongly connected components *)

Record SccState := {
  next_id : nat;
  visited : list INode;
  ids : list (INode * nat);
  lowLinkValues : list (INode * nat);
  scc_stack : list INode;
  stronglyConnectedComponents : list (list INode);
}.

(** The loop that pops a component off the stack, whose top is the head of the list. *)
Fixpoint pop_component (low : list (INode * nat)) (ownId : nat) (stack scc : list INode) : list INode * list INode :=
  match stack with
  | next :: rest =>
      if decide (map_get next low = Some ownId) then pop_component low ownId rest (set_add scc next)
      else (stack, scc)
  | [] => ([], scc)
  end.

Definition enter_node (node : INode) (st : SccState) : SccState := {|
  next_id := Datatypes.S (next_id st); visited := set_add (visited st) node;
  ids := map_set node (next_id st) (ids st); lowLinkValues := map_set node (next_id st) (lowLinkValues st);
  scc_stack := node :: scc_stack st; stronglyConnectedComponents := stronglyConnectedComponents st |}.

Definition lower_link (node child : INode) (st : SccState) : presult SccState :=
  if decide (child ∈ scc_stack st) then
    match map_get child (lowLinkValues st), map_get node (lowLinkValues st) with
    | Some c, Some o => Ok {|
        next_id := next_id st; visited := visited st; ids := ids st;
        lowLinkValues := map_set node (c `min` o) (lowLinkValues st);
        scc_stack := scc_stack st; stronglyConnectedComponents := stronglyConnectedComponents st |}
    | _, _ => Err (AssertionError EmptyString)
    end
  else Ok st.

Definition close_node (node : INode) (st : SccState) : presult SccState :=
  match map_get node (ids st), map_get node (lowLinkValues st) with
  | Some ownId, Some own =>
      if decide (ownId = own) then
        let '(stack, scc) := pop_component (lowLinkValues st) ownId (scc_stack st) [] in
        Ok {| next_id := next_id st; visited := visited st; ids := ids st; lowLinkValues := lowLinkValues st;
              scc_stack := stack;
              stronglyConnectedComponents :=
                if bool_decide (0 < length scc) then (stronglyConnectedComponents st ++ [scc])%list
                else stronglyConnectedComponents st |}
      else Ok st
  | _, _ => Err (AssertionError EmptyString)
  end.

Fixpoint followNode (fuel : nat) (g : DirectedGraph) (node : INode) (st : SccState) : presult SccState :=
  match fuel with
  | 0 => Err OutOfFuel
  | Datatypes.S fuel' =>
      if decide (node ∈ visited st) then Ok st
      else
        getDirectChildConnections g node ≫= fun directChildren =>
        foldE (fun st c => followNode fuel' g (to c) st ≫= lower_link node (to c)) (enter_node node st) directChildren
          ≫= close_node node
  end.

Definition getStronglyConnectedComponents (g : DirectedGraph) : presult (list (list INode)) :=
  foldE (fun st node => followNode (length (nodes g) + 2) g node st)
    {| next_id := 0; visited := []; ids := []; lowLinkValues := []; scc_stack := []; stronglyConnectedComponents := [] |}
    (node_values g) ≫= fun st => Ok (stronglyConnectedComponents st).

(** ** To and from the workflow's nested form *)

(** One entry of a connection list; an output without connections is [null] or a hole. *)
Record IConnection := { ic_node : string; ic_type : NodeConnectionType; ic_index : Z }.
Notation NodeConnections := (list (string * list (option (list IConnection)))).
Notation IConnections := (list (string * NodeConnections)).

(** [fromNodesAndConnections]; [fromWorkflow] is the same loop over a workflow's nodes. *)
Definition fromNodesAndConnections (ns : list INode) (cs : IConnections) : presult DirectedGraph :=
  let nodeMap := foldl (fun m n => map_set (name n) n m) [] ns in
  let lookup n := match map_get n nodeMap with Some x => Ok x | None => Err (AssertionError EmptyString) end in
  foldE (fun g '(fromNodeName, iConnection) =>
    lookup fromNodeName ≫= fun f =>
    foldE (fun g '(outputType, outputs) =>
      foldE (fun g '(o, conns) =>
        foldE (fun g conn =>
          lookup (ic_node conn) ≫= fun t =>
          addConnection g {| from := f; to := t; ctype := outputType; outputIndex := o; inputIndex := ic_index conn |})
          g (default [] conns))
        g (imap pair outputs))
      g iConnection)
    (addNodes empty_graph ns) cs.

(** [array[i] = v]: assignment past the end leaves holes. *)
Definition array_set {A} (l : list (option A)) (i : nat) (v : A) : list (option A) :=
  if decide (i < length l) then <[i := Some v]> l else (l ++ replicate (i - length l) None ++ [Some v])%list.

(** One round of the loop of [toIConnections]: the first connection of a node makes the
    object, with the key of that connection's type only. *)
Definition toIConnections_step (result : IConnections) (c : GraphConnection) : presult IConnections :=
  let forNode := default [(ctype c, [])] (map_get (name (from c)) result) in
  match map_get (ctype c) forNode with
  | None => Err TypeError
  | Some outputs =>
      let group := default [] (mjoin (outputs !! outputIndex c)) in
      let entry := {| ic_node := name (to c); ic_type := ctype c; ic_index := inputIndex c |} in
      Ok (map_set (name (from c)) (map_set (ctype c) (array_set outputs (outputIndex c) (group ++ [entry])%list) forNode) result)
  end.

Definition toIConnections (g : DirectedGraph) : presult IConnections :=
  foldE toIConnections_step [] (connection_values g).

(** ** Well-formed graphs *)

(** Names and keys are those of what they name, each once, and connections join nodes of
    the graph. *)
Record GraphOk (g : DirectedGraph) : Prop := {
  go_nodes : NoDup (nodes g).*1;
  go_names : forall p, p ∈ nodes g -> p.1 = name p.2;
  go_connections : NoDup (connections g).*1;
  go_keys : forall p, p ∈ connections g -> p.1 = makeKey p.2;
  go_from : forall c, c ∈ connection_values g -> from c ∈ node_values g;
  go_to : forall c, c ∈ connection_values g -> to c ∈ node_values g;
}.

(** One connection leads from [x] to [y]. *)
Definition edge (g : DirectedGraph) (x y : INode) : Prop :=
  exists c, c ∈ connection_values g /\ from c = x /\ to c = y.

Lemma snd_elem {A B} (l : list (A * B)) (b : B) : b ∈ l.*2 <-> exists a, (a, b) ∈ l.
Proof.
  rewrite list_elem_of_fmap. split; [intros ([a b'] & -> & H); eauto|intros (a & H); by exists (a, b)].
Qed.

Lemma in_graph_iff (g : DirectedGraph) (n : INode) : GraphOk g -> in_graph g n = true <-> n ∈ node_values g.
Proof.
  intros [Hn Hk _ _ _ _]. unfold in_graph, node_values. rewrite bool_decide_eq_true, snd_elem. split.
  - intros H%map_get_Some_elem_of. eauto.
  - intros (k & Hin). specialize (Hk _ Hin) as Hkn. simpl in Hkn. subst. by apply elem_of_map_get.
Qed.

Lemma direct_children (g : DirectedGraph) (n : INode) :
  GraphOk g -> n ∈ node_values g ->
  exists l, getDirectChildConnections g n = Ok l /\ forall c, c ∈ l <-> c ∈ connection_values g /\ from c = n.
Proof.
  intros Hg Hn%in_graph_iff; [|done]. unfold getDirectChildConnections. rewrite Hn. eexists. split; [done|].
  intros c. rewrite elem_of_arr_filter, bool_decide_eq_true. tauto.
Qed.

Lemma direct_parents (g : DirectedGraph) (n : INode) :
  GraphOk g -> n ∈ node_values g ->
  exists l, getDirectParentConnections g n = Ok l /\ forall c, c ∈ l <-> c ∈ connection_values g /\ to c = n.
Proof.
  intros Hg Hn%in_graph_iff; [|done]. unfold getDirectParentConnections. rewrite Hn. eexists. split; [done|].
  intros c. rewrite elem_of_arr_filter, bool_decide_eq_true. tauto.
Qed.

(** [getChildrenRecursive] is the depth-first traversal over child nodes. *)
Definition child_nodes (g : DirectedGraph) (n : INode) : presult (list INode) :=
  getDirectChildConnections g n ≫= fun l => Ok (map to l).

Lemma bind_assoc {E A B C} (m : Prelude.result E A) (f : A -> Prelude.result E B) (h : B -> Prelude.result E C) :
  ((m ≫= f) ≫= h) = (m ≫= fun x => f x ≫= h).
Proof. by destruct m. Qed.

Lemma bind_ext {E A B} (m : Prelude.result E A) (f h : A -> Prelude.result E B) :
  (forall x, m = Ok x -> f x = h x) -> (m ≫= f) = (m ≫= h).
Proof. destruct m; simpl; auto. Qed.

Lemma getChildrenRecursive_dfs (fuel : nat) (g : DirectedGraph) (n : INode) (children : list INode) :
  getChildrenRecursive fuel g n children = dfs OutOfFuel (child_nodes g) fuel n children.
Proof.
  revert n children. induction fuel as [|fuel IH]; intros n children; simpl; [done|].
  change (child_nodes g n) with (getDirectChildConnections g n ≫= fun l => Ok (map to l)). rewrite bind_assoc. apply bind_ext. intros l _. simpl. rewrite foldE_map.
  apply foldE_ext. intros s x _. case_decide; [done|]. apply IH.
Qed.

Definition parent_connections (g : DirectedGraph) (c : GraphConnection) : presult (list GraphConnection) :=
  getDirectParentConnections g (from c).

Lemma getParentConnectionsRecursive_dfs (fuel : nat) (g : DirectedGraph) (c : GraphConnection) (seen : list GraphConnection) :
  getParentConnectionsRecursive fuel g (from c) seen = dfs OutOfFuel (parent_connections g) fuel c seen.
Proof.
  revert c seen. induction fuel as [|fuel IH]; intros c seen; simpl; [done|].
  change (parent_connections g c) with (getDirectParentConnections g (from c)). apply bind_ext. intros l _. apply foldE_ext. intros s x _. case_decide; [done|]. apply IH.
Qed.

Lemma child_rel (g : DirectedGraph) (x y : INode) :
  GraphOk g -> x ∈ node_values g -> succ_rel (child_nodes g) x y <-> edge g x y.
Proof.
  intros Hg Hx. destruct (direct_children g x Hg Hx) as (l & Hl & Hc). unfold succ_rel, child_nodes, edge. rewrite Hl. simpl.
  split.
  - intros (l' & [= <-] & (c & -> & [? ?]%Hc)%list_elem_of_fmap). eauto.
  - intros (c & ? & ? & <-). eexists. split; [done|]. by apply list_elem_of_fmap_2, Hc.
Qed.

Lemma tc_within {A} (R S : relation A) (P : A -> Prop) (x : A) :
  (forall a b, P a -> R a b -> S a b /\ P b) -> P x -> forall y, tc R x y -> tc S x y.
Proof.
  intros H Hx y Ht. revert Hx. induction Ht as [a b Hab|a b c Hab Hbc IH]; intros Ha.
  - apply tc_once. by apply H.
  - destruct (H a b Ha Hab). eapply tc_l; [done|auto].
Qed.

Lemma getChildren_ok (g : DirectedGraph) (n : INode) :
  GraphOk g -> n ∈ node_values g ->
  exists l, getChildren g n = Ok l /\ NoDup l /\ forall y, y ∈ l <-> tc (edge g) n y.
Proof.
  intros Hg Hn. unfold getChildren. rewrite getChildrenRecursive_dfs.
  destruct (dfs_reaches OutOfFuel (child_nodes g) (node_values g) (length (nodes g) + 1) n) as (l & Hl & Hnd & Hy).
  - intros y Hy. assert (Hy' : y ∈ node_values g) by by apply elem_of_cons in Hy as [->|].
    destruct (direct_children g y Hg Hy') as (cs & Hcs & Hc). exists (map to cs). unfold child_nodes. rewrite Hcs.
    split; [done|]. intros z (c & -> & [? ?]%Hc)%list_elem_of_fmap. by apply (go_to g).
  - unfold node_values. rewrite length_fmap. lia.
  - exists l. split_and!; [done|done|]. intros y. rewrite Hy. split;
      (apply (tc_within _ _ (fun z => z ∈ node_values g)); [|done]; intros a b Ha Hab).
    + apply child_rel in Hab; [|done|done]. split; [done|]. destruct Hab as (c & Hc & _ & <-). by apply (go_to g).
    + split; [by apply child_rel|]. destruct Hab as (c & Hc & _ & <-). by apply (go_to g).
Qed.

(** [GraphOk], decided. *)
Definition graph_ok (g : DirectedGraph) : bool :=
  bool_decide (NoDup (nodes g).*1) && forallb (fun p => bool_decide (p.1 = name p.2)) (nodes g) &&
  bool_decide (NoDup (connections g).*1) && forallb (fun p => bool_decide (p.1 = makeKey p.2)) (connections g) &&
  forallb (fun c => bool_decide (from c ∈ node_values g) && bool_decide (to c ∈ node_values g)) (connection_values g).

Lemma graph_ok_spec (g : DirectedGraph) : graph_ok g = true -> GraphOk g.
Proof.
  unfold graph_ok. rewrite !andb_true_iff, !forallb_forall. setoid_rewrite <-list_elem_of_In.
  intros ((((H1 & H2) & H3) & H4) & H5). setoid_rewrite andb_true_iff in H5.
  apply bool_decide_eq_true in H1, H3. split; try done; intros x Hx.
  - pose proof (H2 x Hx) as H. by apply bool_decide_eq_true in H.
  - pose proof (H4 x Hx) as H. by apply bool_decide_eq_true in H.
  - destruct (H5 x Hx) as [H _]. by apply bool_decide_eq_true in H.
  - destruct (H5 x Hx) as [_ H]. by apply bool_decide_eq_true in H.
Qed.

(** A graph built from its nodes and connections, for concrete examples. *)
Definition graph_of_lists (ns : list INode) (cs : list GraphConnection) : DirectedGraph :=
  foldl set_connection (addNodes empty_graph ns) cs.

Definition main_connection (f t : INode) (o : nat) (i : Z) : GraphConnection :=
  {| from := f; to := t; ctype := Main; outputIndex := o; inputIndex := i |}.
