(* ===== verification/PartialFilter.v ===== *)
(** * Partial execution: removing the disabled nodes

    [filter-disabled-nodes.ts].  Each disabled node is removed with its [main] connections
    bridged.  [through] is what the result should be: a [main] path of the original graph
    whose inner nodes are disabled becomes one connection. *)

From stdpp Require Import base gmap strings pretty list relations.
From Stdlib Require Import Ascii ZArith Lia.
From S2P Require Import Prelude.
From S2P Require Import JsCollections.
From S2P Require Import PartialGraph.

Definition not_main (c : GraphConnection) : bool := negb (bool_decide (ctype c = Main)).

Definition filterDisabledNodes (g : DirectedGraph) : presult DirectedGraph :=
  clone g ≫= fun filteredGraph =>
  foldE (fun filteredGraph node =>
    if disabled node then removeNode_reconnect filteredGraph node not_main ≫= fun r => Ok r.1
    else Ok filteredGraph) filteredGraph (node_values filteredGraph).

(** ** Paths and bridges *)

(** Two connections put together at the node between them. *)
Definition join (c1 c2 : GraphConnection) : GraphConnection := {|
  from := from c1; to := to c2; ctype := ctype c1; outputIndex := outputIndex c1; inputIndex := inputIndex c2 |}.

(** A connection of [g], or a [main] path of [g] whose inner nodes satisfy [P], as one
    connection: out of the first output, into the last input. *)
Inductive through (g : DirectedGraph) (P : INode -> Prop) : GraphConnection -> Prop :=
  | through_direct c : c ∈ connection_values g -> through g P c
  | through_step c rest :
      c ∈ connection_values g -> ctype c = Main -> P (to c) ->
      through g P rest -> ctype rest = Main -> from rest = to c -> through g P (join c rest).

(** Connections the graph and its paths can give rise to have different keys. *)
Definition Unambiguous (g : DirectedGraph) : Prop :=
  forall c1 c2, through g (fun _ => True) c1 -> through g (fun _ => True) c2 ->
    makeKey c1 = makeKey c2 -> c1 = c2.

Lemma through_mono (g : DirectedGraph) (P Q : INode -> Prop) (c : GraphConnection) :
  (forall n, P n -> Q n) -> through g P c -> through g Q c.
Proof. intros H. induction 1; [by constructor|]. apply through_step; auto. Qed.

Lemma through_ends (g : DirectedGraph) (P : INode -> Prop) (c : GraphConnection) :
  GraphOk g -> through g P c -> from c ∈ node_values g /\ to c ∈ node_values g.
Proof.
  intros Hg. induction 1 as [c Hc|c rest Hc _ _ _ IH _ _]; simpl; split; try (by apply (go_from g)).
  - by apply (go_to g).
  - apply IH.
Qed.

Lemma through_join (g : DirectedGraph) (P : INode -> Prop) (c1 c2 : GraphConnection) :
  through g P c1 -> ctype c1 = Main -> P (to c1) -> through g P c2 -> ctype c2 = Main -> from c2 = to c1 ->
  through g P (join c1 c2).
Proof.
  induction 1 as [c Hc|c rest Hc Hm HP Hr IH Hmr Hfr]; intros Hm1 HP1 H2 Hm2 Hf2; [by apply through_step|].
  simpl in *. change (join (join c rest) c2) with (join c (join rest c2)). apply through_step; simpl; auto.
Qed.

(** A path through [d] or [P] either avoids [d] or is bridged at [d] once. *)
Lemma through_split (g : DirectedGraph) (P : INode -> Prop) (d : INode) (c : GraphConnection) :
  through g (fun n => n = d \/ P n) c ->
  through g P c \/
  exists c1 c2, through g P c1 /\ ctype c1 = Main /\ to c1 = d /\ through g P c2 /\ ctype c2 = Main /\
    from c2 = d /\ c = join c1 c2.
Proof.
  induction 1 as [c Hc|c rest Hc Hm HP Hr IH Hmr Hfr]; [left; by constructor|].
  destruct (decide (to c = d)) as [Hd|Hd].
  - right. exists c. destruct IH as [IH|(r1 & r2 & H1 & Hm1 & Ht1 & H2 & Hm2 & Hf2 & ->)].
    + exists rest. split_and!; try done; [by constructor|congruence].
    + exists r2. split_and!; try done. by constructor.
  - destruct HP as [?|HP]; [done|]. destruct IH as [IH|(r1 & r2 & H1 & Hm1 & Ht1 & H2 & Hm2 & Hf2 & ->)].
    + left. by apply through_step.
    + right. exists (join c r1), r2. split_and!; try done. apply through_step; try done.
Qed.

(** ** One removal *)

(** What is left of [g] once the nodes of [R] are removed. *)
Record Removed (g : DirectedGraph) (R : list INode) (h : DirectedGraph) : Prop := {
  rm_nodes : nodes h = filter (fun p => p.2 ∉ R) (nodes g);
  rm_nodup : NoDup (connections h).*1;
  rm_keys : forall p, p ∈ connections h -> p.1 = makeKey p.2;
  rm_through : forall c, c ∈ connection_values h -> through g (fun _ => True) c;
  rm_spec : forall c, from c ∉ R -> to c ∉ R -> c ∈ connection_values h <-> through g (fun n => n ∈ R) c;
}.

Lemma set_connections_elem (cs : list GraphConnection) (g h : DirectedGraph) :
  Unambiguous g -> NoDup (connections h).*1 -> (forall p, p ∈ connections h -> p.1 = makeKey p.2) ->
  (forall c, c ∈ connection_values h -> through g (fun _ => True) c) ->
  (forall c, c ∈ cs -> through g (fun _ => True) c) ->
  let h' := foldl set_connection h cs in
  nodes h' = nodes h /\ NoDup (connections h').*1 /\ (forall p, p ∈ connections h' -> p.1 = makeKey p.2) /\
  forall c, c ∈ connection_values h' <-> c ∈ connection_values h \/ c ∈ cs.
Proof.
  intros Hun. revert h. induction cs as [|c0 cs IH]; intros h Hnd Hk Hth Hcs; simpl.
  { split_and!; try done. intros c. rewrite elem_of_nil. tauto. }
  assert (H1 : forall c, c ∈ connection_values (set_connection h c0) <-> c = c0 \/ c ∈ connection_values h).
  { intros c. unfold connection_values. rewrite !snd_elem. simpl. split.
    - intros (k & Hin). apply elem_of_map_set in Hin as [[= -> ->]|[_ Hin]]; [by left|right; eauto|done].
    - intros [->|(k & Hin)].
      + exists (makeKey c0). apply elem_of_map_set; [done|by left].
      + destruct (decide (k = makeKey c0)) as [->|Hne].
        * assert (c = c0) as ->.
          { apply Hun; [apply Hth, snd_elem; eauto|apply Hcs; by left|]. symmetry. apply (Hk _ Hin). }
          exists (makeKey c0). apply elem_of_map_set; [done|by left].
        * exists k. apply elem_of_map_set; [done|by right]. }
  destruct (IH (set_connection h c0)) as (I1 & I2 & I3 & I4).
  - by apply map_set_NoDup.
  - intros p Hp. apply elem_of_map_set in Hp as [->|[_ Hp]]; [done|by apply Hk|done].
  - intros c [->|Hc]%H1; [apply Hcs; by left|by apply Hth].
  - intros c Hc. apply Hcs. by right.
  - split_and!; try done. intros c. rewrite I4, H1, elem_of_cons. tauto.
Qed.

Lemma delete_connections_elem (h : DirectedGraph) (d : INode) (c : GraphConnection) :
  c ∈ (delete_connections h d).*2 <-> c ∈ connection_values h /\ to c <> d /\ from c <> d.
Proof.
  unfold connection_values. rewrite !snd_elem. unfold delete_connections. setoid_rewrite list_elem_of_filter. simpl.
  split; [intros (k & Hn & Hin); split; [eauto|tauto]|intros ((k & Hin) & ? & ?); exists k; tauto].
Qed.

Lemma new_connections_elem (ins outs : list GraphConnection) (c : GraphConnection) :
  c ∈ new_connections ins outs not_main <->
  exists i o, i ∈ ins /\ o ∈ outs /\ ctype i = Main /\ ctype o = Main /\ c = join i o.
Proof.
  assert (Hnm : forall c, not_main c = false <-> ctype c = Main).
  { intros c'. unfold not_main. rewrite negb_false_iff, bool_decide_eq_true. done. }
  unfold new_connections. rewrite list_elem_of_In, in_flat_map. setoid_rewrite <-list_elem_of_In. split.
  - intros (i & Hi & Hc). destruct (not_main i) eqn:Hmi; [by apply elem_of_nil in Hc|]. apply Hnm in Hmi.
    apply list_elem_of_In, in_flat_map in Hc as (o & Ho & Hc). apply list_elem_of_In in Ho.
    destruct (not_main o) eqn:Hmo; [done|]. apply Hnm in Hmo. destruct Hc as [<-|[]]. exists i, o. done.
  - intros (i & o & Hi & Ho & Hmi & Hmo & ->). exists i. split; [done|]. apply Hnm in Hmi as ->.
    apply list_elem_of_In, in_flat_map. exists o. split; [by apply list_elem_of_In|]. apply Hnm in Hmo as ->. by left.
Qed.

Lemma filter_ext_elem {A} (P Q : A -> Prop) `{!forall x, Decision (P x), !forall x, Decision (Q x)} (l : list A) :
  (forall x, x ∈ l -> P x <-> Q x) -> filter P l = filter Q l.
Proof.
  intros Heq. induction l as [|x l IH]; [done|]. rewrite !filter_cons, IH by (intros y Hy; apply Heq; by right).
  specialize (Heq x ltac:(by left)). case_decide as H1; case_decide as H2; tauto.
Qed.

Lemma name_determines (g : DirectedGraph) (d : INode) (p : string * INode) :
  GraphOk g -> d ∈ node_values g -> p ∈ nodes g -> p.1 <> name d <-> p.2 <> d.
Proof.
  intros Hg Hd Hp. destruct p as [k n]. pose proof (go_names g Hg _ Hp) as Hk. simpl in *. subst k. split; [congruence|].
  intros Hne Heq. apply Hne. apply snd_elem in Hd as (k & Hd). pose proof (go_names g Hg _ Hd) as Hkd. simpl in Hkd. subst k.
  apply (elem_of_map_get _ _ _ (go_nodes g Hg)) in Hd. apply (elem_of_map_get _ _ _ (go_nodes g Hg)) in Hp.
  rewrite Heq in Hp. congruence.
Qed.

Lemma names_determine (g : DirectedGraph) (a b : INode) :
  GraphOk g -> a ∈ node_values g -> b ∈ node_values g -> name a = name b -> a = b.
Proof.
  intros Hg Ha (k & Hb)%snd_elem Heq. destruct (decide (b = a)) as [->|Hne]; [done|].
  apply (name_determines g a (k, b)) in Hne; [|done..]. pose proof (go_names g Hg _ Hb) as Hk. simpl in *. congruence.
Qed.

Lemma removeNode_reconnect_removed (g : DirectedGraph) (R : list INode) (h : DirectedGraph) (d : INode) :
  GraphOk g -> Unambiguous g -> Removed g R h -> d ∈ node_values g -> d ∉ R ->
  exists h' cs, removeNode_reconnect h d not_main = Ok (h', cs) /\ Removed g (d :: R) h'.
Proof.
  intros Hg Hun [Hn Hnd Hk Hth Hsp] Hd HdR.
  assert (Hin : in_graph h d = true).
  { unfold in_graph. rewrite bool_decide_eq_true, Hn. apply snd_elem in Hd as (k & Hd).
    pose proof (go_names g Hg _ Hd) as Hkd. simpl in Hkd. subst k. apply elem_of_map_get.
    - eapply sublist_NoDup; [apply (go_nodes g Hg)|]. apply fmap_sublist, sublist_filter.
    - by apply list_elem_of_filter. }
  unfold removeNode_reconnect, getDirectParentConnections, getDirectChildConnections. rewrite Hin. simpl.
  set (ins := arr_filter _ _). set (outs := arr_filter _ _).
  assert (Hins : forall c, c ∈ ins <-> c ∈ connection_values h /\ to c = d).
  { intros c. unfold ins. rewrite elem_of_arr_filter, bool_decide_eq_true. tauto. }
  assert (Houts : forall c, c ∈ outs <-> c ∈ connection_values h /\ from c = d).
  { intros c. unfold outs. rewrite elem_of_arr_filter, bool_decide_eq_true. tauto. }
  set (h1 := {| nodes := nodes h; connections := delete_connections h d |}).
  destruct (set_connections_elem (new_connections ins outs not_main) g h1 Hun) as (H1 & H2 & H3 & H4).
  { eapply sublist_NoDup; [exact Hnd|]. apply fmap_sublist, sublist_filter. }
  { intros p Hp. apply list_elem_of_filter in Hp as [_ Hp]. by apply Hk. }
  { intros c (Hc & _ & _)%delete_connections_elem. by apply Hth. }
  { intros c (i & o & [Hi Hti]%Hins & [Ho Hfo]%Houts & Hmi & Hmo & ->)%new_connections_elem.
    apply through_join; auto. congruence. }
  do 2 eexists. split; [done|]. set (h' := foldl set_connection h1 _) in *.
  assert (Hval : forall c, c ∈ connection_values h' <->
    (c ∈ connection_values h /\ to c <> d /\ from c <> d) \/
    exists i o, (i ∈ connection_values h /\ to i = d) /\ (o ∈ connection_values h /\ from o = d) /\
      ctype i = Main /\ ctype o = Main /\ c = join i o).
  { intros c. rewrite H4. unfold connection_values at 1, h1. simpl. rewrite delete_connections_elem, new_connections_elem.
    setoid_rewrite Hins. setoid_rewrite Houts. tauto. }
  split; simpl; try done.
  - rewrite H1. unfold h1. simpl. rewrite Hn. unfold map_delete. rewrite list_filter_filter. apply filter_ext_elem.
    intros p Hp. rewrite not_elem_of_cons. rewrite (name_determines g d p) by done. tauto.
  - intros c [(Hc & _)|(i & o & [Hi Hti] & [Ho Hfo] & Hmi & Hmo & ->)]%Hval; [by apply Hth|].
    apply through_join; auto. congruence.
  - intros c Hfc Htc. apply not_elem_of_cons in Hfc as [Hfd HfR]. apply not_elem_of_cons in Htc as [Htd HtR].
    unfold connection_values. simpl. change (connections h').*2 with (connection_values h'). rewrite Hval. split.
    + intros [(Hc & _ & _)|(i & o & [Hi Hti] & [Ho Hfo] & Hmi & Hmo & ->)].
      * apply Hsp in Hc; [|done|done]. eapply through_mono; [|done]. intros n ?. by right.
      * simpl in *. apply Hsp in Hi; [|done|congruence]. apply Hsp in Ho; [|congruence|done].
        apply through_join; try done; try congruence; try (eapply through_mono; [|done]; intros n ?; by right).
        rewrite Hti. by left.
    + intros Hc. assert (Hc' : through g (fun n => n = d \/ n ∈ R) c).
      { eapply through_mono; [|done]. intros n ?%elem_of_cons. done. }
      apply through_split in Hc' as [Hc'|(c1 & c2 & Hc1 & Hm1 & Ht1 & Hc2 & Hm2 & Hf2 & ->)].
      * left. split_and!; try done. by apply Hsp.
      * right. exists c1, c2. simpl in *. split_and!; try done; apply Hsp; try done; congruence.
Qed.

(** What a removal leaves, without assuming anything of the graph. *)
Lemma foldl_set_connection_sound (cs : list GraphConnection) (h : DirectedGraph) (c : GraphConnection) :
  c ∈ connection_values (foldl set_connection h cs) -> c ∈ connection_values h \/ c ∈ cs.
Proof.
  revert h. induction cs as [|c0 cs IH]; intros h; simpl; [by left|]. intros [Hc|Hc]%IH; [|right; by right].
  unfold connection_values in *. apply snd_elem in Hc as (k & Hc). simpl in Hc.
  assert (Hs : forall m : list (string * GraphConnection), (k, c) ∈ map_set (makeKey c0) c0 m -> (k, c) ∈ m \/ c = c0).
  { induction m as [|[k' c'] m IHm]; simpl; [intros [= -> ->]%list_elem_of_singleton; by right|].
    case_decide; rewrite !elem_of_cons; [intros [[= -> ->]|?]; auto|]. intros [?|Hin]; [auto|].
    destruct (IHm Hin); auto. }
  apply Hs in Hc as [Hc| ->]; [left; apply snd_elem; eauto|right; by left].
Qed.

Lemma removeNode_elem (h : DirectedGraph) (d : INode) (h' : DirectedGraph) (cs : list GraphConnection) :
  removeNode_reconnect h d not_main = Ok (h', cs) -> forall c, c ∈ connection_values h' ->
  (c ∈ connection_values h /\ to c <> d /\ from c <> d) \/
  exists i o, i ∈ connection_values h /\ to i = d /\ o ∈ connection_values h /\ from o = d /\
    ctype i = Main /\ ctype o = Main /\ c = join i o.
Proof.
  unfold removeNode_reconnect, getDirectParentConnections, getDirectChildConnections.
  destruct (in_graph h d); [|done]. simpl. intros [= <- <-] c Hc.
  apply (foldl_set_connection_sound _ {| nodes := nodes h; connections := delete_connections h d |}) in Hc
    as [Hc%delete_connections_elem|Hc]; [by left|right].
  apply new_connections_elem in Hc as (i & o & Hi & Ho & Hmi & Hmo & ->).
  apply elem_of_arr_filter in Hi as [Hi%bool_decide_eq_true ?]. apply elem_of_arr_filter in Ho as [Ho%bool_decide_eq_true ?].
  exists i, o. done.
Qed.

(** ** The whole loop *)

Lemma map_set_fresh {V} (k : string) (v : V) (m : list (string * V)) : k ∉ m.*1 -> map_set k v m = m ++ [(k, v)].
Proof.
  induction m as [|[k' v'] m IH]; simpl; [done|]. intros [Hne Hk]%not_elem_of_cons.
  rewrite decide_False by congruence. by rewrite IH.
Qed.

Lemma addNodes_fresh (l : list (string * INode)) (g : DirectedGraph) :
  NoDup ((nodes g).*1 ++ l.*1) -> (forall p, p ∈ l -> p.1 = name p.2) ->
  addNodes g l.*2 = {| nodes := nodes g ++ l; connections := connections g |}.
Proof.
  revert g. induction l as [|[k n] l IH]; intros g Hnd Hk; simpl.
  { rewrite app_nil_r. by destruct g. }
  assert (k = name n) as -> by (apply (Hk (k, n)); by left).
  unfold addNodes in IH. rewrite IH; unfold addNode; simpl.
  - rewrite map_set_fresh; [by rewrite <-app_assoc|]. apply NoDup_app in Hnd as (_ & Hd & _). intros Hin.
    apply (Hd (name n)); [done|by left].
  - rewrite map_set_fresh.
    + rewrite fmap_app. simpl. by rewrite <-app_assoc.
    + apply NoDup_app in Hnd as (_ & Hd & _). intros Hin. apply (Hd (name n)); [done|by left].
  - intros p Hp. apply Hk. by right.
Qed.

Lemma addConnections_fresh (l : list (string * GraphConnection)) (g : DirectedGraph) :
  NoDup ((connections g).*1 ++ l.*1) -> (forall p, p ∈ l -> p.1 = makeKey p.2) ->
  (forall c, c ∈ l.*2 -> in_graph g (from c) = true /\ in_graph g (to c) = true) ->
  addConnections g l.*2 = Ok {| nodes := nodes g; connections := connections g ++ l |}.
Proof.
  revert g. induction l as [|[k c] l IH]; intros g Hnd Hk Hin; simpl.
  { rewrite app_nil_r. by destruct g. }
  assert (k = makeKey c) as -> by (apply (Hk (k, c)); by left).
  destruct (Hin c ltac:(by left)) as [Hf Ht]. unfold addConnections. simpl.
  unfold addConnection at 1. rewrite Hf, Ht. simpl.
  assert (Hfresh : makeKey c ∉ (connections g).*1).
  { apply NoDup_app in Hnd as (_ & Hd & _). intros Hc. apply (Hd (makeKey c)); [done|by left]. }
  change (foldE addConnection (set_connection g c) l.*2) with (addConnections (set_connection g c) l.*2).
  unfold set_connection. rewrite map_set_fresh by done. rewrite IH; simpl.
  - by rewrite <-app_assoc.
  - rewrite fmap_app. simpl. by rewrite <-app_assoc.
  - intros p Hp. apply Hk. by right.
  - intros c' Hc'. apply Hin. by right.
Qed.

Lemma arr_filter_true {A} (f : A -> bool) (l : list A) : (forall x, f x = true) -> arr_filter f l = l.
Proof. intros Hf. induction l as [|x l IH]; simpl; [done|]. by rewrite Hf, IH. Qed.

(** [clone] is the identity on a well-formed graph. *)
Lemma clone_ok (g : DirectedGraph) : GraphOk g -> clone g = Ok g.
Proof.
  intros Hg. unfold clone, node_values. rewrite addNodes_fresh; simpl; [|apply (go_nodes g Hg)|apply (go_names g Hg)].
  unfold getConnections. rewrite arr_filter_true by done. unfold connection_values.
  rewrite addConnections_fresh; simpl; [by destruct g|apply (go_connections g Hg)|apply (go_keys g Hg)|].
  intros c Hc. assert (Hin : forall n, n ∈ node_values g -> in_graph {| nodes := nodes g; connections := [] |} n = true).
  { intros n Hn. by apply in_graph_iff in Hn. }
  split; apply Hin; [by apply (go_from g)|by apply (go_to g)].
Qed.

Lemma node_values_NoDup (g : DirectedGraph) : GraphOk g -> NoDup (node_values g).
Proof.
  intros Hg. unfold node_values. eapply (NoDup_fmap_1 name). rewrite <-list_fmap_compose.
  assert (Heq : name ∘ snd <$> nodes g = (nodes g).*1).
  { apply list_fmap_ext. intros i p Hp. symmetry. apply (go_names g Hg). by apply list_elem_of_lookup_2 in Hp. }
  rewrite Heq. apply (go_nodes g Hg).
Qed.

Lemma filter_all {A} (P : A -> Prop) `{!forall x, Decision (P x)} (l : list A) : (forall x, P x) -> filter P l = l.
Proof. intros HP. induction l as [|x l IH]; [done|]. rewrite filter_cons, IH. by rewrite decide_True. Qed.

Lemma removed_none (g : DirectedGraph) : GraphOk g -> Removed g [] g.
Proof.
  intros Hg. split.
  - rewrite filter_all; [done|]. intros p. apply not_elem_of_nil.
  - apply (go_connections g Hg).
  - apply (go_keys g Hg).
  - intros c Hc. by constructor.
  - intros c _ _. split; [by constructor|].
    assert (H : forall c, through g (fun n => n ∈ []) c -> c ∈ connection_values g).
    { induction 1 as [|? ? ? ? HP]; [done|]. by apply not_elem_of_nil in HP. }
    apply H.
Qed.

(** The disabled nodes of [g]. *)
Definition is_disabled (n : INode) : Prop := disabled n = true.

Lemma filterDisabledNodes_removed (g : DirectedGraph) (Q : list INode -> DirectedGraph -> Prop) :
  GraphOk g -> Unambiguous g -> Q [] g ->
  (forall R h d h' cs, Removed g R h -> Q R h -> is_disabled d -> d ∉ R -> (forall n, n ∈ R -> is_disabled n) ->
     removeNode_reconnect h d not_main = Ok (h', cs) -> Q (d :: R) h') ->
  exists h R, filterDisabledNodes g = Ok h /\ Removed g R h /\ Q R h /\
    (forall n, n ∈ R <-> n ∈ node_values g /\ is_disabled n).
Proof.
  intros Hg Hun Q0 Qstep. unfold filterDisabledNodes. rewrite clone_ok by done. simpl.
  destruct (foldE_inv (fun h node => if disabled node then removeNode_reconnect h node not_main ≫= fun r => Ok r.1 else Ok h)
    (fun l1 h => exists R, Removed g R h /\ Q R h /\ forall n, n ∈ R <-> n ∈ l1 /\ is_disabled n) g (node_values g))
    as (h & Hh & R & Hr & HQ & HR).
  - exists []. split_and!; [by apply removed_none|done|]. intros n. rewrite elem_of_nil. tauto.
  - intros l1 x l2 h Hl (R & Hr & HQ & HR). unfold is_disabled in *. destruct (disabled x) eqn:Hx.
    + assert (HxR : x ∉ R).
      { intros [Hin _]%HR. pose proof (node_values_NoDup g Hg) as Hnd. rewrite Hl in Hnd.
        apply NoDup_app in Hnd as (_ & Hd & _). apply (Hd x); [done|by left]. }
      destruct (removeNode_reconnect_removed g R h x Hg Hun Hr) as (h' & cs & Hrem & Hr'); [|done|].
      { rewrite Hl. apply elem_of_app. right. by left. }
      exists h'. rewrite Hrem. split; [done|]. exists (x :: R). split_and!; [done| |].
      * apply (Qstep R h x h' cs); try done. intros n Hn. by apply HR.
      * intros n. rewrite elem_of_cons, HR, elem_of_app, list_elem_of_singleton. split; [|tauto].
        intros [->|?]; tauto.
    + exists h. split; [done|]. exists R. split_and!; try done. intros n. rewrite HR, elem_of_app, list_elem_of_singleton.
      split; [tauto|]. intros [[?| ->] ?]; [tauto|congruence].
  - exists h, R. done.
Qed.

(** What is removed, and what the removal leaves. *)
Lemma removed_disabled_nodes (g h : DirectedGraph) (R : list INode) :
  Removed g R h -> (forall n, n ∈ R <-> n ∈ node_values g /\ is_disabled n) ->
  nodes h = filter (fun p => disabled p.2 = false) (nodes g).
Proof.
  intros Hr HR. rewrite (rm_nodes _ _ _ Hr). apply filter_ext_elem. intros [k n] Hp. simpl. rewrite HR.
  unfold is_disabled. rewrite <-not_true_iff_false. unfold node_values. rewrite snd_elem. split; [|tauto].
  intros Hn Hd. apply Hn. eauto.
Qed.

Lemma removed_disabled_connections (g h : DirectedGraph) (R : list INode) (c : GraphConnection) :
  GraphOk g -> Removed g R h -> (forall n, n ∈ R <-> n ∈ node_values g /\ is_disabled n) ->
  disabled (from c) = false -> disabled (to c) = false ->
  c ∈ connection_values h <-> through g is_disabled c.
Proof.
  intros Hg Hr HR Hf Ht. rewrite (rm_spec _ _ _ Hr).
  - split.
    + apply through_mono. intros n Hn. by apply HR in Hn as [_ ?].
    + clear Hf Ht. induction 1 as [c Hc|c rest Hc Hm HP Hrest IH Hmr Hfr]; [by constructor|].
      apply through_step; try done. apply HR. split; [by apply (go_to g)|done].
  - intros [_ Hd]%HR. unfold is_disabled in Hd. congruence.
  - intros [_ Hd]%HR. unfold is_disabled in Hd. congruence.
Qed.

(** No [main] cycle of the graph consists of disabled nodes only. *)
Definition no_disabled_loop (g : DirectedGraph) : Prop :=
  forall c, through g is_disabled c -> ctype c = Main -> is_disabled (from c) -> from c <> to c.

Lemma removed_keeps_off (g : DirectedGraph) (R : list INode) (h : DirectedGraph) (d : INode) (h' : DirectedGraph) (cs : list GraphConnection) :
  no_disabled_loop g -> Removed g R h ->
  (forall c, c ∈ connection_values h -> from c ∉ R /\ to c ∉ R) ->
  is_disabled d -> (forall n, n ∈ R -> is_disabled n) -> removeNode_reconnect h d not_main = Ok (h', cs) ->
  forall c, c ∈ connection_values h' -> from c ∉ d :: R /\ to c ∉ d :: R.
Proof.
  intros Hloop Hr HQ Hd Hdis Hrem c Hc.
  assert (Hd' : d ∈ node_values h).
  { unfold removeNode_reconnect, getDirectParentConnections in Hrem.
    destruct (in_graph h d) eqn:Hin; [|done]. unfold in_graph in Hin. rewrite bool_decide_eq_true in Hin.
    apply map_get_Some_elem_of in Hin. apply snd_elem. eauto. }
  destruct (removeNode_elem h d h' cs Hrem c Hc) as [(Hch & Ht & Hf)|(i & o & Hi & Hti & Ho & Hfo & Hmi & Hmo & ->)].
  - destruct (HQ c Hch). rewrite !not_elem_of_cons. tauto.
  - destruct (HQ i Hi) as [Hif Hit], (HQ o Ho) as [Hof Hot]. simpl. rewrite !not_elem_of_cons.
    assert (Hself : forall x, x ∈ connection_values h -> ctype x = Main -> from x = d -> to x = d -> False).
    { intros x Hx Hmx Hfx Htx. destruct (HQ x Hx) as [Hxf Hxt]. apply (Hloop x); try done; [|unfold is_disabled; congruence|congruence].
      eapply through_mono; [apply Hdis|]. by apply (rm_spec _ _ _ Hr). }
    split_and!; try done; intros Heq; [by apply (Hself i)|by apply (Hself o)].
Qed.

Lemma removed_graph_ok (g h : DirectedGraph) (R : list INode) :
  GraphOk g -> Removed g R h -> (forall c, c ∈ connection_values h -> from c ∉ R /\ to c ∉ R) -> GraphOk h.
Proof.
  intros Hg Hr HQ. assert (Hnodes : forall n, n ∈ node_values g -> n ∉ R -> n ∈ node_values h).
  { intros n (k & Hn)%snd_elem HnR. unfold node_values. rewrite (rm_nodes _ _ _ Hr). apply snd_elem. exists k.
    by apply list_elem_of_filter. }
  destruct Hr as [Hrn Hrd Hrk Hrt _]. split; try done.
  - rewrite Hrn. eapply sublist_NoDup; [apply (go_nodes g Hg)|]. apply fmap_sublist, sublist_filter.
  - intros p Hp. rewrite Hrn in Hp. apply list_elem_of_filter in Hp as [_ Hp]. by apply (go_names g Hg).
  - intros c Hc. apply Hnodes; [|by apply HQ]. apply (through_ends g _ c Hg (Hrt c Hc)).
  - intros c Hc. apply Hnodes; [|by apply HQ]. apply (through_ends g _ c Hg (Hrt c Hc)).
Qed.

Lemma filterDisabledNodes_ok (g : DirectedGraph) :
  GraphOk g -> Unambiguous g -> no_disabled_loop g ->
  exists h, filterDisabledNodes g = Ok h /\ GraphOk h /\
    nodes h = filter (fun p => disabled p.2 = false) (nodes g) /\
    forall c, disabled (from c) = false -> disabled (to c) = false ->
      c ∈ connection_values h <-> through g is_disabled c.
Proof.
  intros Hg Hun Hloop.
  destruct (filterDisabledNodes_removed g
    (fun R h => forall c, c ∈ connection_values h -> from c ∉ R /\ to c ∉ R) Hg Hun)
    as (h & R & Hh & Hr & HQ & HR).
  - intros c _. split; apply not_elem_of_nil.
  - intros R h d h' cs Hr HQ Hd _ Hdis Hrem. by apply (removed_keeps_off g R h d h' cs).
  - exists h. split_and!; [done|by apply (removed_graph_ok g h R)|by apply (removed_disabled_nodes g h R)|].
    intros c Hf Ht. by apply (removed_disabled_connections g h R).
Qed.

(** ** Properties *)

(** Removing the disabled nodes keeps every [main] path: the nodes left are the enabled
    ones, and between two of them there is a connection exactly when the graph has it, or
    has a [main] path between them whose inner nodes are all disabled, out of the same
    output and into the same input. *)
Lemma filterDisabledNodes_bridges (g : DirectedGraph) :
  GraphOk g -> Unambiguous g ->
  exists h, filterDisabledNodes g = Ok h /\
    nodes h = filter (fun p => disabled p.2 = false) (nodes g) /\
    forall c, disabled (from c) = false -> disabled (to c) = false ->
      c ∈ connection_values h <-> through g is_disabled c.
Proof.
  intros Hg Hun. destruct (filterDisabledNodes_removed g (fun _ _ => True) Hg Hun) as (h & R & Hh & Hr & _ & HR);
    [done..|]. exists h. split_and!; [done|by apply (removed_disabled_nodes g h R)|].
  intros c Hf Ht. by apply (removed_disabled_connections g h R).
Qed.

(** ** Names without dashes *)

Fixpoint no_dash (s : string) : bool :=
  match s with
  | EmptyString => true
  | String c s' => negb (Ascii.eqb c "-") && no_dash s'
  end.

Lemma no_dash_pretty_N_go (x : N) (s : string) : no_dash s = true -> no_dash (pretty_N_go x s) = true.
Proof.
  revert s. induction (N.lt_wf_0 x) as [x _ IH]. intros s Hs. destruct (decide (0 < x)%N) as [Hlt|Hle].
  - rewrite pretty_N_go_step by done. apply IH; [apply N.div_lt; lia|].
    unfold pretty_N_char. simpl. rewrite Hs, andb_true_r. by repeat case_match.
  - assert (x = 0%N) as -> by lia. by rewrite pretty_N_go_0.
Qed.

Lemma no_dash_pretty_N (x : N) : no_dash (pretty x) = true.
Proof. unfold pretty, pretty_N. case_decide; [done|]. by apply no_dash_pretty_N_go. Qed.

Lemma no_dash_pretty_Z (z : Z) : (0 <= z)%Z -> no_dash (pretty z) = true.
Proof. destruct z as [|p|p]; intros H; [done|apply (no_dash_pretty_N (N.pos p))|lia]. Qed.

Lemma app_dash_inj (a1 a2 b1 b2 : string) :
  no_dash a1 = true -> no_dash a2 = true ->
  a1 +:+ String "-" b1 = a2 +:+ String "-" b2 -> a1 = a2 /\ b1 = b2.
Proof.
  revert a2. induction a1 as [|c a1 IH]; intros [|c2 a2] H1 H2; simpl in *; intros Heq; simplify_eq; try done.
  apply andb_true_iff in H1 as [_ H1]. apply andb_true_iff in H2 as [_ H2].
  destruct (IH a2 H1 H2) as [-> ->]; done.
Qed.

(** Node names and connection types without dashes, input indices that are indices. *)
Definition PlainNames (g : DirectedGraph) : bool :=
  forallb (fun c => no_dash (name (from c)) && no_dash (ctype c) && (0 <=? inputIndex c)%Z) (connection_values g).

Lemma plain_names_unambiguous (g : DirectedGraph) : GraphOk g -> PlainNames g = true -> Unambiguous g.
Proof.
  intros Hg Hp c1 c2 H1 H2.
  assert (Hc : forall c, through g (fun _ => True) c -> no_dash (name (from c)) = true /\ no_dash (ctype c) = true /\ (0 <= inputIndex c)%Z).
  { unfold PlainNames in Hp. rewrite forallb_forall in Hp. setoid_rewrite <-list_elem_of_In in Hp.
    induction 1 as [c Hc|c rest Hc _ _ _ IH _ _]; specialize (Hp c Hc); rewrite !andb_true_iff, Z.leb_le in Hp; simpl; tauto. }
  destruct (Hc c1 H1) as (Hf1 & Ht1 & Hi1), (Hc c2 H2) as (Hf2 & Ht2 & Hi2).
  pose proof (through_ends g _ c1 Hg H1) as [Hn1 Hm1]. pose proof (through_ends g _ c2 Hg H2) as [Hn2 Hm2].
  intros Heq. unfold makeKey in Heq. simpl in Heq.
  apply app_dash_inj in Heq as [Hn Heq]; [|done..]. apply app_dash_inj in Heq as [Ht Heq]; [|done..].
  apply app_dash_inj in Heq as [Ho Heq]; [|apply (no_dash_pretty_N (N.of_nat _))..].
  apply app_dash_inj in Heq as [Hi Heq]; [|by apply no_dash_pretty_Z..].
  apply (inj pretty) in Ho, Hi.
  assert (Hfrom : from c1 = from c2) by by apply (names_determine g). assert (Hto : to c1 = to c2) by by apply (names_determine g).
  destruct c1, c2; simpl in *; congruence.
Qed.

(** ** Concrete graphs *)

Definition start_node : INode := {| name := "Start"; type := "trigger"; disabled := false |}.
Definition off_node : INode := {| name := "Off"; type := "set"; disabled := true |}.
Definition end_node : INode := {| name := "End"; type := "set"; disabled := false |}.

Definition bridge_graph : DirectedGraph :=
  graph_of_lists [start_node; off_node; end_node]
    [main_connection start_node off_node 1 0; main_connection off_node end_node 0 2].

Lemma bridge_graph_ok : GraphOk bridge_graph /\ Unambiguous bridge_graph.
Proof.
  assert (GraphOk bridge_graph) by (apply graph_ok_spec; vm_compute; reflexivity).
  split; [done|]. apply plain_names_unambiguous; [done|]. vm_compute. reflexivity.
Qed.

Lemma filterDisabledNodes_bridges_witness :
  exists h, filterDisabledNodes bridge_graph = Ok h /\
    (main_connection start_node end_node 1 2 ∈ connection_values h <->
     through bridge_graph is_disabled (main_connection start_node end_node 1 2)).
Proof.
  destruct (filterDisabledNodes_bridges bridge_graph (proj1 bridge_graph_ok) (proj2 bridge_graph_ok))
    as (h & Hh & _ & Hc).
  exists h. split; [exact Hh|]. apply Hc; reflexivity.
Defined.

Lemma bridge_graph_no_loop : no_disabled_loop bridge_graph.
Proof.
  assert (Hall : forall c, c ∈ connection_values bridge_graph -> from c <> to c /\ is_disabled (from c) -> to c = end_node).
  { intros c Hc. repeat (apply elem_of_cons in Hc as [->|Hc]; [intros [_ Hd]; vm_compute in Hd; first [done|reflexivity]|]).
    by apply elem_of_nil in Hc. }
  intros c Hc _ Hd Heq.
  assert (Hin : forall c, through bridge_graph is_disabled c -> c ∈ connection_values bridge_graph \/
    from c = start_node).
  { induction 1 as [c' Hc'|c' rest Hc' _ HP _ _ _ Hfr]; [by left|right]. simpl.
    repeat (apply elem_of_cons in Hc' as [->|Hc']; [first [reflexivity|vm_compute in HP; discriminate]|]).
    by apply elem_of_nil in Hc'. }
  destruct (Hin c Hc) as [Hc'|Hs]; [|rewrite Hs in Hd; vm_compute in Hd; discriminate].
  repeat (apply elem_of_cons in Hc' as [->|Hc']; [vm_compute in Heq; discriminate|]). by apply elem_of_nil in Hc'.
Qed.
