(* ===== verification/PartialSubgraph.v ===== *)
(** * Partial execution: the subgraph between the trigger and the destination

    [find-subgraph.ts].  [findSubgraphRecursive] walks backwards from the destination and
    keeps the branches that reach the trigger or close a cycle; the result graph is
    threaded through the calls.  [Kept] says which connections the walk keeps. *)

From stdpp Require Import base gmap strings pretty list relations.
From Stdlib Require Import ZArith Lia.
From S2P Require Import Prelude.
From S2P Require Import JsCollections.
From S2P Require Import PartialGraph.
From S2P Require Import PartialFilter.

(** [newGraph.addNodes(connection.from, connection.to); newGraph.addConnection(connection)]. *)
Definition add_with_nodes (newGraph : DirectedGraph) (c : GraphConnection) : presult DirectedGraph :=
  addConnection (addNodes newGraph [from c; to c]) c.

Fixpoint findSubgraphRecursive (fuel : nat) (g : DirectedGraph) (destinationNode current trigger : INode)
    (newGraph : DirectedGraph) (currentBranch : list GraphConnection) : presult DirectedGraph :=
  match fuel with
  | 0 => Err OutOfFuel
  | Datatypes.S fuel' =>
      if decide (current = trigger) then foldE add_with_nodes (addNode newGraph trigger) currentBranch
      else
        getDirectParentConnections g current ≫= fun parentConnections =>
        if bool_decide (length parentConnections = 0) then Ok newGraph
        else if bool_decide (current = destinationNode) &&
                arr_some (fun c => bool_decide (to c = destinationNode)) currentBranch then Ok newGraph
        else if arr_some (fun c => bool_decide (to c = current)) currentBranch
        then foldE add_with_nodes newGraph currentBranch
        else
          foldE (fun newGraph parentConnection =>
            if not_main parentConnection then Ok newGraph
            else findSubgraphRecursive fuel' g destinationNode (from parentConnection) trigger newGraph
                   (currentBranch ++ [parentConnection])) newGraph parentConnections
  end.

(** Along a branch the nodes expanded are different, so its length is bounded. *)
Definition findSubgraph (g : DirectedGraph) (destination trigger : INode) : presult DirectedGraph :=
  findSubgraphRecursive (length (nodes g) + 2) g destination destination trigger empty_graph [] ≫= fun subgraph =>
  foldE (fun subgraph node =>
    getParentConnections g node ≫= fun parentConnections =>
    foldE (fun subgraph c => if not_main c then add_with_nodes subgraph c else Ok subgraph) subgraph parentConnections)
    subgraph (node_values subgraph).

(** ** Growing a part of a graph *)

(** [h] is a part of [g]. *)
Record PartOf (g h : DirectedGraph) : Prop := {
  po_ok : GraphOk h;
  po_nodes : forall n, n ∈ node_values h -> n ∈ node_values g;
  po_connections : forall c, c ∈ connection_values h -> c ∈ connection_values g;
}.

Lemma elem_of_addNode (h : DirectedGraph) (n m : INode) :
  GraphOk h -> (forall k, k ∈ node_values h -> name k = name n -> k = n) ->
  m ∈ node_values (addNode h n) <-> m = n \/ m ∈ node_values h.
Proof.
  intros Hh Hn. unfold node_values, addNode. simpl. rewrite !snd_elem. split.
  - intros (k & Hk). apply elem_of_map_set in Hk as [[= -> ->]|[_ Hk]]; [by left|right; eauto|apply (go_nodes h Hh)].
  - intros [->|(k & Hk)].
    + exists (name n). apply elem_of_map_set; [apply (go_nodes h Hh)|by left].
    + exists k. apply elem_of_map_set; [apply (go_nodes h Hh)|]. pose proof (go_names h Hh _ Hk) as Hkm. simpl in Hkm. subst k.
      destruct (decide (name m = name n)) as [Heq|?]; [left|by right]. f_equal; [done|]. apply Hn; [|done].
      apply snd_elem. eauto.
Qed.

Lemma addNode_part (g h : DirectedGraph) (n : INode) :
  GraphOk g -> PartOf g h -> n ∈ node_values g ->
  PartOf g (addNode h n) /\ (forall m, m ∈ node_values (addNode h n) <-> m = n \/ m ∈ node_values h).
Proof.
  intros Hg [Hh Hn Hc] Hng.
  assert (Hel : forall m, m ∈ node_values (addNode h n) <-> m = n \/ m ∈ node_values h).
  { intros m. apply elem_of_addNode; [done|]. intros k Hk Hkn. apply (names_determine g); auto. }
  split; [|done]. split; [|intros m [->|Hm]%Hel; auto|done].
  destruct Hh as [H1 H2 H3 H4 H5 H6]. split; simpl; try done.
  - by apply map_set_NoDup.
  - intros p Hp. apply elem_of_map_set in Hp as [->|[_ Hp]]; [done|by apply H2|done].
  - intros c Hcc. apply Hel. right. by apply H5.
  - intros c Hcc. apply Hel. right. by apply H6.
Qed.

Lemma add_with_nodes_part (g h : DirectedGraph) (c : GraphConnection) :
  GraphOk g -> PartOf g h -> c ∈ connection_values g ->
  exists h', add_with_nodes h c = Ok h' /\ PartOf g h' /\
    (forall d, d ∈ connection_values h' <-> d = c \/ d ∈ connection_values h) /\
    (forall m, m ∈ node_values h' <-> m = from c \/ m = to c \/ m ∈ node_values h).
Proof.
  intros Hg Hh Hc.
  destruct (addNode_part g h (from c) Hg Hh) as [H1 E1]; [by apply (go_from g)|].
  destruct (addNode_part g (addNode h (from c)) (to c) Hg H1) as [H2 E2]; [by apply (go_to g)|].
  set (h2 := addNode (addNode h (from c)) (to c)) in *.
  unfold add_with_nodes. change (addNodes h [from c; to c]) with h2. unfold addConnection.
  pose proof (po_ok _ _ H2) as Hok.
  rewrite !(proj2 (in_graph_iff h2 _ Hok)); [|rewrite E2, E1; tauto..]. simpl. eexists. split; [done|].
  assert (Hset : forall p, p ∈ map_set (makeKey c) c (connections h2) <-> p = (makeKey c, c) \/ p.1 <> makeKey c /\ p ∈ connections h2).
  { intros p. apply elem_of_map_set, (go_connections h2 Hok). }
  assert (Hel : forall d, d ∈ connection_values (set_connection h2 c) <-> d = c \/ d ∈ connection_values h).
  { intros d. unfold connection_values. rewrite !snd_elem.
    change (connections (set_connection h2 c)) with (map_set (makeKey c) c (connections h2)). setoid_rewrite Hset. split.
    - intros (k & [[= -> ->]|[_ Hk]]); [by left|right; eauto].
    - intros [->|(k & Hk)]; [eauto|]. pose proof (go_keys h2 Hok _ Hk) as Hkd. simpl in Hkd. subst k.
      destruct (decide (makeKey d = makeKey c)) as [Heq|?]; [|eauto]. assert (d = c) as ->; [|eauto].
      assert (Hd : d ∈ connection_values g) by (apply (po_connections _ _ Hh), snd_elem; eauto).
      apply snd_elem in Hd as (k1 & Hd). apply snd_elem in Hc as (k2 & Hc).
      pose proof (go_keys g Hg _ Hd) as Hk1. pose proof (go_keys g Hg _ Hc) as Hk2. simpl in *. subst k1 k2.
      apply (elem_of_map_get _ _ _ (go_connections g Hg)) in Hd, Hc. rewrite Heq in Hd. congruence. }
  split_and!; [|done|].
  - destruct H2 as [_ Hn2 Hc2]. split; [|done|].
    + destruct Hok as [K1 K2 K3 K4 K5 K6]. split; simpl; try done.
      * by apply map_set_NoDup.
      * intros p [->|[_ Hp]]%Hset; [done|by apply K4].
      * intros d [->|Hd]%Hel; [apply E2; rewrite E1; tauto|by apply K5].
      * intros d [->|Hd]%Hel; [apply E2; tauto|by apply K6].
    + intros d [->|Hd]%Hel; [done|]. by apply Hh.
  - intros m. change (node_values (set_connection h2 c)) with (node_values h2). rewrite E2, E1. tauto.
Qed.

(** [h'] is [h] with the connections of [K], and the node [n] if [N]. *)
Record Grown (g h h' : DirectedGraph) (K : GraphConnection -> Prop) (N : INode -> Prop) : Prop := {
  gr_part : PartOf g h';
  gr_connections : forall c, c ∈ connection_values h' <-> c ∈ connection_values h \/ K c;
  gr_nodes : forall n, n ∈ node_values h' <->
    n ∈ node_values h \/ N n \/ exists c, K c /\ (n = from c \/ n = to c);
}.

Lemma grown_none (g h : DirectedGraph) : PartOf g h -> Grown g h h (fun _ => False) (fun _ => False).
Proof. intros Hh. split; [done|naive_solver|naive_solver]. Qed.

Lemma grown_trans (g h1 h2 h3 : DirectedGraph) (K1 K2 : GraphConnection -> Prop) (N1 N2 : INode -> Prop) :
  Grown g h1 h2 K1 N1 -> Grown g h2 h3 K2 N2 -> Grown g h1 h3 (fun c => K1 c \/ K2 c) (fun n => N1 n \/ N2 n).
Proof.
  intros [_ C1 M1] [P2 C2 M2]. split; [done| |].
  - intros c. rewrite C2, C1. tauto.
  - intros n. rewrite M2, M1. split.
    + intros [[?|[?|(c & ? & ?)]]|[?|(c & ? & ?)]]; [tauto|tauto| |tauto|]; right; right; exists c; tauto.
    + intros [?|[[?|?]|(c & [?|?] & ?)]]; [tauto|tauto|tauto| |]; [left|right]; right; right || idtac; eauto.
Qed.

Lemma grown_iff (g h h' : DirectedGraph) (K1 K2 : GraphConnection -> Prop) (N1 N2 : INode -> Prop) :
  (forall c, K1 c <-> K2 c) -> (forall n, N1 n <-> N2 n) -> Grown g h h' K1 N1 -> Grown g h h' K2 N2.
Proof.
  intros HK HN [P C M]. split; [done| |].
  - intros c. rewrite C, HK. done.
  - intros n. rewrite M, HN. setoid_rewrite HK. done.
Qed.

(** A loop each round of which grows the graph grows it by all of them. *)
Lemma grown_fold {A} (g : DirectedGraph) (f : DirectedGraph -> A -> presult DirectedGraph)
    (K : A -> GraphConnection -> Prop) (N : A -> INode -> Prop) (l : list A) (h : DirectedGraph) :
  (forall x h, x ∈ l -> PartOf g h -> exists h', f h x = Ok h' /\ Grown g h h' (K x) (N x)) -> PartOf g h ->
  exists h', foldE f h l = Ok h' /\
    Grown g h h' (fun c => exists x, x ∈ l /\ K x c) (fun n => exists x, x ∈ l /\ N x n).
Proof.
  revert h. induction l as [|x l IH]; intros h Hf Hh; simpl.
  - exists h. split; [done|]. eapply grown_iff; [..|by apply grown_none]; intros y; split; try done;
      by intros (? & ?%not_elem_of_nil & _).
  - destruct (Hf x h ltac:(by left) Hh) as (h1 & -> & H1).
    destruct (IH h1) as (h2 & -> & H2); [intros y h' Hy; apply Hf; by right|apply H1|].
    exists h2. split; [done|]. eapply grown_iff; [..|exact (grown_trans _ _ _ _ _ _ _ _ H1 H2)]; intros y; simpl.
    + split; [intros [?|(z & ? & ?)]; [exists x|exists z]; (split; [by (left || right)|done])|].
      intros (z & [->|Hz]%elem_of_cons & ?); [by left|right; eauto].
    + split; [intros [?|(z & ? & ?)]; [exists x|exists z]; (split; [by (left || right)|done])|].
      intros (z & [->|Hz]%elem_of_cons & ?); [by left|right; eauto].
Qed.

Lemma add_all_grown (g h : DirectedGraph) (cs : list GraphConnection) :
  GraphOk g -> PartOf g h -> (forall c, c ∈ cs -> c ∈ connection_values g) ->
  exists h', foldE add_with_nodes h cs = Ok h' /\ Grown g h h' (fun c => c ∈ cs) (fun _ => False).
Proof.
  intros Hg Hh Hcs.
  destruct (grown_fold g add_with_nodes (fun x c => c = x) (fun _ _ => False) cs h) as (h' & Hr & Hgr); [|done|].
  - intros c h0 Hc H0. destruct (add_with_nodes_part g h0 c Hg H0 (Hcs c Hc)) as (h1 & -> & Hp & He & Hn).
    exists h1. split; [done|]. split; [done|intros d; rewrite He; tauto|]. intros n. rewrite Hn. naive_solver.
  - exists h'. split; [done|]. eapply grown_iff; [..|exact Hgr]; intros y; naive_solver.
Qed.

(** ** What the walk keeps *)

Section walk.
Context (g : DirectedGraph) (dest trigger : INode).

(** A call's current node ends its branch: the destination again, or a node of it. *)
Definition back_at_destination (current : INode) (branch : list GraphConnection) : Prop :=
  current = dest /\ exists c, c ∈ branch /\ to c = dest.
Definition closes_cycle (current : INode) (branch : list GraphConnection) : Prop :=
  exists c, c ∈ branch /\ to c = current.

Definition has_parent (current : INode) : Prop := exists c, c ∈ connection_values g /\ to c = current.

(** The connections the call with this node and branch keeps, its inner calls included. *)
Inductive Kept : INode -> list GraphConnection -> GraphConnection -> Prop :=
  | kept_trigger branch c : c ∈ branch -> Kept trigger branch c
  | kept_cycle current branch c :
      current <> trigger -> has_parent current -> ~ back_at_destination current branch ->
      closes_cycle current branch -> c ∈ branch -> Kept current branch c
  | kept_parent current branch p c :
      current <> trigger -> ~ closes_cycle current branch ->
      p ∈ connection_values g -> to p = current -> ctype p = Main ->
      Kept (from p) (branch ++ [p]) c -> Kept current branch c.

(** The call, or an inner one, arrives at the trigger. *)
Inductive Arrives : INode -> list GraphConnection -> Prop :=
  | arrives_trigger branch : Arrives trigger branch
  | arrives_parent current branch p :
      current <> trigger -> ~ closes_cycle current branch ->
      p ∈ connection_values g -> to p = current -> ctype p = Main ->
      Arrives (from p) (branch ++ [p]) -> Arrives current branch.
End walk.

Lemma not_main_true (c : GraphConnection) : not_main c = false <-> ctype c = Main.
Proof. unfold not_main. by rewrite negb_false_iff, bool_decide_eq_true. Qed.

Lemma some_to (branch : list GraphConnection) (n : INode) :
  arr_some (fun c => bool_decide (to c = n)) branch = true <-> exists c, c ∈ branch /\ to c = n.
Proof. rewrite arr_some_true. by setoid_rewrite bool_decide_eq_true. Qed.

Lemma findSubgraphRecursive_kept (g : DirectedGraph) (dest trigger : INode) (fuel : nat) :
  GraphOk g -> trigger ∈ node_values g ->
  forall current h branch, PartOf g h -> current ∈ node_values g ->
  (forall c, c ∈ branch -> c ∈ connection_values g) -> NoDup (map to branch) ->
  length (nodes g) + 2 <= fuel + length branch ->
  exists h', findSubgraphRecursive fuel g dest current trigger h branch = Ok h' /\
    Grown g h h' (Kept g dest trigger current branch) (fun n => n = trigger /\ Arrives g trigger current branch).
Proof.
  intros Hg Htr. induction fuel as [|fuel IH]; intros current h branch Hh Hcur Hb Hnd Hf.
  { assert (Hle : length (map to branch) <= length (node_values g)).
    { apply submseteq_length, NoDup_submseteq; [done|]. intros n (c & -> & Hc)%list_elem_of_fmap. by apply (go_to g), Hb. }
    unfold node_values in Hle. rewrite length_map, length_fmap in Hle. simpl in Hf. lia. }
  simpl. case_decide as Ht.
  { subst current. destruct (addNode_part g h trigger Hg Hh Htr) as [Hh1 He].
    destruct (add_all_grown g (addNode h trigger) branch Hg Hh1 Hb) as (h' & Hr & [Hp Hc Hn]).
    exists h'. split; [done|]. split; [done| |].
    - intros c. rewrite Hc. change (connection_values (addNode h trigger)) with (connection_values h).
      split; [intros [?|?]; [by left|right; by constructor]|]. intros [?|Hk]; [by left|right]. by inversion Hk.
    - intros n. rewrite Hn, He. assert (Ha : Arrives g trigger trigger branch) by constructor.
      assert (Hk : forall c, Kept g dest trigger trigger branch c <-> c ∈ branch).
      { intros c. split; [intros Hk; by inversion Hk|by constructor]. }
      setoid_rewrite Hk. naive_solver. }
  destruct (direct_parents g current Hg Hcur) as (ps & -> & Hps). simpl.
  assert (Hpar : has_parent g current <-> ps <> []).
  { unfold has_parent. split; [intros (c & Hc); destruct ps; [|done]; by apply Hps, elem_of_nil in Hc|].
    intros Hne. destruct ps as [|p ps]; [done|]. exists p. apply Hps. by left. }
  assert (Hnone : forall b : bool, (b = true -> ~ has_parent g current \/ back_at_destination dest current branch) ->
    b = true -> Grown g h h (Kept g dest trigger current branch) (fun n => n = trigger /\ Arrives g trigger current branch)).
  { intros b Hb' Hbt. specialize (Hb' Hbt).
    assert (Hcl : back_at_destination dest current branch -> closes_cycle current branch) by by intros [-> ?].
    eapply grown_iff; [..|by apply grown_none]; intros y; split; try done.
    - intros Hk. inversion Hk; subst; [done|by destruct Hb'|]. destruct Hb' as [Hno|?]; [|by auto]. apply Hno. by eexists.
    - intros [_ Ha]. inversion Ha; subst; [done|]. destruct Hb' as [Hno|?]; [|by auto]. apply Hno. by eexists. }
  destruct (bool_decide (length ps = 0)) eqn:Hlen.
  { exists h. split; [done|]. apply (Hnone true); [|done]. intros _. left. rewrite Hpar. apply bool_decide_eq_true in Hlen.
    apply nil_length_inv in Hlen. tauto. }
  assert (Hpc : has_parent g current). { apply Hpar. intros ->. by rewrite bool_decide_eq_true_2 in Hlen. }
  destruct (bool_decide (current = dest) && _) eqn:Hdest.
  { exists h. split; [done|]. apply (Hnone true); [|done]. intros _. right.
    apply andb_true_iff in Hdest as [?%bool_decide_eq_true ?%some_to]. done. }
  assert (Hnb : ~ back_at_destination dest current branch).
  { intros [Hd Hc]. rewrite bool_decide_eq_true_2 in Hdest by done. apply some_to in Hc. rewrite Hc in Hdest. done. }
  destruct (arr_some (fun c => bool_decide (to c = current)) branch) eqn:Hcyc.
  { apply some_to in Hcyc. destruct (add_all_grown g h branch Hg Hh Hb) as (h' & Hr & Hgr).
    exists h'. split; [done|]. eapply grown_iff; [..|exact Hgr]; intros y; split; try done.
    - intros ?. by apply kept_cycle.
    - intros Hk. by inversion Hk.
    - intros [_ Ha]. by inversion Ha. }
  assert (Hncyc : ~ closes_cycle current branch).
  { intros Hc. apply some_to in Hc. congruence. }
  destruct (grown_fold g
    (fun h p => if not_main p then Ok h else findSubgraphRecursive fuel g dest (from p) trigger h (branch ++ [p]))
    (fun p c => ctype p = Main /\ Kept g dest trigger (from p) (branch ++ [p]) c)
    (fun p n => ctype p = Main /\ n = trigger /\ Arrives g trigger (from p) (branch ++ [p])) ps h) as (h' & Hr & Hgr); [|done|].
  - intros p h0 Hp Hh0. apply Hps in Hp as [Hp Htp]. destruct (not_main p) eqn:Hm.
    + exists h0. split; [done|]. assert (ctype p <> Main) by (intros ?%not_main_true; congruence).
      eapply grown_iff; [..|by apply grown_none]; intros y; tauto.
    + apply not_main_true in Hm. destruct (IH (from p) h0 (branch ++ [p])) as (h1 & -> & H1); [done|by apply (go_from g)| | | |].
      * intros c [?|?%list_elem_of_singleton]%elem_of_app; [auto|by subst].
      * rewrite map_app. apply NoDup_app. split_and!; [done| |apply NoDup_singleton].
        intros n (c & -> & Hc)%list_elem_of_fmap Hn%list_elem_of_singleton. apply Hncyc. exists c. split; [done|]. congruence.
      * rewrite length_app. simpl. lia.
      * exists h1. split; [done|]. eapply grown_iff; [..|exact H1]; intros y; tauto.
  - exists h'. split; [done|]. eapply grown_iff; [..|exact Hgr]; intros y; split.
    + intros (p & [Hp Htp]%Hps & Hm & Hk). by eapply kept_parent.
    + intros Hk. inversion Hk as [|? ? ? ? ? ? Hc|? ? p ? ? ? Hp Htp Hm Hk']; subst; [done|done|].
      exists p. split_and!; try done. by apply Hps.
    + intros (p & [Hp Htp]%Hps & Hm & -> & Ha). split; [done|]. by eapply arrives_parent.
    + intros [-> Ha]. inversion Ha as [|? ? p ? ? Hp Htp Hm Ha']; subst; [done|]. exists p. split_and!; try done. by apply Hps.
Qed.

Section paths.
Context (g : DirectedGraph) (dest trigger : INode).

(** From the node a [main] path leads to the destination that never leaves the trigger. *)
Inductive onward : INode -> Prop :=
  | onward_dest : dest <> trigger -> onward dest
  | onward_step c :
      c ∈ connection_values g -> ctype c = Main -> onward (to c) -> from c <> trigger -> onward (from c).

(** From the trigger a [main] path leads to the node that never enters the destination. *)
Inductive reached : INode -> Prop :=
  | reached_trigger : reached trigger
  | reached_step c :
      c ∈ connection_values g -> ctype c = Main -> reached (from c) -> to c <> dest -> reached (to c).

Lemma closes_cycle_dec (n : INode) (branch : list GraphConnection) : {closes_cycle n branch} + {~ closes_cycle n branch}.
Proof.
  destruct (arr_some (fun c => bool_decide (to c = n)) branch) eqn:H; [left|right].
  - by apply some_to.
  - intros Hc. apply some_to in Hc. congruence.
Qed.

(** A branch that goes on to a node the trigger reaches is kept. *)
Lemma reached_keeps (n : INode) :
  reached n -> forall branch c, c ∈ branch -> Kept g dest trigger n branch c.
Proof.
  induction 1 as [|p Hp Hm Hr IH Hd]; intros branch c Hc; [by constructor|].
  destruct (decide (to p = trigger)) as [->|Ht]; [by constructor|].
  destruct (closes_cycle_dec (to p) branch) as [Hcyc|Hcyc].
  - apply kept_cycle; try done; [by exists p|by intros [? _]].
  - eapply kept_parent; try done. apply IH, elem_of_app. by left.
Qed.

(** A branch the walk follows: no node expanded twice, and none is the trigger. *)
Inductive chain : list GraphConnection -> INode -> Prop :=
  | chain_nil : chain [] dest
  | chain_snoc branch c :
      chain branch (to c) -> c ∈ connection_values g -> ctype c = Main -> to c <> trigger ->
      ~ closes_cycle (to c) branch -> chain (branch ++ [c]) (from c).

Lemma chain_live (branch : list GraphConnection) (n : INode) :
  chain branch n -> forall c, Kept g dest trigger n branch c -> Kept g dest trigger dest [] c.
Proof. induction 1 as [|branch p Hch IH Hp Hm Ht Hcyc]; intros c Hk; [done|]. apply IH. by eapply kept_parent. Qed.

Lemma chain_cut (branch : list GraphConnection) (n z : INode) :
  chain branch n -> closes_cycle z branch -> z <> trigger /\ exists b, chain b z /\ ~ closes_cycle z b.
Proof.
  induction 1 as [|branch p Hch IH Hp Hm Ht Hcyc]; intros (c & Hc & <-); [by apply elem_of_nil in Hc|].
  apply elem_of_app in Hc as [Hc|Hc%list_elem_of_singleton]; [apply IH; by exists c|subst]. eauto.
Qed.

(** Loops cut out, the walk gets to every node of a path to the destination. *)
Lemma onward_chain (n : INode) : onward n -> n <> trigger /\ exists b, chain b n /\ ~ closes_cycle n b.
Proof.
  induction 1 as [Hd|c Hc Hm Ho [Ht (b & Hb & Hcyc)] Hf].
  - split; [done|]. exists []. split; [constructor|]. by intros (c & ?%elem_of_nil & _).
  - split; [done|]. destruct (closes_cycle_dec (from c) (b ++ [c])) as [Hz|Hz].
    + eapply chain_cut; [|done]. by constructor.
    + exists (b ++ [c]). split; [by constructor|done].
Qed.

Lemma kept_complete (c : GraphConnection) :
  c ∈ connection_values g -> ctype c = Main -> reached (from c) -> onward (to c) -> Kept g dest trigger dest [] c.
Proof.
  intros Hc Hm Hr Ho. destruct (onward_chain (to c) Ho) as (Ht & b & Hb & Hcyc).
  apply (chain_live b (to c)); [done|]. eapply kept_parent; try done. apply reached_keeps; [done|].
  apply elem_of_app. right. by left.
Qed.

Lemma kept_sound (n : INode) (branch : list GraphConnection) (c : GraphConnection) :
  Kept g dest trigger n branch c ->
  (forall b, b ∈ branch -> b ∈ connection_values g /\ ctype b = Main /\ onward (to b)) -> (n <> trigger -> onward n) ->
  c ∈ connection_values g /\ ctype c = Main /\ onward (to c).
Proof.
  induction 1 as [| |n branch p c Hnt Hcyc Hp Ht Hm Hk IH]; intros Hb Hn; auto. apply IH.
  - intros b [?|Hbp%list_elem_of_singleton]%elem_of_app; [auto|subst]. auto.
  - intros Hf. apply onward_step; auto. rewrite Ht. auto.
Qed.

Lemma kept_top (c : GraphConnection) :
  Kept g dest trigger dest [] c -> c ∈ connection_values g /\ ctype c = Main /\ onward (to c).
Proof.
  intros Hk. eapply kept_sound; [done|by intros b ?%elem_of_nil|]. intros. by constructor.
Qed.

(** Arriving at the trigger keeps the branch taken. *)
Lemma arrives_keeps (n : INode) (branch : list GraphConnection) :
  Arrives g trigger n branch -> (forall c, c ∈ branch -> Kept g dest trigger n branch c) /\
  (n = trigger \/ exists c, Kept g dest trigger n branch c /\ from c = trigger).
Proof.
  induction 1 as [branch|n branch p Hn Hcyc Hp Ht Hm Ha [IH1 IH2]].
  - split; [by constructor|by left].
  - split.
    + intros c Hc. eapply kept_parent; try done. apply IH1, elem_of_app. by left.
    + right. destruct IH2 as [Hf|(c & Hc & Hf)].
      * exists p. split; [|done]. eapply kept_parent; try done. apply IH1, elem_of_app. right. by left.
      * exists c. split; [|done]. by eapply kept_parent.
Qed.
End paths.

(** ** Ancestors *)

Lemma parent_rel (g : DirectedGraph) (y c : GraphConnection) :
  GraphOk g -> from y ∈ node_values g ->
  succ_rel (parent_connections g) y c <-> c ∈ connection_values g /\ to c = from y.
Proof.
  intros Hg Hy. destruct (direct_parents g (from y) Hg Hy) as (l & Hl & Hc).
  unfold succ_rel, parent_connections. rewrite Hl, <-Hc. split; [by intros (l' & [= <-] & ?)|eauto].
Qed.

Lemma tc_parent_rel (g : DirectedGraph) (x c : GraphConnection) :
  GraphOk g -> from x ∈ node_values g ->
  tc (succ_rel (parent_connections g)) x c <-> c ∈ connection_values g /\ rtc (edge g) (to c) (from x).
Proof.
  intros Hg Hx. split.
  - intros Ht. induction Ht as [x c Hxc|x y c Hxy Hyc IH].
    + apply parent_rel in Hxc as [? ->]; [|done|done]. split; [done|constructor].
    + apply parent_rel in Hxy as [Hy Hyx]; [|done|done]. destruct IH as [Hcg Hr]; [by apply (go_from g)|].
      split; [done|]. eapply rtc_r; [done|]. by exists y.
  - intros [Hc Hr]. cut (forall b, rtc (edge g) (to c) b -> forall x, b = from x -> from x ∈ node_values g ->
      tc (succ_rel (parent_connections g)) x c); [intros H; by eapply H|]. clear x Hx Hr.
    apply (rtc_ind_r (fun b => forall x, b = from x -> from x ∈ node_values g -> tc (succ_rel (parent_connections g)) x c)).
    + intros x Hb Hx. apply tc_once, parent_rel; [done|done|]. done.
    + intros y z Hr Hyz IH x Hb Hx. destruct Hyz as (e & He & Hfe & Hte). eapply tc_l; [|apply (IH e); [done|]].
      * apply parent_rel; [done|done|]. split; [done|congruence].
      * by apply (go_from g).
Qed.

Lemma getParentConnections_ancestors (g : DirectedGraph) (n : INode) :
  GraphOk g -> n ∈ node_values g ->
  exists l, getParentConnections g n = Ok l /\
    forall c, c ∈ l <-> c ∈ connection_values g /\ rtc (edge g) (to c) n.
Proof.
  intros Hg Hn. unfold getParentConnections.
  set (c0 := main_connection n n 0 0). change n with (from c0) at 1. rewrite getParentConnectionsRecursive_dfs.
  destruct (dfs_reaches OutOfFuel (parent_connections g) (connection_values g) (length (connections g) + 1) c0)
    as (l & Hl & _ & Hc).
  - intros y Hy. assert (Hf : from y ∈ node_values g).
    { apply elem_of_cons in Hy as [->|Hy]; [done|by apply (go_from g)]. }
    destruct (direct_parents g (from y) Hg Hf) as (l & Hl & Hc). exists l. split; [done|]. by intros z [? _]%Hc.
  - unfold connection_values. rewrite length_fmap. lia.
  - exists l. split; [done|]. intros c. rewrite Hc. by apply (tc_parent_rel g c0).
Qed.

(** ** The whole search *)

(** The nodes the walk itself adds. *)
Definition walked (h : DirectedGraph) (dest trigger n : INode) : Prop :=
  (n = trigger /\ trigger = dest) \/
  exists c, c ∈ connection_values h /\ ctype c = Main /\ (n = from c \/ n = to c).

(** What the search returns. *)
Lemma findSubgraph_spec (g : DirectedGraph) (destination trigger : INode) :
  GraphOk g -> destination ∈ node_values g -> trigger ∈ node_values g ->
  exists h, findSubgraph g destination trigger = Ok h /\ PartOf g h /\
    (forall c, c ∈ connection_values h -> ctype c = Main -> onward g destination trigger (to c)) /\
    (forall c, c ∈ connection_values g -> ctype c = Main -> reached g destination trigger (from c) ->
       onward g destination trigger (to c) -> c ∈ connection_values h) /\
    (forall c, ctype c <> Main -> c ∈ connection_values h <->
       c ∈ connection_values g /\ exists n, walked h destination trigger n /\ rtc (edge g) (to c) n) /\
    (forall n, walked h destination trigger n -> n ∈ node_values h).
Proof.
  intros Hg Hd Ht. unfold findSubgraph.
  assert (He : PartOf g empty_graph).
  { split; [split; try constructor; by intros ? ?%elem_of_nil|by intros ? ?%elem_of_nil|by intros ? ?%elem_of_nil]. }
  destruct (findSubgraphRecursive_kept g destination trigger (length (nodes g) + 2) Hg Ht destination empty_graph [] He Hd)
    as (h1 & -> & H1); [by intros ? ?%elem_of_nil|constructor|simpl; lia|]. simpl.
  set (f := fun (h : DirectedGraph) (c : GraphConnection) => if not_main c then add_with_nodes h c else Ok h).
  assert (Hinner : forall n h, n ∈ node_values h1 -> PartOf g h -> exists h',
    (getParentConnections g n ≫= fun ps => foldE f h ps) = Ok h' /\
    Grown g h h' (fun c => ctype c <> Main /\ c ∈ connection_values g /\ rtc (edge g) (to c) n) (fun _ => False)).
  { intros n h Hn Hh. destruct (getParentConnections_ancestors g n Hg) as (ps & -> & Hps); [by apply H1|]. simpl.
    destruct (grown_fold g f (fun p c => ctype p <> Main /\ c = p) (fun _ _ => False) ps h) as (h' & Hr & Hgr); [|done|].
    - intros p h0 Hp Hh0. apply Hps in Hp as [Hp _]. unfold f. destruct (not_main p) eqn:Hm.
      + destruct (add_with_nodes_part g h0 p Hg Hh0 Hp) as (h2 & -> & Hp2 & He2 & Hn2). exists h2. split; [done|].
        assert (ctype p <> Main) by (intros ?%not_main_true; congruence).
        split; [done|intros c; rewrite He2; tauto|]. intros m. rewrite Hn2. naive_solver.
      + apply not_main_true in Hm. exists h0. split; [done|]. eapply grown_iff; [..|by apply grown_none]; intros y; tauto.
    - exists h'. split; [done|]. eapply grown_iff; [..|exact Hgr]; intros y.
      + setoid_rewrite Hps. naive_solver.
      + naive_solver. }
  destruct (grown_fold g _ _ _ (node_values h1) h1 Hinner (gr_part _ _ _ _ _ H1)) as (h2 & -> & H2).
  exists h2. split; [done|].
  assert (Hmain : forall c, ctype c = Main -> c ∈ connection_values h2 <-> Kept g destination trigger destination [] c).
  { intros c Hm. rewrite (gr_connections _ _ _ _ _ H2), (gr_connections _ _ _ _ _ H1). unfold connection_values at 1. simpl.
    rewrite elem_of_nil. naive_solver. }
  assert (Hwalked : forall n, n ∈ node_values h1 <-> walked h2 destination trigger n).
  { intros n. rewrite (gr_nodes _ _ _ _ _ H1). unfold walked. unfold node_values at 1. simpl. rewrite elem_of_nil. split.
    - intros [[]|[[-> Ha]|(c & Hk & Hn)]].
      + apply (arrives_keeps g destination) in Ha as [_ [->|(c & Hk & <-)]]; [by left|].
        right. exists c. pose proof (kept_top _ _ _ _ Hk) as (_ & Hm & _). split; [by apply Hmain|]. by split; [|left].
      + right. exists c. pose proof (kept_top _ _ _ _ Hk) as (_ & Hm & _). split; [by apply Hmain|]. done.
    - intros [[-> <-]|(c & Hc & Hm & Hn)]; [right; left; split; [done|constructor]|].
      right. right. exists c. apply Hmain in Hc; done. }
  split_and!.
  - apply H2.
  - intros c Hc Hm. apply Hmain in Hc; [|done]. by apply kept_top in Hc as (_ & _ & ?).
  - intros c Hc Hm Hr Ho. apply Hmain; [done|]. by apply kept_complete.
  - intros c Hm. rewrite (gr_connections _ _ _ _ _ H2), (gr_connections _ _ _ _ _ H1). setoid_rewrite <-Hwalked. split.
    + intros [[Hc|Hk]|(n & Hn & _ & Hc & Hr)]; [by apply elem_of_nil in Hc|by apply kept_top in Hk as (_ & ? & _)|eauto].
    + intros [Hc (n & Hn & Hr)]. right. eauto 10.
  - intros n Hn%Hwalked. apply (gr_nodes _ _ _ _ _ H2). by left.
Qed.

(** The subgraph is what lies between the trigger and the destination.  Every [main]
    connection of it leads on to the destination without leaving the trigger again; every
    [main] connection of the graph that lies on a way from the trigger (not through the
    destination) on to the destination (not through the trigger) is in it; the other
    connections in it are exactly those above a node the walk added, and it is a well-formed
    part of the graph.  The search ends and throws nothing. *)
Lemma findSubgraph_between (g : DirectedGraph) (destination trigger : INode) :
  GraphOk g -> destination ∈ node_values g -> trigger ∈ node_values g ->
  exists h, findSubgraph g destination trigger = Ok h /\ PartOf g h /\
    (forall c, c ∈ connection_values h -> ctype c = Main -> onward g destination trigger (to c)) /\
    (forall c, c ∈ connection_values g -> ctype c = Main -> reached g destination trigger (from c) ->
       onward g destination trigger (to c) -> c ∈ connection_values h) /\
    (forall c, ctype c <> Main -> c ∈ connection_values h <->
       c ∈ connection_values g /\ exists n, walked h destination trigger n /\ rtc (edge g) (to c) n).
Proof.
  intros Hg Hd Ht. destruct (findSubgraph_spec g destination trigger Hg Hd Ht) as (h & ? & ? & ? & ? & ? & _). eauto 10.
Qed.

(** ** Concrete graphs *)

Local Open Scope string_scope.

Definition agent_node : INode := {| name := "Agent"; type := "agent"; disabled := false |}.
Definition model_node : INode := {| name := "Model"; type := "model"; disabled := false |}.
Definition stray_node : INode := {| name := "Stray"; type := "set"; disabled := false |}.

Definition agent_graph : DirectedGraph :=
  graph_of_lists [start_node; agent_node; model_node; end_node; stray_node]
    [main_connection start_node agent_node 0 0; main_connection agent_node end_node 0 0;
     main_connection agent_node stray_node 0 0;
     {| from := model_node; to := agent_node; ctype := "ai_languageModel"; outputIndex := 0; inputIndex := 0 |}].

Lemma findSubgraph_between_witness :
  GraphOk agent_graph /\
  exists h, findSubgraph agent_graph end_node start_node = Ok h /\
    main_connection start_node agent_node 0 0 ∈ connection_values h.
Proof.
  assert (Hg : GraphOk agent_graph) by (apply graph_ok_spec; vm_compute; reflexivity).
  split; [exact Hg|].
  assert (Hin : forall b, bool_decide (b ∈ connection_values agent_graph) = true -> b ∈ connection_values agent_graph).
  { intros b Hb. exact (bool_decide_eq_true_1 _ Hb). }
  destruct (findSubgraph_between agent_graph end_node start_node Hg) as (h & Hh & _ & _ & Hc & _).
  - refine (bool_decide_unpack _ _). vm_compute. exact I.
  - refine (bool_decide_unpack _ _). vm_compute. exact I.
  - exists h. split; [exact Hh|]. apply Hc; [apply Hin; vm_compute; reflexivity|reflexivity|apply reached_trigger|].
    apply (onward_step agent_graph end_node start_node (main_connection agent_node end_node 0 0)).
    + apply Hin. vm_compute. reflexivity.
    + reflexivity.
    + apply onward_dest. discriminate.
    + discriminate.
Defined.

(** A disabled node wired to itself, and what is left of it. *)
Definition looping_graph : DirectedGraph :=
  graph_of_lists [start_node; off_node; end_node]
    [main_connection start_node off_node 0 0; main_connection off_node off_node 0 0;
     main_connection off_node end_node 0 0].

(** The proviso of the closed result is needed: a disabled node wired to itself leaves
    connections from and to the removed node behind, and the search for the subgraph, the
    next step of a partial execution, then fails on the assertion that the removed node is
    part of the graph. *)
Lemma disabled_loop_breaks_the_search :
  GraphOk looping_graph /\
  exists h, filterDisabledNodes looping_graph = Ok h /\
    main_connection off_node end_node 0 0 ∈ connection_values h /\ off_node ∉ node_values h /\
    findSubgraph h end_node start_node = Err (not_part_of off_node).
Proof.
  split; [apply graph_ok_spec; vm_compute; reflexivity|]. eexists. split; [vm_compute; reflexivity|]. split_and!.
  - refine (bool_decide_unpack _ _). vm_compute. exact I.
  - refine (bool_decide_unpack _ _). vm_compute. exact I.
  - vm_compute. reflexivity.
Qed.

(** [getStronglyConnectedComponents] misses components.  On three nodes joined in both
    a short and a long way round, all of them on one cycle, it returns no component at all,
    not even singletons: low links are not passed on to nodes visited before the link to
    the root was found, so the stack is not popped down to it. *)
Lemma getStronglyConnectedComponents_misses :
  let a := start_node in let b := agent_node in let c := end_node in
  let g := graph_of_lists [a; b; c]
    [main_connection a b 0 0; main_connection b c 0 0; main_connection b a 0 0; main_connection c b 0 0] in
  GraphOk g /\ (forall x y, x ∈ [a; b; c] -> y ∈ [a; b; c] -> tc (edge g) x y) /\
  getStronglyConnectedComponents g = Ok [].
Proof.
  cbv zeta. split; [apply graph_ok_spec; vm_compute; reflexivity|]. split; [|vm_compute; reflexivity].
  set (g := graph_of_lists _ _).
  assert (He : forall x y, main_connection x y 0 0 ∈ connection_values g -> tc (edge g) x y).
  { intros x y H. apply tc_once. by exists (main_connection x y 0 0). }
  assert (Hab : tc (edge g) start_node agent_node) by (apply He; refine (bool_decide_unpack _ _); vm_compute; exact I).
  assert (Hbc : tc (edge g) agent_node end_node) by (apply He; refine (bool_decide_unpack _ _); vm_compute; exact I).
  assert (Hba : tc (edge g) agent_node start_node) by (apply He; refine (bool_decide_unpack _ _); vm_compute; exact I).
  assert (Hcb : tc (edge g) end_node agent_node) by (apply He; refine (bool_decide_unpack _ _); vm_compute; exact I).
  assert (Hto : forall x, x ∈ [start_node; agent_node; end_node] -> tc (edge g) x agent_node).
  { intros x Hx. repeat (apply elem_of_cons in Hx as [->|Hx]); [done|by etrans|done|by apply elem_of_nil in Hx]. }
  assert (Hof : forall x, x ∈ [start_node; agent_node; end_node] -> tc (edge g) agent_node x).
  { intros x Hx. repeat (apply elem_of_cons in Hx as [->|Hx]); [done|by etrans|done|by apply elem_of_nil in Hx]. }
  intros x y Hx Hy. etrans; [by apply Hto|by apply Hof].
Qed.
