(* ===== verification/PartialStart.v ===== *)
(** * Partial execution: where to start, and which run data to keep

    [get-incoming-data.ts], [find-start-nodes.ts], [handle-cycles.ts], [clean-run-data.ts]
    and [run-data-utils.ts].  Run data and pinned data are objects keyed by node name; the
    code looks names up and deletes them, so they are finite maps.  What an item of data
    holds is never looked at: it is the parameter [Item]. *)

From stdpp Require Import base gmap strings list relations.
From Stdlib Require Import ZArith Lia.
From S2P Require Import Prelude.
From S2P Require Import JsCollections.
From S2P Require Import PartialGraph.
From S2P Require Import PartialFilter.
From S2P Require Import PartialSubgraph.
Local Open Scope string_scope.
Local Open Scope list_scope.

Section data.
Context {Item : Type}.

(** The fields of [ITaskData] the code reads; [failed] is [error !== undefined]. *)
Record ITaskData := {
  failed : bool;
  data : option (gmap string (list (option (list Item))));
  executionIndex : option Z;
}.

Local Notation IRunData := (gmap string (list ITaskData)).
Local Notation IPinData := (gmap string (list Item)).

(** [Array.prototype.at]: a negative index counts from the end. *)
Definition arr_at {A} (l : list A) (i : Z) : option A :=
  at_index l (if (i <? 0)%Z then i + Z.of_nat (length l) else i)%Z.

Definition getIncomingData (runData : IRunData) (nodeName : string) (runIndex : Z) (connectionType : string)
    (output : Z) : option (list Item) :=
  runData !! nodeName ≫= fun runs => arr_at runs runIndex ≫= fun task => data task ≫= fun conns =>
  conns !! connectionType ≫= fun outputs => mjoin (arr_at outputs output).

(** The loop over run indices: the first run with items on the output. *)
Fixpoint first_run_with_data (runData : IRunData) (nodeName connectionType : string) (output : Z) (runIndex todo : nat) :
    option (list Item * nat) :=
  match todo with
  | 0 => None
  | Datatypes.S todo' =>
      match getIncomingData runData nodeName (Z.of_nat runIndex) connectionType output with
      | Some ((_ :: _) as d) => Some (d, runIndex)
      | _ => first_run_with_data runData nodeName connectionType output (Datatypes.S runIndex) todo'
      end
  end.

Definition getIncomingDataFromAnyRun (runData : IRunData) (nodeName connectionType : string) (output : Z) :
    option (list Item * nat) :=
  first_run_with_data runData nodeName connectionType output 0 (length (default [] (runData !! nodeName))).

(** It is the first run whose output has items. *)
Lemma getIncomingDataFromAnyRun_first (runData : IRunData) (nodeName connectionType : string) (output : Z) (d : list Item) (i : nat) :
  getIncomingDataFromAnyRun runData nodeName connectionType output = Some (d, i) <->
  getIncomingData runData nodeName (Z.of_nat i) connectionType output = Some d /\ d <> [] /\
  i < length (default [] (runData !! nodeName)) /\
  forall j d', j < i -> getIncomingData runData nodeName (Z.of_nat j) connectionType output = Some d' -> d' = [].
Proof.
  unfold getIncomingDataFromAnyRun. generalize (length (default [] (runData !! nodeName))). intros n.
  set (get j := getIncomingData runData nodeName (Z.of_nat j) connectionType output).
  cut (forall k, first_run_with_data runData nodeName connectionType output k n = Some (d, i) <->
    get i = Some d /\ d <> [] /\ k <= i < k + n /\ forall j d', k <= j < i -> get j = Some d' -> d' = []).
  { intros H. rewrite H. split; intros (? & ? & ? & Hj); split_and!; try done; try lia; intros j d' ?; apply Hj; lia. }
  induction n as [|n IH]; intros k; simpl; [split; [done|lia]|]. fold (get k).
  assert (Hskip : (forall d', get k = Some d' -> d' = []) ->
    (get i = Some d /\ d <> [] /\ Datatypes.S k <= i < Datatypes.S k + n /\
       (forall j d', Datatypes.S k <= j < i -> get j = Some d' -> d' = [])) <->
    get i = Some d /\ d <> [] /\ k <= i < k + Datatypes.S n /\ (forall j d', k <= j < i -> get j = Some d' -> d' = [])).
  { intros Hk. split; intros (Hi & Hd & Hr & Hj); split_and!; try done; try lia.
    - intros j d' Hjr. destruct (decide (j = k)) as [->|?]; [apply Hk|apply Hj; lia].
    - assert (i <> k) by (intros ->; by apply Hd, Hk). lia.
    - intros j d' Hjr. apply Hj. lia. }
  destruct (get k) as [[|x l]|] eqn:Hk; [rewrite IH; apply Hskip; congruence| |rewrite IH; apply Hskip; congruence].
  split.
  - intros [= <- <-]. split_and!; [done|done|lia|lia|lia].
  - intros (Hi & Hd & Hr & Hj). destruct (decide (i = k)) as [->|?]; [congruence|].
    exfalso. specialize (Hj k (x :: l) ltac:(lia) Hk). done.
Qed.

Definition isDirty (node : INode) (runData : IRunData) (pinData : IPinData) : bool :=
  if existsb failed (default [] (runData !! name node)) then true
  else if bool_decide (is_Some (pinData !! name node)) then false
  else negb (bool_decide (is_Some (runData !! name node))).

(** ** Start nodes *)

Definition isALoop (g : DirectedGraph) (node : INode) : presult bool :=
  getChildren g node ≫= fun children => Ok (bool_decide (node ∈ children)).

(** The loop node whose [done] output has no data on the last run. *)
Definition unfinished_loop (g : DirectedGraph) (runData : IRunData) (current : INode) : presult bool :=
  if bool_decide (type current = "n8n-nodes-base.splitInBatches") then
    isALoop g current ≫= fun (loop : bool) =>
    match getIncomingData runData (name current) (-1) Main (if loop then 0 else 1)%Z with
    | None | Some [] => Ok true
    | Some _ => Ok false
    end
  else Ok false.

(** The connections of a node that are followed: those whose output has data. *)
Definition followed (runData : IRunData) (pinData : IPinData) (c : GraphConnection) : bool :=
  match getIncomingDataFromAnyRun runData (name (from c)) (ctype c) (Z.of_nat (outputIndex c)) with
  | Some (_ :: _, _) => true
  | _ => bool_decide (is_Some (pinData !! name (from c)))
  end.

Fixpoint findStartNodesRecursive (fuel : nat) (g : DirectedGraph) (current destination : INode)
    (runData : IRunData) (pinData : IPinData) (startNodes seen : list INode) : presult (list INode) :=
  match fuel with
  | 0 => Err OutOfFuel
  | Datatypes.S fuel' =>
      if isDirty current runData pinData then Ok (set_add startNodes current)
      else if bool_decide (current = destination) then Ok (set_add startNodes current)
      else
        unfinished_loop g runData current ≫= fun unfinished =>
        if (unfinished : bool) then Ok (set_add startNodes current)
        else if bool_decide (current ∈ seen) then Ok startNodes
        else
          getDirectChildConnections g current ≫= fun outGoingConnections =>
          foldE (fun startNodes c =>
            if followed runData pinData c
            then findStartNodesRecursive fuel' g (to c) destination runData pinData startNodes (set_add seen current)
            else Ok startNodes) startNodes outGoingConnections
  end.

(** Every call down a branch adds a node to [seen]. *)
Definition findStartNodes (g : DirectedGraph) (trigger destination : INode) (runData : IRunData) (pinData : IPinData) :
    presult (list INode) :=
  findStartNodesRecursive (length (nodes g) + 2) g trigger destination runData pinData [] [].

(** ** Cycles *)

Definition handleCycles (g : DirectedGraph) (startNodes : list INode) (trigger : INode) : presult (list INode) :=
  getStronglyConnectedComponents g ≫= fun components =>
  let cycles := arr_filter (fun c => bool_decide (1 <= length c)) components in
  if bool_decide (length cycles = 0) then Ok startNodes
  else
    foldE (fun newStartNodes startNode =>
      foldE (fun newStartNodes cycle =>
        if bool_decide (startNode ∈ cycle) then
          depthFirstSearch g trigger (fun n => bool_decide (n ∈ cycle)) ≫= fun firstNode =>
          match firstNode with
          | None => Err (AssertionError "the trigger must be connected to the cycle, otherwise the cycle wouldn't be part of the subgraph")
          | Some firstNode => Ok (set_add (filter (fun n => n <> startNode) newStartNodes) firstNode)
          end
        else Ok newStartNodes) newStartNodes cycles) startNodes startNodes.

(** ** Cleaning *)

Definition clean_sub_nodes (g : DirectedGraph) (runData : IRunData) (node : INode) : presult IRunData :=
  getParentConnections g node ≫= fun subNodeConnections =>
  Ok (foldl (fun runData c => if bool_decide (ctype c = Main) then runData else delete (name (from c)) runData)
        runData subNodeConnections).

Definition cleanRunData (runData : IRunData) (g : DirectedGraph) (nodesToClean : list INode) : presult IRunData :=
  foldE (fun runData nodeToClean =>
    let runData := delete (name nodeToClean) runData in
    getChildren g nodeToClean ≫= fun children =>
    foldE (fun runData node => clean_sub_nodes g (delete (name node) runData) node)
      runData (nodeToClean :: children)) runData nodesToClean ≫= fun newRunData =>
  Ok (filter (fun p => hasNode g p.1 = true) newRunData).

(** The next execution index: one more than the highest a task has, or [0]. *)
Definition getNextExecutionIndex (runData : IRunData) : Z :=
  match omap executionIndex (concat (map_to_list runData).*2) with
  | [] => 0
  | i :: rest => foldl Z.max i rest + 1
  end%Z.
End data.
Arguments ITaskData : clear implicits.

Notation IRunData Item := (gmap string (list (ITaskData Item))).
Notation IPinData Item := (gmap string (list Item)).

(** ** What the search for start nodes finds *)

Section start_nodes.
Context {Item : Type} (g : DirectedGraph) (destination : INode) (runData : IRunData Item) (pinData : IPinData Item).

Lemma unfinished_loop_ok (n : INode) :
  GraphOk g -> n ∈ node_values g -> exists b, unfinished_loop g runData n = Ok b.
Proof.
  intros Hg Hn. unfold unfinished_loop, isALoop. case_bool_decide; [|eauto].
  destruct (getChildren_ok g n Hg Hn) as (l & -> & _). simpl. repeat case_match; eauto.
Qed.

(** Where the search stops: a dirty node, the destination, an unfinished loop. *)
Definition stops (n : INode) : Prop :=
  isDirty n runData pinData = true \/ n = destination \/ unfinished_loop g runData n = Ok true.

#[export] Instance stops_dec (n : INode) : Decision (stops n).
Proof.
  unfold stops. destruct (isDirty n runData pinData); [by left; left|].
  destruct (decide (n = destination)); [by left; auto|].
  destruct (unfinished_loop g runData n) as [[]|]; [by left; auto|right; intros [?|[?|?]]; done..].
Defined.

(** The search goes on from a node it does not stop at, along an output with data. *)
Definition goes_on (x y : INode) : Prop :=
  ~ stops x /\ exists c, c ∈ connection_values g /\ from c = x /\ to c = y /\ followed runData pinData c = true.

(** What a call adds, given the nodes of its branch. *)
Inductive Found : list INode -> INode -> INode -> Prop :=
  | found_here seen n : stops n -> Found seen n n
  | found_below seen n m s : n ∉ seen -> goes_on n m -> Found (set_add seen n) m s -> Found seen n s.

Lemma findStartNodesRecursive_found (fuel : nat) :
  GraphOk g -> forall current startNodes seen, current ∈ node_values g -> NoDup seen ->
  (forall n, n ∈ seen -> n ∈ node_values g) -> length (nodes g) + 2 <= fuel + length seen ->
  exists l, findStartNodesRecursive fuel g current destination runData pinData startNodes seen = Ok l /\
    (NoDup startNodes -> NoDup l) /\ forall s, s ∈ l <-> s ∈ startNodes \/ Found seen current s.
Proof.
  intros Hg. induction fuel as [|fuel IH]; intros current startNodes seen Hcur Hnd Hseen Hf.
  { assert (Hle : length seen <= length (node_values g)) by by apply submseteq_length, NoDup_submseteq.
    unfold node_values in Hle. rewrite length_fmap in Hle. simpl in Hf. lia. }
  assert (Hstop : stops current -> exists l, (Ok (set_add startNodes current) : presult (list INode)) = Ok l /\
    (NoDup startNodes -> NoDup l) /\ forall s, s ∈ l <-> s ∈ startNodes \/ Found seen current s).
  { intros Hs. eexists. split; [done|]. split; [apply set_add_NoDup|]. intros s. rewrite elem_of_set_add. split.
    - intros [->|?]; [right; by constructor|by left].
    - intros [?|Hfd]; [by right|left]. inversion Hfd as [|? ? ? ? _ [Hns _]]; subst; done. }
  simpl. destruct (isDirty current runData pinData) eqn:Hdirty; [apply Hstop; by left|].
  case_bool_decide as Hdest; [apply Hstop; right; by left|].
  destruct (unfinished_loop_ok current Hg Hcur) as ([] & Hu); rewrite Hu; simpl; [apply Hstop; right; by right|].
  assert (Hns : ~ stops current). { intros [?|[?|?]]; congruence. }
  case_bool_decide as Hin.
  { exists startNodes. split; [done|]. split; [done|]. intros s. split; [by left|]. intros [?|Hfd]; [done|].
    inversion Hfd; subst; done. }
  destruct (direct_children g current Hg Hcur) as (cs & -> & Hcs). simpl.
  destruct (foldE_inv (fun startNodes c => if followed runData pinData c
      then findStartNodesRecursive fuel g (to c) destination runData pinData startNodes (set_add seen current)
      else Ok startNodes)
    (fun l1 l => (NoDup startNodes -> NoDup l) /\ forall s, s ∈ l <-> s ∈ startNodes \/
       exists c, c ∈ l1 /\ followed runData pinData c = true /\ Found (set_add seen current) (to c) s) startNodes cs)
    as (l & Hl & Hn & He).
  - split; [done|]. intros s. split; [by left|]. intros [?|(c & ?%elem_of_nil & _)]; done.
  - intros l1 c l2 l Heq [Hn He]. assert (Hc : c ∈ cs) by (rewrite Heq; apply elem_of_app; right; by left).
    apply Hcs in Hc as [Hc _].
    assert (Hsnoc : forall P : GraphConnection -> Prop, (exists x, x ∈ l1 ++ [c] /\ P x) <-> (exists x, x ∈ l1 /\ P x) \/ P c).
    { intros P. setoid_rewrite elem_of_app. setoid_rewrite list_elem_of_singleton. split.
      - intros (x & [?| ->] & ?); [left; eauto|by right].
      - intros [(x & ? & ?)|?]; [exists x|exists c]; auto. }
    destruct (followed runData pinData c) eqn:Hfc.
    + destruct (IH (to c) l (set_add seen current)) as (l' & -> & Hn' & He'); [by apply (go_to g)|by apply set_add_NoDup| | |].
      * intros n [->|?]%elem_of_set_add; auto.
      * unfold set_add. rewrite decide_False by done. rewrite length_app. simpl. lia.
      * exists l'. split; [done|]. split; [auto|]. intros s. rewrite He', He, Hsnoc. tauto.
    + exists l. split; [done|]. split; [done|]. intros s. rewrite He, Hsnoc. split; [tauto|]. intros [?|[?|[? _]]]; [tauto|tauto|congruence].
  - exists l. split; [done|]. split; [done|]. intros s. rewrite He. split; (intros [?|H]; [by left|right]).
    + destruct H as (c & [Hc Hfc]%Hcs & Hfl & Hfd). eapply found_below; [done| |done]. split; [done|]. by exists c.
    + inversion H as [? ? Hst|? ? m ? Hnin [_ (c & Hc & Hfc & <- & Hfl)] Hfd]; subst; [done|]. exists c.
      split_and!; try done. by apply Hcs.
Qed.

(** A path of [goes_on] whose nodes, the last apart, are outside [seen]. *)
Inductive path (seen : list INode) : nat -> INode -> INode -> Prop :=
  | path_end n : path seen 0 n n
  | path_go k n m s : n ∉ seen -> goes_on n m -> path seen k m s -> path seen (Datatypes.S k) n s.

Lemma path_cut (seen : list INode) (cur : INode) (k : nat) (n s : INode) :
  path seen k n s ->
  (exists j, j <= k /\ path (set_add seen cur) j n s) \/ (exists j, j <= k /\ path seen j cur s).
Proof.
  induction 1 as [n|k n m s Hn Hg Hp IH]; [left; exists 0; split; [lia|constructor]|].
  destruct (decide (n = cur)) as [->|Hne].
  - right. exists (Datatypes.S k). split; [lia|]. by eapply path_go.
  - destruct IH as [(j & Hj & Hp')|(j & Hj & Hp')]; [left|right].
    + exists (Datatypes.S j). split; [lia|]. eapply path_go; [|done|done]. by intros [->|?]%elem_of_set_add.
    + exists j. split; [lia|done].
Qed.

Lemma path_found (k : nat) : forall seen n s, path seen k n s -> stops s -> Found seen n s.
Proof.
  induction (lt_wf k) as [k _ IH]. intros seen n s Hp Hs.
  destruct Hp as [n|k n m s Hn Hg Hp]; [by constructor|].
  destruct (path_cut seen n k m s Hp) as [(j & Hj & Hp')|(j & Hj & Hp')].
  - eapply found_below; [done..|]. apply (IH j); [lia|done|done].
  - apply (IH j); [lia|done|done].
Qed.

Lemma found_iff (n s : INode) : Found [] n s <-> stops s /\ rtc goes_on n s.
Proof.
  split.
  - generalize (@nil INode). intros seen H. induction H as [|seen n m s Hn Hg Hf [IH1 IH2]]; [split; [done|constructor]|].
    split; [done|]. by eapply rtc_l.
  - intros [Hs Hr]. assert (exists k, path [] k n s) as (k & Hp).
    { induction Hr as [n|n m s Hg Hr IH]; [by exists 0; constructor|]. destruct (IH Hs) as (k & Hp).
      exists (Datatypes.S k). eapply path_go; [apply not_elem_of_nil|done|done]. }
    by eapply path_found.
Qed.

Lemma findStartNodes_ok (trigger : INode) :
  GraphOk g -> trigger ∈ node_values g ->
  exists l, findStartNodes g trigger destination runData pinData = Ok l /\ NoDup l /\
    forall s, s ∈ l <-> stops s /\ rtc goes_on trigger s.
Proof.
  intros Hg Ht. destruct (findStartNodesRecursive_found (length (nodes g) + 2) Hg trigger [] [] Ht) as (l & Hl & Hn & He);
    [constructor|by intros ? ?%elem_of_nil|simpl; lia|].
  exists l. split; [done|]. split; [apply Hn; constructor|]. intros s. rewrite He, elem_of_nil, found_iff. tauto.
Qed.

(** The start nodes are the earliest nodes a partial execution must run again: the
    nodes the search stops at (dirty, the destination, or a loop node whose last run is
    not through) that can be reached from the trigger along outputs with data through
    nodes it does not stop at, each once.  The search ends on every graph, cycles
    included, and throws nothing. *)
Lemma findStartNodes_earliest (trigger : INode) :
  GraphOk g -> trigger ∈ node_values g ->
  exists l, findStartNodes g trigger destination runData pinData = Ok l /\ NoDup l /\
    forall s, s ∈ l <-> stops s /\ rtc goes_on trigger s.
Proof. apply findStartNodes_ok. Qed.
End start_nodes.

(** ** What cleaning removes *)

Section cleaning.
Context {Item : Type} (g : DirectedGraph).
Local Notation RunData := (IRunData Item).

(** [m'] is [m] without the names [P] holds of. *)
Definition dropped (P : string -> Prop) (m m' : RunData) : Prop :=
  forall n v, m' !! n = Some v <-> m !! n = Some v /\ ~ P n.

Lemma dropped_none (m : RunData) : dropped (fun _ => False) m m.
Proof. intros n v. tauto. Qed.

Lemma dropped_delete (k : string) (m : RunData) : dropped (fun n => n = k) m (delete k m).
Proof. intros n v. rewrite lookup_delete_Some. naive_solver. Qed.

Lemma dropped_trans (P Q : string -> Prop) (m1 m2 m3 : RunData) :
  dropped P m1 m2 -> dropped Q m2 m3 -> dropped (fun n => P n \/ Q n) m1 m3.
Proof. intros H1 H2 n v. rewrite (H2 n v), (H1 n v). tauto. Qed.

Lemma dropped_iff (P Q : string -> Prop) (m m' : RunData) :
  (forall n, P n <-> Q n) -> dropped P m m' -> dropped Q m m'.
Proof. intros HPQ H n v. rewrite (H n v), HPQ. done. Qed.

Lemma dropped_fold {A} (f : RunData -> A -> presult RunData) (P : A -> string -> Prop) (l : list A) (m : RunData) :
  (forall x m, x ∈ l -> exists m', f m x = Ok m' /\ dropped (P x) m m') ->
  exists m', foldE f m l = Ok m' /\ dropped (fun n => exists x, x ∈ l /\ P x n) m m'.
Proof.
  revert m. induction l as [|x l IH]; intros m Hf; simpl.
  - exists m. split; [done|]. eapply dropped_iff; [|apply dropped_none]. intros n. split; [done|].
    by intros (x & ?%elem_of_nil & _).
  - destruct (Hf x m ltac:(by left)) as (m1 & -> & H1).
    destruct (IH m1) as (m2 & -> & H2); [intros y m' Hy; apply Hf; by right|]. exists m2. split; [done|].
    eapply dropped_iff; [|exact (dropped_trans _ _ _ _ _ H1 H2)]. intros n. simpl. split.
    + intros [?|(y & ? & ?)]; [exists x|exists y]; split; auto; by (left || right).
    + intros (y & [->|?]%elem_of_cons & ?); [by left|right; eauto].
Qed.

(** A node that feeds a node or one of its ancestors through a connection other than
    [main]. *)
Definition sub_node_of (node : INode) (n : string) : Prop :=
  exists c, c ∈ connection_values g /\ ctype c <> Main /\ rtc (edge g) (to c) node /\ n = name (from c).

Lemma clean_sub_nodes_dropped (node : INode) (m : RunData) :
  GraphOk g -> node ∈ node_values g ->
  exists m', clean_sub_nodes g m node = Ok m' /\ dropped (sub_node_of node) m m'.
Proof.
  intros Hg Hn. unfold clean_sub_nodes.
  destruct (getParentConnections_ancestors g node Hg Hn) as (l & -> & Hl). simpl. eexists. split; [done|].
  assert (Hfold : forall (l : list GraphConnection) m, dropped (fun n => exists c, c ∈ l /\ ctype c <> Main /\ n = name (from c)) m
    (foldl (fun runData c => if bool_decide (ctype c = Main) then runData else delete (name (from c)) runData) m l)).
  { clear. induction l as [|c l IH]; intros m; simpl.
    - eapply dropped_iff; [|apply dropped_none]. intros n. split; [done|]. by intros (x & ?%elem_of_nil & _).
    - case_bool_decide as Hc; [|eapply dropped_iff; [|exact (dropped_trans _ _ _ _ _ (dropped_delete _ _) (IH _))]];
        [eapply dropped_iff; [|apply IH]|]; intros n; simpl; setoid_rewrite elem_of_cons; naive_solver. }
  eapply dropped_iff; [|apply Hfold]. intros n. unfold sub_node_of. setoid_rewrite Hl. naive_solver.
Qed.

(** The names a clean start from [x] drops: of the nodes from [x] on, and of the nodes
    that feed them or their ancestors otherwise than through [main]. *)
Definition cleaned (x : INode) (n : string) : Prop :=
  exists y, rtc (edge g) x y /\ (n = name y \/ sub_node_of y n).

Lemma cleanRunData_ok (runData : RunData) (nodesToClean : list INode) :
  GraphOk g -> (forall x, x ∈ nodesToClean -> x ∈ node_values g) ->
  exists m, cleanRunData runData g nodesToClean = Ok m /\
    forall n v, m !! n = Some v <->
      runData !! n = Some v /\ (exists x, x ∈ node_values g /\ name x = n) /\
      ~ exists x, x ∈ nodesToClean /\ cleaned x n.
Proof.
  intros Hg Hin. unfold cleanRunData.
  destruct (dropped_fold (fun runData nodeToClean =>
    getChildren g nodeToClean ≫= fun children =>
    foldE (fun runData node => clean_sub_nodes g (delete (name node) runData) node)
      (delete (name nodeToClean) runData) (nodeToClean :: children)) cleaned nodesToClean runData) as (m & Hm & Hd).
  - intros x m0 Hx. destruct (getChildren_ok g x Hg (Hin x Hx)) as (children & -> & _ & Hc). simpl mbind.
    assert (Hnodes : forall y, y ∈ x :: children <-> rtc (edge g) x y).
    { intros y. rewrite elem_of_cons, Hc. split; [intros [->|?]; [constructor|by apply tc_rtc]|].
      intros Hr. apply rtc_tc in Hr. naive_solver. }
    assert (Hgr : forall y, rtc (edge g) x y -> y ∈ node_values g).
    { intros y Hr. apply rtc_inv_r in Hr as [->|(z & _ & (c & Hcc & _ & <-))]; [auto|by apply (go_to g)]. }
    destruct (dropped_fold (fun runData node => clean_sub_nodes g (delete (name node) runData) node)
      (fun y n => n = name y \/ sub_node_of y n) (x :: children) (delete (name x) m0)) as (m1 & Hm1 & Hd1).
    { intros y m1 Hy%Hnodes. destruct (clean_sub_nodes_dropped y (delete (name y) m1) Hg (Hgr y Hy)) as (m2 & -> & H2).
      exists m2. split; [done|]. exact (dropped_trans _ _ _ _ _ (dropped_delete _ _) H2). }
    exists m1. split; [exact Hm1|]. eapply dropped_iff; [|exact (dropped_trans _ _ _ _ _ (dropped_delete _ _) Hd1)].
    intros n. unfold cleaned. setoid_rewrite Hnodes. split; [intros [->|?]; [|done]|by right].
    exists x. split; [constructor|by left].
  - match goal with |- context [mbind _ ?x] => assert (Hloop : x = Ok m) by exact Hm end.
    rewrite Hloop. simpl. eexists. split; [done|]. intros n v. rewrite map_lookup_filter_Some, (Hd n v). simpl.
    assert (Hh : hasNode g n = true <-> exists x, x ∈ node_values g /\ name x = n).
    { unfold hasNode, map_has. rewrite bool_decide_eq_true. split.
      - intros [x Hx%map_get_Some_elem_of]. exists x. split; [apply snd_elem; eauto|].
        symmetry. apply (go_names g Hg _ Hx).
      - intros (x & (k & Hx)%snd_elem & <-). pose proof (go_names g Hg _ Hx) as Hk. simpl in Hk. subst k.
        exists x. by apply elem_of_map_get; [apply (go_nodes g Hg)|]. }
    rewrite Hh. tauto.
Qed.

(** Cleaning drops exactly what a restart invalidates: the run data left is that of
    the graph's nodes, unchanged, except for the nodes to clean, every node that can be
    reached from one, and the sub-nodes (connected otherwise than through [main]) above
    any of these, however far up.  It ends and throws nothing. *)
Lemma cleanRunData_drops (runData : RunData) (nodesToClean : list INode) :
  GraphOk g -> (forall x, x ∈ nodesToClean -> x ∈ node_values g) ->
  exists m, cleanRunData runData g nodesToClean = Ok m /\
    forall n v, m !! n = Some v <->
      runData !! n = Some v /\ (exists x, x ∈ node_values g /\ name x = n) /\
      ~ exists x, x ∈ nodesToClean /\ cleaned x n.
Proof. apply cleanRunData_ok. Qed.
End cleaning.

(** ** A concrete run *)

(** The run data of a chain whose first node ran and whose second one never did. *)
Definition started_once : IRunData nat :=
  {["Start" := [{| failed := false; data := Some {["main" := [Some [7]; Some [8]]]}; executionIndex := Some 0%Z |}];
    "Gone" := [{| failed := false; data := None; executionIndex := Some 1%Z |}]]}.

Lemma findStartNodes_earliest_witness :
  exists l, findStartNodes bridge_graph start_node end_node started_once ∅ = Ok l /\
    (off_node ∈ l <-> stops bridge_graph end_node started_once ∅ off_node /\
       rtc (goes_on bridge_graph end_node started_once ∅) start_node off_node).
Proof.
  destruct (findStartNodes_earliest bridge_graph end_node started_once ∅ start_node (proj1 bridge_graph_ok))
    as (l & Hl & _ & Hs).
  - refine (bool_decide_unpack _ _). vm_compute. exact I.
  - exists l. split; [exact Hl|]. apply Hs.
Defined.

Lemma cleanRunData_drops_witness :
  exists m, cleanRunData started_once bridge_graph [off_node] = Ok m /\
    (forall v, m !! "Gone" = Some v -> exists x, x ∈ node_values bridge_graph /\ name x = "Gone").
Proof.
  destruct (cleanRunData_drops bridge_graph started_once [off_node] (proj1 bridge_graph_ok)) as (m & Hm & Hs).
  - intros x Hx. apply list_elem_of_singleton in Hx. rewrite Hx. refine (bool_decide_unpack _ _). vm_compute. exact I.
  - exists m. split; [exact Hm|]. intros v Hv. apply Hs in Hv. exact (proj1 (proj2 Hv)).
Defined.
