(* ===== verification/PartialStack.v ===== *)
(** * Partial execution: rebuilding the execution stack

    [get-source-data-groups.ts] and [recreate-node-execution-stack.ts], and steps 2 to 7 of
    [runPartialWorkflow2], which composes the whole package.  [localeCompare] is the
    parameter [name_le] ([a.localeCompare(b) <= 0]); [Array.prototype.sort] is stable, so
    the sort is insertion of each element after those not greater.  [emptyItem] is the item
    [{ json: {} }]. *)

From stdpp Require Import base gmap strings list relations.
From Stdlib Require Import ZArith Lia.
From S2P Require Import Prelude.
From S2P Require Import JsCollections.
From S2P Require Import PartialGraph.
From S2P Require Import PartialFilter.
From S2P Require Import PartialSubgraph.
From S2P Require Import PartialStart.
Local Open Scope string_scope.
Local Open Scope list_scope.

Section stack.
Context {Item : Type} (emptyItem : Item) (name_le : string -> string -> bool).

(** ** Groups of incoming connections *)

(** [sortByInputIndexThenByName(a, b) <= 0]. *)
Definition sortByInputIndexThenByName (a b : GraphConnection) : bool :=
  if (inputIndex a =? inputIndex b)%Z then name_le (name (from a)) (name (from b))
  else (inputIndex a <=? inputIndex b)%Z.

Fixpoint sort_insert (c : GraphConnection) (l : list GraphConnection) : list GraphConnection :=
  match l with
  | [] => [c]
  | x :: l' => if sortByInputIndexThenByName x c then x :: sort_insert c l' else c :: l
  end.

Definition sort_connections (l : list GraphConnection) : list GraphConnection :=
  foldl (fun acc c => sort_insert c acc) [] l.

Record SourceConnectionGroup := { complete : bool; group_connections : list GraphConnection }.

Definition newGroup : SourceConnectionGroup := {| complete := true; group_connections := [] |}.

Definition hasData (runData : IRunData Item) (pinnedData : IPinData Item) (c : GraphConnection) : bool :=
  bool_decide (is_Some (runData !! name (from c))) || bool_decide (is_Some (pinnedData !! name (from c))).

(** [Math.min] of the input indices of both lists; only called when one has an element. *)
Definition min_input (l : list GraphConnection) : Z :=
  match map inputIndex l with [] => 0 | i :: rest => foldl Z.min i rest end.

(** [findIndex] and [splice]: the first connection into the input, and the others. *)
Fixpoint take_input (i : Z) (l : list GraphConnection) : option (GraphConnection * list GraphConnection) :=
  match l with
  | [] => None
  | c :: l' =>
      if (inputIndex c =? i)%Z then Some (c, l')
      else match take_input i l' with Some (x, rest) => Some (x, c :: rest) | None => None end
  end.

Fixpoint group_loop (fuel : nat) (withData withoutData : list GraphConnection) (currentGroup : SourceConnectionGroup)
    (currentInputIndex : Z) (groups : list SourceConnectionGroup) : presult (list SourceConnectionGroup) :=
  match fuel with
  | 0 => Err OutOfFuel
  | Datatypes.S fuel' =>
      if bool_decide (length withData = 0) && bool_decide (length withoutData = 0) then Ok (groups ++ [currentGroup])
      else
        let currentInputIndex := (currentInputIndex + 1)%Z in
        match take_input currentInputIndex withData with
        | Some (c, withData') =>
            group_loop fuel' withData' withoutData
              {| complete := complete currentGroup; group_connections := group_connections currentGroup ++ [c] |}
              currentInputIndex groups
        | None =>
            match take_input currentInputIndex withoutData with
            | Some (c, withoutData') =>
                group_loop fuel' withData withoutData'
                  {| complete := false; group_connections := group_connections currentGroup ++ [c] |}
                  currentInputIndex groups
            | None =>
                group_loop fuel' withData withoutData newGroup (min_input (withData ++ withoutData) - 1)%Z
                  (groups ++ [currentGroup])
            end
        end
  end.

(** Two rounds at most per connection, and the last. *)
Definition getSourceDataGroups (g : DirectedGraph) (node : INode) (runData : IRunData Item) (pinnedData : IPinData Item) :
    presult (list SourceConnectionGroup) :=
  let connections := getConnections g (Some node) in
  let withData := sort_connections (arr_filter (hasData runData pinnedData) connections) in
  let withoutData := sort_connections
    (arr_filter (fun c => negb (hasData runData pinnedData c) && bool_decide (ctype c = Main)) connections) in
  if bool_decide (length withData = 0) && bool_decide (length withoutData = 0) then Ok []
  else group_loop (2 * (length withData + length withoutData) + 1) withData withoutData newGroup
         (min_input (withData ++ withoutData) - 1)%Z [].

(** ** The stack *)

Record ISourceData := { previousNode : string; previousNodeOutput : nat; previousNodeRun : nat }.

(** [data] and [source] hold only the [main] key. *)
Record IExecuteData := {
  exec_node : INode;
  main_data : list (list Item);
  main_source : option (list ISourceData);
}.

(** [waitingExecution[nodeName][runIndex][inputType][inputIndex]]; the inner arrays may
    have holes. *)
Notation Waiting A := (gmap string (gmap nat (gmap string (list (option A))))).

(** [list[i] = v]: a negative [i] names a property of the array, not an element. *)
Definition array_set_at {A} (l : list (option A)) (i : Z) (v : A) : list (option A) :=
  if (i <? 0)%Z then l else array_set l (Z.to_nat i) v.

(** [addWaitingExecution] and [addWaitingExecutionSource], the same code on two types. *)
Definition add_waiting {A} (w : Waiting A) (nodeName : string) (runIndex : nat) (inputType : string) (input : Z)
    (v : A) : Waiting A :=
  let forNode := default ∅ (w !! nodeName) in
  let forRun := default ∅ (forNode !! runIndex) in
  let entries := default [] (forRun !! inputType) in
  <[nodeName := <[runIndex := <[inputType := array_set_at entries input v]> forRun]> forNode]> w.

Record RecreatedStack := {
  nodeExecutionStack : list IExecuteData;
  waitingExecution : Waiting (list Item);
  waitingExecutionSource : Waiting ISourceData;
}.

(** One connection of a complete group: the items it contributes, and its source. *)
Definition complete_source (startNode : INode) (runData : IRunData Item) (pinData : IPinData Item)
    (acc : list (list Item) * list ISourceData) (c : GraphConnection) : presult (list (list Item) * list ISourceData) :=
  let sourceNode := from c in
  let source runIndex := {| previousNode := name sourceNode; previousNodeOutput := outputIndex c; previousNodeRun := runIndex |} in
  match pinData !! name sourceNode with
  | Some items => Ok (acc.1 ++ [items], acc.2 ++ [source 0])
  | None =>
      match runData !! name sourceNode with
      | None => Err (AssertionError ("Start node(" +:+ name (to c) +:+
          ") has an incoming connection with no run or pinned data. This is not supported. The connection in question is " +:+
          quoted (name sourceNode +:+ "->" +:+ name startNode) +:+
          ". Are you sure the start nodes come from the " +:+ quoted "findStartNodes" +:+ " function?"))
      | Some _ =>
          match getIncomingDataFromAnyRun runData (name sourceNode) (ctype c) (Z.of_nat (outputIndex c)) with
          | Some (items, runIndex) => Ok (acc.1 ++ [items], acc.2 ++ [source runIndex])
          | None => Ok (acc.1, acc.2 ++ [source 0])
          end
      end
  end.

(** One connection of an incomplete group. *)
Definition waiting_source (startNode : INode) (runData : IRunData Item) (nextRunIndex : nat)
    (acc : Waiting (list Item) * Waiting ISourceData) (c : GraphConnection) : Waiting (list Item) * Waiting ISourceData :=
  match getIncomingDataFromAnyRun runData (name (from c)) (ctype c) (Z.of_nat (outputIndex c)) with
  | Some (items, _) =>
      (add_waiting acc.1 (name startNode) nextRunIndex (ctype c) (inputIndex c) items,
       add_waiting acc.2 (name startNode) nextRunIndex (ctype c) (inputIndex c)
         {| previousNode := name (from c); previousNodeOutput := outputIndex c; previousNodeRun := nextRunIndex |})
  | None => acc
  end.

Definition recreate_group (startNode : INode) (runData : IRunData Item) (pinData : IPinData Item)
    (st : RecreatedStack) (sourceData : SourceConnectionGroup) : presult RecreatedStack :=
  if complete sourceData then
    foldE (complete_source startNode runData pinData) ([], []) (group_connections sourceData) ≫= fun '(items, sources) =>
    Ok {| nodeExecutionStack := nodeExecutionStack st ++
            [{| exec_node := startNode; main_data := items; main_source := Some sources |}];
          waitingExecution := waitingExecution st; waitingExecutionSource := waitingExecutionSource st |}
  else
    let nextRunIndex := match waitingExecution st !! name startNode with Some m => size m | None => 0 end in
    let '(w, ws) := foldl (waiting_source startNode runData nextRunIndex)
      (waitingExecution st, waitingExecutionSource st) (group_connections sourceData) in
    Ok {| nodeExecutionStack := nodeExecutionStack st; waitingExecution := w; waitingExecutionSource := ws |}.

Definition recreate_node (g : DirectedGraph) (runData : IRunData Item) (pinData : IPinData Item)
    (st : RecreatedStack) (startNode : INode) : presult RecreatedStack :=
  getDirectParentConnections g startNode ≫= fun parents =>
  if bool_decide (length (arr_filter (fun c => bool_decide (ctype c = Main)) parents) = 0) then
    Ok {| nodeExecutionStack := nodeExecutionStack st ++
            [{| exec_node := startNode; main_data := [[emptyItem]]; main_source := None |}];
          waitingExecution := waitingExecution st; waitingExecutionSource := waitingExecutionSource st |}
  else
    getSourceDataGroups g startNode runData pinData ≫= fun sourceDataSets =>
    foldE (recreate_group startNode runData pinData) st sourceDataSets.

Definition contains_disabled (node : INode) : PartialError :=
  AssertionError ("Graph contains disabled nodes. This is not supported. Make sure to pass the graph through " +:+
    quoted "findSubgraph" +:+ " before calling " +:+ quoted "recreateNodeExecutionStack" +:+
    ". The node in question is " +:+ quoted (name node)).

Definition recreateNodeExecutionStack (g : DirectedGraph) (startNodes : list INode) (runData : IRunData Item)
    (pinData : IPinData Item) : presult RecreatedStack :=
  for_each (fun node => require (negb (disabled node)) (contains_disabled node)) (node_values g) ≫= fun _ =>
  foldE (recreate_node g runData pinData)
    {| nodeExecutionStack := []; waitingExecution := ∅; waitingExecutionSource := ∅ |} startNodes.

(** ** The whole preparation *)

Record PartialExecution := {
  runNodeFilter : list string;
  kept_runData : IRunData Item;
  startNodes : list INode;
  stack : RecreatedStack;
  currentNodeExecutionIndex : Z;
}.

(** Steps 2 to 7 of [runPartialWorkflow2], from the trigger step 1 found. *)
Definition preparePartialExecution (g : DirectedGraph) (destination trigger : INode) (runData : IRunData Item)
    (pinData : IPinData Item) (dirtyNodeNames : list string) : presult PartialExecution :=
  filterDisabledNodes g ≫= fun filteredGraph =>
  require (negb (disabled destination)) (UserError "Cannot execute a disabled node") ≫= fun _ =>
  findSubgraph filteredGraph destination trigger ≫= fun graph =>
  cleanRunData runData graph (getNodesByNames graph dirtyNodeNames) ≫= fun runData =>
  findStartNodes graph trigger destination runData pinData ≫= fun startNodes =>
  handleCycles graph startNodes trigger ≫= fun startNodes =>
  cleanRunData runData graph startNodes ≫= fun runData =>
  recreateNodeExecutionStack graph startNodes runData pinData ≫= fun stack =>
  Ok {| runNodeFilter := map name (node_values graph); kept_runData := runData; startNodes := startNodes;
        stack := stack; currentNodeExecutionIndex := getNextExecutionIndex runData |}.
End stack.

(** ** What the groups are *)

Lemma foldl_min_le (l : list Z) (a : Z) : (foldl Z.min a l <= a)%Z.
Proof. revert a. induction l as [|x l IH]; intros a; simpl; [lia|]. specialize (IH (Z.min a x)). lia. Qed.

Lemma min_input_elem (l : list GraphConnection) : l <> [] -> exists c, c ∈ l /\ inputIndex c = min_input l.
Proof.
  assert (H : forall (l : list Z) a, foldl Z.min a l = a \/ foldl Z.min a l ∈ l).
  { clear. induction l as [|x l IH]; intros a; simpl; [by left|]. destruct (IH (Z.min a x)) as [Heq|Hin].
    - destruct (Z.min_spec a x) as [[_ Hm]|[_ Hm]]; rewrite Heq, Hm; [by left|right; by left].
    - right. by right. }
  unfold min_input. destruct l as [|c l]; [done|]. intros _. simpl.
  destruct (H (map inputIndex l) (inputIndex c)) as [->|Hin]; [exists c; split; [by left|done]|].
  apply list_elem_of_fmap in Hin as (d & Hd & Hin). exists d. split; [by right|done].
Qed.

Lemma take_input_Some (i : Z) (l rest : list GraphConnection) (c : GraphConnection) :
  take_input i l = Some (c, rest) -> l ≡ₚ c :: rest /\ inputIndex c = i.
Proof.
  revert rest. induction l as [|x l IH]; intros rest; simpl; [done|]. case_match eqn:Hx.
  - intros [= -> ->]. apply Z.eqb_eq in Hx. done.
  - destruct (take_input i l) as [[y r]|]; [|done]. intros [= -> <-]. destruct (IH r eq_refl) as [Hp Hi].
    split; [|done]. rewrite Hp. by constructor.
Qed.

Lemma take_input_None (i : Z) (l : list GraphConnection) : take_input i l = None -> forall c, c ∈ l -> inputIndex c <> i.
Proof.
  induction l as [|x l IH]; simpl; [by intros _ ? ?%elem_of_nil|]. case_match eqn:Hx; [done|].
  destruct (take_input i l) as [[y r]|]; [done|]. intros _ c [->|Hc]%elem_of_cons; [by apply Z.eqb_neq|by apply IH].
Qed.

(** Each connection goes into the input after the one before it. *)
Definition consecutive (l : list GraphConnection) : Prop :=
  forall l1 a b l2, l = l1 ++ a :: b :: l2 -> inputIndex b = (inputIndex a + 1)%Z.

Lemma consecutive_snoc (l : list GraphConnection) (c : GraphConnection) :
  consecutive l -> (forall a, last l = Some a -> inputIndex c = (inputIndex a + 1)%Z) -> consecutive (l ++ [c]).
Proof.
  intros Hl Hc l1 a b l2 Heq. destruct l2 as [|x l2 _] using rev_ind.
  - change (l1 ++ [a; b]) with (l1 ++ ([a] ++ [b])) in Heq. rewrite app_assoc in Heq.
    apply app_inj_tail in Heq as [-> ->]. apply Hc. by rewrite last_snoc.
  - rewrite !app_comm_cons, app_assoc in Heq. apply app_inj_tail in Heq as [-> ->]. by eapply Hl.
Qed.

Section groups.
Context {Item : Type} (name_le : string -> string -> bool).
Context (has : GraphConnection -> bool) (all : list GraphConnection).

Definition group_ok (G : SourceConnectionGroup) : Prop :=
  consecutive (group_connections G) /\ complete G = forallb has (group_connections G).

Lemma group_ok_snoc (G : SourceConnectionGroup) (c : GraphConnection) (b : bool) :
  group_ok G -> (forall a, last (group_connections G) = Some a -> inputIndex c = (inputIndex a + 1)%Z) ->
  b = complete G && has c -> group_ok {| complete := b; group_connections := group_connections G ++ [c] |}.
Proof.
  intros [Hc Hb] Hl ->. split; simpl; [by apply consecutive_snoc|]. rewrite forallb_app, Hb. simpl. by rewrite andb_true_r.
Qed.

Lemma group_loop_ok (fuel : nat) : forall (W O : list GraphConnection) G idx groups,
  (forall c, c ∈ W -> has c = true) -> (forall c, c ∈ O -> has c = false) ->
  group_ok G -> (forall H, H ∈ groups -> group_ok H /\ group_connections H <> []) ->
  match last (group_connections G) with
  | Some a => inputIndex a = idx
  | None => idx = (min_input (W ++ O) - 1)%Z /\ W ++ O <> []
  end ->
  concat (map group_connections groups) ++ group_connections G ++ W ++ O ≡ₚ all ->
  2 * length (W ++ O) + (match group_connections G with [] => 0 | _ => 1 end) < fuel ->
  exists gs, group_loop fuel W O G idx groups = Ok gs /\ concat (map group_connections gs) ≡ₚ all /\
    forall H, H ∈ gs -> group_ok H /\ group_connections H <> [].
Proof.
  induction fuel as [|fuel IH]; intros W O G idx groups HW HO HG Hgs Hidx Hperm Hf; [lia|]. simpl.
  assert (Hnil : forall l : list GraphConnection, bool_decide (length l = 0) = true <-> l = []).
  { intros l. rewrite bool_decide_eq_true. split; [apply nil_length_inv|by intros ->]. }
  destruct (bool_decide (length W = 0) && bool_decide (length O = 0)) eqn:Hend.
  { apply andb_true_iff in Hend as [->%Hnil ->%Hnil]. exists (groups ++ [G]). split; [done|]. simpl in Hperm.
    rewrite app_nil_r in Hperm. split.
    - rewrite map_app, concat_app. simpl. by rewrite app_nil_r.
    - intros H [HH|HH%list_elem_of_singleton]%elem_of_app; [by apply Hgs|subst H]. split; [done|].
      intros Hn. rewrite Hn in Hidx. simpl in Hidx. by destruct Hidx. }
  assert (Hlast : forall c a, inputIndex c = (idx + 1)%Z -> last (group_connections G) = Some a ->
    inputIndex c = (inputIndex a + 1)%Z).
  { intros c a Hc Ha. rewrite Ha in Hidx. lia. }
  destruct (take_input (idx + 1) W) as [[c W']|] eqn:HtW.
  { apply take_input_Some in HtW as [HpW Hc]. apply IH; simpl.
    - intros d Hd. apply HW. rewrite HpW. by right.
    - done.
    - apply group_ok_snoc; [done|intros; by apply Hlast|]. rewrite (HW c) by (rewrite HpW; by left). by rewrite andb_true_r.
    - done.
    - rewrite last_snoc. done.
    - by rewrite <-Hperm, HpW, <-!app_assoc.
    - apply Permutation_length in HpW. rewrite !length_app in *. simpl in HpW. destruct (group_connections G); simpl; lia. }
  destruct (take_input (idx + 1) O) as [[c O']|] eqn:HtO.
  { apply take_input_Some in HtO as [HpO Hc]. apply IH; simpl.
    - done.
    - intros d Hd. apply HO. rewrite HpO. by right.
    - apply group_ok_snoc; [done|intros; by apply Hlast|]. rewrite (HO c) by (rewrite HpO; by left). by rewrite andb_false_r.
    - done.
    - rewrite last_snoc. done.
    - rewrite <-Hperm, HpO. rewrite <-!app_assoc. by rewrite <-(Permutation_middle W O' c).
    - apply Permutation_length in HpO. rewrite !length_app in *. simpl in HpO. destruct (group_connections G); simpl; lia. }
  destruct (last (group_connections G)) as [a|] eqn:Hla.
  - assert (Hne : group_connections G <> []) by (intros Hn; by rewrite Hn in Hla).
    apply IH; simpl; try done.
    + split; [|done]. intros l1 x y l2 Heq. by destruct l1.
    + intros H [HH|HH%list_elem_of_singleton]%elem_of_app; [by apply Hgs|by subst].
    + split; [done|]. intros [-> ->]%app_nil. done.
    + rewrite <-Hperm, map_app, concat_app. simpl. rewrite app_nil_r, <-!app_assoc. done.
    + destruct (group_connections G); [done|lia].
  - destruct Hidx as [-> Hne]. destruct (min_input_elem _ Hne) as (c & Hc & Hm). exfalso.
    apply elem_of_app in Hc as [Hc|Hc]; [by apply (take_input_None _ _ HtW) in Hc; lia|by apply (take_input_None _ _ HtO) in Hc; lia].
Qed.
End groups.

Lemma sort_insert_perm (name_le : string -> string -> bool) (c : GraphConnection) (l : list GraphConnection) :
  sort_insert name_le c l ≡ₚ c :: l.
Proof. induction l as [|x l IH]; simpl; [done|]. case_match; [|done]. rewrite IH. by constructor. Qed.

Lemma sort_connections_perm (name_le : string -> string -> bool) (l : list GraphConnection) :
  sort_connections name_le l ≡ₚ l.
Proof.
  unfold sort_connections. cut (forall acc, foldl (fun acc c => sort_insert name_le c acc) acc l ≡ₚ acc ++ l); [intros H; by apply H|].
  induction l as [|c l IH]; intros acc; simpl; [by rewrite app_nil_r|]. rewrite IH, sort_insert_perm. by rewrite <-Permutation_middle.
Qed.

Section group_facts.
Context {Item : Type} (name_le : string -> string -> bool) (g : DirectedGraph) (node : INode).
Context (runData : IRunData Item) (pinnedData : IPinData Item).

(** The incoming connections that take part: those with data, and the [main] ones. *)
Definition relevant (c : GraphConnection) : bool := hasData runData pinnedData c || bool_decide (ctype c = Main).

Lemma relevant_split (l : list GraphConnection) :
  arr_filter (hasData runData pinnedData) l ++
  arr_filter (fun c => negb (hasData runData pinnedData c) && bool_decide (ctype c = Main)) l ≡ₚ arr_filter relevant l.
Proof.
  unfold arr_filter, relevant. induction l as [|c l IH]; simpl; [done|]. destruct (hasData runData pinnedData c); simpl.
  - by constructor.
  - case_bool_decide; [by rewrite <-Permutation_middle; constructor|done].
Qed.

Lemma getSourceDataGroups_ok :
  exists groups, getSourceDataGroups name_le g node runData pinnedData = Ok groups /\
    concat (map group_connections groups) ≡ₚ arr_filter relevant (getConnections g (Some node)) /\
    forall G, G ∈ groups -> group_connections G <> [] /\ consecutive (group_connections G) /\
      (complete G = true <-> forall c, c ∈ group_connections G -> hasData runData pinnedData c = true).
Proof.
  unfold getSourceDataGroups. set (l := getConnections g (Some node)).
  set (W := sort_connections _ (arr_filter (hasData _ _) l)). set (O := sort_connections _ (arr_filter _ l)).
  assert (Hperm : W ++ O ≡ₚ arr_filter relevant l).
  { unfold W, O. by rewrite !sort_connections_perm, relevant_split. }
  destruct (bool_decide (length W = 0) && bool_decide (length O = 0)) eqn:Hend.
  { apply andb_true_iff in Hend as [HW%bool_decide_eq_true HO%bool_decide_eq_true].
    apply nil_length_inv in HW, HO. rewrite HW, HO in Hperm. exists []. split_and!; [done|done|]. by intros ? ?%elem_of_nil. }
  destruct (group_loop_ok (hasData runData pinnedData) (arr_filter relevant l) (2 * (length W + length O) + 1) W O newGroup
    (min_input (W ++ O) - 1)%Z []) as (gs & Hgs & Hp & Hok).
  - intros c Hc. unfold W in Hc. rewrite sort_connections_perm in Hc. by apply elem_of_arr_filter in Hc as [? _].
  - intros c Hc. unfold O in Hc. rewrite sort_connections_perm in Hc. apply elem_of_arr_filter in Hc as [Hc _].
    by apply andb_true_iff in Hc as [Hc%negb_true_iff _].
  - split; [|done]. intros l1 a b l2 Heq. by destruct l1.
  - by intros ? ?%elem_of_nil.
  - simpl. split; [done|]. intros [HW HO]%app_nil. by rewrite HW, HO in Hend.
  - done.
  - rewrite length_app. simpl. lia.
  - exists gs. split_and!; [done|done|]. intros G HG. destruct (Hok G HG) as [[Hc Hb] Hne]. split_and!; [done|done|].
    rewrite Hb, forallb_forall. by setoid_rewrite <-list_elem_of_In.
Qed.

(** The groups deal out the incoming connections: put together they are the
    connections into the node that have data or are [main], each once; no group is
    empty; inside a group every connection goes into the input after the one before it
    (so one connection per input); and a group is complete exactly when every connection
    of it has data.  The loop ends whatever the inputs are. *)
Lemma getSourceDataGroups_deals :
  exists groups, getSourceDataGroups name_le g node runData pinnedData = Ok groups /\
    concat (map group_connections groups) ≡ₚ arr_filter relevant (getConnections g (Some node)) /\
    forall G, G ∈ groups -> group_connections G <> [] /\ consecutive (group_connections G) /\
      (complete G = true <-> forall c, c ∈ group_connections G -> hasData runData pinnedData c = true).
Proof. apply getSourceDataGroups_ok. Qed.
End group_facts.

(** ** A source without data *)

Definition branch_node : INode := {| name := "Branch"; type := "if"; disabled := false |}.
Definition side_node : INode := {| name := "Side"; type := "set"; disabled := false |}.
Definition merge_node : INode := {| name := "Merge"; type := "merge"; disabled := false |}.

(** [Merge] takes the second output of [Branch] and the output of [Side]. *)
Definition merge_graph : DirectedGraph :=
  graph_of_lists [branch_node; side_node; merge_node]
    [main_connection branch_node merge_node 1 0; main_connection side_node merge_node 0 1].

(** A run that put items on the listed outputs only. *)
Definition run_with {Item} (outputs : list (option (list Item))) : ITaskData Item :=
  {| failed := false; data := Some {["main" := outputs]}; executionIndex := Some 0%Z |}.

(** A source whose output has no items contributes a source but no data, so the inputs
    after it slip down: [Branch] ran and put nothing on the output that feeds input 0 of
    [Merge], [Side] fed input 1, and the stack entry rebuilt for [Merge] has the items of
    [Side] as input 0, whose source is said to be [Branch]. *)
Lemma missing_output_shifts_inputs {Item : Type} (emptyItem x y : Item) (name_le : string -> string -> bool) :
  exists st, recreateNodeExecutionStack emptyItem name_le merge_graph [merge_node]
    {["Branch" := [run_with [Some [x]; Some []]]; "Side" := [run_with [Some [y]]]]} ∅ = Ok st /\
  nodeExecutionStack st =
    [{| exec_node := merge_node; main_data := [[y]];
        main_source := Some [{| previousNode := "Branch"; previousNodeOutput := 1; previousNodeRun := 0 |};
                             {| previousNode := "Side"; previousNodeOutput := 0; previousNodeRun := 0 |}] |}].
Proof. eexists. split; vm_compute; reflexivity. Qed.
