(* ===== verification/PartialTotal.v ===== *)
(** * Partial execution: the preparation goes through

    The whole of [preparePartialExecution] on a graph of the editor: each step's
    assertions hold because of what the steps before it produce. *)

From stdpp Require Import base gmap strings list relations.
From Stdlib Require Import ZArith Lia.
From S2P Require Import Prelude.
From S2P Require Import JsCollections.
From S2P Require Import PartialGraph.
From S2P Require Import PartialFilter.
From S2P Require Import PartialSubgraph.
From S2P Require Import PartialStart.
From S2P Require Import PartialStack.

(** ** The component search throws nothing *)

Section scc.
Context (g : DirectedGraph).

Record SccOk (st : SccState) : Prop := {
  so_ids : forall n, n ∈ visited st -> is_Some (map_get n (ids st)) /\ is_Some (map_get n (lowLinkValues st));
  so_stack : forall n, n ∈ scc_stack st -> n ∈ visited st;
  so_visited : forall n, n ∈ visited st -> n ∈ node_values g;
  so_nodup : NoDup (visited st);
  so_components : forall c n, c ∈ stronglyConnectedComponents st -> n ∈ c -> n ∈ node_values g;
}.

Lemma enter_node_ok (n : INode) (st : SccState) :
  SccOk st -> n ∈ node_values g -> SccOk (enter_node n st).
Proof.
  intros [H1 H2 H3 H4 H5] Hn. split; simpl.
  - intros m Hm. rewrite !map_get_set. case_decide; [eauto|]. apply elem_of_set_add in Hm as [->|Hm]; [done|by apply H1].
  - intros m Hm. apply elem_of_set_add. apply elem_of_cons in Hm as [?|?]; [by left|right; auto].
  - intros m [->|Hm]%elem_of_set_add; auto.
  - by apply set_add_NoDup.
  - done.
Qed.

Lemma lower_link_ok (n child : INode) (st : SccState) :
  SccOk st -> n ∈ visited st -> exists st', lower_link n child st = Ok st' /\ SccOk st' /\ visited st' = visited st.
Proof.
  intros Hst Hn. unfold lower_link. case_decide as Hc; [|eauto].
  destruct Hst as [H1 H2 H3 H4 H5]. destruct (H1 child (H2 _ Hc)) as [_ [c ->]], (H1 n Hn) as [_ [o ->]].
  eexists. split; [done|]. split; [|done]. split; simpl; try done. intros m Hm. rewrite map_get_set.
  destruct (H1 m Hm). case_decide; eauto.
Qed.

Lemma pop_component_sub (low : list (INode * nat)) (own : nat) (stack scc : list INode) (n : INode) :
  (n ∈ (pop_component low own stack scc).1 -> n ∈ stack) /\
  (n ∈ (pop_component low own stack scc).2 -> n ∈ scc \/ n ∈ stack).
Proof.
  revert scc. induction stack as [|x stack IH]; intros scc; simpl; [by auto|]. case_decide; simpl; [|by auto].
  destruct (IH (set_add scc x)) as [H1 H2]. split; [intros; right; auto|].
  intros [[->|?]%elem_of_set_add|?]%H2; [right; by left|by left|right; by right].
Qed.

Lemma close_node_ok (n : INode) (st : SccState) :
  SccOk st -> n ∈ visited st -> exists st', close_node n st = Ok st' /\ SccOk st' /\ visited st' = visited st.
Proof.
  intros [H1 H2 H3 H4 H5] Hn. unfold close_node. destruct (H1 n Hn) as [[i ->] [o ->]]. case_decide; [|by eauto 10 using SccOk].
  pose proof (pop_component_sub (lowLinkValues st) i (scc_stack st) []) as Hpop.
  destruct (pop_component _ _ _ _) as [stack scc]. simpl in Hpop. eexists. split; [done|]. split; [|done].
  split; simpl; try done.
  - intros m Hm. by apply H2, Hpop.
  - assert (Hscc : forall m, m ∈ scc -> m ∈ node_values g).
    { intros m Hm. apply Hpop in Hm as [?%elem_of_nil|?]; [done|]. by apply H3, H2. }
    intros c m Hc Hm. destruct (bool_decide _); [|by eapply H5].
    apply elem_of_app in Hc as [Hc|Hc%list_elem_of_singleton]; [by eapply H5|subst; auto].
Qed.

Lemma followNode_ok (fuel : nat) : GraphOk g -> forall n st,
  n ∈ node_values g -> SccOk st -> length (nodes g) < fuel + length (visited st) ->
  exists st', followNode fuel g n st = Ok st' /\ SccOk st' /\ n ∈ visited st' /\
    (forall m, m ∈ visited st -> m ∈ visited st').
Proof.
  intros Hg. assert (Hlen : forall st, SccOk st -> length (visited st) <= length (nodes g)).
  { intros st Hst. transitivity (length (node_values g)); [|unfold node_values; by rewrite length_fmap].
    apply submseteq_length, NoDup_submseteq; apply Hst. }
  induction fuel as [|fuel IH]; intros n st Hn Hst Hf; [specialize (Hlen st Hst); simpl in Hf; lia|]. simpl.
  case_decide as Hv; [by eauto 10|]. destruct (direct_children g n Hg Hn) as (cs & -> & Hcs). simpl.
  pose proof (enter_node_ok n st Hst Hn) as Hst1.
  assert (Hlen1 : length (visited (enter_node n st)) = Datatypes.S (length (visited st))).
  { simpl. unfold set_add. rewrite decide_False by done. rewrite length_app. simpl. lia. }
  destruct (foldE_inv (fun st c => followNode fuel g (to c) st ≫= lower_link n (to c))
    (fun _ st' => SccOk st' /\ forall m, m ∈ visited (enter_node n st) -> m ∈ visited st') (enter_node n st) cs)
    as (st2 & -> & Hst2 & Hv2).
  - done.
  - intros l1 c l2 st2 Heq [Hst2 Hv2]. assert (Hc : c ∈ cs) by (rewrite Heq; apply elem_of_app; right; by left).
    apply Hcs in Hc as [Hc _].
    assert (Hle : length (visited (enter_node n st)) <= length (visited st2)).
    { apply submseteq_length, NoDup_submseteq; [apply Hst1|done]. }
    destruct (IH (to c) st2) as (st3 & -> & Hst3 & _ & Hv3); [by apply (go_to g)|done|lia|]. simpl.
    destruct (lower_link_ok n (to c) st3 Hst3) as (st4 & -> & Hst4 & Hv4).
    { apply Hv3, Hv2. simpl. apply elem_of_set_add. by left. }
    exists st4. split; [done|]. split; [done|]. intros m Hm. rewrite Hv4. by apply Hv3, Hv2.
  - simpl. assert (Hn2 : n ∈ visited st2). { apply Hv2. simpl. apply elem_of_set_add. by left. }
    destruct (close_node_ok n st2 Hst2 Hn2) as (st3 & -> & Hst3 & Hv3). exists st3. rewrite Hv3. split_and!; try done.
    intros m Hm. apply Hv2. simpl. apply elem_of_set_add. by right.
Qed.

Lemma components_ok :
  GraphOk g -> exists l, getStronglyConnectedComponents g = Ok l /\ forall c n, c ∈ l -> n ∈ c -> n ∈ node_values g.
Proof.
  intros Hg. unfold getStronglyConnectedComponents.
  destruct (foldE_inv (fun st n => followNode (length (nodes g) + 2) g n st) (fun _ st => SccOk st)
    {| next_id := 0; visited := []; ids := []; lowLinkValues := []; scc_stack := []; stronglyConnectedComponents := [] |}
    (node_values g)) as (st & -> & Hst).
  - split; simpl; try (by intros ? ?%elem_of_nil); [constructor|by intros ? ? ?%elem_of_nil].
  - intros l1 n l2 st Heq Hst. destruct (followNode_ok (length (nodes g) + 2) Hg n st) as (st' & -> & Hst' & _); try done.
    + rewrite Heq. apply elem_of_app. right. by left.
    + lia.
    + eauto.
  - simpl. eexists. split; [done|]. apply Hst.
Qed.
End scc.

(** ** The depth-first search finds *)

Section search.
Context (g : DirectedGraph) (fn : INode -> bool).

(** What a search that found nothing has seen. *)
Record Searched (n : INode) (seen seen' : list INode) : Prop := {
  se_sub : forall m, m ∈ seen -> m ∈ seen';
  se_node : n ∈ seen';
  se_closed : forall x y, x ∈ seen' -> x ∉ seen -> edge g x y -> y ∈ seen';
  se_false : forall x, x ∈ seen' -> x ∉ seen -> fn x = false;
  se_nodup : NoDup seen';
  se_nodes : forall m, m ∈ seen' -> m ∈ node_values g;
}.

Lemma depthFirstSearchRecursive_ok (fuel : nat) : GraphOk g -> forall n seen,
  n ∈ node_values g -> NoDup seen -> (forall m, m ∈ seen -> m ∈ node_values g) ->
  length (nodes g) < fuel + length seen ->
  exists r seen', depthFirstSearchRecursive fuel g fn n seen = Ok (r, seen') /\
    match r with
    | Some x => fn x = true /\ x ∈ node_values g
    | None => Searched n seen seen'
    end.
Proof.
  intros Hg. assert (Hlen : forall l, NoDup l -> (forall m, m ∈ l -> m ∈ node_values g) -> length l <= length (nodes g)).
  { intros l Hl Hm. transitivity (length (node_values g)); [|unfold node_values; by rewrite length_fmap].
    by apply submseteq_length, NoDup_submseteq. }
  induction fuel as [|fuel IH]; intros n seen Hn Hnd Hsub Hf; [specialize (Hlen seen Hnd Hsub); simpl in Hf; lia|]. simpl.
  case_decide as Hin; [by exists None, seen|]. destruct (fn n) eqn:Hfn; [by eexists (Some n), _|].
  destruct (direct_children g n Hg Hn) as (cs & -> & Hcs). simpl.
  destruct (foldE_inv (fun acc c => match acc with
      | (Some found, seen) => Ok (Some found, seen)
      | (None, seen) => depthFirstSearchRecursive fuel g fn (to c) seen
      end)
    (fun l1 acc => match acc.1 with
      | Some x => fn x = true /\ x ∈ node_values g
      | None => (forall m, m ∈ seen ++ [n] -> m ∈ acc.2) /\ (forall c, c ∈ l1 -> to c ∈ acc.2) /\
          (forall x y, x ∈ acc.2 -> x ∉ seen ++ [n] -> edge g x y -> y ∈ acc.2) /\
          (forall x, x ∈ acc.2 -> x ∉ seen ++ [n] -> fn x = false) /\ NoDup acc.2 /\
          (forall m, m ∈ acc.2 -> m ∈ node_values g)
      end) (None, seen ++ [n]) cs) as ([r seen'] & -> & Hr).
  - simpl. split_and!; try done; [by intros c ?%elem_of_nil| |].
    + apply NoDup_app. split_and!; [done| |apply NoDup_singleton]. by intros m Hm ->%list_elem_of_singleton.
    + intros m [?|Hm%list_elem_of_singleton]%elem_of_app; [auto|by subst].
  - intros l1 c l2 [r s] Heq Hr. destruct r as [x|]; [by exists (Some x, s)|]. simpl in Hr.
    destruct Hr as (R1 & R2 & R3 & R4 & R5 & R6).
    assert (Hc : c ∈ cs) by (rewrite Heq; apply elem_of_app; right; by left). apply Hcs in Hc as [Hc _].
    assert (Hle : length (seen ++ [n]) <= length s).
    { apply submseteq_length, NoDup_submseteq; [|done]. apply NoDup_app. split_and!; [done| |apply NoDup_singleton].
      by intros m Hm ->%list_elem_of_singleton. }
    rewrite length_app in Hle. simpl in Hle.
    destruct (IH (to c) s) as ([x|] & s' & -> & Hs'); [by apply (go_to g)|done|done|lia|by exists (Some x, s')|].
    exists (None, s'). split; [done|]. simpl. destruct Hs' as [S1 S2 S3 S4 S5 S6]. split_and!; auto.
    + intros d [Hd|Hd%list_elem_of_singleton]%elem_of_app; [auto|by subst].
    + intros x y Hx Hnx Hxy. destruct (decide (x ∈ s)) as [Hxs|?]; [by eapply S1, R3|by eapply S3].
    + intros x Hx Hnx. destruct (decide (x ∈ s)) as [Hxs|?]; [by apply R4|by apply S4].
  - exists r, seen'. split; [done|]. destruct r as [x|]; [done|]. simpl in Hr. destruct Hr as (R1 & R2 & R3 & R4 & R5 & R6).
    split; try done.
    + intros m Hm. apply R1, elem_of_app. by left.
    + apply R1, elem_of_app. right. by left.
    + intros x y Hx Hnx Hxy. destruct (decide (x = n)) as [->|Hne].
      * destruct Hxy as (c & Hc & Hfc & <-). by apply R2, Hcs.
      * apply (R3 x); [done| |done]. intros [?|?%list_elem_of_singleton]%elem_of_app; done.
    + intros x Hx Hnx. destruct (decide (x = n)) as [->|Hne]; [done|].
      apply R4; [done|]. intros [?|?%list_elem_of_singleton]%elem_of_app; done.
Qed.

(** The search finds a node [fn] accepts whenever the start leads to one. *)
Lemma depthFirstSearch_finds (n x : INode) :
  GraphOk g -> n ∈ node_values g -> rtc (edge g) n x -> fn x = true ->
  exists y, depthFirstSearch g n fn = Ok (Some y) /\ fn y = true /\ y ∈ node_values g.
Proof.
  intros Hg Hn Hr Hx. unfold depthFirstSearch.
  destruct (depthFirstSearchRecursive_ok (length (nodes g) + 2) Hg n []) as ([y|] & s & -> & Hs);
    [done|constructor|by intros ? ?%elem_of_nil|simpl; lia|by exists y|]. exfalso.
  destruct Hs as [_ S2 S3 S4 _ _]. assert (Hall : x ∈ s).
  { clear Hx Hn. revert S2. induction Hr as [m|m k z Hmk Hkz IH]; intros Hm; [done|]. apply IH. by apply (S3 m k Hm (not_elem_of_nil _)). }
  rewrite (S4 x Hall (not_elem_of_nil _)) in Hx. done.
Qed.
End search.

(** ** Handling the cycles *)

Lemma handleCycles_ok (g : DirectedGraph) (starts : list INode) (trigger : INode) :
  GraphOk g -> trigger ∈ node_values g -> (forall s, s ∈ starts -> rtc (edge g) trigger s /\ s ∈ node_values g) ->
  exists l, handleCycles g starts trigger = Ok l /\ forall s, s ∈ l -> s ∈ node_values g.
Proof.
  intros Hg Ht Hs. unfold handleCycles. destruct (components_ok g Hg) as (cs & -> & Hcs). simpl.
  set (cycles := arr_filter _ cs).
  case_bool_decide; [exists starts; split; [done|]; intros s ?%Hs; tauto|].
  destruct (foldE_inv (fun l s => foldE (fun l cycle => if bool_decide (s ∈ cycle) then
      depthFirstSearch g trigger (fun n => bool_decide (n ∈ cycle)) ≫= fun firstNode =>
      match firstNode with
      | None => Err (AssertionError "the trigger must be connected to the cycle, otherwise the cycle wouldn't be part of the subgraph")
      | Some f => Ok (set_add (filter (fun n => n <> s) l) f)
      end else Ok l) l cycles) (fun _ l => forall s, s ∈ l -> s ∈ node_values g) starts starts) as (l & Hl & Hn).
  - intros s ?%Hs. tauto.
  - intros l1 s l2 l Heq Hl. assert (Hin : s ∈ starts) by (rewrite Heq; apply elem_of_app; right; by left).
    destruct (Hs s Hin) as [Hr Hsn].
    apply (foldE_inv (fun l cycle => if bool_decide (s ∈ cycle) then _ else Ok l) (fun _ l => forall s, s ∈ l -> s ∈ node_values g)); [done|].
    intros c1 c c2 l' Hc Hl'. case_bool_decide as Hsc; [|eauto].
    destruct (depthFirstSearch_finds g (fun n => bool_decide (n ∈ c)) trigger s Hg Ht Hr) as (y & -> & _ & Hy);
      [by apply bool_decide_eq_true|]. simpl.
    eexists. split; [done|]. intros m [->|Hm]%elem_of_set_add; [done|]. apply list_elem_of_filter in Hm as [_ Hm]. auto.
  - exists l. done.
Qed.

(** ** Main paths survive the preparation *)

(** One [main] connection leads from [x] to [y]. *)
Definition main_edge (g : DirectedGraph) (x y : INode) : Prop :=
  exists c, c ∈ connection_values g /\ ctype c = Main /\ from c = x /\ to c = y.

(** A [main] path between enabled nodes is still there without the disabled nodes. *)
Lemma main_path_filtered (g h : DirectedGraph) (x d : INode) :
  (forall c, disabled (from c) = false -> disabled (to c) = false ->
     c ∈ connection_values h <-> through g is_disabled c) ->
  disabled d = false -> rtc (main_edge g) x d ->
  (disabled x = false -> rtc (main_edge h) x d) /\
  (disabled x = true -> exists c, through g is_disabled c /\ ctype c = Main /\ from c = x /\
     disabled (to c) = false /\ rtc (main_edge h) (to c) d).
Proof.
  intros Hh Hd Hr. induction Hr as [x|x y d (e & He & Hm & <- & <-) Hr IH]; [split; [constructor|congruence]|].
  destruct (IH Hd) as [IH1 IH2]. destruct (disabled (to e)) eqn:Hy.
  - destruct (IH2 eq_refl) as (c & Hc & Hmc & Hfc & Htc & Hrc).
    assert (Hj : through g is_disabled (join e c)) by (by apply through_step).
    split; intros Hx; [|by exists (join e c)]. eapply rtc_l; [|done]. exists (join e c). split_and!; try done. by apply Hh.
  - assert (Hj : through g is_disabled e) by by constructor.
    split; intros Hx; [|exists e; split_and!; auto]. eapply rtc_l; [|by apply IH1]. exists e. split_and!; try done. by apply Hh.
Qed.

(** Where the trigger leads to the destination, the last connection leaving it leads on. *)
Lemma leaves_trigger (g : DirectedGraph) (d trigger x : INode) :
  trigger <> d -> rtc (main_edge g) x d ->
  onward g d trigger x \/ exists c, c ∈ connection_values g /\ ctype c = Main /\ from c = trigger /\ onward g d trigger (to c).
Proof.
  intros Hne Hr. induction Hr as [d|x y d (e & He & Hm & <- & <-) Hr IH]; [left; by constructor|].
  destruct (IH Hne) as [IH1|IH1]; [|by right].
  destruct (decide (from e = trigger)) as [Hf|Hf]; [right; by exists e|left; by constructor].
Qed.

Lemma subgraph_has_trigger (g h : DirectedGraph) (d trigger : INode) :
  rtc (main_edge g) trigger d ->
  (forall c, c ∈ connection_values g -> ctype c = Main -> reached g d trigger (from c) ->
     onward g d trigger (to c) -> c ∈ connection_values h) ->
  walked h d trigger trigger.
Proof.
  intros Hr Hc. destruct (decide (trigger = d)) as [->|Hne]; [by left|right].
  destruct (leaves_trigger g d trigger trigger Hne Hr) as [Ho|(c & Hcg & Hm & Hf & Ho)].
  - by destruct (onward_chain g d trigger trigger Ho).
  - exists c. split_and!; [|done|by left]. apply Hc; try done. rewrite Hf. constructor.
Qed.

(** ** The stack *)

Section recreate.
Context {Item : Type} (emptyItem : Item) (name_le : string -> string -> bool).
Context (runData : IRunData Item) (pinData : IPinData Item).

(** An entry of the stack for one of the start nodes: no more inputs than sources. *)
Definition entry_ok (starts : list INode) (e : IExecuteData) : Prop :=
  exec_node e ∈ starts /\
  match main_source e with
  | None => main_data e = [[emptyItem]]
  | Some sources => length (main_data e) <= length sources
  end.

Lemma complete_sources_ok (n : INode) (cs : list GraphConnection) :
  (forall c, c ∈ cs -> hasData runData pinData c = true) ->
  exists items sources, foldE (complete_source n runData pinData) ([], []) cs = Ok (items, sources) /\
    length items <= length sources.
Proof.
  intros Hd. destruct (foldE_inv (complete_source n runData pinData) (fun _ acc => length acc.1 <= length acc.2) ([], []) cs)
    as ([items sources] & Hr & Hl); [done| |by exists items, sources].
  intros l1 c l2 [items sources] Heq Hl. specialize (Hd c). unfold hasData in Hd. unfold complete_source. simpl in *.
  assert (Hc : c ∈ cs) by (rewrite Heq; apply elem_of_app; right; by left). specialize (Hd Hc).
  destruct (pinData !! name (from c)) as [p|] eqn:Hp; [eexists; split; [done|]; simpl; rewrite !length_app; simpl; lia|].
  destruct (runData !! name (from c)) as [r|] eqn:Hrd.
  - case_match; simplify_eq/=; [case_match; simplify_eq|]; eexists; (split; [done|]); simpl; rewrite ?length_app; simpl; lia.
  - apply orb_true_iff in Hd as [Hd|Hd]; apply bool_decide_eq_true in Hd; by apply is_Some_None in Hd.
Qed.

Lemma recreate_node_ok (g : DirectedGraph) (starts : list INode) (n : INode) (st : RecreatedStack) :
  GraphOk g -> n ∈ node_values g -> n ∈ starts -> (forall e, e ∈ nodeExecutionStack st -> entry_ok starts e) ->
  exists st', recreate_node emptyItem name_le g runData pinData st n = Ok st' /\
    forall e, e ∈ nodeExecutionStack st' -> entry_ok starts e.
Proof.
  intros Hg Hn Hns Hst. unfold recreate_node. destruct (direct_parents g n Hg Hn) as (ps & -> & _). simpl.
  case_bool_decide.
  { eexists. split; [done|]. simpl. intros e [?|He%list_elem_of_singleton]%elem_of_app; [auto|subst]. by split. }
  destruct (getSourceDataGroups_ok name_le g n runData pinData) as (groups & -> & _ & Hgr). simpl.
  destruct (foldE_inv (recreate_group n runData pinData) (fun _ st => forall e, e ∈ nodeExecutionStack st -> entry_ok starts e) st groups)
    as (st' & Hr & Hok); [done| |by exists st'].
  intros l1 G l2 st1 Heq Hst1. assert (HG : G ∈ groups) by (rewrite Heq; apply elem_of_app; right; by left).
  destruct (Hgr G HG) as (_ & _ & Hc). unfold recreate_group. destruct (complete G) eqn:HcG.
  - destruct (complete_sources_ok n (group_connections G)) as (items & sources & -> & Hl); [by apply Hc|]. simpl.
    eexists. split; [done|]. simpl. intros e [?|He%list_elem_of_singleton]%elem_of_app; [auto|subst]. by split.
  - destruct (foldl _ _ _) as [w ws]. eexists. split; [done|]. simpl. done.
Qed.

Lemma recreate_ok (g : DirectedGraph) (starts : list INode) :
  GraphOk g -> (forall n, n ∈ node_values g -> disabled n = false) -> (forall n, n ∈ starts -> n ∈ node_values g) ->
  exists st, recreateNodeExecutionStack emptyItem name_le g starts runData pinData = Ok st /\
    forall e, e ∈ nodeExecutionStack st -> entry_ok starts e.
Proof.
  intros Hg Hd Hs. unfold recreateNodeExecutionStack.
  assert (Hfor : for_each (fun node => require (negb (disabled node)) (contains_disabled node)) (node_values g) = Ok tt).
  { apply for_each_ok. intros n Hn. by rewrite (Hd n Hn). }
  rewrite Hfor. simpl.
  destruct (foldE_inv (recreate_node emptyItem name_le g runData pinData)
    (fun _ st => forall e, e ∈ nodeExecutionStack st -> entry_ok starts e)
    {| nodeExecutionStack := []; waitingExecution := ∅; waitingExecutionSource := ∅ |} starts) as (st & Hr & Hok).
  - simpl. by intros e ?%elem_of_nil.
  - intros l1 n l2 st Heq Hst. assert (Hn : n ∈ starts) by (rewrite Heq; apply elem_of_app; right; by left).
    apply recreate_node_ok; auto.
  - by exists st.
Qed.
End recreate.

Lemma main_edge_edge (g : DirectedGraph) (x y : INode) : main_edge g x y -> edge g x y.
Proof. intros (c & ? & _ & ? & ?). by exists c. Qed.

Lemma goes_on_edge {Item} (g : DirectedGraph) (d : INode) (runData : IRunData Item) (pinData : IPinData Item) (x y : INode) :
  goes_on g d runData pinData x y -> edge g x y.
Proof. intros [_ (c & ? & ? & ? & _)]. by exists c. Qed.

Lemma getNodesByNames_in (g : DirectedGraph) (names : list string) (n : INode) :
  n ∈ getNodesByNames g names -> n ∈ node_values g.
Proof.
  unfold getNodesByNames. rewrite elem_of_set_of_list, list_elem_of_omap. intros (k & _ & Hk).
  apply map_get_Some_elem_of in Hk. apply snd_elem. by exists k.
Qed.

(** ** The whole preparation *)

Section whole.
Context {Item : Type} (emptyItem : Item) (name_le : string -> string -> bool).

(** A partial execution can be prepared whenever the editor's graph leads from the
    trigger to the destination: if both are enabled nodes of a well-formed graph joined
    by a [main] path, no [main] cycle consists of disabled nodes only, and the names do
    not confuse connections, then steps 2 to 7 of [runPartialWorkflow2] throw nothing.
    What they hand on is consistent: every start node is among the nodes to run, its old
    run data is gone, all run data kept belongs to nodes to run, and every stack entry is
    for a start node, with no more inputs than sources. *)
Lemma partial_execution_is_prepared (g : DirectedGraph) (destination trigger : INode)
    (runData : IRunData Item) (pinData : IPinData Item) (dirtyNodeNames : list string) :
  GraphOk g -> Unambiguous g -> no_disabled_loop g ->
  destination ∈ node_values g -> trigger ∈ node_values g ->
  disabled destination = false -> disabled trigger = false -> rtc (main_edge g) trigger destination ->
  exists r, preparePartialExecution emptyItem name_le g destination trigger runData pinData dirtyNodeNames = Ok r /\
    (forall n, n ∈ startNodes r -> name n ∈ runNodeFilter r /\ kept_runData r !! name n = None) /\
    (forall n v, kept_runData r !! n = Some v -> n ∈ runNodeFilter r /\ runData !! n = Some v) /\
    (forall e, e ∈ nodeExecutionStack (stack r) -> entry_ok emptyItem (startNodes r) e).
Proof.
  intros Hg Hun Hloop Hd Ht Hde Hte Hr. unfold preparePartialExecution.
  destruct (filterDisabledNodes_ok g Hg Hun Hloop) as (h & -> & Hh & Hnodes & Hbr). simpl. rewrite Hde. simpl.
  assert (Hin : forall n, n ∈ node_values g -> disabled n = false -> n ∈ node_values h).
  { intros n (k & Hn)%snd_elem Hdn. unfold node_values. rewrite Hnodes. apply snd_elem. exists k. by apply list_elem_of_filter. }
  assert (Hrh : rtc (main_edge h) trigger destination).
  { by apply (main_path_filtered g h trigger destination). }
  destruct (findSubgraph_spec h destination trigger Hh (Hin _ Hd Hde) (Hin _ Ht Hte)) as (s & -> & Hs & _ & Hcomp & _ & Hw). simpl.
  pose proof (po_ok _ _ Hs) as Hsok.
  assert (Hts : trigger ∈ node_values s) by (by apply Hw, (subgraph_has_trigger h)).
  destruct (cleanRunData_ok s runData (getNodesByNames s dirtyNodeNames) Hsok) as (rd1 & -> & Hrd1).
  { intros x Hx. by apply getNodesByNames_in in Hx. }
  simpl. destruct (findStartNodes_ok s destination rd1 pinData trigger Hsok Hts) as (starts & -> & _ & Hst). simpl.
  destruct (handleCycles_ok s starts trigger Hsok Hts) as (starts' & -> & Hst').
  { intros n [_ Hn]%Hst. assert (He : rtc (edge s) trigger n).
    { eapply rtc_subrel; [|done]. apply goes_on_edge. }
    split; [done|]. apply rtc_inv_r in He as [->|(m & _ & (c & Hc & _ & <-))]; [done|by apply (go_to s)]. }
  simpl. destruct (cleanRunData_ok s rd1 starts' Hsok Hst') as (rd2 & -> & Hrd2). simpl.
  destruct (recreate_ok emptyItem name_le rd2 pinData s starts' Hsok) as (st & -> & Hstack); [|done|].
  { intros n Hn. apply (po_nodes _ _ Hs) in Hn. unfold node_values in Hn. rewrite Hnodes in Hn.
    by apply snd_elem in Hn as (k & [Hn _]%list_elem_of_filter). }
  eexists. split; [done|]. simpl. split_and!; [| |done].
  - intros n Hn. split; [by apply list_elem_of_fmap_2, Hst'|].
    destruct (rd2 !! name n) as [v|] eqn:Hv; [|done]. exfalso. apply Hrd2 in Hv as (_ & _ & Hno). apply Hno.
    exists n. split; [done|]. exists n. split; [constructor|by left].
  - intros n v (Hv & (x & Hx & <-) & _)%Hrd2. apply Hrd1 in Hv as (Hv & _). split; [by apply list_elem_of_fmap_2|done].
Qed.
End whole.

(** ** A concrete preparation *)

Lemma partial_execution_is_prepared_witness :
  exists r, preparePartialExecution 0 (fun _ _ => true) bridge_graph end_node start_node started_once ∅ [] = Ok r /\
    forall n, n ∈ startNodes r -> name n ∈ runNodeFilter r /\ kept_runData r !! name n = None.
Proof.
  destruct (partial_execution_is_prepared 0 (fun _ _ => true) bridge_graph end_node start_node started_once ∅ []
    (proj1 bridge_graph_ok) (proj2 bridge_graph_ok) bridge_graph_no_loop) as (r & Hr & Hs & _).
  - refine (bool_decide_unpack _ _). vm_compute. exact I.
  - refine (bool_decide_unpack _ _). vm_compute. exact I.
  - reflexivity.
  - reflexivity.
  - apply (rtc_l _ _ off_node); [|apply rtc_once].
    + exists (main_connection start_node off_node 1 0). split; [refine (bool_decide_unpack _ _); vm_compute; exact I|done].
    + exists (main_connection off_node end_node 0 2). split; [refine (bool_decide_unpack _ _); vm_compute; exact I|done].
  - exists r. split; [exact Hr|exact Hs].
Defined.
