(* ===== verification/PartialTrigger.v ===== *)
(** * Partial execution: the trigger, tools, and the whole of the preparation

    [find-trigger-for-partial-execution.ts], [rewire-graph.ts], [DirectedGraph.fromWorkflow]
    and [toWorkflow], and [runPartialWorkflow2] up to the execution itself.

    The workflow is that of [Workflow]; a node is what its reference holds.  What the code
    asks of a node's type is a parameter: [isTrigger] (its group names [trigger]) and
    [isTool] ([NodeHelpers.isTool]).  The parameters of the virtual agent, which no step of
    the preparation reads, and [rewireOutputLogTo] are left out. *)

From stdpp Require Import base gmap strings list relations.
From Stdlib Require Import ZArith Lia.
From S2P Require Import Prelude.
From S2P Require Import JsCollections.
From S2P Require Import Workflow.
From S2P Require Import PartialGraph.
From S2P Require Import PartialFilter.
From S2P Require Import PartialSubgraph.
From S2P Require Import PartialStart.
From S2P Require Import PartialStack.
From S2P Require Import PartialTotal.
Local Open Scope string_scope.
Local Open Scope list_scope.

(** ** Between a workflow and a graph *)

(** The workflow and what its references hold. *)
Record WorkflowNodes := { wn_workflow : Workflow.Workflow; wn_node : nat -> option INode }.

Definition getNode (w : WorkflowNodes) (nodeName : string) : option INode :=
  map_get nodeName (wf_nodes (wn_workflow w)) ≫= wn_node w.

Definition found (w : WorkflowNodes) (nodeName : string) : presult INode :=
  match getNode w nodeName with Some node => Ok node | None => Err (AssertionError EmptyString) end.

(** [fromWorkflow]. *)
Definition fromWorkflow (w : WorkflowNodes) : presult DirectedGraph :=
  foldE (fun g '(fromNodeName, iConnection) =>
    found w fromNodeName ≫= fun f =>
    foldE (fun g '(outputType, outputs) =>
      foldE (fun g '(o, conns) =>
        foldE (fun g conn =>
          found w (Workflow.ic_node conn) ≫= fun t =>
          addConnection g {| from := f; to := t; ctype := outputType; outputIndex := o;
                             inputIndex := Z.of_nat (Workflow.ic_index conn) |})
          g (default [] conns))
        g (imap pair outputs))
      g iConnection)
    (addNodes empty_graph (omap (fun p => wn_node w p.2) (wf_nodes (wn_workflow w))))
    (connectionsBySourceNode (wn_workflow w)).

(** [toIConnections], with the indices of [Workflow]. *)
Definition workflow_connection (c : IConnection) : Workflow.IConnection :=
  {| Workflow.ic_node := ic_node c; Workflow.ic_type := ic_type c; Workflow.ic_index := Z.to_nat (ic_index c) |}.
Definition workflow_connections (cs : IConnections) : Workflow.IConnections :=
  map (prod_map id (map (prod_map id (map (option_map (map workflow_connection)))))) cs.

(** [toWorkflow({ ...workflow })]. *)
Definition toWorkflow (g : DirectedGraph) (w : WorkflowNodes) : presult WorkflowNodes :=
  toIConnections g ≫= fun connections =>
  let connections := workflow_connections connections in
  Ok {| wn_workflow := {|
          wf_nodes := foldl (fun m '(i, n) => map_set (name n) i m) [] (imap pair (node_values g));
          connectionsBySourceNode := connections;
          connectionsByDestinationNode := mapConnectionsByDestination connections;
          executionOrder := executionOrder (wn_workflow w) |};
        wn_node := fun i => node_values g !! i |}.

(** ** Tools *)

Definition TOOL_EXECUTOR_NODE_NAME : string := "PartialExecutionToolExecutor".
Definition AiTool : NodeConnectionType := "ai_tool".

Definition toolExecutor : INode :=
  {| name := TOOL_EXECUTOR_NODE_NAME; type := "@n8n/n8n-nodes-langchain.toolExecutor"; disabled := false |}.

(** [addConnection] without indices. *)
Definition plain_connection (f t : INode) (type : NodeConnectionType) : GraphConnection :=
  {| from := f; to := t; ctype := type; outputIndex := 0; inputIndex := 0 |}.

Definition rewireGraph (tool : INode) (graph : DirectedGraph) : presult DirectedGraph :=
  clone graph ≫= fun modifiedGraph =>
  getChildren modifiedGraph tool ≫= fun children =>
  match last children with
  | None => Ok graph
  | Some rootNode =>
      getDirectParentConnections modifiedGraph rootNode ≫= fun incoming =>
      let allIncomingConnection := arr_filter (fun cn => bool_decide (ctype cn = Main)) incoming in
      addConnection (addNode modifiedGraph toolExecutor) (plain_connection tool toolExecutor AiTool) ≫= fun modifiedGraph =>
      foldE addConnection modifiedGraph (map (fun cn => plain_connection (from cn) toolExecutor (ctype cn)) allIncomingConnection)
        ≫= fun modifiedGraph =>
      Ok (removeNode modifiedGraph rootNode)
  end.

(** ** The trigger *)

Definition ends_with (suffix s : string) : bool :=
  bool_decide (String.length suffix <= String.length s)%nat &&
  bool_decide (String.substring (String.length s - String.length suffix) (String.length suffix) s = suffix).

Definition is_webhook (node : INode) : bool := ends_with "webhook" (type node).

(** The sort of the pinned triggers: each webhook is inserted in front of those before it,
    each other node behind them. *)
Definition webhooks_first (l : list INode) : list INode :=
  foldl (fun sorted node => if is_webhook node then node :: sorted else sorted ++ [node]) [] l.

Section trigger.
Context {Item : Type} (isTrigger isTool : INode -> bool).
(** The pinned data of the workflow, and the run data. *)
Context (workflowPinData : IPinData Item).

Definition isTriggerNode : INode -> bool := isTrigger.

Definition has_entry {V} (m : gmap string V) (node : INode) : bool := bool_decide (is_Some (m !! name node)).

Definition findAllParentTriggers (w : WorkflowNodes) (destinationNodeName : string) : presult (list INode) :=
  foldE (fun parentNodes name => found w name ≫= fun node => Ok (parentNodes ++ [node])) []
    (getParentNodes (wn_workflow w) destinationNodeName) ≫= fun parentNodes =>
  Ok (arr_filter isTriggerNode parentNodes).

(** What is done with the enabled triggers above the destination. *)
Definition prefer_trigger (runData : IRunData Item) (parentTriggers : list INode) : option INode :=
  match arr_find (has_entry runData) parentTriggers with
  | Some trigger => Some trigger
  | None =>
      match webhooks_first (arr_filter (has_entry workflowPinData) parentTriggers) with
      | trigger :: _ => Some trigger
      | [] => match arr_filter is_webhook parentTriggers with trigger :: _ => Some trigger | [] => head parentTriggers end
      end
  end.

Definition findTriggerForPartialExecution (w : WorkflowNodes) (destinationNodeName : string) (runData : IRunData Item) :
    presult (option INode) :=
  match getNode w destinationNodeName with
  | None => Ok None
  | Some destinationNode =>
      if isTriggerNode destinationNode && negb (disabled destinationNode) then Ok (Some destinationNode)
      else
        findAllParentTriggers w destinationNodeName ≫= fun triggers =>
        Ok (prefer_trigger runData (arr_filter (fun trigger => negb (disabled trigger)) triggers))
  end.

(** The nodes that lead to the destination and have nothing on [main] before them: does one
    have run data? *)
Definition anyReachableRootHasRunData (g : DirectedGraph) (destinationNodeName : string) (runData : IRunData Item) : presult bool :=
  match map_get destinationNodeName (nodes g) with
  | None => Ok false
  | Some destinationNode =>
      getParentConnections g destinationNode ≫= fun parentConnections =>
      foldE (fun rootNodes parentNode =>
        getDirectParentConnections g parentNode ≫= fun direct =>
        Ok (if arr_some (fun c => bool_decide (ctype c = Main)) direct then rootNodes else set_add rootNodes parentNode))
        [] (set_of_list (map from parentConnections)) ≫= fun rootNodes =>
      Ok (arr_some (has_entry runData) rootNodes)
  end.

(** ** [runPartialWorkflow2], up to the execution *)

Definition can_start (w : WorkflowNodes) (runData : IRunData Item) (nodeName : string) : bool :=
  match getNode w nodeName with
  | Some parentNode => negb (disabled parentNode) && bool_decide (is_Some (runData !! nodeName))
  | None => false
  end.

(** Step 1: a trigger, or the closest enabled node above the destination with run data. *)
Definition findStart (w : WorkflowNodes) (destinationNodeName : string) (runData : IRunData Item) : presult INode :=
  findTriggerForPartialExecution w destinationNodeName runData ≫= fun trigger =>
  match trigger with
  | Some trigger => Ok trigger
  | None =>
      match arr_find (can_start w runData) (getParentNodes (wn_workflow w) destinationNodeName) ≫= getNode w with
      | Some startNode => Ok startNode
      | None => Err (UserError "Connect a trigger and make sure it's enabled to run this node")
      end
  end.

(** A tool is run by the virtual agent in the place of its root. *)
Definition rewire_destination (w : WorkflowNodes) (graph : DirectedGraph) (destination : INode) (nodeName : string) :
    presult (WorkflowNodes * DirectedGraph * INode * string) :=
  if isTool destination then
    rewireGraph destination graph ≫= fun graph =>
    toWorkflow graph w ≫= fun w =>
    match getNode w TOOL_EXECUTOR_NODE_NAME with
    | None => Err (OperationalError "ToolExecutor can not be found")
    | Some toolExecutorNode => Ok (w, graph, toolExecutorNode, name toolExecutorNode)
    end
  else Ok (w, graph, destination, nodeName).

Context (emptyItem : Item) (name_le : string -> string -> bool).

Definition runPartialWorkflow2 (w : WorkflowNodes) (runData : IRunData Item) (pinData : IPinData Item)
    (dirtyNodeNames : list string) (destinationNodeName : string) : presult PartialExecution :=
  match getNode w destinationNodeName with
  | None => Err (AssertionError ("Could not find a node with the name " +:+ destinationNodeName +:+ " in the workflow."))
  | Some destination =>
      fromWorkflow w ≫= fun graph =>
      rewire_destination w graph destination destinationNodeName ≫= fun '(w, graph, destination, nodeName) =>
      findStart w nodeName runData ≫= fun trigger =>
      preparePartialExecution emptyItem name_le graph destination trigger runData pinData dirtyNodeNames
  end.
End trigger.

(** ** Loops that do not throw *)

Lemma foldE_exact {E S A} (f : S -> A -> Prelude.result E S) (h : S -> A -> S) (P : S -> Prop) (l : list A) (s : S) :
  (forall s x, x ∈ l -> P s -> f s x = Ok (h s x) /\ P (h s x)) -> P s ->
  foldE f s l = Ok (foldl h s l) /\ P (foldl h s l).
Proof.
  revert s. induction l as [|x l IH]; intros s Hf Hs; [done|]. simpl. destruct (Hf s x ltac:(by left) Hs) as [-> H].
  apply IH; [|done]. intros s' y Hy. apply Hf. by right.
Qed.

Lemma foldl_bind {S A B} (f : S -> B -> S) (k : A -> list B) (l : list A) (s : S) :
  foldl (fun s x => foldl f s (k x)) s l = foldl f s (x ← l; k x).
Proof. revert s. induction l as [|x l IH]; intros s; [done|]. simpl. by rewrite IH, foldl_app. Qed.

Lemma foldl_ext' {S A} (f g : S -> A -> S) (l : list A) (s : S) : (forall s x, f s x = g s x) -> foldl f s l = foldl g s l.
Proof. intros H. revert s. induction l as [|x l IH]; intros s; [done|]. simpl. by rewrite H, IH. Qed.

(** ** The graph a workflow draws *)

(** The names of the nodes are their keys, and connections join nodes, on both ends at a
    slot of the same type; those by destination are those by source inverted. *)
Record WorkflowOk (w : WorkflowNodes) : Prop := {
  wo_keys : NoDup (wf_nodes (wn_workflow w)).*1;
  wo_named : forall p, p ∈ wf_nodes (wn_workflow w) -> exists n, wn_node w p.2 = Some n /\ name n = p.1;
  wo_source : forall k, k ∈ (connectionsBySourceNode (wn_workflow w)).*1 -> k ∈ (wf_nodes (wn_workflow w)).*1;
  wo_target : forall s t o c, (s, t, o, c) ∈ outgoing (connectionsBySourceNode (wn_workflow w)) ->
    Workflow.ic_node c ∈ (wf_nodes (wn_workflow w)).*1 /\ Workflow.ic_type c = t;
  wo_inverse : connectionsByDestinationNode (wn_workflow w) = mapConnectionsByDestination (connectionsBySourceNode (wn_workflow w));
}.

Definition workflow_nodes (w : WorkflowNodes) : list INode := omap (fun p => wn_node w p.2) (wf_nodes (wn_workflow w)).

Definition drawn_connection (w : WorkflowNodes) (x : string * string * nat * Workflow.IConnection) : option GraphConnection :=
  let '(s, t, o, c) := x in
  f ← getNode w s; n ← getNode w (Workflow.ic_node c);
  Some {| from := f; to := n; ctype := t; outputIndex := o; inputIndex := Z.of_nat (Workflow.ic_index c) |}.

Definition graph_connections (w : WorkflowNodes) : list GraphConnection :=
  omap (drawn_connection w) (outgoing (connectionsBySourceNode (wn_workflow w))).

(** Every node and every connection of the workflow. *)
Definition drawn (w : WorkflowNodes) : DirectedGraph :=
  {| nodes := (fun n => (name n, n)) <$> workflow_nodes w; connections := (fun c => (makeKey c, c)) <$> graph_connections w |}.

Lemma getNode_key w k : WorkflowOk w -> k ∈ (wf_nodes (wn_workflow w)).*1 -> exists n, getNode w k = Some n /\ name n = k /\ n ∈ workflow_nodes w.
Proof.
  intros Hw (p & -> & Hp)%list_elem_of_fmap. destruct (wo_named w Hw p Hp) as (n & Hn & Hk). exists n. unfold getNode.
  rewrite (elem_of_map_get _ p.2); [|apply (wo_keys w Hw)|by destruct p]. simpl. split_and!; [done|done|].
  apply list_elem_of_omap. by exists p.
Qed.

Lemma getNode_name w k n : WorkflowOk w -> getNode w k = Some n -> name n = k /\ n ∈ workflow_nodes w.
Proof.
  intros Hw. unfold getNode. destruct (map_get k _) as [i|] eqn:Hi; [|done]. simpl. intros Hn.
  apply map_get_Some_elem_of in Hi. destruct (wo_named w Hw (k, i) Hi) as (n' & Hn' & Hk). simpl in *. rewrite Hn in Hn'.
  injection Hn' as <-. split; [done|]. apply list_elem_of_omap. by exists (k, i).
Qed.

Lemma workflow_node_get w n : WorkflowOk w -> n ∈ workflow_nodes w -> getNode w (name n) = Some n.
Proof.
  intros Hw (p & Hp & Hn)%list_elem_of_omap. destruct (wo_named w Hw p Hp) as (n' & Hn' & Hk). rewrite Hn in Hn'. injection Hn' as <-.
  unfold getNode. rewrite Hk, (elem_of_map_get _ p.2); [done|apply (wo_keys w Hw)|by destruct p].
Qed.

Lemma drawn_node_values w : node_values (drawn w) = workflow_nodes w.
Proof. unfold node_values, drawn. simpl. rewrite <- list_fmap_compose. apply list_fmap_id. Qed.

Lemma drawn_connection_values w : connection_values (drawn w) = graph_connections w.
Proof. unfold connection_values, drawn. simpl. rewrite <- list_fmap_compose. apply list_fmap_id. Qed.

Lemma workflow_names w : WorkflowOk w -> name <$> workflow_nodes w = (wf_nodes (wn_workflow w)).*1.
Proof.
  intros Hw. unfold workflow_nodes. pose proof (wo_named w Hw) as Hn. revert Hn. generalize (wf_nodes (wn_workflow w)) as l.
  induction l as [|p l IH]; intros Hn; [done|]. destruct (Hn p ltac:(by left)) as (n & Hp & Hk). simpl. rewrite Hp. simpl. rewrite Hk.
  f_equal. apply IH. intros q Hq. apply Hn. by right.
Qed.

(** What each level of the loop adds. *)
Definition draw (w : WorkflowNodes) (g : DirectedGraph) x : DirectedGraph :=
  match drawn_connection w x with Some c => set_connection g c | None => g end.

Lemma draw_all w g l : foldl (draw w) g l = foldl set_connection g (omap (drawn_connection w) l).
Proof. revert g. induction l as [|x l IH]; intros g; [done|]. simpl. rewrite IH. unfold draw. by destruct (drawn_connection w x). Qed.

Lemma found_key w k : WorkflowOk w -> k ∈ (wf_nodes (wn_workflow w)).*1 ->
  exists n, found w k = Ok n /\ getNode w k = Some n /\ n ∈ workflow_nodes w.
Proof. intros Hw Hk. destruct (getNode_key w k Hw Hk) as (n & Hn & _ & Hin). exists n. unfold found. by rewrite Hn. Qed.

Lemma in_graph_nodes (g h : DirectedGraph) n : nodes g = nodes h -> in_graph g n = in_graph h n.
Proof. intros Hn. unfold in_graph. by rewrite Hn. Qed.

Lemma drawn_nodes w : WorkflowOk w -> addNodes empty_graph (workflow_nodes w) = {| nodes := nodes (drawn w); connections := [] |}.
Proof.
  intros Hw. assert (workflow_nodes w = (nodes (drawn w)).*2) as Hn by (symmetry; apply drawn_node_values).
  rewrite Hn at 1. rewrite addNodes_fresh; simpl; [done| |].
  - rewrite <- list_fmap_compose. change (fst ∘ (fun n => (name n, n))) with name. rewrite workflow_names by done. apply (wo_keys w Hw).
  - by intros p (n & -> & _)%list_elem_of_fmap.
Qed.

Lemma in_drawn w g n : WorkflowOk w -> nodes g = nodes (drawn w) -> n ∈ workflow_nodes w -> in_graph g n = true.
Proof.
  intros Hw Hg Hn. unfold in_graph. rewrite Hg. apply bool_decide_eq_true, elem_of_map_get.
  - simpl. rewrite <- list_fmap_compose. change (fst ∘ (fun n => (name n, n))) with name. rewrite workflow_names by done. apply (wo_keys w Hw).
  - simpl. apply list_elem_of_fmap. by exists n.
Qed.

Lemma outgoing_intro (cs : Workflow.IConnections) p q i byIndex conns c :
  p ∈ cs -> q ∈ p.2 -> (i, conns) ∈ imap pair q.2 -> byIndex = q.2 -> c ∈ default [] conns -> (p.1, q.1, i, c) ∈ outgoing cs.
Proof.
  intros Hp Hq Hi _ Hc. unfold outgoing. apply list_elem_of_bind. exists p. split; [|done]. destruct p as [s byType].
  apply list_elem_of_bind. exists q. split; [|done]. destruct q as [t byI]. apply list_elem_of_bind. exists (i, conns). split; [|done].
  apply list_elem_of_bind. exists c. split; [by left|done].
Qed.

(** No assertion fails, and the graph is drawn connection by connection. *)
Lemma fromWorkflow_draws w :
  WorkflowOk w -> fromWorkflow w = Ok (foldl set_connection (addNodes empty_graph (workflow_nodes w)) (graph_connections w)).
Proof.
  intros Hw. unfold fromWorkflow. fold (workflow_nodes w). set (cs := connectionsBySourceNode (wn_workflow w)).
  set (P := fun g : DirectedGraph => nodes g = nodes (drawn w)).
  set (h3 := fun (s t : string) (g : DirectedGraph) '(o, conns) => foldl (fun g c => draw w g (s, t, o, c)) g (default [] conns)).
  set (h2 := fun (s : string) (g : DirectedGraph) '(t, outputs) => foldl (h3 s t) g (imap pair outputs)).
  set (h1 := fun (g : DirectedGraph) '(s, byType) => foldl (h2 s) g byType).
  destruct (foldE_exact (fun g '(fromNodeName, iConnection) => found w fromNodeName ≫= fun f =>
    foldE (fun g '(outputType, outputs) => foldE (fun g '(o, conns) => foldE (fun g conn =>
          found w (Workflow.ic_node conn) ≫= fun t =>
          addConnection g {| from := f; to := t; ctype := outputType; outputIndex := o; inputIndex := Z.of_nat (Workflow.ic_index conn) |})
          g (default [] conns)) g (imap pair outputs)) g iConnection) h1 P cs (addNodes empty_graph (workflow_nodes w))) as [-> _].
  - intros g [s byType] Hs Hg. destruct (found_key w s Hw) as (f & -> & Hf & Hfn).
    { apply (wo_source w Hw). apply list_elem_of_fmap. by exists (s, byType). }
    apply foldE_exact; [|done]. intros g2 [t outputs] Ht Hg2. apply foldE_exact; [|done]. intros g3 [o conns] Ho Hg3.
    apply foldE_exact; [|done]. intros g4 c Hc Hg4.
    pose proof (outgoing_intro cs (s, byType) (t, outputs) o _ conns c Hs Ht Ho eq_refl Hc) as Hout. simpl in Hout.
    destruct (wo_target w Hw _ _ _ _ Hout) as [Hkey _]. destruct (found_key w _ Hw Hkey) as (n & -> & Hn & Hnn). simpl.
    unfold addConnection. simpl. rewrite !(in_drawn w g4) by done. simpl. unfold draw. simpl. rewrite Hf. simpl. by rewrite Hn.
  - unfold P. by rewrite drawn_nodes.
  - f_equal. unfold graph_connections. fold cs. rewrite <- draw_all. unfold outgoing.
    rewrite <- (foldl_bind (draw w)). apply foldl_ext'. intros g [s byType]. unfold h1.
    rewrite <- (foldl_bind (draw w)). apply foldl_ext'. intros g2 [t outputs]. unfold h2.
    rewrite <- (foldl_bind (draw w)). apply foldl_ext'. intros g3 [o conns]. unfold h3.
    rewrite <- (foldl_bind (draw w)). apply foldl_ext'. done.
Qed.

Lemma drawn_ends w c : WorkflowOk w -> c ∈ graph_connections w -> from c ∈ workflow_nodes w /\ to c ∈ workflow_nodes w.
Proof.
  intros Hw ([[[s t] o] x] & _ & Hx)%list_elem_of_omap. simpl in Hx. destruct (getNode w s) as [f|] eqn:Hf; [|done]. simpl in Hx.
  destruct (getNode w (Workflow.ic_node x)) as [n|] eqn:Hn; [|done]. injection Hx as <-. simpl.
  split; by eapply getNode_name.
Qed.

(** What [fromWorkflow] makes has the nodes and the connections of the workflow. *)
Lemma fromWorkflow_ok w :
  WorkflowOk w -> Unambiguous (drawn w) ->
  exists g, fromWorkflow w = Ok g /\ GraphOk g /\ node_values g = workflow_nodes w /\
    forall c, c ∈ connection_values g <-> c ∈ connection_values (drawn w).
Proof.
  intros Hw Hun. rewrite fromWorkflow_draws by done. eexists. split; [done|]. rewrite drawn_nodes by done.
  destruct (set_connections_elem (graph_connections w) (drawn w) {| nodes := nodes (drawn w); connections := [] |} Hun) as (H1 & H2 & H3 & H4).
  - constructor.
  - by intros p ?%elem_of_nil.
  - by intros c ?%elem_of_nil.
  - intros c Hc. constructor. by rewrite drawn_connection_values.
  - set (g := foldl _ _ _) in *. assert (node_values g = workflow_nodes w) as Hnv.
    { unfold node_values. rewrite H1. apply drawn_node_values. }
    assert (forall c, c ∈ connection_values g <-> c ∈ graph_connections w) as Hcv.
    { intros c. rewrite H4. simpl. rewrite elem_of_nil. tauto. }
    split_and!; [|done|intros c; by rewrite Hcv, drawn_connection_values].
    split; try done.
    + rewrite H1. simpl. rewrite <- list_fmap_compose. change (fst ∘ (fun n => (name n, n))) with name.
      rewrite workflow_names by done. apply (wo_keys w Hw).
    + rewrite H1. by intros p (n & -> & _)%list_elem_of_fmap.
    + intros c Hc%Hcv. rewrite Hnv. by apply (drawn_ends w c Hw).
    + intros c Hc%Hcv. rewrite Hnv. by apply (drawn_ends w c Hw).
Qed.

(** ** Graphs with the same connections *)

Section same.
Context (g h : DirectedGraph) (Hcv : forall c, c ∈ connection_values g <-> c ∈ connection_values h).

Lemma through_same P c : through h P c -> through g P c.
Proof. induction 1 as [c Hc|c rest Hc Hm HP Hr IH Hmr Hf]; [constructor; by apply Hcv|apply through_step; try done; by apply Hcv]. Qed.

Lemma main_edge_same x y : main_edge h x y -> main_edge g x y.
Proof. intros (c & Hc & ?). exists c. split; [by apply Hcv|done]. Qed.
End same.

(** ** The nodes above the destination *)

Section above.
Context (w : WorkflowNodes) (Hw : WorkflowOk w).

Lemma hop_main m s y :
  getNode w m = Some y ->
  hop (connectionsByDestinationNode (wn_workflow w)) (OfType Workflow.Main) m s <->
  exists x, getNode w s = Some x /\ main_edge (drawn w) x y.
Proof.
  intros Hy. rewrite (wo_inverse w Hw), hop_by_destination. split.
  - intros (t & o & c & Hout & Hn & Ht). destruct (wo_target w Hw _ _ _ _ Hout) as [_ Htt].
    assert (s ∈ (wf_nodes (wn_workflow w)).*1) as Hs.
    { apply (wo_source w Hw). unfold outgoing in Hout. apply list_elem_of_bind in Hout as ([s' byType] & Hout & Hp).
      apply list_elem_of_bind in Hout as ([t' outputs] & Hout & _). apply list_elem_of_bind in Hout as ([o' conns] & Hout & _).
      apply list_elem_of_bind in Hout as (c' & Hout & _). apply list_elem_of_singleton in Hout. injection Hout as <- _ _ _.
      apply list_elem_of_fmap. by exists (s, byType). }
    destruct (getNode_key w s Hw Hs) as (x & Hx & _). exists x. split; [done|].
    exists {| from := x; to := y; ctype := t; outputIndex := o; inputIndex := Z.of_nat (Workflow.ic_index c) |}.
    split_and!; try done; [|simpl; by rewrite <- Htt, Ht]. rewrite drawn_connection_values. apply list_elem_of_omap.
    exists (s, t, o, c). split; [done|]. simpl. rewrite Hx. simpl. by rewrite Hn, Hy.
  - intros (x & Hx & c & Hc & Hm & Hf & Ht). rewrite drawn_connection_values in Hc. apply list_elem_of_omap in Hc as ([[[s' t] o] c'] & Hout & Hc).
    simpl in Hc. destruct (getNode w s') as [f|] eqn:Hs'; [|done]. simpl in Hc.
    destruct (getNode w (Workflow.ic_node c')) as [n|] eqn:Hn; [|done]. injection Hc as <-. simpl in *. subst.
    destruct (wo_target w Hw _ _ _ _ Hout) as [_ Htt]. exists Main, o, c'.
    destruct (getNode_name w _ _ Hw Hs') as [<- _], (getNode_name w _ _ Hw Hx) as [<- _],
      (getNode_name w _ _ Hw Hn) as [<- _], (getNode_name w _ _ Hw Hy) as [<- _]. done.
Qed.

Lemma hops_main m s y :
  getNode w m = Some y ->
  tc (hop (connectionsByDestinationNode (wn_workflow w)) (OfType Workflow.Main)) m s <->
  exists x, getNode w s = Some x /\ tc (main_edge (drawn w)) x y.
Proof.
  intros Hy. split.
  - intros Ht. revert y Hy. induction Ht as [m s Hh|m k s Hh Ht IH]; intros y Hy.
    + destruct (proj1 (hop_main m s y Hy) Hh) as (x & Hx & He). exists x. split; [done|by apply tc_once].
    + destruct (proj1 (hop_main m k y Hy) Hh) as (z & Hz & He). destruct (IH z Hz) as (x & Hx & Hxz). exists x. split; [done|by eapply tc_r].
  - intros (x & Hx & Ht). revert s Hx Hy. induction Ht as [x y He|x z y He Ht IH]; intros s Hx Hy.
    + apply tc_once, (hop_main m s y Hy). by exists x.
    + assert (exists k, getNode w k = Some z) as [k Hk].
      { destruct He as (c & Hc & _ & _ & Htc). rewrite drawn_connection_values in Hc. apply (drawn_ends w c Hw) in Hc as [_ Hc].
        rewrite Htc in Hc. exists (name z). by apply workflow_node_get. }
      eapply tc_r; [exact (IH k Hk Hy)|]. apply (hop_main k s z Hk). by exists x.
Qed.

(** [getParentNodes]: the names of the nodes with a [main] path to the destination. *)
Lemma parents_lead d y k :
  getNode w d = Some y ->
  k ∈ getParentNodes (wn_workflow w) d <-> exists x, getNode w k = Some x /\ tc (main_edge (drawn w)) x y /\ x <> y.
Proof.
  intros Hy. unfold getParentNodes. destruct (getConnectedNodes_reachable (connectionsByDestinationNode (wn_workflow w)) (OfType Workflow.Main) d) as [_ ->].
  rewrite (hops_main d k y Hy). split.
  - intros ((x & Hx & Ht) & Hne). exists x. split_and!; try done. intros ->.
    apply Hne. destruct (getNode_name w _ _ Hw Hx) as [<- _], (getNode_name w _ _ Hw Hy) as [<- _]. done.
  - intros (x & Hx & Ht & Hne). split; [by exists x|]. intros ->. congruence.
Qed.

Definition parents (d : string) : list INode := omap (getNode w) (getParentNodes (wn_workflow w) d).

Lemma elem_of_parents d y x : getNode w d = Some y -> x ∈ parents d <-> tc (main_edge (drawn w)) x y /\ x <> y.
Proof.
  intros Hy. unfold parents. rewrite list_elem_of_omap. split.
  - intros (k & Hk & Hx). destruct (proj1 (parents_lead d y k Hy) Hk) as (x' & Hx' & ?). rewrite Hx in Hx'. by injection Hx' as <-.
  - intros [Ht Hne]. assert (x ∈ workflow_nodes w) as Hx.
    { apply tc_rtc in Ht as Ht'. destruct Ht' as [|x z y (c & Hc & _ & <- & _) _]; [done|].
      rewrite drawn_connection_values in Hc. by apply (drawn_ends w c Hw). }
    exists (name x). pose proof (workflow_node_get w x Hw Hx) as Hk. split; [|done]. apply (parents_lead d y _ Hy). by exists x.
Qed.

Lemma parents_found d y :
  getNode w d = Some y ->
  foldE (fun parentNodes name => found w name ≫= fun node => Ok (parentNodes ++ [node])) [] (getParentNodes (wn_workflow w) d) = Ok (parents d).
Proof.
  intros Hy. unfold parents. assert (forall k, k ∈ getParentNodes (wn_workflow w) d -> is_Some (getNode w k)) as Hk.
  { intros k Hk. destruct (proj1 (parents_lead d y k Hy) Hk) as (x & Hx & _). by exists x. }
  revert Hk. generalize (getParentNodes (wn_workflow w) d) as l. intros l Hk.
  cut (forall acc, foldE (fun parentNodes name => found w name ≫= fun node => Ok (parentNodes ++ [node])) acc l = Ok (acc ++ omap (getNode w) l)).
  { intros H. by rewrite H. }
  induction l as [|k l IH]; intros acc; simpl; [by rewrite app_nil_r|]. unfold found at 1.
  destruct (Hk k ltac:(by left)) as [x ->]. simpl. rewrite IH by (intros; apply Hk; by right). by rewrite <- app_assoc.
Qed.
End above.

(** ** The trigger *)

Lemma webhooks_first_perm l : webhooks_first l ≡ₚ l.
Proof.
  unfold webhooks_first. cut (forall acc, foldl (fun sorted node => if is_webhook node then node :: sorted else sorted ++ [node]) acc l ≡ₚ acc ++ l).
  { intros H. apply H. }
  induction l as [|x l IH]; intros acc; simpl; [by rewrite app_nil_r|]. rewrite IH. destruct (is_webhook x); simpl.
  - by rewrite Permutation_middle.
  - by rewrite <- app_assoc.
Qed.

Lemma prefer_trigger_spec {Item} (pins : IPinData Item) (rd : IRunData Item) l :
  match prefer_trigger pins rd l with Some t => t ∈ l | None => l = [] end.
Proof.
  unfold prefer_trigger. destruct (arr_find (has_entry rd) l) as [t|] eqn:Hf; [by apply arr_find_Some in Hf as [? _]|].
  pose proof (webhooks_first_perm (arr_filter (has_entry pins) l)) as Hp. destruct (webhooks_first _) as [|t rest].
  - destruct (arr_filter is_webhook l) as [|t rest] eqn:Hw; [by destruct l; [|left]|].
    assert (t ∈ arr_filter is_webhook l) as Ht by (rewrite Hw; left). by apply elem_of_arr_filter in Ht as [_ ?].
  - assert (t ∈ arr_filter (has_entry pins) l) as Ht by (rewrite <- Hp; left). by apply elem_of_arr_filter in Ht as [_ ?].
Qed.

Section start.
Context {Item : Type} (isTrigger : INode -> bool) (workflowPinData : IPinData Item) (runData : IRunData Item).
Context (w : WorkflowNodes) (Hw : WorkflowOk w).

(** Where a partial execution may start: an enabled node that leads to the destination and is
    a trigger, or has run data and is not the destination itself. *)
Definition can_be_start (destination n : INode) : Prop :=
  disabled n = false /\ rtc (main_edge (drawn w)) n destination /\
  (isTrigger n = true \/ n <> destination /\ has_entry runData n = true).

Lemma rtc_above x y : rtc (main_edge (drawn w)) x y -> x = y \/ tc (main_edge (drawn w)) x y.
Proof. intros H. inversion H; subst; [by left|right]. eapply tc_rtc_r; [by apply tc_once|done]. Qed.

Lemma findTrigger_spec d y :
  getNode w d = Some y ->
  exists o, findTriggerForPartialExecution isTrigger workflowPinData w d runData = Ok o /\
    match o with
    | Some t => isTrigger t = true /\ disabled t = false /\ rtc (main_edge (drawn w)) t y
    | None => forall t, isTrigger t = true -> disabled t = false -> ~ rtc (main_edge (drawn w)) t y
    end.
Proof.
  intros Hy. unfold findTriggerForPartialExecution. rewrite Hy. unfold isTriggerNode.
  destruct (isTrigger y && negb (disabled y)) eqn:Hd.
  { apply andb_true_iff in Hd as [? ?%negb_true_iff]. eexists. split; [done|]. by split_and!. }
  assert (findAllParentTriggers isTrigger w d = Ok (arr_filter isTrigger (parents w d))) as ->.
  { unfold findAllParentTriggers. by rewrite (parents_found w Hw d y Hy). }
  eexists. split; [reflexivity|].
  set (l := arr_filter (fun trigger => negb (disabled trigger)) (arr_filter isTrigger (parents w d))).
  assert (forall t, t ∈ l <-> disabled t = false /\ isTrigger t = true /\ tc (main_edge (drawn w)) t y /\ t <> y) as Hl.
  { intros t. unfold l. rewrite !elem_of_arr_filter, negb_true_iff, (elem_of_parents w Hw d y t Hy). tauto. }
  pose proof (prefer_trigger_spec workflowPinData runData l) as Hp.
  destruct (prefer_trigger _ _ l) as [t|].
  - apply Hl in Hp as (? & ? & ? & _). split_and!; try done. by apply tc_rtc.
  - intros t Ht Hdt [->|Hr]%rtc_above; [by rewrite Ht, Hdt in Hd|]. destruct (decide (t = y)) as [->|Hne]; [by rewrite Ht, Hdt in Hd|].
    assert (t ∈ l) as Hin by (by apply Hl). rewrite Hp in Hin. by apply elem_of_nil in Hin.
Qed.

Lemma can_start_parent d y k :
  getNode w d = Some y -> k ∈ getParentNodes (wn_workflow w) d ->
  can_start w runData k = true <-> exists n, getNode w k = Some n /\ can_be_start y n /\ n <> y /\ has_entry runData n = true.
Proof.
  intros Hy Hk. destruct (proj1 (parents_lead w Hw d y k Hy) Hk) as (n & Hn & Ht & Hne).
  destruct (getNode_name w k n Hw Hn) as [Hname _]. unfold can_start. rewrite Hn.
  unfold can_be_start, has_entry. rewrite andb_true_iff, negb_true_iff. split.
  - intros [Hd Hr]. exists n. rewrite Hname. split_and!; try done; [by apply tc_rtc|right; done].
  - intros (n' & [= <-] & (Hd & _) & _ & Hr). by rewrite Hname in Hr.
Qed.

(** Step 1 finds where to start when there is such a node, a trigger if there is one; and
    otherwise asks for a trigger. *)
Lemma findStart_spec d y :
  getNode w d = Some y ->
  (exists t, findStart isTrigger workflowPinData w d runData = Ok t /\ can_be_start y t /\
     ((exists n, can_be_start y n /\ isTrigger n = true) -> isTrigger t = true)) \/
  (findStart isTrigger workflowPinData w d runData = Err (UserError "Connect a trigger and make sure it's enabled to run this node") /\
   forall n, ~ can_be_start y n).
Proof.
  intros Hy. unfold findStart. destruct (findTrigger_spec d y Hy) as ([t|] & -> & Ht); cbn.
  { left. exists t. unfold can_be_start. tauto. }
  assert (forall n, can_be_start y n -> n <> y /\ has_entry runData n = true) as Hno.
  { intros n (Hd & Hr & [Hn|?]); [|done]. destruct (Ht n Hn Hd Hr). }
  destruct (arr_find _ _) as [k|] eqn:Hf; cbn.
  - apply arr_find_Some in Hf as [Hk Hs]. apply (can_start_parent d y k Hy Hk) in Hs as (n & -> & Hn & _).
    left. exists n. split_and!; try done. intros (n' & (Hd & Hr & _) & Htr). destruct (Ht n' Htr Hd Hr).
  - right. split; [done|]. intros n Hn. destruct (Hno n Hn) as [Hne He]. destruct Hn as (Hd & Hr & Hor).
    assert (tc (main_edge (drawn w)) n y) as Htc by (by destruct (rtc_above n y Hr)).
    assert (n ∈ parents w d) as Hin by (by apply (elem_of_parents w Hw d y n Hy)).
    apply list_elem_of_omap in Hin as (k & Hk & Hkn).
    rewrite arr_find_None in Hf. specialize (Hf k Hk). cut (can_start w runData k = true); [congruence|].
    apply (can_start_parent d y k Hy Hk). by exists n.
Qed.
End start.

(** ** The whole *)

Section whole.
Context {Item : Type} (emptyItem : Item) (name_le : string -> string -> bool).
Context (isTrigger isTool : INode -> bool) (workflowPinData : IPinData Item).

(** C22. A node of the editor can be run exactly when something leads to it that can start.
    For a workflow in order, whose names do not confuse connections and which has no [main]
    cycle of disabled nodes only, and an enabled node of it that is no tool: if an enabled
    trigger has a [main] path to it, or an enabled node that ran has one, then everything
    [runPartialWorkflow2] does before the execution succeeds, from a trigger if there is one;
    otherwise the user is asked for a trigger.  What is handed on is consistent: start nodes
    are among the nodes to run and have lost their old run data, what run data is kept is
    unchanged and of nodes to run, and every entry of the stack is for a start node, with no
    more inputs than sources. *)
Theorem node_can_be_run (w : WorkflowNodes) (d : INode) (destination : string) (runData : IRunData Item)
    (pinData : IPinData Item) (dirtyNodeNames : list string) :
  WorkflowOk w -> Unambiguous (drawn w) -> no_disabled_loop (drawn w) ->
  getNode w destination = Some d -> disabled d = false -> isTool d = false ->
  let run := runPartialWorkflow2 isTrigger isTool workflowPinData emptyItem name_le w runData pinData dirtyNodeNames destination in
  (exists trigger r, can_be_start isTrigger runData w d trigger /\
     ((exists n, can_be_start isTrigger runData w d n /\ isTrigger n = true) -> isTrigger trigger = true) /\
     findStart isTrigger workflowPinData w destination runData = Ok trigger /\ run = Ok r /\
     (forall n, n ∈ startNodes r -> name n ∈ runNodeFilter r /\ kept_runData r !! name n = None) /\
     (forall n v, kept_runData r !! n = Some v -> n ∈ runNodeFilter r /\ runData !! n = Some v) /\
     (forall e, e ∈ nodeExecutionStack (stack r) -> entry_ok emptyItem (startNodes r) e)) \/
  (run = Err (UserError "Connect a trigger and make sure it's enabled to run this node") /\
   forall n, ~ can_be_start isTrigger runData w d n).
Proof.
  intros Hw Hun Hloop Hd Hde Htool run. subst run. unfold runPartialWorkflow2. rewrite Hd.
  destruct (fromWorkflow_ok w Hw Hun) as (g & -> & Hg & Hnv & Hcv). cbn. unfold rewire_destination. rewrite Htool. cbn.
  destruct (findStart_spec isTrigger workflowPinData runData w Hw destination d Hd) as [(t & Ht & Hc & Hpref)|[-> Hno]]; [left|by right].
  rewrite Ht. cbn. pose proof Hc as (Hte & Hr & _).
  assert (forall x y, rtc (main_edge (drawn w)) x y -> y ∈ workflow_nodes w -> x ∈ workflow_nodes w) as Hin.
  { intros x y [|x' z y' (c & Hcc & _ & <- & _) _]; [done|]. rewrite drawn_connection_values in Hcc.
    intros _. by apply (drawn_ends w c Hw). }
  destruct (getNode_name w _ _ Hw Hd) as [_ Hdn].
  assert (forall P c, through g P c -> through (drawn w) P c) as Hth.
  { intros P c. apply through_same. intros c'. by rewrite Hcv. }
  destruct (partial_execution_is_prepared emptyItem name_le g d t runData pinData dirtyNodeNames) as (r & Hrun & H1 & H2 & H3); try done.
  - intros c1 c2 H1 H2. apply Hun; by apply Hth.
  - intros c Hcg. by apply Hloop, Hth.
  - by rewrite Hnv.
  - rewrite Hnv. by apply (Hin t d).
  - eapply rtc_subrel; [|exact Hr]. intros x y. by apply main_edge_same.
  - exists t, r. split_and!; done.
Qed.
End whole.

(** ** A tool in the place of its agent *)

Lemma in_graph_add g n x : name x <> name n \/ x = n -> in_graph g x = true \/ x = n -> in_graph (addNode g n) x = true.
Proof.
  unfold in_graph, addNode. cbn. rewrite !bool_decide_eq_true. intros Hne Hx. destruct (decide (x = n)) as [->|Hxn].
  - apply map_get_set_eq.
  - rewrite map_get_set_ne; naive_solver.
Qed.

(** A tool that feeds nothing changes nothing.  Otherwise a node it leads to makes room for
    the virtual agent, fed by the tool and by what fed that node on [main]; everything else
    stays, and nothing else is connected. *)
Lemma rewireGraph_ok tool g :
  GraphOk g -> tool ∈ node_values g -> TOOL_EXECUTOR_NODE_NAME ∉ (nodes g).*1 ->
  (rewireGraph tool g = Ok g /\ forall y, ~ edge g tool y) \/
  exists root g', rewireGraph tool g = Ok g' /\ tc (edge g) tool root /\
    (forall n, n ∈ node_values g' <-> (n ∈ node_values g \/ n = toolExecutor) /\ n <> root) /\
    (forall c, c ∈ connection_values g' ->
       to c <> root /\ from c <> root /\
       (c ∈ connection_values g \/ c = plain_connection tool toolExecutor AiTool \/
        exists cn, cn ∈ connection_values g /\ to cn = root /\ ctype cn = Main /\ c = plain_connection (from cn) toolExecutor Main)).
Proof.
  intros Hg Ht Hfresh. unfold rewireGraph. rewrite clone_ok by done. cbn.
  destruct (getChildren_ok g tool Hg Ht) as (children & -> & _ & Hch). cbn.
  destruct (last children) as [root|] eqn:Hlast.
  2: { left. split; [done|]. intros y Hy. apply last_None in Hlast. subst. eapply not_elem_of_nil. apply Hch. by apply tc_once. }
  right. assert (Hroot : tc (edge g) tool root) by (apply Hch; apply last_Some in Hlast as [l ->]; set_solver).
  assert (Hrn : root ∈ node_values g).
  { apply tc_last in Hroot as (m & _ & c & Hc & _ & <-). by apply (go_to g). }
  destruct (direct_parents g root Hg Hrn) as (incoming & -> & Hinc). cbn.
  assert (Hname : forall n, n ∈ node_values g -> name n <> TOOL_EXECUTOR_NODE_NAME).
  { intros n (k & Hn)%snd_elem Heq. apply Hfresh. rewrite <- Heq.
    pose proof (go_names g Hg _ Hn) as Hk. cbn in Hk. rewrite <- Hk. apply list_elem_of_fmap. by exists (k, n). }
  set (m := addNode g toolExecutor).
  assert (Hin : forall n, n ∈ node_values g -> in_graph m n = true).
  { intros n Hn. apply in_graph_add; [left; by apply Hname|left; by apply in_graph_iff]. }
  assert (Hexec : in_graph m toolExecutor = true) by (apply in_graph_add; by right).
  assert (addConnection m (plain_connection tool toolExecutor AiTool) = Ok (set_connection m (plain_connection tool toolExecutor AiTool))) as ->.
  { unfold addConnection. cbn [from to plain_connection]. by rewrite (Hin tool Ht), Hexec. }
  cbn. set (new := map _ _). set (m1 := set_connection m _).
  destruct (foldE_exact addConnection set_connection (fun h => nodes h = nodes m) new m1) as [-> Hnodes]; [|done|].
  { intros h c Hc Hh. apply list_elem_of_In, in_map_iff in Hc as (cn & <- & Hcn%list_elem_of_In). apply elem_of_arr_filter in Hcn as [_ [Hcn _]%Hinc].
    unfold addConnection. cbn [from to plain_connection]. rewrite !(in_graph_nodes h m) by done. rewrite Hexec, Hin by (by apply (go_from g)). done. }
  cbn. exists root. eexists. split; [reflexivity|]. split; [done|]. split.
  - intros n. unfold node_values. cbn. rewrite Hnodes. rewrite !snd_elem. setoid_rewrite elem_of_map_delete. cbn.
    setoid_rewrite elem_of_map_set; [|apply (go_nodes g Hg)]. cbn. split.
    + intros (k & Hk & [[= -> ->]|[Hne Hn]]).
      * split; [by right|]. intros <-. by apply (Hname toolExecutor).
      * split; [left; by exists k|]. intros ->. apply Hk. apply (go_names g Hg _ Hn).
    + intros [[(k & Hn)| ->] Hne].
      * pose proof (go_names g Hg _ Hn) as Hkn. cbn in Hkn. exists k. split.
        -- intros ->. apply Hne. apply (names_determine g); [done|apply snd_elem; eauto|done|done].
        -- right. split; [|done]. rewrite Hkn. apply Hname. apply snd_elem. eauto.
      * exists TOOL_EXECUTOR_NODE_NAME. split; [|by left]. intros Heq. by apply (Hname root).
  - intros c Hc. unfold connection_values in Hc. cbn in Hc. apply delete_connections_elem in Hc as (Hc & Hto & Hfrom). split_and!; try done.
    apply (foldl_set_connection_sound new m1) in Hc as [Hc|Hc].
    + apply (foldl_set_connection_sound [plain_connection tool toolExecutor AiTool] m) in Hc as [Hc|Hc%list_elem_of_singleton]; [by left|by right; left].
    + right; right. apply list_elem_of_In, in_map_iff in Hc as (cn & <- & Hcn%list_elem_of_In).
      apply elem_of_arr_filter in Hcn as [Hm%bool_decide_eq_true [Hcn Htc]%Hinc]. exists cn. by rewrite Hm.
Qed.

(** ** Samples *)

Definition to_input (type node : string) (i : nat) : Workflow.IConnection :=
  {| Workflow.ic_node := node; Workflow.ic_type := type; Workflow.ic_index := i |}.

Definition workflow_of (ns : list INode) (cs : Workflow.IConnections) : WorkflowNodes := {|
  wn_workflow := {| wf_nodes := imap (fun i n => (name n, i)) ns; connectionsBySourceNode := cs;
                    connectionsByDestinationNode := mapConnectionsByDestination cs; executionOrder := None |};
  wn_node := fun i => ns !! i |}.

(** A trigger, a node that is off, and the node to run. *)
Definition bridge_workflow : WorkflowNodes :=
  workflow_of [start_node; off_node; end_node]
    [("Start", [("main", [None; Some [to_input "main" "Off" 0]])]); ("Off", [("main", [Some [to_input "main" "End" 2]])])].

Definition is_trigger_type (n : INode) : bool := bool_decide (type n = "trigger").
Definition no_tool (n : INode) : bool := false.

Lemma bridge_workflow_ok : WorkflowOk bridge_workflow.
Proof.
  split; cbn.
  - refine (bool_decide_unpack _ _). vm_compute. exact I.
  - intros p Hp. repeat (apply elem_of_cons in Hp as [->|Hp]; [by eexists|]). by apply elem_of_nil in Hp.
  - intros k Hk. repeat (apply elem_of_cons in Hk as [->|Hk]; [set_solver|]). by apply elem_of_nil in Hk.
  - intros s t o c Hc. unfold outgoing in Hc. cbn in Hc.
    repeat (apply elem_of_cons in Hc as [[= -> -> -> ->]|Hc]; [split; [set_solver|done]|]). by apply elem_of_nil in Hc.
  - done.
Qed.

Lemma bridge_workflow_drawn : drawn bridge_workflow = bridge_graph.
Proof. vm_compute. reflexivity. Qed.

Lemma node_can_be_run_witness :
  exists trigger r, can_be_start is_trigger_type started_once bridge_workflow end_node trigger /\
    runPartialWorkflow2 is_trigger_type no_tool ∅ 0 (fun _ _ => true) bridge_workflow started_once ∅ [] "End" = Ok r /\
    forall n, n ∈ startNodes r -> name n ∈ runNodeFilter r.
Proof.
  destruct (node_can_be_run 0 (fun _ _ => true) is_trigger_type no_tool ∅ bridge_workflow end_node "End" started_once ∅ []
    bridge_workflow_ok) as [(t & r & Ht & _ & _ & Hr & Hs & _)|[_ Hno]].
  - rewrite bridge_workflow_drawn. exact (proj2 bridge_graph_ok).
  - rewrite bridge_workflow_drawn. exact bridge_graph_no_loop.
  - reflexivity.
  - reflexivity.
  - reflexivity.
  - exists t, r. split; [exact Ht|]. split; [exact Hr|]. intros n Hn. exact (proj1 (Hs n Hn)).
  - destruct (Hno start_node). split; [reflexivity|]. split; [|left; reflexivity].
    apply (rtc_l _ _ off_node); [|apply rtc_once].
    + exists (main_connection start_node off_node 1 0). split; [vm_compute; left|done].
    + exists (main_connection off_node end_node 0 2). split; [vm_compute; right; left|done].
Defined.

(** ** Where the code differs from its intent *)

Definition if_node : INode := {| name := "If"; type := "if"; disabled := false |}.
Definition agent_node : INode := {| name := "Agent"; type := "agent"; disabled := false |}.
Definition tool_node : INode := {| name := "Tool"; type := "tool"; disabled := false |}.

(** The agent is fed by the second output of a node. *)
Definition agent_graph : DirectedGraph :=
  graph_of_lists [if_node; agent_node; tool_node]
    [main_connection if_node agent_node 1 0; plain_connection tool_node agent_node AiTool].

(** The virtual agent in its place is fed by the first. *)
Example rewiring_forgets_the_output :
  (fun g => connection_values g) <$> rewireGraph tool_node agent_graph =
  Ok [plain_connection tool_node toolExecutor AiTool; main_connection if_node toolExecutor 0 0].
Proof. vm_compute. reflexivity. Qed.

(** A trigger that is off does not start anything, though it ran. *)
Example disabled_trigger_is_passed_over :
  findTriggerForPartialExecution is_trigger_type ∅
    (workflow_of [{| name := "Start"; type := "trigger"; disabled := true |}; end_node] [("Start", [("main", [Some [to_input "main" "End" 0]])])])
    "End" started_once = Ok None.
Proof. vm_compute. reflexivity. Qed.

(** Of two pinned webhooks the later of the parents is taken, before other triggers. *)
Example last_pinned_webhook_first (a b c : INode) :
  is_webhook a = false -> is_webhook b = true -> is_webhook c = true -> webhooks_first [a; b; c] = [c; b; a].
Proof. intros Ha Hb Hc. unfold webhooks_first. cbn. by rewrite Ha; cbn; rewrite Hb; cbn; rewrite Hc. Qed.
