(* ===== verification/SchedTypes.v ===== *)
(** * Scheduler: rows, statuses, errors and programs

    [packages/@n8n/constants/src/scheduler.ts], [packages/@n8n/scheduler/src/core/types],
    [errors.ts], and the two tables' rows ([packages/@n8n/db/src/entities]).

    An instant is the number [Date.getTime()] gives, in milliseconds.  A task's [id] is a
    64-bit integer column rendered as decimal text; it is only compared, so it is kept as
    the integer.  A payload is the JSON the column holds. *)

From stdpp Require Import base gmap strings list fin_maps.
From Stdlib Require Import ZArith Lia.
From S2P Require Import Prelude.
From S2P Require Import JsCollections.
From S2P Require Import EngineTypes.

Notation Payload := EngineTypes.JsonValue.

(** ** Vocabulary *)

Inductive ScheduledJobKind := Cron | Interval | OneOff | RecurringCron.

Inductive RecurringCronUnit := Hours | Days | Weeks | Months.

Inductive ScheduledJobMisfirePolicy := Coalesce | CoalesceOwner | Skip.

Inductive ScheduledTaskStatus := Pending | Running | Succeeded | Failed | Missed | Cancelled.

#[export] Instance ScheduledJobKind_eq_dec : EqDecision ScheduledJobKind.
Proof. solve_decision. Defined.
#[export] Instance RecurringCronUnit_eq_dec : EqDecision RecurringCronUnit.
Proof. solve_decision. Defined.
#[export] Instance ScheduledJobMisfirePolicy_eq_dec : EqDecision ScheduledJobMisfirePolicy.
Proof. solve_decision. Defined.
#[export] Instance ScheduledTaskStatus_eq_dec : EqDecision ScheduledTaskStatus.
Proof. solve_decision. Defined.

(** Statuses of finished work. *)
Definition TerminalTaskStatusList : list ScheduledTaskStatus := [Succeeded; Failed; Missed; Cancelled].

Definition is_terminal (s : ScheduledTaskStatus) : bool := bool_decide (s ∈ TerminalTaskStatusList).

Definition task_status_name (s : ScheduledTaskStatus) : string :=
  match s with
  | Pending => "pending" | Running => "running" | Succeeded => "succeeded"
  | Failed => "failed" | Missed => "missed" | Cancelled => "cancelled"
  end.

(** [Time] of [@n8n/constants]. *)
Definition seconds_toMilliseconds : Z := 1000.
Definition minutes_toMilliseconds : Z := 60 * 1000.
Definition minutes_toSeconds : Z := 60.
Definition hours_toSeconds : Z := 60 * 60.
Definition days_toSeconds : Z := 24 * 60 * 60.

(** ** Errors

    The package's own classes, n8n's [UnexpectedError], a statement the database rejects,
    an error of the JavaScript runtime, and the reason of an aborted pass. *)
Inductive SchedError :=
  | InvalidScheduleError (message : string)
  | InvalidRetentionOptionsError (message : string)
  | InvalidReconciliationOptionsError (message key : string) (value : Z)
  | InvalidLifecycleOptionsError (message : string)
  | DuplicateTaskHandlerError (taskType : string)
  | CorruptStorageRowError (message : string)
  | InvalidOwnerTypeError (ownerType : string) (maxLength : Z)
  | DuplicateOwnerResolverError (ownerType : string)
  | UnregisteredOwnerTypeError (ownerType : string)
  | InvalidOwnerIdError (length maxLength : Z)
  | InvalidOwnerMemberIdError (length maxLength : Z)
  | UnexpectedError (message : string)
  | HostError (message : string)
  | AbortError.

Notation sresult := (Prelude.result SchedError).

(** [ensureError(error).message]. *)
Definition error_message (e : SchedError) : string :=
  match e with
  | InvalidScheduleError m | InvalidRetentionOptionsError m | InvalidLifecycleOptionsError m
  | CorruptStorageRowError m | UnexpectedError m | HostError m => m
  | InvalidReconciliationOptionsError m _ _ => m
  | DuplicateTaskHandlerError t => "A handler for task type '" +:+ t +:+ "' is already registered"
  | InvalidOwnerTypeError _ _ => "Scheduled job owner type must be non-empty and fit its length limit"
  | DuplicateOwnerResolverError _ => "A resolver for this scheduled job owner type is already registered"
  | UnregisteredOwnerTypeError _ =>
      "Cannot provision scheduled jobs for an owner type with no registered liveness resolver"
  | InvalidOwnerIdError _ _ => "Scheduled job owner id must be non-empty and fit its length limit"
  | InvalidOwnerMemberIdError _ _ => "Scheduled job owner member id must be non-empty and fit its length limit"
  | AbortError => "This operation was aborted"
  end.

(** ** Rows *)

(** A row of [scheduled_task]: one queued run of a job. *)
Record ScheduledTask := {
  t_id : Z;
  t_jobId : Z;
  t_taskType : string;
  t_payload : Payload;
  t_scheduledFor : Z;
  t_runAt : Z;
  t_status : ScheduledTaskStatus;
  t_attempts : Z;
  t_maxAttempts : Z;
  t_claimedBy : option string;
  t_leaseExpiresAt : option Z;
  t_leaseEpoch : Z;
  t_startedAt : option Z;
  t_dispatchedAt : option Z;
  t_finishedAt : option Z;
  t_errorMessage : option string;
  t_missedAfter : option Z;
}.

(** A row of [scheduled_job]: the rule for when something should run. *)
Record ScheduledJob := {
  j_id : Z;
  j_name : string;
  j_ownerType : string;
  j_ownerId : string;
  j_ownerMemberId : option string;
  j_taskType : string;
  j_payload : Payload;
  j_kind : ScheduledJobKind;
  j_cronExpression : option string;
  j_timezone : option string;
  j_intervalSeconds : option Z;
  j_fireAt : option Z;
  j_recurrenceUnit : option RecurringCronUnit;
  j_recurrenceSize : option Z;
  j_enabled : bool;
  j_nextRunAt : option Z;
  j_lastFiredAt : option Z;
  j_maxAttempts : Z;
  j_misfirePolicy : ScheduledJobMisfirePolicy;
  j_misfireGraceSeconds : Z;
  j_orphanedAt : option Z;
  j_createdAt : Z;
}.

(** [executor/store.ts], [ClaimedTaskRef]: a claimed row, its owner and the epoch it was
    claimed under. *)
Record ClaimedTaskRef := {
  c_host : string;
  c_id : Z;
  c_claimedEpoch : Z;
}.

(** [reaper/reap.ts], [ExpiredLeaseRef]. *)
Record ExpiredLeaseRef := {
  e_id : Z;
  e_claimedEpoch : Z;
}.

(** [executor/store.ts], [ClaimDueTasksBatch]. *)
Record ClaimDueTasksBatch := {
  b_host : string;
  b_taskTypes : list string;
  b_lookaheadMs : Z;
  b_leaseMs : Z;
  b_batchSize : Z;
}.

Lemma is_terminal_spec (s : ScheduledTaskStatus) : is_terminal s = true <-> s <> Pending /\ s <> Running.
Proof. destruct s; vm_compute; naive_solver. Qed.

(** ** Programs over calls

    An [async] function computes between its [await]s and reaches everything it shares
    with others through calls.  [prog] is that shape, over any signature of calls: a
    result, a [throw], or a call with its continuation.  (The engine has its own copy of
    this shape, over its own calls, in [EngineProgram].) *)

(** A signature: the calls, and what each answers. *)
Inductive prog {O : Type} (R : O -> Type) (E A : Type) : Type :=
  | Ret (a : A)
  | Throw (e : E)
  | Call (o : O) (k : Prelude.result E (R o) -> prog R E A).
Arguments Ret {_ _ _ _} _.
Arguments Throw {_ _ _ _} _.
Arguments Call {_ _ _ _} _ _.

Section programs.
Context {O : Type} {R : O -> Type} {E : Type}.
Notation P := (prog R E).

Fixpoint prog_bind {A B} (p : P A) (f : A -> P B) : P B :=
  match p with
  | Ret a => f a
  | Throw e => Throw e
  | Call o k => Call o (fun r => prog_bind (k r) f)
  end.

#[export] Instance prog_mret : MRet P := fun _ => Ret.
#[export] Instance prog_mbind : MBind P := fun _ _ f p => prog_bind p f.

Definition lift {A} (r : Prelude.result E A) : P A :=
  match r with Ok a => Ret a | Err e => Throw e end.

(** [await f(...)]: a rejected call throws. *)
Definition call (o : O) : P (R o) := Call o lift.

(** [try { ... } catch (error) { ... }], as the outcome of the block. *)
Fixpoint attempt {A} (p : P A) : P (Prelude.result E A) :=
  match p with
  | Ret a => Ret (Ok a)
  | Throw e => Ret (Err e)
  | Call o k => Call o (fun r => attempt (k r))
  end.

(** A [for ... of] loop over calls, with the loop's state. *)
Fixpoint prog_fold {S A} (f : S -> A -> P S) (s : S) (l : list A) : P S :=
  match l with
  | [] => Ret s
  | x :: l => prog_bind (f s x) (fun s => prog_fold f s l)
  end.

(** Calls started together and awaited together ([Promise.all] or [Promise.allSettled] of
    one-call functions that catch their own rejections): they take effect in any order.
    [pick n] is the call that tells which of [n] comes next. *)
Fixpoint in_any_order {A} (pick : nat -> P nat) (fuel : nat) (f : A -> P unit) (l : list A) : P unit :=
  match fuel, l with
  | 0, _ | _, [] => Ret tt
  | S fuel, l =>
      prog_bind (pick (length l)) (fun i =>
        match l !! (i mod length l)%nat with
        | Some x => prog_bind (f x) (fun _ => in_any_order pick fuel f (delete (i mod length l)%nat l))
        | None => Ret tt
        end)
  end.

(** What a program does when every call is answered by a function of a state. *)
Fixpoint interpret {S A} (handle : forall o, S -> Prelude.result E (R o) * S) (p : P A) (s : S) : Prelude.result E A * S :=
  match p with
  | Ret a => (Ok a, s)
  | Throw e => (Err e, s)
  | Call o k => let '(r, s') := handle o s in interpret handle (k r) s'
  end.

Section interpret.
Context {S : Type} (handle : forall o, S -> Prelude.result E (R o) * S).

Lemma interpret_bind {A B} (p : P A) (f : A -> P B) (s : S) :
  interpret handle (p ≫= f) s =
  match interpret handle p s with
  | (Ok a, s') => interpret handle (f a) s'
  | (Err e, s') => (Err e, s')
  end.
Proof.
  change (p ≫= f) with (prog_bind p f). revert s.
  induction p as [a|e|o k IH]; intros s; simpl; [done|done|].
  destruct (handle o s) as [r s']. apply IH.
Qed.

Lemma interpret_call (o : O) (s : S) : interpret handle (call o) s = handle o s.
Proof. simpl. by destruct (handle o s) as [[a|e] s']. Qed.

Lemma interpret_attempt {A} (p : P A) (s : S) :
  interpret handle (attempt p) s = (Ok (interpret handle p s).1, (interpret handle p s).2).
Proof.
  revert s. induction p as [a|e|o k IH]; intros s; simpl; [done|done|].
  destruct (handle o s) as [r s']. apply IH.
Qed.
End interpret.
End programs.

#[global] Arguments prog_bind : simpl never.
#[global] Arguments call : simpl never.
#[global] Arguments attempt : simpl never.

(** Runs an interpreted program to its next call. *)
Create HintDb interp.
#[export] Hint Rewrite @interpret_bind @interpret_call @interpret_attempt : interp.
