(* ===== verification/SchedStore.v ===== *)
(** * Scheduler: the task table and its repository

    [packages/@n8n/db/src/repositories/scheduled-task.repository.ts] over the table of
    [entities/scheduled-task.ts].  A statement is a function of the table and of the
    database's clock [now]; an [UPDATE] answers how many rows it affected.

    The columns a statement sets are a list of [assign], the criteria a boolean on the row.
    Rows another transaction holds ([FOR UPDATE SKIP LOCKED]) are the argument [locked],
    empty on SQLite, which runs writers one at a time.  Where [ORDER BY] leaves a tie,
    [select_rows] takes the lower id first; [claim_pick] states what any database may
    select. *)

From stdpp Require Import base gmap strings pretty list sorting fin_maps.
From Stdlib Require Import ZArith Lia.
From S2P Require Import Prelude.
From S2P Require Import SchedTypes.

#[local] Open Scope Z_scope.

(** The two databases differ in the ids they give. *)
Inductive Dialect := Postgres | Sqlite.

#[export] Instance Dialect_eq_dec : EqDecision Dialect.
Proof. solve_decision. Defined.

(** [nextTaskId] is above every id that was ever given. *)
Record TaskTable := { rows : gmap Z ScheduledTask; nextTaskId : Z; dialect : Dialect }.

Definition empty_tasks (db : Dialect) : TaskTable := {| rows := ∅; nextTaskId := 1; dialect := db |}.

Definition set_rows (m : gmap Z ScheduledTask) (d : TaskTable) : TaskTable :=
  {| rows := m; nextTaskId := nextTaskId d; dialect := dialect d |}.

(** ** [UPDATE ... SET ... WHERE ...] *)

(** One column of a [SET] clause; time expressions are given evaluated. *)
Inductive assign :=
  | set_status (s : ScheduledTaskStatus)
  | set_runAt (t : Z)
  | incr_attempts
  | incr_leaseEpoch
  | set_claimedBy (host : option string)
  | set_leaseExpiresAt (t : option Z)
  | set_startedAt (t : option Z)
  | set_dispatchedAt (t : option Z)
  | set_finishedAt (t : option Z)
  | set_errorMessage (m : option string)
  | set_missedAfter (t : option Z).

Definition assign_column (r : ScheduledTask) (a : assign) : ScheduledTask :=
  {| t_id := t_id r;
     t_jobId := t_jobId r;
     t_taskType := t_taskType r;
     t_payload := t_payload r;
     t_scheduledFor := t_scheduledFor r;
     t_runAt := match a with set_runAt t => t | _ => t_runAt r end;
     t_status := match a with set_status s => s | _ => t_status r end;
     t_attempts := match a with incr_attempts => t_attempts r + 1 | _ => t_attempts r end;
     t_maxAttempts := t_maxAttempts r;
     t_claimedBy := match a with set_claimedBy h => h | _ => t_claimedBy r end;
     t_leaseExpiresAt := match a with set_leaseExpiresAt t => t | _ => t_leaseExpiresAt r end;
     t_leaseEpoch := match a with incr_leaseEpoch => t_leaseEpoch r + 1 | _ => t_leaseEpoch r end;
     t_startedAt := match a with set_startedAt t => t | _ => t_startedAt r end;
     t_dispatchedAt := match a with set_dispatchedAt t => t | _ => t_dispatchedAt r end;
     t_finishedAt := match a with set_finishedAt t => t | _ => t_finishedAt r end;
     t_errorMessage := match a with set_errorMessage m => m | _ => t_errorMessage r end;
     t_missedAfter := match a with set_missedAfter t => t | _ => t_missedAfter r end |}.

Definition assign_columns (values : list assign) (r : ScheduledTask) : ScheduledTask :=
  foldl assign_column r values.

(** The statement: rows affected, and the table after. *)
Definition update_rows (p : ScheduledTask -> bool) (values : list assign) (d : TaskTable) : Z * TaskTable :=
  (Z.of_nat (size (filter (fun x : Z * ScheduledTask => p x.2 = true) (rows d))),
   set_rows ((fun r => if p r then assign_columns values r else r) <$> rows d) d).

Definition delete_rows (p : ScheduledTask -> bool) (d : TaskTable) : Z * TaskTable :=
  (Z.of_nat (size (filter (fun x : Z * ScheduledTask => p x.2 = true) (rows d))),
   set_rows (filter (fun x : Z * ScheduledTask => p x.2 = false) (rows d)) d).

(** ** [SELECT ... ORDER BY key LIMIT n] *)

Definition oldest_first (key : ScheduledTask -> Z) (a b : ScheduledTask) : Prop :=
  key a < key b \/ key a = key b /\ t_id a <= t_id b.

#[export] Instance oldest_first_dec key a b : Decision (oldest_first key a b).
Proof. unfold oldest_first. apply _. Defined.
#[export] Instance oldest_first_total key : Total (oldest_first key).
Proof. intros a b. unfold oldest_first. lia. Qed.
#[export] Instance oldest_first_trans key : Transitive (oldest_first key).
Proof. intros a b c. unfold oldest_first. lia. Qed.

Definition matching (p : ScheduledTask -> bool) (d : TaskTable) : list ScheduledTask :=
  filter (fun r => p r = true) (map_to_list (rows d)).*2.

Definition select_rows (p : ScheduledTask -> bool) (key : ScheduledTask -> Z) (limit : Z) (d : TaskTable)
  : list ScheduledTask :=
  take (Z.to_nat limit) (merge_sort (oldest_first key) (matching p d)).

(** [Number.isSafeInteger]. *)
Definition isSafeInteger (z : Z) : bool := Z.abs z <=? 2 ^ 53 - 1.

Definition after_opt (t : option Z) (now : Z) : bool :=
  match t with Some t => now <? t | None => false end.
Definition upto_opt (t : option Z) (now : Z) : bool :=
  match t with Some t => t <=? now | None => false end.

(** ** Recording occurrences *)

(** [NewOccurrence]. *)
Record NewOccurrence := {
  n_jobId : Z;
  n_taskType : string;
  n_payload : Payload;
  n_scheduledFor : Z;
  n_runAt : Z;
  n_maxAttempts : Z;
  n_missedAfter : option Z;
}.

(** The row of a new occurrence: the columns the statement leaves out take their schema
    defaults. *)
Definition new_row (id : Z) (n : NewOccurrence) : ScheduledTask :=
  {| t_id := id;
     t_jobId := n_jobId n;
     t_taskType := n_taskType n;
     t_payload := n_payload n;
     t_scheduledFor := n_scheduledFor n;
     t_runAt := n_runAt n;
     t_status := Pending;
     t_attempts := 0;
     t_maxAttempts := n_maxAttempts n;
     t_claimedBy := None;
     t_leaseExpiresAt := None;
     t_leaseEpoch := 0;
     t_startedAt := None;
     t_dispatchedAt := None;
     t_finishedAt := None;
     t_errorMessage := None;
     t_missedAfter := n_missedAfter n |}.

(** The unique index on [(jobId, scheduledFor)]. *)
Definition occurrence_of (r : ScheduledTask) : Z * Z := (t_jobId r, t_scheduledFor r).

Definition has_occurrence (d : TaskTable) (o : Z * Z) : bool :=
  bool_decide (o ∈ (occurrence_of <$> (map_to_list (rows d)).*2)).

(** The id of a new row.  Postgres has an identity column, whose sequence goes up.  In
    SQLite the column is an [INTEGER PRIMARY KEY] without [AUTOINCREMENT]: the id is one
    above the largest of the table, so that the id of a deleted row is given again when it
    was the largest. *)
Definition largest_id (d : TaskTable) : Z := foldr Z.max 0 (map_to_list (rows d)).*1.

Definition next_id (d : TaskTable) : Z :=
  match dialect d with Postgres => nextTaskId d | Sqlite => largest_id d + 1 end.

(** [INSERT ... ON CONFLICT DO NOTHING], row by row.  (A conflict may use a number of the
    sequence up.) *)
Definition insert_row (d : TaskTable) (n : NewOccurrence) : TaskTable :=
  if has_occurrence d (n_jobId n, n_scheduledFor n) then d
  else {| rows := <[next_id d := new_row (next_id d) n]> (rows d); nextTaskId := Z.max (nextTaskId d) (next_id d + 1);
          dialect := dialect d |}.

Definition insert_chunk (d : TaskTable) (chunk : list NewOccurrence) : Z * TaskTable :=
  let d' := foldl insert_row d chunk in
  (Z.of_nat (size (rows d')) - Z.of_nat (size (rows d)), d').

(** [Array.from({ length: Math.ceil(n / size) }, (_, i) => l.slice(i * size, (i + 1) * size))]. *)
Definition chunks_of {A} (chunkSize : nat) (l : list A) : list (list A) :=
  (fun i => take chunkSize (drop (i * chunkSize) l))
    <$> seq 0 ((length l + chunkSize - 1) / chunkSize)%nat.

(** How many rows were recorded.  (The identity of the rows, which only Postgres returns
    and only tracing reads, is left out.) *)
Definition insertIgnoringDuplicates (occurrences : list NewOccurrence) (chunkSize : nat) (d : TaskTable)
  : Z * TaskTable :=
  foldl (fun acc chunk => let '(n, d') := insert_chunk acc.2 chunk in (acc.1 + n, d'))
    (0, d) (chunks_of chunkSize occurrences).

(** ** Job-wide statements *)

Definition deletePendingByJobIds (jobIds : list Z) (d : TaskTable) : TaskTable :=
  match jobIds with
  | [] => d
  | _ => (delete_rows (fun r => bool_decide (t_jobId r ∈ jobIds) && bool_decide (t_status r = Pending)) d).2
  end.

(** [ON DELETE CASCADE] from [scheduled_job]. *)
Definition deleteByJobIds (jobIds : list Z) (d : TaskTable) : TaskTable :=
  (delete_rows (fun r => bool_decide (t_jobId r ∈ jobIds)) d).2.

Definition updateToMissed (now : Z) (superseded : list (Z * Z)) (d : TaskTable) : Z * TaskTable :=
  match superseded with
  | [] => (0, d)
  | _ =>
      update_rows
        (fun r => bool_decide (t_status r = Pending) &&
                  existsb (fun '(jobId, before) => (t_jobId r =? jobId) && (t_scheduledFor r <? before)) superseded)
        [set_status Missed; set_finishedAt (Some now)] d
  end.

(** The assigned deadline reads the row's own [runAt], so the statement sets it row by
    row. *)
Definition updateMissedAfterForJobs (now : Z) (jobIds : list Z) (misfireGraceSeconds : Z) (d : TaskTable)
  : TaskTable :=
  match jobIds with
  | [] => d
  | _ =>
      set_rows ((fun r =>
           if bool_decide (t_jobId r ∈ jobIds) && bool_decide (t_status r = Pending) && after_opt (t_missedAfter r) now
           then assign_column r (set_missedAfter (Some (Z.max (t_runAt r) now + misfireGraceSeconds * 1000)))
           else r) <$> rows d) d
  end.

(** ** Claiming *)

(** [claimableSql]: a row past its deadline is left alone, unless it has none or was
    attempted before. *)
Definition claimable (now : Z) (r : ScheduledTask) : bool :=
  bool_decide (t_missedAfter r = None) || after_opt (t_missedAfter r) now || (0 <? t_attempts r).

Definition claim_candidate (opts : ClaimDueTasksBatch) (now : Z) (r : ScheduledTask) : bool :=
  bool_decide (t_status r = Pending) && bool_decide (t_taskType r ∈ b_taskTypes opts) &&
  (t_runAt r <=? now + b_lookaheadMs opts) && claimable now r.

(** The [SET] clause of both dialects. *)
Definition claim_values (opts : ClaimDueTasksBatch) (now : Z) : list assign :=
  [set_status Running; set_claimedBy (Some (b_host opts)); set_leaseExpiresAt (Some (now + b_leaseMs opts));
   incr_leaseEpoch].

(** The rows with the given ids are updated, and returned as updated. *)
Definition claim_ids (opts : ClaimDueTasksBatch) (now : Z) (ids : list Z) (d : TaskTable)
  : list ScheduledTask * TaskTable :=
  let d' := (update_rows (fun r => bool_decide (t_id r ∈ ids)) (claim_values opts now) d).2 in
  (omap (fun id => rows d' !! id) ids, d').

Definition claimDueTasks (opts : ClaimDueTasksBatch) (locked : gset Z) (now : Z) (d : TaskTable)
  : list ScheduledTask * TaskTable :=
  match b_taskTypes opts with
  | [] => ([], d)
  | _ =>
      let candidates := select_rows
        (fun r => claim_candidate opts now r && bool_decide (t_id r ∉ locked)) t_runAt (b_batchSize opts) d in
      claim_ids opts now (t_id <$> candidates) d
  end.

(** What a claim may select, whatever other transactions hold and however ties fall. *)
Definition claim_pick (opts : ClaimDueTasksBatch) (now : Z) (d : TaskTable) (ids : list Z) : Prop :=
  NoDup ids /\ Z.of_nat (length ids) <= Z.max 0 (b_batchSize opts) /\
  forall id, id ∈ ids -> exists r, rows d !! id = Some r /\ claim_candidate opts now r = true.

(** ** The owner's statements *)

(** [runGuardedUpdate]'s criteria: still running, same owner, same epoch. *)
Definition owned_by (claim : ClaimedTaskRef) (r : ScheduledTask) : bool :=
  (t_id r =? c_id claim) && bool_decide (t_status r = Running) &&
  bool_decide (t_claimedBy r = Some (c_host claim)) && (t_leaseEpoch r =? c_claimedEpoch claim).

Definition runGuardedUpdate (claim : ClaimedTaskRef) (values : list assign) (d : TaskTable) : Z * TaskTable :=
  update_rows (owned_by claim) values d.

Definition beginDispatch (claim : ClaimedTaskRef) (leaseMs now : Z) (d : TaskTable) : Z * TaskTable :=
  update_rows (fun r => owned_by claim r && bool_decide (t_startedAt r = None))
    [set_startedAt (Some now); set_leaseExpiresAt (Some (now + leaseMs))] d.

Definition markDispatched (claim : ClaimedTaskRef) (now : Z) (d : TaskTable) : Z * TaskTable :=
  runGuardedUpdate claim [set_dispatchedAt (Some now)] d.

Definition completeTask (claim : ClaimedTaskRef) (now : Z) (d : TaskTable) : Z * TaskTable :=
  runGuardedUpdate claim [set_status Succeeded; set_finishedAt (Some now); set_errorMessage None] d.

Definition failTaskTerminal (claim : ClaimedTaskRef) (errorMessage : string) (now : Z) (d : TaskTable)
  : Z * TaskTable :=
  runGuardedUpdate claim
    [set_status Failed; set_finishedAt (Some now); incr_attempts; set_errorMessage (Some errorMessage)] d.

Definition rescheduleTask (claim : ClaimedTaskRef) (backoffMs : Z) (errorMessage : string) (now : Z) (d : TaskTable)
  : Z * TaskTable :=
  runGuardedUpdate claim
    [set_status Pending; set_runAt (now + backoffMs); incr_attempts; set_errorMessage (Some errorMessage);
     set_claimedBy None; set_leaseExpiresAt None; set_startedAt None; set_dispatchedAt None] d.

Definition releaseClaim (claim : ClaimedTaskRef) (d : TaskTable) : Z * TaskTable :=
  runGuardedUpdate claim
    [set_status Pending; set_claimedBy None; set_leaseExpiresAt None; set_startedAt None; set_dispatchedAt None] d.

(** ** The reaper's statements *)

Definition lease_expired (now : Z) (r : ScheduledTask) : bool :=
  bool_decide (t_status r = Running) &&
  match t_leaseExpiresAt r with Some t => t <? now | None => false end.

Definition findExpiredLeases (limit now : Z) (d : TaskTable) : list ScheduledTask :=
  select_rows (lease_expired now) (fun r => default 0 (t_leaseExpiresAt r)) limit d.

Inductive dispatch_fence := pre_dispatch | post_dispatch.

Definition dispatchedFence (f : dispatch_fence) (r : ScheduledTask) : bool :=
  match f with
  | post_dispatch => bool_decide (t_dispatchedAt r <> None)
  | pre_dispatch => bool_decide (t_dispatchedAt r = None)
  end.

(** [runReaperUpdate]'s criteria. *)
Definition reapable (ref : ExpiredLeaseRef) (f : dispatch_fence) (now : Z) (r : ScheduledTask) : bool :=
  (t_id r =? e_id ref) && (t_leaseEpoch r =? e_claimedEpoch ref) && lease_expired now r && dispatchedFence f r.

Definition runReaperUpdate (ref : ExpiredLeaseRef) (values : list assign) (f : dispatch_fence) (now : Z) (d : TaskTable)
  : Z * TaskTable :=
  update_rows (reapable ref f now) values d.

Definition reclaimExpired (ref : ExpiredLeaseRef) (backoffMs : Z) (errorMessage : string) (now : Z) (d : TaskTable)
  : Z * TaskTable :=
  runReaperUpdate ref
    [set_status Pending; set_runAt (now + backoffMs); incr_attempts; incr_leaseEpoch; set_claimedBy None;
     set_leaseExpiresAt None; set_errorMessage (Some errorMessage); set_startedAt None; set_dispatchedAt None]
    pre_dispatch now d.

Definition deadLetterExpired (ref : ExpiredLeaseRef) (errorMessage : string) (now : Z) (d : TaskTable) : Z * TaskTable :=
  runReaperUpdate ref
    [set_status Failed; set_finishedAt (Some now); incr_attempts; set_errorMessage (Some errorMessage)]
    pre_dispatch now d.

Definition completeExpired (ref : ExpiredLeaseRef) (now : Z) (d : TaskTable) : Z * TaskTable :=
  runReaperUpdate ref [set_status Succeeded; set_finishedAt (Some now); set_errorMessage None] post_dispatch now d.

(** A pending row past its deadline, never attempted. *)
Definition missed_pending (now : Z) (r : ScheduledTask) : bool :=
  bool_decide (t_status r = Pending) && upto_opt (t_missedAfter r) now && (t_attempts r =? 0).

Definition retireMissedPending (limit : Z) (locked : gset Z) (now : Z) (d : TaskTable) : sresult Z * TaskTable :=
  if negb (isSafeInteger limit) then (Err (UnexpectedError ("retireMissedPending needs an integer limit, got: " +:+ pretty limit)), d)
  else if limit <=? 0 then (Ok 0, d)
  else
    let ids := t_id <$> select_rows (fun r => missed_pending now r && bool_decide (t_id r ∉ locked))
                          (fun r => default 0 (t_missedAfter r)) limit d in
    let '(n, d') := update_rows (fun r => bool_decide (t_id r ∈ ids)) [set_status Missed; set_finishedAt (Some now)] d in
    (Ok n, d').

(** ** Retention *)

(** [DeleteFinishedTasksOptions]. *)
Record DeleteFinishedTasksOptions := {
  o_statuses : list ScheduledTaskStatus;
  o_olderThanMs : Z;
  o_limit : Z;
}.

Definition finished_before (statuses : list ScheduledTaskStatus) (cutoff : Z) (r : ScheduledTask) : bool :=
  bool_decide (t_status r ∈ statuses) && upto_opt (t_finishedAt r) cutoff.

Definition deleteFinishedOlderThan (options : DeleteFinishedTasksOptions) (locked : gset Z) (now : Z) (d : TaskTable)
  : sresult Z * TaskTable :=
  let invalid := List.filter (fun s => negb (is_terminal s)) (o_statuses options) in
  if bool_decide (invalid <> []) then
    (Err (UnexpectedError ("deleteFinishedOlderThan only deletes terminal tasks, got: "
                             +:+ String.concat ", " (task_status_name <$> invalid))), d)
  else if negb (isSafeInteger (o_limit options)) then
    (Err (UnexpectedError ("deleteFinishedOlderThan needs an integer limit, got: " +:+ pretty (o_limit options))), d)
  else if bool_decide (o_statuses options = []) || (o_limit options <=? 0) then (Ok 0, d)
  else
    let ids := t_id <$> select_rows
      (fun r => finished_before (o_statuses options) (now - o_olderThanMs options) r && bool_decide (t_id r ∉ locked))
      (fun r => default 0 (t_finishedAt r)) (o_limit options) d in
    let '(n, d') := delete_rows (fun r => bool_decide (t_id r ∈ ids)) d in
    (Ok n, d').

(** ** Queue health *)

(** [ScheduledTaskMetricSnapshot]. *)
Record MetricSnapshot := {
  ms_pending : Z;
  ms_due : Z;
  ms_running : Z;
  ms_oldestPendingAgeMs : option Z;
}.

Definition due_pending (now : Z) (r : ScheduledTask) : bool :=
  bool_decide (t_status r = Pending) && (t_runAt r <=? now) && claimable now r.

Definition count_rows (p : ScheduledTask -> bool) (d : TaskTable) : Z := Z.of_nat (length (matching p d)).

Definition getMetricSnapshot (now : Z) (d : TaskTable) : MetricSnapshot :=
  {| ms_pending := count_rows (fun r => bool_decide (t_status r = Pending)) d;
     ms_due := count_rows (due_pending now) d;
     ms_running := count_rows (fun r => bool_decide (t_status r = Running)) d;
     ms_oldestPendingAgeMs :=
       (fun r => now - t_runAt r) <$> head (select_rows (due_pending now) t_runAt 1 d) |}.

(** ** Selections *)

Lemma elem_of_matching (p : ScheduledTask -> bool) (d : TaskTable) (r : ScheduledTask) :
  r ∈ matching p d <-> p r = true /\ exists id, rows d !! id = Some r.
Proof.
  unfold matching. rewrite list_elem_of_filter, list_elem_of_fmap. split; intros [Hp H]; (split; [done|]).
  - destruct H as ([id r'] & -> & Hin). exists id. by apply elem_of_map_to_list in Hin.
  - destruct H as (id & Hr). exists (id, r). split; [done|]. by apply elem_of_map_to_list.
Qed.

Lemma select_rows_submseteq p key limit d : select_rows p key limit d ⊆+ matching p d.
Proof.
  unfold select_rows. etransitivity; [apply submseteq_take|].
  apply Permutation_submseteq, merge_sort_Permutation.
Qed.

Lemma elem_of_select_rows p key limit d r :
  r ∈ select_rows p key limit d -> p r = true /\ exists id, rows d !! id = Some r.
Proof. intros Hr. apply elem_of_matching. eapply elem_of_submseteq; [done|apply select_rows_submseteq]. Qed.

Lemma length_select_rows p key limit d : Z.of_nat (length (select_rows p key limit d)) <= Z.max 0 limit.
Proof. unfold select_rows. rewrite length_take. lia. Qed.
