(* ===== verification/SchedTable.v ===== *)
(** * Scheduler: the invariant of the task table

    A row's columns agree with its status ([row_ok], which covers the running-lease CHECK
    constraint), rows sit under their ids, and no two rows are of the same occurrence
    ([TableOk]): that holds on both databases.  Where ids are not given twice, that is on
    Postgres, rows also [evolves].  A statement may change a row only in the ways
    [row_evolves] lists: what identifies a run never changes, the lease epoch never goes
    back, a finished row never changes, and a row that is still running under the same
    epoch was running and keeps its attempts. *)

From stdpp Require Import base gmap strings list sorting fin_maps.
From Stdlib Require Import ZArith Lia.
From S2P Require Import Prelude.
From S2P Require Import SchedTypes.
From S2P Require Import SchedStore.

#[local] Open Scope Z_scope.

(** ** Well-formed rows *)

Definition row_ok (r : ScheduledTask) : bool :=
  match t_status r with
  | Pending =>
      bool_decide (t_claimedBy r = None) && bool_decide (t_leaseExpiresAt r = None) &&
      bool_decide (t_startedAt r = None) && bool_decide (t_dispatchedAt r = None) &&
      bool_decide (t_finishedAt r = None)
  | Running =>
      bool_decide (t_claimedBy r <> None) && bool_decide (t_leaseExpiresAt r <> None) &&
      bool_decide (t_finishedAt r = None)
  | _ => bool_decide (t_finishedAt r <> None)
  end && (0 <=? t_attempts r) && (0 <=? t_leaseEpoch r).

Record TableOk (d : TaskTable) : Prop := {
  tk_key : forall id r, rows d !! id = Some r -> t_id r = id /\ id < nextTaskId d;
  tk_row : forall id r, rows d !! id = Some r -> row_ok r = true;
  tk_unique : forall i j r r', rows d !! i = Some r -> rows d !! j = Some r' ->
    occurrence_of r = occurrence_of r' -> i = j;
}.

(** ** What may happen to a row *)

(** The columns no statement touches. *)
Definition same_run (r r' : ScheduledTask) : Prop :=
  t_id r' = t_id r /\ t_jobId r' = t_jobId r /\ t_taskType r' = t_taskType r /\ t_payload r' = t_payload r /\
  t_scheduledFor r' = t_scheduledFor r /\ t_maxAttempts r' = t_maxAttempts r.

Record row_evolves (r r' : ScheduledTask) : Prop := {
  ev_run : same_run r r';
  ev_epoch : t_leaseEpoch r <= t_leaseEpoch r';
  ev_attempts : t_attempts r <= t_attempts r';
  ev_final : is_terminal (t_status r) = true -> r' = r;
  ev_running : t_status r' = Running -> t_leaseEpoch r' = t_leaseEpoch r ->
    t_status r = Running /\ t_attempts r' = t_attempts r /\ (t_startedAt r <> None -> t_startedAt r' <> None);
}.

#[export] Instance row_evolves_refl : Reflexive row_evolves.
Proof. intros r. by split; unfold same_run; try lia. Qed.

#[export] Instance row_evolves_trans : Transitive row_evolves.
Proof.
  intros r1 r2 r3 [H1 H2 H3 H4 H5] [G1 G2 G3 G4 G5]. unfold same_run in *.
  split; [unfold same_run; intuition congruence|lia|lia| |].
  - intros Ht. specialize (H4 Ht). subst r2. auto.
  - intros Hs He. destruct (G5 Hs) as (? & ? & ?); [lia|]. destruct H5 as (? & ? & ?); [done|lia|].
    split_and!; [done|lia|auto].
Qed.

(** A table evolves into another: on Postgres rows evolve or go, and ids are never used
    again. *)
Record evolves (d d' : TaskTable) : Prop := {
  evo_dialect : dialect d' = dialect d;
  evo_next : nextTaskId d <= nextTaskId d';
  evo_row : dialect d = Postgres -> forall id r', rows d' !! id = Some r' -> id < nextTaskId d ->
    exists r, rows d !! id = Some r /\ row_evolves r r';
}.

#[export] Instance evolves_refl : Reflexive evolves.
Proof. intros d. split; [done|lia|]. intros _ id r' Hr _. by exists r'. Qed.

#[export] Instance evolves_trans : Transitive evolves.
Proof.
  intros d1 d2 d3 [H0 H1 H2] [G0 G1 G2]. split; [congruence|lia|].
  intros Hdb id r3 Hr3 Hlt. destruct (G2 ltac:(congruence) id r3 Hr3) as (r2 & Hr2 & E2); [lia|].
  destruct (H2 Hdb id r2 Hr2 Hlt) as (r1 & Hr1 & E1). exists r1. split; [done|by transitivity r2].
Qed.

(** What a statement keeps. *)
Definition keeps (d d' : TaskTable) : Prop := TableOk d' /\ evolves d d'.

(** ** Rows that change *)

(** A change of rows of [d] that a statement may make. *)
Definition good_change (d : TaskTable) (p : ScheduledTask -> bool) (f : ScheduledTask -> ScheduledTask) : Prop :=
  forall r, rows d !! t_id r = Some r -> row_ok r = true -> p r = true -> row_evolves r (f r) /\ row_ok (f r) = true.

Definition change_rows (p : ScheduledTask -> bool) (f : ScheduledTask -> ScheduledTask) (d : TaskTable) : TaskTable :=
  set_rows ((fun r => if p r then f r else r) <$> rows d) d.

Lemma update_rows_change (p : ScheduledTask -> bool) (values : list assign) (d : TaskTable) :
  (update_rows p values d).2 = change_rows p (assign_columns values) d.
Proof. done. Qed.

Lemma lookup_change_rows p f d id :
  rows (change_rows p f d) !! id = (fun r => if p r then f r else r) <$> rows d !! id.
Proof. apply lookup_fmap. Qed.

Lemma change_rows_keeps p f d : TableOk d -> good_change d p f -> keeps d (change_rows p f d).
Proof.
  intros [H1 H2 H3] Hf.
  assert (Hrow : forall id r', rows (change_rows p f d) !! id = Some r' ->
    exists r, rows d !! id = Some r /\ row_evolves r r' /\ row_ok r' = true).
  { intros id r'. rewrite lookup_change_rows. intros (r & Hr & ->)%fmap_Some_1.
    exists r. split; [done|]. destruct (p r) eqn:Hp; [|split; [done|by eauto]]. apply Hf; [|by eauto|done].
    by destruct (H1 _ _ Hr) as [-> _]. }
  split; split.
  - intros id r' Hr'. destruct (Hrow _ _ Hr') as (r & Hr & E & _). destruct (ev_run _ _ E) as [-> _]. by apply H1.
  - intros id r' Hr'. destruct (Hrow _ _ Hr') as (r & Hr & E & ?). done.
  - intros i j r' r'' Hr' Hr'' Ho.
    destruct (Hrow _ _ Hr') as (r & Hr & E & _), (Hrow _ _ Hr'') as (r2 & Hr2 & E2 & _).
    apply (H3 i j r r2 Hr Hr2). destruct (ev_run _ _ E) as (_ & A & _ & _ & B & _), (ev_run _ _ E2) as (_ & C & _ & _ & D & _).
    unfold occurrence_of in *. congruence.
  - done.
  - simpl. lia.
  - intros _ id r' Hr' _. destruct (Hrow _ _ Hr') as (r & Hr & E & _). eauto.
Qed.

Lemma update_rows_keeps p values d : TableOk d -> good_change d p (assign_columns values) -> keeps d (update_rows p values d).2.
Proof. rewrite update_rows_change. apply change_rows_keeps. Qed.

Lemma lookup_delete_rows p d id r : rows (delete_rows p d).2 !! id = Some r <-> rows d !! id = Some r /\ p r = false.
Proof. simpl. by rewrite map_lookup_filter_Some. Qed.

Lemma delete_rows_keeps p d : TableOk d -> keeps d (delete_rows p d).2.
Proof.
  intros [H1 H2 H3]. split; split; simpl; try lia; try done.
  - intros id r [Hr _]%lookup_delete_rows. by apply H1.
  - intros id r [Hr _]%lookup_delete_rows. eauto.
  - intros i j r r' [Hr _]%lookup_delete_rows [Hr' _]%lookup_delete_rows. eauto.
  - intros _ id r [Hr _]%lookup_delete_rows _. by exists r.
Qed.

(** ** Rows that come *)

Lemma max_key_above {A} (m : gmap Z A) (k : Z) (a : A) : m !! k = Some a -> k <= foldr Z.max 0 (map_to_list m).*1.
Proof.
  intros Hk%elem_of_map_to_list. induction (map_to_list m) as [|[i x] l IH]; [by apply not_elem_of_nil in Hk|].
  rewrite fmap_cons. cbn [foldr fst]. apply elem_of_cons in Hk as [[= -> ->]|Hk]; [lia|]. specialize (IH Hk). lia.
Qed.

(** On either database the id is new to the table. *)
Lemma next_id_above (d : TaskTable) (id : Z) (r : ScheduledTask) : TableOk d -> rows d !! id = Some r -> id < next_id d.
Proof.
  intros HT Hr. unfold next_id. destruct (dialect d); [by apply (tk_key _ HT _ _ Hr)|]. pose proof (max_key_above (rows d) id r Hr) as Hle. unfold largest_id. lia.
Qed.

Lemma has_occurrence_spec (d : TaskTable) (o : Z * Z) :
  has_occurrence d o = true <-> exists id r, rows d !! id = Some r /\ occurrence_of r = o.
Proof.
  unfold has_occurrence. rewrite bool_decide_eq_true, list_elem_of_fmap. split.
  - intros (r & -> & ([id r'] & -> & Hin)%list_elem_of_fmap). apply elem_of_map_to_list in Hin. eauto.
  - intros (id & r & Hr & <-). exists r. split; [done|]. apply list_elem_of_fmap. exists (id, r).
    split; [done|]. by apply elem_of_map_to_list.
Qed.

Lemma insert_row_cases (d : TaskTable) (n : NewOccurrence) :
  (has_occurrence d (n_jobId n, n_scheduledFor n) = true /\ insert_row d n = d) \/
  (has_occurrence d (n_jobId n, n_scheduledFor n) = false /\
   insert_row d n = {| rows := <[next_id d := new_row (next_id d) n]> (rows d); nextTaskId := Z.max (nextTaskId d) (next_id d + 1);
                       dialect := dialect d |}).
Proof. unfold insert_row. destruct (has_occurrence _ _); auto. Qed.

Lemma insert_row_keeps (d : TaskTable) (n : NewOccurrence) : TableOk d -> keeps d (insert_row d n).
Proof.
  intros HT. destruct (insert_row_cases d n) as [[_ ->]|[Hno ->]]; [by split|].
  assert (forall id r, rows d !! id = Some r -> id < next_id d) as Habove by (intros; by eapply next_id_above). destruct HT as [H1 H2 H3].
  assert (Hfresh : forall id r, rows d !! id = Some r -> occurrence_of r <> (n_jobId n, n_scheduledFor n)).
  { intros id r Hr Ho. apply not_true_iff_false in Hno. apply Hno, has_occurrence_spec. eauto. }
  split; split; simpl.
  - intros id r [[<- <-]|[? Hr]]%lookup_insert_Some; [simpl; lia|]. destruct (H1 _ _ Hr). split; [done|lia].
  - intros id r [[<- <-]|[? Hr]]%lookup_insert_Some; [done|eauto].
  - intros i j r r' [[<- <-]|[? Hr]]%lookup_insert_Some [[<- <-]|[? Hr']]%lookup_insert_Some Ho; [done| | |by eauto].
    + by destruct (Hfresh _ _ Hr').
    + by destruct (Hfresh _ _ Hr).
  - done.
  - lia.
  - intros Hdb id r [[<- <-]|[? Hr]]%lookup_insert_Some Hlt; [|by exists r]. unfold next_id in Hlt. rewrite Hdb in Hlt. lia.
Qed.

Lemma keeps_trans (d1 d2 d3 : TaskTable) : keeps d1 d2 -> keeps d2 d3 -> keeps d1 d3.
Proof. intros [? ?] [? ?]. split; [done|by transitivity d2]. Qed.

Lemma insert_rows_keeps (d : TaskTable) (l : list NewOccurrence) : TableOk d -> keeps d (foldl insert_row d l).
Proof.
  revert d. induction l as [|n l IH]; intros d Hd; simpl; [by split|].
  destruct (insert_row_keeps d n Hd) as [H1 H2]. apply (keeps_trans _ (insert_row d n)); [by split|]. by apply IH.
Qed.

(** ** Each statement *)

(** Booleans to propositions. *)
Ltac criteria :=
  repeat match goal with
  | H : _ && _ = true |- _ => apply andb_true_iff in H as [? ?]
  | H : bool_decide _ = true |- _ => apply bool_decide_eq_true in H
  | H : (_ =? _) = true |- _ => apply Z.eqb_eq in H
  | H : (_ <? _) = true |- _ => apply Z.ltb_lt in H
  | H : (_ <=? _) = true |- _ => apply Z.leb_le in H
  | |- _ && _ = true => apply andb_true_iff; split
  | |- bool_decide _ = true => apply bool_decide_eq_true
  | |- (_ <=? _) = true => apply Z.leb_le
  end.

(** A change that assigns columns, for the rows a criterion selects. *)
Ltac row_change :=
  unfold row_ok, owned_by, reapable, lease_expired, missed_pending, claim_candidate in *;
  match goal with r : ScheduledTask |- _ => destruct r end;
  simpl in *; criteria; simplify_eq; simpl in *; criteria;
  split;
  [ split; unfold same_run; simpl; intros; simplify_eq; try done; try lia;
    try (split_and!; first [done | lia | congruence])
  | unfold row_ok; simpl; criteria; first [done | lia | congruence] ].

Section statements.
Context (d : TaskTable) (HT : TableOk d).

Lemma claim_ids_keeps (opts : ClaimDueTasksBatch) (now : Z) (ids : list Z) :
  claim_pick opts now d ids -> keeps d (claim_ids opts now ids d).2.
Proof.
  intros (_ & _ & Hc). apply update_rows_keeps; [done|].
  intros r Hr Hok Hp%bool_decide_eq_true. destruct (Hc _ Hp) as (r' & Hr' & Hcand).
  assert (r' = r) as -> by congruence. row_change.
Qed.

Lemma beginDispatch_keeps (claim : ClaimedTaskRef) (leaseMs now : Z) : keeps d (beginDispatch claim leaseMs now d).2.
Proof. apply update_rows_keeps; [done|]. intros r Hr Hok Hp. row_change. Qed.

Lemma markDispatched_keeps (claim : ClaimedTaskRef) (now : Z) : keeps d (markDispatched claim now d).2.
Proof. apply update_rows_keeps; [done|]. intros r Hr Hok Hp. row_change. Qed.

Lemma completeTask_keeps (claim : ClaimedTaskRef) (now : Z) : keeps d (completeTask claim now d).2.
Proof. apply update_rows_keeps; [done|]. intros r Hr Hok Hp. row_change. Qed.

Lemma failTaskTerminal_keeps (claim : ClaimedTaskRef) (m : string) (now : Z) : keeps d (failTaskTerminal claim m now d).2.
Proof. apply update_rows_keeps; [done|]. intros r Hr Hok Hp. row_change. Qed.

Lemma rescheduleTask_keeps (claim : ClaimedTaskRef) (b : Z) (m : string) (now : Z) :
  keeps d (rescheduleTask claim b m now d).2.
Proof. apply update_rows_keeps; [done|]. intros r Hr Hok Hp. row_change. Qed.

Lemma releaseClaim_keeps (claim : ClaimedTaskRef) : keeps d (releaseClaim claim d).2.
Proof. apply update_rows_keeps; [done|]. intros r Hr Hok Hp. row_change. Qed.

Lemma reclaimExpired_keeps (ref : ExpiredLeaseRef) (b : Z) (m : string) (now : Z) :
  keeps d (reclaimExpired ref b m now d).2.
Proof. apply update_rows_keeps; [done|]. intros r Hr Hok Hp. row_change. Qed.

Lemma deadLetterExpired_keeps (ref : ExpiredLeaseRef) (m : string) (now : Z) : keeps d (deadLetterExpired ref m now d).2.
Proof. apply update_rows_keeps; [done|]. intros r Hr Hok Hp. row_change. Qed.

Lemma completeExpired_keeps (ref : ExpiredLeaseRef) (now : Z) : keeps d (completeExpired ref now d).2.
Proof. apply update_rows_keeps; [done|]. intros r Hr Hok Hp. row_change. Qed.
End statements.

(** Rows selected by a criterion sit in the table under their ids. *)
Lemma select_rows_lookup (d : TaskTable) p key limit r :
  TableOk d -> r ∈ select_rows p key limit d -> rows d !! t_id r = Some r /\ p r = true.
Proof.
  intros HT (Hp & id & Hr)%elem_of_select_rows. by destruct (tk_key _ HT _ _ Hr) as [-> _].
Qed.

Lemma select_ids_lookup (d : TaskTable) p key limit r :
  TableOk d -> rows d !! t_id r = Some r -> t_id r ∈ t_id <$> select_rows p key limit d -> p r = true.
Proof.
  intros HT Hr (r' & Heq & Hin)%list_elem_of_fmap. destruct (select_rows_lookup d p key limit r' HT Hin) as [Hr' Hp].
  rewrite <-Heq in Hr'. congruence.
Qed.

Lemma matching_ids_NoDup (p : ScheduledTask -> bool) (d : TaskTable) : TableOk d -> NoDup (t_id <$> matching p d).
Proof.
  intros HT. unfold matching.
  apply (sublist_NoDup _ (t_id <$> (map_to_list (rows d)).*2)); [|by apply fmap_sublist, sublist_filter].
  rewrite <-list_fmap_compose.
  rewrite (list_fmap_ext (t_id ∘ snd) fst); [apply NoDup_fst_map_to_list|].
  intros i [id r] Hin. simpl. apply list_elem_of_lookup_2, elem_of_map_to_list in Hin. by destruct (tk_key _ HT _ _ Hin).
Qed.

Lemma select_ids_NoDup (d : TaskTable) p key limit : TableOk d -> NoDup (t_id <$> select_rows p key limit d).
Proof.
  intros HT. eapply submseteq_NoDup; [|apply (matching_ids_NoDup p d HT)].
  apply submseteq_fmap, select_rows_submseteq.
Qed.

(** The rows the claim selects, locked rows skipped, are a selection any database may make. *)
Lemma claimDueTasks_pick (opts : ClaimDueTasksBatch) (locked : gset Z) (now : Z) (d : TaskTable) :
  TableOk d ->
  claim_pick opts now d (t_id <$> select_rows
    (fun r => claim_candidate opts now r && bool_decide (t_id r ∉ locked)) t_runAt (b_batchSize opts) d).
Proof.
  intros HT. split_and!; [by apply select_ids_NoDup|rewrite length_fmap; apply length_select_rows|].
  intros id (r & -> & Hin)%list_elem_of_fmap. apply select_rows_lookup in Hin as [Hr Hp]; [|done].
  exists r. split; [done|]. by apply andb_true_iff in Hp as [? _].
Qed.

(** ** Any statement of the repository

    With any arguments, at any reading [now] of the database clock. *)
Inductive statement (now : Z) (d : TaskTable) : TaskTable -> Prop :=
  | st_insert l chunkSize : statement now d (insertIgnoringDuplicates l chunkSize d).2
  | st_deletePending ids : statement now d (deletePendingByJobIds ids d)
  | st_cascade ids : statement now d (deleteByJobIds ids d)
  | st_missed superseded : statement now d (updateToMissed now superseded d).2
  | st_missedAfter ids grace : statement now d (updateMissedAfterForJobs now ids grace d)
  | st_claim opts ids : claim_pick opts now d ids -> statement now d (claim_ids opts now ids d).2
  | st_begin claim leaseMs : statement now d (beginDispatch claim leaseMs now d).2
  | st_mark claim : statement now d (markDispatched claim now d).2
  | st_complete claim : statement now d (completeTask claim now d).2
  | st_fail claim m : statement now d (failTaskTerminal claim m now d).2
  | st_reschedule claim b m : statement now d (rescheduleTask claim b m now d).2
  | st_release claim : statement now d (releaseClaim claim d).2
  | st_reclaim ref b m : statement now d (reclaimExpired ref b m now d).2
  | st_deadLetter ref m : statement now d (deadLetterExpired ref m now d).2
  | st_completeExpired ref : statement now d (completeExpired ref now d).2
  | st_retire limit locked : statement now d (retireMissedPending limit locked now d).2
  | st_deleteFinished o locked : statement now d (deleteFinishedOlderThan o locked now d).2.

Lemma insertIgnoringDuplicates_rows (l : list NewOccurrence) (chunkSize : nat) (d : TaskTable) :
  (insertIgnoringDuplicates l chunkSize d).2 = foldl insert_row d (concat (chunks_of chunkSize l)).
Proof.
  unfold insertIgnoringDuplicates. generalize 0. generalize (chunks_of chunkSize l). intros cs.
  revert d. induction cs as [|c cs IH]; intros d z; simpl; [done|].
  rewrite IH. by rewrite foldl_app.
Qed.

(** Chunks put back together are the list. *)
Lemma concat_chunks_of {A} (n : nat) (l : list A) : (0 < n)%nat -> concat (chunks_of n l) = l.
Proof.
  intros Hn. unfold chunks_of.
  assert (Hk : forall k j, concat ((fun i => take n (drop (i * n) l)) <$> seq j k)
                 = take (k * n) (drop (j * n) l)).
  { intros k. induction k as [|k IH]; intros j; simpl; [by rewrite take_0|].
    rewrite IH. replace (S j * n)%nat with (j * n + n)%nat by lia. rewrite <-drop_drop.
    by rewrite take_take_drop. }
  rewrite Hk. simpl. rewrite drop_0. apply take_ge.
  pose proof (Nat.div_mod (length l + n - 1) n). pose proof (Nat.mod_upper_bound (length l + n - 1) n). nia.
Qed.

Lemma statement_keeps (now : Z) (d d' : TaskTable) : TableOk d -> statement now d d' -> keeps d d'.
Proof.
  intros HT Hs. destruct Hs as [l n|ids|ids|sup|ids g|o ids Hp|c lm|c|c|c m|c b m|c|f b m|f m|f|n lk|o lk].
  - rewrite insertIgnoringDuplicates_rows. by apply insert_rows_keeps.
  - destruct ids; [by split|]. by apply delete_rows_keeps.
  - by apply delete_rows_keeps.
  - destruct sup as [|s sup]; [by split|]. apply update_rows_keeps; [done|]. intros r Hr Hok Hp. row_change.
  - destruct ids as [|i ids]; [by split|].
    apply (change_rows_keeps
      (fun r => bool_decide (t_jobId r ∈ i :: ids) && bool_decide (t_status r = Pending) && after_opt (t_missedAfter r) now)
      (fun r => assign_column r (set_missedAfter (Some (Z.max (t_runAt r) now + g * 1000)))) d HT).
    intros r Hr Hok Hp. row_change.
  - by apply claim_ids_keeps.
  - by apply beginDispatch_keeps.
  - by apply markDispatched_keeps.
  - by apply completeTask_keeps.
  - by apply failTaskTerminal_keeps.
  - by apply rescheduleTask_keeps.
  - by apply releaseClaim_keeps.
  - by apply reclaimExpired_keeps.
  - by apply deadLetterExpired_keeps.
  - by apply completeExpired_keeps.
  - unfold retireMissedPending. destruct (negb _); [by split|]. destruct (_ <=? 0); [by split|].
    apply (update_rows_keeps _ _ _ HT). intros r Hr Hok Hp%bool_decide_eq_true.
    apply select_ids_lookup in Hp; [|done..]. row_change.
  - unfold deleteFinishedOlderThan. destruct (bool_decide _); [by split|]. destruct (negb _); [by split|].
    destruct (_ || _); [by split|]. by apply delete_rows_keeps.
Qed.

Lemma empty_tasks_ok db : TableOk (empty_tasks db).
Proof. split; simpl; intros *; by rewrite lookup_empty. Qed.
