(* ===== verification/SchedExecutor.v ===== *)
(** * Scheduler: the executor and the reaper

    [packages/@n8n/scheduler/src/core/executor] and [reaper/reap.ts]: claiming due tasks,
    holding each on a timer until its [runAt], firing it through the handler of its type,
    recording the outcome; and the sweep that recovers what a lost instance held.  Each is
    a program over the statements of [SchedStore], the host's handlers, and the state of
    its own instance.

    A handler's run is two calls: [Execute] runs it to its first [report.dispatched()] or
    to its end, [Resume] from that report to its end.  The marker's write is started by the
    report and awaited before any terminal write, so to the table it falls between the two.
    (Further reports do nothing, and [notDispatched] records nothing.)

    Code between two [await]s that touches the instance's own maps is one [Local] call.
    The hooks, which only report, are left out. *)

From stdpp Require Import base gmap strings list fin_maps.
From Stdlib Require Import ZArith Lia.
From S2P Require Import Prelude.
From S2P Require Import JsCollections.
From S2P Require Import SchedTypes.
From S2P Require Import SchedStore.

#[local] Open Scope Z_scope.

(** ** [backoff.ts] *)

Definition DEFAULT_BASE_MS : Z := 5 * seconds_toMilliseconds.
Definition DEFAULT_FACTOR : Z := 2.
Definition DEFAULT_MAX_MS : Z := 5 * minutes_toMilliseconds.

Definition backoff_with (baseMs factor maxMs attempts : Z) : Z :=
  if attempts <? 1 then 0 else Z.min (baseMs * factor ^ (attempts - 1)) maxMs.

Definition backoff (attempts : Z) : Z := backoff_with DEFAULT_BASE_MS DEFAULT_FACTOR DEFAULT_MAX_MS attempts.

(** ** [precision-timer.ts] *)

Definition MAX_DELAY_MS : Z := 2 ^ 31 - 1.

Definition timer_delay (runAt now : Z) : Z := Z.min (Z.max 0 (runAt - now)) MAX_DELAY_MS.

(** A pending timer: what its callback closes over, and the delay it was set with. *)
Record Timer := { tm_host : string; tm_task : ScheduledTask; tm_delay : Z }.

(** ** The state of one instance *)

(** The registered types, [claimedTaskById] (a [Map], by task id), the timer's pending
    set, and [stopping]. *)
Record ExecutorState := {
  x_handlers : list string;
  x_claimedTaskById : list (Z * (string * ScheduledTask));
  x_timers : list Timer;
  x_stopping : bool;
}.

Definition fresh_executor : ExecutorState :=
  {| x_handlers := []; x_claimedTaskById := []; x_timers := []; x_stopping := false |}.

(** [TaskHandlerRegistry.register]. *)
Definition register (taskType : string) (s : ExecutorState) : sresult unit * ExecutorState :=
  if bool_decide (taskType ∈ x_handlers s) then (Err (DuplicateTaskHandlerError taskType), s)
  else (Ok tt, {| x_handlers := x_handlers s ++ [taskType];
                  x_claimedTaskById := x_claimedTaskById s;
                  x_timers := x_timers s;
                  x_stopping := x_stopping s |}).

Definition scheduleClaimed (host : string) (now : Z) (task : ScheduledTask) (s : ExecutorState) : ExecutorState :=
  {| x_handlers := x_handlers s;
     x_claimedTaskById := map_set (t_id task) (host, task) (x_claimedTaskById s);
     x_timers := x_timers s ++ [{| tm_host := host; tm_task := task; tm_delay := timer_delay (t_runAt task) now |}];
     x_stopping := x_stopping s |}.

(** The loop over the claimed tasks; [clock i] is the clock's [i]th reading. *)
Definition schedule_all (host : string) (clock : nat -> Z) (tasks : list ScheduledTask) (s : ExecutorState)
  : ExecutorState :=
  foldl (fun s '(i, task) => scheduleClaimed host (clock i) task s) s (imap pair tasks).

(** The [i]th pending timer goes off: it leaves the pending set, and the task's entry goes
    before it fires. *)
Definition timer_fires (i : nat) (s : ExecutorState) : option (Timer * ExecutorState) :=
  match x_timers s !! i with
  | Some tm =>
      Some (tm, {| x_handlers := x_handlers s;
                   x_claimedTaskById := map_delete (t_id (tm_task tm)) (x_claimedTaskById s);
                   x_timers := delete i (x_timers s);
                   x_stopping := x_stopping s |})
  | None => None
  end.

(** [stop], up to its first [await]: the entries to release. *)
Definition begin_stop (s : ExecutorState) : list (string * ScheduledTask) * ExecutorState :=
  ((x_claimedTaskById s).*2,
   {| x_handlers := x_handlers s;
      x_claimedTaskById := x_claimedTaskById s;
      x_timers := [];
      x_stopping := true |}).

Definition clear_claimed (s : ExecutorState) : unit * ExecutorState :=
  (tt, {| x_handlers := x_handlers s; x_claimedTaskById := []; x_timers := x_timers s; x_stopping := x_stopping s |}).

(** ** Calls *)

(** How a handler's run ends. *)
Inductive HandlerEnd := Returned | Threw (message : string).
Inductive HandlerStep := Dispatched | Ended (e : HandlerEnd).

Inductive sop : Type :=
  | ClaimDueTasks (opts : ClaimDueTasksBatch)
  | BeginDispatch (claim : ClaimedTaskRef) (leaseMs : Z)
  | MarkDispatched (claim : ClaimedTaskRef)
  | CompleteTask (claim : ClaimedTaskRef)
  | FailTaskTerminal (claim : ClaimedTaskRef) (errorMessage : string)
  | RescheduleTask (claim : ClaimedTaskRef) (backoffMs : Z) (errorMessage : string)
  | ReleaseClaim (claim : ClaimedTaskRef)
  | FindExpiredLeases (limit : Z)
  | ReclaimExpired (ref : ExpiredLeaseRef) (backoffMs : Z) (errorMessage : string)
  | DeadLetterExpired (ref : ExpiredLeaseRef) (errorMessage : string)
  | CompleteExpired (ref : ExpiredLeaseRef)
  | RetireMissedPending (limit : Z)
  | Execute (task : ScheduledTask)
  | Resume (task : ScheduledTask)
  | Local (A : Type) (f : ExecutorState -> A * ExecutorState)
  | Aborted
  | InstanceClock
  | Pick (n : nat).

Definition sresp (o : sop) : Type :=
  match o with
  | ClaimDueTasks _ | FindExpiredLeases _ => list ScheduledTask
  | BeginDispatch _ _ | MarkDispatched _ | CompleteTask _ | FailTaskTerminal _ _ | RescheduleTask _ _ _
  | ReleaseClaim _ | ReclaimExpired _ _ _ | DeadLetterExpired _ _ | CompleteExpired _ | RetireMissedPending _ => Z
  | Execute _ => HandlerStep
  | Resume _ => HandlerEnd
  | Local A _ => A
  | Aborted => bool
  | InstanceClock => nat -> Z
  | Pick _ => nat
  end.

Notation sprog := (prog sresp SchedError).

Definition local {A} (f : ExecutorState -> A * ExecutorState) : sprog A := call (R := sresp) (Local A f).
Definition read_local {A} (f : ExecutorState -> A) : sprog A := local (fun s => (f s, s)).

(** ** The executor *)

Record ExecutorOptions := { leaseSeconds : Z; lookaheadSeconds : Z; batchSize : Z }.

Definition DEFAULT_EXECUTOR_OPTIONS : ExecutorOptions :=
  {| leaseSeconds := minutes_toSeconds; lookaheadSeconds := 5; batchSize := 100 |}.

Inductive FireResult :=
  | fire_completed
  | fire_skipped_no_handler
  | fire_skipped_not_owned (errorMessage : option string)
  | fire_rescheduled (errorMessage : string)
  | fire_dead_lettered (errorMessage : string).

Definition claim_ref (host : string) (task : ScheduledTask) : ClaimedTaskRef :=
  {| c_host := host; c_id := t_id task; c_claimedEpoch := t_leaseEpoch task |}.

Definition releaseClaimBestEffort (claim : ClaimedTaskRef) : sprog unit :=
  attempt (call (ReleaseClaim claim)) ;; Ret tt.

Section executor.
Context (options : ExecutorOptions).

Definition leaseMs : Z := leaseSeconds options * seconds_toMilliseconds.
Definition lookaheadMs : Z := lookaheadSeconds options * seconds_toMilliseconds.

Definition pick_next (n : nat) : sprog nat := call (R := sresp) (Pick n).

Definition handBackClaims (host : string) (tasks : list ScheduledTask) : sprog unit :=
  in_any_order pick_next (length tasks) (fun task => releaseClaimBestEffort (claim_ref host task)) tasks.

Definition claimAndSchedule (host : string) : sprog (list ScheduledTask) :=
  taskTypes ← read_local x_handlers;
  match taskTypes with
  | [] => Ret []
  | _ =>
      tasks ← call (ClaimDueTasks
        {| b_host := host; b_taskTypes := taskTypes; b_lookaheadMs := lookaheadMs; b_leaseMs := leaseMs;
           b_batchSize := batchSize options |});
      aborted ← call Aborted;
      clock ← call InstanceClock;
      scheduled ← local (fun s =>
        if x_stopping s || aborted then (false, s) else (true, schedule_all host clock tasks s));
      if (scheduled : bool) then Ret tasks else handBackClaims host tasks ;; Ret []
  end.

(** [dispatchMark ??= store.markDispatched(claim)], settled; a failed write is only
    reported. *)
Definition settle_mark (claim : ClaimedTaskRef) : sprog unit := attempt (call (MarkDispatched claim)) ;; Ret tt.

(** The handler's run: whether it reported [dispatched], and how it ended. *)
Definition run_handler (claim : ClaimedTaskRef) (task : ScheduledTask) : sprog (bool * HandlerEnd) :=
  first ← call (R := sresp) (Execute task);
  match first with
  | Dispatched => settle_mark claim ;; outcome ← call (R := sresp) (Resume task); Ret (true, outcome)
  | Ended outcome => Ret (false, outcome)
  end.

(** The [catch] of [handler.execute]. *)
Definition fire_failed (claim : ClaimedTaskRef) (task : ScheduledTask) (dispatched : bool) (errorMessage : string)
  : sprog FireResult :=
  let nextAttempts := t_attempts task + 1 in
  if t_maxAttempts task <=? nextAttempts then
    if dispatched then
      rowsAffected ← call (CompleteTask claim);
      if 0 <? rowsAffected then Ret fire_completed else Ret (fire_skipped_not_owned (Some errorMessage))
    else
      rowsAffected ← call (FailTaskTerminal claim errorMessage);
      if 0 <? rowsAffected then Ret (fire_dead_lettered errorMessage)
      else Ret (fire_skipped_not_owned (Some errorMessage))
  else
    rowsAffected ← call (RescheduleTask claim (backoff nextAttempts) errorMessage);
    if 0 <? rowsAffected then Ret (fire_rescheduled errorMessage)
    else Ret (fire_skipped_not_owned (Some errorMessage)).

Definition runFire (host : string) (task : ScheduledTask) : sprog FireResult :=
  let claim := claim_ref host task in
  handler ← read_local (fun s => bool_decide (t_taskType task ∈ x_handlers s));
  if negb handler then releaseClaimBestEffort claim ;; Ret fire_skipped_no_handler
  else
    won ← call (BeginDispatch claim leaseMs);
    if won =? 0 then Ret (fire_skipped_not_owned None)
    else
      '(dispatched, outcome) ← run_handler claim task;
      match outcome with
      | Threw errorMessage => fire_failed claim task dispatched errorMessage
      | Returned =>
          (if (dispatched : bool) then Ret tt else settle_mark claim) ;;
          rowsAffected ← call (CompleteTask claim);
          if 0 <? rowsAffected then Ret fire_completed else Ret (fire_skipped_not_owned None)
      end.

(** What the timer's callback runs, detached: a rejection is only reported. *)
Definition detached_fire (tm : Timer) : sprog unit := attempt (runFire (tm_host tm) (tm_task tm)) ;; Ret tt.

Definition stop : sprog unit :=
  entries ← local begin_stop;
  in_any_order pick_next (length entries)
    (fun entry => releaseClaimBestEffort (claim_ref entry.1 entry.2)) entries ;;
  local clear_claimed.
End executor.

(** ** The reaper *)

Definition LEASE_EXPIRED_MESSAGE : string := "Lease expired before completion".

Record ReapResult := { reclaimed : Z; deadLettered : Z; missed : Z }.

Definition retireStale (limit : Z) : sprog Z :=
  aborted ← call Aborted;
  if (aborted : bool) then Ret 0
  else r ← attempt (call (RetireMissedPending limit));
       Ret match r with Ok n => n | Err _ => 0 end.

Definition expired_ref (task : ScheduledTask) : ExpiredLeaseRef :=
  {| e_id := t_id task; e_claimedEpoch := t_leaseEpoch task |}.

(** One row of the sweep: the counts it adds. *)
Definition reap_row (task : ScheduledTask) : sprog (Z * Z) :=
  let nextAttempts := t_attempts task + 1 in
  match t_dispatchedAt task with
  | Some _ => call (CompleteExpired (expired_ref task)) ;; Ret (0, 0)
  | None =>
      if t_maxAttempts task <=? nextAttempts then
        affected ← call (DeadLetterExpired (expired_ref task) LEASE_EXPIRED_MESSAGE);
        Ret (0, affected)
      else
        affected ← call (ReclaimExpired (expired_ref task) (backoff nextAttempts) LEASE_EXPIRED_MESSAGE);
        Ret (affected, 0)
  end.

Fixpoint reap_rows (expired : list ScheduledTask) (acc : Z * Z) : sprog (Z * Z) :=
  match expired with
  | [] => Ret acc
  | task :: expired =>
      aborted ← call Aborted;
      if (aborted : bool) then Ret acc
      else
        r ← attempt (reap_row task);
        reap_rows expired (match r with Ok n => (acc.1 + n.1, acc.2 + n.2) | Err _ => acc end)
  end.

Definition reap (limit : Z) : sprog ReapResult :=
  missed ← retireStale limit;
  expired ← call (FindExpiredLeases limit);
  counts ← reap_rows expired (0, 0);
  Ret {| reclaimed := counts.1; deadLettered := counts.2; missed := missed |}.
