(* ===== verification/SchedWorld.v ===== *)
(** * Scheduler: instances at work together

    Any number of instances over one task table.  A step lets the database clock advance,
    runs a statement of the materializer, of provisioning or of retention, starts an
    instance, registers a handler, starts an executor tick, a sweep or the shutdown of an
    instance, lets a timer go off, answers one call of one running program, or crashes an
    instance.  A statement may fail, before or after taking effect; a program may stop at
    any call.

    [w_events] is the history of handlers: which claimed task was run, and whether that
    run reported its effect handed off. *)

From stdpp Require Import base gmap strings list fin_maps relations.
From Stdlib Require Import ZArith Lia.
From S2P Require Import Prelude.
From S2P Require Import JsCollections.
From S2P Require Import SchedTypes.
From S2P Require Import SchedStore.
From S2P Require Import SchedTable.
From S2P Require Import SchedExecutor.

#[local] Open Scope Z_scope.

(** ** What a call does to the table and may answer *)

Definition affected {A} (x : Z * A) (r : sresult Z) (d' : A) : Prop := r = Ok x.1 /\ d' = x.2.

Definition sop_db (now : Z) (o : sop) : TaskTable -> sresult (sresp o) -> TaskTable -> Prop :=
  match o as o return TaskTable -> sresult (sresp o) -> TaskTable -> Prop with
  | ClaimDueTasks opts => fun d r d' =>
      if bool_decide (b_taskTypes opts = []) then r = Ok [] /\ d' = d
      else exists ids, claim_pick opts now d ids /\
        r = Ok (claim_ids opts now ids d).1 /\ d' = (claim_ids opts now ids d).2
  | BeginDispatch claim leaseMs => fun d => affected (beginDispatch claim leaseMs now d)
  | MarkDispatched claim => fun d => affected (markDispatched claim now d)
  | CompleteTask claim => fun d => affected (completeTask claim now d)
  | FailTaskTerminal claim m => fun d => affected (failTaskTerminal claim m now d)
  | RescheduleTask claim b m => fun d => affected (rescheduleTask claim b m now d)
  | ReleaseClaim claim => fun d => affected (releaseClaim claim d)
  | FindExpiredLeases limit => fun d r d' => d' = d /\ exists l, r = Ok l /\
      Forall (fun t => rows d !! t_id t = Some t /\ lease_expired now t = true) l
  | ReclaimExpired ref b m => fun d => affected (reclaimExpired ref b m now d)
  | DeadLetterExpired ref m => fun d => affected (deadLetterExpired ref m now d)
  | CompleteExpired ref => fun d => affected (completeExpired ref now d)
  | RetireMissedPending limit => fun d r d' => exists locked, (r, d') = retireMissedPending limit locked now d
  | Execute _ => fun d r d' => (exists x, r = Ok x) /\ d' = d
  | Resume _ => fun d r d' => (exists x, r = Ok x) /\ d' = d
  | Local _ _ => fun d r d' => False
  | Aborted => fun d r d' => (exists x, r = Ok x) /\ d' = d
  | InstanceClock => fun d r d' => (exists x, r = Ok x) /\ d' = d
  | Pick _ => fun d r d' => (exists x, r = Ok x) /\ d' = d
  end.

(** The calls the database answers, which a lost connection may fail. *)
Definition is_statement (o : sop) : bool :=
  match o with
  | Execute _ | Resume _ | Local _ _ | Aborted | InstanceClock | Pick _ => false
  | _ => true
  end.

(** Statements of the materializer, of provisioning, of reconciliation, of retention. *)
Inductive job_statement (now : Z) (d : TaskTable) : TaskTable -> Prop :=
  | js_insert l chunkSize : job_statement now d (insertIgnoringDuplicates l chunkSize d).2
  | js_deletePending ids : job_statement now d (deletePendingByJobIds ids d)
  | js_cascade ids : job_statement now d (deleteByJobIds ids d)
  | js_missed superseded : job_statement now d (updateToMissed now superseded d).2
  | js_missedAfter ids grace : job_statement now d (updateMissedAfterForJobs now ids grace d)
  | js_deleteFinished o locked : job_statement now d (deleteFinishedOlderThan o locked now d).2.

(** ** Worlds *)

Inductive event :=
  | Ran (task : ScheduledTask)
  | Reported (task : ScheduledTask).

Definition events_of (o : sop) : sresult (sresp o) -> list event :=
  match o as o return sresult (sresp o) -> list event with
  | Execute task => fun r =>
      match r with Ok Dispatched => [Ran task; Reported task] | _ => [Ran task] end
  | _ => fun _ => []
  end.

Record World := {
  w_now : Z;
  w_tasks : TaskTable;
  w_instances : list ExecutorState;
  (* the running programs, each with the instance it runs on *)
  w_threads : list (nat * sprog unit);
  w_events : list event;
}.

(** [stop] from its first [await] on. *)
Definition stop_rest (entries : list (string * ScheduledTask)) : sprog unit :=
  in_any_order pick_next (length entries)
    (fun entry => releaseClaimBestEffort (claim_ref entry.1 entry.2)) entries ;;
  local clear_claimed.

(** The passes the loops of an instance drive.  (The scheduler stops an executor once:
    [factory.ts] keeps the one teardown in [stopping].) *)
Inductive pass : sprog unit -> Prop :=
  | pass_claim options host : pass (attempt (claimAndSchedule options host) ;; Ret tt)
  | pass_reap limit : pass (attempt (reap limit) ;; Ret tt).

Inductive wstep : World -> World -> Prop :=
  | ws_clock now now' d xs ps evs :
      now <= now' ->
      wstep (Build_World now d xs ps evs) (Build_World now' d xs ps evs)
  | ws_jobs now d d' xs ps evs :
      job_statement now d d' ->
      wstep (Build_World now d xs ps evs) (Build_World now d' xs ps evs)
  | ws_start now d xs ps evs :
      wstep (Build_World now d xs ps evs) (Build_World now d (xs ++ [fresh_executor]) ps evs)
  | ws_register now d xs1 s xs2 ps evs taskType :
      wstep (Build_World now d (xs1 ++ s :: xs2) ps evs)
            (Build_World now d (xs1 ++ (register taskType s).2 :: xs2) ps evs)
  | ws_pass now d xs ps evs i p :
      (i < length xs)%nat -> pass p ->
      wstep (Build_World now d xs ps evs) (Build_World now d xs (ps ++ [(i, p)]) evs)
  | ws_timer now d xs1 s xs2 ps evs options j tm s' :
      timer_fires j s = Some (tm, s') ->
      wstep (Build_World now d (xs1 ++ s :: xs2) ps evs)
            (Build_World now d (xs1 ++ s' :: xs2) (ps ++ [(length xs1, detached_fire options tm)]) evs)
  | ws_stop now d xs1 s xs2 ps evs :
      x_stopping s = false ->
      wstep (Build_World now d (xs1 ++ s :: xs2) ps evs)
            (Build_World now d (xs1 ++ (begin_stop s).2 :: xs2)
              (ps ++ [(length xs1, stop_rest (begin_stop s).1)]) evs)
  | ws_local now d xs1 s xs2 ps1 ps2 evs A (f : ExecutorState -> A * ExecutorState) k :
      wstep (Build_World now d (xs1 ++ s :: xs2) (ps1 ++ (length xs1, Call (Local A f) k) :: ps2) evs)
            (Build_World now d (xs1 ++ (f s).2 :: xs2) (ps1 ++ (length xs1, k (Ok (f s).1)) :: ps2) evs)
  | ws_call now d d' xs ps1 ps2 evs i o k r :
      sop_db now o d r d' ->
      wstep (Build_World now d xs (ps1 ++ (i, Call o k) :: ps2) evs)
            (Build_World now d' xs (ps1 ++ (i, k r) :: ps2) (evs ++ events_of o r))
  | ws_call_lost now d d' xs ps1 ps2 evs i o k r err :
      is_statement o = true -> sop_db now o d r d' ->
      wstep (Build_World now d xs (ps1 ++ (i, Call o k) :: ps2) evs)
            (Build_World now d' xs (ps1 ++ (i, k (Err err)) :: ps2) evs)
  | ws_call_fails now d xs ps1 ps2 evs i o k err :
      is_statement o = true ->
      wstep (Build_World now d xs (ps1 ++ (i, Call o k) :: ps2) evs)
            (Build_World now d xs (ps1 ++ (i, k (Err err)) :: ps2) evs)
  | ws_drop now d xs ps1 ps2 evs th :
      wstep (Build_World now d xs (ps1 ++ th :: ps2) evs) (Build_World now d xs (ps1 ++ ps2) evs)
  | ws_crash now d xs1 s xs2 ps evs :
      wstep (Build_World now d (xs1 ++ s :: xs2) ps evs)
            (Build_World now d (xs1 ++ fresh_executor :: xs2) (filter (fun th => th.1 <> length xs1) ps) evs).

Definition initial (db : Dialect) (now : Z) : World := Build_World now (empty_tasks db) [] [] [].

Definition reachable_world (w : World) : Prop := exists db now, rtc wstep (initial db now) w.

(** The database is one that never gives an id twice. *)
Definition on_postgres (w : World) : Prop := dialect (w_tasks w) = Postgres.

(** ** The table evolves *)

Lemma job_statement_statement (now : Z) (d d' : TaskTable) : job_statement now d d' -> statement now d d'.
Proof.
  intros [l n|ids|ids|sup|ids g|o lk].
  - apply st_insert.
  - apply st_deletePending.
  - apply st_cascade.
  - apply st_missed.
  - apply st_missedAfter.
  - apply st_deleteFinished.
Qed.

Lemma sop_db_statement (now : Z) (o : sop) (d : TaskTable) (r : sresult (sresp o)) (d' : TaskTable) :
  sop_db now o d r d' -> d' = d \/ statement now d d'.
Proof.
  destruct o as [o|c l|c|c|c m|c b m|c|n|f b m|f m|f|n|t|t|A f| | |n]; simpl; intros H.
  - case_bool_decide; [left; tauto|]. right. destruct H as (ids & Hp & _ & ->). by apply st_claim.
  - right. destruct H as [_ ->]. apply st_begin.
  - right. destruct H as [_ ->]. apply st_mark.
  - right. destruct H as [_ ->]. apply st_complete.
  - right. destruct H as [_ ->]. apply st_fail.
  - right. destruct H as [_ ->]. apply st_reschedule.
  - right. destruct H as [_ ->]. apply st_release.
  - left. tauto.
  - right. destruct H as [_ ->]. apply st_reclaim.
  - right. destruct H as [_ ->]. apply st_deadLetter.
  - right. destruct H as [_ ->]. apply st_completeExpired.
  - right. destruct H as [lk H]. apply (f_equal snd) in H. simpl in H. subst d'. apply st_retire.
  - left. tauto.
  - left. tauto.
  - done.
  - left. tauto.
  - left. tauto.
  - left. tauto.
Qed.

Lemma sop_db_keeps (now : Z) (o : sop) (d : TaskTable) (r : sresult (sresp o)) (d' : TaskTable) :
  TableOk d -> sop_db now o d r d' -> keeps d d'.
Proof. intros HT [->|Hs]%sop_db_statement; [by split|]. by eapply statement_keeps. Qed.

Lemma wstep_keeps (w w' : World) : TableOk (w_tasks w) -> wstep w w' -> keeps (w_tasks w) (w_tasks w').
Proof.
  intros HT Hs. destruct Hs; simpl in *; try (by split); eauto using sop_db_keeps, statement_keeps, job_statement_statement.
Qed.

Lemma wsteps_keep (w w' : World) : TableOk (w_tasks w) -> rtc wstep w w' -> keeps (w_tasks w) (w_tasks w').
Proof.
  intros HT Hs. induction Hs as [w|w1 w2 w3 H12 _ IH]; [by split|].
  destruct (wstep_keeps w1 w2 HT H12) as [HT2 He]. eapply keeps_trans; [by split|auto].
Qed.

Lemma reachable_table (w : World) : reachable_world w -> TableOk (w_tasks w).
Proof. intros (db & now & Hr). by destruct (wsteps_keep (initial db now) w (empty_tasks_ok db) Hr). Qed.
