(* ===== verification/SchedOnce.v ===== *)
(** * Scheduler: who may run what

    A claim of a row under an epoch, a token [(id, epoch)], gives one permit to fire it:
    held by the program that claimed, then by the timer, then by the program the timer
    started, which gives it up when [beginDispatch] answers: for the permit to run the
    handler when it won.  Permits are never shared; what a program has read about a token
    ([Seen], [Begun]) stays true whatever the others do.

    [wp] is a weakest precondition over programs: the calls [p] makes are allowed by the
    permits and facts held.  [Glob] is the invariant that ties permits and the history of
    handlers to the table, with the count of runs that bounds retries. *)

From stdpp Require Import base gmap strings list fin_maps relations.
From Stdlib Require Import ZArith Lia.
From S2P Require Import Prelude.
From S2P Require Import JsCollections.
From S2P Require Import SchedTypes.
From S2P Require Import SchedStore.
From S2P Require Import SchedTable.
From S2P Require Import SchedExecutor.
From S2P Require Import SchedWorld.

#[local] Open Scope Z_scope.

Notation token := (Z * Z)%type.

Definition task_tok (t : ScheduledTask) : token := (t_id t, t_leaseEpoch t).
Definition claim_tok (c : ClaimedTaskRef) : token := (c_id c, c_claimedEpoch c).
Definition ref_tok (f : ExpiredLeaseRef) : token := (e_id f, e_claimedEpoch f).

Inductive permit := MayFire (tok : token) | MayRun (tok : token).
Inductive fact := Seen (tok : token) (attempts maxAttempts : Z) | Begun (tok : token).

#[export] Instance permit_eq_dec : EqDecision permit.
Proof. solve_decision. Defined.

Definition permit_tok (p : permit) : token := match p with MayFire tok | MayRun tok => tok end.
Definition may_fire (t : ScheduledTask) : permit := MayFire (task_tok t).
Definition seen (t : ScheduledTask) : fact := Seen (task_tok t) (t_attempts t) (t_maxAttempts t).

(** ** What holds of a token

    [P] holds of the row as long as it still runs under the token's epoch.  A token only
    means something where ids are not given again. *)
Definition at_tok (d : TaskTable) (tok : token) (P : ScheduledTask -> Prop) : Prop :=
  dialect d = Postgres /\ tok.1 < nextTaskId d /\
  forall r, rows d !! tok.1 = Some r ->
    tok.2 <= t_leaseEpoch r /\ (t_leaseEpoch r = tok.2 -> t_status r = Running -> P r).

Lemma at_tok_later (d d' : TaskTable) (tok : token) (P : ScheduledTask -> Prop) :
  evolves d d' -> at_tok d tok P ->
  (forall r r', rows d !! tok.1 = Some r -> rows d' !! tok.1 = Some r' -> row_evolves r r' ->
     t_status r' = Running -> t_leaseEpoch r' = t_leaseEpoch r -> t_leaseEpoch r = tok.2 -> P r -> P r') ->
  at_tok d' tok P.
Proof.
  intros [Hdb' Hn Hrow] (Hdb & Hlt & H) HP. split; [congruence|]. split; [lia|].
  intros r' Hr'. destruct (Hrow Hdb _ _ Hr' Hlt) as (r & Hr & E). destruct (H _ Hr) as [Hle HPr].
  pose proof (ev_epoch _ _ E). split; [lia|]. intros He Hs.
  destruct (ev_running _ _ E) as (? & ? & ?); [done|lia|]. apply (HP r r'); try done; [lia..|]. apply HPr; [lia|done].
Qed.

Definition fact_ok (born : Z -> Z) (d : TaskTable) (f : fact) : Prop :=
  match f with
  | Seen tok a m => at_tok d tok (fun r => t_attempts r = a) /\ born tok.1 = m
  | Begun tok => at_tok d tok (fun r => t_startedAt r <> None)
  end.

Definition permit_ok (d : TaskTable) (p : permit) : Prop :=
  match p with
  | MayFire tok => at_tok d tok (fun r => t_startedAt r = None)
  | MayRun tok => at_tok d tok (fun r => t_startedAt r <> None)
  end.

Lemma begun_later (d d' : TaskTable) (tok : token) :
  evolves d d' -> at_tok d tok (fun r => t_startedAt r <> None) -> at_tok d' tok (fun r => t_startedAt r <> None).
Proof. intros Hev H. eapply at_tok_later; [done..|]. intros r r' _ _ E Hs He _. apply (ev_running _ _ E Hs He). Qed.

Lemma fact_later (born : Z -> Z) (d d' : TaskTable) (f : fact) : evolves d d' -> fact_ok born d f -> fact_ok born d' f.
Proof.
  intros Hev. destruct f as [tok a m|tok]; simpl; [|by apply begun_later].
  intros [H Hb]. split; [|done]. eapply at_tok_later; [done..|].
  intros r r' _ _ E Hs He _ Ha. destruct (ev_running _ _ E Hs He) as (_ & -> & _). done.
Qed.

Lemma facts_later (born : Z -> Z) (d d' : TaskTable) (kn : list fact) :
  evolves d d' -> Forall (fact_ok born d) kn -> Forall (fact_ok born d') kn.
Proof. intros Hev H. eapply Forall_impl; [done|]. intros f. by apply fact_later. Qed.

(** ** The rule of each call *)

Definition exec_ok (s : ExecutorState) : Prop :=
  if x_stopping s then x_timers s = []
  else NoDup (x_claimedTaskById s).*1 /\
    forall id host task, (id, (host, task)) ∈ x_claimedTaskById s ->
      id = t_id task /\ exists tm, tm ∈ x_timers s /\ tm_host tm = host /\ tm_task tm = task.

Definition held (s : ExecutorState) : list permit := (fun tm => may_fire (tm_task tm)) <$> x_timers s.

Notation post A := (A -> list fact -> list permit -> Prop).

Definition wp_call (o : sop) (kn : list fact) (ps : list permit) : post (sresult (sresp o)) -> Prop :=
  match o as o return post (sresult (sresp o)) -> Prop with
  | ClaimDueTasks _ => fun Q =>
      (forall ts, Q (Ok ts) ((seen <$> ts) ++ kn) ((may_fire <$> ts) ++ ps)) /\ forall err, Q (Err err) kn ps
  | BeginDispatch c _ => fun Q => exists ps', ps ≡ₚ MayFire (claim_tok c) :: ps' /\
      (forall n, n <> 0 -> Q (Ok n) (Begun (claim_tok c) :: kn) (MayRun (claim_tok c) :: ps')) /\
      Q (Ok 0) kn ps' /\ forall err, Q (Err err) kn ps'
  | RescheduleTask c _ _ => fun Q =>
      (exists a m, Seen (claim_tok c) a m ∈ kn /\ a + 1 < m) /\ forall r, Q r kn ps
  | ReleaseClaim c => fun Q => exists ps', ps ≡ₚ MayFire (claim_tok c) :: ps' /\ forall r, Q r kn ps'
  | FindExpiredLeases _ => fun Q => (forall ts, Q (Ok ts) ((seen <$> ts) ++ kn) ps) /\ forall err, Q (Err err) kn ps
  | ReclaimExpired f _ _ => fun Q =>
      (exists a m, Seen (ref_tok f) a m ∈ kn /\ a + 1 < m) /\ forall r, Q r kn ps
  | Execute t => fun Q => exists ps' a, ps ≡ₚ MayRun (task_tok t) :: ps' /\
      Seen (task_tok t) a (t_maxAttempts t) ∈ kn /\ forall r, Q r kn ps'
  | Local A f => fun Q => forall s, exec_ok s -> exec_ok (f s).2 /\ exists ps',
      held (f s).2 ++ ps' ⊆+ held s ++ ps /\
      (forall tm, tm ∈ x_timers (f s).2 -> tm ∈ x_timers s \/ seen (tm_task tm) ∈ kn) /\
      Q (Ok (f s).1) kn ps'
  | _ => fun Q => forall r, Q r kn ps
  end.

Fixpoint wp {A} (p : sprog A) (kn : list fact) (ps : list permit) (Q : post (sresult A)) : Prop :=
  match p with
  | Ret a => Q (Ok a) kn ps
  | Throw e => Q (Err e) kn ps
  | Call o k => wp_call o kn ps (fun r kn ps => wp (k r) kn ps Q)
  end.

Lemma wp_call_mono (o : sop) kn ps (Q Q' : post (sresult (sresp o))) :
  (forall r kn ps, Q r kn ps -> Q' r kn ps) -> wp_call o kn ps Q -> wp_call o kn ps Q'.
Proof.
  intros HQ. destruct o; simpl; naive_solver.
Qed.

Lemma wp_mono {A} (p : sprog A) kn ps (Q Q' : post (sresult A)) :
  (forall r kn ps, Q r kn ps -> Q' r kn ps) -> wp p kn ps Q -> wp p kn ps Q'.
Proof.
  intros HQ. revert kn ps. induction p as [a|e|o k IH]; intros kn ps; simpl; [auto..|].
  apply wp_call_mono. intros r kn' ps'. apply IH.
Qed.

Lemma wp_bind {A B} (p : sprog A) (f : A -> sprog B) kn ps (Q : post (sresult B)) :
  wp p kn ps (fun r kn ps => match r with Ok a => wp (f a) kn ps Q | Err e => Q (Err e) kn ps end) ->
  wp (p ≫= f) kn ps Q.
Proof.
  change (p ≫= f) with (prog_bind p f). revert kn ps.
  induction p as [a|e|o k IH]; intros kn ps; simpl; [done..|].
  apply wp_call_mono. intros r kn' ps'. apply IH.
Qed.

Lemma wp_attempt {A} (p : sprog A) kn ps (Q : post (sresult (sresult A))) :
  wp p kn ps (fun r => Q (Ok r)) -> wp (attempt p) kn ps Q.
Proof.
  revert kn ps. induction p as [a|e|o k IH]; intros kn ps; simpl; [done..|].
  apply wp_call_mono. intros r kn' ps'. apply IH.
Qed.

Lemma wp_call_lift (o : sop) kn ps (Q : post (sresult (sresp o))) :
  wp_call o kn ps Q -> wp (call o) kn ps Q.
Proof. simpl. apply wp_call_mono. by intros [a|e]. Qed.

Notation done_post := (fun _ _ _ => True).

(** ** Every program keeps to its permits *)

(** A call that answers without touching permits. *)
Ltac wp_free := apply wp_bind, wp_call_lift; simpl.

Lemma wp_release (claim : ClaimedTaskRef) kn ps ps' Q :
  ps ≡ₚ MayFire (claim_tok claim) :: ps' ->
  (forall r, Q r kn ps') -> wp (releaseClaimBestEffort claim) kn ps Q.
Proof.
  intros Hps HQ. unfold releaseClaimBestEffort. apply wp_bind, wp_attempt, wp_call_lift. simpl.
  exists ps'. split; [done|]. intros r. apply HQ.
Qed.

(** Releases of distinct claims, in any order. *)
Lemma wp_release_all {A} (claim_of : A -> ClaimedTaskRef) (l : list A) fuel kn ps Q :
  ps ≡ₚ (fun x => MayFire (claim_tok (claim_of x))) <$> l ->
  (forall r ps, Q r kn ps) ->
  wp (in_any_order pick_next fuel (fun x => releaseClaimBestEffort (claim_of x)) l) kn ps Q.
Proof.
  intros Hps HQ. revert l ps Hps. induction fuel as [|fuel IH]; intros l ps Hps; [apply HQ|].
  destruct l as [|x0 l0]; [apply HQ|]. cbn [in_any_order]. remember (x0 :: l0) as l eqn:Hl. clear Hl.
  apply wp_bind, wp_call_lift. simpl. intros [i|err]; [|apply HQ].
  destruct (l !! (i mod length l)%nat) as [x|] eqn:Hx; [|apply HQ].
  apply wp_bind, (wp_release _ _ _ ((fun x => MayFire (claim_tok (claim_of x))) <$> delete (i mod length l)%nat l)).
  - by rewrite Hps, (delete_Permutation l _ x Hx) at 1.
  - intros [[]|err]; [|apply HQ]. by apply IH.
Qed.

(** *** The instance's own state *)

Lemma held_schedule_all host clock tasks s :
  held (schedule_all host clock tasks s) = held s ++ (may_fire <$> tasks).
Proof.
  unfold schedule_all. generalize 0%nat as n. revert clock s.
  assert (H : forall clock n s, held (foldl (fun s '(i, task) => scheduleClaimed host (clock i) task s) s
     (imap (fun i t => ((n + i)%nat, t)) tasks)) = held s ++ (may_fire <$> tasks)).
  { induction tasks as [|t tasks IH]; intros clock n s; simpl; [by rewrite app_nil_r|].
    rewrite (imap_ext _ (fun i t => ((S n + i)%nat, t))).
    - rewrite IH. unfold held. simpl. rewrite fmap_app. simpl. by rewrite <-app_assoc.
    - intros i x _. simpl. f_equal. lia. }
  intros clock s n. apply (H clock 0%nat s).
Qed.

Lemma exec_ok_scheduleClaimed host now task s :
  x_stopping s = false -> exec_ok s ->
  exec_ok (scheduleClaimed host now task s) /\ x_stopping (scheduleClaimed host now task s) = false.
Proof.
  intros Hst. unfold exec_ok. simpl. rewrite Hst. intros [Hnd H]. split; [|done].
  split; [by apply map_set_NoDup|].
  intros id h t Hin. rewrite elem_of_map_set in Hin by done. destruct Hin as [[= -> -> ->]|[_ Hin]].
  - split; [done|]. eexists. split; [apply elem_of_app; right; by apply list_elem_of_singleton|done].
  - destruct (H _ _ _ Hin) as (? & tm & ? & ?). split; [done|]. exists tm. split; [|done]. apply elem_of_app. by left.
Qed.

Lemma exec_ok_schedule_all host clock tasks s :
  x_stopping s = false -> exec_ok s -> exec_ok (schedule_all host clock tasks s).
Proof.
  intros Hst Hok. unfold schedule_all. revert s Hst Hok. generalize (imap pair tasks). intros l.
  induction l as [|[i t] l IH]; intros s Hst Hok; simpl; [done|].
  destruct (exec_ok_scheduleClaimed host (clock i) t s Hst Hok). by apply IH.
Qed.

Lemma timers_schedule_all host clock tasks s tm :
  tm ∈ x_timers (schedule_all host clock tasks s) -> tm ∈ x_timers s \/ tm_task tm ∈ tasks.
Proof.
  unfold schedule_all.
  assert (H : forall l, (forall x, x ∈ l -> x.2 ∈ tasks) -> forall s,
    tm ∈ x_timers (foldl (fun s '(i, task) => scheduleClaimed host (clock i) task s) s l) ->
    tm ∈ x_timers s \/ tm_task tm ∈ tasks).
  { induction l as [|[i t] l IH]; intros Hl s0; simpl; [by left|].
    intros [Hin|Hin]%IH; [|by right|set_solver]. simpl in Hin. apply elem_of_app in Hin as [Hin|Hin%list_elem_of_singleton]; [by left|].
    right. subst tm. simpl. by apply (Hl (i, t)); left. }
  apply H. intros [i x] Hin. apply elem_of_lookup_imap in Hin as (j & y & [= -> ->] & Hj). by apply list_elem_of_lookup_2 in Hj.
Qed.

Lemma wp_read_local {A} (f : ExecutorState -> A) kn ps Q :
  (forall s, Q (Ok (f s)) kn ps) -> wp (read_local f) kn ps Q.
Proof.
  intros HQ. unfold read_local, local. apply wp_call_lift. simpl. intros s Hs. split; [done|].
  exists ps. split_and!; [done|by left|done].
Qed.

(** *** The programs *)

Lemma wp_claimAndSchedule options host :
  wp (claimAndSchedule options host) [] [] done_post.
Proof.
  unfold claimAndSchedule. apply wp_bind, wp_read_local. intros s0.
  destruct (x_handlers s0) as [|ty tys]; [done|].
  apply wp_bind, wp_call_lift. split; [|done]. intros ts.
  apply wp_bind, wp_call_lift. intros [aborted|err]; [|done].
  apply wp_bind, wp_call_lift. intros [clock|err]; [|done].
  apply wp_bind. unfold local. apply wp_call_lift. intros s Hs. rewrite !app_nil_r.
  destruct (x_stopping s) eqn:Hst; [|destruct aborted].
  1,2: split; [done|]; exists (may_fire <$> ts); split_and!; [done|by left|]; simpl;
    apply wp_bind, (wp_release_all (claim_ref host)); [done|by intros [[]|?] ?].
  simpl. split; [by apply exec_ok_schedule_all|]. exists []. rewrite held_schedule_all, app_nil_r. split_and!; [done| |done].
  intros tm [?|Hin]%timers_schedule_all; [by left|]. right. apply list_elem_of_fmap. eauto.
Qed.

Lemma wp_stop_rest (entries : list (string * ScheduledTask)) kn :
  wp (stop_rest entries) kn ((fun e => may_fire e.2) <$> entries) done_post.
Proof.
  unfold stop_rest. apply wp_bind.
  apply (wp_mono _ _ _ (fun r kn ps => match r with Ok _ => wp (local clear_claimed) kn ps done_post | Err _ => True end)).
  { by intros [[]|?]. }
  apply (wp_release_all (fun e : string * ScheduledTask => claim_ref e.1 e.2)); [done|].
  intros [[]|err] ps; [|done]. unfold local. apply wp_call_lift. intros s Hs. split.
  - unfold exec_ok in *. simpl. destruct (x_stopping s); [done|]. split; [by apply NoDup_nil_2|]. intros * Hin. inversion Hin.
  - exists ps. split_and!; [done|by left|done].
Qed.

Lemma wp_settle_mark claim kn ps Q : (forall r, Q r kn ps) -> wp (settle_mark claim) kn ps Q.
Proof. intros HQ. unfold settle_mark. apply wp_bind, wp_attempt, wp_call_lift. intros r. apply HQ. Qed.

Lemma wp_fire_failed host task dispatched m kn ps :
  seen task ∈ kn -> wp (fire_failed (claim_ref host task) task dispatched m) kn ps done_post.
Proof.
  intros Hkn. unfold fire_failed. destruct (t_maxAttempts task <=? t_attempts task + 1) eqn:Hm.
  - destruct dispatched; apply wp_bind, wp_call_lift; simpl; intros [n|err]; try done; by destruct (0 <? n).
  - apply Z.leb_gt in Hm. apply wp_bind, wp_call_lift. split; [exists (t_attempts task), (t_maxAttempts task); by split|].
    intros [n|err]; [|done]. by destruct (0 <? n).
Qed.

Lemma wp_runFire options host task kn :
  seen task ∈ kn -> wp (runFire options host task) kn [may_fire task] done_post.
Proof.
  intros Hkn. unfold runFire. apply wp_bind, wp_read_local. intros s0.
  destruct (negb _).
  { apply wp_bind, (wp_release _ _ _ []); [done|]. by intros [[]|?]. }
  apply wp_bind, wp_call_lift. exists []. split; [done|]. split_and!; [|done|done].
  intros n Hn. destruct (n =? 0) eqn:Hn0; [by apply Z.eqb_eq in Hn0|].
  apply wp_bind. unfold run_handler.
  assert (Hend : forall r : sresult (bool * HandlerEnd), match r with
    | Ok a => wp (let '(dispatched, outcome) := a in
        match outcome with
        | Returned => (if (dispatched : bool) then Ret tt else settle_mark (claim_ref host task)) ;;
            rowsAffected ← call (CompleteTask (claim_ref host task));
            if 0 <? rowsAffected then Ret fire_completed else Ret (fire_skipped_not_owned None)
        | Threw errorMessage => fire_failed (claim_ref host task) task dispatched errorMessage
        end) (Begun (claim_tok (claim_ref host task)) :: kn) [] done_post
    | Err _ => True end).
  { intros [[dispatched [|m]]|err]; [| |done].
    - apply wp_bind.
      assert (H2 : forall r : sresult unit, match r with
        | Ok _ => wp (rowsAffected ← call (CompleteTask (claim_ref host task));
            if 0 <? rowsAffected then Ret fire_completed else Ret (fire_skipped_not_owned None))
            (Begun (claim_tok (claim_ref host task)) :: kn) [] done_post
        | Err _ => True end).
      { intros [?|?]; [|done]. apply wp_bind, wp_call_lift. intros [k|err]; [|done]. by destruct (0 <? k). }
      destruct dispatched; [apply (H2 (Ok tt))|apply wp_settle_mark; apply H2].
    - apply wp_fire_failed. by right. }
  apply wp_bind, wp_call_lift. exists [], (t_attempts task). split_and!; [done|by right|].
  intros [[|o]|err]; [|apply (Hend (Ok (false, o)))|done].
  apply wp_bind, wp_settle_mark. intros [[]|err]; [|done].
  apply wp_bind, wp_call_lift. intros [o|err]; [|done]. apply (Hend (Ok (true, o))).
Qed.

Lemma wp_reap_rows (expired : list ScheduledTask) acc kn :
  (forall t, t ∈ expired -> seen t ∈ kn) -> wp (reap_rows expired acc) kn [] done_post.
Proof.
  revert acc. induction expired as [|t l IH]; intros acc Hkn; [done|]. cbn [reap_rows].
  apply wp_bind, wp_call_lift. intros [[]|err]; [done| |done].
  apply wp_bind, wp_attempt.
  assert (Hnext : forall r : sresult (Z * Z), wp (reap_rows l match r with
    | Ok n => (acc.1 + n.1, acc.2 + n.2) | Err _ => acc end) kn [] done_post).
  { intros r. apply IH. intros t' Ht'. apply Hkn. by right. }
  unfold reap_row. destruct (t_dispatchedAt t).
  { apply wp_bind, wp_call_lift. intros [n|err]; [apply (Hnext (Ok (0, 0)))|apply (Hnext (Err err))]. }
  destruct (t_maxAttempts t <=? t_attempts t + 1) eqn:Hm.
  { apply wp_bind, wp_call_lift. intros [n|err]; [apply (Hnext (Ok (0, n)))|apply (Hnext (Err err))]. }
  apply Z.leb_gt in Hm. apply wp_bind, wp_call_lift. split.
  - exists (t_attempts t), (t_maxAttempts t). split; [|done]. apply Hkn. by left.
  - intros [n|err]; [apply (Hnext (Ok (n, 0)))|apply (Hnext (Err err))].
Qed.

Lemma wp_reap limit : wp (reap limit) [] [] done_post.
Proof.
  unfold reap. apply wp_bind. unfold retireStale. apply wp_bind, wp_call_lift.
  assert (Hrest : forall n : Z, wp (expired ← call (FindExpiredLeases limit);
     counts ← reap_rows expired (0, 0);
     Ret {| reclaimed := counts.1; deadLettered := counts.2; missed := n |}) [] [] done_post).
  { intros n. apply wp_bind, wp_call_lift. split; [|done]. intros ts. rewrite app_nil_r.
    apply wp_bind. eapply wp_mono; [|apply wp_reap_rows].
    - by intros [?|?].
    - intros t Ht. apply list_elem_of_fmap. eauto. }
  intros [[]|err]; [apply Hrest| |done].
  apply wp_bind, wp_attempt, wp_call_lift. intros r. apply Hrest.
Qed.

Lemma wp_pass (p : sprog unit) : pass p -> wp p [] [] done_post.
Proof.
  intros [options host|limit]; apply wp_bind, wp_attempt; (eapply wp_mono; [|first [apply wp_claimAndSchedule|apply wp_reap]]); done.
Qed.

Lemma wp_detached_fire options tm kn :
  seen (tm_task tm) ∈ kn -> wp (detached_fire options tm) kn [may_fire (tm_task tm)] done_post.
Proof. intros Hkn. apply wp_bind, wp_attempt. eapply wp_mono; [|by apply wp_runFire]. done. Qed.
