(* ===== verification/SchedInv.v ===== *)
(** * Scheduler: the invariant of the instances

    [Glob born d L evs]: over the table [d], the permits [L] held anywhere (by programs and
    timers) and the history [evs] are consistent: no token has two permits or was run
    besides, and the number of runs of a row is covered by its counted attempts plus the
    one in progress.  [born] is the [maxAttempts] a row was inserted with.

    Every call a program may make ([wp]) keeps it, and so does every step of a world
    ([WInv]). *)

From stdpp Require Import base gmap strings list fin_maps relations.
From Stdlib Require Import ZArith Lia.
From S2P Require Import Prelude.
From S2P Require Import JsCollections.
From S2P Require Import SchedTypes.
From S2P Require Import SchedStore.
From S2P Require Import SchedTable.
From S2P Require Import SchedExecutor.
From S2P Require Import SchedWorld.
From S2P Require Import SchedOnce.

#[local] Open Scope Z_scope.

(** The tasks whose handler was run, oldest first. *)
Definition ran (evs : list event) : list ScheduledTask :=
  omap (fun e => match e with Ran t => Some t | Reported _ => None end) evs.

Definition run_toks (L : list permit) : list token :=
  omap (fun p => match p with MayRun tok => Some tok | MayFire _ => None end) L.

(** Runs of the row [id], made or allowed. *)
Definition runs_of (id : Z) (L : list permit) (evs : list event) : Z :=
  Z.of_nat (length (filter (fun tok : token => tok.1 = id) (run_toks L ++ (task_tok <$> ran evs)))).

Definition budget (r : ScheduledTask) (c : Z) : Prop :=
  match t_status r with
  | Pending => c <= t_attempts r /\ (t_attempts r = 0 \/ t_attempts r < t_maxAttempts r)
  | Running => c <= t_attempts r + (if decide (t_startedAt r = None) then 0 else 1) /\
      (t_attempts r = 0 \/ t_attempts r < t_maxAttempts r)
  | _ => c <= Z.max 1 (t_maxAttempts r)
  end.

Record Glob (born : Z -> Z) (d : TaskTable) (L : list permit) (evs : list event) : Prop := {
  gl_table : TableOk d;
  gl_born : forall id r, rows d !! id = Some r -> t_maxAttempts r = born id;
  gl_unique : NoDup ((permit_tok <$> L) ++ (task_tok <$> ran evs));
  gl_permits : Forall (permit_ok d) L;
  gl_runs : Forall (fun t => at_tok d (task_tok t) (fun r => t_startedAt r <> None) /\
                             born (t_id t) = t_maxAttempts t) (ran evs);
  gl_bound : forall id, runs_of id L evs <= Z.max 1 (born id);
  gl_budget : forall id r, rows d !! id = Some r -> budget r (runs_of id L evs);
  gl_ids : dialect d = Postgres;
}.

(** ** Accounting *)

Lemma run_toks_app L L' : run_toks (L ++ L') = run_toks L ++ run_toks L'.
Proof. unfold run_toks. by rewrite omap_app. Qed.

Lemma ran_app evs evs' : ran (evs ++ evs') = ran evs ++ ran evs'.
Proof. unfold ran. by rewrite omap_app. Qed.

#[export] Instance run_toks_Permutation : Proper ((≡ₚ) ==> (≡ₚ)) run_toks.
Proof.
  intros L L' H. unfold run_toks. induction H as [|[t|t] l l' _ IH|[t|t] [t'|t'] l|l1 l2 l3 _ IH1 _ IH2]; simpl;
    try done; try (by constructor); by rewrite IH1.
Qed.

Lemma run_toks_sub L L' : L ⊆+ L' -> run_toks L ⊆+ run_toks L'.
Proof.
  intros H. apply submseteq_Permutation in H as [L2 ->]. rewrite run_toks_app. by apply submseteq_inserts_r.
Qed.

Lemma runs_of_sub id L L' evs : L ⊆+ L' -> runs_of id L evs <= runs_of id L' evs.
Proof.
  intros H%run_toks_sub. unfold runs_of. apply inj_le, submseteq_length.
  rewrite !filter_app. apply submseteq_app; [|done]. apply submseteq_Permutation in H as [k ->].
  rewrite filter_app. by apply submseteq_inserts_r.
Qed.

Lemma budget_le r c c' : c' <= c -> budget r c -> budget r c'.
Proof. unfold budget. destruct (t_status r); lia. Qed.

(** Permits may be given up. *)
Lemma glob_sub born d L L' evs : L' ⊆+ L -> Glob born d L evs -> Glob born d L' evs.
Proof.
  intros Hsub [H1 H2 H3 H4 H5 H6 H7 H8]. split; try done.
  - eapply submseteq_NoDup; [|exact H3]. apply submseteq_app; [by apply submseteq_fmap|done].
  - rewrite Forall_forall in H4 |- *. intros p Hp. apply H4. by eapply elem_of_submseteq.
  - intros id. pose proof (runs_of_sub id L' L evs Hsub). specialize (H6 id). lia.
  - intros id r Hr. eapply budget_le; [by apply runs_of_sub|by apply H7].
Qed.

Lemma glob_perm born d L L' evs : L ≡ₚ L' -> Glob born d L evs -> Glob born d L' evs.
Proof. intros Hp. apply glob_sub. by rewrite Hp. Qed.

(** ** Statements that change no permit *)

(** Rows present before and after, and how they change; rows that are new. *)
Record quiet (d d' : TaskTable) : Prop := {
  qu_keeps : keeps d d';
  qu_rows : forall id r', rows d' !! id = Some r' -> exists r, rows d !! id = Some r;
  qu_unstarted : forall id r r', rows d !! id = Some r -> rows d' !! id = Some r' ->
    t_status r' = Running -> t_leaseEpoch r' = t_leaseEpoch r -> t_startedAt r = None -> t_startedAt r' = None;
}.

Lemma mayfire_later d d' tok :
  quiet d d' -> at_tok d tok (fun r => t_startedAt r = None) -> at_tok d' tok (fun r => t_startedAt r = None).
Proof.
  intros Hq H. eapply at_tok_later; [apply (qu_keeps _ _ Hq)|done|].
  intros r r' Hr Hr' _ Hs He _. by apply (qu_unstarted _ _ Hq _ _ _ Hr Hr').
Qed.

Lemma glob_quiet born d d' L evs :
  Glob born d L evs -> quiet d d' ->
  (forall id r r', rows d !! id = Some r -> rows d' !! id = Some r' ->
     budget r (runs_of id L evs) -> budget r' (runs_of id L evs)) ->
  Glob born d' L evs.
Proof.
  intros [H1 H2 H3 H4 H5 H6 H7 H8] Hq Hb. pose proof (qu_keeps _ _ Hq) as [HT Hev]. split; try done.
  - intros id r' Hr'. destruct (qu_rows _ _ Hq _ _ Hr') as [r Hr].
    destruct (evo_row _ _ Hev H8 _ _ Hr') as (r2 & Hr2 & E); [by destruct (tk_key _ H1 _ _ Hr)|].
    destruct (ev_run _ _ E) as (_ & _ & _ & _ & _ & ->). eauto.
  - eapply Forall_impl; [exact H4|]. intros [tok|tok]; [by apply mayfire_later|by apply begun_later].
  - eapply Forall_impl; [exact H5|]. intros t [? ?]. split; [by eapply begun_later|done].
  - intros id r' Hr'. destruct (qu_rows _ _ Hq _ _ Hr') as [r Hr]. eauto.
  - by rewrite (evo_dialect _ _ Hev).
Qed.

(** Changing rows in place, by columns other than a new [startedAt]. *)
Lemma quiet_change d p f :
  TableOk d -> good_change d p f ->
  (forall r, t_startedAt (f r) <> t_startedAt r -> t_startedAt (f r) = None) ->
  quiet d (change_rows p f d).
Proof.
  intros HT Hg Hs. split; [by apply change_rows_keeps|..].
  - intros id r'. rewrite lookup_change_rows. intros (r & Hr & _)%fmap_Some_1. eauto.
  - intros id r r' Hr. rewrite lookup_change_rows, Hr. simpl. intros [= <-] _ _ Hn.
    destruct (p r); [|done]. destruct (decide (t_startedAt (f r) = t_startedAt r)); [congruence|auto].
Qed.

Lemma quiet_refl d : TableOk d -> quiet d d.
Proof. intros HT. split; [by split|eauto|]. intros id r r' ? ?. by simplify_eq. Qed.

(** One [UPDATE] that starts nothing: enough to look at the rows it changes. *)
Lemma glob_update born d L evs p values :
  Glob born d L evs -> good_change d p (assign_columns values) ->
  (forall r, t_startedAt (assign_columns values r) <> t_startedAt r -> t_startedAt (assign_columns values r) = None) ->
  (forall r, rows d !! t_id r = Some r -> row_ok r = true -> p r = true ->
     budget r (runs_of (t_id r) L evs) -> budget (assign_columns values r) (runs_of (t_id r) L evs)) ->
  Glob born (update_rows p values d).2 L evs.
Proof.
  intros HG Hg Hs Hb. pose proof (gl_table _ _ _ _ HG) as HT. rewrite update_rows_change.
  eapply glob_quiet; [done|by apply quiet_change|].
  intros id r r' Hr. rewrite lookup_change_rows, Hr. simpl. intros [= <-].
  destruct (tk_key _ HT _ _ Hr) as [<- _]. destruct (p r) eqn:Hp; [|done].
  apply Hb; [done|by eapply tk_row|done].
Qed.

(** The row [update_rows] affects, when it affects one. *)
Lemma update_rows_affected p values d :
  (update_rows p values d).1 <> 0 -> exists id r, rows d !! id = Some r /\ p r = true.
Proof.
  simpl. intros Hn. destruct (decide (filter (fun x : Z * ScheduledTask => p x.2 = true) (rows d) = ∅)) as [He|He].
  - rewrite He, map_size_empty in Hn. done.
  - apply map_choose in He as (id & r & Hr). apply map_lookup_filter_Some in Hr. eauto.
Qed.

Ltac start_kept := intros []; simpl; congruence.

Ltac row_budget :=
  unfold row_ok, owned_by, reapable, lease_expired, missed_pending, budget in *;
  match goal with r : ScheduledTask |- _ => destruct r end;
  simpl in *; criteria; simplify_eq; simpl in *; criteria; repeat case_decide; simplify_eq; first [done | lia].

(** A statement on rows its criterion selects. *)
Ltac by_update :=
  apply glob_update;
  [done|intros r Hr Hok Hp; row_change|start_kept|intros r Hr Hok Hp Hb; row_budget].

Section statements.
Context (born : Z -> Z) (d : TaskTable) (L : list permit) (evs : list event) (HG : Glob born d L evs).

Lemma glob_mark claim now : Glob born (markDispatched claim now d).2 L evs.
Proof. by_update. Qed.

Lemma glob_complete claim now : Glob born (completeTask claim now d).2 L evs.
Proof. by_update. Qed.

Lemma glob_fail claim m now : Glob born (failTaskTerminal claim m now d).2 L evs.
Proof. by_update. Qed.

Lemma glob_deadLetter ref m now : Glob born (deadLetterExpired ref m now d).2 L evs.
Proof. by_update. Qed.

Lemma glob_completeExpired ref now : Glob born (completeExpired ref now d).2 L evs.
Proof. by_update. Qed.

Lemma glob_retire limit locked now : Glob born (retireMissedPending limit locked now d).2 L evs.
Proof.
  unfold retireMissedPending. destruct (negb _); [done|]. destruct (_ <=? 0); [done|].
  change (Glob born (update_rows (fun r => bool_decide (t_id r ∈ t_id <$> select_rows
    (fun r => missed_pending now r && bool_decide (t_id r ∉ locked)) (fun r => default 0 (t_missedAfter r)) limit d))
    [set_status Missed; set_finishedAt (Some now)] d).2 L evs).
  pose proof (gl_table _ _ _ _ HG) as HT.
  apply glob_update; [done| |start_kept|]; intros r Hr Hok Hp%bool_decide_eq_true;
    apply select_ids_lookup in Hp; try done; [row_change|intros Hb; row_budget].
Qed.

(** The retry of the executor and of the reaper: the row had attempts left. *)
Lemma seen_max tok a m r :
  fact_ok born d (Seen tok a m) -> rows d !! t_id r = Some r -> t_id r = tok.1 -> t_leaseEpoch r = tok.2 ->
  t_status r = Running -> t_attempts r = a /\ t_maxAttempts r = m.
Proof.
  intros [(_ & _ & H) <-] Hr Hid He Hs. rewrite <-Hid in H |- *. destruct (H _ Hr) as [_ Ha].
  split; [by apply Ha|]. by apply (gl_born _ _ _ _ HG).
Qed.

Lemma glob_reschedule claim b m now a mx :
  fact_ok born d (Seen (claim_tok claim) a mx) -> a + 1 < mx -> Glob born (rescheduleTask claim b m now d).2 L evs.
Proof.
  intros Hs Hlt. apply glob_update; [done|intros r Hr Hok Hp; row_change|start_kept|].
  intros r Hr Hok Hp Hb. destruct (seen_max _ _ _ r Hs Hr) as [? ?]; [unfold owned_by in Hp; by criteria..|]. row_budget.
Qed.

Lemma glob_reclaim ref b m now a mx :
  fact_ok born d (Seen (ref_tok ref) a mx) -> a + 1 < mx -> Glob born (reclaimExpired ref b m now d).2 L evs.
Proof.
  intros Hs Hlt. apply glob_update; [done|intros r Hr Hok Hp; row_change|start_kept|].
  intros r Hr Hok Hp Hb. destruct (seen_max _ _ _ r Hs Hr) as [? ?];
    [unfold reapable, lease_expired in Hp; by criteria..|]. row_budget.
Qed.

(** A release: nobody started what the permit may still fire. *)
Lemma glob_release claim : permit_ok d (MayFire (claim_tok claim)) -> Glob born (releaseClaim claim d).2 L evs.
Proof.
  intros (_ & _ & Hp). apply glob_update; [done|intros r Hr Hok Hp'; row_change|start_kept|].
  intros r Hr Hok Hp' Hb. assert (Hst : t_startedAt r = None).
  { unfold owned_by in Hp'. criteria. destruct (Hp r) as [_ H']; [simpl; congruence|]. by apply H'. }
  row_budget.
Qed.
End statements.

(** ** The calls that move permits *)

Lemma update_rows_none p values d : (update_rows p values d).1 = 0 -> rows (update_rows p values d).2 = rows d.
Proof.
  intros H0. apply map_eq. intros id. rewrite update_rows_change, lookup_change_rows.
  destruct (rows d !! id) as [r|] eqn:Hr; [|done]. simpl. destruct (p r) eqn:Hp; [|done].
  simpl in H0. exfalso. assert (He : filter (fun x : Z * ScheduledTask => p x.2 = true) (rows d) = ∅).
  { apply map_size_empty_inv. lia. }
  assert (Hin : filter (fun x : Z * ScheduledTask => p x.2 = true) (rows d) !! id = Some r)
    by by apply map_lookup_filter_Some.
  rewrite He, lookup_empty in Hin. done.
Qed.

Lemma glob_rows born d d' L evs :
  rows d' = rows d -> nextTaskId d' = nextTaskId d -> dialect d' = dialect d -> Glob born d L evs -> Glob born d' L evs.
Proof. destruct d, d'. simpl. by intros -> -> ->. Qed.

Lemma runs_of_run id tok L evs :
  runs_of id (MayRun tok :: L) evs = runs_of id L evs + (if decide (tok.1 = id) then 1 else 0).
Proof.
  unfold runs_of. change (run_toks (MayRun tok :: L)) with (tok :: run_toks L).
  rewrite <-app_comm_cons, filter_cons. case_decide; [rewrite length_cons|]; lia.
Qed.

Section begin.
Context (born : Z -> Z) (d : TaskTable) (L : list permit) (evs : list event).
Context (claim : ClaimedTaskRef) (lease now : Z).
Notation tok := (claim_tok claim).
Context (HG : Glob born d (MayFire tok :: L) evs).
Notation d' := (beginDispatch claim lease now d).2.

Definition begin_selects (r : ScheduledTask) : bool := owned_by claim r && bool_decide (t_startedAt r = None).

Lemma begin_lookup id : rows d' !! id =
  (fun r => if begin_selects r
            then assign_columns [set_startedAt (Some now); set_leaseExpiresAt (Some (now + lease))] r else r)
  <$> rows d !! id.
Proof. unfold beginDispatch. by rewrite update_rows_change, lookup_change_rows. Qed.

Lemma begin_selected r :
  begin_selects r = true ->
  t_id r = tok.1 /\ t_leaseEpoch r = tok.2 /\ t_status r = Running /\ t_startedAt r = None.
Proof. unfold begin_selects, owned_by. intros H. by criteria. Qed.

Lemma begin_won : (beginDispatch claim lease now d).1 <> 0 -> exists r, rows d !! tok.1 = Some r /\ begin_selects r = true.
Proof.
  intros (id & r & Hr & Hp)%update_rows_affected. exists r. split; [|done].
  destruct (begin_selected r Hp) as [<- _]. by destruct (tk_key _ (gl_table _ _ _ _ HG) _ _ Hr) as [-> _].
Qed.

Lemma begin_begun : (beginDispatch claim lease now d).1 <> 0 -> at_tok d' tok (fun r => t_startedAt r <> None).
Proof.
  intros (r & Hr & Hp)%begin_won. destruct (begin_selected r Hp) as (? & He & ? & _).
  destruct (tk_key _ (gl_table _ _ _ _ HG) _ _ Hr) as [_ Hlt]. split; [exact (gl_ids _ _ _ _ HG)|]. split; [done|].
  intros r'. rewrite begin_lookup, Hr. simpl. rewrite Hp. intros [= <-]. simpl in *. split; [lia|done].
Qed.

Lemma begin_permit p :
  p ∈ L -> permit_ok d p -> permit_ok d' p.
Proof.
  intros Hin. pose proof (gl_table _ _ _ _ HG) as HT.
  destruct (beginDispatch_keeps d HT claim lease now) as [_ Hev].
  destruct p as [t|t]; simpl; [|by apply begun_later].
  intros H. eapply at_tok_later; [exact Hev|exact H|].
  intros r r' Hr. rewrite begin_lookup, Hr. simpl. intros [= <-] _ _ _ Het Hn. destruct (begin_selects r) eqn:Hp; [|done].
  exfalso. destruct (begin_selected r Hp) as (Hid & He & Hs & _).
  destruct (tk_key _ HT _ _ Hr) as [Hk _].
  pose proof (gl_unique _ _ _ _ HG) as Hnd. simpl in Hnd. apply NoDup_cons in Hnd as [Hni _].
  apply Hni, elem_of_app. left. apply list_elem_of_fmap. exists (MayFire t).
  split; [|done]. destruct t as [t1 t2]. unfold claim_tok in *. simpl in *. congruence.
Qed.

Lemma begin_budget id r r' c :
  rows d !! id = Some r -> rows d' !! id = Some r' -> budget r c -> budget r' c.
Proof.
  intros Hr. rewrite begin_lookup, Hr. simpl. intros [= <-] Hb. destruct (begin_selects r) eqn:Hp; [|done].
  destruct (begin_selected r Hp) as (_ & _ & Hs & Hst). unfold budget in *. simpl. rewrite Hs, Hst in *.
  repeat case_decide; simplify_eq. lia.
Qed.

(** However it answers, the permit to fire is gone and the rest stands. *)
Lemma glob_begin : Glob born d' L evs.
Proof.
  assert (HG2 : Glob born d L evs) by (eapply glob_sub; [|exact HG]; by apply submseteq_cons).
  destruct HG2 as [H1 H2 H3 H4 H5 H6 H7 H8]. destruct (beginDispatch_keeps d H1 claim lease now) as [HT Hev].
  split; try done.
  - intros id r'. rewrite begin_lookup. intros (r & Hr & ->)%fmap_Some_1. rewrite <-(H2 _ _ Hr).
    by destruct (begin_selects r).
  - rewrite Forall_forall in H4 |- *. intros p Hp. apply begin_permit; auto.
  - eapply Forall_impl; [exact H5|]. intros t [? ?]. split; [by eapply begun_later|done].
  - intros id r' Hr'. pose proof Hr' as Hr2. rewrite begin_lookup in Hr2. apply fmap_Some_1 in Hr2 as (r & Hr & _).
    eapply begin_budget; eauto.
Qed.

Lemma glob_begin_won : (beginDispatch claim lease now d).1 <> 0 -> Glob born d' (MayRun tok :: L) evs.
Proof.
  intros Hn. destruct glob_begin as [H1 H2 H3 H4 H5 H6 H7 H8].
  destruct (begin_won Hn) as (r & Hr & Hp). destruct (begin_selected r Hp) as (Hid & He & Hs & Hst).
  pose proof (gl_budget _ _ _ _ HG _ _ Hr) as Hb. pose proof (gl_born _ _ _ _ HG _ _ Hr) as Hborn.
  unfold budget in Hb. rewrite Hs, Hst in Hb. rewrite decide_True in Hb by done.
  change (runs_of tok.1 (MayFire tok :: L) evs) with (runs_of tok.1 L evs) in Hb.
  split; try done.
  - exact (gl_unique _ _ _ _ HG).
  - apply Forall_cons. split; [by apply begin_begun|done].
  - intros id. rewrite runs_of_run. case_decide as Heq; [|specialize (H6 id); lia]. subst id. rewrite <-Hborn. lia.
  - intros id r' Hr'. rewrite runs_of_run. case_decide as Heq; [|rewrite Z.add_0_r; eauto]. subst id.
    rewrite begin_lookup, Hr in Hr'. simpl in Hr'. rewrite Hp in Hr'. injection Hr' as <-.
    unfold budget. simpl in *. rewrite Hs. lia.
Qed.
End begin.

Section claim.
Context (born : Z -> Z) (d : TaskTable) (L : list permit) (evs : list event).
Context (opts : ClaimDueTasksBatch) (now : Z) (ids : list Z).
Context (HG : Glob born d L evs) (Hpick : claim_pick opts now d ids).
Notation d' := (claim_ids opts now ids d).2.
Notation ts := (claim_ids opts now ids d).1.

Lemma claim_lookup id : rows d' !! id =
  (fun r => if bool_decide (t_id r ∈ ids) then assign_columns (claim_values opts now) r else r) <$> rows d !! id.
Proof. unfold claim_ids. cbn [snd]. by rewrite update_rows_change, lookup_change_rows. Qed.

(** A claimed row: pending before, running under the next epoch. *)
Lemma elem_of_claimed t : t ∈ ts ->
  t_id t ∈ ids /\ rows d' !! t_id t = Some t /\
  exists r, rows d !! t_id t = Some r /\ claim_candidate opts now r = true /\ t = assign_columns (claim_values opts now) r.
Proof.
  pose proof (gl_table _ _ _ _ HG) as HT. unfold claim_ids at 1. cbn [fst]. intros (id & Hid & Ht)%list_elem_of_omap.
  change (rows d' !! id = Some t) in Ht. pose proof Ht as Ht2. rewrite claim_lookup in Ht2.
  destruct Hpick as (_ & _ & Hc). destruct (Hc _ Hid) as (r & Hr & Hcand). rewrite Hr in Ht2. simpl in Ht2.
  destruct (tk_key _ HT _ _ Hr) as [Hk _]. rewrite bool_decide_true in Ht2 by congruence.
  injection Ht2 as <-. split_and!; [by rewrite <-Hk in Hid|simpl; by rewrite Hk|]. exists r. simpl. by rewrite Hk.
Qed.

Lemma claimed_facts t : t ∈ ts ->
  fact_ok born d' (seen t) /\ permit_ok d' (may_fire t) /\ (forall p, p ∈ L -> permit_tok p <> task_tok t) /\
  (forall t', t' ∈ ran evs -> task_tok t' <> task_tok t).
Proof.
  intros Ht. destruct (elem_of_claimed t Ht) as (_ & Ht' & r & Hr & Hcand & Heq).
  pose proof (gl_table _ _ _ _ HG) as HT. destruct (tk_key _ HT _ _ Hr) as [_ Hlt].
  assert (Hrow : t_startedAt t = None /\ t_maxAttempts t = born (t_id t) /\ t_leaseEpoch t = t_leaseEpoch r + 1).
  { pose proof (tk_row _ HT _ _ Hr) as Hok. rewrite <-(gl_born _ _ _ _ HG _ _ Hr). subst t.
    unfold claim_candidate in Hcand. criteria. unfold row_ok in Hok. simpl.
    destruct (t_status r) eqn:?; simplify_eq; by criteria. }
  destruct Hrow as (Hst & Hm & He). split_and!.
  - split; [|done]. split; [exact (gl_ids _ _ _ _ HG)|]. split; [done|]. intros r'. cbn [task_tok fst snd]. rewrite Ht'. intros [= <-]. split; [lia|done].
  - split; [exact (gl_ids _ _ _ _ HG)|]. split; [done|]. intros r'. cbn [task_tok fst snd]. rewrite Ht'. intros [= <-]. split; [lia|done].
  - intros p Hp Htok. pose proof (gl_permits _ _ _ _ HG) as HP. rewrite Forall_forall in HP. specialize (HP p Hp).
    assert (Hle : forall P, at_tok d (task_tok t) P -> False).
    { intros P (_ & _ & H). destruct (H r Hr) as [Hle _]. simpl in Hle. lia. }
    destruct p as [tok|tok]; simpl in Htok; subst tok; eapply Hle, HP.
  - intros t' Ht2 Htok. pose proof (gl_runs _ _ _ _ HG) as HP. rewrite Forall_forall in HP. destruct (HP t' Ht2) as [(_ & _ & H) _].
    rewrite Htok in H. destruct (H r Hr) as [Hle _]. simpl in Hle. lia.
Qed.

Lemma claimed_NoDup : NoDup (task_tok <$> ts).
Proof.
  apply (NoDup_fmap_1 fst). rewrite <-list_fmap_compose.
  destruct Hpick as (Hnd & _ & Hc). pose proof (gl_table _ _ _ _ HG) as HT.
  assert (H : forall l, (forall id, id ∈ l -> id ∈ ids) -> (fst ∘ task_tok <$> omap (fun id => rows d' !! id) l : list Z) = l).
  { induction l as [|id l IH]; intros Hl; [done|]. simpl.
    destruct (Hc id) as (r & Hr & _); [apply Hl; by left|]. destruct (tk_key _ HT _ _ Hr) as [Hk _].
    rewrite claim_lookup, Hr. simpl. rewrite bool_decide_true by (rewrite Hk; apply Hl; by left). simpl.
    f_equal; [done|]. apply IH. intros. apply Hl. by right. }
  unfold claim_ids at 1. cbn [fst]. by rewrite H.
Qed.

Lemma run_toks_may_fire (l : list ScheduledTask) : run_toks (may_fire <$> l) = [].
Proof. induction l; [done|]. unfold run_toks. simpl. done. Qed.

Lemma claim_quiet : quiet d d'.
Proof.
  pose proof (gl_table _ _ _ _ HG) as HT. split; [by apply claim_ids_keeps|..].
  - intros id r'. rewrite claim_lookup. intros (r & Hr & _)%fmap_Some_1. eauto.
  - intros id r r' Hr. rewrite claim_lookup, Hr. simpl. intros [= <-] _ _ Hn. by destruct (bool_decide _).
Qed.

Lemma glob_claim : Glob born d' L evs.
Proof.
  pose proof (gl_table _ _ _ _ HG) as HT. apply (glob_quiet born d); [done|apply claim_quiet|].
  intros id r r' Hr. rewrite claim_lookup, Hr. simpl. intros [= <-] Hb.
  destruct (bool_decide (t_id r ∈ ids)) eqn:Hin; [|done]. apply bool_decide_eq_true in Hin.
  destruct Hpick as (_ & _ & Hc). destruct (Hc _ Hin) as (r2 & Hr2 & Hcand).
  destruct (tk_key _ HT _ _ Hr) as [Hk _]. assert (r2 = r) as -> by congruence.
  unfold claim_candidate in Hcand. criteria. unfold budget in *. simpl.
  destruct (t_status r) eqn:?; simplify_eq. case_decide; lia.
Qed.

Lemma glob_claimed : Glob born d' ((may_fire <$> ts) ++ L) evs /\ Forall (fact_ok born d') (seen <$> ts).
Proof.
  split.
  - destruct glob_claim as [H1 H2 H3 H4 H5 H6 H7 H8]. split; try done.
    + rewrite fmap_app, <-app_assoc. apply NoDup_app. split_and!; [| |done].
      * rewrite <-list_fmap_compose. apply claimed_NoDup.
      * intros tok (p & -> & (t & -> & Ht)%list_elem_of_fmap)%list_elem_of_fmap.
        destruct (claimed_facts t Ht) as (_ & _ & Hp & Hr). simpl.
        intros [(p & Heq & Hin)%list_elem_of_fmap|(t' & Heq & Hin)%list_elem_of_fmap]%elem_of_app; [by destruct (Hp p Hin)|by destruct (Hr t' Hin)].
    + apply Forall_app. split; [|done]. apply Forall_forall. intros p (t & -> & Ht)%list_elem_of_fmap. by apply claimed_facts.
    + intros id. unfold runs_of. rewrite run_toks_app, run_toks_may_fire. apply H6.
    + intros id r Hr. unfold runs_of. rewrite run_toks_app, run_toks_may_fire. by apply H7.
  - apply Forall_forall. intros f (t & -> & Ht)%list_elem_of_fmap. by apply claimed_facts.
Qed.
End claim.

(** The handler's run: the permit becomes history. *)
Lemma glob_run born d t a L evs evs' :
  Glob born d (MayRun (task_tok t) :: L) evs -> fact_ok born d (Seen (task_tok t) a (t_maxAttempts t)) ->
  ran evs' = [t] -> Glob born d L (evs ++ evs').
Proof.
  intros [H1 H2 H3 H4 H5 H6 H7 H8] [_ Hb] Hran. simpl in Hb.
  assert (Hc : forall id, runs_of id L (evs ++ evs') = runs_of id (MayRun (task_tok t) :: L) evs).
  { intros id. rewrite runs_of_run. unfold runs_of. rewrite ran_app, Hran, fmap_app, !filter_app. simpl.
    rewrite filter_cons, !length_app. simpl. case_decide; simpl; lia. }
  split; try done.
  - rewrite ran_app, Hran, fmap_app. simpl in H3 |- *.
    rewrite app_assoc. rewrite (Permutation_app_comm _ [task_tok t]). done.
  - by apply Forall_cons in H4 as [_ ?].
  - rewrite ran_app, Hran. apply Forall_app. split; [done|]. apply Forall_singleton. split; [|done].
    by apply Forall_cons in H4 as [? _].
  - intros id. rewrite Hc. apply H6.
  - intros id r Hr. rewrite Hc. by apply H7.
Qed.

(** ** Every call *)

(** After the call: what the program goes on with, and the invariant. *)
Definition stepped born d' F evs {A} (r : A) (Q : post A) : Prop :=
  exists kn ps, Q r kn ps /\ Glob born d' (ps ++ F) evs /\ Forall (fact_ok born d') kn.

Section call.
Context (born : Z -> Z) (now : Z) (d : TaskTable) (F : list permit) (evs : list event).
Context (kn : list fact) (ps : list permit).
Context (HG : Glob born d (ps ++ F) evs) (Hkn : Forall (fact_ok born d) kn).

(** A call whose rule asks nothing. *)
Lemma stepped_free {A} (d' : TaskTable) (r : A) (Q : post A) :
  Glob born d' (ps ++ F) evs -> evolves d d' -> Q r kn ps -> stepped born d' F evs r Q.
Proof. intros. exists kn, ps. split_and!; [done..|]. by eapply facts_later. Qed.

(** The same, for statements that answer how many rows they affected. *)
Lemma stepped_affected (x : Z * TaskTable) (r : sresult Z) (d' : TaskTable) (Q : post (sresult Z)) :
  affected x r d' -> Glob born x.2 (ps ++ F) evs -> keeps d x.2 -> (forall r, Q r kn ps) ->
  stepped born d' F (evs ++ []) r Q /\ forall err, stepped born d' F evs (Err err) Q.
Proof. intros [-> ->] HG' [_ Hev] HQ. rewrite app_nil_r. split; [|intros err]; by apply stepped_free. Qed.

Lemma elem_of_facts f : f ∈ kn -> fact_ok born d f.
Proof. rewrite Forall_forall in Hkn. apply Hkn. Qed.

Lemma call_step (o : sop) (r : sresult (sresp o)) (d' : TaskTable) (Q : post (sresult (sresp o))) :
  wp_call o kn ps Q -> sop_db now o d r d' ->
  stepped born d' F (evs ++ events_of o r) r Q /\
  (is_statement o = true -> forall err, stepped born d' F evs (Err err) Q).
Proof.
  pose proof (gl_table _ _ _ _ HG) as HT.
  destruct o as [o|c l|c|c|c m|c b m|c|n|f b m|f m|f|n|t|t|A f| | |n]; cbn [wp_call sop_db events_of is_statement].
  - intros [HQ HQe]. case_bool_decide.
    { intros [-> ->]. rewrite app_nil_r. split; [|intros _ err]; apply stepped_free; try done. }
    intros (ids & Hp & -> & ->). rewrite app_nil_r.
    destruct (claim_ids_keeps d HT _ _ _ Hp) as [_ Hev]. destruct (glob_claimed born d (ps ++ F) evs _ _ _ HG Hp) as [HG' Hf].
    split; [|intros _ err; apply stepped_free; [by apply glob_claim|done|done]].
    eexists _, _. split; [apply HQ|]. rewrite <-app_assoc. split; [done|]. apply Forall_app. split; [done|by eapply facts_later].
  - intros (ps' & Hps & HQ & HQ0 & HQe) [-> ->]. rewrite app_nil_r.
    assert (HG' : Glob born d (MayFire (claim_tok c) :: (ps' ++ F)) evs)
      by (eapply glob_perm; [|exact HG]; by rewrite Hps).
    destruct (beginDispatch_keeps d HT c l now) as [_ Hev]. pose proof (facts_later _ _ _ _ Hev Hkn) as Hkn'.
    pose proof (glob_begin born d _ evs c l now HG') as HGb. split; [|intros _ err; exists kn, ps'; by split_and!].
    destruct (decide ((beginDispatch c l now d).1 = 0)) as [E|E].
    + rewrite E. exists kn, ps'. by split_and!.
    + eexists _, _. split; [by apply HQ|]. split; [by apply (glob_begin_won born d _ evs c l now HG')|].
      apply Forall_cons. split; [|done]. by apply (begin_begun born d _ evs c l now HG').
  - intros HQ H. destruct (stepped_affected _ _ _ _ H (glob_mark _ _ _ _ HG c now) (markDispatched_keeps d HT c now) HQ). done.
  - intros HQ H. destruct (stepped_affected _ _ _ _ H (glob_complete _ _ _ _ HG c now) (completeTask_keeps d HT c now) HQ). done.
  - intros HQ H. destruct (stepped_affected _ _ _ _ H (glob_fail _ _ _ _ HG c m now) (failTaskTerminal_keeps d HT c m now) HQ). done.
  - intros [(a & mx & Hin & Hlt) HQ] H. apply elem_of_facts in Hin.
    destruct (stepped_affected _ _ _ _ H (glob_reschedule _ _ _ _ HG c b m now a mx Hin Hlt) (rescheduleTask_keeps d HT c b m now) HQ). done.
  - intros (ps' & Hps & HQ) [-> ->]. rewrite app_nil_r.
    assert (HG' : Glob born (releaseClaim c d).2 (ps' ++ F) evs).
    { apply glob_release.
      - eapply glob_sub; [|exact HG]. rewrite Hps. by apply submseteq_cons.
      - pose proof (gl_permits _ _ _ _ HG) as HP. rewrite Forall_forall in HP. apply HP. rewrite Hps. by left. }
    destruct (releaseClaim_keeps d HT c) as [_ Hev]. pose proof (facts_later _ _ _ _ Hev Hkn) as Hkn'.
    split; [|intros _ err]; exists kn, ps'; by split_and!.
  - intros [HQ HQe] (-> & l & -> & Hl). rewrite app_nil_r. split; [|intros _ err; by apply stepped_free].
    eexists _, _. split; [apply HQ|]. split; [done|]. apply Forall_app. split; [|done].
    apply Forall_forall. intros f (t & -> & Ht)%list_elem_of_fmap. rewrite Forall_forall in Hl. destruct (Hl t Ht) as [Hr Hx].
    destruct (tk_key _ HT _ _ Hr) as [_ Hlt]. split; [split; [exact (gl_ids _ _ _ _ HG)|split; [done|]]|symmetry; by apply (gl_born _ _ _ _ HG)].
    intros r'. cbn [task_tok fst snd]. rewrite Hr. intros [= <-]. split; [lia|done].
  - intros [(a & mx & Hin & Hlt) HQ] H. apply elem_of_facts in Hin.
    destruct (stepped_affected _ _ _ _ H (glob_reclaim _ _ _ _ HG f b m now a mx Hin Hlt) (reclaimExpired_keeps d HT f b m now) HQ). done.
  - intros HQ H. destruct (stepped_affected _ _ _ _ H (glob_deadLetter _ _ _ _ HG f m now) (deadLetterExpired_keeps d HT f m now) HQ). done.
  - intros HQ H. destruct (stepped_affected _ _ _ _ H (glob_completeExpired _ _ _ _ HG f now) (completeExpired_keeps d HT f now) HQ). done.
  - intros HQ [lk H]. rewrite app_nil_r.
    assert (Hd' : d' = (retireMissedPending n lk now d).2) by (by rewrite <-H). subst d'.
    destruct (statement_keeps now d _ HT (st_retire now d n lk)) as [_ Hev].
    split; [|intros _ err]; apply stepped_free; auto using glob_retire.
  - intros (ps' & a & Hps & Hin & HQ) [[x ->] ->]. split; [|done]. apply elem_of_facts in Hin.
    exists kn, ps'. split_and!; [done| |done]. eapply glob_run; [|exact Hin|by destruct x].
    eapply glob_perm; [|exact HG]. by rewrite Hps.
  - intros HQ [[x ->] ->]. rewrite app_nil_r. split; [|done]. by apply stepped_free.
  - done.
  - intros HQ [[x ->] ->]. rewrite app_nil_r. split; [|done]. by apply stepped_free.
  - intros HQ [[x ->] ->]. rewrite app_nil_r. split; [|done]. by apply stepped_free.
  - intros HQ [[x ->] ->]. rewrite app_nil_r. split; [|done]. by apply stepped_free.
Qed.

Lemma call_fails (o : sop) (Q : post (sresult (sresp o))) err :
  is_statement o = true -> wp_call o kn ps Q -> stepped born d F evs (Err err) Q.
Proof.
  assert (Hfree : Q (Err err) kn ps -> stepped born d F evs (Err err) Q) by (by apply stepped_free).
  intros Hst. destruct o; try done; cbn [wp_call]; try (intros HQ; by apply Hfree); try (intros [? HQ]; by apply Hfree).
  - intros (ps' & Hps & _ & _ & HQ). exists kn, ps'. split_and!; [done| |done].
    eapply glob_sub; [|exact HG]. rewrite Hps. by apply submseteq_cons.
  - intros (ps' & Hps & HQ). exists kn, ps'. split_and!; [done| |done].
    eapply glob_sub; [|exact HG]. rewrite Hps. by apply submseteq_cons.
Qed.
End call.

(** ** Statements of the other components *)

Lemma runs_fresh born d L evs id : Glob born d L evs -> nextTaskId d <= id -> runs_of id L evs = 0.
Proof.
  intros HG Hle. unfold runs_of.
  assert (filter (fun tok : token => tok.1 = id) (run_toks L ++ (task_tok <$> ran evs)) = []) as ->; [|done].
  apply elem_of_nil_inv. intros tok [Heq Hin]%list_elem_of_filter. apply elem_of_app in Hin as [Hin|Hin].
  - apply list_elem_of_omap in Hin as ([t|t] & Hp & [= ->]).
    pose proof (gl_permits _ _ _ _ HG) as HP. rewrite Forall_forall in HP. destruct (HP _ Hp) as (_ & Hlt & _). lia.
  - apply list_elem_of_fmap in Hin as (t & -> & Ht). pose proof (gl_runs _ _ _ _ HG) as HP.
    rewrite Forall_forall in HP. destruct (HP _ Ht) as [(_ & Hlt & _) _]. lia.
Qed.

(** [born] may change where no row was yet. *)
Definition born_later (d : TaskTable) (born born' : Z -> Z) : Prop := forall id, id < nextTaskId d -> born' id = born id.

Lemma fact_born born born' d d' f :
  evolves d d' -> born_later d born born' -> fact_ok born d f -> fact_ok born' d' f.
Proof.
  intros Hev Hb Hf. apply (fact_later born' d d'); [done|]. destruct f as [tok a m|tok]; [|done].
  destruct Hf as [Ht <-]. split; [done|]. destruct Ht as (_ & Hlt & _). by apply Hb.
Qed.

Lemma permit_grow d d' p :
  evolves d d' -> (forall id r, rows d !! id = Some r -> rows d' !! id = Some r) -> permit_ok d p -> permit_ok d' p.
Proof.
  intros Hev Hsame. destruct p as [tok|tok]; simpl; (intros H; eapply at_tok_later; [done..|]);
    intros r r' Hr Hr' _ _ _ _; specialize (Hsame _ _ Hr); by simplify_eq.
Qed.

Lemma glob_insert_row born d L evs n :
  Glob born d L evs -> exists born', born_later d born born' /\ Glob born' (insert_row d n) L evs.
Proof.
  intros HG. destruct (insert_row_keeps d n (gl_table _ _ _ _ HG)) as [HT Hev].
  pose proof (runs_fresh born d L evs (nextTaskId d) HG ltac:(lia)) as H0.
  assert (next_id d = nextTaskId d) as Hnext by (unfold next_id; by rewrite (gl_ids _ _ _ _ HG)).
  destruct (insert_row_cases d n) as [[_ ->]|[_ Hd']]; [by exists born|]. rewrite Hnext in Hd'. rewrite Hd' in *.
  exists (fun id => if decide (id = nextTaskId d) then n_maxAttempts n else born id).
  destruct HG as [H1 H2 H3 H4 H5 H6 H7 H8].
  assert (Hne : forall id r, rows d !! id = Some r -> id <> nextTaskId d).
  { intros id r Hr ->. destruct (tk_key _ H1 _ _ Hr). lia. }
  split; [intros id Hlt; by rewrite decide_False by lia|]. split; try done; cbn [rows].
  - intros id r [[<- <-]|[? Hr]]%lookup_insert_Some; [by rewrite decide_True|]. rewrite decide_False by congruence. auto.
  - eapply Forall_impl; [exact H4|]. intros p. apply permit_grow; [done|].
    intros id r Hr. simpl. rewrite lookup_insert_ne; [done|]. by apply not_eq_sym, (Hne _ _ Hr).
  - eapply Forall_impl; [exact H5|]. intros t [Ht Hm]. split; [by eapply begun_later|].
    destruct Ht as (_ & Hlt & _). simpl in Hlt. by rewrite decide_False by lia.
  - intros id. destruct (decide (id = nextTaskId d)) as [->|_]; [|apply H6]. rewrite H0. lia.
  - intros id r [[<- <-]|[? Hr]]%lookup_insert_Some; [|auto]. rewrite H0. unfold budget. simpl. lia.
Qed.

Lemma glob_insert_rows born d L evs l :
  Glob born d L evs -> exists born', born_later d born born' /\ Glob born' (foldl insert_row d l) L evs.
Proof.
  revert born d. induction l as [|n l IH]; intros born d HG; simpl; [by exists born|].
  destruct (glob_insert_row born d L evs n HG) as (b1 & Hb1 & HG1).
  destruct (IH b1 _ HG1) as (b2 & Hb2 & HG2). exists b2. split; [|done].
  intros id Hlt. rewrite <-Hb1 by done. apply Hb2.
  destruct (insert_row_keeps d n (gl_table _ _ _ _ HG)) as [_ Hev]. pose proof (evo_next _ _ Hev). lia.
Qed.

Lemma glob_delete born d L evs p : Glob born d L evs -> Glob born (delete_rows p d).2 L evs.
Proof.
  intros HG. apply (glob_quiet born d); [done|split|].
  - apply delete_rows_keeps, (gl_table _ _ _ _ HG).
  - intros id r [? _]%lookup_delete_rows. eauto.
  - intros id r r' Hr [Hr' _]%lookup_delete_rows. by simplify_eq.
  - intros id r r' Hr [Hr' _]%lookup_delete_rows. by simplify_eq.
Qed.

Lemma glob_jobs born now d d' L evs :
  Glob born d L evs -> job_statement now d d' -> exists born', born_later d born born' /\ Glob born' d' L evs.
Proof.
  intros HG Hs. pose proof (gl_table _ _ _ _ HG) as HT. destruct Hs as [l n|ids|ids|sup|ids g|o lk].
  - rewrite insertIgnoringDuplicates_rows. by apply glob_insert_rows.
  - exists born. split; [done|]. destruct ids; [done|]. by apply glob_delete.
  - exists born. split; [done|]. by apply glob_delete.
  - exists born. split; [done|]. destruct sup as [|s sup]; [done|]. unfold updateToMissed. by_update.
  - exists born. split; [done|]. destruct ids as [|i ids]; [done|].
    set (p := fun r => bool_decide (t_jobId r ∈ i :: ids) && bool_decide (t_status r = Pending) && after_opt (t_missedAfter r) now).
    set (f := fun r => assign_column r (set_missedAfter (Some (Z.max (t_runAt r) now + g * 1000)))).
    change (Glob born (change_rows p f d) L evs).
    eapply glob_quiet; [done|apply quiet_change; [done| |by intros []]|].
    + intros r Hr Hok Hp. unfold p, f in *. row_change.
    + intros id r r' Hr. rewrite lookup_change_rows, Hr. simpl. intros [= <-] Hb. by destruct (p r).
  - exists born. split; [done|]. unfold deleteFinishedOlderThan. destruct (bool_decide _); [done|]. destruct (negb _); [done|].
    destruct (_ || _); [done|]. by apply glob_delete.
Qed.

(** ** Worlds *)

Definition permits_of (xs : list ExecutorState) (K : list (list fact * list permit)) : list permit :=
  concat (held <$> xs) ++ concat K.*2.

Definition timer_ok (born : Z -> Z) (d : TaskTable) (s : ExecutorState) : Prop :=
  forall tm, tm ∈ x_timers s -> fact_ok born d (seen (tm_task tm)).

Record WInvWith (born : Z -> Z) (K : list (list fact * list permit)) (w : World) : Prop := {
  wi_threads : Forall2 (fun kp th => wp th.2 kp.1 kp.2 done_post) K (w_threads w);
  wi_facts : Forall (fun kp => Forall (fact_ok born (w_tasks w)) kp.1) K;
  wi_exec : Forall exec_ok (w_instances w);
  wi_timers : Forall (timer_ok born (w_tasks w)) (w_instances w);
  wi_glob : Glob born (w_tasks w) (permits_of (w_instances w) K) (w_events w);
}.

Lemma timers_later born born' d d' xs :
  evolves d d' -> born_later d born born' -> Forall (timer_ok born d) xs -> Forall (timer_ok born' d') xs.
Proof.
  intros Hev Hb H. eapply Forall_impl; [exact H|]. intros s Hs tm Htm. by apply (fact_born born born' d d'), Hs.
Qed.

Lemma timers_sub born d xs xs' :
  (forall s' tm, s' ∈ xs' -> tm ∈ x_timers s' -> exists s, s ∈ xs /\ tm ∈ x_timers s) ->
  Forall (timer_ok born d) xs -> Forall (timer_ok born d) xs'.
Proof.
  intros Htm H. rewrite Forall_forall in H |- *. intros s' Hs' tm Hin.
  destruct (Htm s' tm Hs' Hin) as (s & Hs & Hin'). by apply (H s).
Qed.

Definition WInv (w : World) : Prop := exists born K, WInvWith born K w.

Lemma permits_of_thread xs K1 kn ps K2 :
  permits_of xs (K1 ++ (kn, ps) :: K2) ≡ₚ ps ++ permits_of xs (K1 ++ K2).
Proof. unfold permits_of. rewrite !fmap_app, fmap_cons, !concat_app. simpl. solve_Permutation. Qed.

Lemma permits_of_instance xs1 s xs2 K :
  permits_of (xs1 ++ s :: xs2) K ≡ₚ held s ++ permits_of (xs1 ++ xs2) K.
Proof. unfold permits_of. rewrite !fmap_app, fmap_cons, !concat_app. simpl. solve_Permutation. Qed.

Ltac worlds := cbn [w_now w_tasks w_instances w_threads w_events fst snd] in *.

(** The table changes: facts, permits and timers carry over. *)
Lemma winv_table born born' K now now' d d' xs ps evs evs' :
  WInvWith born K (Build_World now d xs ps evs) ->
  evolves d d' -> born_later d born born' -> Glob born' d' (permits_of xs K) evs' ->
  WInvWith born' K (Build_World now' d' xs ps evs').
Proof.
  intros [H1 H2 H3 H4 H5] Hev Hb HG. worlds. split; try done; worlds.
  - eapply Forall_impl; [exact H2|]. intros kp Hkp. eapply Forall_impl; [exact Hkp|]. intros f. by apply fact_born.
  - by eapply timers_later.
Qed.

(** One program goes on, with the permits the call left it. *)
Lemma winv_thread {A} born K1 kn ps K2 now d d' xs ps1 i ps2 p evs evs' (r : A) (f : A -> sprog unit) :
  WInvWith born (K1 ++ (kn, ps) :: K2) (Build_World now d xs (ps1 ++ (i, p) :: ps2) evs) ->
  length K1 = length ps1 -> evolves d d' ->
  stepped born d' (permits_of xs (K1 ++ K2)) evs' r (fun r kn ps => wp (f r) kn ps done_post) ->
  exists K', WInvWith born K' (Build_World now d' xs (ps1 ++ (i, f r) :: ps2) evs').
Proof.
  intros [H1 H2 H3 H4 H5] Hlen Hev (kn' & ps' & Hwp & HG & Hkn'). simpl in *.
  exists (K1 ++ (kn', ps') :: K2). apply Forall2_app_inv in H1 as [HK1 HK2]; [|done].
  apply Forall2_cons_1 in HK2 as [_ HK2]. apply Forall_app in H2 as [HF1 [_ HF2]%Forall_cons].
  assert (Hlater : forall K, Forall (fun kp : list fact * list permit => Forall (fact_ok born d) kp.1) K ->
                     Forall (fun kp => Forall (fact_ok born d') kp.1) K).
  { intros K HK. eapply Forall_impl; [exact HK|]. intros kp. by apply facts_later. }
  split; worlds; try done.
  - apply Forall2_app; [done|]. by constructor.
  - apply Forall_app. split; [auto|]. apply Forall_cons. auto.
  - by eapply timers_later.
  - eapply glob_perm; [|exact HG]. symmetry. apply permits_of_thread.
Qed.

(** The thread an application of [wi_threads] speaks of. *)
Lemma winv_split born K now d xs ps1 i p ps2 evs :
  WInvWith born K (Build_World now d xs (ps1 ++ (i, p) :: ps2) evs) ->
  exists K1 kn ps K2, K = K1 ++ (kn, ps) :: K2 /\ length K1 = length ps1 /\ wp p kn ps done_post /\
    Forall (fact_ok born d) kn /\ Glob born d (ps ++ permits_of xs (K1 ++ K2)) evs.
Proof.
  intros [H1 H2 _ _ H5]. worlds. apply Forall2_app_inv_r in H1 as (K1 & K2' & HK1 & HK2 & ->).
  apply Forall2_cons_inv_r in HK2 as ([kn ps] & K2 & Hwp & HK2 & ->).
  exists K1, kn, ps, K2. apply Forall_app in H2 as [_ [? _]%Forall_cons]. split_and!; try done.
  - by eapply Forall2_length.
  - eapply glob_perm; [|exact H5]. apply permits_of_thread.
Qed.

(** A new program that holds [ps], taken from its instance. *)
Lemma winv_spawn born K now d xs xs' ps evs i p kn ks :
  WInvWith born K (Build_World now d xs ps evs) ->
  wp p kn ks done_post -> Forall (fact_ok born d) kn ->
  Forall exec_ok xs' ->
  (forall s' tm, s' ∈ xs' -> tm ∈ x_timers s' -> exists s, s ∈ xs /\ tm ∈ x_timers s) ->
  concat (held <$> xs') ++ ks ⊆+ concat (held <$> xs) ->
  WInvWith born (K ++ [(kn, ks)]) (Build_World now d xs' (ps ++ [(i, p)]) evs).
Proof.
  intros [H1 H2 H3 H4 H5] Hwp Hkn Hok Htm Hsub. worlds. split; worlds.
  - apply Forall2_app; [done|]. by constructor.
  - apply Forall_app. split; [done|]. by constructor.
  - done.
  - by eapply timers_sub.
  - eapply glob_sub; [|exact H5]. unfold permits_of. rewrite fmap_app, concat_app. simpl. rewrite app_nil_r.
    rewrite (Permutation_app_comm (concat K.*2)), app_assoc. by apply submseteq_app.
Qed.

(** The instances' states change, nothing else. *)
Lemma winv_exec born K now d xs xs' ps evs :
  WInvWith born K (Build_World now d xs ps evs) -> Forall exec_ok xs' ->
  (forall s' tm, s' ∈ xs' -> tm ∈ x_timers s' -> exists s, s ∈ xs /\ tm ∈ x_timers s) ->
  concat (held <$> xs') ⊆+ concat (held <$> xs) ->
  WInvWith born K (Build_World now d xs' ps evs).
Proof.
  intros [H1 H2 H3 H4 H5] Hok Htm Hsub. worlds. split; worlds; try done.
  - by eapply timers_sub.
  - eapply glob_sub; [|exact H5]. unfold permits_of. by apply submseteq_app.
Qed.

Lemma winv_drop born K now d xs ps1 th ps2 evs :
  WInvWith born K (Build_World now d xs (ps1 ++ th :: ps2) evs) ->
  exists K', WInvWith born K' (Build_World now d xs (ps1 ++ ps2) evs).
Proof.
  intros HW. destruct th as [i p]. destruct (winv_split _ _ _ _ _ _ _ _ _ _ HW) as (K1 & kn & ks & K2 & -> & Hlen & _ & _ & HG).
  destruct HW as [H1 H2 H3 H4 _]. worlds. exists (K1 ++ K2). split; worlds; try done.
  - apply Forall2_app_inv in H1 as [HK1 HK2]; [|done]. apply Forall2_cons_1 in HK2 as [_ HK2]. by apply Forall2_app.
  - apply Forall_app in H2 as [HF1 [_ HF2]%Forall_cons]. by apply Forall_app.
  - eapply glob_sub; [|exact HG]. by apply submseteq_inserts_l.
Qed.

Lemma winv_filter born K now d xs ps evs (P : nat * sprog unit -> Prop) `{forall x, Decision (P x)} :
  WInvWith born K (Build_World now d xs ps evs) ->
  exists K', WInvWith born K' (Build_World now d xs (filter P ps) evs).
Proof.
  cut (forall ps1 ps2 K, WInvWith born K (Build_World now d xs (ps1 ++ ps2) evs) ->
         exists K', WInvWith born K' (Build_World now d xs (ps1 ++ filter P ps2) evs)).
  { intros Hcut. apply (Hcut []). }
  intros ps1 ps2. revert ps1. induction ps2 as [|th ps2 IH]; intros ps1 K0 HW; [by exists K0|].
  rewrite filter_cons. case_decide.
  - rewrite (cons_middle th ps1 (filter P ps2)), app_assoc. apply (IH _ K0). by rewrite <-app_assoc.
  - destruct (winv_drop _ _ _ _ _ _ _ _ _ HW) as [K' HW']. by apply (IH _ K').
Qed.

(** ** Every step *)

Lemma held_app xs1 s xs2 : concat (held <$> xs1 ++ s :: xs2) ≡ₚ held s ++ concat (held <$> xs1 ++ xs2).
Proof. rewrite !fmap_app, fmap_cons, !concat_app. simpl. solve_Permutation. Qed.

(** One instance's state replaced. *)
Lemma exec_replace xs1 s xs2 s' : Forall exec_ok (xs1 ++ s :: xs2) -> exec_ok s' -> Forall exec_ok (xs1 ++ s' :: xs2).
Proof. rewrite !Forall_app, !Forall_cons. naive_solver. Qed.

Lemma timers_replace xs1 s xs2 s' :
  (forall tm, tm ∈ x_timers s' -> tm ∈ x_timers s) ->
  forall s0 tm, s0 ∈ xs1 ++ s' :: xs2 -> tm ∈ x_timers s0 -> exists s1, s1 ∈ xs1 ++ s :: xs2 /\ tm ∈ x_timers s1.
Proof.
  intros Hsub s0 tm. rewrite elem_of_app, elem_of_cons. intros Hs0 Htm.
  destruct Hs0 as [?|[->|?]]; [exists s0|exists s|exists s0]; rewrite elem_of_app, elem_of_cons; auto.
Qed.

Lemma exec_ok_fresh : exec_ok fresh_executor.
Proof. unfold exec_ok. simpl. split; [by apply NoDup_nil_2|]. intros id h t Hin. inversion Hin. Qed.

Lemma exec_ok_register taskType s : exec_ok s -> exec_ok (register taskType s).2 /\ x_timers (register taskType s).2 = x_timers s.
Proof. unfold register, exec_ok. by case_bool_decide. Qed.

Lemma timer_fires_spec j s tm s' :
  timer_fires j s = Some (tm, s') -> exec_ok s -> exec_ok s' /\ x_timers s ≡ₚ tm :: x_timers s'.
Proof.
  unfold timer_fires. destruct (x_timers s !! j) as [tm0|] eqn:Hj; [|done]. intros [= <- <-] Hok. simpl.
  pose proof (delete_Permutation _ _ _ Hj) as Hp. split; [|done].
  unfold exec_ok in *. simpl. destruct (x_stopping s); [by rewrite Hok in Hj|]. destruct Hok as [Hnd H].
  split; [by apply map_delete_NoDup|]. intros id h t [Hne Hin]%elem_of_map_delete.
  destruct (H _ _ _ Hin) as (-> & tm & Htm & <- & <-). split; [done|]. exists tm. split; [|done].
  rewrite Hp in Htm. apply elem_of_cons in Htm as [->|?]; [|done]. done.
Qed.

(** The entries a stop releases are held by its timers. *)
Lemma begin_stop_held s :
  exec_ok s -> x_stopping s = false -> (fun e => may_fire e.2) <$> (begin_stop s).1 ⊆+ held s.
Proof.
  unfold exec_ok. intros Hok Hst. rewrite Hst in Hok. destruct Hok as [Hnd H]. simpl.
  apply NoDup_submseteq.
  - apply (NoDup_fmap_1 permit_tok), (NoDup_fmap_1 fst). rewrite <-!list_fmap_compose.
    erewrite list_fmap_ext; [exact Hnd|]. intros i [id [h t]] Hi. simpl.
    apply list_elem_of_lookup_2 in Hi. by destruct (H _ _ _ Hi) as [-> _].
  - intros p (e & -> & ([id [h t]] & -> & Hin)%list_elem_of_fmap)%list_elem_of_fmap.
    destruct (H _ _ _ Hin) as (_ & tm & Htm & _ & <-). apply list_elem_of_fmap. by exists tm.
Qed.

Lemma sched_wstep_inv (w w' : World) : WInv w -> wstep w w' -> WInv w'.
Proof.
  intros (born & K & HW) Hs.
  destruct Hs as [now now' d xs ps evs Hle|now d d' xs ps evs Hj|now d xs ps evs|now d xs1 s xs2 ps evs ty
    |now d xs ps evs i p Hi Hp|now d xs1 s xs2 ps evs options j tm s' Htf|now d xs1 s xs2 ps evs Hst
    |now d xs1 s xs2 ps1 ps2 evs A f k|now d d' xs ps1 ps2 evs i o k r Hdb|now d d' xs ps1 ps2 evs i o k r err Hst Hdb
    |now d xs ps1 ps2 evs i o k err Hst|now d xs ps1 ps2 evs th|now d xs1 s xs2 ps evs].
  - exists born, K. eapply winv_table; [exact HW|done|done|apply (wi_glob _ _ _ HW)].
  - pose proof (wi_glob _ _ _ HW) as HG. destruct (glob_jobs born now d d' _ _ HG Hj) as (born' & Hb & HG').
    destruct (statement_keeps now d d' (gl_table _ _ _ _ HG) (job_statement_statement _ _ _ Hj)) as [_ Hev].
    exists born', K. by eapply winv_table.
  - exists born, K. eapply winv_exec; [exact HW|..].
    + apply Forall_app. split; [apply (wi_exec _ _ _ HW)|]. constructor; [apply exec_ok_fresh|done].
    + intros s' tm [?|Hin]%elem_of_app Htm; [by exists s'|]. apply list_elem_of_singleton in Hin as ->. inversion Htm.
    + rewrite fmap_app, concat_app. simpl. by rewrite app_nil_r.
  - pose proof (wi_exec _ _ _ HW) as Hex. worlds.
    destruct (exec_ok_register ty s) as [Hok Htm]; [by apply Forall_app in Hex as [_ [? _]%Forall_cons]|].
    exists born, K. eapply winv_exec; [exact HW|by eapply exec_replace|apply timers_replace; by rewrite Htm|].
    rewrite !held_app. unfold held at 1 3. by rewrite Htm.
  - exists born, (K ++ [([], [])]). eapply winv_spawn; [exact HW|by apply wp_pass|done|apply (wi_exec _ _ _ HW)|eauto|].
    by rewrite app_nil_r.
  - pose proof (wi_exec _ _ _ HW) as Hex. pose proof (wi_timers _ _ _ HW) as Htm. worlds.
    destruct (timer_fires_spec _ _ _ _ Htf) as [Hok Hp]; [by apply Forall_app in Hex as [_ [? _]%Forall_cons]|].
    eexists born, _. eapply (winv_spawn _ _ _ _ _ _ _ _ _ _ [seen (tm_task tm)]); [exact HW| | | | |].
    + apply wp_detached_fire. by left.
    + apply Forall_singleton. apply Forall_app in Htm as [_ [Hs _]%Forall_cons]. apply Hs. rewrite Hp. by left.
    + by eapply exec_replace.
    + apply timers_replace. intros tm' Hin. rewrite Hp. by right.
    + rewrite !held_app. unfold held at 3. rewrite Hp. simpl. unfold held at 1. solve_submseteq.
  - pose proof (wi_exec _ _ _ HW) as Hex. worlds.
    assert (Hok : exec_ok s) by (by apply Forall_app in Hex as [_ [? _]%Forall_cons]).
    eexists born, _. eapply (winv_spawn _ _ _ _ _ _ _ _ _ _ []); [exact HW|apply wp_stop_rest|done| | |].
    + by eapply exec_replace.
    + apply timers_replace. intros tm' Hin. inversion Hin.
    + rewrite !held_app. pose proof (begin_stop_held s Hok Hst) as Hsub. simpl. unfold held at 1. simpl.
      rewrite (Permutation_app_comm (held s)). by apply submseteq_app.
  - pose proof (wi_exec _ _ _ HW) as Hex. pose proof (wi_timers _ _ _ HW) as Htm. worlds.
    destruct (winv_split _ _ _ _ _ _ _ _ _ _ HW) as (K1 & kn & ks & K2 & -> & Hlen & Hwp & Hkn & HG).
    assert (Hok : exec_ok s) by (by apply Forall_app in Hex as [_ [? _]%Forall_cons]).
    destruct (Hwp s Hok) as (Hok' & ks' & Hsub & Htms & Hwp').
    exists born, (K1 ++ (kn, ks') :: K2). destruct HW as [H1 H2 _ _ _]. worlds. split; worlds.
    + apply Forall2_app_inv in H1 as [HK1 HK2]; [|done]. apply Forall2_cons_1 in HK2 as [_ HK2].
      apply Forall2_app; [done|]. by constructor.
    + apply Forall_app in H2 as [? [_ ?]%Forall_cons]. apply Forall_app. split; [done|]. by constructor.
    + by eapply exec_replace.
    + rewrite Forall_app, Forall_cons in Htm |- *. destruct Htm as (? & Hs & ?). split_and!; [done| |done].
      intros tm [?|Hin]%Htms; [by apply Hs|]. rewrite Forall_forall in Hkn. by apply Hkn.
    + eapply glob_sub; [|exact HG]. rewrite permits_of_thread, !permits_of_instance.
      rewrite !app_assoc. apply submseteq_app; [|done]. rewrite (Permutation_app_comm ks'), (Permutation_app_comm ks). done.
  - destruct (winv_split _ _ _ _ _ _ _ _ _ _ HW) as (K1 & kn & ks & K2 & -> & Hlen & Hwp & Hkn & HG).
    destruct (sop_db_keeps now o d r d' (gl_table _ _ _ _ HG) Hdb) as [_ Hev].
    destruct (call_step born now d _ evs kn ks HG Hkn o r d' _ Hwp Hdb) as [Hst _].
    exists born. by eapply (winv_thread _ _ _ _ _ _ _ _ _ _ _ _ _ _ _ r k).
  - destruct (winv_split _ _ _ _ _ _ _ _ _ _ HW) as (K1 & kn & ks & K2 & -> & Hlen & Hwp & Hkn & HG).
    destruct (sop_db_keeps now o d r d' (gl_table _ _ _ _ HG) Hdb) as [_ Hev].
    destruct (call_step born now d _ evs kn ks HG Hkn o r d' _ Hwp Hdb) as [_ Hl].
    exists born. eapply (winv_thread _ _ _ _ _ _ _ _ _ _ _ _ _ _ _ (Err err) k); [exact HW|done|done|by apply Hl].
  - destruct (winv_split _ _ _ _ _ _ _ _ _ _ HW) as (K1 & kn & ks & K2 & -> & Hlen & Hwp & Hkn & HG).
    exists born. eapply (winv_thread _ _ _ _ _ _ _ _ _ _ _ _ _ _ _ (Err err) k); [exact HW|done|done|].
    by apply (call_fails born d _ evs kn ks HG Hkn o _ err Hst Hwp).
  - exists born. by eapply winv_drop.
  - assert (Hex : Forall exec_ok (xs1 ++ fresh_executor :: xs2)).
    { eapply exec_replace; [apply (wi_exec _ _ _ HW)|apply exec_ok_fresh]. }
    exists born. eapply winv_filter, (winv_exec _ _ _ _ _ _ _ _ HW); [done|..].
    + apply timers_replace. intros tm Hin. inversion Hin.
    + rewrite !held_app. simpl. unfold held at 1. simpl. by apply submseteq_inserts_l.
Qed.

Lemma initial_inv now : WInv (initial Postgres now).
Proof.
  exists (fun _ => 1), []. split; worlds; [constructor|constructor|constructor|constructor|].
  split; [apply empty_tasks_ok|..].
  - intros id r Hr. simpl in Hr. by rewrite lookup_empty in Hr.
  - apply NoDup_nil_2.
  - constructor.
  - constructor.
  - done.
  - intros id r Hr. simpl in Hr. by rewrite lookup_empty in Hr.
  - done.
Qed.

(** A world stays on its database. *)
Lemma wsteps_dialect (w w' : World) : TableOk (w_tasks w) -> rtc wstep w w' -> dialect (w_tasks w') = dialect (w_tasks w).
Proof. intros HT Hr. by destruct (wsteps_keep w w' HT Hr) as [_ ?%evo_dialect]. Qed.

Lemma sched_reachable_inv (w : World) : reachable_world w -> on_postgres w -> WInv w.
Proof.
  intros (db & now & Hr) Hdb. assert (db = Postgres) as ->.
  { pose proof (wsteps_dialect (initial db now) w (empty_tasks_ok db) Hr) as Hd. unfold on_postgres in Hdb. by rewrite Hdb in Hd. }
  pose proof (initial_inv now) as H0. clear Hdb. revert Hr H0. generalize (initial Postgres now). intros w0 Hr.
  induction Hr as [w0|w0 w1 w2 H01 _ IH]; [done|]. intros H0. by apply IH, (sched_wstep_inv w0 w1).
Qed.
