(* ===== verification/SchedSafety.v ===== *)
(** * Scheduler: one instance alone

    The deterministic run of a program on one instance, with the table to itself: every
    call is answered by the executable statements of [SchedStore], and what the handlers do
    is a script.  A run is one of the executions of [SchedWorld] ([run_reachable]); it is
    what the sweep's specification is stated on, and what concrete executions are
    evaluated with.

    The second half states the guarantees of every reachable world. *)

From stdpp Require Import base gmap strings list fin_maps relations.
From Stdlib Require Import ZArith Lia.
From S2P Require Import Prelude.
From S2P Require Import JsCollections.
From S2P Require Import SchedTypes.
From S2P Require Import SchedStore.
From S2P Require Import SchedTable.
From S2P Require Import SchedExecutor.
From S2P Require Import SchedWorld.
From S2P Require Import SchedOnce.
From S2P Require Import SchedInv.

#[local] Open Scope Z_scope.

Record Sim := {
  sm_now : Z;
  sm_tasks : TaskTable;
  sm_exec : ExecutorState;
  sm_events : list event;
  (* what the next handler runs do: whether they report, and how they end *)
  sm_script : list (bool * HandlerEnd);
}.

Definition with_tasks (d : TaskTable) (m : Sim) : Sim :=
  {| sm_now := sm_now m; sm_tasks := d; sm_exec := sm_exec m; sm_events := sm_events m; sm_script := sm_script m |}.
Definition with_exec (s : ExecutorState) (m : Sim) : Sim :=
  {| sm_now := sm_now m; sm_tasks := sm_tasks m; sm_exec := s; sm_events := sm_events m; sm_script := sm_script m |}.

Definition answer {A} (x : A * TaskTable) (m : Sim) : sresult A * Sim := (Ok x.1, with_tasks x.2 m).

Definition script_step (l : list (bool * HandlerEnd)) : HandlerStep * list (bool * HandlerEnd) :=
  match l with
  | (true, e) :: l => (Dispatched, (true, e) :: l)
  | (false, e) :: l => (Ended e, l)
  | [] => (Ended Returned, [])
  end.

Definition handle (o : sop) (m : Sim) : sresult (sresp o) * Sim :=
  let now := sm_now m in
  let d := sm_tasks m in
  match o as o return sresult (sresp o) * Sim with
  | ClaimDueTasks opts => answer (claimDueTasks opts ∅ now d) m
  | BeginDispatch claim leaseMs => answer (beginDispatch claim leaseMs now d) m
  | MarkDispatched claim => answer (markDispatched claim now d) m
  | CompleteTask claim => answer (completeTask claim now d) m
  | FailTaskTerminal claim e => answer (failTaskTerminal claim e now d) m
  | RescheduleTask claim b e => answer (rescheduleTask claim b e now d) m
  | ReleaseClaim claim => answer (releaseClaim claim d) m
  | FindExpiredLeases limit => (Ok (findExpiredLeases limit now d), m)
  | ReclaimExpired ref b e => answer (reclaimExpired ref b e now d) m
  | DeadLetterExpired ref e => answer (deadLetterExpired ref e now d) m
  | CompleteExpired ref => answer (completeExpired ref now d) m
  | RetireMissedPending limit =>
      ((retireMissedPending limit ∅ now d).1, with_tasks (retireMissedPending limit ∅ now d).2 m)
  | Execute t =>
      let '(step, script) := script_step (sm_script m) in
      (Ok step, {| sm_now := now; sm_tasks := d; sm_exec := sm_exec m;
                   sm_events := sm_events m ++ events_of (Execute t) (Ok step); sm_script := script |})
  | Resume _ =>
      (Ok match sm_script m with (_, e) :: _ => e | [] => Returned end,
       {| sm_now := now; sm_tasks := d; sm_exec := sm_exec m; sm_events := sm_events m; sm_script := tail (sm_script m) |})
  | Local A f => (Ok (f (sm_exec m)).1, with_exec (f (sm_exec m)).2 m)
  | Aborted => (Ok false, m)
  | InstanceClock => (Ok (fun _ => now), m)
  | Pick _ => (Ok 0%nat, m)
  end.

Definition run {A} (p : sprog A) (m : Sim) : sresult A * Sim := interpret handle p m.

(** ** Runs are executions of the world *)

Definition sim_world (m : Sim) (ps : list (nat * sprog unit)) : World :=
  Build_World (sm_now m) (sm_tasks m) [sm_exec m] ps (sm_events m).

Lemma handle_step (o : sop) (m : Sim) (k : sresult (sresp o) -> sprog unit) :
  TableOk (sm_tasks m) ->
  wstep (sim_world m [(0%nat, Call o k)]) (sim_world (handle o m).2 [(0%nat, k (handle o m).1)]).
Proof.
  intros HT.
  assert (Hcall : forall r d', sop_db (sm_now m) o (sm_tasks m) r d' ->
    wstep (sim_world m [(0%nat, Call o k)])
          (Build_World (sm_now m) d' [sm_exec m] [(0%nat, k r)] (sm_events m ++ events_of o r))).
  { intros r d' H. apply (ws_call _ _ _ _ [] [] _ _ _ _ _ H). }
  assert (Hplain : forall r d', handle o m = (r, with_tasks d' m) -> events_of o r = [] ->
    sop_db (sm_now m) o (sm_tasks m) r d' ->
    wstep (sim_world m [(0%nat, Call o k)]) (sim_world (handle o m).2 [(0%nat, k (handle o m).1)])).
  { intros r d' -> He H. specialize (Hcall r d' H). rewrite He, app_nil_r in Hcall. exact Hcall. }
  assert (Hsame : with_tasks (sm_tasks m) m = m) by by destruct m.
  destruct o as [o|c l|c|c|c e|c b e|c|n|f b e|f e|f|n|t|t|A f| | |n];
    try (by eapply Hplain; [reflexivity|done|split]).
  - eapply Hplain; [reflexivity|done|]. cbn [sop_db]. unfold claimDueTasks.
    destruct (b_taskTypes o) eqn:E; [by rewrite bool_decide_true|]. rewrite bool_decide_false by done.
    eexists. split; [by apply claimDueTasks_pick|]. done.
  - eapply (Hplain _ (sm_tasks m)); [by rewrite Hsame|done|]. split; [done|]. eexists. split; [done|].
    apply Forall_forall. intros t Ht. by apply select_rows_lookup in Ht.
  - eapply Hplain; [reflexivity|done|]. exists ∅. by destruct (retireMissedPending _ _ _ _).
  - cbn [handle]. destruct (script_step _) as [step script]. apply (Hcall (Ok step)). split; [by eexists|done].
  - pose proof (Hcall (Ok match sm_script m with (_, e) :: _ => e | [] => Returned end) (sm_tasks m)) as H.
    cbn [events_of] in H. rewrite app_nil_r in H. apply H. split; [by eexists|done].
  - apply (ws_local _ _ [] (sm_exec m) [] [] []).
  - eapply (Hplain _ (sm_tasks m)); [by rewrite Hsame|done|]. split; [by eexists|done].
  - eapply (Hplain _ (sm_tasks m)); [by rewrite Hsame|done|]. split; [by eexists|done].
  - eapply (Hplain _ (sm_tasks m)); [by rewrite Hsame|done|]. split; [by eexists|done].
Qed.

Lemma run_steps (p : sprog unit) (m : Sim) :
  TableOk (sm_tasks m) -> rtc wstep (sim_world m [(0%nat, p)]) (sim_world (run p m).2 []).
Proof.
  unfold run. revert m. induction p as [a|e|o k IH]; intros m HT.
  - apply rtc_once, (ws_drop _ _ _ [] []).
  - apply rtc_once, (ws_drop _ _ _ [] []).
  - pose proof (handle_step o m k HT) as Hs. eapply rtc_l; [exact Hs|].
    destruct (wstep_keeps (sim_world m [(0%nat, Call o k)]) _ HT Hs) as [HT' _]. cbn [interpret]. destruct (handle o m) as [r m']. by apply IH.
Qed.

Lemma run_reachable (p : sprog unit) (m : Sim) :
  reachable_world (sim_world m [(0%nat, p)]) -> reachable_world (sim_world (run p m).2 []).
Proof.
  intros Hr. pose proof (reachable_table _ Hr) as HT. destruct Hr as (db & now & Hr). exists db, now.
  etransitivity; [exact Hr|]. by apply run_steps.
Qed.

(** ** Scheduler: what every execution guarantees

    The theorems about reachable worlds: a lease runs its handler at most once, retries are
    bounded, rows stay well formed and occurrences unique, finished rows stay as they are. *)

#[local] Open Scope Z_scope.

(** ** A concrete execution

    One instance, one occurrence of a job that may be tried twice; its handler reports its
    effect handed off, and throws. *)

Definition demo_occurrence : NewOccurrence :=
  {| n_jobId := 7; n_taskType := "report"; n_payload := EngineTypes.JNull; n_scheduledFor := 1000; n_runAt := 1000;
     n_maxAttempts := 2; n_missedAfter := Some 61000 |}.

Definition demo_exec : ExecutorState := (register "report" fresh_executor).2.

Definition demo_on (db : Dialect) (script : list (bool * HandlerEnd)) : Sim :=
  {| sm_now := 1000; sm_tasks := (insertIgnoringDuplicates [demo_occurrence] 1000 (empty_tasks db)).2;
     sm_exec := demo_exec; sm_events := []; sm_script := script |}.

Definition demo_start : Sim := demo_on Postgres [(true, Threw "boom"); (true, Returned)].

Definition claim_pass : sprog unit := attempt (claimAndSchedule DEFAULT_EXECUTOR_OPTIONS "main-1") ;; Ret tt.

(** The instance's first timer goes off. *)
Definition fire_first (m : Sim) : Sim :=
  match timer_fires 0 (sm_exec m) with
  | Some (tm, s) => (run (detached_fire DEFAULT_EXECUTOR_OPTIONS tm) (with_exec s m)).2
  | None => m
  end.

Definition wait (ms : Z) (m : Sim) : Sim :=
  {| sm_now := sm_now m + ms; sm_tasks := sm_tasks m; sm_exec := sm_exec m; sm_events := sm_events m;
     sm_script := sm_script m |}.

Definition demo_first : Sim := fire_first (run claim_pass demo_start).2.
Definition demo_second : Sim := fire_first (run claim_pass (wait 5000 demo_first)).2.

#[local] Arguments demo_first : simpl never.
#[local] Arguments demo_second : simpl never.
#[local] Arguments run : simpl never.

Lemma reachable_step w w' : reachable_world w -> wstep w w' -> reachable_world w'.
Proof. intros (db & now & Hr) Hs. exists db, now. by eapply rtc_r. Qed.

Lemma pass_reachable (m : Sim) (p : sprog unit) :
  pass p -> reachable_world (sim_world m []) -> reachable_world (sim_world (run p m).2 []).
Proof.
  intros Hp Hr. apply run_reachable. eapply reachable_step; [exact Hr|]. apply (ws_pass _ _ [sm_exec m] []); simpl; [lia|done].
Qed.

Lemma fire_reachable (m : Sim) : reachable_world (sim_world m []) -> reachable_world (sim_world (fire_first m) []).
Proof.
  intros Hr. unfold fire_first. destruct (timer_fires 0 (sm_exec m)) as [[tm s]|] eqn:Ht; [|done].
  apply run_reachable. eapply reachable_step; [exact Hr|]. by eapply (ws_timer _ _ [] (sm_exec m) [] []).
Qed.

Lemma wait_step (ms : Z) (m : Sim) : 0 <= ms -> wstep (sim_world m []) (sim_world (wait ms m) []).
Proof. intros H0. apply ws_clock. simpl. lia. Qed.

Lemma wait_reachable (ms : Z) (m : Sim) :
  0 <= ms -> reachable_world (sim_world m []) -> reachable_world (sim_world (wait ms m) []).
Proof. intros H0 Hr. eapply reachable_step; [exact Hr|]. by apply wait_step. Qed.

Lemma demo_on_reachable db script : reachable_world (sim_world (demo_on db script) []).
Proof.
  exists db, 1000. eapply rtc_l; [apply ws_start|]. eapply rtc_l; [apply (ws_register _ _ [] fresh_executor [] [] [] "report")|].
  eapply rtc_l; [apply ws_jobs, (js_insert _ _ [demo_occurrence] 1000)|]. done.
Qed.

Lemma demo_first_reachable : reachable_world (sim_world demo_first []).
Proof. apply fire_reachable, pass_reachable; [apply pass_claim|apply demo_on_reachable]. Qed.

Lemma demo_second_reachable : reachable_world (sim_world demo_second []).
Proof.
  apply fire_reachable, pass_reachable; [apply pass_claim|]. apply wait_reachable; [lia|apply demo_first_reachable].
Qed.

Lemma demo_second_row : exists r, rows (sm_tasks demo_second) !! 1 = Some r /\ t_status r = Succeeded.
Proof.
  assert (H : t_status <$> (rows (sm_tasks demo_second) !! 1) = Some Succeeded) by (vm_compute; reflexivity).
  apply fmap_Some in H as (r & ? & ?). exists r. split; assumption || (symmetry; assumption).
Qed.

Lemma demo_second_postgres : on_postgres (sim_world demo_second []).
Proof. vm_compute. reflexivity. Qed.

Lemma demo_second_runs : t_maxAttempts <$> ran (sm_events demo_second) = [2; 2].
Proof. vm_compute. reflexivity. Qed.

(** ** At most once per lease *)

(** C5. On Postgres a claimed task's handler runs at most once under one claim: no two runs
    in the history are of the same row under the same lease epoch, whatever the interleaving,
    failing statements, crashes, reclaims and stale timers.  (On SQLite the id of a deleted
    row may be given again, and the id and the epoch do not tell two rows apart:
    [sqlite_gives_an_id_again].) *)
Theorem handler_runs_once_per_lease (w : World) : reachable_world w -> on_postgres w -> NoDup (task_tok <$> ran (w_events w)).
Proof.
  intros Hr Hdb. destruct (sched_reachable_inv w Hr Hdb) as (born & K & HW). pose proof (gl_unique _ _ _ _ (wi_glob _ _ _ HW)) as H.
  by apply NoDup_app in H as (_ & _ & ?).
Qed.

Lemma handler_runs_once_per_lease_witness :
  reachable_world (sim_world demo_second []) /\ length (ran (sm_events demo_second)) = 2%nat /\
  NoDup (task_tok <$> ran (sm_events demo_second)).
Proof.
  split_and!; [apply demo_second_reachable|vm_compute; reflexivity|].
  apply (handler_runs_once_per_lease (sim_world demo_second [])); [apply demo_second_reachable|exact demo_second_postgres].
Defined.

(** ** Retries are bounded *)

(** C9. On Postgres, where an id is given to one occurrence only, the handler of an occurrence
    runs at most [maxAttempts] times (once, when [maxAttempts] is below one), however often
    claims are lost, released, reclaimed or retried. *)
Theorem runs_within_maxAttempts (w : World) (t : ScheduledTask) :
  reachable_world w -> on_postgres w -> t ∈ ran (w_events w) ->
  Z.of_nat (length (filter (fun t' => t_id t' = t_id t) (ran (w_events w)))) <= Z.max 1 (t_maxAttempts t).
Proof.
  intros Hr0 Hdb Ht. destruct (sched_reachable_inv w Hr0 Hdb) as (born & K & HW). pose proof (wi_glob _ _ _ HW) as HG.
  pose proof (gl_runs _ _ _ _ HG) as Hr. rewrite Forall_forall in Hr. destruct (Hr t Ht) as [_ <-].
  etransitivity; [|apply (gl_bound _ _ _ _ HG)]. unfold runs_of. rewrite filter_app, length_app.
  assert (Hlen : forall l, length (filter (fun tok : token => tok.1 = t_id t) (task_tok <$> l))
                 = length (filter (fun t' => t_id t' = t_id t) l)).
  { induction l as [|x l IH]; [done|]. rewrite fmap_cons, !filter_cons. simpl. case_decide; simpl; by rewrite IH. }
  rewrite Hlen. lia.
Qed.

Lemma runs_within_maxAttempts_witness :
  exists t, t ∈ ran (sm_events demo_second) /\ t_maxAttempts t = 2 /\
  Z.of_nat (length (filter (fun t' => t_id t' = t_id t) (ran (sm_events demo_second)))) <= Z.max 1 (t_maxAttempts t).
Proof.
  pose proof demo_second_runs as H. destruct (ran (sm_events demo_second)) as [|t l] eqn:E; [discriminate H|].
  injection H as Hm _. exists t.
  assert (Ht : t ∈ ran (w_events (sim_world demo_second [])))
    by (change (t ∈ ran (sm_events demo_second)); rewrite E; left).
  split_and!; [left|exact Hm|rewrite <-E].
  apply (runs_within_maxAttempts (sim_world demo_second [])); [apply demo_second_reachable|exact demo_second_postgres|exact Ht].
Defined.

(** ** Well-formed rows *)

(** C40. In every reachable world a row's columns agree with its status: a pending row has no
    owner, lease or markers, a running row has an owner and a lease (the table's CHECK), a
    finished row has its time; every row sits under its id, below the counter; and no two
    rows are of the same occurrence [(jobId, scheduledFor)]. *)
Theorem task_rows_well_typed (w : World) : reachable_world w ->
  (forall id r, rows (w_tasks w) !! id = Some r -> row_ok r = true /\ t_id r = id /\ id < nextTaskId (w_tasks w)) /\
  (forall i j r r', rows (w_tasks w) !! i = Some r -> rows (w_tasks w) !! j = Some r' ->
     occurrence_of r = occurrence_of r' -> i = j).
Proof.
  intros [H1 H2 H3]%reachable_table. split; [|done]. intros id r Hr. split; [by eapply H2|by apply H1].
Qed.

Lemma task_rows_well_typed_witness :
  reachable_world (sim_world demo_second []) /\ exists r, rows (sm_tasks demo_second) !! 1 = Some r /\ row_ok r = true.
Proof.
  split; [apply demo_second_reachable|].
  destruct demo_second_row as (r & Hr & _). exists r. split; [exact Hr|].
  destruct (task_rows_well_typed (sim_world demo_second []) demo_second_reachable) as [H _].
  destruct (H 1 r Hr) as [Hok _]. exact Hok.
Defined.

(** ** Finished rows *)

(** On Postgres a finished occurrence keeps its row exactly as it is, whoever still holds a
    stale claim of it, until retention or its job's removal deletes the row; and its id is
    never given to another row. *)
Lemma finished_tasks_are_final (w w' : World) (id : Z) (r : ScheduledTask) :
  reachable_world w -> on_postgres w -> rows (w_tasks w) !! id = Some r -> is_terminal (t_status r) = true -> rtc wstep w w' ->
  rows (w_tasks w') !! id = None \/ rows (w_tasks w') !! id = Some r.
Proof.
  intros HT%reachable_table Hdb Hr Ht Hs. destruct (wsteps_keep w w' HT Hs) as [_ Hev].
  destruct (rows (w_tasks w') !! id) as [r'|] eqn:Hr'; [right|by left].
  destruct (tk_key _ HT _ _ Hr) as [_ Hlt]. destruct (evo_row _ _ Hev Hdb _ _ Hr' Hlt) as (r2 & Hr2 & E).
  simplify_eq. by rewrite (ev_final _ _ E Ht).
Qed.

Lemma finished_tasks_are_final_witness :
  exists r w', rows (sm_tasks demo_second) !! 1 = Some r /\ t_status r = Succeeded /\
    rtc wstep (sim_world demo_second []) w' /\ w_now w' = 100000 /\
    (rows (w_tasks w') !! 1 = None \/ rows (w_tasks w') !! 1 = Some r).
Proof.
  destruct demo_second_row as (r & E & Hs).
  assert (Hw : rtc wstep (sim_world demo_second []) (sim_world (wait 94000 demo_second) [])).
  { apply rtc_once, (wait_step 94000 demo_second). lia. }
  exists r, (sim_world (wait 94000 demo_second) []). split_and!; [exact E|exact Hs|exact Hw|vm_compute; reflexivity|].
  apply (finished_tasks_are_final (sim_world demo_second []) (sim_world (wait 94000 demo_second) []) 1 r demo_second_reachable demo_second_postgres E).
  - rewrite Hs. reflexivity.
  - exact Hw.
Defined.

(** ** A reported dispatch does not stop a retry *)

Definition demo_ran (n : nat) : ScheduledTask := default (new_row 0 demo_occurrence) (ran (sm_events demo_second) !! n).

(** A handler that reports its effect handed off and then throws, with attempts left, is
    run again: the retry clears the marker.  (The reporter's contract says that from the
    report on the occurrence must not be retried.) *)
Lemma dispatched_then_thrown_runs_again :
  exists w t t', reachable_world w /\ w_events w = [Ran t; Reported t; Ran t'; Reported t'] /\
    t_id t = t_id t' /\ t_leaseEpoch t < t_leaseEpoch t'.
Proof.
  exists (sim_world demo_second []), (demo_ran 0), (demo_ran 1). split; [apply demo_second_reachable|].
  split; [vm_compute; reflexivity|]. split; vm_compute; reflexivity.
Qed.

(** ** SQLite gives the id of a deleted row again *)

Definition with_statement (f : TaskTable -> TaskTable) (m : Sim) : Sim := with_tasks (f (sm_tasks m)) m.

Lemma statement_reachable (f : TaskTable -> TaskTable) (m : Sim) :
  job_statement (sm_now m) (sm_tasks m) (f (sm_tasks m)) ->
  reachable_world (sim_world m []) -> reachable_world (sim_world (with_statement f m) []).
Proof. intros Hs Hr. eapply reachable_step; [exact Hr|]. by apply ws_jobs. Qed.

(** The job of the first run is removed, and its row with it; another job's occurrence is
    recorded and run. *)
Definition later_occurrence : NewOccurrence :=
  {| n_jobId := 8; n_taskType := "report"; n_payload := EngineTypes.JNull; n_scheduledFor := 1000; n_runAt := 1000;
     n_maxAttempts := 2; n_missedAfter := Some 61000 |}.

Definition rerun_on (db : Dialect) : Sim :=
  let first := fire_first (run claim_pass (demo_on db [(false, Returned); (false, Returned)])).2 in
  let next := with_statement (fun d => (insertIgnoringDuplicates [later_occurrence] 1000 d).2) (with_statement (deleteByJobIds [7]) first) in
  fire_first (run claim_pass next).2.

(** Two runs of two jobs' occurrences under one id and one lease epoch, on SQLite; on Postgres
    the ids differ. *)
Lemma sqlite_gives_an_id_again :
  reachable_world (sim_world (rerun_on Sqlite) []) /\
  (fun t => (t_jobId t, task_tok t)) <$> ran (sm_events (rerun_on Sqlite)) = [(7, (1, 1)); (8, (1, 1))] /\
  (fun t => (t_jobId t, task_tok t)) <$> ran (sm_events (rerun_on Postgres)) = [(7, (1, 1)); (8, (2, 1))].
Proof.
  split; [|split; vm_compute; reflexivity].
  apply fire_reachable, pass_reachable; [apply pass_claim|].
  apply (statement_reachable (fun d => (insertIgnoringDuplicates [later_occurrence] 1000 d).2)); [apply js_insert|].
  apply (statement_reachable (deleteByJobIds [7])); [apply js_cascade|].
  apply fire_reachable, pass_reachable; [apply pass_claim|]. apply demo_on_reachable.
Qed.
