(* ===== verification/SchedReaper.v ===== *)
(** * Scheduler: what a sweep does

    [reap] run alone, as a function on the table: overdue pending rows become missed, and
    each expired lease it selected is resolved by [resolve_expired]; every other row stays.
    With no more expired leases than the batch size, none is left. *)

From stdpp Require Import base gmap strings list sorting fin_maps.
From Stdlib Require Import ZArith Lia.
From S2P Require Import Prelude.
From S2P Require Import JsCollections.
From S2P Require Import SchedTypes.
From S2P Require Import SchedStore.
From S2P Require Import SchedTable.
From S2P Require Import SchedExecutor.
From S2P Require Import SchedWorld.
From S2P Require Import SchedSafety.

#[local] Open Scope Z_scope.

(** ** Specification *)

Inductive fate := fate_completed | fate_dead | fate_retried.

#[export] Instance fate_eq_dec : EqDecision fate.
Proof. solve_decision. Defined.

(** The effect boundary first, then the attempts left. *)
Definition expired_fate (r : ScheduledTask) : fate :=
  if decide (t_dispatchedAt r <> None) then fate_completed
  else if t_maxAttempts r <=? t_attempts r + 1 then fate_dead else fate_retried.

Definition resolve_expired (now : Z) (r : ScheduledTask) : ScheduledTask :=
  {| t_id := t_id r; t_jobId := t_jobId r; t_taskType := t_taskType r; t_payload := t_payload r;
     t_scheduledFor := t_scheduledFor r; t_maxAttempts := t_maxAttempts r; t_missedAfter := t_missedAfter r;
     t_status := match expired_fate r with fate_completed => Succeeded | fate_dead => Failed | fate_retried => Pending end;
     t_runAt := match expired_fate r with fate_retried => now + backoff (t_attempts r + 1) | _ => t_runAt r end;
     t_attempts := match expired_fate r with fate_completed => t_attempts r | _ => t_attempts r + 1 end;
     t_leaseEpoch := match expired_fate r with fate_retried => t_leaseEpoch r + 1 | _ => t_leaseEpoch r end;
     t_claimedBy := match expired_fate r with fate_retried => None | _ => t_claimedBy r end;
     t_leaseExpiresAt := match expired_fate r with fate_retried => None | _ => t_leaseExpiresAt r end;
     t_startedAt := match expired_fate r with fate_retried => None | _ => t_startedAt r end;
     t_dispatchedAt := match expired_fate r with fate_retried => None | _ => t_dispatchedAt r end;
     t_finishedAt := match expired_fate r with fate_retried => t_finishedAt r | _ => Some now end;
     t_errorMessage := match expired_fate r with fate_completed => None | _ => Some LEASE_EXPIRED_MESSAGE end |}.

Definition retire_missed (now : Z) (r : ScheduledTask) : ScheduledTask :=
  assign_columns [set_status Missed; set_finishedAt (Some now)] r.

Definition count_fate (f : fate) (l : list ScheduledTask) : Z :=
  Z.of_nat (length (filter (fun r => expired_fate r = f) l)).

(** ** One row *)

(** A criterion that selects one row. *)
Lemma update_rows_one p values d i r :
  rows d !! i = Some r -> p r = true -> (forall j r', rows d !! j = Some r' -> p r' = true -> j = i) ->
  (update_rows p values d).1 = 1 /\
  forall j, rows (update_rows p values d).2 !! j = if decide (j = i) then Some (assign_columns values r) else rows d !! j.
Proof.
  intros Hr Hp Hone. split.
  - simpl. assert (filter (fun x : Z * ScheduledTask => p x.2 = true) (rows d) = {[i := r]}) as ->; [|by rewrite map_size_singleton].
    apply map_eq. intros j. apply option_eq. intros r'. rewrite map_lookup_filter_Some, lookup_singleton_Some. simpl. split.
    + intros [Hj Hp']. pose proof (Hone _ _ Hj Hp'). subst j. split; [done|congruence].
    + intros [<- <-]. done.
  - intros j. rewrite update_rows_change, lookup_change_rows. case_decide as Hj.
    + subst j. rewrite Hr. simpl. by rewrite Hp.
    + destruct (rows d !! j) as [r'|] eqn:Hr'; [|done]. simpl. destruct (p r') eqn:Hp'; [|done]. by destruct Hj; eapply Hone.
Qed.

(** Counting the rows with given ids. *)
Lemma size_filter_ids d (ids : list Z) :
  TableOk d -> NoDup ids -> (forall id, id ∈ ids -> exists r, rows d !! id = Some r) ->
  Z.of_nat (size (filter (fun x : Z * ScheduledTask => bool_decide (t_id x.2 ∈ ids) = true) (rows d))) = Z.of_nat (length ids).
Proof.
  intros HT Hnd Hids. f_equal. rewrite <-(size_list_to_set (C := gset Z)) by done. rewrite <-size_dom. f_equal.
  apply set_eq. intros id. rewrite elem_of_dom, elem_of_list_to_set. split.
  - intros [r [Hr Hin]%map_lookup_filter_Some]. simpl in Hin. apply bool_decide_eq_true in Hin.
    by destruct (tk_key _ HT _ _ Hr) as [<- _].
  - intros Hin. destruct (Hids id Hin) as [r Hr]. exists r. apply map_lookup_filter_Some. split; [done|]. simpl.
    apply bool_decide_eq_true. by destruct (tk_key _ HT _ _ Hr) as [-> _].
Qed.

Section row.
Context (m : Sim) (t : ScheduledTask).
Notation now := (sm_now m).
Notation d := (sm_tasks m).
Context (HT : TableOk d) (Ht : rows d !! t_id t = Some t) (Hexp : lease_expired now t = true).

Definition table_with (r : ScheduledTask) (d' : TaskTable) : Prop :=
  nextTaskId d' = nextTaskId d /\
  forall j, rows d' !! j = if decide (j = t_id t) then Some r else rows d !! j.

Lemma reaper_update f values :
  dispatchedFence f t = true ->
  (runReaperUpdate (expired_ref t) values f now d).1 = 1 /\
  table_with (assign_columns values t) (runReaperUpdate (expired_ref t) values f now d).2.
Proof.
  intros Hf. destruct (update_rows_one (reapable (expired_ref t) f now) values d (t_id t) t Ht) as [H1 H2].
  - unfold reapable, expired_ref. simpl. rewrite !Z.eqb_refl, Hexp, Hf. done.
  - intros j r' Hr' Hp. destruct (tk_key _ HT _ _ Hr') as [<- _].
    unfold reapable in Hp. apply andb_true_iff in Hp as [Hp _]. criteria. done.
  - split; [exact H1|]. split; [done|exact H2].
Qed.

Lemma run_reap_row :
  exists d', run (reap_row t) m =
    (Ok (if decide (expired_fate t = fate_retried) then 1 else 0, if decide (expired_fate t = fate_dead) then 1 else 0),
     with_tasks d' m) /\ table_with (resolve_expired now t) d'.
Proof.
  unfold run, reap_row.
  destruct (t_dispatchedAt t) as [w|] eqn:Hd.
  - assert (Hf : expired_fate t = fate_completed) by (unfold expired_fate; by rewrite decide_True by congruence).
    destruct (reaper_update post_dispatch [set_status Succeeded; set_finishedAt (Some now); set_errorMessage None]) as [_ Hd'];
      [simpl; apply bool_decide_eq_true; congruence|].
    eexists. rewrite interpret_bind, interpret_call, Hf. split; [reflexivity|].
    destruct Hd' as [Hn Hrows]. split; [done|]. intros j. rewrite Hrows. case_decide; [|done].
    f_equal. unfold resolve_expired. rewrite Hf. reflexivity.
  - assert (Hnd : ~ t_dispatchedAt t <> None) by (intros H; by apply H).
    assert (Hfence : dispatchedFence pre_dispatch t = true) by (simpl; by apply bool_decide_eq_true).
    destruct (t_maxAttempts t <=? t_attempts t + 1) eqn:Hm.
    + assert (Hf : expired_fate t = fate_dead) by (unfold expired_fate; by rewrite decide_False, Hm by done).
      destruct (reaper_update pre_dispatch [set_status Failed; set_finishedAt (Some now); incr_attempts;
        set_errorMessage (Some LEASE_EXPIRED_MESSAGE)] Hfence) as [H1 Hd'].
      eexists. rewrite interpret_bind, interpret_call, Hf. cbn [handle]. unfold answer, deadLetterExpired. rewrite H1. split; [reflexivity|].
      destruct Hd' as [Hn Hrows]. split; [done|]. intros j. rewrite Hrows. case_decide; [|done].
      f_equal. unfold resolve_expired. rewrite Hf. reflexivity.
    + assert (Hf : expired_fate t = fate_retried) by (unfold expired_fate; by rewrite decide_False, Hm by done).
      destruct (reaper_update pre_dispatch [set_status Pending; set_runAt (now + backoff (t_attempts t + 1)); incr_attempts;
        incr_leaseEpoch; set_claimedBy None; set_leaseExpiresAt None; set_errorMessage (Some LEASE_EXPIRED_MESSAGE);
        set_startedAt None; set_dispatchedAt None] Hfence) as [H1 Hd'].
      eexists. rewrite interpret_bind, interpret_call, Hf. cbn [handle]. unfold answer, reclaimExpired. rewrite H1. split; [reflexivity|].
      destruct Hd' as [Hn Hrows]. split; [done|]. intros j. rewrite Hrows. case_decide; [|done].
      f_equal. unfold resolve_expired. rewrite Hf. reflexivity.
Qed.
End row.

(** ** The loop *)

Definition resolve_in (now : Z) (ids : list Z) (r : ScheduledTask) : ScheduledTask :=
  if bool_decide (t_id r ∈ ids) then resolve_expired now r else r.

Lemma resolve_expired_ok (now : Z) (r : ScheduledTask) :
  row_ok r = true -> t_status r = Running -> row_ok (resolve_expired now r) = true.
Proof.
  unfold row_ok. intros Hok Hs. rewrite Hs in Hok. destruct (expired_fate r) eqn:Hf; unfold resolve_expired; rewrite Hf; simpl;
    criteria; try done; lia.
Qed.

Lemma count_fate_cons (f : fate) (t : ScheduledTask) (l : list ScheduledTask) :
  count_fate f (t :: l) = (if decide (expired_fate t = f) then 1 else 0) + count_fate f l.
Proof. unfold count_fate. rewrite filter_cons. case_decide; rewrite ?length_cons; lia. Qed.

Lemma run_reap_rows (sel : list ScheduledTask) (m : Sim) (acc : Z * Z) :
  TableOk (sm_tasks m) -> NoDup (t_id <$> sel) ->
  (forall t, t ∈ sel -> rows (sm_tasks m) !! t_id t = Some t /\ lease_expired (sm_now m) t = true) ->
  exists d', run (reap_rows sel acc) m =
      (Ok (acc.1 + count_fate fate_retried sel, acc.2 + count_fate fate_dead sel), with_tasks d' m) /\
    nextTaskId d' = nextTaskId (sm_tasks m) /\
    forall id, rows d' !! id = resolve_in (sm_now m) (t_id <$> sel) <$> rows (sm_tasks m) !! id.
Proof.
  revert m acc. induction sel as [|t sel IH]; intros m acc HT Hnd Hsel.
  { exists (sm_tasks m). split_and!; [by destruct m, acc; unfold run, count_fate; simpl; rewrite !Z.add_0_r|done|].
    intros id. destruct (rows (sm_tasks m) !! id); [|done]. simpl. unfold resolve_in. by rewrite bool_decide_false by set_solver. }
  rewrite fmap_cons in Hnd. apply NoDup_cons in Hnd as [Hni Hnd].
  destruct (Hsel t) as [Ht Hexp]; [by left|].
  assert (HT1 : exists d1, TableOk d1 /\ run (reap_row t) m =
    (Ok (if decide (expired_fate t = fate_retried) then 1 else 0, if decide (expired_fate t = fate_dead) then 1 else 0),
     with_tasks d1 m) /\ table_with m t (resolve_expired (sm_now m) t) d1).
  { destruct (run_reap_row m t HT Ht Hexp) as (d1 & Hrun & Hd1). exists d1. split_and!; [|done|done].
    destruct Hd1 as [Hn Hrows], HT as [K1 K2 K3].
    assert (Hcases : forall j r, rows d1 !! j = Some r -> exists r0, rows (sm_tasks m) !! j = Some r0 /\
      t_id r = t_id r0 /\ occurrence_of r = occurrence_of r0 /\ row_ok r = true).
    { intros j r. rewrite Hrows. destruct (decide (j = t_id t)) as [->|]; [|intros Hr; exists r; split_and!; by eauto].
      intros [= <-]. exists t. split_and!; try done. apply resolve_expired_ok; [by eapply K2|].
      unfold lease_expired in Hexp. by criteria. }
    split.
    - intros j r Hr. destruct (Hcases j r Hr) as (r0 & Hr0 & -> & _). rewrite Hn. by apply K1.
    - intros j r Hr. by destruct (Hcases j r Hr) as (r0 & _ & _ & _ & ?).
    - intros i j r r' Hr Hr' Ho. destruct (Hcases i r Hr) as (r0 & Hr0 & _ & Ho0 & _), (Hcases j r' Hr') as (r0' & Hr0' & _ & Ho0' & _).
      apply (K3 i j r0 r0' Hr0 Hr0'). congruence. }
  destruct HT1 as (d1 & HT1 & Hrun & Hn & Hrows).
  destruct (IH (with_tasks d1 m) (acc.1 + (if decide (expired_fate t = fate_retried) then 1 else 0),
      acc.2 + (if decide (expired_fate t = fate_dead) then 1 else 0)) HT1 Hnd) as (d' & Hrun' & Hn' & Hrows').
  { intros t' Ht'. destruct (Hsel t') as [Hr Hx]; [by right|]. split; [|done]. simpl. rewrite Hrows.
    rewrite decide_False; [done|]. intros Heq. apply Hni. rewrite <-Heq. apply list_elem_of_fmap. eauto. }
  exists d'. split_and!; [|simpl in Hn'; by rewrite Hn', Hn|].
  - unfold run in *. cbn [reap_rows]. rewrite interpret_bind, (interpret_call handle Aborted). cbn [handle].
    rewrite interpret_bind, interpret_attempt, Hrun. cbn [fst snd]. rewrite Hrun'. cbn [fst snd].
    rewrite !count_fate_cons, !Z.add_assoc. by destruct m.
  - intros id. rewrite Hrows'. simpl. rewrite Hrows. destruct (decide (id = t_id t)) as [->|Hid].
    + rewrite Ht. simpl. unfold resolve_in at 1. simpl.
      rewrite bool_decide_false by done. f_equal. unfold resolve_in. by rewrite bool_decide_true by left.
    + destruct (rows (sm_tasks m) !! id) as [r|] eqn:Hr; [|done]. simpl. f_equal. unfold resolve_in.
      destruct (tk_key _ HT _ _ Hr) as [<- _]. repeat case_bool_decide; set_solver.
Qed.

(** ** The sweep *)

Definition overdue (limit : Z) (m : Sim) : list ScheduledTask :=
  select_rows (fun r => missed_pending (sm_now m) r && bool_decide (t_id r ∉ (∅ : gset Z)))
    (fun r => default 0 (t_missedAfter r)) limit (sm_tasks m).

Definition retired (limit : Z) (m : Sim) : TaskTable := (retireMissedPending limit ∅ (sm_now m) (sm_tasks m)).2.

(** C33. Every overdue pending row the sweep selects becomes [missed]; then every expired lease
    it selects is resolved exactly as [resolve_expired] says: completed when its effect was
    handed off, whatever its attempts; else failed on its last attempt; else pending again
    with the backoff, a counted attempt and a new epoch.  No other row changes, the counts
    answered are those of the rows resolved, and when there are no more expired leases than
    the batch size none is left. *)
Theorem reap_resolves (limit : Z) (m : Sim) :
  TableOk (sm_tasks m) -> 0 < limit -> isSafeInteger limit = true ->
  let sel := findExpiredLeases limit (sm_now m) (retired limit m) in
  exists d',
    run (reap limit) m =
      (Ok {| reclaimed := count_fate fate_retried sel; deadLettered := count_fate fate_dead sel;
             missed := Z.of_nat (length (overdue limit m)) |}, with_tasks d' m) /\
    (forall id, rows d' !! id =
       (fun r => if bool_decide (t_id r ∈ t_id <$> overdue limit m) then retire_missed (sm_now m) r
                 else resolve_in (sm_now m) (t_id <$> sel) r) <$> rows (sm_tasks m) !! id) /\
    (Z.of_nat (length (matching (lease_expired (sm_now m)) (retired limit m))) <= limit ->
     forall id r, rows d' !! id = Some r -> lease_expired (sm_now m) r = false).
Proof.
  intros HT Hlim Hsafe sel.
  assert (Hret : retireMissedPending limit ∅ (sm_now m) (sm_tasks m) = (Ok (Z.of_nat (length (overdue limit m))), retired limit m)).
  { unfold retired, retireMissedPending. rewrite Hsafe. simpl. rewrite (proj2 (Z.leb_gt limit 0)) by lia.
    fold (overdue limit m). cbn [fst snd]. f_equal. f_equal.
    rewrite size_filter_ids; [by rewrite length_fmap|done|by apply select_ids_NoDup|].
    intros id (r & -> & Hin)%list_elem_of_fmap. apply select_rows_lookup in Hin as [Hr _]; [|done]. eauto. }
  assert (HT1 : TableOk (retired limit m)).
  { by destruct (statement_keeps (sm_now m) (sm_tasks m) _ HT (st_retire _ _ limit ∅)). }
  assert (Hrows1 : forall id, rows (retired limit m) !! id =
     (fun r => if bool_decide (t_id r ∈ t_id <$> overdue limit m) then retire_missed (sm_now m) r else r) <$> rows (sm_tasks m) !! id).
  { intros id. unfold retired, retireMissedPending. rewrite Hsafe. simpl. rewrite (proj2 (Z.leb_gt limit 0)) by lia.
    apply lookup_fmap. }
  assert (Hsel : forall t, t ∈ sel -> rows (retired limit m) !! t_id t = Some t /\ lease_expired (sm_now m) t = true).
  { intros t Ht. by apply (select_rows_lookup _ _ _ _ _ HT1) in Ht. }
  destruct (run_reap_rows sel (with_tasks (retired limit m) m) (0, 0)) as (d' & Hrun & Hn & Hrows); simpl; try done.
  { by apply select_ids_NoDup. }
  exists d'. split_and!.
  - unfold run in *. unfold reap, retireStale. rewrite !interpret_bind, (interpret_call handle Aborted). cbn [handle].
    rewrite interpret_bind, interpret_attempt, interpret_call. cbn [handle fst snd]. rewrite Hret. cbn [fst snd interpret].
    rewrite interpret_bind, (interpret_call handle (FindExpiredLeases limit)). cbn [handle]. change (sm_now (with_tasks (retired limit m) m)) with (sm_now m).
    change (sm_tasks (with_tasks (retired limit m) m)) with (retired limit m).
    rewrite interpret_bind. fold sel. rewrite Hrun. simpl. done.
  - intros id. rewrite Hrows. simpl. rewrite Hrows1. destruct (rows (sm_tasks m) !! id) as [r|] eqn:Hr; [|done]. simpl. f_equal.
    case_bool_decide as Hin; [|done]. unfold resolve_in. rewrite bool_decide_false; [done|].
    intros (t & Heq & Ht)%list_elem_of_fmap. destruct (Hsel t Ht) as [Hrt Hx]. simpl in Heq.
    rewrite <-Heq in Hrt. destruct (tk_key _ HT _ _ Hr) as [Hk _]. rewrite Hk, Hrows1, Hr in Hrt. simpl in Hrt.
    rewrite bool_decide_true in Hrt by done. injection Hrt as <-. unfold lease_expired in Hx. simpl in Hx. done.
  - intros Hle id r'. rewrite Hrows. simpl. intros (r & Hr & ->)%fmap_Some_1. unfold resolve_in. case_bool_decide as Hin.
    + unfold lease_expired, resolve_expired. simpl. by destruct (expired_fate r).
    + destruct (lease_expired (sm_now m) r) eqn:Hx; [|done]. exfalso. apply Hin, list_elem_of_fmap. exists r. split; [done|].
      unfold sel, findExpiredLeases, select_rows. rewrite take_ge.
      * rewrite merge_sort_Permutation. apply elem_of_matching. eauto.
      * rewrite merge_sort_Permutation. lia.
Qed.

(** The instance of [SchedSafety]'s execution stalls after its claim: a lease of a minute,
    and nobody to fire it. *)
Definition stalled : Sim := wait 70000 (run claim_pass demo_start).2.

Lemma stalled_ok : TableOk (sm_tasks stalled).
Proof.
  apply (reachable_table (sim_world stalled [])), wait_reachable; [lia|].
  apply pass_reachable; [apply pass_claim|apply demo_on_reachable].
Qed.

Lemma reap_resolves_witness :
  TableOk (sm_tasks stalled) /\
  exists d', (run (reap 100) stalled).2 = with_tasks d' stalled /\
    count_fate fate_retried (findExpiredLeases 100 (sm_now stalled) (retired 100 stalled)) = 1 /\
    forall id r, rows d' !! id = Some r -> lease_expired (sm_now stalled) r = false.
Proof.
  split; [exact stalled_ok|].
  destruct (reap_resolves 100 stalled stalled_ok ltac:(lia) ltac:(reflexivity)) as (d' & Hrun & _ & Hnone).
  exists d'. rewrite Hrun. split; [reflexivity|]. split; [vm_compute; reflexivity|].
  apply Hnone. vm_compute. discriminate.
Defined.
