(* ===== verification/SchedRecurrence.v ===== *)
(** * Scheduler: recurrence

    [packages/@n8n/scheduler/src/core/recurrence]: when a schedule fires.  [Schedule] is
    validated, resolved from a stored job, stepped one fire at a time
    ([computeNextRunAt]) or walked by a generator ([occurrencesFrom]), whose states are
    [Walk].

    Two packages are arguments: [cron-parser] is [CronParser], whose cursor is advanced by
    every [next()], and luxon's calendar is [Luxon].  [CronLaws] states what the code
    relies on: parsing does not depend on the date a cursor starts from, a cursor's
    next fire depends on where it stands and not on how it got there, and it is later.
    An instant past the range of a JavaScript date is not modelled. *)

From stdpp Require Import base strings pretty list.
From Stdlib Require Import ZArith QArith Qround Lia.
From S2P Require Import Prelude.
From S2P Require Import SchedTypes.

#[local] Open Scope Z_scope.

(** ** The packages *)

(** [CronExpressionParser.parse(expression, { currentDate, tz })] and [cursor.next()]; an
    error is its message. *)
Class CronParser := {
  CronCursor : Type;
  cron_parse : string -> option Z -> string -> Prelude.result string CronCursor;
  cron_next : CronCursor -> Prelude.result string Z * CronCursor;
}.

(** A cursor over an expression, standing at an instant: parsed from there, or just fired
    there. *)
Inductive cursor_at `{CronParser} (e tz : string) : Z -> CronCursor -> Prop :=
  | at_parse t c : cron_parse e (Some t) tz = Ok c -> cursor_at e tz t c
  | at_fire t c t' c' : cursor_at e tz t c -> cron_next c = (Ok t', c') -> cursor_at e tz t' c'.

Class CronLaws `{CronParser} := {
  cron_parse_any_date e tz c : cron_parse e None tz = Ok c -> forall t, exists c', cron_parse e (Some t) tz = Ok c';
  cron_next_agrees e tz t c1 c2 :
    cursor_at e tz t c1 -> cursor_at e tz t c2 -> (cron_next c1).1 = (cron_next c2).1;
  cron_next_later e tz t c t' c' : cursor_at e tz t c -> cron_next c = (Ok t', c') -> t < t';
}.

Class Luxon := {
  DateTime : Type;
  isValidZone : string -> bool;
  fromJSDate : Z -> string -> DateTime;
  startOfDay : DateTime -> DateTime;
  minusDays : DateTime -> Z -> DateTime;
  (* [a.diff(b, 'days').days] *)
  diffDays : DateTime -> DateTime -> Q;
  dt_hour : DateTime -> Z;
  dt_weekday : DateTime -> Z;
  dt_month : DateTime -> Z;
  dt_year : DateTime -> Z;
}.

(** ** Schedules *)

Record CronFields := { cronExpression : string; timezone : option string }.

(** [Schedule]: the union of [types/schedule.ts]. *)
Inductive Schedule :=
  | CronSchedule (c : CronFields)
  | IntervalSchedule (intervalSeconds : Z)
  | OneOffSchedule (fireAt : Z)
  | RecurringCronSchedule (c : CronFields) (recurrenceUnit : RecurringCronUnit) (recurrenceSize : Z).

Definition kind_name (k : ScheduledJobKind) : string :=
  match k with Cron => "cron" | Interval => "interval" | OneOff => "one_off" | RecurringCron => "recurring_cron" end.

Definition unit_name (u : RecurringCronUnit) : string :=
  match u with Hours => "hours" | Days => "days" | Weeks => "weeks" | Months => "months" end.

(** [JSON.stringify] of a string, whose characters are code units below 256. *)
Definition hex_digit (n : nat) : string :=
  String (Ascii.ascii_of_nat (if (n <? 10)%nat then 48 + n else 87 + n)) EmptyString.

Definition json_char (c : Ascii.ascii) : string :=
  let n := Ascii.nat_of_ascii c in
  let escaped s := String (Ascii.ascii_of_nat 92) s in
  match n with
  | 34%nat | 92%nat => escaped (String c EmptyString)
  | 8%nat => escaped "b" | 9%nat => escaped "t" | 10%nat => escaped "n" | 12%nat => escaped "f"
  | 13%nat => escaped "r"
  | _ => if (n <? 32)%nat then escaped ("u00" +:+ hex_digit (n / 16) +:+ hex_digit (n mod 16))
         else String c EmptyString
  end.

Fixpoint json_chars (s : string) : string :=
  match s with EmptyString => EmptyString | String c s' => json_char c +:+ json_chars s' end.

Definition dquote : string := String (Ascii.ascii_of_nat 34) EmptyString.
Definition json_string (s : string) : string := dquote +:+ json_chars s +:+ dquote.

(** [\s], below 256. *)
Definition is_space (c : Ascii.ascii) : bool :=
  let n := Ascii.nat_of_ascii c in ((9 <=? n) && (n <=? 13) || (n =? 32) || (n =? 160))%nat.

Fixpoint count_words (inside : bool) (s : string) : Z :=
  match s with
  | EmptyString => 0
  | String c s' => if is_space c then count_words false s'
                   else (if inside then 0 else 1) + count_words true s'
  end.

(** [expression.trim().split(/\s+/).length]: splitting an empty string gives one part. *)
Definition field_count (expression : string) : Z := Z.max 1 (count_words false expression).

Definition MIN_CRON_FIELD_COUNT : Z := 5.
Definition MAX_CRON_FIELD_COUNT : Z := 6.
Definition MAX_RECURRENCE_CANDIDATES : Z := 10000.

Section Recurrence.
Context `{CronParser} `{Luxon}.

(** ** [recurrence/kinds/cron.ts] *)

Definition validateCron (s : CronFields) : sresult unit :=
  let expression := cronExpression s in
  let fieldCount := field_count expression in
  require (negb ((fieldCount <? MIN_CRON_FIELD_COUNT) || (MAX_CRON_FIELD_COUNT <? fieldCount)))
    (InvalidScheduleError ("Cron expression must have " +:+ pretty MIN_CRON_FIELD_COUNT +:+ " or "
      +:+ pretty MAX_CRON_FIELD_COUNT +:+ " fields (seconds optional), got " +:+ pretty fieldCount +:+ ": "
      +:+ json_string expression)) ≫= fun _ =>
  match timezone s with
  | Some tz => require (isValidZone tz) (InvalidScheduleError ("Unknown IANA timezone: " +:+ json_string tz))
  | None => Ok tt
  end ≫= fun _ =>
  match cron_parse expression None (default "UTC" (timezone s)) with
  | Ok _ => Ok tt
  | Err m => Err (InvalidScheduleError ("Invalid cron expression " +:+ json_string expression +:+ ": " +:+ m))
  end.

Definition resolvedTimezone (s : CronFields) : sresult string :=
  match timezone s with
  | Some tz => Ok tz
  | None => Err (InvalidScheduleError
      "Cron timezone must be resolved to a concrete zone before computing the next run, got null")
  end.

Definition parseCron (expression : string) (after : Z) (tz : string) : sresult CronCursor :=
  match cron_parse expression (Some after) tz with
  | Ok c => Ok c
  | Err m => Err (InvalidScheduleError ("Failed to evaluate cron expression " +:+ json_string expression
               +:+ " in timezone " +:+ json_string tz +:+ ": " +:+ m))
  end.

(** [cursor.next().toDate()], and the cursor after it. *)
Definition cursor_next (c : CronCursor) : sresult (Z * CronCursor) :=
  match cron_next c with
  | (Ok t, c') => Ok (t, c')
  | (Err m, _) => Err (HostError m)
  end.

Definition cronNextRun (s : CronFields) (after : Z) : sresult Z :=
  resolvedTimezone s ≫= fun tz =>
  parseCron (cronExpression s) after tz ≫= fun c =>
  fst <$> cursor_next c.

(** ** [recurrence/periods.ts] *)

(** [Math.round]. *)
Definition round (q : Q) : Z := Qfloor (q + (1 # 2))%Q.

Definition calendarDaysBetween (startOfFromDay startOfToDay : DateTime) : Z :=
  round (diffDays startOfToDay startOfFromDay).

Definition startOfSundayWeek (instant : DateTime) : DateTime :=
  minusDays (startOfDay instant) (dt_weekday instant mod 7).

Definition periodsBetween (from to : Z) (unit : RecurringCronUnit) (tz : string) : Q :=
  let start := fromJSDate from tz in
  let ende := fromJSDate to tz in
  match unit with
  | Hours => inject_Z (calendarDaysBetween (startOfDay start) (startOfDay ende) * 24 + dt_hour ende - dt_hour start)
  | Days => inject_Z (calendarDaysBetween (startOfDay start) (startOfDay ende))
  | Weeks => (inject_Z (calendarDaysBetween (startOfSundayWeek start) (startOfSundayWeek ende)) / inject_Z 7)%Q
  | Months => inject_Z (dt_year ende * 12 + dt_month ende - (dt_year start * 12 + dt_month start))
  end.

(** ** [recurrence/kinds/recurring-cron.ts] *)

(** A unit outside the list does not type; the stored [recurrenceSize] is an integer
    column. *)
Definition validateRecurringCron (c : CronFields) (recurrenceSize : Z) : sresult unit :=
  validateCron c ≫= fun _ =>
  require (2 <=? recurrenceSize)
    (InvalidScheduleError ("recurring_cron.recurrenceSize must be an integer of at least 2 (a stride of 1 is a plain cron), got "
       +:+ pretty recurrenceSize)).

Definition isOnCadence (previousFire candidate : Z) (unit : RecurringCronUnit) (recurrenceSize : Z) (tz : string) : bool :=
  let elapsed := periodsBetween previousFire candidate unit tz in
  Qeq_bool elapsed (inject_Z 0) || Qle_bool (inject_Z recurrenceSize) elapsed.

Definition no_fire_message (c : CronFields) (unit : RecurringCronUnit) (recurrenceSize : Z) : string :=
  "No fire of cron expression " +:+ json_string (cronExpression c) +:+ " lands on the every-" +:+ pretty recurrenceSize
  +:+ "-" +:+ unit_name unit +:+ " cadence within " +:+ pretty MAX_RECURRENCE_CANDIDATES +:+ " candidates".

(** The scan, with [room] candidates left before it gives up. *)
Fixpoint scan_cadence (room : nat) (cursor : CronCursor) (c : CronFields) (unit : RecurringCronUnit) (recurrenceSize : Z)
    (previousFire : Z) (tz : string) : sresult (Z * CronCursor) :=
  match room with
  | O => Err (InvalidScheduleError (no_fire_message c unit recurrenceSize))
  | S room' =>
      cursor_next cursor ≫= fun '(candidate, cursor') =>
      if isOnCadence previousFire candidate unit recurrenceSize tz then Ok (candidate, cursor')
      else scan_cadence room' cursor' c unit recurrenceSize previousFire tz
  end.

Definition advanceToOnCadence (cursor : CronCursor) (c : CronFields) (unit : RecurringCronUnit) (recurrenceSize : Z)
    (previousFire : Z) (tz : string) : sresult (Z * CronCursor) :=
  scan_cadence (Z.to_nat MAX_RECURRENCE_CANDIDATES) cursor c unit recurrenceSize previousFire tz.

Definition recurringCronNextRun (c : CronFields) (unit : RecurringCronUnit) (recurrenceSize after : Z) : sresult Z :=
  resolvedTimezone c ≫= fun tz =>
  parseCron (cronExpression c) after tz ≫= fun cursor =>
  fst <$> advanceToOnCadence cursor c unit recurrenceSize after tz.

Definition recurringCronFirstRun (c : CronFields) (from : Z) : sresult Z := cronNextRun c from.

(** ** [recurrence/kinds/interval.ts], [recurrence/kinds/one-off.ts] *)

(** [intervalSeconds] is an integer column. *)
Definition validateInterval (intervalSeconds : Z) : sresult unit :=
  require (negb (intervalSeconds <=? 0))
    (InvalidScheduleError ("interval.intervalSeconds must be a positive integer, got " +:+ pretty intervalSeconds)).

Definition intervalNextRun (intervalSeconds after : Z) : Z := after + intervalSeconds * seconds_toMilliseconds.

(** A date of the model is valid. *)
Definition validateOneOff (fireAt : Z) : sresult unit := Ok tt.

Definition oneOffNextRun (fireAt after : Z) : option Z := if after <? fireAt then Some fireAt else None.

(** ** [recurrence/validate.ts], [recurrence/next-run.ts] *)

Definition validateSchedule (s : Schedule) : sresult unit :=
  match s with
  | CronSchedule c => validateCron c
  | RecurringCronSchedule c _ n => validateRecurringCron c n
  | IntervalSchedule n => validateInterval n
  | OneOffSchedule t => validateOneOff t
  end.

Definition computeNextRunAt (s : Schedule) (after : Z) : sresult (option Z) :=
  validateSchedule s ≫= fun _ =>
  match s with
  | CronSchedule c => Some <$> cronNextRun c after
  | RecurringCronSchedule c u n => Some <$> recurringCronNextRun c u n after
  | IntervalSchedule n => Ok (Some (intervalNextRun n after))
  | OneOffSchedule t => Ok (oneOffNextRun t after)
  end.

Definition computeFirstRunAt (s : Schedule) (from : Z) : sresult (option Z) :=
  match s with
  | RecurringCronSchedule c _ _ => validateSchedule s ≫= fun _ => Some <$> recurringCronFirstRun c from
  | _ => computeNextRunAt s from
  end.

(** The generator [occurrencesFrom]: before its first [next()], suspended at a [yield], or
    finished. *)
Inductive Walk :=
  | Unstarted (s : Schedule) (first : Z)
  | InCron (cursor : CronCursor)
  | InRecurring (cursor : CronCursor) (c : CronFields) (unit : RecurringCronUnit) (recurrenceSize previous : Z) (tz : string)
  | InInterval (intervalSeconds previous : Z)
  | Finished.

Definition occurrencesFrom (s : Schedule) (first : Z) : Walk := Unstarted s first.

(** [next()]: the value yielded, or [None] once done. *)
Definition walk_next (w : Walk) : sresult (option Z * Walk) :=
  match w with
  | Unstarted s first =>
      validateSchedule s ≫= fun _ =>
      match s with
      | CronSchedule c =>
          resolvedTimezone c ≫= fun tz =>
          parseCron (cronExpression c) first tz ≫= fun cursor =>
          Ok (Some first, InCron cursor)
      | RecurringCronSchedule c u n =>
          resolvedTimezone c ≫= fun tz =>
          parseCron (cronExpression c) first tz ≫= fun cursor =>
          Ok (Some first, InRecurring cursor c u n first tz)
      | IntervalSchedule n => Ok (Some first, InInterval n first)
      | OneOffSchedule _ => Ok (Some first, Finished)
      end
  | InCron cursor => cursor_next cursor ≫= fun '(t, cursor') => Ok (Some t, InCron cursor')
  | InRecurring cursor c u n previous tz =>
      advanceToOnCadence cursor c u n previous tz ≫= fun '(t, cursor') =>
      Ok (Some t, InRecurring cursor' c u n t tz)
  | InInterval n previous => let t := intervalNextRun n previous in Ok (Some t, InInterval n t)
  | Finished => Ok (None, Finished)
  end.

(** ** [recurrence/resolve.ts] *)

Definition missing_message (j : ScheduledJob) (key : string) : string :=
  "scheduled_job " +:+ pretty (j_id j) +:+ " of kind '" +:+ kind_name (j_kind j) +:+ "' is missing '" +:+ key +:+ "'".

(** [recurrence/field.ts]; the value is the job's [key] column. *)
Definition required {A} (j : ScheduledJob) (key : string) (value : option A) : sresult A :=
  match value with
  | Some v => Ok v
  | None => Err (CorruptStorageRowError (missing_message j key))
  end.

Definition resolveCron (j : ScheduledJob) (defaultTimezone : string) : sresult Schedule :=
  required j "cronExpression" (j_cronExpression j) ≫= fun e =>
  Ok (CronSchedule {| cronExpression := e; timezone := Some (default defaultTimezone (j_timezone j)) |}).

Definition resolveRecurringCron (j : ScheduledJob) (defaultTimezone : string) : sresult Schedule :=
  required j "cronExpression" (j_cronExpression j) ≫= fun e =>
  required j "recurrenceUnit" (j_recurrenceUnit j) ≫= fun u =>
  required j "recurrenceSize" (j_recurrenceSize j) ≫= fun n =>
  Ok (RecurringCronSchedule {| cronExpression := e; timezone := Some (default defaultTimezone (j_timezone j)) |} u n).

Definition resolveInterval (j : ScheduledJob) : sresult Schedule :=
  IntervalSchedule <$> required j "intervalSeconds" (j_intervalSeconds j).

Definition resolveOneOff (j : ScheduledJob) : sresult Schedule :=
  OneOffSchedule <$> required j "fireAt" (j_fireAt j).

Definition resolveSchedule (j : ScheduledJob) (defaultTimezone : string) : sresult Schedule :=
  match j_kind j with
  | Cron => resolveCron j defaultTimezone
  | RecurringCron => resolveRecurringCron j defaultTimezone
  | Interval => resolveInterval j
  | OneOff => resolveOneOff j
  end.

(** A definition still to be stored: a cron's absent timezone is the instance's. *)
Definition scheduleFromDefinition (definition : Schedule) (defaultTimezone : string) : Schedule :=
  let resolved c := {| cronExpression := cronExpression c; timezone := Some (default defaultTimezone (timezone c)) |} in
  match definition with
  | CronSchedule c => CronSchedule (resolved c)
  | RecurringCronSchedule c u n => RecurringCronSchedule (resolved c) u n
  | IntervalSchedule _ | OneOffSchedule _ => definition
  end.

(** ** Walking is stepping *)

(** The generator is suspended at the [yield] of [t]. *)
Definition suspended_at (s : Schedule) (t : Z) (w : Walk) : Prop :=
  match s with
  | CronSchedule c =>
      exists tz cursor, timezone c = Some tz /\ cursor_at (cronExpression c) tz t cursor /\ w = InCron cursor
  | RecurringCronSchedule c u n =>
      exists tz cursor, timezone c = Some tz /\ cursor_at (cronExpression c) tz t cursor /\
        w = InRecurring cursor c u n t tz
  | IntervalSchedule n => w = InInterval n t
  | OneOffSchedule fireAt => w = Finished /\ fireAt <= t
  end.

(** What [resolveSchedule] gives: a timezone wherever one is read. *)
Definition zone_resolved (s : Schedule) : Prop :=
  match s with
  | CronSchedule c | RecurringCronSchedule c _ _ => timezone c <> None
  | _ => True
  end.

(** The first fire of a one-off is its fire time, or a later retry. *)
Definition starts_at (s : Schedule) (first : Z) : Prop :=
  match s with OneOffSchedule fireAt => fireAt <= first | _ => True end.

#[export] Instance starts_at_dec s first : Decision (starts_at s first).
Proof. destruct s; simpl; apply _. Defined.

Context `{!CronLaws}.

Lemma cursor_next_agrees e tz t c1 c2 :
  cursor_at e tz t c1 -> cursor_at e tz t c2 ->
  match cursor_next c1, cursor_next c2 with
  | Ok (t1, c1'), Ok (t2, c2') => t1 = t2 /\ t < t1 /\ cursor_at e tz t1 c1' /\ cursor_at e tz t1 c2'
  | Err e1, Err e2 => e1 = e2
  | _, _ => False
  end.
Proof.
  intros Ha Hb. unfold cursor_next. pose proof (cron_next_agrees e tz t c1 c2 Ha Hb) as Heq.
  destruct (cron_next c1) as [[t1|m1] c1'] eqn:E1, (cron_next c2) as [[t2|m2] c2'] eqn:E2;
    simpl in Heq; simplify_eq; [|done].
  split_and!; [done|exact (cron_next_later e tz t c1 _ _ Ha E1)|exact (at_fire e tz t c1 _ _ Ha E1)|exact (at_fire e tz t c2 _ _ Hb E2)].
Qed.

Lemma scan_cadence_agrees c u n tz t room e c1 c2 t0 :
  e = cronExpression c -> t0 <= t -> cursor_at e tz t c1 -> cursor_at e tz t c2 ->
  match scan_cadence room c1 c u n t0 tz, scan_cadence room c2 c u n t0 tz with
  | Ok (t1, c1'), Ok (t2, c2') =>
      t1 = t2 /\ t0 < t1 /\ isOnCadence t0 t1 u n tz = true /\ cursor_at e tz t1 c1' /\ cursor_at e tz t1 c2'
  | Err e1, Err e2 => e1 = e2
  | _, _ => False
  end.
Proof.
  intros He. revert t c1 c2. induction room as [|room IH]; intros t c1 c2 Ht Ha Hb; simpl; [done|].
  pose proof (cursor_next_agrees e tz t c1 c2 Ha Hb) as Hn.
  destruct (cursor_next c1) as [[t1 c1']|e1], (cursor_next c2) as [[t2 c2']|e2]; simpl; try done; [].
  destruct Hn as (<- & Hlt & Hc1 & Hc2). destruct (isOnCadence t0 t1 u n tz) eqn:Ho.
  - split_and!; [done|lia|done|done|done].
  - apply (IH t1); [lia|done|done].
Qed.

Lemma parseCron_at e t tz c : parseCron e t tz = Ok c -> cursor_at e tz t c.
Proof. unfold parseCron. destruct (cron_parse e (Some t) tz) eqn:Hp; [|done]. intros [= <-]. by apply at_parse. Qed.

(** A validated expression parses at every date. *)
Lemma parseCron_valid c tz t :
  validateCron c = Ok tt -> timezone c = Some tz -> exists cursor, parseCron (cronExpression c) t tz = Ok cursor.
Proof.
  unfold validateCron. intros Hv Htz. rewrite Htz in Hv. apply bind_unit_ok in Hv as [_ Hv].
  apply bind_unit_ok in Hv as [_ Hv]. simpl in Hv.
  destruct (cron_parse (cronExpression c) None tz) as [c0|m] eqn:Hp; [|done].
  destruct (cron_parse_any_date _ _ _ Hp t) as [c' Hc']. exists c'. unfold parseCron. by rewrite Hc'.
Qed.

Lemma validate_recurring c n : validateRecurringCron c n = Ok tt -> validateCron c = Ok tt.
Proof. unfold validateRecurringCron. intros Hv. by apply bind_unit_ok in Hv as [Hv _]. Qed.

(** Started on a valid schedule, the generator yields its first fire. *)
Lemma walk_starts (s : Schedule) (first : Z) :
  validateSchedule s = Ok tt -> zone_resolved s -> starts_at s first ->
  exists w, walk_next (occurrencesFrom s first) = Ok (Some first, w) /\ suspended_at s first w.
Proof.
  intros Hv Hz Hs. unfold occurrencesFrom, walk_next. rewrite Hv. simpl.
  destruct s as [c|n|t|c u n]; simpl in *.
  - destruct (timezone c) as [tz|] eqn:Htz; [|done]. unfold resolvedTimezone. rewrite Htz. simpl.
    destruct (parseCron_valid c tz first Hv Htz) as [cur Hp]. rewrite Hp. simpl.
    exists (InCron cur). split; [done|]. exists tz, cur. split_and!; [done|by apply parseCron_at|done].
  - by eexists.
  - by eexists.
  - destruct (timezone c) as [tz|] eqn:Htz; [|done]. unfold resolvedTimezone. rewrite Htz. simpl.
    destruct (parseCron_valid c tz first (validate_recurring _ _ Hv) Htz) as [cur Hp]. rewrite Hp. simpl.
    eexists. split; [done|]. exists tz, cur. split_and!; [done|by apply parseCron_at|done].
Qed.

(** Resumed, it yields what [computeNextRunAt] gives after the fire it stands at, which is
    later, or fails with the same error. *)
Lemma walk_steps (s : Schedule) (t : Z) (w : Walk) :
  validateSchedule s = Ok tt -> suspended_at s t w ->
  match walk_next w with
  | Ok (Some t', w') => computeNextRunAt s t = Ok (Some t') /\ t < t' /\ suspended_at s t' w'
  | Ok (None, w') => computeNextRunAt s t = Ok None
  | Err e => computeNextRunAt s t = Err e
  end.
Proof.
  intros Hv Hs. unfold computeNextRunAt. rewrite Hv. destruct s as [c|n|f|c u n]; simpl in *.
  - destruct Hs as (tz & cur & Htz & Hat & ->). simpl. unfold cronNextRun, resolvedTimezone. rewrite Htz. simpl.
    destruct (parseCron_valid c tz t Hv Htz) as [cur' Hp]. rewrite Hp. simpl.
    pose proof (cursor_next_agrees _ _ _ _ _ Hat (parseCron_at _ _ _ _ Hp)) as Hn.
    destruct (cursor_next cur) as [[t1 c1]|e1], (cursor_next cur') as [[t2 c2]|e2]; simpl; try done; [|by subst].
    destruct Hn as (<- & Hlt & Hc1 & _). split_and!; [done|done|]. by exists tz, c1.
  - subst w. simpl. unfold intervalNextRun, seconds_toMilliseconds. split_and!; [done| |done].
    unfold validateInterval in Hv. apply require_ok in Hv. apply negb_true_iff, Z.leb_gt in Hv. lia.
  - destruct Hs as [-> Hf]. simpl. unfold oneOffNextRun. by destruct (Z.ltb_spec t f); [lia|].
  - destruct Hs as (tz & cur & Htz & Hat & ->). simpl. unfold recurringCronNextRun, resolvedTimezone. rewrite Htz. simpl.
    destruct (parseCron_valid c tz t (validate_recurring _ _ Hv) Htz) as [cur' Hp]. rewrite Hp. simpl.
    unfold advanceToOnCadence. generalize (Z.to_nat MAX_RECURRENCE_CANDIDATES). intros room.
    pose proof (scan_cadence_agrees c u n tz t room _ _ _ t eq_refl ltac:(lia) Hat (parseCron_at _ _ _ _ Hp)) as Hn.
    destruct (scan_cadence room cur c u n t tz) as [[t1 c1]|e1], (scan_cadence room cur' c u n t tz) as [[t2 c2]|e2];
      simpl; try done; [|by subst].
    destruct Hn as (<- & Hlt & _ & Hc1 & _). split_and!; [done|done|]. by exists tz, c1.
Qed.

Lemma resolved_has_zone (j : ScheduledJob) (tz : string) (s : Schedule) : resolveSchedule j tz = Ok s -> zone_resolved s.
Proof.
  unfold resolveSchedule, resolveCron, resolveInterval, resolveOneOff, resolveRecurringCron, required.
  destruct (j_kind j), (j_cronExpression j), (j_intervalSeconds j), (j_fireAt j), (j_recurrenceUnit j), (j_recurrenceSize j);
    simpl; intros [= <-]; done.
Qed.

End Recurrence.
