(* ===== verification/SchedPlan.v ===== *)
(** * Scheduler: planning occurrences

    [packages/@n8n/scheduler/src/core/materializer]: what a due job expands into
    ([plan.ts]), which missed instants its policy drops ([misfire.ts]), one late run per
    owner ([coalesce-group.ts], [owner-key.ts]), and the rows a pass asks the store for
    ([materialize.ts]).  An entry of a JavaScript [Set] compared by identity is the
    entry's position in the planned list. *)

From stdpp Require Import base strings pretty list sorting.
From Stdlib Require Import ZArith Lia.
From S2P Require Import Prelude.
From S2P Require Import JsCollections.
From S2P Require Import SchedTypes.
From S2P Require Import SchedStore.
From S2P Require Import SchedRecurrence.

#[local] Open Scope Z_scope.

(** ** [owner-key.ts] *)

Definition lengthPrefixed (part : option string) : string :=
  match part with
  | None => "-:"
  | Some part => pretty (N.of_nat (String.length part)) +:+ ":" +:+ part
  end.

Definition ownerKeyFor (ownerType ownerId : string) (ownerMemberId : option string) : string :=
  String.concat EmptyString (lengthPrefixed <$> [Some ownerType; Some ownerId; ownerMemberId]).

(** A claimed job with its group key: the [ScheduledJob] of [types/schedule.ts]. *)
Record OwnedJob := { oj_job : ScheduledJob; oj_ownerKey : string }.

Definition withOwnerKeys (jobs : list ScheduledJob) : list OwnedJob :=
  (fun j => {| oj_job := j; oj_ownerKey := ownerKeyFor (j_ownerType j) (j_ownerId j) (j_ownerMemberId j) |}) <$> jobs.

(** ** [options.ts] *)

Record MaterializerOptions := {
  m_windowSeconds : Z;
  m_lookaheadSeconds : Z;
  m_maxPerJob : Z;
  m_batchSize : Z;
  m_planRetrySeconds : Z;
  m_defaultTimezone : string;
}.

Definition DEFAULT_MATERIALIZER_OPTIONS : MaterializerOptions :=
  {| m_windowSeconds := 60; m_lookaheadSeconds := 0; m_batchSize := 100; m_maxPerJob := 1000;
     m_planRetrySeconds := hours_toSeconds; m_defaultTimezone := "UTC" |}.

(** ** [misfire.ts] *)

Definition applyMisfirePolicy (due : list Z) (now : Z) (j : ScheduledJob) (truncated : bool) : list Z * option Z :=
  let graceDeadline := now - j_misfireGraceSeconds j * seconds_toMilliseconds in
  let behind := List.filter (fun t => t <=? now) due in
  let ahead := drop (length behind) due in
  match head behind with
  | None => (due, None)
  | Some oldest =>
      if graceDeadline <? oldest then (due, None)
      else
        match j_misfirePolicy j with
        | Coalesce | CoalesceOwner =>
            if truncated && bool_decide (ahead = []) then ([], None)
            else match last behind with
                 | Some catchUpAt => (catchUpAt :: ahead, Some catchUpAt)
                 | None => (due, None)
                 end
        | Skip => (ahead, None)
        end
  end.

(** ** [plan.ts] *)

Record OccurrencePlan := {
  o_occurrences : list Z;
  o_skippedOccurrences : Z;
  o_catchUpAt : option Z;
  o_retireBefore : option Z;
  o_nextRunAt : option Z;
  o_lastFiredAt : option Z;
}.

Definition within (fire : option Z) (windowEnd : Z) : bool :=
  match fire with Some t => t <=? windowEnd | None => false end.

(** What the instants consumed and the fire the walk stopped before make of the job. *)
Definition plan_of (j : ScheduledJob) (now windowEnd : Z) (due : list Z) (fire : option Z) : OccurrencePlan :=
  let truncated := within fire windowEnd in
  let '(occurrences, catchUpAt) := applyMisfirePolicy due now j truncated in
  {| o_occurrences := occurrences;
     o_skippedOccurrences := Z.of_nat (length due) - Z.of_nat (length occurrences);
     o_catchUpAt := catchUpAt;
     o_retireBefore := catchUpAt;
     o_nextRunAt := fire;
     o_lastFiredAt := match last due with Some t => Some t | None => j_lastFiredAt j end |}.

Section Plan.
Context `{CronParser} `{Luxon}.

(** The [while] loop: the instants consumed, with [room] left under the cap, and the fire
    the walk stopped before. *)
Fixpoint walk_due (room : nat) (windowEnd : Z) (fire : option Z) (w : Walk) : sresult (list Z * option Z) :=
  match fire, room with
  | Some t, S room' =>
      if t <=? windowEnd then
        walk_next w ≫= fun '(fire', w') =>
        walk_due room' windowEnd fire' w' ≫= fun '(due, rest) => Ok (t :: due, rest)
      else Ok ([], fire)
  | _, _ => Ok ([], fire)
  end.

Definition planOccurrences (j : ScheduledJob) (now : Z) (options : MaterializerOptions) : sresult OccurrencePlan :=
  resolveSchedule j (m_defaultTimezone options) ≫= fun schedule =>
  let windowEnd := now + m_windowSeconds options * seconds_toMilliseconds in
  match j_nextRunAt j with
  | None => Ok {| o_occurrences := []; o_skippedOccurrences := 0; o_catchUpAt := None; o_retireBefore := None;
                  o_nextRunAt := None; o_lastFiredAt := j_lastFiredAt j |}
  | Some next =>
      walk_next (occurrencesFrom schedule next) ≫= fun '(fire0, fires) =>
      walk_due (Z.to_nat (m_maxPerJob options)) windowEnd fire0 fires ≫= fun '(due, fire) =>
      Ok (plan_of j now windowEnd due fire)
  end.

(** ** [coalesce-group.ts] *)

Record PlannedJob := { p_job : OwnedJob; p_plan : OccurrencePlan }.

(** [GroupMember], with the entry's position. *)
Record GroupMember := { g_index : nat; g_entry : PlannedJob; g_latestMissedAt : Z }.

Definition toOwnedMember (index : nat) (entry : PlannedJob) : list (string * GroupMember) :=
  match o_catchUpAt (p_plan entry) with
  | Some catchUpAt =>
      if bool_decide (j_misfirePolicy (oj_job (p_job entry)) = CoalesceOwner)
      then [(oj_ownerKey (p_job entry), {| g_index := index; g_entry := entry; g_latestMissedAt := catchUpAt |})]
      else []
  | None => []
  end.

Definition groupByOwner (planned : list PlannedJob) : list (string * list GroupMember) :=
  foldl (fun groups '(key, member) => map_set key (default [] (map_get key groups) ++ [member]) groups) []
    (concat (imap toOwnedMember planned)).

Definition entry_id (m : GroupMember) : Z := j_id (oj_job (p_job (g_entry m))).

Definition latestThenLowestId (current candidate : GroupMember) : GroupMember :=
  if negb (g_latestMissedAt candidate =? g_latestMissedAt current) then
    if g_latestMissedAt current <? g_latestMissedAt candidate then candidate else current
  else if entry_id candidate <? entry_id current then candidate else current.

(** The losers of one group, by position.  A group is never empty. *)
Definition group_losers (members : list GroupMember) : list nat :=
  match members with
  | [] => []
  | m :: ms =>
      let winner := foldl latestThenLowestId m ms in
      g_index <$> List.filter (fun m => negb (g_index m =? g_index winner)%nat) members
  end.

Definition dropLateRun (entry : PlannedJob) : PlannedJob :=
  {| p_job := p_job entry;
     p_plan := {| o_occurrences := drop 1 (o_occurrences (p_plan entry));
                  o_skippedOccurrences := o_skippedOccurrences (p_plan entry);
                  o_catchUpAt := None;
                  o_retireBefore := o_retireBefore (p_plan entry);
                  o_nextRunAt := o_nextRunAt (p_plan entry);
                  o_lastFiredAt := o_lastFiredAt (p_plan entry) |} |}.

Definition applyCoalesceOwnerPolicy (planned : list PlannedJob) : list PlannedJob :=
  let losers := concat (group_losers <$> (groupByOwner planned).*2) in
  match losers with
  | [] => planned
  | _ => imap (fun i entry => if bool_decide (i ∈ losers) then dropLateRun entry else entry) planned
  end.

(** ** [countMisfires] *)

Record MisfireCount := { mc_taskType : string; mc_policy : ScheduledJobMisfirePolicy; mc_discarded : Z }.

Definition policy_name (p : ScheduledJobMisfirePolicy) : string :=
  match p with Coalesce => "coalesce" | CoalesceOwner => "coalesce_owner" | Skip => "skip" end.

Definition count_misfire (groups : list (string * MisfireCount)) (entry : PlannedJob) : list (string * MisfireCount) :=
  let j := oj_job (p_job entry) in
  let key := j_taskType j +:+ ":" +:+ policy_name (j_misfirePolicy j) in
  map_set key {| mc_taskType := j_taskType j; mc_policy := j_misfirePolicy j;
                 mc_discarded := match map_get key groups with Some c => mc_discarded c | None => 0 end
                                 + o_skippedOccurrences (p_plan entry) |} groups.

Definition countMisfires (planned : list PlannedJob) : list MisfireCount :=
  (foldl count_misfire [] (List.filter (fun e => 0 <? o_skippedOccurrences (p_plan e)) planned)).*2.

Definition totalDiscarded (misfires : list MisfireCount) : Z :=
  foldl (fun total m => total + mc_discarded m) 0 misfires.

(** ** [materialize.ts]: the pure part *)

Definition new_occurrence (now : Z) (entry : PlannedJob) (when : Z) : NewOccurrence :=
  let j := oj_job (p_job entry) in
  let runAt := if bool_decide (o_catchUpAt (p_plan entry) = Some when) then now else when in
  let visibleAt := Z.max runAt now in
  {| n_jobId := j_id j; n_taskType := j_taskType j; n_payload := j_payload j; n_scheduledFor := when; n_runAt := runAt;
     n_maxAttempts := j_maxAttempts j;
     n_missedAfter := Some (visibleAt + j_misfireGraceSeconds j * seconds_toMilliseconds) |}.

Definition toNewOccurrences (planned : list PlannedJob) (now : Z) : list NewOccurrence :=
  concat ((fun entry => new_occurrence now entry <$> o_occurrences (p_plan entry)) <$> planned).

Definition toSuperseded (planned : list PlannedJob) : list (Z * Z) :=
  concat ((fun entry =>
    match o_retireBefore (p_plan entry) with
    | None => []
    | Some before => [(j_id (oj_job (p_job entry)), before)]
    end) <$> planned).

(** The plan, and whether the job is deferred; the hook only reports. *)
Definition planOrDeferJob (job : OwnedJob) (now : Z) (options : MaterializerOptions) : PlannedJob * bool :=
  match planOccurrences (oj_job job) now options with
  | Ok plan => ({| p_job := job; p_plan := plan |}, false)
  | Err _ =>
      ({| p_job := job;
          p_plan := {| o_occurrences := []; o_skippedOccurrences := 0; o_catchUpAt := None; o_retireBefore := None;
                       o_nextRunAt := Some (now + m_planRetrySeconds options * seconds_toMilliseconds);
                       o_lastFiredAt := j_lastFiredAt (oj_job job) |} |}, true)
  end.

Definition planOrDeferJobs (jobs : list OwnedJob) (now : Z) (options : MaterializerOptions) : list PlannedJob * Z :=
  let plans := (fun job => planOrDeferJob job now options) <$> jobs in
  (plans.*1, Z.of_nat (length (List.filter snd plans))).

End Plan.

(** [advanceJobs] on one job. *)
Definition advance_job (j : ScheduledJob) (nextRunAt lastFiredAt : option Z) : ScheduledJob :=
  {| j_id := j_id j; j_name := j_name j; j_ownerType := j_ownerType j; j_ownerId := j_ownerId j;
     j_ownerMemberId := j_ownerMemberId j; j_taskType := j_taskType j; j_payload := j_payload j; j_kind := j_kind j;
     j_cronExpression := j_cronExpression j; j_timezone := j_timezone j; j_intervalSeconds := j_intervalSeconds j;
     j_fireAt := j_fireAt j; j_recurrenceUnit := j_recurrenceUnit j; j_recurrenceSize := j_recurrenceSize j;
     j_enabled := j_enabled j; j_nextRunAt := nextRunAt; j_lastFiredAt := lastFiredAt; j_maxAttempts := j_maxAttempts j;
     j_misfirePolicy := j_misfirePolicy j; j_misfireGraceSeconds := j_misfireGraceSeconds j;
     j_orphanedAt := j_orphanedAt j; j_createdAt := j_createdAt j |}.
