(* ===== verification/SchedPlanning.v ===== *)
(** * Scheduler: what planning does

    A plan consumes exactly the fires [computeNextRunAt] gives one after the other, within
    the window and the cap; passes over a job tile its schedule; a misfire policy keeps
    what it says; and a job that could not be planned comes back at its retry instant.
    [Minutes] is a concrete pair of packages: the expression of every minute, in UTC. *)

From stdpp Require Import base strings pretty list sorting sets.
From Stdlib Require Import ZArith QArith Lia Sorted.
From S2P Require Import Prelude.
From S2P Require Import JsCollections.
From S2P Require Import EngineTypes.
From S2P Require Import SchedTypes.
From S2P Require Import SchedRecurrence.
From S2P Require Import SchedPlan.

#[local] Open Scope Z_scope.

(** ** The packages at work: [* * * * *], in UTC *)

Module Minutes.

Definition every_minute : string := "* * * * *".

#[export] Instance cron : CronParser := {|
  CronCursor := Z;
  cron_parse e d tz := if bool_decide (e = every_minute) then Ok (default 0 d) else Err "Invalid cron expression"%string;
  cron_next t := (Ok ((t / 60000 + 1) * 60000), (t / 60000 + 1) * 60000);
|}.

#[export] Instance utc : Luxon := {|
  DateTime := Z;
  isValidZone tz := bool_decide (tz = "UTC"%string);
  fromJSDate t _ := t;
  startOfDay t := t / 86400000 * 86400000;
  minusDays t n := t - n * 86400000;
  diffDays a b := (inject_Z (a - b) / inject_Z 86400000)%Q;
  dt_hour t := t mod 86400000 / 3600000;
  dt_weekday t := (t / 86400000 + 3) mod 7 + 1;
  dt_month t := 1;
  dt_year t := 1970;
|}.

Lemma cursor_is (e tz : string) (t : Z) (c : Z) : @cursor_at cron e tz t c -> c = t.
Proof.
  intros Hc. induction Hc as [t c Hp|t c t' c' _ _ Hn]; simpl in *.
  - case_bool_decide; congruence.
  - congruence.
Qed.

#[export] Instance laws : @CronLaws cron.
Proof.
  split.
  - intros e tz c. simpl. case_bool_decide; [|done]. intros _ t. by eexists.
  - by intros e tz t c1 c2 ->%cursor_is ->%cursor_is.
  - intros e tz t c t' c' ->%cursor_is [= <- _]. pose proof (Z.div_mod t 60000). pose proof (Z.mod_pos_bound t 60000). lia.
Qed.

(** A job firing every minute, an hour of grace, next due at [next]. *)
Definition job (policy : ScheduledJobMisfirePolicy) (next : Z) : ScheduledJob :=
  {| j_id := 1; j_name := "tick"; j_ownerType := "workflow"; j_ownerId := "w1"; j_ownerMemberId := None;
     j_taskType := "tick"; j_payload := EngineTypes.JNull; j_kind := Cron; j_cronExpression := Some every_minute;
     j_timezone := None; j_intervalSeconds := None; j_fireAt := None; j_recurrenceUnit := None; j_recurrenceSize := None;
     j_enabled := true; j_nextRunAt := Some next; j_lastFiredAt := None; j_maxAttempts := 3; j_misfirePolicy := policy;
     j_misfireGraceSeconds := 60; j_orphanedAt := None; j_createdAt := 0 |}.

Definition schedule : Schedule := CronSchedule {| cronExpression := every_minute; timezone := Some "UTC"%string |}.

Lemma job_schedule policy next : resolveSchedule (job policy next) "UTC" = Ok schedule.
Proof. done. Qed.

Lemma schedule_valid : validateSchedule schedule = Ok tt.
Proof. done. Qed.

End Minutes.

(** ** Misfire policies *)

(** Some instant is due, and late past its grace. *)
Definition stale (due : list Z) (now : Z) (j : ScheduledJob) : Prop :=
  exists y, y ∈ due /\ y <= now /\ y <= now - j_misfireGraceSeconds j * seconds_toMilliseconds.

(** In an ordered list, the instants up to [now] are a prefix. *)
Lemma split_at_now (due : list Z) (now : Z) :
  StronglySorted Z.lt due ->
  exists ahead, due = List.filter (fun t => t <=? now) due ++ ahead /\ Forall (fun t => now < t) ahead.
Proof.
  induction 1 as [|t due Hs IH Hlt]; simpl; [by exists []|].
  destruct (Z.leb_spec t now) as [Hle|Hgt].
  - destruct IH as (ahead & Heq & Hall). exists ahead. split; [simpl; by f_equal|done].
  - assert (Hnone : List.filter (fun t => t <=? now) due = []).
    { clear -Hlt Hgt. induction Hlt as [|u due Hu _ IH]; simpl; [done|]. destruct (Z.leb_spec u now); [lia|done]. }
    rewrite Hnone. exists (t :: due). split; [done|]. constructor; [lia|]. eapply Forall_impl; [done|]. simpl. lia.
Qed.

Lemma elem_of_upto (due : list Z) (now t : Z) : t ∈ List.filter (fun t => t <=? now) due <-> t ∈ due /\ t <= now.
Proof.
  pose proof (elem_of_arr_filter (fun t => t <=? now) due t) as H. unfold arr_filter in H. rewrite H, Z.leb_le. tauto.
Qed.

Lemma sorted_last (l : list Z) (t : Z) : StronglySorted Z.lt l -> last l = Some t -> forall y, y ∈ l -> y <= t.
Proof.
  intros Hs Hl y Hy. apply last_Some in Hl as [l' ->]. apply elem_of_app in Hy as [Hy|Hy%list_elem_of_singleton]; [|lia].
  clear -Hs Hy. induction l' as [|x l' IH]; [inversion Hy|]. simpl in Hs. apply StronglySorted_inv in Hs as [Hs Hx].
  apply elem_of_cons in Hy as [->|Hy]; [|auto]. rewrite Forall_forall in Hx. pose proof (Hx t ltac:(apply elem_of_app; right; left)). lia.
Qed.

Lemma sorted_head (l : list Z) (t : Z) : StronglySorted Z.lt l -> head l = Some t -> forall y, y ∈ l -> t <= y.
Proof.
  intros Hs Hh y Hy. destruct l as [|x l]; [done|]. injection Hh as ->.
  apply StronglySorted_inv in Hs as [_ Hx]. apply elem_of_cons in Hy as [->|Hy]; [lia|].
  rewrite Forall_forall in Hx. specialize (Hx y Hy). lia.
Qed.

Lemma sorted_app_l (l k : list Z) : StronglySorted Z.lt (l ++ k) -> StronglySorted Z.lt l.
Proof.
  induction l as [|x l IH]; [constructor|]. simpl. intros Hs. apply StronglySorted_inv in Hs as [Hs Hx].
  constructor; [auto|]. by apply Forall_app in Hx as [Hx _].
Qed.

(** The policy in terms of the instants before and after [now]. *)
Lemma applyMisfirePolicy_split (behind ahead : list Z) (now : Z) (j : ScheduledJob) (truncated : bool) :
  StronglySorted Z.lt (behind ++ ahead) -> Forall (fun t => t <= now) behind -> Forall (fun t => now < t) ahead ->
  applyMisfirePolicy (behind ++ ahead) now j truncated =
    match head behind, last behind with
    | Some oldest, Some newest =>
        if now - j_misfireGraceSeconds j * seconds_toMilliseconds <? oldest then (behind ++ ahead, None)
        else if bool_decide (j_misfirePolicy j = Skip) then (ahead, None)
        else if truncated && bool_decide (ahead = []) then ([], None)
        else (newest :: ahead, Some newest)
    | _, _ => (behind ++ ahead, None)
    end.
Proof.
  intros Hs Hb Ha.
  assert (Hf : List.filter (fun t => t <=? now) (behind ++ ahead) = behind).
  { rewrite List.filter_app.
    replace (List.filter (fun t => t <=? now) ahead) with ([] : list Z).
    - rewrite app_nil_r. clear Hs. induction Hb as [|t l Ht _ IH]; simpl; [done|].
      destruct (Z.leb_spec t now); [by f_equal|lia].
    - clear Hs. induction Ha as [|t l Ht _ IH]; simpl; [done|]. by destruct (Z.leb_spec t now); [lia|]. }
  unfold applyMisfirePolicy. rewrite Hf, drop_app_length.
  destruct (head behind) as [oldest|] eqn:Hh; [|done]. destruct behind as [|b behind]; [done|].
  destruct (last (b :: behind)) as [newest|] eqn:Hl; [|by apply last_None in Hl].
  destruct (_ <? oldest); [done|]. by destruct (j_misfirePolicy j).
Qed.

Lemma applyMisfirePolicy_sublist (due : list Z) (now : Z) (j : ScheduledJob) (truncated : bool) :
  StronglySorted Z.lt due -> sublist (applyMisfirePolicy due now j truncated).1 due.
Proof.
  intros Hs. destruct (split_at_now due now Hs) as (ahead & Heq & Ha).
  assert (Hb : Forall (fun t => t <= now) (List.filter (fun t => t <=? now) due)).
  { apply Forall_forall. intros t Ht. apply elem_of_upto in Ht. tauto. }
  revert Heq Hb. generalize (List.filter (fun t => t <=? now) due). intros behind -> Hb.
  rewrite applyMisfirePolicy_split by done.
  destruct (head behind) as [oldest|]; [|done]. destruct (last behind) as [newest|] eqn:Hl; [|done].
  destruct (_ <? oldest); [done|]. case_bool_decide; [by apply sublist_inserts_l|].
  destruct (truncated && _); [apply sublist_nil_l|]. apply last_Some in Hl as [l ->].
  rewrite <-app_assoc. simpl. by apply sublist_inserts_l.
Qed.

(** No instant is past its grace when the oldest is not. *)
Lemma stale_split (behind ahead : list Z) (now : Z) (j : ScheduledJob) (oldest : Z) :
  StronglySorted Z.lt (behind ++ ahead) -> Forall (fun t => t <= now) behind -> Forall (fun t => now < t) ahead ->
  head behind = Some oldest ->
  stale (behind ++ ahead) now j <-> oldest <= now - j_misfireGraceSeconds j * seconds_toMilliseconds.
Proof.
  intros Hs Hb Ha Hh. rewrite Forall_forall in Ha. split.
  - intros (y & Hy & Hle & Hg). apply elem_of_app in Hy as [Hy|Hy]; [|specialize (Ha y Hy); lia].
    pose proof (sorted_head behind oldest (sorted_app_l _ _ Hs) Hh y Hy). lia.
  - intros Hg. destruct behind as [|b behind]; [done|]. injection Hh as ->. exists oldest.
    apply Forall_cons in Hb as [Hb _]. split_and!; [left|done|done].
Qed.

(** The policy keeps the newest missed instant and those ahead. *)
Lemma misfire_catch_up (behind ahead : list Z) (now : Z) (j : ScheduledJob) (newest : Z) (P : Prop) :
  (forall t, t ∈ ahead <-> t ∈ behind ++ ahead /\ now < t) ->
  (forall t, t ∈ behind ++ ahead /\ t <= now /\ (forall y, y ∈ behind ++ ahead -> y <= now -> y <= t) <-> t = newest) ->
  newest ∈ behind -> stale (behind ++ ahead) now j -> j_misfirePolicy j <> Skip -> P ->
  (forall t, t ∈ newest :: ahead <->
     t ∈ behind ++ ahead /\ (now < t \/ ~ stale (behind ++ ahead) now j \/ Some newest = Some t)) /\
  (forall t, Some newest = Some t <->
     stale (behind ++ ahead) now j /\ j_misfirePolicy j <> Skip /\ P /\
     t ∈ behind ++ ahead /\ t <= now /\ (forall y, y ∈ behind ++ ahead -> y <= now -> y <= t)).
Proof.
  intros Hkept Hcatch Hnew Hst Hp HP. split; intros t.
  - rewrite elem_of_cons, Hkept. split.
    + intros [->|[Ht Hlt]]; [|tauto]. split; [set_solver|tauto].
    + intros [Ht [Hlt|[?|[= ->]]]]; tauto.
  - rewrite Hcatch. split; [intros [= ->]; tauto|]. intros (_ & _ & _ & ->). done.
Qed.

Lemma misfire_kept (due : list Z) (now : Z) (j : ScheduledJob) (truncated : bool) :
  StronglySorted Z.lt due ->
  let kept := applyMisfirePolicy due now j truncated in
  (forall t, t ∈ kept.1 <-> t ∈ due /\ (now < t \/ ~ stale due now j \/ kept.2 = Some t)) /\
  (forall t, kept.2 = Some t <->
     stale due now j /\ j_misfirePolicy j <> Skip /\ (truncated = true -> exists y, y ∈ due /\ now < y) /\
     t ∈ due /\ t <= now /\ (forall y, y ∈ due -> y <= now -> y <= t)).
Proof.
  intros Hs. destruct (split_at_now due now Hs) as (ahead & Heq & Ha).
  assert (Hb : Forall (fun t => t <= now) (List.filter (fun t => t <=? now) due)).
  { apply Forall_forall. intros t Ht. apply elem_of_upto in Ht. tauto. }
  revert Heq Hb. generalize (List.filter (fun t => t <=? now) due). intros behind -> Hb kept. subst kept.
  rewrite applyMisfirePolicy_split by done.
  assert (Hahead : forall y, y ∈ ahead -> now < y) by exact (proj1 (Forall_forall _ _) Ha).
  assert (Hbehind : forall y, y ∈ behind -> y <= now) by exact (proj1 (Forall_forall _ _) Hb).
  destruct (last behind) as [newest|] eqn:Hl.
  2: { apply last_None in Hl as ->. simpl. split.
       - intros t. split; [|tauto]. intros Ht. split; [done|]. left. by apply Hahead.
       - intros t. split; [done|]. intros ((y & Hy & Hle & _) & _). specialize (Hahead y Hy). lia. }
  destruct (head behind) as [oldest|] eqn:Hh; [|by destruct behind].
  pose proof (stale_split behind ahead now j oldest Hs Hb Ha Hh) as Hstale.
  pose proof (sorted_last behind newest (sorted_app_l _ _ Hs) Hl) as Hmax.
  assert (Hnew : newest ∈ behind) by (apply last_Some in Hl as [l ->]; set_solver).
  assert (Hcatch : forall t, t ∈ behind ++ ahead /\ t <= now /\ (forall y, y ∈ behind ++ ahead -> y <= now -> y <= t) <-> t = newest).
  { intros t. split.
    - intros (Ht & Hle & Hm). apply elem_of_app in Ht as [Ht|Ht]; [|specialize (Hahead t Ht); lia].
      pose proof (Hmax t Ht). pose proof (Hm newest ltac:(set_solver) (Hbehind _ Hnew)). lia.
    - intros ->. split_and!; [set_solver|by apply Hbehind|]. intros y [Hy|Hy]%elem_of_app Hle; [by apply Hmax|].
      specialize (Hahead y Hy). lia. }
  assert (Hkept : forall t, t ∈ ahead <-> t ∈ behind ++ ahead /\ now < t).
  { intros t. rewrite elem_of_app. split; [|intros [[Ht|Ht] Hlt]; [specialize (Hbehind t Ht); lia|done]].
    intros Ht. split; [by right|by apply Hahead]. }
  destruct (Z.ltb_spec (now - j_misfireGraceSeconds j * seconds_toMilliseconds) oldest) as [Hf|Hf]; simpl.
  { assert (~ stale (behind ++ ahead) now j) by (rewrite Hstale; lia). split; intros t; [|split; [done|]]; tauto. }
  assert (Hst : stale (behind ++ ahead) now j) by (rewrite Hstale; lia).
  case_bool_decide as Hp; simpl.
  { split; intros t; [rewrite Hkept|split; [done|]]; try tauto. split; [tauto|]. intros [? [?|[?|?]]]; [done|done|done]. }
  destruct truncated; simpl; [case_bool_decide as Hnil; simpl|].
  - subst ahead. split; intros t.
    + split; [intros Ht; inversion Ht|]. intros [Ht [Hlt|[?|?]]]; [|done|done].
      rewrite app_nil_r in Ht. specialize (Hbehind t Ht). lia.
    + split; [done|]. intros (_ & _ & Hy & _). destruct (Hy eq_refl) as (y & Hin & Hlt).
      rewrite app_nil_r in Hin. specialize (Hbehind y Hin). lia.
  - apply (misfire_catch_up _ _ _ _ _ _ Hkept Hcatch Hnew Hst Hp). intros _.
    destruct ahead as [|a ahead]; [done|]. exists a. split; [set_solver|]. apply Hahead. left.
  - by apply (misfire_catch_up _ _ _ _ _ _ Hkept Hcatch Hnew Hst Hp).
Qed.

Section Planning.
Context `{CronParser} `{Luxon}.

(** ** The schedule, fire by fire *)

(** The fires from [t] on, at most [n] of them, and the one after. *)
Fixpoint fires (n : nat) (s : Schedule) (t : option Z) : sresult (list Z * option Z) :=
  match t, n with
  | Some t, S n' =>
      computeNextRunAt s t ≫= fun t' =>
      fires n' s t' ≫= fun '(l, rest) => Ok (t :: l, rest)
  | _, _ => Ok ([], t)
  end.

(** The same, stopped by a window. *)
Fixpoint fires_within (room : nat) (windowEnd : Z) (s : Schedule) (t : option Z) : sresult (list Z * option Z) :=
  match t, room with
  | Some t, S room' =>
      if t <=? windowEnd then
        computeNextRunAt s t ≫= fun t' =>
        fires_within room' windowEnd s t' ≫= fun '(l, rest) => Ok (t :: l, rest)
      else Ok ([], Some t)
  | _, _ => Ok ([], t)
  end.

Lemma fires_app (n m : nat) (s : Schedule) (t : option Z) :
  fires (n + m) s t =
    fires n s t ≫= fun '(l1, t1) => fires m s t1 ≫= fun '(l2, t2) => Ok (l1 ++ l2, t2).
Proof.
  revert t. induction n as [|n IH]; intros t.
  { destruct t; simpl; by destruct (fires m s _) as [[]|]. }
  destruct t as [t|]; [|by destruct m]. simpl.
  destruct (computeNextRunAt s t) as [t'|e]; simpl; [|done]. rewrite IH.
  destruct (fires n s t') as [[l1 t1]|e]; simpl; [|done]. by destruct (fires m s t1) as [[l2 t2]|e].
Qed.

Lemma fires_within_fires (room : nat) (windowEnd : Z) (s : Schedule) (t : option Z) l rest :
  fires_within room windowEnd s t = Ok (l, rest) ->
  fires (length l) s t = Ok (l, rest) /\ (length l <= room)%nat /\ Forall (fun x => x <= windowEnd) l /\
  (length l = room \/ within rest windowEnd = false).
Proof.
  revert t l. induction room as [|room IH]; intros [t|] l; simpl.
  - intros [= <- <-]. simpl. split_and!; [done|lia|done|by left].
  - intros [= <- <-]. simpl. split_and!; [done|lia|done|by left].
  - destruct (Z.leb_spec t windowEnd) as [Hw|Hw].
    + destruct (computeNextRunAt s t) as [t'|e] eqn:Hn; simpl; [|done].
      destruct (fires_within room windowEnd s t') as [[l' r']|e] eqn:Hf; simpl; [|done]. intros [= <- <-].
      destruct (IH _ _ Hf) as (Hl & Hlen & Hall & Hend). simpl. rewrite Hn. simpl. rewrite Hl. simpl.
      split_and!; [done|lia|by constructor|]. destruct Hend; [left; lia|by right].
    + intros [= <- <-]. simpl. split_and!; [done|lia|done|]. right. by apply Z.leb_gt.
  - intros [= <- <-]. simpl. split_and!; [done|lia|done|by right].
Qed.

Context `{!CronLaws}.

(** ** The walk *)

Lemma walk_due_fires (s : Schedule) (windowEnd : Z) (room : nat) (t : Z) (w : Walk) :
  validateSchedule s = Ok tt -> suspended_at s t w ->
  walk_due room windowEnd (Some t) w = fires_within room windowEnd s (Some t).
Proof.
  intros Hv. revert t w. induction room as [|room IH]; intros t w Hs; simpl; [done|].
  destruct (t <=? windowEnd); [|done]. pose proof (walk_steps s t w Hv Hs) as Hn.
  destruct (walk_next w) as [[[t'|] w']|e]; simpl.
  - destruct Hn as (-> & _ & Hs'). simpl. by rewrite (IH t' w' Hs').
  - rewrite Hn. simpl. by destruct room.
  - by rewrite Hn.
Qed.

(** The plan made by stepping. *)
Definition plan_by_stepping (j : ScheduledJob) (s : Schedule) (now : Z) (options : MaterializerOptions) (next : Z)
  : sresult OccurrencePlan :=
  let windowEnd := now + m_windowSeconds options * seconds_toMilliseconds in
  '(due, fire) ← fires_within (Z.to_nat (m_maxPerJob options)) windowEnd s (Some next);
  Ok (plan_of j now windowEnd due fire).

Lemma planOccurrences_steps (j : ScheduledJob) (s : Schedule) (now : Z) (options : MaterializerOptions) (next : Z) :
  resolveSchedule j (m_defaultTimezone options) = Ok s -> validateSchedule s = Ok tt ->
  j_nextRunAt j = Some next -> starts_at s next ->
  planOccurrences j now options = plan_by_stepping j s now options next.
Proof.
  intros Hr Hv Hn Hs. unfold planOccurrences, plan_by_stepping. rewrite Hr. cbn [mbind result_bind]. rewrite Hn.
  destruct (walk_starts s next Hv (resolved_has_zone _ _ _ Hr) Hs) as (w & Hw & Hsus). rewrite Hw. simpl.
  by rewrite (walk_due_fires s _ _ next w Hv Hsus).
Qed.

(** ** Fires come in order *)

Lemma computeNextRunAt_later (s : Schedule) (t t' : Z) :
  validateSchedule s = Ok tt -> zone_resolved s -> computeNextRunAt s t = Ok (Some t') -> t < t'.
Proof.
  intros Hv Hz Hc. destruct (decide (starts_at s t)) as [Hs|Hs].
  - destruct (walk_starts s t Hv Hz Hs) as (w & _ & Hsus). pose proof (walk_steps s t w Hv Hsus) as Hn.
    rewrite Hc in Hn. destruct (walk_next w) as [[[t1|] w']|e]; [|done|done]. by destruct Hn as ([= ->] & Hlt & _).
  - destruct s as [c|n|f|c u n]; simpl in Hs; try done; [].
    unfold computeNextRunAt in Hc. simpl in Hc. unfold oneOffNextRun in Hc. destruct (Z.ltb_spec t f); simplify_eq. done.
Qed.

Lemma fires_sorted (n : nat) (s : Schedule) (t : option Z) l rest :
  validateSchedule s = Ok tt -> zone_resolved s -> fires n s t = Ok (l, rest) ->
  StronglySorted Z.lt l /\ (forall x, x ∈ l -> exists t0, t = Some t0 /\ t0 <= x) /\
  (forall x r, x ∈ l -> rest = Some r -> x < r).
Proof.
  intros Hv Hz. revert t l rest. induction n as [|n IH]; intros [t|] l rest; simpl; try (intros [= <- <-]);
    try (split_and!; [constructor|intros x Hx; inversion Hx|intros x r Hx; inversion Hx]).
  destruct (computeNextRunAt s t) as [t'|e] eqn:Hn; simpl; [|done].
  destruct (fires n s t') as [[l' r']|e] eqn:Hf; simpl; [|done]. intros [= <- <-].
  destruct (IH _ _ _ Hf) as (Hsort & Hlow & Hhigh).
  assert (Hlt : forall x, x ∈ l' -> t < x).
  { intros x Hx. destruct (Hlow x Hx) as (t0 & -> & Hle). pose proof (computeNextRunAt_later s t t0 Hv Hz Hn). lia. }
  split_and!.
  - constructor; [done|]. apply Forall_forall. intros x Hx. by apply Hlt.
  - intros x Hx. exists t. split; [done|]. apply elem_of_cons in Hx as [->|Hx]; [lia|]. pose proof (Hlt x Hx). lia.
  - intros x r Hx ->. apply elem_of_cons in Hx as [->|Hx]; [|by apply (Hhigh x r)].
    destruct n as [|n]; simpl in Hf.
    + destruct t'; simplify_eq. by eapply computeNextRunAt_later.
    + destruct t' as [t1|]; [|simplify_eq]. destruct (computeNextRunAt s t1) as [t2|]; simpl in Hf; [|done].
      destruct (fires n s t2) as [[l2 r2]|]; simpl in Hf; [|done]. simplify_eq.
      pose proof (Hlt t1 ltac:(left)). pose proof (Hhigh t1 r ltac:(left) eq_refl). lia.
Qed.

(** ** Passes *)

Lemma plan_of_consumes (j : ScheduledJob) (now windowEnd : Z) (due : list Z) (fire : option Z) :
  StronglySorted Z.lt due ->
  sublist (o_occurrences (plan_of j now windowEnd due fire)) due /\
  Z.of_nat (length due) = Z.of_nat (length (o_occurrences (plan_of j now windowEnd due fire)))
                          + o_skippedOccurrences (plan_of j now windowEnd due fire) /\
  o_nextRunAt (plan_of j now windowEnd due fire) = fire.
Proof.
  intros Hs. unfold plan_of. pose proof (applyMisfirePolicy_sublist due now j (within fire windowEnd) Hs) as Hsub.
  destruct (applyMisfirePolicy due now j (within fire windowEnd)) as [occ c]. simpl in *.
  split_and!; [done|lia|done].
Qed.

(** What a pass consumes of a schedule. *)
Lemma planOccurrences_consumes (j : ScheduledJob) (s : Schedule) (now : Z) (options : MaterializerOptions) plan :
  resolveSchedule j (m_defaultTimezone options) = Ok s -> validateSchedule s = Ok tt ->
  (forall next, j_nextRunAt j = Some next -> starts_at s next) ->
  planOccurrences j now options = Ok plan ->
  exists due, fires (length due) s (j_nextRunAt j) = Ok (due, o_nextRunAt plan) /\
    sublist (o_occurrences plan) due /\
    Z.of_nat (length due) = Z.of_nat (length (o_occurrences plan)) + o_skippedOccurrences plan.
Proof.
  intros Hr Hv Hs Hp. destruct (j_nextRunAt j) as [next|] eqn:Hn.
  - rewrite (planOccurrences_steps j s now options next Hr Hv Hn (Hs _ eq_refl)) in Hp. unfold plan_by_stepping in Hp.
    destruct (fires_within _ _ _ _) as [[due fire]|e] eqn:Hf; simpl in Hp; [|done]. injection Hp as <-.
    destruct (fires_within_fires _ _ _ _ _ _ Hf) as (Hfires & _).
    destruct (fires_sorted _ _ _ _ _ Hv (resolved_has_zone _ _ _ Hr) Hfires) as (Hsort & _).
    exists due. destruct (plan_of_consumes j now (now + m_windowSeconds options * seconds_toMilliseconds) due fire Hsort)
      as (Hsub & Hlen & Hnext). by rewrite Hnext.
  - unfold planOccurrences in Hp. rewrite Hr in Hp. simpl in Hp. rewrite Hn in Hp. injection Hp as <-. by exists [].
Qed.

Lemma starts_at_later (s : Schedule) (n : nat) (t : option Z) l rest :
  validateSchedule s = Ok tt -> zone_resolved s -> (forall x, t = Some x -> starts_at s x) ->
  fires n s t = Ok (l, rest) -> forall x, rest = Some x -> starts_at s x.
Proof.
  intros Hv Hz. revert t l. induction n as [|n IH]; intros [t|] l Ht; simpl; try (by intros [= _ <-]).
  destruct (computeNextRunAt s t) as [t'|e] eqn:Hn; simpl; [|done].
  destruct (fires n s t') as [[l' r']|e] eqn:Hf; simpl; [|done]. intros [= _ <-]. apply (IH t' l'); [|done].
  intros x ->. pose proof (computeNextRunAt_later s t x Hv Hz Hn). specialize (Ht t eq_refl).
  destruct s; simpl in *; try done; lia.
Qed.

End Planning.

(** ** The claims *)

Section Claims.
Context `{CronParser} `{Luxon} `{!CronLaws}.

(** Walking the generator with one cursor is calling [computeNextRunAt] in a loop: whatever
    the schedule's kind, its plan for a pass is the plan made of the fires [computeNextRunAt]
    gives one after the other, from the job's next run, as long as they are within the
    window and under the cap; an error of the one is the error of the other. *)
Lemma plan_steps_the_schedule (j : ScheduledJob) (s : Schedule) (now : Z)
    (options : MaterializerOptions) (next : Z) :
  resolveSchedule j (m_defaultTimezone options) = Ok s -> validateSchedule s = Ok tt ->
  j_nextRunAt j = Some next -> starts_at s next ->
  planOccurrences j now options = plan_by_stepping j s now options next.
Proof. apply planOccurrences_steps. Qed.

(** A misfire policy, on instants in order: nothing is dropped while every due instant is
    within its grace.  Once one is past it, the instants still ahead are kept, [coalesce]
    keeps the latest missed one as the catch-up run (unless the cap ended the walk with
    nothing ahead of [now]), [skip] keeps none of the missed. *)
Lemma misfire_keeps (due : list Z) (now : Z) (j : ScheduledJob) (truncated : bool) :
  StronglySorted Z.lt due ->
  let kept := applyMisfirePolicy due now j truncated in
  (forall t, t ∈ kept.1 <-> t ∈ due /\ (now < t \/ ~ stale due now j \/ kept.2 = Some t)) /\
  (forall t, kept.2 = Some t <->
     stale due now j /\ j_misfirePolicy j <> Skip /\ (truncated = true -> exists y, y ∈ due /\ now < y) /\
     t ∈ due /\ t <= now /\ (forall y, y ∈ due -> y <= now -> y <= t)).
Proof. apply misfire_kept. Qed.

(** C32. What a pass plans for one job, before owners' late runs are coalesced.  The job's
    schedule is valid, its clock stands at a fire, and the cron parser obeys [CronLaws]: it
    answers fires in order, the same ones from the same place.  The pass consumes the fires
    [computeNextRunAt] gives one after the other from the clock on, in increasing order, up to
    the end of its window, and stops short of that only at the cap; the clock it leaves is at
    the fire after them.  Of these it records the ones still ahead, all of them unless one is
    past its grace, and then of the missed ones at most the catch-up run: the latest missed
    one, unless the policy is to skip them, or the cap was reached with nothing ahead.  The
    rest is counted as skipped. *)
Theorem plan_records_the_due_fires (options : MaterializerOptions) (s : Schedule) (now : Z) (j : ScheduledJob) (plan : OccurrencePlan) :
  resolveSchedule j (m_defaultTimezone options) = Ok s -> validateSchedule s = Ok tt ->
  (forall next, j_nextRunAt j = Some next -> starts_at s next) ->
  planOccurrences j now options = Ok plan ->
  let windowEnd := now + m_windowSeconds options * seconds_toMilliseconds in
  exists due, fires (length due) s (j_nextRunAt j) = Ok (due, o_nextRunAt plan) /\ StronglySorted Z.lt due /\
    Forall (fun t => t <= windowEnd) due /\ (length due <= Z.to_nat (m_maxPerJob options))%nat /\
    (length due = Z.to_nat (m_maxPerJob options) \/ within (o_nextRunAt plan) windowEnd = false) /\
    sublist (o_occurrences plan) due /\
    (forall t, t ∈ o_occurrences plan <-> t ∈ due /\ (now < t \/ ~ stale due now j \/ o_catchUpAt plan = Some t)) /\
    (forall t, o_catchUpAt plan = Some t <->
       stale due now j /\ j_misfirePolicy j <> Skip /\ (within (o_nextRunAt plan) windowEnd = true -> exists y, y ∈ due /\ now < y) /\
       t ∈ due /\ t <= now /\ (forall y, y ∈ due -> y <= now -> y <= t)) /\
    o_skippedOccurrences plan = Z.of_nat (length due) - Z.of_nat (length (o_occurrences plan)).
Proof.
  intros Hr Hv Hs Hp windowEnd. destruct (j_nextRunAt j) as [next|] eqn:Hn.
  - rewrite (planOccurrences_steps j s now options next Hr Hv Hn (Hs _ eq_refl)) in Hp. unfold plan_by_stepping in Hp. fold windowEnd in Hp.
    destruct (fires_within _ _ _ _) as [[due fire]|e] eqn:Hf; simpl in Hp; [|done]. injection Hp as <-.
    destruct (fires_within_fires _ _ _ _ _ _ Hf) as (Hfires & Hlen & Hwin & Hend).
    destruct (fires_sorted _ _ _ _ _ Hv (resolved_has_zone _ _ _ Hr) Hfires) as (Hsort & _). exists due.
    destruct (plan_of_consumes j now windowEnd due fire Hsort) as (Hsub & Hskip & Hnext).
    destruct (misfire_kept due now j (within fire windowEnd) Hsort) as [Hkept Hcatch].
    rewrite Hnext. split_and!; try done; [| |lia]; unfold plan_of; destruct (applyMisfirePolicy _ _ _ _); simpl; [exact Hkept|exact Hcatch].
  - unfold planOccurrences in Hp. rewrite Hr in Hp. simpl in Hp. rewrite Hn in Hp. injection Hp as <-. exists []. simpl.
    split_and!; try done; [constructor|lia|by right| |].
    + intros t. split; [intros Ht; by apply not_elem_of_nil in Ht|intros [Ht _]; by apply not_elem_of_nil in Ht].
    + intros t. split; [done|]. intros (_ & _ & _ & Ht & _). by apply not_elem_of_nil in Ht.
Qed.

End Claims.

Lemma first_yield `{CronParser} `{Luxon} (s : Schedule) (first : Z) (fire : option Z) (w : Walk) :
  walk_next (occurrencesFrom s first) = Ok (fire, w) -> fire = Some first.
Proof.
  unfold occurrencesFrom, walk_next. intros Hw. apply bind_ok in Hw as (_ & _ & Hw).
  destruct s as [c|n|t|c u n]; try congruence; apply bind_ok in Hw as (tz & _ & Hw);
    apply bind_ok in Hw as (cur & _ & Hw); congruence.
Qed.

(** A plan whose first instant is due and within its grace records that instant first. *)
Lemma planOccurrences_head `{CronParser} `{Luxon} (j : ScheduledJob) (now : Z) (options : MaterializerOptions)
    (plan : OccurrencePlan) (next : Z) :
  j_nextRunAt j = Some next -> next <= now -> now - j_misfireGraceSeconds j * seconds_toMilliseconds < next ->
  0 < m_maxPerJob options -> 0 <= m_windowSeconds options ->
  planOccurrences j now options = Ok plan -> head (o_occurrences plan) = Some next.
Proof.
  intros Hn Hle Hgrace Hmax Hwin Hp. unfold planOccurrences in Hp. apply bind_ok in Hp as (s & _ & Hp).
  rewrite Hn in Hp. apply bind_ok in Hp as ([fire w] & Hw & Hp). apply first_yield in Hw as ->.
  apply bind_ok in Hp as ([due rest] & Hdue & Hp). injection Hp as <-.
  destruct (Z.to_nat (m_maxPerJob options)) as [|room] eqn:Hroom; [lia|]. simpl in Hdue.
  unfold seconds_toMilliseconds in *. destruct (Z.leb_spec next (now + m_windowSeconds options * 1000)); [|lia].
  apply bind_ok in Hdue as ([fire' w'] & _ & Hdue). apply bind_ok in Hdue as ([due' rest'] & _ & Hdue).
  injection Hdue as <- <-. unfold plan_of, applyMisfirePolicy. simpl. destruct (Z.leb_spec next now); [|lia]. simpl.
  unfold seconds_toMilliseconds. by destruct (Z.ltb_spec (now - j_misfireGraceSeconds j * 1000) next); [|lia].
Qed.

(** A job whose planning fails is put off to [now + planRetrySeconds] with nothing recorded,
    and that instant is then taken for a fire of its schedule: the first pass that can plan
    it again (with the packages as they are then) records an occurrence at the retry
    instant first, whether or not the schedule fires there. *)
Lemma deferred_job_fires_at_its_retry (P1 P2 : CronParser) (L1 L2 : Luxon) (job : OwnedJob) (now now' retryAt : Z)
    (options : MaterializerOptions) (entry : PlannedJob) (plan : OccurrencePlan) :
  @planOrDeferJob P1 L1 job now options = (entry, true) ->
  retryAt = now + m_planRetrySeconds options * seconds_toMilliseconds ->
  retryAt <= now' -> now' - j_misfireGraceSeconds (oj_job job) * seconds_toMilliseconds < retryAt ->
  0 < m_maxPerJob options -> 0 <= m_windowSeconds options ->
  @planOccurrences P2 L2 (advance_job (oj_job job) (o_nextRunAt (p_plan entry)) (o_lastFiredAt (p_plan entry)))
    now' options = Ok plan ->
  o_occurrences (p_plan entry) = [] /\ head (o_occurrences plan) = Some retryAt.
Proof.
  intros Hd -> Hle Hgrace Hmax Hwin Hp. unfold planOrDeferJob in Hd.
  destruct (@planOccurrences P1 L1 (oj_job job) now options) as [?|e]; [done|]. injection Hd as <-.
  split; [done|]. revert Hp. apply planOccurrences_head; done.
Qed.

Import Minutes.

(** Timezone data an hour out of date, then up to date: the job of every minute runs at
    02:00:01.5 past the epoch. *)
Lemma deferred_job_fires_at_its_retry_witness :
  let utc' := {| DateTime := Z; isValidZone _ := false; fromJSDate := @fromJSDate utc; startOfDay := @startOfDay utc;
                 minusDays := @minusDays utc; diffDays := @diffDays utc; dt_hour := @dt_hour utc;
                 dt_weekday := @dt_weekday utc; dt_month := @dt_month utc; dt_year := @dt_year utc |} in
  exists job entry plan,
    @planOrDeferJob cron utc' job 3601500 DEFAULT_MATERIALIZER_OPTIONS = (entry, true) /\
    o_occurrences (p_plan entry) = [] /\ head (o_occurrences plan) = Some 7201500.
Proof.
  intros utc'. set (job := {| oj_job := Minutes.job Coalesce 3600000; oj_ownerKey := "k" |}).
  destruct (@planOrDeferJob cron utc' job 3601500 DEFAULT_MATERIALIZER_OPTIONS) as [entry deferred] eqn:Hd.
  assert (deferred = true) as -> by (vm_compute in Hd; congruence).
  destruct (@planOccurrences cron utc (advance_job (oj_job job) (o_nextRunAt (p_plan entry)) (o_lastFiredAt (p_plan entry))) 7201600
              DEFAULT_MATERIALIZER_OPTIONS) as [plan|e] eqn:Hp;
    [|vm_compute in Hd; injection Hd as <-; by vm_compute in Hp].
  exists job, entry, plan. split; [done|].
  apply (deferred_job_fires_at_its_retry cron cron utc' utc job 3601500 7201600 7201500 DEFAULT_MATERIALIZER_OPTIONS entry plan Hd);
    [reflexivity|lia|vm_compute; reflexivity|reflexivity|vm_compute; discriminate|exact Hp].
Defined.

Lemma plan_steps_the_schedule_witness :
  planOccurrences (Minutes.job Coalesce 60000) 300000 DEFAULT_MATERIALIZER_OPTIONS =
  plan_by_stepping (Minutes.job Coalesce 60000) Minutes.schedule 300000 DEFAULT_MATERIALIZER_OPTIONS 60000.
Proof. apply plan_steps_the_schedule; reflexivity || exact I. Defined.

Lemma misfire_keeps_witness :
  let kept := applyMisfirePolicy [60000; 120000; 180000; 240000] 200000 (Minutes.job Coalesce 60000) false in
  kept = ([180000; 240000], Some 180000) /\
  (180000 ∈ kept.1 <-> 180000 ∈ [60000; 120000; 180000; 240000] /\
     (200000 < 180000 \/ ~ stale [60000; 120000; 180000; 240000] 200000 (Minutes.job Coalesce 60000) \/
      kept.2 = Some 180000)).
Proof.
  intros kept. split; [reflexivity|].
  apply (misfire_keeps [60000; 120000; 180000; 240000] 200000 (Minutes.job Coalesce 60000) false).
  repeat constructor; lia.
Defined.

(** A pass nine minutes late: of the ten fires up to now the last is caught up, and one fire
    is ahead. *)
Lemma plan_records_the_due_fires_witness :
  exists plan, planOccurrences (Minutes.job Coalesce 60000) 600000 DEFAULT_MATERIALIZER_OPTIONS = Ok plan /\
    o_occurrences plan = [600000; 660000] /\ o_skippedOccurrences plan = 9 /\
    exists due, fires (length due) Minutes.schedule (Some 60000) = Ok (due, o_nextRunAt plan) /\ StronglySorted Z.lt due.
Proof.
  destruct (planOccurrences (Minutes.job Coalesce 60000) 600000 DEFAULT_MATERIALIZER_OPTIONS) as [plan|e] eqn:Hp; [|by vm_compute in Hp].
  exists plan. split; [done|]. destruct (plan_records_the_due_fires DEFAULT_MATERIALIZER_OPTIONS Minutes.schedule 600000
    (Minutes.job Coalesce 60000) plan) as (due & Hf & Hsort & _); [reflexivity|reflexivity|intros; exact I|exact Hp|].
  split_and!; [vm_compute in Hp; injection Hp as <-; reflexivity|vm_compute in Hp; injection Hp as <-; reflexivity|by exists due].
Defined.
