(* ===== verification/SchedCoalesce.v ===== *)
(** * Scheduler: one late run per owner

    [coalesce_owner] over a pass ([coalesce-group.ts]): owner keys never collide, in each
    owner's group the job with the latest missed occurrence (the lowest id on a tie)
    keeps its late run, and the late runs the others drop appear in no count. *)

From stdpp Require Import base gmap strings pretty list sorting sets.
From Stdlib Require Import ZArith Lia.
From S2P Require Import Prelude.
From S2P Require Import JsCollections.
From S2P Require Import SchedTypes.
From S2P Require Import SchedRecurrence.
From S2P Require Import SchedPlan.
From S2P Require Import SchedPlanning.

#[local] Open Scope Z_scope.

(** ** Owner keys *)

Fixpoint occurs (c : Ascii.ascii) (s : string) : bool :=
  match s with EmptyString => false | String d s' => bool_decide (c = d) || occurs c s' end.

Definition colon : Ascii.ascii := Ascii.ascii_of_nat 58.
Definition dash : Ascii.ascii := Ascii.ascii_of_nat 45.

Lemma pretty_char_plain (n : N) (c : Ascii.ascii) :
  c = colon \/ c = dash -> c <> pretty_N_char (n mod 10).
Proof.
  assert (Hn : (n mod 10 < 10)%N) by (apply N.mod_lt; lia). revert Hn. generalize (n mod 10)%N. intros d Hd.
  assert (d = 0 \/ d = 1 \/ d = 2 \/ d = 3 \/ d = 4 \/ d = 5 \/ d = 6 \/ d = 7 \/ d = 8 \/ d = 9)%N as Hcase by lia.
  intros [-> | ->]; repeat destruct Hcase as [->|Hcase]; try subst d; vm_compute; congruence.
Qed.

Lemma pretty_go_plain (c : Ascii.ascii) (n : N) (s : string) :
  c = colon \/ c = dash -> occurs c s = false -> occurs c (pretty_N_go n s) = false.
Proof.
  intros Hc. revert s. induction (N.lt_wf_0 n) as [n _ IH]. intros s Hs.
  destruct (decide (n = 0%N)) as [->|Hn]; [by rewrite pretty_N_go_0|].
  rewrite pretty_N_go_step by lia. apply IH; [apply N.div_lt; lia|]. simpl.
  by rewrite bool_decide_false by (by apply pretty_char_plain).
Qed.

Lemma pretty_plain (c : Ascii.ascii) (n : N) : c = colon \/ c = dash -> occurs c (pretty n) = false.
Proof.
  intros Hc. destruct (decide (n = 0%N)) as [->|Hn]; [by destruct Hc as [-> | ->]|].
  unfold pretty, pretty_N. rewrite decide_False by done. by apply pretty_go_plain.
Qed.

(** Up to the first colon. *)
Lemma split_colon (a b r s : string) :
  occurs colon a = false -> occurs colon b = false -> a +:+ ":" +:+ r = b +:+ ":" +:+ s -> a = b /\ r = s.
Proof.
  revert b. induction a as [|x a IH]; intros [|y b] Ha Hb Heq; simpl in *.
  - by injection Heq.
  - injection Heq as <- _. by rewrite bool_decide_true in Hb.
  - injection Heq as -> _. by rewrite bool_decide_true in Ha.
  - injection Heq as -> Heq. apply orb_false_iff in Ha as [_ Ha], Hb as [_ Hb].
    destruct (IH b Ha Hb Heq) as [-> ->]. done.
Qed.

Lemma append_same_length (a b r s : string) :
  String.length a = String.length b -> a +:+ r = b +:+ s -> a = b /\ r = s.
Proof.
  revert b. induction a as [|x a IH]; intros [|y b] Hl Heq; simpl in *; try done; [].
  injection Heq as -> Heq. injection Hl as Hl. by destruct (IH b Hl Heq) as [-> ->].
Qed.

Lemma string_app_assoc (a b c : string) : (a +:+ b) +:+ c = a +:+ b +:+ c.
Proof. induction a as [|x a IH]; [done|]. exact (f_equal (String x) IH). Qed.

(** A length-prefixed part can be read back off the front. *)
Lemma lengthPrefixed_inj (a b : option string) (r s : string) :
  lengthPrefixed a +:+ r = lengthPrefixed b +:+ s -> a = b /\ r = s.
Proof.
  assert (Hd : occurs colon "-" = false) by done.
  assert (Hp : forall n, occurs colon (pretty n) = false) by (intros n; apply pretty_plain; by left).
  assert (Hnd : forall n, "-"%string <> pretty (A := N) n).
  { intros n Heq. pose proof (pretty_plain dash n ltac:(by right)) as Ho. rewrite <-Heq in Ho. done. }
  destruct a as [a|], b as [b|]; cbn [lengthPrefixed]; intros Heq.
  - rewrite !string_app_assoc in Heq. apply split_colon in Heq as [Hn Heq]; [|apply Hp|apply Hp].
    apply (inj pretty) in Hn. apply append_same_length in Heq as [-> ->]; [done|lia].
  - rewrite !string_app_assoc in Heq. apply (split_colon _ "-") in Heq as [Hn _]; [|apply Hp|done]. by destruct (Hnd _ (eq_sym Hn)).
  - rewrite !string_app_assoc in Heq. apply (split_colon "-") in Heq as [Hn _]; [|done|apply Hp]. by destruct (Hnd _ Hn).
  - by injection Heq.
Qed.

Lemma ownerKeyFor_injective (t1 t2 i1 i2 : string) (m1 m2 : option string) :
  ownerKeyFor t1 i1 m1 = ownerKeyFor t2 i2 m2 -> t1 = t2 /\ i1 = i2 /\ m1 = m2.
Proof.
  intros Heq. change (lengthPrefixed (Some t1) +:+ lengthPrefixed (Some i1) +:+ lengthPrefixed m1 =
                      lengthPrefixed (Some t2) +:+ lengthPrefixed (Some i2) +:+ lengthPrefixed m2) in Heq.
  apply lengthPrefixed_inj in Heq as [[= ->] Heq]. apply lengthPrefixed_inj in Heq as [[= ->] Heq].
  assert (Heq' : lengthPrefixed m1 +:+ EmptyString = lengthPrefixed m2 +:+ EmptyString) by congruence.
  by apply lengthPrefixed_inj in Heq' as [-> _].
Qed.

(** ** Which late runs are dropped *)

(** The late run of an entry that [coalesce_owner] governs: its owner and instant. *)
Definition late_run (entry : PlannedJob) : option (string * Z) :=
  match o_catchUpAt (p_plan entry) with
  | Some t => if bool_decide (j_misfirePolicy (oj_job (p_job entry)) = CoalesceOwner)
              then Some (oj_ownerKey (p_job entry), t) else None
  | None => None
  end.

Definition planned_id (entry : PlannedJob) : Z := j_id (oj_job (p_job entry)).

(** [a]'s late run is preferred to [b]'s, of the same owner. *)
Definition beats (a b : PlannedJob) : bool :=
  match late_run a, late_run b with
  | Some (k, t), Some (k', t') =>
      bool_decide (k = k') && ((t' <? t) || ((t' =? t) && (planned_id a <? planned_id b)))
  | _, _ => false
  end.

(** The policy, entry by entry. *)
Definition coalesce_by_owner (planned : list PlannedJob) : list PlannedJob :=
  (fun entry => if existsb (fun other => beats other entry) planned then dropLateRun entry else entry) <$> planned.

(** A member before another in the group's order. *)
Definition member_beats (a b : GroupMember) : Prop :=
  g_latestMissedAt b < g_latestMissedAt a \/ g_latestMissedAt b = g_latestMissedAt a /\ entry_id a < entry_id b.

Lemma latestThenLowestId_best (c x : GroupMember) :
  (latestThenLowestId c x = c \/ latestThenLowestId c x = x) /\
  ~ member_beats c (latestThenLowestId c x) /\ ~ member_beats x (latestThenLowestId c x).
Proof.
  unfold latestThenLowestId, member_beats.
  destruct (Z.eqb_spec (g_latestMissedAt x) (g_latestMissedAt c)) as [He|He]; simpl.
  - destruct (Z.ltb_spec (entry_id x) (entry_id c)); split_and!; try tauto; lia.
  - destruct (Z.ltb_spec (g_latestMissedAt c) (g_latestMissedAt x)); split_and!; try tauto; lia.
Qed.

Lemma winner_best (m : GroupMember) (ms : list GroupMember) :
  foldl latestThenLowestId m ms ∈ m :: ms /\
  forall y, y ∈ m :: ms -> ~ member_beats y (foldl latestThenLowestId m ms).
Proof.
  revert m. induction ms as [|x ms IH]; intros m; simpl.
  - split; [left|]. intros y ->%list_elem_of_singleton. unfold member_beats. lia.
  - destruct (IH (latestThenLowestId m x)) as [Hin Hbest].
    destruct (latestThenLowestId_best m x) as (Hor & Hc & Hx). split.
    + apply elem_of_cons in Hin as [->|Hin]; [|by right; right]. destruct Hor as [-> | ->]; [left|right; left].
    + assert (Hw : forall y, ~ member_beats y (latestThenLowestId m x) ->
                     ~ member_beats y (foldl latestThenLowestId (latestThenLowestId m x) ms)).
      { intros y Hy. pose proof (Hbest (latestThenLowestId m x) ltac:(left)) as Hself.
        unfold member_beats in *. lia. }
      intros y Hy. apply elem_of_cons in Hy as [->|Hy]; [by apply Hw|].
      apply elem_of_cons in Hy as [->|Hy]; [by apply Hw|]. apply Hbest. by right.
Qed.

Lemma toOwnedMember_late (i : nat) (entry : PlannedJob) :
  toOwnedMember i entry =
    match late_run entry with
    | Some (k, t) => [(k, {| g_index := i; g_entry := entry; g_latestMissedAt := t |})]
    | None => []
    end.
Proof. unfold toOwnedMember, late_run. destruct (o_catchUpAt (p_plan entry)); [|done]. by case_bool_decide. Qed.

Lemma elem_of_members (planned : list PlannedJob) (k : string) (m : GroupMember) :
  (k, m) ∈ concat (imap toOwnedMember planned) <->
  planned !! g_index m = Some (g_entry m) /\ late_run (g_entry m) = Some (k, g_latestMissedAt m).
Proof.
  rewrite list_elem_of_In, in_concat. setoid_rewrite <-list_elem_of_In. split.
  - intros (l & Hl & Hin). apply elem_of_lookup_imap in Hl as (i & entry & -> & He).
    rewrite toOwnedMember_late in Hin. destruct (late_run entry) as [[k' t]|] eqn:Hlate; [|inversion Hin].
    apply list_elem_of_singleton in Hin as [= -> ->]. simpl. done.
  - intros [Hi Hl]. exists (toOwnedMember (g_index m) (g_entry m)). split.
    + apply elem_of_lookup_imap. by exists (g_index m), (g_entry m).
    + rewrite toOwnedMember_late, Hl. destruct m. left.
Qed.

(** The groups: each owner's members, in order. *)
Lemma foldl_groups (l : list (string * GroupMember)) (groups : list (string * list GroupMember)) (k : string) :
  default [] (map_get k (foldl (fun g '(key, member) => map_set key (default [] (map_get key g) ++ [member]) g) groups l)) =
  default [] (map_get k groups) ++ (filter (fun x => x.1 = k) l).*2.
Proof.
  revert groups. induction l as [|[k' m] l IH]; intros groups; simpl; [by rewrite app_nil_r|].
  rewrite IH, map_get_set. rewrite filter_cons. simpl.
  destruct (decide (k = k')) as [->|Hne].
  - rewrite !decide_True by done. simpl. by rewrite <-app_assoc.
  - by rewrite !decide_False by congruence.
Qed.

Lemma foldl_groups_keys (l : list (string * GroupMember)) (groups : list (string * list GroupMember)) :
  NoDup groups.*1 ->
  NoDup (foldl (fun g '(key, member) => map_set key (default [] (map_get key g) ++ [member]) g) groups l).*1.
Proof. revert groups. induction l as [|[k m] l IH]; intros groups Hn; simpl; [done|]. apply IH. by apply map_set_NoDup. Qed.

Lemma group_spec (planned : list PlannedJob) (k : string) (ms : list GroupMember) :
  (k, ms) ∈ groupByOwner planned ->
  forall m, m ∈ ms <-> planned !! g_index m = Some (g_entry m) /\ late_run (g_entry m) = Some (k, g_latestMissedAt m).
Proof.
  intros Hin m. rewrite <-elem_of_members. apply elem_of_map_get in Hin; [|by apply foldl_groups_keys; constructor].
  pose proof (foldl_groups (concat (imap toOwnedMember planned)) [] k) as Hg. fold (groupByOwner planned) in Hg.
  rewrite Hin in Hg. simpl in Hg. subst ms. rewrite list_elem_of_fmap. split.
  - intros ([k' m'] & -> & Hf). apply list_elem_of_filter in Hf as [Hk Hf]. simpl in *. by subst.
  - intros Hm. exists (k, m). split; [done|]. by apply list_elem_of_filter.
Qed.

Lemma group_exists (planned : list PlannedJob) (k : string) (m : GroupMember) :
  (k, m) ∈ concat (imap toOwnedMember planned) -> exists ms, (k, ms) ∈ groupByOwner planned.
Proof.
  intros Hm. destruct (map_get k (groupByOwner planned)) as [ms|] eqn:Hg; [exists ms; by apply map_get_Some_elem_of|].
  pose proof (foldl_groups (concat (imap toOwnedMember planned)) [] k) as Hf. fold (groupByOwner planned) in Hf.
  rewrite Hg in Hf. simpl in Hf.
  assert (Hin : m ∈ (filter (fun x => x.1 = k) (concat (imap toOwnedMember planned))).*2).
  { apply list_elem_of_fmap. exists (k, m). split; [done|]. by apply list_elem_of_filter. }
  rewrite <-Hf in Hin. inversion Hin.
Qed.

Lemma late_run_key (entry : PlannedJob) (k : string) (t : Z) :
  late_run entry = Some (k, t) -> k = oj_ownerKey (p_job entry).
Proof. unfold late_run. destruct (o_catchUpAt _); [|done]. by case_bool_decide; intros [= <- _]. Qed.

Lemma elem_of_group_losers (ms : list GroupMember) (i : nat) :
  i ∈ group_losers ms <->
  exists m rest m', ms = m :: rest /\ m' ∈ ms /\ g_index m' = i /\ i <> g_index (foldl latestThenLowestId m rest).
Proof.
  unfold group_losers. destruct ms as [|m rest]; [split; [intros H; inversion H|intros (? & ? & ? & ? & _); done]|].
  rewrite list_elem_of_fmap. setoid_rewrite (elem_of_arr_filter (fun m' => negb (g_index m' =? _)%nat) (m :: rest)).
  setoid_rewrite negb_true_iff. setoid_rewrite Nat.eqb_neq. split.
  - intros (m' & -> & Hin & Hne). by exists m, rest, m'.
  - intros (m0 & rest0 & m' & [= <- <-] & Hin & <- & Hne). by exists m'.
Qed.

(** A position loses exactly when another late run of its owner is preferred. *)
Lemma loses_iff (planned : list PlannedJob) (i : nat) (entry : PlannedJob) :
  NoDup (planned_id <$> planned) -> planned !! i = Some entry ->
  i ∈ concat (group_losers <$> (groupByOwner planned).*2) <->
  existsb (fun other => beats other entry) planned = true.
Proof.
  intros Hids Hi.
  assert (Hsame : forall a b, planned !! g_index a = Some (g_entry a) -> planned !! g_index b = Some (g_entry b) ->
            entry_id a = entry_id b -> g_index a = g_index b).
  { intros a b Ha Hb Heq. apply (NoDup_lookup _ _ _ (planned_id (g_entry a)) Hids); rewrite list_lookup_fmap.
    - by rewrite Ha.
    - rewrite Hb. simpl. unfold planned_id. by f_equal. }
  rewrite list_elem_of_In, in_concat. setoid_rewrite <-list_elem_of_In. rewrite existsb_exists.
  setoid_rewrite <-list_elem_of_In. split.
  - intros (l & Hl & Hin). apply list_elem_of_fmap in Hl as (ms & -> & Hms). apply list_elem_of_fmap in Hms as ([k ms'] & -> & Hms).
    simpl in *. pose proof (group_spec planned k ms' Hms) as Hspec.
    apply elem_of_group_losers in Hin as (m & ms & m' & -> & Hm' & <- & Hne).
    set (winner := foldl latestThenLowestId m ms) in *. destruct (winner_best m ms) as [Hwin Hbest]. fold winner in Hwin, Hbest.
    apply Hspec in Hwin as Hw. apply Hspec in Hm' as Hm. destruct Hw as [Hwi Hwl], Hm as [Hmi Hml].
    rewrite Hi in Hmi. injection Hmi as ->. exists (g_entry winner). split; [by eapply list_elem_of_lookup_2|].
    unfold beats. rewrite Hwl, Hml. rewrite bool_decide_true by done. simpl.
    assert (entry_id winner <> entry_id m') by (intros Heq; by apply Hne, Hsame).
    specialize (Hbest m' Hm'). unfold member_beats, entry_id, planned_id in *.
    apply orb_true_iff. rewrite andb_true_iff, Z.ltb_lt, Z.ltb_lt, Z.eqb_eq. lia.
  - intros (other & Hother & Hb). unfold beats in Hb.
    destruct (late_run other) as [[k t]|] eqn:Hlo; [|done]. destruct (late_run entry) as [[k' t']|] eqn:Hle; [|done].
    apply andb_true_iff in Hb as [Hk Hb]. apply bool_decide_eq_true in Hk as ->.
    apply list_elem_of_lookup in Hother as [j Hj].
    set (me := {| g_index := i; g_entry := entry; g_latestMissedAt := t' |}).
    set (it := {| g_index := j; g_entry := other; g_latestMissedAt := t |}).
    destruct (group_exists planned k' me) as [ms Hms]; [by apply elem_of_members|].
    pose proof (group_spec planned k' ms Hms) as Hspec.
    assert (Hme : me ∈ ms) by (by apply Hspec). assert (Hit : it ∈ ms) by (by apply Hspec).
    exists (group_losers ms). split; [apply list_elem_of_fmap; exists ms; split; [done|]; apply list_elem_of_fmap; by exists (k', ms)|].
    destruct ms as [|m ms]; [inversion Hme|]. destruct (winner_best m ms) as [Hwin Hbest].
    apply elem_of_group_losers. exists m, ms, me. split_and!; [done|done|done|].
    set (winner := foldl latestThenLowestId m ms) in *. intros Heq.
    apply Hspec in Hwin as [Hwi Hwl]. rewrite <-Heq, Hi in Hwi. injection Hwi as Hwi. rewrite <-Hwi, Hle in Hwl.
    injection Hwl as Hwl. specialize (Hbest it Hit). unfold member_beats, entry_id, planned_id in *. simpl in Hbest.
    rewrite <-Hwi, <-Hwl in Hbest. apply orb_true_iff in Hb. rewrite andb_true_iff, Z.ltb_lt, Z.ltb_lt, Z.eqb_eq in Hb. lia.
Qed.

Lemma coalesce_is_by_owner (planned : list PlannedJob) :
  NoDup (planned_id <$> planned) -> applyCoalesceOwnerPolicy planned = coalesce_by_owner planned.
Proof.
  intros Hids. unfold applyCoalesceOwnerPolicy, coalesce_by_owner.
  assert (Heq : imap (fun i entry => if bool_decide (i ∈ concat (group_losers <$> (groupByOwner planned).*2))
                                     then dropLateRun entry else entry) planned =
                (fun entry => if existsb (fun other => beats other entry) planned then dropLateRun entry else entry) <$> planned).
  { apply list_eq. intros i. rewrite list_lookup_imap, list_lookup_fmap. destruct (planned !! i) as [entry|] eqn:Hi; [|done].
    simpl. pose proof (loses_iff planned i entry Hids Hi) as Hl.
    case_bool_decide as Hd; destruct (existsb _ planned) eqn:He; naive_solver. }
  destruct (concat _) as [|i l] eqn:Hc; [|done]. rewrite <-Heq.
  apply list_eq. intros i. rewrite list_lookup_imap. destruct (planned !! i); done.
Qed.

Lemma late_run_dropped (entry : PlannedJob) : late_run (dropLateRun entry) = None.
Proof. done. Qed.

(** Of two late runs of an owner in different positions, one is preferred. *)
Lemma beats_total (planned : list PlannedJob) (i j : nat) (a b : PlannedJob) (k : string) (t u : Z) :
  NoDup (planned_id <$> planned) -> planned !! i = Some a -> planned !! j = Some b ->
  late_run a = Some (k, t) -> late_run b = Some (k, u) -> beats a b = false -> beats b a = false -> i = j.
Proof.
  intros Hids Ha Hb Hla Hlb Hab Hba. unfold beats in *. rewrite Hla, Hlb, bool_decide_true in Hab, Hba by done. simpl in *.
  apply orb_false_iff in Hab as [H1 H2], Hba as [H3 H4]. apply Z.ltb_ge in H1, H3.
  rewrite (proj2 (Z.eqb_eq _ _)) in H2 by lia. rewrite (proj2 (Z.eqb_eq _ _)) in H4 by lia. simpl in *. apply Z.ltb_ge in H2, H4.
  apply (NoDup_lookup _ _ _ (planned_id a) Hids); rewrite list_lookup_fmap, ?Ha, ?Hb; simpl; [done|]. f_equal. lia.
Qed.

Lemma unbeaten_exists (planned : list PlannedJob) (entry : PlannedJob) (k : string) (t : Z) :
  entry ∈ planned -> late_run entry = Some (k, t) ->
  exists best u, best ∈ planned /\ late_run best = Some (k, u) /\ t <= u /\
    existsb (fun other => beats other best) planned = false.
Proof.
  intros [i Hi]%list_elem_of_lookup Hl. set (me := {| g_index := i; g_entry := entry; g_latestMissedAt := t |}).
  destruct (group_exists planned k me) as [ms Hms]; [by apply elem_of_members|].
  pose proof (group_spec planned k ms Hms) as Hspec. assert (Hme : me ∈ ms) by (by apply Hspec).
  destruct ms as [|m ms]; [inversion Hme|]. destruct (winner_best m ms) as [Hwin Hbest].
  set (w := foldl latestThenLowestId m ms) in *. apply Hspec in Hwin as [Hwi Hwl].
  exists (g_entry w), (g_latestMissedAt w). split_and!.
  - by eapply list_elem_of_lookup_2.
  - done.
  - specialize (Hbest me Hme). unfold member_beats in Hbest. simpl in Hbest. lia.
  - apply not_true_iff_false. intros (other & Hin & Hb)%existsb_exists.
    apply list_elem_of_In, list_elem_of_lookup in Hin as [j Hj]. unfold beats in Hb. rewrite Hwl in Hb.
    destruct (late_run other) as [[k' u]|] eqn:Hlo; [|done]. apply andb_true_iff in Hb as [Hk Hb].
    apply bool_decide_eq_true in Hk as ->. set (it := {| g_index := j; g_entry := other; g_latestMissedAt := u |}).
    assert (Hit : it ∈ m :: ms) by (by apply Hspec). specialize (Hbest it Hit).
    unfold member_beats, entry_id, planned_id in *. simpl in Hbest.
    apply orb_true_iff in Hb. rewrite andb_true_iff, Z.ltb_lt, Z.ltb_lt, Z.eqb_eq in Hb. lia.
Qed.

Lemma count_misfires_same (planned : list PlannedJob) (f : nat -> PlannedJob -> PlannedJob) :
  (forall i e, p_job (f i e) = p_job e /\ o_skippedOccurrences (p_plan (f i e)) = o_skippedOccurrences (p_plan e)) ->
  countMisfires (imap f planned) = countMisfires planned.
Proof.
  intros Hf. unfold countMisfires. f_equal. generalize (@nil (string * MisfireCount)) as groups. intros groups.
  revert f groups Hf. induction planned as [|e planned IH]; intros f groups Hf; [done|].
  rewrite imap_cons. simpl. destruct (Hf 0%nat e) as [Hj Hs]. rewrite Hs.
  destruct (0 <? o_skippedOccurrences (p_plan e)); simpl; [|by apply (IH (f ∘ S)); intros; apply Hf].
  unfold count_misfire at 2 4. rewrite Hj, Hs. apply (IH (f ∘ S)). intros. apply Hf.
Qed.

(** ** The claims *)

(** Two jobs have the same group key exactly when they have the same owner type, owner id
    and member. *)
Lemma owner_keys_never_collide (t1 t2 i1 i2 : string) (m1 m2 : option string) :
  ownerKeyFor t1 i1 m1 = ownerKeyFor t2 i2 m2 <-> (t1, i1, m1) = (t2, i2, m2).
Proof.
  split; [|by intros [= -> -> ->]]. intros Heq. by destruct (ownerKeyFor_injective _ _ _ _ _ _ Heq) as (-> & -> & ->).
Qed.

(** [coalesce_owner] over a pass drops a late run exactly when another late run of the same
    owner is later, or as late under a lower job id, and touches nothing else: afterwards
    an owner has at most one late run, and one at least as late as any it had. *)
Lemma coalesce_owner_keeps_one (planned : list PlannedJob) :
  NoDup (planned_id <$> planned) ->
  let kept := applyCoalesceOwnerPolicy planned in
  kept = coalesce_by_owner planned /\
  (forall i j a b k t u, kept !! i = Some a -> kept !! j = Some b ->
     late_run a = Some (k, t) -> late_run b = Some (k, u) -> i = j) /\
  (forall entry k t, entry ∈ planned -> late_run entry = Some (k, t) ->
     exists best u, best ∈ kept /\ late_run best = Some (k, u) /\ t <= u).
Proof.
  intros Hids kept. subst kept. rewrite coalesce_is_by_owner by done. split_and!; [done| |].
  - intros i j a b k t u Ha Hb Hla Hlb. unfold coalesce_by_owner in *. rewrite list_lookup_fmap in Ha, Hb.
    destruct (planned !! i) as [a'|] eqn:Hi; simpl in Ha; [|done].
    destruct (planned !! j) as [b'|] eqn:Hj; simpl in Hb; [|done].
    injection Ha as <-. injection Hb as <-.
    destruct (existsb (fun o => beats o a') planned) eqn:Hba; [by rewrite late_run_dropped in Hla|].
    destruct (existsb (fun o => beats o b') planned) eqn:Hab; [by rewrite late_run_dropped in Hlb|].
    apply (beats_total planned i j a' b' k t u); try done; apply not_true_iff_false; intros Hbt.
    + apply not_true_iff_false in Hab. apply Hab, existsb_exists. exists a'. split; [|done].
      by eapply list_elem_of_In, list_elem_of_lookup_2.
    + apply not_true_iff_false in Hba. apply Hba, existsb_exists. exists b'. split; [|done].
      by eapply list_elem_of_In, list_elem_of_lookup_2.
  - intros entry k t Hin Hl. destruct (unbeaten_exists planned entry k t Hin Hl) as (best & u & Hb & Hlb & Hle & Hun).
    exists best, u. split_and!; [|done|done]. unfold coalesce_by_owner. apply list_elem_of_fmap. exists best.
    by rewrite Hun.
Qed.

(** Three jobs of one owner miss runs; the two latest tie. *)
Definition missed (id key next : Z) : PlannedJob :=
  {| p_job := {| oj_job := {| j_id := id; j_name := "n"; j_ownerType := "workflow"; j_ownerId := "w"; j_ownerMemberId := None;
                              j_taskType := "tick"; j_payload := EngineTypes.JNull; j_kind := Interval;
                              j_cronExpression := None; j_timezone := None; j_intervalSeconds := Some 60; j_fireAt := None;
                              j_recurrenceUnit := None; j_recurrenceSize := None; j_enabled := true; j_nextRunAt := Some next;
                              j_lastFiredAt := None; j_maxAttempts := 1; j_misfirePolicy := CoalesceOwner;
                              j_misfireGraceSeconds := 60; j_orphanedAt := None; j_createdAt := 0 |};
                 oj_ownerKey := pretty key |};
     p_plan := {| o_occurrences := [next]; o_skippedOccurrences := 0; o_catchUpAt := Some next; o_retireBefore := Some next;
                  o_nextRunAt := Some (next + 60000); o_lastFiredAt := Some next |} |}.

Definition three_missed : list PlannedJob := [missed 1 7 60000; missed 5 7 120000; missed 3 7 120000; missed 4 8 60000].

Lemma coalesce_owner_keeps_one_witness :
  ((fun e => o_occurrences (p_plan e)) <$> applyCoalesceOwnerPolicy three_missed) = [[]; []; [120000]; [60000]] /\
  applyCoalesceOwnerPolicy three_missed = coalesce_by_owner three_missed.
Proof.
  split; [vm_compute; reflexivity|]. apply (coalesce_owner_keeps_one three_missed).
  apply (bool_decide_unpack _). vm_compute. exact I.
Defined.

(** The late runs [coalesce_owner] drops are counted nowhere: a pass's misfire counts are
    the same whether or not they were dropped. *)
Lemma dropped_late_runs_are_uncounted (planned : list PlannedJob) :
  countMisfires (applyCoalesceOwnerPolicy planned) = countMisfires planned.
Proof.
  unfold applyCoalesceOwnerPolicy. destruct (concat _) as [|i l]; [done|]. apply count_misfires_same.
  intros j e. by case_bool_decide.
Qed.
