(* ===== verification/SchedJobs.v ===== *)
(** * Scheduler: the job table and its repository

    [packages/@n8n/db/src/repositories/scheduled-job.repository.ts] over the table of
    [entities/scheduled-job.ts], and the mapping between a schedule and the flat columns
    that store it ([packages/cli/src/scheduling/schedule-columns.ts]).  A statement is a
    function of the table; one that answers how many rows it changed gives the count
    first.  A [SELECT] answers by ascending id where it names no order, and takes the
    lower id on a tie where it does. *)

From stdpp Require Import base gmap strings pretty list sorting fin_maps.
From Stdlib Require Import ZArith Lia.
From S2P Require Import Prelude.
From S2P Require Import JsCollections.
From S2P Require Import SchedTypes.
From S2P Require Import SchedStore.
From S2P Require Import SchedTable.
From S2P Require Import SchedRecurrence.
From S2P Require Import SchedPlan.

#[local] Open Scope Z_scope.

Record JobTable := { jobs : gmap Z ScheduledJob; nextJobId : Z; jobs_dialect : Dialect }.

Definition empty_jobs (db : Dialect) : JobTable := {| jobs := ∅; nextJobId := 1; jobs_dialect := db |}.

Definition set_jobs (m : gmap Z ScheduledJob) (d : JobTable) : JobTable :=
  {| jobs := m; nextJobId := nextJobId d; jobs_dialect := jobs_dialect d |}.

(** The scheduler's two tables. *)
Record Db := { db_jobs : JobTable; db_tasks : TaskTable }.

(** ** [schedule-columns.ts] *)

(** [ScheduleColumns]. *)
Record ScheduleColumns := {
  s_kind : ScheduledJobKind;
  s_cronExpression : option string;
  s_timezone : option string;
  s_recurrenceUnit : option RecurringCronUnit;
  s_recurrenceSize : option Z;
  s_intervalSeconds : option Z;
  s_fireAt : option Z;
}.

Definition scheduleColumns (s : Schedule) : ScheduleColumns :=
  match s with
  | CronSchedule c =>
      {| s_kind := Cron; s_cronExpression := Some (cronExpression c); s_timezone := timezone c; s_recurrenceUnit := None;
         s_recurrenceSize := None; s_intervalSeconds := None; s_fireAt := None |}
  | RecurringCronSchedule c u n =>
      {| s_kind := RecurringCron; s_cronExpression := Some (cronExpression c); s_timezone := timezone c;
         s_recurrenceUnit := Some u; s_recurrenceSize := Some n; s_intervalSeconds := None; s_fireAt := None |}
  | IntervalSchedule n =>
      {| s_kind := Interval; s_cronExpression := None; s_timezone := None; s_recurrenceUnit := None;
         s_recurrenceSize := None; s_intervalSeconds := Some n; s_fireAt := None |}
  | OneOffSchedule t =>
      {| s_kind := OneOff; s_cronExpression := None; s_timezone := None; s_recurrenceUnit := None;
         s_recurrenceSize := None; s_intervalSeconds := None; s_fireAt := Some t |}
  end.

Definition rowSchedule (j : ScheduledJob) : Schedule :=
  match j_kind j with
  | Cron => CronSchedule {| cronExpression := default EmptyString (j_cronExpression j); timezone := j_timezone j |}
  | RecurringCron =>
      RecurringCronSchedule {| cronExpression := default EmptyString (j_cronExpression j); timezone := j_timezone j |}
        (default Hours (j_recurrenceUnit j)) (default 0 (j_recurrenceSize j))
  | Interval => IntervalSchedule (default 0 (j_intervalSeconds j))
  | OneOff => OneOffSchedule (default 0 (j_fireAt j))
  end.

(** ** Owners *)

(** [ScheduledJobOwner]. *)
Record Owner := { w_ownerType : string; w_ownerId : string; w_ownerMemberId : option string }.

(** [ownerCriteria], [ownerRefCriteria]. *)
Definition owned_by_member (o : Owner) (j : ScheduledJob) : bool :=
  bool_decide (j_ownerType j = w_ownerType o) && bool_decide (j_ownerId j = w_ownerId o) &&
  bool_decide (j_ownerMemberId j = w_ownerMemberId o).

Definition owned_by_ref (ownerType ownerId : string) (j : ScheduledJob) : bool :=
  bool_decide (j_ownerType j = ownerType) && bool_decide (j_ownerId j = ownerId).

(** ** Statements *)

Definition by_id (a b : ScheduledJob) : Prop := j_id a <= j_id b.
#[export] Instance by_id_dec a b : Decision (by_id a b).
Proof. unfold by_id. apply _. Defined.

Definition jobs_list (d : JobTable) : list ScheduledJob := merge_sort by_id (map_to_list (jobs d)).*2.

Definition jobs_where (p : ScheduledJob -> bool) (d : JobTable) : list ScheduledJob := List.filter p (jobs_list d).

Definition count_jobs (p : ScheduledJob -> bool) (d : JobTable) : Z :=
  Z.of_nat (size (filter (fun x : Z * ScheduledJob => p x.2 = true) (jobs d))).

Definition change_jobs (p : ScheduledJob -> bool) (f : ScheduledJob -> ScheduledJob) (d : JobTable) : JobTable :=
  set_jobs ((fun j => if p j then f j else j) <$> jobs d) d.

Definition delete_jobs (p : ScheduledJob -> bool) (d : JobTable) : JobTable :=
  set_jobs (filter (fun x : Z * ScheduledJob => p x.2 = false) (jobs d)) d.

(** Rows of [scheduled_task] go with the job they belong to. *)
Definition delete_jobs_cascade (p : ScheduledJob -> bool) (d : Db) : Z * Db :=
  (count_jobs p (db_jobs d),
   {| db_jobs := delete_jobs p (db_jobs d);
      db_tasks := deleteByJobIds (j_id <$> jobs_where p (db_jobs d)) (db_tasks d) |}).

(** The columns an update of a schedule, of run options, of the payload or of the clock
    writes; what it leaves out keeps its value. *)
Record JobUpdate := {
  u_schedule : option ScheduleColumns;
  u_nextRunAt : option (option Z);
  u_lastFiredAt : option (option Z);
  u_orphanedAt : option (option Z);
  u_runOptions : option (Z * ScheduledJobMisfirePolicy * Z);
  u_payload : option Payload;
}.

Definition no_update : JobUpdate :=
  {| u_schedule := None; u_nextRunAt := None; u_lastFiredAt := None; u_orphanedAt := None; u_runOptions := None;
     u_payload := None |}.

Definition update_job (u : JobUpdate) (j : ScheduledJob) : ScheduledJob :=
  let column {A} (f : ScheduleColumns -> A) (old : A) := match u_schedule u with Some s => f s | None => old end in
  let option_of {A} (f : Z * ScheduledJobMisfirePolicy * Z -> A) (old : A) :=
    match u_runOptions u with Some o => f o | None => old end in
  {| j_id := j_id j; j_name := j_name j; j_ownerType := j_ownerType j; j_ownerId := j_ownerId j;
     j_ownerMemberId := j_ownerMemberId j; j_taskType := j_taskType j;
     j_payload := default (j_payload j) (u_payload u);
     j_kind := column s_kind (j_kind j);
     j_cronExpression := column s_cronExpression (j_cronExpression j);
     j_timezone := column s_timezone (j_timezone j);
     j_intervalSeconds := column s_intervalSeconds (j_intervalSeconds j);
     j_fireAt := column s_fireAt (j_fireAt j);
     j_recurrenceUnit := column s_recurrenceUnit (j_recurrenceUnit j);
     j_recurrenceSize := column s_recurrenceSize (j_recurrenceSize j);
     j_enabled := j_enabled j;
     j_nextRunAt := default (j_nextRunAt j) (u_nextRunAt u);
     j_lastFiredAt := default (j_lastFiredAt j) (u_lastFiredAt u);
     j_maxAttempts := option_of (fun o => o.1.1) (j_maxAttempts j);
     j_misfirePolicy := option_of (fun o => o.1.2) (j_misfirePolicy j);
     j_misfireGraceSeconds := option_of snd (j_misfireGraceSeconds j);
     j_orphanedAt := default (j_orphanedAt j) (u_orphanedAt u);
     j_createdAt := j_createdAt j |}.

(** ** The materializer's statements *)

(** Enabled jobs due within [lookaheadMs], oldest first, skipping those another
    transaction holds. *)
Definition due_job (now lookaheadMs : Z) (locked : gset Z) (j : ScheduledJob) : bool :=
  j_enabled j && upto_opt (j_nextRunAt j) (now + lookaheadMs) && bool_decide (j_id j ∉ locked).

Definition oldest_due (a b : ScheduledJob) : Prop :=
  default 0 (j_nextRunAt a) < default 0 (j_nextRunAt b) \/
  default 0 (j_nextRunAt a) = default 0 (j_nextRunAt b) /\ j_id a <= j_id b.

#[export] Instance oldest_due_dec a b : Decision (oldest_due a b).
Proof. unfold oldest_due. apply _. Defined.

Definition claimDue (limit lookaheadMs : Z) (locked : gset Z) (now : Z) (d : JobTable) : option (list ScheduledJob) :=
  match take (Z.to_nat limit) (merge_sort oldest_due (jobs_where (due_job now lookaheadMs locked) d)) with
  | [] => None
  | claimed => Some claimed
  end.

(** [JobAdvance]. *)
Record JobAdvance := { a_id : Z; a_nextRunAt : option Z; a_lastFiredAt : option Z }.

(** [CASE WHEN id = ... THEN ... END]: the first branch that matches. *)
Definition advanceChunk (advances : list JobAdvance) (d : JobTable) : JobTable :=
  set_jobs ((fun j => match arr_find (fun a => a_id a =? j_id j) advances with
                      | Some a => advance_job j (a_nextRunAt a) (a_lastFiredAt a)
                      | None => j
                      end) <$> jobs d) d.

Definition clampChunkSize (chunkSize max : Z) : Z := Z.min (Z.max 1 chunkSize) max.

(** The [for] loop over slices. *)
Definition advanceMany (advances : list JobAdvance) (chunkSize maxAdvanceChunkSize : Z) (d : JobTable) : JobTable :=
  foldl (fun d chunk => advanceChunk chunk d) d
    (chunks_of (Z.to_nat (clampChunkSize chunkSize maxAdvanceChunkSize)) advances).

(** ** Provisioning's statements *)

Definition findManyByOwner (o : Owner) (d : JobTable) : list ScheduledJob := jobs_where (owned_by_member o) d.

Definition findManyByIds (ids : list Z) (d : JobTable) : list ScheduledJob :=
  match ids with [] => [] | _ => jobs_where (fun j => bool_decide (j_id j ∈ ids)) d end.

Definition findOwnerMemberIds (ownerType ownerId taskType : string) (d : JobTable) : list string :=
  set_of_list (omap j_ownerMemberId
    (jobs_where (fun j => owned_by_ref ownerType ownerId j && bool_decide (j_taskType j = taskType) &&
                          bool_decide (j_ownerMemberId j <> None)) d)).

Definition countByOwner (o : Owner) (d : JobTable) : Z := count_jobs (owned_by_member o) d.

Definition existsRunnableByOwner (o : Owner) (d : JobTable) : bool :=
  0 <? count_jobs (fun j => owned_by_member o j && j_enabled j && bool_decide (j_orphanedAt j = None)) d.

(** [NewScheduledJob]. *)
Record NewScheduledJob := {
  nj_name : string;
  nj_owner : Owner;
  nj_taskType : string;
  nj_payload : Payload;
  nj_schedule : ScheduleColumns;
  nj_nextRunAt : option Z;
  nj_runOptions : Z * ScheduledJobMisfirePolicy * Z;
}.

Definition job_row (id now : Z) (n : NewScheduledJob) : ScheduledJob :=
  {| j_id := id; j_name := nj_name n; j_ownerType := w_ownerType (nj_owner n); j_ownerId := w_ownerId (nj_owner n);
     j_ownerMemberId := w_ownerMemberId (nj_owner n); j_taskType := nj_taskType n; j_payload := nj_payload n;
     j_kind := s_kind (nj_schedule n); j_cronExpression := s_cronExpression (nj_schedule n);
     j_timezone := s_timezone (nj_schedule n); j_intervalSeconds := s_intervalSeconds (nj_schedule n);
     j_fireAt := s_fireAt (nj_schedule n); j_recurrenceUnit := s_recurrenceUnit (nj_schedule n);
     j_recurrenceSize := s_recurrenceSize (nj_schedule n); j_enabled := true; j_nextRunAt := nj_nextRunAt n;
     j_lastFiredAt := None; j_maxAttempts := (nj_runOptions n).1.1; j_misfirePolicy := (nj_runOptions n).1.2;
     j_misfireGraceSeconds := (nj_runOptions n).2; j_orphanedAt := None; j_createdAt := now |}.

(** The unique index on [name]. *)
Definition find_name (name : string) (d : JobTable) : option ScheduledJob :=
  arr_find (fun j => bool_decide (j_name j = name)) (jobs_list d).

(** As for tasks: SQLite gives the largest id of the table and one more. *)
Definition largest_job_id (d : JobTable) : Z := foldr Z.max 0 (map_to_list (jobs d)).*1.

Definition next_job_id (d : JobTable) : Z :=
  match jobs_dialect d with Postgres => nextJobId d | Sqlite => largest_job_id d + 1 end.

(** [INSERT ... ON CONFLICT DO NOTHING]. *)
Definition insert_job (now : Z) (d : JobTable) (n : NewScheduledJob) : JobTable :=
  match find_name (nj_name n) d with
  | Some _ => d
  | None => {| jobs := <[next_job_id d := job_row (next_job_id d) now n]> (jobs d);
               nextJobId := Z.max (nextJobId d) (next_job_id d + 1); jobs_dialect := jobs_dialect d |}
  end.

(** [orderIdsByName], for one job. *)
Definition id_by_name (d : JobTable) (n : NewScheduledJob) : sresult Z :=
  match find_name (nj_name n) d with
  | None => Err (UnexpectedError ("No row found for scheduled job " +:+ dquote +:+ nj_name n +:+ dquote +:+ " after insert"))
  | Some row => if owned_by_member (nj_owner n) row then Ok (j_id row)
                else Err (UnexpectedError "Scheduled job name is already taken by another owner")
  end.

Fixpoint mapM_result {A B} (f : A -> sresult B) (l : list A) : sresult (list B) :=
  match l with
  | [] => Ok []
  | x :: l' => f x ≫= fun y => mapM_result f l' ≫= fun ys => Ok (y :: ys)
  end.

(** Within a transaction, so no row moves between the inserts and the read-back; chunks
    only split the statements. *)
Definition insertMany (now : Z) (news : list NewScheduledJob) (d : JobTable) : sresult (list Z * JobTable) :=
  let d' := foldl (insert_job now) d news in
  mapM_result (id_by_name d') news ≫= fun ids => Ok (ids, d').

(** [ScheduledJobDefinitionUpdate]. *)
Definition updateDefinition (id : Z) (s : ScheduleColumns) (nextRunAt : option Z)
    (runOptions : Z * ScheduledJobMisfirePolicy * Z) (d : JobTable) : JobTable :=
  change_jobs (fun j => j_id j =? id)
    (update_job {| u_schedule := Some s; u_nextRunAt := Some nextRunAt; u_lastFiredAt := None; u_orphanedAt := None;
                   u_runOptions := Some runOptions; u_payload := None |}) d.

Definition updateRunOptions (ids : list Z) (runOptions : Z * ScheduledJobMisfirePolicy * Z) (d : JobTable) : JobTable :=
  match ids with
  | [] => d
  | _ => change_jobs (fun j => bool_decide (j_id j ∈ ids))
           (update_job {| u_schedule := None; u_nextRunAt := None; u_lastFiredAt := None; u_orphanedAt := None;
                          u_runOptions := Some runOptions; u_payload := None |}) d
  end.

Definition updatePayload (ids : list Z) (payload : Payload) (d : JobTable) : JobTable :=
  match ids with
  | [] => d
  | _ => change_jobs (fun j => bool_decide (j_id j ∈ ids))
           (update_job {| u_schedule := None; u_nextRunAt := None; u_lastFiredAt := None; u_orphanedAt := None;
                          u_runOptions := None; u_payload := Some payload |}) d
  end.

Definition deleteManyByIds (ids : list Z) (d : Db) : Db :=
  match ids with [] => d | _ => (delete_jobs_cascade (fun j => bool_decide (j_id j ∈ ids)) d).2 end.

Definition backdateNextRunAt (o : Owner) (secondsInPast now : Z) (d : JobTable) : JobTable :=
  change_jobs (owned_by_member o)
    (update_job {| u_schedule := None; u_nextRunAt := Some (Some (now - secondsInPast * 1000)); u_lastFiredAt := None;
                   u_orphanedAt := None; u_runOptions := None; u_payload := None |}) d.

Definition set_quarantine (orphanedAt : option Z) (nextRunAt : option (option Z)) : JobUpdate :=
  {| u_schedule := None; u_nextRunAt := nextRunAt; u_lastFiredAt := None; u_orphanedAt := Some orphanedAt;
     u_runOptions := None; u_payload := None |}.

Definition is_quarantined (j : ScheduledJob) : bool := bool_decide (j_orphanedAt j <> None).

Definition liftQuarantineByOwner (o : Owner) (d : JobTable) : Z * JobTable :=
  let p j := owned_by_member o j && is_quarantined j in
  (count_jobs p d, change_jobs p (update_job (set_quarantine None None)) d).

(** ** Deprovisioning's statements *)

Definition deleteByOwnerMember (o : Owner) (d : Db) : Z * Db := delete_jobs_cascade (owned_by_member o) d.

(** [unchanged] is what the database's comparison answers: [jsonb] equality, or equality of
    the stored text. *)
Definition deleteIfPayloadUnchanged (unchanged : Payload -> Payload -> bool) (id : Z) (payload : Payload) (d : Db) : Z * Db :=
  delete_jobs_cascade (fun j => (j_id j =? id) && unchanged (j_payload j) payload) d.

Definition deleteByOwnerRef (ownerType ownerId : string) (d : Db) : Z * Db :=
  delete_jobs_cascade (owned_by_ref ownerType ownerId) d.

Definition deleteByOwnerTaskType (ownerType ownerId taskType : string) (d : Db) : Z * Db :=
  delete_jobs_cascade (fun j => owned_by_ref ownerType ownerId j && bool_decide (j_taskType j = taskType)) d.

(** ** Reconciliation's statements *)

Definition before_string (a b : string) : Prop := String.leb a b = true.
#[export] Instance before_string_dec a b : Decision (before_string a b).
Proof. unfold before_string. apply _. Defined.

(** [SELECT DISTINCT ... ORDER BY]; text is compared by code unit. *)
Definition findOwnerTypes (d : JobTable) : list string :=
  merge_sort before_string (set_of_list (j_ownerType <$> jobs_list d)).

Definition settled_owner (ownerType : string) (settledBefore : Z) (after : option string) (j : ScheduledJob) : bool :=
  bool_decide (j_ownerType j = ownerType) && (j_createdAt j <=? settledBefore) &&
  match after with Some a => String.ltb a (j_ownerId j) | None => true end.

Definition findOwnerIds (ownerType : string) (settledBefore limit : Z) (after : option string) (d : JobTable) : list string :=
  take (Z.to_nat limit)
    (merge_sort before_string (set_of_list (j_ownerId <$> jobs_where (settled_owner ownerType settledBefore after) d))).

Definition of_owners (ownerType : string) (ownerIds : list string) (j : ScheduledJob) : bool :=
  bool_decide (j_ownerType j = ownerType) && bool_decide (j_ownerId j ∈ ownerIds).

(** [withdrawQueuedOccurrences] runs after the update, in the same transaction. *)
Definition withdrawQueuedOccurrences (ownerType : string) (ownerIds : list string) (d : Db) : Db :=
  let quarantined := j_id <$> jobs_where (fun j => of_owners ownerType ownerIds j && is_quarantined j) (db_jobs d) in
  {| db_jobs := db_jobs d;
     db_tasks := (delete_rows (fun r => bool_decide (t_status r = Pending) && bool_decide (t_jobId r ∈ quarantined))
                    (db_tasks d)).2 |}.

Definition quarantineByOwnerIds (ownerType : string) (ownerIds : list string) (orphanedAt settledBefore : Z) (d : Db)
  : Z * Db :=
  match ownerIds with
  | [] => (0, d)
  | _ =>
      let p j := of_owners ownerType ownerIds j && negb (is_quarantined j) && (j_createdAt j <=? settledBefore) in
      (count_jobs p (db_jobs d),
       withdrawQueuedOccurrences ownerType ownerIds
         {| db_jobs := change_jobs p (update_job (set_quarantine (Some orphanedAt) (Some None))) (db_jobs d);
            db_tasks := db_tasks d |})
  end.

Definition deleteQuarantinedByOwnerIds (ownerType : string) (ownerIds : list string) (quarantinedBefore : Z) (d : Db)
  : Z * Db :=
  match ownerIds with
  | [] => (0, d)
  | _ => delete_jobs_cascade (fun j => of_owners ownerType ownerIds j && upto_opt (j_orphanedAt j) quarantinedBefore) d
  end.

Definition findQuarantinedByOwnerIds (ownerType : string) (ownerIds : list string) (limit : Z) (d : JobTable)
  : list ScheduledJob :=
  match ownerIds with
  | [] => []
  | _ => take (Z.to_nat limit) (jobs_where (fun j => of_owners ownerType ownerIds j && is_quarantined j) d)
  end.

Definition liftQuarantine (id : Z) (nextRunAt : option Z) (d : JobTable) : Z * JobTable :=
  let p j := (j_id j =? id) && is_quarantined j in
  (count_jobs p d, change_jobs p (update_job (set_quarantine None (Some nextRunAt))) d).

(** ** Well-formed tables *)

Record JobsOk (d : JobTable) : Prop := {
  jk_key : forall id j, jobs d !! id = Some j -> j_id j = id /\ id < nextJobId d;
  jk_unique : forall i k j j', jobs d !! i = Some j -> jobs d !! k = Some j' -> j_name j = j_name j' -> i = k;
}.

Lemma elem_of_jobs_list (d : JobTable) (j : ScheduledJob) : j ∈ jobs_list d <-> exists id, jobs d !! id = Some j.
Proof.
  unfold jobs_list. rewrite merge_sort_Permutation, list_elem_of_fmap. split.
  - intros ([id j'] & -> & Hin). exists id. by apply elem_of_map_to_list.
  - intros [id Hj]. exists (id, j). split; [done|]. by apply elem_of_map_to_list.
Qed.

Lemma elem_of_jobs_where (p : ScheduledJob -> bool) (d : JobTable) (j : ScheduledJob) :
  j ∈ jobs_where p d <-> p j = true /\ exists id, jobs d !! id = Some j.
Proof.
  unfold jobs_where. pose proof (elem_of_arr_filter p (jobs_list d) j) as H. unfold arr_filter in H.
  rewrite H, elem_of_jobs_list. tauto.
Qed.

Lemma jobs_ids_NoDup (d : JobTable) : JobsOk d -> NoDup (j_id <$> jobs_list d).
Proof.
  intros HJ. unfold jobs_list. rewrite merge_sort_Permutation, <-list_fmap_compose.
  replace ((j_id ∘ snd) <$> map_to_list (jobs d)) with ((map_to_list (jobs d)).*1); [apply NoDup_fst_map_to_list|].
  apply list_fmap_ext. intros i [id j] Hin. apply list_elem_of_lookup_2, elem_of_map_to_list in Hin. simpl.
  by destruct (jk_key d HJ id j Hin).
Qed.

Lemma jobs_where_ids_NoDup (p : ScheduledJob -> bool) (d : JobTable) : JobsOk d -> NoDup (j_id <$> jobs_where p d).
Proof. intros HJ. unfold jobs_where. apply (arr_filter_map_NoDup j_id p). by apply jobs_ids_NoDup. Qed.

Lemma find_name_spec (name : string) (d : JobTable) :
  match find_name name d with
  | Some j => j_name j = name /\ exists id, jobs d !! id = Some j
  | None => forall id j, jobs d !! id = Some j -> j_name j <> name
  end.
Proof.
  unfold find_name. destruct (arr_find _ _) as [j|] eqn:Hf.
  - apply arr_find_Some in Hf as [Hin Hn]. split; [by apply bool_decide_eq_true in Hn|]. by apply elem_of_jobs_list.
  - intros id j Hj. rewrite arr_find_None in Hf. specialize (Hf j (proj2 (elem_of_jobs_list d j) (ex_intro _ id Hj))).
    by apply bool_decide_eq_false in Hf.
Qed.

(** ** Statements keep the table well formed *)

(** A change of rows that keeps their ids and names. *)
Definition keeps_names (f : ScheduledJob -> ScheduledJob) : Prop := forall j, j_id (f j) = j_id j /\ j_name (f j) = j_name j.

Lemma fmap_jobs_ok (f : ScheduledJob -> ScheduledJob) (d : JobTable) :
  keeps_names f -> JobsOk d -> JobsOk (set_jobs (f <$> jobs d) d).
Proof.
  intros Hf [Hk Hu]. split; simpl.
  - intros id j. rewrite lookup_fmap. intros (j0 & Hj & ->)%fmap_Some_1. destruct (Hf j0) as [-> _]. by apply Hk.
  - intros i k j j'. rewrite !lookup_fmap. intros (j0 & Hj & ->)%fmap_Some_1 (j1 & Hj1 & ->)%fmap_Some_1.
    destruct (Hf j0) as [_ ->], (Hf j1) as [_ ->]. by apply Hu.
Qed.

Lemma update_job_keeps_names (u : JobUpdate) : keeps_names (update_job u).
Proof. intros j. done. Qed.

Lemma keeps_names_if (p : ScheduledJob -> bool) (f : ScheduledJob -> ScheduledJob) :
  keeps_names f -> keeps_names (fun j => if p j then f j else j).
Proof. intros Hf j. by destruct (p j). Qed.

Lemma change_jobs_ok p u d : JobsOk d -> JobsOk (change_jobs p (update_job u) d).
Proof. apply fmap_jobs_ok, keeps_names_if, update_job_keeps_names. Qed.

Lemma delete_jobs_ok p d : JobsOk d -> JobsOk (delete_jobs p d).
Proof.
  intros [Hk Hu]. split; simpl.
  - intros id j [Hj _]%map_lookup_filter_Some. by apply Hk.
  - intros i k j j' [Hj _]%map_lookup_filter_Some [Hj' _]%map_lookup_filter_Some. by apply Hu.
Qed.

Lemma next_job_id_above (d : JobTable) (id : Z) (j : ScheduledJob) : JobsOk d -> jobs d !! id = Some j -> id < next_job_id d.
Proof.
  intros HJ Hj. unfold next_job_id. destruct (jobs_dialect d); [by apply (jk_key _ HJ _ _ Hj)|].
  pose proof (max_key_above (jobs d) id j Hj) as Hle. unfold largest_job_id. lia.
Qed.

Lemma insert_job_ok now d n : JobsOk d -> JobsOk (insert_job now d n).
Proof.
  intros HJ. assert (forall id j, jobs d !! id = Some j -> id < next_job_id d) as Habove by (intros; by eapply next_job_id_above).
  destruct HJ as [Hk Hu]. unfold insert_job. pose proof (find_name_spec (nj_name n) d) as Hf.
  destruct (find_name (nj_name n) d) as [j|]; [by split|]. split; simpl.
  - intros id j. rewrite lookup_insert_Some. intros [[<- <-]|[Hne Hj]]; simpl; [lia|]. destruct (Hk id j Hj). lia.
  - intros i k j j'. rewrite !lookup_insert_Some. intros [[<- <-]|[Hi Hj]] [[<- <-]|[Hk' Hj']] Heq; simpl in *; try done.
    + by destruct (Hf k j').
    + by destruct (Hf i j).
    + by eapply Hu.
Qed.

Lemma advanceMany_ok advances n m d : JobsOk d -> JobsOk (advanceMany advances n m d).
Proof.
  unfold advanceMany. generalize (chunks_of (Z.to_nat (clampChunkSize n m)) advances). intros chunks. revert d.
  induction chunks as [|c chunks IH]; intros d HJ; simpl; [done|]. apply IH. apply fmap_jobs_ok; [|done].
  intros j. by destruct (arr_find _ c).
Qed.

Lemma empty_jobs_ok db : JobsOk (empty_jobs db).
Proof. split; simpl; intros *; rewrite lookup_empty; done. Qed.

Lemma arr_find_app {A} (f : A -> bool) (l k : list A) :
  arr_find f (l ++ k) = match arr_find f l with Some a => Some a | None => arr_find f k end.
Proof. induction l as [|x l IH]; simpl; [done|]. by destruct (f x). Qed.

(** Advancing in chunks is advancing once, when no id comes twice. *)
Lemma advanceMany_lookup (advances : list JobAdvance) (n m : Z) (d : JobTable) (id : Z) (j : ScheduledJob) :
  JobsOk d -> NoDup (a_id <$> advances) -> jobs d !! id = Some j -> 1 <= m ->
  jobs (advanceMany advances n m d) !! id =
    Some (match arr_find (fun a => a_id a =? id) advances with
          | Some a => advance_job j (a_nextRunAt a) (a_lastFiredAt a)
          | None => j
          end).
Proof.
  intros HJ Hn Hj Hm. pose proof (proj1 (jk_key d HJ id j Hj)) as Hid. unfold advanceMany.
  rewrite <-(concat_chunks_of (Z.to_nat (clampChunkSize n m)) advances) in Hn |- * at 2 by (unfold clampChunkSize; lia).
  revert Hn Hj Hid. generalize (chunks_of (Z.to_nat (clampChunkSize n m)) advances). clear HJ. intros chunks.
  revert d j. induction chunks as [|c chunks IH]; intros d j Hn Hj Hid; simpl; [done|]. simpl in Hn.
  rewrite fmap_app in Hn. apply NoDup_app in Hn as (_ & Hdisj & Hn).
  rewrite arr_find_app. subst id.
  assert (Hc : jobs (advanceChunk c d) !! j_id j = Some (match arr_find (fun a => a_id a =? j_id j) c with
                  | Some a => advance_job j (a_nextRunAt a) (a_lastFiredAt a) | None => j end)).
  { simpl. by rewrite lookup_fmap, Hj. }
  destruct (arr_find (fun a => a_id a =? j_id j) c) as [a|] eqn:Hf; [|by apply (IH _ j)].
  rewrite (IH _ _ Hn Hc eq_refl). simpl. destruct (arr_find _ (concat chunks)) as [b|] eqn:Hb; [|done].
  apply arr_find_Some in Hf as [Ha Hf], Hb as [Hb Hfb]. apply Z.eqb_eq in Hf, Hfb.
  destruct (Hdisj (a_id a)).
  - by apply list_elem_of_fmap_2' with a.
  - apply list_elem_of_fmap. exists b. split; [congruence|done].
Qed.

(** ** Columns and back *)

Lemma rowSchedule_columns (id now : Z) (n : NewScheduledJob) (s : Schedule) :
  nj_schedule n = scheduleColumns s -> rowSchedule (job_row id now n) = s.
Proof. intros Hs. unfold rowSchedule. simpl. rewrite Hs. by destruct s as [[]| | |[]]. Qed.

Lemma rowSchedule_update (j : ScheduledJob) (u : JobUpdate) (s : Schedule) :
  u_schedule u = Some (scheduleColumns s) -> rowSchedule (update_job u j) = s.
Proof. intros Hs. unfold rowSchedule, update_job. rewrite Hs. simpl. by destruct s as [[]| | |[]]. Qed.
