(* ===== verification/SchedMaterialize.v ===== *)
(** * Scheduler: a materialization pass

    [materialize.ts] over the transaction [buildMaterializerTransaction] binds
    ([packages/cli/src/scheduling/durable-scheduler.ts]): claim the due jobs, plan them,
    record their occurrences, retire what a catch-up run supersedes, advance their clocks.
    [interrupt k] is the error the pass's [k]-th checkpoint throws, of a failed statement
    or of an abort observed there; whatever the pass wrote is then rolled back.

    [seedInitialOccurrences] of [durable-job-provisioner.ts] runs the same pass inside the
    provisioning transaction, on the jobs just written. *)

From stdpp Require Import base gmap strings pretty list sorting fin_maps relations.
From Stdlib Require Import ZArith Lia Sorted.
From S2P Require Import Prelude.
From S2P Require Import JsCollections.
From S2P Require Import SchedTypes.
From S2P Require Import SchedStore.
From S2P Require Import SchedTable.
From S2P Require Import SchedRecurrence.
From S2P Require Import SchedPlan.
From S2P Require Import SchedPlanning.
From S2P Require Import SchedCoalesce.
From S2P Require Import SchedJobs.
From S2P Require Import SchedExecutor.
From S2P Require Import SchedWorld.

#[local] Open Scope Z_scope.

(** ** Transactions *)

(** [dataSource.transaction(work)]: committed whole, or rolled back. *)
Definition transaction {A} (work : Db -> sresult (A * Db)) (d : Db) : sresult A * Db :=
  match work d with
  | Ok (a, d') => (Ok a, d')
  | Err e => (Err e, d)
  end.

Definition checkpoint (interrupt : nat -> option SchedError) (k : nat) : sresult unit :=
  match interrupt k with Some e => Err e | None => Ok tt end.

(** ** The pass *)

(** [MaterializerSummary]; the rows' identity, which only Postgres returns, is left out. *)
Record MaterializerSummary := {
  su_claimedJobs : Z;
  su_occurrences : Z;
  su_deferredJobs : Z;
  su_misfires : list MisfireCount;
  su_retiredOccurrences : Z;
}.

Definition nothing_due : MaterializerSummary :=
  {| su_claimedJobs := 0; su_occurrences := 0; su_deferredJobs := 0; su_misfires := []; su_retiredOccurrences := 0 |}.

(** The largest chunk an advance takes, and [insertIgnoringDuplicates]'s own. *)
Definition MAX_ADVANCE_CHUNK : Z := 1000.
Definition INSERT_CHUNK : nat := Z.to_nat 1000.

(** [advanceJobs]' argument. *)
Definition advances (planned : list PlannedJob) : list JobAdvance :=
  (fun e => {| a_id := j_id (oj_job (p_job e)); a_nextRunAt := o_nextRunAt (p_plan e);
               a_lastFiredAt := o_lastFiredAt (p_plan e) |}) <$> planned.

(** The poll's claim. *)
Definition claimDueJobs (options : MaterializerOptions) (locked : gset Z) (now : Z) (d : Db) : option (list OwnedJob) :=
  withOwnerKeys <$> claimDue (m_batchSize options) (m_lookaheadSeconds options * seconds_toMilliseconds) locked now (db_jobs d).

(** The seed's: the jobs just written, enabled with a live clock. *)
Definition claimSeeded (jobIds : list Z) (d : Db) : option (list OwnedJob) :=
  match List.filter (fun j => j_enabled j && bool_decide (j_nextRunAt j <> None)) (findManyByIds jobIds (db_jobs d)) with
  | [] => None
  | claimed => Some (withOwnerKeys claimed)
  end.

Section Materialize.
Context `{CronParser} `{Luxon}.

(** What the pass asks of the store for the jobs it claimed. *)
Definition coalesced (claimed : list OwnedJob) (now : Z) (options : MaterializerOptions) : list PlannedJob :=
  applyCoalesceOwnerPolicy (planOrDeferJobs claimed now options).1.

Definition pass_tx (claim : Db -> option (list OwnedJob)) (now : Z) (options : MaterializerOptions)
    (interrupt : nat -> option SchedError) (d : Db) : sresult (MaterializerSummary * Db) :=
  checkpoint interrupt 1 ≫= fun _ =>
  match claim d with
  | None => Ok (nothing_due, d)
  | Some claimed =>
      let planned := coalesced claimed now options in
      let rows := toNewOccurrences planned now in
      let '(recorded, tasks1) := insertIgnoringDuplicates rows INSERT_CHUNK (db_tasks d) in
      checkpoint interrupt 2 ≫= fun _ =>
      let '(retired, tasks2) := updateToMissed now (toSuperseded planned) tasks1 in
      checkpoint interrupt 3 ≫= fun _ =>
      let jobs' := advanceMany (advances planned) MAX_ADVANCE_CHUNK MAX_ADVANCE_CHUNK (db_jobs d) in
      checkpoint interrupt 4 ≫= fun _ =>
      Ok ({| su_claimedJobs := Z.of_nat (length claimed);
             su_occurrences := recorded;
             su_deferredJobs := (planOrDeferJobs claimed now options).2;
             su_misfires := countMisfires planned;
             su_retiredOccurrences := retired |},
          {| db_jobs := jobs'; db_tasks := tasks2 |})
  end.

Definition materialize (options : MaterializerOptions) (interrupt : nat -> option SchedError) (locked : gset Z) (now : Z)
    (d : Db) : sresult MaterializerSummary * Db :=
  match checkpoint interrupt 0 with
  | Err e => (Err e, d)
  | Ok _ => transaction (pass_tx (claimDueJobs options locked now) now options interrupt) d
  end.

Definition seedInitialOccurrences (options : MaterializerOptions) (jobIds : list Z) (interrupt : nat -> option SchedError)
    (now : Z) (d : Db) : sresult Db :=
  match jobIds with
  | [] => Ok d
  | _ => snd <$> pass_tx (claimSeeded jobIds) now options interrupt d
  end.

(** ** What a pass does to the tables *)

(** The tables a pass that claims [claimed] leaves. *)
Definition pass_tasks (claimed : list OwnedJob) (now : Z) (options : MaterializerOptions) (t : TaskTable) : TaskTable :=
  (updateToMissed now (toSuperseded (coalesced claimed now options))
     (insertIgnoringDuplicates (toNewOccurrences (coalesced claimed now options) now) INSERT_CHUNK t).2).2.

Definition pass_jobs (claimed : list OwnedJob) (now : Z) (options : MaterializerOptions) (t : JobTable) : JobTable :=
  advanceMany (advances (coalesced claimed now options)) MAX_ADVANCE_CHUNK MAX_ADVANCE_CHUNK t.

Lemma pass_tx_ok claim now options interrupt d summary d' :
  pass_tx claim now options interrupt d = Ok (summary, d') ->
  (claim d = None /\ summary = nothing_due /\ d' = d) \/
  exists claimed, claim d = Some claimed /\
    d' = {| db_jobs := pass_jobs claimed now options (db_jobs d); db_tasks := pass_tasks claimed now options (db_tasks d) |}.
Proof.
  unfold pass_tx. intros Hp. apply bind_unit_ok in Hp as [_ Hp]. destruct (claim d) as [claimed|]; [|left; naive_solver].
  right. exists claimed. split; [done|]. unfold pass_tasks, pass_jobs.
  destruct (insertIgnoringDuplicates _ _ _) as [recorded tasks1] eqn:Hins. apply bind_unit_ok in Hp as [_ Hp].
  simpl. destruct (updateToMissed _ _ tasks1) as [retired tasks2] eqn:Hmiss. simpl.
  apply bind_unit_ok in Hp as [_ Hp]. apply bind_unit_ok in Hp as [_ Hp]. by injection Hp as _ <-.
Qed.

Lemma pass_tasks_statements claimed now options t :
  rtc (job_statement now) t (pass_tasks claimed now options t).
Proof.
  unfold pass_tasks. eapply rtc_l; [apply js_insert|]. eapply rtc_l; [apply js_missed|]. done.
Qed.

Lemma pass_tasks_keeps claimed now options t : TableOk t -> keeps t (pass_tasks claimed now options t).
Proof.
  intros HT. unfold pass_tasks. pose proof (statement_keeps now t _ HT (st_insert now t
    (toNewOccurrences (coalesced claimed now options) now) INSERT_CHUNK)) as [H1 H2].
  eapply keeps_trans; [by split|]. apply (statement_keeps now); [done|]. apply st_missed.
Qed.

Lemma pass_jobs_ok claimed now options t : JobsOk t -> JobsOk (pass_jobs claimed now options t).
Proof. apply advanceMany_ok. Qed.

(** ** Rows *)

Lemma has_occurrence_iff (t : TaskTable) (o : Z * Z) :
  has_occurrence t o = true <-> exists id r, rows t !! id = Some r /\ occurrence_of r = o.
Proof.
  unfold has_occurrence. rewrite bool_decide_eq_true, list_elem_of_fmap. split.
  - intros (r & -> & Hr). apply list_elem_of_fmap in Hr as ([id r'] & -> & Hin). exists id, r'.
    by apply elem_of_map_to_list in Hin.
  - intros (id & r & Hr & <-). exists r. split; [done|]. apply list_elem_of_fmap. exists (id, r). split; [done|].
    by apply elem_of_map_to_list.
Qed.

Definition asked (n : NewOccurrence) : Z * Z := (n_jobId n, n_scheduledFor n).

(** Recording keeps the rows there are, and adds one per occurrence that had none. *)
Lemma insert_rows_effect (l : list NewOccurrence) (t : TaskTable) :
  TableOk t ->
  (forall id r, rows t !! id = Some r -> rows (foldl insert_row t l) !! id = Some r) /\
  (forall n, n ∈ l -> has_occurrence (foldl insert_row t l) (asked n) = true) /\
  (forall id r, rows (foldl insert_row t l) !! id = Some r -> rows t !! id = Some r \/ exists n, n ∈ l /\ r = new_row id n).
Proof.
  revert t. induction l as [|n l IH]; intros t HT; simpl.
  { split_and!; [done|intros n Hn; inversion Hn|by left]. }
  pose proof (insert_row_keeps t n HT) as [HT' _]. destruct (IH _ HT') as (Hold & Hnew & Honly).
  assert (Hstep : (forall id r, rows t !! id = Some r -> rows (insert_row t n) !! id = Some r) /\
                  has_occurrence (insert_row t n) (asked n) = true /\
                  (forall id r, rows (insert_row t n) !! id = Some r -> rows t !! id = Some r \/ r = new_row id n)).
  { destruct (insert_row_cases t n) as [[Hin Heq]|[Hno Heq]]; rewrite Heq; [by auto|]. simpl. split_and!.
    - intros id r Hr. pose proof (next_id_above t id r HT Hr). by rewrite lookup_insert_ne by lia.
    - apply has_occurrence_iff. exists (next_id t), (new_row (next_id t) n). simpl. by rewrite lookup_insert_eq.
    - intros id r. rewrite lookup_insert_Some. intros [[<- <-]|[_ Hr]]; [by right|by left]. }
  destruct Hstep as (H1 & H2 & H3). split_and!.
  - intros id r Hr. by apply Hold, H1.
  - intros m [->|Hm]%elem_of_cons; [|by apply Hnew]. apply has_occurrence_iff in H2 as (id & r & Hr & Ho).
    apply has_occurrence_iff. exists id, r. split; [by apply Hold|done].
  - intros id r Hr. destruct (Honly id r Hr) as [Hr'|(m & Hm & ->)].
    + destruct (H3 id r Hr') as [?| ->]; [by left|]. right. exists n. split; [left|done].
    + right. exists m. split; [by right|done].
Qed.

Definition superseded_by (superseded : list (Z * Z)) (r : ScheduledTask) : bool :=
  bool_decide (t_status r = Pending) &&
  existsb (fun '(jobId, before) => (t_jobId r =? jobId) && (t_scheduledFor r <? before)) superseded.

Lemma updateToMissed_lookup (now : Z) (superseded : list (Z * Z)) (t : TaskTable) (id : Z) :
  rows (updateToMissed now superseded t).2 !! id =
    (fun r => if superseded_by superseded r then assign_columns [set_status Missed; set_finishedAt (Some now)] r else r)
      <$> rows t !! id.
Proof.
  unfold updateToMissed, superseded_by. destruct superseded as [|s l]; simpl.
  - destruct (rows t !! id) as [r|]; simpl; [|done]. by rewrite andb_false_r.
  - by rewrite lookup_fmap.
Qed.

Lemma pass_tasks_effect claimed now options t :
  TableOk t ->
  let planned := coalesced claimed now options in
  (forall id r, rows t !! id = Some r -> exists r', rows (pass_tasks claimed now options t) !! id = Some r' /\
     (r' = r \/ superseded_by (toSuperseded planned) r = true /\ t_status r' = Missed /\ occurrence_of r' = occurrence_of r)) /\
  (forall n, n ∈ toNewOccurrences planned now -> has_occurrence (pass_tasks claimed now options t) (asked n) = true) /\
  (forall id r, rows (pass_tasks claimed now options t) !! id = Some r ->
     (exists r0, rows t !! id = Some r0 /\ occurrence_of r = occurrence_of r0) \/
     exists n, n ∈ toNewOccurrences planned now /\ occurrence_of r = asked n).
Proof.
  intros HT planned. unfold pass_tasks. fold planned.
  rewrite insertIgnoringDuplicates_rows, concat_chunks_of by (unfold INSERT_CHUNK; lia).
  destruct (insert_rows_effect (toNewOccurrences planned now) t HT) as (Hold & Hnew & Honly). split_and!.
  - intros id r Hr. rewrite updateToMissed_lookup, (Hold id r Hr). simpl.
    destruct (superseded_by (toSuperseded planned) r) eqn:Hs; eexists; (split; [done|]); [right|by left]. done.
  - intros n Hn. specialize (Hnew n Hn). apply has_occurrence_iff in Hnew as (id & r & Hr & Ho).
    apply has_occurrence_iff. rewrite <-Ho. exists id. rewrite updateToMissed_lookup, Hr. simpl. eexists. split; [done|].
    by destruct (superseded_by _ r).
  - intros id r. rewrite updateToMissed_lookup. intros (r1 & Hr1 & ->)%fmap_Some_1.
    assert (Ho : occurrence_of (if superseded_by (toSuperseded planned) r1
                   then assign_columns [set_status Missed; set_finishedAt (Some now)] r1 else r1) = occurrence_of r1)
      by (by destruct (superseded_by _ r1)).
    rewrite Ho. destruct (Honly id r1 Hr1) as [Hr|(n & Hn & ->)]; [left; by exists r1|]. right. by exists n.
Qed.

(** ** Entries *)

Lemma planOrDeferJob_job job now options : p_job (planOrDeferJob job now options).1 = job.
Proof. unfold planOrDeferJob. by destruct (planOccurrences _ _ _). Qed.

(** Coalescing changes no entry's job, clock or order. *)
Lemma coalesced_entry claimed now options i entry :
  coalesced claimed now options !! i = Some entry ->
  exists job, claimed !! i = Some job /\ p_job entry = job /\
    let planned := (planOrDeferJob job now options).1 in
    entry = planned \/ entry = dropLateRun planned.
Proof.
  unfold coalesced, planOrDeferJobs. simpl. rewrite <-list_fmap_compose. set (planned := _ <$> claimed).
  assert (Hp : forall e, planned !! i = Some e -> exists job, claimed !! i = Some job /\ e = (planOrDeferJob job now options).1).
  { intros e. unfold planned. rewrite list_lookup_fmap. destruct (claimed !! i) as [job|]; simpl; [|done].
    intros [= <-]. by exists job. }
  intros He. assert (Hcase : exists e, planned !! i = Some e /\ (entry = e \/ entry = dropLateRun e)).
  { unfold applyCoalesceOwnerPolicy in He. destruct (concat _) as [|k l]; [by exists entry; auto|].
    rewrite list_lookup_imap in He. destruct (planned !! i) as [e|]; simpl in He; [|done]. injection He as <-.
    exists e. split; [done|]. case_bool_decide; auto. }
  destruct Hcase as (e & Hi & Hor). destruct (Hp e Hi) as (job & Hc & ->). exists job. split; [done|].
  split; [|done]. destruct Hor as [->| ->]; simpl; apply planOrDeferJob_job.
Qed.

Lemma coalesced_length claimed now options : length (coalesced claimed now options) = length claimed.
Proof.
  unfold coalesced, planOrDeferJobs, applyCoalesceOwnerPolicy. simpl.
  destruct (concat _); rewrite ?length_imap, !length_fmap; done.
Qed.

Lemma coalesced_jobs claimed now options : (fun e => p_job e) <$> coalesced claimed now options = claimed.
Proof.
  apply list_eq. intros i. rewrite list_lookup_fmap. destruct (coalesced claimed now options !! i) as [e|] eqn:He; simpl.
  - destruct (coalesced_entry _ _ _ _ _ He) as (job & -> & -> & _). done.
  - apply lookup_ge_None in He. rewrite coalesced_length in He. symmetry. by apply lookup_ge_None.
Qed.

Lemma advances_ids claimed now options :
  a_id <$> advances (coalesced claimed now options) = (fun job => j_id (oj_job job)) <$> claimed.
Proof.
  rewrite <-(coalesced_jobs claimed now options) at 2. unfold advances. by rewrite <-!list_fmap_compose.
Qed.

Lemma pass_jobs_lookup claimed now options t id j :
  JobsOk t -> NoDup ((fun job => j_id (oj_job job)) <$> claimed) -> jobs t !! id = Some j ->
  jobs (pass_jobs claimed now options t) !! id = Some j /\ id ∉ ((fun job => j_id (oj_job job)) <$> claimed) \/
  exists e, e ∈ coalesced claimed now options /\ j_id (oj_job (p_job e)) = id /\
    jobs (pass_jobs claimed now options t) !! id = Some (advance_job j (o_nextRunAt (p_plan e)) (o_lastFiredAt (p_plan e))).
Proof.
  intros HJ Hn Hj. unfold pass_jobs. rewrite (advanceMany_lookup _ _ _ _ id j HJ); [|by rewrite advances_ids|done|unfold MAX_ADVANCE_CHUNK; lia].
  destruct (arr_find _ (advances _)) as [a|] eqn:Hf.
  - apply arr_find_Some in Hf as [Ha Hid]. apply Z.eqb_eq in Hid. right.
    apply list_elem_of_fmap in Ha as (e & -> & He). by exists e.
  - left. split; [done|]. rewrite <-(advances_ids claimed now options). intros (a & -> & Ha)%list_elem_of_fmap.
    apply (proj1 (arr_find_None _ _) Hf) in Ha. apply Z.eqb_neq in Ha. done.
Qed.

End Materialize.
