(* ===== verification/SchedPasses.v ===== *)
(** * Scheduler: passes over the tables

    What a committed pass leaves in the two tables; that it is a run of the statements
    [SchedWorld] already lets any instance issue, so the executor's guarantees hold
    beside it; and that, pass after pass, interrupted or not, the rows of a job are fires
    of its schedule, none twice. *)

From stdpp Require Import base gmap strings pretty list sorting fin_maps relations.
From Stdlib Require Import ZArith Lia Sorted.
From S2P Require Import Prelude.
From S2P Require Import JsCollections.
From S2P Require Import EngineTypes.
From S2P Require Import SchedTypes.
From S2P Require Import SchedStore.
From S2P Require Import SchedTable.
From S2P Require Import SchedRecurrence.
From S2P Require Import SchedPlan.
From S2P Require Import SchedPlanning.
From S2P Require Import SchedCoalesce.
From S2P Require Import SchedJobs.
From S2P Require Import SchedExecutor.
From S2P Require Import SchedWorld.
From S2P Require Import SchedMaterialize.

#[local] Open Scope Z_scope.

(** ** What is claimed *)

Lemma claimDueJobs_rows options locked now (d : Db) claimed :
  JobsOk (db_jobs d) -> claimDueJobs options locked now d = Some claimed ->
  NoDup ((fun job => j_id (oj_job job)) <$> claimed) /\
  forall job, job ∈ claimed -> jobs (db_jobs d) !! j_id (oj_job job) = Some (oj_job job).
Proof.
  intros HJ Hc. unfold claimDueJobs, claimDue in Hc.
  set (due := jobs_where _ (db_jobs d)) in Hc. set (l := take _ (merge_sort oldest_due due)) in Hc.
  assert (Hsub : l ⊆+ due).
  { unfold l. etransitivity; [apply submseteq_take|]. apply Permutation_submseteq, merge_sort_Permutation. }
  assert (Heq : claimed = withOwnerKeys l) by (destruct l; [done|]; by injection Hc). subst claimed. split.
  - unfold withOwnerKeys. rewrite <-list_fmap_compose. change (NoDup (j_id <$> l)).
    apply (submseteq_NoDup _ (j_id <$> due)); [by apply (submseteq_fmap j_id)|by apply jobs_where_ids_NoDup].
  - intros job Hjob. apply list_elem_of_fmap in Hjob as (j & -> & Hj). simpl.
    apply (elem_of_submseteq _ _ _ Hj) in Hsub. apply elem_of_jobs_where in Hsub as [_ [id Hid]].
    by destruct (jk_key _ HJ id j Hid) as [-> _].
Qed.

Section Passes.
Context `{CronParser} `{Luxon}.

Lemma materialize_cases options interrupt locked now (d : Db) r (d' : Db) :
  materialize options interrupt locked now d = (r, d') ->
  d' = d \/ exists claimed, claimDueJobs options locked now d = Some claimed /\
    d' = {| db_jobs := pass_jobs claimed now options (db_jobs d); db_tasks := pass_tasks claimed now options (db_tasks d) |}.
Proof.
  unfold materialize, transaction. destruct (checkpoint interrupt 0); [|by intros [= _ <-]; left].
  destruct (pass_tx _ _ _ _ _) as [[summary d1]|e] eqn:Hp; intros [= _ <-]; [|by left].
  apply pass_tx_ok in Hp as [(_ & _ & ->)|Hp]; [by left|by right].
Qed.

Definition DbOk (d : Db) : Prop := JobsOk (db_jobs d) /\ TableOk (db_tasks d).

(** Any statement of the job repository that writes, with any arguments, but the one that
    advances clocks, which is part of a pass. *)
Inductive job_table_statement (now : Z) (d : Db) : Db -> Prop :=
  | jt_insertMany news ids jobs' : insertMany now news (db_jobs d) = Ok (ids, jobs') ->
      job_table_statement now d {| db_jobs := jobs'; db_tasks := db_tasks d |}
  | jt_updateDefinition id s nextRunAt runOptions :
      job_table_statement now d {| db_jobs := updateDefinition id s nextRunAt runOptions (db_jobs d); db_tasks := db_tasks d |}
  | jt_updateRunOptions ids runOptions :
      job_table_statement now d {| db_jobs := updateRunOptions ids runOptions (db_jobs d); db_tasks := db_tasks d |}
  | jt_updatePayload ids payload :
      job_table_statement now d {| db_jobs := updatePayload ids payload (db_jobs d); db_tasks := db_tasks d |}
  | jt_deleteManyByIds ids : job_table_statement now d (deleteManyByIds ids d)
  | jt_backdate o seconds :
      job_table_statement now d {| db_jobs := backdateNextRunAt o seconds now (db_jobs d); db_tasks := db_tasks d |}
  | jt_liftByOwner o :
      job_table_statement now d {| db_jobs := (liftQuarantineByOwner o (db_jobs d)).2; db_tasks := db_tasks d |}
  | jt_deleteByOwnerMember o : job_table_statement now d (deleteByOwnerMember o d).2
  | jt_deleteIfPayloadUnchanged unchanged id payload :
      job_table_statement now d (deleteIfPayloadUnchanged unchanged id payload d).2
  | jt_deleteByOwnerRef ownerType ownerId : job_table_statement now d (deleteByOwnerRef ownerType ownerId d).2
  | jt_deleteByOwnerTaskType ownerType ownerId taskType :
      job_table_statement now d (deleteByOwnerTaskType ownerType ownerId taskType d).2
  | jt_quarantine ownerType ownerIds orphanedAt settledBefore :
      job_table_statement now d (quarantineByOwnerIds ownerType ownerIds orphanedAt settledBefore d).2
  | jt_deleteQuarantined ownerType ownerIds before :
      job_table_statement now d (deleteQuarantinedByOwnerIds ownerType ownerIds before d).2
  | jt_lift id nextRunAt :
      job_table_statement now d {| db_jobs := (liftQuarantine id nextRunAt (db_jobs d)).2; db_tasks := db_tasks d |}.

(** No occurrence of the job [id] comes. *)
Definition records_nothing (id : Z) (t t' : TaskTable) : Prop :=
  forall k r', rows t' !! k = Some r' -> t_jobId r' = id ->
    exists k0 r, rows t !! k0 = Some r /\ occurrence_of r = occurrence_of r'.

(** The job stays, with its schedule and its clock. *)
Definition keeps_clock (id : Z) (t t' : JobTable) : Prop :=
  forall j, jobs t !! id = Some j -> exists j', jobs t' !! id = Some j' /\
    (forall defaultTimezone, resolveSchedule j' defaultTimezone = resolveSchedule j defaultTimezone) /\ j_nextRunAt j' = j_nextRunAt j.

(** One step of the two tables, as the job [id] sees it: a pass of any instance, a statement
    of the task repository that records no occurrence of the job, or a statement of the job
    repository that leaves the job's schedule and clock as they are. *)
Inductive host_step (options : MaterializerOptions) (id : Z) (d : Db) : Db -> Prop :=
  | hs_pass interrupt locked now r d' :
      materialize options interrupt locked now d = (r, d') -> host_step options id d d'
  | hs_tasks now t' :
      statement now (db_tasks d) t' -> records_nothing id (db_tasks d) t' ->
      host_step options id d {| db_jobs := db_jobs d; db_tasks := t' |}
  | hs_jobs now d' :
      job_table_statement now d d' -> keeps_clock id (db_jobs d) (db_jobs d') -> host_step options id d d'.

Lemma delete_rows_nothing id p t : records_nothing id t (delete_rows p t).2.
Proof. intros k r [Hr _]%lookup_delete_rows _. by exists k, r. Qed.

Lemma same_tasks id t : records_nothing id t t.
Proof. intros k r Hr _. by exists k, r. Qed.

Lemma delete_jobs_cascade_ok p d : DbOk d -> DbOk (delete_jobs_cascade p d).2.
Proof. intros [HJ HT]. split; [by apply delete_jobs_ok|]. by apply (delete_rows_keeps _ (db_tasks d)). Qed.

(** A statement of the job repository keeps the tables well formed, and records nothing. *)
Lemma job_table_statement_ok now d d' :
  DbOk d -> job_table_statement now d d' -> DbOk d' /\ forall id, records_nothing id (db_tasks d) (db_tasks d').
Proof.
  intros Hok Hs. assert (forall js, JobsOk js -> DbOk {| db_jobs := js; db_tasks := db_tasks d |} /\
    forall id, records_nothing id (db_tasks d) (db_tasks {| db_jobs := js; db_tasks := db_tasks d |})) as Hjobs
    by (intros js HJ; destruct Hok; split; [by split|intros; apply same_tasks]).
  assert (forall p, DbOk (delete_jobs_cascade p d).2 /\ forall id, records_nothing id (db_tasks d) (db_tasks (delete_jobs_cascade p d).2)) as Hdel
    by (intros p; split; [by apply delete_jobs_cascade_ok|intros; apply delete_rows_nothing]).
  assert (DbOk d /\ forall id, records_nothing id (db_tasks d) (db_tasks d)) as Hsame by (split; [done|intros; apply same_tasks]).
  pose proof (proj1 Hok) as HJ. destruct Hs as [news ids js Hi|id s n o|ids o|ids p|ids|o n|o|o|u id p|ot oi|ot oi tt|ot ois a b|ot ois b|id n].
  - apply Hjobs. unfold insertMany in Hi. destruct (mapM_result _ _); simpl in Hi; [|done]. injection Hi as _ <-.
    clear -HJ. revert HJ. generalize (db_jobs d). induction news as [|n news IH]; intros t HJ; simpl; [done|]. by apply IH, insert_job_ok.
  - by apply Hjobs, change_jobs_ok.
  - apply Hjobs. destruct ids; [done|by apply change_jobs_ok].
  - apply Hjobs. destruct ids; [done|by apply change_jobs_ok].
  - destruct ids; [done|apply Hdel].
  - by apply Hjobs, change_jobs_ok.
  - by apply Hjobs, change_jobs_ok.
  - apply Hdel.
  - apply Hdel.
  - apply Hdel.
  - apply Hdel.
  - destruct ois as [|i ois]; [done|]. destruct Hok as [_ HT]. split; [|intros; apply delete_rows_nothing].
    split; [by apply change_jobs_ok|]. by apply (delete_rows_keeps _ (db_tasks d)).
  - destruct ois; [done|apply Hdel].
  - by apply Hjobs, change_jobs_ok.
Qed.

Lemma host_step_ok options id d d' : DbOk d -> host_step options id d d' -> DbOk d'.
Proof.
  intros [HJ HT] Hs. destruct Hs as [i l now r d' Hm|now t' Hst _|now d' Hst _].
  - apply materialize_cases in Hm as [->|(claimed & _ & ->)]; [by split|].
    split; simpl; [by apply pass_jobs_ok|]. by apply pass_tasks_keeps.
  - split; [done|]. by apply (statement_keeps now (db_tasks d)).
  - by apply (job_table_statement_ok now d).
Qed.

(** Every fire of the schedule can be computed. *)
Definition never_fails (s : Schedule) : Prop := forall t, is_ok (computeNextRunAt s t) = true.

Lemma fires_within_total room windowEnd s t : never_fails s -> exists due rest, fires_within room windowEnd s t = Ok (due, rest).
Proof.
  intros Hs. revert t. induction room as [|room IH]; intros [t|]; simpl; eauto.
  destruct (t <=? windowEnd); [|eauto]. specialize (Hs t). destruct (computeNextRunAt s t) as [t'|]; [|done]. simpl.
  destruct (IH t') as (due & rest & ->). simpl. eauto.
Qed.

Context `{!CronLaws}.

Lemma never_deferred (options : MaterializerOptions) (s : Schedule) (now : Z) (job : OwnedJob) :
  resolveSchedule (oj_job job) (m_defaultTimezone options) = Ok s -> validateSchedule s = Ok tt -> never_fails s ->
  (forall next, j_nextRunAt (oj_job job) = Some next -> starts_at s next) ->
  exists plan, planOccurrences (oj_job job) now options = Ok plan /\
    planOrDeferJob job now options = ({| p_job := job; p_plan := plan |}, false).
Proof.
  intros Hr Hv Hn Hs. unfold planOrDeferJob.
  assert (Hok : exists plan, planOccurrences (oj_job job) now options = Ok plan).
  { destruct (j_nextRunAt (oj_job job)) as [next|] eqn:Hnext.
    - rewrite (planOccurrences_steps _ s now options next Hr Hv Hnext (Hs _ eq_refl)). unfold plan_by_stepping.
      destruct (fires_within_total (Z.to_nat (m_maxPerJob options)) (now + m_windowSeconds options * seconds_toMilliseconds)
                  s (Some next) Hn) as (due & rest & ->). eauto.
    - unfold planOccurrences. rewrite Hr. cbn [mbind result_bind]. rewrite Hnext. eauto. }
  destruct Hok as [plan ->]. eauto.
Qed.

(** The rows of a job, so far, against its schedule from [first] on. *)
Definition on_schedule (options : MaterializerOptions) (s : Schedule) (first : option Z) (id : Z) (d : Db) : Prop :=
  exists j due, jobs (db_jobs d) !! id = Some j /\
    resolveSchedule j (m_defaultTimezone options) = Ok s /\
    fires (length due) s first = Ok (due, j_nextRunAt j) /\
    (forall k r, rows (db_tasks d) !! k = Some r -> t_jobId r = id -> t_scheduledFor r ∈ due).

Lemma elem_of_toNewOccurrences planned now n :
  n ∈ toNewOccurrences planned now <->
  exists e when, e ∈ planned /\ when ∈ o_occurrences (p_plan e) /\ n = new_occurrence now e when.
Proof.
  unfold toNewOccurrences. rewrite list_elem_of_In, in_concat. setoid_rewrite <-list_elem_of_In. split.
  - intros (l & (e & -> & He)%list_elem_of_fmap & (w & -> & Hw)%list_elem_of_fmap). by exists e, w.
  - intros (e & w & He & Hw & ->). exists (new_occurrence now e <$> o_occurrences (p_plan e)).
    split; apply list_elem_of_fmap; eauto.
Qed.

Lemma pass_on_schedule options s first id claimed now (d : Db) :
  DbOk d -> validateSchedule s = Ok tt -> never_fails s -> (forall next, first = Some next -> starts_at s next) ->
  NoDup ((fun job => j_id (oj_job job)) <$> claimed) ->
  (forall job, job ∈ claimed -> jobs (db_jobs d) !! j_id (oj_job job) = Some (oj_job job)) ->
  on_schedule options s first id d ->
  on_schedule options s first id
    {| db_jobs := pass_jobs claimed now options (db_jobs d); db_tasks := pass_tasks claimed now options (db_tasks d) |}.
Proof.
  intros [HJ HT] Hv Hnf Hfirst Hnd Hrows (j & due & Hj & Hr & Hdue & Hon).
  pose proof (starts_at_later s _ _ _ _ Hv (resolved_has_zone _ _ _ Hr) Hfirst Hdue) as Hstart.
  destruct (pass_tasks_effect claimed now options (db_tasks d) HT) as (_ & _ & Honly).
  destruct (pass_jobs_lookup claimed now options (db_jobs d) id j HJ Hnd Hj) as [[Hj' Hun]|(e & He & Hid & Hj')].
  - exists j, due. split_and!; [done|done|done|]. intros k r Hk Hrid. simpl in Hk.
    destruct (Honly k r Hk) as [(r0 & Hr0 & Ho)|(n & Hn & Ho)].
    + injection Ho as Hjob Hsf. rewrite Hsf. apply (Hon k r0 Hr0). congruence.
    + apply elem_of_toNewOccurrences in Hn as (e & w & He & _ & ->). injection Ho as Hjob Hsf. destruct Hun.
      rewrite <-Hrid, Hjob, <-(advances_ids claimed now options). apply list_elem_of_fmap.
      eexists. split; [|apply list_elem_of_fmap; by exists e]. done.
  - assert (Hentry : exists plan, planOccurrences j now options = Ok plan /\ o_nextRunAt (p_plan e) = o_nextRunAt plan /\
              sublist (o_occurrences (p_plan e)) (o_occurrences plan)).
    { apply list_elem_of_lookup in He as [i Hi]. destruct (coalesced_entry claimed now options i e Hi) as (job & Hc & Hp & Hor).
      subst job. apply list_elem_of_lookup_2, Hrows in Hc. rewrite Hid, Hj in Hc. injection Hc as Hc.
      destruct (never_deferred options s now (p_job e)) as (plan & Hplan & Hpd); rewrite <-?Hc; try done; [].
      rewrite <-Hc in Hplan. exists plan. split; [done|]. rewrite Hpd in Hor. destruct Hor as [-> | ->]; simpl; [done|].
      split; [done|]. destruct (o_occurrences plan); [done|]. by apply sublist_cons. }
    destruct Hentry as (plan & Hplan & Hnext & Hsub).
    destruct (planOccurrences_consumes j s now options plan Hr Hv Hstart Hplan) as (due2 & Hdue2 & Hsub2 & _).
    exists (advance_job j (o_nextRunAt (p_plan e)) (o_lastFiredAt (p_plan e))), (due ++ due2). split_and!; [done|done| |].
    + rewrite length_app, fires_app, Hdue. simpl. rewrite Hdue2. simpl. by rewrite Hnext.
    + intros k r Hk Hrid. simpl in Hk. apply elem_of_app. destruct (Honly k r Hk) as [(r0 & Hr0 & Ho)|(n & Hn & Ho)].
      * left. injection Ho as Hjob Hsf. rewrite Hsf. apply (Hon k r0 Hr0). congruence.
      * right. apply elem_of_toNewOccurrences in Hn as (e' & w & He' & Hw & ->). injection Ho as Hjob Hsf. rewrite Hsf.
        replace e' with e in Hw;
          [apply (elem_of_submseteq _ _ _ Hw), sublist_submseteq; by transitivity (o_occurrences plan)|].
        assert (Hidp : NoDup ((fun e => j_id (oj_job (p_job e))) <$> coalesced claimed now options)).
        { rewrite <-(coalesced_jobs claimed now options), <-list_fmap_compose in Hnd. exact Hnd. }
        apply list_elem_of_lookup in He as [i Hi], He' as [i' Hi'].
        assert (i = i') as <-; [|congruence]. apply (NoDup_lookup _ _ _ id Hidp); rewrite list_lookup_fmap.
        -- by rewrite Hi; simpl; f_equal.
        -- rewrite Hi'. simpl. f_equal. congruence.
Qed.

Lemma host_step_on_schedule options s first id (d d' : Db) :
  DbOk d -> validateSchedule s = Ok tt -> never_fails s -> (forall next, first = Some next -> starts_at s next) ->
  host_step options id d d' -> on_schedule options s first id d -> on_schedule options s first id d'.
Proof.
  intros Hok Hv Hn Hs Hstep Hon.
  assert (forall t', records_nothing id (db_tasks d) t' -> forall due : list Z,
    (forall k r, rows (db_tasks d) !! k = Some r -> t_jobId r = id -> t_scheduledFor r ∈ due) ->
    forall k r, rows t' !! k = Some r -> t_jobId r = id -> t_scheduledFor r ∈ due) as Hkeep.
  { intros t' Hno due Hdue k r Hk Hid. destruct (Hno k r Hk Hid) as (k0 & r0 & Hr0 & Ho). injection Ho as Hjob Hsf.
    rewrite <-Hsf. apply (Hdue k0 r0 Hr0). congruence. }
  destruct Hstep as [i l now r d' Hm|now t' _ Hno|now d' Hst Hclock].
  - apply materialize_cases in Hm as [->|(claimed & Hc & ->)]; [done|].
    destruct (claimDueJobs_rows _ _ _ _ _ (proj1 Hok) Hc). by apply pass_on_schedule.
  - destruct Hon as (j & due & Hj & Hr & Hdue & Hrows). exists j, due. split_and!; [done..|]. by apply Hkeep.
  - destruct (job_table_statement_ok now d d' Hok Hst) as [_ Hno]. destruct Hon as (j & due & Hj & Hr & Hdue & Hrows).
    destruct (Hclock j Hj) as (j' & Hj' & Hr' & Hn'). exists j', due. rewrite Hr', Hn'. split_and!; [done..|]. apply Hkeep; [apply Hno|done].
Qed.

(** ** The claims *)

(** C26. A committed pass leaves a row for every occurrence it planned (recorded now or
    before), adds no other row, changes no row but to retire a superseded one as missed,
    and moves the clock of the jobs it claimed, each to its own plan's, and of no other. *)
Theorem pass_records_and_advances (options : MaterializerOptions) interrupt locked now (d d' : Db) summary claimed :
  DbOk d -> materialize options interrupt locked now d = (Ok summary, d') ->
  claimDueJobs options locked now d = Some claimed ->
  let planned := coalesced claimed now options in
  (forall e when, e ∈ planned -> when ∈ o_occurrences (p_plan e) ->
     has_occurrence (db_tasks d') (j_id (oj_job (p_job e)), when) = true) /\
  (forall id r, rows (db_tasks d') !! id = Some r ->
     (exists r0, rows (db_tasks d) !! id = Some r0 /\ occurrence_of r = occurrence_of r0) \/
     exists e when, e ∈ planned /\ when ∈ o_occurrences (p_plan e) /\
       occurrence_of r = (j_id (oj_job (p_job e)), when)) /\
  (forall id r, rows (db_tasks d) !! id = Some r -> exists r', rows (db_tasks d') !! id = Some r' /\
     (r' = r \/ superseded_by (toSuperseded planned) r = true /\ t_status r' = Missed)) /\
  (forall id j, jobs (db_jobs d) !! id = Some j ->
     jobs (db_jobs d') !! id = Some j /\ id ∉ ((fun job => j_id (oj_job job)) <$> claimed) \/
     exists e, e ∈ planned /\ j_id (oj_job (p_job e)) = id /\
       jobs (db_jobs d') !! id = Some (advance_job j (o_nextRunAt (p_plan e)) (o_lastFiredAt (p_plan e)))).
Proof.
  intros [HJ HT] Hm Hc planned.
  assert (Hd : d' = {| db_jobs := pass_jobs claimed now options (db_jobs d); db_tasks := pass_tasks claimed now options (db_tasks d) |}).
  { unfold materialize, transaction in Hm. destruct (checkpoint interrupt 0); [|done].
    destruct (pass_tx _ _ _ _ _) as [[s1 d1]|e] eqn:Hp; [|done]. injection Hm as -> ->.
    apply pass_tx_ok in Hp as [(Hno & _)|(c & Hc' & ->)]; congruence. }
  subst d'. simpl. destruct (pass_tasks_effect claimed now options (db_tasks d) HT) as (Hold & Hnew & Honly).
  destruct (claimDueJobs_rows _ _ _ _ _ HJ Hc) as [Hnd _]. split_and!.
  - intros e w He Hw. apply (Hnew (new_occurrence now e w)). apply elem_of_toNewOccurrences. by exists e, w.
  - intros id r Hr. destruct (Honly id r Hr) as [Hl|(n & Hn & Ho)]; [by left|]. right.
    apply elem_of_toNewOccurrences in Hn as (e & w & He & Hw & ->). by exists e, w.
  - intros id r Hr. destruct (Hold id r Hr) as (r' & Hr' & Hor). exists r'. split; [done|]. destruct Hor; [by left|right; tauto].
  - intros id j Hj. by apply pass_jobs_lookup.
Qed.

(** To the executors, a pass is a run of statements they already work beside: whatever it
    answers, the task table it leaves is reached by the steps [SchedWorld] allows. *)
Lemma pass_is_a_run_of_statements (options : MaterializerOptions) interrupt locked (d : Db) xs ps evs now :
  rtc wstep (Build_World now (db_tasks d) xs ps evs)
            (Build_World now (db_tasks (materialize options interrupt locked now d).2) xs ps evs).
Proof.
  destruct (materialize options interrupt locked now d) as [r d'] eqn:Hm. simpl.
  apply materialize_cases in Hm as [->|(claimed & _ & ->)]; [done|]. simpl.
  pose proof (pass_tasks_statements claimed now options (db_tasks d)) as Hs. revert Hs.
  generalize (pass_tasks claimed now options (db_tasks d)). intros t Hs. induction Hs as [t1|t1 t2 t3 H12 _ IH]; [done|].
  eapply rtc_l; [by apply ws_jobs|exact IH].
Qed.

(** C8. A job without rows yet, whose schedule is valid and can always be computed (the cron
    parser obeying [CronLaws]) and whose clock stands at a fire.  Pass after pass, of any
    instance, each committed or rolled back, beside any statement of the task repository
    that records no occurrence of this job and any statement of the job repository that
    leaves this job's schedule and clock as they are: every row of the job stands for one
    fire of its schedule, no fire has two rows, and the job's clock is at the fire after the
    last one consumed. *)
Theorem rows_are_fires_of_the_schedule (options : MaterializerOptions) (s : Schedule) (id : Z) (j0 : ScheduledJob) (d0 d : Db) :
  DbOk d0 -> jobs (db_jobs d0) !! id = Some j0 ->
  (forall k r, rows (db_tasks d0) !! k = Some r -> t_jobId r <> id) ->
  resolveSchedule j0 (m_defaultTimezone options) = Ok s -> validateSchedule s = Ok tt -> never_fails s ->
  (forall next, j_nextRunAt j0 = Some next -> starts_at s next) ->
  rtc (host_step options id) d0 d ->
  exists j due, jobs (db_jobs d) !! id = Some j /\
    fires (length due) s (j_nextRunAt j0) = Ok (due, j_nextRunAt j) /\ StronglySorted Z.lt due /\
    (forall k r, rows (db_tasks d) !! k = Some r -> t_jobId r = id -> t_scheduledFor r ∈ due) /\
    (forall k l r r', rows (db_tasks d) !! k = Some r -> rows (db_tasks d) !! l = Some r' ->
       t_jobId r = id -> t_jobId r' = id -> t_scheduledFor r = t_scheduledFor r' -> k = l).
Proof.
  intros Hok Hj Hnone Hr Hv Hnf Hs Hsteps.
  assert (Hon : on_schedule options s (j_nextRunAt j0) id d0).
  { exists j0, []. simpl. split_and!; [done|done|by destruct (j_nextRunAt j0)|]. intros k r Hk Hid. by destruct (Hnone k r Hk). }
  assert (Hend : DbOk d /\ on_schedule options s (j_nextRunAt j0) id d).
  { clear Hnone Hj. revert Hok Hon. induction Hsteps as [d0|d0 d1 d2 H01 _ IH]; intros Hok Hon; [done|].
    apply IH; [by apply (host_step_ok options id d0)|by apply (host_step_on_schedule options s _ id d0 d1)]. }
  destruct Hend as [[_ HT] (j & due & Hj' & _ & Hdue & Hrows)]. exists j, due.
  destruct (fires_sorted _ _ _ _ _ Hv (resolved_has_zone _ _ _ Hr) Hdue) as (Hsort & _). split_and!; try done; [].
  intros k l r r' Hk Hl Hid Hid' Hsf. apply (tk_unique _ HT k l r r' Hk Hl). unfold occurrence_of. congruence.
Qed.

End Passes.

Import Minutes.

(** A database with the job of every minute, first due at one minute. *)
Definition minutes_db : Db :=
  {| db_jobs := {| jobs := {[ 1 := Minutes.job Coalesce 60000 ]}; nextJobId := 2; jobs_dialect := Postgres |}; db_tasks := empty_tasks Postgres |}.

Lemma minutes_db_ok : DbOk minutes_db.
Proof.
  split; [|apply empty_tasks_ok]. split; simpl.
  - intros id j [<- <-]%lookup_singleton_Some. simpl. lia.
  - intros i k j j' [<- <-]%lookup_singleton_Some [<- <-]%lookup_singleton_Some. done.
Qed.

Definition no_interrupt (k : nat) : option SchedError := None.

Definition poll (now : Z) (d : Db) : sresult MaterializerSummary * Db :=
  materialize DEFAULT_MATERIALIZER_OPTIONS no_interrupt ∅ now d.

Lemma pass_records_and_advances_witness :
  exists summary d' claimed, poll 60000 minutes_db = (Ok summary, d') /\
    claimDueJobs DEFAULT_MATERIALIZER_OPTIONS ∅ 60000 minutes_db = Some claimed /\ su_occurrences summary = 2 /\
    (forall e when, e ∈ coalesced claimed 60000 DEFAULT_MATERIALIZER_OPTIONS -> when ∈ o_occurrences (p_plan e) ->
       has_occurrence (db_tasks d') (j_id (oj_job (p_job e)), when) = true).
Proof.
  destruct (poll 60000 minutes_db) as [[summary|e] d'] eqn:Hm; [|by vm_compute in Hm].
  destruct (claimDueJobs DEFAULT_MATERIALIZER_OPTIONS ∅ 60000 minutes_db) as [claimed|] eqn:Hc; [|by vm_compute in Hc].
  exists summary, d', claimed. split_and!; [done|done| |].
  - vm_compute in Hm. injection Hm as <- _. reflexivity.
  - apply (pass_records_and_advances DEFAULT_MATERIALIZER_OPTIONS no_interrupt ∅ 60000 minutes_db d' summary claimed);
      [apply minutes_db_ok|exact Hm|exact Hc].
Defined.

Lemma minutes_never_fails : never_fails Minutes.schedule.
Proof. intros t. reflexivity. Qed.

(** Run options may change between passes, with the job's schedule and clock kept. *)
Definition with_options (ids : list Z) (runOptions : Z * ScheduledJobMisfirePolicy * Z) (d : Db) : Db :=
  {| db_jobs := updateRunOptions ids runOptions (db_jobs d); db_tasks := db_tasks d |}.

Lemma run_options_keep_clock `{CronParser} `{Luxon} ids runOptions id t : keeps_clock id t (updateRunOptions ids runOptions t).
Proof.
  intros j Hj. unfold updateRunOptions. destruct ids as [|i ids]; [by exists j|]. unfold change_jobs. cbn [jobs set_jobs].
  rewrite lookup_fmap, Hj. simpl. destruct (bool_decide _); eexists; (split; [reflexivity|]); by destruct j.
Qed.

(** Two passes, the second one nine minutes late, and an update of the run options between. *)
Definition between : Db := with_options [1] (5, Coalesce, 60) (poll 60000 minutes_db).2.
Definition after_two : Db := (poll 600000 between).2.

Lemma rows_are_fires_of_the_schedule_witness :
  (t_scheduledFor <$> (map_to_list (rows (db_tasks after_two))).*2) ≡ₚ [60000; 120000; 600000; 660000] /\
  exists j due, jobs (db_jobs after_two) !! 1 = Some j /\
    fires (length due) Minutes.schedule (Some 60000) = Ok (due, j_nextRunAt j) /\
    (forall k r, rows (db_tasks after_two) !! k = Some r -> t_jobId r = 1 -> t_scheduledFor r ∈ due).
Proof.
  split; [apply (bool_decide_unpack _); vm_compute; exact I|].
  destruct (rows_are_fires_of_the_schedule DEFAULT_MATERIALIZER_OPTIONS Minutes.schedule 1 (Minutes.job Coalesce 60000)
    minutes_db after_two) as (j & due & H1 & H2 & _ & H4 & _).
  - apply minutes_db_ok.
  - reflexivity.
  - intros k r Hk. change ((∅ : gmap Z ScheduledTask) !! k = Some r) in Hk. by rewrite lookup_empty in Hk.
  - reflexivity.
  - reflexivity.
  - apply minutes_never_fails.
  - intros next _. exact I.
  - apply (rtc_l _ _ (poll 60000 minutes_db).2); [eapply hs_pass; apply surjective_pairing|].
    apply (rtc_l _ _ between); [apply (hs_jobs _ _ _ 60000); [apply jt_updateRunOptions|apply run_options_keep_clock]|].
    apply rtc_once. eapply hs_pass; apply surjective_pairing.
  - exists j, due. exact (conj H1 (conj H2 H4)).
Defined.
