(* ===== verification/SchedRetention.v ===== *)
(** * Scheduler: retention

    [packages/@n8n/scheduler/src/core/retention/prune.ts]: finished tasks past their
    window are deleted, in batches, within a budget of statements.  [RetentionStore] is the
    interface of [retention/store.ts], with what a pass relies on as its laws; the task
    table's [deleteFinishedOlderThan] is an instance.  [aborted k] is what the pass reads of
    its signal before its [k]-th statement. *)

From stdpp Require Import base gmap strings pretty list sorting fin_maps.
From Stdlib Require Import ZArith Lia.
From S2P Require Import Prelude.
From S2P Require Import EngineTypes.
From S2P Require Import SchedTypes.
From S2P Require Import SchedStore.
From S2P Require Import SchedTable.

#[local] Open Scope Z_scope.

(** ** The interface *)

(** [deleteFinishedOlderThan], and how many rows a batch with these statuses and age could
    delete. *)
Class RetentionStore (Store : Type) := {
  delete_batch : DeleteFinishedTasksOptions -> Store -> sresult Z * Store;
  past : list ScheduledTaskStatus -> Z -> Store -> Z;
}.

(** A batch deletes as many as it may; one that deletes nothing of a window leaves what is
    past it as it was. *)
Class RetentionLaws (Store : Type) `{RetentionStore Store} (good : Store -> Prop) := {
  past_nonneg statuses age s : 0 <= past statuses age s;
  batch_deletes statuses age limit s :
    good s -> statuses <> [] -> Forall (fun st => is_terminal st = true) statuses -> 0 < limit -> isSafeInteger limit = true ->
    exists n s', delete_batch {| o_statuses := statuses; o_olderThanMs := age; o_limit := limit |} s = (Ok n, s') /\
      n = Z.min limit (past statuses age s) /\ good s' /\ past statuses age s' = past statuses age s - n /\
      forall statuses' age', (forall st, st ∈ statuses -> st ∉ statuses') -> past statuses' age' s' = past statuses' age' s;
}.

(** ** The pass *)

Record RetentionOptions := {
  r_retentionSeconds : Z;
  r_failedRetentionSeconds : Z;
  r_batchSize : Z;
  r_maxBatchesPerPass : Z;
}.

Definition DEFAULT_RETENTION_OPTIONS : RetentionOptions :=
  {| r_retentionSeconds := days_toSeconds; r_failedRetentionSeconds := 7 * days_toSeconds; r_batchSize := 1000;
     r_maxBatchesPerPass := 1000 |}.

Record RetentionSummary := { rs_deleted : Z; rs_drained : bool }.

Record RetentionWindow := { win_statuses : list ScheduledTaskStatus; win_olderThanSeconds : Z }.

Definition retentionWindows (options : RetentionOptions) : list RetentionWindow :=
  [{| win_statuses := [Succeeded; Cancelled]; win_olderThanSeconds := r_retentionSeconds options |};
   {| win_statuses := [Failed; Missed]; win_olderThanSeconds := r_failedRetentionSeconds options |}].

Definition window_age (w : RetentionWindow) : Z := win_olderThanSeconds w * seconds_toMilliseconds.

(** [PassState], and the statements issued. *)
Record PassState := { ps_deleted : Z; ps_budget : Z; ps_drained : bool; ps_issued : nat }.

Record WindowResult := { wr_deleted : Z; wr_batches : Z; wr_drained : bool }.

Section Prune.
Context {Store : Type} `{RetentionStore Store}.
Variable aborted : nat -> bool.

(** The [while] loop of [pruneWindow], with [room] statements left; [issued] counts those of
    the whole pass. *)
Fixpoint prune_loop (room : nat) (w : RetentionWindow) (batchSize : Z) (issued : nat) (acc : WindowResult) (s : Store)
  : sresult WindowResult * Store :=
  match room with
  | O => (Ok acc, s)
  | S room' =>
      if aborted issued then (Ok acc, s)
      else
        match delete_batch {| o_statuses := win_statuses w; o_olderThanMs := window_age w; o_limit := batchSize |} s with
        | (Err e, s') => (Err e, s')
        | (Ok affected, s') =>
            let acc' := {| wr_deleted := wr_deleted acc + affected; wr_batches := wr_batches acc + 1;
                           wr_drained := affected <? batchSize |} in
            if affected <? batchSize then (Ok acc', s')
            else prune_loop room' w batchSize (S issued) acc' s'
        end
  end.

Definition pruneWindow (w : RetentionWindow) (batchSize budget : Z) (issued : nat) (s : Store) : sresult WindowResult * Store :=
  prune_loop (Z.to_nat budget) w batchSize issued {| wr_deleted := 0; wr_batches := 0; wr_drained := false |} s.

Fixpoint pruneWindows (windows : list RetentionWindow) (batchSize : Z) (state : PassState) (s : Store)
  : sresult PassState * Store :=
  match windows with
  | [] => (Ok state, s)
  | window :: rest =>
      let windowBudget := if ps_budget state <=? 0 then 0 else Z.max (ps_budget state - Z.of_nat (length rest)) 1 in
      match pruneWindow window batchSize windowBudget (ps_issued state) s with
      | (Err e, s') => (Err e, s')
      | (Ok pruned, s') =>
          pruneWindows rest batchSize
            {| ps_deleted := ps_deleted state + wr_deleted pruned; ps_budget := ps_budget state - wr_batches pruned;
               ps_drained := ps_drained state && wr_drained pruned;
               ps_issued := (ps_issued state + Z.to_nat (wr_batches pruned))%nat |} s'
      end
  end.

Definition prune (options : RetentionOptions) (s : Store) : sresult RetentionSummary * Store :=
  if r_batchSize options <=? 0 then
    (Err (InvalidRetentionOptionsError ("batchSize must be a positive integer, got " +:+ pretty (r_batchSize options))), s)
  else
    match pruneWindows (retentionWindows options) (r_batchSize options)
            {| ps_deleted := 0; ps_budget := r_maxBatchesPerPass options; ps_drained := true; ps_issued := 0 |} s with
    | (Err e, s') => (Err e, s')
    | (Ok state, s') => (Ok {| rs_deleted := ps_deleted state; rs_drained := ps_drained state |}, s')
    end.

(** ** What a window's loop does *)

Context (good : Store -> Prop) `{!RetentionLaws Store good}.

(** [k] statements deleted [deleted] rows of the window [w]. *)
Record window_pruned (w : RetentionWindow) (batchSize : Z) (room : nat) (s s' : Store) (deleted batches : Z) (drained : bool) : Prop := {
  wp_good : good s';
  wp_deleted : past (win_statuses w) (window_age w) s' = past (win_statuses w) (window_age w) s - deleted;
  wp_bound : 0 <= batches <= Z.of_nat room;
  wp_drained : drained = true -> past (win_statuses w) (window_age w) s' = 0;
  wp_other : forall statuses age, (forall st, st ∈ win_statuses w -> st ∉ statuses) -> past statuses age s' = past statuses age s;
  wp_enough : (forall k, aborted k = false) -> past (win_statuses w) (window_age w) s < Z.of_nat room * batchSize -> drained = true;
  wp_progress : (forall k, aborted k = false) -> batches * batchSize <= deleted + batchSize;
}.

Lemma prune_loop_prunes (w : RetentionWindow) (batchSize : Z) (room issued : nat) (acc : WindowResult) (s : Store) :
  good s -> win_statuses w <> [] -> Forall (fun st => is_terminal st = true) (win_statuses w) ->
  0 < batchSize -> isSafeInteger batchSize = true -> wr_drained acc = false ->
  exists res s', prune_loop room w batchSize issued acc s = (Ok res, s') /\
    window_pruned w batchSize room s s' (wr_deleted res - wr_deleted acc) (wr_batches res - wr_batches acc) (wr_drained res).
Proof.
  intros Hg Hne Hterm Hpos Hsafe. revert issued acc s Hg. induction room as [|room IH]; intros issued acc s Hg Hacc; simpl.
  { exists acc, s. split; [done|]. split; try done; try lia; [intros ?; congruence|].
    intros _. pose proof (past_nonneg (win_statuses w) (window_age w) s). lia. }
  destruct (aborted issued) eqn:Hab.
  { exists acc, s. split; [done|]. split; try done; try lia; [intros ?; congruence|intros Hno; by rewrite Hno in Hab]. }
  destruct (batch_deletes (win_statuses w) (window_age w) batchSize s Hg Hne Hterm Hpos Hsafe)
    as (n & s1 & Hdel & Hn & Hg1 & Hpast & Hother). rewrite Hdel.
  pose proof (past_nonneg (win_statuses w) (window_age w) s) as Hnn.
  destruct (Z.ltb_spec n batchSize) as [Hlt|Hge].
  - eexists _, s1. split; [done|]. simpl. split; try done; try lia; intros; lia.
  - destruct (IH (S issued) {| wr_deleted := wr_deleted acc + n; wr_batches := wr_batches acc + 1; wr_drained := false |} s1)
      as (res & s' & Hloop & [H1 H2 H3 H4 H5 H6 H7]); [done|done|]. simpl in *.
    exists res, s'. split; [done|]. split; try done; try lia.
    + intros statuses age Hdis. rewrite H5, Hother by done. done.
    + intros Hno Henough. apply H6; [done|]. lia.
    + intros Hno. specialize (H7 Hno). lia.
Qed.

(** Rows past the two windows. *)
Definition past_windows (options : RetentionOptions) (s : Store) : Z :=
  past [Succeeded; Cancelled] (r_retentionSeconds options * seconds_toMilliseconds) s +
  past [Failed; Missed] (r_failedRetentionSeconds options * seconds_toMilliseconds) s.

(** A pass deletes only what is past the windows and counts it; drained, it left none of
    it; and a budget that covers it, one statement kept in reserve, drains it. *)
Lemma prune_drains (options : RetentionOptions) (s : Store) :
  good s -> 0 < r_batchSize options -> isSafeInteger (r_batchSize options) = true ->
  exists summary s', prune options s = (Ok summary, s') /\ good s' /\
    rs_deleted summary = past_windows options s - past_windows options s' /\
    (rs_drained summary = true -> past_windows options s' = 0) /\
    ((forall k, aborted k = false) ->
     past_windows options s < (r_maxBatchesPerPass options - 1) * r_batchSize options -> rs_drained summary = true).
Proof.
  intros Hg Hpos Hsafe. unfold prune. destruct (Z.leb_spec (r_batchSize options) 0); [lia|].
  unfold retentionWindows, pruneWindows, pruneWindow. cbn [ps_budget ps_deleted ps_drained ps_issued length].
  set (w1 := {| win_statuses := [Succeeded; Cancelled]; win_olderThanSeconds := _ |}).
  set (w2 := {| win_statuses := [Failed; Missed]; win_olderThanSeconds := _ |}).
  set (acc := {| wr_deleted := 0; wr_batches := 0; wr_drained := false |}).
  set (bs := r_batchSize options) in *. set (B := r_maxBatchesPerPass options).
  set (room1 := Z.to_nat (if B <=? 0 then 0 else Z.max (B - Z.of_nat 1) 1)).
  destruct (prune_loop_prunes w1 bs room1 0 acc s Hg) as (r1 & s1 & -> & [G1 D1 N1 Z1 O1 E1 P1]); try done.
  { repeat constructor. }
  cbn [ps_budget ps_deleted ps_drained ps_issued].
  set (room2 := Z.to_nat (if B - wr_batches r1 <=? 0 then 0 else Z.max (B - wr_batches r1 - Z.of_nat 0) 1)).
  set (issued2 := (0 + Z.to_nat (wr_batches r1))%nat).
  destruct (prune_loop_prunes w2 bs room2 issued2 acc s1 G1) as (r2 & s2 & -> & [G2 D2 N2 Z2 O2 E2 P2]); try done.
  { repeat constructor. }
  simpl. eexists _, s2. split; [done|]. split; [done|]. simpl in *. unfold past_windows.
  change (r_retentionSeconds options * seconds_toMilliseconds) with (window_age w1).
  change (r_failedRetentionSeconds options * seconds_toMilliseconds) with (window_age w2).
  pose proof (O1 [Failed; Missed] (window_age w2) ltac:(set_solver)) as Hw2.
  pose proof (O2 [Succeeded; Cancelled] (window_age w1) ltac:(set_solver)) as Hw1.
  pose proof (past_nonneg [Succeeded; Cancelled] (window_age w1) s).
  pose proof (past_nonneg [Failed; Missed] (window_age w2) s). split_and!.
  - lia.
  - intros [Hd1 Hd2]%andb_true_iff. rewrite Hw1, (Z1 Hd1), (Z2 Hd2). done.
  - intros Hno Hen. specialize (E1 Hno). specialize (E2 Hno). specialize (P1 Hno). clear P2.
    assert (HB : 1 < B) by nia. unfold room1 in E1. destruct (Z.leb_spec B 0); [lia|].
    rewrite E1 by nia. simpl. apply E2. rewrite Hw2. unfold room2.
    pose proof (past_nonneg [Succeeded; Cancelled] (window_age w1) s1).
    destruct (Z.leb_spec (B - wr_batches r1) 0); [nia|]. nia.
Qed.

End Prune.

(** ** The task table *)

Definition past_rows (statuses : list ScheduledTaskStatus) (cutoff : Z) (d : TaskTable) : gmap Z ScheduledTask :=
  filter (fun x : Z * ScheduledTask => finished_before statuses cutoff x.2 = true) (rows d).

(** No other transaction holds a row, and the clock stands at [now]. *)
#[export] Instance task_store (now : Z) : RetentionStore TaskTable := {|
  delete_batch o d := deleteFinishedOlderThan o ∅ now d;
  past statuses age d := Z.of_nat (size (past_rows statuses (now - age) d));
|}.

(** What is left of [d0]: a well-formed table from which only finished rows are gone. *)
Record left_of (d0 d : TaskTable) : Prop := {
  lo_ok : TableOk d;
  lo_sub : rows d ⊆ rows d0;
  lo_lost : forall id r, rows d0 !! id = Some r -> rows d !! id = None -> is_terminal (t_status r) = true;
}.

Lemma size_matching (p : ScheduledTask -> bool) (d : TaskTable) :
  length (matching p d) = size (filter (fun x : Z * ScheduledTask => p x.2 = true) (rows d)).
Proof.
  rewrite <-length_map_to_list.
  assert (Hp : map_to_list (filter (fun x : Z * ScheduledTask => p x.2 = true) (rows d))
                 ≡ₚ filter (fun x : Z * ScheduledTask => p x.2 = true) (map_to_list (rows d))).
  { apply NoDup_Permutation; [apply NoDup_map_to_list|apply NoDup_filter, NoDup_map_to_list|].
    intros [i x]. rewrite elem_of_map_to_list, map_lookup_filter_Some, list_elem_of_filter, elem_of_map_to_list. tauto. }
  rewrite Hp. unfold matching. clear Hp. induction (map_to_list (rows d)) as [|[i r] l IH]; [done|].
  rewrite fmap_cons, !filter_cons. simpl. case_decide; simpl; by rewrite IH.
Qed.

(** Deleting rows picked by id takes exactly those out of any selection that covers them. *)
Lemma delete_ids_size (d : TaskTable) (ids : list Z) (p : ScheduledTask -> bool) :
  TableOk d -> NoDup ids -> (forall id, id ∈ ids -> exists r, rows d !! id = Some r /\ p r = true) ->
  let d' := (delete_rows (fun r => bool_decide (t_id r ∈ ids)) d).2 in
  Z.of_nat (size (filter (fun x : Z * ScheduledTask => p x.2 = true) (rows d'))) =
    Z.of_nat (size (filter (fun x : Z * ScheduledTask => p x.2 = true) (rows d))) - Z.of_nat (length ids) /\
  (delete_rows (fun r => bool_decide (t_id r ∈ ids)) d).1 = Z.of_nat (length ids).
Proof.
  intros HT Hnd Hids d'. set (picked := list_to_set ids : gset Z).
  assert (Hsize : size picked = length ids) by (by apply size_list_to_set).
  assert (Hkey : forall id r, rows d !! id = Some r -> bool_decide (t_id r ∈ ids) = bool_decide (id ∈ ids)).
  { intros id r Hr. by destruct (tk_key d HT id r Hr) as [-> _]. }
  assert (Hsub : picked ⊆ dom (filter (fun x : Z * ScheduledTask => p x.2 = true) (rows d))).
  { intros id Hid. apply elem_of_list_to_set in Hid. destruct (Hids id Hid) as (r & Hr & Hp).
    apply elem_of_dom. exists r. by apply map_lookup_filter_Some. }
  split.
  - rewrite <-!(size_dom (D := gset Z)). 
    assert (Hdom : dom (filter (fun x : Z * ScheduledTask => p x.2 = true) (rows d')) =
                   dom (filter (fun x : Z * ScheduledTask => p x.2 = true) (rows d)) ∖ picked).
    { apply set_eq. intros id. rewrite elem_of_difference, !elem_of_dom. unfold is_Some.
      setoid_rewrite map_lookup_filter_Some. unfold d', delete_rows. simpl. setoid_rewrite map_lookup_filter_Some. simpl.
      unfold picked. rewrite elem_of_list_to_set. split.
      - intros (r & [Hr Hn] & Hp). split; [by exists r|]. rewrite (Hkey id r Hr) in Hn. by apply bool_decide_eq_false in Hn.
      - intros [(r & Hr & Hp) Hn]. exists r. split_and!; [done| |done]. rewrite (Hkey id r Hr). by apply bool_decide_eq_false. }
    rewrite Hdom, size_difference by done. pose proof (subseteq_size _ _ Hsub). lia.
  - unfold delete_rows. simpl. f_equal. rewrite <-Hsize, <-(size_dom (D := gset Z)). f_equal. apply set_eq. intros id.
    rewrite elem_of_dom. unfold is_Some. setoid_rewrite map_lookup_filter_Some. simpl. unfold picked. rewrite elem_of_list_to_set.
    split.
    + intros (r & Hr & Hin). rewrite (Hkey id r Hr) in Hin. by apply bool_decide_eq_true in Hin.
    + intros Hin. destruct (Hids id Hin) as (r & Hr & _). exists r. split; [done|]. rewrite (Hkey id r Hr).
      by apply bool_decide_eq_true.
Qed.

Lemma finished_is_terminal (statuses : list ScheduledTaskStatus) (cutoff : Z) (r : ScheduledTask) :
  Forall (fun st => is_terminal st = true) statuses -> finished_before statuses cutoff r = true ->
  is_terminal (t_status r) = true.
Proof.
  intros Hall [Hin _]%andb_true_iff. apply bool_decide_eq_true in Hin. by apply (proj1 (Forall_forall _ _) Hall).
Qed.

(** Deleting rows that are not of other statuses leaves those alone. *)
Lemma past_rows_delete (d : TaskTable) (q : ScheduledTask -> bool) (statuses : list ScheduledTaskStatus) (cutoff : Z) :
  (forall id r, rows d !! id = Some r -> q r = true -> finished_before statuses cutoff r = false) ->
  past_rows statuses cutoff (delete_rows q d).2 = past_rows statuses cutoff d.
Proof.
  intros Hq. unfold past_rows, delete_rows. simpl. apply map_eq. intros id. apply option_eq. intros r.
  rewrite !map_lookup_filter_Some. simpl. split; [tauto|]. intros [Hr Hp]. split; [|done]. split; [done|].
  destruct (q r) eqn:Hqr; [|done]. by rewrite (Hq id r Hr Hqr) in Hp.
Qed.

#[export] Instance task_store_laws (now : Z) (d0 : TaskTable) :
  @RetentionLaws TaskTable (task_store now) (left_of d0).
Proof.
  split; [intros; simpl; lia|]. intros statuses age limit d [HT Hsub Hlost] Hne Hterm Hpos Hsafe.
  set (p := fun r => finished_before statuses (now - age) r && bool_decide (t_id r ∉ (∅ : gset Z))).
  assert (Hp : forall r, p r = finished_before statuses (now - age) r).
  { intros r. unfold p. rewrite bool_decide_true by set_solver. apply andb_true_r. }
  set (sel := select_rows p (fun r => default 0 (t_finishedAt r)) limit d). set (ids := t_id <$> sel).
  assert (Hids : forall id, id ∈ ids -> exists r, rows d !! id = Some r /\ finished_before statuses (now - age) r = true).
  { intros id (r & -> & Hr)%list_elem_of_fmap. apply elem_of_select_rows in Hr as [Hpr [k Hk]].
    exists r. rewrite <-Hp. destruct (tk_key d HT k r Hk) as [-> _]. done. }
  assert (Hnd : NoDup ids).
  { eapply submseteq_NoDup; [apply submseteq_fmap, select_rows_submseteq|]. by apply matching_ids_NoDup. }
  assert (Hcount : size (filter (fun x : Z * ScheduledTask => p x.2 = true) (rows d)) = size (past_rows statuses (now - age) d)).
  { f_equal. apply map_filter_ext. intros i r _. simpl. by rewrite Hp. }
  assert (Hlen : Z.of_nat (length ids) = Z.min limit (@past _ (task_store now) statuses age d)).
  { unfold ids, sel, select_rows. rewrite length_fmap, length_take, merge_sort_Permutation, size_matching, Hcount. simpl. lia. }
  destruct (delete_ids_size d ids (finished_before statuses (now - age)) HT Hnd Hids) as [Hsize Haff].
  set (d' := (delete_rows (fun r => bool_decide (t_id r ∈ ids)) d).2) in *.
  exists (Z.of_nat (length ids)), d'. split_and!.
  - simpl. unfold deleteFinishedOlderThan. simpl.
    replace (List.filter (fun s => negb (is_terminal s)) statuses) with ([] : list ScheduledTaskStatus).
    2: { clear -Hterm. induction Hterm as [|st l Hst _ IH]; simpl; [done|]. by rewrite Hst. }
    rewrite bool_decide_false by naive_solver. rewrite Hsafe. simpl. rewrite bool_decide_false by done. simpl.
    destruct (Z.leb_spec limit 0); [lia|]. unfold d'. rewrite <-Haff. reflexivity.
  - done.
  - split.
    + by destruct (delete_rows_keeps (fun r => bool_decide (t_id r ∈ ids)) d HT).
    + etransitivity; [|exact Hsub]. apply map_filter_subseteq.
    + intros id r Hr Hgone. destruct (rows d !! id) as [r'|] eqn:Hd; [|by eapply Hlost].
      rewrite (lookup_weaken _ _ _ _ Hd Hsub) in Hr. injection Hr as ->.
      unfold d', delete_rows in Hgone. simpl in Hgone. apply map_lookup_filter_None in Hgone as [Hn|Hn]; [congruence|].
      specialize (Hn r Hd). simpl in Hn. apply not_false_iff_true, bool_decide_eq_true in Hn.
      destruct (Hids _ Hn) as (r2 & Hr2 & Hfin). destruct (tk_key d HT id r Hd) as [Hid _]. rewrite Hid, Hd in Hr2.
      injection Hr2 as <-. by eapply finished_is_terminal.
  - simpl. unfold past_rows. rewrite Hsize. done.
  - intros statuses' age' Hdis. simpl. unfold d'. rewrite past_rows_delete; [done|].
    intros id r Hr Hin. apply bool_decide_eq_true in Hin. destruct (Hids _ Hin) as (r2 & Hr2 & Hfin).
    destruct (tk_key d HT id r Hr) as [Hid _]. rewrite Hid, Hr in Hr2. injection Hr2 as <-.
    unfold finished_before in *. apply andb_true_iff in Hfin as [Hst _]. apply bool_decide_eq_true in Hst.
    rewrite bool_decide_false; [done|]. by apply Hdis.
Qed.

(** The pass over the task table, and what it may delete. *)
Definition prune_tasks (now : Z) (aborted : nat -> bool) (options : RetentionOptions) (d : TaskTable)
  : sresult RetentionSummary * TaskTable := @prune TaskTable (task_store now) aborted options d.

Definition past_tasks (now : Z) (options : RetentionOptions) (d : TaskTable) : Z :=
  @past_windows TaskTable (task_store now) options d.

(** A retention pass over the task table, whenever it is aborted: only finished rows go,
    and it reports how many; a drained pass leaves nothing past either window; and a pass
    that is not aborted drains what its budget covers, one statement kept in reserve for
    the second window. *)
Lemma prune_drains_the_windows (now : Z) (aborted : nat -> bool) (options : RetentionOptions) (d : TaskTable) :
  TableOk d -> 0 < r_batchSize options -> isSafeInteger (r_batchSize options) = true ->
  exists summary d', prune_tasks now aborted options d = (Ok summary, d') /\ left_of d d' /\
    rs_deleted summary = past_tasks now options d - past_tasks now options d' /\
    (rs_drained summary = true -> past_tasks now options d' = 0) /\
    ((forall k, aborted k = false) ->
     past_tasks now options d < (r_maxBatchesPerPass options - 1) * r_batchSize options -> rs_drained summary = true).
Proof.
  intros HT Hpos Hsafe. apply (prune_drains aborted (left_of d)); [|done|done].
  split; [done|done|]. intros id r Hr Hn. congruence.
Qed.

(** Two finished rows are past their window, one is kept. *)
Definition finished (id finishedAt : Z) (s : ScheduledTaskStatus) : ScheduledTask :=
  assign_columns [set_status s; set_finishedAt (Some finishedAt)]
    (new_row id {| n_jobId := 1; n_taskType := "t"; n_payload := EngineTypes.JNull; n_scheduledFor := id; n_runAt := 0;
                   n_maxAttempts := 1; n_missedAfter := None |}).

Definition three_finished : TaskTable :=
  {| rows := {[ 1 := finished 1 0 Succeeded; 2 := finished 2 5 Failed; 3 := finished 3 2000 Succeeded ]}; nextTaskId := 4; dialect := Postgres |}.

Definition one_second : RetentionOptions :=
  {| r_retentionSeconds := 1; r_failedRetentionSeconds := 1; r_batchSize := 1; r_maxBatchesPerPass := 4 |}.

Lemma three_finished_ok : TableOk three_finished.
Proof.
  assert (Hrow : forall id r, rows three_finished !! id = Some r ->
            r = finished 1 0 Succeeded /\ id = 1 \/ r = finished 2 5 Failed /\ id = 2 \/ r = finished 3 2000 Succeeded /\ id = 3).
  { intros id r. simpl. rewrite !lookup_insert_Some, lookup_singleton_Some. naive_solver. }
  split.
  - intros id r Hr. destruct (Hrow id r Hr) as [[-> ->]|[[-> ->]|[-> ->]]]; simpl; lia.
  - intros id r Hr. destruct (Hrow id r Hr) as [[-> ->]|[[-> ->]|[-> ->]]]; reflexivity.
  - intros i j r r' Hi Hj Ho.
    destruct (Hrow i r Hi) as [[-> ->]|[[-> ->]|[-> ->]]], (Hrow j r' Hj) as [[-> ->]|[[-> ->]|[-> ->]]];
      done || (exfalso; vm_compute in Ho; discriminate Ho).
Qed.

Lemma prune_drains_the_windows_witness :
  exists summary d', prune_tasks 2500 (fun _ => false) one_second three_finished = (Ok summary, d') /\
    left_of three_finished d' /\ rs_deleted summary = 2 /\ rs_drained summary = true.
Proof.
  destruct (prune_drains_the_windows 2500 (fun _ => false) one_second three_finished) as (summary & d' & Hp & Hl & _ & _ & Hd).
  - apply three_finished_ok.
  - reflexivity.
  - reflexivity.
  - exists summary, d'. split_and!; [exact Hp|exact Hl| |].
    + vm_compute in Hp. injection Hp as <- _. reflexivity.
    + apply Hd; [reflexivity|]. vm_compute. reflexivity.
Defined.
