(* ===== verification/SchedProvision.v ===== *)
(** * Scheduler: provisioning

    [packages/@n8n/scheduler/src/core/provisioning]: the stored jobs of an owner member are
    made to match the desired ones, by name, in one transaction; and the transaction
    [DurableJobProvisioner] binds to the tables ([packages/cli/src/scheduling]).
    [ProvisionTx] is the port between the two.

    The last part is about the identity of schedules. *)

From stdpp Require Import base gmap strings pretty list sorting fin_maps.
From Stdlib Require Import ZArith QArith Lia.
From S2P Require Import Prelude.
From S2P Require Import JsCollections.
From S2P Require Import EngineTypes.
From S2P Require Import SchedTypes.
From S2P Require Import SchedStore.
From S2P Require Import SchedRecurrence.
From S2P Require Import SchedPlan.
From S2P Require Import SchedCoalesce.
From S2P Require Import SchedJobs.
From S2P Require Import SchedMaterialize.

#[local] Open Scope Z_scope.

(** ** [schedule-identity.ts] *)

Definition json_nullable (s : option string) : string :=
  match s with Some s => json_string s | None => "null" end.

(** [JSON.stringify] of an array, given its parts' texts. *)
Definition json_array (parts : list string) : string := "[" +:+ String.concat "," parts +:+ "]".

Definition canonicalDefinition (s : Schedule) : string :=
  match s with
  | CronSchedule c =>
      json_array [json_string (kind_name Cron); json_string (cronExpression c); json_nullable (timezone c)]
  | RecurringCronSchedule c u n =>
      json_array [json_string (kind_name RecurringCron); json_string (cronExpression c); json_nullable (timezone c);
                  json_string (unit_name u); pretty n]
  | IntervalSchedule n => json_array [json_string (kind_name Interval); pretty n]
  | OneOffSchedule t => json_array [json_string (kind_name OneOff); pretty t]
  end.

Definition sameSchedule (a b : Schedule) : bool := bool_decide (canonicalDefinition a = canonicalDefinition b).

(** ** [provision.ts] *)

Record DesiredJob := { dj_name : string; dj_schedule : Schedule; dj_firstRunAt : option Z }.

Record ExistingJob := { ej_id : Z; ej_name : string; ej_schedule : Schedule; ej_hasClock : bool }.

Record ProvisionedJob := { pv_id : Z; pv_name : string }.

Record ProvisionSummary := {
  sm_inserted : list ProvisionedJob;
  sm_redefined : list ProvisionedJob;
  sm_unchanged : list ProvisionedJob;
  sm_removed : list ProvisionedJob;
}.

(** [ProvisionTransaction]. *)
Record ProvisionTx (St : Type) := {
  findExisting : St -> list ExistingJob * St;
  insert : list DesiredJob -> St -> sresult (list Z * St);
  redefine : Z -> Schedule -> option Z -> St -> St;
  withdrawPendingTasks : list Z -> St -> St;
  deleteJobs : list Z -> St -> St;
}.
Arguments findExisting {_} _ _.
Arguments insert {_} _ _ _.
Arguments redefine {_} _ _ _ _ _.
Arguments withdrawPendingTasks {_} _ _ _.
Arguments deleteJobs {_} _ _ _.

Definition holdsDefinition (current : ExistingJob) (desired : DesiredJob) : bool :=
  sameSchedule (ej_schedule current) (dj_schedule desired) &&
  Bool.eqb (ej_hasClock current) (bool_decide (dj_firstRunAt desired <> None)).

Definition ref_of (current : ExistingJob) : ProvisionedJob := {| pv_id := ej_id current; pv_name := ej_name current |}.

Section Provision.
Context {St : Type} (tx : ProvisionTx St).

(** The [for] loop over the desired jobs: inserts, redefined, unchanged. *)
Fixpoint diff_jobs (existingByName : list (string * ExistingJob)) (desired : list DesiredJob)
    (acc : list DesiredJob * list ProvisionedJob * list ProvisionedJob) (s : St)
  : list DesiredJob * list ProvisionedJob * list ProvisionedJob * St :=
  match desired with
  | [] => (acc, s)
  | job :: rest =>
      let '(inserts, redefined, unchanged) := acc in
      match map_get (dj_name job) existingByName with
      | None => diff_jobs existingByName rest (inserts ++ [job], redefined, unchanged) s
      | Some current =>
          if holdsDefinition current job then
            diff_jobs existingByName rest (inserts, redefined, unchanged ++ [ref_of current]) s
          else
            diff_jobs existingByName rest (inserts, redefined ++ [ref_of current], unchanged)
              (redefine tx (ej_id current) (dj_schedule job) (dj_firstRunAt job) s)
      end
  end.

Definition provision (desired : list DesiredJob) (s : St) : sresult (ProvisionSummary * St) :=
  let '(existing, s) := findExisting tx s in
  let existingByName := foldl (fun m job => map_set (ej_name job) job m) [] existing in
  let desiredNames := set_of_list (dj_name <$> desired) in
  let '(inserts, redefined, unchanged, s) := diff_jobs existingByName desired ([], [], []) s in
  let removed := ref_of <$> List.filter (fun job => bool_decide (ej_name job ∉ desiredNames)) existing in
  let s := withdrawPendingTasks tx (pv_id <$> redefined) s in
  let s := deleteJobs tx (pv_id <$> removed) s in
  insert tx inserts s ≫= fun '(insertedIds, s) =>
  let inserted := zip_with (fun job id => {| pv_id := id; pv_name := dj_name job |}) inserts insertedIds in
  Ok ({| sm_inserted := inserted; sm_redefined := redefined; sm_unchanged := unchanged; sm_removed := removed |}, s).

End Provision.

(** ** [owner.ts], [provisioner.ts] *)

Definition SCHEDULED_JOB_OWNER_TYPE_MAX_LENGTH : Z := 32.
Definition SCHEDULED_JOB_OWNER_ID_MAX_LENGTH : Z := 255.
Definition SCHEDULED_JOB_OWNER_MEMBER_ID_MAX_LENGTH : Z := 36.

Definition js_length (s : string) : Z := Z.of_nat (String.length s).

(** The registry: owner types with their resolvers, an object compared by identity (here,
    its number). *)
Notation OwnerRegistry := (list (string * nat)).

Definition register_owner (ownerType : string) (resolver : nat) (r : OwnerRegistry) : sresult OwnerRegistry :=
  require (negb (bool_decide (ownerType = EmptyString) || (SCHEDULED_JOB_OWNER_TYPE_MAX_LENGTH <? js_length ownerType)))
    (InvalidOwnerTypeError ownerType SCHEDULED_JOB_OWNER_TYPE_MAX_LENGTH) ≫= fun _ =>
  match map_get ownerType r with
  | Some existing => if (existing =? resolver)%nat then Ok r else Err (DuplicateOwnerResolverError ownerType)
  | None => Ok (map_set ownerType resolver r)
  end.

Definition assertProvisionableOwner (owners : OwnerRegistry) (o : Owner) : sresult unit :=
  require (map_has (w_ownerType o) owners) (UnregisteredOwnerTypeError (w_ownerType o)) ≫= fun _ =>
  require (negb (bool_decide (w_ownerId o = EmptyString) || (SCHEDULED_JOB_OWNER_ID_MAX_LENGTH <? js_length (w_ownerId o))))
    (InvalidOwnerIdError (js_length (w_ownerId o)) SCHEDULED_JOB_OWNER_ID_MAX_LENGTH) ≫= fun _ =>
  match w_ownerMemberId o with
  | Some m => require (negb (bool_decide (m = EmptyString) || (SCHEDULED_JOB_OWNER_MEMBER_ID_MAX_LENGTH <? js_length m)))
                (InvalidOwnerMemberIdError (js_length m) SCHEDULED_JOB_OWNER_MEMBER_ID_MAX_LENGTH)
  | None => Ok tt
  end.

(** ** [DurableJobProvisioner] *)

(** [isDeepStrictEqual] on JSON: the order of an object's keys does not count. *)
Fixpoint json_equal (a b : JsonValue) {struct a} : bool :=
  match a, b with
  | JNull, JNull => true
  | JBool x, JBool y => Bool.eqb x y
  | JNum x, JNum y => x =? y
  | JFloat x, JFloat y => bool_decide (x = y)
  | JStr x, JStr y => bool_decide (x = y)
  | JArr xs, JArr ys =>
      (fix same (xs ys : list JsonValue) : bool :=
         match xs, ys with
         | [], [] => true
         | x :: xs', y :: ys' => json_equal x y && same xs' ys'
         | _, _ => false
         end) xs ys
  | JObj fs, JObj gs =>
      (length fs =? length gs)%nat &&
      (fix fields (fs : list (string * JsonValue)) : bool :=
         match fs with
         | [] => true
         | (k, v) :: fs' => match map_get k gs with Some w => json_equal v w | None => false end && fields fs'
         end) fs
  | _, _ => false
  end.

(** [ProvisionScope], its options resolved. *)
Record ProvisionScope := {
  sc_owner : Owner;
  sc_taskType : string;
  sc_payload : Payload;
  sc_maxAttempts : Z;
  sc_misfirePolicy : ScheduledJobMisfirePolicy;
  sc_misfireGraceSeconds : Z;
}.

Definition scope_options (scope : ProvisionScope) : Z * ScheduledJobMisfirePolicy * Z :=
  (sc_maxAttempts scope, sc_misfirePolicy scope, sc_misfireGraceSeconds scope).

Definition MAX_MISFIRE_GRACE_SECONDS : Z := 30 * days_toSeconds.

(** [GlobalConfig.scheduler]: integers of seconds. *)
Record SchedulerConfig := {
  cf_misfireGraceSeconds : Z;
  cf_executorIntervalSeconds : Z;
  cf_materializationWindowSeconds : Z;
  cf_maxAttempts : Z;
}.

(** [Math.trunc]. *)
Definition trunc (q : Q) : Z := Z.quot (Qnum q) (Zpos (Qden q)).

(** [requested] is [Number(requested)], [None] when that is not finite. *)
Definition resolveMisfireGraceSeconds (config : SchedulerConfig) (requested : option Q) : Z :=
  match requested with
  | None => cf_misfireGraceSeconds config
  | Some numeric =>
      let truncated := trunc numeric in
      if truncated <? 1 then cf_misfireGraceSeconds config
      else
        let floor := Z.min (Z.max (cf_executorIntervalSeconds config + 1) (cf_materializationWindowSeconds config))
                       MAX_MISFIRE_GRACE_SECONDS in
        Z.min (Z.max truncated floor) MAX_MISFIRE_GRACE_SECONDS
  end.

(** The transaction's state: the tables, and what the closures collect. *)
Record ProvisionState := {
  pt_db : Db;
  pt_seeded : list Z;
  pt_runOptions : list Z;
  pt_grace : list Z;
  pt_payload : list Z;
}.

Definition on_jobs (f : JobTable -> JobTable) (s : ProvisionState) : ProvisionState :=
  {| pt_db := {| db_jobs := f (db_jobs (pt_db s)); db_tasks := db_tasks (pt_db s) |};
     pt_seeded := pt_seeded s; pt_runOptions := pt_runOptions s; pt_grace := pt_grace s; pt_payload := pt_payload s |}.

Definition on_db (f : Db -> Db) (s : ProvisionState) : ProvisionState :=
  {| pt_db := f (pt_db s); pt_seeded := pt_seeded s; pt_runOptions := pt_runOptions s; pt_grace := pt_grace s;
     pt_payload := pt_payload s |}.

Definition seed_ids (ids : list Z) (s : ProvisionState) : ProvisionState :=
  {| pt_db := pt_db s; pt_seeded := foldl set_add (pt_seeded s) ids; pt_runOptions := pt_runOptions s;
     pt_grace := pt_grace s; pt_payload := pt_payload s |}.

Definition outdated_grace (scope : ProvisionScope) (row : ScheduledJob) : bool :=
  negb (j_misfireGraceSeconds row =? sc_misfireGraceSeconds scope).

Definition outdated_options (scope : ProvisionScope) (row : ScheduledJob) : bool :=
  outdated_grace scope row || negb (bool_decide (j_misfirePolicy row = sc_misfirePolicy scope)) ||
  negb (j_maxAttempts row =? sc_maxAttempts scope).

Definition outdated_payload (scope : ProvisionScope) (row : ScheduledJob) : bool :=
  negb (json_equal (j_payload row) (sc_payload scope)).

Definition existing_of (row : ScheduledJob) : ExistingJob :=
  {| ej_id := j_id row; ej_name := j_name row; ej_schedule := rowSchedule row;
     ej_hasClock := bool_decide (j_nextRunAt row <> None) |}.

Definition new_job (scope : ProvisionScope) (job : DesiredJob) : NewScheduledJob :=
  {| nj_name := dj_name job; nj_owner := sc_owner scope; nj_taskType := sc_taskType scope;
     nj_payload := sc_payload scope; nj_schedule := scheduleColumns (dj_schedule job);
     nj_nextRunAt := dj_firstRunAt job; nj_runOptions := scope_options scope |}.

(** The port [provisionTransaction] hands to the work. *)
Definition durable_tx (scope : ProvisionScope) (now : Z) : ProvisionTx ProvisionState := {|
  findExisting s :=
    let rows := findManyByOwner (sc_owner scope) (db_jobs (pt_db s)) in
    let ids p := j_id <$> List.filter p rows in
    (existing_of <$> rows,
     {| pt_db := pt_db s; pt_seeded := pt_seeded s; pt_runOptions := pt_runOptions s ++ ids (outdated_options scope);
        pt_grace := pt_grace s ++ ids (outdated_grace scope); pt_payload := pt_payload s ++ ids (outdated_payload scope) |});
  insert desired s :=
    insertMany now (new_job scope <$> desired) (db_jobs (pt_db s)) ≫= fun '(ids, jobs') =>
    Ok (ids, seed_ids ids (on_jobs (fun _ => jobs') s));
  redefine jobId schedule nextRunAt s :=
    seed_ids [jobId] (on_jobs (updateDefinition jobId (scheduleColumns schedule) nextRunAt (scope_options scope)) s);
  withdrawPendingTasks ids s :=
    on_db (fun d => {| db_jobs := db_jobs d; db_tasks := deletePendingByJobIds ids (db_tasks d) |}) s;
  deleteJobs ids s := on_db (deleteManyByIds ids) s;
|}.

Section Durable.
Context `{CronParser} `{Luxon}.

Definition fresh_state (d : Db) : ProvisionState :=
  {| pt_db := d; pt_seeded := []; pt_runOptions := []; pt_grace := []; pt_payload := [] |}.

(** What follows the work: run options, payloads, deadlines. *)
Definition refresh_unchanged (scope : ProvisionScope) (now : Z) (s : ProvisionState) : Db :=
  let d := pt_db s in
  {| db_jobs := updatePayload (pt_payload s) (sc_payload scope)
                  (updateRunOptions (pt_runOptions s) (scope_options scope) (db_jobs d));
     db_tasks := updateMissedAfterForJobs now (pt_grace s) (sc_misfireGraceSeconds scope) (db_tasks d) |}.

Definition provisionTransaction (options : MaterializerOptions) (scope : ProvisionScope) (desired : list DesiredJob)
    (interrupt : nat -> option SchedError) (now : Z) (d : Db) : sresult (ProvisionSummary * Db) :=
  let lifted := (liftQuarantineByOwner (sc_owner scope) (db_jobs d)).2 in
  provision (durable_tx scope now) desired (fresh_state {| db_jobs := lifted; db_tasks := db_tasks d |})
    ≫= fun '(summary, s) =>
  seedInitialOccurrences options (pt_seeded s) interrupt now (refresh_unchanged scope now s) ≫= fun d' =>
  Ok (summary, d').

(** [JobProvisioner.provision]. *)
Definition provision_jobs (owners : OwnerRegistry) (options : MaterializerOptions) (scope : ProvisionScope)
    (desired : list DesiredJob) (interrupt : nat -> option SchedError) (now : Z) (d : Db)
  : sresult ProvisionSummary * Db :=
  match assertProvisionableOwner owners (sc_owner scope) with
  | Err e => (Err e, d)
  | Ok _ => transaction (provisionTransaction options scope desired interrupt now) d
  end.

End Durable.

(** ** Deprovisioning *)

(** [ObservedJob] is a job's id and the payload it was read with. *)
Inductive DeprovisionScope :=
  | MemberScope (owner : Owner)
  | OwnerScope (ownerType ownerId : string)
  | TaskTypeScope (ownerType ownerId taskType : string)
  | JobScope (id : Z) (payload : Payload).

Definition deleteScope (unchanged : Payload -> Payload -> bool) (target : DeprovisionScope) (d : Db) : Z * Db :=
  match target with
  | MemberScope o => deleteByOwnerMember o d
  | OwnerScope ownerType ownerId => deleteByOwnerRef ownerType ownerId d
  | TaskTypeScope ownerType ownerId taskType => deleteByOwnerTaskType ownerType ownerId taskType d
  | JobScope id payload => deleteIfPayloadUnchanged unchanged id payload d
  end.

(** [deprovision], over [deprovisionTransaction]: how many jobs were removed. *)
Definition deprovision (unchanged : Payload -> Payload -> bool) (target : DeprovisionScope) (d : Db) : Z * Db :=
  deleteScope unchanged target d.

(** ** Scheduler: a schedule's identity

    [schedule-identity.ts]: two schedules have the same canonical text exactly when they
    are the same rule, so provisioning never mistakes one for another. *)

#[local] Open Scope Z_scope.

(** ** Quoted strings *)

Definition quote_char : Ascii.ascii := Ascii.ascii_of_nat 34.
Definition backslash : Ascii.ascii := Ascii.ascii_of_nat 92.

Definition unhex (c : Ascii.ascii) : nat :=
  let n := Ascii.nat_of_ascii c in if (n <? 58)%nat then n - 48 else n - 87.

(** The character an escape or a plain character stands for, and what follows it. *)
Definition read_char (s : string) : option (Ascii.ascii * string) :=
  match s with
  | String c r =>
      if bool_decide (c = backslash) then
        match r with
        | String e r' =>
            match Ascii.nat_of_ascii e with
            | 98%nat => Some (Ascii.ascii_of_nat 8, r')
            | 116%nat => Some (Ascii.ascii_of_nat 9, r')
            | 110%nat => Some (Ascii.ascii_of_nat 10, r')
            | 102%nat => Some (Ascii.ascii_of_nat 12, r')
            | 114%nat => Some (Ascii.ascii_of_nat 13, r')
            | 117%nat =>
                match r' with
                | String _ (String _ (String h (String l r''))) => Some (Ascii.ascii_of_nat (16 * unhex h + unhex l), r'')
                | _ => None
                end
            | _ => Some (e, r')
            end
        | EmptyString => None
        end
      else Some (c, r)
  | EmptyString => None
  end.

Lemma read_json_char (c : Ascii.ascii) (r : string) : read_char (json_char c +:+ r) = Some (c, r).
Proof. destruct c as [[] [] [] [] [] [] [] []]; vm_compute; reflexivity. Qed.

(** No escape starts with a quote. *)
Lemma json_char_head (c : Ascii.ascii) : exists d s, json_char c = String d s /\ d <> quote_char.
Proof. destruct c as [[] [] [] [] [] [] [] []]; vm_compute; eexists _, _; (split; [reflexivity|congruence]). Qed.

Lemma json_chars_inj (a b r s : string) :
  json_chars a +:+ dquote +:+ r = json_chars b +:+ dquote +:+ s -> a = b /\ r = s.
Proof.
  revert b. induction a as [|x a IH]; intros [|y b] Heq; cbn [json_chars] in Heq; rewrite ?string_app_assoc in Heq.
  - by injection Heq.
  - destruct (json_char_head y) as (d & t & Hy & Hd). rewrite Hy in Heq. exfalso. apply Hd. by injection Heq.
  - destruct (json_char_head x) as (d & t & Hx & Hd). rewrite Hx in Heq. exfalso. apply Hd. by injection Heq.
  - apply (f_equal read_char) in Heq. rewrite !read_json_char in Heq. injection Heq as -> Heq.
    by destruct (IH b Heq) as [-> ->].
Qed.

Lemma json_string_inj (a b r s : string) : json_string a +:+ r = json_string b +:+ s -> a = b /\ r = s.
Proof.
  unfold json_string. rewrite !string_app_assoc. intros Heq. apply (json_chars_inj a b).
  by injection Heq.
Qed.

Lemma json_nullable_inj (a b : option string) (r s : string) :
  json_nullable a +:+ r = json_nullable b +:+ s -> a = b /\ r = s.
Proof.
  destruct a as [a|], b as [b|]; cbn [json_nullable]; intros Heq.
  - by apply json_string_inj in Heq as [-> ->].
  - by injection Heq.
  - by injection Heq.
  - by injection Heq.
Qed.

(** ** Arrays *)

(** What follows the kind. *)
Fixpoint json_rest (parts : list string) : string :=
  match parts with [] => "]" | p :: ps => "," +:+ p +:+ json_rest ps end.

Lemma json_concat_rest (p : string) (ps : list string) : String.concat "," (p :: ps) +:+ "]" = p +:+ json_rest ps.
Proof.
  revert p. induction ps as [|q ps IH]; intros p; [done|].
  change (String.concat "," (p :: q :: ps)) with (p +:+ "," +:+ String.concat "," (q :: ps)).
  rewrite !string_app_assoc, IH. done.
Qed.

Lemma json_array_rest (p q : string) (ps qs : list string) :
  json_array (p :: ps) = json_array (q :: qs) -> p +:+ json_rest ps = q +:+ json_rest qs.
Proof. unfold json_array. rewrite !json_concat_rest. intros Heq. by injection Heq. Qed.

Lemma length_app_string (a b : string) : String.length (a +:+ b) = (String.length a + String.length b)%nat.
Proof. induction a as [|x a IH]; [done|]. exact (f_equal S IH). Qed.

Lemma last_part_inj (a b : string) : json_rest [a] = json_rest [b] -> a = b.
Proof.
  intros Heq. assert (Heq' : a +:+ "]" = b +:+ "]") by (by injection Heq).
  pose proof (f_equal String.length Heq') as Hl. rewrite !length_app_string in Hl.
  by destruct (append_same_length a b "]" "]" ltac:(lia) Heq') as [-> _].
Qed.

Lemma next_part {A} (f : A -> string) (a b : A) (ps qs : list string) :
  (forall a b r s, f a +:+ r = f b +:+ s -> a = b /\ r = s) ->
  json_rest (f a :: ps) = json_rest (f b :: qs) -> a = b /\ json_rest ps = json_rest qs.
Proof. intros Hf Heq. apply Hf. by injection Heq. Qed.

Definition kind_of (s : Schedule) : ScheduledJobKind :=
  match s with CronSchedule _ => Cron | IntervalSchedule _ => Interval | OneOffSchedule _ => OneOff
             | RecurringCronSchedule _ _ _ => RecurringCron end.

Definition fields_of (s : Schedule) : list string :=
  match s with
  | CronSchedule c => [json_string (cronExpression c); json_nullable (timezone c)]
  | RecurringCronSchedule c u n => [json_string (cronExpression c); json_nullable (timezone c); json_string (unit_name u); pretty n]
  | IntervalSchedule n => [pretty n]
  | OneOffSchedule t => [pretty t]
  end.

Lemma canonical_parts (s : Schedule) : canonicalDefinition s = json_array (json_string (kind_name (kind_of s)) :: fields_of s).
Proof. by destruct s. Qed.

Lemma canonicalDefinition_inj (a b : Schedule) : canonicalDefinition a = canonicalDefinition b -> a = b.
Proof.
  rewrite !canonical_parts. intros Heq. apply json_array_rest, json_string_inj in Heq as [Hk Heq].
  destruct a as [[e z]|n|t|[e z] u n], b as [[e' z']|n'|t'|[e' z'] u' n']; try discriminate Hk; clear Hk;
    cbn [fields_of cronExpression timezone] in Heq.
  - apply (next_part json_string) in Heq as [-> Heq]; [|apply json_string_inj].
    apply (next_part json_nullable z z' [] []) in Heq as [-> _]; [done|apply json_nullable_inj].
  - apply last_part_inj in Heq. by apply (inj pretty) in Heq as ->.
  - apply last_part_inj in Heq. by apply (inj pretty) in Heq as ->.
  - apply (next_part json_string) in Heq as [-> Heq]; [|apply json_string_inj].
    apply (next_part json_nullable) in Heq as [-> Heq]; [|apply json_nullable_inj].
    apply (next_part json_string) in Heq as [Hu Heq]; [|apply json_string_inj].
    apply last_part_inj in Heq. apply (inj pretty) in Heq as ->. destruct u, u'; (done || discriminate Hu).
Qed.

(** ** The claims *)

(** Two schedules have the same canonical text, whatever their expressions and time zones
    contain, exactly when they are the same: kind and every field of the kind. *)
Lemma sameSchedule_is_equality (a b : Schedule) : sameSchedule a b = true <-> a = b.
Proof.
  unfold sameSchedule. rewrite bool_decide_eq_true. split; [apply canonicalDefinition_inj|by intros ->].
Qed.
