(* ===== verification/SchedProvisioned.v ===== *)
(** * Scheduler: what provisioning leaves

    After a provision commits, the owner member's rows are the desired jobs, each under the
    desired definition and options; a row whose definition already held keeps its id and its
    clock; and no other owner's row is touched. *)

From stdpp Require Import base gmap strings pretty list sorting fin_maps.
From Stdlib Require Import ZArith Lia.
From S2P Require Import Prelude.
From S2P Require Import JsCollections.
From S2P Require Import EngineTypes.
From S2P Require Import SchedTypes.
From S2P Require Import SchedStore.
From S2P Require Import SchedTable.
From S2P Require Import SchedRecurrence.
From S2P Require Import SchedPlan.
From S2P Require Import SchedPlanning.
From S2P Require Import SchedJobs.
From S2P Require Import SchedMaterialize.
From S2P Require Import SchedProvision.

#[local] Open Scope Z_scope.

(** ** Tables as functions of rows *)

Definition map_jobs (f : ScheduledJob -> ScheduledJob) (t : JobTable) : JobTable :=
  set_jobs (f <$> jobs t) t.

Lemma map_jobs_ext (f g : ScheduledJob -> ScheduledJob) (t : JobTable) :
  (forall id j, jobs t !! id = Some j -> f j = g j) -> map_jobs f t = map_jobs g t.
Proof. intros Hfg. unfold map_jobs. f_equal. apply map_fmap_ext. exact Hfg. Qed.

Lemma map_jobs_map (f g : ScheduledJob -> ScheduledJob) (t : JobTable) :
  map_jobs f (map_jobs g t) = map_jobs (fun j => f (g j)) t.
Proof. unfold map_jobs, set_jobs. simpl. f_equal. symmetry. apply (map_fmap_compose g f). Qed.

Lemma change_jobs_map p f t : change_jobs p f t = map_jobs (fun j => if p j then f j else j) t.
Proof. done. Qed.

Lemma map_jobs_ok f t : keeps_names f -> JobsOk t -> JobsOk (map_jobs f t).
Proof. apply fmap_jobs_ok. Qed.

Lemma map_by_name {A} (f : A -> string) (l : list A) (m : list (string * A)) (k : string) :
  NoDup (f <$> l) ->
  map_get k (foldl (fun m x => map_set (f x) x m) m l) =
    match arr_find (fun x => bool_decide (f x = k)) l with Some x => Some x | None => map_get k m end.
Proof.
  revert m. induction l as [|x l IH]; intros m Hn; simpl; [done|]. apply NoDup_cons in Hn as [Hx Hn].
  rewrite IH by done. case_bool_decide as Hk.
  - destruct (arr_find _ l) as [y|] eqn:Hy.
    + apply arr_find_Some in Hy as [Hy Hf]. apply bool_decide_eq_true in Hf. destruct Hx. rewrite Hk, <-Hf.
      by apply list_elem_of_fmap_2.
    + rewrite <-Hk. apply map_get_set_eq.
  - destruct (arr_find _ l); [done|]. by apply map_get_set_ne.
Qed.

(** ** The loop over the desired jobs *)

Definition redefined_row (scope : ProvisionScope) (job : DesiredJob) (j : ScheduledJob) : ScheduledJob :=
  update_job {| u_schedule := Some (scheduleColumns (dj_schedule job)); u_nextRunAt := Some (dj_firstRunAt job);
                u_lastFiredAt := None; u_orphanedAt := None; u_runOptions := Some (scope_options scope); u_payload := None |} j.

Definition desired_for (desired : list DesiredJob) (j : ScheduledJob) : option DesiredJob :=
  arr_find (fun job => bool_decide (dj_name job = j_name j)) desired.

(** What the loop makes of a row. *)
Definition target (scope : ProvisionScope) (desired : list DesiredJob) (j : ScheduledJob) : ScheduledJob :=
  match desired_for desired j with
  | Some job =>
      if owned_by_member (sc_owner scope) j then
        if holdsDefinition (existing_of j) job then j else redefined_row scope job j
      else j
  | None => j
  end.

Lemma target_keeps_names scope desired : keeps_names (target scope desired).
Proof.
  intros j. unfold target. destruct (desired_for desired j); [|done]. destruct (owned_by_member _ j); [|done].
  by destruct (holdsDefinition _ _).
Qed.

(** Which row of the owner has a name. *)
Definition row_named (scope : ProvisionScope) (t : JobTable) (name : string) : option ScheduledJob :=
  arr_find (fun j => bool_decide (j_name j = name)) (findManyByOwner (sc_owner scope) t).

Lemma row_named_spec (scope : ProvisionScope) (t : JobTable) (name : string) :
  JobsOk t ->
  match row_named scope t name with
  | Some j => jobs t !! j_id j = Some j /\ owned_by_member (sc_owner scope) j = true /\ j_name j = name
  | None => forall id j, jobs t !! id = Some j -> owned_by_member (sc_owner scope) j = true -> j_name j <> name
  end.
Proof.
  intros HJ. unfold row_named. destruct (arr_find _ _) as [j|] eqn:Hf.
  - apply arr_find_Some in Hf as [Hin Hn]. apply bool_decide_eq_true in Hn.
    apply elem_of_jobs_where in Hin as [Ho [id Hid]]. destruct (jk_key t HJ id j Hid) as [-> _]. done.
  - intros id j Hj Ho. rewrite arr_find_None in Hf. specialize (Hf j). rewrite bool_decide_eq_false in Hf. apply Hf.
    apply elem_of_jobs_where. eauto.
Qed.

Definition inserts_of scope t (desired : list DesiredJob) : list DesiredJob :=
  List.filter (fun job => bool_decide (row_named scope t (dj_name job) = None)) desired.

Definition redefined_of scope t (desired : list DesiredJob) : list ProvisionedJob :=
  omap (fun job => match row_named scope t (dj_name job) with
                   | Some j => if holdsDefinition (existing_of j) job then None else Some (ref_of (existing_of j))
                   | None => None end) desired.

Definition unchanged_of scope t (desired : list DesiredJob) : list ProvisionedJob :=
  omap (fun job => match row_named scope t (dj_name job) with
                   | Some j => if holdsDefinition (existing_of j) job then Some (ref_of (existing_of j)) else None
                   | None => None end) desired.

Lemma desired_for_snoc (done : list DesiredJob) (job : DesiredJob) (j : ScheduledJob) :
  desired_for (done ++ [job]) j =
    match desired_for done j with Some job' => Some job' | None => if bool_decide (dj_name job = j_name j) then Some job else None end.
Proof. unfold desired_for. rewrite arr_find_app. destruct (arr_find _ done); [done|]. simpl. by case_bool_decide. Qed.

(** One more desired job. *)
Lemma target_snoc scope t (done : list DesiredJob) (job : DesiredJob) (id : Z) (j : ScheduledJob) :
  JobsOk t -> jobs t !! id = Some j -> dj_name job ∉ (dj_name <$> done) ->
  target scope (done ++ [job]) j =
    match row_named scope t (dj_name job) with
    | Some j0 => if bool_decide (id = j_id j0) && negb (holdsDefinition (existing_of j0) job)
                 then redefined_row scope job (target scope done j) else target scope done j
    | None => target scope done j
    end.
Proof.
  intros HJ Hj Hnew. unfold target. rewrite desired_for_snoc.
  pose proof (row_named_spec scope t (dj_name job) HJ) as Hrow.
  assert (Hdone : forall job', desired_for done j = Some job' -> j_name j <> dj_name job).
  { intros job' Hf Heq. apply arr_find_Some in Hf as [Hin Hn]. apply bool_decide_eq_true in Hn. destruct Hnew.
    apply list_elem_of_fmap. exists job'. split; [congruence|done]. }
  destruct (desired_for done j) as [job'|] eqn:Hd.
  - destruct (row_named scope t (dj_name job)) as [j0|]; [|done]. destruct Hrow as (Hj0 & _ & Hn0).
    case_bool_decide as Hid; [|done]. subst id. rewrite Hj in Hj0. injection Hj0 as ->. by destruct (Hdone _ eq_refl).
  - case_bool_decide as Hname.
    + destruct (row_named scope t (dj_name job)) as [j0|] eqn:Hrn.
      * destruct Hrow as (Hj0 & Ho0 & Hn0).
        assert (id = j_id j0) as Hid by (apply (jk_unique t HJ id (j_id j0) j j0 Hj Hj0); congruence).
        rewrite bool_decide_true by done. subst id. rewrite Hj in Hj0. injection Hj0 as ->. rewrite Ho0. simpl.
        by destruct (holdsDefinition _ _).
      * destruct (owned_by_member (sc_owner scope) j) eqn:Ho; [|done]. by destruct (Hrow id j Hj Ho).
    + destruct (row_named scope t (dj_name job)) as [j0|]; [|done]. destruct Hrow as (Hj0 & _ & Hn0).
      case_bool_decide as Hid; [|done]. subst id. rewrite Hj in Hj0. injection Hj0 as ->. congruence.
Qed.

Lemma diff_jobs_spec scope now t M (rest done : list DesiredJob) inserts redefined unchanged (s : ProvisionState) :
  JobsOk t -> (forall name, map_get name M = existing_of <$> row_named scope t name) ->
  NoDup (dj_name <$> (done ++ rest)) -> db_jobs (pt_db s) = map_jobs (target scope done) t ->
  exists s', diff_jobs (durable_tx scope now) M rest (inserts, redefined, unchanged) s =
      (inserts ++ inserts_of scope t rest, redefined ++ redefined_of scope t rest, unchanged ++ unchanged_of scope t rest, s') /\
    db_jobs (pt_db s') = map_jobs (target scope (done ++ rest)) t /\ db_tasks (pt_db s') = db_tasks (pt_db s) /\
    pt_runOptions s' = pt_runOptions s /\ pt_grace s' = pt_grace s /\ pt_payload s' = pt_payload s /\
    (forall id, id ∈ pt_seeded s' <-> id ∈ pt_seeded s \/ id ∈ (pv_id <$> redefined_of scope t rest)).
Proof.
  intros HJ HM. revert done inserts redefined unchanged s.
  induction rest as [|job rest IH]; intros done inserts redefined unchanged s Hnd Hs.
  { exists s. simpl. rewrite !app_nil_r. split_and!; try done. intros id. split; [by left|]. intros [Hid|Hid]; [done|inversion Hid]. }
  assert (Hnew : dj_name job ∉ (dj_name <$> done)).
  { rewrite fmap_app in Hnd. apply NoDup_app in Hnd as (_ & Hdis & _). intros Hin. apply (Hdis _ Hin). simpl. left. }
  assert (Hnd' : NoDup (dj_name <$> ((done ++ [job]) ++ rest))) by (by rewrite <-app_assoc).
  simpl. rewrite HM. unfold inserts_of, redefined_of, unchanged_of. simpl.
  pose proof (fun id j Hj => target_snoc scope t done job id j HJ Hj Hnew) as Htarget.
  destruct (row_named scope t (dj_name job)) as [j0|] eqn:Hrn; simpl.
  - destruct (holdsDefinition (existing_of j0) job) eqn:Hh; simpl.
    + destruct (IH (done ++ [job]) inserts redefined (unchanged ++ [ref_of (existing_of j0)]) s Hnd') as (s' & Heq & Hrest).
      { rewrite Hs. apply map_jobs_ext. intros id j Hj. rewrite (Htarget id j Hj). by rewrite andb_false_r. }
      exists s'. rewrite Heq, <-!app_assoc. by rewrite <-app_assoc in Hrest.
    + set (s1 := seed_ids [j_id j0] _).
      destruct (IH (done ++ [job]) inserts (redefined ++ [ref_of (existing_of j0)]) unchanged s1 Hnd')
        as (s' & Heq & Hj' & Ht' & Hr' & Hg' & Hp' & Hseed).
      { unfold s1. simpl. unfold updateDefinition. rewrite Hs, change_jobs_map, map_jobs_map. apply map_jobs_ext.
        intros id j Hj. rewrite (Htarget id j Hj). destruct (target_keeps_names scope done j) as [-> _].
        destruct (jk_key t HJ id j Hj) as [-> _]. rewrite andb_true_r.
        destruct (Z.eqb_spec id (j_id j0)); [by rewrite bool_decide_true|by rewrite bool_decide_false]. }
      exists s'. unfold s1 in *. simpl in *. rewrite Heq, <-!app_assoc. rewrite <-app_assoc in Hj'. split_and!; try done; [].
      intros id. rewrite Hseed, elem_of_set_add, elem_of_cons. tauto.
  - destruct (IH (done ++ [job]) (inserts ++ [job]) redefined unchanged s Hnd') as (s' & Heq & Hrest).
    { rewrite Hs. apply map_jobs_ext. intros id j Hj. by rewrite (Htarget id j Hj). }
    exists s'. rewrite Heq, <-!app_assoc. by rewrite <-app_assoc in Hrest.
Qed.

(** ** The statements after the loop *)

Lemma insert_jobs_spec (now : Z) (news : list NewScheduledJob) (t : JobTable) :
  JobsOk t ->
  let t' := foldl (insert_job now) t news in
  JobsOk t' /\
  (forall id j, jobs t !! id = Some j -> jobs t' !! id = Some j) /\
  (forall id j, jobs t' !! id = Some j -> jobs t !! id = Some j \/ exists n, n ∈ news /\ j = job_row id now n).
Proof.
  revert t. induction news as [|n news IH]; intros t HJ; simpl; [by auto|].
  destruct (IH (insert_job now t n) (insert_job_ok now t n HJ)) as (HJ' & Hold & Honly).
  assert (Hstep : (forall id j, jobs t !! id = Some j -> jobs (insert_job now t n) !! id = Some j) /\
                  (forall id j, jobs (insert_job now t n) !! id = Some j -> jobs t !! id = Some j \/ j = job_row id now n)).
  { unfold insert_job. destruct (find_name (nj_name n) t); [by auto|]. simpl. split.
    - intros id j Hj. pose proof (next_job_id_above t id j HJ Hj). by rewrite lookup_insert_ne by lia.
    - intros id j. rewrite lookup_insert_Some. intros [[<- <-]|[_ Hj]]; auto. }
  destruct Hstep as [H1 H2]. split_and!; [done|auto|]. intros id j Hj. destruct (Honly id j Hj) as [Hj'|(m & Hm & ->)].
  - destruct (H2 id j Hj') as [?| ->]; [by left|]. right. exists n. split; [left|done].
  - right. exists m. split; [by right|done].
Qed.

Lemma mapM_result_spec {A B} (f : A -> sresult B) (l : list A) (bs : list B) :
  mapM_result f l = Ok bs -> Forall2 (fun a b => f a = Ok b) l bs.
Proof.
  revert bs. induction l as [|a l IH]; intros bs; simpl; [intros [= <-]; constructor|].
  intros Hb. apply bind_ok in Hb as (b & Hf & Hb). apply bind_ok in Hb as (bs' & Hl & Hb). injection Hb as <-.
  constructor; [done|by apply IH].
Qed.

Lemma id_by_name_spec (t : JobTable) (n : NewScheduledJob) (id : Z) :
  JobsOk t -> id_by_name t n = Ok id ->
  exists j, jobs t !! id = Some j /\ j_name j = nj_name n /\ owned_by_member (nj_owner n) j = true.
Proof.
  intros HJ. unfold id_by_name. pose proof (find_name_spec (nj_name n) t) as Hf.
  destruct (find_name (nj_name n) t) as [j|]; [|done]. destruct (owned_by_member _ j) eqn:Ho; [|done]. intros [= <-].
  destruct Hf as [Hn [id Hid]]. exists j. by destruct (jk_key t HJ id j Hid) as [-> _].
Qed.

Lemma insertMany_spec (now : Z) (news : list NewScheduledJob) (t t' : JobTable) (ids : list Z) :
  JobsOk t -> insertMany now news t = Ok (ids, t') ->
  JobsOk t' /\
  (forall id j, jobs t !! id = Some j -> jobs t' !! id = Some j) /\
  (forall id j, jobs t' !! id = Some j -> jobs t !! id = Some j \/ exists n, n ∈ news /\ j = job_row id now n) /\
  Forall2 (fun n id => exists j, jobs t' !! id = Some j /\ j_name j = nj_name n /\ owned_by_member (nj_owner n) j = true) news ids.
Proof.
  intros HJ Hi. unfold insertMany in Hi. apply bind_ok in Hi as (ids' & Hids & Hi). injection Hi as -> <-.
  destruct (insert_jobs_spec now news t HJ) as (HJ' & H1 & H2). split_and!; try done; [].
  apply mapM_result_spec in Hids. eapply Forall2_impl; [exact Hids|]. intros n id Hn. by apply id_by_name_spec.
Qed.

Lemma not_in_nil {A} (P : A -> Z) (x : A) : bool_decide (P x ∈ @nil Z) = false.
Proof. apply bool_decide_eq_false_2. intros Hin. inversion Hin. Qed.

Lemma deleteManyByIds_jobs (ids : list Z) (d : Db) :
  db_jobs (deleteManyByIds ids d) = delete_jobs (fun j => bool_decide (j_id j ∈ ids)) (db_jobs d).
Proof.
  destruct ids as [|i ids]; [|done]. unfold deleteManyByIds, delete_jobs, set_jobs. destruct d as [[js n db] ts]. simpl. f_equal.
  symmetry. apply map_filter_id. intros k j _. exact (not_in_nil j_id j).
Qed.

Definition options_update (options : Z * ScheduledJobMisfirePolicy * Z) : JobUpdate :=
  {| u_schedule := None; u_nextRunAt := None; u_lastFiredAt := None; u_orphanedAt := None; u_runOptions := Some options;
     u_payload := None |}.

Definition payload_update (payload : Payload) : JobUpdate :=
  {| u_schedule := None; u_nextRunAt := None; u_lastFiredAt := None; u_orphanedAt := None; u_runOptions := None;
     u_payload := Some payload |}.

Definition update_if (ids : list Z) (u : JobUpdate) (j : ScheduledJob) : ScheduledJob :=
  if bool_decide (j_id j ∈ ids) then update_job u j else j.

Lemma updateRunOptions_map ids options t : updateRunOptions ids options t = map_jobs (update_if ids (options_update options)) t.
Proof.
  destruct ids; [|done]. destruct t as [js n db]. unfold map_jobs, set_jobs. simpl. f_equal. rewrite <-(map_fmap_id js) at 1.
  apply map_fmap_ext. intros i j _. unfold update_if. by rewrite not_in_nil.
Qed.

Lemma updatePayload_map ids payload t : updatePayload ids payload t = map_jobs (update_if ids (payload_update payload)) t.
Proof.
  destruct ids; [|done]. destruct t as [js n db]. unfold map_jobs, set_jobs. simpl. f_equal. rewrite <-(map_fmap_id js) at 1.
  apply map_fmap_ext. intros i j _. unfold update_if. by rewrite not_in_nil.
Qed.

Lemma update_if_keeps_names ids u : keeps_names (update_if ids u).
Proof. intros j. unfold update_if. by case_bool_decide. Qed.

(** ** Seeding moves clocks only *)

Lemma advanceMany_map (advances : list JobAdvance) (n m : Z) (t : JobTable) :
  exists f, advanceMany advances n m t = map_jobs f t /\ forall j, exists a b, f j = advance_job j a b.
Proof.
  unfold advanceMany. generalize (chunks_of (Z.to_nat (clampChunkSize n m)) advances). intros chunks. revert t.
  induction chunks as [|c chunks IH]; intros t; simpl.
  - exists (fun j => j). split; [unfold map_jobs; rewrite map_fmap_id; by destruct t|].
    intros j. exists (j_nextRunAt j), (j_lastFiredAt j). by destruct j.
  - destruct (IH (advanceChunk c t)) as (f & Heq & Hf). rewrite Heq.
    change (advanceChunk c t) with (map_jobs (fun j => match arr_find (fun a => a_id a =? j_id j) c with
      | Some a => advance_job j (a_nextRunAt a) (a_lastFiredAt a) | None => j end) t).
    rewrite map_jobs_map. eexists. split; [done|]. intros j. simpl. destruct (arr_find _ c) as [a|]; [|apply Hf].
    destruct (Hf (advance_job j (a_nextRunAt a) (a_lastFiredAt a))) as (x & y & ->). by exists x, y.
Qed.

Section Seed.
Context `{CronParser} `{Luxon}.

Lemma claimSeeded_rows ids (d : Db) claimed :
  JobsOk (db_jobs d) -> claimSeeded ids d = Some claimed ->
  NoDup ((fun job => j_id (oj_job job)) <$> claimed) /\ forall id, id ∈ ((fun job => j_id (oj_job job)) <$> claimed) -> id ∈ ids.
Proof.
  intros HJ Hc. unfold claimSeeded in Hc. set (l := List.filter _ _) in Hc.
  assert (Heq : claimed = withOwnerKeys l) by (destruct l; [done|]; by injection Hc). subst claimed.
  assert (Hids : (fun job => j_id (oj_job job)) <$> withOwnerKeys l = j_id <$> l)
    by (unfold withOwnerKeys; by rewrite <-list_fmap_compose).
  rewrite Hids. split.
  - unfold l. apply (arr_filter_map_NoDup j_id). unfold findManyByIds. destruct ids; [constructor|]. by apply jobs_where_ids_NoDup.
  - intros id (j & -> & Hj)%list_elem_of_fmap. unfold l in Hj.
    apply (elem_of_arr_filter (fun j => j_enabled j && bool_decide (j_nextRunAt j <> None))) in Hj as [_ Hj].
    unfold findManyByIds in Hj. destruct ids as [|i ids]; [inversion Hj|]. apply elem_of_jobs_where in Hj as [Hin _].
    by apply bool_decide_eq_true in Hin.
Qed.

Lemma seed_moves_clocks options ids interrupt now (d d' : Db) :
  JobsOk (db_jobs d) -> seedInitialOccurrences options ids interrupt now d = Ok d' ->
  JobsOk (db_jobs d') /\
  (exists f, db_jobs d' = map_jobs f (db_jobs d) /\ forall j, exists a b, f j = advance_job j a b) /\
  forall id j, jobs (db_jobs d) !! id = Some j -> id ∉ ids -> jobs (db_jobs d') !! id = Some j.
Proof.
  intros HJ Hs. assert (Hsame : d' = d -> JobsOk (db_jobs d') /\
    (exists f, db_jobs d' = map_jobs f (db_jobs d) /\ forall j, exists a b, f j = advance_job j a b) /\
    forall id j, jobs (db_jobs d) !! id = Some j -> id ∉ ids -> jobs (db_jobs d') !! id = Some j).
  { intros ->. split_and!; [done| |done]. exists (fun j => j). split; [unfold map_jobs; rewrite map_fmap_id; by destruct (db_jobs d)|].
    intros j. exists (j_nextRunAt j), (j_lastFiredAt j). by destruct j. }
  unfold seedInitialOccurrences in Hs. destruct ids as [|i ids]; [apply Hsame; by injection Hs|].
  destruct (pass_tx _ _ _ _ _) as [[summary d1]|e] eqn:Hp; [|done]. injection Hs as <-. simpl in *.
  apply pass_tx_ok in Hp as [(_ & _ & ->)|(claimed & Hc & ->)]; [by apply Hsame|].
  destruct (claimSeeded_rows _ _ _ HJ Hc) as [Hnd Hids]. simpl. split_and!.
  - by apply pass_jobs_ok.
  - apply advanceMany_map.
  - intros id j Hj Hid. destruct (pass_jobs_lookup claimed now options (db_jobs d) id j HJ Hnd Hj) as [[Hj' _]|(e & He & Heid & _)]; [done|].
    destruct Hid. apply Hids. rewrite <-(advances_ids claimed now options). apply list_elem_of_fmap.
    eexists. split; [|apply list_elem_of_fmap; by exists e]. done.
Qed.

End Seed.

(** ** The work, composed *)

Lemma owned_names_NoDup (scope : ProvisionScope) (t : JobTable) :
  JobsOk t -> NoDup (j_name <$> findManyByOwner (sc_owner scope) t).
Proof.
  intros HJ. unfold findManyByOwner.
  assert (Hids : NoDup (j_id <$> jobs_where (owned_by_member (sc_owner scope)) t)) by (by apply jobs_where_ids_NoDup).
  apply NoDup_alt. intros i k name Hi Hk. rewrite list_lookup_fmap in Hi, Hk.
  destruct (_ !! i) as [a|] eqn:Ha; simpl in Hi; [|done]. destruct (_ !! k) as [b|] eqn:Hb; simpl in Hk; [|done].
  apply (NoDup_lookup _ _ _ (j_id a) Hids); rewrite list_lookup_fmap; [by rewrite Ha|]. rewrite Hb. simpl. f_equal.
  apply list_elem_of_lookup_2, elem_of_jobs_where in Ha as [_ [ia Ha]], Hb as [_ [ib Hb]].
  destruct (jk_key t HJ ia a Ha) as [-> _], (jk_key t HJ ib b Hb) as [-> _]. apply (jk_unique t HJ ib ia b a Hb Ha). congruence.
Qed.

Lemma arr_find_fmap {A B} (g : A -> B) (p : B -> bool) (l : list A) :
  arr_find p (g <$> l) = g <$> arr_find (fun x => p (g x)) l.
Proof. induction l as [|x l IH]; simpl; [done|]. by destruct (p (g x)). Qed.

Definition kept_row (scope : ProvisionScope) (desired : list DesiredJob) (j : ScheduledJob) : Prop :=
  owned_by_member (sc_owner scope) j = false \/ j_name j ∈ (dj_name <$> desired).

(** The jobs once the work has run on [t]. *)
Record worked (scope : ProvisionScope) (desired : list DesiredJob) (now : Z) (t t' : JobTable) (s : ProvisionState) : Prop := {
  wk_ok : JobsOk t';
  wk_kept : forall id j, jobs t !! id = Some j -> kept_row scope desired j -> jobs t' !! id = Some (target scope desired j);
  wk_rows : forall id j', jobs t' !! id = Some j' ->
    (exists j, jobs t !! id = Some j /\ j' = target scope desired j /\ kept_row scope desired j) \/
    (exists job, job ∈ desired /\ row_named scope t (dj_name job) = None /\ j' = job_row id now (new_job scope job));
  wk_inserted : forall job, job ∈ desired -> row_named scope t (dj_name job) = None ->
    exists id j', jobs t' !! id = Some j' /\ j_name j' = dj_name job /\ owned_by_member (sc_owner scope) j' = true;
  wk_seeded : forall id, id ∈ pt_seeded s -> id ∈ (pv_id <$> redefined_of scope t desired) \/
    exists job j', job ∈ desired /\ row_named scope t (dj_name job) = None /\ jobs t' !! id = Some j' /\ j_name j' = dj_name job;
  wk_jobs : db_jobs (pt_db s) = t';
  wk_options : pt_runOptions s = j_id <$> List.filter (outdated_options scope) (findManyByOwner (sc_owner scope) t);
  wk_payload : pt_payload s = j_id <$> List.filter (outdated_payload scope) (findManyByOwner (sc_owner scope) t);
}.

Definition removed_of (scope : ProvisionScope) (desired : list DesiredJob) (t : JobTable) : list Z :=
  pv_id <$> (ref_of <$> List.filter (fun job => bool_decide (ej_name job ∉ set_of_list (dj_name <$> desired)))
                          (existing_of <$> findManyByOwner (sc_owner scope) t)).

Lemma elem_of_removed (scope : ProvisionScope) (desired : list DesiredJob) (t : JobTable) (id : Z) (j : ScheduledJob) :
  JobsOk t -> jobs t !! id = Some j -> id ∈ removed_of scope desired t <-> ~ kept_row scope desired j.
Proof.
  intros HJ Hj. unfold removed_of. rewrite <-list_fmap_compose, list_elem_of_fmap. split.
  - intros (e & -> & He). apply (elem_of_arr_filter (fun job => bool_decide (ej_name job ∉ set_of_list (dj_name <$> desired)))) in He as [Hn He].
    apply list_elem_of_fmap in He as (j1 & -> & Hj1'). simpl in *. apply elem_of_jobs_where in Hj1' as [Ho [k Hk]].
    destruct (jk_key t HJ k j1 Hk) as [Hid _]. rewrite Hid, Hk in Hj. injection Hj as ->.
    apply bool_decide_eq_true in Hn. rewrite elem_of_set_of_list in Hn. unfold kept_row. intros [Hf|Hin]; [congruence|done].
  - intros Hn. unfold kept_row in Hn. exists (existing_of j). simpl. destruct (jk_key t HJ id j Hj) as [Hid _]. split; [done|].
    apply (elem_of_arr_filter (fun job => bool_decide (ej_name job ∉ set_of_list (dj_name <$> desired)))). split.
    + apply bool_decide_eq_true. rewrite elem_of_set_of_list. simpl. tauto.
    + apply list_elem_of_fmap_2. apply elem_of_jobs_where. split; [|eauto].
      destruct (owned_by_member _ j); [done|]. destruct Hn. by left.
Qed.

(** The rows left once those no longer desired are deleted. *)
Lemma remaining_rows (scope : ProvisionScope) (desired : list DesiredJob) (t : JobTable) (id : Z) (j' : ScheduledJob) :
  JobsOk t ->
  jobs (delete_jobs (fun j => bool_decide (j_id j ∈ removed_of scope desired t)) (map_jobs (target scope desired) t)) !! id = Some j' <->
  exists j, jobs t !! id = Some j /\ j' = target scope desired j /\ kept_row scope desired j.
Proof.
  intros HJ. unfold delete_jobs. simpl. rewrite map_lookup_filter_Some, lookup_fmap. simpl. split.
  - intros [(j & Hj & ->)%fmap_Some_1 Hn]. exists j. split_and!; [done|done|]. apply bool_decide_eq_false in Hn.
    destruct (target_keeps_names scope desired j) as [Hid _]. rewrite Hid in Hn. destruct (jk_key t HJ id j Hj) as [Hid' _].
    rewrite Hid', (elem_of_removed scope desired t id j HJ Hj) in Hn. unfold kept_row in *.
    destruct (owned_by_member _ j); [|by left]. right. apply dec_stable. intros Hnp. apply Hn. by intros [?|?].
  - intros (j & Hj & -> & Hk). rewrite Hj. split; [done|]. apply bool_decide_eq_false.
    destruct (target_keeps_names scope desired j) as [Hid _]. rewrite Hid. destruct (jk_key t HJ id j Hj) as [-> _].
    rewrite (elem_of_removed scope desired t id j HJ Hj). tauto.
Qed.

Lemma new_jobs_of (scope : ProvisionScope) (t : JobTable) (desired : list DesiredJob) (n : NewScheduledJob) :
  n ∈ new_job scope <$> inserts_of scope t desired <->
  exists job, n = new_job scope job /\ job ∈ desired /\ row_named scope t (dj_name job) = None.
Proof.
  rewrite list_elem_of_fmap. unfold inserts_of.
  setoid_rewrite (elem_of_arr_filter (fun job => bool_decide (row_named scope t (dj_name job) = None)) desired).
  setoid_rewrite bool_decide_eq_true. naive_solver.
Qed.

Lemma elem_of_foldl_add (s : list Z) (l : list Z) (x : Z) : x ∈ foldl set_add s l <-> x ∈ s \/ x ∈ l.
Proof. apply elem_of_foldl_set_add. Qed.

Lemma provision_works (scope : ProvisionScope) (now : Z) (desired : list DesiredJob) (d : Db) summary s :
  JobsOk (db_jobs d) -> NoDup (dj_name <$> desired) ->
  provision (durable_tx scope now) desired (fresh_state d) = Ok (summary, s) ->
  exists t', worked scope desired now (db_jobs d) t' s.
Proof.
  intros HJ Hnd Hp. set (t := db_jobs d) in *. unfold provision in Hp. cbn [findExisting durable_tx fresh_state pt_db pt_seeded pt_runOptions pt_grace pt_payload] in Hp.
  fold t in Hp. set (rows := findManyByOwner (sc_owner scope) t) in *.
  set (M := foldl _ [] (existing_of <$> rows)) in Hp. set (s0 := {| pt_db := d |}) in Hp.
  assert (HM : forall name, map_get name M = existing_of <$> row_named scope t name).
  { intros name. unfold M. rewrite map_by_name.
    - rewrite arr_find_fmap. unfold row_named. fold rows. by destruct (arr_find _ rows).
    - rewrite <-list_fmap_compose. by apply (owned_names_NoDup scope t HJ). }
  assert (H0 : db_jobs (pt_db s0) = map_jobs (target scope []) t).
  { unfold map_jobs. simpl. unfold t. destruct (db_jobs d) as [js n]. simpl. f_equal. by rewrite <-(map_fmap_id js) at 1. }
  destruct (diff_jobs_spec scope now t M desired [] [] [] [] s0 HJ HM Hnd H0) as (s1 & Hdiff & Hj1 & _ & Hr1 & _ & Hp1 & Hseed1).
  rewrite Hdiff in Hp. clear Hdiff. simpl app in *.
  set (removed := ref_of <$> _) in Hp.
  apply bind_ok in Hp as ([ids s2] & Hins & Hp). injection Hp as _ <-. simpl in Hins.
  apply bind_ok in Hins as ([ids' t3] & Hmany & Hins). injection Hins as <- <-. 
  rewrite deleteManyByIds_jobs in Hmany. simpl in Hmany. rewrite Hj1 in Hmany.
  change (pv_id <$> removed) with (removed_of scope desired t) in Hmany.
  set (t2 := delete_jobs _ _) in Hmany.
  pose proof (fun id j' => remaining_rows scope desired t id j' HJ) as Ht2. fold t2 in Ht2.
  assert (HJ2 : JobsOk t2) by (apply delete_jobs_ok, map_jobs_ok; [apply target_keeps_names|done]).
  destruct (insertMany_spec now _ t2 t3 ids' HJ2 Hmany) as (HJ3 & Hold & Honly & Hnew). exists t3.
  pose proof (new_jobs_of scope t desired) as Hnews.
  split.
  - done.
  - intros id j Hj Hk. apply Hold, Ht2. by exists j.
  - intros id j' Hj'. destruct (Honly id j' Hj') as [H2|(n & Hn & ->)]; [left; by apply Ht2|]. right.
    apply Hnews in Hn as (job & -> & Hin & Hrn). by exists job.
  - intros job Hin Hn. destruct (proj1 (list_elem_of_lookup _ _) (proj2 (Hnews _) (ex_intro _ job (conj eq_refl (conj Hin Hn))))) as [i Hi].
    destruct (Forall2_lookup_l _ _ _ _ _ Hnew Hi) as (id & _ & j' & Hj' & Hname & Ho). by exists id, j'.
  - intros id. simpl. rewrite elem_of_foldl_add, Hseed1. intros [[Hid|Hid]|Hid]; [inversion Hid|by left|]. right.
    apply list_elem_of_lookup in Hid as [i Hi]. destruct (Forall2_lookup_r _ _ _ _ _ Hnew Hi) as (n & Hn & j' & Hj' & Hname & _).
    apply list_elem_of_lookup_2, Hnews in Hn as (job & -> & Hin & Hrn). by exists job, j'.
  - done.
  - simpl. rewrite Hr1. done.
  - simpl. rewrite Hp1. done.
Qed.

(** ** The whole transaction *)

(** A row holds what the request desires of it. *)
Record settled (scope : ProvisionScope) (job : DesiredJob) (j : ScheduledJob) : Prop := {
  st_name : j_name j = dj_name job;
  st_owner : owned_by_member (sc_owner scope) j = true;
  st_schedule : rowSchedule j = dj_schedule job;
  st_options : (j_maxAttempts j, j_misfirePolicy j, j_misfireGraceSeconds j) = scope_options scope;
  st_payload : j_payload j = sc_payload scope \/ json_equal (j_payload j) (sc_payload scope) = true;
  st_lifted : j_orphanedAt j = None;
}.

Definition lift_row (o : Owner) (j : ScheduledJob) : ScheduledJob :=
  if owned_by_member o j && is_quarantined j then update_job (set_quarantine None None) j else j.

Lemma lift_row_keeps_names o : keeps_names (lift_row o).
Proof. intros j. unfold lift_row. by destruct (_ && _). Qed.

Lemma elem_of_outdated (p : ScheduledJob -> bool) (o : Owner) (t : JobTable) (id : Z) (j : ScheduledJob) :
  JobsOk t -> jobs t !! id = Some j ->
  id ∈ (j_id <$> List.filter p (findManyByOwner o t)) <-> p j = true /\ owned_by_member o j = true.
Proof.
  intros HJ Hj. rewrite list_elem_of_fmap. split.
  - intros (j1 & -> & Hin). apply (elem_of_arr_filter p) in Hin as [Hp Hin]. apply elem_of_jobs_where in Hin as [Ho [k Hk]].
    destruct (jk_key t HJ k j1 Hk) as [Hid _]. rewrite Hid, Hk in Hj. by injection Hj as ->.
  - intros [Hp Ho]. exists j. destruct (jk_key t HJ id j Hj) as [Hid _]. split; [done|].
    apply (elem_of_arr_filter p). split; [done|]. apply elem_of_jobs_where. eauto.
Qed.

(** Run options, payload and clock are all that changes after the work. *)
Definition refreshed (options payload : list Z) (scope : ProvisionScope) (j j' : ScheduledJob) : Prop :=
  exists a b, j' = advance_job (update_if payload (payload_update (sc_payload scope))
                                 (update_if options (options_update (scope_options scope)) j)) a b.

Lemma refreshed_keeps ids1 ids2 scope (j j' : ScheduledJob) :
  refreshed ids1 ids2 scope j j' ->
  j_id j' = j_id j /\ j_name j' = j_name j /\ rowSchedule j' = rowSchedule j /\ j_orphanedAt j' = j_orphanedAt j /\
  owned_by_member (sc_owner scope) j' = owned_by_member (sc_owner scope) j /\
  (j_maxAttempts j', j_misfirePolicy j', j_misfireGraceSeconds j') =
    (if bool_decide (j_id j ∈ ids1) then scope_options scope else (j_maxAttempts j, j_misfirePolicy j, j_misfireGraceSeconds j)) /\
  j_payload j' = (if bool_decide (j_id j ∈ ids2) then sc_payload scope else j_payload j).
Proof.
  intros (a & b & ->). unfold update_if.
  destruct (bool_decide (j_id j ∈ ids1)) eqn:H1; simpl; destruct (bool_decide (j_id j ∈ ids2)) eqn:H2; done.
Qed.

(** A row the work leaves, refreshed, is settled. *)
Lemma target_settles scope desired (t : JobTable) (id : Z) (j j' : ScheduledJob) (job : DesiredJob) :
  JobsOk t -> jobs t !! id = Some j -> owned_by_member (sc_owner scope) j = true -> j_orphanedAt j = None ->
  desired_for desired j = Some job ->
  refreshed (j_id <$> List.filter (outdated_options scope) (findManyByOwner (sc_owner scope) t))
            (j_id <$> List.filter (outdated_payload scope) (findManyByOwner (sc_owner scope) t)) scope
            (target scope desired j) j' ->
  settled scope job j'.
Proof.
  intros HJ Hj Ho Hq Hd Href. apply refreshed_keeps in Href as (_ & Hn & Hs & Horph & Hown & Hopt & Hpay).
  destruct (target_keeps_names scope desired j) as [Hid Hname].
  assert (Hdn : dj_name job = j_name j) by (by apply arr_find_Some in Hd as [_ Hd%bool_decide_eq_true]).
  destruct (jk_key t HJ id j Hj) as [Hjid _]. rewrite Hid, Hjid in Hopt, Hpay.
  pose proof (elem_of_outdated (outdated_options scope) (sc_owner scope) t id j HJ Hj) as Hout.
  pose proof (elem_of_outdated (outdated_payload scope) (sc_owner scope) t id j HJ Hj) as Houtp.
  unfold target in *. rewrite Hd, Ho in *. destruct (holdsDefinition (existing_of j) job) eqn:Hh.
  - unfold holdsDefinition in Hh. apply andb_true_iff in Hh as [Hsame _]. apply bool_decide_eq_true, canonicalDefinition_inj in Hsame. simpl in Hsame.
    split; [congruence|congruence|congruence| | |congruence].
    + rewrite Hopt. destruct (bool_decide (id ∈ j_id <$> List.filter (outdated_options scope) _)) eqn:Hin; [done|]. apply bool_decide_eq_false in Hin. rewrite Hout in Hin. unfold outdated_options, outdated_grace in Hin.
      unfold scope_options. destruct (Z.eqb_spec (j_misfireGraceSeconds j) (sc_misfireGraceSeconds scope)); simpl in Hin; [|tauto].
      destruct (Z.eqb_spec (j_maxAttempts j) (sc_maxAttempts scope)); simpl in Hin; [|rewrite orb_true_r in Hin; tauto].
      destruct (bool_decide (j_misfirePolicy j = _)) eqn:Hpol; simpl in Hin; [apply bool_decide_eq_true in Hpol; congruence|tauto].
    + rewrite Hpay. destruct (bool_decide (id ∈ j_id <$> List.filter (outdated_payload scope) _)) eqn:Hin; [by left|]. apply bool_decide_eq_false in Hin. right. rewrite Houtp in Hin. unfold outdated_payload in Hin.
      destruct (json_equal _ _); [done|]. simpl in Hin. tauto.
  - split; [by rewrite Hn, Hdn|rewrite Hown; exact Ho|rewrite Hs; by apply rowSchedule_update| | |by rewrite Horph].
    + rewrite Hopt. by destruct (bool_decide (id ∈ j_id <$> List.filter (outdated_options scope) _)).
    + rewrite Hpay. destruct (bool_decide (id ∈ j_id <$> List.filter (outdated_payload scope) _)) eqn:Hin; [by left|]. apply bool_decide_eq_false in Hin. right. rewrite Houtp in Hin. unfold outdated_payload in Hin. simpl.
      destruct (json_equal _ _); [done|]. simpl in Hin. tauto.
Qed.

Lemma inserted_settles ids1 ids2 scope (now id : Z) (job : DesiredJob) (j' : ScheduledJob) :
  refreshed ids1 ids2 scope (job_row id now (new_job scope job)) j' -> settled scope job j'.
Proof.
  intros Href. apply refreshed_keeps in Href as (_ & Hn & Hs & Horph & Hown & Hopt & Hpay). split; try done.
  - rewrite Hown. unfold owned_by_member. simpl. by rewrite !bool_decide_true.
  - rewrite Hs. by apply rowSchedule_columns.
  - rewrite Hopt. by destruct (bool_decide (_ ∈ ids1)).
  - left. rewrite Hpay. by destruct (bool_decide (_ ∈ ids2)).
Qed.

Section Transaction.
Context `{CronParser} `{Luxon}.

Lemma provisionTransaction_worked options scope desired interrupt now (d d' : Db) summary :
  JobsOk (db_jobs d) -> NoDup (dj_name <$> desired) ->
  provisionTransaction options scope desired interrupt now d = Ok (summary, d') ->
  let t := map_jobs (lift_row (sc_owner scope)) (db_jobs d) in
  let ids p := j_id <$> List.filter p (findManyByOwner (sc_owner scope) t) in
  JobsOk (db_jobs d') /\ exists s t', JobsOk t /\ worked scope desired now t t' s /\
    (forall id j', jobs (db_jobs d') !! id = Some j' -> exists j, jobs t' !! id = Some j /\
       refreshed (ids (outdated_options scope)) (ids (outdated_payload scope)) scope j j') /\
    (forall id j, jobs t' !! id = Some j -> exists j', jobs (db_jobs d') !! id = Some j' /\
       refreshed (ids (outdated_options scope)) (ids (outdated_payload scope)) scope j j' /\
       (id ∉ pt_seeded s -> j_nextRunAt j' = j_nextRunAt j /\ j_lastFiredAt j' = j_lastFiredAt j)).
Proof.
  intros HJ Hnd Hp t ids. unfold provisionTransaction in Hp.
  apply bind_ok in Hp as ([summary' s] & Hwork & Hp). apply bind_ok in Hp as (d1 & Hseed & Hp). injection Hp as -> <-.
  assert (HJt : JobsOk t) by (apply map_jobs_ok; [apply lift_row_keeps_names|done]).
  destruct (provision_works scope now desired {| db_jobs := t; db_tasks := db_tasks d |} summary s HJt Hnd Hwork) as [t' Hw].
  destruct Hw as [HJ' W1 W2 W3 W4 W5 W6 W7].
  assert (Hrefresh : db_jobs (refresh_unchanged scope now s) = map_jobs (fun j =>
    update_if (ids (outdated_payload scope)) (payload_update (sc_payload scope))
      (update_if (ids (outdated_options scope)) (options_update (scope_options scope)) j)) t').
  { unfold refresh_unchanged. simpl. by rewrite updateRunOptions_map, updatePayload_map, map_jobs_map, W5, W6, W7. }
  assert (HJr : JobsOk (db_jobs (refresh_unchanged scope now s))).
  { rewrite Hrefresh. apply map_jobs_ok; [|done]. intros j. unfold update_if. repeat case_bool_decide; done. }
  destruct (seed_moves_clocks _ _ _ _ _ _ HJr Hseed) as (HJd & (f & Hf & Hadv) & Hkeep).
  split; [exact HJd|]. exists s, t'. split_and!; [done|by split| |].
  - intros id j'. rewrite Hf, Hrefresh, map_jobs_map. simpl. rewrite lookup_fmap. intros (j & Hj & ->)%fmap_Some_1.
    exists j. split; [done|]. apply Hadv.
  - intros id j Hj. eexists. split; [|split].
    + rewrite Hf, Hrefresh, map_jobs_map. simpl. by rewrite lookup_fmap, Hj.
    + apply Hadv.
    + intros Hid. assert (Hlook : jobs (db_jobs (refresh_unchanged scope now s)) !! id = Some
        (update_if (ids (outdated_payload scope)) (payload_update (sc_payload scope))
          (update_if (ids (outdated_options scope)) (options_update (scope_options scope)) j))).
      { rewrite Hrefresh. simpl. by rewrite lookup_fmap, Hj. }
      pose proof (Hkeep id _ Hlook Hid) as Hk. rewrite Hf in Hk. unfold map_jobs in Hk. cbn [jobs set_jobs] in Hk. rewrite lookup_fmap, Hlook in Hk.
      injection Hk as Hk. rewrite Hk. unfold update_if. repeat case_bool_decide; done.
Qed.

End Transaction.

(** ** Whose rows the seed touches *)

Lemma owned_target scope desired j : owned_by_member (sc_owner scope) (target scope desired j) = owned_by_member (sc_owner scope) j.
Proof.
  unfold target. destruct (desired_for desired j); [|done]. destruct (owned_by_member _ j) eqn:Ho; [|done].
  by destruct (holdsDefinition _ _).
Qed.

Lemma seeded_rows scope desired now (t t' : JobTable) s id j' :
  JobsOk t -> NoDup (dj_name <$> desired) -> worked scope desired now t t' s ->
  id ∈ pt_seeded s -> jobs t' !! id = Some j' ->
  owned_by_member (sc_owner scope) j' = true /\
  forall j job, jobs t !! id = Some j -> owned_by_member (sc_owner scope) j = true -> job ∈ desired ->
    j_name j = dj_name job -> holdsDefinition (existing_of j) job = false.
Proof.
  intros HJ Hnd [HJ' W1 W2 W3 W4 _ _ _] Hid Hj'. destruct (W4 id Hid) as [Hr|(job' & j1 & Hin & Hrn & Hj1 & Hn1)].
  - apply list_elem_of_fmap in Hr as (pv & -> & Hr). unfold redefined_of in Hr. apply list_elem_of_omap in Hr as (job' & Hin & Hr).
    pose proof (row_named_spec scope t (dj_name job') HJ) as Hspec. destruct (row_named scope t (dj_name job')) as [j0|]; [|done].
    destruct (holdsDefinition (existing_of j0) job') eqn:Hh; [done|]. injection Hr as <-. simpl in *. destruct Hspec as (Hj0 & Ho0 & Hn0).
    assert (Hk : kept_row scope desired j0) by (right; rewrite Hn0; by apply list_elem_of_fmap_2).
    rewrite (W1 _ _ Hj0 Hk) in Hj'. injection Hj' as <-. split; [by rewrite owned_target|].
    intros j job Hj _ Hjob Hn. rewrite Hj0 in Hj. injection Hj as <-.
    assert (job = job') as ->; [|done]. apply list_elem_of_lookup in Hjob as [i Hi], Hin as [k Hk'].
    assert (i = k) as ->; [|congruence]. apply (NoDup_lookup _ _ _ (dj_name job) Hnd); rewrite list_lookup_fmap; [by rewrite Hi|].
    rewrite Hk'. simpl. f_equal. congruence.
  - rewrite Hj' in Hj1. injection Hj1 as ->. destruct (W3 job' Hin Hrn) as (k & j2 & Hj2 & Hn2 & Ho2).
    assert (id = k) as -> by (apply (jk_unique t' HJ' id k j1 j2 Hj' Hj2); congruence).
    rewrite Hj' in Hj2. injection Hj2 as ->. split; [done|]. intros j job Hj Ho Hjob Hn. exfalso.
    assert (Hk : kept_row scope desired j) by (right; rewrite Hn; by apply list_elem_of_fmap_2).
    rewrite (W1 _ _ Hj Hk) in Hj'. injection Hj' as <-. destruct (target_keeps_names scope desired j) as [_ Hnm].
    pose proof (row_named_spec scope t (dj_name job') HJ) as Hspec. rewrite Hrn in Hspec. apply (Hspec k j Hj Ho). congruence.
Qed.

(** A row of another owner goes through unchanged. *)
Lemma foreign_row_kept ids1 ids2 scope (j j' : ScheduledJob) :
  refreshed ids1 ids2 scope j j' -> j_id j ∉ ids1 -> j_id j ∉ ids2 -> j_nextRunAt j' = j_nextRunAt j ->
  j_lastFiredAt j' = j_lastFiredAt j -> j' = j.
Proof.
  intros (a & b & ->) H1 H2. unfold update_if. rewrite (bool_decide_eq_false_2 _ H1). rewrite (bool_decide_eq_false_2 _ H2).
  simpl. intros -> ->. by destruct j.
Qed.

Lemma desired_for_name (desired : list DesiredJob) (job : DesiredJob) (j : ScheduledJob) :
  NoDup (dj_name <$> desired) -> job ∈ desired -> j_name j = dj_name job -> desired_for desired j = Some job.
Proof.
  intros Hnd Hin Hn. unfold desired_for. destruct (arr_find _ desired) as [job'|] eqn:Hf.
  - apply arr_find_Some in Hf as [Hin' Hn']. apply bool_decide_eq_true in Hn'. f_equal.
    apply list_elem_of_lookup in Hin as [i Hi], Hin' as [k Hk].
    assert (i = k) as ->; [|congruence]. apply (NoDup_lookup _ _ _ (dj_name job) Hnd); rewrite list_lookup_fmap; [by rewrite Hi|].
    rewrite Hk. simpl. f_equal. congruence.
  - rewrite arr_find_None in Hf. specialize (Hf job Hin). apply bool_decide_eq_false in Hf. congruence.
Qed.

Lemma lookup_map_jobs f (t : JobTable) id : jobs (map_jobs f t) !! id = f <$> jobs t !! id.
Proof. apply lookup_fmap. Qed.

Lemma owned_lift scope j : owned_by_member (sc_owner scope) (lift_row (sc_owner scope) j) = owned_by_member (sc_owner scope) j.
Proof. unfold lift_row. by destruct (_ && _). Qed.

Lemma lifted_orphan scope j : owned_by_member (sc_owner scope) j = true -> j_orphanedAt (lift_row (sc_owner scope) j) = None.
Proof.
  intros Ho. unfold lift_row, is_quarantined. rewrite Ho. simpl. case_bool_decide as Hq; simpl; [done|].
  destruct (j_orphanedAt j); [by destruct Hq|done].
Qed.

(** ** What a committed provision leaves *)

Section Committed.
Context `{CronParser} `{Luxon}.
Variables (options : MaterializerOptions) (scope : ProvisionScope) (desired : list DesiredJob)
  (interrupt : nat -> option SchedError) (now : Z) (d d' : Db) (summary : ProvisionSummary).
Hypothesis HJ : JobsOk (db_jobs d).
Hypothesis Hnd : NoDup (dj_name <$> desired).
Hypothesis Hp : provisionTransaction options scope desired interrupt now d = Ok (summary, d').

Notation t := (map_jobs (lift_row (sc_owner scope)) (db_jobs d)).

Lemma lifted_ok : JobsOk t.
Proof. apply map_jobs_ok; [apply lift_row_keeps_names|exact HJ]. Qed.

Lemma lifted_owned id j : jobs t !! id = Some j -> owned_by_member (sc_owner scope) j = true -> j_orphanedAt j = None.
Proof. rewrite lookup_map_jobs. intros (j0 & _ & ->)%fmap_Some_1. rewrite owned_lift. apply lifted_orphan. Qed.

Lemma committed_settled id j' :
  jobs (db_jobs d') !! id = Some j' -> owned_by_member (sc_owner scope) j' = true ->
  exists job, job ∈ desired /\ settled scope job j'.
Proof.
  intros Hj' Ho'. destruct (provisionTransaction_worked _ _ _ _ _ _ _ _ HJ Hnd Hp) as (_ & s & t' & _ & Hw & Hback & _).
  destruct (Hback id j' Hj') as (j1 & Hj1 & Href).
  destruct (wk_rows _ _ _ _ _ _ Hw id j1 Hj1) as [(j0 & Hj0 & -> & Hk)|(job & Hin & Hrn & ->)].
  - pose proof (refreshed_keeps _ _ _ _ _ Href) as (_ & _ & _ & _ & Ho & _). rewrite Ho', owned_target in Ho. symmetry in Ho.
    destruct Hk as [Hk|Hk]; [congruence|]. apply list_elem_of_fmap in Hk as (job & Hn & Hin). exists job. split; [done|].
    exact (target_settles scope desired t id j0 j' job lifted_ok Hj0 Ho (lifted_owned id j0 Hj0 Ho) (desired_for_name _ _ _ Hnd Hin Hn) Href).
  - exists job. split; [done|]. by eapply inserted_settles.
Qed.

Lemma committed_exists job : job ∈ desired -> exists id j, jobs (db_jobs d') !! id = Some j /\ settled scope job j.
Proof.
  intros Hin. destruct (provisionTransaction_worked _ _ _ _ _ _ _ _ HJ Hnd Hp) as (_ & s & t' & _ & Hw & _ & Hfwd).
  pose proof (row_named_spec scope t (dj_name job) lifted_ok) as Hspec.
  assert (Hrow : exists id j1, jobs t' !! id = Some j1 /\ j_name j1 = dj_name job /\ owned_by_member (sc_owner scope) j1 = true).
  { destruct (row_named scope t (dj_name job)) as [j0|] eqn:Hrn; [|by apply (wk_inserted _ _ _ _ _ _ Hw)].
    destruct Hspec as (Hj0 & Ho0 & Hn0). exists (j_id j0), (target scope desired j0).
    destruct (target_keeps_names scope desired j0) as [_ Hn]. split_and!; [|congruence|by rewrite owned_target].
    apply (wk_kept _ _ _ _ _ _ Hw); [done|]. right. rewrite Hn0. by apply list_elem_of_fmap_2. }
  destruct Hrow as (id & j1 & Hj1 & Hn1 & Ho1). destruct (Hfwd id j1 Hj1) as (j' & Hj' & Href & _).
  pose proof (refreshed_keeps _ _ _ _ _ Href) as (_ & Hn & _ & _ & Ho & _). rewrite Ho1 in Ho.
  destruct (committed_settled id j' Hj' Ho) as (job' & Hin' & Hs). exists id, j'. split; [done|].
  pose proof (st_name _ _ _ Hs) as Hn'. pose proof (desired_for_name desired job j' Hnd Hin ltac:(congruence)) as Hd.
  rewrite (desired_for_name desired job' j' Hnd Hin' Hn') in Hd. by injection Hd as ->.
Qed.

Lemma committed_kept job id j :
  job ∈ desired -> jobs (db_jobs d) !! id = Some j -> owned_by_member (sc_owner scope) j = true -> j_name j = dj_name job ->
  exists j', jobs (db_jobs d') !! id = Some j' /\ j_name j' = j_name j /\
    (holdsDefinition (existing_of j) job = true -> j_nextRunAt j' = j_nextRunAt j /\ j_lastFiredAt j' = j_lastFiredAt j).
Proof.
  intros Hin Hj Ho Hn. destruct (provisionTransaction_worked _ _ _ _ _ _ _ _ HJ Hnd Hp) as (_ & s & t' & HJt & Hw & _ & Hfwd).
  set (j0 := lift_row (sc_owner scope) j).
  assert (Hj0 : jobs t !! id = Some j0) by (by rewrite lookup_map_jobs, Hj).
  destruct (lift_row_keeps_names (sc_owner scope) j) as [_ Hln]. fold j0 in Hln.
  assert (Hk : kept_row scope desired j0) by (right; rewrite Hln, Hn; by apply list_elem_of_fmap_2).
  pose proof (wk_kept _ _ _ _ _ _ Hw id j0 Hj0 Hk) as Hj1. destruct (Hfwd id _ Hj1) as (j' & Hj' & Href & Hclock). exists j'.
  pose proof (refreshed_keeps _ _ _ _ _ Href) as (_ & Hn' & _). destruct (target_keeps_names scope desired j0) as [_ Htn].
  split_and!; [done|congruence|]. intros Hh.
  assert (Hh0 : holdsDefinition (existing_of j0) job = true) by (unfold j0, lift_row; by destruct (_ && _)).
  assert (Ho0 : owned_by_member (sc_owner scope) j0 = true) by (unfold j0; by rewrite owned_lift).
  destruct Hclock as [-> ->].
  - intros Hseed. destruct (seeded_rows scope desired now t t' s id _ HJt Hnd Hw Hseed Hj1) as [_ Hs].
    rewrite (Hs j0 job Hj0 Ho0 Hin) in Hh0; [done|congruence].
  - unfold target. rewrite (desired_for_name desired job j0 Hnd Hin) by congruence. rewrite Ho0, Hh0.
    unfold j0, lift_row. by destruct (_ && _).
Qed.

Lemma committed_foreign id j :
  owned_by_member (sc_owner scope) j = false -> jobs (db_jobs d) !! id = Some j -> jobs (db_jobs d') !! id = Some j.
Proof.
  intros Ho Hj. destruct (provisionTransaction_worked _ _ _ _ _ _ _ _ HJ Hnd Hp) as (_ & s & t' & HJt & Hw & _ & Hfwd).
  assert (Hj0 : jobs t !! id = Some j) by (rewrite lookup_map_jobs, Hj; simpl; unfold lift_row; by rewrite Ho).
  assert (Ht : target scope desired j = j) by (unfold target; rewrite Ho; by destruct (desired_for desired j)).
  pose proof (wk_kept _ _ _ _ _ _ Hw id j Hj0 (or_introl Ho)) as Hj1. rewrite Ht in Hj1.
  destruct (Hfwd id j Hj1) as (j' & Hj' & Href & Hclock). destruct (jk_key _ HJt id j Hj0) as [Hid _].
  destruct Hclock as [Hc1 Hc2].
  { intros Hseed. destruct (seeded_rows scope desired now t t' s id j HJt Hnd Hw Hseed Hj1). congruence. }
  rewrite (foreign_row_kept _ _ _ _ _ Href) in Hj'; [done| | |done|done]; rewrite Hid;
    rewrite (elem_of_outdated _ _ t id j HJt Hj0); intros [_ Ho']; congruence.
Qed.

Lemma committed_foreign_back id j :
  owned_by_member (sc_owner scope) j = false -> jobs (db_jobs d') !! id = Some j -> jobs (db_jobs d) !! id = Some j.
Proof.
  intros Ho Hj'. destruct (provisionTransaction_worked _ _ _ _ _ _ _ _ HJ Hnd Hp) as (_ & s & t' & _ & Hw & Hback & _).
  destruct (Hback id j Hj') as (j1 & Hj1 & Href).
  pose proof (refreshed_keeps _ _ _ _ _ Href) as (_ & _ & _ & _ & Ho1 & _). rewrite Ho in Ho1. symmetry in Ho1.
  destruct (wk_rows _ _ _ _ _ _ Hw id j1 Hj1) as [(j0 & Hj0 & -> & _)|(job & _ & _ & ->)].
  - rewrite owned_target in Ho1. rewrite lookup_map_jobs in Hj0. apply fmap_Some_1 in Hj0 as (j2 & Hj2 & ->).
    rewrite owned_lift in Ho1. pose proof (committed_foreign id j2 Ho1 Hj2). congruence.
  - unfold owned_by_member in Ho1. simpl in Ho1. by rewrite !bool_decide_true in Ho1.
Qed.

End Committed.

(** ** The claims *)

(** C13. Once a provision commits: every row of the owner member is one of the desired jobs,
    with the desired schedule, the request's run options and payload, and no quarantine;
    every desired job has a row; a row that was there under a desired name keeps its id,
    and its clock too when its definition already held; and no other owner's row changes,
    appears or goes. *)
Theorem provision_matches_desired `{CronParser} `{Luxon} (options : MaterializerOptions) (scope : ProvisionScope)
    (desired : list DesiredJob) (interrupt : nat -> option SchedError) (now : Z) (d d' : Db) (summary : ProvisionSummary) :
  JobsOk (db_jobs d) -> NoDup (dj_name <$> desired) ->
  provisionTransaction options scope desired interrupt now d = Ok (summary, d') ->
  (forall id j, jobs (db_jobs d') !! id = Some j -> owned_by_member (sc_owner scope) j = true ->
     exists job, job ∈ desired /\ settled scope job j) /\
  (forall job, job ∈ desired -> exists id j, jobs (db_jobs d') !! id = Some j /\ settled scope job j) /\
  (forall job id j, job ∈ desired -> jobs (db_jobs d) !! id = Some j -> owned_by_member (sc_owner scope) j = true ->
     j_name j = dj_name job -> exists j', jobs (db_jobs d') !! id = Some j' /\ j_name j' = j_name j /\
       (holdsDefinition (existing_of j) job = true -> j_nextRunAt j' = j_nextRunAt j /\ j_lastFiredAt j' = j_lastFiredAt j)) /\
  (forall id j, owned_by_member (sc_owner scope) j = false ->
     jobs (db_jobs d') !! id = Some j <-> jobs (db_jobs d) !! id = Some j).
Proof.
  intros HJ Hnd Hp. split_and!.
  - intros id j. by apply (committed_settled options scope desired interrupt now d d' summary).
  - intros job. by apply (committed_exists options scope desired interrupt now d d' summary).
  - intros job id j. by apply (committed_kept options scope desired interrupt now d d' summary).
  - intros id j Ho. split; [by apply (committed_foreign_back options scope desired interrupt now d d' summary)|].
    by apply (committed_foreign options scope desired interrupt now d d' summary).
Qed.

Import Minutes.

(** Two rules of a workflow's trigger are provisioned, then one of them is changed and the
    other kept. *)
Definition demo_scope : ProvisionScope :=
  {| sc_owner := {| w_ownerType := "workflow"; w_ownerId := "w1"; w_ownerMemberId := Some "node1"%string |};
     sc_taskType := "schedule"; sc_payload := JObj []; sc_maxAttempts := 3; sc_misfirePolicy := CoalesceOwner;
     sc_misfireGraceSeconds := 60 |}.

Definition rule (name : string) (seconds : Z) : DesiredJob :=
  {| dj_name := name; dj_schedule := IntervalSchedule seconds; dj_firstRunAt := Some 90000 |}.

Definition provision_demo (desired : list DesiredJob) (now : Z) (d : Db) : sresult (ProvisionSummary * Db) :=
  provisionTransaction DEFAULT_MATERIALIZER_OPTIONS demo_scope desired (fun _ => None) now d.

Definition provisioned_once : Db :=
  match provision_demo [rule "a" 300; rule "b" 600] 60000 {| db_jobs := empty_jobs Postgres; db_tasks := empty_tasks Postgres |} with
  | Ok (_, d) => d
  | Err _ => {| db_jobs := empty_jobs Postgres; db_tasks := empty_tasks Postgres |}
  end.

Lemma provisioned_once_ok : JobsOk (db_jobs provisioned_once).
Proof.
  unfold provisioned_once. destruct (provision_demo _ _ _) as [[summary d']|e] eqn:Hp; [|apply (empty_jobs_ok Postgres)].
  assert (Hn : NoDup (dj_name <$> [rule "a" 300; rule "b" 600])) by (apply (bool_decide_unpack _); exact I).
  by destruct (provisionTransaction_worked _ _ _ _ _ {| db_jobs := empty_jobs Postgres; db_tasks := empty_tasks Postgres |} _ _
    (empty_jobs_ok Postgres) Hn Hp) as (Hok & _).
Qed.

Lemma provision_matches_desired_witness :
  exists summary d', provision_demo [rule "a" 300; rule "b" 60] 70000 provisioned_once = Ok (summary, d') /\
    (pv_name <$> sm_unchanged summary) = ["a"%string] /\ (pv_name <$> sm_redefined summary) = ["b"%string] /\
    (forall id j, jobs (db_jobs d') !! id = Some j -> owned_by_member (sc_owner demo_scope) j = true ->
       exists job, job ∈ [rule "a" 300; rule "b" 60] /\ settled demo_scope job j).
Proof.
  destruct (provision_demo [rule "a" 300; rule "b" 60] 70000 provisioned_once) as [[summary d']|e] eqn:Hp;
    [|vm_compute in Hp; discriminate Hp].
  exists summary, d'. split_and!; [done| | |].
  - vm_compute in Hp. injection Hp as <- _. reflexivity.
  - vm_compute in Hp. injection Hp as <- _. reflexivity.
  - apply (provision_matches_desired DEFAULT_MATERIALIZER_OPTIONS demo_scope [rule "a" 300; rule "b" 60] (fun _ => None)
      70000 provisioned_once d' summary provisioned_once_ok); [apply (bool_decide_unpack _); exact I|exact Hp].
Defined.
