(* ===== verification/SchedReconcile.v ===== *)
(** * Scheduler: owner reconciliation

    [packages/@n8n/scheduler/src/core/reconciliation/reconcile.ts] over the job table:
    owners are walked page by page, asked of their resolver, and their jobs quarantined,
    deleted once the grace has run out, or revived.  [Host] is what the pass meets: what
    each resolver answers to each question ([None] when it throws), the clock's readings
    and the signal.  The statements are the pass's own; one that fails ends the pass, with
    what it committed kept. *)

From stdpp Require Import base gmap strings pretty list sorting fin_maps.
From Stdlib Require Import ZArith Lia.
From S2P Require Import Prelude.
From S2P Require Import JsCollections.
From S2P Require Import SchedTypes.
From S2P Require Import SchedStore.
From S2P Require Import SchedRecurrence.
From S2P Require Import SchedPlan.
From S2P Require Import SchedJobs.
From S2P Require Import SchedPlanning.
From S2P Require Import SchedProvision.

#[local] Open Scope Z_scope.

Record ReconciliationOptions := {
  rc_settleSeconds : Z;
  rc_quarantineGraceSeconds : Z;
  rc_batchSize : Z;
  rc_maxPagesPerPass : Z;
  rc_defaultTimezone : string;
}.

Definition DEFAULT_RECONCILIATION_OPTIONS : ReconciliationOptions :=
  {| rc_settleSeconds := 5 * minutes_toSeconds; rc_quarantineGraceSeconds := days_toSeconds; rc_batchSize := 500;
     rc_maxPagesPerPass := 1000; rc_defaultTimezone := "UTC" |}.

Record ReconciliationCursor := { cu_ownerType : string; cu_after : option string }.

Record ReconciliationSummary := {
  rn_ownersChecked : Z;
  rn_quarantined : Z;
  rn_deleted : Z;
  rn_revived : Z;
  rn_skippedOwnerTypes : list string;
  rn_drained : bool;
  rn_resumeFrom : option ReconciliationCursor;
}.

(** The [k]-th answer of a resolver, the [k]-th reading of the clock and of the signal. *)
Record Host := {
  h_resolver : nat -> nat -> list string -> option (list string);
  h_now : nat -> Z;
  h_aborted : nat -> bool;
}.

(** The tables, and how often the host was asked. *)
Record PassTables := { pa_db : Db; pa_asked : nat; pa_clock : nat; pa_reads : nat }.

Definition with_db (d : Db) (s : PassTables) : PassTables :=
  {| pa_db := d; pa_asked := pa_asked s; pa_clock := pa_clock s; pa_reads := pa_reads s |}.

Definition secondsBefore (instant seconds : Z) : Z := instant - seconds * 1000.

(** The owner types left to walk. *)
Fixpoint drop_before (from : string) (ownerTypes : list string) : list string :=
  match ownerTypes with
  | [] => []
  | t :: rest => if String.leb from t then ownerTypes else drop_before from rest
  end.

Definition pendingOwnerTypes (ownerTypes : list string) (from : option string) : list string :=
  match from with
  | None => ownerTypes
  | Some from => match drop_before from ownerTypes with [] => ownerTypes | rest => rest end
  end.

Record SweepClock := { ck_now : Z; ck_settledBefore : Z; ck_quarantinedBefore : Z }.

Record SweepTotals := { to_ownersChecked : Z; to_quarantined : Z; to_deleted : Z; to_revived : Z }.

Definition noTotals : SweepTotals := {| to_ownersChecked := 0; to_quarantined := 0; to_deleted := 0; to_revived := 0 |}.

Definition addTotals (a b : SweepTotals) : SweepTotals :=
  {| to_ownersChecked := to_ownersChecked a + to_ownersChecked b; to_quarantined := to_quarantined a + to_quarantined b;
     to_deleted := to_deleted a + to_deleted b; to_revived := to_revived a + to_revived b |}.

Inductive SweepOutcome := Drained | Stopped | SweepFailed.

Record SweepResult := { sw_totals : SweepTotals; sw_pages : Z; sw_outcome : SweepOutcome; sw_after : option string }.

Inductive PageResult :=
  | PageSwept (totals : SweepTotals) (after : string)
  | PageDrained (totals : SweepTotals)
  | PageUnfinished (totals : SweepTotals)
  | PageFailed (totals : SweepTotals).

Definition page_totals (p : PageResult) : SweepTotals :=
  match p with PageSwept t _ | PageDrained t | PageUnfinished t | PageFailed t => t end.

Section Reconcile.
Context `{CronParser} `{Luxon}.
Variable host : Host.

(** Which owners the resolver finds, and which it does not. *)
Definition askLiveness (resolver : nat) (ownerIds : list string) (s : PassTables)
  : option (list string * list string) * PassTables :=
  (match h_resolver host (pa_asked s) resolver ownerIds with
   | None => None
   | Some existing =>
       Some (List.filter (fun id => bool_decide (id ∈ existing)) ownerIds,
             List.filter (fun id => bool_decide (id ∉ existing)) ownerIds)
   end,
   {| pa_db := pa_db s; pa_asked := S (pa_asked s); pa_clock := pa_clock s; pa_reads := pa_reads s |}).

Definition read_signal (s : PassTables) : bool * PassTables :=
  (h_aborted host (pa_reads s),
   {| pa_db := pa_db s; pa_asked := pa_asked s; pa_clock := pa_clock s; pa_reads := S (pa_reads s) |}).

Definition read_clock (s : PassTables) : Z * PassTables :=
  (h_now host (pa_clock s),
   {| pa_db := pa_db s; pa_asked := pa_asked s; pa_clock := S (pa_clock s); pa_reads := pa_reads s |}).

Definition quarantine (ownerType : string) (ownerIds : list string) (clock : SweepClock) (s : PassTables) : Z * PassTables :=
  match ownerIds with
  | [] => (0, s)
  | _ => let '(n, d) := quarantineByOwnerIds ownerType ownerIds (ck_now clock) (ck_settledBefore clock) (pa_db s) in
         (n, with_db d s)
  end.

Definition deleteExpired (ownerType : string) (ownerIds : list string) (quarantinedBefore : Z) (s : PassTables)
  : Z * PassTables :=
  match ownerIds with
  | [] => (0, s)
  | _ => let '(n, d) := deleteQuarantinedByOwnerIds ownerType ownerIds quarantinedBefore (pa_db s) in (n, with_db d s)
  end.

Definition nextRunAtFor (job : ScheduledJob) (from : Z) (defaultTimezone : string) : option Z :=
  match resolveSchedule job defaultTimezone ≫= fun schedule => computeFirstRunAt schedule from with
  | Ok next => next
  | Err _ => None
  end.

(** The [for] loop over the quarantined jobs: quarantines lifted, and lifts made. *)
Fixpoint lift_jobs (jobs : list ScheduledJob) (from : Z) (defaultTimezone : string) (acc : Z * Z) (s : PassTables)
  : Z * Z * PassTables :=
  match jobs with
  | [] => (acc, s)
  | job :: rest =>
      let '(aborted, s) := read_signal s in
      if aborted then (acc, s)
      else
        let nextRunAt := if j_enabled job then nextRunAtFor job from defaultTimezone else None in
        let '(lifted, js) := liftQuarantine (j_id job) nextRunAt (db_jobs (pa_db s)) in
        lift_jobs rest from defaultTimezone (acc.1 + lifted, acc.2 + 1)
          (with_db {| db_jobs := js; db_tasks := db_tasks (pa_db s) |} s)
  end.

(** [ReviveResult]: quarantines lifted, and whether some were left. *)
Definition revive (ownerType : string) (ownerIds : list string) (options : ReconciliationOptions) (s : PassTables)
  : Z * bool * PassTables :=
  match ownerIds with
  | [] => (0, false, s)
  | _ =>
      match findQuarantinedByOwnerIds ownerType ownerIds (rc_batchSize options) (db_jobs (pa_db s)) with
      | [] => (0, false, s)
      | quarantined =>
          let '(from, s) := read_clock s in
          let '(revived, lifts, s) := lift_jobs quarantined from (rc_defaultTimezone options) (0, 0) s in
          let n := Z.of_nat (length quarantined) in
          (revived, (lifts <? n) || (n =? rc_batchSize options), s)
      end
  end.

(** The end of a page: what expired is deleted, what lives is revived. *)
Definition finish_page (ownerType : string) (ownerIds alive missing : list string) (quarantined : Z) (clock : SweepClock)
    (options : ReconciliationOptions) (s : PassTables) : PageResult * PassTables :=
  let '(deleted, s) := deleteExpired ownerType missing (ck_quarantinedBefore clock) s in
  let '(revived, unfinished, s) := revive ownerType alive options s in
  let totals := {| to_ownersChecked := Z.of_nat (length ownerIds); to_quarantined := quarantined; to_deleted := deleted;
                   to_revived := revived |} in
  (if (unfinished : bool) then PageUnfinished totals
   else if Z.of_nat (length ownerIds) <? rc_batchSize options then PageDrained totals
   else match last ownerIds with Some after => PageSwept totals after | None => PageDrained totals end, s).

Definition sweepPage (ownerType : string) (resolver : nat) (clock : SweepClock) (options : ReconciliationOptions)
    (after : option string) (s : PassTables) : PageResult * PassTables :=
  match findOwnerIds ownerType (ck_settledBefore clock) (rc_batchSize options) after (db_jobs (pa_db s)) with
  | [] => (PageDrained noTotals, s)
  | ownerIds =>
      match askLiveness resolver ownerIds s with
      | (None, s) => (PageFailed noTotals, s)
      | (Some (alive, missing), s) =>
          let '(quarantined, s) := quarantine ownerType missing clock s in
          if 0 <? quarantined then
            match askLiveness resolver missing s with
            | (None, s) => (PageFailed {| to_ownersChecked := Z.of_nat (length ownerIds); to_quarantined := quarantined;
                                          to_deleted := 0; to_revived := 0 |}, s)
            | (Some (alive', missing'), s) =>
                finish_page ownerType ownerIds (alive ++ alive') missing' quarantined clock options s
            end
          else finish_page ownerType ownerIds alive missing quarantined clock options s
      end
  end.

(** The [while] loop, with [room] pages left. *)
Fixpoint sweep_loop (room : nat) (ownerType : string) (resolver : nat) (clock : SweepClock)
    (options : ReconciliationOptions) (totals : SweepTotals) (after : option string) (pages : Z) (s : PassTables)
  : SweepResult * PassTables :=
  let result outcome totals pages after := {| sw_totals := totals; sw_pages := pages; sw_outcome := outcome; sw_after := after |} in
  match room with
  | O => (result Stopped totals pages after, s)
  | S room' =>
      let '(aborted, s) := read_signal s in
      if aborted then (result Stopped totals pages after, s)
      else
        let '(page, s) := sweepPage ownerType resolver clock options after s in
        let totals := addTotals totals (page_totals page) in
        match page with
        | PageFailed _ => (result SweepFailed totals (pages + 1) None, s)
        | PageUnfinished _ => (result Stopped totals (pages + 1) after, s)
        | PageDrained _ => (result Drained totals (pages + 1) None, s)
        | PageSwept _ after' => sweep_loop room' ownerType resolver clock options totals (Some after') (pages + 1) s
        end
  end.

Definition sweepOwnerType (ownerType : string) (resolver : nat) (clock : SweepClock) (options : ReconciliationOptions)
    (budget : Z) (startAfter : option string) (s : PassTables) : SweepResult * PassTables :=
  sweep_loop (Z.to_nat budget) ownerType resolver clock options noTotals startAfter 0 s.

(** The [for] loop over the owner types. *)
Fixpoint sweep_types (owners : OwnerRegistry) (clock : SweepClock) (options : ReconciliationOptions)
    (resumeFrom : option ReconciliationCursor) (types : list string) (budget : Z) (summary : ReconciliationSummary)
    (s : PassTables) : ReconciliationSummary * PassTables :=
  let keep r c := match r with Some x => Some x | None => Some c end in
  match types with
  | [] => (summary, s)
  | ownerType :: rest =>
      let '(aborted, s) := read_signal s in
      if (aborted : bool) || (budget <=? 0) then
        ({| rn_ownersChecked := rn_ownersChecked summary; rn_quarantined := rn_quarantined summary;
            rn_deleted := rn_deleted summary; rn_revived := rn_revived summary;
            rn_skippedOwnerTypes := rn_skippedOwnerTypes summary; rn_drained := false;
            rn_resumeFrom := keep (rn_resumeFrom summary) {| cu_ownerType := ownerType; cu_after := None |} |}, s)
      else
        match map_get ownerType owners with
        | None =>
            sweep_types owners clock options resumeFrom rest budget
              {| rn_ownersChecked := rn_ownersChecked summary; rn_quarantined := rn_quarantined summary;
                 rn_deleted := rn_deleted summary; rn_revived := rn_revived summary;
                 rn_skippedOwnerTypes := rn_skippedOwnerTypes summary ++ [ownerType]; rn_drained := false;
                 rn_resumeFrom := rn_resumeFrom summary |} s
        | Some resolver =>
            let startAfter := match resumeFrom with
                              | Some c => if bool_decide (ownerType = cu_ownerType c) then cu_after c else None
                              | None => None end in
            let '(swept, s) := sweepOwnerType ownerType resolver clock options budget startAfter s in
            let totals := sw_totals swept in
            let summary' :=
              {| rn_ownersChecked := rn_ownersChecked summary + to_ownersChecked totals;
                 rn_quarantined := rn_quarantined summary + to_quarantined totals;
                 rn_deleted := rn_deleted summary + to_deleted totals;
                 rn_revived := rn_revived summary + to_revived totals;
                 rn_skippedOwnerTypes := rn_skippedOwnerTypes summary ++
                   match sw_outcome swept with
                   | SweepFailed => if to_ownersChecked totals =? 0 then [ownerType] else []
                   | _ => [] end;
                 rn_drained := rn_drained summary && match sw_outcome swept with Drained => true | _ => false end;
                 rn_resumeFrom := match sw_outcome swept with
                   | Stopped => keep (rn_resumeFrom summary) {| cu_ownerType := ownerType; cu_after := sw_after swept |}
                   | _ => rn_resumeFrom summary end |} in
            sweep_types owners clock options resumeFrom rest (budget - sw_pages swept) summary' s
        end
  end.

Definition reconcile (owners : OwnerRegistry) (options : ReconciliationOptions) (resumeFrom : option ReconciliationCursor)
    (d : Db) : ReconciliationSummary * Db :=
  let '(at_, s) := read_clock {| pa_db := d; pa_asked := 0; pa_clock := 0; pa_reads := 0 |} in
  let clock := {| ck_now := at_; ck_settledBefore := secondsBefore at_ (rc_settleSeconds options);
                  ck_quarantinedBefore := secondsBefore at_ (rc_quarantineGraceSeconds options) |} in
  let types := pendingOwnerTypes (findOwnerTypes (db_jobs d)) (cu_ownerType <$> resumeFrom) in
  let '(summary, s) := sweep_types owners clock options resumeFrom types (rc_maxPagesPerPass options)
    {| rn_ownersChecked := 0; rn_quarantined := 0; rn_deleted := 0; rn_revived := 0; rn_skippedOwnerTypes := [];
       rn_drained := true; rn_resumeFrom := None |} s in
  (summary, pa_db s).

End Reconcile.

(** ** What a pass may do to a job *)

Section Safety.
Context `{CronParser} `{Luxon}.
Variables (host : Host) (owners : OwnerRegistry) (clock : SweepClock) (d0 : Db).
Hypothesis grace : ck_quarantinedBefore clock < ck_now clock.

(** The owner type's own resolver was asked of this owner, and did not find it. *)
Definition reported_missing (ownerType ownerId : string) : Prop :=
  exists k r ids existing, map_get ownerType owners = Some r /\ h_resolver host k r ids = Some existing /\
    ownerId ∈ ids /\ ownerId ∉ existing.

(** A job of [d0] and what is left of it. *)
Definition job_fate (j0 : ScheduledJob) (j : option ScheduledJob) : Prop :=
  match j with
  | None => reported_missing (j_ownerType j0) (j_ownerId j0) /\
            exists t, j_orphanedAt j0 = Some t /\ t <= ck_quarantinedBefore clock
  | Some j =>
      j = j0 \/
      exists a n, j = update_job (set_quarantine a n) j0 /\
        (a = Some (ck_now clock) /\ reported_missing (j_ownerType j0) (j_ownerId j0) /\
           j_createdAt j0 <= ck_settledBefore clock \/
         a = None /\ (j_orphanedAt j0 <> None \/ reported_missing (j_ownerType j0) (j_ownerId j0)))
  end.

Definition fates (d : Db) : Prop :=
  JobsOk (db_jobs d) /\ (forall id j0, jobs (db_jobs d0) !! id = Some j0 -> job_fate j0 (jobs (db_jobs d) !! id)) /\
  (forall id, jobs (db_jobs d0) !! id = None -> jobs (db_jobs d) !! id = None).

Lemma update_twice a n b m j :
  exists n', update_job (set_quarantine a n) (update_job (set_quarantine b m) j) = update_job (set_quarantine a n') j.
Proof. exists (match n with Some x => Some x | None => m end). by destruct n, m. Qed.

(** A change of rows that the fates of jobs allow. *)
Lemma fates_change (p : ScheduledJob -> bool) (u : JobUpdate) (d : Db) (t : TaskTable) :
  fates d ->
  (forall j0 j, job_fate j0 (Some j) -> p j = true -> job_fate j0 (Some (update_job u j))) ->
  fates {| db_jobs := change_jobs p (update_job u) (db_jobs d); db_tasks := t |}.
Proof.
  intros (HJ & Hrow & Hnone) Hp. split_and!; simpl.
  - by apply change_jobs_ok.
  - intros id j0 Hj0. specialize (Hrow id j0 Hj0). rewrite lookup_fmap. destruct (jobs (db_jobs d) !! id) as [j|]; [|done].
    simpl. destruct (p j) eqn:Hpj; [by apply Hp|done].
  - intros id Hid. by rewrite lookup_fmap, (Hnone id Hid).
Qed.

Lemma fate_owner j0 j : job_fate j0 (Some j) ->
  j_ownerType j = j_ownerType j0 /\ j_ownerId j = j_ownerId j0 /\ j_createdAt j = j_createdAt j0.
Proof. by intros [->|(a & n & -> & _)]. Qed.

Lemma of_owners_spec ownerType ids j : of_owners ownerType ids j = true <-> j_ownerType j = ownerType /\ j_ownerId j ∈ ids.
Proof. unfold of_owners. by rewrite andb_true_iff, !bool_decide_eq_true. Qed.

Lemma quarantine_fates ownerType ids d :
  fates d -> (forall o, o ∈ ids -> reported_missing ownerType o) ->
  fates (quarantineByOwnerIds ownerType ids (ck_now clock) (ck_settledBefore clock) d).2.
Proof.
  intros Hf Hm. unfold quarantineByOwnerIds. destruct ids as [|i ids]; [done|]. simpl. apply fates_change; [done|].
  intros j0 j Hfate Hp. destruct (fate_owner j0 j Hfate) as (Ht & Hi & Hc).
  apply andb_true_iff in Hp as [Hp Hs]. apply andb_true_iff in Hp as [Hown _]. apply of_owners_spec in Hown as [Hty Hin].
  apply Z.leb_le in Hs. assert (Hmiss : reported_missing (j_ownerType j0) (j_ownerId j0)) by (rewrite <-Ht, <-Hi, Hty; by apply Hm).
  right. destruct Hfate as [->|(a & n & -> & _)].
  - exists (Some (ck_now clock)), (Some None). split; [done|]. left. split_and!; [done|done|lia].
  - destruct (update_twice (Some (ck_now clock)) (Some None) a n j0) as [n' Hu]. exists (Some (ck_now clock)), n'.
    split; [done|]. left. split_and!; [done|done|lia].
Qed.

Lemma delete_fates ownerType ids d :
  fates d -> (forall o, o ∈ ids -> reported_missing ownerType o) ->
  fates (deleteQuarantinedByOwnerIds ownerType ids (ck_quarantinedBefore clock) d).2.
Proof.
  intros Hf Hm. unfold deleteQuarantinedByOwnerIds. destruct ids as [|i ids]; [done|]. destruct Hf as (HJ & Hrow & Hnone).
  split_and!; simpl.
  - by apply delete_jobs_ok.
  - intros id j0 Hj0. specialize (Hrow id j0 Hj0). unfold delete_jobs. simpl.
    destruct (jobs (db_jobs d) !! id) as [j|] eqn:Hj.
    + destruct (of_owners ownerType (i :: ids) j && upto_opt (j_orphanedAt j) (ck_quarantinedBefore clock)) eqn:Hp.
      * assert (Hgone : filter (fun x : Z * ScheduledJob =>
            of_owners ownerType (i :: ids) x.2 && upto_opt (j_orphanedAt x.2) (ck_quarantinedBefore clock) = false)
            (jobs (db_jobs d)) !! id = None).
        { apply map_lookup_filter_None. right. intros j' Hj'. rewrite Hj in Hj'. injection Hj' as <-. simpl. congruence. }
        rewrite Hgone. destruct (fate_owner j0 j Hrow) as (Ht & Hi & _). apply andb_true_iff in Hp as [Hown Hup].
        apply of_owners_spec in Hown as [Hty Hin]. simpl. split; [rewrite <-Ht, <-Hi, Hty; by apply Hm|].
        destruct Hrow as [->|(a & n & -> & Hst)].
        -- destruct (j_orphanedAt j0) as [t|]; [|done]. exists t. split; [done|]. by apply Z.leb_le.
        -- simpl in Hup. destruct Hst as [(-> & _)|(-> & _)]; simpl in Hup; [apply Z.leb_le in Hup; lia|done].
      * assert (Hkept : filter (fun x : Z * ScheduledJob =>
            of_owners ownerType (i :: ids) x.2 && upto_opt (j_orphanedAt x.2) (ck_quarantinedBefore clock) = false)
            (jobs (db_jobs d)) !! id = Some j) by (apply map_lookup_filter_Some; by split).
        by rewrite Hkept.
    + rewrite (proj2 (map_lookup_filter_None _ _ _)); [done|by left].
  - intros id Hid. apply map_lookup_filter_None. left. by apply Hnone.
Qed.

Lemma lift_fates id next d t :
  fates d -> fates {| db_jobs := (liftQuarantine id next (db_jobs d)).2; db_tasks := t |}.
Proof.
  intros Hf. unfold liftQuarantine. apply fates_change; [done|]. intros j0 j Hfate Hp.
  apply andb_true_iff in Hp as [_ Hq]. apply bool_decide_eq_true in Hq. right. destruct Hfate as [->|(a & n & -> & Hst)].
  - exists None, (Some next). split; [done|]. right. auto.
  - destruct (update_twice None (Some next) a n j0) as [n' Hu]. exists None, n'. split; [done|]. right. split; [done|].
    destruct Hst as [(_ & Hm & _)|(-> & _)]; [by right|done].
Qed.

(** ** Along the pass *)

Definition pass_fates (s : PassTables) : Prop := fates (pa_db s).

Lemma lift_jobs_fates js from tz acc s : pass_fates s -> pass_fates (lift_jobs host js from tz acc s).2.
Proof.
  revert acc s. induction js as [|job js IH]; intros acc s Hs; simpl; [done|]. destruct (h_aborted host (pa_reads s)); [done|].
  apply IH. by apply lift_fates.
Qed.

Lemma finish_page_fates ownerType ids alive missing q options s :
  pass_fates s -> (forall o, o ∈ missing -> reported_missing ownerType o) ->
  pass_fates (finish_page host ownerType ids alive missing q clock options s).2.
Proof.
  intros Hs Hm. unfold finish_page.
  assert (Hdel : pass_fates (deleteExpired ownerType missing (ck_quarantinedBefore clock) s).2).
  { pose proof (delete_fates ownerType missing (pa_db s) Hs Hm) as Hd. unfold deleteExpired. destruct missing; [done|].
    by destruct (deleteQuarantinedByOwnerIds _ _ _ _). }
  destruct (deleteExpired _ _ _ _) as [deleted s1]. simpl in Hdel. unfold revive.
  destruct alive as [|a alive]; [by repeat case_match|].
  destruct (findQuarantinedByOwnerIds _ _ _ _) as [|qj qs]; [by repeat case_match|].
  unfold read_clock. set (s2 := {| pa_db := pa_db s1 |}).
  pose proof (lift_jobs_fates (qj :: qs) (h_now host (pa_clock s1)) (rc_defaultTimezone options) (0, 0) s2 Hdel) as Hl.
  destruct (lift_jobs _ _ _ _ _ _) as [[revived lifts] s3]. done.
Qed.

Lemma askLiveness_answer r ids s alive missing s' :
  askLiveness host r ids s = (Some (alive, missing), s') ->
  pa_db s' = pa_db s /\ exists existing, h_resolver host (pa_asked s) r ids = Some existing /\
    missing = List.filter (fun id => bool_decide (id ∉ existing)) ids.
Proof.
  unfold askLiveness. destruct (h_resolver host (pa_asked s) r ids) as [existing|]; [|done]. intros [= _ <- <-]. simpl.
  split; [done|]. by exists existing.
Qed.

Lemma askLiveness_missing ownerType r ids s alive missing s' :
  map_get ownerType owners = Some r -> askLiveness host r ids s = (Some (alive, missing), s') ->
  forall o, o ∈ missing -> reported_missing ownerType o.
Proof.
  intros Hr Ha o Ho. destruct (askLiveness_answer _ _ _ _ _ _ Ha) as (_ & existing & Hans & ->).
  apply (elem_of_arr_filter (fun id => bool_decide (id ∉ existing))) in Ho as [Hno Hin].
  exists (pa_asked s), r, ids, existing. split_and!; [done|done|done|]. by apply bool_decide_eq_true in Hno.
Qed.

Lemma askLiveness_db r ids s : pa_db (askLiveness host r ids s).2 = pa_db s.
Proof. done. Qed.

Lemma sweepPage_fates ownerType r options after s :
  map_get ownerType owners = Some r -> pass_fates s ->
  pass_fates (sweepPage host ownerType r clock options after s).2.
Proof.
  intros Hr Hs. unfold sweepPage. destruct (findOwnerIds _ _ _ _ _) as [|o ids]; [done|].
  destruct (askLiveness host r (o :: ids) s) as [[[alive missing]|] s1] eqn:Ha;
    [|pose proof (askLiveness_db r (o :: ids) s) as Hd; rewrite Ha in Hd; simpl in Hd; unfold pass_fates; simpl; by rewrite Hd].
  pose proof (askLiveness_missing ownerType r _ _ _ _ _ Hr Ha) as Hm. apply askLiveness_answer in Ha as (Hd & _).
  assert (Hq : pass_fates (quarantine ownerType missing clock s1).2).
  { assert (Hs1 : fates (pa_db s1)) by (by rewrite Hd). pose proof (quarantine_fates ownerType missing (pa_db s1) Hs1 Hm) as Hf.
    unfold quarantine. destruct missing; [done|]. by destruct (quarantineByOwnerIds _ _ _ _ _). }
  destruct (quarantine _ _ _ _) as [q s2]. simpl in Hq. destruct (0 <? q); [|by apply finish_page_fates].
  destruct (askLiveness host r missing s2) as [[[alive' missing']|] s3] eqn:Ha;
    [|pose proof (askLiveness_db r missing s2) as Hd'; rewrite Ha in Hd'; simpl in Hd'; unfold pass_fates; simpl; by rewrite Hd'].
  pose proof (askLiveness_missing ownerType r _ _ _ _ _ Hr Ha) as Hm'. apply askLiveness_answer in Ha as (Hd' & _).
  apply finish_page_fates; [|done]. unfold pass_fates. by rewrite Hd'.
Qed.

Lemma sweep_loop_fates room ownerType r options totals after pages s :
  map_get ownerType owners = Some r -> pass_fates s ->
  pass_fates (sweep_loop host room ownerType r clock options totals after pages s).2.
Proof.
  intros Hr. revert totals after pages s. induction room as [|room IH]; intros totals after pages s Hs; simpl; [done|].
  destruct (h_aborted host (pa_reads s)); [done|]. set (s1 := {| pa_db := pa_db s |}).
  pose proof (sweepPage_fates ownerType r options after s1 Hr Hs) as Hp.
  destruct (sweepPage _ _ _ _ _ _ _) as [[] s2]; try done. by apply IH.
Qed.

Lemma sweep_types_fates options resumeFrom types budget summary s :
  pass_fates s -> pass_fates (sweep_types host owners clock options resumeFrom types budget summary s).2.
Proof.
  revert budget summary s. induction types as [|ty types IH]; intros budget summary s Hs; simpl; [done|].
  destruct (h_aborted host (pa_reads s)); simpl; [done|]. destruct (budget <=? 0); [done|].
  destruct (map_get ty owners) as [r|] eqn:Hr; [|by apply IH]. unfold sweepOwnerType. set (s1 := {| pa_db := pa_db s |}).
  pose proof (sweep_loop_fates (Z.to_nat budget) ty r options noTotals
    (match resumeFrom with Some c => if bool_decide (ty = cu_ownerType c) then cu_after c else None | None => None end) 0 s1 Hr Hs) as Hp.
  destruct (sweep_loop _ _ _ _ _ _ _ _ _ _) as [swept s2]. by apply IH.
Qed.

End Safety.

(** ** The claims *)

(** C17. A reconciliation pass never deletes on first sight: a job it deletes had been
    quarantined for the whole grace before the pass, and its owner's own resolver reported
    the owner gone during the pass; a job it quarantines is older than the settle period
    and its owner was reported gone; any other job is left as it was, but for a quarantine
    lifted; and nothing is added. *)
Theorem reconcile_deletes_only_orphans `{CronParser} `{Luxon} (host : Host) (owners : OwnerRegistry)
    (options : ReconciliationOptions) (resumeFrom : option ReconciliationCursor) (d : Db) :
  JobsOk (db_jobs d) -> 0 < rc_quarantineGraceSeconds options ->
  let d' := (reconcile host owners options resumeFrom d).2 in
  let now := h_now host 0 in
  (forall id, jobs (db_jobs d) !! id = None -> jobs (db_jobs d') !! id = None) /\
  forall id j, jobs (db_jobs d) !! id = Some j ->
    match jobs (db_jobs d') !! id with
    | None => reported_missing host owners (j_ownerType j) (j_ownerId j) /\
              exists t, j_orphanedAt j = Some t /\ t <= now - rc_quarantineGraceSeconds options * 1000
    | Some j' =>
        j' = j \/
        exists a n, j' = update_job (set_quarantine a n) j /\
          (a = Some now /\ reported_missing host owners (j_ownerType j) (j_ownerId j) /\
             j_createdAt j <= now - rc_settleSeconds options * 1000 \/
           a = None /\ (j_orphanedAt j <> None \/ reported_missing host owners (j_ownerType j) (j_ownerId j)))
    end.
Proof.
  intros HJ Hg d' now. unfold d', reconcile, read_clock. simpl. fold now.
  set (clock := {| ck_now := now |}). set (s := {| pa_db := d; pa_asked := 0 |}).
  assert (Hgrace : ck_quarantinedBefore clock < ck_now clock) by (simpl; unfold secondsBefore; lia).
  assert (Hstart : pass_fates host owners clock d s).
  { split_and!; [done|intros id j0 Hj0; simpl; rewrite Hj0; by left|done]. }
  pose proof (sweep_types_fates host owners clock d Hgrace options resumeFrom
    (pendingOwnerTypes (findOwnerTypes (db_jobs d)) (cu_ownerType <$> resumeFrom)) (rc_maxPagesPerPass options)
    {| rn_ownersChecked := 0; rn_quarantined := 0; rn_deleted := 0; rn_revived := 0; rn_skippedOwnerTypes := [];
       rn_drained := true; rn_resumeFrom := None |} s Hstart) as (_ & Hrow & Hnone).
  destruct (sweep_types _ _ _ _ _ _ _ _ _) as [summary s']. simpl in *. split; [done|exact Hrow].
Qed.

(** Two workflows are gone: the job of the one is new to the pass, the job of the other was
    quarantined two days before it. *)
Definition gone_host : Host := {| h_resolver _ _ _ := Some []; h_now _ := 300000000; h_aborted _ := false |}.

Definition gone_jobs : Db :=
  {| db_jobs := {| jobs := {[ 1 := Minutes.job Coalesce 60000;
                              2 := update_job (set_quarantine (Some 120000) (Some None))
                                     (update_job (set_quarantine None None)
                                        {| j_id := 2; j_name := "tock"; j_ownerType := "workflow"; j_ownerId := "w2";
                                           j_ownerMemberId := None; j_taskType := "tick"; j_payload := EngineTypes.JNull;
                                           j_kind := Interval; j_cronExpression := None; j_timezone := None;
                                           j_intervalSeconds := Some 60; j_fireAt := None; j_recurrenceUnit := None;
                                           j_recurrenceSize := None; j_enabled := true; j_nextRunAt := None;
                                           j_lastFiredAt := None; j_maxAttempts := 3; j_misfirePolicy := Coalesce;
                                           j_misfireGraceSeconds := 60; j_orphanedAt := None; j_createdAt := 0 |}) ]};
                   nextJobId := 3; jobs_dialect := Postgres |};
     db_tasks := empty_tasks Postgres |}.

Lemma gone_jobs_ok : JobsOk (db_jobs gone_jobs).
Proof.
  split; simpl.
  - intros id j. rewrite lookup_insert_Some. intros [[<- <-]|[_ Hj]]; [done|].
    apply lookup_singleton_Some in Hj as [<- <-]. done.
  - intros i k j j'. rewrite !lookup_insert_Some, !lookup_singleton_Some.
    intros [[<- <-]|(_ & <- & <-)] [[<- <-]|(_ & <- & <-)]; done.
Qed.

Import Minutes.

Definition workflows : OwnerRegistry := [("workflow"%string, O)].

Definition gone_after : Db := (reconcile gone_host workflows DEFAULT_RECONCILIATION_OPTIONS None gone_jobs).2.

Lemma reconcile_deletes_only_orphans_witness :
  jobs (db_jobs gone_after) !! 2 = None /\ (jobs (db_jobs gone_after) !! 1 ≫= j_orphanedAt) = Some 300000000 /\
  reported_missing gone_host workflows "workflow" "w2".
Proof.
  assert (Hgone : jobs (db_jobs gone_after) !! 2 = None) by (vm_compute; reflexivity).
  split_and!; [exact Hgone|vm_compute; reflexivity|].
  destruct (reconcile_deletes_only_orphans gone_host workflows DEFAULT_RECONCILIATION_OPTIONS None gone_jobs gone_jobs_ok
    ltac:(vm_compute; reflexivity)) as [_ Hrow].
  specialize (Hrow 2 _ eq_refl). fold gone_after in Hrow. rewrite Hgone in Hrow. exact (proj1 Hrow).
Defined.
