(* ===== verification/TaskBroker.v ===== *)
(** * Task broker: data and operations

    [packages/cli/src/task-runners/task-broker/task-broker.service.ts]: the broker between
    requesters (which want code run) and runners (which offer to run it).  Runners post
    offers, requesters post requests, the broker matches them, asks the runner and then the
    requester to confirm, and passes messages along while the task lasts.

    This file: the state, and every piece of code that runs without yielding.  What an
    [await] leaves suspended is a [Thread] of the host; [TaskBrokerRun] resumes it.

    The host holds what JavaScript keeps outside the broker's own fields: request objects
    (shared by the pending list and the acceptance that uses one), armed timers, promises,
    suspended calls, the clocks, and the log of what was sent.  A message callback is called
    as the code calls it, with what was sent recorded; it does not call the broker back
    before it returns.  Logging is left out. *)

From stdpp Require Import base gmap strings pretty list fin_maps.
From Stdlib Require Import ZArith Lia.
From S2P Require Import Prelude.
From S2P Require Import JsCollections.
From S2P Require Import EngineTypes.

#[local] Open Scope Z_scope.

(** ** Configuration *)

Inductive TaskRunnerMode := Internal | External.

(** [TaskRunnersConfig], times in seconds. *)
Record TaskRunnersConfig := {
  taskTimeout : Z;
  taskRequestTimeout : Z;
  taskAcceptTimeout : Z;
  mode : TaskRunnerMode;
}.

Definition MAX_REQUEST_TIMEOUT_REFRESHES : Z := 3.
Definition MAX_CONSECUTIVE_ACCEPT_TIMEOUTS : Z := 3.
Definition MIN_SILENCE_DURATION_MS : Z := 2000.
Definition toMilliseconds : Z := 1000.

(** ** Errors

    The broker's own classes, n8n's two, and what a callback threw. *)
Inductive BrokerError :=
  | TaskRejectError (reason : string)
  | TaskDeferredError
  | TaskRunnerAcceptTimeoutError (taskId runnerId : string)
  | TaskRequesterAcceptTimeoutError (taskId requesterId : string)
  | TaskRunnerUnreachableError (taskId runnerId : string)
  | TaskRunnerExecutionTimeoutError (taskTimeout : Z) (mode : TaskRunnerMode)
  | TaskRunnerShutdownTimeoutError
  | UnexpectedError (message : string)
  | UserError (message : string)
  | HostError (message : string).

(** ** Messages *)

Inductive ToRunner :=
  | RunnerRegistered
  | TaskOfferAccept (taskId offerId : string)
  | TaskCancel (taskId reason : string)
  | TaskSettings (taskId : string) (settings : JsonValue)
  | RpcResponse (taskId callId status : string) (data : JsonValue)
  | TaskDataResponse (taskId requestId : string) (data : JsonValue)
  | NodeTypes (taskId requestId : string) (nodeTypes : JsonValue).

(** A task's error: one of the broker's, or what the runner reported. *)
Inductive TaskFailure := BrokerFailure (e : BrokerError) | RunnerFailure (error : JsonValue).

Inductive ExpiryReason := ByTimeout | ByDraining.

Inductive ToRequester :=
  | TaskReady (requestId taskId : string)
  | TaskDone (taskId : string) (data : JsonValue)
  | TaskError (taskId : string) (error : TaskFailure)
  | RequestExpired (requestId : string) (reason : ExpiryReason)
  | TaskDataRequest (taskId requestId : string) (requestParams : JsonValue)
  | NodeTypesRequest (taskId requestId : string) (requestParams : JsonValue)
  | Rpc (taskId callId name : string) (params : JsonValue).

Inductive FromRunner :=
  | RunnerInfo
  | TaskAccepted (taskId : string)
  | TaskRejected (taskId reason : string)
  | TaskDeferred (taskId : string)
  | RunnerOffer (offerId taskType : string) (validFor : Z)
  | RunnerTaskDone (taskId : string) (data : JsonValue)
  | RunnerTaskError (taskId : string) (error : JsonValue)
  | RunnerDataRequest (taskId requestId : string) (requestParams : JsonValue)
  | RunnerNodeTypesRequest (taskId requestId : string) (requestParams : JsonValue)
  | RunnerRpc (taskId callId name : string) (params : JsonValue).

Inductive FromRequester :=
  | RequesterSettings (taskId : string) (settings : JsonValue)
  | RequesterCancel (taskId reason : string)
  | RequesterRequest (requestId taskType : string)
  | RequesterDataResponse (taskId requestId : string) (data : JsonValue)
  | RequesterNodeTypesResponse (taskId requestId : string) (nodeTypes : JsonValue)
  | RequesterRpcResponse (taskId callId status : string) (data : JsonValue).

(** ** The broker's own data *)

Record TaskRunner := { rn_id : string; rn_name : option string; rn_taskTypes : list string; rn_lastSeen : Z }.

(** A registration: the runner, and what its reachability check answers now. *)
Record KnownRunner := { kr_runner : TaskRunner; kr_reachable : bool }.

Record Task := {
  tk_id : string;
  tk_runnerId : string;
  tk_requesterId : string;
  tk_taskType : string;
  tk_timeout : option nat;
  tk_timesOutAt : option Z;
}.

Record TaskOffer := {
  of_offerId : string;
  of_runnerId : string;
  of_taskType : string;
  of_validFor : Z;
  of_validUntil : Z;
}.

Record TaskRequest := {
  rq_requestId : string;
  rq_requesterId : string;
  rq_taskType : string;
  rq_timeout : option nat;
  rq_acceptInProgress : bool;
  rq_timeoutRefreshes : Z;
}.

(** ** What the host holds *)

(** What a timer's callback does: the closures of the four [setTimeout] calls. *)
Inductive TimerCall :=
  | RequestTimeout (requestId : string)
  | RunnerAcceptTimeout (promise : nat) (taskId runnerId : string)
  | RequesterAcceptTimeout (promise : nat) (taskId requesterId : string)
  | TaskTimeout (taskId : string).

Record Timer := { tm_call : TimerCall; tm_due : Z }.

(** An acceptance's promise; the requester's resolves with settings. *)
Inductive Promise := Pending | Resolved (settings : JsonValue) | Rejected (e : BrokerError).

(** Where a call of [acceptOffer] is suspended. *)
Inductive Stage :=
  (* [await this.messageRunner(..)] of the offer's acceptance *)
  | SendingAccept
  (* [await acceptPromise], the runner's *)
  | AwaitingRunner
  (* the cancellation after the runner's time ran out *)
  | CancelingLate
  (* the cancellation after the request expired meanwhile *)
  | CancelingExpired
  (* [await this.messageRequester(..)] *)
  | SendingReady
  (* [await acceptPromise], the requester's *)
  | AwaitingRequester
  (* [sendTaskSettings]: [await this.getRunnerOrFailTask(..)], the runner found *)
  | RunnerFound (runnerId : string) (settings : JsonValue)
  (* the same, while [failTask] sends the error it is to throw *)
  | RunnerMissing (e : BrokerError)
  (* [await this.messageRunner(..)] of the settings *)
  | SendingSettings
  (* [await this.cancelTask(..)] in the second [catch] *)
  | Canceling.

Record Flow := {
  fl_taskId : string;
  fl_offer : TaskOffer;
  fl_request : nat;
  fl_promise : nat;
  fl_timer : nat;
  fl_stage : Stage;
}.

Inductive Thread :=
  | Accepting (f : Flow)
  (* [handleTaskTimeout], its cancellation being sent *)
  | TimingOut (taskId : string) (e : BrokerError)
  (* a requester's response, its task's runner looked up *)
  | Responding (runnerId : string) (m : ToRunner).

(** The log: messages, with whether the addressee was there to get it, and lifecycle
    events. *)
Inductive Sent :=
  | SentRunner (runnerId : string) (m : ToRunner) (known : bool)
  | SentRequester (requesterId : string) (m : ToRequester) (known : bool)
  | TimedOutDuringTask (runnerId : string)
  | Unresponsive (runnerId : string).

Record Host := {
  requests : gmap nat TaskRequest;
  timers : gmap nat Timer;
  promises : gmap nat Promise;
  threads : gmap nat Thread;
  sent : list Sent;
  (* [Date.now()], and [process.hrtime.bigint()] *)
  now : Z;
  mono : Z;
  (* the next unused reference, and how many task ids were made *)
  fresh : nat;
  made : nat;
}.

Definition set_requests (f : gmap nat TaskRequest -> gmap nat TaskRequest) (h : Host) : Host :=
  Build_Host (f (requests h)) (timers h) (promises h) (threads h) (sent h) (now h) (mono h) (fresh h) (made h).
Definition set_timers (f : gmap nat Timer -> gmap nat Timer) (h : Host) : Host :=
  Build_Host (requests h) (f (timers h)) (promises h) (threads h) (sent h) (now h) (mono h) (fresh h) (made h).
Definition set_promises (f : gmap nat Promise -> gmap nat Promise) (h : Host) : Host :=
  Build_Host (requests h) (timers h) (f (promises h)) (threads h) (sent h) (now h) (mono h) (fresh h) (made h).
Definition set_threads (f : gmap nat Thread -> gmap nat Thread) (h : Host) : Host :=
  Build_Host (requests h) (timers h) (promises h) (f (threads h)) (sent h) (now h) (mono h) (fresh h) (made h).
Definition add_sent (m : Sent) (h : Host) : Host :=
  Build_Host (requests h) (timers h) (promises h) (threads h) (sent h ++ [m]) (now h) (mono h) (fresh h) (made h).
Definition pass_time (ms ns : Z) (h : Host) : Host :=
  Build_Host (requests h) (timers h) (promises h) (threads h) (sent h) (now h + ms) (mono h + ns) (fresh h) (made h).
Definition next_ref (h : Host) : Host :=
  Build_Host (requests h) (timers h) (promises h) (threads h) (sent h) (now h) (mono h) (S (fresh h)) (made h).
Definition next_id (h : Host) : Host :=
  Build_Host (requests h) (timers h) (promises h) (threads h) (sent h) (now h) (mono h) (fresh h) (S (made h)).

(** An entry of [runnerAcceptRejects]: both its callbacks settle the promise. *)
Record RunnerAccept := { ra_promise : nat; ra_runnerId : string }.

Record Strikes := { st_count : Z; st_lastTimeoutAt : Z }.

Record Broker := {
  knownRunners : list (string * KnownRunner);
  requesters : list string;
  tasks : list (string * Task);
  isDraining : bool;
  shutdownDeadline : option Z;
  runnerAcceptRejects : list (string * RunnerAccept);
  requesterAcceptRejects : list (string * nat);
  consecutiveAcceptTimeouts : list (string * Strikes);
  silentRunnersSince : list (string * Z);
  pendingTaskOffers : list TaskOffer;
  pendingTaskRequests : list nat;
  mismatchWarned : list string;
  host : Host;
}.

(** What [settleTasks] works on is grouped, so that a change of one part keeps the rest. *)
Definition with_host (f : Host -> Host) (b : Broker) : Broker :=
  Build_Broker (knownRunners b) (requesters b) (tasks b) (isDraining b) (shutdownDeadline b) (runnerAcceptRejects b)
    (requesterAcceptRejects b) (consecutiveAcceptTimeouts b) (silentRunnersSince b) (pendingTaskOffers b)
    (pendingTaskRequests b) (mismatchWarned b) (f (host b)).
Definition with_runners (f : list (string * KnownRunner) -> list (string * KnownRunner)) (b : Broker) : Broker :=
  Build_Broker (f (knownRunners b)) (requesters b) (tasks b) (isDraining b) (shutdownDeadline b) (runnerAcceptRejects b)
    (requesterAcceptRejects b) (consecutiveAcceptTimeouts b) (silentRunnersSince b) (pendingTaskOffers b)
    (pendingTaskRequests b) (mismatchWarned b) (host b).
Definition with_requesters (f : list string -> list string) (b : Broker) : Broker :=
  Build_Broker (knownRunners b) (f (requesters b)) (tasks b) (isDraining b) (shutdownDeadline b) (runnerAcceptRejects b)
    (requesterAcceptRejects b) (consecutiveAcceptTimeouts b) (silentRunnersSince b) (pendingTaskOffers b)
    (pendingTaskRequests b) (mismatchWarned b) (host b).
Definition with_tasks (f : list (string * Task) -> list (string * Task)) (b : Broker) : Broker :=
  Build_Broker (knownRunners b) (requesters b) (f (tasks b)) (isDraining b) (shutdownDeadline b) (runnerAcceptRejects b)
    (requesterAcceptRejects b) (consecutiveAcceptTimeouts b) (silentRunnersSince b) (pendingTaskOffers b)
    (pendingTaskRequests b) (mismatchWarned b) (host b).
Definition with_draining (d : bool) (b : Broker) : Broker :=
  Build_Broker (knownRunners b) (requesters b) (tasks b) d (shutdownDeadline b) (runnerAcceptRejects b)
    (requesterAcceptRejects b) (consecutiveAcceptTimeouts b) (silentRunnersSince b) (pendingTaskOffers b)
    (pendingTaskRequests b) (mismatchWarned b) (host b).
Definition with_deadline (d : option Z) (b : Broker) : Broker :=
  Build_Broker (knownRunners b) (requesters b) (tasks b) (isDraining b) d (runnerAcceptRejects b)
    (requesterAcceptRejects b) (consecutiveAcceptTimeouts b) (silentRunnersSince b) (pendingTaskOffers b)
    (pendingTaskRequests b) (mismatchWarned b) (host b).
Definition with_accepts (f : list (string * RunnerAccept) -> list (string * RunnerAccept)) (b : Broker) : Broker :=
  Build_Broker (knownRunners b) (requesters b) (tasks b) (isDraining b) (shutdownDeadline b) (f (runnerAcceptRejects b))
    (requesterAcceptRejects b) (consecutiveAcceptTimeouts b) (silentRunnersSince b) (pendingTaskOffers b)
    (pendingTaskRequests b) (mismatchWarned b) (host b).
Definition with_confirms (f : list (string * nat) -> list (string * nat)) (b : Broker) : Broker :=
  Build_Broker (knownRunners b) (requesters b) (tasks b) (isDraining b) (shutdownDeadline b) (runnerAcceptRejects b)
    (f (requesterAcceptRejects b)) (consecutiveAcceptTimeouts b) (silentRunnersSince b) (pendingTaskOffers b)
    (pendingTaskRequests b) (mismatchWarned b) (host b).
Definition with_strikes (f : list (string * Strikes) -> list (string * Strikes)) (b : Broker) : Broker :=
  Build_Broker (knownRunners b) (requesters b) (tasks b) (isDraining b) (shutdownDeadline b) (runnerAcceptRejects b)
    (requesterAcceptRejects b) (f (consecutiveAcceptTimeouts b)) (silentRunnersSince b) (pendingTaskOffers b)
    (pendingTaskRequests b) (mismatchWarned b) (host b).
Definition with_silent (f : list (string * Z) -> list (string * Z)) (b : Broker) : Broker :=
  Build_Broker (knownRunners b) (requesters b) (tasks b) (isDraining b) (shutdownDeadline b) (runnerAcceptRejects b)
    (requesterAcceptRejects b) (consecutiveAcceptTimeouts b) (f (silentRunnersSince b)) (pendingTaskOffers b)
    (pendingTaskRequests b) (mismatchWarned b) (host b).
Definition with_offers (f : list TaskOffer -> list TaskOffer) (b : Broker) : Broker :=
  Build_Broker (knownRunners b) (requesters b) (tasks b) (isDraining b) (shutdownDeadline b) (runnerAcceptRejects b)
    (requesterAcceptRejects b) (consecutiveAcceptTimeouts b) (silentRunnersSince b) (f (pendingTaskOffers b))
    (pendingTaskRequests b) (mismatchWarned b) (host b).
Definition with_pending (f : list nat -> list nat) (b : Broker) : Broker :=
  Build_Broker (knownRunners b) (requesters b) (tasks b) (isDraining b) (shutdownDeadline b) (runnerAcceptRejects b)
    (requesterAcceptRejects b) (consecutiveAcceptTimeouts b) (silentRunnersSince b) (pendingTaskOffers b)
    (f (pendingTaskRequests b)) (mismatchWarned b) (host b).
Definition with_warned (f : list string -> list string) (b : Broker) : Broker :=
  Build_Broker (knownRunners b) (requesters b) (tasks b) (isDraining b) (shutdownDeadline b) (runnerAcceptRejects b)
    (requesterAcceptRejects b) (consecutiveAcceptTimeouts b) (silentRunnersSince b) (pendingTaskOffers b)
    (pendingTaskRequests b) (f (mismatchWarned b)) (host b).

Definition fresh_host (now mono : Z) : Host := Build_Host ∅ ∅ ∅ ∅ [] now mono O O.

Definition fresh_broker (now mono : Z) : Broker :=
  Build_Broker [] [] [] false None [] [] [] [] [] [] [] (fresh_host now mono).

(** The constructor's checks. *)
Definition new_broker (config : TaskRunnersConfig) (now mono : Z) : Prelude.result BrokerError Broker :=
  if taskTimeout config <=? 0 then Err (UserError "Task timeout must be greater than 0")
  else if taskRequestTimeout config <=? 0 then Err (UserError "Task request timeout must be greater than 0")
  else if taskAcceptTimeout config <=? 0 then Err (UserError "Task accept timeout must be greater than 0")
  else Ok (fresh_broker now mono).

(** ** Host calls *)

Definition emit (m : Sent) (b : Broker) : Broker := with_host (add_sent m) b.

(** [this.knownRunners.get(runnerId)?.messageCallback(message)]. *)
Definition messageRunner (runnerId : string) (m : ToRunner) (b : Broker) : Broker :=
  emit (SentRunner runnerId m (map_has runnerId (knownRunners b))) b.

(** [this.requesters.get(requesterId)?.(message)]. *)
Definition messageRequester (requesterId : string) (m : ToRequester) (b : Broker) : Broker :=
  emit (SentRequester requesterId m (bool_decide (requesterId ∈ requesters b))) b.

(** A new reference, for a timer, a promise, a request or a suspended call. *)
Definition allocate (b : Broker) : nat * Broker := (fresh (host b), with_host next_ref b).

Definition setTimeout (call : TimerCall) (delay : Z) (b : Broker) : nat * Broker :=
  let '(h, b) := allocate b in
  (h, with_host (set_timers <[h := {| tm_call := call; tm_due := now (host b) + Z.max delay 0 |}]>) b).

Definition clearTimeout (handle : option nat) (b : Broker) : Broker :=
  match handle with Some h => with_host (set_timers (delete h)) b | None => b end.

(** A promise settles once. *)
Definition settle (p : nat) (r : Promise) (b : Broker) : Broker :=
  match promises (host b) !! p with
  | Some Pending => with_host (set_promises <[p := r]>) b
  | _ => b
  end.

Definition spawn (t : Thread) (b : Broker) : Broker :=
  let '(i, b) := allocate b in with_host (set_threads <[i := t]>) b.

Definition end_thread (i : nat) (b : Broker) : Broker := with_host (set_threads (delete i)) b.

Definition change_request (r : nat) (f : TaskRequest -> TaskRequest) (b : Broker) : Broker :=
  with_host (set_requests (alter f r)) b.

Definition set_timeout (h : nat) (r : TaskRequest) : TaskRequest :=
  {| rq_requestId := rq_requestId r; rq_requesterId := rq_requesterId r; rq_taskType := rq_taskType r;
     rq_timeout := Some h; rq_acceptInProgress := rq_acceptInProgress r; rq_timeoutRefreshes := rq_timeoutRefreshes r |}.
Definition set_accepting (p : bool) (r : TaskRequest) : TaskRequest :=
  {| rq_requestId := rq_requestId r; rq_requesterId := rq_requesterId r; rq_taskType := rq_taskType r;
     rq_timeout := rq_timeout r; rq_acceptInProgress := p; rq_timeoutRefreshes := rq_timeoutRefreshes r |}.
Definition set_refreshes (n : Z) (r : TaskRequest) : TaskRequest :=
  {| rq_requestId := rq_requestId r; rq_requesterId := rq_requesterId r; rq_taskType := rq_taskType r;
     rq_timeout := rq_timeout r; rq_acceptInProgress := rq_acceptInProgress r; rq_timeoutRefreshes := n |}.

Definition has_id (requestId : string) (b : Broker) (r : nat) : bool :=
  match requests (host b) !! r with Some q => bool_decide (rq_requestId q = requestId) | None => false end.

(** [this.pendingTaskRequests.findIndex((r) => r.requestId === requestId)], with the
    element. *)
Definition find_request (requestId : string) (b : Broker) : option (nat * nat) :=
  list_find (fun r => has_id requestId b r = true) (pendingTaskRequests b).

Section Operations.
Context (config : TaskRunnersConfig).
(** The [k]-th call of [nanoid(8)]. *)
Context (nanoid : nat -> string).

(** ** Requests *)

Definition createRequestTimeout (requestId : string) (b : Broker) : nat * Broker :=
  setTimeout (RequestTimeout requestId) (taskRequestTimeout config * toMilliseconds) b.

Definition refreshRequestTimeout (r : nat) (b : Broker) : Broker :=
  match requests (host b) !! r with
  | None => b
  | Some request =>
      let isPending := existsb (has_id (rq_requestId request) b) (pendingTaskRequests b) in
      let refreshes := rq_timeoutRefreshes request in
      if isPending && (refreshes <? MAX_REQUEST_TIMEOUT_REFRESHES) then
        let b := change_request r (set_refreshes (refreshes + 1)) b in
        let b := clearTimeout (rq_timeout request) b in
        let '(h, b) := createRequestTimeout (rq_requestId request) b in
        change_request r (set_timeout h) b
      else b
  end.

(** ** Offers *)

Definition discardOffers (shouldDiscard : TaskOffer -> bool) (b : Broker) : Broker :=
  with_offers (List.filter (fun o => negb (shouldDiscard o))) b.

Definition expireTasks (b : Broker) : Broker :=
  discardOffers (fun o => negb (of_validFor o =? -1) && (of_validUntil o <? mono (host b))) b.

Definition discardOffersFrom (runnerId : string) (b : Broker) : Broker :=
  discardOffers (fun o => bool_decide (of_runnerId o = runnerId)) b.

Definition discardOffersFromUnreachableRunners (b : Broker) : Broker :=
  discardOffers (fun o => match map_get (of_runnerId o) (knownRunners b) with
                          | Some k => negb (kr_reachable k)
                          | None => false
                          end) b.

(** ** Tasks *)

Definition getInFlightTaskIds (runnerId : string) (b : Broker) : list string :=
  tk_id <$> List.filter (fun t => bool_decide (tk_runnerId t = runnerId)) (tasks b).*2.

Definition untrackTask (taskId : string) (b : Broker) : option Task * Broker :=
  match map_get taskId (tasks b) with
  | Some task => (Some task, with_tasks (map_delete taskId) (clearTimeout (tk_timeout task) b))
  | None => (None, b)
  end.

Definition cancelTask (taskId reason : string) (b : Broker) : Broker :=
  match untrackTask taskId b with
  | (Some task, b) => messageRunner (tk_runnerId task) (TaskCancel taskId reason) b
  | (None, b) => b
  end.

Definition failTask (taskId : string) (error : BrokerError) (b : Broker) : Broker :=
  match untrackTask taskId b with
  | (Some task, b) => messageRequester (tk_requesterId task) (TaskError taskId (BrokerFailure error)) b
  | (None, b) => b
  end.

Definition failTasks (taskIds : list string) (error : BrokerError) (b : Broker) : Broker :=
  foldl (fun b taskId => failTask taskId error b) b taskIds.

Definition taskDoneHandler (taskId : string) (data : JsonValue) (b : Broker) : Broker :=
  match untrackTask taskId b with
  | (Some task, b) => messageRequester (tk_requesterId task) (TaskDone (tk_id task) data) b
  | (None, b) => b
  end.

Definition taskErrorHandler (taskId : string) (error : TaskFailure) (b : Broker) : Broker :=
  match untrackTask taskId b with
  | (Some task, b) => messageRequester (tk_requesterId task) (TaskError (tk_id task) error) b
  | (None, b) => b
  end.

(** [getRunnerOrFailTask]: the runner's id, or the error to throw once [failTask] has sent
    it. *)
Definition getRunnerOrFailTask (taskId : string) (b : Broker) : Prelude.result BrokerError string * Broker :=
  match map_get taskId (tasks b) with
  | None => (Err (UnexpectedError ("Cannot find runner, failed to find task (" +:+ taskId +:+ ")")), b)
  | Some task =>
      match map_get (tk_runnerId task) (knownRunners b) with
      | None =>
          let error := UnexpectedError ("Cannot find runner, failed to find runner (" +:+ tk_runnerId task +:+ ")") in
          (Err error, failTask taskId error b)
      | Some k =>
          if kr_reachable k then (Ok (rn_id (kr_runner k)), b)
          else let error := TaskRunnerUnreachableError taskId (tk_runnerId task) in (Err error, failTask taskId error b)
      end
  end.

(** [handleTaskTimeout], to its end or its [await]. *)
Definition handleTaskTimeout (taskId : string) (b : Broker) : Broker :=
  match map_get taskId (tasks b) with
  | None => b
  | Some task =>
      let isCappedByShutdown :=
        match shutdownDeadline b with Some d => bool_decide (tk_timesOutAt task = Some d) | None => false end in
      let error := if isCappedByShutdown then TaskRunnerShutdownTimeoutError
                   else TaskRunnerExecutionTimeoutError (taskTimeout config) (mode config) in
      match mode config with
      | Internal =>
          let b := match shutdownDeadline b with
                   | None => emit (TimedOutDuringTask (tk_runnerId task)) b
                   | Some _ => b end in
          taskErrorHandler taskId (BrokerFailure error) b
      | External =>
          let reason := if isCappedByShutdown then "Task aborted because this n8n instance is shutting down"
                        else "Task execution timed out" in
          spawn (TimingOut taskId error) (messageRunner (tk_runnerId task) (TaskCancel taskId reason) b)
      end
  end.

(** ** Runners that do not answer *)

Definition monotonicNowMs (b : Broker) : Z := mono (host b) / 1000000.

Definition isSilent (runnerId : string) (b : Broker) : bool :=
  negb (existsb (fun o => bool_decide (of_runnerId o = runnerId)) (pendingTaskOffers b)) &&
  bool_decide (getInFlightTaskIds runnerId b = []) &&
  negb (existsb (fun a => bool_decide (ra_runnerId a = runnerId)) (runnerAcceptRejects b).*2).

Definition reportUnresponsive (runnerId : string) (b : Broker) : bool * Broker :=
  match getInFlightTaskIds runnerId b with
  | [] => (true, emit (Unresponsive runnerId) b)
  | _ => (false, b)
  end.

Definition flagRunnerIfUnresponsive (runnerId : string) (b : Broker) : Broker :=
  let now := monotonicNowMs b in
  let previous := map_get runnerId (consecutiveAcceptTimeouts b) in
  let acceptWindowMs := taskAcceptTimeout config * toMilliseconds in
  if match previous with Some p => now - st_lastTimeoutAt p <? acceptWindowMs | None => false end then b
  else
    let failures := Z.min (match previous with Some p => st_count p | None => 0 end + 1) MAX_CONSECUTIVE_ACCEPT_TIMEOUTS in
    let b := with_strikes (map_set runnerId {| st_count := failures; st_lastTimeoutAt := now |}) b in
    if failures <? MAX_CONSECUTIVE_ACCEPT_TIMEOUTS then b
    else
      let '(reported, b) := reportUnresponsive runnerId b in
      if reported then with_strikes (map_delete runnerId) b else b.

(** The [forEach] of [flagSilentRunners]. *)
Definition flag_silent (now : Z) (b : Broker) (runner : TaskRunner) : Broker :=
  if negb (isSilent (rn_id runner) b) then with_silent (map_delete (rn_id runner)) b
  else
    match map_get (rn_id runner) (silentRunnersSince b) with
    | None => with_silent (map_set (rn_id runner) now) b
    | Some silentSince =>
        if MIN_SILENCE_DURATION_MS <=? now - silentSince then
          let '(reported, b) := reportUnresponsive (rn_id runner) b in
          if reported then with_silent (map_delete (rn_id runner)) b else b
        else b
    end.

Definition flagSilentRunners (taskType : string) (b : Broker) : Broker :=
  let b := expireTasks b in
  let now := monotonicNowMs b in
  let suspects := List.filter (fun k => bool_decide (taskType ∈ rn_taskTypes (kr_runner k)) && kr_reachable k)
                    (knownRunners b).*2 in
  foldl (fun b k => flag_silent now b (kr_runner k)) b suspects.

Definition handleRequestTimeout (requestId : string) (b : Broker) : Broker :=
  match find_request requestId b with
  | None => b
  | Some (requestIndex, r) =>
      match requests (host b) !! r with
      | None => b
      | Some request =>
          let b := flagSilentRunners (rq_taskType request) b in
          let b := with_pending (delete requestIndex) b in
          let b := with_warned (filter (fun w => w <> requestId)) b in
          let b := clearTimeout (rq_timeout request) b in
          messageRequester (rq_requesterId request) (RequestExpired (rq_requestId request) ByTimeout) b
      end
  end.

(** ** Matching *)

(** [acceptOffer], to its first [await]. *)
Definition acceptOffer (offer : TaskOffer) (request : nat) (b : Broker) : Broker :=
  let taskId := nanoid (made (host b)) in
  let b := with_host next_id b in
  let '(p, b) := allocate b in
  let b := with_host (set_promises <[p := Pending]>) b in
  let b := with_accepts (map_set taskId {| ra_promise := p; ra_runnerId := of_runnerId offer |}) b in
  let '(h, b) := setTimeout (RunnerAcceptTimeout p taskId (of_runnerId offer)) (taskAcceptTimeout config * toMilliseconds) b in
  let b := messageRunner (of_runnerId offer) (TaskOfferAccept taskId (of_offerId offer)) b in
  spawn (Accepting {| fl_taskId := taskId; fl_offer := offer; fl_request := request; fl_promise := p; fl_timer := h;
                      fl_stage := SendingAccept |}) b.

Definition warnOnTaskTypeMismatch (request : TaskRequest) (b : Broker) : Broker :=
  match pendingTaskOffers b with
  | [] => b
  | _ => with_warned (fun w => set_add w (rq_requestId request)) b
  end.

(** The body of [settleTasks]'s loop. *)
Definition settle_request (b : Broker) (r : nat) : Broker :=
  match requests (host b) !! r with
  | None => b
  | Some request =>
      if rq_acceptInProgress request then b
      else
        match list_find (fun o => of_taskType o = rq_taskType request) (pendingTaskOffers b) with
        | None => warnOnTaskTypeMismatch request b
        | Some (offerIndex, offer) =>
            let b := change_request r (set_accepting true) b in
            let b := with_offers (delete offerIndex) b in
            let b := with_warned (filter (fun w => w <> rq_requestId request)) b in
            acceptOffer offer r b
        end
  end.

Definition settleTasks (b : Broker) : Broker :=
  let b := discardOffersFromUnreachableRunners (expireTasks b) in
  foldl settle_request b (pendingTaskRequests b).

Definition taskRequested (r : nat) (b : Broker) : Broker :=
  match requests (host b) !! r with
  | None => b
  | Some request =>
      if isDraining b then
        messageRequester (rq_requesterId request) (RequestExpired (rq_requestId request) ByDraining)
          (clearTimeout (rq_timeout request) b)
      else settleTasks (with_pending (fun l => l ++ [r]) b)
  end.

Definition taskOffered (offer : TaskOffer) (b : Broker) : Broker := settleTasks (with_offers (fun l => l ++ [offer]) b).

(** ** Confirmations *)

(** [acceptReject.accept()], [acceptReject.reject(error)]. *)
Definition settle_runner (taskId : string) (r : Promise) (b : Broker) : Broker :=
  match map_get taskId (runnerAcceptRejects b) with
  | None => b
  | Some a =>
      let b := with_strikes (map_delete (ra_runnerId a)) b in
      let b := settle (ra_promise a) r b in
      with_accepts (map_delete taskId) b
  end.

Definition handleRunnerAccept (taskId : string) (b : Broker) : Broker := settle_runner taskId (Resolved JNull) b.

Definition handleRunnerReject (taskId reason : string) (b : Broker) : Broker :=
  settle_runner taskId (Rejected (TaskRejectError reason)) b.

Definition handleRunnerDeferred (taskId : string) (b : Broker) : Broker :=
  settle_runner taskId (Rejected TaskDeferredError) b.

Definition handleRequesterAccept (taskId : string) (settings : JsonValue) (b : Broker) : Broker :=
  match map_get taskId (requesterAcceptRejects b) with
  | None => b
  | Some p => with_confirms (map_delete taskId) (settle p (Resolved settings) b)
  end.

Definition handleRequesterReject (taskId reason : string) (b : Broker) : Broker :=
  match map_get taskId (requesterAcceptRejects b) with
  | None => b
  | Some p => with_confirms (map_delete taskId) (settle p (Rejected (TaskRejectError reason)) b)
  end.

(** ** Runners and requesters *)

Definition registerRunner (runner : TaskRunner) (reachable : bool) (b : Broker) : Broker :=
  messageRunner (rn_id runner) RunnerRegistered
    (with_runners (map_set (rn_id runner) {| kr_runner := runner; kr_reachable := reachable |}) b).

Definition deregisterRunner (runnerId message : string) (b : Broker) : Broker :=
  let b := with_runners (map_delete runnerId) b in
  let b := with_strikes (map_delete runnerId) b in
  let b := with_silent (map_delete runnerId) b in
  let b := discardOffersFrom runnerId b in
  let reason := "The Task Runner (" +:+ runnerId +:+ ") has disconnected: " +:+ message in
  let b := foldl (fun b '(taskId, a) => if bool_decide (ra_runnerId a = runnerId) then handleRunnerReject taskId reason b else b)
             b (runnerAcceptRejects b) in
  failTasks (getInFlightTaskIds runnerId b) (HostError message) b.

Definition registerRequester (requesterId : string) (b : Broker) : Broker :=
  with_requesters (fun l => set_add l requesterId) b.

Definition deregisterRequester (requesterId : string) (b : Broker) : Broker :=
  with_requesters (filter (fun r => r <> requesterId)) b.

(** ** Messages from runners *)

Definition resetAcceptTimeoutsOnOwnTask (runnerId taskId : string) (b : Broker) : Broker :=
  match map_get taskId (tasks b) with
  | Some task => if bool_decide (tk_runnerId task = runnerId) then with_strikes (map_delete runnerId) b else b
  | None => b
  end.

(** The handlers that pass a message of a task's runner on to its requester. *)
Definition to_requester (taskId : string) (m : ToRequester) (b : Broker) : Broker :=
  match map_get taskId (tasks b) with
  | Some task => messageRequester (tk_requesterId task) m b
  | None => b
  end.

Definition handleRpcRequest (taskId callId name : string) (params : JsonValue) (b : Broker) : Broker :=
  to_requester taskId (Rpc taskId callId name params) b.
Definition handleDataRequest (taskId requestId : string) (requestParams : JsonValue) (b : Broker) : Broker :=
  to_requester taskId (TaskDataRequest taskId requestId requestParams) b.
Definition handleNodeTypesRequest (taskId requestId : string) (requestParams : JsonValue) (b : Broker) : Broker :=
  to_requester taskId (NodeTypesRequest taskId requestId requestParams) b.

Definition onRunnerMessage (runnerId : string) (message : FromRunner) (b : Broker) : Broker :=
  if negb (map_has runnerId (knownRunners b)) then b
  else
    let b := with_silent (map_delete runnerId) b in
    match message with
    | TaskAccepted taskId => handleRunnerAccept taskId b
    | TaskRejected taskId reason => handleRunnerReject taskId reason b
    | TaskDeferred taskId => handleRunnerDeferred taskId b
    | RunnerOffer offerId taskType validFor =>
        taskOffered {| of_offerId := offerId; of_runnerId := runnerId; of_taskType := taskType; of_validFor := validFor;
                       of_validUntil := if validFor =? -1 then 0 else mono (host b) + validFor * 1000000 |} b
    | RunnerTaskDone taskId data => taskDoneHandler taskId data (resetAcceptTimeoutsOnOwnTask runnerId taskId b)
    | RunnerTaskError taskId error =>
        taskErrorHandler taskId (RunnerFailure error) (resetAcceptTimeoutsOnOwnTask runnerId taskId b)
    | RunnerDataRequest taskId requestId requestParams => handleDataRequest taskId requestId requestParams b
    | RunnerNodeTypesRequest taskId requestId requestParams => handleNodeTypesRequest taskId requestId requestParams b
    | RunnerRpc taskId callId name params => handleRpcRequest taskId callId name params b
    | RunnerInfo => b
    end.

(** The message goes to the runner under the requester's id. *)
Definition handleResponse (taskId requestId : string) (data : JsonValue) (b : Broker) : Broker :=
  match map_get taskId (tasks b) with
  | Some task => messageRunner (tk_requesterId task) (TaskDataResponse taskId requestId data) b
  | None => b
  end.

(** ** Messages from requesters *)

(** The handlers that pass a requester's response on, to their [await]; a thrown error has
    nothing left to do. *)
Definition respond (taskId : string) (m : ToRunner) (b : Broker) : Broker :=
  if map_has taskId (tasks b) then
    match getRunnerOrFailTask taskId b with
    | (Ok runnerId, b) => spawn (Responding runnerId m) b
    | (Err _, b) => b
    end
  else b.

Definition handleRequesterDataResponse (taskId requestId : string) (data : JsonValue) (b : Broker) : Broker :=
  respond taskId (TaskDataResponse taskId requestId data) b.
Definition handleRequesterNodeTypesResponse (taskId requestId : string) (nodeTypes : JsonValue) (b : Broker) : Broker :=
  respond taskId (NodeTypes taskId requestId nodeTypes) b.
Definition handleRequesterRpcResponse (taskId callId status : string) (data : JsonValue) (b : Broker) : Broker :=
  respond taskId (RpcResponse taskId callId status data) b.

(** A new request object, its timer armed first. *)
Definition new_request (requestId requesterId taskType : string) (b : Broker) : nat * Broker :=
  let '(h, b) := createRequestTimeout requestId b in
  let '(r, b) := allocate b in
  (r, with_host (set_requests <[r := {| rq_requestId := requestId; rq_requesterId := requesterId; rq_taskType := taskType;
                                        rq_timeout := Some h; rq_acceptInProgress := false; rq_timeoutRefreshes := 0 |}]>) b).

Definition onRequesterMessage (requesterId : string) (message : FromRequester) (b : Broker) : Broker :=
  match message with
  | RequesterSettings taskId settings => handleRequesterAccept taskId settings b
  | RequesterCancel taskId reason => cancelTask taskId reason b
  | RequesterRequest requestId taskType => let '(r, b) := new_request requestId requesterId taskType b in taskRequested r b
  | RequesterDataResponse taskId requestId data => handleRequesterDataResponse taskId requestId data b
  | RequesterNodeTypesResponse taskId requestId nodeTypes => handleRequesterNodeTypesResponse taskId requestId nodeTypes b
  | RequesterRpcResponse taskId callId status data => handleRequesterRpcResponse taskId callId status data b
  end.

(** ** Shutdown *)

Definition startDraining (b : Broker) : Broker := with_draining true b.

Definition hasActiveTasks (b : Broker) : bool := negb (bool_decide (tasks b = [])).

Definition set_task_timeout (h : nat) (timesOutAt : Z) (t : Task) : Task :=
  {| tk_id := tk_id t; tk_runnerId := tk_runnerId t; tk_requesterId := tk_requesterId t; tk_taskType := tk_taskType t;
     tk_timeout := Some h; tk_timesOutAt := Some timesOutAt |}.

(** The loop's body: a task of the map, by its key. *)
Definition cap_task (deadline : Z) (b : Broker) (taskId : string) : Broker :=
  match map_get taskId (tasks b) with
  | Some task =>
      match tk_timeout task with
      | None => b
      | Some old =>
          if match tk_timesOutAt task with Some t => t <=? deadline | None => false end then b
          else
            let b := clearTimeout (Some old) b in
            let '(h, b) := setTimeout (TaskTimeout taskId) (deadline - now (host b)) b in
            with_tasks (map_set taskId (set_task_timeout h deadline task)) b
      end
  | None => b
  end.

Definition capTaskTimeoutsForShutdown (deadline : Z) (b : Broker) : Broker :=
  let b := with_deadline (Some deadline) b in
  foldl (cap_task deadline) b (tasks b).*1.

End Operations.
