(* ===== verification/TaskBrokerRun.v ===== *)
(** * Task broker: suspended calls and events

    What resumes the broker: a message, a timer, the end of an [await].  [on_event] is one
    turn of the event loop, whole: the code from an entry point or an [await] to the next
    [await] or the end.  Any enabled event may come next, so that a history of the broker is
    any list of events; [run] executes one.

    A promise already settled, and a message callback's, may be resumed at any later time.
    A message callback may fail; one of an addressee that is gone may too, which only adds
    histories. *)

From stdpp Require Import base gmap strings pretty list fin_maps.
From Stdlib Require Import ZArith Lia.
From S2P Require Import Prelude.
From S2P Require Import JsCollections.
From S2P Require Import EngineTypes.
From S2P Require Import TaskBroker.

#[local] Open Scope Z_scope.

(** How an [await] ended. *)
Inductive Outcome := Fulfilled | Failing (e : BrokerError).

Inductive Event :=
  | RunnerRegisters (runner : TaskRunner) (reachable : bool)
  | TransportChanges (runnerId : string) (reachable : bool)
  | RunnerDeregisters (runnerId message : string)
  | TasksFail (taskIds : list string) (message : string)
  | RequesterRegisters (requesterId : string)
  | RequesterDeregisters (requesterId : string)
  | RunnerSays (runnerId : string) (message : FromRunner)
  | RequesterSays (requesterId : string) (message : FromRequester)
  | TimerFires (handle : nat)
  | Delivered (thread : nat) (o : Outcome)
  | Resumes (thread : nat)
  | DrainingStarts
  | ShutdownCaps (deadline : Z)
  | TimePasses (ms ns : Z).

Definition to_stage (i : nat) (f : Flow) (st : Stage) (b : Broker) : Broker :=
  with_host (set_threads <[i := Accepting {| fl_taskId := fl_taskId f; fl_offer := fl_offer f; fl_request := fl_request f;
                                             fl_promise := fl_promise f; fl_timer := fl_timer f; fl_stage := st |}]>) b.

(** The promise and the timer of the second half. *)
Definition second_half (f : Flow) (p h : nat) : Flow :=
  {| fl_taskId := fl_taskId f; fl_offer := fl_offer f; fl_request := fl_request f; fl_promise := p; fl_timer := h;
     fl_stage := fl_stage f |}.

Section Run.
Context (config : TaskRunnersConfig) (nanoid : nat -> string).

(** The end of [acceptOffer], its [finally] done. *)
Definition end_flow (i : nat) (f : Flow) (b : Broker) : Broker := end_thread i (clearTimeout (Some (fl_timer f)) b).

(** [this.tasks.set(taskId, task)]. *)
Definition track (taskId : string) (offer : TaskOffer) (request : TaskRequest) (b : Broker) : Broker :=
  with_tasks (map_set taskId {| tk_id := taskId; tk_runnerId := of_runnerId offer;
                                tk_requesterId := rq_requesterId request; tk_taskType := of_taskType offer;
                                tk_timeout := None; tk_timesOutAt := None |}) b.

(** The runner accepted: the task is tracked, its request leaves the list, the requester is
    asked. *)
Definition runner_accepted (i : nat) (f : Flow) (request : TaskRequest) (b : Broker) : Broker :=
  let b := clearTimeout (Some (fl_timer f)) b in
  let b := clearTimeout (rq_timeout request) b in
  let b := track (fl_taskId f) (fl_offer f) request b in
  match find_request (rq_requestId request) b with
  | None => to_stage i f CancelingExpired (cancelTask (fl_taskId f) "Task request expired" b)
  | Some (requestIndex, _) =>
      let b := with_pending (delete requestIndex) b in
      let '(p, b) := allocate b in
      let b := with_host (set_promises <[p := Pending]>) b in
      let b := with_confirms (map_set (fl_taskId f) p) b in
      let '(h, b) := setTimeout (RequesterAcceptTimeout p (fl_taskId f) (rq_requesterId request))
                       (taskAcceptTimeout config * toMilliseconds) b in
      let b := messageRequester (rq_requesterId request) (TaskReady (rq_requestId request) (fl_taskId f)) b in
      to_stage i (second_half f p h) SendingReady b
  end.

(** The [catch] of the first half, for an error of the acceptance. *)
Definition runner_declined (i : nat) (f : Flow) (e : BrokerError) (b : Broker) : Broker :=
  let b := change_request (fl_request f) (set_accepting false) b in
  match e with
  | TaskRejectError _ => end_flow i f (settleTasks config nanoid b)
  | TaskDeferredError => end_flow i f (refreshRequestTimeout config (fl_request f) b)
  | TaskRunnerAcceptTimeoutError _ _ =>
      let b := with_accepts (map_delete (fl_taskId f)) b in
      let b := refreshRequestTimeout config (fl_request f) b in
      to_stage i f CancelingLate
        (messageRunner (of_runnerId (fl_offer f)) (TaskCancel (fl_taskId f) "Acknowledgement window elapsed") b)
  | _ => end_flow i f b
  end.

(** The [catch] of the second half: what it sends before it returns or throws again. *)
Definition requester_declined (i : nat) (f : Flow) (e : BrokerError) (b : Broker) : Broker :=
  match e with
  | TaskRejectError reason => to_stage i f Canceling (cancelTask (fl_taskId f) reason b)
  | TaskRunnerUnreachableError _ _ => end_flow i f b
  | TaskRequesterAcceptTimeoutError _ _ =>
      to_stage i f Canceling
        (cancelTask (fl_taskId f) "Requester took too long to acknowledge the task"
           (with_confirms (map_delete (fl_taskId f)) b))
  | _ => to_stage i f Canceling (cancelTask (fl_taskId f) "Unknown reason" b)
  end.

(** [sendTaskSettings], to its first [await] or its end. *)
Definition sendTaskSettings (i : nat) (f : Flow) (settings : JsonValue) (b : Broker) : Broker :=
  if map_has (fl_taskId f) (tasks b) then
    match getRunnerOrFailTask (fl_taskId f) b with
    | (Ok runnerId, b) => to_stage i f (RunnerFound runnerId settings) b
    | (Err e, b) => to_stage i f (RunnerMissing e) b
    end
  else end_flow i f b.

(** [sendTaskSettings], with the runner found: the task's timer is armed. *)
Definition send_settings (i : nat) (f : Flow) (runnerId : string) (settings : JsonValue) (b : Broker) : Broker :=
  match map_get (fl_taskId f) (tasks b) with
  | None => end_flow i f b
  | Some task =>
      let due := now (host b) + taskTimeout config * toMilliseconds in
      let timesOutAt := match shutdownDeadline b with Some d => Z.min due d | None => due end in
      let '(h, b) := setTimeout (TaskTimeout (fl_taskId f)) (timesOutAt - now (host b)) b in
      let b := with_tasks (map_set (fl_taskId f) (set_task_timeout h timesOutAt task)) b in
      to_stage i f SendingSettings (messageRunner runnerId (TaskSettings (fl_taskId f) settings) b)
  end.

(** After the cancellation of a task whose runner did not answer in time. *)
Definition late_canceled (i : nat) (f : Flow) (b : Broker) : Broker :=
  let b := discardOffersFrom (of_runnerId (fl_offer f)) b in
  let b := flagRunnerIfUnresponsive config (of_runnerId (fl_offer f)) b in
  end_flow i f (settleTasks config nanoid b).

(** A message's [await] of [acceptOffer] ends. *)
Definition flow_delivered (i : nat) (f : Flow) (o : Outcome) (b : Broker) : option Broker :=
  match fl_stage f, o with
  | SendingAccept, Fulfilled => Some (to_stage i f AwaitingRunner b)
  | SendingAccept, Failing e => Some (runner_declined i f e b)
  | CancelingLate, Fulfilled => Some (late_canceled i f b)
  | CancelingLate, Failing _ => Some (end_flow i f b)
  | CancelingExpired, _ => Some (end_thread i b)
  | SendingReady, Fulfilled => Some (to_stage i f AwaitingRequester b)
  | SendingReady, Failing e => Some (requester_declined i f e b)
  | RunnerMissing e, Fulfilled => Some (requester_declined i f e b)
  | RunnerMissing _, Failing e => Some (requester_declined i f e b)
  | SendingSettings, Fulfilled => Some (end_flow i f b)
  | SendingSettings, Failing e => Some (requester_declined i f e b)
  | Canceling, _ => Some (end_flow i f b)
  | _, _ => None
  end.

(** A promise's [await] of [acceptOffer] ends. *)
Definition flow_resumes (i : nat) (f : Flow) (b : Broker) : option Broker :=
  match fl_stage f with
  | AwaitingRunner =>
      match promises (host b) !! fl_promise f, requests (host b) !! fl_request f with
      | Some (Resolved _), Some request => Some (runner_accepted i f request b)
      | Some (Rejected e), _ => Some (runner_declined i f e b)
      | _, _ => None
      end
  | AwaitingRequester =>
      match promises (host b) !! fl_promise f with
      | Some (Resolved settings) => Some (sendTaskSettings i f settings b)
      | Some (Rejected e) => Some (requester_declined i f e b)
      | _ => None
      end
  | RunnerFound runnerId settings => Some (send_settings i f runnerId settings b)
  | _ => None
  end.

(** A timer's callback; its handle is spent. *)
Definition timer_fires (call : TimerCall) (b : Broker) : Broker :=
  match call with
  | RequestTimeout requestId => handleRequestTimeout requestId b
  | RunnerAcceptTimeout p taskId runnerId => settle p (Rejected (TaskRunnerAcceptTimeoutError taskId runnerId)) b
  | RequesterAcceptTimeout p taskId requesterId => settle p (Rejected (TaskRequesterAcceptTimeoutError taskId requesterId)) b
  | TaskTimeout taskId => handleTaskTimeout config taskId b
  end.

(** An error a message callback throws is not one of the broker's. *)
Definition host_outcome (o : Outcome) : bool :=
  match o with Fulfilled | Failing (HostError _) => true | _ => false end.

Definition on_event (ev : Event) (b : Broker) : option Broker :=
  match ev with
  | RunnerRegisters runner reachable => Some (registerRunner runner reachable b)
  | TransportChanges runnerId reachable =>
      match map_get runnerId (knownRunners b) with
      | Some k => Some (with_runners (map_set runnerId {| kr_runner := kr_runner k; kr_reachable := reachable |}) b)
      | None => None
      end
  | RunnerDeregisters runnerId message => Some (deregisterRunner runnerId message b)
  | TasksFail taskIds message => Some (failTasks taskIds (HostError message) b)
  | RequesterRegisters requesterId => Some (registerRequester requesterId b)
  | RequesterDeregisters requesterId => Some (deregisterRequester requesterId b)
  | RunnerSays runnerId message => Some (onRunnerMessage config nanoid runnerId message b)
  | RequesterSays requesterId message => Some (onRequesterMessage config nanoid requesterId message b)
  | TimerFires handle =>
      match timers (host b) !! handle with
      | Some t => if tm_due t <=? now (host b) then Some (timer_fires (tm_call t) (with_host (set_timers (delete handle)) b))
                  else None
      | None => None
      end
  | Delivered i o =>
      if host_outcome o then
        match threads (host b) !! i with
        | Some (Accepting f) => flow_delivered i f o b
        | Some (TimingOut taskId e) =>
            let b := end_thread i b in
            Some (match o with Fulfilled => taskErrorHandler taskId (BrokerFailure e) b | Failing _ => b end)
        | _ => None
        end
      else None
  | Resumes i =>
      match threads (host b) !! i with
      | Some (Accepting f) => flow_resumes i f b
      | Some (Responding runnerId m) => Some (messageRunner runnerId m (end_thread i b))
      | _ => None
      end
  | DrainingStarts => Some (startDraining b)
  | ShutdownCaps deadline => Some (capTaskTimeoutsForShutdown deadline b)
  | TimePasses ms ns => if (0 <=? ms) && (0 <=? ns) then Some (with_host (pass_time ms ns) b) else None
  end.

Definition run (evs : list Event) (b : Broker) : option Broker := foldM (fun b ev => on_event ev b) b evs.

End Run.
