(* ===== verification/TaskBrokerInv.v ===== *)
(** * Task broker: the invariant

    What ties requests, tasks, timers and suspended acceptances together, kept by every
    event.  [Inv xr xf] leaves out two things a turn may break and mend: that request [xr],
    about to leave the list or to be given a new timer, has its timer armed; and what is
    required of the suspended call [xf], the one that is running.

    Most of a turn is [quiet]: it touches neither, and sends nothing that answers a request
    or ends a task. *)

From stdpp Require Import base gmap strings pretty list fin_maps relations.
From Stdlib Require Import ZArith Lia.
From S2P Require Import Prelude.
From S2P Require Import JsCollections.
From S2P Require Import EngineTypes.
From S2P Require Import TaskBroker.
From S2P Require Import TaskBrokerRun.

#[local] Open Scope Z_scope.

(** ** What messages mean *)

(** The request a message answers, the task it ends. *)
Definition answered_by (m : Sent) : option string :=
  match m with
  | SentRequester _ (RequestExpired requestId _) _ | SentRequester _ (TaskReady requestId _) _ => Some requestId
  | _ => None
  end.

Definition ended_by (m : Sent) : option string :=
  match m with
  | SentRequester _ (TaskDone taskId _) _ | SentRequester _ (TaskError taskId _) _ => Some taskId
  | _ => None
  end.

Definition answers (requestId : string) (l : list Sent) : nat := length (filter (fun m => answered_by m = Some requestId) l).

Definition ends (taskId : string) (l : list Sent) : nat := length (filter (fun m => ended_by m = Some taskId) l).

Definition neutral (m : Sent) : Prop := answered_by m = None /\ ended_by m = None.

Lemma answers_snoc id l m : answers id (l ++ [m]) = (answers id l + if bool_decide (answered_by m = Some id) then 1 else 0)%nat.
Proof. unfold answers. rewrite filter_app, length_app, filter_cons. simpl. case_decide; case_bool_decide; simpl; tauto || lia. Qed.

Lemma ends_snoc k l m : ends k (l ++ [m]) = (ends k l + if bool_decide (ended_by m = Some k) then 1 else 0)%nat.
Proof. unfold ends. rewrite filter_app, length_app, filter_cons. simpl. case_decide; case_bool_decide; simpl; tauto || lia. Qed.

Lemma answers_neutral id l k : Forall neutral k -> answers id (l ++ k) = answers id l.
Proof.
  intros Hk. unfold answers. rewrite filter_app, length_app. enough (filter (fun m => answered_by m = Some id) k = []) as ->; [simpl; lia|].
  induction Hk as [|m k [Hm _] _ IH]; [done|]. rewrite filter_cons, Hm, decide_False by done. done.
Qed.

Lemma ends_neutral id l k : Forall neutral k -> ends id (l ++ k) = ends id l.
Proof.
  intros Hk. unfold ends. rewrite filter_app, length_app. enough (filter (fun m => ended_by m = Some id) k = []) as ->; [simpl; lia|].
  induction Hk as [|m k [_ Hm] _ IH]; [done|]. rewrite filter_cons, Hm, decide_False by done. done.
Qed.

(** ** Phases of an acceptance *)

(** The runner has not accepted yet; the settings are not yet sent. *)
Definition first_half (st : Stage) : bool := match st with SendingAccept | AwaitingRunner => true | _ => false end.

Definition unsent (st : Stage) : bool :=
  match st with SendingAccept | AwaitingRunner | SendingReady | AwaitingRequester | RunnerFound _ _ => true | _ => false end.

Definition accept_call (c : TimerCall) : bool :=
  match c with RunnerAcceptTimeout _ _ _ | RequesterAcceptTimeout _ _ _ => true | _ => false end.

Section Invariant.
Context (nanoid : nat -> string).

(** The ids already given out. *)
Definition given (b : Broker) (k : string) : Prop := exists n, (n < made (host b))%nat /\ k = nanoid n.

Definition flow_at (b : Broker) (xf : option nat) (i : nat) (f : Flow) : Prop :=
  threads (host b) !! i = Some (Accepting f) /\ xf <> Some i.

(** [h] names no timer but, perhaps, one of an acceptance. *)
Definition accept_timer (b : Broker) (h : nat) : Prop :=
  (h < fresh (host b))%nat /\ forall t, timers (host b) !! h = Some t -> accept_call (tm_call t) = true.

(** [r] waits for its answer. *)
Definition waiting (b : Broker) (xr : option nat) (r : nat) : Prop := r ∈ pendingTaskRequests b \/ xr = Some r.

#[export] Instance waiting_dec b xr r : Decision (waiting b xr r).
Proof. unfold waiting. apply _. Defined.

Record flow_ok (b : Broker) (f : Flow) : Prop := {
  fo_request : is_Some (requests (host b) !! fl_request f);
  fo_given : given b (fl_taskId f);
  fo_first : first_half (fl_stage f) = true ->
    map_get (fl_taskId f) (tasks b) = None /\ ends (fl_taskId f) (sent (host b)) = O /\
    exists q, requests (host b) !! fl_request f = Some q /\ rq_acceptInProgress q = true;
  fo_unsent : unsent (fl_stage f) = true -> forall task, map_get (fl_taskId f) (tasks b) = Some task -> tk_timeout task = None;
}.

Record request_ok (b : Broker) (xr : option nat) (r : nat) (q : TaskRequest) : Prop := {
  ro_lt : (r < fresh (host b))%nat;
  ro_timer : exists h, rq_timeout q = Some h /\ (h < fresh (host b))%nat /\
    forall t, timers (host b) !! h = Some t -> tm_call t = RequestTimeout (rq_requestId q);
  ro_answers : answers (rq_requestId q) (sent (host b)) = if decide (waiting b xr r) then O else 1%nat;
}.

(** A task with a timer has the time it is for, within the shutdown's. *)
Definition timed (b : Broker) (k : string) (task : Task) (h : nat) : Prop :=
  (h < fresh (host b))%nat /\ exists at_, tk_timesOutAt task = Some at_ /\
  (forall d, shutdownDeadline b = Some d -> at_ <= d) /\
  forall t, timers (host b) !! h = Some t -> tm_call t = TaskTimeout k /\ tm_due t <= Z.max at_ (now (host b)).

Record task_ok (b : Broker) (k : string) (task : Task) : Prop := {
  to_id : tk_id task = k;
  to_given : given b k;
  to_open : ends k (sent (host b)) = O;
  to_timer : forall h, tk_timeout task = Some h -> timed b k task h;
}.

Record Inv (xr xf : option nat) (b : Broker) : Prop := {
  iv_timer_lt : forall h t, timers (host b) !! h = Some t -> (h < fresh (host b))%nat;
  iv_thread_lt : forall i, is_Some (threads (host b) !! i) -> (i < fresh (host b))%nat;
  iv_flow_timer : forall i f, threads (host b) !! i = Some (Accepting f) -> accept_timer b (fl_timer f);
  iv_flow : forall i f, flow_at b xf i f -> flow_ok b f;
  iv_owner : forall i j f g, flow_at b xf i f -> flow_at b xf j g -> unsent (fl_stage f) = true ->
    unsent (fl_stage g) = true -> fl_taskId f = fl_taskId g -> i = j;
  iv_single : forall i j f g, flow_at b xf i f -> flow_at b xf j g -> first_half (fl_stage f) = true ->
    first_half (fl_stage g) = true -> fl_request f = fl_request g -> i = j;
  iv_request : forall r q, requests (host b) !! r = Some q -> request_ok b xr r q;
  iv_distinct : forall r r' q q', requests (host b) !! r = Some q -> requests (host b) !! r' = Some q' ->
    rq_requestId q = rq_requestId q' -> r = r';
  iv_nodup : NoDup (pendingTaskRequests b);
  iv_pending : forall r, r ∈ pendingTaskRequests b -> is_Some (requests (host b) !! r);
  iv_expires : forall r q, requests (host b) !! r = Some q -> r ∈ pendingTaskRequests b -> xr <> Some r ->
    exists h t, rq_timeout q = Some h /\ timers (host b) !! h = Some t;
  iv_unmade : forall id, (forall r q, requests (host b) !! r = Some q -> rq_requestId q <> id) -> answers id (sent (host b)) = O;
  iv_task : forall k task, map_get k (tasks b) = Some task -> task_ok b k task;
  iv_ended : forall k, (ends k (sent (host b)) <= 1)%nat /\ (ends k (sent (host b)) = 1%nat -> given b k);
  iv_task_armed : forall h t k, timers (host b) !! h = Some t -> tm_call t = TaskTimeout k ->
    exists task, map_get k (tasks b) = Some task /\ tk_timeout task = Some h;
  iv_request_armed : forall h t id, timers (host b) !! h = Some t -> tm_call t = RequestTimeout id ->
    exists r q, requests (host b) !! r = Some q /\ rq_requestId q = id /\ rq_timeout q = Some h /\ waiting b xr r;
}.

Lemma inv_start (now mono : Z) : Inv None None (fresh_broker now mono).
Proof.
  assert (Hf : forall i f, ~ flow_at (fresh_broker now mono) None i f) by (intros i f [Hi _]; done).
  split; try done; try (intros; exfalso; naive_solver).
  - intros i [x Hx]. done.
  - apply NoDup_nil_2.
  - intros r Hr. by apply not_elem_of_nil in Hr.
  - intros k. split; [unfold ends; simpl; lia|done].
Qed.

Lemma flow_at_skip b xf i f : flow_at b (Some xf) i f -> xf <> i -> flow_at b None i f.
Proof. intros [Hf _] Hne. by split. Qed.

(** Leaving more out. *)
Lemma inv_skip_flow xr b i : Inv xr None b -> Inv xr (Some i) b.
Proof.
  intros []. assert (Hw : forall j f, flow_at b (Some i) j f -> flow_at b None j f) by (intros j f [Hf _]; by split).
  split; eauto.
Qed.

Lemma inv_skip_request xf b r : r ∈ pendingTaskRequests b -> Inv None xf b -> Inv (Some r) xf b.
Proof.
  intros Hp []. assert (Hw : forall r', waiting b (Some r) r' <-> waiting b None r')
    by (intros r'; unfold waiting; split; intros [?|?]; simplify_eq; auto).
  split; try done.
  - intros r' q Hq. destruct (iv_request0 r' q Hq) as [R1 R2 R3]. split; try done. rewrite R3. by apply decide_ext.
  - intros r' q Hq Hr' Hne. by eapply iv_expires0.
  - intros h t id Ht Hid. destruct (iv_request_armed0 h t id Ht Hid) as (r' & q & ? & ? & ? & Hwt). exists r', q.
    split_and!; try done. by apply Hw.
Qed.

(** ** Quiet changes *)

Definition core (q : TaskRequest) : TaskRequest := set_refreshes 0 q.

Record quiet (b b' : Broker) : Prop := {
  qt_requests : forall r, core <$> requests (host b') !! r = core <$> requests (host b) !! r;
  qt_timers : timers (host b') = timers (host b);
  qt_threads : forall i f, threads (host b') !! i = Some (Accepting f) -> threads (host b) !! i = Some (Accepting f);
  qt_thread_lt : forall i, is_Some (threads (host b') !! i) -> is_Some (threads (host b) !! i) \/ (i < fresh (host b'))%nat;
  qt_fresh : (fresh (host b) <= fresh (host b'))%nat;
  qt_made : made (host b') = made (host b);
  qt_now : now (host b) <= now (host b');
  qt_tasks : tasks b' = tasks b;
  qt_pending : pendingTaskRequests b' = pendingTaskRequests b;
  qt_deadline : shutdownDeadline b' = shutdownDeadline b;
  qt_sent : exists l, sent (host b') = sent (host b) ++ l /\ Forall neutral l;
}.

#[export] Instance quiet_refl : Reflexive quiet.
Proof. intros b. split; try done. - by left. - exists []. by rewrite app_nil_r. Qed.

#[export] Instance quiet_trans : Transitive quiet.
Proof.
  intros a b c [A1 A2 A3 A3' A4 A5 A6 A7 A8 A9 (l & A10 & Hl)] [B1 B2 B3 B3' B4 B5 B6 B7 B8 B9 (k & B10 & Hk)].
  split; try congruence; try (by eauto); try lia.
  - intros i [Hb|?]%B3'; [|by right]. apply A3' in Hb as [?|?]; [by left|right; lia].
  - exists (l ++ k). rewrite B10, A10, app_assoc. split; [done|]. by apply Forall_app.
Qed.

Lemma quiet_request b b' r q' : quiet b b' -> requests (host b') !! r = Some q' ->
  exists q, requests (host b) !! r = Some q /\ core q = core q'.
Proof.
  intros Hq Hr. pose proof (qt_requests _ _ Hq r) as H. rewrite Hr in H. simpl in H.
  destruct (requests (host b) !! r) as [q|]; [|done]. simpl in H. exists q. split; [done|congruence].
Qed.

Lemma quiet_request_back b b' r q : quiet b b' -> requests (host b) !! r = Some q ->
  exists q', requests (host b') !! r = Some q' /\ core q' = core q.
Proof.
  intros Hq Hr. pose proof (qt_requests _ _ Hq r) as H. rewrite Hr in H. simpl in H.
  destruct (requests (host b') !! r) as [q'|]; [|done]. simpl in H. exists q'. split; [done|congruence].
Qed.

Lemma core_eq q q' : core q = core q' -> rq_requestId q = rq_requestId q' /\ rq_requesterId q = rq_requesterId q' /\
  rq_timeout q = rq_timeout q' /\ rq_acceptInProgress q = rq_acceptInProgress q'.
Proof. unfold core, set_refreshes. intros H. by injection H. Qed.

Lemma inv_quiet xr xf b b' : quiet b b' -> Inv xr xf b -> Inv xr xf b'.
Proof.
  intros Hq HI. pose proof (qt_sent _ _ Hq) as (l & Hsent & Hl).
  assert (Han : forall id, answers id (sent (host b')) = answers id (sent (host b))) by (intros id; rewrite Hsent; by apply answers_neutral).
  assert (Hen : forall id, ends id (sent (host b')) = ends id (sent (host b))) by (intros id; rewrite Hsent; by apply ends_neutral).
  assert (Hgi : forall k, given b k -> given b' k) by (intros k (n & Hn & ->); exists n; by rewrite (qt_made _ _ Hq)).
  assert (Hfl : forall i f, flow_at b' xf i f -> flow_at b xf i f) by (intros i f [Hf Hx]; split; [by apply (qt_threads _ _ Hq)|done]).
  assert (Hwt : forall r, waiting b' xr r <-> waiting b xr r) by (intros r; unfold waiting; by rewrite (qt_pending _ _ Hq)).
  pose proof (qt_fresh _ _ Hq) as Hlt. pose proof (qt_timers _ _ Hq) as Ht. pose proof (qt_tasks _ _ Hq) as Htk.
  pose proof (qt_pending _ _ Hq) as Hp. pose proof (qt_now _ _ Hq) as Hnow. destruct HI. split.
  - intros h t. rewrite Ht. intros H. specialize (iv_timer_lt0 h t H). lia.
  - intros i Hi. apply (qt_thread_lt _ _ Hq) in Hi as [Hi|?]; [|done]. apply iv_thread_lt0 in Hi. lia.
  - intros i f Hf. apply (qt_threads _ _ Hq), iv_flow_timer0 in Hf as [H1 H2]. split; [lia|]. by rewrite Ht.
  - intros i f Hf%Hfl. destruct (iv_flow0 i f Hf) as [F1 F4 F5 F6]. split; rewrite ?Ht, ?Htk, ?Hen; try done; try (by auto).
    + destruct F1 as [q Hr]. destruct (quiet_request_back _ _ _ _ Hq Hr) as (q' & Hr' & _). by exists q'.
    + intros Hst. destruct (F5 Hst) as (? & ? & q & Hr & Ha). split_and!; [done|done|].
      destruct (quiet_request_back _ _ _ _ Hq Hr) as (q' & Hr' & Hc). apply core_eq in Hc as (_ & _ & _ & Hc). exists q'.
      split; [done|congruence].
  - intros i j f g Hf%Hfl Hg%Hfl. by apply iv_owner0.
  - intros i j f g Hf%Hfl Hg%Hfl. by apply iv_single0.
  - intros r q' Hr'. destruct (quiet_request _ _ _ _ Hq Hr') as (q & Hr & Hc). apply core_eq in Hc as (Hid & _ & Hto & _).
    destruct (iv_request0 r q Hr) as [R1 (h & R2 & R3 & R4) R5]. split; [lia| |rewrite Han, <-Hid, R5; by apply decide_ext].
    exists h. rewrite <-Hto, Ht, <-Hid. split_and!; [done|lia|done].
  - intros r r' q q' Hr Hr' Hid. destruct (quiet_request _ _ _ _ Hq Hr) as (p & Hp1 & Hc), (quiet_request _ _ _ _ Hq Hr') as (p' & Hp2 & Hc').
    apply core_eq in Hc as (Hc & _), Hc' as (Hc' & _). eapply iv_distinct0; [done|done|congruence].
  - by rewrite Hp.
  - intros r. rewrite Hp. intros [q Hr]%iv_pending0. destruct (quiet_request_back _ _ _ _ Hq Hr) as (q' & Hr' & _). by exists q'.
  - intros r q' Hr'. destruct (quiet_request _ _ _ _ Hq Hr') as (q & Hr & Hc). apply core_eq in Hc as (_ & _ & <- & _).
    rewrite Hp, Ht. by apply iv_expires0.
  - intros id Hid. rewrite Han. apply iv_unmade0. intros r q Hr. destruct (quiet_request_back _ _ _ _ Hq Hr) as (q' & Hr' & Hc).
    apply core_eq in Hc as (Hc & _). rewrite <-Hc. by apply (Hid r).
  - intros k task. rewrite Htk. intros H. destruct (iv_task0 k task H) as [T1 T2 T3 T4]. split; rewrite ?Hen; try done; [by auto|].
    intros h Hh. destruct (T4 h Hh) as (Hh' & at_ & Ha & Hd & Htm). split; [lia|]. exists at_. rewrite Ht, (qt_deadline _ _ Hq).
    split_and!; [done|done|]. intros t H'. destruct (Htm t H'). split; [done|lia].
  - intros k. rewrite Hen. destruct (iv_ended0 k). split; [done|]. auto.
  - intros h t k. rewrite Ht, Htk. apply iv_task_armed0.
  - intros h t id. rewrite Ht. intros H Hc. destruct (iv_request_armed0 h t id H Hc) as (r & q & Hr & Hi & Hto & Hw).
    destruct (quiet_request_back _ _ _ _ Hq Hr) as (q' & Hr' & Hc'). apply core_eq in Hc' as (Hc1 & _ & Hc2 & _).
    exists r, q'. split_and!; try congruence. by apply Hwt.
Qed.

End Invariant.
