(* ===== verification/TaskBrokerSteps.v ===== *)
(** * Task broker: what each piece of a turn keeps

    One lemma per piece the broker's operations are made of: arming and clearing timers,
    tracking and untracking tasks, listing and answering requests, suspending calls. *)

From stdpp Require Import base gmap strings pretty list fin_maps relations.
From Stdlib Require Import ZArith Lia.
From S2P Require Import Prelude.
From S2P Require Import JsCollections.
From S2P Require Import EngineTypes.
From S2P Require Import TaskBroker.
From S2P Require Import TaskBrokerRun.
From S2P Require Import TaskBrokerInv.

#[local] Open Scope Z_scope.

(** Removing one element of a list without repetitions. *)
Lemma elem_of_delete_nodup {A} (l : list A) (i : nat) (x y : A) :
  NoDup l -> l !! i = Some x -> y ∈ delete i l <-> y ∈ l /\ y <> x.
Proof.
  intros Hnd Hi. assert (Hl : y ∈ l <-> y ∈ take i l ++ x :: drop (S i) l) by (by rewrite take_drop_middle).
  rewrite <-(take_drop_middle l i x Hi) in Hnd. apply NoDup_app in Hnd as (_ & H1 & H2). apply NoDup_cons in H2 as [H2 _].
  rewrite Hl, delete_take_drop, !elem_of_app, elem_of_cons. specialize (H1 x). set_solver.
Qed.

Section Pieces.
Context (nanoid : nat -> string).
Local Notation Inv := (Inv nanoid).

Lemma quiet_emit m b : neutral m -> quiet b (emit m b).
Proof. intros Hm. split; try done. - by left. - exists [m]. split; [done|]. by constructor. Qed.

Lemma quiet_messageRunner id m b : quiet b (messageRunner id m b).
Proof. apply quiet_emit. done. Qed.

(** ** Timers *)

Lemma inv_clear xr xf b h :
  (forall r q, requests (host b) !! r = Some q -> r ∈ pendingTaskRequests b -> rq_timeout q = Some h -> xr = Some r) ->
  Inv xr xf b -> Inv xr xf (clearTimeout (Some h) b).
Proof.
  intros Hr HI. destruct HI. simpl.
  assert (Ht : forall h' t, delete h (timers (host b)) !! h' = Some t -> timers (host b) !! h' = Some t)
    by (intros h' t [_ ?]%lookup_delete_Some; done).
  split; simpl; try done.
  - intros h' t H%Ht. by eapply iv_timer_lt.
  - intros i f Hf. destruct (iv_flow_timer i f Hf) as [H1 H2]. split; [done|]. simpl. intros t H%Ht. by apply H2.
  - intros i f Hf. by destruct (iv_flow i f Hf).
  - intros r q Hq. destruct (iv_request r q Hq) as [R1 (h' & R2 & R3 & R4) R5]. split; try done. exists h'. simpl. eauto 6.
  - intros r q Hq Hp Hx. destruct (iv_expires r q Hq Hp Hx) as (h' & t & Hh & Ht'). exists h', t. split; [done|].
    rewrite lookup_delete_ne; [done|]. intros ->. apply Hx. by eapply Hr.
  - intros k task Hk. destruct (iv_task k task Hk) as [T1 T2 T3 T4]. split; try done.
    intros h' Hh. destruct (T4 h' Hh) as (? & at_ & ? & ? & H). split; [done|]. exists at_. split_and!; try done.
    simpl. intros t Ht'%Ht. by apply H.
  - intros h' t k H%Ht. by eapply iv_task_armed.
  - intros h' t id H%Ht. by eapply iv_request_armed.
Qed.

Lemma accept_timer_pending xr xf b h r q : Inv xr xf b -> accept_timer b h -> requests (host b) !! r = Some q ->
  r ∈ pendingTaskRequests b -> rq_timeout q = Some h -> xr = Some r.
Proof.
  intros HI [_ Ha] Hq Hp Hh. destruct (decide (xr = Some r)) as [|Hx]; [done|].
  destruct (iv_expires _ _ _ _ HI r q Hq Hp Hx) as (h' & t & Hh' & Ht). simplify_eq.
  destruct (ro_timer _ _ _ _ (iv_request _ _ _ _ HI r q Hq)) as (h2 & ? & _ & Hc). simplify_eq.
  specialize (Ha t Ht). rewrite (Hc t Ht) in Ha. done.
Qed.

Lemma inv_clear_accept xr xf b h : accept_timer b h -> Inv xr xf b -> Inv xr xf (clearTimeout (Some h) b).
Proof. intros Ha HI. apply inv_clear; [|done]. intros r q. by eapply accept_timer_pending. Qed.

Lemma inv_arm_accept xr xf b call delay : accept_call call = true -> Inv xr xf b -> Inv xr xf (setTimeout call delay b).2.
Proof.
  intros Hc HI. destruct HI.
  assert (Ht : forall h, (h < fresh (host b))%nat ->
    <[fresh (host b) := {| tm_call := call; tm_due := now (host b) + Z.max delay 0 |}]> (timers (host b)) !! h = timers (host b) !! h)
    by (intros h Hh; rewrite lookup_insert_ne; [done|lia]).
  split; simpl; try done.
  - intros h t [[<- _]|[_ H]]%lookup_insert_Some; [lia|]. specialize (iv_timer_lt h t H). lia.
  - intros i Hi%iv_thread_lt. lia.
  - intros i f Hf. destruct (iv_flow_timer i f Hf) as [H1 H2]. split; simpl; [lia|]. by rewrite (Ht _ H1).
  - intros i f Hf. by destruct (iv_flow i f Hf).
  - intros r q Hq. destruct (iv_request r q Hq) as [R1 (h & R2 & R3 & R4) R5]. split; simpl; [lia| |done]. exists h.
    rewrite (Ht h R3). split_and!; [done|lia|done].
  - intros r q Hq Hp Hx. destruct (iv_expires r q Hq Hp Hx) as (h & t & Hh & Ht'). exists h, t. split; [done|].
    rewrite Ht; [done|]. by eapply iv_timer_lt.
  - intros k task Hk. destruct (iv_task k task Hk) as [T1 T2 T3 T4]. split; try done.
    intros h Hh. destruct (T4 h Hh) as (Hlt & at_ & ? & ? & H). split; simpl; [lia|]. exists at_. by rewrite (Ht h Hlt).
  - intros h t k [[_ <-]|[_ H]]%lookup_insert_Some; [simpl; by intros ->|by eapply iv_task_armed].
  - intros h t k [[_ <-]|[_ H]]%lookup_insert_Some; [simpl; by intros ->|by eapply iv_request_armed].
Qed.
(** ** Tasks *)

Lemma inv_track xr xf b k task : tk_id task = k -> tk_timeout task = None -> given nanoid b k -> ends k (sent (host b)) = O ->
  map_get k (tasks b) = None -> (forall i f, flow_at b xf i f -> unsent (fl_stage f) = true -> fl_taskId f <> k) ->
  Inv xr xf b -> Inv xr xf (with_tasks (map_set k task) b).
Proof.
  intros Hid Hto Hg He Hn Hfl HI. destruct HI. split; simpl; try done.
  - intros i f Hf. destruct (iv_flow i f Hf) as [F1 F2 F3 F4]. split; simpl; try done.
    + intros Hst. destruct (F3 Hst) as (H1 & H2 & H3). split_and!; try done. rewrite map_get_set_ne; [done|].
      intros Hkk. apply (Hfl i f Hf); [by destruct (fl_stage f)|done].
    + intros Hst t. rewrite map_get_set_ne; [by apply F4|]. intros Hkk. by apply (Hfl i f Hf Hst).
  - intros r q Hq. by destruct (iv_request r q Hq).
  - intros k' t. rewrite map_get_set. case_decide as Hk; [|intros Ht; by destruct (iv_task k' t Ht)].
    intros [= <-]. subst k'. split; simpl; try done. intros h Hh. congruence.
  - intros h t k' Ht Hc. destruct (iv_task_armed h t k' Ht Hc) as (task' & Hk & Hh). exists task'. split; [|done].
    rewrite map_get_set_ne; [done|]. intros <-. congruence.
Qed.

Lemma ended_other m k j l : ended_by m = None \/ ended_by m = Some k -> j <> k -> ends j (l ++ [m]) = ends j l.
Proof. intros Hm Hj. rewrite ends_snoc, bool_decide_eq_false_2; [lia|]. intros ?. destruct Hm; congruence. Qed.

Lemma ended_at_most m k l : ended_by m = None \/ ended_by m = Some k -> (ends k (l ++ [m]) <= S (ends k l))%nat.
Proof. intros Hm. rewrite ends_snoc. case_bool_decide; lia. Qed.

Lemma answers_emit m id l : answered_by m = None -> answers id (l ++ [m]) = answers id l.
Proof. intros Hm. rewrite answers_snoc, Hm, bool_decide_eq_false_2 by done. lia. Qed.

Lemma inv_drop_task xr xf b k task m : map_get k (tasks b) = Some task ->
  (forall h t, timers (host b) !! h = Some t -> tm_call t <> TaskTimeout k) -> answered_by m = None ->
  ended_by m = None \/ ended_by m = Some k -> Inv xr xf b -> Inv xr xf (emit m (with_tasks (map_delete k) b)).
Proof.
  intros Hk Harm Hma Hme HI. destruct HI. destruct (iv_task k task Hk) as [_ Hg Hopen _]. split; simpl; try done.
  - intros i f Hf. destruct (iv_flow i f Hf) as [F1 F2 F3 F4]. split; simpl; try done.
    + intros Hst. destruct (F3 Hst) as (H1 & H2 & H3). rewrite map_get_delete.
      assert (fl_taskId f <> k) by congruence. rewrite decide_False by congruence. by rewrite (ended_other m k).
    + intros Hst t. rewrite map_get_delete. case_decide; [done|]. by apply F4.
  - intros r q Hq. destruct (iv_request r q Hq) as [R1 R2 R3]. split; simpl; try done. by rewrite answers_emit.
  - intros id Hid. rewrite answers_emit by done. by apply iv_unmade.
  - intros k' t. rewrite map_get_delete. case_decide as Hne; [done|]. intros Ht. destruct (iv_task k' t Ht) as [T1 T2 T3 T4].
    split; simpl; try done. rewrite (ended_other m k); [done|done|congruence].
  - intros j. destruct (decide (j = k)) as [->|Hne].
    + split; [|done]. pose proof (ended_at_most m k (sent (host b)) Hme). lia.
    + rewrite (ended_other m k) by done. apply iv_ended.
  - intros h t k' Ht Hc. destruct (iv_task_armed h t k' Ht Hc) as (task' & Hk' & Hh). exists task'. split; [|done].
    rewrite map_get_delete, decide_False; [done|]. intros <-. by apply (Harm h t).
Qed.

Lemma inv_untrack xr xf b k task m : map_get k (tasks b) = Some task -> answered_by m = None ->
  ended_by m = None \/ ended_by m = Some k -> Inv xr xf b ->
  Inv xr xf (emit m (with_tasks (map_delete k) (clearTimeout (tk_timeout task) b))).
Proof.
  intros Hk Hma Hme HI.
  apply (inv_drop_task _ _ _ _ task); try done.
  - by destruct (tk_timeout task).
  - intros h t Ht Hc. destruct (tk_timeout task) as [h'|] eqn:Hto; simpl in Ht.
    + apply lookup_delete_Some in Ht as [Hne Ht]. destruct (iv_task_armed _ _ _ _ HI h t k Ht Hc) as (? & ? & ?). congruence.
    + destruct (iv_task_armed _ _ _ _ HI h t k Ht Hc) as (? & ? & ?). congruence.
  - destruct (tk_timeout task) as [h|] eqn:Hto; [|done]. apply inv_clear; [|done]. intros r q Hq Hp Hh.
    destruct (decide (xr = Some r)) as [|Hx]; [done|].
    destruct (iv_expires _ _ _ _ HI r q Hq Hp Hx) as (h' & t & Hh' & Ht). simplify_eq.
    destruct (ro_timer _ _ _ _ (iv_request _ _ _ _ HI r q Hq)) as (h2 & ? & _ & Hc). simplify_eq.
    destruct (to_timer _ _ _ _ (iv_task _ _ _ _ HI k task Hk) h Hto) as (_ & at_ & _ & _ & Htm).
    destruct (Htm t Ht) as [Hcall _]. rewrite (Hc t Ht) in Hcall. done.
Qed.

Lemma inv_cancelTask xr xf b k reason : Inv xr xf b -> Inv xr xf (cancelTask k reason b).
Proof.
  intros HI. unfold cancelTask, untrackTask. destruct (map_get k (tasks b)) as [task|] eqn:Hk; [|done].
  apply inv_untrack; try done. by left.
Qed.

Lemma inv_failTask xr xf b k e : Inv xr xf b -> Inv xr xf (failTask k e b).
Proof.
  intros HI. unfold failTask, untrackTask. destruct (map_get k (tasks b)) as [task|] eqn:Hk; [|done].
  apply inv_untrack; try done. by right.
Qed.

Lemma inv_failTasks xr xf ks b e : Inv xr xf b -> Inv xr xf (failTasks ks e b).
Proof. revert b. induction ks as [|k ks IH]; intros b HI; [done|]. by apply IH, inv_failTask. Qed.

Lemma inv_taskDoneHandler xr xf b k data : Inv xr xf b -> Inv xr xf (taskDoneHandler k data b).
Proof.
  intros HI. unfold taskDoneHandler, untrackTask. destruct (map_get k (tasks b)) as [task|] eqn:Hk; [|done].
  apply inv_untrack; try done. right. simpl. by rewrite (to_id _ _ _ _ (iv_task _ _ _ _ HI k task Hk)).
Qed.

Lemma inv_taskErrorHandler xr xf b k e : Inv xr xf b -> Inv xr xf (taskErrorHandler k e b).
Proof.
  intros HI. unfold taskErrorHandler, untrackTask. destruct (map_get k (tasks b)) as [task|] eqn:Hk; [|done].
  apply inv_untrack; try done. right. simpl. by rewrite (to_id _ _ _ _ (iv_task _ _ _ _ HI k task Hk)).
Qed.

(** A tracked task is given its timer. *)
Lemma inv_time_task xr xf b k task at_ : map_get k (tasks b) = Some task ->
  (forall h t, timers (host b) !! h = Some t -> tm_call t <> TaskTimeout k) ->
  (forall d, shutdownDeadline b = Some d -> at_ <= d) ->
  (forall i f, flow_at b xf i f -> unsent (fl_stage f) = true -> fl_taskId f <> k) -> Inv xr xf b ->
  Inv xr xf (with_tasks (map_set k (set_task_timeout (fresh (host b)) at_ task))
               (setTimeout (TaskTimeout k) (at_ - now (host b)) b).2).
Proof.
  intros Hk Harm Hd Hfl HI. destruct HI. destruct (iv_task k task Hk) as [Hid Hg Hopen _].
  assert (Ht : forall h, (h < fresh (host b))%nat -> <[fresh (host b) :=
    {| tm_call := TaskTimeout k; tm_due := now (host b) + Z.max (at_ - now (host b)) 0 |}]> (timers (host b)) !! h = timers (host b) !! h)
    by (intros h Hh; rewrite lookup_insert_ne; [done|lia]).
  split; simpl; try done.
  - intros h t [[<- _]|[_ H]]%lookup_insert_Some; [lia|]. specialize (iv_timer_lt h t H). lia.
  - intros i Hi%iv_thread_lt. lia.
  - intros i f Hf. destruct (iv_flow_timer i f Hf) as [H1 H2]. split; simpl; [lia|]. by rewrite (Ht _ H1).
  - intros i f Hf. destruct (iv_flow i f Hf) as [F1 F2 F3 F4]. split; simpl; try done.
    + intros Hst. destruct (F3 Hst) as (H1 & H2 & H3). split_and!; try done. rewrite map_get_set_ne; [done|].
      intros Hkk. apply (Hfl i f Hf); [by destruct (fl_stage f)|done].
    + intros Hst t. rewrite map_get_set_ne; [by apply F4|]. intros Hkk. by apply (Hfl i f Hf Hst).
  - intros r q Hq. destruct (iv_request r q Hq) as [R1 (h & R2 & R3 & R4) R5]. split; simpl; [lia| |done]. exists h.
    rewrite (Ht h R3). split_and!; [done|lia|done].
  - intros r q Hq Hp Hx. destruct (iv_expires r q Hq Hp Hx) as (h & t & Hh & Ht'). exists h, t. split; [done|].
    rewrite Ht; [done|]. by eapply iv_timer_lt.
  - intros k' t. rewrite map_get_set. case_decide as Hkk.
    + intros [= <-]. subst k'. split; simpl; try done. intros h [= <-]. split; simpl; [lia|]. exists at_.
      split_and!; [done|done|]. intros t. rewrite lookup_insert_eq. intros [= <-]. simpl. split; [done|lia].
    + intros H. destruct (iv_task k' t H) as [T1 T2 T3 T4]. split; simpl; try done.
      intros h Hh. destruct (T4 h Hh) as (Hlt & a & ? & ? & ?). split; simpl; [lia|]. exists a. by rewrite (Ht h Hlt).
  - intros h t k' [[<- <-]|[Hne H]]%lookup_insert_Some; simpl.
    + intros [= <-]. exists (set_task_timeout (fresh (host b)) at_ task). by rewrite map_get_set_eq.
    + intros Hc. destruct (iv_task_armed h t k' H Hc) as (task' & ? & ?). exists task'. split; [|done].
      rewrite map_get_set_ne; [done|]. intros <-. by apply (Harm h t).
  - intros h t id [[_ <-]|[_ H]]%lookup_insert_Some; [done|by eapply iv_request_armed].
Qed.

(** ** Requests *)

Lemma inv_unlist xf b r i : pendingTaskRequests b !! i = Some r -> Inv (Some r) xf b -> Inv (Some r) xf (with_pending (delete i) b).
Proof.
  intros Hi HI. destruct HI. assert (Hp : forall r', r' ∈ delete i (pendingTaskRequests b) <-> r' ∈ pendingTaskRequests b /\ r' <> r)
    by (intros r'; by apply elem_of_delete_nodup).
  assert (Hw : forall r', waiting (with_pending (delete i) b) (Some r) r' <-> waiting b (Some r) r').
  { intros r'. unfold waiting. simpl. rewrite Hp. destruct (decide (r' = r)) as [->|Hne]; [tauto|].
    split; [intros [[? _]|?]; auto|intros [?|?]; auto]. }
  split; simpl; try done.
  - intros j f Hf. by destruct (iv_flow j f Hf).
  - intros r' q Hq. destruct (iv_request r' q Hq) as [R1 R2 R3]. split; try done. etrans; [exact R3|by apply decide_ext].
  - rewrite delete_take_drop. rewrite <-(take_drop_middle _ _ _ Hi) in iv_nodup. apply NoDup_app in iv_nodup as (H1 & H2 & H3).
    apply NoDup_cons in H3 as [_ H3]. apply NoDup_app. split_and!; try done. set_solver.
  - intros r' [Hr' _]%Hp. by apply iv_pending.
  - intros r' q Hq [Hr' _]%Hp. by apply iv_expires.
  - intros k task Hk. by destruct (iv_task k task Hk).
  - intros h t id Ht Hid. destruct (iv_request_armed h t id Ht Hid) as (r' & q & ? & ? & ? & Hwt). exists r', q.
    split_and!; try done. by apply Hw.
Qed.

Lemma ends_emit m k l : ended_by m = None -> ends k (l ++ [m]) = ends k l.
Proof. intros Hm. rewrite ends_snoc, Hm, bool_decide_eq_false_2 by done. lia. Qed.

Lemma inv_answered xf b r q m : requests (host b) !! r = Some q -> r ∉ pendingTaskRequests b ->
  (forall h, rq_timeout q = Some h -> timers (host b) !! h = None) -> answered_by m = Some (rq_requestId q) -> ended_by m = None ->
  Inv (Some r) xf b -> Inv None xf (emit m b).
Proof.
  intros Hq Hr Harm Hma Hme HI. destruct HI. split; simpl; try done.
  - intros j f Hf. destruct (iv_flow j f Hf) as [F1 F2 F3 F4]. split; simpl; try done. by rewrite ends_emit.
  - intros r' q' Hq'. destruct (iv_request r' q' Hq') as [R1 R2 R3]. split; simpl; try done. rewrite answers_snoc, R3, Hma.
    unfold waiting. simpl. destruct (decide (r' = r)) as [->|Hne]; simplify_eq.
    + rewrite bool_decide_eq_true_2 by done. rewrite decide_True, decide_False by naive_solver. done.
    + rewrite bool_decide_eq_false_2 by (intros [= ?]; apply Hne; by eapply iv_distinct).
      repeat case_decide; try lia; exfalso; naive_solver.
  - intros r' q' Hq' Hp _. apply (iv_expires r'); [done|done|]. intros [= <-]. done.
  - intros id Hid. rewrite answers_snoc, Hma, bool_decide_eq_false_2 by (intros [= ?]; by apply (Hid r q)).
    rewrite iv_unmade by done. done.
  - intros k task Hk. destruct (iv_task k task Hk) as [T1 T2 T3 T4]. split; simpl; try done. by rewrite ends_emit.
  - intros k. rewrite ends_emit by done. apply iv_ended.
  - intros h t id Ht Hid. destruct (iv_request_armed h t id Ht Hid) as (r' & q' & ? & ? & Hto & [Hw|[= <-]]); simplify_eq.
    + exists r', q'. split_and!; try done. by left.
    + rewrite (Harm _ Hto) in Ht. done.
Qed.

Lemma inv_push xf b r q h t : requests (host b) !! r = Some q -> rq_timeout q = Some h -> timers (host b) !! h = Some t ->
  r ∉ pendingTaskRequests b -> Inv (Some r) xf b -> Inv None xf (with_pending (fun l => l ++ [r]) b).
Proof.
  intros Hq Hto Ht Hr HI. destruct HI.
  assert (Hw : forall r', waiting (with_pending (fun l => l ++ [r]) b) None r' <-> waiting b (Some r) r').
  { intros r'. unfold waiting. simpl. rewrite elem_of_app, list_elem_of_singleton. naive_solver. }
  split; simpl; try done.
  - intros j f Hf. by destruct (iv_flow j f Hf).
  - intros r' q' Hq'. destruct (iv_request r' q' Hq') as [R1 R2 R3]. split; try done. etrans; [exact R3|by apply decide_ext].
  - apply NoDup_app. split_and!; [done|set_solver|apply NoDup_singleton].
  - intros r' [Hr'|Hr'%list_elem_of_singleton]%elem_of_app; [by apply iv_pending|subst; by exists q].
  - intros r' q' Hq' [Hr'|Hr'%list_elem_of_singleton]%elem_of_app _; [|simplify_eq; eauto].
    apply (iv_expires r'); [done|done|]. intros [= <-]. done.
  - intros k task Hk. by destruct (iv_task k task Hk).
  - intros h' t' id Ht' Hid. destruct (iv_request_armed h' t' id Ht' Hid) as (r' & q' & ? & ? & ? & Hwt). exists r', q'.
    split_and!; try done. by apply Hw.
Qed.

(** The flags of a request. *)
Lemma inv_set_accepting xr xf b r v :
  (v = false -> forall i f, flow_at b xf i f -> first_half (fl_stage f) = true -> fl_request f <> r) ->
  Inv xr xf b -> Inv xr xf (change_request r (set_accepting v) b).
Proof.
  intros Hv HI. destruct HI.
  assert (Hc : forall r' q', alter (set_accepting v) r (requests (host b)) !! r' = Some q' ->
    exists q, requests (host b) !! r' = Some q /\ rq_requestId q' = rq_requestId q /\ rq_timeout q' = rq_timeout q).
  { intros r' q' [[<- (q & Hq & ->)]|[_ Hq]]%lookup_alter_Some; [by exists q|by exists q']. }
  assert (Hb : forall r' q, requests (host b) !! r' = Some q -> exists q', alter (set_accepting v) r (requests (host b)) !! r' = Some q' /\
    rq_requestId q' = rq_requestId q /\ rq_timeout q' = rq_timeout q).
  { intros r' q Hq. destruct (decide (r' = r)) as [->|Hne]; [|exists q; by rewrite lookup_alter_ne].
    exists (set_accepting v q). by rewrite lookup_alter_eq, Hq. }
  split; simpl; try done.
  - intros j f Hf. destruct (iv_flow j f Hf) as [F1 F2 F3 F4]. split; simpl; try done.
    + destruct F1 as [q Hq]. destruct (Hb _ _ Hq) as (q' & ? & _). by exists q'.
    + intros Hst. destruct (F3 Hst) as (? & ? & q & Hq & Ha). split_and!; try done.
      destruct (decide (fl_request f = r)) as [He|Hne]; [|exists q; by rewrite lookup_alter_ne].
      exists (set_accepting v q). rewrite He, lookup_alter_eq, <-He, Hq. split; [done|]. simpl. destruct v; [done|].
      by destruct (Hv eq_refl j f Hf Hst).
  - intros r' q' Hq'. destruct (Hc _ _ Hq') as (q & Hq & Hid & Hto). destruct (iv_request r' q Hq) as [R1 R2 R3].
    split; rewrite ?Hid, ?Hto; done.
  - intros r1 r2 q1 q2 H1 H2 Hid. destruct (Hc _ _ H1) as (p1 & Hp1 & E1 & _), (Hc _ _ H2) as (p2 & Hp2 & E2 & _).
    eapply iv_distinct; [done|done|congruence].
  - intros r' [q Hq]%iv_pending. destruct (Hb _ _ Hq) as (q' & ? & _). by exists q'.
  - intros r' q' Hq'. destruct (Hc _ _ Hq') as (q & Hq & _ & ->). by apply iv_expires.
  - intros id Hid. apply iv_unmade. intros r' q Hq. destruct (Hb _ _ Hq) as (q' & Hq' & <- & _). by eapply Hid.
  - intros k task Hk. by destruct (iv_task k task Hk).
  - intros h t id Ht Hid. destruct (iv_request_armed h t id Ht Hid) as (r' & q & Hq & ? & ? & ?).
    destruct (Hb _ _ Hq) as (q' & ? & ? & ?). exists r', q'. split_and!; congruence || done.
Qed.

Lemma lookup_armed (h n : nat) (t : Timer) (m : gmap nat Timer) : (h < n)%nat -> <[n := t]> m !! h = m !! h.
Proof. intros Hh. rewrite lookup_insert_ne; [done|lia]. Qed.

(** A request's timer is armed anew. *)
Lemma inv_rearm xf b r q delay : requests (host b) !! r = Some q -> r ∈ pendingTaskRequests b ->
  (forall h t, timers (host b) !! h = Some t -> tm_call t <> RequestTimeout (rq_requestId q)) -> Inv (Some r) xf b ->
  Inv None xf (change_request r (set_timeout (fresh (host b))) (setTimeout (RequestTimeout (rq_requestId q)) delay b).2).
Proof.
  intros Hq Hp Harm HI. destruct HI.
  assert (Hc : forall r' q', alter (set_timeout (fresh (host b))) r (requests (host b)) !! r' = Some q' ->
    exists q0, requests (host b) !! r' = Some q0 /\ rq_requestId q' = rq_requestId q0 /\
      rq_timeout q' = (if decide (r' = r) then Some (fresh (host b)) else rq_timeout q0)).
  { intros r' q' [[<- (q0 & Hq0 & ->)]|[Hne Hq0]]%lookup_alter_Some.
    - exists q0. by rewrite decide_True.
    - exists q'. by rewrite decide_False by congruence. }
  assert (Hb : forall r' q0, requests (host b) !! r' = Some q0 -> exists q',
    alter (set_timeout (fresh (host b))) r (requests (host b)) !! r' = Some q' /\ rq_requestId q' = rq_requestId q0 /\
    rq_acceptInProgress q' = rq_acceptInProgress q0 /\ rq_timeout q' = (if decide (r' = r) then Some (fresh (host b)) else rq_timeout q0)).
  { intros r' q0 Hq0. destruct (decide (r' = r)) as [->|Hd]; [|exists q0; by rewrite lookup_alter_ne].
    exists (set_timeout (fresh (host b)) q0). by rewrite lookup_alter_eq, Hq0. }
  assert (Hw : forall b', pendingTaskRequests b' = pendingTaskRequests b -> forall r', waiting b' None r' <-> waiting b (Some r) r')
    by (intros b' Hb' r'; unfold waiting; rewrite Hb'; naive_solver).
  split; simpl; try done.
  - intros h t [[<- _]|[_ H]]%lookup_insert_Some; [lia|]. specialize (iv_timer_lt h t H). lia.
  - intros i Hi%iv_thread_lt. lia.
  - intros i f Hf. destruct (iv_flow_timer i f Hf) as [H1 H2]. split; simpl; [lia|]. by rewrite lookup_armed.
  - intros j f Hf. destruct (iv_flow j f Hf) as [F1 F2 F3 F4]. split; simpl; try done.
    + destruct F1 as [q0 Hq0]. destruct (Hb _ _ Hq0) as (q' & ? & _). by exists q'.
    + intros Hst. destruct (F3 Hst) as (? & ? & q0 & Hq0 & Ha). split_and!; try done.
      destruct (Hb _ _ Hq0) as (q' & ? & _ & ? & _). exists q'. split; [done|congruence].
  - intros r' q' Hq'. destruct (Hc _ _ Hq') as (q0 & Hq0 & Hid & Hto). destruct (iv_request r' q0 Hq0) as [R1 (h & R2 & R3 & R4) R5].
    split; simpl; [lia| |].
    + rewrite Hid, Hto. destruct (decide (r' = r)) as [->|Hd].
      * exists (fresh (host b)). split_and!; [done|lia|]. intros t. rewrite lookup_insert_eq. intros [= <-]. simpl. congruence.
      * exists h. rewrite lookup_armed by done. split_and!; [done|lia|done].
    + rewrite Hid. etrans; [exact R5|]. apply decide_ext. by symmetry; apply Hw.
  - intros r1 r2 q1 q2 H1 H2 Hid. destruct (Hc _ _ H1) as (p1 & Hp1 & E1 & _), (Hc _ _ H2) as (p2 & Hp2 & E2 & _).
    eapply iv_distinct; [done|done|congruence].
  - intros r' [q0 Hq0]%iv_pending. destruct (Hb _ _ Hq0) as (q' & ? & _). by exists q'.
  - intros r' q' Hq' Hr' _. destruct (Hc _ _ Hq') as (q0 & Hq0 & _ & ->). destruct (decide (r' = r)) as [|Hd].
    + exists (fresh (host b)). eexists. by rewrite lookup_insert_eq.
    + destruct (iv_expires r' q0 Hq0 Hr') as (h & t & Hh & Ht); [congruence|]. exists h, t. split; [done|].
      rewrite lookup_armed; [done|]. by eapply iv_timer_lt.
  - intros id Hid. apply iv_unmade. intros r' q0 Hq0. destruct (Hb _ _ Hq0) as (q' & Hq' & <- & _). by eapply Hid.
  - intros k task Hk. destruct (iv_task k task Hk) as [T1 T2 T3 T4]. split; simpl; try done.
    intros h Hh. destruct (T4 h Hh) as (Hlt & a & ? & ? & ?). split; simpl; [lia|]. exists a. by rewrite lookup_armed.
  - intros h t k [[_ <-]|[_ H]]%lookup_insert_Some; [done|by eapply iv_task_armed].
  - intros h t id [[<- <-]|[Hne Ht]]%lookup_insert_Some; simpl.
    + intros [= <-]. destruct (Hb _ _ Hq) as (q' & ? & ? & _ & Hto). exists r, q'. rewrite decide_True in Hto by done.
      split_and!; try done. by left.
    + intros Hid. destruct (iv_request_armed h t id Ht Hid) as (r' & q0 & Hq0 & ? & ? & ?).
      destruct (Hb _ _ Hq0) as (q' & ? & ? & _ & Hto). assert (r' <> r) by (intros ->; simplify_eq; by apply (Harm h t)).
      rewrite decide_False in Hto by done. exists r', q'. split_and!; try congruence. by apply Hw.
Qed.

(** A request no longer waiting for anything has no timer left. *)
Lemma no_request_timer xf b r q h t : Inv None xf b -> requests (host b) !! r = Some q -> r ∉ pendingTaskRequests b ->
  timers (host b) !! h = Some t -> tm_call t <> RequestTimeout (rq_requestId q).
Proof.
  intros HI Hq Hr Ht Hc. destruct (iv_request_armed _ _ _ _ HI h t _ Ht Hc) as (r' & q' & Hq' & Hid & _ & [Hw|]); [|done].
  rewrite (iv_distinct _ _ _ _ HI r' r q' q) in Hw; done.
Qed.

(** A waiting request's timer cleared: none is left for it. *)
Lemma inv_clear_request xf b r q : requests (host b) !! r = Some q -> r ∈ pendingTaskRequests b -> Inv None xf b ->
  Inv (Some r) xf (clearTimeout (rq_timeout q) b) /\
  (forall h t, timers (host (clearTimeout (rq_timeout q) b)) !! h = Some t -> tm_call t <> RequestTimeout (rq_requestId q)).
Proof.
  intros Hq Hp HI. destruct (ro_timer _ _ _ _ (iv_request _ _ _ _ HI r q Hq)) as (h & Hto & _ & Hcall). rewrite Hto. split.
  - apply inv_clear; [|by apply inv_skip_request]. intros r' q' Hq' Hp' Hto'. f_equal.
    destruct (iv_expires _ _ _ _ HI r' q' Hq' Hp' ltac:(done)) as (h' & t & Hh' & Ht). simplify_eq.
    destruct (ro_timer _ _ _ _ (iv_request _ _ _ _ HI r' q' Hq')) as (h2 & ? & _ & Hcall'). simplify_eq.
    pose proof (Hcall t Ht) as H1. rewrite (Hcall' t Ht) in H1. injection H1 as H1. by eapply (iv_distinct _ _ _ _ HI).
  - simpl. intros h' t [Hne Ht]%lookup_delete_Some Hc.
    destruct (iv_request_armed _ _ _ _ HI h' t _ Ht Hc) as (r' & q' & Hq' & Hid & Hto' & _).
    assert (r' = r) as -> by (by eapply (iv_distinct _ _ _ _ HI)). congruence.
Qed.

Lemma has_id_pending xr xf b r q r' : Inv xr xf b -> requests (host b) !! r = Some q -> has_id (rq_requestId q) b r' = true -> r' = r.
Proof.
  intros HI Hq. unfold has_id. destruct (requests (host b) !! r') as [q'|] eqn:Hq'; [|done]. intros Hid%bool_decide_eq_true.
  by eapply (iv_distinct _ _ _ _ HI).
Qed.

Lemma quiet_refreshes b r n : quiet b (change_request r (set_refreshes n) b).
Proof.
  split; try done.
  - intros r'. simpl. destruct (decide (r' = r)) as [->|Hne]; [|by rewrite lookup_alter_ne]. rewrite lookup_alter_eq.
    by destruct (requests (host b) !! r).
  - by left.
  - exists []. by rewrite app_nil_r.
Qed.

Lemma inv_refreshRequestTimeout config xf b r : Inv None xf b -> Inv None xf (refreshRequestTimeout config r b).
Proof.
  intros HI. unfold refreshRequestTimeout. destruct (requests (host b) !! r) as [q|] eqn:Hq; [|done].
  destruct (existsb _ _) eqn:Hex; [|done]. destruct (_ <? _); [|done]. cbn [andb].
  apply existsb_exists in Hex as (r' & Hr'%list_elem_of_In & Hid). apply (has_id_pending _ _ _ _ _ _ HI Hq) in Hid as ->.
  set (q1 := set_refreshes (rq_timeoutRefreshes q + 1) q). set (b1 := change_request r _ b).
  assert (H1 : Inv None xf b1) by (eapply inv_quiet; [apply quiet_refreshes|done]).
  assert (Hq1 : requests (host b1) !! r = Some q1) by (simpl; by rewrite lookup_alter_eq, Hq).
  destruct (inv_clear_request xf b1 r q1 Hq1) as [H2 H3]; [done|done|]. change (rq_timeout q) with (rq_timeout q1).
  change (rq_requestId q) with (rq_requestId q1). unfold createRequestTimeout.
  apply (inv_rearm xf _ r q1); try done; by destruct (rq_timeout q1).
Qed.

Lemma inv_new_request config xf b id requester taskType :
  (forall r q, requests (host b) !! r = Some q -> rq_requestId q <> id) -> Inv None xf b ->
  let '(r, b') := new_request config id requester taskType b in
  Inv (Some r) xf b' /\ r ∉ pendingTaskRequests b' /\ isDraining b' = isDraining b /\ exists q h t, requests (host b') !! r = Some q /\
    rq_requestId q = id /\ rq_requesterId q = requester /\ rq_acceptInProgress q = false /\ rq_timeout q = Some h /\
    timers (host b') !! h = Some t.
Proof.
  intros Hnew HI. unfold new_request, createRequestTimeout, setTimeout, allocate. cbn [fst snd].
  set (h := fresh (host b)). set (r := fresh (host (with_host _ _))). assert (Hr : r = S h) by done. clearbody r. subst r.
  assert (Hrp : S h ∉ pendingTaskRequests b).
  { intros [q Hq]%(iv_pending _ _ _ _ HI). apply (iv_request _ _ _ _ HI) in Hq as [? _ _]. lia. }
  assert (Hn : requests (host b) !! S h = None).
  { destruct (requests (host b) !! S h) as [q|] eqn:Hq; [|done]. apply (iv_request _ _ _ _ HI) in Hq as [? _ _]. lia. }
  split_and!; [|done|done|].
  - destruct HI. split; simpl; try done.
    + intros h' t [[<- _]|[_ H]]%lookup_insert_Some; [lia|]. specialize (iv_timer_lt h' t H). lia.
    + intros i Hi%iv_thread_lt. lia.
    + intros i f Hf. destruct (iv_flow_timer i f Hf) as [H1 H2]. split; simpl; [lia|]. by rewrite lookup_armed.
    + intros j f Hf. destruct (iv_flow j f Hf) as [F1 F2 F3 F4]. split; simpl; try done.
      * destruct F1 as [q0 Hq0]. rewrite lookup_insert_ne; [by exists q0|congruence].
      * intros Hst. destruct (F3 Hst) as (? & ? & q0 & Hq0 & Ha). split_and!; try done. exists q0.
        rewrite lookup_insert_ne; [done|congruence].
    + intros r' q' [[<- <-]|[Hne Hq']]%lookup_insert_Some.
      * split; simpl; [lia| |].
        -- exists h. split_and!; [done|lia|]. intros t. rewrite lookup_insert_eq. by intros [= <-].
        -- rewrite decide_True by (by right). by apply iv_unmade.
      * destruct (iv_request r' q' Hq') as [R1 (h' & R2 & R3 & R4) R5]. split; simpl; [lia| |].
        -- exists h'. rewrite lookup_armed by done. split_and!; [done|lia|done].
        -- etrans; [exact R5|]. apply decide_ext. unfold waiting. simpl. naive_solver.
    + intros r1 r2 q1 q2 [[<- <-]|[? H1]]%lookup_insert_Some [[<- <-]|[? H2]]%lookup_insert_Some Hid; simpl in *;
        [done|by destruct (Hnew _ _ H2)|by destruct (Hnew _ _ H1)|by eapply iv_distinct].
    + intros r' Hr'. rewrite lookup_insert_ne; [by apply iv_pending|]. intros <-. done.
    + intros r' q' [[<- <-]|[Hne Hq']]%lookup_insert_Some Hp _; [done|].
      destruct (iv_expires r' q' Hq' Hp) as (h' & t & Hh & Ht); [done|]. exists h', t. split; [done|].
      rewrite lookup_armed; [done|]. by eapply iv_timer_lt.
    + intros id' Hid. apply iv_unmade. intros r' q' Hq'. apply (Hid r'). rewrite lookup_insert_ne; [done|congruence].
    + intros k task Hk. destruct (iv_task k task Hk) as [T1 T2 T3 T4]. split; simpl; try done.
      intros h' Hh. destruct (T4 h' Hh) as (Hlt & a & ? & ? & ?). split; simpl; [lia|]. exists a. by rewrite lookup_armed.
    + intros h' t k [[_ <-]|[_ H]]%lookup_insert_Some; [done|by eapply iv_task_armed].
    + intros h' t id' [[<- <-]|[Hne Ht]]%lookup_insert_Some; simpl.
      * intros [= <-]. eexists _, _. rewrite lookup_insert_eq. split_and!; [done|done|done|by right].
      * intros Hid. destruct (iv_request_armed h' t id' Ht Hid) as (r' & q0 & Hq0 & ? & ? & [Hw|]); [|done].
        exists r', q0. rewrite lookup_insert_ne by congruence. split_and!; try done. by left.
  - simpl. eexists _, h, _. rewrite !lookup_insert_eq. split_and!; done.
Qed.

(** ** Suspended calls *)

Lemma inv_end_thread xr b i : Inv xr (Some i) b -> Inv xr None (end_thread i b).
Proof.
  intros HI. destruct HI. assert (Hf : forall j f, flow_at (end_thread i b) None j f -> flow_at b (Some i) j f).
  { intros j f [Hf _]. simpl in Hf. apply lookup_delete_Some in Hf as [Hne Hf]. split; [done|congruence]. }
  split; simpl; try done.
  - intros j Hj. apply iv_thread_lt. destruct Hj as [x [_ Hx]%lookup_delete_Some]. by exists x.
  - intros j f [_ Hj]%lookup_delete_Some. by eapply iv_flow_timer.
  - intros j f Hj%Hf. by destruct (iv_flow j f Hj).
  - intros j j' f g Hj%Hf Hj'%Hf. by apply iv_owner.
  - intros j j' f g Hj%Hf Hj'%Hf. by apply iv_single.
  - intros r q Hq. by destruct (iv_request r q Hq).
  - intros k task Hk. by destruct (iv_task k task Hk).
Qed.

(** The running call is suspended again. *)
Definition at_stage (f : Flow) (st : Stage) : Flow :=
  {| fl_taskId := fl_taskId f; fl_offer := fl_offer f; fl_request := fl_request f; fl_promise := fl_promise f;
     fl_timer := fl_timer f; fl_stage := st |}.

Lemma inv_to_stage xr b i f st : (i < fresh (host b))%nat -> accept_timer b (fl_timer f) -> flow_ok nanoid b (at_stage f st) ->
  (unsent st = true -> forall j g, flow_at b (Some i) j g -> unsent (fl_stage g) = true -> fl_taskId g <> fl_taskId f) ->
  (first_half st = true -> forall j g, flow_at b (Some i) j g -> first_half (fl_stage g) = true -> fl_request g <> fl_request f) ->
  Inv xr (Some i) b -> Inv xr None (to_stage i f st b).
Proof.
  intros Hlt Ht Hf Ho Hs HI. destruct HI.
  assert (Hat : forall j g, flow_at (to_stage i f st b) None j g -> j = i /\ g = at_stage f st \/ j <> i /\ flow_at b (Some i) j g).
  { intros j g [Hj _]. simpl in Hj. apply lookup_insert_Some in Hj as [[<- Hg]|[Hne Hg]].
    - injection Hg as <-. by left.
    - right. split; [congruence|]. split; [done|congruence]. }
  split; simpl; try done.
  - intros j [x [[<- _]|[_ Hj]]%lookup_insert_Some]; [done|]. apply iv_thread_lt. by exists x.
  - intros j g [[<- [= <-]]|[_ Hj]]%lookup_insert_Some; [done|]. by eapply iv_flow_timer.
  - intros j g [[-> ->]|[_ Hg]]%Hat; [by destruct Hf|by destruct (iv_flow j g Hg)].
  - intros j j' g g' [[-> ->]|[Hne Hg]]%Hat [[-> ->]|[Hne' Hg']]%Hat H1 H2 Hk; simpl in *; [done| | |by eapply iv_owner].
    + by destruct (Ho H1 j' g' Hg' H2).
    + by destruct (Ho H2 j g Hg H1).
  - intros j j' g g' [[-> ->]|[Hne Hg]]%Hat [[-> ->]|[Hne' Hg']]%Hat H1 H2 Hk; simpl in *; [done| | |by eapply iv_single].
    + by destruct (Hs H1 j' g' Hg' H2).
    + by destruct (Hs H2 j g Hg H1).
  - intros r q Hq. by destruct (iv_request r q Hq).
  - intros k task Hk. by destruct (iv_task k task Hk).
Qed.

(** A stage past both halves asks for nothing but its request and id. *)
Lemma inv_to_idle_stage xr b i f st : unsent st = false -> (i < fresh (host b))%nat -> accept_timer b (fl_timer f) ->
  is_Some (requests (host b) !! fl_request f) -> given nanoid b (fl_taskId f) -> Inv xr (Some i) b -> Inv xr None (to_stage i f st b).
Proof.
  intros Hst Hlt Ht Hr Hg HI. assert (Hfh : first_half st = false) by (by destruct st).
  apply inv_to_stage; try done; rewrite ?Hst, ?Hfh; try done. split; simpl; rewrite ?Hst, ?Hfh; done.
Qed.

Lemma inv_spawn_flow xr xf b f : accept_timer b (fl_timer f) -> flow_ok nanoid b f ->
  (forall j g, flow_at b xf j g -> unsent (fl_stage g) = true -> fl_taskId g <> fl_taskId f) ->
  (forall j g, flow_at b xf j g -> first_half (fl_stage g) = true -> fl_request g <> fl_request f) ->
  Inv xr xf b -> Inv xr xf (spawn (Accepting f) b).
Proof.
  intros Ht Hf Ho Hs HI. destruct HI.
  assert (Hat : forall j g, flow_at (spawn (Accepting f) b) xf j g -> j = fresh (host b) /\ g = f \/ flow_at b xf j g).
  { intros j g [Hj Hx]. simpl in Hj. apply lookup_insert_Some in Hj as [[<- Hg]|[_ Hg]].
    - injection Hg as <-. by left.
    - right. by split. }
  split; simpl; try done.
  - intros h t H%iv_timer_lt. lia.
  - intros j [x [[<- _]|[_ Hj]]%lookup_insert_Some]; [lia|]. assert (j < fresh (host b))%nat; [|lia]. apply iv_thread_lt. by exists x.
  - intros j g [[<- [= <-]]|[_ Hj]]%lookup_insert_Some; [destruct Ht as [H1 H2]|destruct (iv_flow_timer j g Hj) as [H1 H2]];
      (split; simpl; [lia|done]).
  - intros j g [[-> ->]|Hg]%Hat; [by destruct Hf|by destruct (iv_flow j g Hg)].
  - intros j j' g g' [[-> ->]|Hg]%Hat [[-> ->]|Hg']%Hat H1 H2 Hk; [done| | |by eapply iv_owner].
    + by destruct (Ho j' g' Hg' H2).
    + by destruct (Ho j g Hg H1).
  - intros j j' g g' [[-> ->]|Hg]%Hat [[-> ->]|Hg']%Hat H1 H2 Hk; [done| | |by eapply iv_single].
    + by destruct (Hs j' g' Hg' H2).
    + by destruct (Hs j g Hg H1).
  - intros r q Hq. destruct (iv_request r q Hq) as [R1 (h & R2 & R3 & R4) R5]. split; simpl; [lia| |done]. exists h.
    split_and!; [done|lia|done].
  - intros k task Hk. destruct (iv_task k task Hk) as [T1 T2 T3 T4]. split; simpl; try done.
    intros h Hh. destruct (T4 h Hh) as (Hlt & a & H). split; simpl; [lia|]. by exists a.
Qed.

(** Everything kept but how many ids were given out. *)
Lemma inv_next_id xr xf b : Inv xr xf b -> Inv xr xf (with_host next_id b).
Proof.
  intros HI. destruct HI. assert (Hg : forall k, given nanoid b k -> given nanoid (with_host next_id b) k)
    by (intros k (n & ? & ->); exists n; simpl; split; [lia|done]).
  split; simpl; try done.
  - intros i f Hf. destruct (iv_flow i f Hf). split; try done. by apply Hg.
  - intros r q Hq. by destruct (iv_request r q Hq).
  - intros k task Hk. destruct (iv_task k task Hk). split; try done. by apply Hg.
  - intros k. destruct (iv_ended k). split; [done|]. intros He. by apply Hg, iv_ended.
Qed.

(** An id that was not given out names nothing. *)
Lemma unused_id xr xf b k : Inv xr xf b -> ~ given nanoid b k -> map_get k (tasks b) = None /\ ends k (sent (host b)) = O /\
  forall i f, flow_at b xf i f -> fl_taskId f <> k.
Proof.
  intros HI Hk. split_and!.
  - destruct (map_get k (tasks b)) as [t|] eqn:Ht; [|done]. destruct Hk. by apply (iv_task _ _ _ _ HI k t).
  - destruct (iv_ended _ _ _ _ HI k) as [H1 H2]. destruct (decide (ends k (sent (host b)) = 1%nat)) as [He|]; [|lia].
    destruct Hk. by apply H2.
  - intros i f Hf <-. apply Hk. by apply (iv_flow _ _ _ _ HI i f).
Qed.

Lemma quiet_promise b p : quiet b (with_host (set_promises p) (with_host next_ref b)).
Proof. split; try done; simpl; try lia. - by left. - exists []. by rewrite app_nil_r. Qed.

Lemma quiet_accepts b f : quiet b (with_accepts f b).
Proof. split; try done; simpl; try lia. - by left. - exists []. by rewrite app_nil_r. Qed.

Lemma inv_acceptOffer config (Hinj : Inj (=) (=) nanoid) xf b offer r q :
  requests (host b) !! r = Some q -> rq_acceptInProgress q = true ->
  (forall j g, flow_at b xf j g -> first_half (fl_stage g) = true -> fl_request g <> r) ->
  Inv None xf b -> Inv None xf (acceptOffer config nanoid offer r b).
Proof.
  intros Hq Ha Hs HI. set (k := nanoid (made (host b))).
  assert (Hk : ~ given nanoid b k) by (intros (n & Hn & Hk%Hinj); lia).
  destruct (unused_id _ _ _ _ HI Hk) as (H1 & H2 & H3).
  unfold acceptOffer, allocate. fold k. cbn [fst snd].
  set (b1 := with_accepts _ _). assert (HI1 : Inv None xf b1).
  { eapply inv_quiet; [etrans; [apply quiet_promise|apply quiet_accepts]|]. by apply inv_next_id. }
  destruct (setTimeout _ _ b1) as [h b2] eqn:Hb2.
  set (call := RunnerAcceptTimeout _ _ _) in Hb2.
  assert (HI2 : Inv None xf b2) by (replace b2 with (setTimeout call (taskAcceptTimeout config * toMilliseconds) b1).2 by (by rewrite Hb2);
    by apply inv_arm_accept).
  unfold setTimeout, allocate in Hb2. injection Hb2 as <- <-. set (b2 := with_host _ _) in *.
  apply inv_spawn_flow; [| | | |eapply inv_quiet; [apply quiet_messageRunner|done]].
  - split; simpl; [lia|]. intros t. rewrite lookup_insert_eq. by intros [= <-].
  - split; simpl; try done.
    + exists (made (host b)). split; [simpl; lia|done].
    + intros _. rewrite ends_emit by done. split_and!; [done|done|]. by exists q.
    + intros _ t. rewrite H1. done.
  - intros j g Hg _. by apply (H3 j g).
  - intros j g Hg. by apply (Hs j g).
Qed.

Lemma quiet_offers b f : quiet b (with_offers f b).
Proof. split; try done. - by left. - exists []. by rewrite app_nil_r. Qed.

Lemma quiet_warned b f : quiet b (with_warned f b).
Proof. split; try done. - by left. - exists []. by rewrite app_nil_r. Qed.

(** A request no acceptance is in progress for has none in its first half. *)
Lemma idle_request xr xf b r q : Inv xr xf b -> requests (host b) !! r = Some q -> rq_acceptInProgress q = false ->
  forall j g, flow_at b xf j g -> first_half (fl_stage g) = true -> fl_request g <> r.
Proof.
  intros HI Hq Ha j g Hg Hst <-. destruct (fo_first _ _ _ (iv_flow _ _ _ _ HI j g Hg) Hst) as (_ & _ & q' & ? & ?). congruence.
Qed.

Lemma inv_settle_request config (Hinj : Inj (=) (=) nanoid) xf b r :
  Inv None xf b -> Inv None xf (settle_request config nanoid b r).
Proof.
  intros HI. unfold settle_request. destruct (requests (host b) !! r) as [q|] eqn:Hq; [|done].
  destruct (rq_acceptInProgress q) eqn:Ha; [done|]. destruct (list_find _ _) as [[i offer]|].
  - apply (inv_acceptOffer config Hinj xf _ offer r (set_accepting true q)); try done.
    + simpl. by rewrite lookup_alter_eq, Hq.
    + intros j g [Hg Hx]. by apply (idle_request _ _ _ _ _ HI Hq Ha j).
    + eapply inv_quiet; [etrans; [apply quiet_offers|apply quiet_warned]|]. by apply inv_set_accepting.
  - unfold warnOnTaskTypeMismatch. destruct (pendingTaskOffers b); [done|]. eapply inv_quiet; [apply quiet_warned|done].
Qed.

Lemma inv_settleTasks config (Hinj : Inj (=) (=) nanoid) xf b : Inv None xf b -> Inv None xf (settleTasks config nanoid b).
Proof.
  intros HI. unfold settleTasks. set (b1 := discardOffersFromUnreachableRunners _).
  assert (H1 : Inv None xf b1) by (eapply inv_quiet; [etrans; [apply quiet_offers|apply quiet_offers]|done]).
  clearbody b1. generalize (pendingTaskRequests b1). intros l. revert b1 H1.
  induction l as [|r l IH]; intros b1 H1; [done|]. by apply IH, inv_settle_request.
Qed.

End Pieces.
