(* ===== verification/TaskBrokerReach.v ===== *)
(** * Task broker: every event keeps the invariant

    [reachable]: the states a broker gets to by any events, each enabled, provided that no
    requester uses a request id again (they are random). *)

From stdpp Require Import base gmap strings pretty list fin_maps relations.
From Stdlib Require Import ZArith Lia.
From S2P Require Import Prelude.
From S2P Require Import JsCollections.
From S2P Require Import EngineTypes.
From S2P Require Import TaskBroker.
From S2P Require Import TaskBrokerRun.
From S2P Require Import TaskBrokerInv.
From S2P Require Import TaskBrokerSteps.

#[local] Open Scope Z_scope.

(** ** Reachable brokers *)

(** What the requesters promise: the id of a request is new. *)
Definition id_unused (b : Broker) (ev : Event) : Prop :=
  match ev with
  | RequesterSays _ (RequesterRequest id _) => forall r q, requests (host b) !! r = Some q -> rq_requestId q <> id
  | _ => True
  end.

Inductive reachable (config : TaskRunnersConfig) (nanoid : nat -> string) (now mono : Z) : Broker -> Prop :=
  | reach_start b : new_broker config now mono = Ok b -> reachable config nanoid now mono b
  | reach_step b ev b' : reachable config nanoid now mono b -> id_unused b ev -> on_event config nanoid ev b = Some b' ->
      reachable config nanoid now mono b'.

(** ** Quiet operations *)

Create HintDb quiet discriminated.

Ltac quiet_step := split; simpl; try done; try lia; [by left|exists []; by rewrite app_nil_r].

Lemma quiet_strikes b f : quiet b (with_strikes f b).
Proof. quiet_step. Qed.
Lemma quiet_silent b f : quiet b (with_silent f b).
Proof. quiet_step. Qed.
Lemma quiet_runners b f : quiet b (with_runners f b).
Proof. quiet_step. Qed.
Lemma quiet_requesters b f : quiet b (with_requesters f b).
Proof. quiet_step. Qed.
Lemma quiet_confirms b f : quiet b (with_confirms f b).
Proof. quiet_step. Qed.
Lemma quiet_draining b d : quiet b (with_draining d b).
Proof. quiet_step. Qed.
Lemma quiet_settle p r b : quiet b (settle p r b).
Proof. unfold settle. destruct (promises (host b) !! p) as [[]|]; try reflexivity. quiet_step. Qed.

Lemma quiet_pass_time ms ns b : 0 <= ms -> quiet b (with_host (pass_time ms ns) b).
Proof. intros Hms. quiet_step. Qed.

Lemma quiet_end_thread i b : quiet b (end_thread i b).
Proof.
  split; simpl; try done.
  - intros j f [_ Hj]%lookup_delete_Some. done.
  - intros j [x [_ Hx]%lookup_delete_Some]. left. by exists x.
  - exists []. by rewrite app_nil_r.
Qed.

Lemma quiet_spawn t b : (forall f, t <> Accepting f) -> (forall i, is_Some (threads (host b) !! i) -> (i < fresh (host b))%nat) ->
  quiet b (spawn t b).
Proof.
  intros Ht Hlt. split; simpl; try done; try lia.
  - intros j f [[_ Hf]|[_ Hf]]%lookup_insert_Some; [by destruct (Ht f)|done].
  - intros j [x [[<- _]|[_ Hx]]%lookup_insert_Some]; [right; lia|left; by exists x].
  - exists []. by rewrite app_nil_r.
Qed.

Lemma quiet_messageRequester id m b : answered_by (SentRequester id m true) = None -> ended_by (SentRequester id m true) = None ->
  quiet b (messageRequester id m b).
Proof. intros H1 H2. apply quiet_emit. by destruct m. Qed.

Lemma quiet_foldl {A} (f : Broker -> A -> Broker) (l : list A) b : (forall b x, quiet b (f b x)) -> quiet b (foldl f b l).
Proof. intros Hf. revert b. induction l as [|x l IH]; intros b; [reflexivity|]. simpl. etrans; [apply Hf|apply IH]. Qed.

#[export] Hint Resolve quiet_strikes quiet_silent quiet_runners quiet_requesters quiet_confirms quiet_draining quiet_settle
  quiet_end_thread quiet_offers quiet_warned quiet_accepts quiet_messageRunner quiet_foldl : quiet.
#[export] Hint Extern 1 (quiet ?b ?b) => reflexivity : quiet.

Lemma quiet_settle_runner k p b : quiet b (settle_runner k p b).
Proof.
  unfold settle_runner. destruct (map_get k (runnerAcceptRejects b)); [|reflexivity].
  etrans; [apply quiet_strikes|]. etrans; [apply quiet_settle|apply quiet_accepts].
Qed.

Lemma quiet_reportUnresponsive id b : quiet b (reportUnresponsive id b).2.
Proof. unfold reportUnresponsive. destruct (getInFlightTaskIds id b); [by apply quiet_emit|reflexivity]. Qed.

Lemma quiet_flagRunnerIfUnresponsive config id b : quiet b (flagRunnerIfUnresponsive config id b).
Proof.
  unfold flagRunnerIfUnresponsive. destruct (match _ with Some _ => _ | None => _ end); [reflexivity|]. cbv zeta.
  set (b1 := with_strikes _ b). assert (H1 : quiet b b1) by apply quiet_strikes. destruct (_ <? _); [done|].
  pose proof (quiet_reportUnresponsive id b1) as H2. destruct (reportUnresponsive id b1) as [[] b2]; simpl in H2.
  - etrans; [exact H1|]. etrans; [exact H2|apply quiet_strikes].
  - by etrans.
Qed.

Lemma quiet_flag_silent t b r : quiet b (flag_silent t b r).
Proof.
  unfold flag_silent. destruct (negb _); [apply quiet_silent|]. destruct (map_get _ _) as [s|]; [|apply quiet_silent].
  destruct (_ <=? _); [|reflexivity]. pose proof (quiet_reportUnresponsive (rn_id r) b) as H2.
  destruct (reportUnresponsive (rn_id r) b) as [[] b2]; simpl in H2; [|done]. etrans; [exact H2|apply quiet_silent].
Qed.

Lemma quiet_flagSilentRunners taskType b : quiet b (flagSilentRunners taskType b).
Proof.
  unfold flagSilentRunners. etrans; [apply quiet_offers|]. apply quiet_foldl. intros b' k. apply quiet_flag_silent.
Qed.

#[export] Hint Resolve quiet_settle_runner quiet_flagRunnerIfUnresponsive quiet_flagSilentRunners : quiet.

(** ** What a turn leaves of the suspended calls *)

(** A turn neither resumes another call nor loses a request object. *)
Record steady (b b' : Broker) : Prop := {
  st_threads : forall i, (i < fresh (host b))%nat -> threads (host b') !! i = threads (host b) !! i;
  st_requests : forall r, is_Some (requests (host b) !! r) -> is_Some (requests (host b') !! r);
  st_fresh : (fresh (host b) <= fresh (host b'))%nat;
  st_made : (made (host b) <= made (host b'))%nat;
}.

#[export] Instance steady_refl : Reflexive steady.
Proof. intros b. by split. Qed.

#[export] Instance steady_trans : Transitive steady.
Proof.
  intros a b c [A1 A2 A3 A4] [B1 B2 B3 B4]. split; try lia; [|by auto]. intros i Hi. rewrite B1 by lia. by apply A1.
Qed.

Lemma steady_same b b' : threads (host b') = threads (host b) -> requests (host b') = requests (host b) ->
  fresh (host b') = fresh (host b) -> made (host b') = made (host b) -> steady b b'.
Proof. intros H1 H2 H3 H4. split; rewrite ?H1, ?H2, ?H3, ?H4; done. Qed.

Lemma steady_clear h b : steady b (clearTimeout h b).
Proof. by destruct h; apply steady_same. Qed.

Lemma steady_cancelTask k reason b : steady b (cancelTask k reason b).
Proof.
  unfold cancelTask, untrackTask. destruct (map_get k (tasks b)) as [t|]; [|done]. destruct (tk_timeout t); by apply steady_same.
Qed.

Lemma steady_failTask k e b : steady b (failTask k e b).
Proof.
  unfold failTask, untrackTask. destruct (map_get k (tasks b)) as [t|]; [|done]. destruct (tk_timeout t); by apply steady_same.
Qed.

Lemma steady_getRunnerOrFailTask k b : steady b (getRunnerOrFailTask k b).2.
Proof.
  unfold getRunnerOrFailTask. destruct (map_get k (tasks b)) as [t|]; [|done].
  destruct (map_get (tk_runnerId t) (knownRunners b)) as [kr|]; [|apply steady_failTask].
  destruct (kr_reachable kr); [done|apply steady_failTask].
Qed.

Lemma steady_change_request r f b : steady b (change_request r f b).
Proof. split; try done. intros r' Hr'. simpl. by apply lookup_alter_is_Some. Qed.

Lemma steady_setTimeout c d b : steady b (setTimeout c d b).2.
Proof. split; simpl; try done; lia. Qed.

Lemma steady_refreshRequestTimeout config r b : steady b (refreshRequestTimeout config r b).
Proof.
  unfold refreshRequestTimeout. destruct (requests (host b) !! r) as [q|]; [|done]. destruct (_ && _); [|done].
  etrans; [apply steady_change_request|]. etrans; [apply steady_clear|]. etrans; [apply steady_setTimeout|apply steady_change_request].
Qed.

Lemma steady_acceptOffer config nanoid offer r b : steady b (acceptOffer config nanoid offer r b).
Proof.
  split; simpl; try done; try lia. intros i Hi. by rewrite lookup_insert_ne by lia.
Qed.

Lemma steady_settle_request config nanoid b r : steady b (settle_request config nanoid b r).
Proof.
  unfold settle_request. destruct (requests (host b) !! r) as [q|]; [|done]. destruct (rq_acceptInProgress q); [done|].
  destruct (list_find _ _) as [[i offer]|]; [|unfold warnOnTaskTypeMismatch; by destruct (pendingTaskOffers b)].
  etrans; [apply steady_change_request|]. eapply steady_trans; [|apply steady_acceptOffer]. by apply steady_same.
Qed.

Lemma steady_settleTasks config nanoid b : steady b (settleTasks config nanoid b).
Proof.
  unfold settleTasks. set (b1 := discardOffersFromUnreachableRunners _). trans b1; [by apply steady_same|]. clearbody b1.
  generalize (pendingTaskRequests b1). intros l. revert b1. induction l as [|r l IH]; intros b1; [done|]. simpl.
  etrans; [apply steady_settle_request|apply IH].
Qed.

Lemma steady_flagRunnerIfUnresponsive config id b : steady b (flagRunnerIfUnresponsive config id b).
Proof.
  unfold flagRunnerIfUnresponsive. destruct (match _ with Some _ => _ | None => _ end); [done|]. cbv zeta.
  destruct (_ <? _); [by apply steady_same|]. unfold reportUnresponsive. destruct (getInFlightTaskIds _ _); by apply steady_same.
Qed.

Section Flows.
Context (config : TaskRunnersConfig) (nanoid : nat -> string) (Hinj : Inj (=) (=) nanoid).
Local Notation Inv := (Inv nanoid).

(** What is known of a suspended acceptance that is resumed. *)
Lemma resumed b i f : Inv None None b -> threads (host b) !! i = Some (Accepting f) ->
  (i < fresh (host b))%nat /\ flow_ok nanoid b f /\
  (unsent (fl_stage f) = true -> forall j g, flow_at b (Some i) j g -> unsent (fl_stage g) = true -> fl_taskId g <> fl_taskId f) /\
  (first_half (fl_stage f) = true -> forall j g, flow_at b (Some i) j g -> first_half (fl_stage g) = true -> fl_request g <> fl_request f).
Proof.
  intros HI Hi. assert (Hf : flow_at b None i f) by done. split_and!.
  - apply (iv_thread_lt _ _ _ _ HI). by exists (Accepting f).
  - by eapply (iv_flow _ _ _ _ HI).
  - intros Hst j g [Hg Hx] Hst' Hk. apply Hx. f_equal. by eapply (iv_owner _ _ _ _ HI i j f g).
  - intros Hst j g [Hg Hx] Hst' Hk. apply Hx. f_equal. by eapply (iv_single _ _ _ _ HI i j f g).
Qed.

Lemma inv_end_flow xf b i f : xf = None \/ xf = Some i -> threads (host b) !! i = Some (Accepting f) -> Inv None xf b ->
  Inv None None (end_flow i f b).
Proof.
  intros Hxf Hi HI. unfold end_flow. pose proof (iv_flow_timer _ _ _ _ HI i f Hi) as Ht.
  apply inv_end_thread, inv_clear_accept; [done|]. destruct Hxf as [-> | ->]; [by apply inv_skip_flow|done].
Qed.

(** The call is suspended past its second half, what it ran kept the invariant. *)
Lemma inv_idle b b' i f st : threads (host b) !! i = Some (Accepting f) -> (i < fresh (host b))%nat -> flow_ok nanoid b f ->
  unsent st = false -> steady b b' -> Inv None (Some i) b' -> Inv None None (to_stage i f st b').
Proof.
  intros Hi Hlt Hf Hst [S1 S2 S3 S4] HI. rewrite <-(S1 i Hlt) in Hi. apply inv_to_idle_stage; try done; [lia| | |].
  - by apply (iv_flow_timer _ _ _ _ HI i f).
  - apply S2, Hf.
  - destruct (fo_given _ _ _ Hf) as (n & Hn & ->). exists n. split; [lia|done].
Qed.

Lemma inv_runner_declined b i f e : threads (host b) !! i = Some (Accepting f) -> first_half (fl_stage f) = true ->
  Inv None None b -> Inv None None (runner_declined config nanoid i f e b).
Proof.
  intros Hi Hst HI. destruct (resumed b i f HI Hi) as (Hlt & Hf & _ & Hs). specialize (Hs Hst).
  unfold runner_declined. set (b1 := change_request _ _ b).
  assert (H1 : Inv None (Some i) b1) by (apply inv_set_accepting; [by intros _|by apply inv_skip_flow]).
  assert (S1 : steady b b1) by apply steady_change_request.
  assert (Hend : forall b2, steady b1 b2 -> Inv None (Some i) b2 -> Inv None None (end_flow i f b2)).
  { intros b2 S2 H2. apply (inv_end_flow (Some i)); [by right| |done]. rewrite (st_threads _ _ (transitivity S1 S2)) by done. done. }
  destruct e; try (by apply Hend).
  - apply Hend; [apply steady_settleTasks|by apply inv_settleTasks].
  - apply Hend; [apply steady_refreshRequestTimeout|by apply inv_refreshRequestTimeout].
  - apply (inv_idle b); try done.
    + etrans; [exact S1|]. trans (refreshRequestTimeout config (fl_request f) (with_accepts (map_delete (fl_taskId f)) b1));
        [|by apply steady_same]. eapply steady_trans; [|apply steady_refreshRequestTimeout]. by apply steady_same.
    + eapply inv_quiet; [apply quiet_messageRunner|]. apply inv_refreshRequestTimeout. eapply inv_quiet; [apply quiet_accepts|done].
Qed.

Lemma inv_late_canceled b i f : threads (host b) !! i = Some (Accepting f) -> Inv None None b ->
  Inv None None (late_canceled config nanoid i f b).
Proof.
  intros Hi HI. destruct (resumed b i f HI Hi) as (Hlt & _). unfold late_canceled. apply (inv_end_flow None); [by left| |].
  - erewrite st_threads; [exact Hi| |done]. eapply steady_trans; [|apply steady_settleTasks].
    eapply steady_trans; [|apply steady_flagRunnerIfUnresponsive]. by apply steady_same.
  - apply inv_settleTasks; [done|]. eapply inv_quiet; [|done]. etrans; [apply quiet_offers|apply quiet_flagRunnerIfUnresponsive].
Qed.

Lemma inv_requester_declined b i f e : threads (host b) !! i = Some (Accepting f) -> Inv None None b ->
  Inv None None (requester_declined i f e b).
Proof.
  intros Hi HI. destruct (resumed b i f HI Hi) as (Hlt & Hf & _). unfold requester_declined.
  assert (Hc : forall b1 reason, quiet b b1 -> steady b b1 -> Inv None None (to_stage i f Canceling (cancelTask (fl_taskId f) reason b1))).
  { intros b1 reason Hq Hs. apply (inv_idle b); try done; [etrans; [done|apply steady_cancelTask]|].
    apply inv_cancelTask. eapply inv_quiet; [done|by apply inv_skip_flow]. }
  destruct e; try (by apply Hc).
  - apply Hc; [apply quiet_confirms|by apply steady_same].
  - by apply (inv_end_flow None); [left| |].
Qed.

(** A call not yet past sending the settings goes on. *)
Lemma inv_go_on b i f st : threads (host b) !! i = Some (Accepting f) -> unsent (fl_stage f) = true ->
  (first_half st = true -> first_half (fl_stage f) = true) -> Inv None None b -> Inv None None (to_stage i f st b).
Proof.
  intros Hi Hun Hfh HI. destruct (resumed b i f HI Hi) as (Hlt & Hf & Ho & Hs).
  apply inv_to_stage; try done; [by apply (iv_flow_timer _ _ _ _ HI i f)| |intros _; by apply Ho|intros Hst; by apply Hs, Hfh|by apply inv_skip_flow].
  destruct Hf as [F1 F2 F3 F4]. split; simpl; auto.
Qed.

Lemma inv_getRunnerOrFailTask xf b k : Inv None xf b -> Inv None xf (getRunnerOrFailTask k b).2.
Proof.
  intros HI. unfold getRunnerOrFailTask. destruct (map_get k (tasks b)) as [t|]; [|done].
  destruct (map_get (tk_runnerId t) (knownRunners b)) as [kr|]; [|by apply inv_failTask].
  destruct (kr_reachable kr); [done|by apply inv_failTask].
Qed.

Lemma getRunnerOrFailTask_ok b k id : (getRunnerOrFailTask k b).1 = Ok id -> (getRunnerOrFailTask k b).2 = b.
Proof.
  unfold getRunnerOrFailTask. destruct (map_get k (tasks b)) as [t|]; [|done].
  destruct (map_get (tk_runnerId t) (knownRunners b)) as [kr|]; [|done]. by destruct (kr_reachable kr).
Qed.

Lemma inv_sendTaskSettings b i f settings : threads (host b) !! i = Some (Accepting f) -> fl_stage f = AwaitingRequester ->
  Inv None None b -> Inv None None (sendTaskSettings i f settings b).
Proof.
  intros Hi Hst HI. destruct (resumed b i f HI Hi) as (Hlt & Hf & _). unfold sendTaskSettings.
  destruct (map_has _ _); [|by apply (inv_end_flow None); [left| |]].
  pose proof (getRunnerOrFailTask_ok b (fl_taskId f)) as Hok. pose proof (steady_getRunnerOrFailTask (fl_taskId f) b) as Hs.
  pose proof (inv_getRunnerOrFailTask (Some i) b (fl_taskId f) (inv_skip_flow _ _ _ _ HI)) as H1.
  destruct (getRunnerOrFailTask (fl_taskId f) b) as [[id|e] b1]; simpl in *.
  - rewrite (Hok id eq_refl). apply inv_go_on; try done. by rewrite Hst.
  - by apply (inv_idle b).
Qed.

Lemma inv_send_settings b i f id settings : threads (host b) !! i = Some (Accepting f) -> unsent (fl_stage f) = true ->
  Inv None None b -> Inv None None (send_settings config i f id settings b).
Proof.
  intros Hi Hun HI. destruct (resumed b i f HI Hi) as (Hlt & Hf & Ho & _). unfold send_settings.
  destruct (map_get _ _) as [task|] eqn:Hk; [|by apply (inv_end_flow None); [left| |]].
  unfold setTimeout, allocate. cbv zeta. set (at_ := match shutdownDeadline b with Some _ => _ | None => _ end).
  apply (inv_idle b); try done.
  - split; simpl; try done; lia.
  - eapply inv_quiet; [apply quiet_messageRunner|]. apply (inv_time_task nanoid None (Some i) b (fl_taskId f) task at_); try done.
    + intros h t Ht Hc. destruct (iv_task_armed _ _ _ _ HI h t _ Ht Hc) as (task' & ? & Hto). simplify_eq.
      rewrite (fo_unsent _ _ _ Hf Hun task Hk) in Hto. done.
    + intros d Hd. unfold at_. rewrite Hd. lia.
    + by apply Ho.
    + by apply inv_skip_flow.
Qed.

Lemma find_request_Some b r q : Inv None None b -> requests (host b) !! r = Some q -> r ∈ pendingTaskRequests b ->
  forall b', requests (host b') = requests (host b) -> pendingTaskRequests b' = pendingTaskRequests b ->
  exists i, find_request (rq_requestId q) b' = Some (i, r) /\ pendingTaskRequests b' !! i = Some r.
Proof.
  intros HI Hq Hp b' Hr Hpe. unfold find_request.
  assert (Hid : has_id (rq_requestId q) b' r = true) by (unfold has_id; rewrite Hr, Hq; by apply bool_decide_eq_true).
  destruct (list_find _ _) as [[i r']|] eqn:Hf.
  - apply list_find_Some in Hf as (Hi & Hh & _). assert (r' = r) as ->; [|by exists i].
    apply (has_id_pending nanoid _ _ b r q r' HI Hq). unfold has_id in *. by rewrite <-Hr.
  - apply list_find_None in Hf. rewrite Forall_forall in Hf. destruct (Hf r); [by rewrite Hpe|done].
Qed.

Lemma find_request_None b r q : Inv None None b -> requests (host b) !! r = Some q -> r ∉ pendingTaskRequests b ->
  forall b', requests (host b') = requests (host b) -> pendingTaskRequests b' = pendingTaskRequests b ->
  find_request (rq_requestId q) b' = None.
Proof.
  intros HI Hq Hp b' Hr Hpe. unfold find_request. apply list_find_None, Forall_forall. intros r' Hr' Hh. apply Hp.
  rewrite <-(has_id_pending nanoid _ _ b r q r' HI Hq); [by rewrite <-Hpe|]. unfold has_id in *. by rewrite <-Hr.
Qed.

Lemma quiet_expires b b' xf (r : nat) q : quiet b b' -> Inv (Some r) xf b' ->
  (forall h t, timers (host b) !! h = Some t -> tm_call t <> RequestTimeout (rq_requestId q)) ->
  (forall h t, timers (host b') !! h = Some t -> tm_call t <> RequestTimeout (rq_requestId q)).
Proof. intros Hq _ H h t. rewrite (qt_timers _ _ Hq). apply H. Qed.

(** The timer of a request has fired: the request expires. *)
Lemma inv_handleRequestTimeout b h t id : timers (host b) !! h = Some t -> tm_call t = RequestTimeout id -> Inv None None b ->
  Inv None None (handleRequestTimeout id (with_host (set_timers (delete h)) b)).
Proof.
  intros Ht Hc HI. destruct (iv_request_armed _ _ _ _ HI h t id Ht Hc) as (r & q & Hq & <- & Hto & [Hp|]); [|done].
  destruct (inv_clear_request nanoid None b r q Hq Hp HI) as [H1 Hun]. rewrite Hto in H1, Hun. simpl in H1, Hun.
  set (b1 := with_host (set_timers (delete h)) b) in *. unfold handleRequestTimeout.
  destruct (find_request_Some b r q HI Hq Hp b1) as (i & -> & Hi); [done|done|]. simpl requests. rewrite Hq.
  set (b2 := flagSilentRunners (rq_taskType q) b1). assert (Q2 : quiet b1 b2) by apply quiet_flagSilentRunners.
  assert (H2 : Inv (Some r) None b2) by (by eapply inv_quiet).
  assert (Hi2 : pendingTaskRequests b2 !! i = Some r) by (by rewrite (qt_pending _ _ Q2)).
  destruct (quiet_request_back _ _ r q Q2) as (q2 & Hq2 & Hcore); [done|]. apply core_eq in Hcore as (Hid & _ & Hto2 & _).
  set (b3 := with_warned _ _). rewrite Hto. simpl clearTimeout.
  assert (H3 : Inv (Some r) None b3) by (eapply inv_quiet; [apply quiet_warned|]; by apply inv_unlist).
  assert (Hnr : r ∉ pendingTaskRequests b3).
  { simpl. rewrite (elem_of_delete_nodup _ i r r); [tauto|by apply (iv_nodup _ _ _ _ H2)|done]. }
  eapply (inv_answered nanoid None _ r q2); try done.
  - simpl. intros h'. rewrite Hto2, Hto. intros [= <-]. by rewrite lookup_delete_eq.
  - simpl. by rewrite Hid.
  - apply (inv_clear nanoid _ _ _ h); [|done]. intros r' q' Hq' Hp' Hto'.
    destruct (decide (r' = r)) as [->|Hne]; [done|].
    destruct (iv_expires _ _ _ _ H3 r' q' Hq' Hp') as (h' & t' & Hh' & Ht'); [congruence|]. simplify_eq.
    simpl in Ht'. rewrite (qt_timers _ _ Q2) in Ht'. simpl in Ht'. by rewrite lookup_delete_eq in Ht'.
Qed.

Lemma inv_taskRequested b r q h t : requests (host b) !! r = Some q -> rq_timeout q = Some h -> timers (host b) !! h = Some t ->
  r ∉ pendingTaskRequests b -> Inv (Some r) None b -> Inv None None (taskRequested config nanoid r b).
Proof.
  intros Hq Hto Ht Hp HI. unfold taskRequested. rewrite Hq. destruct (isDraining b).
  - rewrite Hto. eapply (inv_answered nanoid None _ r q); try done.
    + intros h'. rewrite Hto. intros [= <-]. simpl. by rewrite lookup_delete_eq.
    + apply inv_clear; [|done]. intros r' q' Hq' Hp' Hto'. f_equal.
      destruct (ro_timer _ _ _ _ (iv_request _ _ _ _ HI r q Hq)) as (h1 & ? & _ & Hc).
      destruct (ro_timer _ _ _ _ (iv_request _ _ _ _ HI r' q' Hq')) as (h2 & ? & _ & Hc'). simplify_eq.
      pose proof (Hc t Ht) as E. rewrite (Hc' t Ht) in E. injection E as E. by eapply (iv_distinct _ _ _ _ HI).
  - apply inv_settleTasks; [done|]. by eapply inv_push.
Qed.

Lemma inv_runner_accepted b i f q : threads (host b) !! i = Some (Accepting f) -> fl_stage f = AwaitingRunner ->
  requests (host b) !! fl_request f = Some q -> Inv None None b -> Inv None None (runner_accepted config i f q b).
Proof.
  intros Hi Hst Hq HI. destruct (resumed b i f HI Hi) as (Hlt & Hf & Ho & _). set (r := fl_request f) in *.
  assert (Hun : unsent (fl_stage f) = true) by (by rewrite Hst). specialize (Ho Hun).
  destruct (fo_first _ _ _ Hf) as (Hk & He & _); [by rewrite Hst|].
  unfold runner_accepted. set (b1 := clearTimeout (Some (fl_timer f)) b).
  assert (H1 : Inv None None b1) by (apply inv_clear_accept; [by apply (iv_flow_timer _ _ _ _ HI i f)|done]).
  assert (Htrack : forall xr b2, Inv xr (Some i) b2 -> threads (host b2) = threads (host b) -> tasks b2 = tasks b ->
    sent (host b2) = sent (host b) -> made (host b2) = made (host b) -> Inv xr (Some i) (track (fl_taskId f) (fl_offer f) q b2)).
  { intros xr b2 H2 E1 E2 E3 E4. apply inv_track; try done; rewrite ?E1, ?E2, ?E3; try done.
    - destruct (fo_given _ _ _ Hf) as (n & ? & ?). exists n. by rewrite E4.
    - intros j g Hg. apply (Ho j g). unfold flow_at in *. by rewrite <-E1. }
  set (b2 := clearTimeout (rq_timeout q) b1). set (b3 := track _ _ _ b2).
  assert (E2 : forall A (p : Broker -> A), (forall b h, p (clearTimeout h b) = p b) -> p b2 = p b) by (intros A p Hp; unfold b2, b1; by rewrite !Hp).
  assert (Er : requests (host b2) = requests (host b1)) by (apply (E2 _ (fun b => requests (host b))); by intros ? []).
  assert (Ep : pendingTaskRequests b2 = pendingTaskRequests b1) by (apply (E2 _ pendingTaskRequests); by intros ? []).
  assert (Et : threads (host b2) = threads (host b)) by (apply (E2 _ (fun b => threads (host b))); by intros ? []).
  assert (Hb3 : forall xr, Inv xr (Some i) b2 -> Inv xr (Some i) b3).
  { intros xr H2. apply Htrack; [done|done|apply (E2 _ tasks)|apply (E2 _ (fun b => sent (host b)))|apply (E2 _ (fun b => made (host b)))];
      by intros ? []. }
  destruct (decide (r ∈ pendingTaskRequests b1)) as [Hp|Hp].
  - destruct (inv_clear_request nanoid (Some i) b1 r q Hq Hp (inv_skip_flow _ _ _ _ H1)) as [H2 Hno].
    apply Hb3 in H2. clear Hb3. destruct (find_request_Some b1 r q H1 Hq Hp b3 Er Ep) as (idx & -> & Hidx).
    unfold setTimeout, allocate. cbv zeta beta iota.
    assert (H4 : Inv (Some r) (Some i) (with_pending (delete idx) b3)) by (by apply inv_unlist).
    set (b4 := with_pending (delete idx) b3) in *.
    set (b5 := with_confirms _ _). assert (Q5 : quiet b4 b5) by (etrans; [apply quiet_promise|apply quiet_confirms]).
    assert (H5 : Inv (Some r) (Some i) b5) by (by eapply inv_quiet).
    set (call := RequesterAcceptTimeout _ _ _). set (b6 := with_host (set_timers _) _).
    assert (H6 : Inv (Some r) (Some i) b6) by (by apply (inv_arm_accept nanoid _ _ b5 call (taskAcceptTimeout config * toMilliseconds))).
    set (b7 := messageRequester _ _ b6).
    assert (H7 : Inv None (Some i) b7).
    { apply (inv_answered nanoid _ _ r q); try done; simpl.
      - by rewrite Er.
      - rewrite (elem_of_delete_nodup _ idx r r); [tauto|by rewrite Ep; apply (iv_nodup _ _ _ _ H1)|done].
      - intros h Hto. destruct (ro_timer _ _ _ _ (iv_request _ _ _ _ H1 r q Hq)) as (h' & ? & Hlt' & _). simplify_eq.
        rewrite lookup_insert_ne; [|unfold b2; rewrite Hto; simpl in *; lia].
        unfold b2. rewrite Hto. simpl. by rewrite lookup_delete_eq. }
    apply inv_to_stage; try done.
    + simpl. unfold b2. destruct (rq_timeout q); simpl; lia.
    + split; [simpl; lia|]. simpl. intros t. rewrite lookup_insert_eq. by intros [= <-].
    + split; simpl; try done.
      * rewrite Er. by exists q.
      * destruct (fo_given _ _ _ Hf) as (n & ? & ->). exists n. split; [|done]. simpl. unfold b2. by destruct (rq_timeout q).
      * intros _ task. rewrite map_get_set_eq. by intros [= <-].
    + intros _ j g [Hg Hx]. apply (Ho j g). split; [|done]. simpl in Hg. by rewrite <-Et.
  - assert (H2 : Inv None (Some i) b2).
    { destruct (ro_timer _ _ _ _ (iv_request _ _ _ _ H1 r q Hq)) as (h & Hto & _ & Hc). unfold b2. rewrite Hto.
      apply inv_clear; [|by apply inv_skip_flow]. intros r' q' Hq' Hp' Hto'. destruct Hp.
      destruct (iv_expires _ _ _ _ H1 r' q' Hq' Hp') as (h' & t & ? & Ht); [done|]. simplify_eq.
      destruct (ro_timer _ _ _ _ (iv_request _ _ _ _ H1 r' q' Hq')) as (h2 & ? & _ & Hc'). simplify_eq.
      pose proof (Hc t Ht) as E. rewrite (Hc' t Ht) in E. injection E as E. by rewrite <-(iv_distinct _ _ _ _ H1 r' r q' q Hq' Hq E). }
    rewrite (find_request_None b1 r q H1 Hq Hp b3 Er Ep). apply (inv_idle b); try done.
    + etrans; [|apply steady_cancelTask]. trans b1; [apply steady_clear|]. trans b2; [apply steady_clear|by apply steady_same].
    + by apply inv_cancelTask, Hb3.
Qed.

Lemma inv_handleTaskTimeout b k : Inv None None b -> Inv None None (handleTaskTimeout config k b).
Proof.
  intros HI. unfold handleTaskTimeout. destruct (map_get k (tasks b)) as [task|]; [|done]. cbv zeta. destruct (mode config).
  - apply inv_taskErrorHandler. destruct (shutdownDeadline b); [done|]. eapply inv_quiet; [by apply quiet_emit|done].
  - eapply inv_quiet; [|done]. etrans; [apply quiet_messageRunner|]. apply quiet_spawn; [done|]. apply (iv_thread_lt _ _ _ _ HI).
Qed.

Lemma inv_respond b k m : Inv None None b -> Inv None None (respond k m b).
Proof.
  intros HI. unfold respond. destruct (map_has _ _); [|done]. pose proof (inv_getRunnerOrFailTask None b k HI) as H1.
  destruct (getRunnerOrFailTask k b) as [[id|e] b1]; simpl in *; [|done].
  eapply inv_quiet; [|done]. apply quiet_spawn; [done|]. apply (iv_thread_lt _ _ _ _ H1).
Qed.

Lemma inv_to_requester b k m : answered_by (SentRequester k m true) = None -> ended_by (SentRequester k m true) = None ->
  Inv None None b -> Inv None None (to_requester k m b).
Proof.
  intros H1 H2 HI. unfold to_requester. destruct (map_get k (tasks b)); [|done].
  eapply inv_quiet; [by apply quiet_messageRequester|done].
Qed.

Lemma inv_onRunnerMessage b id m : Inv None None b -> Inv None None (onRunnerMessage config nanoid id m b).
Proof.
  intros HI. unfold onRunnerMessage. destruct (negb _); [done|]. cbv zeta. set (b1 := with_silent _ b).
  assert (H1 : Inv None None b1) by (eapply inv_quiet; [apply quiet_silent|done]).
  assert (Hr : forall k, Inv None None (resetAcceptTimeoutsOnOwnTask id k b1)).
  { intros k. unfold resetAcceptTimeoutsOnOwnTask. destruct (map_get k (tasks b1)) as [t|]; [|done]. case_bool_decide; [|done].
    eapply inv_quiet; [apply quiet_strikes|done]. }
  destruct m; try (by apply inv_to_requester); try (eapply inv_quiet; [apply quiet_settle_runner|done]).
  - done.
  - apply inv_settleTasks; [done|]. eapply inv_quiet; [apply quiet_offers|done].
  - by apply inv_taskDoneHandler.
  - by apply inv_taskErrorHandler.
Qed.

Lemma inv_onRequesterMessage b id m : id_unused b (RequesterSays id m) -> Inv None None b ->
  Inv None None (onRequesterMessage config nanoid id m b).
Proof.
  intros Hun HI. destruct m as [k settings|k reason|rid taskType|k rid data|k rid data|k c s data]; cbn [onRequesterMessage];
    [|by apply inv_cancelTask| |by apply inv_respond..].
  - unfold handleRequesterAccept. destruct (map_get _ _); [|done]. eapply inv_quiet; [|done].
    etrans; [apply quiet_settle|apply quiet_confirms].
  - pose proof (inv_new_request nanoid config None b rid id taskType Hun HI) as Hn.
    destruct (new_request config rid id taskType b) as [r b1]. destruct Hn as (H1 & Hp & _ & q & h & t & Hq & _ & _ & _ & Hto & Ht).
    by eapply inv_taskRequested.
Qed.

Lemma inv_deregisterRunner b id message : Inv None None b -> Inv None None (deregisterRunner id message b).
Proof.
  intros HI. unfold deregisterRunner. cbv zeta. apply inv_failTasks. eapply inv_quiet; [|done].
  eapply quiet_trans; [|apply quiet_foldl; intros b' [k a]; destruct (bool_decide _); [apply quiet_settle_runner|reflexivity]].
  etrans; [apply quiet_runners|]. etrans; [apply quiet_strikes|]. etrans; [apply quiet_silent|apply quiet_offers].
Qed.

(** ** Timers and suspended calls *)

Lemma inv_timer_fires b h t : timers (host b) !! h = Some t -> Inv None None b ->
  Inv None None (timer_fires config (tm_call t) (with_host (set_timers (delete h)) b)).
Proof.
  intros Ht HI. destruct (tm_call t) as [id|p k r|p k r|k] eqn:Hc; simpl.
  - by eapply inv_handleRequestTimeout.
  - eapply inv_quiet; [apply quiet_settle|]. apply (inv_clear_accept nanoid None None b h); [|done].
    split; [by apply (iv_timer_lt _ _ _ _ HI h t)|]. intros t' Ht'. simplify_eq. by rewrite Hc.
  - eapply inv_quiet; [apply quiet_settle|]. apply (inv_clear_accept nanoid None None b h); [|done].
    split; [by apply (iv_timer_lt _ _ _ _ HI h t)|]. intros t' Ht'. simplify_eq. by rewrite Hc.
  - apply inv_handleTaskTimeout. apply (inv_clear nanoid None None b h); [|done]. intros r q Hq Hp Hr.
    destruct (ro_timer _ _ _ _ (iv_request _ _ _ _ HI r q Hq)) as (h' & ? & _ & Hc'). simplify_eq. rewrite (Hc' t Ht) in Hc. done.
Qed.

Lemma inv_flow_delivered b i f o b' : threads (host b) !! i = Some (Accepting f) -> flow_delivered config nanoid i f o b = Some b' ->
  Inv None None b -> Inv None None b'.
Proof.
  intros Hi Hev HI. unfold flow_delivered in Hev. destruct (fl_stage f) eqn:Hst, o; simplify_eq;
    try (by apply inv_requester_declined); try (by apply (inv_end_flow None); [left| |]);
    try (eapply inv_quiet; [apply quiet_end_thread|done]).
  - apply inv_go_on; try done; by rewrite Hst.
  - apply inv_runner_declined; try done. by rewrite Hst.
  - by apply inv_late_canceled.
  - apply inv_go_on; try done; by rewrite Hst.
Qed.

Lemma inv_flow_resumes b i f b' : threads (host b) !! i = Some (Accepting f) -> flow_resumes config nanoid i f b = Some b' ->
  Inv None None b -> Inv None None b'.
Proof.
  intros Hi Hev HI. unfold flow_resumes in Hev. destruct (fl_stage f) eqn:Hst; try done.
  - destruct (promises (host b) !! fl_promise f) as [[]|]; try done.
    + destruct (requests (host b) !! fl_request f) as [q|] eqn:Hq; [|done]. simplify_eq. by apply inv_runner_accepted.
    + simplify_eq. apply inv_runner_declined; try done. by rewrite Hst.
  - destruct (promises (host b) !! fl_promise f) as [[]|]; try done; simplify_eq; [by apply inv_sendTaskSettings|by apply inv_requester_declined].
  - simplify_eq. apply inv_send_settings; try done. by rewrite Hst.
Qed.

(** ** Shutdown *)

Lemma inv_cap_task b deadline k : Inv None None b -> Inv None None (cap_task deadline b k).
Proof.
  intros HI. unfold cap_task. destruct (map_get k (tasks b)) as [task|] eqn:Hk; [|done]. destruct (tk_timeout task) as [old|] eqn:Hto; [|done].
  destruct (to_timer _ _ _ _ (iv_task _ _ _ _ HI k task Hk) old Hto) as (Hlt & at_ & Hat & Hd & Hc). rewrite Hat.
  destruct (at_ <=? deadline) eqn:Hle; [done|]. apply Z.leb_gt in Hle. unfold setTimeout, allocate. cbv zeta.
  set (b1 := clearTimeout (Some old) b). assert (H1 : Inv None None b1).
  { apply inv_clear; [|done]. intros r q Hq Hp Hr. destruct (iv_expires _ _ _ _ HI r q Hq Hp) as (h & t & ? & Ht); [done|]. simplify_eq.
    destruct (ro_timer _ _ _ _ (iv_request _ _ _ _ HI r q Hq)) as (h' & ? & _ & Hc'). simplify_eq.
    destruct (Hc t Ht) as [E _]. rewrite (Hc' t Ht) in E. done. }
  apply (inv_time_task nanoid None None b1 k task deadline); try done.
  - intros h t Ht Hct. simpl in Ht. apply lookup_delete_Some in Ht as [Hne Ht]. destruct (iv_task_armed _ _ _ _ HI h t k Ht Hct) as (? & ? & ?). congruence.
  - intros d Hd'. specialize (Hd d Hd'). simpl in *. lia.
  - intros i f Hf Hun Hfk. simpl in Hf. assert (Hf' : flow_at b None i f) by done.
    pose proof (fo_unsent _ _ _ (iv_flow _ _ _ _ HI i f Hf') Hun task) as E. rewrite Hfk in E. rewrite (E Hk) in Hto. done.
Qed.

(** The deadline is not read while tasks are capped. *)
Lemma cap_task_deadline deadline d b k : cap_task deadline (with_deadline d b) k = with_deadline d (cap_task deadline b k).
Proof.
  unfold cap_task. simpl. destruct (map_get k (tasks b)) as [task|]; [|done]. destruct (tk_timeout task) as [old|]; [|done].
  by destruct (match tk_timesOutAt task with Some _ => _ | None => _ end).
Qed.

(** What capping leaves to a task with a timer. *)
Definition capped (deadline : Z) (b : Broker) (k : string) : Prop :=
  forall task h, map_get k (tasks b) = Some task -> tk_timeout task = Some h ->
    exists at_, tk_timesOutAt task = Some at_ /\ at_ <= deadline.

Lemma cap_task_capped deadline b k j : capped deadline b j \/ j = k -> capped deadline (cap_task deadline b k) j.
Proof.
  unfold cap_task, capped. intros Hj. destruct (map_get k (tasks b)) as [task|] eqn:Hk.
  2: { destruct Hj as [Hj| ->]; [done|]. intros task h Ht. congruence. }
  destruct (tk_timeout task) as [old|] eqn:Hto.
  2: { destruct Hj as [Hj| ->]; [done|]. intros task' h Ht. congruence. }
  destruct (tk_timesOutAt task) as [at_|] eqn:Hat; [destruct (at_ <=? deadline) eqn:Hle|].
  { apply Z.leb_le in Hle. destruct Hj as [Hj| ->]; [done|]. intros task' h Ht Hh. simplify_eq. by exists at_. }
  all: simpl; intros task' h; rewrite map_get_set; case_decide as Hd; [intros [= <-] _; exists deadline; simpl; split; [done|lia]|];
    intros Ht Hh; destruct Hj as [Hj| ->]; [by eapply Hj|done].
Qed.

Lemma cap_tasks_capped deadline ks b j : capped deadline b j \/ j ∈ ks -> capped deadline (foldl (cap_task deadline) b ks) j.
Proof.
  revert b. induction ks as [|k ks IH]; intros b Hj; simpl; [destruct Hj as [?|?%not_elem_of_nil]; done|]. apply IH.
  destruct Hj as [Hj|[-> |Hj]%elem_of_cons]; [left; apply cap_task_capped; auto|left; apply cap_task_capped; auto|by right].
Qed.

Lemma cap_task_keys deadline b k j : map_get j (tasks b) = None -> map_get j (tasks (cap_task deadline b k)) = None.
Proof.
  intros Hj. unfold cap_task. destruct (map_get k (tasks b)) as [task|] eqn:Hk; [|done]. destruct (tk_timeout task); [|done].
  destruct (match tk_timesOutAt task with Some _ => _ | None => _ end); [done|]. simpl. rewrite map_get_set_ne; congruence.
Qed.

Lemma cap_tasks_keys deadline ks b j : map_get j (tasks b) = None -> map_get j (tasks (foldl (cap_task deadline) b ks)) = None.
Proof. revert b. induction ks as [|k ks IH]; intros b Hj; [done|]. by apply IH, cap_task_keys. Qed.

Lemma inv_with_deadline b deadline : (forall k, capped deadline b k) -> Inv None None b ->
  Inv None None (with_deadline (Some deadline) b).
Proof.
  intros Hcap HI. destruct HI. split; simpl; try done.
  - intros i f Hf. by destruct (iv_flow i f Hf).
  - intros r q Hq. by destruct (iv_request r q Hq).
  - intros k task Hk. destruct (iv_task k task Hk) as [T1 T2 T3 T4]. split; try done. intros h Hh.
    destruct (T4 h Hh) as (Hlt & at_ & Hat & _ & Hc). destruct (Hcap k task h Hk Hh) as (at' & ? & Hle). simplify_eq.
    split; [done|]. exists at_. split_and!; try done. simpl. by intros d [= <-].
Qed.

Lemma inv_capTaskTimeoutsForShutdown b deadline : Inv None None b -> Inv None None (capTaskTimeoutsForShutdown deadline b).
Proof.
  intros HI. unfold capTaskTimeoutsForShutdown. cbv zeta. simpl tasks.
  assert (Hc : forall ks b, foldl (cap_task deadline) (with_deadline (Some deadline) b) ks =
                            with_deadline (Some deadline) (foldl (cap_task deadline) b ks)).
  { intros ks. induction ks as [|k ks IH]; intros b'; [done|]. simpl. by rewrite cap_task_deadline, IH. }
  rewrite Hc. apply inv_with_deadline.
  - intros k. destruct (decide (k ∈ (tasks b).*1)) as [Hk|Hk]; [by apply cap_tasks_capped; right|].
    intros task h Hk'. apply map_get_None in Hk. rewrite cap_tasks_keys in Hk'; done.
  - generalize (tasks b).*1. intros ks. clear Hc. revert b HI. induction ks as [|k ks IH]; intros b HI; [done|]. by apply IH, inv_cap_task.
Qed.

(** ** Every event *)

Lemma inv_event b ev b' : id_unused b ev -> on_event config nanoid ev b = Some b' -> Inv None None b -> Inv None None b'.
Proof.
  intros Hun Hev HI. destruct ev; simpl in Hev.
  - injection Hev as <-. eapply inv_quiet; [|done]. etrans; [apply quiet_runners|apply quiet_messageRunner].
  - destruct (map_get _ _); [|done]. injection Hev as <-. eapply inv_quiet; [apply quiet_runners|done].
  - injection Hev as <-. by apply inv_deregisterRunner.
  - injection Hev as <-. by apply inv_failTasks.
  - injection Hev as <-. eapply inv_quiet; [apply quiet_requesters|done].
  - injection Hev as <-. eapply inv_quiet; [apply quiet_requesters|done].
  - injection Hev as <-. by apply inv_onRunnerMessage.
  - injection Hev as <-. by apply inv_onRequesterMessage.
  - destruct (timers (host b) !! handle) as [t|] eqn:Ht; [|done]. destruct (_ <=? _); [|done]. injection Hev as <-.
    by apply inv_timer_fires.
  - destruct (host_outcome o); [|done]. destruct (threads (host b) !! thread) as [[f|k e|id m]|] eqn:Hth; [| |done|done].
    + by eapply inv_flow_delivered.
    + injection Hev as <-. destruct o; [apply inv_taskErrorHandler|]; (eapply inv_quiet; [apply quiet_end_thread|done]).
  - destruct (threads (host b) !! thread) as [[f|k e|id m]|] eqn:Hth; [|done| |done].
    + by eapply inv_flow_resumes.
    + injection Hev as <-. eapply inv_quiet; [|done]. etrans; [apply quiet_end_thread|apply quiet_messageRunner].
  - injection Hev as <-. eapply inv_quiet; [apply quiet_draining|done].
  - injection Hev as <-. by apply inv_capTaskTimeoutsForShutdown.
  - destruct ((0 <=? ms) && (0 <=? ns)) eqn:Hz; [|done]. apply andb_prop in Hz as [Hz _]. apply Z.leb_le in Hz. injection Hev as <-.
    eapply inv_quiet; [by apply quiet_pass_time|done].
Qed.

Lemma broker_reachable_inv now mono b : reachable config nanoid now mono b -> Inv None None b.
Proof.
  induction 1 as [b Hb|b ev b' _ IH Hun Hev]; [|by eapply inv_event].
  unfold new_broker in Hb. repeat case_match; simplify_eq. apply inv_start.
Qed.

End Flows.
