(* ===== verification/TaskBrokerSafety.v ===== *)
(** * Task broker: what it promises

    Requests are answered once and never forgotten, tasks end once, an offer is given to
    one request, and shutdown bounds how long tasks may run.

    The second half is about the matching of offers and requests. *)

From stdpp Require Import base gmap strings pretty list fin_maps relations.
From Stdlib Require Import ZArith Lia.
From S2P Require Import Prelude.
From S2P Require Import JsCollections.
From S2P Require Import EngineTypes.
From S2P Require Import TaskBroker.
From S2P Require Import TaskBrokerRun.
From S2P Require Import TaskBrokerInv.
From S2P Require Import TaskBrokerSteps.
From S2P Require Import TaskBrokerReach.

#[local] Open Scope Z_scope.

Lemma requesters_flagSilentRunners taskType b : requesters (flagSilentRunners taskType b) = requesters b.
Proof.
  unfold flagSilentRunners. generalize (List.filter (fun k => bool_decide (taskType ∈ rn_taskTypes (kr_runner k)) && kr_reachable k)
    (knownRunners (expireTasks b)).*2). intros l. trans (requesters (expireTasks b)); [|done].
  generalize (monotonicNowMs (expireTasks b)). intros n. generalize (expireTasks b). induction l as [|k l IH]; intros b'; [done|].
  simpl. rewrite IH. unfold flag_silent, reportUnresponsive. by repeat case_match; simplify_eq.
Qed.

(** ** A history to look at *)

#[export] Instance id_unused_dec b ev : Decision (id_unused b ev).
Proof.
  destruct ev as [| | | | | | |id m| | | | | |]; try (left; exact I). destruct m as [| |rid t| | |]; try (left; exact I). simpl.
  change (Decision (map_Forall (fun _ q => rq_requestId q <> rid) (requests (host b)))). apply _.
Defined.

Section Histories.
Context (config : TaskRunnersConfig) (nanoid : nat -> string).

(** [run], where requesters keep their promise. *)
Definition history (evs : list Event) (b : Broker) : option Broker :=
  foldM (fun b ev => if decide (id_unused b ev) then on_event config nanoid ev b else None) b evs.

Lemma history_reachable now mono evs b b' : reachable config nanoid now mono b -> history evs b = Some b' ->
  reachable config nanoid now mono b'.
Proof.
  unfold history. revert b. induction evs as [|ev evs IH]; intros b Hb Hr; simpl in Hr; [by injection Hr as <-|].
  apply bind_Some in Hr as (b1 & H1 & H2). destruct (decide (id_unused b ev)) as [Hu|]; [|done].
  eapply IH; [|exact H2]. by eapply reach_step.
Qed.
End Histories.

(** Three requests; the first becomes a task, the second is deferred, the third expires. *)
Definition config_ex : TaskRunnersConfig :=
  {| taskTimeout := 300; taskRequestTimeout := 60; taskAcceptTimeout := 10; mode := External |}.

Definition runner_ex : TaskRunner := {| rn_id := "runner"; rn_name := None; rn_taskTypes := ["javascript"%string]; rn_lastSeen := 0 |}.

Definition events_ex : list Event := [
  RunnerRegisters runner_ex true; RequesterRegisters "main";
  RequesterSays "main" (RequesterRequest "r1" "javascript"); RequesterSays "main" (RequesterRequest "r2" "javascript");
  RequesterSays "main" (RequesterRequest "r3" "python"); RunnerSays "runner" (RunnerOffer "o1" "javascript" (-1));
  Delivered 8 Fulfilled; RunnerSays "runner" (TaskAccepted "0"); Resumes 8; Delivered 8 Fulfilled;
  RequesterSays "main" (RequesterSettings "0" JNull); Resumes 8; Resumes 8; Delivered 8 Fulfilled;
  TimePasses 50000 50000000000; RunnerSays "runner" (RunnerOffer "o2" "javascript" (-1));
  Delivered 14 Fulfilled; RunnerSays "runner" (TaskDeferred "1"); Resumes 14; TimePasses 10000 10000000000; TimerFires 4;
  ShutdownCaps 200000].

Definition broker_ex : Broker := default (fresh_broker 0 0) (history config_ex pretty events_ex (fresh_broker 0 0)).

Lemma broker_ex_history : is_Some (history config_ex pretty events_ex (fresh_broker 0 0)).
Proof. vm_compute. by eexists. Qed.

Lemma broker_ex_reachable : reachable config_ex pretty 0 0 broker_ex.
Proof.
  unfold broker_ex. destruct broker_ex_history as [b Hb]. rewrite Hb. eapply history_reachable; [|exact Hb]. by apply reach_start.
Qed.

Section Safety.
Context (config : TaskRunnersConfig) (nanoid : nat -> string) (Hinj : Inj (=) (=) nanoid) (start_now start_mono : Z).
Local Notation reachable := (reachable config nanoid start_now start_mono).

(** ** Requests *)

(** C6. Every request a requester made waits with its expiry timer armed and is so far
    unanswered, or has been answered exactly once, by an expiry or by a task made ready, and
    has no timer left. *)
Theorem requests_answered_once b r q : reachable b -> requests (host b) !! r = Some q ->
  if decide (r ∈ pendingTaskRequests b)
  then answers (rq_requestId q) (sent (host b)) = O /\
       exists h t, rq_timeout q = Some h /\ timers (host b) !! h = Some t /\ tm_call t = RequestTimeout (rq_requestId q)
  else answers (rq_requestId q) (sent (host b)) = 1%nat /\
       forall h t, timers (host b) !! h = Some t -> tm_call t <> RequestTimeout (rq_requestId q).
Proof.
  intros HI%broker_reachable_inv Hq; [|done]. destruct (iv_request _ _ _ _ HI r q Hq) as [_ (h & Hto & _ & Hc) Ha].
  rewrite Ha. unfold waiting. destruct (decide (r ∈ _)) as [Hp|Hp].
  - rewrite decide_True by (by left). split; [done|]. destruct (iv_expires _ _ _ _ HI r q Hq Hp) as (h' & t & ? & Ht); [done|].
    simplify_eq. exists h, t. auto.
  - rewrite decide_False by (by intros [?|?]). split; [done|]. intros h' t. by eapply no_request_timer.
Qed.

(** C30. A waiting request is never forgotten: once its timer's time has come the timer can
    fire, and then the request has expired and its requester has been told. *)
Theorem waiting_request_expires b r q : reachable b -> requests (host b) !! r = Some q -> r ∈ pendingTaskRequests b ->
  exists h t b', rq_timeout q = Some h /\ timers (host b) !! h = Some t /\
    run config nanoid [TimePasses (Z.max 0 (tm_due t - now (host b))) 0; TimerFires h] b = Some b' /\
    r ∉ pendingTaskRequests b' /\ SentRequester (rq_requesterId q) (RequestExpired (rq_requestId q) ByTimeout)
      (bool_decide (rq_requesterId q ∈ requesters b)) ∈ sent (host b').
Proof.
  intros HI%broker_reachable_inv Hq Hp; [|done]. destruct (iv_expires _ _ _ _ HI r q Hq Hp) as (h & t & Hto & Ht); [done|].
  destruct (ro_timer _ _ _ _ (iv_request _ _ _ _ HI r q Hq)) as (h' & ? & _ & Hc). simplify_eq. specialize (Hc t Ht).
  exists h, t. set (d := Z.max 0 (tm_due t - now (host b))). set (b1 := with_host (pass_time d 0) b).
  assert (Hd : 0 <= d) by lia. assert (H1 : Inv nanoid None None b1) by (eapply inv_quiet; [by apply quiet_pass_time|done]).
  eexists. split; [done|]. split; [done|]. unfold run. simpl. rewrite (proj2 (Z.leb_le 0 d)) by lia. simpl.
  rewrite Ht, (proj2 (Z.leb_le _ _)) by lia. simpl. split; [done|]. rewrite Hc. cbn [timer_fires].
  set (b2 := with_host (set_timers (delete h)) _). unfold handleRequestTimeout.
  destruct (find_request_Some nanoid b r q HI Hq Hp b2) as (i & -> & Hi); [done|done|]. simpl requests. rewrite Hq.
  set (b3 := flagSilentRunners (rq_taskType q) b2). assert (Q3 : quiet b2 b3) by apply quiet_flagSilentRunners.
  rewrite Hto. simpl. split.
  - rewrite (elem_of_delete_nodup _ i r r); [tauto| |]; rewrite (qt_pending _ _ Q3); [apply (iv_nodup _ _ _ _ HI)|done].
  - apply elem_of_app. right. apply list_elem_of_singleton. do 2 f_equal. unfold b3. by rewrite requesters_flagSilentRunners.
Qed.

(** ** Tasks *)

(** C16. A task's end is announced to its requester at most once, and never while the broker
    still tracks the task; a tracked task is filed under its own id. *)
Theorem task_ends_once b k : reachable b -> (ends k (sent (host b)) <= 1)%nat /\
  forall task, map_get k (tasks b) = Some task -> tk_id task = k /\ ends k (sent (host b)) = O.
Proof.
  intros HI%broker_reachable_inv; [|done]. split; [apply (iv_ended _ _ _ _ HI k)|].
  intros task Hk. destruct (iv_task _ _ _ _ HI k task Hk). done.
Qed.

(** An armed execution timer belongs to a tracked task, is that task's own, and fires no
    later than the time noted for the task; once shutdown has set a deadline, no later than
    the deadline (or at once, where that has passed). *)
Lemma task_timers_bounded b h t k : reachable b -> timers (host b) !! h = Some t -> tm_call t = TaskTimeout k ->
  exists task at_, map_get k (tasks b) = Some task /\ tk_timeout task = Some h /\ tk_timesOutAt task = Some at_ /\
    tm_due t <= Z.max at_ (now (host b)) /\
    forall d, shutdownDeadline b = Some d -> tm_due t <= Z.max d (now (host b)).
Proof.
  intros HI%broker_reachable_inv Ht Hc; [|done]. destruct (iv_task_armed _ _ _ _ HI h t k Ht Hc) as (task & Hk & Hto).
  destruct (to_timer _ _ _ _ (iv_task _ _ _ _ HI k task Hk) h Hto) as (_ & at_ & Hat & Hd & H). destruct (H t Ht) as [_ Hdue].
  exists task, at_. split_and!; try done. intros d Hdl. specialize (Hd d Hdl). lia.
Qed.

(** Acceptances do not share what they work on: a request is being offered to one runner
    at a time and is marked so, and two acceptances that have not sent their task's settings
    yet are of different tasks. *)
Lemma acceptances_exclusive b i f : reachable b -> threads (host b) !! i = Some (Accepting f) ->
  (first_half (fl_stage f) = true -> exists q, requests (host b) !! fl_request f = Some q /\ rq_acceptInProgress q = true) /\
  forall j g, threads (host b) !! j = Some (Accepting g) -> j <> i ->
    (first_half (fl_stage f) = true -> first_half (fl_stage g) = true -> fl_request f <> fl_request g) /\
    (unsent (fl_stage f) = true -> unsent (fl_stage g) = true -> fl_taskId f <> fl_taskId g).
Proof.
  intros HI%broker_reachable_inv Hi; [|done]. destruct (resumed nanoid b i f HI Hi) as (_ & Hf & Ho & Hs). split.
  - intros Hst. by destruct (fo_first _ _ _ Hf Hst) as (_ & _ & ?).
  - intros j g Hj Hne. assert (Hg : flow_at b (Some i) j g) by (split; [done|congruence]).
    split; intros H1 H2 E; [by eapply (Hs H1 j g)|by eapply (Ho H1 j g)].
Qed.

End Safety.

(** ** The history again *)

#[local] Instance pretty_inj : Inj (=) (=) (pretty : nat -> string) := _.

Lemma requests_answered_once_witness : exists b q q', reachable config_ex pretty 0 0 b /\
  (3%nat ∈ pendingTaskRequests b /\ answers (rq_requestId q) (sent (host b)) = O) /\
  (1%nat ∉ pendingTaskRequests b /\ answers (rq_requestId q') (sent (host b)) = 1%nat).
Proof.
  destruct (requests (host broker_ex) !! 3%nat) as [q|] eqn:Hq; [|by vm_compute in Hq].
  destruct (requests (host broker_ex) !! 1%nat) as [q'|] eqn:Hq'; [|by vm_compute in Hq'].
  pose proof (requests_answered_once config_ex pretty pretty_inj 0 0 broker_ex 3 q broker_ex_reachable Hq) as H.
  pose proof (requests_answered_once config_ex pretty pretty_inj 0 0 broker_ex 1 q' broker_ex_reachable Hq') as H'.
  assert (Hp : 3%nat ∈ pendingTaskRequests broker_ex) by (refine (bool_decide_eq_true_1 _ _); vm_compute; reflexivity).
  assert (Hp' : 1%nat ∉ pendingTaskRequests broker_ex) by (refine (bool_decide_eq_true_1 _ _); vm_compute; reflexivity).
  rewrite decide_True in H by exact Hp. rewrite decide_False in H' by exact Hp'.
  destruct H as [H _], H' as [H' _].
  exact (ex_intro _ broker_ex (ex_intro _ q (ex_intro _ q' (conj broker_ex_reachable (conj (conj Hp H) (conj Hp' H')))))).
Defined.

Lemma waiting_request_expires_witness : exists b b' h, reachable config_ex pretty 0 0 b /\ 3%nat ∈ pendingTaskRequests b /\
  run config_ex pretty [TimePasses 50000 0; TimerFires h] b = Some b' /\ 3%nat ∉ pendingTaskRequests b'.
Proof.
  destruct (requests (host broker_ex) !! 3%nat) as [q|] eqn:Hq; [|by vm_compute in Hq].
  assert (Hp : 3%nat ∈ pendingTaskRequests broker_ex) by (refine (bool_decide_eq_true_1 _ _); vm_compute; reflexivity).
  destruct (waiting_request_expires config_ex pretty pretty_inj 0 0 broker_ex 3 q broker_ex_reachable Hq Hp)
    as (h & t & b' & Hto & Ht & Hr & Hn & _).
  assert (Hh : h = 15%nat) by (vm_compute in Hq; injection Hq as <-; vm_compute in Hto; congruence).
  subst h. assert (Hd : Z.max 0 (tm_due t - now (host broker_ex)) = 50000)
    by (vm_compute in Ht; injection Ht as <-; vm_compute; done).
  rewrite Hd in Hr. exact (ex_intro _ broker_ex (ex_intro _ b' (ex_intro _ 15%nat (conj broker_ex_reachable (conj Hp (conj Hr Hn)))))).
Defined.

Lemma task_ends_once_witness : exists b task, reachable config_ex pretty 0 0 b /\ map_get "0"%string (tasks b) = Some task /\
  tk_id task = "0"%string /\ ends "0" (sent (host b)) = O.
Proof.
  destruct (task_ends_once config_ex pretty pretty_inj 0 0 broker_ex "0" broker_ex_reachable) as [_ H].
  destruct (map_get "0"%string (tasks broker_ex)) as [task|] eqn:Ht; [|by vm_compute in Ht].
  exact (ex_intro _ broker_ex (ex_intro _ task (conj broker_ex_reachable (conj Ht (H task eq_refl))))).
Defined.

Lemma task_timers_bounded_witness : exists b t, reachable config_ex pretty 0 0 b /\ timers (host b) !! 16%nat = Some t /\
  shutdownDeadline b = Some 200000 /\ tm_due t <= Z.max 200000 (now (host b)).
Proof.
  destruct (timers (host broker_ex) !! 16%nat) as [t|] eqn:Ht; [|by vm_compute in Ht].
  assert (Hc : tm_call t = TaskTimeout "0") by (vm_compute in Ht; by injection Ht as <-).
  destruct (task_timers_bounded config_ex pretty pretty_inj 0 0 broker_ex 16 t "0" broker_ex_reachable Ht Hc)
    as (task & at_ & _ & _ & _ & _ & Hd).
  assert (Hs : shutdownDeadline broker_ex = Some 200000) by (vm_compute; reflexivity).
  exact (ex_intro _ broker_ex (ex_intro _ t (conj broker_ex_reachable (conj Ht (conj Hs (Hd 200000 Hs)))))).
Defined.

(** Two acceptances at once. *)
Definition events_ex2 : list Event := [
  RunnerRegisters runner_ex true; RequesterRegisters "main";
  RequesterSays "main" (RequesterRequest "r1" "javascript"); RequesterSays "main" (RequesterRequest "r2" "javascript");
  RunnerSays "runner" (RunnerOffer "o1" "javascript" (-1)); RunnerSays "runner" (RunnerOffer "o2" "javascript" (-1))].

Definition broker_ex2 : Broker := default (fresh_broker 0 0) (history config_ex pretty events_ex2 (fresh_broker 0 0)).

Lemma broker_ex2_reachable : reachable config_ex pretty 0 0 broker_ex2.
Proof.
  unfold broker_ex2. destruct (history config_ex pretty events_ex2 (fresh_broker 0 0)) as [b|] eqn:Hb; [|by vm_compute in Hb].
  eapply history_reachable; [|exact Hb]. by apply reach_start.
Qed.

Lemma acceptances_exclusive_witness : exists b f g, reachable config_ex pretty 0 0 b /\
  threads (host b) !! 6%nat = Some (Accepting f) /\ threads (host b) !! 9%nat = Some (Accepting g) /\
  fl_request f <> fl_request g /\ fl_taskId f <> fl_taskId g.
Proof.
  destruct (threads (host broker_ex2) !! 6%nat) as [[f| |]|] eqn:Hf; try (exfalso; by vm_compute in Hf).
  destruct (threads (host broker_ex2) !! 9%nat) as [[g| |]|] eqn:Hg; try (exfalso; by vm_compute in Hg).
  assert (Hsf : fl_stage f = SendingAccept) by (vm_compute in Hf; by injection Hf as <-).
  assert (Hsg : fl_stage g = SendingAccept) by (vm_compute in Hg; by injection Hg as <-).
  destruct (acceptances_exclusive config_ex pretty pretty_inj 0 0 broker_ex2 6 f broker_ex2_reachable Hf) as [_ H].
  destruct (H 9%nat g Hg) as [H1 H2]; [clear; lia|]. rewrite Hsf, Hsg in *.
  exact (ex_intro _ broker_ex2 (ex_intro _ f (ex_intro _ g (conj broker_ex2_reachable (conj Hf (conj Hg
    (conj (H1 eq_refl eq_refl) (H2 eq_refl eq_refl)))))))).
Defined.

(** ** Task broker: matching offers and requests

    [settleTasks] against what it is for: it pairs requests nobody is working on with
    offers of their type, each offer once, in the order the requests came, and leaves no
    pair unmade. *)

#[local] Open Scope Z_scope.

(** A request no runner is being asked for. *)
Definition idle (b : Broker) (r : nat) (q : TaskRequest) : Prop :=
  requests (host b) !! r = Some q /\ rq_acceptInProgress q = false.

(** An offer that still counts. *)
Definition live (b : Broker) (o : TaskOffer) : bool :=
  negb (negb (of_validFor o =? -1) && (of_validUntil o <? mono (host b))) &&
  negb (match map_get (of_runnerId o) (knownRunners b) with Some k => negb (kr_reachable k) | None => false end).

Lemma filter_filter_bool {A} (f g : A -> bool) (l : list A) : List.filter f (List.filter g l) = List.filter (fun x => f x && g x) l.
Proof. induction l as [|x l IH]; [done|]. simpl. destruct (g x); simpl; [|by rewrite andb_false_r]. rewrite IH. by destruct (f x). Qed.

Section Settle.
Context (config : TaskRunnersConfig) (nanoid : nat -> string).

(** The runners are told of the pairs in their order, each under a new task id. *)
Definition accept_messages (b : Broker) (pairs : list (nat * TaskOffer)) : list Sent :=
  imap (fun i m => SentRunner (of_runnerId m.2) (TaskOfferAccept (nanoid (made (host b) + i)) (of_offerId m.2))
                     (map_has (of_runnerId m.2) (knownRunners b))) pairs.

Definition pair_ok (b : Broker) (m : nat * TaskOffer) : Prop := exists q, idle b m.1 q /\ of_taskType m.2 = rq_taskType q.

Definition no_pair_left (b : Broker) (r : nat) : Prop :=
  forall q o, idle b r q -> o ∈ pendingTaskOffers b -> of_taskType o <> rq_taskType q.

(** What pairing did between two states. *)
Record paired (b b' : Broker) (pairs : list (nat * TaskOffer)) : Prop := {
  pd_offers : pendingTaskOffers b ≡ₚ pairs.*2 ++ pendingTaskOffers b';
  pd_sent : sent (host b') = sent (host b) ++ accept_messages b pairs;
  pd_made : made (host b') = (made (host b) + length pairs)%nat;
  pd_ok : Forall (pair_ok b) pairs;
  pd_nodup : NoDup pairs.*1;
  pd_requests : forall r, requests (host b') !! r = (if decide (r ∈ pairs.*1) then set_accepting true else id) <$> requests (host b) !! r;
  pd_runners : knownRunners b' = knownRunners b;
  pd_pending : pendingTaskRequests b' = pendingTaskRequests b;
}.

Lemma paired_nil b b' : pendingTaskOffers b' = pendingTaskOffers b -> host b' = host b -> knownRunners b' = knownRunners b ->
  pendingTaskRequests b' = pendingTaskRequests b -> paired b b' [].
Proof.
  intros H1 H2 H3 H4. split; rewrite ?H1, ?H2; try done; simpl.
  - by rewrite app_nil_r.
  - apply NoDup_nil_2.
  - intros r. by destruct (requests (host b) !! r).
Qed.

Lemma paired_app b b1 b2 l k : paired b b1 l -> paired b1 b2 k -> paired b b2 (l ++ k).
Proof.
  intros [A1 A2 A3 A4 A5 A6 A7 A8] [B1 B2 B3 B4 B5 B6 B7 B8].
  assert (Hk : forall r, r ∈ k.*1 -> r ∉ l.*1).
  { intros r (m & -> & Hm)%list_elem_of_fmap Hl. rewrite Forall_forall in B4. destruct (B4 m Hm) as (q & [Hq Ha] & _).
    rewrite A6, decide_True in Hq by done. destruct (requests (host b) !! m.1); [|done]. simpl in Hq. by injection Hq as <-. }
  split; rewrite ?fmap_app, ?length_app; try congruence.
  - by rewrite A1, B1, app_assoc.
  - rewrite B2, A2, <-app_assoc. unfold accept_messages. rewrite imap_app. do 2 f_equal. apply imap_ext. intros i m _. rewrite A3, A7. by rewrite Nat.add_assoc.
  - lia.
  - apply Forall_app. split; [done|]. rewrite Forall_forall in *. intros m Hm. destruct (B4 m Hm) as (q & [Hq Ha] & Ht).
    exists q. split; [|done]. split; [|done]. rewrite A6, decide_False in Hq.
    + by destruct (requests (host b) !! m.1).
    + apply Hk, list_elem_of_fmap. by exists m.
  - apply NoDup_app. split_and!; try done. intros r Hl Hk'. by apply (Hk r).
  - intros r. rewrite B6, A6. destruct (requests (host b) !! r); [|done]. simpl. f_equal.
    destruct (decide (r ∈ k.*1)) as [H1|H1], (decide (r ∈ l.*1)) as [H2|H2]; [by destruct (Hk r)|..].
    + by rewrite decide_True by set_solver.
    + by rewrite decide_True by set_solver.
    + by rewrite decide_False by set_solver.
Qed.

Lemma paired_no_pair b b' l r : paired b b' l -> no_pair_left b r -> no_pair_left b' r.
Proof.
  intros [A1 A2 A3 A4 A5 A6 A7 A8] Hr q o [Hq Ha] Ho. rewrite A6 in Hq. destruct (requests (host b) !! r) as [q0|] eqn:Hq0; [|done].
  simpl in Hq. case_decide; [by injection Hq as <-|]. injection Hq as ->. apply (Hr (id q)); [done|]. rewrite A1. set_solver.
Qed.

Lemma settle_request_pairs b r : exists l, paired b (settle_request config nanoid b r) l /\ l.*1 `sublist_of` [r] /\
  no_pair_left (settle_request config nanoid b r) r.
Proof.
  unfold settle_request, no_pair_left, idle. destruct (requests (host b) !! r) as [q|] eqn:Hq.
  2: { exists []. split_and!; [by apply paired_nil|apply sublist_nil_l|]. intros q o [? _]. congruence. }
  destruct (rq_acceptInProgress q) eqn:Ha.
  { exists []. split_and!; [by apply paired_nil|apply sublist_nil_l|]. intros q' o [? ?]. congruence. }
  destruct (list_find _ _) as [[i o]|] eqn:Hf.
  - apply list_find_Some in Hf as (Hi & Ht & _). exists [(r, o)]. split_and!; [|done|].
    + split; simpl; try done.
      * by apply delete_Permutation.
      * unfold accept_messages. simpl. by rewrite Nat.add_0_r.
      * lia.
      * constructor; [|constructor]. by exists q.
      * apply NoDup_singleton.
      * intros r'. destruct (decide (r' ∈ [r])) as [->%list_elem_of_singleton|Hr'].
        -- by rewrite lookup_alter_eq.
        -- rewrite lookup_alter_ne by set_solver. by destruct (requests (host b) !! r').
    + intros q' o' [Hq' Ha']. simpl in Hq'. rewrite lookup_alter_eq, Hq in Hq'. injection Hq' as <-. done.
  - exists []. assert (Hw : paired b (warnOnTaskTypeMismatch q b) []).
    { unfold warnOnTaskTypeMismatch. destruct (pendingTaskOffers b) eqn:Ho; by apply paired_nil. }
    split_and!; [done|apply sublist_nil_l|]. apply (paired_no_pair _ _ _ _ Hw). intros q' o' [Hq' _] Ho Ht. simplify_eq.
    apply list_find_None in Hf. rewrite Forall_forall in Hf. by apply (Hf o').
Qed.

Lemma settle_loop_pairs b l : let b' := foldl (settle_request config nanoid) b l in
  exists pairs, paired b b' pairs /\ pairs.*1 `sublist_of` l /\ forall r, r ∈ l -> no_pair_left b' r.
Proof.
  revert b. induction l as [|r l IH]; intros b; simpl.
  - exists []. split_and!; [by apply paired_nil|done|]. intros r Hr. by apply not_elem_of_nil in Hr.
  - destruct (settle_request_pairs b r) as (p & H1 & H2 & H3). set (b1 := settle_request config nanoid b r) in *.
    destruct (IH b1) as (ps & I1 & I2 & I3). exists (p ++ ps). split_and!; [by eapply paired_app| |].
    + rewrite fmap_app. change (r :: l) with ([r] ++ l). by apply sublist_app.
    + intros r' [-> | Hr']%elem_of_cons; [by eapply paired_no_pair|by apply I3].
Qed.

(** C23. [settleTasks] drops the offers that have expired or whose runner is known to be out
    of reach, and pairs the rest with the pending requests no runner is being asked for:
    types agree, no offer or request is in two pairs, requests are served in their order,
    each paired runner (and no other) is sent the acceptance of its offer under a new task
    id, unpaired requests and offers stay as they were, and no pair could still be made. *)
Theorem settleTasks_matches b : exists pairs, let b' := settleTasks config nanoid b in
  List.filter (live b) (pendingTaskOffers b) ≡ₚ pairs.*2 ++ pendingTaskOffers b' /\
  Forall (pair_ok b) pairs /\ NoDup pairs.*1 /\ pairs.*1 `sublist_of` pendingTaskRequests b /\
  sent (host b') = sent (host b) ++ accept_messages b pairs /\
  (forall r, requests (host b') !! r = (if decide (r ∈ pairs.*1) then set_accepting true else id) <$> requests (host b) !! r) /\
  pendingTaskRequests b' = pendingTaskRequests b /\
  forall r, r ∈ pendingTaskRequests b' -> no_pair_left b' r.
Proof.
  unfold settleTasks. set (b1 := discardOffersFromUnreachableRunners (expireTasks b)). cbv zeta.
  destruct (settle_loop_pairs b1 (pendingTaskRequests b1)) as (pairs & [A1 A2 A3 A4 A5 A6 A7 A8] & Hsub & Hmax).
  exists pairs. split_and!; try done.
  - rewrite <-A1. unfold b1. simpl. rewrite filter_filter_bool. apply Permutation_refl', List.filter_ext. intros o. unfold live. by rewrite andb_comm.
  - by rewrite A8.
Qed.

End Settle.
