(* ===== verification/ExecTypes.v ===== *)
(** * The v1 execution engine: its data

    [packages/core/src/execution-engine/workflow-execute.ts] and the interfaces of
    [packages/workflow]: items, stack entries, run data, and the state a [WorkflowExecute]
    keeps while it processes an execution.

    What is outside the engine is in [Host]: what a node's own code does when it is run, the
    clock, when the user cancels, and the description of node types.  The error a node
    throws is as [normalizeUnhandledAxiosError] leaves it. *)

From stdpp Require Import base gmap strings pretty list fin_maps.
From Stdlib Require Import ZArith Lia.
From S2P Require Import Prelude.
From S2P Require Import JsCollections.
From S2P Require Import EngineTypes.
From S2P Require Import Workflow.

#[local] Open Scope Z_scope.

(** ** Items *)

Record ISourceData := {
  previousNode : string;
  previousNodeOutput : option nat;
  previousNodeRun : option nat;
}.

Record IPairedItemData := {
  pi_item : nat;
  pi_input : option nat;
  pi_sourceOverwrite : option ISourceData;
}.

(** [pairedItem]: absent, a number, one, or several. *)
Inductive PairedItem := NoPair | PairNumber (n : nat) | PairOne (p : IPairedItemData) | PairMany (ps : list IPairedItemData).

(** An item; [it_rest] is what the engine only carries along. *)
Record INodeExecutionData := {
  it_json : list (string * JsonValue);
  it_error : option JsonValue;
  it_pairedItem : PairedItem;
  it_rest : list (string * JsonValue);
}.

(** The items of one input or output, or [null]. *)
Notation Slot := (option (list INodeExecutionData)).

(** [ITaskDataConnections]: the inputs or outputs by connection type. *)
Notation ITaskDataConnections := (list (string * list Slot)).

(** [data.main], which the engine reads where a node has data. *)
Definition main_of (d : ITaskDataConnections) : list Slot := default [] (map_get Main d).

Definition has_main (d : ITaskDataConnections) : bool := map_has Main d.

(** ** Errors *)

(** An error as the run data stores it. *)
Record ExecutionError := { er_name : string; er_message : string; er_description : option string }.

Definition user_error (message : string) : ExecutionError := {| er_name := "UserError"; er_message := message; er_description := None |}.
Definition unexpected_error (message : string) : ExecutionError :=
  {| er_name := "UnexpectedError"; er_message := message; er_description := None |}.
Definition type_error (message : string) : ExecutionError := {| er_name := "TypeError"; er_message := message; er_description := None |}.

(** ** Requests of agents *)

(** [ActionMetadata]. *)
Record ActionMetadata := { am_parentNodeName : option string; am_itemIndex : option nat }.

Record EngineAction := {
  ac_nodeName : string;
  ac_input : list (string * JsonValue);
  ac_type : string;
  ac_id : string;
  ac_metadata : option ActionMetadata;
}.

Record EngineRequest := { rq_actions : list EngineAction; rq_metadata : JsonValue }.

(** ** Stack entries *)

Record SubNodeAction := { sa_action : EngineAction; sa_nodeName : string; sa_runIndex : nat }.

(** [ITaskMetadata], what the engine reads of it. *)
Record ITaskMetadata := {
  md_resumeError : option ExecutionError;
  md_subExecution : option JsonValue;
  md_forwardAllOutputs : bool;
  md_nodeWasResumed : bool;
  md_subNodeExecutionData : option (list SubNodeAction * JsonValue);
  md_preserveSourceOverwrite : bool;
  md_preservedSourceOverwrite : option ISourceData;
}.

Definition no_metadata : ITaskMetadata :=
  {| md_resumeError := None; md_subExecution := None; md_forwardAllOutputs := false; md_nodeWasResumed := false;
     md_subNodeExecutionData := None; md_preserveSourceOverwrite := false; md_preservedSourceOverwrite := None |}.

(** An entry of the execution stack; its node is a reference. *)
Record IExecuteData := {
  xd_node : nat;
  xd_data : ITaskDataConnections;
  (* [source?.main] *)
  xd_source : option (list (option ISourceData));
  xd_runIndex : option nat;
  xd_metadata : option ITaskMetadata;
}.

Definition set_data (d : ITaskDataConnections) (x : IExecuteData) : IExecuteData :=
  {| xd_node := xd_node x; xd_data := d; xd_source := xd_source x; xd_runIndex := xd_runIndex x; xd_metadata := xd_metadata x |}.

(** ** Run data *)

Inductive ExecStatus := st_new | st_running | st_success | st_error | st_canceled | st_waiting.

#[export] Instance ExecStatus_eq_dec : EqDecision ExecStatus.
Proof. solve_decision. Defined.

Record ITaskData := {
  td_startTime : Z;
  td_executionIndex : nat;
  td_source : list (option ISourceData);
  td_hints : list string;
  td_executionTime : Z;
  td_metadata : option ITaskMetadata;
  td_executionStatus : option ExecStatus;
  td_data : option ITaskDataConnections;
  td_inputOverride : option ITaskDataConnections;
  td_error : option ExecutionError;
}.

Notation IRunData := (list (string * list ITaskData)).

Inductive DestinationMode := inclusive | exclusive.
Record IDestinationNode := { ds_nodeName : string; ds_mode : DestinationMode }.

(** [waitingExecution]: by node, by index, the inputs gathered so far. *)
Notation IWaiting A := (list (string * gmap nat (list A))).

(** ** The host *)

(** The hooks the engine runs. *)
Inductive HookEvent :=
  | WorkflowExecuteBefore
  | NodeExecuteBefore (nodeName : string)
  | SendChunkError (nodeName : string) (runIndex : nat)
  | NodeExecuteAfter (nodeName : string) (taskData : ITaskData)
  | WorkflowExecuteAfter (status : ExecStatus) (error : option ExecutionError).

(** [requiredInputs], its expression evaluated. *)
Inductive RequiredInputs := InputIndexes (l : list nat) | InputCount (n : nat).

(** A node type: the methods it has, and its description. *)
Record INodeType := {
  ty_name : string;
  (* [execute], or a custom operation for the node's parameters *)
  ty_execute : bool;
  ty_poll : bool;
  ty_trigger : bool;
  ty_supplyData : bool;
  ty_webhook : bool;
  ty_requestDefaults : bool;
  ty_inputs : nat;
  ty_requiredInputs : option RequiredInputs;
  (* the [main] ones of [getNodeOutputs] *)
  ty_mainOutputs : nat;
}.

(** What a node's code gets, and what it does: it returns outputs (or nothing), asks for
    other nodes to be run, or throws; it may put the execution to wait. *)
Record NodeCall := {
  nc_node : INode;
  nc_runIndex : nat;
  nc_input : ITaskDataConnections;
  nc_connectionInput : list INodeExecutionData;
  nc_responses : list (EngineAction * ITaskData);
}.

Inductive NodeResult :=
  | Returns (data : option (list Slot)) (hints : list string)
  | Requests (r : EngineRequest)
  | Throws (e : ExecutionError).

(** What may throw. *)
Notation Fallible A := (ExecutionError + A)%type.

Record NodeOutcome := { no_result : NodeResult; no_waitTill : option Z }.

(** The host, asked at successive moments: [Date.now()], and whether the execution has been
    cancelled by then. *)
Record Host := {
  host_run : nat -> NodeCall -> NodeOutcome;
  host_now : nat -> Z;
  host_cancels : nat -> bool;
  host_nodeType : INode -> INodeType;
  (* [getNodeParametersIssues] *)
  host_issues : INode -> bool;
  (* [$getPairedItem]: the JSON of the item an item comes from, or the error it throws *)
  host_pairedItem : ISourceData -> IPairedItemData -> Fallible (option (list (string * JsonValue)));
  (* what fails before the first node: the isolate, the context or the first hook *)
  host_init : option ExecutionError;
  (* [additionalData.executionTimeoutTimestamp] *)
  host_timeout : option Z;
  host_manual : bool;
  (* fuel: how often a node that goes on failing is run again before its entry counts as one
     that does not end *)
  host_fuel : nat;
}.

(** ** The state *)

(** [this], [this.runExecutionData] and the variables of [processRunExecutionData]. *)
Record ExecState := {
  xs_status : ExecStatus;
  xs_aborted : bool;
  xs_timedOut : bool;
  xs_destinationNode : option IDestinationNode;
  xs_runNodeFilter : option (list string);
  xs_runData : IRunData;
  xs_pinData : list (string * list INodeExecutionData);
  xs_lastNodeExecuted : option string;
  xs_resultError : option ExecutionError;
  xs_stack : list IExecuteData;
  xs_waiting : IWaiting Slot;
  xs_waitingSource : IWaiting (option ISourceData);
  xs_waitTill : option Z;
  xs_executionError : option ExecutionError;
  xs_lastTry : option (string * nat);
  xs_executionIndex : nat;
  xs_heap : nat -> INode;
  xs_events : list HookEvent;
  xs_moment : nat;
  xs_calls : nat;
}.

(** ** Setters *)

Definition set_status (v : ExecStatus) (s : ExecState) : ExecState :=
  Build_ExecState v (xs_aborted s) (xs_timedOut s) (xs_destinationNode s) (xs_runNodeFilter s) (xs_runData s)
    (xs_pinData s) (xs_lastNodeExecuted s) (xs_resultError s) (xs_stack s) (xs_waiting s) (xs_waitingSource s)
    (xs_waitTill s) (xs_executionError s) (xs_lastTry s) (xs_executionIndex s) (xs_heap s) (xs_events s) (xs_moment s)
    (xs_calls s).
Definition set_aborted (v : bool) (s : ExecState) : ExecState :=
  Build_ExecState (xs_status s) v (xs_timedOut s) (xs_destinationNode s) (xs_runNodeFilter s) (xs_runData s)
    (xs_pinData s) (xs_lastNodeExecuted s) (xs_resultError s) (xs_stack s) (xs_waiting s) (xs_waitingSource s)
    (xs_waitTill s) (xs_executionError s) (xs_lastTry s) (xs_executionIndex s) (xs_heap s) (xs_events s) (xs_moment s)
    (xs_calls s).
Definition set_timedOut (v : bool) (s : ExecState) : ExecState :=
  Build_ExecState (xs_status s) (xs_aborted s) v (xs_destinationNode s) (xs_runNodeFilter s) (xs_runData s)
    (xs_pinData s) (xs_lastNodeExecuted s) (xs_resultError s) (xs_stack s) (xs_waiting s) (xs_waitingSource s)
    (xs_waitTill s) (xs_executionError s) (xs_lastTry s) (xs_executionIndex s) (xs_heap s) (xs_events s) (xs_moment s)
    (xs_calls s).
Definition set_runData (v : IRunData) (s : ExecState) : ExecState :=
  Build_ExecState (xs_status s) (xs_aborted s) (xs_timedOut s) (xs_destinationNode s) (xs_runNodeFilter s) v
    (xs_pinData s) (xs_lastNodeExecuted s) (xs_resultError s) (xs_stack s) (xs_waiting s) (xs_waitingSource s)
    (xs_waitTill s) (xs_executionError s) (xs_lastTry s) (xs_executionIndex s) (xs_heap s) (xs_events s) (xs_moment s)
    (xs_calls s).
Definition set_pinData (v : list (string * list INodeExecutionData)) (s : ExecState) : ExecState :=
  Build_ExecState (xs_status s) (xs_aborted s) (xs_timedOut s) (xs_destinationNode s) (xs_runNodeFilter s)
    (xs_runData s) v (xs_lastNodeExecuted s) (xs_resultError s) (xs_stack s) (xs_waiting s) (xs_waitingSource s)
    (xs_waitTill s) (xs_executionError s) (xs_lastTry s) (xs_executionIndex s) (xs_heap s) (xs_events s) (xs_moment s)
    (xs_calls s).
Definition set_lastNodeExecuted (v : option string) (s : ExecState) : ExecState :=
  Build_ExecState (xs_status s) (xs_aborted s) (xs_timedOut s) (xs_destinationNode s) (xs_runNodeFilter s)
    (xs_runData s) (xs_pinData s) v (xs_resultError s) (xs_stack s) (xs_waiting s) (xs_waitingSource s) (xs_waitTill s)
    (xs_executionError s) (xs_lastTry s) (xs_executionIndex s) (xs_heap s) (xs_events s) (xs_moment s) (xs_calls s).
Definition set_stack (v : list IExecuteData) (s : ExecState) : ExecState :=
  Build_ExecState (xs_status s) (xs_aborted s) (xs_timedOut s) (xs_destinationNode s) (xs_runNodeFilter s)
    (xs_runData s) (xs_pinData s) (xs_lastNodeExecuted s) (xs_resultError s) v (xs_waiting s) (xs_waitingSource s)
    (xs_waitTill s) (xs_executionError s) (xs_lastTry s) (xs_executionIndex s) (xs_heap s) (xs_events s) (xs_moment s)
    (xs_calls s).
Definition set_waiting (v : IWaiting Slot) (s : ExecState) : ExecState :=
  Build_ExecState (xs_status s) (xs_aborted s) (xs_timedOut s) (xs_destinationNode s) (xs_runNodeFilter s)
    (xs_runData s) (xs_pinData s) (xs_lastNodeExecuted s) (xs_resultError s) (xs_stack s) v (xs_waitingSource s)
    (xs_waitTill s) (xs_executionError s) (xs_lastTry s) (xs_executionIndex s) (xs_heap s) (xs_events s) (xs_moment s)
    (xs_calls s).
Definition set_waitingSource (v : IWaiting (option ISourceData)) (s : ExecState) : ExecState :=
  Build_ExecState (xs_status s) (xs_aborted s) (xs_timedOut s) (xs_destinationNode s) (xs_runNodeFilter s)
    (xs_runData s) (xs_pinData s) (xs_lastNodeExecuted s) (xs_resultError s) (xs_stack s) (xs_waiting s) v
    (xs_waitTill s) (xs_executionError s) (xs_lastTry s) (xs_executionIndex s) (xs_heap s) (xs_events s) (xs_moment s)
    (xs_calls s).
Definition set_waitTill (v : option Z) (s : ExecState) : ExecState :=
  Build_ExecState (xs_status s) (xs_aborted s) (xs_timedOut s) (xs_destinationNode s) (xs_runNodeFilter s)
    (xs_runData s) (xs_pinData s) (xs_lastNodeExecuted s) (xs_resultError s) (xs_stack s) (xs_waiting s)
    (xs_waitingSource s) v (xs_executionError s) (xs_lastTry s) (xs_executionIndex s) (xs_heap s) (xs_events s)
    (xs_moment s) (xs_calls s).
Definition set_executionError (v : option ExecutionError) (s : ExecState) : ExecState :=
  Build_ExecState (xs_status s) (xs_aborted s) (xs_timedOut s) (xs_destinationNode s) (xs_runNodeFilter s)
    (xs_runData s) (xs_pinData s) (xs_lastNodeExecuted s) (xs_resultError s) (xs_stack s) (xs_waiting s)
    (xs_waitingSource s) (xs_waitTill s) v (xs_lastTry s) (xs_executionIndex s) (xs_heap s) (xs_events s) (xs_moment s)
    (xs_calls s).
Definition set_lastTry (v : option (string * nat)) (s : ExecState) : ExecState :=
  Build_ExecState (xs_status s) (xs_aborted s) (xs_timedOut s) (xs_destinationNode s) (xs_runNodeFilter s)
    (xs_runData s) (xs_pinData s) (xs_lastNodeExecuted s) (xs_resultError s) (xs_stack s) (xs_waiting s)
    (xs_waitingSource s) (xs_waitTill s) (xs_executionError s) v (xs_executionIndex s) (xs_heap s) (xs_events s)
    (xs_moment s) (xs_calls s).
Definition set_executionIndex (v : nat) (s : ExecState) : ExecState :=
  Build_ExecState (xs_status s) (xs_aborted s) (xs_timedOut s) (xs_destinationNode s) (xs_runNodeFilter s)
    (xs_runData s) (xs_pinData s) (xs_lastNodeExecuted s) (xs_resultError s) (xs_stack s) (xs_waiting s)
    (xs_waitingSource s) (xs_waitTill s) (xs_executionError s) (xs_lastTry s) v (xs_heap s) (xs_events s) (xs_moment s)
    (xs_calls s).
Definition set_heap (v : nat -> INode) (s : ExecState) : ExecState :=
  Build_ExecState (xs_status s) (xs_aborted s) (xs_timedOut s) (xs_destinationNode s) (xs_runNodeFilter s)
    (xs_runData s) (xs_pinData s) (xs_lastNodeExecuted s) (xs_resultError s) (xs_stack s) (xs_waiting s)
    (xs_waitingSource s) (xs_waitTill s) (xs_executionError s) (xs_lastTry s) (xs_executionIndex s) v (xs_events s)
    (xs_moment s) (xs_calls s).
Definition set_events (v : list HookEvent) (s : ExecState) : ExecState :=
  Build_ExecState (xs_status s) (xs_aborted s) (xs_timedOut s) (xs_destinationNode s) (xs_runNodeFilter s)
    (xs_runData s) (xs_pinData s) (xs_lastNodeExecuted s) (xs_resultError s) (xs_stack s) (xs_waiting s)
    (xs_waitingSource s) (xs_waitTill s) (xs_executionError s) (xs_lastTry s) (xs_executionIndex s) (xs_heap s) v
    (xs_moment s) (xs_calls s).
Definition set_moment (v : nat) (s : ExecState) : ExecState :=
  Build_ExecState (xs_status s) (xs_aborted s) (xs_timedOut s) (xs_destinationNode s) (xs_runNodeFilter s)
    (xs_runData s) (xs_pinData s) (xs_lastNodeExecuted s) (xs_resultError s) (xs_stack s) (xs_waiting s)
    (xs_waitingSource s) (xs_waitTill s) (xs_executionError s) (xs_lastTry s) (xs_executionIndex s) (xs_heap s)
    (xs_events s) v (xs_calls s).
Definition set_calls (v : nat) (s : ExecState) : ExecState :=
  Build_ExecState (xs_status s) (xs_aborted s) (xs_timedOut s) (xs_destinationNode s) (xs_runNodeFilter s)
    (xs_runData s) (xs_pinData s) (xs_lastNodeExecuted s) (xs_resultError s) (xs_stack s) (xs_waiting s)
    (xs_waitingSource s) (xs_waitTill s) (xs_executionError s) (xs_lastTry s) (xs_executionIndex s) (xs_heap s)
    (xs_events s) (xs_moment s) v.
