(* ===== verification/ExecAdd.v ===== *)
(** * The v1 execution engine: delivering data to a node

    [addNodeToBeExecuted]: a node with one input goes on the stack with the data; a node
    with several waits, by index, until every input has data.  The two objects of what
    waits are keyed alike; an index into one that the other lacks does not arise and reads
    as empty here.  [connectionsByDestinationNode] reaches as far as any connection's index
    (as a [Workflow]'s does), so that no write is past an end.  An output that is [null]
    counts as empty. *)

From stdpp Require Import base gmap strings pretty list fin_maps sorting.
From Stdlib Require Import ZArith Lia.
From S2P Require Import Prelude.
From S2P Require Import JsCollections.
From S2P Require Import EngineTypes.
From S2P Require Import Workflow.
From S2P Require Import ExecTypes.

(** ** What waits *)

(** [waiting[nodeName]], and its indexes as [Object.keys] lists them. *)
Definition waits_of {A} (w : IWaiting A) (nodeName : string) : gmap nat (list A) := default ∅ (map_get nodeName w).

Definition index_keys {A} (m : gmap nat A) : list nat := merge_sort (≤) (map_to_list m).*1.

(** [waiting[nodeName][index].main]. *)
Definition waiting_at {A} (w : IWaiting A) (nodeName : string) (index : nat) : list A := default [] (waits_of w nodeName !! index).

Definition set_waiting_at {A} (nodeName : string) (index : nat) (l : list A) (w : IWaiting A) : IWaiting A :=
  map_set nodeName (<[index := l]> (waits_of w nodeName)) w.

Definition prepareWaitingToExecution (nodeName : string) (numberOfConnections runIndex : nat) (s : ExecState) : ExecState :=
  set_waitingSource (set_waiting_at nodeName runIndex (replicate numberOfConnections None) (xs_waitingSource s))
    (set_waiting (set_waiting_at nodeName runIndex (replicate numberOfConnections None) (xs_waiting s)) s).

(** [delete waiting[nodeName][index]], and the node itself once nothing is left. *)
Definition drop_waiting (nodeName : string) (index : nat) (s : ExecState) : ExecState :=
  let left := delete index (waits_of (xs_waiting s) nodeName) in
  let left_sources := delete index (waits_of (xs_waitingSource s) nodeName) in
  if bool_decide (left = ∅)
  then set_waitingSource (map_delete nodeName (xs_waitingSource s)) (set_waiting (map_delete nodeName (xs_waiting s)) s)
  else set_waitingSource (map_set nodeName left_sources (xs_waitingSource s))
         (set_waiting (map_set nodeName left (xs_waiting s)) s).

Section Add.
Context (w : Workflow).

Definition isLegacyExecutionOrder : bool := bool_decide (executionOrder w <> Some "v1"%string).

(** [unshift] in order v1, [push] otherwise. *)
Definition enqueue (x : IExecuteData) (s : ExecState) : ExecState :=
  set_stack (if isLegacyExecutionOrder then xs_stack s ++ [x] else x :: xs_stack s) s.

(** [workflow.nodes[name]], there by the callers' checks. *)
Definition node_ref (nodeName : string) : nat := default 0 (map_get nodeName (wf_nodes w)).

Definition stack_names (s : ExecState) : list string := (fun x => nd_name (xs_heap s (xd_node x))) <$> xs_stack s.

(** [data[i]]. *)
Definition items_at (data : list Slot) (i : nat) : Slot := mjoin (data !! i).

Definition source_from (parentNodeName : string) (outputIndex runIndex : nat) : ISourceData :=
  {| previousNode := parentNodeName; previousNodeOutput := Some outputIndex; previousNodeRun := Some runIndex |}.

Definition run_has (runData : IRunData) (nodeName : string) : bool := map_has nodeName runData.

(** [get(runData, [node, runIndex, 'data', 'main', index])]. *)
Definition run_output (runData : IRunData) (nodeName : string) (runIndex index : nat) : Slot :=
  match map_get nodeName runData with
  | Some runs => match runs !! runIndex with
                 | Some taskData => items_at (main_of (default [] (td_data taskData))) index
                 | None => None
                 end
  | None => None
  end.

Definition incomingConnectionIsEmpty (runData : IRunData) (inputConnections : list IConnection) (runIndex : nat) : bool :=
  forallb (fun c => match run_output runData (ic_node c) runIndex (ic_index c) with Some (_ :: _) => false | _ => true end)
    inputConnections.

Definition empty_item : INodeExecutionData := {| it_json := []; it_error := None; it_pairedItem := NoPair; it_rest := [] |}.

(** ** Nodes that would otherwise not run (legacy order) *)

(** The loop over the parents of a missing input, from the nearest. *)
Fixpoint node_to_add (s : ExecState) (inputNode : string) (checkOutputNodes names : list string) (parents : list string)
    (nodeToAdd : option string) : option string :=
  match parents with
  | [] => nodeToAdd
  | parentNode :: rest =>
      if bool_decide (inputNode <> parentNode /\ parentNode ∈ checkOutputNodes) then None
      else if bool_decide (parentNode ∈ names) then None
      else if run_has (xs_runData s) parentNode then nodeToAdd
      else node_to_add s inputNode checkOutputNodes names rest (Some parentNode)
  end.

(** The body of the innermost loop: an input of the node that did not get data. *)
Definition force_input (parentNodeName : string) (outputIndex : nat) (nodeSuccessData : list Slot) (runIndex : nat)
    (checkOutputNodes : list string) (s : ExecState) (inputData : IConnection) : ExecState :=
  let inputNode := ic_node inputData in
  if bool_decide (inputNode = parentNodeName) then s
  else if bool_decide (inputNode ∈ checkOutputNodes) &&
          negb (incomingConnectionIsEmpty (xs_runData s) (at_output (of_type (connectionsByDestinationNode w) inputNode Main) 0) runIndex)
  then s
  else if bool_decide (inputNode ∈ stack_names s) then s
  else if run_has (xs_runData s) inputNode then s
  else if negb isLegacyExecutionOrder then s
  else
    let parentNodes := reverse (getParentNodes w inputNode ++ [inputNode]) in
    let nodeToAdd := node_to_add s inputNode checkOutputNodes (stack_names s) parentNodes (Some inputNode) in
    let nodeToAdd :=
      match nodeToAdd with
      | Some n => if bool_decide (parentNodeName ∈ getParentNodes w n) &&
                     bool_decide (length (default [] (items_at nodeSuccessData outputIndex)) = 0) then None else Some n
      | None => None
      end in
    match nodeToAdd with
    | None => s
    | Some n =>
        let addEmptyItem :=
          match map_get n (connectionsByDestinationNode w) with
          | None => true
          | Some _ => incomingConnectionIsEmpty (xs_runData s) (at_output (of_type (connectionsByDestinationNode w) n Main) 0) runIndex
          end in
        if addEmptyItem then
          enqueue {| xd_node := node_ref n; xd_data := [(Main, [Some [empty_item]])];
                     xd_source := Some [Some (source_from parentNodeName outputIndex runIndex)];
                     xd_runIndex := None; xd_metadata := None |} s
        else s
    end.

(** ** Adding a node *)

(** Where the data goes: the first index that lacks it, or a new one. *)
Definition waiting_index (index : nat) (entries : gmap nat (list Slot)) : nat * bool :=
  match list_find (fun i => items_at (default [] (entries !! i)) index = None) (index_keys entries) with
  | Some (_, i) => (i, false)
  | None => (size entries, true)
  end.

Definition addNodeToBeExecuted (connectionData : IConnection) (outputIndex : nat) (parentNodeName : string)
    (nodeSuccessData : list Slot) (runIndex : nat) (newRunIndex : option nat) (metadata : option ITaskMetadata)
    (s : ExecState) : ExecState :=
  let node := ic_node connectionData in
  let index := ic_index connectionData in
  let inputs := of_type (connectionsByDestinationNode w) node Main in
  let data := items_at nodeSuccessData outputIndex in
  let source := source_from parentNodeName outputIndex runIndex in
  if 1 <? length inputs then
    let nodeWasWaiting := map_has node (xs_waiting s) in
    let '(waitingNodeIndex, createNewWaitingEntry) := waiting_index index (waits_of (xs_waiting s) node) in
    let s := if createNewWaitingEntry then prepareWaitingToExecution node (length inputs) waitingNodeIndex s else s in
    let s := set_waiting (set_waiting_at node waitingNodeIndex (<[index := data]> (waiting_at (xs_waiting s) node waitingNodeIndex))
               (xs_waiting s)) s in
    let s := set_waitingSource (set_waiting_at node waitingNodeIndex
               (<[index := Some source]> (waiting_at (xs_waitingSource s) node waitingNodeIndex)) (xs_waitingSource s)) s in
    let gathered := waiting_at (xs_waiting s) node waitingNodeIndex in
    if forallb (fun x => bool_decide (is_Some x)) gathered then
      drop_waiting node waitingNodeIndex
        (enqueue {| xd_node := node_ref node; xd_data := [(Main, gathered)];
                    xd_source := Some (waiting_at (xs_waitingSource s) node waitingNodeIndex);
                    xd_runIndex := None; xd_metadata := None |} s)
    else if nodeWasWaiting then s
    else
      let checkOutputNodes := ic_node <$> (cs ← of_type (connectionsBySourceNode w) parentNodeName Main; default [] cs) in
      foldl (force_input parentNodeName outputIndex nodeSuccessData runIndex checkOutputNodes) s (cs ← inputs; default [] cs)
  else
    match map_get node (wf_nodes w) with
    | Some r =>
        enqueue {| xd_node := r; xd_data := [(Main, replicate index None ++ [data])]; xd_source := Some [Some source];
                   xd_runIndex := newRunIndex; xd_metadata := metadata |} s
    | None => s
    end.

End Add.
