(* ===== verification/ExecNode.v ===== *)
(** * The v1 execution engine: running one node

    From a stack entry to what the node returned, and to the record of the run: the
    lineage of the input, the retry budget, pinned data, [runNode], the post-processing of
    the output and what an error leads to.

    A value a node's code keeps hold of is not tracked: what it returns is fresh.  Pinned
    items are the one exception, since the engine itself writes on them.  Close functions,
    telemetry tags, credential bookkeeping and the conversion of binary data are left out. *)

From stdpp Require Import base gmap strings pretty list fin_maps.
From Stdlib Require Import ZArith QArith_base Lia.
From S2P Require Import Prelude.
From S2P Require Import JsCollections.
From S2P Require Import EngineTypes.
From S2P Require Import Workflow.
From S2P Require Import ExecTypes.
From S2P Require Import ExecAdd.

#[local] Close Scope Q_scope.

(** ** Before the node runs *)

Definition no_sourceOverwrite (p : PairedItem) : option ISourceData := match p with PairOne p => pi_sourceOverwrite p | _ => None end.

Definition resolveSourceOverwrite (item : INodeExecutionData) (x : IExecuteData) : option ISourceData :=
  let metadata := default no_metadata (xd_metadata x) in
  if negb (md_preserveSourceOverwrite metadata) then None
  else match md_preservedSourceOverwrite metadata with
       | Some source => Some source
       | None => no_sourceOverwrite (it_pairedItem item)
       end.

Definition set_pairedItem (p : PairedItem) (item : INodeExecutionData) : INodeExecutionData :=
  {| it_json := it_json item; it_error := it_error item; it_pairedItem := p; it_rest := it_rest item |}.

(** [inputIndex || undefined]. *)
Definition or_undefined (n : nat) : option nat := match n with O => None | S _ => Some n end.

Definition lineage (x : IExecuteData) (inputIndex itemIndex : nat) (item : INodeExecutionData) : INodeExecutionData :=
  set_pairedItem (PairOne {| pi_item := itemIndex; pi_input := or_undefined inputIndex;
                             pi_sourceOverwrite := resolveSourceOverwrite item x |}) item.

Definition input_lineage (x : IExecuteData) (inputIndex : nat) (input : Slot) : Slot :=
  match input with Some items => Some (imap (lineage x inputIndex) items) | None => None end.

Definition addPairedItemLineage (x : IExecuteData) : ITaskDataConnections :=
  prod_map id (imap (input_lineage x)) <$> xd_data x.

Definition computeRunIndex (x : IExecuteData) (s : ExecState) : nat :=
  match xd_runIndex x with
  | Some runIndex => runIndex
  | None => length (default [] (map_get (nd_name (xs_heap s (xd_node x))) (xs_runData s)))
  end.

(** [value || d] on numbers. *)
Definition or_default (d : Q) (v : option Q) : Q := match v with Some n => if Qeq_bool n 0 then d else n | None => d end.

(** [Math.min] and [Math.max] of two numbers. *)
Definition js_min (a b : Q) : Q := if Qle_bool a b then a else b.
Definition js_max (a b : Q) : Q := if Qle_bool a b then b else a.

(** [[maxTries, waitBetweenTries]]: numbers, whole or not. *)
Definition getRetryParams (node : INode) (x : IExecuteData) : Q * Q :=
  let isResumedError := bool_decide (is_Some (md_resumeError (default no_metadata (xd_metadata x)))) in
  if negb (nd_retryOnFail node) || isResumedError then (1, 0)%Q
  else (js_min 5 (js_max 2 (or_default 3 (nd_maxTries node))), js_min 5000 (js_max 0 (or_default 1000 (nd_waitBetweenTries node))))%Q.

(** [tryIndex < maxTries] and [tryIndex === maxTries - 1]: the subtraction is exact on the
    numbers [getRetryParams] gives. *)
Definition more_tries (maxTries : Q) (tryIndex : nat) : bool := negb (Qle_bool maxTries (inject_Z (Z.of_nat tryIndex))).
Definition last_try (maxTries : Q) (tryIndex : nat) : bool := Qeq_bool (inject_Z (Z.of_nat tryIndex)) (maxTries - 1).

Definition disabled (node : INode) : bool := default false (nd_disabled node).

Definition getPinnedOutput (node : INode) (s : ExecState) : option (list Slot) :=
  if disabled node then None else (fun items => [Some items]) <$> map_get (nd_name node) (xs_pinData s).

(** The results an agent asked for, as [actionResponses]. *)
Definition collectSubNodeResults (x : IExecuteData) (s : ExecState) : list (EngineAction * ITaskData) :=
  match md_subNodeExecutionData (default no_metadata (xd_metadata x)) with
  | None => []
  | Some (actions, _) =>
      subNode ← actions;
      match map_get (sa_nodeName subNode) (xs_runData s) with
      | Some runs => match runs !! sa_runIndex subNode with Some taskData => [(sa_action subNode, taskData)] | None => [] end
      | None => []
      end
  end.

(** ** Running it *)

Definition handleDisabledNode (inputData : ITaskDataConnections) (forwardAllOutputs : bool) : NodeResult :=
  match map_get Main inputData with
  | Some (first :: rest) =>
      if forwardAllOutputs then Returns (Some (first :: rest)) []
      else match first with None => Returns None [] | Some items => Returns (Some [Some items]) [] end
  | _ => Returns None []
  end.

Definition has_items (slot : Slot) : bool := match slot with Some (_ :: _) => true | _ => false end.

Definition continuesOnError (node : INode) : bool :=
  nd_continueOnFail node || bool_decide (nd_onError node = Some "continueRegularOutput"%string) ||
  bool_decide (nd_onError node = Some "continueErrorOutput"%string).

Definition rethrowNodeError (error : ExecutionError) : ExecutionError :=
  if bool_decide (er_name error = "NodeOperationError"%string) || bool_decide (er_name error = "NodeApiError"%string) then error
  else {| er_name := "Error"; er_message := er_message error; er_description := None |}.

(** The error of a node that is known to have failed. *)
Definition rethrowLastNodeError (node : INode) (s : ExecState) : option ExecutionError :=
  if bool_decide (xs_lastNodeExecuted s = Some (nd_name node)) then rethrowNodeError <$> xs_resultError s else None.

Definition handleExecuteOnce (node : INode) (inputData : ITaskDataConnections) : ITaskDataConnections :=
  if nd_executeOnce node then prod_map id (map (option_map (take 1))) <$> inputData else inputData.

(** The output item of a node whose sub-workflow failed while it waited. *)
Definition resumed_item (inputData : ITaskDataConnections) (resumeError : ExecutionError) (subExecution : option JsonValue) :
    INodeExecutionData :=
  {| it_json := [("error"%string, JStr (er_message resumeError))];
     it_error := None;
     it_pairedItem := PairMany (imap (fun item _ => {| pi_item := item; pi_input := None; pi_sourceOverwrite := None |})
                                  (default [] (items_at (main_of inputData) 0)));
     it_rest := match subExecution with Some v => [("metadata"%string, JObj [("subExecution"%string, v)])] | None => [] end |}.

Section Node.
Context (w : Workflow) (H : Host).

(** *** Cancellation *)

Definition cancel_task (taskData : ITaskData) : ITaskData :=
  if bool_decide (td_executionStatus taskData = Some st_running) then
    {| td_startTime := td_startTime taskData; td_executionIndex := td_executionIndex taskData; td_source := td_source taskData;
       td_hints := td_hints taskData; td_executionTime := td_executionTime taskData; td_metadata := td_metadata taskData;
       td_executionStatus := Some st_canceled; td_data := td_data taskData; td_inputOverride := td_inputOverride taskData;
       td_error := td_error taskData |}
  else taskData.

Definition updateTaskStatusesToCancelled (s : ExecState) : ExecState :=
  set_runData (prod_map id (map cancel_task) <$> xs_runData s) s.

Definition emit (e : HookEvent) (s : ExecState) : ExecState := set_events (xs_events s ++ [e]) s.

(** What [onCancel] registers. *)
Definition on_cancel (s : ExecState) : ExecState :=
  let s := set_aborted true (updateTaskStatusesToCancelled (set_status st_canceled s)) in
  emit (WorkflowExecuteAfter (xs_status s) (xs_resultError s)) s.

(** An [await]: the moment passes, and the user may cancel, once. *)
Definition await (s : ExecState) : ExecState :=
  let s' := set_moment (S (xs_moment s)) s in
  if host_cancels H (xs_moment s) && negb (xs_aborted s) then on_cancel s' else s'.

(** [await hooks.runHook(…)]. *)
Definition run_hook (e : HookEvent) (s : ExecState) : ExecState := await (emit e s).

(** *** [runNode] *)

(** The inputs after the first of a legacy loop, with where they come from. *)
Definition loop_back (node : INode) (inputs : list Slot) (source : list (option ISourceData)) : option (list INodeExecutionData) :=
  let descendants := getChildNodes w (nd_name node) in
  mjoin (snd <$> list_find (fun input => is_Some input)
    (imap (fun inputIndex mainData =>
             match mjoin (source !! inputIndex) with
             | Some src =>
                 if has_items mainData &&
                    (bool_decide (previousNode src = nd_name node) || bool_decide (previousNode src ∈ descendants))
                 then mainData else None
             | None => None
             end) inputs)).

(** [None] for [null]. *)
Definition prepareConnectionInputData (nodeType : INodeType) (node : INode) (inputData : ITaskDataConnections)
    (source : option (list (option ISourceData))) : option (list INodeExecutionData) :=
  if ty_execute nodeType || negb (ty_poll nodeType || ty_trigger nodeType || ty_webhook nodeType) then
    match main_of inputData with
    | [] => None
    | first :: rest =>
        let connectionInputData :=
          if negb (isLegacyExecutionOrder w) then
            match list_find (fun input => has_items input) (first :: rest) with Some (_, input) => input | None => first end
          else match default [] source with
               | None :: _ =>
                   if has_items first then first
                   else match loop_back node (first :: rest) (default [] source) with Some items => Some items | None => first end
               | _ => first
               end in
        if has_items connectionInputData then connectionInputData else None
    end
  else Some [].

(** Asking the host. *)
Definition call_node (node : INode) (runIndex : nat) (input : ITaskDataConnections) (connectionInput : list INodeExecutionData)
    (responses : list (EngineAction * ITaskData)) (s : ExecState) : NodeResult * ExecState :=
  let outcome := host_run H (xs_moment s)
    {| nc_node := node; nc_runIndex := runIndex; nc_input := input; nc_connectionInput := connectionInput; nc_responses := responses |} in
  let s := set_calls (S (xs_calls s)) s in
  let s := match no_waitTill outcome with Some t => set_waitTill (Some t) s | None => s end in
  (no_result outcome, await s).

(** A poll or trigger node runs in manual mode only, and passes its input through in the
    others. *)
Definition run_or_pass (node : INode) (runIndex : nat) (inputData : ITaskDataConnections) (s : ExecState) : NodeResult * ExecState :=
  if host_manual H then call_node node runIndex inputData [] [] s
  else (Returns (map_get Main inputData) [], await s).

(** [response.length === 0]. *)
Definition trigger_response (r : NodeResult) : NodeResult := match r with Returns (Some []) hints => Returns None hints | _ => r end.

Definition runNode (x : IExecuteData) (runIndex : nat) (responses : list (EngineAction * ITaskData)) (s : ExecState) :
    NodeResult * ExecState :=
  let node := xs_heap s (xd_node x) in
  let metadata := default no_metadata (xd_metadata x) in
  match md_resumeError metadata with
  | Some resumeError =>
      (if continuesOnError node then Returns (Some [Some [resumed_item (xd_data x) resumeError (md_subExecution metadata)]]) []
       else Throws (rethrowNodeError resumeError), await s)
  | None =>
      if disabled node then (handleDisabledNode (xd_data x) (md_forwardAllOutputs metadata), await s)
      else
        let nodeType := host_nodeType H node in
        match prepareConnectionInputData nodeType node (xd_data x) (xd_source x) with
        | None => (Returns None [], await s)
        | Some connectionInputData =>
            match rethrowLastNodeError node s with
            | Some e => (Throws e, await s)
            | None =>
                let inputData := handleExecuteOnce node (xd_data x) in
                if ty_execute nodeType then call_node node runIndex inputData connectionInputData responses s
                else if ty_poll nodeType then run_or_pass node runIndex inputData s
                else if ty_trigger nodeType then
                  let '(r, s) := run_or_pass node runIndex inputData s in
                  (if host_manual H then trigger_response r else r, s)
                else if ty_supplyData nodeType then
                  (Throws (unexpected_error ("The node " ++ quoted (nd_type node) ++ " has a " ++ quoted "supplyData" ++
                             " method but no " ++ quoted "execute" ++ " method.")), await s)
                else if ty_webhook nodeType && negb (ty_requestDefaults nodeType) then (Returns (map_get Main inputData) [], await s)
                else call_node node runIndex inputData connectionInputData [] s
            end
        end
  end.

End Node.
