(* ===== verification/ExecOutput.v ===== *)
(** * The v1 execution engine: requests of agents

    [packages/core/src/execution-engine/requests-response.ts]: a node may answer with a
    request to run other nodes.  Each gets a placeholder in the run data and a place on the
    stack, and the node itself goes below them, to be run again with their results.

    An agent's parent has run when it is named, so that the last of its runs exists.

    The second half is about what a node returned. *)

From stdpp Require Import base gmap strings pretty list fin_maps.
From Stdlib Require Import ZArith QArith_base Lia.
From S2P Require Import Prelude.
From S2P Require Import JsCollections.
From S2P Require Import EngineTypes.
From S2P Require Import Workflow.
From S2P Require Import ExecTypes.
From S2P Require Import ExecAdd.
From S2P Require Import ExecNode.

#[local] Close Scope Q_scope.

Record NodeToBeExecuted := {
  inputConnectionData : IConnection;
  parentOutputIndex : nat;
  parentNode : string;
  parentOutputData : list Slot;
  ne_runIndex : nat;
  nodeRunIndex : nat;
  ne_metadata : ITaskMetadata;
}.

Definition buildParentOutputData (json : list (string * JsonValue)) (parentRunIndex parentOutputIndex : nat) (parentSourceNode : string) :
    list Slot :=
  [Some [{| it_json := json;
            it_error := None;
            it_pairedItem := PairOne {| pi_item := parentRunIndex;
                                        pi_input := Some parentOutputIndex;
                                        pi_sourceOverwrite := Some (source_from parentSourceNode parentOutputIndex parentRunIndex) |};
            it_rest := [] |}]].

(** [{ ...a, ...b }]. *)
Definition spread {V} (a b : list (string * V)) : list (string * V) := foldl (fun m '(k, v) => map_set k v m) a b.

(** The name, where it is truthy. *)
Definition truthy_name (name : option string) : option string :=
  match name with Some n => if bool_decide (n = ""%string) then None else Some n | None => None end.

Definition placeholder (source : ISourceData) (displayOutputData : list Slot) : ITaskData :=
  {| td_startTime := 0; td_executionIndex := 0; td_source := [Some source]; td_hints := []; td_executionTime := 0;
     td_metadata := None; td_executionStatus := None; td_data := None;
     td_inputOverride := Some [("ai_tool"%string, displayOutputData)]; td_error := None |}.

(** [runData], with the node's next run; and its index. *)
Definition initializeNodeRunData (runData : IRunData) (nodeName parentNode : string) (parentOutputIndex parentRunIndex : nat)
    (parentNamed : bool) (runIndex : nat) (displayOutputData : list Slot) : IRunData * nat :=
  let nodeRunData := default [] (map_get nodeName runData) in
  let sourceData := source_from parentNode parentOutputIndex (if parentNamed then parentRunIndex else runIndex) in
  (map_set nodeName (nodeRunData ++ [placeholder sourceData displayOutputData]) runData, length nodeRunData).

Definition set_rewire (type : string) (node : INode) : INode :=
  {| nd_name := nd_name node; nd_type := nd_type node; nd_position := nd_position node; nd_disabled := nd_disabled node;
     nd_retryOnFail := nd_retryOnFail node; nd_maxTries := nd_maxTries node; nd_waitBetweenTries := nd_waitBetweenTries node;
     nd_alwaysOutputData := nd_alwaysOutputData node; nd_executeOnce := nd_executeOnce node; nd_onError := nd_onError node;
     nd_continueOnFail := nd_continueOnFail node; nd_rewireOutputLogTo := Some type |}.

Section Requests.
Context (w : Workflow).

(** The body of the loop over the actions: the node to be executed, or the error that ends
    the loop. *)
Definition request_action (currentNode : INode) (runIndex : nat) (x : IExecuteData) (action : EngineAction) (s : ExecState) :
    Fallible (NodeToBeExecuted * SubNodeAction * ExecState) :=
  let parentSourceData := mjoin (default [] (xd_source x) !! runIndex) in
  let defaultParentOutputIndex := default 0 (parentSourceData ≫= previousNodeOutput) in
  let defaultParentSourceNode := default (nd_name currentNode) (previousNode <$> parentSourceData) in
  match map_get (ac_nodeName action) (wf_nodes w) with
  | None => inl (unexpected_error ("Workflow does not contain a node with the name of " ++ quoted (ac_nodeName action) ++ "."))
  | Some r =>
      let s := set_heap (fun r' => if decide (r' = r) then set_rewire (ac_type action) (xs_heap s r) else xs_heap s r') s in
      let node := xs_heap s r in
      let parentName := ac_metadata action ≫= am_parentNodeName in
      let parentNamed := bool_decide (is_Some (truthy_name parentName)) in
      let parentNode := default (nd_name currentNode) parentName in
      let parentRunIndex :=
        if parentNamed then from_option length 1 (map_get parentNode (xs_runData s)) - 1
        else default 0 (parentSourceData ≫= previousNodeRun) in
      let itemIndex := default 0 (ac_metadata action ≫= am_itemIndex) in
      let agentJson := from_option it_json [] (default [] (items_at (main_of (xd_data x)) 0) !! itemIndex) in
      let mergedJson := spread (spread agentJson (ac_input action)) [("toolCallId"%string, JStr (ac_id action))] in
      let output := buildParentOutputData mergedJson parentRunIndex defaultParentOutputIndex defaultParentSourceNode in
      let display := buildParentOutputData (ac_input action) parentRunIndex defaultParentOutputIndex defaultParentSourceNode in
      let '(runData, nodeRunIndex) :=
        initializeNodeRunData (xs_runData s) (nd_name node) parentNode defaultParentOutputIndex parentRunIndex parentNamed runIndex display in
      let metadata :=
        {| md_resumeError := None; md_subExecution := None; md_forwardAllOutputs := false; md_nodeWasResumed := false;
           md_subNodeExecutionData := None; md_preserveSourceOverwrite := true;
           md_preservedSourceOverwrite :=
             Some (default (source_from defaultParentSourceNode defaultParentOutputIndex parentRunIndex)
                     (md_preservedSourceOverwrite (default no_metadata (xd_metadata x)))) |} in
      inr ({| inputConnectionData := {| ic_node := ac_nodeName action; ic_type := ac_type action; ic_index := 0 |};
              parentOutputIndex := 0; parentNode := parentNode; parentOutputData := output;
              ne_runIndex := if parentNamed then parentRunIndex else runIndex;
              nodeRunIndex := nodeRunIndex; ne_metadata := metadata |},
           {| sa_action := action; sa_nodeName := ac_nodeName action; sa_runIndex := nodeRunIndex |},
           set_runData runData s)
  end.

(** What was done before an error stays done. *)
Fixpoint prepareRequestedNodesForExecution (currentNode : INode) (runIndex : nat) (x : IExecuteData) (actions : list EngineAction)
    (s : ExecState) : Fallible (list NodeToBeExecuted * list SubNodeAction) * ExecState :=
  match actions with
  | [] => (inr ([], []), s)
  | action :: rest =>
      match request_action currentNode runIndex x action s with
      | inl e => (inl e, s)
      | inr (node, sub, s) =>
          match prepareRequestedNodesForExecution currentNode runIndex x rest s with
          | (inl e, s) => (inl e, s)
          | (inr (nodes, subs), s) => (inr (node :: nodes, sub :: subs), s)
          end
      end
  end.

(** The node that asked, as it is run again; [None] when it has no parent. *)
Definition prepareRequestingNodeForResuming (nodeName : string) (runIndex : nat) (request : EngineRequest) (actions : list SubNodeAction)
    (x : IExecuteData) : option NodeToBeExecuted :=
  let metadata := default no_metadata (xd_metadata x) in
  let preserved := if md_preserveSourceOverwrite metadata then md_preservedSourceOverwrite metadata else None in
  match truthy_name (previousNode <$> mjoin (head (default [] (xd_source x)))) with
  | None => None
  | Some parent =>
      Some {| inputConnectionData := {| ic_node := nodeName; ic_type := "ai_tool"; ic_index := 0 |};
              parentOutputIndex := 0; parentNode := parent; parentOutputData := main_of (xd_data x);
              ne_runIndex := runIndex; nodeRunIndex := runIndex;
              ne_metadata := {| md_resumeError := None; md_subExecution := None; md_forwardAllOutputs := false;
                                md_nodeWasResumed := true; md_subNodeExecutionData := Some (actions, rq_metadata request);
                                md_preserveSourceOverwrite := bool_decide (is_Some preserved);
                                md_preservedSourceOverwrite := preserved |} |}
  end.

Definition handleRequest (currentNode : INode) (request : EngineRequest) (runIndex : nat) (x : IExecuteData) (s : ExecState) :
    Fallible (list NodeToBeExecuted) * ExecState :=
  match prepareRequestedNodesForExecution currentNode runIndex x (rq_actions request) s with
  | (inl e, s) => (inl e, s)
  | (inr (nodes, actions), s) =>
      match prepareRequestingNodeForResuming (nd_name (xs_heap s (xd_node x))) runIndex request actions x with
      | None => (inr [], s)
      | Some resumed => (inr (resumed :: if isLegacyExecutionOrder w then nodes else reverse nodes), s)
      end
  end.

Definition add_requested (s : ExecState) (n : NodeToBeExecuted) : ExecState :=
  addNodeToBeExecuted w (inputConnectionData n) (parentOutputIndex n) (parentNode n) (parentOutputData n) (ne_runIndex n)
    (Some (nodeRunIndex n)) (Some (ne_metadata n)) s.

Definition handleEngineRequest (currentNode : INode) (request : EngineRequest) (runIndex : nat) (x : IExecuteData) (s : ExecState) :
    option ExecutionError * ExecState :=
  match handleRequest currentNode request runIndex x s with
  | (inl e, s) => (Some e, s)
  | (inr nodes, s) => (None, foldl add_requested s nodes)
  end.

End Requests.

(** ** The v1 execution engine: what a node returned

    The post-processing of an output, the tries of a node, and the record of its run.  A
    message of a [TypeError] is not the engine's: it is triesLeft empty. *)

(** A value as a condition ([NaN] is not a value of an item). *)
Definition json_truthy (v : JsonValue) : bool :=
  match v with
  | JNull => false
  | JBool b => b
  | JNum z => negb (z =? 0)%Z
  | JFloat _ => true
  | JStr s => negb (bool_decide (s = ""%string))
  | JArr _ | JObj _ => true
  end.

Definition set_json (json : list (string * JsonValue)) (item : INodeExecutionData) : INodeExecutionData :=
  {| it_json := json; it_error := it_error item; it_pairedItem := it_pairedItem item; it_rest := it_rest item |}.

(** ** Pairing *)

Definition is_unpaired (item : INodeExecutionData) : bool := match it_pairedItem item with NoPair => true | _ => false end.

Definition pair_to (n : nat) : PairedItem := PairOne {| pi_item := n; pi_input := None; pi_sourceOverwrite := None |}.

(** Every item without a pair gets the one of its index. *)
Definition assign_pairs (to : nat -> nat) (output : Slot) : Slot :=
  match output with
  | Some items => Some (imap (fun i item => if is_unpaired item then set_pairedItem (pair_to (to i)) item else item) items)
  | None => None
  end.

(** [length] of what may be missing. *)
Definition slot_length (input : option Slot) : option nat := length <$> mjoin input.

Definition assignPairedItems (nodeSuccessData : option (list Slot)) (x : IExecuteData) : Fallible (option (list Slot)) :=
  match nodeSuccessData with
  | Some (first :: rest) =>
      match map_get Main (xd_data x) with
      | None => inl (type_error "")
      | Some main =>
          let outputs := first :: rest in
          let single_input := bool_decide (length main = 1) in
          let single_output := bool_decide (length outputs = 1) in
          let isSingleInputAndOutput := single_input && bool_decide (slot_length (main !! 0) = Some 1) in
          (* [nodeSuccessData[0].length] *)
          if single_output && single_input && bool_decide (first = None) then inl (type_error "")
          else
            let isSameNumberOfItems := single_output && single_input && bool_decide (slot_length (main !! 0) = length <$> first) in
            let isSingleOutput :=
              single_output && bool_decide (length <$> first = Some 1) && single_input && (1 <? default 0 (slot_length (main !! 0))) in
            inr (Some (if isSingleInputAndOutput then assign_pairs (fun _ => 0) <$> outputs
                       else if isSameNumberOfItems then assign_pairs (fun i => i) <$> outputs
                       else if isSingleOutput then assign_pairs (fun _ => 0) <$> outputs
                       else outputs))
      end
  | _ => inr nodeSuccessData
  end.

(** The pairs of all input items. *)
Definition input_pairs (main : list Slot) : list IPairedItemData :=
  '(inputIndex, input) ← imap pair main;
  imap (fun itemIndex _ => {| pi_item := itemIndex; pi_input := Some inputIndex; pi_sourceOverwrite := None |}) (default [] input).

Definition ensureAlwaysOutputData (nodeSuccessData : option (list Slot)) (node : INode) (x : IExecuteData) :
    Fallible (option (list Slot)) :=
  if has_items (items_at (default [] nodeSuccessData) 0) then inr nodeSuccessData
  else if negb (nd_alwaysOutputData node) then inr nodeSuccessData
  else match map_get Main (xd_data x) with
       | None => inl (type_error "")
       | Some main =>
           let item := {| it_json := []; it_error := None; it_pairedItem := PairMany (input_pairs main); it_rest := [] |} in
           inr (Some (Some [item] :: tail (default [] nodeSuccessData)))
       end.

(** ** Errors of items *)

Definition error_fields : list string := ["error"; "message"; "details"]%string.

(** The error of an item, if it has one. *)
Definition item_error (item : INodeExecutionData) : bool :=
  match it_error item with
  | Some e => json_truthy e
  | None => false
  end ||
  (from_option json_truthy false (map_get "error"%string (it_json item)) &&
   forallb (fun key => bool_decide (key ∈ error_fields)) (it_json item).*1).

Definition first_pair (p : PairedItem) : option IPairedItemData :=
  match p with PairOne p => Some p | PairMany ps => head ps | NoPair | PairNumber _ => None end.

Section Output.
Context (w : Workflow) (H : Host).

(** What goes to the error output for an item that has an error. *)
Definition error_item (x : IExecuteData) (item : INodeExecutionData) : Fallible INodeExecutionData :=
  match xd_source x, first_pair (it_pairedItem item) with
  | Some source, Some paired =>
      match mjoin (source !! default 0 (pi_input paired)) with
      | None => inl (type_error "")
      | Some sourceData =>
          match host_pairedItem H sourceData paired with
          | inl e => inl e
          | inr None => inr item
          | inr (Some json) => inr (set_json (spread json (it_json item)) item)
          end
      end
  | _, _ => inr item
  end.

(** One output: what stays, and what goes to the error output. *)
Fixpoint split_items (x : IExecuteData) (items : list INodeExecutionData) :
    Fallible (list INodeExecutionData * list INodeExecutionData) :=
  match items with
  | [] => inr ([], [])
  | item :: rest =>
      if item_error item then
        match error_item x item with
        | inl e => inl e
        | inr e_item => match split_items x rest with inl e => inl e | inr (ok, errs) => inr (ok, e_item :: errs) end
        end
      else match split_items x rest with inl e => inl e | inr (ok, errs) => inr (item :: ok, errs) end
  end.

(** The outputs before the error output, the items of a missing one being none. *)
Fixpoint split_outputs (x : IExecuteData) (n : nat) (outputs : list Slot) : Fallible (list Slot * list INodeExecutionData) :=
  match n with
  | O => inr ([], [])
  | S n =>
      match split_items x (default [] (items_at outputs 0)) with
      | inl e => inl e
      | inr (ok, errs) =>
          match split_outputs x n (tail outputs) with inl e => inl e | inr (oks, errs') => inr (Some ok :: oks, errs ++ errs') end
      end
  end.

(** A node type without a [main] output has no error output either. *)
Definition handleNodeErrorOutput (x : IExecuteData) (mainOutputs : nat) (nodeSuccessData : list Slot) : Fallible (list Slot) :=
  match mainOutputs with
  | O => inr nodeSuccessData
  | S last =>
      match split_outputs x last nodeSuccessData with
      | inl e => inl e
      | inr (oks, errs) => inr (oks ++ [Some errs] ++ drop mainOutputs nodeSuccessData)
      end
  end.

(** [error.message], on a value. *)
Definition message_of (v : JsonValue) : Fallible (list (string * JsonValue)) :=
  match v with
  | JNull => inl (type_error "")
  | JObj fields => inr (match map_get "message"%string fields with Some m => [("error"%string, m)] | None => [] end)
  | _ => inr []
  end.

Definition with_message (error : JsonValue) (item : INodeExecutionData) : Fallible INodeExecutionData :=
  match message_of error with inl e => inl e | inr json => inr (set_json json item) end.

Definition normalize_item (item : INodeExecutionData) : Fallible INodeExecutionData :=
  match map_get "$error"%string (it_json item), map_get "$json"%string (it_json item) with
  | Some error, Some _ =>
      with_message error {| it_json := it_json item; it_error := Some error; it_pairedItem := it_pairedItem item; it_rest := it_rest item |}
  | _, _ => match it_error item with Some error => with_message error item | None => inr item end
  end.

Fixpoint traverse {A B} (f : A -> Fallible B) (l : list A) : Fallible (list B) :=
  match l with
  | [] => inr []
  | x :: rest => match f x with inl e => inl e | inr y => match traverse f rest with inl e => inl e | inr ys => inr (y :: ys) end end
  end.

(** An output that is [null] cannot be iterated over; nor can no outputs. *)
Definition normalizeNodeErrors (nodeSuccessData : option (list Slot)) : Fallible (list Slot) :=
  match nodeSuccessData with
  | None => inl (type_error "")
  | Some outputs =>
      traverse (fun output => match output with
                              | None => inl (type_error "")
                              | Some items => match traverse normalize_item items with inl e => inl e | inr items => inr (Some items) end
                              end) outputs
  end.

(** ** The tries *)

(** The variables of a try that outlive it. *)
Record Attempt := {
  nodeSuccessData : option (list Slot);
  executionError : option ExecutionError;
  hints : list string;
  actionResponses : list (EngineAction * ITaskData);
}.

Definition at_data (d : option (list Slot)) (a : Attempt) : Attempt :=
  {| nodeSuccessData := d; executionError := executionError a; hints := hints a; actionResponses := actionResponses a |}.
Definition at_error (e : option ExecutionError) (a : Attempt) : Attempt :=
  {| nodeSuccessData := nodeSuccessData a; executionError := e; hints := hints a; actionResponses := actionResponses a |}.

(** How the tries end: with what the attempt holds, with the next node of the stack, or not
    at all within the fuel. *)
Inductive TriesEnd := Tried | NextNode | Spins.

Definition isErrorValue (v : JsonValue) : bool := match v with JNull | JBool false => false | _ => true end.

Definition checkFailure (r : NodeResult) : bool :=
  match r with
  | Returns data _ =>
      match default [] (items_at (default [] data) 0) with
      | item :: _ => from_option isErrorValue false (map_get "error"%string (it_json item))
      | [] => false
      end
  | _ => false
  end.

(** The inner loop: a node whose first item has an error is run again, without the results
    it asked for, until its try is the last one: its index is compared with [maxTries - 1],
    which a [maxTries] that is not whole never equals.  A throw does not count the try.  No
    result: out of fuel. *)
Fixpoint run_again (fuel : nat) (x : IExecuteData) (runIndex : nat) (maxTries : Q) (tryIndex : nat) (r : NodeResult) (s : ExecState) :
    option NodeResult * nat * ExecState :=
  if checkFailure r && negb (last_try maxTries tryIndex) then
    match fuel with
    | O => (None, tryIndex, s)
    | S fuel =>
        let '(r, s) := runNode w H x runIndex [] (await H s) in
        match r with Throws _ => (Some r, tryIndex, s) | _ => run_again fuel x runIndex maxTries (S tryIndex) r s end
    end
  else (Some r, tryIndex, s).

(** [processNodeOutput], on what the node returned. *)
Definition processNodeOutput (node : INode) (x : IExecuteData) (data : option (list Slot)) : Fallible (option (list Slot)) :=
  match data with
  | Some outputs =>
      if bool_decide (nd_onError node = Some "continueErrorOutput"%string)
      then match handleNodeErrorOutput x (ty_mainOutputs (host_nodeType H node)) outputs with
           | inl e => inl e | inr outputs => inr (Some outputs) end
      else inr data
  | None => inr None
  end.

(** Pinned items are the ones that are written on. *)
Definition write_pinned (nodeName : string) (data : option (list Slot)) (s : ExecState) : ExecState :=
  match items_at (default [] data) 0 with
  | Some items => set_pinData (map_set nodeName items (xs_pinData s)) s
  | None => s
  end.

(** The rest of a try, the output of the node at hand. *)
Definition finish_try (node : INode) (pinned : bool) (x : IExecuteData) (a : Attempt) (s : ExecState) :
    Fallible TriesEnd * Attempt * ExecState :=
  match assignPairedItems (nodeSuccessData a) x with
  | inl e => (inl e, a, s)
  | inr data =>
      let s := if pinned then write_pinned (nd_name node) data s else s in
      let s := match data with Some _ => set_lastNodeExecuted (Some (nd_name node)) s | None => s end in
      match ensureAlwaysOutputData data node x with
      | inl e => (inl e, at_data data a, s)
      | inr data =>
          match data, xs_waitTill s with
          | None, None => (inr NextNode, at_data data a, s)
          | _, _ => (inr Tried, at_data data a, s)
          end
      end
  end.

(** The body of the [try]; with it the index of the try it ends at. *)
Definition one_try (x : IExecuteData) (runIndex : nat) (maxTries : Q) (tryIndex : nat) (a : Attempt) (s : ExecState) :
    Fallible TriesEnd * nat * Attempt * ExecState :=
  let node := xs_heap s (xd_node x) in
  match getPinnedOutput node s with
  | Some output =>
      let '(e, a, s) := finish_try node true x (at_data (Some output) a) s in (e, tryIndex, a, s)
  | None =>
      let responses := actionResponses a ++ collectSubNodeResults x s in
      let a := {| nodeSuccessData := nodeSuccessData a; executionError := executionError a; hints := hints a; actionResponses := responses |} in
      let '(r, s) := runNode w H x runIndex responses s in
      let '(r, tryIndex, s) :=
        match r with Throws _ => (Some r, tryIndex, s) | _ => run_again (host_fuel H) x runIndex maxTries tryIndex r s end in
      match r with
      | None => (inr Spins, tryIndex, a, s)
      | Some (Throws e) => (inl e, tryIndex, a, s)
      | Some (Requests request) =>
          match handleEngineRequest w node request runIndex x s with
          | (Some e, s) => (inl e, tryIndex, a, s)
          | (None, s) => (inr NextNode, tryIndex, a, s)
          end
      | Some (Returns data newHints) =>
          let s := await H s in
          let a := {| nodeSuccessData := nodeSuccessData a; executionError := executionError a; hints := hints a ++ newHints;
                      actionResponses := actionResponses a |} in
          match processNodeOutput node x data with
          | inl e => (inl e, tryIndex, a, s)
          | inr data => let '(e, a, s) := finish_try node false x (at_data data a) s in (e, tryIndex, a, s)
          end
      end
  end.

(** The loop over the tries, from one that is made: each takes the index up, so that
    [maxTries] is fuel enough. *)
Fixpoint run_tries (fuel : nat) (x : IExecuteData) (runIndex : nat) (maxTries waitBetweenTries : Q) (tryIndex : nat) (a : Attempt) (s : ExecState) :
    TriesEnd * Attempt * ExecState :=
  match fuel with
  | O => (Tried, a, s)
  | S fuel =>
      match one_try x runIndex maxTries tryIndex a s with
      | (inr result, _, a, s) => (result, a, s)
      | (inl e, tryIndex, a, s) =>
          let a := at_error (Some e) a in
          let s := set_lastNodeExecuted (Some (nd_name (xs_heap s (xd_node x)))) s in
          if more_tries maxTries (S tryIndex)
          then run_tries fuel x runIndex maxTries waitBetweenTries (S tryIndex) (at_error None a)
                 (if Qeq_bool waitBetweenTries 0 then s else await H s)
          else (Tried, a, s)
      end
  end.

(** ** The record of the run *)

Definition createTaskData (startTime : Z) (executionIndex : nat) (newHints : list string) (x : IExecuteData) (s : ExecState) : ITaskData :=
  {| td_startTime := startTime; td_executionIndex := executionIndex; td_source := default [] (xd_source x); td_hints := newHints;
     td_executionTime := host_now H (xs_moment s) - startTime; td_metadata := xd_metadata x;
     td_executionStatus := Some (match xs_waitTill s with Some _ => st_waiting | None => st_success end);
     td_data := None; td_inputOverride := None; td_error := None |}.

Definition or_else {A} (a b : option A) : option A := match a with Some _ => a | None => b end.

(** [Object.assign(old, new)]: what the new record lacks stays. *)
Definition merge_task (old new : ITaskData) : ITaskData :=
  {| td_startTime := td_startTime new; td_executionIndex := td_executionIndex new; td_source := td_source new;
     td_hints := td_hints new; td_executionTime := td_executionTime new; td_metadata := td_metadata new;
     td_executionStatus := td_executionStatus new; td_data := or_else (td_data new) (td_data old);
     td_inputOverride := or_else (td_inputOverride new) (td_inputOverride old); td_error := or_else (td_error new) (td_error old) |}.

Definition upsertTaskData (nodeName : string) (runIndex : nat) (taskData : ITaskData) (s : ExecState) : ExecState :=
  let nodeRunData := default [] (map_get nodeName (xs_runData s)) in
  set_runData (map_set nodeName (match nodeRunData !! runIndex with
                                 | Some old => <[runIndex := merge_task old taskData]> nodeRunData
                                 | None => nodeRunData ++ [taskData]
                                 end) (xs_runData s)) s.

Definition set_task_data (d : option ITaskDataConnections) (t : ITaskData) : ITaskData :=
  {| td_startTime := td_startTime t; td_executionIndex := td_executionIndex t; td_source := td_source t; td_hints := td_hints t;
     td_executionTime := td_executionTime t; td_metadata := td_metadata t; td_executionStatus := td_executionStatus t;
     td_data := d; td_inputOverride := td_inputOverride t; td_error := td_error t |}.
Definition set_task_override (d : option ITaskDataConnections) (t : ITaskData) : ITaskData :=
  {| td_startTime := td_startTime t; td_executionIndex := td_executionIndex t; td_source := td_source t; td_hints := td_hints t;
     td_executionTime := td_executionTime t; td_metadata := td_metadata t; td_executionStatus := td_executionStatus t;
     td_data := td_data t; td_inputOverride := d; td_error := td_error t |}.
Definition set_task_error (e : ExecutionError) (t : ITaskData) : ITaskData :=
  {| td_startTime := td_startTime t; td_executionIndex := td_executionIndex t; td_source := td_source t; td_hints := td_hints t;
     td_executionTime := td_executionTime t; td_metadata := td_metadata t; td_executionStatus := Some st_error;
     td_data := td_data t; td_inputOverride := td_inputOverride t; td_error := Some e |}.

(** The output goes to the log of the connection type a tool is called by. *)
Definition rewireOutputLog (node : INode) (runIndex : nat) (output : list Slot) (taskData : ITaskData) (s : ExecState) : ITaskData :=
  match truthy_name (nd_rewireOutputLogTo node) with
  | None => taskData
  | Some type =>
      let old := default [] (map_get (nd_name node) (xs_runData s)) !! runIndex ≫= td_inputOverride in
      set_task_override (Some (default [] old)) (set_task_data (Some [(type, output)]) taskData)
  end.

Definition message_output (e : ExecutionError) : list Slot :=
  [Some [{| it_json := [("error"%string, JStr (er_message e))]; it_error := None; it_pairedItem := NoPair; it_rest := [] |}]].

(** What goes on when a node failed: its output, or [None] when the loop stops.  With it the
    record and the state. *)
Definition handleNodeExecutionError (x : IExecuteData) (taskData : ITaskData) (error : ExecutionError) (data : option (list Slot))
    (runIndex : nat) (s : ExecState) : option (option (list Slot)) * ITaskData * ExecState :=
  let node := xs_heap s (xd_node x) in
  let taskData := set_task_error error taskData in
  let s := run_hook H (SendChunkError (nd_name node) runIndex) s in
  let isAiToolExecution := bool_decide (nd_rewireOutputLogTo node = Some "ai_tool"%string) in
  let aiToolDefaultsToContinue := isAiToolExecution && bool_decide (nd_onError node <> Some "stopWorkflow"%string) in
  if continuesOnError node || aiToolDefaultsToContinue then
    let data :=
      if isAiToolExecution then Some (message_output error)
      else match main_of (xd_data x) with Some first :: _ => Some [Some first] | _ => data end in
    (Some data, taskData, s)
  else
    let taskData := rewireOutputLog node runIndex (message_output error) taskData s in
    let s := upsertTaskData (nd_name node) runIndex taskData s in
    let s := set_stack (x :: xs_stack s) s in
    let s := if xs_aborted s then s else run_hook H (NodeExecuteAfter (nd_name node) taskData) s in
    (None, taskData, s).

End Output.
