(* ===== verification/ExecFrame.v ===== *)
(** * The v1 execution engine: what running a node leaves alone

    The tries of a node change neither what is queued nor what earlier runs put out, as long
    as the node asks for no other nodes; they call its code a bounded number of times; and a
    cancellation, once there, stays. *)

From stdpp Require Import base gmap strings pretty list fin_maps sorting.
From Stdlib Require Import ZArith QArith_base Lia.
From S2P Require Import Prelude.
From S2P Require Import JsCollections.
From S2P Require Import EngineTypes.
From S2P Require Import Workflow.
From S2P Require Import ExecTypes.
From S2P Require Import ExecAdd.
From S2P Require Import ExecNode.
From S2P Require Import ExecOutput.

#[local] Close Scope Q_scope.

(** ** What is kept *)

(** What each run of each node put out. *)
Definition outputs_of (runData : IRunData) : list (string * list (option ITaskDataConnections)) := prod_map id (map td_data) <$> runData.

Record View := {
  v_stack : list IExecuteData;
  v_waiting : IWaiting Slot;
  v_waitingSource : IWaiting (option ISourceData);
  v_heap : nat -> INode;
  v_runNodeFilter : option (list string);
  v_destinationNode : option IDestinationNode;
  v_lastTry : option (string * nat);
  v_outputs : list (string * list (option ITaskDataConnections));
}.

Definition view (s : ExecState) : View :=
  {| v_stack := xs_stack s; v_waiting := xs_waiting s; v_waitingSource := xs_waitingSource s; v_heap := xs_heap s;
     v_runNodeFilter := xs_runNodeFilter s; v_destinationNode := xs_destinationNode s; v_lastTry := xs_lastTry s;
     v_outputs := outputs_of (xs_runData s) |}.

(** The user's cancellation goes with the status. *)
Definition cancel_ok (s s' : ExecState) : Prop :=
  (xs_status s' = xs_status s \/ xs_status s' = st_canceled) /\
  ((xs_aborted s = true -> xs_status s = st_canceled) -> xs_aborted s' = true -> xs_status s' = st_canceled).

#[export] Instance cancel_ok_preorder : PreOrder cancel_ok.
Proof.
  split; [by split; [left|]|]. intros s1 s2 s3 [H1 H2] [H3 H4]. split; [|auto].
  destruct H1 as [H1|H1], H3 as [H3|H3]; rewrite ?H3, ?H1; auto.
Qed.

Lemma cancel_ok_same s s' : xs_status s' = xs_status s -> xs_aborted s' = xs_aborted s -> cancel_ok s s'.
Proof. intros H1 H2. unfold cancel_ok. rewrite H1, H2. split; [by left|done]. Qed.

(** What only the loop itself changes. *)
Definition frame (s : ExecState) := (xs_status s, xs_aborted s, xs_calls s, xs_events s, (xs_runNodeFilter s, xs_destinationNode s, xs_executionError s)).

Section Quiet.
Context (P : Prop).

(** A part of an iteration that calls a node at most [n] times and starts none; what is
    queued stays where [P] holds. *)
Record Quiet (n : nat) (s s' : ExecState) : Prop := {
  q_view : P -> view s' = view s;
  q_cancel : cancel_ok s s';
  q_calls : xs_calls s' <= n + xs_calls s;
  q_filter : xs_runNodeFilter s' = xs_runNodeFilter s;
  q_destination : xs_destinationNode s' = xs_destinationNode s;
  q_error : xs_executionError s' = xs_executionError s;
  q_events : exists l, xs_events s' = xs_events s ++ l /\ forall name, NodeExecuteBefore name ∉ l;
}.

Lemma calm_refl s : Quiet 0 s s.
Proof. split; try (done || by apply cancel_ok_same). exists []. rewrite app_nil_r. split; [done|set_solver]. Qed.

Lemma calm_trans n m s1 s2 s3 : Quiet n s1 s2 -> Quiet m s2 s3 -> Quiet (n + m) s1 s3.
Proof.
  intros [V1 C1 L1 F1 D1 X1 (l1 & E1 & N1)] [V2 C2 L2 F2 D2 X2 (l2 & E2 & N2)].
  split; [intros; rewrite V2, V1; done|by etrans|lia|congruence..|].
  exists (l1 ++ l2). rewrite E2, E1, (assoc_L (++)). split; [done|]. intros name [?%N1|?%N2]%elem_of_app; done.
Qed.

Lemma calm_mono n m s s' : n <= m -> Quiet n s s' -> Quiet m s s'.
Proof. intros Hnm [V C L F D X E]. split; [done..|lia|done|done|done|done]. Qed.

Lemma calm_then n s1 s2 s3 : Quiet n s1 s2 -> Quiet 0 s2 s3 -> Quiet n s1 s3.
Proof. intros H1 H2. eapply calm_mono; [|exact (calm_trans _ _ _ _ _ H1 H2)]. lia. Qed.

Lemma calm_first n s1 s2 s3 : Quiet 0 s1 s2 -> Quiet n s2 s3 -> Quiet n s1 s3.
Proof. intros H1 H2. exact (calm_trans 0 n _ _ _ H1 H2). Qed.

(** A change of what is neither viewed nor counted. *)
Lemma calm_frame s s' : frame s' = frame s -> (P -> view s' = view s) -> Quiet 0 s s'.
Proof.
  intros [= S A C E F D X] V. split; try done; [by apply cancel_ok_same|lia|]. exists []. rewrite app_nil_r. split; [done|set_solver].
Qed.

Lemma calm_same s s' : frame s' = frame s -> view s' = view s -> Quiet 0 s s'.
Proof. intros ? V. by apply calm_frame. Qed.

End Quiet.

Lemma td_data_cancel t : td_data (cancel_task t) = td_data t.
Proof. unfold cancel_task. by destruct (bool_decide _). Qed.

Lemma outputs_cancel rd : outputs_of (prod_map id (map cancel_task) <$> rd) = outputs_of rd.
Proof.
  unfold outputs_of. rewrite <- list_fmap_compose. apply list_fmap_ext. intros i [n runs] _. unfold compose, prod_map. simpl. f_equal.
  rewrite map_map. apply map_ext. apply td_data_cancel.
Qed.

(** ** Adding nodes *)

Section Adding.
Context (w : Workflow).

Lemma frame_drop_waiting n i s : frame (drop_waiting n i s) = frame s.
Proof. unfold drop_waiting. by destruct (bool_decide _). Qed.

Lemma frame_force_input p o d r l s c : frame (force_input w p o d r l s c) = frame s.
Proof.
  unfold force_input. destruct (bool_decide _); [done|]. destruct (_ && _); [done|]. destruct (bool_decide _); [done|].
  destruct (run_has _ _); [done|]. destruct (negb _); [done|]. destruct (node_to_add _ _ _ _ _ _) as [n|]; [|done].
  destruct (_ && _); [done|]. by destruct (match map_get n _ with Some _ => _ | None => _ end).
Qed.

Lemma frame_add c o p d r n m s : frame (addNodeToBeExecuted w c o p d r n m s) = frame s.
Proof.
  unfold addNodeToBeExecuted. destruct (_ <? _); [|by destruct (map_get _ _)].
  destruct (waiting_index _ _) as [i new]. cbv zeta.
  set (s1 := if new then _ else s). assert (frame s1 = frame s) as Hs1 by (subst s1; by destruct new).
  destruct (forallb _ _); [by rewrite frame_drop_waiting|]. destruct (map_has _ _); [done|].
  generalize (cs ← of_type (connectionsByDestinationNode w) (ic_node c) Main; default [] cs). intros l.
  match goal with |- frame (foldl ?f ?s0 _) = _ => assert (frame s0 = frame s) as Hs2 by done; revert Hs2; generalize s0 end.
  induction l as [|c' l IH]; intros s0 Hs0; simpl; [done|]. apply IH. by rewrite frame_force_input.
Qed.

Lemma frame_request_action node r x action s n sub s' :
  request_action w node r x action s = inr (n, sub, s') -> frame s' = frame s.
Proof.
  unfold request_action. destruct (map_get _ _); [|done]. cbv zeta. destruct (initializeNodeRunData _ _ _ _ _ _ _ _). by intros [= <- <- <-].
Qed.

Lemma frame_prepare_requested node r x actions s e s' :
  prepareRequestedNodesForExecution w node r x actions s = (e, s') -> frame s' = frame s.
Proof.
  revert s e. induction actions as [|action rest IH]; intros s e; simpl; [by intros [= <- <-]|].
  destruct (request_action _ _ _ _ _ _) as [?|[[n sub] s1]] eqn:Ha; [by intros [= <- <-]|].
  rewrite <- (frame_request_action _ _ _ _ _ _ _ _ Ha).
  destruct (prepareRequestedNodesForExecution w node r x rest s1) as [[?|[ns subs]] s2] eqn:Hr; intros [= <- <-]; by eapply IH.
Qed.

Lemma frame_handleEngineRequest node request r x s e s' :
  handleEngineRequest w node request r x s = (e, s') -> frame s' = frame s.
Proof.
  assert (forall l s1, frame (foldl (add_requested w) s1 l) = frame s1) as Hl.
  { induction l as [|n l IH]; intros s2; [done|]. cbn [foldl]. rewrite IH. apply frame_add. }
  unfold handleEngineRequest, handleRequest.
  destruct (prepareRequestedNodesForExecution _ _ _ _ _ _) as [[?|[ns subs]] s1] eqn:Hp; apply frame_prepare_requested in Hp; rewrite <- Hp.
  - by intros [= <- <-].
  - destruct (prepareRequestingNodeForResuming _ _ _ _ _); intros [= <- <-]; [etrans; [apply Hl|apply frame_add]|done].
Qed.

End Adding.

(** ** The tries *)

Section Frame.
Context (w : Workflow) (H : Host).

Lemma calm_emit P e s : (forall name, e <> NodeExecuteBefore name) -> Quiet P 0 s (emit e s).
Proof. intros He. split; try (done || by apply cancel_ok_same). exists [e]. split; [done|]. set_solver. Qed.

Lemma calm_on_cancel P s : Quiet P 0 s (on_cancel s).
Proof.
  unfold on_cancel. split; try done; [|split; [by right|done]|].
  - intros _. unfold view. simpl. f_equal. apply outputs_cancel.
  - eexists. split; [done|]. set_solver.
Qed.

Lemma calm_await P s : Quiet P 0 s (await H s).
Proof.
  unfold await. destruct (_ && _); [|by apply calm_same].
  apply (calm_first P 0 s (set_moment (S (xs_moment s)) s)); [by apply calm_same|apply calm_on_cancel].
Qed.

Lemma calm_run_hook P e s : (forall name, e <> NodeExecuteBefore name) -> Quiet P 0 s (run_hook H e s).
Proof. intros He. eapply calm_first; [by apply calm_emit|apply calm_await]. Qed.

Lemma view_run_hook e s : (forall name, e <> NodeExecuteBefore name) -> view (run_hook H e s) = view s.
Proof. intros He. by apply (q_view _ _ _ _ (calm_run_hook True e s He)). Qed.

(** *** Nodes that ask for no other nodes *)

Definition asks_nothing : Prop := forall moment call request, no_result (host_run H moment call) <> Requests request.

Notation Quiet := (Quiet asks_nothing).
Notation calm_mono := (calm_mono asks_nothing).
Notation calm_trans := (calm_trans asks_nothing).
Notation calm_first := (calm_first asks_nothing).

Lemma calm_call node runIndex input connectionInput responses s :
  Quiet 1 s (call_node H node runIndex input connectionInput responses s).2.
Proof.
  unfold call_node. cbn [snd]. eapply calm_then; [|apply calm_await].
  split; try (by destruct (no_waitTill _)); [by apply cancel_ok_same; destruct (no_waitTill _)|].
  exists []. rewrite app_nil_r. split; [by destruct (no_waitTill _)|set_solver].
Qed.

Lemma calm_run_or_pass node runIndex input s : Quiet 1 s (run_or_pass H node runIndex input s).2.
Proof. unfold run_or_pass. destruct (host_manual H); [apply calm_call|]. eapply calm_mono, calm_await. lia. Qed.

Lemma calm_runNode x runIndex responses s : Quiet 1 s (runNode w H x runIndex responses s).2.
Proof.
  assert (Hidle : Quiet 1 s (await H s)) by (eapply calm_mono, calm_await; lia).
  unfold runNode. destruct (md_resumeError _); [done|]. destruct (disabled _); [done|].
  destruct (prepareConnectionInputData _ _ _ _ _); [|done]. destruct (rethrowLastNodeError _ _); [done|].
  destruct (ty_execute _); [apply calm_call|]. destruct (ty_poll _); [apply calm_run_or_pass|].
  destruct (ty_trigger _).
  { pose proof (calm_run_or_pass (xs_heap s (xd_node x)) runIndex (handleExecuteOnce (xs_heap s (xd_node x)) (xd_data x)) s) as Hq.
    by destruct (run_or_pass H _ _ _ s). }
  destruct (ty_supplyData _); [done|]. destruct (_ && _); [done|]. apply calm_call.
Qed.

(** *** The tries *)

(** [maxTries] is the whole number [S k]: [k] is the index of the last try. *)
Definition last_index (maxTries : Q) (k : nat) : Prop := (maxTries == inject_Z (Z.of_nat (S k)))%Q.

Lemma last_try_whole maxTries k tryIndex : last_index maxTries k -> last_try maxTries tryIndex = (tryIndex =? k).
Proof.
  intros Hk. apply eq_true_iff_eq. unfold last_try. rewrite Qeq_bool_iff, Nat.eqb_eq. unfold last_index in Hk. rewrite Hk.
  change 1%Q with (inject_Z 1). unfold Qminus. rewrite <- inject_Z_opp, <- inject_Z_plus, inject_Z_injective. lia.
Qed.

Lemma more_tries_whole maxTries k tryIndex : last_index maxTries k -> more_tries maxTries tryIndex = (tryIndex <=? k).
Proof.
  intros Hk. unfold more_tries. apply eq_true_iff_eq. rewrite negb_true_iff, <- not_true_iff_false, Qle_bool_iff, Nat.leb_le.
  unfold last_index in Hk. rewrite Hk. rewrite <- Zle_Qle. lia.
Qed.

(** With [S k] tries: [c] calls were made from the try [t] on, and [n] is the try now; at
    most [extra] of them did not take the index up. *)
Definition spent (k extra t c n : nat) : Prop := t <= n <= k /\ c <= extra + (k - t) /\ c + t <= S extra + n.

(** A soft failure costs a try; a throw while trying again does not. *)
Lemma calm_run_again fuel x runIndex maxTries t r s r' n s' :
  run_again w H fuel x runIndex maxTries t r s = (r', n, s') ->
  exists c, Quiet c s s' /\
    forall k, last_index maxTries k -> t <= k -> spent k 0 t c n /\ (k - t <= fuel -> r' <> None).
Proof.
  revert t r s. induction fuel as [|fuel IH]; intros t r s; simpl.
  - destruct (checkFailure r && _) eqn:Hb; intros [= <- <- <-]; exists 0; (split; [apply calm_refl|]); intros k Hk Ht;
      (split; [unfold spent; lia|]); [|done]. intros Hf _. rewrite (last_try_whole _ _ _ Hk) in Hb.
    apply andb_true_iff in Hb as [_ Hb%negb_true_iff%Nat.eqb_neq]. lia.
  - destruct (checkFailure r && _) eqn:Hb.
    2: { intros [= <- <- <-]; exists 0; (split; [apply calm_refl|]); intros k Hk Ht; split; [unfold spent; lia|done]. }
    pose proof (calm_runNode x runIndex [] (await H s)) as Hq.
    destruct (runNode w H x runIndex [] (await H s)) as [r1 s1]. simpl in Hq.
    pose proof (calm_first _ _ _ _ (calm_await _ s) Hq) as Hq1.
    assert (forall k, last_index maxTries k -> t <= k -> t < k) as Hlt.
    { intros k Hk Ht. rewrite (last_try_whole _ _ _ Hk) in Hb. apply andb_true_iff in Hb as [_ Hb%negb_true_iff%Nat.eqb_neq]. lia. }
    assert (run_again w H fuel x runIndex maxTries (S t) r1 s1 = (r', n, s') ->
      exists c, Quiet c s s' /\ forall k, last_index maxTries k -> t <= k -> spent k 0 t c n /\ (k - t <= S fuel -> r' <> None)) as Hrest.
    { intros (c & Hq2 & Hc)%IH. exists (1 + c). split; [exact (calm_trans _ _ _ _ _ Hq1 Hq2)|]. intros k Hk Ht.
      specialize (Hlt k Hk Ht). destruct (Hc k Hk ltac:(lia)) as [Hsp Hfin]. split; [unfold spent in *; lia|]. intros Hf. apply Hfin. lia. }
    destruct r1; [exact Hrest..|]. intros [= <- <- <-]. exists 1. split; [done|]. intros k Hk Ht. specialize (Hlt k Hk Ht).
    split; [unfold spent; lia|done].
Qed.

Lemma calm_finish_try node pinned x a s e a' s' : finish_try node pinned x a s = (e, a', s') -> Quiet 0 s s'.
Proof.
  unfold finish_try. destruct (assignPairedItems _ _) as [?|data]; [intros [= <- <- <-]; apply calm_refl|].
  set (s1 := if pinned then _ else _). set (s2 := match data with Some _ => _ | None => s1 end).
  assert (Quiet 0 s s2) as Hq.
  { assert (Quiet 0 s s1) by (subst s1; destruct pinned; [|apply calm_refl]; unfold write_pinned; destruct (items_at _ _);
      [by apply calm_same|apply calm_refl]).
    subst s2. destruct data; [|done]. eapply calm_then; [done|by apply calm_same]. }
  destruct (ensureAlwaysOutputData _ _ _) as [?|data']; [by intros [= <- <- <-]|].
  destruct data', (xs_waitTill s2); by intros [= <- <- <-].
Qed.

Lemma call_node_answers (Hasks : asks_nothing) node runIndex input connectionInput responses s request :
  (call_node H node runIndex input connectionInput responses s).1 <> Requests request.
Proof. apply Hasks. Qed.

Lemma run_or_pass_answers (Hasks : asks_nothing) node runIndex input s request : (run_or_pass H node runIndex input s).1 <> Requests request.
Proof. unfold run_or_pass. destruct (host_manual H); [by apply call_node_answers|done]. Qed.

Lemma runNode_answers (Hasks : asks_nothing) x runIndex responses s request : (runNode w H x runIndex responses s).1 <> Requests request.
Proof.
  unfold runNode. destruct (md_resumeError _); [by destruct (continuesOnError _)|].
  destruct (disabled _); [unfold handleDisabledNode; simpl; by repeat case_match|].
  destruct (prepareConnectionInputData _ _ _ _ _); [|done]. destruct (rethrowLastNodeError _ _); [done|].
  destruct (ty_execute _); [by apply call_node_answers|]. destruct (ty_poll _); [by apply run_or_pass_answers|].
  destruct (ty_trigger _).
  { pose proof (run_or_pass_answers Hasks (xs_heap s (xd_node x)) runIndex (handleExecuteOnce (xs_heap s (xd_node x)) (xd_data x)) s request) as Hr.
    destruct (run_or_pass H _ _ _ s) as [r s']. simpl in *. destruct (host_manual H); [|done]. unfold trigger_response. by repeat case_match. }
  destruct (ty_supplyData _); [done|]. destruct (_ && _); [done|]. by apply call_node_answers.
Qed.

Lemma run_again_answers (Hasks : asks_nothing) fuel x runIndex maxTries t r s request :
  r <> Requests request -> (run_again w H fuel x runIndex maxTries t r s).1.1 <> Some (Requests request).
Proof.
  revert t r s. induction fuel as [|fuel IH]; intros t r s Hr; simpl; (destruct (checkFailure r && _); [|by intros [= ->]]); [done|].
  pose proof (runNode_answers Hasks x runIndex [] (await H s) request) as Hn.
  destruct (runNode w H x runIndex [] (await H s)) as [r1 s1]. simpl in Hn. destruct r1; [by apply IH..|done].
Qed.

(** What a try did, up to what follows the calls. *)
Lemma calm_calls x runIndex maxTries t responses s :
  exists r n s' c,
    (let '(r1, s1) := runNode w H x runIndex responses s in
     match r1 with Throws _ => (Some r1, t, s1) | _ => run_again w H (host_fuel H) x runIndex maxTries t r1 s1 end) = (r, n, s') /\
    Quiet c s s' /\ (forall k, last_index maxTries k -> t <= k -> spent k 1 t c n /\ (k - t <= host_fuel H -> r <> None)) /\
    (asks_nothing -> forall request, r <> Some (Requests request)).
Proof.
  pose proof (calm_runNode x runIndex responses s) as Hq.
  assert (asks_nothing -> forall request, (runNode w H x runIndex responses s).1 <> Requests request) as Ha
    by (intros; by apply runNode_answers).
  destruct (runNode w H x runIndex responses s) as [r1 s1]. simpl in Hq, Ha.
  assert (exists r n s' c, run_again w H (host_fuel H) x runIndex maxTries t r1 s1 = (r, n, s') /\
    Quiet c s s' /\ (forall k, last_index maxTries k -> t <= k -> spent k 1 t c n /\ (k - t <= host_fuel H -> r <> None)) /\
    (asks_nothing -> forall request, r <> Some (Requests request))) as Hrun.
  { destruct (run_again _ _ _ _ _ _ _ r1 s1) as [[r2 n2] s2] eqn:Hr. destruct (calm_run_again _ _ _ _ _ _ _ _ _ _ Hr) as (c & Hq2 & Hc).
    exists r2, n2, s2, (1 + c). split_and!; [done|by eapply calm_trans| |].
    - intros k Hk Ht. destruct (Hc k Hk Ht). split; [unfold spent in *; lia|done].
    - intros Hasks request. pose proof (run_again_answers Hasks (host_fuel H) x runIndex maxTries t r1 s1 request (Ha Hasks request)) as Hr2.
      by rewrite Hr in Hr2. }
  destruct r1; [exact Hrun..|]. eexists _, _, _, 1. split_and!; [done|done| |done]. intros k Hk Ht. split; [unfold spent; lia|done].
Qed.

Lemma finish_try_ends node pinned x a s e a' s' : finish_try node pinned x a s = (inr e, a', s') -> e <> Spins.
Proof.
  unfold finish_try. destruct (assignPairedItems _ _); [done|]. cbv zeta.
  destruct (ensureAlwaysOutputData _ _ _) as [?|d]; [done|]. intros He. repeat case_match; by simplify_eq.
Qed.

Lemma calm_one_try x runIndex maxTries t a s e n a' s' :
  one_try w H x runIndex maxTries t a s = (e, n, a', s') ->
  exists c, Quiet c s s' /\
    forall k, last_index maxTries k -> t <= k -> spent k 1 t c n /\ (k - t <= host_fuel H -> e <> inr Spins).
Proof.
  unfold one_try. destruct (getPinnedOutput _ s) as [output|].
  { destruct (finish_try _ true x _ s) as [[e0 a0] s0] eqn:Ht. intros [= <- <- <- <-]. exists 0.
    split; [by eapply calm_finish_try|]. intros k Hk Hle. split; [unfold spent; lia|]. intros _ ->. by apply finish_try_ends in Ht. }
  set (responses := actionResponses a ++ _). cbv zeta.
  destruct (calm_calls x runIndex maxTries t responses s) as (r2 & n2 & s2 & c & Hcalls & Hq2 & Hc & Ha2).
  destruct (runNode w H x runIndex responses s) as [r1 s1]. rewrite Hcalls. clear Hcalls r1 s1.
  destruct r2 as [[data newHints|request|err]|].
  - set (a2 := Build_Attempt _ _ _ _). destruct (processNodeOutput _ _ _ _) as [?|data'].
    + intros [= <- <- <- <-]. exists c. split; [eapply calm_then; [done|apply calm_await]|].
      intros k Hk Ht. split; [by apply Hc|done].
    + destruct (finish_try _ false x _ (await H s2)) as [[e0 a0] s0] eqn:Ht. intros [= <- <- <- <-]. exists c.
      split; [eapply calm_then; [done|]; eapply calm_first; [apply calm_await|by eapply calm_finish_try]|].
      intros k Hk Hle. split; [by apply Hc|]. intros _ ->. by apply finish_try_ends in Ht.
  - destruct (handleEngineRequest _ _ _ _ _ s2) as [o s3] eqn:Hh. apply frame_handleEngineRequest in Hh.
    assert (Quiet c s s3) as Hq3.
    { eapply calm_then; [done|]. apply calm_frame; [done|]. intros Hasks. by destruct (Ha2 Hasks request). }
    destruct o; intros [= <- <- <- <-]; exists c; (split; [done|]); intros k Hk Ht; (split; [by apply Hc|done]).
  - intros [= <- <- <- <-]. exists c. split; [done|]. intros k Hk Ht. split; [by apply Hc|done].
  - intros [= <- <- <- <-]. exists c. split; [done|]. intros k Hk Ht. destruct (Hc k Hk Ht) as [Hsp Hn]. split; [done|]. intros Hf.
    by destruct (Hn Hf).
Qed.

(** With [S k] tries a node is called at most [2 * S k - 1] times, and they end. *)
Lemma calm_run_tries fuel x runIndex maxTries wait t a s result a' s' :
  run_tries w H fuel x runIndex maxTries wait t a s = (result, a', s') ->
  exists c, Quiet c s s' /\
    forall k, last_index maxTries k -> t <= k -> c <= S (2 * (k - t)) /\ (k <= host_fuel H -> result <> Spins).
Proof.
  revert t a s. induction fuel as [|fuel IH]; intros t a s; simpl.
  { intros [= <- <- <-]. exists 0. split; [apply calm_refl|]. intros k Hk Ht. split; [lia|done]. }
  destruct (one_try _ _ _ _ _ _ _ _) as [[[e n] a1] s1] eqn:Hone.
  destruct (calm_one_try _ _ _ _ _ _ _ _ _ _ Hone) as (c & Hq & Hc).
  destruct e as [err|res].
  2: { intros [= <- <- <-]. exists c. split; [done|]. intros k Hk Ht. destruct (Hc k Hk Ht) as [Hsp Hn]. split; [unfold spent in Hsp; lia|].
       intros Hf ->. by destruct Hn; [lia|]. }
  set (s2 := set_lastNodeExecuted _ s1). assert (Quiet c s s2) as Hq2 by (eapply calm_then; [done|by apply calm_same]).
  destruct (more_tries maxTries (S n)) eqn:Hm.
  2: { intros [= <- <- <-]. exists c. split; [done|]. intros k Hk Ht. destruct (Hc k Hk Ht) as [Hsp Hn]. split; [unfold spent in Hsp; lia|done]. }
  intros (c2 & Hq3 & Hc2)%IH. exists (c + c2). split.
  - eapply calm_trans; [exact Hq2|]. eapply calm_first; [|exact Hq3]. destruct (Qeq_bool _ _); [apply calm_refl|apply calm_await].
  - intros k Hk Ht. rewrite (more_tries_whole _ _ _ Hk) in Hm. apply Nat.leb_le in Hm. destruct (Hc k Hk Ht) as [Hsp _].
    destruct (Hc2 k Hk ltac:(lia)) as [Hb Hn]. split; [unfold spent in Hsp; lia|done].
Qed.

End Frame.
