(* ===== verification/ExecLoop.v ===== *)
(** * The v1 execution engine: the execution loop

    [processRunExecutionData]: one iteration takes an entry off the stack, runs its node,
    records the run, and adds the nodes after it; when the stack is empty, a node that waits
    and need not wait longer is put on it.  Around the loop: the checks before it, and the
    status an execution ends with.

    [loop] has fuel.  [ExecTotal] bounds what an acyclic workflow needs; an execution of a
    cyclic one need not end. *)

From stdpp Require Import base gmap strings pretty list fin_maps sorting.
From Stdlib Require Import ZArith QArith_base Qround Lia.
From S2P Require Import Prelude.
From S2P Require Import JsCollections.
From S2P Require Import EngineTypes.
From S2P Require Import Workflow.
From S2P Require Import ExecTypes.
From S2P Require Import ExecAdd.
From S2P Require Import ExecNode.
From S2P Require Import ExecOutput.

#[local] Close Scope Q_scope.

(** How an iteration ends: with the next one, with the end of the loop, with a throw that
    nothing in the loop catches, or not within the fuel for a node's tries. *)
Inductive LoopEnd := LoopNext | LoopStop | LoopCrash (e : ExecutionError) | LoopSpins.

Section Loop.
Context (w : Workflow) (H : Host).

(** ** Before the node runs *)

(** [Date.now() >= timeout]. *)
Definition hasExecutionTimedOut (s : ExecState) : bool :=
  match host_timeout H with Some t => (t <=? host_now H (xs_moment s))%Z | None => false end.

Definition mark_timedOut (s : ExecState) : ExecState :=
  if hasExecutionTimedOut s then set_timedOut true (set_status st_canceled s) else s.

Definition shouldStopExecuting (s : ExecState) : bool := bool_decide (xs_status s = st_canceled).

Definition isNodeFilteredOut (nodeName : string) (s : ExecState) : bool :=
  match xs_runNodeFilter s with Some l => negb (bool_decide (nodeName ∈ l)) | None => false end.

(** The loop over the inputs: whether the node is to be put back. *)
Fixpoint lacks_input (s : ExecState) (nodeName : string) (x : IExecuteData) (indexes : list nat) : bool :=
  match indexes with
  | [] => false
  | i :: rest =>
      match getHighestNode w (xs_heap s) nodeName (Some i) with
      | [] => false
      | _ :: _ =>
          if negb (has_main (xd_data x)) then true
          else if isLegacyExecutionOrder w &&
                  ((length (main_of (xd_data x)) <? i) || match main_of (xd_data x) !! i with Some None => true | _ => false end)
          then true
          else lacks_input s nodeName x rest
      end
  end.

Definition ensureInputData (nodeName : string) (x : IExecuteData) (s : ExecState) : bool * ExecState :=
  let inputConnections := of_type (connectionsByDestinationNode w) nodeName Main in
  if lacks_input s nodeName x (seq 0 (length inputConnections))
  then (false, set_stack (xs_stack s ++ [x]) s) else (true, s).

(** ** After it ran: the nodes after it *)

(** A connection out of a node, with its output. *)
Record NodeToAdd := { na_position : Z * Z; na_connection : IConnection; na_outputIndex : nat }.

(** [comparator(a, b) < 0]: [a] is further down, or as far down and further right. *)
Definition sorts_before (a b : NodeToAdd) : bool :=
  let '(ax, ay) := na_position a in
  let '(bx, by_) := na_position b in
  ((by_ <? ay) || ((ay =? by_) && (bx <? ax)))%Z.

Fixpoint sort_insert (a : NodeToAdd) (l : list NodeToAdd) : list NodeToAdd :=
  match l with [] => [a] | b :: l' => if sorts_before a b then a :: l else b :: sort_insert a l' end.

(** [nodesToAdd.sort], which is stable and looks only at whether a comparison is negative. *)
Definition sort_nodes (l : list NodeToAdd) : list NodeToAdd := foldl (fun acc a => sort_insert a acc) [] l.

(** The connections of a node, in the order of the loops. *)
Definition connections_of (nodeName : string) : list (nat * IConnection) :=
  '(outputIndex, cs) ← imap pair (of_type (connectionsBySourceNode w) nodeName Main); c ← default [] cs; [(outputIndex, c)].

(** Whether a connection delivers: its output has items, or it is an optional input. *)
Definition delivers (nodeSuccessData : list Slot) (outputIndex : nat) (c : IConnection) : bool :=
  match items_at nodeSuccessData outputIndex with
  | Some items => negb (bool_decide (items = [])) || ((0 <? ic_index c) && isLegacyExecutionOrder w)
  | None => false
  end.

Definition destination_missing : ExecutionError := unexpected_error "Destination node not found".

(** The legacy order: each node is added as it is found. *)
Fixpoint add_children (nodeName : string) (nodeSuccessData : list Slot) (runIndex : nat) (l : list (nat * IConnection)) (s : ExecState) :
    option ExecutionError * ExecState :=
  match l with
  | [] => (None, s)
  | (outputIndex, c) :: rest =>
      if negb (map_has (ic_node c) (wf_nodes w)) then (Some destination_missing, s)
      else add_children nodeName nodeSuccessData runIndex rest
             (if delivers nodeSuccessData outputIndex c
              then addNodeToBeExecuted w c outputIndex nodeName nodeSuccessData runIndex None None s else s)
  end.

(** Order v1: they are gathered, sorted and added. *)
Definition nodes_to_add (nodeSuccessData : list Slot) (l : list (nat * IConnection)) (s : ExecState) : list NodeToAdd :=
  '(outputIndex, c) ← l;
  if delivers nodeSuccessData outputIndex c
  then [{| na_position := nd_position (xs_heap s (node_ref w (ic_node c))); na_connection := c; na_outputIndex := outputIndex |}] else [].

Definition add_node (nodeName : string) (nodeSuccessData : list Slot) (runIndex : nat) (s : ExecState) (a : NodeToAdd) : ExecState :=
  addNodeToBeExecuted w (na_connection a) (na_outputIndex a) nodeName nodeSuccessData runIndex None None s.

Definition queue_children (nodeName : string) (nodeSuccessData : list Slot) (runIndex : nat) (s : ExecState) :
    option ExecutionError * ExecState :=
  let l := connections_of nodeName in
  if isLegacyExecutionOrder w then add_children nodeName nodeSuccessData runIndex l s
  else if forallb (fun '(_, c) => map_has (ic_node c) (wf_nodes w)) l
  then (None, foldl (add_node nodeName nodeSuccessData runIndex) s (sort_nodes (nodes_to_add nodeSuccessData l s)))
  else (Some destination_missing, s).

(** ** Nodes that wait *)

(** [Object.keys(…).sort()]: the indexes as strings. *)
Definition string_before (a b : nat) : bool := String.leb (pretty a) (pretty b).

Definition firstRunIndex (entries : gmap nat (list Slot)) : option nat :=
  match index_keys entries with
  | [] => None
  | i :: rest => Some (foldl (fun best j => if string_before best j then best else j) i rest)
  end.

Definition inputsWithData (main : list Slot) : list nat :=
  '(index, data) ← imap pair main; match data with Some _ => [index] | None => [] end.

(** Whether the inputs that are required all have data, [all] where that is every input. *)
Definition requires_all (nodeType : INodeType) (required : RequiredInputs) : bool :=
  match required with
  | InputIndexes l => bool_decide (length l = ty_inputs nodeType)
  | InputCount n => bool_decide (n = ty_inputs nodeType)
  end.

Definition required_met (required : RequiredInputs) (withData : list nat) : bool :=
  match required with
  | InputIndexes l => forallb (fun i => bool_decide (i ∈ withData)) l
  | InputCount n => n <=? length withData
  end.

Definition waiting_names (s : ExecState) : list string := (xs_waiting s).*1.

(** What a node that waits is passed over for, or the index it is run for. *)
Definition release_index (s : ExecState) (waitingNodes : list string) (nodeName : string) : option nat :=
  match getNode w (xs_heap s) nodeName with
  | None => None
  | Some checkNode =>
      let nodeType := host_nodeType H checkNode in
      let requiredInputs := if isLegacyExecutionOrder w then None else ty_requiredInputs nodeType in
      if from_option (requires_all nodeType) false requiredInputs then None
      else if existsb (fun value => bool_decide (value ∈ waitingNodes)) (getParentNodes w nodeName) then None
      else
        match firstRunIndex (waits_of (xs_waiting s) nodeName) with
        | None => None
        | Some index =>
            if from_option (fun required => required_met required (inputsWithData (waiting_at (xs_waiting s) nodeName index)))
                 true requiredInputs
            then Some index else None
        end
  end.

Definition or_empty (data : Slot) : Slot := Some (default [] data).

(** The entry is taken off what waits and, unless it has no items, put on the stack. *)
Definition release_entry (s : ExecState) (nodeName : string) (index : nat) : bool * ExecState :=
  let taskDataMain := or_empty <$> waiting_at (xs_waiting s) nodeName index in
  let any := existsb has_items taskDataMain in
  let inputs := from_option (fun node => ty_inputs (host_nodeType H node)) 0 (getNode w (xs_heap s) nodeName) in
  let x := {| xd_node := node_ref w nodeName;
              xd_data := [(Main, taskDataMain ++ replicate (inputs - length taskDataMain) (Some []))];
              xd_source := Some (waiting_at (xs_waitingSource s) nodeName index);
              xd_runIndex := None; xd_metadata := None |} in
  (any, drop_waiting nodeName index (if any then set_stack (xs_stack s ++ [x]) s else s)).

(** The loop over the nodes that wait, which starts again after an entry without items.  Each
    start takes one entry off. *)
Fixpoint release_waiting (fuel : nat) (s : ExecState) : ExecState :=
  match fuel with
  | O => s
  | S fuel =>
      let waitingNodes := waiting_names s in
      match head ('(nodeName) ← waitingNodes; match release_index s waitingNodes nodeName with Some i => [(nodeName, i)] | None => [] end) with
      | None => s
      | Some (nodeName, index) =>
          let '(released, s) := release_entry s nodeName index in
          if released then s else release_waiting fuel s
      end
  end.

Definition waiting_entries (s : ExecState) : nat := sum_list (map (fun p => size p.2) (xs_waiting s)).

Definition releaseWaitingNodes (s : ExecState) : ExecState :=
  match xs_stack s with [] => release_waiting (S (waiting_entries s)) s | _ => s end.

(** ** An iteration *)

(** After the tries: the run is recorded, and what comes next is queued. *)
Definition record_and_queue (x : IExecuteData) (runIndex : nat) (startTime : Z) (executionIndex : nat) (a : Attempt) (pinned : bool)
    (s : ExecState) : LoopEnd * ExecState :=
  let node := xs_heap s (xd_node x) in
  let nodeName := nd_name node in
  let s := if map_has nodeName (xs_runData s) then s else set_runData (map_set nodeName [] (xs_runData s)) s in
  let taskData := createTaskData H startTime executionIndex (hints a) x s in
  let '(data, taskData, s) :=
    match executionError a with
    | None => (Some (nodeSuccessData a), taskData, s)
    | Some error => handleNodeExecutionError H x taskData error (nodeSuccessData a) runIndex s
    end in
  match data with
  | None => (LoopStop, s)
  | Some data =>
      match normalizeNodeErrors data with
      | inl e => (LoopCrash e, s)
      | inr data =>
          let s := if pinned then write_pinned nodeName (Some data) s else s in
          let node := xs_heap s (xd_node x) in
          let taskData := rewireOutputLog node runIndex data (set_task_data (Some [(Main, data)]) taskData) s in
          let s := upsertTaskData nodeName runIndex taskData s in
          match xs_waitTill s with
          | Some _ =>
              let s := run_hook H (NodeExecuteAfter nodeName taskData) s in
              (LoopStop, set_stack (x :: xs_stack s) s)
          | None =>
              if bool_decide (ds_nodeName <$> xs_destinationNode s = Some nodeName) then
                (LoopNext, run_hook H (NodeExecuteAfter nodeName taskData) s)
              else
                match queue_children nodeName data runIndex s with
                | (Some e, s) => (LoopCrash e, s)
                | (None, s) => (LoopNext, releaseWaitingNodes (run_hook H (NodeExecuteAfter nodeName taskData) s))
                end
          end
      end
  end.

(** Whether the output is still the pinned array when the run is recorded. *)
Definition still_pinned (node : INode) (a : Attempt) (s : ExecState) : bool :=
  match getPinnedOutput node s, executionError a with
  | Some (Some (_ :: _) :: _), None => true
  | _, _ => false
  end.

Definition endless_loop : ExecutionError := user_error "Stopped execution because it seems to be in an endless loop".

(** The tries of a node, and what follows them. *)
Definition run_entry (x : IExecuteData) (runIndex : nat) (startTime : Z) (executionIndex : nat) (s : ExecState) : LoopEnd * ExecState :=
  let node := xs_heap s (xd_node x) in
  let s := if md_nodeWasResumed (default no_metadata (xd_metadata x)) then s else run_hook H (NodeExecuteBefore (nd_name node)) s in
  let '(maxTries, waitBetweenTries) := getRetryParams node x in
  let a := {| nodeSuccessData := None; executionError := None; hints := []; actionResponses := [] |} in
  let '(result, a, s) := run_tries w H (Z.to_nat (Qceiling maxTries)) x runIndex maxTries waitBetweenTries 0 a s in
  let s := set_executionError (executionError a) s in
  match result with
  | NextNode => (LoopNext, s)
  | Spins => (LoopSpins, s)
  | Tried => record_and_queue x runIndex startTime executionIndex a (still_pinned node a s) s
  end.

Definition loop_body (x : IExecuteData) (s : ExecState) : LoopEnd * ExecState :=
  let s := set_executionError None s in
  let startTime := host_now H (xs_moment s) in
  let executionIndex := xs_executionIndex s in
  let s := set_executionIndex (S executionIndex) s in
  let x := set_data (addPairedItemLineage x) x in
  let nodeName := nd_name (xs_heap s (xd_node x)) in
  let runIndex := computeRunIndex x s in
  if bool_decide (xs_lastTry s = Some (nodeName, runIndex)) then (LoopCrash endless_loop, s)
  else if isNodeFilteredOut nodeName s then (LoopNext, s)
  else
    match ensureInputData nodeName x s with
    | (false, s) => (LoopNext, set_lastTry (Some (nodeName, runIndex)) s)
    | (true, s) => run_entry x runIndex startTime executionIndex s
    end.

(** [None] once the stack is empty. *)
Definition loop_step (s : ExecState) : option (LoopEnd * ExecState) :=
  match xs_stack s with
  | [] => None
  | x :: rest =>
      let s := mark_timedOut s in
      Some (if shouldStopExecuting s then (LoopStop, s) else loop_body x (set_stack rest s))
  end.

(** How the loop ends; [None]: out of fuel. *)
Fixpoint loop (fuel : nat) (s : ExecState) : option (option ExecutionError * ExecState) :=
  match fuel with
  | O => None
  | S fuel =>
      match loop_step s with
      | None => Some (None, s)
      | Some (LoopNext, s) => loop fuel s
      | Some (LoopStop, s) => Some (None, s)
      | Some (LoopCrash e, s) => Some (Some e, s)
      | Some (LoopSpins, _) => None
      end
  end.

End Loop.
