(* ===== verification/ExecSteps.v ===== *)
(** * The v1 execution engine: what an iteration does

    [loop_step_moves]: what no iteration does, whatever nodes do: it does not take a
    cancellation back, and starts no node the filter leaves out.  [loop_next]: what an
    iteration that goes on did, where nodes ask for no other nodes.

    The second half is about adding a node, in order v1. *)

From stdpp Require Import base gmap strings pretty list fin_maps sorting.
From Stdlib Require Import ZArith QArith_base Lia.
From S2P Require Import Prelude.
From S2P Require Import JsCollections.
From S2P Require Import EngineTypes.
From S2P Require Import Workflow.
From S2P Require Import ExecTypes.
From S2P Require Import ExecAdd.
From S2P Require Import ExecNode.
From S2P Require Import ExecOutput.
From S2P Require Import ExecFrame.
From S2P Require Import ExecLoop.

#[local] Close Scope Q_scope.

(** ** Whatever nodes do *)

(** At most [n] calls; a node that is started is [ok]. *)
Record Moves (n : nat) (ok : string -> Prop) (s s' : ExecState) : Prop := {
  m_cancel : cancel_ok s s';
  m_calls : xs_calls s' <= n + xs_calls s;
  m_filter : xs_runNodeFilter s' = xs_runNodeFilter s;
  m_destination : xs_destinationNode s' = xs_destinationNode s;
  m_events : exists l, xs_events s' = xs_events s ++ l /\ forall name, NodeExecuteBefore name ∈ l -> ok name;
}.

Lemma moves_of_quiet P n ok s s' : Quiet P n s s' -> Moves n ok s s'.
Proof. intros [V C L F D X (l & E & N)]. split; try (done || by apply cancel_ok_same). exists l. split; [done|]. intros name Hin. by destruct (N name). Qed.

Lemma moves_of_frame ok s s' : frame s' = frame s -> Moves 0 ok s s'.
Proof. intros Hf. apply (moves_of_quiet False). by apply calm_frame. Qed.

Lemma moves_refl ok s : Moves 0 ok s s.
Proof. by apply moves_of_frame. Qed.

Lemma moves_trans n m ok s1 s2 s3 : Moves n ok s1 s2 -> Moves m ok s2 s3 -> Moves (n + m) ok s1 s3.
Proof.
  intros [C1 L1 F1 D1 (l1 & E1 & N1)] [C2 L2 F2 D2 (l2 & E2 & N2)]. split; [by etrans|lia|congruence..|].
  exists (l1 ++ l2). rewrite E2, E1, (assoc_L (++)). split; [done|]. intros name [?%N1|?%N2]%elem_of_app; done.
Qed.

Lemma moves_then n ok s1 s2 s3 : Moves n ok s1 s2 -> Moves 0 ok s2 s3 -> Moves n ok s1 s3.
Proof. intros H1 H2. rewrite <- (Nat.add_0_r n). by eapply moves_trans. Qed.

Lemma moves_mono n m ok s s' : n <= m -> Moves n ok s s' -> Moves m ok s s'.
Proof. intros Hnm [C L F D E]. split; [done|lia|done..]. Qed.

(** A change of the error of the iteration only. *)
Lemma moves_error ok e s : Moves 0 ok s (set_executionError e s).
Proof. split; try (done || by apply cancel_ok_same). exists []. rewrite app_nil_r. split; [done|set_solver]. Qed.

Section Steps.
Context (w : Workflow) (H : Host).

Lemma moves_hook ok e s : (forall name, e <> NodeExecuteBefore name) -> Moves 0 ok s (run_hook H e s).
Proof. intros He. apply (moves_of_quiet True). by apply calm_run_hook. Qed.

Lemma frame_add_children n d r l s e s' : add_children w n d r l s = (e, s') -> frame s' = frame s.
Proof.
  revert s. induction l as [|[o c] l IH]; intros s; simpl; [by intros [= <- <-]|].
  destruct (negb _); [by intros [= <- <-]|]. intros Hc%IH. rewrite Hc. destruct (delivers _ _ _ _); [apply frame_add|done].
Qed.

Lemma frame_add_nodes n d r l s : frame (foldl (add_node w n d r) s l) = frame s.
Proof. revert s. induction l as [|a l IH]; intros s; [done|]. cbn [foldl]. rewrite IH. apply frame_add. Qed.

Lemma frame_queue_children n d r s e s' : queue_children w n d r s = (e, s') -> frame s' = frame s.
Proof.
  unfold queue_children. destruct (isLegacyExecutionOrder w); [apply frame_add_children|].
  destruct (forallb _ _); intros [= <- <-]; [apply frame_add_nodes|done].
Qed.

Lemma frame_release fuel s : frame (release_waiting w H fuel s) = frame s.
Proof.
  revert s. induction fuel as [|fuel IH]; intros s; [done|]. simpl.
  destruct (head _) as [[n i]|]; [|done]. unfold release_entry. set (any := existsb _ _).
  assert (forall s0, frame (if any then set_stack s0 s else s) = frame s) as Hs by (intros; by destruct any).
  destruct any; [by rewrite frame_drop_waiting|rewrite IH; by rewrite frame_drop_waiting].
Qed.

Lemma frame_releaseWaitingNodes s : frame (releaseWaitingNodes w H s) = frame s.
Proof. unfold releaseWaitingNodes. destruct (xs_stack s); [apply frame_release|done]. Qed.

Lemma frame_upsert n r t s : frame (upsertTaskData n r t s) = frame s.
Proof. done. Qed.

Lemma frame_write_pinned n d s : frame (write_pinned n d s) = frame s.
Proof. unfold write_pinned. by destruct (items_at _ _). Qed.

Lemma waitTill_run_hook e s : xs_waitTill (run_hook H e s) = xs_waitTill s.
Proof. unfold run_hook, await. by destruct (_ && _). Qed.

Lemma error_run_hook e s : xs_executionError (run_hook H e s) = xs_executionError s.
Proof. unfold run_hook, await. by destruct (_ && _). Qed.

Lemma moves_handle_error ok x t err d r s go t' s' :
  handleNodeExecutionError H x t err d r s = (go, t', s') ->
  Moves 0 ok s s' /\ xs_executionError s' = xs_executionError s /\ (go <> None -> view s' = view s).
Proof.
  unfold handleNodeExecutionError. set (s1 := run_hook _ _ s). set (node := xs_heap s (xd_node x)).
  assert (Quiet True 0 s s1) as Hq by (by apply calm_run_hook).
  destruct (continuesOnError node || _).
  - intros [= <- <- <-]. split_and!; [by eapply moves_of_quiet|by apply (q_error _ _ _ _ Hq)|by intros; apply (q_view _ _ _ _ Hq)].
  - set (t1 := rewireOutputLog _ _ _ _ _). set (s2 := set_stack _ _). set (s3 := if xs_aborted s2 then _ else _).
    intros [= <- <- <-].
    assert (Moves 0 ok s s2) as Hm by (eapply moves_then; [by eapply moves_of_quiet|by apply moves_of_frame]).
    assert (xs_executionError s2 = xs_executionError s) as He by (by apply (q_error _ _ _ _ Hq)).
    subst s3. destruct (xs_aborted s2).
    + done.
    + split_and!; [eapply moves_then; [done|by apply moves_hook]|by rewrite error_run_hook|done].
Qed.

Lemma moves_record ok x r st ei a pinned s e s' :
  record_and_queue w H x r st ei a pinned s = (e, s') -> Moves 0 ok s s'.
Proof.
  unfold record_and_queue. cbv zeta.
  set (s1 := if map_has _ _ then s else _). assert (Moves 0 ok s s1) as H1 by (subst s1; destruct (map_has _ _); by apply moves_of_frame).
  set (t := createTaskData _ _ _ _ _ _).
  destruct (match executionError a with Some _ => _ | None => _ end) as [[d t1] s2] eqn:Hd.
  assert (Moves 0 ok s s2) as H2.
  { destruct (executionError a); [|by injection Hd as <- <- <-]. eapply moves_then; [done|]. by eapply moves_handle_error. }
  destruct d as [d|]; [|by intros [= <- <-]].
  destruct (normalizeNodeErrors d) as [?|out]; [by intros [= <- <-]|].
  set (s3 := if pinned then _ else s2).
  assert (Moves 0 ok s s3) as H3.
  { eapply moves_then; [done|]. apply moves_of_frame. subst s3. destruct pinned; [apply frame_write_pinned|done]. }
  set (t2 := rewireOutputLog _ _ _ _ _). set (s4 := upsertTaskData _ _ _ _).
  assert (Moves 0 ok s s4) as H4 by (eapply moves_then; [done|by apply moves_of_frame]).
  destruct (xs_waitTill s4).
  { intros [= <- <-]. eapply moves_then; [done|]. eapply (moves_then _ _ _ (run_hook H (NodeExecuteAfter _ t2) s4)); [by apply moves_hook|by apply moves_of_frame]. }
  destruct (bool_decide _).
  { intros [= <- <-]. eapply moves_then; [done|by apply moves_hook]. }
  destruct (queue_children _ _ _ _ _) as [[err|] s5] eqn:Hc; apply frame_queue_children in Hc;
    assert (Moves 0 ok s s5) as H5 by (eapply moves_then; [done|by apply moves_of_frame]); intros [= <- <-]; [done|].
  eapply moves_then; [done|]. eapply (moves_then _ _ _ (run_hook H (NodeExecuteAfter _ t2) s5)); [by apply moves_hook|].
  apply moves_of_frame. apply frame_releaseWaitingNodes.
Qed.

(** [maxTries] is a whole number, where it is set. *)
Definition whole_tries (node : INode) : Prop := forall q, nd_maxTries node = Some q -> exists z : Z, (q == inject_Z z)%Q.

Lemma js_min_whole a b (n m : Z) : (a == inject_Z n)%Q -> (b == inject_Z m)%Q -> (js_min a b == inject_Z (n `min` m))%Q.
Proof.
  intros Ha Hb. unfold js_min. destruct (Qle_bool a b) eqn:Hle.
  - apply Qle_bool_iff in Hle. rewrite Ha, Hb, <- Zle_Qle in Hle. by rewrite Z.min_l.
  - apply not_true_iff_false in Hle. rewrite Qle_bool_iff, Ha, Hb, <- Zle_Qle in Hle. rewrite Z.min_r by lia. done.
Qed.

Lemma js_max_whole a b (n m : Z) : (a == inject_Z n)%Q -> (b == inject_Z m)%Q -> (js_max a b == inject_Z (n `max` m))%Q.
Proof.
  intros Ha Hb. unfold js_max. destruct (Qle_bool a b) eqn:Hle.
  - apply Qle_bool_iff in Hle. rewrite Ha, Hb, <- Zle_Qle in Hle. by rewrite Z.max_r.
  - apply not_true_iff_false in Hle. rewrite Qle_bool_iff, Ha, Hb, <- Zle_Qle in Hle. rewrite Z.max_l by lia. done.
Qed.

Lemma whole_default node : whole_tries node -> exists z : Z, (or_default 3 (nd_maxTries node) == inject_Z z)%Q.
Proof.
  intros Hw. unfold or_default. destruct (nd_maxTries node) as [q|] eqn:Hq; [|exists 3%Z; reflexivity].
  destruct (Qeq_bool q 0); [exists 3%Z; reflexivity|by apply Hw].
Qed.

(** At most five tries, and one where the node is not set to be retried. *)
Lemma retry_params_whole node x :
  whole_tries node -> exists k, k <= 4 /\ last_index (getRetryParams node x).1 k /\ (nd_retryOnFail node = false -> k = 0).
Proof.
  intros [z Hz]%whole_default. unfold getRetryParams. destruct (nd_retryOnFail node); cbn [negb orb].
  2: { exists 0. split_and!; [lia|reflexivity|done]. }
  destruct (bool_decide _); cbn [fst]; [exists 0; split_and!; [lia|reflexivity|done]|].
  assert (js_min 5 (js_max 2 (or_default 3 (nd_maxTries node))) == inject_Z (5 `min` (2 `max` z)))%Q as E
    by (apply js_min_whole; [done|by apply js_max_whole]).
  exists (Nat.pred (Z.to_nat (5 `min` (2 `max` z)))). split_and!; [lia| |done]. unfold last_index. rewrite E.
  by replace (Z.of_nat (S (Nat.pred (Z.to_nat (5 `min` (2 `max` z)))))) with (5 `min` (2 `max` z))%Z by lia.
Qed.

Lemma record_ends x r st ei a pinned s s' : record_and_queue w H x r st ei a pinned s <> (LoopSpins, s').
Proof.
  unfold record_and_queue. cbv zeta. destruct (match executionError a with Some _ => _ | None => _ end) as [[d t1] s2].
  destruct d as [d|]; [|done]. destruct (normalizeNodeErrors d) as [?|out]; [done|].
  destruct (xs_waitTill _); [done|]. destruct (bool_decide _); [done|]. by destruct (queue_children _ _ _ _ _) as [[err|] s5].
Qed.

Lemma moves_run_entry x r st ei s e s' :
  run_entry w H x r st ei s = (e, s') ->
  exists c, Moves c (fun name => name = nd_name (xs_heap s (xd_node x))) s s' /\
    forall k, last_index (getRetryParams (xs_heap s (xd_node x)) x).1 k -> c <= S (2 * k) /\ (k <= host_fuel H -> e <> LoopSpins).
Proof.
  unfold run_entry. cbv zeta. set (node := xs_heap s (xd_node x)). set (ok := fun name : string => name = nd_name node).
  set (s1 := if md_nodeWasResumed _ then s else _).
  assert (Moves 0 ok s s1) as H1.
  { subst s1. destruct (md_nodeWasResumed _); [apply moves_refl|]. eapply moves_then; [|apply (moves_of_quiet True), calm_await].
    split; try (done || by apply cancel_ok_same). eexists. split; [done|]. intros name. rewrite list_elem_of_singleton. by intros [= ->]. }
  destruct (getRetryParams node x) as [maxTries wait]. simpl fst.
  destruct (run_tries _ _ _ _ _ _ _ _ _ _) as [[res a] s2] eqn:Ht. apply calm_run_tries in Ht as (c & Hq & Hc).
  set (s3 := set_executionError _ s2). assert (Moves c ok s s3) as H3.
  { eapply (moves_then _ _ _ s2); [|apply moves_error]. apply (moves_trans 0 _ _ _ s1); [done|by eapply moves_of_quiet]. }
  intros Hr. exists c. assert (Moves c ok s s' /\ (e = LoopSpins -> res = Spins)) as [Hm Hsp].
  { destruct res; [|injection Hr as <- <-; done..]. split; [eapply moves_then; [exact H3|]; by eapply moves_record|].
    intros ->. by apply record_ends in Hr. }
  split; [done|]. intros k Hk. destruct (Hc k Hk ltac:(lia)) as [Hb Hn]. split; [lia|]. intros Hf ->. by apply Hn, Hsp.
Qed.

Lemma moves_loop_body x s e s' :
  loop_body w H x s = (e, s') ->
  exists c, Moves c (fun name => isNodeFilteredOut name s = false) s s' /\
    (whole_tries (xs_heap s (xd_node x)) -> 4 <= host_fuel H -> c <= 9 /\ e <> LoopSpins).
Proof.
  unfold loop_body. cbv zeta. set (s1 := set_executionError None s). set (s2 := set_executionIndex _ s1).
  set (ok := fun name => isNodeFilteredOut name s = false). assert (Moves 0 ok s s2) as H2.
  { eapply moves_then; [apply moves_error|by apply moves_of_frame]. }
  assert (forall s3, frame s3 = frame s2 -> Moves 0 ok s s3) as Hidle.
  { intros s3 Hf. eapply moves_then; [exact H2|by apply moves_of_frame]. }
  destruct (bool_decide _); [intros [= <- <-]; exists 0; split; [by apply Hidle|split; [lia|done]]|].
  destruct (isNodeFilteredOut _ s2) eqn:Hfil; [intros [= <- <-]; exists 0; split; [by apply Hidle|split; [lia|done]]|].
  unfold ensureInputData. destruct (lacks_input _ _ _ _ _); [intros [= <- <-]; exists 0; split; [by apply Hidle|split; [lia|done]]|].
  intros (c & Hr & Hc)%moves_run_entry. exists c. split.
  - eapply (moves_trans 0); [exact H2|]. destruct Hr as [C L F D (l & E & N)]. split; [done|lia|done|done|].
    exists l. split; [done|]. intros name Hin. by rewrite (N _ Hin).
  - intros Hw Hf. destruct (retry_params_whole _ (set_data (addPairedItemLineage x) x) Hw) as (k & Hk & Hl & _).
    destruct (Hc k Hl) as [Hb Hn]. split; [lia|apply Hn; lia].
Qed.

Lemma mark_timedOut_heap s : xs_heap (mark_timedOut H s) = xs_heap s.
Proof. unfold mark_timedOut. by destruct (hasExecutionTimedOut H s). Qed.

Lemma loop_step_moves s e s' :
  loop_step w H s = Some (e, s') ->
  exists c, Moves c (fun name => isNodeFilteredOut name s = false) s s' /\
    ((forall ref, whole_tries (xs_heap s ref)) -> 4 <= host_fuel H -> c <= 9 /\ e <> LoopSpins).
Proof.
  unfold loop_step. destruct (xs_stack s) as [|x rest]; [done|]. cbv zeta.
  assert (Moves 0 (fun name => isNodeFilteredOut name s = false) s (mark_timedOut H s)) as Hm.
  { unfold mark_timedOut. destruct (hasExecutionTimedOut H s); [|apply moves_refl].
    split; try done; [split; [by right|done]|]. exists []. rewrite app_nil_r. split; [done|set_solver]. }
  destruct (shouldStopExecuting _); [intros [= <- <-]; exists 0; split; [done|split; [lia|done]]|].
  intros [= Hb]. apply moves_loop_body in Hb as (c & Hb & Hc). exists c. split.
  - apply (moves_trans 0 c _ _ (mark_timedOut H s)); [done|]. revert Hb. unfold isNodeFilteredOut.
    change (xs_runNodeFilter (set_stack rest (mark_timedOut H s))) with (xs_runNodeFilter (mark_timedOut H s)).
    rewrite (m_filter _ _ _ _ Hm). intros [C L F D E]. by split.
  - intros Hw. apply Hc. change (xs_heap (set_stack rest (mark_timedOut H s))) with (xs_heap (mark_timedOut H s)).
    rewrite mark_timedOut_heap. apply Hw.
Qed.

End Steps.

(** ** Where nodes ask for no other nodes *)

Definition with_outputs (o : list (string * list (option ITaskDataConnections))) (v : View) : View :=
  {| v_stack := v_stack v; v_waiting := v_waiting v; v_waitingSource := v_waitingSource v; v_heap := v_heap v;
     v_runNodeFilter := v_runNodeFilter v; v_destinationNode := v_destinationNode v; v_lastTry := v_lastTry v; v_outputs := o |}.

(** The output of a run is put down. *)
Definition upsert_output (nodeName : string) (runIndex : nat) (d : ITaskDataConnections)
    (l : list (string * list (option ITaskDataConnections))) : list (string * list (option ITaskDataConnections)) :=
  let runs := default [] (map_get nodeName l) in
  map_set nodeName (match runs !! runIndex with Some _ => <[runIndex := Some d]> runs | None => runs ++ [Some d] end) l.

(** Where the output of a node is logged. *)
Definition logged (node : INode) (data : list Slot) : ITaskDataConnections :=
  match truthy_name (nd_rewireOutputLogTo node) with Some type => [(type, data)] | None => [(Main, data)] end.

Lemma outputs_set n runs rd : outputs_of (map_set n runs rd) = map_set n (map td_data runs) (outputs_of rd).
Proof.
  unfold outputs_of in *. induction rd as [|[k v] rd IH]; [done|]. simpl. destruct (decide (k = n)); [done|]. simpl. by f_equal.
Qed.

Lemma outputs_get n rd : map_get n (outputs_of rd) = map td_data <$> map_get n rd.
Proof. induction rd as [|[k v] rd IH]; [done|]. simpl. by destruct (decide (k = n)). Qed.

Lemma map_set_twice {A} n (u v : A) (m : list (string * A)) : map_set n u (map_set n v m) = map_set n u m.
Proof.
  induction m as [|[k a] m IH]; simpl; [by rewrite decide_True|]. destruct (decide (k = n)); simpl.
  - by rewrite decide_True.
  - rewrite decide_False by done. by f_equal.
Qed.

Lemma data_upsert (old new : ITaskData) d : td_data new = Some d -> td_data (merge_task old new) = Some d.
Proof. intros Hd. simpl. by rewrite Hd. Qed.

Lemma outputs_upsert n r t d s :
  td_data t = Some d ->
  outputs_of (xs_runData (upsertTaskData n r t s)) = upsert_output n r d (outputs_of (xs_runData s)).
Proof.
  intros Ht. unfold upsertTaskData, upsert_output. cbn [xs_runData set_runData]. rewrite outputs_set, outputs_get. f_equal.
  destruct (map_get n (xs_runData s)) as [runs|]; simpl; [|by rewrite Ht].
  change (list_lookup r (map td_data runs)) with (map td_data runs !! r). change (map td_data) with (fmap (M:=list) td_data).
  rewrite list_lookup_fmap. destruct (runs !! r) as [old|] eqn:Hr; simpl.
  - rewrite list_fmap_insert. simpl. by rewrite Ht.
  - rewrite fmap_app. simpl. by rewrite Ht.
Qed.

Lemma upsert_output_new n r d l : map_get n l = None -> upsert_output n r d (map_set n [] l) = upsert_output n r d l.
Proof. intros Hn. unfold upsert_output. by rewrite map_get_set_eq, Hn, map_set_twice. Qed.

Lemma data_rewire node r data t s : td_data (rewireOutputLog node r data (set_task_data (Some [(Main, data)]) t) s) = Some (logged node data).
Proof. unfold rewireOutputLog, logged. by destruct (truthy_name _). Qed.

Section Next.
Context (w : Workflow) (H : Host) (Hasks : asks_nothing H).

(** What an iteration that goes on did with the entry [x] it took. *)
Inductive Next (x : IExecuteData) (rest : list IExecuteData) (s s' : ExecState) : Prop :=
  | NextSkipped :
      view s' = view (set_stack rest s) -> Next x rest s s'
  | NextDeferred x' lastTry :
      x' = set_data (addPairedItemLineage x) x ->
      lacks_input w s (nd_name (xs_heap s (xd_node x))) x'
        (seq 0 (length (of_type (connectionsByDestinationNode w) (nd_name (xs_heap s (xd_node x))) Main))) = true ->
      view s' = view (set_lastTry lastTry (set_stack (rest ++ [x']) s)) -> Next x rest s s'
  | NextRan r data s1 :
      isNodeFilteredOut (nd_name (xs_heap s (xd_node x))) s = false ->
      r = computeRunIndex x s ->
      view s1 = with_outputs (upsert_output (nd_name (xs_heap s (xd_node x))) r (logged (xs_heap s (xd_node x)) data) (outputs_of (xs_runData s)))
                  (view (set_stack rest s)) ->
      (ds_nodeName <$> xs_destinationNode s = Some (nd_name (xs_heap s (xd_node x))) /\ view s' = view s1 \/
       exists s2 s3, queue_children w (nd_name (xs_heap s (xd_node x))) data r s1 = (None, s2) /\ view s3 = view s2 /\
                     s' = releaseWaitingNodes w H s3) -> Next x rest s s'.

Lemma view_heap s s' : view s' = view s -> xs_heap s' = xs_heap s.
Proof. by intros [= ??? -> ????]. Qed.

Lemma view_outputs s s' : view s' = view s -> outputs_of (xs_runData s') = outputs_of (xs_runData s).
Proof. by intros [=]. Qed.

Lemma record_next x r st ei a pinned s s' :
  record_and_queue w H x r st ei a pinned s = (LoopNext, s') ->
  exists data s1,
    view s1 = with_outputs (upsert_output (nd_name (xs_heap s (xd_node x))) r (logged (xs_heap s (xd_node x)) data) (outputs_of (xs_runData s))) (view s) /\
    (ds_nodeName <$> xs_destinationNode s = Some (nd_name (xs_heap s (xd_node x))) /\ view s' = view s1 \/
     exists s2 s3, queue_children w (nd_name (xs_heap s (xd_node x))) data r s1 = (None, s2) /\ view s3 = view s2 /\
                   s' = releaseWaitingNodes w H s3).
Proof.
  unfold record_and_queue. cbv zeta. set (name := nd_name (xs_heap s (xd_node x))).
  set (s1 := if map_has _ _ then s else _).
  destruct (match executionError a with Some _ => _ | None => _ end) as [[d t1] s2] eqn:Hd.
  destruct d as [d|]; [|done].
  assert (view s2 = view s1) as H2.
  { destruct (executionError a); [|by simplify_eq/=]. apply (moves_handle_error H (fun _ => True)) in Hd as (_ & _ & Hv). by apply Hv. }
  destruct (normalizeNodeErrors d) as [?|out]; [done|].
  set (s3 := if pinned then _ else s2).
  assert (view s3 = view s2) as H3 by (subst s3; destruct pinned; [unfold write_pinned; by destruct (items_at _ _)|done]).
  assert (xs_heap s3 = xs_heap s) as Hh.
  { rewrite (view_heap _ _ H3), (view_heap _ _ H2). subst s1. by destruct (map_has _ _). }
  set (t2 := rewireOutputLog _ _ _ _ _). set (s4 := upsertTaskData _ _ _ _).
  assert (view s4 = with_outputs (upsert_output name r (logged (xs_heap s (xd_node x)) out) (outputs_of (xs_runData s))) (view s)) as H4.
  { rewrite <- H3 in H2. unfold view in H2. injection H2 as E1 E2 E3 E4 E5 E6 E7 E8.
    unfold view, with_outputs. subst s4. rewrite (outputs_upsert _ _ _ (logged (xs_heap s (xd_node x)) out)) by (subst t2; rewrite data_rewire, Hh; done).
    rewrite E8. cbn. f_equal; [(etrans; [eassumption|]; subst s1; by destruct (map_has _ _))..|]. subst s1.
    destruct (map_has name (xs_runData s)) eqn:Hhas; [done|]. cbn [xs_runData set_runData]. rewrite outputs_set.
    apply upsert_output_new. rewrite outputs_get. unfold map_has in Hhas. by destruct (map_get name (xs_runData s)). }
  destruct (xs_waitTill s4); [done|].
  assert (xs_destinationNode s4 = xs_destinationNode s) as Hdest by (by injection H4).
  rewrite Hdest. case_bool_decide as Hb.
  - intros [= <-]. exists out, s4. split; [done|]. left. split; [done|by apply view_run_hook].
  - destruct (queue_children _ _ _ _ _) as [[err|] s5] eqn:Hc; [done|]. intros [= <-]. exists out, s4. split; [done|].
    right. eexists s5, _. split_and!; [exact Hc| |reflexivity]. by apply view_run_hook.
Qed.

Lemma run_entry_next x r st ei s s' :
  run_entry w H x r st ei s = (LoopNext, s') ->
  view s' = view s \/
  exists data s1,
    view s1 = with_outputs (upsert_output (nd_name (xs_heap s (xd_node x))) r (logged (xs_heap s (xd_node x)) data) (outputs_of (xs_runData s))) (view s) /\
    (ds_nodeName <$> xs_destinationNode s = Some (nd_name (xs_heap s (xd_node x))) /\ view s' = view s1 \/
     exists s2 s3, queue_children w (nd_name (xs_heap s (xd_node x))) data r s1 = (None, s2) /\ view s3 = view s2 /\
                   s' = releaseWaitingNodes w H s3).
Proof.
  unfold run_entry. cbv zeta. set (node := xs_heap s (xd_node x)).
  set (s1 := if md_nodeWasResumed _ then s else _).
  assert (view s1 = view s) as H1.
  { subst s1. destruct (md_nodeWasResumed _); [done|]. unfold run_hook.
    by rewrite (q_view True _ _ _ (calm_await H True _)). }
  destruct (getRetryParams node x) as [maxTries wait].
  destruct (run_tries _ _ _ _ _ _ _ _ _ _) as [[res a] s2] eqn:Ht. apply calm_run_tries in Ht as (c & Ht & _).
  assert (view s2 = view s) as H2 by (rewrite (q_view _ _ _ _ Ht Hasks); done).
  destruct res; [|intros [= <-]; by left|done]. intros Hr%record_next. right. revert Hr.
  change (xs_heap (set_executionError (executionError a) s2)) with (xs_heap s2).
  change (xs_destinationNode (set_executionError (executionError a) s2)) with (xs_destinationNode s2).
  change (xs_runData (set_executionError (executionError a) s2)) with (xs_runData s2).
  change (view (set_executionError (executionError a) s2)) with (view s2).
  rewrite (view_heap _ _ H2), (view_outputs _ _ H2), H2. replace (xs_destinationNode s2) with (xs_destinationNode s) by (by injection H2). done.
Qed.

Lemma loop_next s s' :
  loop_step w H s = Some (LoopNext, s') -> exists x rest, xs_stack s = x :: rest /\ Next x rest s s'.
Proof.
  unfold loop_step. destruct (xs_stack s) as [|x rest] eqn:Hst; [done|]. cbv zeta. intros Hb. exists x, rest. split; [done|]. revert Hb.
  destruct (shouldStopExecuting _); [done|]. intros [= Hb]. revert Hb.
  assert (view (set_stack rest (mark_timedOut H s)) = view (set_stack rest s)) as Hm.
  { unfold mark_timedOut. by destruct (hasExecutionTimedOut H s). }
  assert (xs_runData (mark_timedOut H s) = xs_runData s) as Hrd by (unfold mark_timedOut; by destruct (hasExecutionTimedOut H s)).
  assert (xs_heap (mark_timedOut H s) = xs_heap s) as Hh by (by injection Hm).
  assert (forall n, isNodeFilteredOut n (mark_timedOut H s) = isNodeFilteredOut n s) as Hfil.
  { intros n. unfold isNodeFilteredOut. by assert (xs_runNodeFilter (mark_timedOut H s) = xs_runNodeFilter s) as -> by (by injection Hm). }
  unfold loop_body. cbv zeta. set (s1 := set_executionIndex _ _).
  assert (view s1 = view (set_stack rest s)) as H1 by done.
  assert (xs_heap s1 = xs_heap s) as Hh1 by done. set (x' := set_data _ x).
  change (xd_node x') with (xd_node x). rewrite Hh1.
  destruct (bool_decide _); [done|].
  change (isNodeFilteredOut _ s1) with (isNodeFilteredOut (nd_name (xs_heap s (xd_node x))) (mark_timedOut H s)). rewrite Hfil.
  destruct (isNodeFilteredOut _ s) eqn:Hf; [intros [= <-]; by apply NextSkipped|].
  unfold ensureInputData. destruct (lacks_input _ _ _ _ _) eqn:Hl.
  - intros [= <-]. eapply (NextDeferred _ _ _ _ x'); [done| |].
    + rewrite <- Hl. clear -Hh. induction (seq 0 _) as [|i l IH]; [done|]. simpl. by rewrite Hh, IH.
    + subst s1. unfold view, mark_timedOut. by destruct (hasExecutionTimedOut H s).
  - intros [Hv|(data & s2 & Hv & Hr)]%run_entry_next; [apply NextSkipped; congruence|].
    change (xd_node x') with (xd_node x) in *. rewrite Hh1 in *.
    assert (computeRunIndex x' s1 = computeRunIndex x s) as Hc.
    { unfold computeRunIndex. change (xs_runData s1) with (xs_runData (mark_timedOut H s)). cbn [xd_runIndex xd_node set_data x'].
      by rewrite Hh1, Hrd. }
    assert (xs_destinationNode s1 = xs_destinationNode s) as Hd by (by injection H1).
    rewrite Hc, Hd in Hr. rewrite Hc, H1 in Hv. change (xs_runData s1) with (xs_runData (mark_timedOut H s)) in Hv. rewrite Hrd in Hv.
    by eapply (NextRan _ _ _ _ (computeRunIndex x s) data s2).
Qed.

End Next.

(** ** The v1 execution engine: what adding a node does, in order v1

    In order v1 a node that gets data goes on the stack or waits; nothing else is queued.
    [add_cases] gives the two ways; [release_cases] what a node that waits becomes. *)

(** ** What waits *)

Lemma waits_of_set {A} n (m : gmap nat (list A)) (wt : IWaiting A) : waits_of (map_set n m wt) n = m.
Proof. unfold waits_of. by rewrite map_get_set_eq. Qed.

Lemma waits_of_set_ne {A} n n' (m : gmap nat (list A)) (wt : IWaiting A) : n <> n' -> waits_of (map_set n m wt) n' = waits_of wt n'.
Proof. intros. unfold waits_of. by rewrite map_get_set_ne. Qed.

Lemma waiting_at_set {A} n i (l : list A) wt : waiting_at (set_waiting_at n i l wt) n i = l.
Proof. unfold waiting_at, set_waiting_at. by rewrite waits_of_set, lookup_insert_eq. Qed.

Lemma set_waiting_at_twice {A} n i (l l' : list A) wt : set_waiting_at n i l (set_waiting_at n i l' wt) = set_waiting_at n i l wt.
Proof. unfold set_waiting_at. by rewrite waits_of_set, insert_insert_eq, map_set_twice. Qed.

Lemma elem_of_index_keys {A} (m : gmap nat (list A)) i : i ∈ index_keys m <-> is_Some (m !! i).
Proof.
  unfold index_keys. rewrite (merge_sort_Permutation (≤)), list_elem_of_fmap. split.
  - intros ((j & l) & -> & Hl%elem_of_map_to_list). by eexists.
  - intros [l Hl]. exists (i, l). split; [done|by apply elem_of_map_to_list].
Qed.

(** The entry data is added to. *)
Lemma waiting_index_old index entries i :
  waiting_index index entries = (i, false) -> is_Some (entries !! i) /\ items_at (default [] (entries !! i)) index = None.
Proof.
  unfold waiting_index. destruct (list_find _ _) as [[j k]|] eqn:Hf; [|done]. intros [= <-].
  apply list_find_Some in Hf as (Hk & Hn & _). apply list_elem_of_lookup_2, elem_of_index_keys in Hk. done.
Qed.

Section Queue.
Context (w : Workflow) (Hv1 : isLegacyExecutionOrder w = false).

Lemma enqueue_v1 x s : enqueue w x s = set_stack (x :: xs_stack s) s.
Proof. unfold enqueue. by rewrite Hv1. Qed.

Lemma force_input_v1 p o d r l s c : force_input w p o d r l s c = s.
Proof.
  unfold force_input. destruct (bool_decide _); [done|]. destruct (_ && _); [done|]. destruct (bool_decide _); [done|].
  destruct (run_has _ _); [done|]. by rewrite Hv1.
Qed.

(** The number of inputs of a node. *)
Definition inputs_of (nodeName : string) : nat := length (of_type (connectionsByDestinationNode w) nodeName Main).

(** The entry for a node with one input. *)
Definition direct_entry (ref index : nat) (data : Slot) (src : ISourceData) (runIndex : option nat) (metadata : option ITaskMetadata) :
    IExecuteData :=
  {| xd_node := ref; xd_data := [(Main, replicate index None ++ [data])]; xd_source := Some [Some src]; xd_runIndex := runIndex;
     xd_metadata := metadata |}.

(** The entry for a node whose inputs have come together. *)
Definition joined_entry (ref : nat) (gathered : list Slot) (sources : list (option ISourceData)) : IExecuteData :=
  {| xd_node := ref; xd_data := [(Main, gathered)]; xd_source := Some sources; xd_runIndex := None; xd_metadata := None |}.

(** The data and the sources of an entry that waits, with those of one more input. *)
Definition put_waiting (nodeName : string) (i : nat) (l : list Slot) (l' : list (option ISourceData)) (s : ExecState) : ExecState :=
  set_waitingSource (set_waiting_at nodeName i l' (xs_waitingSource s)) (set_waiting (set_waiting_at nodeName i l (xs_waiting s)) s).

Inductive Added (nodeName : string) (index : nat) (data : Slot) (src : ISourceData) (runIndex : option nat) (metadata : option ITaskMetadata)
    (s : ExecState) : ExecState -> Prop :=
  | AddedNowhere : map_get nodeName (wf_nodes w) = None -> Added nodeName index data src runIndex metadata s s
  | AddedDirect ref :
      inputs_of nodeName <= 1 -> map_get nodeName (wf_nodes w) = Some ref ->
      Added nodeName index data src runIndex metadata s (set_stack (direct_entry ref index data src runIndex metadata :: xs_stack s) s)
  | AddedWaiting i new l l' :
      1 < inputs_of nodeName -> waiting_index index (waits_of (xs_waiting s) nodeName) = (i, new) ->
      l = <[index := data]> (if new then replicate (inputs_of nodeName) None else waiting_at (xs_waiting s) nodeName i) ->
      l' = <[index := Some src]> (if new then replicate (inputs_of nodeName) None else waiting_at (xs_waitingSource s) nodeName i) ->
      Added nodeName index data src runIndex metadata s (put_waiting nodeName i l l' s)
  | AddedJoined i new l l' :
      1 < inputs_of nodeName -> waiting_index index (waits_of (xs_waiting s) nodeName) = (i, new) ->
      l = <[index := data]> (if new then replicate (inputs_of nodeName) None else waiting_at (xs_waiting s) nodeName i) ->
      l' = <[index := Some src]> (if new then replicate (inputs_of nodeName) None else waiting_at (xs_waitingSource s) nodeName i) ->
      Forall is_Some l ->
      Added nodeName index data src runIndex metadata s
        (drop_waiting nodeName i (set_stack (joined_entry (node_ref w nodeName) l l' :: xs_stack s) (put_waiting nodeName i l l' s))).

Lemma add_cases c o p d r n m s :
  Added (ic_node c) (ic_index c) (items_at d o) (source_from p o r) n m s (addNodeToBeExecuted w c o p d r n m s).
Proof.
  unfold addNodeToBeExecuted. fold (inputs_of (ic_node c)). destruct (Nat.ltb_spec 1 (inputs_of (ic_node c))) as [Hin|Hin].
  2: { destruct (map_get _ _) as [ref|] eqn:Hg; [|by apply AddedNowhere]. rewrite enqueue_v1. by apply AddedDirect. }
  destruct (waiting_index _ _) as [i new] eqn:Hi. cbv zeta. set (s1 := if new then _ else s).
  set (l := <[ic_index c := items_at d o]> (if new then replicate (inputs_of (ic_node c)) None else waiting_at (xs_waiting s) (ic_node c) i)).
  set (l' := <[ic_index c := Some (source_from p o r)]>
    (if new then replicate (inputs_of (ic_node c)) None else waiting_at (xs_waitingSource s) (ic_node c) i)).
  set (s2 := set_waiting _ s1). set (s3 := set_waitingSource _ s2).
  assert (s3 = put_waiting (ic_node c) i l l' s) as Hs3.
  { subst s3 s2 s1 l l'. destruct new; [|done]. unfold put_waiting, prepareWaitingToExecution.
    cbn [xs_waiting xs_waitingSource set_waiting set_waitingSource].
    by rewrite !waiting_at_set, !set_waiting_at_twice. }
  clearbody s3. subst s3.
  change (xs_waiting (put_waiting _ _ _ _ s)) with (set_waiting_at (ic_node c) i l (xs_waiting s)). rewrite waiting_at_set.
  change (xs_waitingSource (put_waiting _ _ _ _ s)) with (set_waiting_at (ic_node c) i l' (xs_waitingSource s)). rewrite waiting_at_set.
  destruct (forallb _ l) eqn:Hall.
  - rewrite enqueue_v1. refine (AddedJoined _ _ _ _ _ _ _ i new l l' _ _ _ _ _); [done..|]. apply Forall_forall. intros x Hx.
    rewrite forallb_forall in Hall. apply list_elem_of_In in Hx. exact (proj1 (bool_decide_eq_true _) (Hall x Hx)).
  - assert (forall s0 cs ls, foldl (force_input w p o d r cs) s0 ls = s0) as Hf.
    { intros s0 cs ls. induction ls as [|a ls IH]; [done|]. cbn [foldl]. by rewrite force_input_v1. }
    destruct (map_has _ _); [|rewrite Hf]; by eapply AddedWaiting.
Qed.

End Queue.

(** ** Nodes that wait *)

Section Release.
Context (w : Workflow) (H : Host).

(** What [releaseWaitingNodes] does: entries without items go, and one with items may go on
    the stack. *)
Inductive Released : ExecState -> ExecState -> Prop :=
  | ReleasedNone s : Released s s
  | ReleasedEmpty s nodeName i l s' :
      waits_of (xs_waiting s) nodeName !! i = Some l -> existsb has_items l = false ->
      Released (drop_waiting nodeName i s) s' -> Released s s'
  | ReleasedEntry s nodeName i l k :
      waits_of (xs_waiting s) nodeName !! i = Some l -> existsb has_items l = true ->
      is_Some (map_get nodeName (wf_nodes w)) ->
      release_index w H s (waiting_names s) nodeName = Some i ->
      Released s (drop_waiting nodeName i
        (set_stack (xs_stack s ++ [joined_entry (node_ref w nodeName) ((or_empty <$> l) ++ replicate k (Some []))
                                     (waiting_at (xs_waitingSource s) nodeName i)]) s)).

Lemma has_items_or_empty l : existsb has_items (or_empty <$> l) = existsb has_items l.
Proof. induction l as [|[[|]|] l IH]; simpl; auto. Qed.

Lemma firstRunIndex_in m i : firstRunIndex m = Some i -> is_Some (m !! i).
Proof.
  unfold firstRunIndex. destruct (index_keys m) as [|j rest] eqn:Hk; [done|]. intros [= <-].
  apply elem_of_index_keys. rewrite Hk.
  assert (forall best, foldl (fun best j => if string_before best j then best else j) best rest = best \/
    foldl (fun best j => if string_before best j then best else j) best rest ∈ rest) as Hf.
  { clear. induction rest as [|a rest IH]; intros best; simpl; [by left|].
    destruct (IH (if string_before best a then best else a)) as [-> |?]; [|right; by right].
    destruct (string_before best a); [by left|right; by left]. }
  destruct (Hf j) as [-> |?]; [by left|by right].
Qed.

Lemma release_index_spec s names nodeName i :
  release_index w H s names nodeName = Some i ->
  is_Some (map_get nodeName (wf_nodes w)) /\ is_Some (waits_of (xs_waiting s) nodeName !! i).
Proof.
  unfold release_index, getNode. destruct (map_get nodeName (wf_nodes w)); simpl; [|done].
  destruct (from_option _ false _); [done|]. destruct (existsb _ _); [done|].
  destruct (firstRunIndex _) as [j|] eqn:Hf; [|done]. destruct (from_option _ true _); [|done]. intros [= <-].
  split; [done|by apply firstRunIndex_in].
Qed.

Lemma release_cases fuel s : Released s (release_waiting w H fuel s).
Proof.
  revert s. induction fuel as [|fuel IH]; intros s; [apply ReleasedNone|]. simpl.
  destruct (head _) as [[n i]|] eqn:Hh; [|apply ReleasedNone].
  apply head_Some_elem_of in Hh. apply list_elem_of_bind in Hh as (n' & Hp & Hn').
  destruct (release_index w H s (waiting_names s) n') as [i'|] eqn:Hr; [|set_solver].
  apply list_elem_of_singleton in Hp as [= -> ->].
  destruct (release_index_spec _ _ _ _ Hr) as [Hnode [l Hl]].
  unfold release_entry.
  assert (waiting_at (xs_waiting s) n' i' = l) as Hat by (unfold waiting_at; by rewrite Hl).
  rewrite Hat, has_items_or_empty. destruct (existsb has_items l) eqn:Hany.
  - by eapply ReleasedEntry.
  - eapply ReleasedEmpty; [done..|apply IH].
Qed.

Lemma releaseWaitingNodes_cases s : Released s (releaseWaitingNodes w H s).
Proof. unfold releaseWaitingNodes. destruct (xs_stack s); [apply release_cases|apply ReleasedNone]. Qed.

End Release.
