(* ===== verification/ExecTotal.v ===== *)
(** * The v1 execution engine: an acyclic workflow ends

    Order v1, nodes that ask for no other nodes.  A bound on what an execution can still do:
    each entry of the stack, and each input that waits, counts for all the runs below its
    node.  An iteration takes one entry off, and what it adds is below it. *)

From stdpp Require Import base gmap strings pretty list list_numbers fin_maps sorting.
From Stdlib Require Import ZArith Lia.
From S2P Require Import Prelude.
From S2P Require Import JsCollections.
From S2P Require Import EngineTypes.
From S2P Require Import Workflow.
From S2P Require Import ExecTypes.
From S2P Require Import ExecAdd.
From S2P Require Import ExecNode.
From S2P Require Import ExecFrame.
From S2P Require Import ExecLoop.
From S2P Require Import ExecSteps.

(** ** The bound *)

(** The inputs of an entry that have data. *)
Definition filled (l : list Slot) : nat := length (filter is_Some l).

Definition fill (m : gmap nat (list Slot)) : nat := sum_list_with (fun p => filled p.2) (map_to_list m).

Definition waiting_weight (W : string -> nat) (wt : IWaiting Slot) : nat := sum_list_with (fun p => W p.1 * fill p.2) wt.

Definition stack_weight (W : string -> nat) (heap : nat -> INode) (stack : list IExecuteData) : nat :=
  sum_list_with (fun x => W (nd_name (heap (xd_node x)))) stack.

Definition potential (W : string -> nat) (s : ExecState) : nat :=
  stack_weight W (xs_heap s) (xs_stack s) + waiting_weight W (xs_waiting s).

(** The runs that one run of a node can lead to, itself among them, to a depth. *)
Fixpoint runs_below (w : Workflow) (depth : nat) (nodeName : string) : nat :=
  match depth with
  | O => 0
  | S depth => S (sum_list_with (fun p => runs_below w depth (ic_node p.2)) (connections_of w nodeName))
  end.

(** ** Sums *)

Lemma filled_cons a l : filled (a :: l) = (if a then 1 else 0) + filled l.
Proof. unfold filled. destruct a; [by rewrite filter_cons_True|]. rewrite filter_cons_False by (by intros [??]). done. Qed.

Lemma filled_replicate n : filled (replicate n None) = 0.
Proof. induction n as [|n IH]; [done|]. simpl. by rewrite filled_cons. Qed.

Lemma filled_insert i a l : filled (<[i := a]> l) <= S (filled l).
Proof.
  revert i. induction l as [|b l IH]; intros i; [destruct i; apply Nat.le_0_l|]. destruct i as [|i]; simpl; rewrite !filled_cons.
  - destruct a, b; lia.
  - specialize (IH i). lia.
Qed.

Lemma filled_all l : Forall is_Some l -> filled l = length l.
Proof. induction 1 as [|a l [v ->] _ IH]; [done|]. rewrite filled_cons. simpl. lia. Qed.

Lemma filled_has_items l : existsb has_items l = true -> 1 <= filled l.
Proof.
  induction l as [|a l IH]; [done|]. rewrite filled_cons. simpl. destruct a as [[|? ?]|]; simpl; [lia..|]. intros ?%IH. lia.
Qed.

Lemma fill_insert i l m : fill (<[i := l]> m) + filled (default [] (m !! i)) = fill m + filled l.
Proof.
  assert (fill (<[i := l]> m) = filled l + fill (delete i m)) as ->.
  { rewrite <- insert_delete_eq. unfold fill. rewrite map_to_list_insert by apply lookup_delete_eq. done. }
  destruct (m !! i) as [l0|] eqn:Hm; simpl.
  - assert (fill m = filled l0 + fill (delete i m)); [|lia]. rewrite <- (insert_delete_id m i l0 Hm) at 1.
    unfold fill. by rewrite map_to_list_insert by apply lookup_delete_eq.
  - rewrite delete_id by done. unfold filled at 2. simpl. lia.
Qed.

Lemma fill_delete i m : fill (delete i m) + filled (default [] (m !! i)) = fill m.
Proof.
  destruct (m !! i) as [l|] eqn:Hm; simpl.
  - rewrite <- (insert_delete_id m i l Hm) at 2. unfold fill. rewrite map_to_list_insert by apply lookup_delete_eq. simpl. lia.
  - rewrite delete_id by done. unfold filled. simpl. lia.
Qed.

Section Weights.
Context (W : string -> nat).

Lemma weight_set n m wt : waiting_weight W (map_set n m wt) + W n * fill (waits_of wt n) = waiting_weight W wt + W n * fill m.
Proof.
  unfold waiting_weight, waits_of. induction wt as [|[k v] wt IH]; simpl; [unfold fill; rewrite map_to_list_empty; simpl; lia|].
  destruct (decide (k = n)) as [-> |]; simpl; lia.
Qed.

Lemma weight_delete n wt : waiting_weight W (map_delete n wt) + W n * fill (waits_of wt n) <= waiting_weight W wt.
Proof.
  unfold waiting_weight, waits_of, map_delete. induction wt as [|[k v] wt IH]; simpl.
  { unfold fill. rewrite map_to_list_empty. simpl. lia. }
  rewrite filter_cons. simpl. destruct (decide (k = n)) as [-> |Hne].
  - rewrite decide_False by (intros Hn; by apply Hn). simpl.
    assert (sum_list_with (fun p => W p.1 * fill p.2) (filter (fun p => p.1 <> n) wt) <= sum_list_with (fun p => W p.1 * fill p.2) wt); [|lia].
    clear. induction wt as [|p wt IH]; [done|]. rewrite filter_cons. case_decide; simpl; lia.
  - rewrite decide_True by done. simpl. lia.
Qed.

(** An entry that stops waiting. *)
Lemma weight_drop n i s :
  waiting_weight W (xs_waiting (drop_waiting n i s)) + W n * filled (default [] (waits_of (xs_waiting s) n !! i)) <= waiting_weight W (xs_waiting s).
Proof.
  unfold drop_waiting. pose proof (fill_delete i (waits_of (xs_waiting s) n)) as Hf. case_bool_decide as He; cbn [xs_waiting set_waiting set_waitingSource].
  - rewrite He in Hf. unfold fill at 1 in Hf. rewrite map_to_list_empty in Hf. simpl in Hf. rewrite Hf. apply weight_delete.
  - pose proof (weight_set n (delete i (waits_of (xs_waiting s) n)) (xs_waiting s)). nia.
Qed.

Lemma weight_put n i l l' s :
  waiting_weight W (xs_waiting (put_waiting n i l l' s)) + W n * filled (default [] (waits_of (xs_waiting s) n !! i)) =
  waiting_weight W (xs_waiting s) + W n * filled l.
Proof.
  change (xs_waiting (put_waiting n i l l' s)) with (set_waiting_at n i l (xs_waiting s)). unfold set_waiting_at.
  pose proof (weight_set n (<[i := l]> (waits_of (xs_waiting s) n)) (xs_waiting s)).
  pose proof (fill_insert i l (waits_of (xs_waiting s) n)). nia.
Qed.

Lemma stack_drop n i s : xs_stack (drop_waiting n i s) = xs_stack s.
Proof. unfold drop_waiting. by destruct (bool_decide _). Qed.

Lemma heap_drop n i s : xs_heap (drop_waiting n i s) = xs_heap s.
Proof. unfold drop_waiting. by destruct (bool_decide _). Qed.

End Weights.

(** ** Adding *)

(** Every node is kept under its own name. *)
Definition names_ok (w : Workflow) (heap : nat -> INode) : Prop :=
  forall nodeName ref, map_get nodeName (wf_nodes w) = Some ref -> nd_name (heap ref) = nodeName.

Definition has_mains (s : ExecState) : Prop := Forall (fun x => has_main (xd_data x) = true) (xs_stack s).

Section Total.
Context (w : Workflow) (H : Host).
Context (Hv1 : isLegacyExecutionOrder w = false) (W : string -> nat).

Lemma node_ref_name heap n : names_ok w heap -> is_Some (map_get n (wf_nodes w)) -> nd_name (heap (node_ref w n)) = n.
Proof. intros Hok [r Hr]. unfold node_ref. rewrite Hr. by apply Hok. Qed.

Lemma added_bound n i d src r m s s' :
  names_ok w (xs_heap s) -> is_Some (map_get n (wf_nodes w)) -> has_mains s -> Added w n i d src r m s s' ->
  potential W s' <= potential W s + W n /\ xs_heap s' = xs_heap s /\ has_mains s'.
Proof.
  intros Hok Hn Hmain [Hno|ref Hin Hr|k new l l' Hin Hi -> ->|k new l l' Hin Hi -> -> Hall].
  - split_and!; [lia|done|done].
  - unfold potential, has_mains. cbn [xs_stack xs_heap xs_waiting set_stack stack_weight sum_list_with xd_node direct_entry]. rewrite (Hok _ _ Hr). fold (stack_weight W (xs_heap s) (xs_stack s)). split_and!; [lia|done|]. by constructor.
  - split_and!; [|done|done]. unfold potential. pose proof (weight_put W n k (<[i:=d]> (if new then replicate (inputs_of w n) None
      else waiting_at (xs_waiting s) n k)) (<[i:=Some src]> (if new then replicate (inputs_of w n) None else waiting_at (xs_waitingSource s) n k)) s) as Hp.
    match type of Hp with context [W n * filled (<[i:=d]> ?cur)] => pose proof (filled_insert i d cur) as Hf end.
    change (xs_heap (put_waiting n k ?a ?b s)) with (xs_heap s). change (xs_stack (put_waiting n k ?a ?b s)) with (xs_stack s).
    destruct new; [rewrite filled_replicate in Hf; nia|]. unfold waiting_at in *. nia.
  - set (l := <[i:=d]> _) in *. set (l' := <[i:=Some src]> _).
    set (x := joined_entry _ _ _). set (s2 := set_stack (x :: xs_stack s) (put_waiting n k l l' s)).
    pose proof (weight_put W n k l l' s) as Hp. pose proof (weight_drop W n k s2) as Hd.
    assert (default [] (waits_of (xs_waiting s2) n !! k) = l) as Hl.
    { change (xs_waiting s2) with (set_waiting_at n k l (xs_waiting s)). exact (waiting_at_set n k l (xs_waiting s)). }
    rewrite Hl in Hd. rewrite (filled_all _ Hall) in Hp, Hd.
    split_and!.
    + unfold potential. rewrite heap_drop, stack_drop. change (xs_heap s2) with (xs_heap s). change (xs_stack s2) with (x :: xs_stack s).
      simpl. rewrite node_ref_name by done.
      change (xs_waiting s2) with (xs_waiting (put_waiting n k l l' s)) in Hd. nia.
    + by rewrite heap_drop.
    + unfold has_mains. rewrite stack_drop. by constructor.
Qed.

Lemma released_bound s s' :
  names_ok w (xs_heap s) -> has_mains s -> Released w H s s' ->
  potential W s' <= potential W s /\ xs_heap s' = xs_heap s /\ has_mains s'.
Proof.
  intros Hok Hmain Hr. induction Hr as [s|s n i l s' Hl Hany _ IH|s n i l k Hl Hany Hn Hidx].
  - done.
  - destruct IH as (Hp & Hh & Hm).
    + by rewrite heap_drop.
    + unfold has_mains. by rewrite stack_drop.
    + rewrite heap_drop in Hh. split_and!; [|done..]. etrans; [exact Hp|]. unfold potential. rewrite heap_drop, stack_drop.
      pose proof (weight_drop W n i s). lia.
  - set (x := joined_entry _ _ _). set (s2 := set_stack _ s). pose proof (weight_drop W n i s2) as Hd. split_and!.
    + unfold potential. rewrite heap_drop, stack_drop. change (xs_heap s2) with (xs_heap s). change (xs_stack s2) with (xs_stack s ++ [x]).
      change (xs_waiting s2) with (xs_waiting s) in Hd. rewrite Hl in Hd. simpl in Hd.
      unfold stack_weight. rewrite sum_list_with_app. cbn [sum_list_with xd_node joined_entry x]. rewrite node_ref_name by done.
      apply filled_has_items in Hany. nia.
    + by rewrite heap_drop.
    + unfold has_mains. rewrite stack_drop. apply Forall_app. split; [done|]. by constructor.
Qed.

(** ** An iteration *)

Lemma connections_in_workflow n : forallb (fun '(_, c) => map_has (ic_node c) (wf_nodes w)) (connections_of w n) = true ->
  forall o c, (o, c) ∈ connections_of w n -> is_Some (map_get (ic_node c) (wf_nodes w)).
Proof.
  intros Hall o c Hin. rewrite forallb_forall in Hall. apply list_elem_of_In in Hin. apply Hall in Hin.
  unfold map_has in Hin. by apply bool_decide_eq_true in Hin.
Qed.

Lemma node_insert_perm a l : sort_insert a l ≡ₚ a :: l.
Proof. induction l as [|b l IH]; simpl; [done|]. destruct (sorts_before a b); [done|]. rewrite IH. by apply Permutation_swap. Qed.

Lemma sort_nodes_perm l : sort_nodes l ≡ₚ l.
Proof.
  unfold sort_nodes. assert (forall acc, foldl (fun acc a => sort_insert a acc) acc l ≡ₚ acc ++ l) as Hf; [|by rewrite Hf].
  induction l as [|a l IH]; intros acc; simpl; [by rewrite app_nil_r|]. rewrite IH, node_insert_perm. by rewrite <- Permutation_middle.
Qed.

Lemma elem_of_nodes_to_add d l s a :
  a ∈ nodes_to_add w d l s -> (na_outputIndex a, na_connection a) ∈ l /\ delivers w d (na_outputIndex a) (na_connection a) = true.
Proof.
  unfold nodes_to_add. intros ((o & c) & Ha & Hin)%list_elem_of_bind. destruct (delivers w d o c) eqn:Hd; [|set_solver].
  apply list_elem_of_singleton in Ha as ->. done.
Qed.

Lemma nodes_to_add_weight d l s :
  sum_list_with (fun a => W (ic_node (na_connection a))) (nodes_to_add w d l s) <= sum_list_with (fun p => W (ic_node p.2)) l.
Proof.
  unfold nodes_to_add. induction l as [|[o c] l IH]; [done|]. rewrite bind_cons, sum_list_with_app. destruct (delivers w d o c); simpl; lia.
Qed.

Lemma added_all_bound n d r s l :
  names_ok w (xs_heap s) -> has_mains s -> (forall a, a ∈ l -> is_Some (map_get (ic_node (na_connection a)) (wf_nodes w))) ->
  let s' := foldl (add_node w n d r) s l in
  potential W s' <= potential W s + sum_list_with (fun a => W (ic_node (na_connection a))) l /\ xs_heap s' = xs_heap s /\ has_mains s'.
Proof.
  revert s. induction l as [|a l IH]; intros s Hok Hmain Hl; cbn [foldl]; [simpl; split_and!; [lia|done..]|].
  pose proof (add_cases w Hv1 (na_connection a) (na_outputIndex a) n d r None None s) as Ha.
  destruct (added_bound _ _ _ _ _ _ _ _ Hok (Hl a ltac:(by left)) Hmain Ha) as (Hp & Hh & Hm).
  destruct (IH (add_node w n d r s a)) as (Hp' & Hh' & Hm').
  - unfold add_node. by rewrite Hh.
  - done.
  - intros b Hb. apply Hl. by right.
  - split_and!; [|unfold add_node in *; congruence|done]. cbn [sum_list_with]. unfold add_node in *. lia.
Qed.

Lemma queue_children_bound n d r s s' :
  names_ok w (xs_heap s) -> has_mains s -> queue_children w n d r s = (None, s') ->
  potential W s' <= potential W s + sum_list_with (fun p => W (ic_node p.2)) (connections_of w n) /\ xs_heap s' = xs_heap s /\ has_mains s'.
Proof.
  intros Hok Hmain. unfold queue_children. rewrite Hv1. destruct (forallb _ _) eqn:Hall; [|done]. intros [= <-].
  destruct (added_all_bound n d r s (sort_nodes (nodes_to_add w d (connections_of w n) s)) Hok Hmain) as (Hp & Hh & Hm).
  - intros a Ha. rewrite sort_nodes_perm in Ha. apply elem_of_nodes_to_add in Ha as [Ha _]. by eapply connections_in_workflow.
  - split_and!; [|done..]. etrans; [exact Hp|]. rewrite sort_nodes_perm.
    pose proof (nodes_to_add_weight d (connections_of w n) s). lia.
Qed.

Lemma potential_view s s' : view s' = view s -> potential W s' = potential W s /\ has_mains s' = has_mains s.
Proof. intros [= E1 E2 E3 E4 _ _ _ _]. unfold potential, has_mains. by rewrite E1, E2, E4. Qed.

Context (HW : forall n, S (sum_list_with (fun p => W (ic_node p.2)) (connections_of w n)) <= W n).

(** In order v1 an entry with [main] data is never put back. *)
Lemma no_defer s n x l : has_main (xd_data x) = true -> lacks_input w s n (set_data (addPairedItemLineage x) x) l = false.
Proof.
  intros Hx. assert (has_main (addPairedItemLineage x) = true) as Hm.
  { unfold addPairedItemLineage, has_main, map_has in *. apply bool_decide_eq_true. apply bool_decide_eq_true in Hx as [m Hm].
    induction (xd_data x) as [|[k v] dd IH]; [done|]. simpl in *. destruct (decide (k = Main)); [done|]. by apply IH. }
  induction l as [|i l IH]; simpl; [done|]. destruct (getHighestNode _ _ _ _); [done|]. by rewrite Hm, Hv1.
Qed.

(** What an execution keeps, so that it ends. *)
Definition ending (s : ExecState) : Prop := names_ok w (xs_heap s) /\ has_mains s /\ forall ref, whole_tries (xs_heap s ref).

Lemma next_decreases (Hasks : asks_nothing H) s s' :
  ending s -> loop_step w H s = Some (LoopNext, s') -> ending s' /\ potential W s' < potential W s.
Proof.
  intros (Hok & Hmain & Hwhole) (x & rest & Hst & Hn)%loop_next; [|done].
  set (n := nd_name (xs_heap s (xd_node x))). set (s0 := set_stack rest s).
  assert (has_mains s0 /\ has_main (xd_data x) = true) as [Hmain0 Hx].
  { unfold has_mains in Hmain. rewrite Hst in Hmain. by apply Forall_cons in Hmain as [??]. }
  assert (potential W s = W n + potential W s0) as Hpot.
  { unfold potential, stack_weight. rewrite Hst. cbn [sum_list_with xs_stack xs_heap xs_waiting set_stack s0]. unfold n. lia. }
  pose proof (HW n) as HWn.
  destruct Hn as [Hv|x' lt Hx' Hl Hv|r data s1 Hf Hr Hv [[Hd Hv']|(s2 & s3 & Hc & Hv3 & ->)]].
  - destruct (potential_view _ _ Hv) as [Hp Hm]. unfold ending. rewrite (view_heap _ _ Hv), Hm. split; [done|]. fold s0 in Hp. lia.
  - exfalso. subst x'. by rewrite no_defer in Hl.
  - rewrite Hv in Hv'. assert (potential W s' = potential W s0 /\ has_mains s' = has_mains s0 /\ xs_heap s' = xs_heap s) as (Hp & Hm & Hh).
    { unfold view, with_outputs in Hv'. cbn in Hv'. injection Hv' as E1 E2 E3 E4 _ _ _ _. unfold potential, has_mains. by rewrite E1, E2, E4. }
    unfold ending. rewrite Hh, Hm. split; [done|lia].
  - assert (potential W s1 = potential W s0 /\ has_mains s1 = has_mains s0 /\ xs_heap s1 = xs_heap s) as (Hp & Hm & Hh).
    { unfold view, with_outputs in Hv. cbn in Hv. injection Hv as E1 E2 E3 E4 _ _ _ _. unfold potential, has_mains. by rewrite E1, E2, E4. }
    assert (names_ok w (xs_heap s1)) as Hok1 by (by rewrite Hh).
    assert (has_mains s1) as Hm1 by (by rewrite Hm).
    destruct (queue_children_bound _ _ _ _ _ Hok1 Hm1 Hc) as (Hp2 & Hh2 & Hm2).
    destruct (potential_view _ _ Hv3) as [Hp3 Hm3]. pose proof (view_heap _ _ Hv3) as Hh3.
    assert (names_ok w (xs_heap s3)) as Hok3 by (by rewrite Hh3, Hh2). assert (has_mains s3) as Hm3' by (by rewrite Hm3).
    destruct (released_bound _ _ Hok3 Hm3' (releaseWaitingNodes_cases w H s3)) as (Hp4 & Hh4 & Hm4).
    unfold ending. rewrite Hh4, Hh3, Hh2, Hh. split_and!; [done..|]. unfold n in *. lia.
Qed.

Lemma ending_loop_ends (Hasks : asks_nothing H) (Hfuel : 4 <= host_fuel H) fuel s : ending s -> potential W s < fuel -> is_Some (loop w H fuel s).
Proof.
  revert s. induction fuel as [|fuel IH]; intros s He Hlt; [lia|]. simpl.
  destruct (loop_step w H s) as [[[| |e|] s']|] eqn:Hs; [|by eexists..| |by eexists].
  2: { apply loop_step_moves in Hs as (c & _ & Hc). by destruct (Hc (proj2 (proj2 He)) Hfuel). }
  destruct (next_decreases Hasks _ _ He Hs) as [He' Hp]. apply IH; [done|lia].
Qed.

End Total.

(** ** Acyclic workflows *)

Section Acyclic.
Context (w : Workflow) (H : Host) (rank : string -> nat).
Context (Hrank : forall n o c, (o, c) ∈ connections_of w n -> rank (ic_node c) < rank n).

Lemma sum_list_with_ext {A} (f g : A -> nat) l : (forall a, a ∈ l -> f a = g a) -> sum_list_with f l = sum_list_with g l.
Proof. induction l as [|a l IH]; intros Hfg; [done|]. simpl. rewrite Hfg by (by left). rewrite IH; [done|]. intros b Hb. apply Hfg. by right. Qed.

Lemma runs_below_stable d1 d2 n : rank n < d1 -> rank n < d2 -> runs_below w d1 n = runs_below w d2 n.
Proof.
  revert d2 n. induction d1 as [|d1 IH]; intros [|d2] n H1 H2; [lia..|]. simpl. f_equal. apply sum_list_with_ext.
  intros [o c] Hin. apply Hrank in Hin. simpl. apply IH; lia.
Qed.

Definition runs_of (n : string) : nat := runs_below w (S (rank n)) n.

Lemma runs_of_eq n : runs_of n = S (sum_list_with (fun p => runs_of (ic_node p.2)) (connections_of w n)).
Proof.
  unfold runs_of at 1. simpl. f_equal. apply sum_list_with_ext. intros [o c] Hin. apply Hrank in Hin. simpl.
  unfold runs_of. apply runs_below_stable; lia.
Qed.

End Acyclic.
