(* ===== verification/ExecRun.v ===== *)
(** * The v1 execution engine: an execution from its start to its end

    [run] and [processRunExecutionData] around the loop: which node an execution starts
    from, the filter of the nodes that may run, the check for issues, an execution that
    resumes from waiting, what fails before the first node, and the status at the end. *)

From stdpp Require Import base gmap strings pretty list fin_maps sorting.
From Stdlib Require Import ZArith Lia.
From S2P Require Import Prelude.
From S2P Require Import JsCollections.
From S2P Require Import EngineTypes.
From S2P Require Import Workflow.
From S2P Require Import ExecTypes.
From S2P Require Import ExecAdd.
From S2P Require Import ExecNode.
From S2P Require Import ExecOutput.
From S2P Require Import ExecLoop.

(** [String.prototype.includes]. *)
Fixpoint includes (part s : string) : bool :=
  String.prefix part s || match s with EmptyString => false | String _ s' => includes part s' end.

Definition STARTING_NODE_TYPES : list string :=
  ["n8n-nodes-base.manualTrigger"; "n8n-nodes-base.executeWorkflowTrigger"; "n8n-nodes-base.errorTrigger";
   "n8n-nodes-base.evaluationTrigger"; "n8n-nodes-base.formTrigger"]%string.

Definition MANUAL_CHAT_TRIGGER : string := "@n8n/n8n-nodes-langchain.manualChatTrigger".

Definition ManualExecutionCancelledError : ExecutionError :=
  {| er_name := "ManualExecutionCancelledError"; er_message := "The execution was cancelled manually"; er_description := None |}.
Definition TimeoutExecutionCancelledError : ExecutionError :=
  {| er_name := "TimeoutExecutionCancelledError"; er_message := "The execution was cancelled because it timed out"; er_description := None |}.

(** [WorkflowHasIssuesError], with the nodes that have issues. *)
Record WorkflowIssues := { issues_of : list string }.

Section Start.
Context (w : Workflow) (H : Host) (heap : nat -> INode).

(** ** Where it starts *)

(** [STARTING_NODE_TYPES.indexOf(type)], one up. *)
Definition starting_rank (node : INode) : nat := from_option S 0 (fst <$> list_find (fun t => t = nd_type node) STARTING_NODE_TYPES).

Fixpoint rank_insert (n : INode) (l : list INode) : list INode :=
  match l with [] => [n] | m :: l' => if starting_rank n <? starting_rank m then n :: l else m :: rank_insert n l' end.

Definition sort_by_rank (l : list INode) : list INode := foldl (fun acc n => rank_insert n acc) [] l.

Definition is_enabled (node : INode) : bool := negb (bool_decide (nd_disabled node = Some true)).

Definition workflow_nodes : list INode := heap <$> (wf_nodes w).*2.

(** The names are of nodes of the workflow. *)
Definition get_start_node (nodeNames : list string) : option INode :=
  let nodes := omap (getNode w heap) nodeNames in
  let only := match nodeNames with [_] => arr_find (fun node => negb (disabled node)) nodes | _ => None end in
  let trigger := arr_find (fun node =>
    let nodeType := host_nodeType H node in
    negb (bool_decide (ty_name nodeType = MANUAL_CHAT_TRIGGER)) && (ty_trigger nodeType || ty_poll nodeType) && is_enabled node) nodes in
  let starting := arr_find (fun node => bool_decide (nd_type node ∈ STARTING_NODE_TYPES) && is_enabled node) (sort_by_rank workflow_nodes) in
  or_else only (or_else trigger starting).

Definition getStartNode (destinationNode : option string) : option INode :=
  match truthy_name destinationNode with
  | Some destination =>
      let nodeNames := match getHighestNode w heap destination None with [] => [destination] | l => l end in
      or_else (get_start_node nodeNames) (head nodeNames ≫= getNode w heap)
  | None => get_start_node (wf_nodes w).*1
  end.

(** ** Issues *)

Definition checkReadyForExecution (startNode : option string) (destinationNode : option IDestinationNode) : option WorkflowIssues :=
  let checkNodes :=
    match destinationNode with
    | Some d => getParentNodes w (ds_nodeName d) ++ match ds_mode d with inclusive => [ds_nodeName d] | exclusive => [] end
    | None => match truthy_name startNode with Some n => getChildNodes w n ++ [n] | None => [] end
    end in
  let issues := nodeName ← checkNodes;
                match getNode w heap nodeName with
                | Some node => if is_enabled node && host_issues H node then [nd_name node] else []
                | None => []
                end in
  match issues with [] => None | _ => Some {| issues_of := set_of_list issues |} end.

(** [run]'s filter: the destination's parents, and the tools of all of them. *)
Definition run_node_filter (destinationNode : IDestinationNode) (additionalRunFilterNodes : list string) : list string :=
  let name := ds_nodeName destinationNode in
  let parentNodes := getParentNodes w name in
  set_of_list
    (parentNodes ++ (nodeName ← name :: parentNodes; getNonMainParentNodes w nodeName) ++
     match ds_mode destinationNode with inclusive => [name] | exclusive => [] end ++ additionalRunFilterNodes).

End Start.

Section Run.
Context (w : Workflow) (H : Host).

Definition update_disabled (node : INode) : INode :=
  {| nd_name := nd_name node; nd_type := nd_type node; nd_position := nd_position node; nd_disabled := Some true;
     nd_retryOnFail := nd_retryOnFail node; nd_maxTries := nd_maxTries node; nd_waitBetweenTries := nd_waitBetweenTries node;
     nd_alwaysOutputData := nd_alwaysOutputData node; nd_executeOnce := nd_executeOnce node; nd_onError := nd_onError node;
     nd_continueOnFail := nd_continueOnFail node; nd_rewireOutputLogTo := nd_rewireOutputLogTo node |}.

(** An execution that waited: its node is not run again, and its run is taken back. *)
Definition handleWaitingState (s : ExecState) : Fallible ExecState :=
  match xs_waitTill s with
  | None => inr s
  | Some _ =>
      let s := set_waitTill None s in
      match xs_stack s with
      | [] => inl (type_error "")
      | x :: _ =>
          let r := xd_node x in
          let s := match md_resumeError (default no_metadata (xd_metadata x)) with
                   | None => set_heap (fun r' => if decide (r' = r) then update_disabled (xs_heap s r) else xs_heap s r') s
                   | Some _ => s
                   end in
          match xs_lastNodeExecuted s ≫= fun last => pair last <$> map_get last (xs_runData s) with
          | None => inl (type_error "")
          | Some (last, runs) => inr (set_runData (map_set last (removelast runs) (xs_runData s)) s)
          end
      end
  end.

(** Before the first node: what fails is recorded on the first node of the stack. *)
Definition initializeExecution (s : ExecState) : Fallible ExecState * ExecState :=
  match host_init H with
  | None => let s := run_hook H WorkflowExecuteBefore s in (inr s, s)
  | Some e =>
      let s := await H s in
      (inl e,
       match xs_stack s with
       | [] => s
       | startItem :: _ =>
           let name := nd_name (xs_heap s (xd_node startItem)) in
           let taskData :=
             {| td_startTime := host_now H (xs_moment s); td_executionIndex := 0; td_source := []; td_hints := []; td_executionTime := 0;
                td_metadata := None; td_executionStatus := Some st_error;
                td_data := Some [(Main, main_of (xd_data startItem))]; td_inputOverride := None; td_error := None |} in
           set_pinData [] (set_lastNodeExecuted (Some name) (set_runData [(name, [taskData])] s))
       end)
  end.

(** [IRun]: what an execution is answered with.  Its data is the execution's own, so that
    what the last hook still changes of it shows; its status is a copy. *)
Record IRun := {
  ir_data : ExecState;
  ir_status : ExecStatus;
  ir_waitTill : option Z;
  ir_finished : bool;
}.

Definition getFullRunData (s : ExecState) : IRun := {| ir_data := s; ir_status := xs_status s; ir_waitTill := None; ir_finished := false |}.

(** The run with its execution changed. *)
Definition with_data (f : ExecState -> ExecState) (r : IRun) : IRun :=
  {| ir_data := f (ir_data r); ir_status := ir_status r; ir_waitTill := ir_waitTill r; ir_finished := ir_finished r |}.

(** The status an execution ends with. *)
Definition final_status (error : option ExecutionError) (waitTill : option Z) : ExecStatus :=
  match error with
  | Some e => if includes "canceled" (er_message e) || includes "Cancelled" (er_name e) then st_canceled else st_error
  | None => match waitTill with Some _ => st_waiting | None => st_success end
  end.

Definition set_resultError (e : option ExecutionError) (s : ExecState) : ExecState :=
  Build_ExecState (xs_status s) (xs_aborted s) (xs_timedOut s) (xs_destinationNode s) (xs_runNodeFilter s) (xs_runData s)
    (xs_pinData s) (xs_lastNodeExecuted s) e (xs_stack s) (xs_waiting s) (xs_waitingSource s) (xs_waitTill s)
    (xs_executionError s) (xs_lastTry s) (xs_executionIndex s) (xs_heap s) (xs_events s) (xs_moment s) (xs_calls s).

(** [fullRunData], with the error, the time to wait until, or that it is finished. *)
Definition fullRunData (error : option ExecutionError) (s : ExecState) : IRun :=
  let r := getFullRunData s in
  match error, xs_waitTill s with
  | Some e, _ => with_data (set_resultError (Some e)) r
  | None, Some t => {| ir_data := ir_data r; ir_status := ir_status r; ir_waitTill := Some t; ir_finished := ir_finished r |}
  | None, None => {| ir_data := ir_data r; ir_status := ir_status r; ir_waitTill := ir_waitTill r; ir_finished := true |}
  end.

(** The run is put together before the last hook is awaited: a cancellation meanwhile
    changes the execution and not the status it is answered with. *)
Definition processSuccessExecution (error : option ExecutionError) (s : ExecState) : IRun :=
  let s := set_status (final_status error (xs_waitTill s)) s in
  let fullRunData := fullRunData error s in
  if xs_aborted s then fullRunData else with_data (run_hook H (WorkflowExecuteAfter (ir_status fullRunData) error)) fullRunData.

(** What follows the loop. *)
Definition finish (s : ExecState) : IRun :=
  match xs_executionError s with
  | None =>
      if bool_decide (xs_status s = st_canceled)
      then processSuccessExecution (Some (if xs_timedOut s then TimeoutExecutionCancelledError else ManualExecutionCancelledError)) s
      else processSuccessExecution None s
  | Some e => processSuccessExecution (Some e) s
  end.

(** What follows a throw: the status is as it was. *)
Definition finish_crashed (e : ExecutionError) (s : ExecState) : IRun :=
  let fullRunData := with_data (set_resultError (Some e)) (getFullRunData s) in
  with_data (run_hook H (WorkflowExecuteAfter (ir_status fullRunData) (Some e))) fullRunData.

(** What [processRunExecutionData] throws, or the run it answers with; [None]: out of
    fuel. *)
Inductive ProcessResult :=
  | HasIssues (issues : WorkflowIssues)
  | FailsToStart (e : ExecutionError)
  | Processed (r : IRun).

Definition processRunExecutionData (fuel : nat) (s : ExecState) : option ProcessResult :=
  let s := set_executionError None (set_lastTry None (set_status st_running s)) in
  let startNode := (fun x => nd_name (xs_heap s (xd_node x))) <$> head (xs_stack s) in
  match checkReadyForExecution w H (xs_heap s) startNode (xs_destinationNode s) with
  | Some issues => Some (HasIssues issues)
  | None =>
      match handleWaitingState s with
      | inl e => Some (FailsToStart e)
      | inr s =>
          match initializeExecution s with
          | (inl e, s) => Some (Processed (finish_crashed e s))
          | (inr s, _) =>
              (fun '(crash, s) => Processed (match crash with Some e => finish_crashed e s | None => finish s end)) <$> loop w H fuel s
          end
      end
  end.

(** What [run] processes; [None] when there is no node to start from. *)
Definition run_state (startNode : option nat) (destinationNode : option IDestinationNode)
    (pinData : list (string * list INodeExecutionData)) (startData : option ITaskDataConnections)
    (additionalRunFilterNodes : list string) (heap : nat -> INode) : option ExecState :=
  match or_else startNode (getStartNode w H heap (ds_nodeName <$> destinationNode) ≫= fun node => map_get (nd_name node) (wf_nodes w)) with
  | None => None
  | Some r =>
      Some {| xs_status := st_running; xs_aborted := false; xs_timedOut := false;
              xs_destinationNode := destinationNode;
              xs_runNodeFilter := (fun d => run_node_filter w d additionalRunFilterNodes) <$> destinationNode;
              xs_runData := []; xs_pinData := pinData; xs_lastNodeExecuted := None; xs_resultError := None;
              xs_stack := [{| xd_node := r; xd_data := default [(Main, [Some [empty_item]])] startData;
                              xd_source := None; xd_runIndex := None; xd_metadata := None |}];
              xs_waiting := []; xs_waitingSource := []; xs_waitTill := None; xs_executionError := None; xs_lastTry := None;
              xs_executionIndex := 0; xs_heap := heap; xs_events := []; xs_moment := 0; xs_calls := 0 |}
  end.

End Run.
