(* ===== verification/ExecData.v ===== *)
(** * The v1 execution engine: where the data of an entry comes from

    Order v1, nodes that ask for no other nodes and whose output is logged as their own.
    What an entry of the stack, or one that waits, holds for an input is what the run it
    names as the source put out there; and a node of several inputs has data on each of them
    once it is on the stack. *)

From stdpp Require Import base gmap strings pretty list list_numbers fin_maps sorting.
From Stdlib Require Import ZArith QArith_base Lia.
From S2P Require Import Prelude.
From S2P Require Import JsCollections.
From S2P Require Import EngineTypes.
From S2P Require Import Workflow.
From S2P Require Import ExecTypes.
From S2P Require Import ExecAdd.
From S2P Require Import ExecNode.
From S2P Require Import ExecOutput.
From S2P Require Import ExecFrame.
From S2P Require Import ExecLoop.
From S2P Require Import ExecSteps.
From S2P Require Import ExecTotal.
From S2P Require Import ExecRun.

#[local] Close Scope Q_scope.

Notation Outputs := (list (string * list (option ITaskDataConnections))).

(** What a run put out on an output. *)
Definition output_at (o : Outputs) (nodeName : string) (runIndex index : nat) : Slot :=
  match map_get nodeName o with
  | Some runs => match runs !! runIndex with Some (Some d) => items_at (main_of d) index | _ => None end
  | None => None
  end.

(** The items are what the source put out. *)
Definition delivered (o : Outputs) (src : ISourceData) (data : Slot) : Prop :=
  exists output runIndex, previousNodeOutput src = Some output /\ previousNodeRun src = Some runIndex /\
    is_Some data /\ data = output_at o (previousNode src) runIndex output.

Lemma delivered_upsert o src data n r d :
  r = length (default [] (map_get n o)) -> delivered o src data -> delivered (upsert_output n r d o) src data.
Proof.
  intros -> (output & run & Ho & Hr & [items ->] & Hd). exists output, run. split_and!; [done..|by eexists|]. rewrite Hd.
  unfold output_at in *. unfold upsert_output. rewrite map_get_set. rewrite lookup_ge_None_2 by lia.
  destruct (decide (n = previousNode src)) as [-> |]; [|done].
  destruct (map_get (previousNode src) o) as [runs|]; [|done]. simpl.
  destruct (runs !! run) as [[d'|]|] eqn:Hrun; [|done..]. by rewrite (lookup_app_l_Some _ _ _ _ Hrun).
Qed.

Lemma delivered_new o n d output items :
  items_at d output = Some items ->
  delivered (upsert_output n (length (default [] (map_get n o))) [(Main, d)] o)
    (source_from n output (length (default [] (map_get n o)))) (Some items).
Proof.
  intros Hi. exists output, (length (default [] (map_get n o))). split_and!; [done..|by eexists|]. unfold output_at, upsert_output. simpl.
  rewrite map_get_set_eq, (lookup_ge_None_2 (default [] (map_get n o))) by lia. rewrite lookup_app_r by lia. by rewrite Nat.sub_diag.
Qed.

Lemma output_at_run rd n r i : output_at (outputs_of rd) n r i = run_output rd n r i.
Proof.
  unfold output_at, run_output. rewrite outputs_get. destruct (map_get n rd) as [runs|]; simpl; [|done].
  change (map td_data runs) with (td_data <$> runs). rewrite list_lookup_fmap.
  destruct (runs !! r) as [t|]; simpl; [|done]. by destruct (td_data t).
Qed.

Section Data.
Context (w : Workflow) (H : Host).

(** *** The invariant *)

(** An entry that came from other nodes. *)
Record EntryOk (heap : nat -> INode) (o : Outputs) (x : IExecuteData) : Prop := {
  eo_fresh : xd_runIndex x = None;
  eo_main : has_main (xd_data x) = true;
  eo_delivered : forall sources i src, xd_source x = Some sources -> sources !! i = Some (Some src) ->
    delivered o src (items_at (main_of (xd_data x)) i);
  eo_joined : xd_source x <> None -> 1 < inputs_of w (nd_name (heap (xd_node x))) ->
    inputs_of w (nd_name (heap (xd_node x))) <= length (main_of (xd_data x)) /\ Forall is_Some (main_of (xd_data x));
}.

Record WaitingOk (o : Outputs) (wt : IWaiting Slot) (ws : IWaiting (option ISourceData)) : Prop := {
  wo_length : forall n i l, waits_of wt n !! i = Some l -> length l = inputs_of w n;
  wo_delivered : forall n i j src, waiting_at ws n i !! j = Some (Some src) -> delivered o src (items_at (waiting_at wt n i) j);
}.

Record Sound (o : Outputs) (s : ExecState) : Prop := {
  so_names : names_ok w (xs_heap s);
  so_logs : forall ref, truthy_name (nd_rewireOutputLogTo (xs_heap s ref)) = None;
  so_stack : Forall (EntryOk (xs_heap s) o) (xs_stack s);
  so_waiting : WaitingOk o (xs_waiting s) (xs_waitingSource s);
}.

(** Each connection is among the inputs of the node it leads to. *)
Definition inputs_ok : Prop := forall n o c, (o, c) ∈ connections_of w n -> ic_index c < inputs_of w (ic_node c).

(** *** What waits *)

Lemma waiting_at_set_ne {A} n i n' i' (l : list A) wt : (n, i) <> (n', i') -> waiting_at (set_waiting_at n i l wt) n' i' = waiting_at wt n' i'.
Proof.
  intros Hne. unfold waiting_at, set_waiting_at. destruct (decide (n = n')) as [-> |]; [|by rewrite waits_of_set_ne].
  rewrite waits_of_set, lookup_insert_ne; [done|]. congruence.
Qed.

Lemma waits_of_set_at {A} n i n' i' (l : list A) wt l' :
  waits_of (set_waiting_at n i l wt) n' !! i' = Some l' -> (n', i') = (n, i) /\ l' = l \/ waits_of wt n' !! i' = Some l'.
Proof.
  unfold set_waiting_at. destruct (decide (n = n')) as [-> |]; [|rewrite waits_of_set_ne by done; by right].
  rewrite waits_of_set. destruct (decide (i = i')) as [-> |].
  - rewrite lookup_insert_eq. intros [= ->]. by left.
  - rewrite lookup_insert_ne by done. by right.
Qed.

Lemma drop_waits n i s n' i' :
  (forall l, waits_of (xs_waiting (drop_waiting n i s)) n' !! i' = Some l -> waits_of (xs_waiting s) n' !! i' = Some l /\ (n', i') <> (n, i)) /\
  (forall l, waits_of (xs_waitingSource (drop_waiting n i s)) n' !! i' = Some l ->
     waits_of (xs_waitingSource s) n' !! i' = Some l /\
     waits_of (xs_waiting (drop_waiting n i s)) n' !! i' = waits_of (xs_waiting s) n' !! i').
Proof.
  unfold drop_waiting. case_bool_decide as He; cbn [xs_waiting xs_waitingSource set_waiting set_waitingSource].
  - unfold waits_of. rewrite !map_get_delete. destruct (decide (n = n')) as [-> |]; simpl.
    + split; intros l; by rewrite lookup_empty.
    + split; intros l Hl; split; congruence.
  - destruct (decide (n = n')) as [-> |].
    + rewrite !waits_of_set. destruct (decide (i = i')) as [-> |].
      * rewrite !lookup_delete_eq. done.
      * rewrite !lookup_delete_ne by done. split; intros l Hl; split; congruence.
    + rewrite !waits_of_set_ne by done. split; intros l Hl; split; congruence.
Qed.

Lemma waiting_ok_drop o n i s :
  WaitingOk o (xs_waiting s) (xs_waitingSource s) ->
  WaitingOk o (xs_waiting (drop_waiting n i s)) (xs_waitingSource (drop_waiting n i s)).
Proof.
  intros [Hl Hd]. split.
  - intros n' i' l Hw. apply (drop_waits n i s n' i') in Hw as [Hw _]. by eapply Hl.
  - intros n' i' j src Hsrc. unfold waiting_at in *.
    destruct (waits_of (xs_waitingSource (drop_waiting n i s)) n' !! i') as [l|] eqn:Hw; [|done].
    apply (drop_waits n i s n' i') in Hw as [Hw Heq]. rewrite Heq. apply (Hd n' i' j). by rewrite Hw.
Qed.

Lemma items_at_insert l i j a : i < length l -> items_at (<[i := a]> l) j = if decide (i = j) then a else items_at l j.
Proof.
  intros Hi. unfold items_at. destruct (decide (i = j)) as [-> |].
  - by rewrite list_lookup_insert_eq.
  - by rewrite list_lookup_insert_ne.
Qed.

(** One more input. *)
Lemma waiting_ok_put o n i index data src new l l' s :
  WaitingOk o (xs_waiting s) (xs_waitingSource s) -> index < inputs_of w n -> delivered o src data ->
  waiting_index index (waits_of (xs_waiting s) n) = (i, new) ->
  l = <[index := data]> (if new then replicate (inputs_of w n) None else waiting_at (xs_waiting s) n i) ->
  l' = <[index := Some src]> (if new then replicate (inputs_of w n) None else waiting_at (xs_waitingSource s) n i) ->
  WaitingOk o (xs_waiting (put_waiting n i l l' s)) (xs_waitingSource (put_waiting n i l l' s)) /\ length l = inputs_of w n.
Proof.
  intros [Hl Hd] Hidx Hdel Hi -> ->.
  set (cur := if new then replicate _ None else waiting_at (xs_waiting s) n i).
  set (cur' := if new then replicate _ None else waiting_at (xs_waitingSource s) n i).
  assert (length cur = inputs_of w n) as Hcur.
  { subst cur. destruct new; [by rewrite length_replicate|]. apply waiting_index_old in Hi as [[l Hw] _].
    unfold waiting_at. rewrite Hw. by eapply Hl. }
  split; [|by rewrite length_insert].
  split; cbn [put_waiting xs_waiting xs_waitingSource set_waiting set_waitingSource].
  - intros n' i' l [[[= -> ->] ->]|Hw]%waits_of_set_at; [by rewrite length_insert|by eapply Hl].
  - intros n' i' j src'. destruct (decide ((n, i) = (n', i'))) as [[= <- <-]|Hne].
    + rewrite !waiting_at_set. rewrite items_at_insert by lia. intros Hsrc.
      destruct (decide (index = j)) as [<- |Hj].
      * destruct (decide (index < length cur')); [rewrite list_lookup_insert_eq in Hsrc by done; by injection Hsrc as <-|].
        rewrite list_insert_ge in Hsrc by lia. apply lookup_lt_Some in Hsrc. lia.
      * rewrite list_lookup_insert_ne in Hsrc by done. subst cur cur'. destruct new; [apply lookup_replicate in Hsrc as [? _]; done|].
        by apply Hd.
    + rewrite !waiting_at_set_ne by done. apply Hd.
Qed.

(** *** The steps *)

Lemma runData_drop n i s : xs_runData (drop_waiting n i s) = xs_runData s.
Proof. unfold drop_waiting. by destruct (bool_decide _). Qed.

Lemma sound_view o s s' : view s' = view s -> Sound o s -> Sound o s'.
Proof. intros [= E1 E2 E3 E4 _ _ _ _] [Hn Hl Hs Hw]. split; rewrite ?E1, ?E2, ?E3, ?E4; done. Qed.

Lemma joined_ok heap o ref gathered sources n :
  nd_name (heap ref) = n -> (forall i src, sources !! i = Some (Some src) -> delivered o src (items_at gathered i)) ->
  inputs_of w n <= length gathered -> Forall is_Some gathered -> EntryOk heap o (joined_entry ref gathered sources).
Proof.
  intros Hn Hd Hl Hall. split; [done..| |].
  - intros srcs i src [= <-] Hsrc. change (main_of _) with gathered. by apply Hd.
  - intros _ _. change (main_of _) with gathered. cbn [xd_node joined_entry]. rewrite Hn. done.
Qed.

Lemma sound_added o s n i data src s' :
  Sound o s -> is_Some (map_get n (wf_nodes w)) -> i < inputs_of w n -> delivered o src data ->
  Added w n i data src None None s s' -> Sound o s' /\ xs_heap s' = xs_heap s /\ xs_runData s' = xs_runData s.
Proof.
  intros [Hnames Hlogs Hstack Hw] Hn Hi Hdel [Hno|ref Hin Hr|k new l l' Hin Hidx El El'|k new l l' Hin Hidx El El' Hall].
  - split_and!; [by split|done..].
  - split_and!; [|done..]. split; [done..| |done]. constructor; [|done]. assert (i = 0) as -> by lia. split; [done..| |].
    + intros srcs j src' [= <-] Hsrc. destruct j as [|j]; [|done]. by injection Hsrc as <-.
    + intros _ Hgt. cbn in Hgt. rewrite (Hnames _ _ Hr) in Hgt. lia.
  - destruct (waiting_ok_put _ _ _ _ _ _ _ _ _ _ Hw Hi Hdel Hidx El El') as [Hw' _]. split_and!; [|done..]. by split.
  - destruct (waiting_ok_put _ _ _ _ _ _ _ _ _ _ Hw Hi Hdel Hidx El El') as [Hw' Hlen].
    set (s1 := put_waiting n k l l' s) in *. set (x := joined_entry _ _ _). set (s2 := set_stack _ s1).
    split_and!; [|by rewrite heap_drop|by rewrite runData_drop].
    split; rewrite ?heap_drop, ?stack_drop; [done..| |by apply (waiting_ok_drop o n k s2)].
    constructor; [|done]. apply (joined_ok _ _ _ _ _ n); [by apply node_ref_name| |lia|done].
    intros j src' Hsrc. pose proof (wo_delivered _ _ _ Hw' n k j src') as Hd.
    change (xs_waitingSource s1) with (set_waiting_at n k l' (xs_waitingSource s)) in Hd.
    change (xs_waiting s1) with (set_waiting_at n k l (xs_waiting s)) in Hd. rewrite !waiting_at_set in Hd. by apply Hd.
Qed.

Lemma items_at_or_empty l k j d : is_Some (items_at l j) -> items_at l j = d -> items_at ((or_empty <$> l) ++ replicate k (Some [])) j = d.
Proof.
  unfold items_at. intros [items Hi] <-. destruct (l !! j) as [a|] eqn:Hj; [|done]. simpl in *. subst a.
  rewrite lookup_app_l by (rewrite length_fmap; by eapply lookup_lt_Some). by rewrite list_lookup_fmap, Hj.
Qed.

Lemma sound_released o s s' :
  Sound o s -> Released w H s s' -> Sound o s' /\ xs_heap s' = xs_heap s /\ xs_runData s' = xs_runData s.
Proof.
  intros Hs Hr. induction Hr as [s|s n i l s' Hl Hany _ IH|s n i l k Hl Hany Hn Hidx].
  - done.
  - destruct IH as (IH & Hh & Hrd); [|split_and!; [done|by rewrite Hh, heap_drop|by rewrite Hrd, runData_drop]].
    destruct Hs as [Hnames Hlogs Hstack Hw]. split; rewrite ?heap_drop, ?stack_drop; [done..|]. by apply waiting_ok_drop.
  - destruct Hs as [Hnames Hlogs Hstack Hw]. set (x := joined_entry _ _ _). set (s2 := set_stack _ s).
    split_and!; [|by rewrite heap_drop|by rewrite runData_drop].
    split; rewrite ?heap_drop, ?stack_drop; [done..| |by apply (waiting_ok_drop o n i s2)].
    apply Forall_app. split; [done|]. constructor; [|done]. apply (joined_ok _ _ _ _ _ n); [by apply node_ref_name| | |].
    + intros j src Hsrc. pose proof (wo_delivered _ _ _ Hw n i j src Hsrc) as Hd.
      replace (waiting_at (xs_waiting s) n i) with l in Hd by (unfold waiting_at; by rewrite Hl).
      destruct Hd as (out & run & Ho & Hrn & Hsome & Hd). exists out, run.
      rewrite (items_at_or_empty l k j (items_at l j)) by done. done.
    + rewrite length_app, length_fmap, (wo_length _ _ _ Hw _ _ _ Hl). lia.
    + apply Forall_app. split; [|by apply Forall_replicate]. apply Forall_fmap, Forall_true. intros a. by eexists.
Qed.

Lemma sound_added_all o n d r s l :
  Sound o s -> (forall a, a ∈ l -> is_Some (map_get (ic_node (na_connection a)) (wf_nodes w)) /\
    ic_index (na_connection a) < inputs_of w (ic_node (na_connection a)) /\
    delivered o (source_from n (na_outputIndex a) r) (items_at d (na_outputIndex a))) ->
  isLegacyExecutionOrder w = false ->
  let s' := foldl (add_node w n d r) s l in Sound o s' /\ xs_heap s' = xs_heap s /\ xs_runData s' = xs_runData s.
Proof.
  intros Hs Hl Hv1. revert s Hs. induction l as [|a l IH]; intros s Hs; cbn [foldl]; [done|].
  destruct (Hl a ltac:(by left)) as (Hn & Hi & Hd).
  pose proof (add_cases w Hv1 (na_connection a) (na_outputIndex a) n d r None None s) as Ha.
  destruct (sound_added _ _ _ _ _ _ _ Hs Hn Hi Hd Ha) as (Hs' & Hh & Hr).
  destruct (IH ltac:(intros b Hb; apply Hl; by right) (add_node w n d r s a) Hs') as (Hs2 & Hh2 & Hr2).
  unfold add_node in *. split_and!; [done|congruence..].
Qed.

Lemma sound_more o n r d s : r = length (default [] (map_get n o)) -> Sound o s -> Sound (upsert_output n r d o) s.
Proof.
  intros Hr [Hn Hl Hs [Hlen Hd]]. split; [done..| |].
  - eapply Forall_impl; [exact Hs|]. intros x [Hf Hm He Hj]. split; [done..| |done].
    intros srcs i src Hsrc Hi. apply delivered_upsert; [done|]. by eapply He.
  - split; [done|]. intros n' i j src Hsrc. apply delivered_upsert; [done|]. by eapply Hd.
Qed.

Lemma sound_next (Hv1 : isLegacyExecutionOrder w = false) (Hin : inputs_ok) (Hasks : asks_nothing H) s s' :
  Sound (outputs_of (xs_runData s)) s -> loop_step w H s = Some (LoopNext, s') -> Sound (outputs_of (xs_runData s')) s'.
Proof.
  intros Hs (x & rest & Hst & Hn)%loop_next; [|done]. set (n := nd_name (xs_heap s (xd_node x))) in *. set (s0 := set_stack rest s) in *.
  assert (EntryOk (xs_heap s) (outputs_of (xs_runData s)) x /\ Sound (outputs_of (xs_runData s)) s0) as [Hx Hs0].
  { destruct Hs as [Hnm Hl Hstk Hw]. rewrite Hst in Hstk. apply Forall_cons in Hstk as [??]. split; [done|by split]. }
  destruct Hn as [Hv|x' lt Hx' Hl Hv|r data s1 Hf Hr Hv Hrest].
  - rewrite (view_outputs _ _ Hv). by apply (sound_view _ s0).
  - exfalso. subst x'. by rewrite no_defer in Hl by (done || by apply (eo_main _ _ _ Hx)).
  - assert (r = length (default [] (map_get n (outputs_of (xs_runData s))))) as Hlen.
    { rewrite Hr, outputs_get. unfold computeRunIndex. rewrite (eo_fresh _ _ _ Hx). fold n.
      destruct (map_get n (xs_runData s)); simpl; by rewrite ?length_map. }
    assert (logged (xs_heap s (xd_node x)) data = [(Main, data)]) as Hlog by (unfold logged; by rewrite (so_logs _ _ Hs)).
    rewrite Hlog in Hv. set (o := upsert_output n r [(Main, data)] (outputs_of (xs_runData s))) in *.
    assert (outputs_of (xs_runData s1) = o /\ Sound o s1) as [Ho1 Hs1].
    { apply (sound_more _ n r [(Main, data)]) in Hs0; [|done]. fold o in Hs0. destruct Hs0 as [A B C D].
      unfold view, with_outputs in Hv. cbn in Hv. injection Hv as E1 E2 E3 E4 _ _ _ E8. split; [done|].
      split; rewrite ?E1, ?E2, ?E3, ?E4; done. }
    destruct Hrest as [[_ Hv']|(s2 & s3 & Hc & Hv3 & ->)].
    + rewrite (view_outputs _ _ Hv'), Ho1. by apply (sound_view _ s1).
    + unfold queue_children in Hc. rewrite Hv1 in Hc. destruct (forallb _ _) eqn:Hall; [|done]. injection Hc as Hc.
      destruct (sound_added_all o n data r s1 (sort_nodes (nodes_to_add w data (connections_of w n) s1)) Hs1) as (Hs2 & _ & Hr2).
      * intros a Ha. rewrite sort_nodes_perm in Ha. apply elem_of_nodes_to_add in Ha as [Ha Hdel]; [|done].
        split_and!; [by eapply connections_in_workflow|by eapply Hin|].
        unfold delivers in Hdel. destruct (items_at data (na_outputIndex a)) as [items|] eqn:Hit; [|done].
        unfold o. rewrite Hlen. by apply delivered_new.
      * done.
      * fold n in Hc. rewrite Hc in Hs2, Hr2. apply (sound_view _ _ _ Hv3) in Hs2.
        destruct (sound_released _ _ _ Hs2 (releaseWaitingNodes_cases w H s3)) as (Hs4 & _ & Hr4).
        rewrite Hr4, (view_outputs _ _ Hv3), Hr2, Ho1. done.
Qed.

(** The states the loop goes through. *)
Definition goes_through : ExecState -> ExecState -> Prop := rtc (fun s s' => loop_step w H s = Some (LoopNext, s')).

Lemma sound_goes_through (Hv1 : isLegacyExecutionOrder w = false) (Hin : inputs_ok) (Hasks : asks_nothing H) s s' :
  Sound (outputs_of (xs_runData s)) s -> goes_through s s' -> Sound (outputs_of (xs_runData s')) s'.
Proof. intros Hs Hr. induction Hr as [|s1 s2 s3 Hstep _ IH]; [done|]. apply IH. by eapply sound_next. Qed.

End Data.

(** ** A sample workflow

    A trigger, a node after it, two nodes after that, and a node of two inputs that they
    join in; and a host whose nodes put out what they are given. *)

#[local] Open Scope string_scope.

Definition plain_node (name type : string) (position : Z * Z) : INode :=
  {| nd_name := name; nd_type := type; nd_position := position; nd_disabled := Some false; nd_retryOnFail := false; nd_maxTries := None;
     nd_waitBetweenTries := None; nd_alwaysOutputData := false; nd_executeOnce := false; nd_onError := None;
     nd_continueOnFail := false; nd_rewireOutputLogTo := None |}.

(** A connection to an input of a node. *)
Definition to_input (name : string) (index : nat) : IConnection := {| ic_node := name; ic_type := Main; ic_index := index |}.

Definition executing_type (inputs : nat) : INodeType :=
  {| ty_name := "node"; ty_execute := true; ty_poll := false; ty_trigger := false; ty_supplyData := false; ty_webhook := false;
     ty_requestDefaults := false; ty_inputs := inputs; ty_requiredInputs := None; ty_mainOutputs := 1 |}.

Definition sample_host (run : nat -> NodeCall -> NodeOutcome) (cancels : nat -> bool) : Host :=
  {| host_run := run; host_now := Z.of_nat; host_cancels := cancels; host_nodeType := fun _ => executing_type 1;
     host_issues := fun _ => false; host_pairedItem := fun _ _ => inr None; host_init := None; host_timeout := None; host_manual := true;
     host_fuel := 10 |}.

Definition returns (l : list Slot) : NodeOutcome := {| no_result := Returns (Some l) []; no_waitTill := None |}.

(** Nodes that put out what they are given. *)
Definition echo (moment : nat) (call : NodeCall) : NodeOutcome := returns [Some (nc_connectionInput call)].

Definition sample_nodes : list INode :=
  [plain_node "T" "n8n-nodes-base.manualTrigger" (0, 0)%Z; plain_node "A" "a" (1, 0)%Z; plain_node "B" "b" (2, 0)%Z;
   plain_node "C" "c" (2, 1)%Z; plain_node "M" "m" (3, 0)%Z].

Definition sample_connections : IConnections :=
  [("T", [(Main, [Some [to_input "A" 0]])]); ("A", [(Main, [Some [to_input "C" 0; to_input "B" 0]])]);
   ("B", [(Main, [Some [to_input "M" 0]])]); ("C", [(Main, [Some [to_input "M" 1]])])].

Definition sample_workflow : Workflow := new_workflow sample_nodes sample_connections (Some "v1").

Definition heap_of (nodes : list INode) (ref : nat) : INode := nth ref nodes (plain_node "" "" (0, 0)%Z).

Definition echo_host : Host := sample_host echo (fun _ => false).

(** The state [run] starts from. *)
Definition start_state (w : Workflow) (H : Host) (nodes : list INode) (destination : option IDestinationNode) : ExecState :=
  default {| xs_status := st_new; xs_aborted := false; xs_timedOut := false; xs_destinationNode := None; xs_runNodeFilter := None;
             xs_runData := []; xs_pinData := []; xs_lastNodeExecuted := None; xs_resultError := None; xs_stack := []; xs_waiting := [];
             xs_waitingSource := []; xs_waitTill := None; xs_executionError := None; xs_lastTry := None; xs_executionIndex := 0;
             xs_heap := fun _ => plain_node "" "" (0, 0)%Z; xs_events := []; xs_moment := 0; xs_calls := 0 |}
    (run_state w H None destination [] None [] (heap_of nodes)).

Definition sample_start : ExecState := start_state sample_workflow echo_host sample_nodes None.

(** The runs of an execution that ended, with its status. *)
Definition outcome (r : option ProcessResult) : option (ExecStatus * list (string * nat)) :=
  match r with Some (Processed r) => Some (ir_status r, prod_map id length <$> xs_runData (ir_data r)) | _ => None end.

Example sample_runs :
  outcome (processRunExecutionData sample_workflow echo_host 10 sample_start) = Some (st_success, [("T", 1); ("A", 1); ("B", 1); ("C", 1); ("M", 1)]).
Proof. vm_compute. reflexivity. Qed.

(** The state after some iterations, and whether the loop goes on after each of them. *)
Fixpoint state_after (w : Workflow) (H : Host) (n : nat) (s : ExecState) : ExecState :=
  match n with
  | O => s
  | S n => match loop_step w H s with Some (LoopNext, s') => state_after w H n s' | _ => s end
  end.

Fixpoint goes_on_for (w : Workflow) (H : Host) (n : nat) (s : ExecState) : bool :=
  match n with
  | O => true
  | S n => match loop_step w H s with Some (LoopNext, s') => goes_on_for w H n s' | _ => false end
  end.

Lemma goes_through_after w H n s : goes_on_for w H n s = true -> goes_through w H s (state_after w H n s).
Proof.
  revert s. induction n as [|n IH]; intros s; [intros _; apply rtc_refl|]. simpl.
  destruct (loop_step w H s) as [[[| |e|] s']|] eqn:Hs; try done. intros Hn. eapply rtc_l; [exact Hs|by apply IH].
Qed.

Lemma step_after w H s : goes_on_for w H 1 s = true -> loop_step w H s = Some (LoopNext, state_after w H 1 s).
Proof. simpl. by destruct (loop_step w H s) as [[[| |e|] s']|]. Qed.

(** The run a processing ended with. *)
Definition processed (p : option ProcessResult) : option IRun := match p with Some (Processed r) => Some r | _ => None end.

Lemma processed_some p : is_Some (processed p) -> exists r, p = Some (Processed r) /\ processed p = Some r.
Proof. destruct p as [[| |r]|]; intros [r' Hr]; simplify_eq/=. by eexists. Qed.

Definition sample_rank (n : string) : nat :=
  default 0 (map_get n [("T", 3); ("A", 2); ("B", 1); ("C", 1); ("M", 0)]).

(** A property of all connections of a workflow, checked. *)
Lemma connections_checked (w : Workflow) (f : string -> nat * IConnection -> bool) :
  forallb (fun n => forallb (f n) (connections_of w n)) (connectionsBySourceNode w).*1 = true ->
  forall n o c, (o, c) ∈ connections_of w n -> f n (o, c) = true.
Proof.
  intros Hall n o c Hin. destruct (map_get n (connectionsBySourceNode w)) as [byType|] eqn:Hg.
  - rewrite forallb_forall in Hall.
    assert (In n (connectionsBySourceNode w).*1) as Hn.
    { apply list_elem_of_In, list_elem_of_fmap. apply map_get_Some_elem_of in Hg. by exists (n, byType). }
    specialize (Hall n Hn). rewrite forallb_forall in Hall. by apply Hall, list_elem_of_In.
  - unfold connections_of, of_type in Hin. rewrite Hg in Hin. simpl in Hin. set_solver.
Qed.

Lemma sample_ranked n o c : (o, c) ∈ connections_of sample_workflow n -> (sample_rank (ic_node c) < sample_rank n)%nat.
Proof.
  intros Hin. apply Nat.ltb_lt. revert n o c Hin.
  apply (connections_checked sample_workflow (fun n p => Nat.ltb (sample_rank (ic_node p.2)) (sample_rank n))). vm_compute. reflexivity.
Qed.

Lemma sample_inputs : inputs_ok sample_workflow.
Proof.
  intros n o c Hin. apply Nat.ltb_lt. revert n o c Hin.
  apply (connections_checked sample_workflow (fun n p => Nat.ltb (ic_index p.2) (inputs_of sample_workflow (ic_node p.2)))). vm_compute. reflexivity.
Qed.

Lemma echo_asks_nothing cancels : asks_nothing (sample_host echo cancels).
Proof. done. Qed.

Lemma sample_names : names_ok sample_workflow (heap_of sample_nodes).
Proof.
  intros n r Hr. apply map_get_Some_elem_of in Hr. vm_compute in Hr.
  repeat (apply elem_of_cons in Hr as [[= -> ->]|Hr]; [reflexivity|]). by apply not_elem_of_nil in Hr.
Qed.

Lemma sample_ending : ending sample_workflow sample_start.
Proof.
  split_and!; [exact sample_names|by constructor|]. intros ref q. change (nd_maxTries (heap_of sample_nodes ref) = Some q -> exists z : Z, (q == inject_Z z)%Q).
  unfold heap_of. do 5 (destruct ref as [|ref]; [done|]). by destruct ref.
Qed.

Lemma sample_sound : Sound sample_workflow (outputs_of (xs_runData sample_start)) sample_start.
Proof.
  split; [exact sample_names| | |].
  - intros ref. change (truthy_name (nd_rewireOutputLogTo (heap_of sample_nodes ref)) = None). unfold heap_of.
    do 5 (destruct ref as [|ref]; [reflexivity|]). by destruct ref.
  - constructor; [|constructor]. by split.
  - split; done.
Qed.
