(* ===== verification/ExecResults.v ===== *)
(** * The v1 execution engine: the order of the nodes after a node

    In order v1 the nodes after a node run from the top to the bottom and, on the same
    height, from the left to the right.

    The second part says how an execution goes. *)

From stdpp Require Import base gmap strings pretty list list_numbers fin_maps sorting.
From Stdlib Require Import ZArith QArith_base Lia.
From S2P Require Import Prelude.
From S2P Require Import JsCollections.
From S2P Require Import EngineTypes.
From S2P Require Import Workflow.
From S2P Require Import ExecTypes.
From S2P Require Import ExecAdd.
From S2P Require Import ExecNode.
From S2P Require Import ExecOutput.
From S2P Require Import ExecFrame.
From S2P Require Import ExecLoop.
From S2P Require Import ExecSteps.
From S2P Require Import ExecTotal.
From S2P Require Import ExecRun.
From S2P Require Import ExecData.

#[local] Close Scope Q_scope.

(** Further up, or as far up and not further right. *)
Definition top_left (p q : Z * Z) : Prop := (p.2 < q.2 \/ p.2 = q.2 /\ p.1 <= q.1)%Z.

Lemma top_left_total p q : top_left p q \/ top_left q p.
Proof. unfold top_left. lia. Qed.

#[export] Instance top_left_trans : Transitive top_left.
Proof. intros p q r. unfold top_left. lia. Qed.

Lemma sorts_before_spec a b : sorts_before a b = true <-> ~ top_left (na_position a) (na_position b).
Proof. unfold sorts_before, top_left. destruct (na_position a), (na_position b). simpl. rewrite orb_true_iff, andb_true_iff. lia. Qed.

(** What comes later is no further down or right. *)
Definition later_up (a b : NodeToAdd) : Prop := top_left (na_position b) (na_position a).

Lemma sort_insert_sorted a l : StronglySorted later_up l -> StronglySorted later_up (sort_insert a l).
Proof.
  induction 1 as [|b l Hs IH Hb]; simpl; [repeat constructor|].
  destruct (sorts_before a b) eqn:Hab.
  - apply sorts_before_spec in Hab. assert (later_up a b) as Hab' by (unfold later_up; destruct (top_left_total (na_position a) (na_position b)); tauto).
    constructor; [by constructor|]. constructor; [done|]. eapply Forall_impl; [exact Hb|]. intros c Hc. unfold later_up in *. by etrans.
  - constructor; [done|]. rewrite node_insert_perm. constructor; [|done]. unfold later_up.
    destruct (decide (top_left (na_position a) (na_position b))) as [?|Hn]; [done|]. apply sorts_before_spec in Hn. congruence.
Qed.

Lemma sort_nodes_sorted l : StronglySorted later_up (sort_nodes l).
Proof.
  unfold sort_nodes. assert (forall acc, StronglySorted later_up acc -> StronglySorted later_up (foldl (fun acc a => sort_insert a acc) acc l)) as Hf;
    [|apply Hf; constructor].
  induction l as [|a l IH]; intros acc Hacc; [done|]. by apply IH, sort_insert_sorted.
Qed.

Lemma sorted_reverse {A} (R : A -> A -> Prop) l : StronglySorted R l -> StronglySorted (fun a b => R b a) (reverse l).
Proof.
  induction 1 as [|a l Hs IH Ha]; [constructor|]. rewrite reverse_cons.
  assert (forall k, StronglySorted (fun a b => R b a) k -> Forall (R a) k -> StronglySorted (fun a b => R b a) (k ++ [a])) as Happ.
  { clear. induction 1 as [|b k Hk IHk Hb]; intros Ha; simpl; [repeat constructor|]. apply Forall_cons in Ha as [Hab Ha].
    constructor; [by apply IHk|]. apply Forall_app. split; [done|by repeat constructor]. }
  apply Happ; [done|]. by apply Forall_reverse.
Qed.

Lemma sorted_fmap {A B} (f : A -> B) (R : B -> B -> Prop) l : StronglySorted (fun a b => R (f a) (f b)) l -> StronglySorted R (f <$> l).
Proof. induction 1 as [|a l Hs IH Ha]; [constructor|]. rewrite fmap_cons. constructor; [done|]. by apply Forall_fmap. Qed.

Section Order.
Context (w : Workflow) (Hv1 : isLegacyExecutionOrder w = false).

(** The entry a connection that delivers leads to. *)
Definition entry_for (n : string) (d : list Slot) (r : nat) (p : nat * IConnection) : IExecuteData :=
  direct_entry (node_ref w (ic_node p.2)) (ic_index p.2) (items_at d p.1) (source_from n p.1 r) None None.

Lemma add_direct c o p d r n m s :
  inputs_of w (ic_node c) <= 1 -> is_Some (map_get (ic_node c) (wf_nodes w)) ->
  addNodeToBeExecuted w c o p d r n m s =
  set_stack (direct_entry (node_ref w (ic_node c)) (ic_index c) (items_at d o) (source_from p o r) n m :: xs_stack s) s.
Proof.
  intros Hi [ref Hr]. unfold addNodeToBeExecuted. fold (inputs_of w (ic_node c)). destruct (Nat.ltb_spec 1 (inputs_of w (ic_node c))); [lia|].
  rewrite Hr, enqueue_v1 by done. unfold node_ref. by rewrite Hr.
Qed.

Lemma add_all_direct n d r s l :
  (forall a, a ∈ l -> inputs_of w (ic_node (na_connection a)) <= 1 /\ is_Some (map_get (ic_node (na_connection a)) (wf_nodes w))) ->
  xs_stack (foldl (add_node w n d r) s l) =
  reverse ((fun a => entry_for n d r (na_outputIndex a, na_connection a)) <$> l) ++ xs_stack s.
Proof.
  revert s. induction l as [|a l IH]; intros s Hl; [done|]. cbn [foldl]. rewrite IH by (intros b Hb; apply Hl; by right).
  destruct (Hl a ltac:(by left)) as [Hi Hn]. unfold add_node at 1. rewrite add_direct by done. cbn [xs_stack set_stack].
  rewrite fmap_cons, reverse_cons, <- (assoc_L (++)). done.
Qed.

Lemma nodes_to_add_eq d l s :
  (fun a => (na_outputIndex a, na_connection a)) <$> nodes_to_add w d l s = filter (fun p => delivers w d p.1 p.2 = true) l /\
  Forall (fun a => na_position a = nd_position (xs_heap s (node_ref w (ic_node (na_connection a))))) (nodes_to_add w d l s).
Proof.
  unfold nodes_to_add. induction l as [|[o c] l [IH1 IH2]]; [done|]. rewrite bind_cons. destruct (delivers w d o c) eqn:Hd.
  - rewrite filter_cons_True by done. simpl. split; [by f_equal|by constructor].
  - rewrite filter_cons_False by (simpl; congruence). done.
Qed.

End Order.

(** C25. In order v1, the nodes a node delivers to (each of one input) go on top of the stack,
    one entry for each connection that delivers, with the node nearest to the top first and,
    of nodes on the same height, the leftmost. *)
Theorem children_run_top_left_first (w : Workflow) (n : string) (d : list Slot) (r : nat) (s s' : ExecState) :
  isLegacyExecutionOrder w = false ->
  (forall o c, (o, c) ∈ connections_of w n -> inputs_of w (ic_node c) <= 1) ->
  queue_children w n d r s = (None, s') ->
  exists l, xs_stack s' = l ++ xs_stack s /\
    l ≡ₚ entry_for w n d r <$> filter (fun p => delivers w d p.1 p.2 = true) (connections_of w n) /\
    StronglySorted (fun x y => top_left (nd_position (xs_heap s (xd_node x))) (nd_position (xs_heap s (xd_node y)))) l.
Proof.
  intros Hv1 Hin. unfold queue_children. rewrite Hv1. destruct (forallb _ _) eqn:Hall; [|done]. intros [= <-].
  destruct (nodes_to_add_eq w d (connections_of w n) s) as [Heq Hpos].
  set (L := nodes_to_add w d (connections_of w n) s) in *.
  exists (reverse ((fun a => entry_for w n d r (na_outputIndex a, na_connection a)) <$> sort_nodes L)). split_and!.
  - apply add_all_direct; [done|]. intros a Ha. rewrite sort_nodes_perm in Ha.
    apply elem_of_nodes_to_add in Ha as [Ha _]; [|done]. split; [by eapply Hin|by eapply connections_in_workflow].
  - rewrite reverse_Permutation, sort_nodes_perm, <- Heq, <- list_fmap_compose. done.
  - rewrite <- fmap_reverse. apply sorted_fmap.
    assert (Forall (fun a => na_position a = nd_position (xs_heap s (node_ref w (ic_node (na_connection a))))) (reverse (sort_nodes L))) as Hpos'.
    { by rewrite reverse_Permutation, sort_nodes_perm. }
    pose proof (sorted_reverse _ _ (sort_nodes_sorted L)) as Hs. revert Hs Hpos'. generalize (reverse (sort_nodes L)). clear.
    induction 1 as [|a l Hs IH Ha]; intros Hp; [constructor|]. apply Forall_cons in Hp as [Hpa Hp]. constructor; [by apply IH|].
    rewrite Forall_forall in Ha, Hp |- *. intros b Hb. cbn [xd_node entry_for direct_entry snd]. rewrite <- Hpa, <- (Hp b Hb). by apply Ha.
Qed.

Lemma children_run_top_left_first_witness :
  let d := [Some [empty_item]] in
  exists s' l, queue_children sample_workflow "A" d 0 sample_start = (None, s') /\ xs_stack s' = l ++ xs_stack sample_start /\
    l ≡ₚ entry_for sample_workflow "A" d 0 <$> filter (fun p => delivers sample_workflow d p.1 p.2 = true) (connections_of sample_workflow "A") /\
    StronglySorted (fun x y => top_left (nd_position (xs_heap sample_start (xd_node x))) (nd_position (xs_heap sample_start (xd_node y)))) l.
Proof.
  cbv zeta. set (d := [Some [empty_item]]).
  destruct (queue_children sample_workflow "A" d 0 sample_start) as [e s'] eqn:Hq.
  assert (e = None) as -> by (change e with (e, s').1; rewrite <- Hq; reflexivity).
  destruct (children_run_top_left_first sample_workflow "A" d 0 sample_start s' eq_refl) as (l & Hl); [|exact Hq|by exists s', l].
  intros o c Hin. revert o c Hin. vm_compute. intros o c Hin.
  repeat (apply elem_of_cons in Hin as [[= -> ->]|Hin]; [repeat constructor|]). by apply not_elem_of_nil in Hin.
Defined.

(** ** The v1 execution engine: how an execution goes

    What runs, what a cancellation stops, what a status of success says, what a node that
    fails leaves behind, and how often its code is called. *)

#[local] Open Scope string_scope.
#[local] Open Scope nat_scope.
#[local] Open Scope list_scope.

Section Loops.
Context (w : Workflow) (H : Host).

(** ** The whole loop *)

(** What holds of every iteration's start holds at the end, and of how it ends. *)
Lemma loop_invariant (P : ExecState -> Prop) (Q : option ExecutionError -> ExecState -> Prop) :
  (forall s s', P s -> loop_step w H s = Some (LoopNext, s') -> P s') ->
  (forall s, P s -> loop_step w H s = None -> Q None s) ->
  (forall s s', P s -> loop_step w H s = Some (LoopStop, s') -> Q None s') ->
  (forall s s' e, P s -> loop_step w H s = Some (LoopCrash e, s') -> Q (Some e) s') ->
  forall fuel s crash s', P s -> loop w H fuel s = Some (crash, s') -> Q crash s'.
Proof.
  intros Hnext Hend Hstop Hcrash fuel. induction fuel as [|fuel IH]; intros s crash s' Hs; [done|]. simpl.
  destruct (loop_step w H s) as [[[| |e|] s1]|] eqn:Hl.
  - apply IH. by eapply Hnext.
  - intros [= <- <-]. by eapply Hstop.
  - intros [= <- <-]. by eapply Hcrash.
  - done.
  - intros [= <- <-]. by apply Hend.
Qed.

(** The nodes started since [s] are let through by the filter. *)
Definition starts_allowed (s s' : ExecState) : Prop :=
  xs_runNodeFilter s' = xs_runNodeFilter s /\
  exists l, xs_events s' = xs_events s ++ l /\ forall name, NodeExecuteBefore name ∈ l -> isNodeFilteredOut name s = false.

Lemma starts_allowed_step s0 s e s' : starts_allowed s0 s -> loop_step w H s = Some (e, s') -> starts_allowed s0 s'.
Proof.
  intros [Hf (l & He & Hl)] (c & [C L F D (l' & E' & N')] & _)%loop_step_moves. split; [congruence|]. exists (l ++ l').
  rewrite E', He, (assoc_L (++)). split; [done|]. intros name [?%Hl|?%N']%elem_of_app; [done|].
  unfold isNodeFilteredOut in *. by rewrite <- Hf.
Qed.

Lemma loop_starts_allowed fuel s crash s' : loop w H fuel s = Some (crash, s') -> starts_allowed s s'.
Proof.
  apply (loop_invariant (starts_allowed s) (fun _ => starts_allowed s)).
  - intros. by eapply starts_allowed_step.
  - done.
  - intros. by eapply starts_allowed_step.
  - intros. by eapply starts_allowed_step.
  - split; [done|]. exists []. rewrite app_nil_r. split; [done|set_solver].
Qed.

(** ** How the loop stops *)






(** ** Cancellation *)

Definition cancel_synced (s : ExecState) : Prop := xs_aborted s = true -> xs_status s = st_canceled.

Lemma cancel_synced_step s e s' : cancel_synced s -> loop_step w H s = Some (e, s') -> cancel_synced s'.
Proof. intros Hs (c & Hl & _)%loop_step_moves. exact (proj2 (m_cancel _ _ _ _ Hl) Hs). Qed.

Lemma cancel_synced_through s s' : cancel_synced s -> goes_through w H s s' -> cancel_synced s'.
Proof. intros Hs Hr. induction Hr as [|s1 s2 s3 Hl _ IH]; [done|]. apply IH. by eapply cancel_synced_step. Qed.


Lemma mark_timedOut_same s : exists b, mark_timedOut H s = s \/ mark_timedOut H s = set_timedOut b (set_status st_canceled s).
Proof. exists true. unfold mark_timedOut. destruct (hasExecutionTimedOut H s); auto. Qed.

Lemma canceled_loop_stops fuel s :
  xs_status s = st_canceled ->
  exists s', loop w H (S fuel) s = Some (None, s') /\ xs_calls s' = xs_calls s /\ xs_events s' = xs_events s /\ xs_runData s' = xs_runData s.
Proof.
  intros Hc. simpl. unfold loop_step. destruct (xs_stack s) as [|x rest]; [by eexists|].
  assert (shouldStopExecuting (mark_timedOut H s) = true) as ->.
  { apply bool_decide_eq_true. by destruct (mark_timedOut_same s) as [b [-> | ->]]. }
  exists (mark_timedOut H s). by destruct (mark_timedOut_same s) as [b [-> | ->]].
Qed.


End Loops.

(** ** Theorems *)

(** C21. A cancelled execution stops between two entries of the stack.  The entry that is
    under way when the user cancels is still finished: where the cancellation comes during
    the hook before the node, or between two of its tries, the node's code is still called,
    as often as the tries allow.  Then, at the next point between two iterations, the loop
    ends, whatever is queued: no other entry is taken, no hook runs, no node's code is called
    and the run data stays as it is. *)
Theorem cancelled_execution_stops (w : Workflow) (H : Host) (fuel : nat) (s s' : ExecState) :
  (xs_aborted s = true -> xs_status s = st_canceled) ->
  goes_through w H s s' -> xs_aborted s' = true ->
  exists s'', loop w H (S fuel) s' = Some (None, s'') /\
    xs_calls s'' = xs_calls s' /\ xs_events s'' = xs_events s' /\ xs_runData s'' = xs_runData s'.
Proof. intros Hs Hl Ha. apply canceled_loop_stops. by apply (cancel_synced_through w H s s'). Qed.

(** The user cancels while the first node runs. *)
Lemma cancelled_execution_stops_witness :
  let H := sample_host echo (fun moment => Nat.eqb moment 1) in
  let s' := state_after sample_workflow H 1 sample_start in
  length (xs_stack s') = 1 /\ exists s'', loop sample_workflow H 1 s' = Some (None, s'') /\
    xs_calls s'' = xs_calls s' /\ xs_events s'' = xs_events s' /\ xs_runData s'' = xs_runData s'.
Proof.
  cbv zeta. split; [vm_compute; reflexivity|].
  apply (cancelled_execution_stops sample_workflow _ 0 sample_start); [intros Hab; discriminate Hab| |vm_compute; reflexivity].
  apply goes_through_after. vm_compute. reflexivity.
Defined.

Definition started (name : string) (s : ExecState) : Prop := NodeExecuteBefore name ∈ xs_events s.

Lemma handleWaitingState_keeps s s' :
  handleWaitingState s = inr s' ->
  xs_events s' = xs_events s /\ xs_runNodeFilter s' = xs_runNodeFilter s /\ xs_status s' = xs_status s /\ xs_aborted s' = xs_aborted s.
Proof.
  unfold handleWaitingState. destruct (xs_waitTill s); [|by intros [= <-]]. cbn [xs_stack set_waitTill].
  destruct (xs_stack s); [done|]. cbv zeta. destruct (md_resumeError _); cbn [xs_lastNodeExecuted xs_runData set_heap set_waitTill];
    destruct (xs_lastNodeExecuted s) as [last|]; simpl; try done; destruct (map_get last _); simpl; try done; by intros [= <-].
Qed.

Lemma initialize_starts (H : Host) s s1 s2 :
  initializeExecution H s = (s1, s2) ->
  (forall s', s1 = inr s' -> s' = s2) /\ Moves 0 (fun _ => False) s s2.
Proof.
  unfold initializeExecution. destruct (host_init H) as [e|].
  - assert (Moves 0 (fun _ => False) s (await H s)) as Hm by apply (moves_of_quiet True), calm_await.
    destruct (xs_stack (await H s)) as [|x rest]; intros [= <- <-]; (split; [done|]); [done|].
    eapply moves_then; [exact Hm|by apply moves_of_frame].
  - intros [= <- <-]. split; [by intros ? [= ->]|]. by apply moves_hook.
Qed.

Lemma hook_starts H name e s : (forall n, e <> NodeExecuteBefore n) -> started name (run_hook H e s) -> started name s.
Proof.
  intros He. destruct (m_events _ _ _ _ (moves_hook H (fun _ => False) e s He)) as (l & El & Nl).
  unfold started. rewrite El. by intros [?|[]%Nl]%elem_of_app.
Qed.

Lemma finish_starts H name s : started name (ir_data (finish H s)) -> started name s.
Proof.
  assert (forall e s0, started name (ir_data (processSuccessExecution H e s0)) -> started name s0) as Hp.
  { intros e s0. unfold processSuccessExecution. cbv zeta. set (s1 := set_status _ s0).
    assert (started name (ir_data (fullRunData e s1)) -> started name s0) as Hf by (unfold fullRunData; by destruct e, (xs_waitTill s1)).
    destruct (xs_aborted s1); [done|]. intros Hs. cbn [ir_data with_data] in Hs. apply hook_starts in Hs; [by apply Hf|done]. }
  unfold finish. destruct (xs_executionError s); [apply Hp|]. destruct (bool_decide _); apply Hp.
Qed.

Lemma finish_crashed_starts H name e s : started name (ir_data (finish_crashed H e s)) -> started name s.
Proof. unfold finish_crashed. cbv zeta. intros Hs. cbn [ir_data with_data] in Hs. by apply hook_starts in Hs. Qed.

(** What is processed starts only what its filter lets through. *)
Lemma processed_starts w H fuel s r name :
  processRunExecutionData w H fuel s = Some (Processed r) -> started name (ir_data r) -> started name s \/ isNodeFilteredOut name s = false.
Proof.
  unfold processRunExecutionData. cbv zeta. set (s0 := set_executionError _ _).
  destruct (checkReadyForExecution _ _ _ _ _); [done|]. destruct (handleWaitingState s0) as [?|s1] eqn:Hw; [done|].
  destruct (handleWaitingState_keeps _ _ Hw) as (E1 & F1 & _).
  assert (forall s2, Moves 0 (fun _ => False) s1 s2 -> started name s2 -> started name s) as Hold.
  { intros s2 [_ _ _ _ (l & E & N)]. unfold started. rewrite E, E1. intros [?|[]%N]%elem_of_app. done. }
  destruct (initializeExecution H s1) as [o s2] eqn:Hi. destruct (initialize_starts _ _ _ _ Hi) as [Ho Hm]. destruct o as [e|s2'].
  { intros [= <-] Hs%finish_crashed_starts. left. by eapply Hold. }
  rewrite (Ho _ eq_refl). destruct (loop w H fuel s2) as [[crash s3]|] eqn:Hl; simpl; [|done]. intros [= <-] Hs.
  assert (started name s3) as Hs3 by (destruct crash; [by eapply finish_crashed_starts|by eapply finish_starts]).
  destruct (loop_starts_allowed _ _ _ _ _ _ Hl) as [_ (l & E & N)]. unfold started in Hs3. rewrite E in Hs3.
  apply elem_of_app in Hs3 as [Hs3|Hs3%N]; [left; by eapply Hold|right].
  unfold isNodeFilteredOut in *. by rewrite (m_filter _ _ _ _ Hm), F1 in Hs3.
Qed.

(** C10. A run with a destination starts only what leads to it: the destination's parents,
    the nodes attached to one of them or to the destination as tools and the like, the
    destination itself where it is included, and the nodes that are asked for besides. *)
Theorem run_starts_what_leads_to_the_destination (w : Workflow) (H : Host) (startNode : option nat) (d : IDestinationNode)
    pinData startData (additional : list string) (heap : nat -> INode) (fuel : nat) (s : ExecState) (r : IRun) (name : string) :
  run_state w H startNode (Some d) pinData startData additional heap = Some s ->
  processRunExecutionData w H fuel s = Some (Processed r) -> NodeExecuteBefore name ∈ xs_events (ir_data r) ->
  name ∈ getParentNodes w (ds_nodeName d) \/
  (exists n, n ∈ ds_nodeName d :: getParentNodes w (ds_nodeName d) /\ name ∈ getNonMainParentNodes w n) \/
  (name = ds_nodeName d /\ ds_mode d = inclusive) \/ name ∈ additional.
Proof.
  unfold run_state. destruct (or_else _ _) as [ref|]; [|done]. intros [= <-] Hp Hs.
  destruct (processed_starts _ _ _ _ _ _ Hp Hs) as [Hs0|Hf]; [unfold started in Hs0; simpl in Hs0; set_solver|].
  unfold isNodeFilteredOut in Hf. cbn [xs_runNodeFilter] in Hf. simpl in Hf. apply negb_false_iff, bool_decide_eq_true in Hf.
  unfold run_node_filter in Hf. rewrite elem_of_set_of_list, !elem_of_app in Hf.
  destruct Hf as [?|[Hf|[Hf|?]]]; [by left|right; left|right; right; left|by right; right; right].
  - apply list_elem_of_bind in Hf as (n & ? & ?). by exists n.
  - destruct (ds_mode d); [|set_solver]. by apply list_elem_of_singleton in Hf.
Qed.

(** Running up to one of the two nodes leaves the other out. *)
Lemma run_starts_what_leads_to_the_destination_witness :
  let d := {| ds_nodeName := "B"; ds_mode := inclusive |} in
  exists s r, run_state sample_workflow echo_host None (Some d) [] None [] (heap_of sample_nodes) = Some s /\
    processRunExecutionData sample_workflow echo_host 10 s = Some (Processed r) /\
    forall name, NodeExecuteBefore name ∈ xs_events (ir_data r) ->
      name ∈ getParentNodes sample_workflow "B" \/
      (exists n, n ∈ "B" :: getParentNodes sample_workflow "B" /\ name ∈ getNonMainParentNodes sample_workflow n) \/
      (name = "B" /\ inclusive = inclusive) \/ name ∈ [].
Proof.
  cbv zeta. set (d := {| ds_nodeName := "B"; ds_mode := inclusive |}).
  set (s := start_state sample_workflow echo_host sample_nodes (Some d)).
  assert (run_state sample_workflow echo_host None (Some d) [] None [] (heap_of sample_nodes) = Some s) as Hs by reflexivity.
  destruct (processed_some (processRunExecutionData sample_workflow echo_host 10 s)) as (s' & Hp & _); [by vm_compute; eexists|].
  exists s, s'. split; [exact Hs|]. split; [exact Hp|]. intros name Hin.
  exact (run_starts_what_leads_to_the_destination sample_workflow echo_host None d [] None [] (heap_of sample_nodes) 10 s s' name Hs Hp Hin).
Defined.

(** *** Success *)






(** *** Retries *)

(** C31. Where [maxTries] is a whole number, a node's code is called a bounded number of
    times for one entry of the stack: once, where the node is not set to be retried; otherwise
    at most [2 * maxTries - 1] times, [maxTries] as [getRetryParams] bounds it being at most
    5.  The tries end: four repetitions are fuel enough.  (The schemas let [maxTries] be any
    number; with one that is not whole the bound fails, as
    [ExecCases.fractional_tries_do_not_end] shows.) *)
Theorem tries_are_bounded (w : Workflow) (H : Host) (x : IExecuteData) (runIndex : nat) (startTime : Z) (executionIndex : nat)
    (s s' : ExecState) (e : LoopEnd) :
  run_entry w H x runIndex startTime executionIndex s = (e, s') -> whole_tries (xs_heap s (xd_node x)) ->
  let node := xs_heap s (xd_node x) in
  exists maxTries : nat,
    ((getRetryParams node x).1 == inject_Z (Z.of_nat maxTries))%Q /\ 1 <= maxTries <= 5 /\
    (nd_retryOnFail node = false -> maxTries = 1) /\
    xs_calls s' <= xs_calls s + (2 * maxTries - 1) /\
    (4 <= host_fuel H -> e <> LoopSpins).
Proof.
  intros (c & Hr & Hc)%moves_run_entry Hw. cbv zeta. set (node := xs_heap s (xd_node x)) in *.
  destruct (retry_params_whole node x Hw) as (k & Hk & Hl & Hone). destruct (Hc k Hl) as [Hb Hn]. exists (S k).
  split_and!; [exact Hl|lia|lia| | |].
  - intros H0. by rewrite (Hone H0).
  - pose proof (m_calls _ _ _ _ Hr). lia.
  - intros Hf. apply Hn. lia.
Qed.

(** A node that throws at every call, and is to be retried. *)
Definition throws (moment : nat) (call : NodeCall) : NodeOutcome :=
  {| no_result := Throws (user_error "no"); no_waitTill := None |}.

Definition retried_node : INode :=
  {| nd_name := "T"; nd_type := "t"; nd_position := (0, 0)%Z; nd_disabled := Some false; nd_retryOnFail := true; nd_maxTries := Some 9%Q;
     nd_waitBetweenTries := None; nd_alwaysOutputData := false; nd_executeOnce := false; nd_onError := None;
     nd_continueOnFail := false; nd_rewireOutputLogTo := None |}.

Definition retried_workflow : Workflow := new_workflow [retried_node] [] (Some "v1").
Definition throwing_host : Host := sample_host throws (fun _ => false).
Definition retried_start : ExecState := start_state retried_workflow throwing_host [retried_node] None.
Definition first_entry (s : ExecState) : IExecuteData :=
  default (direct_entry 0 0 None (source_from "" 0 0) None None) (head (xs_stack s)).

Lemma tries_are_bounded_witness :
  exists s' (maxTries : nat),
    run_entry retried_workflow throwing_host (first_entry retried_start) 0 0%Z 0 retried_start = (LoopStop, s') /\
    ((getRetryParams retried_node (first_entry retried_start)).1 == inject_Z (Z.of_nat maxTries))%Q /\
    xs_calls s' <= xs_calls retried_start + (2 * maxTries - 1) /\ xs_calls s' = 5.
Proof.
  destruct (run_entry retried_workflow throwing_host (first_entry retried_start) 0 0%Z 0 retried_start) as [e s'] eqn:Hr.
  destruct (tries_are_bounded _ _ _ _ _ _ _ _ _ Hr) as (n & Hn & _ & _ & Hc & _).
  { intros q Hq. exists 9%Z. change (Some 9%Q = Some q) in Hq. injection Hq as <-. reflexivity. }
  exists s', n. assert (e = LoopStop) as ->.
  { change e with (e, s').1. rewrite <- Hr. vm_compute. reflexivity. }
  split; [reflexivity|]. split; [exact Hn|]. split; [exact Hc|].
  change s' with (LoopStop, s').2. rewrite <- Hr. vm_compute. reflexivity.
Defined.

(** *** A node that fails *)

(** A hook leaves the runs as they are, but for the status of one that is running. *)
Lemma hook_runs H e s n :
  exists f, (forall t, td_data (f t) = td_data t) /\ (forall t, td_executionStatus t <> Some st_running -> f t = t) /\
    map_get n (xs_runData (run_hook H e s)) = map f <$> map_get n (xs_runData s).
Proof.
  unfold run_hook, await. destruct (_ && _).
  - exists cancel_task. split_and!; [apply td_data_cancel| |].
    + intros t Ht. unfold cancel_task. by rewrite bool_decide_false.
    + cbn. induction (xs_runData s) as [|[k v] rd IH]; [done|]. simpl. by destruct (decide (k = n)).
  - exists id. split_and!; [done..|]. cbn. destruct (map_get n (xs_runData s)); simpl; [by rewrite map_id|done].
Qed.

(** C24. A node that fails and is not to go on stops the loop: its run is recorded with the
    error and a status of error, after its earlier runs, and its entry is back on top of the
    stack, so that it can be run again. *)
Theorem failed_node_can_be_restarted (w : Workflow) (H : Host) (x : IExecuteData) (runIndex : nat) (startTime : Z) (executionIndex : nat)
    (a : Attempt) (pinned : bool) (error : ExecutionError) (s : ExecState) :
  let node := xs_heap s (xd_node x) in
  executionError a = Some error -> continuesOnError node = false -> nd_rewireOutputLogTo node = None ->
  runIndex = length (default [] (map_get (nd_name node) (xs_runData s))) ->
  exists s' taskData runs,
    record_and_queue w H x runIndex startTime executionIndex a pinned s = (LoopStop, s') /\
    xs_stack s' = x :: xs_stack s /\ map_get (nd_name node) (xs_runData s') = Some (runs ++ [taskData]) /\
    map td_data runs = map td_data (default [] (map_get (nd_name node) (xs_runData s))) /\ td_error taskData = Some error /\
    (td_executionStatus taskData = Some st_error) /\ td_data taskData = None /\ xs_waiting s' = xs_waiting s.
Proof.
  cbv zeta. set (node := xs_heap s (xd_node x)). set (name := nd_name node). intros Ha Hgo Hlog Hr.
  unfold record_and_queue. cbv zeta. fold node. fold name. rewrite Ha. set (s1 := if map_has _ _ then s else _).
  assert (map td_data (default [] (map_get name (xs_runData s1))) = map td_data (default [] (map_get name (xs_runData s))) /\
    xs_heap s1 = xs_heap s /\ xs_stack s1 = xs_stack s /\ xs_waiting s1 = xs_waiting s) as (Hruns & Hheap & Hstk & Hwt).
  { subst s1. unfold map_has. destruct (map_get name (xs_runData s)) eqn:Hg; simpl; [by rewrite Hg|]. by rewrite map_get_set_eq. }
  set (t := createTaskData _ _ _ _ _ _). unfold handleNodeExecutionError.
  set (s2 := run_hook H (SendChunkError _ _) s1). rewrite Hheap. fold node. rewrite Hgo, Hlog. simpl.
  assert (view s2 = view s1) as Hv by (by apply view_run_hook).
  unfold rewireOutputLog. rewrite Hlog. simpl. set (s3 := set_stack _ _).
  set (t' := set_task_error error t). fold name.
  assert (map_get name (xs_runData s3) = Some (default [] (map_get name (xs_runData s2)) ++ [t'])) as H3.
  { unfold s3, upsertTaskData. cbn [xs_runData set_stack set_runData]. rewrite map_get_set_eq. f_equal.
    rewrite lookup_ge_None_2; [done|].
    rewrite Hr. rewrite <- (length_map td_data (default [] (map_get name (xs_runData s2)))).
    rewrite <- (length_map td_data (default [] (map_get name (xs_runData s)))), <- Hruns.
    destruct (hook_runs H (SendChunkError (nd_name (xs_heap s1 (xd_node x))) runIndex) s1 name) as (f & Hf & _ & E). fold s2 in E.
    rewrite E. destruct (map_get name (xs_runData s1)); simpl; [|done]. by rewrite map_map, (map_ext _ _ Hf). }
  assert (map td_data (default [] (map_get name (xs_runData s2))) = map td_data (default [] (map_get name (xs_runData s)))) as H2.
  { rewrite <- Hruns. destruct (hook_runs H (SendChunkError (nd_name (xs_heap s1 (xd_node x))) runIndex) s1 name) as (f & Hf & _ & E).
    fold s2 in E. rewrite E. destruct (map_get name (xs_runData s1)); simpl; [|done]. by rewrite map_map, (map_ext _ _ Hf). }
  assert (xs_stack s3 = x :: xs_stack s /\ xs_waiting s3 = xs_waiting s) as [Hs3 Hw3].
  { injection Hv as E1 E2 _ _ _ _ _ _. cbn. split; congruence. }
  change (xs_aborted s2) with (xs_aborted s3). destruct (xs_aborted s3).
  - exists s3, t', (default [] (map_get name (xs_runData s2))). split_and!; done.
  - set (ev := NodeExecuteAfter name t'). destruct (hook_runs H ev s3 name) as (f & Hf & Hid & E).
    exists (run_hook H ev s3), t', (map f (default [] (map_get name (xs_runData s2)))).
    assert (view (run_hook H ev s3) = view s3) as Hv3 by (by apply view_run_hook).
    pose proof (f_equal v_stack Hv3) as E1. pose proof (f_equal v_waiting Hv3) as E2. cbn [v_stack v_waiting view] in E1, E2.
    split_and!; [done|by rewrite E1| | |done..|by rewrite E2].
    + rewrite E, H3. simpl. rewrite map_app. simpl. by rewrite (Hid t').
    + rewrite map_map, (map_ext _ _ Hf). exact H2.
Qed.

Definition no_data_attempt (error : ExecutionError) : Attempt :=
  {| nodeSuccessData := None; executionError := Some error; hints := []; actionResponses := [] |}.

Lemma failed_node_can_be_restarted_witness :
  exists s' taskData runs,
    record_and_queue retried_workflow throwing_host (first_entry retried_start) 0 0%Z 0 (no_data_attempt (user_error "no")) false retried_start =
      (LoopStop, s') /\
    xs_stack s' = first_entry retried_start :: xs_stack retried_start /\ map_get "T" (xs_runData s') = Some (runs ++ [taskData]) /\
    map td_data runs = [] /\ td_error taskData = Some (user_error "no") /\
    (td_executionStatus taskData = Some st_error) /\ td_data taskData = None /\ xs_waiting s' = xs_waiting retried_start.
Proof.
  exact (failed_node_can_be_restarted retried_workflow throwing_host (first_entry retried_start) 0 0%Z 0
    (no_data_attempt (user_error "no")) false (user_error "no") retried_start eq_refl eq_refl eq_refl eq_refl).
Defined.

(** *** Errors of items *)

Lemma split_items_spec H x items ok errs :
  split_items H x items = inr (ok, errs) ->
  ok = filter (fun item => item_error item = false) items /\
  Forall2 (fun item e => error_item H x item = inr e) (filter (fun item => item_error item = true) items) errs.
Proof.
  revert ok errs. induction items as [|item items IH]; intros ok errs; simpl; [by intros [= <- <-]|].
  destruct (item_error item) eqn:He.
  - destruct (error_item H x item) as [?|e] eqn:Hi; [done|]. destruct (split_items H x items) as [?|[ok' errs']]; [done|].
    intros [= <- <-]. destruct (IH _ _ eq_refl) as [-> Hf]. rewrite filter_cons_False, filter_cons_True by congruence.
    split; [done|by constructor].
  - destruct (split_items H x items) as [?|[ok' errs']]; [done|].
    intros [= <- <-]. destruct (IH _ _ eq_refl) as [-> Hf]. rewrite filter_cons_True, filter_cons_False by congruence. done.
Qed.

Lemma bind_fmap_list {A B C} (f : A -> B) (g : B -> list C) l : (x ← f <$> l; g x) = (x ← l; g (f x)).
Proof. induction l as [|a l IH]; [done|]. rewrite fmap_cons, !bind_cons. by rewrite IH. Qed.

Lemma items_at_tail data i : items_at (tail data) i = items_at data (S i).
Proof. unfold items_at. by destruct data. Qed.

Lemma split_outputs_spec H x n data oks errs :
  split_outputs H x n data = inr (oks, errs) ->
  length oks = n /\
  (forall i, i < n -> items_at oks i = Some (filter (fun item => item_error item = false) (default [] (items_at data i)))) /\
  Forall2 (fun item e => error_item H x item = inr e)
    (i ← seq 0 n; filter (fun item => item_error item = true) (default [] (items_at data i))) errs.
Proof.
  revert data oks errs. induction n as [|n IH]; intros data oks errs; simpl.
  { intros [= <- <-]. split_and!; [done|lia|constructor]. }
  destruct (split_items H x _) as [?|[ok es]] eqn:Hs; [done|]. destruct (split_outputs H x n (tail data)) as [?|[oks' errs']] eqn:Ho; [done|].
  intros [= <- <-]. destruct (split_items_spec _ _ _ _ _ Hs) as [-> Hes]. destruct (IH _ _ _ Ho) as (Hlen & Hi & Herrs).
  split_and!; [simpl; lia| |].
  - intros [|i] Hlt; [done|]. change (items_at (?a :: oks') (S i)) with (items_at oks' i). rewrite Hi by lia. by rewrite items_at_tail.
  - apply Forall2_app; [done|]. revert Herrs. rewrite <- fmap_S_seq, bind_fmap_list.
    erewrite list_bind_ext; [intros Hf; exact Hf| |done]. intros i. simpl. by rewrite items_at_tail.
Qed.

(** C28. Routing items to the error output loses none and keeps their order: each output
    keeps its items without an error, and the error output, the last, gets one item for each
    item with an error, output by output. *)
Theorem error_output_keeps_every_item (H : Host) (x : IExecuteData) (last : nat) (data result : list Slot) :
  handleNodeErrorOutput H x (S last) data = inr result ->
  (forall i, i < last -> items_at result i = Some (filter (fun item => item_error item = false) (default [] (items_at data i)))) /\
  exists errors, items_at result last = Some errors /\
    Forall2 (fun item e => error_item H x item = inr e)
      (i ← seq 0 last; filter (fun item => item_error item = true) (default [] (items_at data i))) errors.
Proof.
  unfold handleNodeErrorOutput. destruct (split_outputs H x last data) as [?|[oks errs]] eqn:Hs; [done|]. intros [= <-].
  destruct (split_outputs_spec _ _ _ _ _ _ Hs) as (Hlen & Hok & Herr). split.
  - intros i Hi. rewrite <- Hok by done. unfold items_at. by rewrite lookup_app_l by lia.
  - exists errs. split; [|done]. unfold items_at. rewrite lookup_app_r by lia. by rewrite Hlen, Nat.sub_diag.
Qed.

Definition plain_item (json : list (string * JsonValue)) : INodeExecutionData :=
  {| it_json := json; it_error := None; it_pairedItem := NoPair; it_rest := [] |}.

(** An item with an error between two without. *)
Lemma error_output_keeps_every_item_witness :
  let ok := plain_item [("id"%string, JNum 1)] in
  let bad := plain_item [("error"%string, JStr "no")] in
  handleNodeErrorOutput echo_host (first_entry sample_start) 2 [Some [ok; bad; ok]] = inr [Some [ok; ok]; Some [bad]] /\
  (forall i, i < 1 -> items_at [Some [ok; ok]; Some [bad]] i =
     Some (filter (fun item => item_error item = false) (default [] (items_at [Some [ok; bad; ok]] i)))).
Proof.
  cbv zeta. set (ok := plain_item _). set (bad := plain_item _).
  assert (handleNodeErrorOutput echo_host (first_entry sample_start) 2 [Some [ok; bad; ok]] = inr [Some [ok; ok]; Some [bad]]) as Hr by reflexivity.
  split; [exact Hr|]. exact (proj1 (error_output_keeps_every_item echo_host (first_entry sample_start) 1 _ _ Hr)).
Defined.


(** ** Data and termination *)

(** C4. What a node is given is what was put out for it, in an execution of order v1 in which
    no node makes an engine request (agents ask for tools, and the entries of those hold
    merged data) and whose start is sound: no node logs its output elsewhere
    ([rewireOutputLogTo]), the nodes' names are the workflow's, and what is queued or waits
    already names its sources rightly.  At any point between two iterations each input of an
    entry on the stack that has a source holds the items that the run of that source put out
    on that output; and an entry for a node of several inputs that came from other nodes has
    data for each of them.  (Connections lead to inputs their nodes have.) *)
Theorem queued_data_is_what_was_put_out (w : Workflow) (H : Host) (s s' : ExecState) (x : IExecuteData) (sources : list (option ISourceData)) :
  isLegacyExecutionOrder w = false -> inputs_ok w -> asks_nothing H ->
  Sound w (outputs_of (xs_runData s)) s -> goes_through w H s s' ->
  x ∈ xs_stack s' -> xd_source x = Some sources ->
  (forall i src, sources !! i = Some (Some src) ->
     exists output runIndex items, previousNodeOutput src = Some output /\ previousNodeRun src = Some runIndex /\
       items_at (main_of (xd_data x)) i = Some items /\
       run_output (xs_runData s') (previousNode src) runIndex output = Some items) /\
  (1 < inputs_of w (nd_name (xs_heap s' (xd_node x))) ->
     inputs_of w (nd_name (xs_heap s' (xd_node x))) <= length (main_of (xd_data x)) /\ Forall is_Some (main_of (xd_data x))).
Proof.
  intros Hv1 Hin Hasks Hs Hr Hx Hsrc. apply (sound_goes_through w H Hv1 Hin Hasks _ _ Hs) in Hr.
  pose proof (so_stack _ _ _ Hr) as Hall. rewrite Forall_forall in Hall. destruct (Hall x Hx) as [_ _ Hd Hj]. split.
  - intros i src Hi. destruct (Hd _ _ _ Hsrc Hi) as (out & run & Ho & Hrun & [items Hit] & Heq). exists out, run, items.
    split_and!; [done..|]. rewrite <- Hit, Heq. symmetry. apply output_at_run.
  - intros Hgt. apply Hj; [by rewrite Hsrc|done].
Qed.

Lemma queued_data_is_what_was_put_out_witness :
  exists s x sources, goes_through sample_workflow echo_host sample_start s /\ x ∈ xs_stack s /\ xd_source x = Some sources /\
    (forall i src, sources !! i = Some (Some src) ->
       exists output runIndex items, previousNodeOutput src = Some output /\ previousNodeRun src = Some runIndex /\
         items_at (main_of (xd_data x)) i = Some items /\
         run_output (xs_runData s) (previousNode src) runIndex output = Some items) /\
    length sources = 2.
Proof.
  set (s4 := state_after sample_workflow echo_host 4 sample_start).
  assert (goes_through sample_workflow echo_host sample_start s4) as Hr by (apply goes_through_after; vm_compute; reflexivity).
  destruct (xs_stack s4) as [|x rest] eqn:Hx; [vm_compute in Hx; discriminate Hx|].
  destruct (xd_source x) as [sources|] eqn:Hs; [|exfalso; vm_compute in Hx; injection Hx as <- <-; vm_compute in Hs; discriminate Hs].
  exists s4, x, sources. split; [exact Hr|]. assert (x ∈ xs_stack s4) as Hin by (rewrite Hx; left). split; [exact Hin|]. split; [exact Hs|]. split.
  - exact (proj1 (queued_data_is_what_was_put_out sample_workflow echo_host sample_start s4 x sources
      eq_refl sample_inputs (echo_asks_nothing _) sample_sound Hr Hin Hs)).
  - vm_compute in Hx. injection Hx as <- <-. vm_compute in Hs. injection Hs as <-. reflexivity.
Defined.




