(* ===== verification/ExecCases.v ===== *)
(** * The v1 execution engine: cases

    Executions that come out differently from what the code around them says. *)

From stdpp Require Import base gmap strings pretty list list_numbers fin_maps sorting.
From Stdlib Require Import ZArith QArith_base Qround Lia.
From S2P Require Import Prelude.
From S2P Require Import JsCollections.
From S2P Require Import EngineTypes.
From S2P Require Import Workflow.
From S2P Require Import ExecTypes.
From S2P Require Import ExecAdd.
From S2P Require Import ExecNode.
From S2P Require Import ExecOutput.
From S2P Require Import ExecLoop.
From S2P Require Import ExecData.
From S2P Require Import ExecRun.

#[local] Close Scope Q_scope.

#[local] Open Scope string_scope.
#[local] Open Scope list_scope.

Definition item (n : Z) : INodeExecutionData := {| it_json := [("id", JNum n)]; it_error := None; it_pairedItem := NoPair; it_rest := [] |}.

(** ** Data that waits and is overwritten *)

(** The first input of the node that joins gets data twice, the second input once, and the
    first input once more: the entry for the second delivery is overwritten by the last. *)
Definition deliver (s : ExecState) (p : string * nat * Z) : ExecState :=
  let '(from, index, n) := p in
  addNodeToBeExecuted sample_workflow (to_input "M" index) 0 from [Some [item n]] 0 None None s.

Example waiting_data_is_overwritten :
  let s := foldl deliver (set_stack [] sample_start) [("B", 0, 1%Z); ("B", 0, 2%Z); ("C", 1, 3%Z); ("B", 0, 4%Z)] in
  ((fun x => main_of (xd_data x)) <$> xs_stack s = [[Some [item 1]; Some [item 3]]]) /\
  (prod_map id map_to_list <$> xs_waiting s = [("M", [(1, [Some [item 4]; None])])]).
Proof. vm_compute. split; reflexivity. Qed.

(** ** The earliest index that waits *)

Example indexes_compare_as_strings :
  firstRunIndex (<[2 := [Some [item 1]]]> (<[10 := [Some [item 2]]]> ∅)) = Some 10.
Proof. vm_compute. reflexivity. Qed.

(** ** A node that continues after an error, run last *)

Definition continuing_node : INode :=
  {| nd_name := "A"; nd_type := "a"; nd_position := (1, 0)%Z; nd_disabled := Some false; nd_retryOnFail := false; nd_maxTries := None;
     nd_waitBetweenTries := None; nd_alwaysOutputData := false; nd_executeOnce := false; nd_onError := Some "continueRegularOutput";
     nd_continueOnFail := false; nd_rewireOutputLogTo := None |}.

(** The node A throws. *)
Definition a_throws (moment : nat) (call : NodeCall) : NodeOutcome :=
  if bool_decide (nd_name (nc_node call) = "A") then {| no_result := Throws (user_error "no"); no_waitTill := None |} else echo moment call.

Definition continuing_nodes (last : bool) : list INode :=
  [plain_node "T" "n8n-nodes-base.manualTrigger" (0, 0)%Z; continuing_node] ++ (if last then [] else [plain_node "B" "b" (2, 0)%Z]).

Definition continuing_workflow (last : bool) : Workflow :=
  new_workflow (continuing_nodes last)
    ([("T", [(Main, [Some [to_input "A" 0]])])] ++ if last then [] else [("A", [(Main, [Some [to_input "B" 0]])])]) (Some "v1").

(** It continues: with a node after it the execution succeeds, and without one it ends in
    error. *)
Example continued_error_ends_in_error :
  let H := sample_host a_throws (fun _ => false) in
  outcome (processRunExecutionData (continuing_workflow false) H 10 (start_state (continuing_workflow false) H (continuing_nodes false) None)) =
    Some (st_success, [("T", 1); ("A", 1); ("B", 1)]) /\
  outcome (processRunExecutionData (continuing_workflow true) H 10 (start_state (continuing_workflow true) H (continuing_nodes true) None)) =
    Some (st_error, [("T", 1); ("A", 1)]).
Proof. vm_compute. split; reflexivity. Qed.

(** ** A node left out by the filter, run last *)

(** A branching node with data on its first output: the destination joins both branches, and
    [L] is a leaf of the first. *)
Definition leaf_nodes : list INode :=
  [plain_node "T" "n8n-nodes-base.manualTrigger" (0, 0)%Z; plain_node "A" "a" (1, 0)%Z; plain_node "C" "c" (2, 1)%Z;
   plain_node "M" "m" (3, 0)%Z; plain_node "L" "l" (3, 5)%Z].

Definition leaf_workflow (leaf : bool) : Workflow :=
  new_workflow leaf_nodes
    [("T", [(Main, [Some [to_input "A" 0]])]);
     ("A", [(Main, [Some (to_input "M" 0 :: if leaf then [to_input "L" 0] else []); Some [to_input "C" 0]])]);
     ("C", [(Main, [Some [to_input "M" 1]])])] (Some "v1").

Definition branches (moment : nat) (call : NodeCall) : NodeOutcome :=
  if bool_decide (nd_name (nc_node call) = "A") then returns [Some [item 1]; Some []] else echo moment call.

Definition leaf_outcome (leaf : bool) : option (ExecStatus * list (string * nat)) :=
  let H := sample_host branches (fun _ => false) in
  outcome (processRunExecutionData (leaf_workflow leaf) H 10
    (start_state (leaf_workflow leaf) H leaf_nodes (Some {| ds_nodeName := "M"; ds_mode := inclusive |}))).

(** The leaf is not run; but that it is there keeps the destination from running. *)
Example filtered_leaf_hides_the_destination :
  leaf_outcome false = Some (st_success, [("T", 1); ("A", 1); ("M", 1)]) /\
  leaf_outcome true = Some (st_success, [("T", 1); ("A", 1)]).
Proof. vm_compute. split; reflexivity. Qed.

(** ** A node that waits and returns nothing *)

Definition waits (moment : nat) (call : NodeCall) : NodeOutcome := {| no_result := Returns None []; no_waitTill := Some 100%Z |}.

Definition result_error (r : option ProcessResult) : option (ExecStatus * option ExecutionError) :=
  match r with Some (Processed r) => Some (ir_status r, xs_resultError (ir_data r)) | _ => None end.

Example waiting_without_data_crashes :
  let H := sample_host waits (fun _ => false) in
  result_error (processRunExecutionData sample_workflow H 10 (start_state sample_workflow H sample_nodes None)) =
    Some (st_running, Some (type_error "")).
Proof. vm_compute. reflexivity. Qed.

(** ** Retries *)

Definition retrying (name : string) : INode :=
  {| nd_name := name; nd_type := "t"; nd_position := (0, 0)%Z; nd_disabled := Some false; nd_retryOnFail := true; nd_maxTries := Some 3%Q;
     nd_waitBetweenTries := None; nd_alwaysOutputData := false; nd_executeOnce := false; nd_onError := None;
     nd_continueOnFail := false; nd_rewireOutputLogTo := None |}.

Definition retrying_workflow : Workflow := new_workflow [retrying "T"] [] (Some "v1").

(** By turns an item with an error, and a throw. *)
Definition soft_then_throws (moment : nat) (call : NodeCall) : NodeOutcome :=
  if Nat.eqb (moment mod 4) 2 then returns [Some [{| it_json := [("error", JStr "no")]; it_error := None; it_pairedItem := NoPair; it_rest := [] |}]]
  else {| no_result := Throws (user_error "no"); no_waitTill := None |}.

Definition calls_of (r : option ProcessResult) : option nat := match r with Some (Processed r) => Some (xs_calls (ir_data r)) | _ => None end.

(** [maxTries] is 3, and the node is called five times. *)
Example tries_exceed_maxTries :
  let H := sample_host soft_then_throws (fun _ => false) in
  calls_of (processRunExecutionData retrying_workflow H 10 (start_state retrying_workflow H [retrying "T"] None)) = Some 5.
Proof. vm_compute. reflexivity. Qed.

(** An agent that asked for one node throws at its first try with the result. *)
Definition one_action : EngineAction :=
  {| ac_nodeName := "tool"; ac_input := []; ac_type := "ai_tool"; ac_id := "1"; ac_metadata := None |}.

Definition throws_once (moment : nat) (call : NodeCall) : NodeOutcome :=
  match nc_responses call with
  | [_] => {| no_result := Throws (user_error "no"); no_waitTill := None |}
  | l => returns [Some [item (Z.of_nat (length l))]]
  end.

Definition resuming_entry : IExecuteData :=
  {| xd_node := 0; xd_data := [(Main, [Some [item 0]])]; xd_source := None; xd_runIndex := None;
     xd_metadata := Some {| md_resumeError := None; md_subExecution := None; md_forwardAllOutputs := false; md_nodeWasResumed := true;
                            md_subNodeExecutionData := Some ([{| sa_action := one_action; sa_nodeName := "tool"; sa_runIndex := 0 |}], JNull);
                            md_preserveSourceOverwrite := false; md_preservedSourceOverwrite := None |} |}.

Definition tool_ran (s : ExecState) : ExecState :=
  set_runData [("tool", [placeholder (source_from "T" 0 0) []])] s.

(** At its second try it is given the result twice. *)
Example retry_doubles_the_results :
  let H := sample_host throws_once (fun _ => false) in
  let s := tool_ran (start_state retrying_workflow H [retrying "T"] None) in
  let a := {| nodeSuccessData := None; executionError := None; hints := []; actionResponses := [] |} in
  ((fun d => map it_json <$> items_at d 0) <$> nodeSuccessData (run_tries retrying_workflow H 3 resuming_entry 0 3 0 0 a s).1.2) =
    Some (Some [[("id", JNum 2)]]).
Proof. vm_compute. reflexivity. Qed.

(** *** A number of tries that is not whole *)

Definition spinning_node : INode :=
  {| nd_name := "T"; nd_type := "t"; nd_position := (0, 0)%Z; nd_disabled := Some false; nd_retryOnFail := true; nd_maxTries := Some (5 # 2)%Q;
     nd_waitBetweenTries := None; nd_alwaysOutputData := false; nd_executeOnce := false; nd_onError := None;
     nd_continueOnFail := false; nd_rewireOutputLogTo := None |}.

Definition spinning_workflow : Workflow := new_workflow [spinning_node] [] (Some "v1").
Definition spinning_start : ExecState := start_state spinning_workflow echo_host [spinning_node] None.
Definition spinning_entry : IExecuteData :=
  {| xd_node := 0; xd_data := [(Main, [Some [item 0]])]; xd_source := None; xd_runIndex := None; xd_metadata := None |}.

Definition soft_failure : list Slot :=
  [Some [{| it_json := [("error", JStr "no")]; it_error := None; it_pairedItem := NoPair; it_rest := [] |}]].

(** A node whose first item always has an error. *)
Definition failing_host (fuel : nat) : Host :=
  {| host_run := fun _ _ => returns soft_failure; host_now := Z.of_nat; host_cancels := fun _ => false;
     host_nodeType := fun _ => executing_type 1; host_issues := fun _ => false; host_pairedItem := fun _ _ => inr None; host_init := None;
     host_timeout := None; host_manual := true; host_fuel := fuel |}.

Definition spins_on (s : ExecState) : Prop := xs_heap s 0 = spinning_node /\ xs_resultError s = None.

Lemma fractional_try_runs fuel responses s :
  spins_on s ->
  let '(r, s') := runNode spinning_workflow (failing_host fuel) spinning_entry 0 responses s in
  r = Returns (Some soft_failure) [] /\ spins_on s' /\ xs_calls s' = S (xs_calls s).
Proof.
  intros [Hh He]. unfold runNode. cbn [xd_node spinning_entry xd_metadata xd_data xd_source default md_resumeError no_metadata from_option id].
  rewrite Hh. cbn [disabled nd_disabled spinning_node default from_option id].
  assert (rethrowLastNodeError spinning_node s = None) as Hr by (unfold rethrowLastNodeError; rewrite He; by destruct (bool_decide _)).
  rewrite Hr. vm_compute in Hh. vm_compute in He |- *. by destruct s.
Qed.

Lemma fractional_try_is_not_last t : last_try (5 # 2) t = false.
Proof. unfold last_try. apply not_true_iff_false. rewrite Qeq_bool_iff. unfold Qeq. simpl. lia. Qed.

Lemma fractional_tries_go_on fuel n t s :
  spins_on s ->
  exists s', run_again spinning_workflow (failing_host fuel) n spinning_entry 0 (5 # 2) t (Returns (Some soft_failure) []) s = (None, n + t, s') /\
    xs_calls s' = n + xs_calls s.
Proof.
  revert t s. induction n as [|n IH]; intros t s Hs; simpl; rewrite fractional_try_is_not_last; simpl; [by exists s|].
  pose proof (fractional_try_runs fuel [] (await (failing_host fuel) s) Hs) as Hr.
  destruct (runNode _ _ _ _ _ (await _ s)) as [r s1]. destruct Hr as (-> & Hs1 & Hc). destruct (IH (S t) s1 Hs1) as (s' & -> & Hc').
  exists s'. split; [by rewrite Nat.add_succ_r|]. rewrite Hc', Hc. by rewrite Nat.add_succ_r.
Qed.

(** With a [maxTries] of 2.5 a node whose first item has an error is run again without end:
    whatever the fuel, it is all used. *)
Lemma fractional_tries_do_not_end fuel :
  exists s', run_entry spinning_workflow (failing_host fuel) spinning_entry 0 0%Z 0 spinning_start = (LoopSpins, s') /\ xs_calls s' = S fuel.
Proof.
  unfold run_entry. cbv zeta. cbn [md_nodeWasResumed xd_metadata spinning_entry default no_metadata from_option id].
  set (s1 := run_hook _ _ spinning_start). assert (spins_on s1 /\ xs_calls s1 = 0 /\ xs_pinData s1 = []) as (Hs1 & Hc1 & Hp1) by done.
  assert (getRetryParams (xs_heap spinning_start (xd_node spinning_entry)) spinning_entry = ((5 # 2)%Q, 1000%Q)) as -> by reflexivity.
  change (Z.to_nat (Qceiling (5 # 2))) with 3. clearbody s1. set (a := Build_Attempt _ _ _ _). simpl.
  unfold one_try. cbn [xd_node spinning_entry]. unfold getPinnedOutput. rewrite Hp1. rewrite (proj1 Hs1). cbn [disabled nd_disabled spinning_node default map_get fmap option_fmap option_map from_option id].
  cbv zeta. set (responses := actionResponses a ++ _). pose proof (fractional_try_runs fuel responses s1 Hs1) as Hr.
  fold spinning_entry. destruct (runNode _ _ _ _ responses s1) as [r s2]. destruct Hr as (-> & Hs2 & Hc2).
  change (host_fuel (failing_host fuel)) with fuel. destruct (fractional_tries_go_on fuel fuel 0 s2 Hs2) as (s3 & -> & Hc3). simpl.
  eexists. split; [reflexivity|]. cbn [xs_calls set_executionError]. rewrite Hc3, Hc2, Hc1. lia.
Qed.

(** *** The error of a paired item *)

(** [$getPairedItem] throws for an item with an error: so does the routing of the outputs,
    and the try fails. *)
Example paired_item_error_fails_the_try :
  let e := {| er_name := "ExpressionError"; er_message := "no"; er_description := None |} in
  let H := {| host_run := fun _ _ => returns []; host_now := Z.of_nat; host_cancels := fun _ => false;
              host_nodeType := fun _ => executing_type 1; host_issues := fun _ => false; host_pairedItem := fun _ _ => inl e;
              host_init := None; host_timeout := None; host_manual := true; host_fuel := 10 |} in
  let x := {| xd_node := 0; xd_data := [(Main, [Some [item 0]])]; xd_source := Some [Some (source_from "T" 0 0)]; xd_runIndex := None;
              xd_metadata := None |} in
  let bad := {| it_json := [("error", JStr "no")]; it_error := None; it_pairedItem := pair_to 0; it_rest := [] |} in
  handleNodeErrorOutput H x 2 [Some [item 1; bad]] = inl e.
Proof. reflexivity. Qed.

(** *** A cancellation during the last hook *)

(** It changes the execution, and not the status it is answered with. *)
Example cancelled_in_the_last_hook :
  let last := xs_moment (default sample_start (ir_data <$> processed (processRunExecutionData sample_workflow echo_host 10 sample_start))) in
  let H := sample_host echo (fun moment => Nat.eqb (S moment) last) in
  (fun r => (ir_status r, ir_finished r, xs_status (ir_data r), xs_aborted (ir_data r))) <$>
    processed (processRunExecutionData sample_workflow H 10 (start_state sample_workflow H sample_nodes None)) =
  Some (st_success, true, st_canceled, true).
Proof. vm_compute. reflexivity. Qed.

(** ** The source of a requested node *)

(** The source of an agent's input is looked up by the index of its run: at its second run it
    is not found, and the agent counts as its own parent. *)
Example requested_source_is_by_run :
  let s := set_heap (heap_of [retrying "T"]) (start_state retrying_workflow echo_host [retrying "T"] None) in
  let x := {| xd_node := 0; xd_data := [(Main, [Some [item 0]])]; xd_source := Some [Some (source_from "P" 0 4)]; xd_runIndex := None;
              xd_metadata := None |} in
  let action := {| ac_nodeName := "T"; ac_input := []; ac_type := "ai_tool"; ac_id := "1"; ac_metadata := None |} in
  let source_of r := match request_action retrying_workflow (retrying "T") r x action s with
                     | inr (n, _, _) => previousNode <$> md_preservedSourceOverwrite (ne_metadata n)
                     | inl _ => None
                     end in
  source_of 0 = Some "P" /\ source_of 1 = Some "T".
Proof. vm_compute. split; reflexivity. Qed.
