(* ===== verification/HistoryConnections.v ===== *)
(** * Workflow history: what changed between two sets of connections

    [packages/workflow/src/connections-diff.ts].  Both sides of the diff together say how to
    get from one set of connections to the other, output by output, and duplicates count.

    A connection is an object with its keys in one order, so that its serialization stands
    for it and the [Map] is keyed by the connection itself. *)

From stdpp Require Import base gmap strings list.
From Stdlib Require Import Lia.
From S2P Require Import Prelude.
From S2P Require Import JsCollections.
From S2P Require Import Workflow.

(** ** Data *)

(** [ConnectionEntry]; its [value] is never [null] in what is built here. *)
Record ConnectionEntry := { ce_sourceIndex : nat; ce_index : nat; ce_connection : IConnection }.

Notation INodeConnectionsDiff := (list (string * list ConnectionEntry)).

(** [Record<string, INodeConnectionsDiff>]. *)
Notation SideDiff := (list (string * INodeConnectionsDiff)).

Record ConnectionsDiff := { cd_added : SideDiff; cd_removed : SideDiff }.

Definition no_changes : ConnectionsDiff := {| cd_added := []; cd_removed := [] |}.

(** ** The diff *)

Definition group_one (byValue : list (IConnection * list (nat * IConnection))) (p : nat * IConnection) :
    list (IConnection * list (nat * IConnection)) :=
  map_set p.2 (default [] (map_get p.2 byValue) ++ [p]) byValue.

Definition groupByValue (connections : list IConnection) : list (IConnection * list (nat * IConnection)) :=
  foldl group_one [] (imap pair connections).

(** The entries of [to] beyond those [from] has as well. *)
Definition surplus (sourceIndex : nat) (from to : list (IConnection * list (nat * IConnection))) : list ConnectionEntry :=
  '(key, entries) ← to;
  value ← drop (length (default [] (map_get key from))) entries;
  [{| ce_sourceIndex := sourceIndex; ce_index := value.1; ce_connection := value.2 |}].

Definition push_entry (nodeName inputName : string) (side : SideDiff) (e : ConnectionEntry) : SideDiff :=
  map_update nodeName [] (map_update inputName [] (fun l => l ++ [e])) side.

(** The body of the three loops, for one output. *)
Definition compare_slot (prev next : IConnections) (d : ConnectionsDiff) (slot : string * string * nat) : ConnectionsDiff :=
  let '(nodeName, inputName, sourceIndex) := slot in
  let prevMap := groupByValue (at_output (of_type prev nodeName inputName) sourceIndex) in
  let nextMap := groupByValue (at_output (of_type next nodeName inputName) sourceIndex) in
  {| cd_added := foldl (push_entry nodeName inputName) (cd_added d) (surplus sourceIndex prevMap nextMap);
     cd_removed := foldl (push_entry nodeName inputName) (cd_removed d) (surplus sourceIndex nextMap prevMap) |}.

Definition input_names (prev next : IConnections) (nodeName : string) : list string :=
  set_of_list ((default [] (map_get nodeName prev)).*1 ++ (default [] (map_get nodeName next)).*1).

(** What the three loops go through. *)
Definition slots (prev next : IConnections) : list (string * string * nat) :=
  nodeName ← set_of_list (prev.*1 ++ next.*1);
  inputName ← input_names prev next nodeName;
  sourceIndex ← seq 0 (length (of_type prev nodeName inputName) `max` length (of_type next nodeName inputName));
  [(nodeName, inputName, sourceIndex)].

Definition compareConnections (prev next : IConnections) : ConnectionsDiff :=
  foldl (compare_slot prev next) no_changes (slots prev next).

(** ** What it holds *)

(** The connections a side lists for one output. *)
Definition listed (side : SideDiff) (nodeName inputName : string) (sourceIndex : nat) : list IConnection :=
  ce_connection <$>
    filter (fun e => ce_sourceIndex e = sourceIndex) (default [] (map_get nodeName side ≫= map_get inputName)).

Definition connections_at (cs : IConnections) (nodeName inputName : string) (sourceIndex : nat) : list IConnection :=
  at_output (of_type cs nodeName inputName) sourceIndex.

Notation count c l := (count_occ IConnection_eq_dec l c).

Lemma group_fold_get (c : IConnection) ps m :
  default [] (map_get c (foldl group_one m ps)) = default [] (map_get c m) ++ filter (fun p => p.2 = c) ps.
Proof.
  revert m. induction ps as [|p ps IH]; intros m; [by rewrite app_nil_r|].
  cbn [foldl]. rewrite IH. unfold group_one. rewrite map_get_set, filter_cons.
  destruct (decide (p.2 = c)) as [->|]; simpl; [by rewrite <- app_assoc|done].
Qed.

Lemma group_fold_keys ps m : NoDup m.*1 -> NoDup (foldl group_one m ps).*1.
Proof. revert m. induction ps as [|p ps IH]; intros m Hm; [done|]. by apply IH, map_set_NoDup. Qed.

Lemma imap_count (c : IConnection) l k :
  length (filter (fun p : nat * IConnection => p.2 = c) (imap (fun i x => (k + i, x)) l)) = count c l.
Proof.
  revert k. induction l as [|x l IH]; intros k; [done|]. cbn [imap count_occ]. rewrite filter_cons. cbn [snd].
  rewrite (imap_ext _ (fun i y => (S k + i, y))) by (intros; simpl; f_equal; lia).
  destruct (IConnection_eq_dec x c), (decide (x = c)); simplify_eq; simpl; rewrite <- (IH (S k)); done.
Qed.

Lemma groupByValue_count c l : length (default [] (map_get c (groupByValue l))) = count c l.
Proof. unfold groupByValue. rewrite group_fold_get. simpl. apply (imap_count c l 0). Qed.

(** Each group holds occurrences of its key. *)
Lemma groupByValue_key c l es p : map_get c (groupByValue l) = Some es -> p ∈ es -> p.2 = c.
Proof.
  intros Hg Hp. pose proof (group_fold_get c (imap pair l) []) as H. unfold groupByValue in Hg. rewrite Hg in H.
  simpl in H. subst es. by apply list_elem_of_filter in Hp as [? _].
Qed.

Lemma surplus_count_aux (f : IConnection -> nat) (c : IConnection) s (m : list (IConnection * list (nat * IConnection))) :
  NoDup m.*1 -> (forall k es p, (k, es) ∈ m -> p ∈ es -> p.2 = k) ->
  count c (ce_connection <$> ('(key, entries) ← m; value ← drop (f key) entries;
                              [{| ce_sourceIndex := s; ce_index := value.1; ce_connection := value.2 |}])) =
  length (default [] (map_get c m)) - f c.
Proof.
  assert (forall l, ce_connection <$> (value ← l; [{| ce_sourceIndex := s; ce_index := value.1; ce_connection := value.2 |}]) = l.*2)
    as Hsnd by (induction l as [|x l IHl]; [done|]; cbn; by rewrite <- IHl).
  assert (forall k (l : list (nat * IConnection)), (forall p, p ∈ l -> p.2 = k) ->
            count c l.*2 = if decide (k = c) then length l else 0) as Hcount.
  { intros k l. induction l as [|x l IHl]; intros Hk; [by destruct (decide _)|]. cbn [fmap list_fmap count_occ].
    rewrite IHl by set_solver. rewrite (Hk x) by left.
    destruct (IConnection_eq_dec k c), (decide (k = c)); done. }
  induction m as [|[k es] m IH]; intros Hnd Hk; [done|]. apply NoDup_cons in Hnd as [Hni Hnd].
  cbn [mbind list_bind]. rewrite fmap_app, count_occ_app, IH by (done || (intros; eapply Hk; [by right|done])).
  rewrite Hsnd, (Hcount k)
    by (intros p Hp; eapply Hk; [by left|]; rewrite <- (take_drop (f k) es), elem_of_app; by right).
  simpl. destruct (decide (k = c)) as [->|]; [|done]. rewrite length_drop.
  rewrite (proj2 (map_get_None c m)) by done. simpl. lia.
Qed.

Lemma surplus_count c s from to :
  count c (ce_connection <$> surplus s (groupByValue from) (groupByValue to)) = count c to - count c from.
Proof.
  unfold surplus. rewrite (surplus_count_aux (fun key => length (default [] (map_get key (groupByValue from))))).
  - by rewrite !groupByValue_count.
  - by apply group_fold_keys, NoDup_nil_2.
  - intros k es p Hk Hp. eapply groupByValue_key; [|exact Hp].
    apply elem_of_map_get; [by apply group_fold_keys, NoDup_nil_2|exact Hk].
Qed.

Lemma surplus_index s from to e : e ∈ surplus s from to -> ce_sourceIndex e = s.
Proof.
  unfold surplus. intros [[k es] [He _]]%list_elem_of_bind. by apply list_elem_of_bind in He as (v & ->%list_elem_of_singleton & _).
Qed.

Lemma listed_push n i e side n' i' s :
  listed (push_entry n i side e) n' i' s =
  listed side n' i' s ++ (if decide (n = n' /\ i = i' /\ ce_sourceIndex e = s) then [ce_connection e] else []).
Proof.
  unfold listed, push_entry, map_update. rewrite map_get_set. destruct (decide (n = n')) as [->|].
  - simpl. rewrite map_get_set. destruct (decide (i = i')) as [->|].
    + simpl. rewrite filter_app, fmap_app, filter_cons, filter_nil. do 2 f_equal.
      * by destruct (map_get n' side).
      * repeat case_decide; naive_solver.
    + rewrite decide_False by naive_solver. rewrite app_nil_r. by destruct (map_get n' side).
  - rewrite decide_False by naive_solver. by rewrite app_nil_r.
Qed.

Lemma listed_push_all n i es side n' i' s :
  (forall e, e ∈ es -> ce_sourceIndex e = s) ->
  forall s', listed (foldl (push_entry n i) side es) n' i' s' =
  listed side n' i' s' ++ (if decide ((n, i, s) = (n', i', s')) then ce_connection <$> es else []).
Proof.
  intros Hs s'. revert side Hs. induction es as [|e es IH]; intros side Hs; [by destruct (decide _); rewrite app_nil_r|].
  cbn [foldl]. rewrite IH, listed_push, <- app_assoc by set_solver. f_equal.
  rewrite (Hs e) by left. repeat case_decide; simplify_eq; naive_solver.
Qed.

Section compared.
Context (prev next : IConnections).

Notation group cs n i s := (groupByValue (connections_at cs n i s)).

Lemma listed_fold ss d n i s :
  NoDup ss ->
  let d' := foldl (compare_slot prev next) d ss in
  listed (cd_added d') n i s = listed (cd_added d) n i s ++
    (if decide ((n, i, s) ∈ ss) then ce_connection <$> surplus s (group prev n i s) (group next n i s) else []) /\
  listed (cd_removed d') n i s = listed (cd_removed d) n i s ++
    (if decide ((n, i, s) ∈ ss) then ce_connection <$> surplus s (group next n i s) (group prev n i s) else []).
Proof.
  revert d. induction ss as [|[[n' i'] s'] ss IH]; intros d; [by rewrite !app_nil_r|].
  intros [Hni Hnd]%NoDup_cons. cbv zeta. cbn [foldl]. destruct (IH (compare_slot prev next d (n', i', s')) Hnd) as [-> ->].
  unfold compare_slot. cbn [cd_added cd_removed].
  rewrite !(listed_push_all n' i' _ _ n i s') by (intros e He; by apply surplus_index in He).
  destruct (decide ((n', i', s') = (n, i, s))) as [Heq|Hne].
  - injection Heq as <- <- <-. rewrite !(decide_False (P := _ ∈ ss)) by done. rewrite !decide_True by (by left).
    by rewrite !app_nil_r.
  - rewrite !app_nil_r. destruct (decide ((n, i, s) ∈ ss)) as [Hin|Hnin].
    + by rewrite !decide_True by (by right).
    + rewrite !decide_False by (rewrite elem_of_cons; naive_solver). by rewrite !app_nil_r.
Qed.

Lemma slots_NoDup : NoDup (slots prev next).
Proof.
  unfold slots. apply NoDup_bind; [|intros n _; apply NoDup_bind|apply set_of_list_NoDup].
  - assert (forall n y, y ∈ (i ← input_names prev next n;
        s ← seq 0 (length (of_type prev n i) `max` length (of_type next n i)); [(n, i, s)]) -> y.1.1 = n) as Hn.
    { intros n y (i & Hy & _)%list_elem_of_bind. apply list_elem_of_bind in Hy as (s & Hy & _). by apply list_elem_of_singleton in Hy as ->. }
    intros n1 n2 y _ _ H1%Hn H2%Hn. congruence.
  - assert (forall i y, y ∈ (s ← seq 0 (length (of_type prev n i) `max` length (of_type next n i)); [(n, i, s)]) -> y.1.2 = i) as Hi.
    { intros i y (s & Hy & _)%list_elem_of_bind. by apply list_elem_of_singleton in Hy as ->. }
    intros i1 i2 y _ _ H1%Hi H2%Hi. congruence.
  - intros i _. apply NoDup_bind; [|intros; apply NoDup_singleton|apply NoDup_seq].
    intros s1 s2 y _ _ H1%list_elem_of_singleton H2%list_elem_of_singleton. congruence.
  - apply set_of_list_NoDup.
Qed.

(** An output that the loops do not visit has no connections on either side. *)
Lemma slots_cover n i s :
  (n, i, s) ∉ slots prev next -> connections_at prev n i s = [] /\ connections_at next n i s = [].
Proof.
  intros Hni.
  assert (forall cs, cs = prev \/ cs = next -> connections_at cs n i s = []) as H; [|by split; apply H; auto].
  intros cs Hcs. unfold connections_at, at_output. destruct (of_type cs n i !! s) as [o|] eqn:Ho; [|done].
  exfalso. apply Hni. unfold slots. apply list_elem_of_bind. exists n.
  assert (is_Some (map_get n cs) /\ is_Some (map_get n cs ≫= map_get i)) as [[byType Hn] [l Hi]].
  { unfold of_type in Ho. destruct (map_get n cs); [|done]. destruct (_ ≫= _) eqn:E; [|done]. by split; eexists. }
  rewrite Hn in Hi. simpl in Hi.
  assert (n ∈ cs.*1) as Hn1 by (destruct (decide (n ∈ cs.*1)) as [|?%map_get_None]; [done|congruence]).
  assert (i ∈ byType.*1) as Hi1 by (destruct (decide (i ∈ byType.*1)) as [|?%map_get_None]; [done|congruence]).
  apply lookup_lt_Some in Ho. split.
  - apply list_elem_of_bind. exists i. split.
    + apply list_elem_of_bind. exists s. split; [by left|]. apply elem_of_seq. destruct Hcs as [->| ->]; lia.
    + unfold input_names. apply elem_of_set_of_list, elem_of_app. destruct Hcs as [->| ->]; rewrite Hn; simpl; auto.
  - apply elem_of_set_of_list, elem_of_app. destruct Hcs as [->| ->]; auto.
Qed.

(** How often a connection is listed on each side. *)
Lemma listed_count n i s c :
  let d := compareConnections prev next in
  count c (listed (cd_added d) n i s) = count c (connections_at next n i s) - count c (connections_at prev n i s) /\
  count c (listed (cd_removed d) n i s) = count c (connections_at prev n i s) - count c (connections_at next n i s).
Proof.
  cbv zeta. unfold compareConnections. destruct (listed_fold (slots prev next) no_changes n i s slots_NoDup) as [-> ->].
  change (listed (cd_added no_changes) n i s) with (@nil IConnection).
  change (listed (cd_removed no_changes) n i s) with (@nil IConnection). rewrite !app_nil_l.
  destruct (decide _) as [Hin|Hni]; [by rewrite !surplus_count|].
  destruct (slots_cover _ _ _ Hni) as [-> ->]. done.
Qed.

Lemma listed_permutation n i s :
  let d := compareConnections prev next in
  connections_at prev n i s ++ listed (cd_added d) n i s ≡ₚ connections_at next n i s ++ listed (cd_removed d) n i s.
Proof.
  cbv zeta. apply (Permutation_count_occ IConnection_eq_dec). intros c. rewrite !count_occ_app.
  destruct (listed_count n i s c) as [-> ->]. lia.
Qed.

(** C37. The two sides of a diff of connections are exact: at every output, the old
    connections with the added ones are the new connections with the removed ones, however
    often each occurs, and no connection is listed on both sides. *)
Theorem compareConnections_exact n i s :
  let d := compareConnections prev next in
  connections_at prev n i s ++ listed (cd_added d) n i s ≡ₚ connections_at next n i s ++ listed (cd_removed d) n i s /\
  forall c, ~ (c ∈ listed (cd_added d) n i s /\ c ∈ listed (cd_removed d) n i s).
Proof.
  cbv zeta. split; [apply listed_permutation|].
  intros c [Ha%list_elem_of_In Hr%list_elem_of_In]. apply (count_occ_In IConnection_eq_dec) in Ha, Hr.
  destruct (listed_count n i s c) as [HA HR]. rewrite HA in Ha. rewrite HR in Hr. lia.
Qed.

Lemma listed_nonempty_fold n' i' es side :
  foldl (push_entry n' i') side es = [] <-> side = [] /\ es = [].
Proof.
  revert side. induction es as [|e es IH]; intros side; [naive_solver|]. cbn [foldl]. rewrite IH. unfold push_entry, map_update.
  split; [|naive_solver]. intros [H _]. exfalso. destruct side as [|[k v] side]; simpl in H; [done|]. by destruct (decide _).
Qed.

(** A side is empty when it lists nothing at any output. *)
Lemma removed_empty :
  cd_removed (compareConnections prev next) = [] <->
  forall n i s, listed (cd_removed (compareConnections prev next)) n i s = [].
Proof.
  split; [by intros ->|]. unfold compareConnections. intros H.
  assert (forall n i s, (n, i, s) ∈ slots prev next -> surplus s (group next n i s) (group prev n i s) = []) as Hall.
  { intros n i s Hin. specialize (H n i s). destruct (listed_fold (slots prev next) no_changes n i s slots_NoDup) as [_ Hr].
    rewrite Hr, decide_True in H by done. apply app_nil in H as [_ H]. by apply fmap_nil_inv in H. }
  clear H. revert Hall. assert (cd_removed no_changes = []) as Hd by done. revert Hd. generalize no_changes.
  induction (slots prev next) as [|[[n i] s] ss IH]; intros d Hd Hall; [done|]. cbn [foldl]. apply IH.
  - cbn [compare_slot cd_removed]. apply listed_nonempty_fold. split; [done|]. apply (Hall n i s). by left.
  - intros n' i' s' Hin. apply Hall. by right.
Qed.

(** Nothing was removed when every output still has all of its connections. *)
Lemma removed_nothing :
  cd_removed (compareConnections prev next) = [] <->
  forall n i s, connections_at prev n i s ⊆+ connections_at next n i s.
Proof.
  rewrite removed_empty. split; intros H n i s.
  - pose proof (listed_permutation n i s) as Hp. cbv zeta in Hp. rewrite H, app_nil_r in Hp. rewrite <- Hp. by apply submseteq_inserts_r.
  - destruct (listed _ _ _ _) as [|c l] eqn:Hl; [done|]. exfalso. destruct (listed_count n i s c) as [_ Hc]. rewrite Hl in Hc.
    specialize (H n i s). apply submseteq_Permutation in H as [k Hk].
    apply (Permutation_count_occ IConnection_eq_dec) with (x := c) in Hk. rewrite count_occ_app in Hk.
    cbn [count_occ] in Hc. destruct (IConnection_eq_dec c c); [lia|done].
Qed.
End compared.
