(* ===== verification/HistoryDiff.v ===== *)
(** * Workflow history: comparing two versions

    [packages/workflow/src/workflow-diff.ts], its comparisons: which nodes changed, whether
    one version holds at least what another holds, and how big a version is.

    A node is its id, its parameters and its other fields, a JavaScript object as an
    association list.  [lodash]'s [pick] and [isEqual] are parameters; [isEqual] is assumed to
    compare JSON values deeply, keys in any order, as its documentation says. *)

From stdpp Require Import base gmap strings pretty list.
From Stdlib Require Import ZArith Lia.
From S2P Require Import Prelude.
From S2P Require Import JsCollections.
From S2P Require Import EngineTypes.
From S2P Require Import Workflow.
From S2P Require Import HistoryConnections.
Open Scope list_scope.
Open Scope nat_scope.

(** ** Data *)

Record DiffableNode := {
  dn_id : string;
  dn_parameters : list (string * JsonValue);
  dn_fields : list (string * JsonValue);
}.

Record IWorkflowGroup := { wg_id : string; wg_name : string; wg_nodeIds : list string; wg_description : option string }.

(** [DiffableWorkflow], as the history stores it ([WorkflowHistory]). *)
Record WorkflowVersion := {
  wv_versionId : string;
  wv_workflowId : string;
  wv_nodes : list DiffableNode;
  wv_connections : IConnections;
  wv_nodeGroups : option (list IWorkflowGroup);
  wv_authors : option string;
  wv_name : option string;
  wv_description : option string;
  wv_createdAt : Z;
}.

Inductive NodeDiffStatus := Eq | Modified | Added | Deleted.

#[export] Instance NodeDiffStatus_eq_dec : EqDecision NodeDiffStatus.
Proof. solve_decision. Defined.

Record NodeDiff := { nf_status : NodeDiffStatus; nf_node : DiffableNode }.

(** [Map<INode['id'], NodeDiff<T>>]. *)
Notation WorkflowDiff := (list (string * NodeDiff)).

(** ** What [lodash] does *)

Notation JsObject := (list (string * JsonValue)).

(** Equality of JSON values, the keys of an object in any order. *)
Fixpoint deep_equal (a b : JsonValue) : bool :=
  match a, b with
  | JNull, JNull => true
  | JBool x, JBool y => Bool.eqb x y
  | JNum x, JNum y => (x =? y)%Z
  | JFloat x, JFloat y => bool_decide (x = y)
  | JStr x, JStr y => bool_decide (x = y)
  | JArr l, JArr k =>
      (fix all2 (l k : list JsonValue) : bool :=
         match l, k with
         | [], [] => true
         | x :: l, y :: k => deep_equal x y && all2 l k
         | _, _ => false
         end) l k
  | JObj m, JObj n =>
      bool_decide (length m = length n) &&
      (fix all (m : JsObject) : bool :=
         match m with
         | [] => true
         | (key, x) :: m => match map_get key n with Some y => deep_equal x y | None => false end && all m
         end) m
  | _, _ => false
  end.

Class Lodash := {
  pick : JsObject -> list string -> JsObject;
  isEqual : JsonValue -> JsonValue -> bool;
}.

Class LodashLaws (L : Lodash) := {
  pick_get : forall o keys key, map_get key (pick o keys) = if decide (key ∈ keys) then map_get key o else None;
  pick_keys : forall o keys, NoDup (pick o keys).*1;
  isEqual_deep : forall a b, isEqual a b = deep_equal a b;
}.

(** ** Nodes *)

Definition propsToCompare : list string :=
  ["name"; "type"; "typeVersion"; "webhookId"; "credentials"; "parameters"; "disabled"; "notes"; "notesInFlow"; "onError";
   "continueOnFail"; "retryOnFail"; "maxTries"; "waitBetweenTries"; "alwaysOutputData"; "executeOnce"]%string.

Definition node_object (n : DiffableNode) : JsObject :=
  ("id"%string, JStr (dn_id n)) :: ("parameters"%string, JObj (dn_parameters n)) :: dn_fields n.

(** [stringContainsParts]: [rest] is what is left of [s], [parts] what is left of [substr]. *)
Fixpoint contains_loop (rest parts : list Ascii.ascii) (i marker diffSize : nat) : bool :=
  match rest with
  | [] => match parts with [] => true | _ :: _ => false end
  | c :: rest =>
      let '(parts, marker) :=
        match parts with
        | part :: parts' => if Ascii.eqb part c then (parts', S marker) else (parts, marker)
        | [] => ([], marker)
        end in
      if Nat.ltb diffSize (i - marker) then false else contains_loop rest parts (S i) marker diffSize
  end.

Definition stringContainsParts (s substr : string) : bool :=
  let s := String.list_ascii_of_string s in
  let substr := String.list_ascii_of_string substr in
  if Nat.ltb (length s) (length substr) then false else contains_loop s substr 0 0 (length s - length substr).

(** [Object.keys(v)] and [v[key]] where [v] has that property itself. *)
Definition own_keys (v : JsonValue) : list string :=
  match v with JObj m => m.*1 | JArr l => pretty <$> seq 0 (length l) | _ => [] end.

Definition own_property (v : JsonValue) (key : string) : option JsonValue :=
  match v with
  | JObj m => map_get key m
  | JArr l =>
      if bool_decide (key = "length"%string) then Some (JNum (Z.of_nat (length l)))
      else mjoin ((fun i => l !! i) <$> (snd <$> list_find (fun i => pretty i = key) (seq 0 (length l))))
  | _ => None
  end.

(** [===] on what is neither an object nor an array. *)
Definition strict_equal (a b : JsonValue) : bool :=
  match a, b with
  | JNull, JNull => true
  | JBool x, JBool y => Bool.eqb x y
  | JNum x, JNum y => (x =? y)%Z
  | JFloat x, JFloat y => bool_decide (x = y)
  | JStr x, JStr y => bool_decide (x = y)
  | _, _ => false
  end.

Fixpoint parametersAreSuperset (prev next : JsonValue) : bool :=
  if negb (bool_decide (js_typeof prev = js_typeof next)) then false
  else
    match prev, next with
    | JStr s, JStr t => stringContainsParts t s
    | (JArr _ | JObj _), JNull => false
    | JArr l, JArr k =>
        bool_decide (length l = length k) &&
        (fix every (l k : list JsonValue) : bool :=
           match l, k with
           | x :: l, y :: k => parametersAreSuperset x y && every l k
           | _, _ => true
           end) l k
    | JArr _, _ => false
    | JObj m, _ =>
        bool_decide (length m = length (own_keys next)) &&
        forallb (fun '(key, _) => bool_decide (is_Some (own_property next key))) m &&
        (fix every (m : JsObject) : bool :=
           match m with
           | [] => true
           | (key, x) :: m =>
               match own_property next key with Some y => parametersAreSuperset x y | None => false end && every m
           end) m
    | _, _ => strict_equal prev next
    end.

(** [determineNodeSize]: a falsy value counts one, so does the empty string. *)
Fixpoint determineNodeSize (parameters : JsonValue) : nat :=
  match parameters with
  | JStr s => if bool_decide (s = ""%string) then 1 else String.length s
  | JArr l => foldl (fun acc n => acc + n) 1 (determineNodeSize <$> l)
  | JObj m =>
      foldl (fun acc n => acc + n) 1
        ((fix sizes (m : JsObject) : list nat :=
            match m with [] => [] | (_, v) :: m => determineNodeSize v :: sizes m end) m)
  | _ => 1
  end.

Definition determineNodeParametersSize (w : WorkflowVersion) : nat :=
  foldl (fun acc x => acc + determineNodeSize (JObj (dn_parameters x))) 0 (wv_nodes w).

(** ** Comparing nodes and workflows *)

Section diff.
Context {L : Lodash}.

Definition picked (n : option DiffableNode) : JsonValue :=
  JObj (match n with Some n => pick (node_object n) propsToCompare | None => [] end).

Definition compareNodes (base target : option DiffableNode) : bool := isEqual (picked base) (picked target).

Definition nodes_by_id (nodes : list DiffableNode) : list (string * DiffableNode) :=
  foldl (fun acc node => map_set (dn_id node) node acc) [] nodes.

Definition compare_base (nodesEqual : option DiffableNode -> option DiffableNode -> bool) (baseNodes targetNodes : list (string * DiffableNode))
    (diff : WorkflowDiff) (p : string * DiffableNode) : WorkflowDiff :=
  let '(id, node) := p in
  let status :=
    if negb (map_has id targetNodes) then Deleted
    else if negb (nodesEqual (map_get id baseNodes) (map_get id targetNodes)) then Modified
    else Eq in
  map_set id {| nf_status := status; nf_node := node |} diff.

Definition compare_target (baseNodes : list (string * DiffableNode)) (diff : WorkflowDiff) (p : string * DiffableNode) : WorkflowDiff :=
  let '(id, node) := p in
  if map_has id baseNodes then diff else map_set id {| nf_status := Added; nf_node := node |} diff.

Definition compareWorkflowsNodes (base target : list DiffableNode)
    (nodesEqual : option DiffableNode -> option DiffableNode -> bool) : WorkflowDiff :=
  let baseNodes := nodes_by_id base in
  let targetNodes := nodes_by_id target in
  foldl (compare_target baseNodes) (foldl (compare_base nodesEqual baseNodes targetNodes) [] baseNodes) targetNodes.

(** [WorkflowChangeSet] of two different objects. *)
Record WorkflowChangeSet := { cs_nodes : WorkflowDiff; cs_connections : ConnectionsDiff }.

Definition change_set (from to : WorkflowVersion) : WorkflowChangeSet :=
  {| cs_nodes := compareWorkflowsNodes (wv_nodes from) (wv_nodes to) compareNodes;
     cs_connections := compareConnections (wv_connections from) (wv_connections to) |}.

(** The constructor's shortcut, where both are the same object. *)
Definition same_change_set (w : WorkflowVersion) : WorkflowChangeSet :=
  {| cs_nodes := foldl (fun m node => map_set (dn_id node) {| nf_status := Eq; nf_node := node |} m) [] (wv_nodes w);
     cs_connections := no_changes |}.

(** [{ ...node, parameters: {} }]. *)
Definition without_parameters (n : DiffableNode) : DiffableNode :=
  {| dn_id := dn_id n; dn_parameters := []; dn_fields := dn_fields n |}.

Definition nodeIsSuperset (prevNode nextNode : DiffableNode) : bool :=
  if negb (compareNodes (Some (without_parameters prevNode)) (Some (without_parameters nextNode))) then false
  else parametersAreSuperset (JObj (dn_parameters prevNode)) (JObj (dn_parameters nextNode)).

(** [new Map(groups.map((group) => [group.id, group]))]. *)
Definition groups_by_id (groups : list IWorkflowGroup) : list (string * IWorkflowGroup) :=
  foldl (fun m group => map_set (wg_id group) group m) [] groups.

Definition nodeGroupChangesAreAdditive (prev next : WorkflowVersion) : bool :=
  let nextGroupsById := groups_by_id (default [] (wv_nodeGroups next)) in
  forallb (fun prevGroup =>
    match map_get (wg_id prevGroup) nextGroupsById with
    | None => false
    | Some nextGroup =>
        bool_decide (wg_name nextGroup = wg_name prevGroup) && bool_decide (wg_description nextGroup = wg_description prevGroup) &&
        forallb (fun id => bool_decide (id ∈ set_of_list (wg_nodeIds nextGroup))) (wg_nodeIds prevGroup)
    end) (default [] (wv_nodeGroups prev)).

(** The loop of [mergeAdditiveChanges] over the changed nodes. *)
Fixpoint nodes_are_additive (next : WorkflowVersion) (diffs : list NodeDiff) : Prelude.result string bool :=
  match diffs with
  | [] => Ok true
  | d :: diffs =>
      match nf_status d with
      | Deleted => Ok false
      | Added => nodes_are_additive next diffs
      | Modified | Eq =>
          match arr_find (fun x => bool_decide (dn_id x = dn_id (nf_node d))) (wv_nodes next) with
          | None => Err "invariant broken - no next node"%string
          | Some nextNode =>
              if bool_decide (nf_status d = Modified) && negb (nodeIsSuperset (nf_node d) nextNode) then Ok false
              else nodes_are_additive next diffs
          end
      end
  end.

Definition mergeAdditiveChanges (prev next : WorkflowVersion) (diff : WorkflowChangeSet) : Prelude.result string bool :=
  nodes_are_additive next (cs_nodes diff).*2 ≫= fun additive =>
  Ok (if negb additive then false
      else if negb (bool_decide (cd_removed (cs_connections diff) = [])) then false
      else nodeGroupChangesAreAdditive prev next).

(** [hasNonPositionalChanges] and [hasCredentialChanges]. *)
Definition connections_value (cs : IConnections) : JsonValue :=
  JObj ((fun '(node, byType) =>
    (node, JObj ((fun '(type, byIndex) =>
      (type, JArr ((fun o : option (list IConnection) =>
        match o with
        | None => JNull
        | Some l => JArr ((fun c => JObj [("node"%string, JStr (ic_node c)); ("type"%string, JStr (ic_type c));
                                           ("index"%string, JNum (Z.of_nat (ic_index c)))]) <$> l)
        end) <$> byIndex))) <$> byType))) <$> cs).

Definition hasNonPositionalChanges (oldNodes newNodes : list DiffableNode) (oldConnections newConnections : IConnections) : bool :=
  if existsb (fun p => negb (bool_decide (nf_status p.2 = Eq))) (compareWorkflowsNodes oldNodes newNodes compareNodes) then true
  else negb (isEqual (connections_value oldConnections) (connections_value newConnections)).

Definition node_credentials (n : DiffableNode) : JsObject :=
  match map_get "credentials"%string (dn_fields n) with Some (JObj m) => m | _ => [] end.

(** [creds[type]?.id]. *)
Definition credential_id (creds : JsObject) (type : string) : option JsonValue :=
  match map_get type creds with Some (JObj m) => map_get "id"%string m | _ => None end.

Definition json_same (a b : option JsonValue) : bool :=
  match a, b with None, None => true | Some a, Some b => strict_equal a b | _, _ => false end.

Definition hasCredentialChanges (oldNodes newNodes : list DiffableNode) : bool :=
  let newNodesMap := nodes_by_id newNodes in
  existsb (fun oldNode =>
    match map_get (dn_id oldNode) newNodesMap with
    | None => false
    | Some newNode =>
        let oldCreds := node_credentials oldNode in
        let newCreds := node_credentials newNode in
        existsb (fun credType => negb (map_has credType newCreds) ||
                                 negb (json_same (credential_id oldCreds credType) (credential_id newCreds credType))) oldCreds.*1 ||
        existsb (fun credType => negb (map_has credType oldCreds)) newCreds.*1
    end) oldNodes.
End diff.
