(* ===== verification/HistoryMerge.v ===== *)
(** * Workflow history: what it means that nothing is lost

    The specification behind [mergeAdditiveChanges]: a value is kept by another when it is
    the same, or text whose characters the other has in their order, or holds such values at
    the same places; a version is kept by another when its nodes (the fields that are
    compared), connections and groups are.

    The code also lets an array stand for an object of which it has the properties ([[]] for
    [{}], [["x"]] for [{length: 1}]).  [value_kept] takes as its argument whether this is
    allowed: with it, the comparisons of [HistoryDiff] decide exactly what is kept, and
    without it they do so where no object faces an array ([array_for_object]).

    The second half shows what an additive merge keeps. *)

From stdpp Require Import base gmap strings pretty list.
From Stdlib Require Import ZArith Lia.
From S2P Require Import Prelude.
From S2P Require Import JsCollections.
From S2P Require Import EngineTypes.
From S2P Require Import Workflow.
From S2P Require Import HistoryConnections.
From S2P Require Import HistoryDiff.

Open Scope list_scope.
Open Scope nat_scope.

Notation chars := String.list_ascii_of_string.

(** ** Text *)

Lemma sublist_cons_same {A} (x : A) l k : x :: l `sublist_of` x :: k <-> l `sublist_of` k.
Proof.
  split; [|by apply sublist_skip]. intros [H|(l' & [=<-] & H)]%sublist_cons_r; [|done].
  transitivity (x :: l); [by apply sublist_cons|done].
Qed.

Lemma sublist_cons_other {A} (x y : A) l k : x <> y -> x :: l `sublist_of` y :: k <-> x :: l `sublist_of` k.
Proof. intros Hne. rewrite sublist_cons_r. split; [intros [?|(? & ? & ?)]; naive_solver|by left]. Qed.

Lemma contains_loop_sublist rest parts i marker diffSize :
  marker <= i -> i + length rest = marker + length parts + diffSize ->
  contains_loop rest parts i marker diffSize = true <-> parts `sublist_of` rest.
Proof.
  revert parts i marker. induction rest as [|c rest IH]; intros parts i marker Hm Hl; simpl.
  { destruct parts; [split; [constructor|done]|split; [done|intros H%sublist_nil_r; done]]. }
  simpl in Hl. destruct parts as [|part parts]; simpl in Hl.
  - destruct (Nat.ltb_spec diffSize (i - marker)) as [Hlt|]; [lia|].
    rewrite IH by (simpl; lia). split; intros; apply sublist_nil_l.
  - destruct (Ascii.eqb_spec part c) as [->|Hne].
    + rewrite sublist_cons_same. destruct (Nat.ltb_spec diffSize (i - S marker)) as [Hlt|]; [|apply IH; lia].
      split; [done|]. intros Hs%sublist_length. lia.
    + rewrite sublist_cons_other by done. destruct (Nat.ltb_spec diffSize (i - marker)) as [Hlt|]; [|apply IH; simpl; lia].
      split; [done|]. intros Hs%sublist_length. simpl in Hs. lia.
Qed.

(** Giving up early changes nothing: the text is a subsequence of the other, or it is not. *)
Lemma stringContainsParts_sublist s substr : stringContainsParts s substr = true <-> chars substr `sublist_of` chars s.
Proof.
  unfold stringContainsParts. destruct (Nat.ltb_spec (length (chars s)) (length (chars substr))) as [Hlt|Hle].
  - split; [done|]. intros H%sublist_length. lia.
  - apply contains_loop_sublist; lia.
Qed.

(** ** Values *)

(** Induction on JSON values, with the hypothesis for every part. *)
Lemma json_ind (P : JsonValue -> Prop) :
  P JNull -> (forall b, P (JBool b)) -> (forall z, P (JNum z)) -> (forall r, P (JFloat r)) -> (forall s, P (JStr s)) ->
  (forall l, Forall P l -> P (JArr l)) -> (forall m, Forall (fun p => P p.2) m -> P (JObj m)) -> forall v, P v.
Proof.
  intros H1 H2 H3 H4 H5 H6 H7. fix go 1. intros [|b|z|r|s|l|m]; [done|done|done|done|done|apply H6|apply H7].
  - induction l as [|x l IH]; constructor; [apply go|apply IH].
  - induction m as [|[k x] m IH]; constructor; [apply go|apply IH].
Qed.

(** [arrays]: whether an array may stand for an object. *)
Inductive value_kept (arrays : bool) : JsonValue -> JsonValue -> Prop :=
  | kept_null : value_kept arrays JNull JNull
  | kept_bool b : value_kept arrays (JBool b) (JBool b)
  | kept_num z : value_kept arrays (JNum z) (JNum z)
  | kept_float r : value_kept arrays (JFloat r) (JFloat r)
  | kept_text s t : chars s `sublist_of` chars t -> value_kept arrays (JStr s) (JStr t)
  | kept_array l k : Forall2 (value_kept arrays) l k -> value_kept arrays (JArr l) (JArr k)
  | kept_object m next :
      match next with JObj _ => True | JArr _ => arrays = true | _ => False end -> length m = length (own_keys next) ->
      Forall (fun p => exists y, own_property next p.1 = Some y /\ value_kept arrays p.2 y) m ->
      value_kept arrays (JObj m) next.

Lemma every_pair_kept (l k : list JsonValue) :
  Forall (fun x => forall y, parametersAreSuperset x y = true <-> value_kept true x y) l ->
  bool_decide (length l = length k) &&
  (fix every (l k : list JsonValue) : bool :=
     match l, k with x :: l, y :: k => parametersAreSuperset x y && every l k | _, _ => true end) l k = true <->
  Forall2 (value_kept true) l k.
Proof.
  revert k. induction l as [|x l IH]; intros [|y k] H; simpl; [done|split; [done|inversion 1]|split; [done|inversion 1]|].
  apply Forall_cons in H as [Hx H]. specialize (IH k H).
  rewrite Forall2_cons, <- Hx, <- IH, !andb_true_iff, !bool_decide_eq_true. naive_solver.
Qed.

Lemma every_field_kept (m : list (string * JsonValue)) next :
  Forall (fun p => forall y, parametersAreSuperset p.2 y = true <-> value_kept true p.2 y) m ->
  forallb (fun '(key, _) => bool_decide (is_Some (own_property next key))) m &&
  (fix every (m : list (string * JsonValue)) : bool :=
     match m with
     | [] => true
     | (key, x) :: m =>
         match own_property next key with Some y => parametersAreSuperset x y | None => false end && every m
     end) m = true <->
  Forall (fun p => exists y, own_property next p.1 = Some y /\ value_kept true p.2 y) m.
Proof.
  induction m as [|[key x] m IH]; intros H; simpl; [done|]. apply Forall_cons in H as [Hx H]. specialize (IH H).
  rewrite Forall_cons, <- IH, !andb_true_iff, bool_decide_eq_true. simpl in *. split.
  - intros [[[y Hy] ?] [? ?]]. rewrite Hy in *. split; [|done]. exists y. by rewrite <- Hx.
  - intros [(y & Hy & Hk) [? ?]]. rewrite Hy. apply Hx in Hk. split_and!; eauto.
Qed.

(** Values that are neither text, arrays nor objects are kept by themselves only. *)
Definition is_atom (v : JsonValue) : bool := match v with JStr _ | JArr _ | JObj _ => false | _ => true end.

Lemma strict_equal_eq a b : is_atom a = true -> strict_equal a b = true <-> a = b.
Proof.
  destruct a, b; simpl; intros Ha; try done; rewrite ?eqb_true_iff, ?Z.eqb_eq, ?bool_decide_eq_true; split; congruence.
Qed.

Lemma kept_atom arrays a b : is_atom a = true -> value_kept arrays a b <-> a = b.
Proof. intros Ha. split; [by inversion 1; subst|intros <-; destruct a; by constructor]. Qed.

Lemma superset_atom a b : is_atom a = true -> parametersAreSuperset a b = strict_equal a b.
Proof. by destruct a, b. Qed.

(** [parametersAreSuperset] decides that a value is kept. *)
Lemma parametersAreSuperset_kept prev next : parametersAreSuperset prev next = true <-> value_kept true prev next.
Proof.
  revert next. induction prev as [|b|z|r|s|l IH|m IH] using json_ind; intros next;
    try (rewrite superset_atom, kept_atom by done; by apply strict_equal_eq).
  - destruct next as [| | | |t| |]; simpl; try by (split; [done|inversion 1]).
    rewrite stringContainsParts_sublist. split; [by constructor|by inversion 1].
  - destruct next as [| | | | |k|n]; try by (split; [done|inversion 1]).
    transitivity (Forall2 (value_kept true) l k); [by apply (every_pair_kept l k)|].
    split; [by constructor|by inversion 1].
  - assert (forall next, match next with JObj _ | JArr _ => True | _ => False end ->
              parametersAreSuperset (JObj m) next = true <-> value_kept true (JObj m) next) as Hobj.
    { clear next. intros next Hn.
      pose proof (every_field_kept m next IH) as Hf. split.
      - intros H. assert (length m = length (own_keys next) /\ Forall (fun p => exists y, own_property next p.1 = Some y /\
          value_kept true p.2 y) m) as [? ?]; [|constructor; [by destruct next|done..]].
        rewrite <- Hf. destruct next; try done; simpl in *; rewrite <- andb_assoc in H;
          apply andb_true_iff in H as [?%bool_decide_eq_true ?]; done.
      - inversion 1 as [| | | | | |? ? _ Hl Hall]; subst. apply Hf in Hall.
        destruct next; try done; simpl in *; rewrite <- andb_assoc; apply andb_true_iff; (split; [by apply bool_decide_eq_true|done]). }
    destruct next as [| | | | |k|n]; try (by apply Hobj); split; (done || inversion 1; done).
Qed.

(** An object faces an array: at the top, at the same index or at the same key. *)
Fixpoint array_for_object (a b : JsonValue) : bool :=
  match a, b with
  | JObj _, JArr _ => true
  | JArr l, JArr k =>
      (fix any (l k : list JsonValue) : bool :=
         match l, k with x :: l, y :: k => array_for_object x y || any l k | _, _ => false end) l k
  | JObj m, JObj n =>
      (fix any (m : list (string * JsonValue)) : bool :=
         match m with
         | [] => false
         | (key, x) :: m => match map_get key n with Some y => array_for_object x y | None => false end || any m
         end) m
  | _, _ => false
  end.

(** Where no object faces an array, it makes no difference whether arrays may stand for
    objects. *)
Lemma kept_strictly a b : array_for_object a b = false -> value_kept true a b -> value_kept false a b.
Proof.
  revert b. induction a as [|x|z|r|s|l IH|m IH] using json_ind; intros b Hf Hk;
    try (apply kept_atom in Hk as <-; [|done]; by apply kept_atom).
  - inversion Hk; subst. by constructor.
  - inversion Hk as [| | | | |? k Hlk|]; subst. constructor. simpl in Hf. clear Hk. revert Hf.
    induction Hlk as [|x y l k Hxy Hlk IHl]; [constructor|]. intros [Hf Hfs]%orb_false_iff.
    apply Forall_cons in IH as [IH IHs]. constructor; [by apply IH|by apply IHl].
  - inversion Hk as [| | | | | |? ? Hn Hlen Hall]; subst. destruct b as [| | | | | |n]; try done.
    constructor; [done..|]. simpl in Hf, Hall |- *. clear Hk Hlen Hn. revert Hf.
    induction Hall as [|[key x] m (y & Hy & Hxy) Hall IHm]; [constructor|]. simpl in Hy, Hxy. rewrite Hy.
    intros [Hf Hfs]%orb_false_iff. apply Forall_cons in IH as [IH IHs].
    constructor; [exists y; split; [done|by apply IH]|by apply IHm].
Qed.

Lemma kept_loosely a b : value_kept false a b -> value_kept true a b.
Proof.
  revert b. induction a as [|x|z|r|s|l IH|m IH] using json_ind; intros b Hk;
    try (apply kept_atom in Hk as <-; [|done]; by apply kept_atom).
  - inversion Hk; subst. by constructor.
  - inversion Hk as [| | | | |? k Hlk|]; subst. constructor. clear Hk.
    induction Hlk as [|x y l k Hxy Hlk IHl]; [constructor|]. apply Forall_cons in IH as [IH IHs]. constructor; auto.
  - inversion Hk as [| | | | | |? ? Hn Hlen Hall]; subst. constructor; [by destruct b|done|]. clear Hk Hlen Hn.
    induction Hall as [|[key x] m (y & Hy & Hxy) Hall IHm]; [constructor|]. apply Forall_cons in IH as [IH IHs].
    constructor; [|by apply IHm]. exists y. split; [done|by apply IH].
Qed.

(** Equal values are kept, text and all. *)
Lemma deep_equal_kept arrays a b : deep_equal a b = true -> value_kept arrays a b.
Proof.
  revert b. induction a as [|x|z|r|s|l IH|m IH] using json_ind; intros b; destruct b as [|y|z'|r'|t|k|n]; simpl; try done.
  - constructor.
  - intros ->%eqb_prop. constructor.
  - intros ->%Z.eqb_eq. constructor.
  - intros ->%bool_decide_eq_true. constructor.
  - intros ->%bool_decide_eq_true. by constructor.
  - intros H. constructor. revert k H. induction IH as [|x l Hx Hl IHl]; intros [|y k]; try done.
    intros [H1 H2]%andb_true_iff. constructor; [by apply Hx|by apply IHl].
  - intros [Hlen%bool_decide_eq_true H]%andb_true_iff. constructor; [done|by unfold own_keys; rewrite length_fmap|]. clear Hlen.
    induction IH as [|[key x] m Hx Hm IHm]; [constructor|]. apply andb_true_iff in H as [H1 H2].
    constructor; [|by apply IHm]. simpl in *. destruct (map_get key n) as [y|]; [|done]. exists y. auto.
Qed.

(** ** Objects and nodes *)

Definition same_at (key : string) (m n : list (string * JsonValue)) : Prop :=
  match map_get key m, map_get key n with
  | Some x, Some y => deep_equal x y = true
  | None, None => True
  | _, _ => False
  end.

Lemma equal_fields m n :
  (fix all (m : list (string * JsonValue)) : bool :=
     match m with
     | [] => true
     | (key, x) :: m => match map_get key n with Some y => deep_equal x y | None => false end && all m
     end) m = true <->
  Forall (fun p => exists y, map_get p.1 n = Some y /\ deep_equal p.2 y = true) m.
Proof.
  induction m as [|[key x] m IH]; [done|]. rewrite andb_true_iff, IH, Forall_cons. simpl.
  destruct (map_get key n); naive_solver.
Qed.

Lemma equal_objects m n :
  NoDup m.*1 -> NoDup n.*1 -> deep_equal (JObj m) (JObj n) = true <-> forall key, same_at key m n.
Proof.
  intros Hm Hn. cbn [deep_equal]. rewrite andb_true_iff, bool_decide_eq_true, equal_fields, Forall_forall. split.
  - intros [Hlen H] key. unfold same_at. destruct (map_get key m) as [x|] eqn:Hx.
    + apply map_get_Some_elem_of in Hx. destruct (H _ Hx) as (y & Hy & ?). simpl in Hy. by rewrite Hy.
    + destruct (map_get key n) as [y|] eqn:Hy; [|done]. apply map_get_None in Hx.
      apply map_get_Some_elem_of, (list_elem_of_fmap_2 fst) in Hy. apply Hx. simpl in Hy.
      assert (m.*1 ≡ₚ n.*1) as ->; [|done]. apply submseteq_length_Permutation; [|rewrite !length_fmap; lia].
      apply NoDup_submseteq; [done|]. intros k ([k' x'] & -> & Hk)%list_elem_of_fmap.
      destruct (H _ Hk) as (y' & Hy' & _). by apply map_get_Some_elem_of, (list_elem_of_fmap_2 fst) in Hy'.
  - intros H. split.
    + rewrite <- (length_fmap fst m), <- (length_fmap fst n). apply Permutation_length, NoDup_Permutation; [done..|].
      intros k. specialize (H k). unfold same_at in H.
      destruct (map_get k m) eqn:E1, (map_get k n) eqn:E2; try done; rewrite ?map_get_None in *;
        try (apply map_get_Some_elem_of, (list_elem_of_fmap_2 fst) in E1, E2; naive_solver); naive_solver.
    + intros [k x] Hk. specialize (H k). unfold same_at in H. rewrite (elem_of_map_get _ _ _ Hm Hk) in H.
      simpl. destruct (map_get k n) as [y|]; [by exists y|done].
Qed.

Section nodes.
Context {L : Lodash} {Laws : LodashLaws L}.

Definition same_field (key : string) (a b : DiffableNode) : Prop := same_at key (node_object a) (node_object b).

Lemma compareNodes_fields a b :
  compareNodes (Some a) (Some b) = true <-> forall key, key ∈ propsToCompare -> same_field key a b.
Proof.
  unfold compareNodes. rewrite isEqual_deep. unfold picked. rewrite equal_objects by apply pick_keys.
  unfold same_field, same_at. split.
  - intros H key Hk. specialize (H key). by rewrite !pick_get, !decide_True in H.
  - intros H key. specialize (H key). rewrite !pick_get. destruct (decide (key ∈ propsToCompare)); [by apply H|done].
Qed.

(** A node is kept by one with the same id and the same compared fields, and with
    parameters that keep its own. *)
Definition node_kept (arrays : bool) (a b : DiffableNode) : Prop :=
  dn_id a = dn_id b /\ (forall key, key ∈ propsToCompare -> key <> "parameters"%string -> same_field key a b) /\
  value_kept arrays (JObj (dn_parameters a)) (JObj (dn_parameters b)).

Lemma same_field_without key a b :
  key <> "parameters"%string -> same_field key (without_parameters a) (without_parameters b) <-> same_field key a b.
Proof.
  intros Hk. unfold same_field, same_at, node_object. cbn [map_get without_parameters dn_id dn_fields].
  rewrite !(decide_False (P := "parameters"%string = key)) by done. done.
Qed.

Lemma nodeIsSuperset_kept a b : dn_id a = dn_id b -> nodeIsSuperset a b = true <-> node_kept true a b.
Proof.
  intros Hid. unfold nodeIsSuperset, node_kept. destruct (compareNodes _ _) eqn:Hc; simpl negb; cbv iota.
  - rewrite parametersAreSuperset_kept. rewrite compareNodes_fields in Hc. split; [|naive_solver].
    intros Hk. split_and!; [done| |done]. intros key Hin Hne. by apply (same_field_without key a b Hne), Hc.
  - split; [done|]. intros (_ & Hf & _). apply not_true_iff_false in Hc. destruct Hc.
    apply compareNodes_fields. intros key Hin.
    destruct (decide (key = "parameters"%string)) as [->|Hne]; [done|]. apply same_field_without; auto.
Qed.

Lemma equal_node_kept arrays a b : dn_id a = dn_id b -> compareNodes (Some a) (Some b) = true -> node_kept arrays a b.
Proof.
  intros Hid Hc. rewrite compareNodes_fields in Hc. split_and!; [done|auto|].
  apply deep_equal_kept. apply (Hc "parameters"%string). unfold propsToCompare. set_solver.
Qed.
End nodes.

(** ** Workflow history: when one version makes another redundant

    [mergeAdditiveChanges] never throws, and merges exactly when the newer version keeps all
    that the older one holds. *)

Open Scope list_scope.
Open Scope nat_scope.

(** ** Maps by id *)

Section by_id.
Context {A : Type} (id_of : A -> string).

Notation by_id m l := (foldl (fun acc x => map_set (id_of x) x acc) m l).

Lemma by_id_keys m l : NoDup m.*1 -> NoDup (by_id m l).*1.
Proof. revert m. induction l as [|x l IH]; intros m Hm; [done|]. by apply IH, map_set_NoDup. Qed.

Lemma by_id_other m l id : id ∉ id_of <$> l -> map_get id (by_id m l) = map_get id m.
Proof.
  revert m. induction l as [|x l IH]; intros m; [done|]. cbn [fmap list_fmap]. intros [Hne Hni]%not_elem_of_cons.
  cbn [foldl]. rewrite IH, map_get_set_ne; done.
Qed.

Lemma by_id_some m l id x :
  map_get id (by_id m l) = Some x -> (x ∈ l /\ id_of x = id) \/ map_get id m = Some x.
Proof.
  revert m. induction l as [|y l IH]; intros m; [by right|]. cbn [foldl]. intros [[? ?]|H]%IH; [left; split; [by right|done]|].
  rewrite map_get_set in H. case_decide; [left; simplify_eq; split; [by left|done]|by right].
Qed.

Lemma by_id_in m l x : NoDup (id_of <$> l) -> x ∈ l -> map_get (id_of x) (by_id m l) = Some x.
Proof.
  revert m. induction l as [|y l IH]; intros m; [set_solver|]. cbn [fmap list_fmap]. intros [Hni Hnd]%NoDup_cons.
  cbn [foldl]. intros [->|Hx]%elem_of_cons; [by rewrite by_id_other, map_get_set_eq|by apply IH].
Qed.

Lemma by_id_has m l id : map_get id m = None -> is_Some (map_get id (by_id m l)) <-> id ∈ id_of <$> l.
Proof.
  intros Hm. destruct (decide (id ∈ id_of <$> l)) as [Hin|Hni]; [|rewrite by_id_other, Hm by done; split; [by intros []|done]].
  split; [done|intros _]. clear Hm. revert m Hin. induction l as [|y l IH]; intros m; [set_solver|].
  cbn [foldl fmap list_fmap]. intros Hin. destruct (decide (id ∈ id_of <$> l)) as [?|Hni]; [by apply IH|].
  apply elem_of_cons in Hin as [->|?]; [|done]. rewrite by_id_other, map_get_set_eq by done. by eexists.
Qed.
End by_id.

(** ** The diff of nodes *)

Section nodes_diff.
Context (nodesEqual : option DiffableNode -> option DiffableNode -> bool).

Lemma compare_base_fold B T P d id :
  NoDup P.*1 ->
  map_get id (foldl (compare_base nodesEqual B T) d P) =
  match map_get id P with
  | Some node =>
      Some {| nf_status := if negb (map_has id T) then Deleted
                           else if negb (nodesEqual (map_get id B) (map_get id T)) then Modified else Eq;
              nf_node := node |}
  | None => map_get id d
  end.
Proof.
  revert d. induction P as [|[k node] P IH]; intros d; [done|]. intros [Hni Hnd]%NoDup_cons. cbn [foldl map_get]. rewrite IH by done.
  destruct (decide (k = id)) as [->|Hne].
  - rewrite (proj2 (map_get_None id P)) by done. cbn [compare_base]. by rewrite map_get_set_eq.
  - destruct (map_get id P); [done|]. cbn [compare_base]. by rewrite map_get_set_ne.
Qed.

Lemma compare_target_fold B P d id :
  NoDup P.*1 ->
  map_get id (foldl (compare_target B) d P) =
  match map_get id P with
  | Some node => if map_has id B then map_get id d else Some {| nf_status := Added; nf_node := node |}
  | None => map_get id d
  end.
Proof.
  revert d. induction P as [|[k node] P IH]; intros d; [done|]. intros [Hni Hnd]%NoDup_cons. cbn [foldl map_get]. rewrite IH by done.
  destruct (decide (k = id)) as [->|Hne].
  - rewrite (proj2 (map_get_None id P)) by done. cbn [compare_target]. destruct (map_has id B); [done|by rewrite map_get_set_eq].
  - destruct (map_get id P); cbn [compare_target]; destruct (map_has k B); try done; by rewrite map_get_set_ne.
Qed.

Lemma compareWorkflowsNodes_get base target id :
  map_get id (compareWorkflowsNodes base target nodesEqual) =
  match map_get id (nodes_by_id base), map_get id (nodes_by_id target) with
  | Some b, Some t => Some {| nf_status := if nodesEqual (Some b) (Some t) then Eq else Modified; nf_node := b |}
  | Some b, None => Some {| nf_status := Deleted; nf_node := b |}
  | None, Some t => Some {| nf_status := Added; nf_node := t |}
  | None, None => None
  end.
Proof.
  unfold compareWorkflowsNodes. cbv zeta.
  rewrite compare_target_fold, compare_base_fold by (apply by_id_keys, NoDup_nil_2). unfold map_has.
  destruct (map_get id (nodes_by_id base)) as [b|] eqn:Hb, (map_get id (nodes_by_id target)) as [t|] eqn:Ht; cbn; try done.
  destruct (nodesEqual _ _); done.
Qed.

Lemma compareWorkflowsNodes_keys base target : NoDup (compareWorkflowsNodes base target nodesEqual).*1.
Proof.
  unfold compareWorkflowsNodes. cbv zeta. generalize (nodes_by_id base) at 1 as B. intros B.
  assert (NoDup (foldl (compare_base nodesEqual (nodes_by_id base) (nodes_by_id target)) [] (nodes_by_id base)).*1) as Hd.
  { generalize (nodes_by_id base) at 2 as P. assert (NoDup ([] : list (string * NodeDiff)).*1) as Hd by apply NoDup_nil_2.
    revert Hd. generalize ([] : list (string * NodeDiff)) as d. intros d Hd P. revert d Hd.
    induction P as [|[k n] P IH]; intros d Hd; [done|]. by apply IH, map_set_NoDup. }
  revert Hd. generalize (foldl (compare_base nodesEqual (nodes_by_id base) (nodes_by_id target)) [] (nodes_by_id base)) as d.
  induction (nodes_by_id target) as [|[k n] P IH]; intros d Hd; [done|]. apply IH. cbn [compare_target].
  destruct (map_has k B); [done|by apply map_set_NoDup].
Qed.
End nodes_diff.

(** ** What is kept *)

Section merge.
Context {L : Lodash} {Laws : LodashLaws L}.

Definition group_kept (g g' : IWorkflowGroup) : Prop :=
  wg_id g' = wg_id g /\ wg_name g' = wg_name g /\ wg_description g' = wg_description g /\ wg_nodeIds g ⊆ wg_nodeIds g'.

(** The newer version holds all that the older one holds: its nodes (positions and other
    fields that are not compared apart), its connections, its groups. *)
Definition version_kept (arrays : bool) (prev next : WorkflowVersion) : Prop :=
  (forall a, a ∈ wv_nodes prev -> exists b, b ∈ wv_nodes next /\ node_kept arrays a b) /\
  (forall n i s, connections_at (wv_connections prev) n i s ⊆+ connections_at (wv_connections next) n i s) /\
  (forall g, g ∈ default [] (wv_nodeGroups prev) -> exists g', g' ∈ default [] (wv_nodeGroups next) /\ group_kept g g').

(** No object in a node's parameters faces an array in those of the node with the same id. *)
Definition same_shapes (prev next : WorkflowVersion) : bool :=
  forallb (fun a => forallb (fun b => negb (bool_decide (dn_id a = dn_id b) &&
    array_for_object (JObj (dn_parameters a)) (JObj (dn_parameters b)))) (wv_nodes next)) (wv_nodes prev).

(** Nodes and groups of a version have ids of their own. *)
Definition distinct_ids (v : WorkflowVersion) : Prop :=
  NoDup (dn_id <$> wv_nodes v) /\ NoDup (wg_id <$> default [] (wv_nodeGroups v)).

Lemma nodeGroupChanges_kept prev next :
  NoDup (wg_id <$> default [] (wv_nodeGroups next)) ->
  nodeGroupChangesAreAdditive prev next = true <->
  forall g, g ∈ default [] (wv_nodeGroups prev) -> exists g', g' ∈ default [] (wv_nodeGroups next) /\ group_kept g g'.
Proof.
  intros Hnd. unfold nodeGroupChangesAreAdditive. cbv zeta. rewrite forallb_forall. setoid_rewrite <- list_elem_of_In.
  apply forall_proper. intros g. split; intros H Hg; specialize (H Hg).
  - destruct (map_get (wg_id g) _) as [g'|] eqn:Hg'; [|done]. exists g'.
    apply (by_id_some wg_id [] (default [] (wv_nodeGroups next))) in Hg' as [[Hin Hid]|]; [|done].
    rewrite !andb_true_iff, !bool_decide_eq_true, forallb_forall in H. destruct H as [[? ?] H]. split; [done|]. unfold group_kept. split_and!; [done..|].
    intros x Hx. apply list_elem_of_In, H, bool_decide_eq_true in Hx. by rewrite elem_of_set_of_list in Hx.
  - destruct H as (g' & Hin & Hid & Hn & Hd & Hsub). unfold groups_by_id. rewrite <- Hid, (by_id_in wg_id [] _ g') by done.
    rewrite !andb_true_iff, !bool_decide_eq_true, forallb_forall. split_and!; [done..|].
    intros x Hx. apply bool_decide_eq_true, elem_of_set_of_list, Hsub. by apply list_elem_of_In.
Qed.

Notation with_id n := (fun x => bool_decide (dn_id x = dn_id n)).

Lemma find_by_id next a : is_Some (arr_find (with_id a) next) <-> dn_id a ∈ dn_id <$> next.
Proof.
  split.
  - intros [b Hb]. apply arr_find_Some in Hb as [Hin Hid%bool_decide_eq_true]. rewrite <- Hid. by apply list_elem_of_fmap_2.
  - intros (b & Hid & Hin)%list_elem_of_fmap. destruct (arr_find _ _) as [x|] eqn:E; [by eexists|].
    rewrite arr_find_None in E. specialize (E b Hin). apply bool_decide_eq_false in E. congruence.
Qed.

(** A changed node loses nothing. *)
Definition additive (next : list DiffableNode) (d : NodeDiff) : Prop :=
  nf_status d <> Deleted /\
  (nf_status d = Modified -> forall x, arr_find (with_id (nf_node d)) next = Some x -> nodeIsSuperset (nf_node d) x = true).

Definition has_next (next : list DiffableNode) (d : NodeDiff) : Prop :=
  nf_status d = Modified \/ nf_status d = Eq -> dn_id (nf_node d) ∈ dn_id <$> next.

Lemma nodes_additive_spec next ds :
  Forall (has_next (wv_nodes next)) ds ->
  exists b, nodes_are_additive next ds = Ok b /\ (b = true <-> Forall (additive (wv_nodes next)) ds).
Proof.
  induction 1 as [|d ds Hd _ (b & Hb & Hspec)]; simpl; [by exists true|]. unfold has_next in Hd. setoid_rewrite Forall_cons.
  rewrite Hb. destruct (nf_status d) eqn:Hs.
  - destruct (proj2 (find_by_id _ _) (Hd ltac:(auto))) as [x ->]. simpl. exists b. split; [done|]. rewrite Hspec.
    unfold additive at 2. rewrite Hs. naive_solver.
  - destruct (proj2 (find_by_id _ _) (Hd ltac:(auto))) as [x Hx]. rewrite Hx. unfold additive at 1. rewrite Hs, Hx. simpl.
    destruct (nodeIsSuperset (nf_node d) x) eqn:Hk; simpl.
    + exists b. split; [done|]. rewrite Hspec. split; [|naive_solver]. intros ?. split; [|done]. split; [done|]. by intros _ y [= <-].
    + exists false. split; [done|]. split; [done|]. intros [[_ H] _]. by rewrite (H eq_refl x eq_refl) in Hk.
  - exists b. split; [done|]. rewrite Hspec. unfold additive at 2. rewrite Hs. naive_solver.
  - exists false. split; [done|]. split; [done|]. intros [[? _] _]. done.
Qed.

Notation diff_of prev next := (cs_nodes (change_set prev next)).

(** Where a changed node comes from. *)
Lemma elem_of_diff prev next d :
  d ∈ (diff_of prev next).*2 <->
  exists id, match map_get id (nodes_by_id (wv_nodes prev)), map_get id (nodes_by_id (wv_nodes next)) with
             | Some b, Some t => d = {| nf_status := if compareNodes (Some b) (Some t) then Eq else Modified; nf_node := b |}
             | Some b, None => d = {| nf_status := Deleted; nf_node := b |}
             | None, Some t => d = {| nf_status := Added; nf_node := t |}
             | None, None => False
             end.
Proof.
  pose proof (compareWorkflowsNodes_keys compareNodes (wv_nodes prev) (wv_nodes next)) as Hnd. split.
  - intros ([id d'] & -> & Hin)%list_elem_of_fmap. exists id. apply (elem_of_map_get _ _ _ Hnd) in Hin.
    rewrite compareWorkflowsNodes_get in Hin. destruct (map_get id _), (map_get id _); by simplify_eq.
  - intros [id H]. pose proof (compareWorkflowsNodes_get compareNodes (wv_nodes prev) (wv_nodes next) id) as Hg.
    apply list_elem_of_fmap. exists (id, d). split; [done|]. apply map_get_Some_elem_of. unfold change_set. cbn [cs_nodes].
    rewrite Hg. destruct (map_get id _), (map_get id _); by subst.
Qed.

Lemma by_id_node nodes id n : map_get id (nodes_by_id nodes) = Some n -> n ∈ nodes /\ dn_id n = id.
Proof. by intros [?|]%(by_id_some dn_id [] nodes). Qed.

Lemma diff_has_next prev next : Forall (has_next (wv_nodes next)) (diff_of prev next).*2.
Proof.
  apply Forall_forall. intros d [id Hd]%elem_of_diff Hs.
  destruct (map_get id (nodes_by_id (wv_nodes prev))) as [b|] eqn:Hb, (map_get id (nodes_by_id (wv_nodes next))) as [t|] eqn:Ht;
    subst; simpl in Hs; try naive_solver.
  apply by_id_node in Hb as [_ Hb], Ht as [Ht1 Ht2]. simpl. rewrite Hb, <- Ht2. by apply list_elem_of_fmap_2.
Qed.

Lemma diff_additive prev next :
  NoDup (dn_id <$> wv_nodes prev) -> NoDup (dn_id <$> wv_nodes next) ->
  Forall (additive (wv_nodes next)) (diff_of prev next).*2 <->
  forall a, a ∈ wv_nodes prev -> exists b, b ∈ wv_nodes next /\ node_kept true a b.
Proof.
  intros Hp Hn. rewrite Forall_forall. split.
  - intros H a Ha. pose proof (by_id_in dn_id [] _ a Hp Ha) as Hga.
    destruct (map_get (dn_id a) (nodes_by_id (wv_nodes next))) as [t|] eqn:Ht.
    + destruct (by_id_node _ _ _ Ht) as [Hin Hid]. destruct (compareNodes (Some a) (Some t)) eqn:Hc.
      * exists t. split; [done|]. by apply equal_node_kept.
      * destruct (proj2 (find_by_id (wv_nodes next) a)) as [x Hx]; [rewrite <- Hid; by apply list_elem_of_fmap_2|].
        destruct (H {| nf_status := Modified; nf_node := a |}) as [_ Hk].
        { apply elem_of_diff. exists (dn_id a). unfold nodes_by_id in *. by rewrite Hga, Ht, Hc. }
        apply arr_find_Some in Hx as Hx'. destruct Hx' as [Hxin Hxid%bool_decide_eq_true].
        exists x. split; [done|]. apply nodeIsSuperset_kept; [done|]. by apply Hk.
    + destruct (H {| nf_status := Deleted; nf_node := a |}) as [? _]; [|done].
      apply elem_of_diff. exists (dn_id a). unfold nodes_by_id in *. by rewrite Hga, Ht.
  - intros H d [id Hd]%elem_of_diff.
    destruct (map_get id (nodes_by_id (wv_nodes prev))) as [b|] eqn:Hb, (map_get id (nodes_by_id (wv_nodes next))) as [t|] eqn:Ht;
      [| |by subst|done]; destruct (by_id_node _ _ _ Hb) as [Hbin Hbid]; destruct (H b Hbin) as (b' & Hb' & Hk);
      pose proof Hk as [Hid _].
    + subst d. split; [by destruct (compareNodes _ _)|]. intros _ x [Hx Hxid%bool_decide_eq_true]%arr_find_Some.
      apply nodeIsSuperset_kept; [done|]. cbn [nf_node] in *.
      pose proof (by_id_in dn_id [] _ x Hn Hx) as G1. pose proof (by_id_in dn_id [] _ b' Hn Hb') as G2.
      rewrite Hxid, Hid, G2 in G1. by injection G1 as <-.
    + pose proof (by_id_in dn_id [] _ b' Hn Hb') as G2. rewrite <- Hid, Hbid in G2. unfold nodes_by_id in Ht. by rewrite Ht in G2.
Qed.

Lemma version_kept_strictly prev next :
  same_shapes prev next = true -> version_kept true prev next <-> version_kept false prev next.
Proof.
  unfold same_shapes, version_kept. rewrite forallb_forall. setoid_rewrite forallb_forall. setoid_rewrite <- list_elem_of_In. intros Hs.
  assert (forall a b, a ∈ wv_nodes prev -> b ∈ wv_nodes next -> node_kept true a b <-> node_kept false a b) as Hn.
  { intros a b Ha Hb. specialize (Hs a Ha b Hb). unfold node_kept. split; intros (Hid & Hf & Hv); (split_and!; [done..|]).
    - apply kept_strictly; [|done]. by rewrite (bool_decide_true _ Hid), negb_true_iff in Hs.
    - by apply kept_loosely. }
  split; intros (H & ? & ?); (split_and!; [|done..]); intros a Ha; destruct (H a Ha) as (b & Hb & Hk); exists b;
    (split; [done|]); by apply (Hn a b).
Qed.

(** [mergeAdditiveChanges] never throws, and says yes exactly when nothing is lost. *)
Lemma mergeAdditiveChanges_total prev next :
  exists b, mergeAdditiveChanges prev next (change_set prev next) = Ok b /\
    (distinct_ids prev -> distinct_ids next -> b = true <-> version_kept true prev next).
Proof.
  unfold mergeAdditiveChanges. destruct (nodes_additive_spec next _ (diff_has_next prev next)) as (b & -> & Hb). simpl.
  eexists. split; [done|]. intros [Hp _] [Hn Hg]. unfold version_kept. rewrite <- diff_additive, <- Hb by done.
  rewrite <- nodeGroupChanges_kept, <- removed_nothing by done. unfold change_set. cbn [cs_connections].
  destruct b; simpl; [|naive_solver]. destruct (decide (cd_removed (compareConnections (wv_connections prev) (wv_connections next)) = [])) as [E|E].
  - rewrite bool_decide_true by done. naive_solver.
  - rewrite bool_decide_false by done. naive_solver.
Qed.
End merge.
