(* ===== verification/HistoryRules.v ===== *)
(** * Workflow history: which versions to merge

    [packages/workflow/src/workflow-diff.ts], its rules and [groupWorkflows]: from the newest
    version to the oldest, a version is dropped when a rule says that the next one that
    stays makes it redundant.

    The second half says what grouping leaves. *)

From stdpp Require Import base gmap strings pretty list sorting.
From Stdlib Require Import ZArith Lia.
From S2P Require Import Prelude.
From S2P Require Import JsCollections.
From S2P Require Import EngineTypes.
From S2P Require Import Workflow.
From S2P Require Import HistoryConnections.
From S2P Require Import HistoryDiff.

Open Scope list_scope.
Open Scope nat_scope.

(** [DiffMetaData]: the size, where it was asked for. *)
Record DiffMetaData := { workflowSizeScore : option nat }.

(** [DiffRule]; a rule may throw. *)
Notation DiffRule := (WorkflowVersion -> WorkflowVersion -> WorkflowChangeSet -> DiffMetaData -> Prelude.result string bool).

(** ** The rules *)

Definition time_difference (prev next : WorkflowVersion) : Z := Z.abs (wv_createdAt next - wv_createdAt prev).

Definition makeSkipTimeDifference (timeDiffMs : Z) : DiffRule := fun prev next _ _ => Ok (timeDiffMs <? time_difference prev next)%Z.

Definition makeMergeShortTimeSpan (timeDiffMs : Z) (prev next : WorkflowVersion) : bool := (time_difference prev next <? timeDiffMs)%Z.

Definition larger_count (a b : nat * Z) : Prop := b.1 <= a.1.

#[export] Instance larger_count_dec : RelDecision larger_count.
Proof. intros a b. unfold larger_count. apply _. Defined.

(** The entries of the mapping, the largest count first. *)
Definition size_pairs (mapping : list (nat * Z)) : list (nat * Z) := merge_sort larger_count mapping.

Definition makeMergeDependingOnSizeRule (mapping : list (nat * Z)) : DiffRule := fun prev next _ metaData =>
  match workflowSizeScore metaData with
  | None => Ok false
  | Some score =>
      Ok (match arr_find (fun p => Nat.ltb p.1 score) (size_pairs mapping) with
          | Some (_, time) => makeMergeShortTimeSpan time prev next
          | None => false
          end)
  end.

Definition skipDifferentUsers : DiffRule := fun prev next _ _ => Ok (negb (bool_decide (wv_authors next = wv_authors prev))).

(** ** Grouping *)

Section grouping.
Context {L : Lodash}.

Definition mergeAdditiveChanges_rule : DiffRule := fun prev next diff _ => mergeAdditiveChanges prev next diff.

(** A loop over rules that leaves at the first one that says yes. *)
Fixpoint any_rule (rules : list DiffRule) (prev next : WorkflowVersion) (wcs : WorkflowChangeSet) (metaData : DiffMetaData) :
    Prelude.result string bool :=
  match rules with
  | [] => Ok false
  | rule :: rules => rule prev next wcs metaData ≫= fun b : bool => if b then Ok true else any_rule rules prev next wcs metaData
  end.

Section rules.
Context (rules skipRules : list DiffRule) (metaData : DiffMetaData).

(** The body of [diffLoop]: is the older of two neighbours to be dropped? *)
Definition merges (prev next : WorkflowVersion) : Prelude.result string bool :=
  let wcs := change_set prev next in
  any_rule skipRules prev next wcs metaData ≫= fun skip : bool =>
  if skip then Ok false else any_rule rules prev next wcs metaData.

(** [for (let i = n - 1; i > 0; --i)] over [remaining]. *)
Fixpoint diff_loop (i : nat) (remaining removed : list WorkflowVersion) :
    Prelude.result string (list WorkflowVersion * list WorkflowVersion) :=
  match i with
  | O => Ok (removed, remaining)
  | S j =>
      match remaining !! j, remaining !! i with
      | Some prev, Some next =>
          merges prev next ≫= fun shouldMerge : bool =>
          if shouldMerge then diff_loop j (delete j remaining) (removed ++ [prev]) else diff_loop j remaining removed
      | _, _ => Ok (removed, remaining)
      end
  end.
End rules.

Definition size_score (workflows : list WorkflowVersion) : nat :=
  let size i := from_option determineNodeParametersSize 0 (workflows !! i) in
  size (length workflows / 2) `max` size (length workflows - 1).

(** [groupWorkflows]: the versions that are dropped and those that stay. *)
Definition groupWorkflows (workflows : list WorkflowVersion) (rules skipRules : list DiffRule) (withSize : bool) :
    Prelude.result string (list WorkflowVersion * list WorkflowVersion) :=
  if Nat.leb (length workflows) 1 then Ok ([], workflows)
  else diff_loop rules skipRules {| workflowSizeScore := if withSize then Some (size_score workflows) else None |}
         (length workflows - 1) workflows [].
End grouping.

(** ** Workflow history: what grouping leaves

    [groupWorkflows] drops a version only for one that stays, newer and next to it among
    those that stay; the newest version always stays; and no two neighbours that stay could
    be merged. *)

Open Scope list_scope.
Open Scope nat_scope.

Section absorb.
Context {L : Lodash} (rules skipRules : list DiffRule) (metaData : DiffMetaData).

Notation mergeable := (merges rules skipRules metaData).

(** The loop as a recursion over the older versions, the newest of them first: [kept] are
    the versions that stay so far. *)
Fixpoint absorb (older kept removed : list WorkflowVersion) : Prelude.result string (list WorkflowVersion * list WorkflowVersion) :=
  match older, kept with
  | prev :: older, next :: _ =>
      mergeable prev next ≫= fun shouldMerge : bool =>
      if shouldMerge then absorb older kept (removed ++ [prev]) else absorb older (prev :: kept) removed
  | _, _ => Ok (removed, kept)
  end.

Lemma diff_loop_absorb i remaining removed :
  i < length remaining ->
  diff_loop rules skipRules metaData i remaining removed = absorb (reverse (take i remaining)) (drop i remaining) removed.
Proof.
  revert remaining removed. induction i as [|j IH]; intros remaining removed Hi; [done|].
  destruct (lookup_lt_is_Some_2 remaining j) as [prev Hp]; [lia|].
  destruct (lookup_lt_is_Some_2 remaining (S j)) as [next Hn]; [lia|].
  cbn [diff_loop]. rewrite Hp, Hn, (take_S_r _ _ _ Hp), reverse_snoc, (drop_S _ _ _ Hn). cbn [absorb].
  destruct (mergeable prev next) as [[]|e]; simpl; [| |done].
  - rewrite IH by (rewrite length_delete by done; lia).
    assert (length (take j remaining) = j) as Hl by (rewrite length_take; lia).
    rewrite delete_take_drop, take_app_length', drop_app_length', (drop_S _ _ _ Hn) by done. done.
  - rewrite IH, (drop_S _ _ _ Hp), (drop_S _ _ _ Hn) by lia. done.
Qed.

(** No two neighbours merge. *)
Definition settled (l : list WorkflowVersion) : Prop :=
  forall i a b, l !! i = Some a -> l !! S i = Some b -> mergeable a b = Ok false.

Lemma settled_cons a b l : mergeable a b = Ok false -> settled (b :: l) -> settled (a :: b :: l).
Proof. intros Hab Hl [|i] x y Hx Hy; [by simplify_eq/=|by apply (Hl i)]. Qed.

(** [v] was dropped for [s]. *)
Definition dropped_for (ws rem : list WorkflowVersion) (v : WorkflowVersion) : Prop :=
  exists s, s ∈ rem /\ [v; s] `sublist_of` ws /\ mergeable v s = Ok true.

Lemma dropped_weaken ws ws' rem rem' v :
  dropped_for ws rem v -> ws `sublist_of` ws' -> rem ⊆ rem' -> dropped_for ws' rem' v.
Proof. intros (s & Hs & Hvs & Hm) Hws Hrem. exists s. split_and!; [by apply Hrem|by etrans|done]. Qed.

Lemma absorb_spec older next kept removed rm rem :
  absorb older (next :: kept) removed = Ok (rm, rem) -> settled (next :: kept) ->
  exists rm' front, rm = removed ++ rm' /\ rem = front ++ next :: kept /\
    front `sublist_of` reverse older /\ front ++ rm' ≡ₚ older /\ settled rem /\
    Forall (dropped_for (reverse older ++ next :: kept) rem) rm'.
Proof.
  revert next kept removed. induction older as [|prev older IH]; intros next kept removed Ha Hst.
  { injection Ha as <- <-. exists [], []. rewrite app_nil_r. split_and!; (done || constructor). }
  cbn [absorb] in Ha. destruct (mergeable prev next) as [[]|e] eqn:Hm; simpl in Ha; [| |done]; rewrite reverse_cons.
  - destruct (IH _ _ _ Ha Hst) as (rm' & front & -> & -> & Hsub & Hp & Hs & Hall). exists (prev :: rm'), front.
    rewrite <- !app_assoc. split_and!; [done|done|by apply sublist_inserts_r| |done|].
    + rewrite <- Hp. by rewrite Permutation_middle.
    + constructor.
      * exists next. split_and!; [set_solver| |done]. apply sublist_inserts_l. by do 2 apply sublist_skip; apply sublist_nil_l.
      * eapply Forall_impl; [exact Hall|]. intros v Hv. eapply dropped_weaken; [exact Hv| |done].
        simpl. apply sublist_app; [done|]. by apply sublist_cons.
  - destruct (IH _ _ _ Ha) as (rm' & front & -> & -> & Hsub & Hp & Hs & Hall); [by apply settled_cons|].
    exists rm', (front ++ [prev]). rewrite <- !app_assoc. split_and!; [done|done|by apply sublist_app| |done|].
    + rewrite <- Hp. simpl. by rewrite <- Permutation_middle.
    + done.
Qed.
End absorb.

(** The size rule goes by the largest count that the size exceeds. *)
Lemma find_largest (score : nat) (l : list (nat * Z)) p :
  StronglySorted larger_count l -> arr_find (fun q => Nat.ltb q.1 score) l = Some p ->
  p ∈ l /\ p.1 < score /\ forall q, q ∈ l -> q.1 < score -> q.1 <= p.1.
Proof.
  induction 1 as [|q l Hl IH Hq]; [done|]. simpl. destruct (Nat.ltb_spec q.1 score) as [Hlt|Hge].
  - intros [= ->]. split_and!; [by left|done|]. intros r [->|Hr]%elem_of_cons _; [done|].
    rewrite Forall_forall in Hq. by apply Hq.
  - intros (Hin & Hlt & Hmax)%IH. split_and!; [by right|done|]. intros r [->|Hr]%elem_of_cons; [lia|by apply Hmax].
Qed.

Lemma size_rule_spec mapping prev next wcs score :
  NoDup mapping.*1 ->
  exists b, makeMergeDependingOnSizeRule mapping prev next wcs {| workflowSizeScore := Some score |} = Ok b /\
    (b = true <-> exists count time, (count, time) ∈ mapping /\ count < score /\
       (forall c t, (c, t) ∈ mapping -> c < score -> c <= count) /\ (time_difference prev next < time)%Z).
Proof.
  intros Hnd. unfold makeMergeDependingOnSizeRule. cbn [workflowSizeScore]. eexists. split; [done|].
  assert (size_pairs mapping ≡ₚ mapping) as Hp by apply merge_sort_Permutation.
  assert (StronglySorted larger_count (size_pairs mapping)) as Hs.
  { apply Sorted_StronglySorted; [intros ???; unfold larger_count; lia|].
    apply Sorted_merge_sort. intros a b. unfold larger_count. lia. }
  destruct (arr_find _ _) as [[count time]|] eqn:Hf.
  - apply (find_largest score _ _ Hs) in Hf as (Hin & Hlt & Hmax). rewrite Hp in Hin. unfold makeMergeShortTimeSpan. rewrite Z.ltb_lt.
    split.
    + intros Ht. exists count, time. split_and!; try done. intros c t Hc Hcs. apply (Hmax (c, t)); [by rewrite Hp|done].
    + intros (count' & time' & Hin' & Hlt' & Hmax' & Ht). simpl in *.
      assert (count' = count) as -> by (apply Nat.le_antisymm; [apply (Hmax (count', time')); [by rewrite Hp|done]|by eapply Hmax']).
      apply (elem_of_map_get _ _ _ Hnd) in Hin, Hin'. congruence.
  - split; [done|]. intros (count & time & Hin & Hlt & _). rewrite arr_find_None in Hf. specialize (Hf (count, time)).
    rewrite Hp in Hf. apply Hf in Hin. simpl in Hin. apply Nat.ltb_ge in Hin. lia.
Qed.

Lemma groups_spec {L : Lodash} (ws rm rem : list WorkflowVersion) (rules skipRules : list DiffRule) (withSize : bool) :
  groupWorkflows ws rules skipRules withSize = Ok (rm, rem) ->
  let metaData := {| workflowSizeScore := if withSize then Some (size_score ws) else None |} in
  rem ++ rm ≡ₚ ws /\ rem `sublist_of` ws /\ last rem = last ws /\
  Forall (dropped_for rules skipRules metaData ws rem) rm /\ settled rules skipRules metaData rem.
Proof.
  unfold groupWorkflows. cbv zeta. set (metaData := {| workflowSizeScore := _ |}).
  destruct (Nat.leb_spec (length ws) 1) as [Hle|Hgt].
  { intros [= <- <-]. rewrite app_nil_r. split_and!; [done..|]. intros i a b Ha Hb. apply lookup_lt_Some in Hb. lia. }
  intros Hd. rewrite diff_loop_absorb in Hd by lia.
  destruct ws as [|x l _] using rev_ind; [simpl in Hgt; lia|].
  rewrite length_app in *. simpl in *. replace (length l + 1 - 1) with (length l) in Hd by lia.
  rewrite take_app_length, drop_app_length in Hd.
  apply absorb_spec in Hd as (rm' & front & -> & -> & Hsub & Hp & Hs & Hall); [|by intros [|i]].
  rewrite reverse_involutive in *. rewrite !last_snoc. split_and!; [|by apply sublist_app|done..].
  rewrite <- app_assoc. simpl. rewrite <- !Permutation_middle, Hp, reverse_Permutation. by rewrite app_nil_r.
Qed.
