(* ===== verification/HistoryCompaction.v ===== *)
(** * Workflow history: compaction

    [WorkflowHistoryRepository] (what compaction uses of it) and
    [WorkflowHistoryCompactionService]: a pass goes through the workflows with versions in
    a window of time, and drops the versions that the rules find redundant.

    [pruneHistory] makes three statements, in no transaction: it reads the versions, reads
    which were published, and deletes by id.  What the statements of other sessions make of
    the database before each of them is a parameter, a function for each statement of each
    workflow, so any writing in between is covered.

    The order in which the database returns versions of the same instant is a parameter.
    Windows are given in milliseconds; the waits between batches, logging and the event at
    the end of a pass are left out.

    At the end a small history, to evaluate passes on. *)

From stdpp Require Import base gmap strings pretty list sorting.
From Stdlib Require Import ZArith Lia.
From S2P Require Import Prelude.
From S2P Require Import JsCollections.
From S2P Require Import EngineTypes.
From S2P Require Import Workflow.
From S2P Require Import HistoryConnections.
From S2P Require Import HistoryDiff.
From S2P Require Import HistoryMerge.
From S2P Require Import HistoryRules.

Open Scope list_scope.
Open Scope nat_scope.

(** The tables [workflow_history] and [workflow_publish_history]. *)
Record HistoryDb := {
  hd_versions : list WorkflowVersion;
  hd_published : list (string * option string);
}.

Definition with_versions (l : list WorkflowVersion) (db : HistoryDb) : HistoryDb :=
  {| hd_versions := l; hd_published := hd_published db |}.

Definition in_range (startDate endDate : Z) (v : WorkflowVersion) : bool :=
  ((wv_createdAt v <=? endDate) && (startDate <=? wv_createdAt v))%Z.

Definition getPublishedVersions (workflowId : string) (db : HistoryDb) : list (option string) :=
  set_of_list (filter (fun p => p.1 = workflowId) (hd_published db)).*2.

Definition makeSkipActiveAndNamedVersionsRule (activeVersions : list string) : DiffRule := fun prev _ _ _ =>
  Ok (bool_decide (is_Some (wv_name prev)) || bool_decide (is_Some (wv_description prev)) ||
      bool_decide (wv_versionId prev ∈ activeVersions)).

Definition getWorkflowIdsInRange (startDate endDate : Z) (db : HistoryDb) : list string :=
  set_of_list (wv_workflowId <$> arr_filter (in_range startDate endDate) (hd_versions db)).

Definition active_versions (published : list (option string)) : list string := set_of_list (omap id published).

(** [delete({ versionId: In(ids) })]. *)
Definition delete_versions (ids : list string) (db : HistoryDb) : HistoryDb :=
  with_versions (filter (fun v => wv_versionId v ∉ ids) (hd_versions db)) db.

Section compaction.
Context {L : Lodash} (order : list WorkflowVersion -> list WorkflowVersion).

(** What [pruneHistory] reads. *)
Definition versions_in_window (workflowId : string) (startDate endDate : Z) (db : HistoryDb) : list WorkflowVersion :=
  order (filter (fun v => wv_workflowId v = workflowId /\ in_range startDate endDate v = true) (hd_versions db)).

Definition prune_rules (publishedVersions : list (option string)) (skipRules : list DiffRule) : list DiffRule :=
  [makeSkipActiveAndNamedVersionsRule (active_versions publishedVersions); skipDifferentUsers] ++ skipRules.

(** [pruneHistory]: how many versions it saw and deleted, or what it throws, and the
    database.  [others 1] and [others 2] are what other sessions make of the database before
    its second and its third statement. *)
Definition pruneHistory (workflowId : string) (startDate endDate : Z) (rules skipRules : list DiffRule) (withSize : bool)
    (others : nat -> HistoryDb -> HistoryDb) (db : HistoryDb) : Prelude.result string (nat * nat) * HistoryDb :=
  let workflows := versions_in_window workflowId startDate endDate db in
  let db := others 1 db in
  let publishedVersions := getPublishedVersions workflowId db in
  match groupWorkflows workflows rules (prune_rules publishedVersions skipRules) withSize with
  | Err e => (Err e, db)
  | Ok (removed, _) =>
      let db := others 2 db in
      (Ok (length workflows, length removed), delete_versions (wv_versionId <$> removed) db)
  end.

(** ** A pass *)

Record CompactionStats := {
  workflowsProcessed : nat;
  totalVersionsSeen : nat;
  totalVersionsDeleted : nat;
  errorCount : nat;
}.

Definition no_stats : CompactionStats :=
  {| workflowsProcessed := 0; totalVersionsSeen := 0; totalVersionsDeleted := 0; errorCount := 0 |}.

Definition processed (t : CompactionStats) : CompactionStats :=
  {| workflowsProcessed := S (workflowsProcessed t); totalVersionsSeen := totalVersionsSeen t;
     totalVersionsDeleted := totalVersionsDeleted t; errorCount := errorCount t |}.

Definition count_pruned (seen deleted : nat) (t : CompactionStats) : CompactionStats :=
  {| workflowsProcessed := workflowsProcessed t; totalVersionsSeen := totalVersionsSeen t + seen;
     totalVersionsDeleted := totalVersionsDeleted t + deleted; errorCount := errorCount t |}.

Definition count_error (t : CompactionStats) : CompactionStats :=
  {| workflowsProcessed := workflowsProcessed t; totalVersionsSeen := totalVersionsSeen t;
     totalVersionsDeleted := totalVersionsDeleted t; errorCount := S (errorCount t) |}.

Section pass.
Context (startDate endDate : Z) (rules skipRules : list DiffRule) (withSize : bool).
(** Whether the signal is aborted when the loop looks at it, and whether the database fails
    a workflow's statements. *)
Context (aborted fails : nat -> bool).
(** What other sessions make of the database before a statement of a workflow. *)
Context (others : nat -> nat -> HistoryDb -> HistoryDb).

Fixpoint compact_loop (index : nat) (workflowIds : list string) (stats : CompactionStats) (db : HistoryDb) : CompactionStats * HistoryDb :=
  match workflowIds with
  | [] => (stats, db)
  | workflowId :: workflowIds =>
      if aborted index then (stats, db)
      else
        let stats := processed stats in
        let db := others index 0 db in
        match (if fails index then (Err "the database failed"%string, db)
               else pruneHistory workflowId startDate endDate rules skipRules withSize (others index) db) with
        | (Ok (seen, deleted), db) => compact_loop (S index) workflowIds (count_pruned seen deleted stats) db
        | (Err _, db) => compact_loop (S index) workflowIds (count_error stats) db
        end
  end.

Definition compactHistories (db : HistoryDb) : CompactionStats * HistoryDb :=
  compact_loop 0 (getWorkflowIdsInRange startDate endDate db) no_stats db.
End pass.

Definition minute : Z := 60 * 1000.
Definition hour : Z := 60 * minute.

Definition trimming_mapping : list (nat * Z) :=
  [(0, minute); (100, (10 * minute)%Z); (1000, (2 * hour)%Z); (5000, (5 * hour)%Z); (10000, (10 * hour)%Z)].

(** The flags of the service: a pass that overlaps a running one is skipped. *)
Record CompactionState := { isOptimizingHistories : bool; isTrimmingHistories : bool }.

(** [trimLongRunningHistories] and [optimizeHistories]: [None] where the pass is skipped. *)
Definition trimLongRunningHistories (startDate endDate : Z) (aborted fails : nat -> bool)
    (others : nat -> nat -> HistoryDb -> HistoryDb) (st : CompactionState) (db : HistoryDb) :
    option (CompactionStats * HistoryDb) :=
  if isTrimmingHistories st then None
  else Some (compactHistories startDate endDate [makeMergeDependingOnSizeRule trimming_mapping] [] true aborted fails others db).

Definition optimizeHistories (startDate endDate : Z) (aborted fails : nat -> bool)
    (others : nat -> nat -> HistoryDb -> HistoryDb) (st : CompactionState) (db : HistoryDb) :
    option (CompactionStats * HistoryDb) :=
  if isOptimizingHistories st then None
  else Some (compactHistories startDate endDate [mergeAdditiveChanges_rule] [makeSkipTimeDifference (20 * minute)] false aborted fails others db).
End compaction.

(** ** Workflow history: a small history

    [pick] and [isEqual] as functions, a database that sorts, and a workflow with a few
    versions, on which the theorems and the cases of [HistoryResults] are evaluated. *)

Open Scope list_scope.
Open Scope nat_scope.

(** ** The parameters *)

Definition sample_pick (o : list (string * JsonValue)) (keys : list string) : list (string * JsonValue) :=
  omap (fun key => pair key <$> map_get key o) (set_of_list keys).

#[export] Instance sample_lodash : Lodash := {| pick := sample_pick; isEqual := deep_equal |}.

Lemma sample_pick_get (o : list (string * JsonValue)) (keys : list string) (key : string) :
  map_get key (omap (fun key => pair key <$> map_get key o) keys) = if decide (key ∈ keys) then map_get key o else None.
Proof.
  induction keys as [|k keys IH]; [done|]. cbn [omap list_omap]. destruct (map_get k o) as [v|] eqn:Hk; cbn [fmap option_fmap option_map].
  - cbn [map_get]. destruct (decide (k = key)) as [->|Hne].
    + by rewrite decide_True by (by left).
    + rewrite IH. destruct (decide (key ∈ keys)); [by rewrite decide_True by (by right)|].
      rewrite decide_False by (rewrite elem_of_cons; naive_solver). done.
  - rewrite IH. destruct (decide (key ∈ keys)); [by rewrite decide_True by (by right)|].
    destruct (decide (key ∈ k :: keys)) as [[->|?]%elem_of_cons|]; done.
Qed.

Lemma sample_pick_keys (o : list (string * JsonValue)) (keys : list string) : NoDup keys -> NoDup (omap (fun key => pair key <$> map_get key o) keys).*1.
Proof.
  induction 1 as [|k keys Hk Hnd IH]; [apply NoDup_nil_2|]. cbn [omap list_omap].
  destruct (map_get k o) as [v|]; cbn [fmap option_fmap option_map list_fmap]; [|done]. apply NoDup_cons. split; [|done].
  intros ([k' v'] & Hkv & (k'' & Hin & Hv)%list_elem_of_omap)%list_elem_of_fmap. simpl in Hkv. subst k'.
  destruct (map_get k'' o); naive_solver.
Qed.

#[export] Instance sample_lodash_laws : LodashLaws sample_lodash.
Proof.
  split; [|intros; apply sample_pick_keys, set_of_list_NoDup|done].
  intros o keys key. cbn [pick sample_lodash]. unfold sample_pick. rewrite sample_pick_get.
  destruct (decide (key ∈ keys)) as [Hin|Hni].
  - by rewrite decide_True by (by apply elem_of_set_of_list).
  - by rewrite decide_False by (by rewrite elem_of_set_of_list).
Qed.

#[export] Instance created_before_dec : RelDecision (fun a b : WorkflowVersion => (wv_createdAt a <= wv_createdAt b)%Z).
Proof. intros a b. apply _. Defined.

Definition sample_order : list WorkflowVersion -> list WorkflowVersion :=
  merge_sort (fun a b => (wv_createdAt a <= wv_createdAt b)%Z).

Lemma sample_order_ok l : sample_order l ≡ₚ l /\ StronglySorted (fun a b => (wv_createdAt a <= wv_createdAt b)%Z) (sample_order l).
Proof.
  split; [apply merge_sort_Permutation|]. apply Sorted_StronglySorted; [intros ???; lia|].
  apply Sorted_merge_sort. intros a b. lia.
Qed.

(** ** A history *)

Definition set_node (text : string) : DiffableNode :=
  {| dn_id := "1"; dn_parameters := [("text"%string, JStr text)]; dn_fields := [("name"%string, JStr "Set")] |}.

Definition code_node : DiffableNode := {| dn_id := "2"; dn_parameters := []; dn_fields := [("name"%string, JStr "Code")] |}.

Definition version (versionId author : string) (createdAt : Z) (nodes : list DiffableNode) (connections : IConnections) : WorkflowVersion :=
  {| wv_versionId := versionId; wv_workflowId := "w"; wv_nodes := nodes; wv_connections := connections; wv_nodeGroups := None;
     wv_authors := Some author; wv_name := None; wv_description := None; wv_createdAt := createdAt |}.

Definition set_to_code : IConnections :=
  [("Set"%string, [(Main, [Some [{| ic_node := "Code"; ic_type := Main; ic_index := 0 |}]])])].

(** Text is typed, a node is added, and somebody else removes a node. *)
Definition sample_versions : list WorkflowVersion :=
  [version "v1" "ann" 0 [set_node "the quick"] [];
   version "v2" "ann" (5 * minute) [set_node "the quick brown fox"] [];
   version "v3" "ann" (6 * minute) [set_node "the quick brown fox"; code_node] set_to_code;
   version "v4" "bob" (7 * minute) [code_node] []].

Definition sample_db : HistoryDb := {| hd_versions := sample_versions; hd_published := [] |}.

Definition idle : CompactionState := {| isOptimizingHistories := false; isTrimmingHistories := false |}.
Definition never (_ : nat) : bool := false.

(** Nothing else writes meanwhile. *)
Definition alone (_ : nat) (db : HistoryDb) : HistoryDb := db.
Definition all_alone (_ : nat) : nat -> HistoryDb -> HistoryDb := alone.

Definition version_ids (db : HistoryDb) : list string := wv_versionId <$> hd_versions db.

(** The three versions of the first author become one. *)
Lemma sample_optimized :
  match optimizeHistories sample_order 0 hour never never all_alone idle sample_db with
  | Some (stats, db) => version_ids db = ["v3"; "v4"]%string /\ totalVersionsDeleted stats = 2 /\ errorCount stats = 0
  | None => False
  end.
Proof. vm_compute. auto. Qed.
