(* ===== verification/HistoryResults.v ===== *)
(** * Workflow history: what compaction guarantees

    A version is deleted only for one that stays: of the same workflow and author, not
    older, and, when histories are optimized, holding what is compared of the deleted one.
    Between the statements of a pass other sessions may write, so what the rules look at is a
    version as it was read. *)

From stdpp Require Import base gmap strings pretty list sorting.
From Stdlib Require Import ZArith Lia.
From S2P Require Import Prelude.
From S2P Require Import JsCollections.
From S2P Require Import EngineTypes.
From S2P Require Import Workflow.
From S2P Require Import HistoryConnections.
From S2P Require Import HistoryDiff.
From S2P Require Import HistoryMerge.
From S2P Require Import HistoryRules.
From S2P Require Import HistoryCompaction.
Open Scope list_scope.
Open Scope nat_scope.

(** ** Rules that do not throw *)

Section total.
Context {L : Lodash}.

Definition never_throws (rule : DiffRule) : Prop :=
  forall prev next metaData, is_ok (rule prev next (change_set prev next) metaData) = true.

Lemma any_rule_total rules prev next metaData :
  Forall never_throws rules -> exists b, any_rule rules prev next (change_set prev next) metaData = Ok b.
Proof.
  induction 1 as [|rule rules Hr _ [b Hb]]; [by exists false|]. simpl. specialize (Hr prev next metaData).
  destruct (rule _ _ _ _) as [[]|]; [by exists true| |done]. simpl. by exists b.
Qed.

(** [any_rule] says yes for one of the rules. *)
Lemma any_rule_true rules prev next wcs metaData :
  any_rule rules prev next wcs metaData = Ok true -> exists rule, rule ∈ rules /\ rule prev next wcs metaData = Ok true.
Proof.
  induction rules as [|rule rules IH]; [done|]. simpl. destruct (rule _ _ _ _) as [[]|] eqn:Hr; simpl; [|set_solver|done].
  intros _. exists rule. split; [by left|done].
Qed.

Lemma any_rule_false rules prev next wcs metaData :
  any_rule rules prev next wcs metaData = Ok false -> Forall (fun rule => rule prev next wcs metaData = Ok false) rules.
Proof.
  induction rules as [|rule rules IH]; [constructor|]. simpl. destruct (rule _ _ _ _) as [[]|] eqn:Hr; simpl; [done| |done].
  intros H. constructor; auto.
Qed.

Lemma merges_total rules skipRules metaData prev next :
  Forall never_throws rules -> Forall never_throws skipRules -> exists b, merges rules skipRules metaData prev next = Ok b.
Proof.
  intros Hr Hs. unfold merges. destruct (any_rule_total skipRules prev next metaData Hs) as [[] ->]; simpl; [by exists false|].
  by apply any_rule_total.
Qed.

Lemma merges_true rules skipRules metaData prev next :
  merges rules skipRules metaData prev next = Ok true ->
  Forall (fun rule => rule prev next (change_set prev next) metaData = Ok false) skipRules /\
  exists rule, rule ∈ rules /\ rule prev next (change_set prev next) metaData = Ok true.
Proof.
  unfold merges. destruct (any_rule skipRules _ _ _ _) as [[]|] eqn:Hs; simpl; [done| |done].
  intros H. split; [by apply any_rule_false|by apply any_rule_true].
Qed.

Lemma absorb_total rules skipRules metaData older kept removed :
  Forall never_throws rules -> Forall never_throws skipRules ->
  is_ok (absorb rules skipRules metaData older kept removed) = true.
Proof.
  intros Hr Hs. revert kept removed. induction older as [|prev older IH]; intros [|next kept] removed; try done. simpl.
  destruct (merges_total rules skipRules metaData prev next Hr Hs) as [[] ->]; simpl; apply IH.
Qed.

Lemma groupWorkflows_total ws rules skipRules withSize :
  Forall never_throws rules -> Forall never_throws skipRules -> is_ok (groupWorkflows ws rules skipRules withSize) = true.
Proof.
  intros Hr Hs. unfold groupWorkflows. destruct (Nat.leb_spec (length ws) 1); [done|].
  rewrite diff_loop_absorb by lia. by apply absorb_total.
Qed.
End total.

(** ** One workflow *)

Definition created_before (a b : WorkflowVersion) : Prop := (wv_createdAt a <= wv_createdAt b)%Z.

(** The database returns the versions it is asked for, the oldest first. *)
Definition orders (order : list WorkflowVersion -> list WorkflowVersion) : Prop :=
  forall l, order l ≡ₚ l /\ StronglySorted created_before (order l).

Lemma sorted_pair (l : list WorkflowVersion) a b : StronglySorted created_before l -> [a; b] `sublist_of` l -> created_before a b.
Proof.
  induction 1 as [|x l Hl IH Hx]; [intros Hs%sublist_nil_r; done|].
  intros [Hs|(l' & [= <- <-] & Hs)]%sublist_cons_r; [by apply IH|].
  rewrite Forall_forall in Hx. apply Hx. eapply sublist_subseteq; [exact Hs|by left].
Qed.

(** Nobody asked to keep this version: it has no name and no description, and was never
    published. *)
Definition unmarked (db : HistoryDb) (v : WorkflowVersion) : Prop :=
  wv_name v = None /\ wv_description v = None /\ (wv_workflowId v, Some (wv_versionId v)) ∉ hd_published db.

(** Why the version with this id is deleted, of a workflow read in [db], its published
    versions read in [dbp], deleted from [dbd], which leaves [db']: as it was read it was in
    the window and unmarked, and one was read with it, of the same workflow and author, not
    older and related to it by [P], that the deletion leaves alone. *)
Definition chosen (P : WorkflowVersion -> WorkflowVersion -> Prop) (id : string) (startDate endDate : Z)
    (db dbp dbd db' : HistoryDb) (versionId : string) : Prop :=
  exists r s, r ∈ hd_versions db /\ wv_versionId r = versionId /\ wv_workflowId r = id /\ in_range startDate endDate r = true /\
    unmarked dbp r /\ s ∈ hd_versions db /\ wv_workflowId s = id /\ wv_authors s = wv_authors r /\ created_before r s /\ P r s /\
    forall s', s' ∈ hd_versions dbd -> wv_versionId s' = wv_versionId s -> s' ∈ hd_versions db'.

(** Where keys are distinct, a key stands for one version. *)
Lemma same_key {B} (f : WorkflowVersion -> B) (l : list WorkflowVersion) v v' :
  NoDup (f <$> l) -> v ∈ l -> v' ∈ l -> f v = f v' -> v = v'.
Proof.
  intros Hnd [i Hi]%list_elem_of_lookup [j Hj]%list_elem_of_lookup Heq. assert (i = j) as <-; [|congruence].
  eapply (NoDup_lookup _ _ _ (f v) Hnd); rewrite list_lookup_fmap; [by rewrite Hi|by rewrite Hj, Heq].
Qed.

Section prune.
Context {L : Lodash}.
Context (order : list WorkflowVersion -> list WorkflowVersion) (order_ok : orders order).
Context (startDate endDate : Z) (rules skipRules : list DiffRule) (withSize : bool).

Notation window id db := (versions_in_window order id startDate endDate db).

Lemma elem_of_window id db v :
  v ∈ window id db <-> v ∈ hd_versions db /\ wv_workflowId v = id /\ in_range startDate endDate v = true.
Proof. unfold versions_in_window. rewrite (proj1 (order_ok _)), list_elem_of_filter. naive_solver. Qed.

Lemma window_ids id db : NoDup (wv_versionId <$> hd_versions db) -> NoDup (wv_versionId <$> window id db).
Proof.
  intros Hnd. unfold versions_in_window. rewrite (proj1 (order_ok _)).
  eapply submseteq_NoDup; [|exact Hnd]. apply submseteq_fmap, sublist_submseteq, sublist_filter.
Qed.

Lemma elem_of_active id db versionId :
  versionId ∈ active_versions (getPublishedVersions id db) <-> (id, Some versionId) ∈ hd_published db.
Proof.
  unfold active_versions, getPublishedVersions. rewrite elem_of_set_of_list, list_elem_of_omap. setoid_rewrite elem_of_set_of_list. split.
  - intros (o & ([id' o'] & -> & [Hid Hin]%list_elem_of_filter)%list_elem_of_fmap & Ho). simpl in *. by subst.
  - intros Hin. exists (Some versionId). split; [|done]. apply list_elem_of_fmap. exists (id, Some versionId).
    by rewrite list_elem_of_filter.
Qed.

(** The rules that every pass adds. *)
Lemma prune_rules_false id db metaData v s :
  Forall (fun rule => rule v s (change_set v s) metaData = Ok false) (prune_rules (getPublishedVersions id db) skipRules) ->
  wv_workflowId v = id ->
  unmarked db v /\ wv_authors s = wv_authors v /\ Forall (fun rule => rule v s (change_set v s) metaData = Ok false) skipRules.
Proof.
  unfold prune_rules. simpl. intros [Hm [Ha Hs]%Forall_cons]%Forall_cons Hid. split_and!; [| |done].
  - injection Hm as Hm. apply orb_false_iff in Hm as [[Hn Hd]%orb_false_iff Hp].
    apply bool_decide_eq_false in Hn, Hd, Hp. rewrite elem_of_active in Hp. unfold unmarked. rewrite Hid.
    split_and!; [by apply eq_None_not_Some|by apply eq_None_not_Some|done].
  - injection Ha as Ha. by apply negb_false_iff, bool_decide_eq_true in Ha.
Qed.

(** What [pruneHistory] deletes, and that it deletes nothing else, whatever other sessions
    do between its statements. *)
Lemma pruneHistory_safe (P : WorkflowVersion -> WorkflowVersion -> Prop) id others db r db' :
  NoDup (wv_versionId <$> hd_versions db) ->
  (forall metaData v s, v ∈ hd_versions db -> s ∈ hd_versions db ->
     Forall (fun rule => rule v s (change_set v s) metaData = Ok false) skipRules ->
     (exists rule, rule ∈ rules /\ rule v s (change_set v s) metaData = Ok true) -> P v s) ->
  pruneHistory order id startDate endDate rules skipRules withSize others db = (r, db') ->
  let dbp := others 1 db in let dbd := others 2 dbp in
  (is_ok r = false /\ db' = dbp) \/
  (is_ok r = true /\ hd_published db' = hd_published dbd /\ hd_versions db' `sublist_of` hd_versions dbd /\
   forall v, v ∈ hd_versions dbd -> v ∈ hd_versions db' \/ chosen P id startDate endDate db dbp dbd db' (wv_versionId v)).
Proof.
  intros Hnd HP. unfold pruneHistory. cbv zeta.
  destruct (groupWorkflows _ _ _ _) as [[rm rem]|] eqn:Hg; intros [= <- <-]; [right|by left].
  split; [done|]. split; [done|]. split; [apply sublist_filter|].
  destruct (groups_spec _ _ _ _ _ _ Hg) as (Hperm & _ & _ & Hall & _). intros v Hv.
  destruct (decide (wv_versionId v ∈ wv_versionId <$> rm)) as [(r & Hr & Hrm)%list_elem_of_fmap|Hrm];
    [right|left; by apply list_elem_of_filter].
  assert (r ∈ window id db) as (Hrin & Hid & Hrange)%elem_of_window by (rewrite <- Hperm; set_solver).
  rewrite Forall_forall in Hall. destruct (Hall r Hrm) as (s & Hs & Hrs & Hm).
  assert (s ∈ window id db) as (Hsin & Hsid & _)%elem_of_window by (rewrite <- Hperm; set_solver).
  apply merges_true in Hm as [Hskip Hrule]. apply prune_rules_false in Hskip as (Hum & Hau & Hskip); [|done].
  exists r, s. split_and!; [done..| |by eapply HP|].
  - apply (sorted_pair (window id db)); [|done]. unfold versions_in_window. by apply order_ok.
  - intros s' Hs' Heq. apply list_elem_of_filter. split; [|done]. rewrite Heq.
    pose proof (window_ids id db Hnd) as Hw. rewrite <- Hperm, fmap_app in Hw. apply NoDup_app in Hw as (_ & Hw & _).
    by apply Hw, list_elem_of_fmap_2.
Qed.

Lemma window_of_versions id db db' : hd_versions db = hd_versions db' -> window id db = window id db'.
Proof. unfold versions_in_window. by intros ->. Qed.

(** The versions that stay in the window, in their order, are those that grouping keeps. *)
Lemma window_after id db rm rem :
  NoDup (wv_versionId <$> hd_versions db) -> NoDup (wv_createdAt <$> window id db) ->
  rem ++ rm ≡ₚ window id db -> rem `sublist_of` window id db ->
  window id (delete_versions (wv_versionId <$> rm) db) = rem.
Proof.
  intros Hnd Hct Hperm Hsub. pose proof (window_ids id db Hnd) as Hw.
  assert (window id (delete_versions (wv_versionId <$> rm) db) ≡ₚ rem) as Hp.
  { apply NoDup_Permutation.
    - apply (NoDup_fmap_1 wv_versionId), window_ids. eapply submseteq_NoDup; [|exact Hnd].
      apply submseteq_fmap, sublist_submseteq, sublist_filter.
    - apply (NoDup_fmap_1 wv_versionId). eapply submseteq_NoDup; [|exact Hw]. by apply submseteq_fmap, sublist_submseteq.
    - intros v. rewrite elem_of_window. unfold delete_versions. cbn [hd_versions with_versions]. rewrite list_elem_of_filter. split.
      + intros ((Hni & Hin) & Hid & Hr). assert (v ∈ rem ++ rm) as Hv by (rewrite Hperm; by apply elem_of_window).
        apply elem_of_app in Hv as [?|Hv]; [done|]. destruct Hni. by apply list_elem_of_fmap_2.
      + intros Hv. assert (v ∈ window id db) as (? & ? & ?)%elem_of_window by (rewrite <- Hperm; set_solver).
        split_and!; [|done..]. rewrite <- Hperm, fmap_app in Hw. apply NoDup_app in Hw as (_ & Hw & _).
        by apply Hw, list_elem_of_fmap_2. }
  eapply (StronglySorted_unique_strong created_before); [| | |exact Hp].
  - intros a b Ha Hb Hab Hba. apply (same_key wv_createdAt _ _ _ Hct); [..|unfold created_before in *; lia].
    + rewrite <- Hperm. rewrite Hp in Ha. set_solver.
    + rewrite <- Hperm. set_solver.
  - unfold versions_in_window. apply order_ok.
  - assert (StronglySorted created_before (window id db)) as Hs by (unfold versions_in_window; apply order_ok).
    revert Hs Hsub. clear. generalize (window id db). intros l Hs. revert rem. induction Hs as [|x l Hl IH Hx]; intros rem Hr.
    + apply sublist_nil_r in Hr as ->. constructor.
    + apply sublist_cons_r in Hr as [Hr|(l' & -> & Hr)]; [by apply IH|]. constructor; [by apply IH|].
      rewrite Forall_forall in *. intros y Hy. apply Hx. by eapply sublist_subseteq.
Qed.
End prune.

(** ** A pass *)

(** What is stored of a version, its name and description apart. *)
Definition same_content (v v' : WorkflowVersion) : Prop :=
  wv_versionId v' = wv_versionId v /\ wv_workflowId v' = wv_workflowId v /\ wv_nodes v' = wv_nodes v /\
  wv_connections v' = wv_connections v /\ wv_nodeGroups v' = wv_nodeGroups v /\ wv_authors v' = wv_authors v /\
  wv_createdAt v' = wv_createdAt v.

#[export] Instance same_content_preorder : PreOrder same_content.
Proof. split; [by intros ?|]. unfold same_content. intros a b c. naive_solver congruence. Qed.

(** Every version is still there, renamed perhaps. *)
Definition contents_stay (db db' : HistoryDb) : Prop :=
  forall v, v ∈ hd_versions db -> exists v', v' ∈ hd_versions db' /\ same_content v v'.

#[export] Instance contents_stay_preorder : PreOrder contents_stay.
Proof.
  split; [by intros db v Hv; exists v|]. intros a b c Hab Hbc v Hv. destruct (Hab v Hv) as (v' & Hv' & ?).
  destruct (Hbc v' Hv') as (v'' & ? & ?). exists v''. split; [done|by etrans].
Qed.

(** The ids of versions are distinct, and so are, in a version, those of nodes and groups. *)
Definition ids_ok (db : HistoryDb) : Prop :=
  NoDup (wv_versionId <$> hd_versions db) /\ Forall distinct_ids (hd_versions db).

(** What other sessions do that add versions, name and describe them, and publish. *)
Definition gentle (others : nat -> nat -> HistoryDb -> HistoryDb) : Prop :=
  forall i k db, ids_ok db -> ids_ok (others i k db) /\ contents_stay db (others i k db).

Section pass.
Context {L : Lodash}.
Context (order : list WorkflowVersion -> list WorkflowVersion) (order_ok : orders order).
Context (startDate endDate : Z) (rules skipRules : list DiffRule) (withSize : bool) (aborted fails : nat -> bool).
Context (others : nat -> nat -> HistoryDb -> HistoryDb).
Context (P : WorkflowVersion -> WorkflowVersion -> Prop).
Context (P_content : forall v v' s s', same_content v v' -> same_content s s' -> P v s -> P v' s').

Definition justifies : Prop :=
  forall metaData v s, distinct_ids v -> distinct_ids s ->
    Forall (fun rule => rule v s (change_set v s) metaData = Ok false) skipRules ->
    (exists rule, rule ∈ rules /\ rule v s (change_set v s) metaData = Ok true) -> P v s.

(** The database as the pass finds it at its workflow with this index: what a pass aborted
    there leaves, and what other sessions make of that. *)
Definition stopped_at (i : nat) (j : nat) : bool := aborted j || (i <=? j).

Definition found_from (index : nat) (ids : list string) (stats : CompactionStats) (db : HistoryDb) (i : nat) : HistoryDb :=
  others i 0 (compact_loop order startDate endDate rules skipRules withSize (stopped_at i) fails others index ids stats db).2.

(** A version deleted by a pass that read it in [found], and read what is published in
    [foundp]: it was in the window and unmarked, and one that stays makes up for it. *)
Definition replaced (found foundp db' : HistoryDb) (v : WorkflowVersion) : Prop :=
  exists r s, r ∈ hd_versions found /\ same_content v r /\ in_range startDate endDate r = true /\ unmarked foundp r /\
    s ∈ hd_versions db' /\ wv_workflowId s = wv_workflowId r /\ wv_authors s = wv_authors r /\ created_before r s /\ P r s.

Lemma found_later index id ids stats db stats1 db1 i :
  aborted index = false -> index < i ->
  (if fails index then (Err "the database failed"%string, others index 0 db)
   else pruneHistory order id startDate endDate rules skipRules withSize (others index) (others index 0 db)) = (stats1, db1) ->
  found_from index (id :: ids) stats db i =
  found_from (S index) ids
    (match stats1 with Ok (seen, deleted) => count_pruned seen deleted (processed stats) | Err _ => count_error (processed stats) end) db1 i.
Proof.
  intros Ha Hi Hp. unfold found_from. f_equal. cbn [compact_loop]. unfold stopped_at at 1.
  rewrite Ha, (proj2 (Nat.leb_gt _ _) Hi). cbn [orb]. rewrite Hp. by destruct stats1 as [[]|].
Qed.

Lemma found_now index ids stats db : found_from index ids stats db index = others index 0 db.
Proof.
  unfold found_from. destruct ids as [|id ids]; [done|]. cbn [compact_loop]. unfold stopped_at at 1.
  by rewrite (proj2 (Nat.leb_le _ _) (le_n index)), orb_true_r.
Qed.

(** What is replaced stays so while the versions that are left stay. *)
Lemma replaced_stays found foundp db1 db2 v :
  replaced found foundp db1 v -> (forall s, s ∈ hd_versions db1 -> wv_workflowId s = wv_workflowId v ->
    exists s', s' ∈ hd_versions db2 /\ same_content s s') -> replaced found foundp db2 v.
Proof.
  intros (r & s0 & Hr & Hvr & Hin & Hum & Hs & Hid & Hau & Hcr & HP) Hstay.
  destruct (Hstay s0 Hs) as (s' & Hs' & Hss); [rewrite Hid; apply Hvr|].
  pose proof Hss as (_ & Hid' & _ & _ & _ & Hau' & Hcr').
  exists r, s'. refine (conj Hr (conj Hvr (conj Hin (conj Hum (conj Hs' (conj _ (conj _ (conj _ _)))))))).
  1, 2: congruence. 1: unfold created_before in *; lia. by eapply P_content; [| |exact HP].
Qed.

Lemma ids_ok_sublist db db' : hd_versions db' `sublist_of` hd_versions db -> ids_ok db -> ids_ok db'.
Proof.
  intros Hs [Hnd Hd]. split; [eapply submseteq_NoDup; [|exact Hnd]; by apply submseteq_fmap, sublist_submseteq|].
  rewrite Forall_forall in *. intros v Hv. apply Hd. by eapply sublist_subseteq.
Qed.

(** One workflow of a pass: a version stays, or is replaced by one that stays. *)
Lemma visit_safe id index db r db1 :
  gentle others -> justifies -> ids_ok db ->
  (if fails index then (Err "the database failed"%string, others index 0 db)
   else pruneHistory order id startDate endDate rules skipRules withSize (others index) (others index 0 db)) = (r, db1) ->
  ids_ok db1 /\
  forall v, v ∈ hd_versions db -> (exists v', v' ∈ hd_versions db1 /\ same_content v v') \/
    (wv_workflowId v = id /\ replaced (others index 0 db) (others index 1 (others index 0 db)) db1 v).
Proof.
  intros Hg HP Hok. destruct (Hg index 0 db Hok) as [Hok0 Hst0]. set (db0 := others index 0 db) in *.
  destruct (Hg index 1 db0 Hok0) as [Hok1 Hst1]. destruct (Hg index 2 _ Hok1) as [Hok2 Hst2].
  destruct (fails index); [intros [= <- <-]; split; [done|]; intros v Hv; left; by apply Hst0|].
  intros Hp. apply (pruneHistory_safe order order_ok _ _ _ _ _ P) in Hp as [[_ ->]|(_ & _ & Hsub & Hv)];
    [split; [done|]; intros v Hv; left; exact (transitivity Hst0 Hst1 v Hv)|..].
  - split; [by eapply ids_ok_sublist|]. intros v Hin. pose proof (transitivity Hst0 (transitivity Hst1 Hst2) v Hin) as (v2 & Hv2 & Hc2).
    destruct (Hv v2 Hv2) as [?|(r' & s & Hr & Hvid & Hid & Hrange & Hum & Hs & Hsid & Hau & Hcr & HPs & Hkeep)]; [left; by exists v2|right].
    destruct (Hst0 v Hin) as (v0 & Hv0 & Hc0).
    assert (r' = v0) as -> by (apply (same_key wv_versionId _ _ _ (proj1 Hok0)); [done..|]; destruct Hc0, Hc2; congruence).
    split; [destruct Hc0 as (_ & <- & _); done|]. destruct (transitivity Hst1 Hst2 s Hs) as (s2 & Hs2 & Hcs).
    pose proof Hcs as (Hsv & Hid' & _ & _ & _ & Hau' & Hcr').
    exists v0, s2. refine (conj Hr (conj Hc0 (conj Hrange (conj Hum (conj (Hkeep _ Hs2 Hsv) (conj _ (conj _ (conj _ _)))))))).
    1, 2: congruence. 1: unfold created_before in *; lia. by eapply P_content; [| |exact HPs].
  - apply Hok0.
  - intros metaData v s Hv Hs. destruct Hok0 as [_ Hd]. rewrite Forall_forall in Hd. apply HP; by apply Hd.
Qed.

Lemma compact_loop_safe index ids stats db stats' db' :
  gentle others -> justifies -> NoDup ids -> ids_ok db ->
  compact_loop order startDate endDate rules skipRules withSize aborted fails others index ids stats db = (stats', db') ->
  let found := found_from index ids stats db in
  forall v, v ∈ hd_versions db -> (exists v', v' ∈ hd_versions db' /\ same_content v v') \/
    (wv_workflowId v ∈ ids /\ exists i, index <= i /\ replaced (found i) (others i 1 (found i)) db' v).
Proof.
  intros Hg HP. revert index stats db. induction ids as [|id ids IH]; intros index stats db Hnd Hok Hloop found v Hv.
  { injection Hloop as _ <-. left. by exists v. }
  apply NoDup_cons in Hnd as [Hni Hnd]. cbn [compact_loop] in Hloop.
  destruct (aborted index) eqn:Ha; [injection Hloop as _ <-; left; by exists v|].
  destruct (if fails index then _ else _) as [r db1] eqn:Hp.
  destruct (visit_safe id index db r db1 Hg HP Hok Hp) as [Hok1 Hvisit].
  assert (compact_loop order startDate endDate rules skipRules withSize aborted fails others (S index) ids
    (match r with Ok (seen, deleted) => count_pruned seen deleted (processed stats) | Err _ => count_error (processed stats) end) db1
    = (stats', db')) as Hloop' by (by destruct r as [[]|]).
  pose proof (IH _ _ _ Hnd Hok1 Hloop') as Hrest. cbv zeta in Hrest.
  destruct (Hvisit v Hv) as [(v1 & Hv1 & Hc1)|[Hid Hrep]].
  - destruct (Hrest v1 Hv1) as [(v' & Hv' & Hc')|(Hin & i & Hi & Hrep)]; [left; exists v'; split; [done|by etrans]|right].
    split; [right; by destruct Hc1 as (_ & <- & _)|]. exists i. split; [lia|].
    subst found. rewrite (found_later _ _ _ _ _ _ _ _ Ha Hi Hp).
    destruct Hrep as (r' & s & Hr & Hvr & Hrep). exists r', s. split; [done|]. split; [by etrans|done].
  - right. split; [rewrite Hid; by left|]. exists index. split; [done|]. subst found. rewrite found_now.
    apply (replaced_stays _ _ db1); [done..|]. intros s Hs Hsid.
    destruct (Hrest s Hs) as [?|(Hin & _)]; [done|]. rewrite Hsid, Hid in Hin. done.
Qed.

(** [found_at i]: the database that the pass finds at its workflow with index [i]. *)
Definition found_at (db : HistoryDb) (i : nat) : HistoryDb :=
  others i 0 (compactHistories order startDate endDate rules skipRules withSize (stopped_at i) fails others db).2.

Lemma compactHistories_safe db stats' db' :
  gentle others -> justifies -> ids_ok db ->
  compactHistories order startDate endDate rules skipRules withSize aborted fails others db = (stats', db') ->
  forall v, v ∈ hd_versions db -> (exists v', v' ∈ hd_versions db' /\ same_content v v') \/
    (exists i, replaced (found_at db i) (others i 1 (found_at db i)) db' v).
Proof.
  intros Hg HP Hok Hc v Hv. destruct (compact_loop_safe _ _ _ _ _ _ Hg HP (set_of_list_NoDup _) Hok Hc v Hv) as [?|(_ & i & _ & Hr)];
    [by left|right; by exists i].
Qed.

(** A pass counts an error only where the database failed. *)
Lemma compact_loop_errors index ids stats db :
  Forall never_throws rules -> Forall never_throws skipRules -> (forall i, fails i = false) ->
  errorCount (compact_loop order startDate endDate rules skipRules withSize aborted fails others index ids stats db).1 = errorCount stats.
Proof.
  intros Hr Hs Hf. revert index stats db. induction ids as [|id ids IH]; intros index stats db; simpl; [done|].
  destruct (aborted index); [done|]. rewrite Hf. unfold pruneHistory. cbv zeta.
  set (db0 := others index 0 db). set (published := getPublishedVersions id (others index 1 db0)).
  assert (Forall never_throws (prune_rules published skipRules)) as Hs' by by repeat constructor.
  pose proof (groupWorkflows_total (versions_in_window order id startDate endDate db0) rules _ withSize Hr Hs') as Hg.
  destruct (groupWorkflows _ _ _ _) as [[rm rem]|]; [by rewrite IH|done].
Qed.
End pass.

Section optimize.
Context {L : Lodash} {Laws : LodashLaws L}.

Lemma rule_total : never_throws mergeAdditiveChanges_rule.
Proof. intros prev next metaData. by destruct (mergeAdditiveChanges_total prev next) as (b & Hb & _); unfold mergeAdditiveChanges_rule; rewrite Hb. Qed.

(** C14. What optimizing deletes is held by what stays. Let the database fail, the
    pass be aborted, and other sessions add, name, describe and publish versions between its
    statements (not delete or change their contents); ids are distinct, of versions, and in a
    version of nodes and of groups. Then every version is there afterwards, up to its name
    and description, or was replaced: as the pass read it, it was in the window, without name
    or description, and not published in the history read after it; and a version stays, of
    the same workflow and author, not older, at most twenty minutes younger, that keeps its
    nodes, connections and groups. Kept of a node are the fields that are compared (not
    [customTelemetryTags] and the position) and its parameters, each text with its characters
    in their order; an object may have become an array with the same properties, but not
    where the two versions have the same shapes. ([found i] is the database the pass meets at
    its workflow with index [i].) *)
Theorem optimizing_keeps_what_is_compared (order : list WorkflowVersion -> list WorkflowVersion) (startDate endDate : Z)
    (aborted fails : nat -> bool) (others : nat -> nat -> HistoryDb -> HistoryDb) (st : CompactionState)
    (db db' : HistoryDb) (stats : CompactionStats) :
  orders order -> gentle others -> ids_ok db ->
  optimizeHistories order startDate endDate aborted fails others st db = Some (stats, db') ->
  let found i := others i 0 (default db (snd <$> optimizeHistories order startDate endDate (stopped_at aborted i) fails others st db)) in
  forall v, v ∈ hd_versions db -> (exists v', v' ∈ hd_versions db' /\ same_content v v') \/
    exists i, replaced startDate endDate
      (fun r s => (wv_createdAt s - wv_createdAt r <= 20 * minute)%Z /\ version_kept true r s /\
                  (same_shapes r s = true -> version_kept false r s))
      (found i) (others i 1 (found i)) db' v.
Proof.
  intros Hord Hg Hok. unfold optimizeHistories. destruct (isOptimizingHistories st); [done|]. intros [= Hc].
  cbn [fmap option_fmap option_map default].
  eapply compactHistories_safe; [exact Hord| |exact Hg| |exact Hok|exact Hc].
  - intros v v' s s' (_ & _ & Hn & Hcn & Hgr & _ & Ht) (_ & _ & Hn' & Hcn' & Hgr' & _ & Ht').
    unfold version_kept, same_shapes. by rewrite Hn, Hcn, Hgr, Ht, Hn', Hcn', Hgr', Ht'.
  - intros metaData v s Hv Hs [Hskip _]%Forall_cons (rule & Hr & Hm).
    apply list_elem_of_singleton in Hr as ->. unfold mergeAdditiveChanges_rule in Hm.
    destruct (mergeAdditiveChanges_total v s) as (b & Hb & Hk). rewrite Hb in Hm. injection Hm as ->.
    assert (version_kept true v s) as Hkept by (by apply Hk).
    split_and!; [|done|by intros Hsh; apply version_kept_strictly].
    unfold makeSkipTimeDifference, time_difference in Hskip. injection Hskip as Hskip%Z.ltb_ge. lia.
Qed.
End optimize.

(** C34. Trimming spaces versions out: of the versions of a workflow that stay in the window,
    two neighbours of the same author, the older one without name or description and never
    published, are at least as far apart as the rule asks for a workflow of that size. Other
    sessions may publish versions meanwhile, as long as none adds, changes or deletes one. *)
Theorem trimming_spaces_versions {L : Lodash} (order : list WorkflowVersion -> list WorkflowVersion) (id : string) (startDate endDate : Z)
    (others : nat -> HistoryDb -> HistoryDb) (db db' : HistoryDb) (seen deleted i : nat) (a b : WorkflowVersion)
    (mapping : list (nat * Z)) (count : nat) (time : Z) :
  orders order -> NoDup mapping.*1 -> NoDup (wv_versionId <$> hd_versions db) ->
  (forall k db, hd_versions (others k db) = hd_versions db) ->
  let window := versions_in_window order id startDate endDate in
  NoDup (wv_createdAt <$> window db) ->
  pruneHistory order id startDate endDate [makeMergeDependingOnSizeRule mapping] [] true others db = (Ok (seen, deleted), db') ->
  window db' !! i = Some a -> window db' !! S i = Some b -> unmarked (others 1 db) a -> wv_authors b = wv_authors a ->
  (count, time) ∈ mapping -> count < size_score (window db) ->
  (forall c t, (c, t) ∈ mapping -> c < size_score (window db) -> c <= count) ->
  (time <= wv_createdAt b - wv_createdAt a)%Z.
Proof.
  cbv zeta. intros Hord Hmap Hnd Hothers Hct. unfold pruneHistory. cbv zeta. destruct (groupWorkflows _ _ _ _) as [[rm rem]|] eqn:Hg; [|done].
  intros [= <- <- <-] Ha Hb Hun Hau Hin Hlt Hmax.
  destruct (groups_spec _ _ _ _ _ _ Hg) as (Hperm & Hsub & _ & _ & Hset).
  rewrite (window_of_versions order startDate endDate id _ (delete_versions (wv_versionId <$> rm) db)) in Ha, Hb
    by (unfold delete_versions; cbn [hd_versions with_versions]; by rewrite !Hothers).
  rewrite (window_after order Hord startDate endDate id db rm rem) in Ha, Hb by done.
  assert (a ∈ versions_in_window order id startDate endDate db) as Hwin
    by (rewrite <- Hperm; apply list_elem_of_lookup_2 in Ha; set_solver).
  assert (created_before a b) as Hle.
  { apply (sorted_pair (versions_in_window order id startDate endDate db)); [unfold versions_in_window; apply Hord|].
    etrans; [|exact Hsub]. rewrite <- (take_drop_middle _ _ _ Ha).
    apply sublist_inserts_l, sublist_skip. rewrite (drop_S _ _ _ Hb). apply sublist_skip, sublist_nil_l. }
  specialize (Hset i a b Ha Hb). unfold merges in Hset. destruct (any_rule (prune_rules _ _) _ _ _ _) as [[]|] eqn:Hs; cbn [mbind result_bind any_rule] in Hset.
  - exfalso. apply any_rule_true in Hs as (rule & Hr & Hm). destruct Hun as (Hn & Hd & Hp).
    unfold prune_rules in Hr. simpl in Hr. apply elem_of_cons in Hr as [->|Hr%list_elem_of_singleton].
    + injection Hm as Hm. apply elem_of_window in Hwin as (_ & Hid & _); [|done]. rewrite Hn, Hd in Hm. simpl in Hm.
      apply bool_decide_eq_true, (elem_of_active id) in Hm. by rewrite Hid in Hp.
    + subst rule. injection Hm as Hm. apply negb_true_iff, bool_decide_eq_false in Hm. done.
  - destruct (size_rule_spec mapping a b (change_set a b) (size_score (versions_in_window order id startDate endDate db)))
      as (r & Hr & Hiff); [done|].
    rewrite Hr in Hset. destruct r; [done|]. clear Hset. destruct (decide (time_difference a b < time)%Z) as [Ht|Ht].
    + assert (false = true) as [=]. apply Hiff. by exists count, time.
    + unfold time_difference, created_before in *. lia.
  - done.
Qed.

(** C27. Grouping loses no version without need: those dropped and those that stay are all
    there were, in their order; the newest stays; a version is dropped only for a newer one
    that stays and that the rules merge it with; and of those that stay no two neighbours
    are mergeable. *)
Theorem groupWorkflows_drops_redundant {L : Lodash} (ws rm rem : list WorkflowVersion) (rules skipRules : list DiffRule) (withSize : bool) :
  groupWorkflows ws rules skipRules withSize = Ok (rm, rem) ->
  let metaData := {| workflowSizeScore := if withSize then Some (size_score ws) else None |} in
  rem ++ rm ≡ₚ ws /\ rem `sublist_of` ws /\ last rem = last ws /\
  Forall (dropped_for rules skipRules metaData ws rem) rm /\ settled rules skipRules metaData rem.
Proof. apply groups_spec. Qed.


(** ** On the sample *)

Lemma sample_distinct : Forall distinct_ids sample_versions.
Proof. unfold distinct_ids. apply (bool_decide_unpack _). vm_compute. done. Qed.

Lemma sample_ids_ok : ids_ok sample_db.
Proof. split; [apply (bool_decide_unpack _); vm_compute; done|exact sample_distinct]. Qed.

Notation sample_version i := (nth i sample_versions (version "" "" 0 [] [])).

Lemma groupWorkflows_drops_redundant_witness :
  exists rm rem, groupWorkflows sample_versions [mergeAdditiveChanges_rule] [skipDifferentUsers] false = Ok (rm, rem) /\
    rem ++ rm ≡ₚ sample_versions /\ last rem = last sample_versions.
Proof.
  assert (is_ok (groupWorkflows sample_versions [mergeAdditiveChanges_rule] [skipDifferentUsers] false) = true) as Hok
    by (vm_compute; reflexivity).
  destruct (groupWorkflows sample_versions [mergeAdditiveChanges_rule] [skipDifferentUsers] false) as [[rm rem]|] eqn:Hrun; [|done].
  exists rm, rem. split; [done|].
  destruct (groupWorkflows_drops_redundant sample_versions rm rem [mergeAdditiveChanges_rule] [skipDifferentUsers] false Hrun)
    as (Hp & _ & Hl & _). exact (conj Hp Hl).
Defined.


(** Before each statement somebody names a version. *)
Definition rename (name : string) (v : WorkflowVersion) : WorkflowVersion :=
  {| wv_versionId := wv_versionId v; wv_workflowId := wv_workflowId v; wv_nodes := wv_nodes v; wv_connections := wv_connections v;
     wv_nodeGroups := wv_nodeGroups v; wv_authors := wv_authors v; wv_name := Some name; wv_description := wv_description v;
     wv_createdAt := wv_createdAt v |}.

Definition naming (versionId name : string) (db : HistoryDb) : HistoryDb :=
  with_versions ((fun v => if bool_decide (wv_versionId v = versionId) then rename name v else v) <$> hd_versions db) db.

Lemma naming_gentle versionId name db : ids_ok db -> ids_ok (naming versionId name db) /\ contents_stay db (naming versionId name db).
Proof.
  set (f := fun v => if bool_decide (wv_versionId v = versionId) then rename name v else v).
  assert (forall v, same_content v (f v)) as Hf by (intros v; unfold f; destruct (bool_decide _); by split_and!).
  intros [Hnd Hd]. split; [split|].
  - unfold naming. cbn [hd_versions with_versions]. rewrite <- list_fmap_compose.
    rewrite (list_fmap_ext _ wv_versionId); [done|]. intros _ v _. apply (Hf v).
  - unfold naming. cbn [hd_versions with_versions]. apply Forall_fmap. apply (Forall_impl _ _ _ Hd).
    intros v. change (distinct_ids v -> distinct_ids (f v)). unfold distinct_ids. destruct (Hf v) as (_ & _ & -> & _ & -> & _). done.
  - intros v Hv. exists (f v). split; [|apply Hf]. unfold naming. cbn [hd_versions with_versions]. by apply (list_elem_of_fmap_2 f).
Qed.

(** The second version gets a name before the deletion, and the last one as well. *)
Definition namers (_ : nat) (statement : nat) : HistoryDb -> HistoryDb :=
  naming (if bool_decide (statement = 2) then "v2" else "v4")%string "release".

Lemma optimizing_keeps_what_is_compared_witness :
  exists db' stats, optimizeHistories sample_order 0 hour never never namers idle sample_db = Some (stats, db') /\
    version_ids db' = ["v3"; "v4"]%string /\ (wv_name <$> hd_versions db') = [None; Some "release"%string] /\
    ((exists v', v' ∈ hd_versions db' /\ same_content (sample_version 0) v') \/
     exists found foundp, replaced 0 hour
       (fun r s => (wv_createdAt s - wv_createdAt r <= 20 * minute)%Z /\ version_kept true r s /\
                   (same_shapes r s = true -> version_kept false r s)) found foundp db' (sample_version 0)).
Proof.
  assert (is_Some (optimizeHistories sample_order 0 hour never never namers idle sample_db)) as [[stats db'] Hrun].
  { by vm_compute; eexists. }
  exists db', stats. split; [exact Hrun|].
  assert (version_ids db' = ["v3"; "v4"]%string /\ (wv_name <$> hd_versions db') = [None; Some "release"%string]) as [Hids Hnames]
    by (vm_compute in Hrun; by injection Hrun as <- <-).
  split; [exact Hids|]. split; [exact Hnames|].
  destruct (optimizing_keeps_what_is_compared sample_order 0 hour never never namers idle sample_db _ _ sample_order_ok
    ltac:(intros i k db; apply naming_gentle)
    sample_ids_ok Hrun (sample_version 0)) as [?|[i ?]];
    [by left|by left|right; eexists _, _; eassumption].
Defined.

(** Two versions two minutes apart, with the rule for small workflows. *)
Lemma trimming_spaces_versions_witness :
  let db := {| hd_versions := [version "v1" "ann" 0 [set_node "a"] []; version "v2" "ann" (2 * minute) [set_node "b"] []];
               hd_published := [] |} in
  (minute <= 2 * minute - 0)%Z /\
  (pruneHistory sample_order "w" 0 hour [makeMergeDependingOnSizeRule [(0, minute)]] [] true alone db).1 = Ok (2, 0).
Proof.
  split; [|vm_compute; auto].
  apply (trimming_spaces_versions sample_order "w" 0 hour alone
    {| hd_versions := [version "v1" "ann" 0 [set_node "a"] []; version "v2" "ann" (2 * minute) [set_node "b"] []]; hd_published := [] |}
    {| hd_versions := [version "v1" "ann" 0 [set_node "a"] []; version "v2" "ann" (2 * minute) [set_node "b"] []]; hd_published := [] |}
    2 0 0 (version "v1" "ann" 0 [set_node "a"] []) (version "v2" "ann" (2 * minute) [set_node "b"] []) [(0, minute)] 0 minute);
    try (vm_compute; reflexivity).
  - exact sample_order_ok.
  - apply (bool_decide_unpack _); vm_compute; done.
  - apply (bool_decide_unpack _); vm_compute; done.
  - apply (bool_decide_unpack _); vm_compute; done.
  - split_and!; [done..|]. vm_compute. intros H. inversion H.
  - by left.
  - vm_compute. lia.
  - intros c t [= -> ->]%list_elem_of_singleton _. lia.
Defined.

(** ** Where the code differs from its intent *)

(** Telemetry tags are stored with a node but not compared: a version that only adds one is
    taken for equal, and the tags are lost. *)
Example telemetry_tags_are_not_compared :
  let tagged := {| dn_id := "1"; dn_parameters := [];
                   dn_fields := [("name", JStr "Set"); ("customTelemetryTags", JObj [("tag", JArr [JStr "t"])])]%string |} in
  let plain := {| dn_id := "1"; dn_parameters := []; dn_fields := [("name"%string, JStr "Set")] |} in
  compareNodes (Some tagged) (Some plain) = true /\
  match optimizeHistories sample_order 0 hour never never all_alone idle
          {| hd_versions := [version "v1" "ann" 0 [tagged] []; version "v2" "ann" minute [plain] []]; hd_published := [] |} with
  | Some (_, db) => version_ids db = ["v2"]%string
  | None => False
  end.
Proof. vm_compute. auto. Qed.

(** An object may turn into an array that has its keys, or [length]. *)
Example object_kept_by_array :
  parametersAreSuperset (JObj [("length"%string, JNum 1)]) (JArr [JStr "x"]) = true /\
  parametersAreSuperset (JObj []) (JArr []) = true.
Proof. vm_compute. auto. Qed.

(** A version that gets a name between the reading and the deletion is deleted all the same. *)
Example named_meanwhile_is_deleted :
  let others statement := if bool_decide (statement = 2) then naming "v1" "release" else id in
  let '(r, db) := pruneHistory sample_order "w" 0 hour [mergeAdditiveChanges_rule] [] false others sample_db in
  r = Ok (4, 2) /\ version_ids db = ["v3"; "v4"]%string.
Proof. vm_compute. auto. Qed.
