(* ===== verification/Concurrency.v ===== *)
(** * Concurrency of executions: the queue and the service in front of it

    [packages/cli/src/concurrency]: at most so many production executions, and so many
    evaluations, run at once; the others wait in a queue until one ends.

    The promise an execution waits on is the execution itself: an operation says which
    executions it lets go on.  Logging, with the event that is only logged, and the
    debouncing of another are left out.

    The second half says what the queue guarantees. *)

From stdpp Require Import base gmap strings list.
From Stdlib Require Import ZArith Lia.
From S2P Require Import Prelude.
From S2P Require Import JsCollections.

Open Scope Z_scope.

(** ** [ConcurrencyQueue] *)

Record ConcurrencyQueue := { cq_capacity : Z; cq_queue : list string }.

Inductive QueueEvent :=
  | ConcurrencyCheck (capacity : Z)
  | ExecutionThrottled (executionId : string).

Definition new_queue (capacity : Z) : ConcurrencyQueue := {| cq_capacity := capacity; cq_queue := [] |}.

(** [enqueue]: does the execution go on at once? *)
Definition enqueue (executionId : string) (q : ConcurrencyQueue) : bool * list QueueEvent * ConcurrencyQueue :=
  let capacity := cq_capacity q - 1 in
  if capacity <? 0
  then (false, [ConcurrencyCheck capacity; ExecutionThrottled executionId],
        {| cq_capacity := capacity; cq_queue := cq_queue q ++ [executionId] |})
  else (true, [ConcurrencyCheck capacity], {| cq_capacity := capacity; cq_queue := cq_queue q |}).

(** [resolveNext]: the execution that may go on. *)
Definition resolveNext (q : ConcurrencyQueue) : option string * ConcurrencyQueue :=
  match cq_queue q with
  | [] => (None, q)
  | executionId :: rest => (Some executionId, {| cq_capacity := cq_capacity q; cq_queue := rest |})
  end.

Definition more_capacity (q : ConcurrencyQueue) : ConcurrencyQueue := {| cq_capacity := cq_capacity q + 1; cq_queue := cq_queue q |}.

Definition dequeue (q : ConcurrencyQueue) : option string * ConcurrencyQueue := resolveNext (more_capacity q).

Definition remove (executionId : string) (q : ConcurrencyQueue) : option string * ConcurrencyQueue :=
  match arr_findIndex (fun item => bool_decide (item = executionId)) (cq_queue q) with
  | Some index => resolveNext (more_capacity {| cq_capacity := cq_capacity q; cq_queue := delete index (cq_queue q) |})
  | None => (None, q)
  end.

Definition getAll (q : ConcurrencyQueue) : list string := set_of_list (cq_queue q).

Definition has (executionId : string) (q : ConcurrencyQueue) : bool :=
  arr_some (fun item => bool_decide (item = executionId)) (cq_queue q).

(** ** [ConcurrencyControlService] *)

Inductive WorkflowExecuteMode := cli | error | integrated | internal | manual | retry | trigger | webhook | evaluation | chat | agent.

Inductive ConcurrencyQueueType := production_queue | evaluation_queue.

(** What the service reads of its configuration, and the limit for evaluations that the
    license gives. *)
Record ConcurrencyConfig := {
  productionLimit : Z;
  evaluationLimit : Z;
  queue_mode : bool;
}.

(** [License]: the quota and the name of the plan; and whether the limit is set in the
    environment. *)
Record LimitSources := {
  env_set : bool;
  license_quota : option Z;
  planName : string;
}.

Definition EVALUATION_TIER_DEFAULTS : list (string * Z) :=
  [("Community"%string, 1); ("Pro"%string, 1); ("Business"%string, 3); ("Enterprise"%string, 5)].

Definition readLicenseQuota (license : LimitSources) : option Z :=
  match license_quota license with Some 0 => None | quota => quota end.

Definition resolveEvaluationConcurrencyLimit (config : ConcurrencyConfig) (license : LimitSources) : Z :=
  if env_set license then evaluationLimit config
  else
    match readLicenseQuota license with
    | Some fromLicense => fromLicense
    | None => default 1 (map_get (planName license) EVALUATION_TIER_DEFAULTS)
    end.

Inductive LimitSource := from_env | from_license | from_tier.

Definition getEvaluationConcurrencyLimitSource (license : LimitSources) : LimitSource :=
  if env_set license then from_env
  else match readLicenseQuota license with Some _ => from_license | None => from_tier end.

Inductive ConcurrencyError :=
  | InvalidConcurrencyLimitError (value : Z)
  | UnknownExecutionModeError (mode : WorkflowExecuteMode).

Definition normaliseLimit (limit : Z) : result ConcurrencyError Z :=
  if limit =? 0 then Err (InvalidConcurrencyLimitError 0) else Ok (if limit <? -1 then -1 else limit).

Record ConcurrencyControl := {
  cc_isEnabled : bool;
  cc_limits : Z * Z;
  cc_production : option ConcurrencyQueue;
  cc_evaluation : option ConcurrencyQueue;
  cc_evalQueueResolved : bool;
}.

Definition queue_for (limit : Z) : option ConcurrencyQueue := if 0 <? limit then Some (new_queue limit) else None.

(** The constructor. *)
Definition new_control (config : ConcurrencyConfig) : result ConcurrencyError ConcurrencyControl :=
  normaliseLimit (productionLimit config) ≫= fun normalisedProduction =>
  normaliseLimit (evaluationLimit config) ≫= fun normalisedEvaluation =>
  Ok (if queue_mode config
      then {| cc_isEnabled := false; cc_limits := (normalisedProduction, normalisedEvaluation);
              cc_production := None; cc_evaluation := None; cc_evalQueueResolved := false |}
      else {| cc_isEnabled := (0 <? normalisedProduction) || (0 <? normalisedEvaluation);
              cc_limits := (normalisedProduction, normalisedEvaluation);
              cc_production := queue_for normalisedProduction; cc_evaluation := queue_for normalisedEvaluation;
              cc_evalQueueResolved := 0 <? normalisedEvaluation |}).

Definition with_isEnabled (b : bool) (c : ConcurrencyControl) : ConcurrencyControl :=
  {| cc_isEnabled := b; cc_limits := cc_limits c; cc_production := cc_production c; cc_evaluation := cc_evaluation c;
     cc_evalQueueResolved := cc_evalQueueResolved c |}.

Definition with_evalQueueResolved (c : ConcurrencyControl) : ConcurrencyControl :=
  {| cc_isEnabled := cc_isEnabled c; cc_limits := cc_limits c; cc_production := cc_production c;
     cc_evaluation := cc_evaluation c; cc_evalQueueResolved := true |}.

Definition with_evaluation (limit : Z) (c : ConcurrencyControl) : ConcurrencyControl :=
  {| cc_isEnabled := (0 <? limit) || cc_isEnabled c; cc_limits := ((cc_limits c).1, limit); cc_production := cc_production c;
     cc_evaluation := if 0 <? limit then Some (new_queue limit) else cc_evaluation c; cc_evalQueueResolved := true |}.

Section service.
Context (config : ConcurrencyConfig) (license : LimitSources).

Definition ensureEvalQueueResolved (c : ConcurrencyControl) : result ConcurrencyError ConcurrencyControl :=
  if cc_evalQueueResolved c then Ok c
  else if queue_mode config then Ok (with_evalQueueResolved c)
  else normaliseLimit (resolveEvaluationConcurrencyLimit config license) ≫= fun normalised => Ok (with_evaluation normalised c).

(** Which queue a mode waits in; an unknown mode is an error. *)
Definition queue_type (mode : WorkflowExecuteMode) : result ConcurrencyError (option ConcurrencyQueueType) :=
  match mode with
  | error | integrated | cli | internal | manual | retry => Ok None
  | webhook | trigger | chat => Ok (Some production_queue)
  | evaluation => Ok (Some evaluation_queue)
  | agent => Err (UnknownExecutionModeError mode)
  end.

Definition queue_of (type : option ConcurrencyQueueType) (c : ConcurrencyControl) : option ConcurrencyQueue :=
  match type with
  | None => None
  | Some production_queue => cc_production c
  | Some evaluation_queue => cc_evaluation c
  end.

Definition getQueue (mode : WorkflowExecuteMode) (c : ConcurrencyControl) : result ConcurrencyError (option ConcurrencyQueue) :=
  queue_type mode ≫= fun type => Ok (queue_of type c).

Definition set_queue (mode : WorkflowExecuteMode) (q : ConcurrencyQueue) (c : ConcurrencyControl) : ConcurrencyControl :=
  {| cc_isEnabled := cc_isEnabled c; cc_limits := cc_limits c;
     cc_production := match queue_type mode with Ok (Some production_queue) => Some q | _ => cc_production c end;
     cc_evaluation := match queue_type mode with Ok (Some evaluation_queue) => Some q | _ => cc_evaluation c end;
     cc_evalQueueResolved := cc_evalQueueResolved c |}.

Definition isUnlimited (mode : WorkflowExecuteMode) (c : ConcurrencyControl) : result ConcurrencyError bool :=
  getQueue mode c ≫= fun queue => Ok (match queue with None => true | Some _ => false end).

(** The first lines of [throttle], [release] and [remove]. *)
Definition resolved (mode : WorkflowExecuteMode) (c : ConcurrencyControl) : result ConcurrencyError ConcurrencyControl :=
  match mode with evaluation => ensureEvalQueueResolved c | _ => Ok c end.

(** Is the mode let through as it is?  The queue is looked up only when the service is on. *)
Definition let_through (mode : WorkflowExecuteMode) (c : ConcurrencyControl) : result ConcurrencyError bool :=
  if negb (cc_isEnabled c) then Ok true else isUnlimited mode c.

(** What [throttle], [release] and [remove] share: [unlimited] when no queue applies, and
    otherwise what [f] does to the queue. *)
Definition on_queue {A} (mode : WorkflowExecuteMode) (unlimited : A) (f : ConcurrencyQueue -> A * ConcurrencyQueue)
    (c : ConcurrencyControl) : result ConcurrencyError (A * ConcurrencyControl) :=
  resolved mode c ≫= fun c =>
  let_through mode c ≫= fun through : bool =>
  if through then Ok (unlimited, c)
  else getQueue mode c ≫= fun queue =>
       Ok (match queue with
           | Some q => let '(x, q) := f q in (x, set_queue mode q c)
           | None => (unlimited, c)
           end).

(** [throttle]: may the execution go on at once? *)
Definition throttle (mode : WorkflowExecuteMode) (executionId : string) (c : ConcurrencyControl) :
    result ConcurrencyError (bool * ConcurrencyControl) :=
  on_queue mode true (fun q => let '(proceeds, _, q) := enqueue executionId q in (proceeds, q)) c.

(** [release]: the execution that goes on in its place. *)
Definition release (mode : WorkflowExecuteMode) (c : ConcurrencyControl) : result ConcurrencyError (option string * ConcurrencyControl) :=
  on_queue mode None dequeue c.

Definition remove_execution (mode : WorkflowExecuteMode) (executionId : string) (c : ConcurrencyControl) :
    result ConcurrencyError (option string * ConcurrencyControl) :=
  on_queue mode None (remove executionId) c.

Definition has_execution (executionId : string) (c : ConcurrencyControl) : bool :=
  if negb (cc_isEnabled c) then false
  else from_option (has executionId) false (cc_production c) || from_option (has executionId) false (cc_evaluation c).

(** Removing every execution a queue held at the start: those that go on because of it. *)
Definition remove_all (q : ConcurrencyQueue) : list string * ConcurrencyQueue :=
  foldl (fun '(released, q) id => let '(next, q) := remove id q in (released ++ option_list next, q)) ([], q) (getAll q).

(** [removeAll]: the executions that go on, and those that are cancelled in the database. *)
Definition removeAll (executionIdsToCancel : list string) (c : ConcurrencyControl) : list string * list string * ConcurrencyControl :=
  if negb (cc_isEnabled c) then ([], [], c)
  else
    let '(r1, production) := match cc_production c with Some q => prod_map id Some (remove_all q) | None => ([], None) end in
    let '(r2, evaluations) := match cc_evaluation c with Some q => prod_map id Some (remove_all q) | None => ([], None) end in
    (r1 ++ r2, executionIdsToCancel,
     {| cc_isEnabled := cc_isEnabled c; cc_limits := cc_limits c; cc_production := production; cc_evaluation := evaluations;
        cc_evalQueueResolved := cc_evalQueueResolved c |}).

Definition disable (c : ConcurrencyControl) : ConcurrencyControl := with_isEnabled false c.
End service.

Definition CLOUD_TEMP_PRODUCTION_LIMIT : Z := 999.
Definition CLOUD_TEMP_REPORTABLE_THRESHOLDS : list Z := [5; 10; 20; 50; 100; 200].
Definition limitsToReport : list Z := (fun t => CLOUD_TEMP_PRODUCTION_LIMIT - t) <$> CLOUD_TEMP_REPORTABLE_THRESHOLDS.

Definition shouldReport (cloud : bool) (capacity : Z) : bool := cloud && bool_decide (capacity ∈ limitsToReport).

(** ** Concurrency of executions: what the queue guarantees

    Executions arrive, end and are cancelled while they wait, in any order.  The queue never
    idles while somebody waits, lets executions go on in the order of their arrival, and
    runs no more than its capacity, except that cancelling an execution that waits lets the
    next one go on although none ended. *)

Open Scope Z_scope.

(** ** A queue in use *)

Inductive QueueOp :=
  | Arrive (executionId : string)
  | End_ (executionId : string)
  | Cancel (executionId : string).

(** The executions that run, all that ever started and all that ever arrived, in order. *)
Record QueueUse := {
  qu_queue : ConcurrencyQueue;
  qu_running : list string;
  qu_started : list string;
  qu_arrived : list string;
}.

Definition unused (capacity : Z) : QueueUse :=
  {| qu_queue := new_queue capacity; qu_running := []; qu_started := []; qu_arrived := [] |}.

Definition start_all (ids : list string) (q : ConcurrencyQueue) (u : QueueUse) : QueueUse :=
  {| qu_queue := q; qu_running := qu_running u ++ ids; qu_started := qu_started u ++ ids; qu_arrived := qu_arrived u |}.

Definition arrives (id : string) (u : QueueUse) : QueueUse :=
  {| qu_queue := qu_queue u; qu_running := qu_running u; qu_started := qu_started u; qu_arrived := qu_arrived u ++ [id] |}.

Definition ends (id : string) (u : QueueUse) : QueueUse :=
  {| qu_queue := qu_queue u; qu_running := filter (fun x => x <> id) (qu_running u); qu_started := qu_started u;
     qu_arrived := qu_arrived u |}.

(** An execution arrives once; only one that runs can end. *)
Definition use (u : QueueUse) (op : QueueOp) : option QueueUse :=
  match op with
  | Arrive id =>
      if decide (id ∈ qu_arrived u) then None
      else let '(proceeds, _, q) := enqueue id (qu_queue u) in
           Some (start_all (if proceeds then [id] else []) q (arrives id u))
  | End_ id =>
      if decide (id ∈ qu_running u)
      then let '(next, q) := dequeue (qu_queue u) in Some (start_all (option_list next) q (ends id u))
      else None
  | Cancel id => let '(next, q) := remove id (qu_queue u) in Some (start_all (option_list next) q u)
  end.

Notation uses := (foldM use).

Definition is_cancel (op : QueueOp) : Prop := match op with Cancel _ => True | _ => False end.
Definition is_end (op : QueueOp) : Prop := match op with End_ _ => True | _ => False end.

#[export] Instance is_cancel_dec op : Decision (is_cancel op).
Proof. destruct op; apply _. Defined.
#[export] Instance is_end_dec op : Decision (is_end op).
Proof. destruct op; apply _. Defined.

Definition waiting (u : QueueUse) : list string := cq_queue (qu_queue u).

(** ** The invariant *)

Record counted (capacity : Z) (cancels : nat) (u : QueueUse) : Prop := {
  co_capacity : cq_capacity (qu_queue u) + Z.of_nat (length (qu_running u)) + Z.of_nat (length (waiting u)) = capacity;
  co_busy : waiting u <> [] -> capacity <= Z.of_nat (length (qu_running u));
  co_bound : Z.of_nat (length (qu_running u)) <= capacity + Z.of_nat cancels;
  co_order : qu_started u ++ waiting u `sublist_of` qu_arrived u;
  co_arrived : NoDup (qu_arrived u);
  co_running : qu_running u `sublist_of` qu_started u;
}.

Lemma arr_findIndex_Some {A} (f : A -> bool) (l : list A) i :
  arr_findIndex f l = Some i -> exists x, l !! i = Some x /\ f x = true.
Proof.
  revert i. induction l as [|x l IH]; intros i; [done|]. simpl. destruct (f x) eqn:Hx; [intros [= <-]; by exists x|].
  intros (j & Hj & ->)%fmap_Some. simpl. by apply IH.
Qed.

(** What [remove] does to the list of those who wait. *)
Lemma remove_waiting id q :
  (id ∉ cq_queue q /\ remove id q = (None, q)) \/
  exists index, cq_queue q !! index = Some id /\
    remove id q = resolveNext (more_capacity {| cq_capacity := cq_capacity q; cq_queue := delete index (cq_queue q) |}).
Proof.
  unfold remove. destruct (arr_findIndex _ _) as [index|] eqn:Hf.
  - right. exists index. split; [|done]. by apply arr_findIndex_Some in Hf as (x & Hx & ->%bool_decide_eq_true).
  - left. split; [|done]. pose proof (arr_find_findIndex (fun item => bool_decide (item = id)) (cq_queue q)) as Hfind.
    rewrite Hf in Hfind. simpl in Hfind. rewrite arr_find_None in Hfind. intros Hin%Hfind. by apply bool_decide_eq_false in Hin.
Qed.

Lemma filter_one (id : string) l : NoDup l -> id ∈ l -> length l = S (length (filter (fun x => x <> id) l)).
Proof.
  induction 1 as [|x l Hx Hl IH]; [set_solver|]. rewrite filter_cons. intros [->|Hin]%elem_of_cons.
  - rewrite decide_False by naive_solver. simpl. f_equal. clear IH Hl. induction l as [|y l IH]; [done|].
    rewrite filter_cons, decide_True by set_solver. simpl. rewrite <- IH; set_solver.
  - rewrite decide_True by (intros ->; done). simpl. by rewrite IH.
Qed.

Lemma sublist_NoDup' (l k : list string) : l `sublist_of` k -> NoDup k -> NoDup l.
Proof. intros Hs. by apply submseteq_NoDup, sublist_submseteq. Qed.

Lemma counted_unused capacity : 0 <= capacity -> counted capacity 0 (unused capacity).
Proof. intros Hc. split; simpl; try (done || lia || constructor). Qed.

Lemma counted_arrive capacity cancels id u :
  counted capacity cancels u -> id ∉ qu_arrived u ->
  let '(proceeds, _, q) := enqueue id (qu_queue u) in
  counted capacity cancels (start_all (if proceeds : bool then [id] else []) q (arrives id u)).
Proof.
  intros [Hc Hb Hr Ho Ha Hrun] Hid. unfold enqueue, waiting in *. destruct (Z.ltb_spec (cq_capacity (qu_queue u) - 1) 0) as [Hlt|Hge].
  - split; unfold waiting; simpl; rewrite ?app_nil_r; try done.
    + rewrite length_app. simpl. lia.
    + intros _. destruct (cq_queue (qu_queue u)) eqn:Hq; [simpl in Hc; lia|by apply Hb].
    + rewrite app_assoc. by apply sublist_app.
    + apply NoDup_app. split_and!; [done|set_solver|apply NoDup_singleton].
  - assert (cq_queue (qu_queue u) = []) as Hq.
    { destruct (cq_queue (qu_queue u)) eqn:Hq; [done|]. rewrite <- Hq in *. specialize (Hb ltac:(by rewrite Hq)). lia. }
    rewrite Hq in *. split; simpl; rewrite ?app_nil_r in *; unfold waiting; simpl; rewrite ?Hq; rewrite ?length_app; simpl in *; try done; try lia.
    + by apply sublist_app.
    + apply NoDup_app. split_and!; [done|set_solver|apply NoDup_singleton].
    + by apply sublist_app.
Qed.

(** Capacity comes back, and the next one goes on. *)
Lemma counted_next capacity cancels u :
  let q := qu_queue u in
  cq_capacity q + 1 + Z.of_nat (length (qu_running u)) + Z.of_nat (length (waiting u)) = capacity ->
  (waiting u <> [] -> capacity <= Z.of_nat (length (qu_running u)) + 1 <= capacity + Z.of_nat cancels) ->
  Z.of_nat (length (qu_running u)) <= capacity + Z.of_nat cancels ->
  qu_started u ++ waiting u `sublist_of` qu_arrived u -> NoDup (qu_arrived u) -> qu_running u `sublist_of` qu_started u ->
  let '(next, q') := resolveNext (more_capacity q) in counted capacity cancels (start_all (option_list next) q' u).
Proof.
  cbv zeta. unfold waiting, resolveNext, more_capacity. intros Hc Hb Hr Ho Ha Hrun. cbn [cq_queue].
  destruct (cq_queue (qu_queue u)) as [|next rest]; simpl in *;
    (split; simpl; rewrite ?app_nil_r in *; unfold waiting; simpl; rewrite ?length_app; simpl; try done; try lia).
  - specialize (Hb ltac:(done)). lia.
  - specialize (Hb ltac:(done)). lia.
  - by rewrite <- app_assoc.
  - by apply sublist_app.
Qed.

Lemma counted_use capacity cancels u op u' :
  counted capacity cancels u -> use u op = Some u' ->
  counted capacity (cancels + if decide (is_cancel op) then 1 else 0) u'.
Proof.
  intros Hu. pose proof Hu as [Hc Hb Hr Ho Ha Hrun]. destruct op as [id|id|id]; simpl.
  - rewrite Nat.add_0_r. case_decide as Hid; [done|]. pose proof (counted_arrive _ _ id u Hu Hid) as H.
    destruct (enqueue id (qu_queue u)) as [[proceeds ev] q]. by intros [= <-].
  - rewrite Nat.add_0_r. case_decide as Hid; [|done]. intros Hu'.
    assert (NoDup (qu_running u)) as Hnd.
    { eapply sublist_NoDup'; [exact Hrun|]. eapply sublist_NoDup'; [|exact Ha]. etrans; [|exact Ho]. by apply sublist_inserts_r. }
    pose proof (filter_one id _ Hnd Hid) as Hlen. unfold dequeue in Hu'.
    pose proof (counted_next capacity cancels (ends id u)) as Hn. unfold waiting in *. cbn [ends qu_queue qu_running qu_started qu_arrived] in Hn.
    destruct (resolveNext _) as [next q]. injection Hu' as <-. apply Hn; try done; try lia.
    + intros Hne. specialize (Hb Hne). lia.
    + etrans; [apply sublist_filter|done].
  - destruct (remove_waiting id (qu_queue u)) as [[_ Hq]|(index & Hi & Hq)].
    + rewrite Hq. intros [= <-]. unfold start_all. simpl. rewrite !app_nil_r. destruct u as [[c w] r s a]; simpl in *.
      split; simpl; try done. lia.
    + rewrite Hq. intros Hu'.
      set (u0 := {| qu_queue := {| cq_capacity := cq_capacity (qu_queue u); cq_queue := delete index (cq_queue (qu_queue u)) |};
                    qu_running := qu_running u; qu_started := qu_started u; qu_arrived := qu_arrived u |}).
      pose proof (counted_next capacity (cancels + 1) u0) as Hn. unfold waiting in *. cbn [u0 qu_queue qu_running qu_started qu_arrived cq_capacity cq_queue] in Hn.
      assert (cq_queue (qu_queue u) <> []) as Hne by (intros E; rewrite E in Hi; done).
      specialize (Hb Hne). apply lookup_lt_Some in Hi as Hlt.
      rewrite (length_delete _ _ (mk_is_Some _ _ Hi)) in Hn.
      destruct (resolveNext _) as [next q]. injection Hu' as <-. apply Hn; try done; try lia.
      etrans; [|exact Ho]. apply sublist_app; [done|]. apply sublist_delete.
Qed.

Lemma counted_uses capacity cancels u ops u' :
  counted capacity cancels u -> uses u ops = Some u' ->
  counted capacity (cancels + length (filter is_cancel ops)) u'.
Proof.
  revert cancels u. induction ops as [|op ops IH]; intros cancels u Hu; [intros [= <-]; by rewrite Nat.add_0_r|].
  simpl. destruct (use u op) as [u1|] eqn:Hop; [|done]. intros H%(IH _ _ (counted_use _ _ _ _ _ Hu Hop)).
  rewrite filter_cons. by destruct (decide (is_cancel op)); rewrite <- Nat.add_assoc in H.
Qed.

(** C19. The queue keeps to its capacity, whatever arrives, ends and is cancelled: while
    somebody waits no capacity is idle; what is free, runs and waits adds up to the capacity;
    executions start in the order of their arrival; and no more run than the capacity, but
    for one for each cancellation. *)
Theorem queue_keeps_to_capacity (capacity : Z) (ops : list QueueOp) (u : QueueUse) :
  0 <= capacity -> uses (unused capacity) ops = Some u ->
  (waiting u <> [] -> capacity <= Z.of_nat (length (qu_running u))) /\
  cq_capacity (qu_queue u) + Z.of_nat (length (qu_running u)) + Z.of_nat (length (waiting u)) = capacity /\
  qu_started u ++ waiting u `sublist_of` qu_arrived u /\
  Z.of_nat (length (qu_running u)) <= capacity + Z.of_nat (length (filter is_cancel ops)).
Proof. intros Hc Hu. by destruct (counted_uses capacity 0 _ _ _ (counted_unused capacity Hc) Hu). Qed.

Definition sample_ops : list QueueOp := [Arrive "a"; Arrive "b"; Arrive "c"; Arrive "d"; End_ "a"; Cancel "c"]%string.

Lemma queue_keeps_to_capacity_witness :
  exists u, uses (unused 1) sample_ops = Some u /\ qu_running u = ["b"; "d"]%string /\
    Z.of_nat (length (qu_running u)) <= 1 + Z.of_nat (length (filter is_cancel sample_ops)).
Proof.
  eexists. split; [vm_compute; reflexivity|]. split; [reflexivity|].
  destruct (queue_keeps_to_capacity 1 sample_ops _ ltac:(lia) eq_refl) as (_ & _ & _ & H). exact H.
Defined.

(** ** Nobody waits for ever *)

Lemma started_grows u ops u' id : uses u ops = Some u' -> id ∈ qu_started u -> id ∈ qu_started u'.
Proof.
  revert u. induction ops as [|op ops IH]; intros u; [by intros [= <-]|]. simpl. destruct (use u op) as [u1|] eqn:Hop; [|done].
  intros H Hin. apply (IH u1 H). clear IH H. destruct op; simpl in Hop; try case_decide; try done.
  - destruct (enqueue _ _) as [[? ?] ?]. injection Hop as <-. simpl. set_solver.
  - destruct (dequeue _). injection Hop as <-. simpl. set_solver.
  - destruct (remove _ _). injection Hop as <-. simpl. set_solver.
Qed.

(** The first [n] in front of [id] are gone when [n] times somebody went on. *)
Definition waits_behind (n : nat) (id : string) (q : list string) : Prop := exists front rest, q = front ++ id :: rest /\ (length front <= n)%nat.

Lemma resolveNext_closer n id q :
  waits_behind n id (cq_queue q) ->
  let '(next, q') := resolveNext (more_capacity q) in
  next = Some id \/ (exists m, n = S m /\ waits_behind m id (cq_queue q')).
Proof.
  intros (front & rest & Hq & Hn). unfold resolveNext, more_capacity. cbn [cq_queue]. rewrite Hq.
  destruct front as [|x front]; simpl; [by left|]. right. simpl in Hn. destruct n as [|m]; [lia|].
  exists m. split; [done|]. exists front, rest. split; [done|lia].
Qed.

Lemma delete_in_front {A} (front rest : list A) index :
  (index < length front)%nat -> delete index (front ++ rest) = delete index front ++ rest.
Proof.
  revert index. induction front as [|y front IH]; intros index Hlt; simpl in Hlt; [lia|].
  destruct index; [done|]. simpl. f_equal. apply IH. lia.
Qed.

Lemma delete_other n id q index c :
  waits_behind n id q -> q !! index = Some c -> c <> id -> waits_behind n id (delete index q).
Proof.
  intros (front & rest & -> & Hn) Hc Hne. destruct (decide (index < length front)%nat) as [Hlt|Hge].
  - exists (delete index front), rest. split; [by apply delete_in_front|].
    rewrite length_delete by (by apply lookup_lt_is_Some_2). lia.
  - rewrite lookup_app_r in Hc by lia. destruct (index - length front)%nat as [|j] eqn:Hj; simpl in Hc; [congruence|].
    exists front, (delete j rest). split; [|done]. replace index with (length front + S j)%nat by lia. clear.
    induction front as [|y front IH]; [done|]. simpl. by rewrite <- IH.
Qed.

(** C29. An execution that waits goes on when as many others have ended as wait in front of
    it, and one more, unless it is cancelled itself. *)
Theorem waiting_execution_starts (u u' : QueueUse) (ops : list QueueOp) (id : string) (front rest : list string) :
  waiting u = front ++ id :: rest -> uses u ops = Some u' -> Cancel id ∉ ops ->
  (length front < length (filter is_end ops))%nat -> id ∈ qu_started u'.
Proof.
  intros Hw Hu Hc Hlen. assert (waits_behind (length front) id (waiting u)) as Hb by (by exists front, rest).
  clear Hw rest. revert Hlen Hb. generalize (length front) as n. clear front. revert u Hu Hc.
  induction ops as [|op ops IH]; intros u Hu Hc n Hlen Hb; [simpl in Hlen; lia|].
  simpl in Hu. destruct (use u op) as [u1|] eqn:Hop; [|done]. apply not_elem_of_cons in Hc as [Hne Hc].
  destruct op as [x|x|x]; simpl in Hop.
  - case_decide; [done|]. apply (IH u1 Hu Hc n Hlen).
    unfold enqueue in Hop. destruct (_ <? 0); injection Hop as <-; [|done].
    destruct Hb as (front & rest & Hq & Hn). exists front, (rest ++ [x]). split; [|done]. unfold waiting in *. simpl. rewrite Hq.
    by rewrite <- app_assoc.
  - case_decide; [|done]. simpl in Hlen.
    pose proof (resolveNext_closer n id (qu_queue u) Hb) as Hr. unfold dequeue in Hop. destruct (resolveNext _) as [next q].
    injection Hop as <-. destruct Hr as [->|(m & -> & Hm)].
    + eapply started_grows; [exact Hu|]. simpl. set_solver.
    + eapply (IH _ Hu Hc m); [lia|done].
  - destruct (remove_waiting x (qu_queue u)) as [[_ Hq]|(index & Hi & Hq)]; rewrite Hq in Hop.
    + injection Hop as <-. apply (IH _ Hu Hc n Hlen). done.
    + assert (x <> id) as Hx by congruence.
      pose proof (resolveNext_closer n id {| cq_capacity := cq_capacity (qu_queue u); cq_queue := delete index (cq_queue (qu_queue u)) |}
        (delete_other _ _ _ _ _ Hb Hi Hx)) as Hr. destruct (resolveNext _) as [next q].
      injection Hop as <-. destruct Hr as [->|(m & -> & Hm)].
      * eapply started_grows; [exact Hu|]. simpl. set_solver.
      * eapply (IH _ Hu Hc m); [|done]. change (filter is_end (Cancel x :: ops)) with (filter is_end ops) in Hlen. lia.
Qed.

Lemma waiting_execution_starts_witness :
  exists u u', uses (unused 1) [Arrive "a"; Arrive "b"; Arrive "c"]%string = Some u /\
    uses u [End_ "a"; End_ "b"]%string = Some u' /\ "c"%string ∈ qu_started u'.
Proof.
  eexists _, _. split; [vm_compute; reflexivity|]. split; [vm_compute; reflexivity|].
  apply (waiting_execution_starts {| qu_queue := {| cq_capacity := -2; cq_queue := ["b"; "c"]%string |};
      qu_running := ["a"]%string; qu_started := ["a"]%string; qu_arrived := ["a"; "b"; "c"]%string |} _
    [End_ "a"; End_ "b"]%string "c" ["b"]%string []); [reflexivity|vm_compute; reflexivity| |vm_compute; lia].
  intros H. by rewrite !elem_of_cons, elem_of_nil in H; destruct H as [|[|]].
Defined.

(** ** The service *)

(** A limit is positive, or -1 for none; so is the one found later. *)
Lemma normaliseLimit_spec limit l : normaliseLimit limit = Ok l -> l <> 0 /\ -1 <= l.
Proof.
  unfold normaliseLimit. destruct (Z.eqb_spec limit 0); [done|]. intros [= <-]. destruct (Z.ltb_spec limit (-1)); lia.
Qed.

(** Once the service exists, no limit it finds later throws: a quota of 0 counts as none. *)
Lemma ensureEvalQueueResolved_ok config license c c' :
  new_control config = Ok c -> is_ok (ensureEvalQueueResolved config license c') = true.
Proof.
  unfold new_control, ensureEvalQueueResolved. destruct (cc_evalQueueResolved c'); [done|].
  destruct (queue_mode config); [done|].
  assert (limit_not_0 : forall z, z <> 0 -> exists l, normaliseLimit z = Ok l).
  { intros z Hz. unfold normaliseLimit. apply Z.eqb_neq in Hz as ->. by eexists. }
  unfold normaliseLimit at 1 2. destruct (Z.eqb_spec (productionLimit config) 0); [done|].
  destruct (Z.eqb_spec (evaluationLimit config) 0) as [|He]; [done|]. intros _.
  destruct (limit_not_0 (resolveEvaluationConcurrencyLimit config license)) as [l ->]; [|done].
  unfold resolveEvaluationConcurrencyLimit, readLicenseQuota. destruct (env_set license); [done|].
  destruct (license_quota license) as [[]|]; try done; simpl; repeat case_decide; simpl; lia.
Qed.

(** ** Where the code differs from its intent *)

(** One slot, three executions: to cancel one that waits lets the other run beside the first. *)
Example cancelling_exceeds_the_limit :
  qu_running <$> uses (unused 1) [Arrive "a"; Arrive "b"; Arrive "c"; Cancel "b"]%string = Some ["a"; "c"]%string.
Proof. reflexivity. Qed.

(** To remove all that wait lets every other one run instead. *)
Example removing_all_starts_half :
  (remove_all {| cq_capacity := -4; cq_queue := ["a"; "b"; "c"; "d"]%string |}).1 = ["b"; "d"]%string.
Proof. reflexivity. Qed.

(** A shutdown disables the service first, so that nothing is removed and nothing cancelled. *)
Example shutdown_removes_nothing (c : ConcurrencyControl) ids : removeAll ids (disable c) = ([], [], disable c).
Proof. reflexivity. Qed.

(** The mode [agent] is one of the list of modes, and the service does not know it. *)
Example agent_mode_throws config license c :
  cc_isEnabled c = true -> throttle config license agent "a"%string c = Err (UnknownExecutionModeError agent).
Proof. intros Hc. unfold throttle, on_queue, let_through. cbn. by rewrite Hc. Qed.
