(* ===== verification/ActiveExecutions.v ===== *)
(** * Active executions: the runs of one process and the capacity they hold

    [packages/cli/src/active-executions.ts] and [concurrency/concurrency-capacity-reservation.ts]:
    an execution is added (its row created or claimed, its capacity reserved, which may mean
    to wait), runs, and leaves when its promise settles; it may be cancelled at any time.

    [add] is asynchronous: between two of its awaits anything may happen.  A call of it is
    an [Adding], with the await it is at; [Event] is what can happen next, in any order.
    Runs are objects: a callback keeps the run it was made for, while the map of active
    executions may name another by then.  The visible order of
    [Object.keys] is left open.  What becomes of the capacity is in [ActiveCapacity]. *)

From stdpp Require Import base gmap strings list fin_maps.
From Stdlib Require Import ZArith Lia.
From S2P Require Import Prelude.
From S2P Require Import JsCollections.
From S2P Require Import Concurrency.

Open Scope Z_scope.

(** ** What is kept of an execution *)

Inductive ExecutionStatus := es_canceled | es_crashed | es_error | es_new | es_running | es_success | es_unknown | es_waiting.

#[export] Instance ExecutionStatus_eq_dec : EqDecision ExecutionStatus.
Proof. solve_decision. Defined.

#[export] Instance WorkflowExecuteMode_eq_dec : EqDecision WorkflowExecuteMode.
Proof. solve_decision. Defined.

Inductive CancellationReason := by_manual | by_timeout | by_shutdown.

(** An error that reaches the caller of a method. *)
Inductive ActiveError :=
  | ExecutionNotFoundError (executionId : string)
  | ExecutionAlreadyResumingError (executionId : string)
  | CapacityError (e : ConcurrencyError)
  | RejectedError (message : string).

(** [IDeferredPromise]: only the first settling counts. *)
Inductive Deferred (A : Type) :=
  | df_pending
  | df_resolved (a : A)
  | df_rejected (reason : CancellationReason).
Arguments df_pending {_}.
Arguments df_resolved {_} _.
Arguments df_rejected {_} _.

Definition df_resolve {A} (a : A) (d : Deferred A) : Deferred A := match d with df_pending => df_resolved a | _ => d end.
Definition df_reject {A} (r : CancellationReason) (d : Deferred A) : Deferred A := match d with df_pending => df_rejected r | _ => d end.
Definition is_pending {A} (d : Deferred A) : bool := match d with df_pending => true | _ => false end.

(** What the model reads of [IWorkflowExecutionDataProcess]; the HTTP response is an object. *)
Record ProcessData := {
  pd_executionMode : WorkflowExecuteMode;
  pd_retryOf : option string;
  pd_workflowId : string;
  pd_httpResponse : option nat;
}.

Record ResumableExecution := { re_executionId : string; re_expectedStatus : ExecutionStatus }.

Inductive WebhookResponseMode := onReceived | lastNode | responseNode | formPage | hostedChat | streaming.

Record CurrentSummary := {
  cs_id : string;
  cs_retryOf : option string;
  cs_startedAt : Z;
  cs_mode : WorkflowExecuteMode;
  cs_workflowId : string;
  cs_status : ExecutionStatus;
}.

(** ** [ConcurrencyCapacityReservation] *)

Record CapacityTarget := { ct_mode : WorkflowExecuteMode; ct_executionId : string }.

Section active.
(** What a run ends with, and what a webhook is answered with. *)
Context {IRun Response : Type} (ended_without_response : Response).
Context (config : ConcurrencyConfig) (license : LimitSources).

(** [IExecutingWorkflowData], with what the callbacks of [add] close over: the reservation,
    and whether the callback on the run's promise has run. *)
Record Executing := {
  ex_executionData : ProcessData;
  ex_executionId : string;
  ex_startedAt : Z;
  ex_postExecutePromise : Deferred (option IRun);
  ex_responsePromise : option nat;
  ex_workflowExecution : option nat;
  ex_status : ExecutionStatus;
  ex_reservation : option CapacityTarget;
  ex_settled : bool;
}.

(** The await a call of [add] is at. *)
Inductive AddStage :=
  | at_create
  | at_reserve (granted : bool)
  | at_setRunning
  | at_update
  | abandoned.

Record Adding := {
  ad_data : ProcessData;
  ad_existing : option ResumableExecution;
  ad_executionId : string;
  ad_stage : AddStage;
  (* [acquiredReservation] *)
  ad_reservation : option CapacityTarget;
}.

Inductive Effect :=
  | emit_cancelled (executionId workflowId : string) (reason : CancellationReason)
  | cancel_workflow (workflowExecution : nat)
  | write_http (response : nat) (text : string)
  | flush_http (response : nat)
  | end_http (response : nat)
  | cancel_rows (executionIds : list string)
  | add_returned (call : nat) (executionId : string)
  | add_threw (call : nat) (e : ActiveError).

Record ActiveExecutions := {
  ae_control : ConcurrencyControl;
  (* the calls whose promise the production queue holds, in its order *)
  ae_resolvers : list nat;
  ae_runs : gmap nat Executing;
  ae_activeExecutions : gmap string nat;
  ae_responseModes : gmap string WebhookResponseMode;
  ae_responses : gmap nat (Deferred Response);
  ae_adding : gmap nat Adding;
  ae_next : nat;
  ae_effects : list Effect;
}.

(** ** Reading and writing the state *)

Implicit Types s : ActiveExecutions.

Definition with_control c s := Build_ActiveExecutions c (ae_resolvers s) (ae_runs s) (ae_activeExecutions s)
  (ae_responseModes s) (ae_responses s) (ae_adding s) (ae_next s) (ae_effects s).
Definition with_resolvers w s := Build_ActiveExecutions (ae_control s) w (ae_runs s) (ae_activeExecutions s)
  (ae_responseModes s) (ae_responses s) (ae_adding s) (ae_next s) (ae_effects s).
Definition with_runs r s := Build_ActiveExecutions (ae_control s) (ae_resolvers s) r (ae_activeExecutions s)
  (ae_responseModes s) (ae_responses s) (ae_adding s) (ae_next s) (ae_effects s).
Definition with_active a s := Build_ActiveExecutions (ae_control s) (ae_resolvers s) (ae_runs s) a
  (ae_responseModes s) (ae_responses s) (ae_adding s) (ae_next s) (ae_effects s).
Definition with_modes m s := Build_ActiveExecutions (ae_control s) (ae_resolvers s) (ae_runs s) (ae_activeExecutions s)
  m (ae_responses s) (ae_adding s) (ae_next s) (ae_effects s).
Definition with_responses p s := Build_ActiveExecutions (ae_control s) (ae_resolvers s) (ae_runs s) (ae_activeExecutions s)
  (ae_responseModes s) p (ae_adding s) (ae_next s) (ae_effects s).
Definition with_adding a s := Build_ActiveExecutions (ae_control s) (ae_resolvers s) (ae_runs s) (ae_activeExecutions s)
  (ae_responseModes s) (ae_responses s) a (ae_next s) (ae_effects s).
Definition with_next n s := Build_ActiveExecutions (ae_control s) (ae_resolvers s) (ae_runs s) (ae_activeExecutions s)
  (ae_responseModes s) (ae_responses s) (ae_adding s) n (ae_effects s).
Definition with_effect e s := Build_ActiveExecutions (ae_control s) (ae_resolvers s) (ae_runs s) (ae_activeExecutions s)
  (ae_responseModes s) (ae_responses s) (ae_adding s) (ae_next s) (ae_effects s ++ [e]).

(** The fields of a run that change. *)
Definition set_promise p r := Build_Executing (ex_executionData r) (ex_executionId r) (ex_startedAt r) p (ex_responsePromise r)
  (ex_workflowExecution r) (ex_status r) (ex_reservation r) (ex_settled r).
Definition set_response p r := Build_Executing (ex_executionData r) (ex_executionId r) (ex_startedAt r) (ex_postExecutePromise r) p
  (ex_workflowExecution r) (ex_status r) (ex_reservation r) (ex_settled r).
Definition set_workflow w r := Build_Executing (ex_executionData r) (ex_executionId r) (ex_startedAt r) (ex_postExecutePromise r)
  (ex_responsePromise r) w (ex_status r) (ex_reservation r) (ex_settled r).
Definition set_status st r := Build_Executing (ex_executionData r) (ex_executionId r) (ex_startedAt r) (ex_postExecutePromise r)
  (ex_responsePromise r) (ex_workflowExecution r) st (ex_reservation r) (ex_settled r).
Definition set_settled rs r := Build_Executing (ex_executionData r) (ex_executionId r) (ex_startedAt r) (ex_postExecutePromise r)
  (ex_responsePromise r) (ex_workflowExecution r) (ex_status r) rs true.

Definition set_stage st a := Build_Adding (ad_data a) (ad_existing a) (ad_executionId a) st (ad_reservation a).

Definition change_run (n : nat) (f : Executing -> Executing) s := with_runs (alter f n (ae_runs s)) s.

(** The run the map names. *)
Definition active_run (executionId : string) s : option (nat * Executing) :=
  n ← ae_activeExecutions s !! executionId; r ← ae_runs s !! n; Some (n, r).

Definition has (executionId : string) s : bool := bool_decide (is_Some (ae_activeExecutions s !! executionId)).

Definition getExecutionOrFail (executionId : string) s : result ActiveError (nat * Executing) :=
  match active_run executionId s with Some p => Ok p | None => Err (ExecutionNotFoundError executionId) end.

(** ** Capacity *)

(** The queue lets the execution in front go on: its promise resolves. *)
Definition wake (released : option string) s :=
  match released, ae_resolvers s with
  | Some _, call :: rest => with_adding (alter (set_stage (at_reserve true)) call (ae_adding s)) (with_resolvers rest s)
  | _, _ => s
  end.

(** [release] of a reservation, which the caller forgets afterwards. *)
Definition release_reservation (reserved : option CapacityTarget) s : result ActiveError ActiveExecutions :=
  match reserved with
  | None => Ok s
  | Some target =>
      match release config license (ct_mode target) (ae_control s) with
      | Ok (released, c) => Ok (wake released (with_control c s))
      | Err e => Err (CapacityError e)
      end
  end.

(** ** [add] *)

Definition shouldReserveCapacity (mode : WorkflowExecuteMode) : bool := negb (bool_decide (mode = evaluation)).

Definition put_adding (call : nat) (a : Adding) s := with_adding (<[call := a]> (ae_adding s)) s.
Definition drop_adding (call : nat) s := with_adding (delete call (ae_adding s)) s.

(** What the map names before the run is put there. *)
Definition new_run (a : Adding) (now : Z) (resumingExecution : option (nat * Executing)) : Executing := {|
  ex_executionData := ad_data a;
  ex_executionId := ad_executionId a;
  ex_startedAt := default now (ex_startedAt ∘ snd <$> resumingExecution);
  ex_postExecutePromise := df_pending;
  ex_responsePromise := resumingExecution ≫= ex_responsePromise ∘ snd;
  ex_workflowExecution := None;
  ex_status := es_running;
  ex_reservation := ad_reservation a;
  ex_settled := false;
|}.

(** From [resumingExecution] to the end of [add], without an await. *)
Definition register (call : nat) (a : Adding) (now : Z) s :=
  let id := ad_executionId a in
  let run := new_run a now (active_run id s) in
  let n := ae_next s in
  with_effect (add_returned call id)
    (drop_adding call (with_next (S n) (with_active (<[id := n]> (ae_activeExecutions s)) (with_runs (<[n := run]> (ae_runs s)) s)))).

(** The [catch]: the capacity is given back and the error thrown. *)
Definition add_fails (e : ActiveError) (call : nat) (a : Adding) s :=
  match release_reservation (ad_reservation a) s with
  | Ok s => with_effect (add_threw call e) (drop_adding call s)
  | Err e => with_effect (add_threw call e) (drop_adding call s)
  end.

(** [capacityReservation.reserve], up to its await. *)
Definition reserve (call : nat) (a : Adding) s :=
  match throttle config license (pd_executionMode (ad_data a)) (ad_executionId a) (ae_control s) with
  | Err e => add_fails (CapacityError e) call a s
  | Ok (proceeds, c) =>
      put_adding call (set_stage (at_reserve proceeds) a)
        (with_resolvers (ae_resolvers s ++ if (proceeds : bool) then [] else [call]) (with_control c s))
  end.

(** What follows the reservation. *)
Definition after_reserve (call : nat) (a : Adding) (now : Z) s :=
  match ad_existing a with
  | Some _ => put_adding call (set_stage at_update a) s
  | None => if negb (queue_mode config) then put_adding call (set_stage at_setRunning a) s else register call a now s
  end.

Definition reserve_if_due (call : nat) (a : Adding) (now : Z) s :=
  if shouldReserveCapacity (pd_executionMode (ad_data a)) then reserve call a s else after_reserve call a now s.

Definition with_id (executionId : string) (a : Adding) :=
  Build_Adding (ad_data a) (ad_existing a) executionId (ad_stage a) (ad_reservation a).

Definition with_reservation (a : Adding) :=
  Build_Adding (ad_data a) (ad_existing a) (ad_executionId a) (ad_stage a)
    (Some {| ct_mode := pd_executionMode (ad_data a); ct_executionId := ad_executionId a |}).

(** [add] up to its first await. *)
Definition add (executionData : ProcessData) (existingExecution : option ResumableExecution) (now : Z) s :=
  let call := ae_next s in
  let s := with_next (S call) s in
  let a := {| ad_data := executionData; ad_existing := existingExecution;
              ad_executionId := from_option re_executionId ""%string existingExecution;
              ad_stage := at_create; ad_reservation := None |} in
  match existingExecution with
  | None => put_adding call a s
  | Some _ => reserve_if_due call a now s
  end.

(** [executionPersistence.create] ends: [None] if it throws.  An empty id fails the
    assertion. *)
Definition created (call : nat) (outcome : option string) (now : Z) s :=
  match ae_adding s !! call with
  | Some a =>
      match ad_stage a, outcome with
      | at_create, Some id =>
          if bool_decide (id = ""%string) then add_fails (RejectedError "assert") call a s
          else reserve_if_due call (with_id id a) now s
      | at_create, None => add_fails (RejectedError "create") call a s
      | _, _ => s
      end
  | None => s
  end.

(** The promise of [throttle] has resolved. *)
Definition capacity_granted (call : nat) (now : Z) s :=
  match ae_adding s !! call with
  | Some a => match ad_stage a with at_reserve true => after_reserve call (with_reservation a) now s | _ => s end
  | None => s
  end.

(** [executionRepository.setRunning] ends. *)
Definition running_set (call : nat) (ok : bool) (now : Z) s :=
  match ae_adding s !! call with
  | Some a =>
      match ad_stage a with
      | at_setRunning => if ok then register call a now s else add_fails (RejectedError "setRunning") call a s
      | _ => s
      end
  | None => s
  end.

(** [executionPersistence.updateExistingExecution] ends: did the row still have the expected
    status? *)
Definition updated (call : nat) (outcome : option bool) (now : Z) s :=
  match ae_adding s !! call with
  | Some a =>
      match ad_stage a, ad_existing a with
      | at_update, Some existing =>
          match outcome with
          | None => add_fails (RejectedError "updateExistingExecution") call a s
          | Some false => add_fails (ExecutionAlreadyResumingError (ad_executionId a)) call a s
          | Some true =>
              if bool_decide (re_expectedStatus existing = es_new) then put_adding call (set_stage at_setRunning a) s
              else register call a now s
          end
      | _, _ => s
      end
  | None => s
  end.

(** The [finally] of [add], for the run it was made for.  If the release throws, the rest is
    not done. *)
Definition settled (n : nat) s :=
  match ae_runs s !! n with
  | None => s
  | Some r =>
      if is_pending (ex_postExecutePromise r) || ex_settled r then s
      else
        match release_reservation (ex_reservation r) s with
        | Err _ => change_run n (set_settled (ex_reservation r)) s
        | Ok s =>
            let s := change_run n (set_settled None) s in
            if bool_decide (ex_status r = es_waiting) then change_run n (set_workflow None) s
            else with_modes (delete (ex_executionId r) (ae_responseModes s))
                   (with_active (delete (ex_executionId r) (ae_activeExecutions s)) s)
        end
  end.

(** ** The other methods *)

Definition attachWorkflowExecution (executionId : string) (workflowExecution : nat) s : result ActiveError ActiveExecutions :=
  getExecutionOrFail executionId s ≫= fun '(n, _) => Ok (change_run n (set_workflow (Some workflowExecution)) s).

Definition attachResponsePromise (executionId : string) (responsePromise : nat) s : result ActiveError ActiveExecutions :=
  getExecutionOrFail executionId s ≫= fun '(n, _) =>
  Ok (change_run n (set_response (Some responsePromise))
        (with_responses (<[responsePromise := default df_pending (ae_responses s !! responsePromise)]> (ae_responses s)) s)).

Definition change_response (f : Deferred Response -> Deferred Response) (p : option nat) s :=
  match p with Some p => with_responses (alter f p (ae_responses s)) s | None => s end.

Definition resolveResponsePromise (executionId : string) (response : Response) s :=
  match active_run executionId s with
  | Some (_, r) => change_response (df_resolve response) (ex_responsePromise r) s
  | None => s
  end.

Definition sendChunk (executionId : string) (chunkText : string) s :=
  match active_run executionId s with
  | Some (_, r) =>
      match pd_httpResponse (ex_executionData r) with
      | Some http => with_effect (flush_http http) (with_effect (write_http http (chunkText +:+ String (Ascii.ascii_of_nat 10) EmptyString)) s)
      | None => s
      end
  | None => s
  end.

Definition cancel_attached (w : option nat) s := match w with Some w => with_effect (cancel_workflow w) s | None => s end.

Definition stopExecution (executionId : string) (reason : CancellationReason) s :=
  match active_run executionId s with
  | None => s
  | Some (n, r) =>
      let s := with_effect (emit_cancelled executionId (pd_workflowId (ex_executionData r)) reason) s in
      let s := change_response (df_reject reason) (ex_responsePromise r) s in
      if bool_decide (ex_status r = es_waiting)
      then with_modes (delete executionId (ae_responseModes s)) (with_active (delete executionId (ae_activeExecutions s)) s)
      else change_run n (fun r => set_promise (df_reject reason (ex_postExecutePromise r)) r)
             (cancel_attached (ex_workflowExecution r) s)
  end.

Definition finalizeExecution (executionId : string) (fullRunData : option IRun) s :=
  match active_run executionId s with
  | None => s
  | Some (n, r) =>
      let s := match pd_httpResponse (ex_executionData r) with Some http => with_effect (end_http http) s | None => s end in
      change_run n (fun r => set_promise (df_resolve fullRunData (ex_postExecutePromise r)) r) s
  end.

Definition resolveExecutionResponsePromise (executionId : string) s :=
  match active_run executionId s with
  | None => s
  | Some (_, r) =>
      if bool_decide (ex_status r <> es_waiting) then change_response (df_resolve ended_without_response) (ex_responsePromise r) s else s
  end.

Definition getPostExecutePromise (executionId : string) s : result ActiveError (Deferred (option IRun)) :=
  getExecutionOrFail executionId s ≫= fun '(_, r) => Ok (ex_postExecutePromise r).

Definition active_ids s : list string := (map_to_list (ae_activeExecutions s)).*1.

Definition summary_of (id : string) (r : Executing) : CurrentSummary := {|
  cs_id := id;
  cs_retryOf := pd_retryOf (ex_executionData r);
  cs_startedAt := ex_startedAt r;
  cs_mode := pd_executionMode (ex_executionData r);
  cs_workflowId := pd_workflowId (ex_executionData r);
  cs_status := ex_status r;
|}.

Definition getActiveExecutions s : list CurrentSummary :=
  omap (fun id => summary_of id ∘ snd <$> active_run id s) (active_ids s).

Definition status_is (st : ExecutionStatus) s (id : string) : bool :=
  match active_run id s with Some (_, r) => bool_decide (ex_status r = st) | None => false end.

Definition getRunningExecutionIds s : list string := arr_filter (status_is es_running s) (active_ids s).

(** [cancelRunningExecutions]: the executions it picks, and what it does once their rows are
    written, or are not in time. *)
Definition to_cancel s : list string :=
  arr_filter (fun id => match active_run id s with Some (_, r) => bool_decide (is_Some (ex_workflowExecution r)) | None => false end)
    (getRunningExecutionIds s).

Definition stop_all (executionIds : list string) s := foldl (fun s id => stopExecution id by_shutdown s) s executionIds.

Definition setStatus (executionId : string) (status : ExecutionStatus) s : result ActiveError ActiveExecutions :=
  getExecutionOrFail executionId s ≫= fun '(n, _) => Ok (change_run n (set_status status) s).

Definition getStatus (executionId : string) s : result ActiveError ExecutionStatus :=
  getExecutionOrFail executionId s ≫= fun '(_, r) => Ok (ex_status r).

Definition setResponseMode (executionId : string) (responseMode : WebhookResponseMode) s :=
  with_modes (<[executionId := responseMode]> (ae_responseModes s)) s.

Definition getResponseMode (executionId : string) s : option WebhookResponseMode := ae_responseModes s !! executionId.

(** [shutdown] up to the loop that waits until no execution is active.  The service is off
    when [removeAll] is called, which then lets nobody go on. *)
Definition shutdown_one (cancelAll : bool) (acc : list string * ActiveExecutions) (executionId : string) :
    list string * ActiveExecutions :=
  let '(toCancel, s) := acc in
  if negb (queue_mode config) && cancelAll then (toCancel ++ [executionId], stopExecution executionId by_shutdown s)
  else if status_is es_waiting s executionId || status_is es_new s executionId
  then (toCancel, with_active (delete executionId (ae_activeExecutions s)) s)
  else (toCancel, s).

Definition shutdown (cancelAll : bool) s :=
  let s := if queue_mode config then s else with_control (disable (ae_control s)) s in
  let '(toCancel, s) := foldl (shutdown_one cancelAll) ([], s) (active_ids s) in
  let '(_, cancelled, c) := removeAll toCancel (ae_control s) in
  let s := with_control c s in
  if bool_decide (cancelled = []) then s else with_effect (cancel_rows cancelled) s.

(** ** Stopping on request

    [stopInRegularMode] of [executions/execution.service.ts], as far as it concerns this
    process: an execution that waits for capacity leaves the queue, and [add] never goes on
    for it. *)
Definition leave_queue (mode : WorkflowExecuteMode) (executionId : string) s :=
  match remove_execution config license mode executionId (ae_control s) with
  | Err _ => s
  | Ok (released, c) =>
      match queue_type mode, cc_production (ae_control s) with
      | Ok (Some production_queue), Some q =>
          match arr_findIndex (fun item => bool_decide (item = executionId)) (cq_queue q) with
          | Some index =>
              let gone := ae_resolvers s !! index in
              let s := with_resolvers (delete index (ae_resolvers s)) (with_control c s) in
              wake released (match gone with Some call => with_adding (alter (set_stage abandoned) call (ae_adding s)) s | None => s end)
          | None => with_control c s
          end
      | _, _ => with_control c s
      end
  end.

Definition stopInRegularMode (mode : WorkflowExecuteMode) (executionId : string) s :=
  if has_execution executionId (ae_control s) then leave_queue mode executionId s
  else if has executionId s then stopExecution executionId by_manual s
  else s.

(** ** What can happen *)

Inductive Event :=
  | do_add (executionData : ProcessData) (existing : option ResumableExecution) (now : Z)
  | do_created (call : nat) (outcome : option string) (now : Z)
  | do_granted (call : nat) (now : Z)
  | do_running_set (call : nat) (ok : bool) (now : Z)
  | do_updated (call : nat) (outcome : option bool) (now : Z)
  | do_settled (run : nat)
  | do_attach (executionId : string) (workflowExecution : nat)
  | do_attach_response (executionId : string) (responsePromise : nat)
  | do_respond (executionId : string) (response : Response)
  | do_respond_ended (executionId : string)
  | do_chunk (executionId : string) (chunkText : string)
  | do_stop (executionId : string) (reason : CancellationReason)
  | do_stop_request (mode : WorkflowExecuteMode) (executionId : string)
  | do_stop_all (executionIds : list string)
  | do_finalize (executionId : string) (fullRunData : option IRun)
  | do_set_status (executionId : string) (status : ExecutionStatus)
  | do_set_response_mode (executionId : string) (responseMode : WebhookResponseMode)
  | do_shutdown (cancelAll : bool).

(** A method that throws changes nothing. *)
Definition or_same s (x : result ActiveError ActiveExecutions) : ActiveExecutions := match x with Ok s' => s' | Err _ => s end.

Definition step s (e : Event) : ActiveExecutions :=
  match e with
  | do_add d x now => add d x now s
  | do_created call o now => created call o now s
  | do_granted call now => capacity_granted call now s
  | do_running_set call ok now => running_set call ok now s
  | do_updated call o now => updated call o now s
  | do_settled n => settled n s
  | do_attach id w => or_same s (attachWorkflowExecution id w s)
  | do_attach_response id p => or_same s (attachResponsePromise id p s)
  | do_respond id x => resolveResponsePromise id x s
  | do_respond_ended id => resolveExecutionResponsePromise id s
  | do_chunk id text => sendChunk id text s
  | do_stop id reason => stopExecution id reason s
  | do_stop_request mode id => stopInRegularMode mode id s
  | do_stop_all ids => stop_all ids s
  | do_finalize id data => finalizeExecution id data s
  | do_set_status id st => or_same s (setStatus id st s)
  | do_set_response_mode id m => setResponseMode id m s
  | do_shutdown cancelAll => shutdown cancelAll s
  end.

Definition steps s (events : list Event) : ActiveExecutions := foldl step s events.

Definition no_executions (c : ConcurrencyControl) : ActiveExecutions := {|
  ae_control := c; ae_resolvers := []; ae_runs := ∅; ae_activeExecutions := ∅; ae_responseModes := ∅; ae_responses := ∅;
  ae_adding := ∅; ae_next := 0; ae_effects := [];
|}.
End active.
