(* ===== verification/ActiveCapacity.v ===== *)
(** * Active executions: what becomes of the capacity

    Whatever happens, in any order, until the process shuts down: what the queue has left is
    its limit less the calls of [add] that are past their reservation and the runs whose
    promise has not settled.  A run gives its place back once, when its promise settles,
    whoever settles it; and only then. *)

From stdpp Require Import base gmap strings list fin_maps.
From Stdlib Require Import ZArith Lia.
From S2P Require Import Prelude.
From S2P Require Import JsCollections.
From S2P Require Import Concurrency.
From S2P Require Import ActiveExecutions.

Open Scope Z_scope.


(** ** Counting in a map *)

Definition count {A} (p : A -> bool) (m : gmap nat A) : Z := map_fold (fun _ x n => Z.b2z (p x) + n) 0 m.
Definition count_opt {A} (p : A -> bool) (o : option A) : Z := from_option (Z.b2z ∘ p) 0 o.

Lemma count_insert {A} (p : A -> bool) m k x : m !! k = None -> count p (<[k := x]> m) = Z.b2z (p x) + count p m.
Proof. intros Hk. unfold count. rewrite map_fold_insert_L; [done|intros; lia|done]. Qed.

Lemma count_delete {A} (p : A -> bool) m k : count p m = count_opt p (m !! k) + count p (delete k m).
Proof.
  destruct (m !! k) as [x|] eqn:Hk; simpl; [|by rewrite delete_id by done].
  unfold count. rewrite (map_fold_delete_L _ _ k x) by (done || (intros; lia)). done.
Qed.

Lemma count_set {A} (p : A -> bool) m k (o : option A) :
  count p (partial_alter (fun _ => o) k m) = count p m + count_opt p o - count_opt p (m !! k).
Proof.
  rewrite (count_delete p m k). destruct o as [x|]; simpl.
  - change (partial_alter (fun _ => Some x) k m) with (<[k := x]> m). rewrite <- insert_delete_eq, count_insert by apply lookup_delete_eq. lia.
  - change (partial_alter (fun _ => None) k m) with (delete k m). lia.
Qed.

Lemma alter_is_set {A} (f : A -> A) (m : gmap nat A) k x : m !! k = Some x -> alter f k m = partial_alter (fun _ => Some (f x)) k m.
Proof. intros Hk. apply map_eq. intros i. destruct (decide (i = k)) as [->|].
  - by rewrite lookup_alter_eq, lookup_partial_alter_eq, Hk.
  - by rewrite lookup_alter_ne, lookup_partial_alter_ne.
Qed.

Lemma map_Forall_set {A} (P : nat -> A -> Prop) (m : gmap nat A) k (o : option A) :
  map_Forall P m -> from_option (P k) True o -> map_Forall P (partial_alter (fun _ => o) k m).
Proof.
  intros Hm Ho i x. destruct (decide (i = k)) as [->|Hne]; [rewrite lookup_partial_alter_eq; by intros ->|].
  rewrite lookup_partial_alter_ne by done. apply Hm.
Qed.

Lemma Forall2_impl_in {A B} (P Q : A -> B -> Prop) l k :
  Forall2 P l k -> (forall x y, y ∈ k -> P x y -> Q x y) -> Forall2 Q l k.
Proof. induction 1; constructor; set_solver. Qed.

Lemma delete_one {A} (l : list A) i x :
  NoDup l -> l !! i = Some x -> NoDup (delete i l) /\ forall y, y ∈ delete i l <-> y ∈ l /\ y <> x.
Proof.
  intros Hnd Hi. pose proof (delete_Permutation _ _ _ Hi) as Hp. rewrite Hp in Hnd. apply NoDup_cons in Hnd as [Hx Hnd].
  split; [done|]. intros y. rewrite (elem_of_Permutation_proper y _ _ Hp). set_solver.
Qed.

(** ** Who holds a place *)

Section accounting.
Context {IRun Response : Type} (ended_without_response : Response).
Context (config : ConcurrencyConfig) (license : LimitSources).

(** The modes that the production queue limits, and those the service knows. *)
Definition limited (mode : WorkflowExecuteMode) : bool :=
  match queue_type mode with Ok (Some production_queue) => true | _ => false end.
Definition admitted (mode : WorkflowExecuteMode) : bool := is_ok (queue_type mode).

Definition past_reservation (st : AddStage) : bool :=
  match st with at_reserve true | at_setRunning | at_update => true | _ => false end.
Definition in_flight (a : Adding) : bool := limited (pd_executionMode (ad_data a)) && past_reservation (ad_stage a).
Definition unsettled (r : @Executing IRun) : bool := limited (pd_executionMode (ex_executionData r)) && negb (ex_settled r).

Definition reserved_for (mode : WorkflowExecuteMode) (id : string) : option CapacityTarget :=
  if shouldReserveCapacity mode then Some {| ct_mode := mode; ct_executionId := id |} else None.

Definition adding_ok (a : Adding) : Prop :=
  let mode := pd_executionMode (ad_data a) in
  match ad_stage a with
  | at_setRunning | at_update => ad_reservation a = reserved_for mode (ad_executionId a) /\ admitted mode = true
  | at_reserve true => ad_reservation a = None /\ shouldReserveCapacity mode = true /\ admitted mode = true
  | at_reserve false => ad_reservation a = None /\ limited mode = true
  | at_create | abandoned => ad_reservation a = None
  end.

Definition run_ok (r : @Executing IRun) : Prop :=
  let mode := pd_executionMode (ex_executionData r) in
  admitted mode = true /\ ex_reservation r = if ex_settled r then None else reserved_for mode (ex_executionId r).

Definition is_waiting (a : Adding) : Prop := ad_stage a = at_reserve false.

Definition waits_as (adding : gmap nat Adding) (id : string) (call : nat) : Prop :=
  exists a, adding !! call = Some a /\ ad_executionId a = id /\ is_waiting a.

Record balanced (N k : Z) (c : ConcurrencyControl) (resolvers : list nat) (adding : gmap nat Adding)
    (runs : gmap nat (@Executing IRun)) (next : nat) : Prop := {
  bal_on : cc_isEnabled c = true;
  bal_queue : exists q, cc_production c = Some q /\
    cq_capacity q + Z.of_nat (length (cq_queue q)) + count in_flight adding + count unsettled runs = N + k /\
    Forall2 (waits_as adding) (cq_queue q) resolvers;
  bal_nodup : NoDup resolvers;
  bal_adding : map_Forall (fun call a => (call < next)%nat /\ adding_ok a /\ (is_waiting a -> call ∈ resolvers)) adding;
  bal_runs : map_Forall (fun n r => (n < next)%nat /\ run_ok r) runs;
}.

Notation State := (@ActiveExecutions IRun Response).
Implicit Types s : State.

Definition balance (N k : Z) s : Prop := balanced N k (ae_control s) (ae_resolvers s) (ae_adding s) (ae_runs s) (ae_next s).

Lemma limited_reserves mode : limited mode = true -> shouldReserveCapacity mode = true.
Proof. by destruct mode. Qed.

Lemma limited_admitted mode : limited mode = true -> admitted mode = true.
Proof. by destruct mode. Qed.

(** ** Changing one entry *)

Lemma balance_adding N k s call (o : option Adding) :
  balance N k s -> (call < ae_next s)%nat -> (forall a, ae_adding s !! call = Some a -> ~ is_waiting a) ->
  from_option (fun a => adding_ok a /\ ~ is_waiting a) True o ->
  balance N (k + count_opt in_flight o - count_opt in_flight (ae_adding s !! call))
    (with_adding (partial_alter (fun _ => o) call (ae_adding s)) s).
Proof.
  intros [Hon (q & Hq & Hsum & Hw) Hnd Ha Hr] Hlt Hold Hnew. split; cbn; try done.
  - exists q. split; [done|]. rewrite count_set. split; [lia|]. eapply Forall2_impl; [exact Hw|].
    intros id call' (a & Hc & Hid & Hwait). exists a. split; [|done]. destruct (decide (call' = call)) as [->|Hne].
    + exfalso. by eapply Hold.
    + by rewrite lookup_partial_alter_ne.
  - apply map_Forall_set; [done|]. destruct o as [a|]; cbn in *; naive_solver.
Qed.

Lemma balance_runs N k s n (o : option Executing) :
  balance N k s -> (n < ae_next s)%nat -> from_option run_ok True o ->
  balance N (k + count_opt unsettled o - count_opt unsettled (ae_runs s !! n))
    (with_runs (partial_alter (fun _ => o) n (ae_runs s)) s).
Proof.
  intros [Hon (q & Hq & Hsum & Hw) Hnd Ha Hr] Hlt Hnew. split; cbn; try done.
  - exists q. split; [done|]. rewrite count_set. split; [lia|done].
  - apply map_Forall_set; [done|]. by destruct o.
Qed.

(** Fields that say nothing about capacity may change. *)
Definition keeps_place (f : @Executing IRun -> @Executing IRun) : Prop := forall r,
  pd_executionMode (ex_executionData (f r)) = pd_executionMode (ex_executionData r) /\ ex_executionId (f r) = ex_executionId r /\
  ex_reservation (f r) = ex_reservation r /\ ex_settled (f r) = ex_settled r.

Lemma balance_change_run N k s n f : keeps_place f -> balance N k s -> balance N k (change_run n f s).
Proof.
  intros Hf Hs. unfold change_run. destruct (ae_runs s !! n) as [r|] eqn:Hr.
  - rewrite (alter_is_set _ _ _ _ Hr). destruct (Hf r) as (Hm & Hid & Hres & Hset).
    destruct (bal_runs _ _ _ _ _ _ _ Hs n r Hr) as [Hlt Hok].
    assert (run_ok (f r)) as Hok' by (unfold run_ok in *; by rewrite Hm, Hid, Hres, Hset).
    pose proof (balance_runs N k s n (Some (f r)) Hs Hlt Hok') as H. rewrite Hr in H. cbn in H.
    unfold unsettled in H. rewrite Hm, Hset in H. by replace (k + _ - _) with k in H by lia.
  - assert (alter f n (ae_runs s) = ae_runs s) as -> by (apply map_eq; intros i; destruct (decide (i = n)) as [->|]; by simplify_map_eq).
    by destruct s.
Qed.

Lemma balance_next N k s : balance N k s -> balance N k (with_next (S (ae_next s)) s).
Proof.
  intros [Hon Hq Hnd Ha Hr]. split; cbn; try done.
  - intros call a H. specialize (Ha call a H). cbn in Ha. naive_solver lia.
  - intros n r H. specialize (Hr n r H). cbn in Hr. naive_solver lia.
Qed.

(** ** The queue *)

Lemma wake_balance N k s q :
  balanced N k (set_queue webhook (more_capacity q) (ae_control s)) (ae_resolvers s) (ae_adding s) (ae_runs s) (ae_next s) ->
  let '(released, q') := resolveNext (more_capacity q) in
  balance N k (wake released (with_control (set_queue webhook q' (ae_control s)) s)).
Proof.
  intros [Hon (q0 & [= <-] & Hsum & Hw) Hnd Ha Hr]. cbn in *. unfold resolveNext, wake. cbn [cq_queue more_capacity].
  destruct (cq_queue q) as [|id rest] eqn:Hqq.
  - split; cbn; try done. exists (more_capacity q). cbn. by rewrite Hqq.
  - apply Forall2_cons_inv_l in Hw as (call & resolvers & (a & Hc & Hid & Hwait) & Hrest & Hres).
    cbn. rewrite Hres in *. rewrite (alter_is_set _ _ _ _ Hc).
    apply NoDup_cons in Hnd as [Hnin Hnd]. destruct (Ha call a Hc) as (Hlt & Hok & _).
    assert (adding_ok (set_stage (at_reserve true) a) /\ in_flight a = false /\ in_flight (set_stage (at_reserve true) a) = true) as (Hok' & Hfa & Hfa').
    { unfold adding_ok, in_flight, is_waiting in *. rewrite Hwait in *. destruct Hok as [Hnone Hlim]. cbn. rewrite Hlim.
      split_and!; eauto using limited_reserves, limited_admitted. }
    split; cbn; try done.
    + eexists. split; [done|]. cbn. rewrite count_set, Hc. cbn. rewrite Hfa, Hfa'. cbn. split; [cbn in Hsum; lia|].
      eapply Forall2_impl_in; [exact Hrest|]. intros id' call' Hin (a' & Hc' & Hid' & Hwait').
      exists a'. split; [|done]. rewrite lookup_partial_alter_ne; [done|]. intros ->. apply Hnin. done.
    + intros call' a' Hc'. destruct (decide (call' = call)) as [->|Hne].
      * rewrite lookup_partial_alter_eq in Hc'. injection Hc' as <-. split_and!; done.
      * rewrite lookup_partial_alter_ne in Hc' by done. destruct (Ha call' a' Hc') as (? & ? & Hin). split_and!; try done.
        intros Hw'. specialize (Hin Hw'). by apply elem_of_cons in Hin as [|].
Qed.

Lemma on_production {A} mode (u : A) f c q :
  cc_isEnabled c = true -> cc_production c = Some q -> shouldReserveCapacity mode = true -> admitted mode = true ->
  on_queue config license mode u f c = Ok (if limited mode then prod_map id (fun q' => set_queue webhook q' c) (f q) else (u, c)).
Proof.
  intros Hon Hq. unfold on_queue, let_through, isUnlimited, getQueue. destruct mode; try done; cbn; rewrite Hon; cbn; rewrite ?Hq; try done; cbn; by destruct (f q).
Qed.

Lemma on_production_unknown {A} mode (u : A) f c : cc_isEnabled c = true -> admitted mode = false -> exists e, on_queue config license mode u f c = Err e.
Proof. intros Hon. unfold on_queue, let_through. destruct mode; try done; cbn; rewrite Hon; by eexists. Qed.

Lemma balanced_set N k d c resolvers adding runs next q q' :
  balanced N k c resolvers adding runs next -> cc_production c = Some q -> cq_queue q' = cq_queue q ->
  cq_capacity q' = cq_capacity q + d -> balanced N (k + d) (set_queue webhook q' c) resolvers adding runs next.
Proof.
  intros [Hon (q0 & Hq0 & Hsum & Hw) Hnd Ha Hr] Hq Hw' Hc'. split; cbn; try done. exists q'. split; [done|].
  rewrite Hw', Hc'. rewrite Hq in Hq0. injection Hq0 as <-. split; [lia|done].
Qed.

(** What changes when somebody else goes on. *)
Definition others_same s s' : Prop :=
  ae_runs s' = ae_runs s /\ ae_next s' = ae_next s /\ ae_activeExecutions s' = ae_activeExecutions s /\
  forall call, (forall a, ae_adding s !! call = Some a -> ~ is_waiting a) -> ae_adding s' !! call = ae_adding s !! call.

Lemma wake_others N k released c s : balance N k s -> others_same s (wake released (with_control c s)).
Proof.
  intros Hs. unfold wake. destruct released; cbn; [|done]. destruct (ae_resolvers s) as [|call rest] eqn:Hres; [done|].
  split_and!; try done. intros call' Hcall. cbn. apply lookup_alter_ne. intros ->.
  destruct (bal_queue _ _ _ _ _ _ _ Hs) as (q & _ & _ & Hw). rewrite Hres in Hw.
  apply Forall2_cons_inv_r in Hw as (? & ? & (a & Ha & _ & Hwait) & _). by apply (Hcall a).
Qed.

Lemma release_balance N k s mode id :
  balance N k s -> admitted mode = true ->
  exists s', release_reservation config license (reserved_for mode id) s = Ok s' /\
    balance N (k + Z.b2z (limited mode)) s' /\ others_same s s'.
Proof.
  intros Hs Hm. unfold reserved_for. destruct (shouldReserveCapacity mode) eqn:Hd.
  - cbn. destruct (bal_queue _ _ _ _ _ _ _ Hs) as (q & Hq & Hrest).
    unfold release. rewrite (on_production mode None dequeue _ q (bal_on _ _ _ _ _ _ _ Hs) Hq Hd Hm).
    destruct (limited mode) eqn:Hl.
    + pose proof (wake_balance N (k + 1) s q (balanced_set N k 1 _ _ _ _ _ q (more_capacity q) Hs Hq eq_refl eq_refl)) as H.
      unfold dequeue. destruct (resolveNext _) as [released q']. eexists. split; [done|]. split; [done|]. by eapply wake_others.
    + eexists. split; [done|]. split; [|by eapply wake_others]. cbn. by rewrite Z.add_0_r.
  - eexists. split; [done|]. assert (limited mode = false) as -> by (by destruct mode). by rewrite Z.add_0_r.
Qed.

(** ** [add] *)

Definition fresh_entry s call : Prop :=
  (call < ae_next s)%nat /\ (forall a, ae_adding s !! call = Some a -> ~ is_waiting a) /\ count_opt in_flight (ae_adding s !! call) = 0.

Lemma add_fails_balance N k s e call a :
  balance N k s -> (call < ae_next s)%nat -> (forall a, ae_adding s !! call = Some a -> ~ is_waiting a) ->
  (ad_reservation a = None /\ count_opt in_flight (ae_adding s !! call) = 0 \/
   ad_reservation a = reserved_for (pd_executionMode (ad_data a)) (ad_executionId a) /\ admitted (pd_executionMode (ad_data a)) = true /\
   count_opt in_flight (ae_adding s !! call) = Z.b2z (limited (pd_executionMode (ad_data a)))) ->
  balance N k (add_fails config license e call a s).
Proof.
  intros Hs Hlt Hold [[Hres Hc]|(Hres & Hm & Hc)]; unfold add_fails; rewrite Hres.
  - cbn. pose proof (balance_adding N k s call None Hs Hlt Hold I) as H. rewrite Hc in H. by replace (k + _ - 0) with k in H by (cbn; lia).
  - destruct (release_balance N k s (pd_executionMode (ad_data a)) (ad_executionId a) Hs Hm) as (s' & -> & Hs' & Hr & Hn & Hact & Ho).
    pose proof (Ho call Hold) as Hcall.
    pose proof (balance_adding N _ s' call None Hs' ltac:(by rewrite Hn) ltac:(by rewrite Hcall) I) as H.
    rewrite Hcall, Hc in H. by replace (k + _ + _ - _) with k in H by (cbn; lia).
Qed.

Lemma reserve_balance N k s call a :
  balance N k s -> fresh_entry s call -> ad_reservation a = None -> shouldReserveCapacity (pd_executionMode (ad_data a)) = true ->
  balance N k (reserve config license call a s).
Proof.
  intros Hs (Hlt & Hold & Hcnt) Hres Hd. destruct (bal_queue _ _ _ _ _ _ _ Hs) as (q & Hq & Hsum & Hw).
  pose proof (bal_on _ _ _ _ _ _ _ Hs) as Hon. unfold reserve, throttle.
  destruct (admitted (pd_executionMode (ad_data a))) eqn:Hm.
  2: { destruct (on_production_unknown (pd_executionMode (ad_data a)) true (fun q => let '(proceeds, _, q) := enqueue (ad_executionId a) q in (proceeds, q)) _ Hon Hm) as [e ->].
       apply add_fails_balance; auto. }
  rewrite (on_production _ _ _ _ q Hon Hq Hd Hm).
  assert (forall s, adding_ok (set_stage (at_reserve true) a) /\ ~ is_waiting (set_stage (at_reserve true) a)) as Hok by done.
  destruct (limited _) eqn:Hl.
  - unfold enqueue. destruct (_ <? 0) eqn:Hneg; cbn.
    + destruct Hs as [_ _ Hnd Ha Hr]. assert (call ∉ ae_resolvers s) as Hnin.
      { intros Hin. apply list_elem_of_lookup in Hin as [i Hi].
        destruct (Forall2_lookup_r _ _ _ _ _ Hw Hi) as (id & _ & a' & Ha' & _ & Hw'). by apply (Hold a'). }
      split; cbn; try done.
      * eexists. split; [done|]. cbn. rewrite length_app. cbn.
        change (<[call := ?x]> ?m) with (partial_alter (fun _ => Some x) call m). rewrite count_set, Hcnt. cbn.
        unfold in_flight at 2. cbn. rewrite andb_false_r. split; [cbn; lia|]. apply Forall2_app.
        -- eapply Forall2_impl_in; [exact Hw|]. intros id call' Hin (a' & Hc' & Hid & Hwait). exists a'. split; [|done].
           rewrite lookup_partial_alter_ne; [done|]. intros ->. by apply Hnin.
        -- constructor; [|constructor]. exists (set_stage (at_reserve false) a). split; [|done]. by rewrite lookup_partial_alter_eq.
      * apply NoDup_app. split_and!; [done|set_solver|apply NoDup_singleton].
      * change (<[call := ?x]> ?m) with (partial_alter (fun _ => Some x) call m). apply map_Forall_set.
        -- intros call' a' Hc'. destruct (Ha call' a' Hc') as (? & ? & Hin). split_and!; try done. set_solver.
        -- cbn. split_and!; try done. set_solver.
    + rewrite app_nil_r.
      pose proof (balanced_set N k (-1) _ _ _ _ _ q {| cq_capacity := cq_capacity q - 1; cq_queue := cq_queue q |} Hs Hq eq_refl eq_refl) as Hs1.
      pose proof (balance_adding N _ (with_resolvers (ae_resolvers s) (with_control (set_queue webhook {| cq_capacity := cq_capacity q - 1; cq_queue := cq_queue q |} (ae_control s)) s))
        call (Some (set_stage (at_reserve true) a)) Hs1 Hlt Hold (Hok s)) as H. cbn in H. rewrite Hcnt in H.
      unfold in_flight in H. cbn in H. rewrite Hl in H. by replace (k + _ + _ - 0) with k in H by (cbn; lia).
  - cbn. rewrite app_nil_r.
    pose proof (balance_adding N k s call (Some (set_stage (at_reserve true) a)) Hs Hlt Hold (Hok s)) as H.
    rewrite Hcnt in H. cbn in H. unfold in_flight in H. cbn in H. rewrite Hl in H. by replace (k + _ - 0) with k in H by (cbn; lia).
Qed.

Lemma no_run_at_next N k s : balance N k s -> ae_runs s !! ae_next s = None.
Proof.
  intros Hs. destruct (ae_runs s !! ae_next s) as [r|] eqn:Hr; [|done].
  destruct (bal_runs _ _ _ _ _ _ _ Hs _ _ Hr). lia.
Qed.

Lemma register_balance N k s call a now :
  balance N k s -> (call < ae_next s)%nat -> (forall a, ae_adding s !! call = Some a -> ~ is_waiting a) ->
  ad_reservation a = reserved_for (pd_executionMode (ad_data a)) (ad_executionId a) -> admitted (pd_executionMode (ad_data a)) = true ->
  balance N (k + Z.b2z (limited (pd_executionMode (ad_data a))) - count_opt in_flight (ae_adding s !! call)) (register call a now s).
Proof.
  intros Hs Hlt Hold Hres Hm. set (run := new_run a now (active_run (ad_executionId a) s)).
  pose proof (balance_runs N k _ (ae_next s) (Some run) (balance_next _ _ _ Hs) ltac:(cbn; lia) (conj Hm Hres)) as H1.
  cbn in H1. rewrite (no_run_at_next _ _ _ Hs) in H1. unfold unsettled in H1. cbn in H1. rewrite andb_true_r, Z.sub_0_r in H1.
  pose proof (balance_adding N _ _ call None H1 ltac:(cbn; lia) Hold I) as H2. cbn in H2. by rewrite Z.add_0_r in H2.
Qed.

Lemma after_reserve_balance N k s call a now :
  balance N k s -> (call < ae_next s)%nat -> (forall a, ae_adding s !! call = Some a -> ~ is_waiting a) ->
  ad_reservation a = reserved_for (pd_executionMode (ad_data a)) (ad_executionId a) -> admitted (pd_executionMode (ad_data a)) = true ->
  count_opt in_flight (ae_adding s !! call) = Z.b2z (limited (pd_executionMode (ad_data a))) ->
  balance N k (after_reserve config call a now s).
Proof.
  intros Hs Hlt Hold Hres Hm Hcnt. unfold after_reserve.
  assert (forall st, st = at_update \/ st = at_setRunning -> balance N k (put_adding call (set_stage st a) s)) as Hput.
  { intros st Hst. assert (adding_ok (set_stage st a) /\ ~ is_waiting (set_stage st a)) as Hok by (destruct Hst as [-> | ->]; done).
    pose proof (balance_adding N k s call (Some (set_stage st a)) Hs Hlt Hold Hok) as H. rewrite Hcnt in H. cbn in H.
    unfold in_flight in H. cbn in H. replace (past_reservation st) with true in H by (by destruct Hst as [-> | ->]).
    rewrite andb_true_r in H. by replace (k + _ - _) with k in H by lia. }
  destruct (ad_existing a); [auto|]. destruct (negb _); [auto|].
  pose proof (register_balance N k s call a now Hs Hlt Hold Hres Hm) as H. rewrite Hcnt in H. by replace (k + _ - _) with k in H by lia.
Qed.

Lemma reserve_if_due_balance N k s call a now :
  balance N k s -> fresh_entry s call -> ad_reservation a = None -> balance N k (reserve_if_due config license call a now s).
Proof.
  intros Hs Hf Hres. unfold reserve_if_due. destruct (shouldReserveCapacity _) eqn:Hd; [by apply reserve_balance|].
  destruct Hf as (Hlt & Hold & Hcnt). assert (pd_executionMode (ad_data a) = evaluation) as He by (by destruct (pd_executionMode _)).
  apply after_reserve_balance; rewrite ?He; try done.
Qed.

Lemma add_balance N k s d x now : balance N k s -> balance N k (add config license d x now s).
Proof.
  intros Hs. unfold add. pose proof (balance_next _ _ _ Hs) as Hs1.
  assert (ae_adding s !! ae_next s = None) as Hnone.
  { destruct (ae_adding s !! ae_next s) as [a|] eqn:Ha; [|done]. destruct (bal_adding _ _ _ _ _ _ _ Hs _ _ Ha). lia. }
  destruct x as [x|].
  - apply reserve_if_due_balance; [done| |done]. split; cbn; [lia|]. by rewrite Hnone.
  - set (a := {| ad_data := d |}). assert (adding_ok a /\ ~ is_waiting a) as Hok by done.
    pose proof (balance_adding N k _ (ae_next s) (Some a) Hs1 ltac:(cbn; lia) ltac:(cbn; by rewrite Hnone) Hok) as H.
    cbn in H. rewrite Hnone in H. unfold in_flight in H. cbn in H. rewrite andb_false_r in H. by replace (k + _ - _) with k in H by (cbn; lia).
Qed.

(** The entry a continuation finds. *)
Lemma entry_of N k s call a : balance N k s -> ae_adding s !! call = Some a -> (call < ae_next s)%nat /\ adding_ok a.
Proof. intros Hs Ha. destruct (bal_adding _ _ _ _ _ _ _ Hs _ _ Ha) as (? & ? & _). done. Qed.

Lemma created_balance N k s call o now : balance N k s -> balance N k (created config license call o now s).
Proof.
  intros Hs. unfold created. destruct (ae_adding s !! call) as [a|] eqn:Ha; [|done].
  destruct (entry_of _ _ _ _ _ Hs Ha) as [Hlt Hok]. destruct (ad_stage a) eqn:Hst; [|by destruct o..].
  unfold adding_ok in Hok. rewrite Hst in Hok.
  assert (fresh_entry s call) as Hf.
  { split; [done|]. rewrite Ha. unfold is_waiting, in_flight. cbn. rewrite Hst, andb_false_r. split; [|done]. intros a' [= <-]. by rewrite Hst. }
  pose proof Hf as (_ & Hold & Hcnt).
  destruct o as [id|]; [case_bool_decide|]; [|by apply reserve_if_due_balance|]; apply add_fails_balance; auto.
Qed.

Lemma granted_balance N k s call now : balance N k s -> balance N k (capacity_granted config call now s).
Proof.
  intros Hs. unfold capacity_granted. destruct (ae_adding s !! call) as [a|] eqn:Ha; [|done].
  destruct (entry_of _ _ _ _ _ Hs Ha) as [Hlt Hok]. destruct (ad_stage a) as [|[]| | |] eqn:Hst; try done.
  unfold adding_ok in Hok. rewrite Hst in Hok. destruct Hok as (Hres & Hd & Hm).
  apply after_reserve_balance; try done; rewrite ?Ha.
  - intros a' [= <-]. unfold is_waiting. by rewrite Hst.
  - unfold reserved_for. cbn. by rewrite Hd.
  - unfold in_flight. cbn. by rewrite Hst, andb_true_r.
Qed.

(** Past the reservation: to go on or to fail. *)
Lemma past_balance N k s call a now e :
  balance N k s -> ae_adding s !! call = Some a -> ad_stage a = at_setRunning \/ ad_stage a = at_update ->
  balance N k (register call a now s) /\ balance N k (add_fails config license e call a s) /\
  balance N k (put_adding call (set_stage at_setRunning a) s).
Proof.
  intros Hs Ha Hst. destruct (entry_of _ _ _ _ _ Hs Ha) as [Hlt Hok].
  assert (ad_reservation a = reserved_for (pd_executionMode (ad_data a)) (ad_executionId a) /\ admitted (pd_executionMode (ad_data a)) = true) as [Hres Hm].
  { unfold adding_ok in Hok. by destruct Hst as [Hst|Hst]; rewrite Hst in Hok. }
  assert (forall a', ae_adding s !! call = Some a' -> ~ is_waiting a') as Hold.
  { rewrite Ha. intros a' [= <-]. unfold is_waiting. by destruct Hst as [-> | ->]. }
  assert (count_opt in_flight (ae_adding s !! call) = Z.b2z (limited (pd_executionMode (ad_data a)))) as Hcnt.
  { rewrite Ha. unfold in_flight. cbn. by destruct Hst as [-> | ->]; rewrite andb_true_r. }
  split_and!.
  - pose proof (register_balance N k s call a now Hs Hlt Hold Hres Hm) as H. rewrite Hcnt in H. by replace (k + _ - _) with k in H by lia.
  - apply add_fails_balance; auto.
  - assert (adding_ok (set_stage at_setRunning a) /\ ~ is_waiting (set_stage at_setRunning a)) as Hok' by done.
    pose proof (balance_adding N k s call (Some (set_stage at_setRunning a)) Hs Hlt Hold Hok') as H. rewrite Hcnt in H.
    cbn in H. unfold in_flight in H. cbn in H. rewrite andb_true_r in H. by replace (k + _ - _) with k in H by lia.
Qed.

Lemma running_set_balance N k s call ok now : balance N k s -> balance N k (running_set config license call ok now s).
Proof.
  intros Hs. unfold running_set. destruct (ae_adding s !! call) as [a|] eqn:Ha; [|done].
  destruct (ad_stage a) eqn:Hst; try done.
  destruct (past_balance N k s call a now (RejectedError "setRunning") Hs Ha ltac:(auto)) as (? & ? & _). by destruct ok.
Qed.

Lemma updated_balance N k s call o now : balance N k s -> balance N k (updated config license call o now s).
Proof.
  intros Hs. unfold updated. destruct (ae_adding s !! call) as [a|] eqn:Ha; [|done].
  destruct (ad_stage a) eqn:Hst; try done. destruct (ad_existing a); [|done].
  pose proof (fun e => past_balance N k s call a now e Hs Ha ltac:(auto)) as H.
  destruct o as [[]|]; [|apply H..]. case_bool_decide; by eapply (H (RejectedError "")).
Qed.

(** ** A run settles, or is stopped *)

Lemma settled_balance N k s n : balance N k s -> balance N k (settled config license n s).
Proof.
  intros Hs. unfold settled. destruct (ae_runs s !! n) as [r|] eqn:Hr; [|done].
  destruct (is_pending _ || ex_settled r) eqn:Hp; [done|]. apply orb_false_iff in Hp as [_ Hset].
  destruct (bal_runs _ _ _ _ _ _ _ Hs n r Hr) as [Hlt [Hm Hres]]. rewrite Hset in Hres. rewrite Hres.
  destruct (release_balance N k s (pd_executionMode (ex_executionData r)) (ex_executionId r) Hs Hm) as (s' & -> & Hs' & Hruns & Hnext & _).
  assert (balance N k (change_run n (set_settled None) s')) as H.
  { unfold change_run. rewrite Hruns. rewrite (alter_is_set _ _ _ _ Hr). rewrite <- Hruns.
    pose proof (balance_runs N _ s' n (Some (set_settled None r)) Hs' ltac:(by rewrite Hnext) (conj Hm eq_refl)) as H.
    rewrite Hruns, Hr in H. cbn in H. unfold unsettled in H. rewrite Hset in H. cbn in H. rewrite andb_true_r, andb_false_r in H.
    rewrite Hruns. by replace (k + _ + _ - _) with k in H by (cbn; lia). }
  case_bool_decide; [|done]. by apply balance_change_run.
Qed.

Lemma change_response_balance N k f p s : balance N k s -> balance N k (change_response f p s).
Proof. by destruct p. Qed.

Lemma stop_balance N k s id reason : balance N k s -> balance N k (stopExecution id reason s).
Proof.
  intros Hs. unfold stopExecution. destruct (active_run id s) as [[n r]|]; [|done].
  pose proof (change_response_balance N k (df_reject reason) (ex_responsePromise r) _
    (Hs : balance N k (with_effect (emit_cancelled id (pd_workflowId (ex_executionData r)) reason) s))) as H.
  case_bool_decide; [done|]. apply balance_change_run; [done|]. by destruct (ex_workflowExecution r).
Qed.

Lemma stop_all_balance N k s ids : balance N k s -> balance N k (stop_all ids s).
Proof. unfold stop_all. revert s. induction ids as [|id ids IH]; intros s Hs; [done|]. by apply IH, stop_balance. Qed.

Lemma finalize_balance N k s id data : balance N k s -> balance N k (finalizeExecution id data s).
Proof.
  intros Hs. unfold finalizeExecution. destruct (active_run id s) as [[n r]|]; [|done].
  apply balance_change_run; [done|]. by destruct (pd_httpResponse _).
Qed.

(** ** Leaving the queue *)

Lemma balanced_control N k c c' resolvers adding runs next :
  balanced N k c resolvers adding runs next -> cc_isEnabled c' = true -> cc_production c' = cc_production c ->
  balanced N k c' resolvers adding runs next.
Proof. intros [Hon Hq Hnd Ha Hr] Hon' Hq'. split; try done. by rewrite Hq'. Qed.

Lemma evaluation_keeps_production {A} (u : A) f c x c' :
  on_queue config license evaluation u f c = Ok (x, c') -> cc_isEnabled c = true -> cc_isEnabled c' = true /\ cc_production c' = cc_production c.
Proof.
  intros H Hon. unfold on_queue in H. apply bind_ok in H as (c1 & Hc1 & H).
  assert (cc_isEnabled c1 = true /\ cc_production c1 = cc_production c) as [Hon1 Hp1].
  { cbn in Hc1. unfold ensureEvalQueueResolved in Hc1. destruct (cc_evalQueueResolved c); [by injection Hc1 as <-|].
    destruct (queue_mode config); [by injection Hc1 as <-|]. apply bind_ok in Hc1 as (l & _ & [= <-]). cbn. rewrite Hon. by rewrite orb_true_r. }
  apply bind_ok in H as ([] & _ & H); [by injection H as <- <-|]. cbn in H.
  destruct (cc_evaluation c1) as [q|]; [|by injection H as <- <-]. destruct (f q). injection H as <- <-. done.
Qed.

Lemma abandon_balance N k s q index id :
  balance N k s -> cc_production (ae_control s) = Some q -> cq_queue q !! index = Some id ->
  exists call, ae_resolvers s !! index = Some call /\
    balance N (k - 1) (with_adding (alter (set_stage abandoned) call (ae_adding s))
      (with_resolvers (delete index (ae_resolvers s))
        (with_control (set_queue webhook {| cq_capacity := cq_capacity q; cq_queue := delete index (cq_queue q) |} (ae_control s)) s))).
Proof.
  intros [Hon (q0 & Hq0 & Hsum & Hw) Hnd Ha Hr] Hq Hi. rewrite Hq in Hq0. injection Hq0 as <-.
  destruct (Forall2_lookup_l _ _ _ _ _ Hw Hi) as (call & Hcall & a & Hc & Hid & Hwait). exists call. split; [done|].
  rewrite (alter_is_set _ _ _ _ Hc). destruct (Ha call a Hc) as (Hlt & Hok & _).
  assert (ad_reservation a = None /\ in_flight a = false) as [Hres Hfa].
  { unfold adding_ok, in_flight, is_waiting in *. rewrite Hwait in *. destruct Hok. by rewrite andb_false_r. }
  destruct (delete_one _ _ _ Hnd Hcall) as [Hnd' Hdel].
  split; cbn; try done.
  - eexists. split; [done|]. cbn. rewrite count_set, Hc. cbn. rewrite Hfa. unfold in_flight at 2. cbn. rewrite andb_false_r.
    apply lookup_lt_Some in Hi as Hl. rewrite (length_delete _ _ (mk_is_Some _ _ Hi)). split; [cbn; lia|].
    eapply Forall2_impl_in; [by apply Forall2_delete|]. intros id' call' Hin%Hdel (a' & Hc' & Hid' & Hw').
    exists a'. split; [|done]. rewrite lookup_partial_alter_ne; naive_solver.
  - intros call' a' Hc'. destruct (decide (call' = call)) as [->|Hne].
    + rewrite lookup_partial_alter_eq in Hc'. injection Hc' as <-. split_and!; done.
    + rewrite lookup_partial_alter_ne in Hc' by done. destruct (Ha call' a' Hc') as (? & ? & Hin). split_and!; try done.
      intros Hw'. apply Hdel. auto.
Qed.

Lemma leave_queue_balance N k s mode id : balance N k s -> balance N k (leave_queue config license mode id s).
Proof.
  intros Hs. pose proof (bal_on _ _ _ _ _ _ _ Hs) as Hon. destruct (bal_queue _ _ _ _ _ _ _ Hs) as (q & Hq & _).
  unfold leave_queue. destruct (shouldReserveCapacity mode) eqn:Hd.
  2: { assert (mode = evaluation) as -> by (by destruct mode). unfold remove_execution.
       destruct (on_queue _ _ _ _ _ _) as [[released c]|e] eqn:Ho; [|done]. apply evaluation_keeps_production in Ho as [Hon' Hp]; [|done].
       cbn. by eapply balanced_control. }
  destruct (admitted mode) eqn:Hm.
  2: { unfold remove_execution. by destruct (on_production_unknown mode None (remove id) _ Hon Hm) as [e ->]. }
  unfold remove_execution. rewrite (on_production mode None (remove id) _ q Hon Hq Hd Hm). rewrite Hq.
  destruct (limited mode) eqn:Hl; [|by destruct mode].
  unfold remove. replace (queue_type mode) with (@Ok ConcurrencyError _ (Some production_queue)) by (by destruct mode). cbn.
  destruct (arr_findIndex _ _) as [index|] eqn:Hf.
  - apply arr_findIndex_Some in Hf as (x & Hx & ->%bool_decide_eq_true).
    destruct (abandon_balance N k s q index id Hs Hq Hx) as (call & -> & H).
    pose proof (balanced_set N (k - 1) 1 _ _ _ _ _ _ (more_capacity {| cq_capacity := cq_capacity q; cq_queue := delete index (cq_queue q) |})
      H eq_refl eq_refl eq_refl) as H1. rewrite Z.sub_add in H1. apply wake_balance in H1.
    destruct (resolveNext _) as [released q']. exact H1.
  - eapply balanced_control; [exact Hs|done|done].
Qed.

(** ** Every event *)

Definition is_shutdown (e : @Event IRun Response) : Prop := match e with do_shutdown _ => True | _ => False end.

Lemma on_active_balance N k s id f : keeps_place f -> balance N k s ->
  balance N k (or_same s (getExecutionOrFail id s ≫= fun '(n, _) => Ok (change_run n f s))).
Proof. intros Hf Hs. destruct (getExecutionOrFail id s) as [[n r]|]; [|done]. by apply balance_change_run. Qed.

Lemma step_balance N k s e : balance N k s -> ~ is_shutdown e -> balance N k (step ended_without_response config license s e).
Proof.
  intros Hs He. destruct e; cbn; try (by destruct (He I));
    eauto using add_balance, created_balance, granted_balance, running_set_balance, updated_balance, settled_balance,
      stop_balance, stop_all_balance, finalize_balance.
  - by apply on_active_balance.
  - unfold attachResponsePromise. destruct (getExecutionOrFail _ s) as [[n r]|]; [|done]. by apply balance_change_run.
  - unfold resolveResponsePromise. destruct (active_run _ s) as [[n r]|]; [|done]. by apply change_response_balance.
  - unfold resolveExecutionResponsePromise. destruct (active_run _ s) as [[n r]|]; [|done]. case_bool_decide; [|done]. by apply change_response_balance.
  - unfold sendChunk. destruct (active_run _ s) as [[n r]|]; [|done]. by destruct (pd_httpResponse _).
  - unfold stopInRegularMode. destruct (has_execution _ _); [by apply leave_queue_balance|]. destruct (has _ _); [by apply stop_balance|done].
  - by apply on_active_balance.
Qed.

Lemma steps_balance N k s events :
  balance N k s -> Forall (fun e => ~ is_shutdown e) events -> balance N k (steps ended_without_response config license s events).
Proof.
  intros Hs Hev. unfold steps. revert s Hs. induction Hev as [|e events He _ IH]; intros s Hs; [done|]. by apply IH, step_balance.
Qed.

Lemma no_executions_balance c0 :
  new_control config = Ok c0 -> queue_mode config = false -> 0 < productionLimit config ->
  balance (productionLimit config) 0 (no_executions c0).
Proof.
  unfold new_control. intros H Hmode Hpos. apply bind_ok in H as (p & Hp & H). apply bind_ok in H as (v & _ & [= <-]).
  rewrite Hmode. unfold normaliseLimit in Hp. assert (productionLimit config =? 0 = false) as Hz by lia. rewrite Hz in Hp.
  assert (productionLimit config <? -1 = false) as Hz' by lia. rewrite Hz' in Hp. injection Hp as <-.
  assert (0 <? productionLimit config = true) as Hlt by lia.
  split; cbn; rewrite ?Hlt; try done; [|constructor].
  exists (new_queue (productionLimit config)). unfold queue_for. rewrite Hlt. split; [done|]. cbn. unfold count. rewrite !map_fold_empty.
  split; [lia|constructor].
Qed.

(** C15. Capacity is accounted for.  Whatever is added, cancelled, finished and answered, in
    any order, and whatever the database does, until the process shuts down: what the queue
    has left, those that wait in it, the calls of [add] past their reservation and the runs
    whose promise has not settled add up to the limit; and the calls that wait are those
    whose execution the queue holds, in its order. *)
Theorem capacity_is_accounted (c0 : ConcurrencyControl) (events : list Event) :
  new_control config = Ok c0 -> queue_mode config = false -> 0 < productionLimit config ->
  Forall (fun e => ~ is_shutdown e) events ->
  let s := steps ended_without_response config license (no_executions c0) events in
  exists q, cc_production (ae_control s) = Some q /\
    cq_capacity q + Z.of_nat (length (cq_queue q)) + count in_flight (ae_adding s) + count unsettled (ae_runs s) = productionLimit config /\
    Forall2 (waits_as (ae_adding s)) (cq_queue q) (ae_resolvers s) /\
    (forall call a, ae_adding s !! call = Some a -> is_waiting a -> call ∈ ae_resolvers s).
Proof.
  intros Hc Hm Hp Hev. destruct (steps_balance _ 0 _ _ (no_executions_balance c0 Hc Hm Hp) Hev) as [_ (q & Hq & Hsum & Hw) _ Ha _].
  exists q. rewrite Z.add_0_r in Hsum. split_and!; try done. intros call a Hca. by destruct (Ha call a Hca) as (_ & _ & ?).
Qed.

(** ** A run that the map no longer names *)

(** The promise of a run changes only through the map. *)
Definition unnamed (n : nat) s : Prop :=
  (n < ae_next s)%nat /\ (forall id, ae_activeExecutions s !! id <> Some n) /\
  exists r, ae_runs s !! n = Some r /\ is_pending (ex_postExecutePromise r) = true.

Lemma unnamed_change n m f s :
  unnamed n s -> m <> n \/ (forall r, ex_postExecutePromise (f r) = ex_postExecutePromise r) -> unnamed n (change_run m f s).
Proof.
  intros (Hlt & Hact & r & Hr & Hp) Hf. split; [done|]. split; [done|]. cbn. destruct (decide (m = n)) as [->|Hne].
  - destruct Hf as [|Hf]; [done|]. exists (f r). by rewrite lookup_alter_eq, Hr, Hf.
  - exists r. by rewrite lookup_alter_ne.
Qed.

Lemma unnamed_delete n id s : unnamed n s -> unnamed n (with_active (delete id (ae_activeExecutions s)) s).
Proof.
  intros (Hlt & Hact & Hr). split; [done|]. split; [|done]. cbn. intros id' H.
  apply lookup_delete_Some in H as [_ H]. by apply (Hact id').
Qed.

Lemma active_run_other n id m r s : unnamed n s -> active_run id s = Some (m, r) -> m <> n.
Proof.
  intros (_ & Hact & _). unfold active_run. destruct (ae_activeExecutions s !! id) as [m'|] eqn:Hm; [|done]. cbn.
  destruct (ae_runs s !! m'); [|done]. intros [= <- _] ->. by apply (Hact id).
Qed.

Lemma unnamed_wake n released s : unnamed n s -> unnamed n (wake released s).
Proof. intros Hs. unfold wake. destruct released, (ae_resolvers s); exact Hs. Qed.

Lemma unnamed_release n reserved s s' : unnamed n s -> release_reservation config license reserved s = Ok s' -> unnamed n s'.
Proof.
  intros Hs. unfold release_reservation. destruct reserved as [t|]; [|by intros [= <-]].
  destruct (release _ _ _ _) as [[released c]|]; [|done]. intros [= <-]. by apply unnamed_wake.
Qed.

Lemma unnamed_register n call a now s : unnamed n s -> unnamed n (register call a now s).
Proof.
  intros (Hlt & Hact & r & Hr & Hp). split; cbn; [lia|]. split.
  - intros id. rewrite lookup_insert_Some. intros [[_ <-]|[_ H]]; [lia|]. by apply (Hact id).
  - exists r. rewrite lookup_insert_ne by lia. done.
Qed.

Lemma unnamed_add_fails n e call a s : unnamed n s -> unnamed n (add_fails config license e call a s).
Proof.
  intros Hs. unfold add_fails. destruct (release_reservation _ _ _ s) as [s'|] eqn:Hr; [|done].
  by apply (unnamed_release n _ s s' Hs) in Hr.
Qed.

Lemma unnamed_after_reserve n call a now s : unnamed n s -> unnamed n (after_reserve config call a now s).
Proof. intros Hs. unfold after_reserve. destruct (ad_existing a); [done|]. destruct (negb _); [done|]. by apply unnamed_register. Qed.

Lemma unnamed_reserve_if_due n call a now s : unnamed n s -> unnamed n (reserve_if_due config license call a now s).
Proof.
  intros Hs. unfold reserve_if_due. destruct (shouldReserveCapacity _); [|by apply unnamed_after_reserve].
  unfold reserve. destruct (throttle _ _ _ _ _) as [[proceeds c]|]; [done|]. by apply unnamed_add_fails.
Qed.

Lemma unnamed_stop n id reason s : unnamed n s -> unnamed n (stopExecution id reason s).
Proof.
  intros Hs. unfold stopExecution. destruct (active_run id s) as [[m r]|] eqn:Hr; [|done].
  assert (forall s0, unnamed n s0 -> unnamed n (change_response (df_reject reason) (ex_responsePromise r) s0)) as Hc
    by (by intros; destruct (ex_responsePromise r)).
  specialize (Hc (with_effect (emit_cancelled id (pd_workflowId (ex_executionData r)) reason) s) Hs).
  case_bool_decide; [exact (unnamed_delete n id _ Hc)|]. apply unnamed_change; [by destruct (ex_workflowExecution r)|].
  left. exact (active_run_other _ _ _ _ _ Hs Hr).
Qed.

Lemma unnamed_stop_all n ids s : unnamed n s -> unnamed n (stop_all ids s).
Proof. unfold stop_all. revert s. induction ids as [|id ids IH]; intros s Hs; [done|]. by apply IH, unnamed_stop. Qed.

Lemma unnamed_settled n m s : unnamed n s -> unnamed n (settled config license m s).
Proof.
  intros Hs. unfold settled. destruct (ae_runs s !! m) as [r|]; [|done]. destruct (is_pending _ || _); [done|].
  destruct (release_reservation _ _ _ s) as [s'|] eqn:Hr.
  - apply (unnamed_release n _ s s' Hs) in Hr. assert (unnamed n (change_run m (set_settled None) s')) as H by (apply unnamed_change; auto).
    case_bool_decide; [by apply unnamed_change; auto|]. exact (unnamed_delete n (ex_executionId r) _ H).
  - apply unnamed_change; auto.
Qed.

Lemma unnamed_shutdown n cancelAll s : unnamed n s -> unnamed n (shutdown config cancelAll s).
Proof.
  intros Hs. unfold shutdown. set (s0 := if queue_mode config then s else _). assert (unnamed n s0) as H0 by (subst s0; by destruct (queue_mode config)).
  clearbody s0. generalize (active_ids s0). clear Hs. intros ids.
  assert (forall toCancel, unnamed n (foldl (shutdown_one config cancelAll) (toCancel, s0) ids).2) as H.
  { revert s0 H0. induction ids as [|id ids IH]; intros s0 H0 toCancel; [done|]. cbn.
    destruct (_ && _); [by apply IH, unnamed_stop|]. destruct (_ || _); [by apply IH, unnamed_delete|by apply IH]. }
  specialize (H []). destruct (foldl _ _ _) as [toCancel s']. destruct (removeAll _ _) as [[? cancelled] ?]. by case_bool_decide.
Qed.

Lemma unnamed_leave_queue n mode id s : unnamed n s -> unnamed n (leave_queue config license mode id s).
Proof.
  intros Hs. unfold leave_queue. destruct (remove_execution _ _ _ _ _) as [[released c]|]; [|done].
  destruct (queue_type mode) as [[[]|]|]; try done. destruct (cc_production _); [|done]. destruct (arr_findIndex _ _) as [i|]; [|done].
  apply unnamed_wake. by destruct (ae_resolvers s !! i).
Qed.

Lemma unnamed_step n s e : unnamed n s -> unnamed n (step ended_without_response config license s e).
Proof.
  intros Hs. destruct e; cbn; eauto using unnamed_settled, unnamed_stop, unnamed_stop_all, unnamed_shutdown.
  - unfold add. destruct existing; [apply unnamed_reserve_if_due|]; destruct Hs as (? & ? & ?); split; cbn; eauto with lia.
  - unfold created. destruct (ae_adding s !! call) as [a|]; [|done]. destruct (ad_stage a), outcome; try done; [|by apply unnamed_add_fails].
    case_bool_decide; [by apply unnamed_add_fails|by apply unnamed_reserve_if_due].
  - unfold capacity_granted. destruct (ae_adding s !! call) as [a|]; [|done]. destruct (ad_stage a) as [|[]| | |]; try done. by apply unnamed_after_reserve.
  - unfold running_set. destruct (ae_adding s !! call) as [a|]; [|done]. destruct (ad_stage a); try done.
    destruct ok; [by apply unnamed_register|by apply unnamed_add_fails].
  - unfold updated. destruct (ae_adding s !! call) as [a|]; [|done]. destruct (ad_stage a), (ad_existing a); try done.
    destruct outcome as [[]|]; try by apply unnamed_add_fails. case_bool_decide; [done|by apply unnamed_register].
  - unfold attachWorkflowExecution. destruct (getExecutionOrFail _ s) as [[m r]|]; [|done]. apply unnamed_change; auto.
  - unfold attachResponsePromise. destruct (getExecutionOrFail _ s) as [[m r]|]; [|done]. apply unnamed_change; auto.
  - unfold resolveResponsePromise. destruct (active_run _ s) as [[m r]|]; [|done]. by destruct (ex_responsePromise r).
  - unfold resolveExecutionResponsePromise. destruct (active_run _ s) as [[m r]|]; [|done]. case_bool_decide; [|done]. by destruct (ex_responsePromise r).
  - unfold sendChunk. destruct (active_run _ s) as [[m r]|]; [|done]. by destruct (pd_httpResponse _).
  - unfold stopInRegularMode. destruct (has_execution _ _); [by apply unnamed_leave_queue|]. destruct (has _ _); [by apply unnamed_stop|done].
  - unfold finalizeExecution. destruct (active_run _ s) as [[m r]|] eqn:Hr; [|done]. apply unnamed_change; [by destruct (pd_httpResponse _)|].
    left. exact (active_run_other _ _ _ _ _ Hs Hr).
  - unfold setStatus. destruct (getExecutionOrFail _ s) as [[m r]|]; [|done]. apply unnamed_change; auto.
Qed.

(** A run that the map has lost while its promise is pending never settles, whatever
    happens: its place is never given back. *)
Lemma unnamed_run_never_settles n s events :
  unnamed n s -> unnamed n (steps ended_without_response config license s events).
Proof. unfold steps. revert s. induction events as [|e events IH]; intros s Hs; [done|]. by apply IH, unnamed_step. Qed.
End accounting.

(** ** A sample *)

Definition one_at_a_time : ConcurrencyConfig := {| productionLimit := 1; evaluationLimit := -1; queue_mode := false |}.
Definition no_license : LimitSources := {| env_set := false; license_quota := None; planName := "Community" |}.

Definition from_webhook : ProcessData :=
  {| pd_executionMode := webhook; pd_retryOf := None; pd_workflowId := "w"; pd_httpResponse := None |}.

Definition initial : @ActiveExecutions string string :=
  match new_control one_at_a_time with Ok c => no_executions c | Err _ => no_executions (Build_ConcurrencyControl false (0, 0) None None false) end.

Definition sample_steps := steps (IRun := string) "ended"%string one_at_a_time no_license initial.

(** Two executions arrive; the second waits until the first is done. *)
Definition sample_events : list (@Event string string) :=
  [do_add from_webhook None 10; do_add from_webhook None 11; do_created 0 (Some "1") 12; do_created 1 (Some "2") 13;
   do_granted 0 14; do_running_set 0 true 15; do_finalize "1" (Some "data"); do_settled 2; do_granted 1 16]%string.

Example second_goes_on :
  let s := sample_steps sample_events in
  ad_stage <$> ae_adding s !! 1%nat = Some at_setRunning /\ ae_activeExecutions s = ∅ /\ cq_capacity <$> cc_production (ae_control s) = Some 0.
Proof. vm_compute. done. Qed.

Lemma capacity_is_accounted_witness :
  exists c0, new_control one_at_a_time = Ok c0 /\
  exists q, cc_production (ae_control (steps "ended"%string one_at_a_time no_license (no_executions c0) sample_events)) = Some q /\
    cq_capacity q + Z.of_nat (length (cq_queue q))
      + count in_flight (ae_adding (steps "ended"%string one_at_a_time no_license (no_executions c0) sample_events))
      + count unsettled (ae_runs (steps "ended"%string one_at_a_time no_license (no_executions c0) sample_events)) = 1.
Proof.
  eexists. split; [vm_compute; reflexivity|].
  destruct (capacity_is_accounted "ended"%string one_at_a_time no_license _ sample_events eq_refl eq_refl eq_refl
    ltac:(repeat constructor; intros [])) as (q & Hq & Hsum & _). exists q. split; [exact Hq|exact Hsum].
Defined.

(** ** Where the code differs from its intent *)

(** An execution stopped after its node put it to wait, and before its promise settled: the
    map forgets it, and the end of the run finds nothing to settle. *)
Definition stopped_while_it_winds_up : list (@Event string string) :=
  [do_add from_webhook None 10; do_created 0 (Some "1") 11; do_granted 0 12; do_running_set 0 true 13;
   do_set_status "1" es_waiting; do_stop_request webhook "1"; do_finalize "1" (Some "data"); do_settled 1]%string.

Example stopped_run_keeps_its_place :
  let s := sample_steps stopped_while_it_winds_up in
  unnamed 1 s /\ ae_activeExecutions s = ∅ /\ ae_adding s = ∅ /\ cq_capacity <$> cc_production (ae_control s) = Some 0.
Proof.
  split; [|vm_compute; done]. split; [vm_compute; lia|]. split.
  - intros id. assert (ae_activeExecutions (sample_steps stopped_while_it_winds_up) = ∅) as -> by (vm_compute; done). done.
  - eexists. split; [vm_compute; reflexivity|done].
Qed.
