(* ===== verification/WaitTracker.v ===== *)
(** * The tracker of waiting executions

    [packages/cli/src/wait-tracker.ts]: the leader looks every minute for executions whose
    wait ends soon and sets a timer for each; and resumes a parent when the execution it
    waits for has finished.

    A timer is a handle; [armed] holds those that are set, with when they are due.  What is
    awaited (rows, claims, patches) is an argument of the operation that goes on with it:
    an attempt is numbered, and what it meets is a function of its number. *)

From stdpp Require Import base gmap strings list fin_maps.
From Stdlib Require Import ZArith Lia.
From S2P Require Import Prelude.
From S2P Require Import JsCollections.
From S2P Require Import Concurrency.
From S2P Require Import ActiveExecutions.

Open Scope Z_scope.

(** ** Timers *)

Record WaitTracker := {
  wt_waitingExecutions : gmap string nat;
  wt_armed : gmap nat (Z * string);
  (* the interval; it is never unset *)
  wt_mainTimer : option nat;
  wt_ticking : bool;
  wt_next : nat;
}.

Definition new_tracker : WaitTracker :=
  {| wt_waitingExecutions := ∅; wt_armed := ∅; wt_mainTimer := None; wt_ticking := false; wt_next := 0 |}.

Definition with_waiting (m : gmap string nat) (a : gmap nat (Z * string)) (w : WaitTracker) : WaitTracker :=
  {| wt_waitingExecutions := m; wt_armed := a; wt_mainTimer := wt_mainTimer w; wt_ticking := wt_ticking w; wt_next := wt_next w |}.

Definition tracker_has (executionId : string) (w : WaitTracker) : bool := bool_decide (is_Some (wt_waitingExecutions w !! executionId)).

(** A row of the table of executions, as the queries read it. *)
Record WaitingRow := { wr_id : string; wr_status : ExecutionStatus; wr_waitTill : option Z }.

(** [executionRepository.getWaitingExecutions]; their order only numbers the timers. *)
Definition due_soon (now : Z) (row : WaitingRow) : bool :=
  bool_decide (wr_status row = es_waiting) && match wr_waitTill row with Some t => t <=? now + 70000 | None => false end.

Definition set_timer (now : Z) (w : WaitTracker) (row : WaitingRow) : WaitTracker :=
  match wt_waitingExecutions w !! wr_id row with
  | Some _ => w
  | None =>
      let triggerTime := default 0 (wr_waitTill row) - now in
      let n := wt_next w in
      {| wt_waitingExecutions := <[wr_id row := n]> (wt_waitingExecutions w);
         wt_armed := <[n := (now + Z.max 1 triggerTime, wr_id row)]> (wt_armed w);
         wt_mainTimer := wt_mainTimer w; wt_ticking := wt_ticking w; wt_next := S n |}
  end.

(** [getWaitingExecutions], from the answer of its query. *)
Definition getWaitingExecutions (now : Z) (rows : list WaitingRow) (w : WaitTracker) : WaitTracker :=
  foldl (set_timer now) w (arr_filter (due_soon now) rows).

Definition clear_timer (n : nat) (w : WaitTracker) : WaitTracker := with_waiting (wt_waitingExecutions w) (delete n (wt_armed w)) w.

Definition tracker_stopExecution (executionId : string) (w : WaitTracker) : WaitTracker :=
  match wt_waitingExecutions w !! executionId with
  | None => w
  | Some n => with_waiting (delete executionId (wt_waitingExecutions w)) (delete n (wt_armed w)) w
  end.

(** [startExecution], up to its first await. *)
Definition forget (executionId : string) (w : WaitTracker) : WaitTracker :=
  with_waiting (delete executionId (wt_waitingExecutions w)) (wt_armed w) w.

(** A timer fires. *)
Definition timer_fires (n : nat) (w : WaitTracker) : WaitTracker :=
  match wt_armed w !! n with
  | None => w
  | Some (_, executionId) => forget executionId (clear_timer n w)
  end.

Definition startTracking (w : WaitTracker) : WaitTracker :=
  {| wt_waitingExecutions := wt_waitingExecutions w; wt_armed := wt_armed w; wt_mainTimer := Some (wt_next w); wt_ticking := true;
     wt_next := S (wt_next w) |}.

Definition init (isLeader : bool) (w : WaitTracker) : WaitTracker := if isLeader then startTracking w else w.

(** [stopTracking]: the timers are cleared, the executions stay listed. *)
Definition stopTracking (w : WaitTracker) : WaitTracker :=
  match wt_mainTimer w with
  | None => w
  | Some _ =>
      {| wt_waitingExecutions := wt_waitingExecutions w;
         wt_armed := foldr delete (wt_armed w) (map_to_list (wt_waitingExecutions w)).*2;
         wt_mainTimer := wt_mainTimer w; wt_ticking := false; wt_next := wt_next w |}
  end.

(** ** Trying again *)

Inductive ResumeError :=
  | AlreadyResuming
  | ResumeUserError
  | ResumeUnexpectedError
  | OtherError.

Definition isRetryableResumeError (e : ResumeError) : bool :=
  match e with ResumeUserError | ResumeUnexpectedError => false | AlreadyResuming | OtherError => true end.

Definition MAX_PARENT_RESUME_ATTEMPTS : nat := 3.

(** [withRetry]: what the last attempt met, how many there were, and the time slept. *)
Fixpoint withRetry_loop {A} (fuel : nat) (attempt : nat) (operation : nat -> result ResumeError A) (maxAttempts : nat)
    (shouldRetry : ResumeError -> bool) (slept : Z) : result ResumeError A * nat * Z :=
  match operation attempt, fuel with
  | Ok a, _ => (Ok a, attempt, slept)
  | Err e, O => (Err e, attempt, slept)
  | Err e, S fuel =>
      if (maxAttempts <=? attempt)%nat || negb (shouldRetry e) then (Err e, attempt, slept)
      else withRetry_loop fuel (S attempt) operation maxAttempts shouldRetry (slept + 100 * 2 ^ (Z.of_nat attempt - 1))
  end.

Definition withRetry {A} (operation : nat -> result ResumeError A) (maxAttempts : nat) (shouldRetry : ResumeError -> bool) :
    result ResumeError A * nat * Z :=
  withRetry_loop maxAttempts 1 operation maxAttempts shouldRetry 0.

(** ** Parents *)

(** What becomes of a parent: [failed] is logged. *)
Inductive Resumed :=
  | child_not_done
  | not_patched
  | resumed
  | not_claimable
  | failed (e : ResumeError).

(** [claimParent], [start] being what each attempt of [startExecution] meets. *)
Definition claimParent (start : nat -> result ResumeError unit) : result ResumeError Resumed :=
  match withRetry start MAX_PARENT_RESUME_ATTEMPTS
          (fun e => match e with AlreadyResuming => false | _ => isRetryableResumeError e end) with
  | (Ok _, _, _) => Ok resumed
  | (Err AlreadyResuming, _, _) => Ok not_claimable
  | (Err e, _, _) => Err e
  end.

(** [patchParent], [patch] being what each attempt to write the child's result meets. *)
Definition patchParent (patch : nat -> result ResumeError bool) : result ResumeError bool :=
  (withRetry patch MAX_PARENT_RESUME_ATTEMPTS isRetryableResumeError).1.1.

Definition patch_and_claim (patch : nat -> result ResumeError bool) (start : nat -> result ResumeError unit) :
    result ResumeError Resumed :=
  patchParent patch ≫= fun patched : bool => if patched then claimParent start else Ok not_patched.

(** [resumeParentExecution], from how the child's promise settled: with the status of its
    run, if any.  It never rejects. *)
Definition resumeParentExecution (child : result ResumeError (option ExecutionStatus))
    (patch : nat -> result ResumeError bool) (start : nat -> result ResumeError unit) : Resumed :=
  match child with
  | Err e => failed e
  | Ok None => child_not_done
  | Ok (Some es_waiting) => child_not_done
  | Ok (Some _) => match patch_and_claim patch start with Ok r => r | Err e => failed e end
  end.

Definition isTerminalExecutionStatus (st : ExecutionStatus) : bool :=
  match st with es_canceled | es_crashed | es_error | es_success => true | _ => false end.

(** What the sweep makes of one parent: the ids it waits for, and the rows found for them. *)
Definition finished_child (childIds : list string) (statuses : list (string * ExecutionStatus)) : option string :=
  match childIds with
  | [] => None
  | _ => fst <$> arr_find (fun row => isTerminalExecutionStatus row.2) statuses
  end.

Definition missing_children (childIds : list string) (statuses : list (string * ExecutionStatus)) : list string :=
  arr_filter (fun id => negb (arr_some (fun row => bool_decide (row.1 = id)) statuses)) childIds.

(** [resumeParentIfChildFinished]; [childFound]: whether the child's row is still there. *)
Definition resumeParentIfChildFinished (childIds : list string) (statuses : list (string * ExecutionStatus)) (childFound : bool)
    (patch : nat -> result ResumeError bool) (start : nat -> result ResumeError unit) : result ResumeError Resumed :=
  match finished_child childIds statuses with
  | None => Ok child_not_done
  | Some _ => if childFound then patch_and_claim patch start else Ok child_not_done
  end.

(** The sweep, unless one is under way: what becomes of each parent, whose failure does not
    stop the others. *)
Definition resumeParentsOfFinishedSubExecutions (resumingParkedParents : bool) (parentIds : result ResumeError (list string))
    (one : string -> result ResumeError Resumed) : list (string * Resumed) :=
  if resumingParkedParents then []
  else match parentIds with
       | Err _ => []
       | Ok ids => map (fun id => (id, match one id with Ok r => r | Err e => failed e end)) ids
       end.

(** ** What can happen to the timers *)

Inductive TrackerEvent :=
  | poll (now : Z) (rows : list WaitingRow)
  | fires (timer : nat)
  | starts (executionId : string)
  | stops (executionId : string)
  | takeover
  | stepdown.

Definition tracker_step (w : WaitTracker) (e : TrackerEvent) : WaitTracker :=
  match e with
  | poll now rows => getWaitingExecutions now rows w
  | fires n => timer_fires n w
  | starts id => forget id w
  | stops id => tracker_stopExecution id w
  | takeover => startTracking w
  | stepdown => stopTracking w
  end.

Definition tracker_run (w : WaitTracker) (events : list TrackerEvent) : WaitTracker := foldl tracker_step w events.

(** ** Who is listed has a timer *)

(** Each execution listed has its own timer, set for it; handles are fresh. *)
Record timed (w : WaitTracker) : Prop := {
  ti_armed : forall id n, wt_waitingExecutions w !! id = Some n -> exists t, wt_armed w !! n = Some (t, id);
  ti_fresh : forall n p, wt_armed w !! n = Some p -> (n < wt_next w)%nat;
}.

Lemma timed_set now w row : timed w -> timed (set_timer now w row).
Proof.
  intros [Ha Hf]. unfold set_timer. destruct (wt_waitingExecutions w !! wr_id row) as [n|] eqn:Hn; [by split|]. split; cbn.
  - intros id n. rewrite lookup_insert_Some. intros [[<- <-]|[Hne Hid]]; [eexists; apply lookup_insert_eq|].
    destruct (Ha id n Hid) as [t Ht]. exists t. rewrite lookup_insert_ne; [done|]. apply Hf in Ht. lia.
  - intros n p. rewrite lookup_insert_Some. intros [[<- _]|[_ Hp]]; [lia|]. apply Hf in Hp. lia.
Qed.

Lemma timed_poll now rows w : timed w -> timed (getWaitingExecutions now rows w).
Proof. unfold getWaitingExecutions. generalize (arr_filter (due_soon now) rows). intros l. revert w. induction l; intros w Hw; [done|]. by apply IHl, timed_set. Qed.

(** Forgetting an execution and clearing its timer, or either where the other is gone. *)
Lemma timed_clear w id n :
  timed w -> (forall id', wt_waitingExecutions w !! id' = Some n -> id' = id) ->
  timed (with_waiting (delete id (wt_waitingExecutions w)) (delete n (wt_armed w)) w).
Proof.
  intros [Ha Hf] Hown. split; cbn.
  - intros id' n' [Hne Hid]%lookup_delete_Some. destruct (Ha id' n' Hid) as [t Ht]. exists t.
    rewrite lookup_delete_ne; [done|]. intros <-. by apply Hne, eq_sym, Hown.
  - intros n' p [_ Hp]%lookup_delete_Some. by eapply Hf.
Qed.

Lemma timed_step w e : timed w -> e <> stepdown -> timed (tracker_step w e).
Proof.
  intros Hw He. pose proof Hw as [Ha Hf]. destruct e as [now rows|n|id|id| |]; cbn; [by apply timed_poll| | | | |done].
  - unfold timer_fires. destruct (wt_armed w !! n) as [[t id]|] eqn:Hn; [|done].
    apply (timed_clear w id n Hw). intros id' Hid. destruct (Ha id' n Hid) as [t' Ht']. congruence.
  - split; cbn; [|done]. intros id' n' [_ Hid]%lookup_delete_Some. by apply Ha.
  - unfold tracker_stopExecution. destruct (wt_waitingExecutions w !! id) as [n|] eqn:Hn; [|done].
    apply (timed_clear w id n Hw). intros id' Hid. destruct (Ha id n Hn) as [t Ht], (Ha id' n Hid) as [t' Ht']. congruence.
  - split; cbn; [done|]. intros n p Hp. apply Hf in Hp. lia.
Qed.

(** As long as the leadership is not lost, every execution listed has its timer, so that the
    tracker starts it when its wait ends; one whose wait ends soon is listed by the next poll. *)
Lemma listed_executions_have_timers events w :
  timed w -> Forall (fun e => e <> stepdown) events -> timed (tracker_run w events).
Proof. intros Hw He. unfold tracker_run. revert w Hw. induction He as [|e events He _ IH]; intros w Hw; [done|]. by apply IH, timed_step. Qed.

Lemma set_timer_lists now w row id : is_Some (wt_waitingExecutions w !! id) -> is_Some (wt_waitingExecutions (set_timer now w row) !! id).
Proof.
  intros Hid. unfold set_timer. destruct (wt_waitingExecutions w !! wr_id row) eqn:Hr; [done|]. cbn. rewrite lookup_insert_ne; [done|].
  intros Heq. subst id. rewrite Hr in Hid. by destruct Hid.
Qed.

Lemma set_timers_list now l w id :
  is_Some (wt_waitingExecutions w !! id) -> is_Some (wt_waitingExecutions (foldl (set_timer now) w l) !! id).
Proof. revert w. induction l as [|x l IH]; intros w Hw; [done|]. by apply IH, set_timer_lists. Qed.

Lemma poll_lists now rows w row :
  row ∈ rows -> due_soon now row = true -> is_Some (wt_waitingExecutions (getWaitingExecutions now rows w) !! wr_id row).
Proof.
  intros Hin Hd. unfold getWaitingExecutions. assert (row ∈ arr_filter (due_soon now) rows) as Hr by (by apply elem_of_arr_filter).
  revert w Hr. generalize (arr_filter (due_soon now) rows). intros l.
  induction l as [|x l IH]; intros w; [by intros ?%elem_of_nil|]. intros [<-|Hr]%elem_of_cons; cbn; [|by apply IH].
  apply set_timers_list. unfold set_timer. destruct (wt_waitingExecutions w !! wr_id row) eqn:Hw; [by rewrite Hw|].
  cbn. by rewrite lookup_insert_eq.
Qed.

(** ** Trying again ends *)

(** The attempts end with the first that succeeds, meets an error that is not worth another,
    or is the last allowed; what it met is the answer, and every earlier one failed. *)
Lemma withRetry_loop_spec {A} (operation : nat -> result ResumeError A) maxAttempts shouldRetry fuel attempt slept :
  (maxAttempts <= fuel + attempt)%nat -> (1 <= attempt <= maxAttempts)%nat ->
  let '(r, last, _) := withRetry_loop fuel attempt operation maxAttempts shouldRetry slept in
  (attempt <= last <= maxAttempts)%nat /\ r = operation last /\
  (forall i, (attempt <= i < last)%nat -> exists e, operation i = Err e /\ shouldRetry e = true) /\
  match r with Ok _ => True | Err e => last = maxAttempts \/ shouldRetry e = false end.
Proof.
  revert attempt slept. induction fuel as [|fuel IH]; intros attempt slept Hf Ha; cbn; destruct (operation attempt) as [a|e] eqn:Ho.
  - split_and!; try done; try lia; try (intros i Hi; lia).
  - split_and!; try done; try lia; try (intros i Hi; lia).
  - split_and!; try done; try lia; try (intros i Hi; lia).
  - destruct ((maxAttempts <=? attempt)%nat || negb (shouldRetry e)) eqn:Hs.
    + split_and!; try done; try lia; try (intros i Hi; lia). apply orb_true_iff in Hs as [Hs%Nat.leb_le|Hs%negb_true_iff]; [left; lia|by right].
    + apply orb_false_iff in Hs as [Hs%Nat.leb_gt Hr%negb_false_iff].
      specialize (IH (S attempt) (slept + 100 * 2 ^ (Z.of_nat attempt - 1)) ltac:(lia) ltac:(lia)).
      destruct (withRetry_loop _ _ _ _ _ _) as [[r last] sl]. destruct IH as (H1 & H2 & H3 & H4). split_and!; try done; try lia.
      intros i Hi. destruct (decide (i = attempt)) as [->|Hne]; [by exists e|]. apply H3. lia.
Qed.

Lemma withRetry_spec {A} (operation : nat -> result ResumeError A) maxAttempts shouldRetry :
  (1 <= maxAttempts)%nat ->
  let '(r, last, _) := withRetry operation maxAttempts shouldRetry in
  (1 <= last <= maxAttempts)%nat /\ r = operation last /\
  (forall i, (1 <= i < last)%nat -> exists e, operation i = Err e /\ shouldRetry e = true) /\
  match r with Ok _ => True | Err e => last = maxAttempts \/ shouldRetry e = false end.
Proof. intros Hm. apply withRetry_loop_spec; lia. Qed.

(** A parent is claimed only after an attempt to patch it said that it did. *)
Lemma claimed_parent_was_patched child patch start :
  resumeParentExecution child patch start = resumed -> exists i, (1 <= i <= 3)%nat /\ patch i = Ok true.
Proof.
  unfold resumeParentExecution, patch_and_claim, patchParent. destruct child as [[[]|]|]; try done;
    pose proof (withRetry_spec patch MAX_PARENT_RESUME_ATTEMPTS isRetryableResumeError ltac:(unfold MAX_PARENT_RESUME_ATTEMPTS; lia)) as H;
    destruct (withRetry patch _ _) as [[r last] sl]; destruct H as (Hl & Hr & _); destruct r as [[]|]; try done; intros _; by exists last.
Qed.

(** ** Where the code differs from its intent *)

(** Listed, with no timer set for it. *)
Definition stranded (id : string) (w : WaitTracker) : Prop :=
  is_Some (wt_waitingExecutions w !! id) /\ forall n t, wt_armed w !! n <> Some (t, id).

Lemma stranded_set id now w row : stranded id w -> stranded id (set_timer now w row).
Proof.
  intros [Hl Hn]. split; [by apply set_timer_lists|]. unfold set_timer. destruct (wt_waitingExecutions w !! wr_id row) eqn:Hr; [done|].
  cbn. intros n t. rewrite lookup_insert_Some. intros [[_ [= _ Heq]]|[_ H]]; [|by apply (Hn n t)]. subst id. rewrite Hr in Hl. by destruct Hl.
Qed.

Lemma foldr_delete_Some {V} (m : gmap nat V) l k v : foldr delete m l !! k = Some v -> m !! k = Some v.
Proof. induction l as [|x l IH]; [done|]. cbn. intros [_ H]%lookup_delete_Some. by apply IH. Qed.

(** An execution listed without a timer keeps that from being set for ever, polls and
    changes of leadership notwithstanding, unless something else starts or stops it. *)
Lemma stranded_stays id w events :
  stranded id w -> starts id ∉ events -> stops id ∉ events -> stranded id (tracker_run w events).
Proof.
  unfold tracker_run. revert w. induction events as [|e events IH]; intros w Hw Hs Hp; [done|].
  apply not_elem_of_cons in Hs as [Hse Hs], Hp as [Hpe Hp]. apply IH; [|done|done]. clear IH Hs Hp events. pose proof Hw as [Hl Hn].
  destruct e as [now rows|n|id'|id'| |]; cbn.
  - unfold getWaitingExecutions. generalize (arr_filter (due_soon now) rows). intros l. clear Hl Hn. revert w Hw.
    induction l as [|row l IH]; intros w Hw; [done|]. by apply IH, stranded_set.
  - unfold timer_fires. destruct (wt_armed w !! n) as [[t id']|] eqn:Ht; [|done]. split; cbn.
    + rewrite lookup_delete_ne; [done|]. intros ->. by apply (Hn n t).
    + intros m t' [_ H]%lookup_delete_Some. by apply (Hn m t').
  - split; cbn; [|done]. rewrite lookup_delete_ne; [done|]. congruence.
  - unfold tracker_stopExecution. destruct (wt_waitingExecutions w !! id') as [n|]; [|done]. split; cbn.
    + rewrite lookup_delete_ne; [done|]. congruence.
    + intros m t [_ H]%lookup_delete_Some. by apply (Hn m t).
  - done.
  - unfold stopTracking. destruct (wt_mainTimer w); [|done]. split; [done|]. cbn. intros m t H%foldr_delete_Some. by apply (Hn m t).
Qed.

(** Losing the leadership strands what was listed: taking it over again does not help. *)
Definition one_waiting : list WaitingRow := [{| wr_id := "1"; wr_status := es_waiting; wr_waitTill := Some 5000 |}].

Example stepdown_strands : stranded "1" (tracker_run new_tracker [takeover; poll 0 one_waiting; stepdown; takeover; poll 2000 one_waiting]).
Proof.
  split; [vm_compute; by eexists|]. intros n t.
  assert (wt_armed (tracker_run new_tracker [takeover; poll 0 one_waiting; stepdown; takeover; poll 2000 one_waiting]) = ∅) as -> by (vm_compute; done).
  done.
Qed.
